(* ===== verification/_CoqProject ===== *)
-Q . S2P
Prelude.v
EthTypes.v
RollupConfig.v
Frames.v
FrameQueue.v
Channel.v
ChannelBank.v
ChannelAssembler.v
SpanBatch.v
SpanTxs.v
Batches.v
BatchStages.v
Pipeline.v
Engine.v
EngineDeriver.v
SyncStart.v
L1Info.v
L1Logs.v
ChannelOut.v
ChannelIn.v
ChannelFlow.v
Blob.v
BlobCodec.v
DataSources.v
L1Traversal.v
Ssz.v
SszCodec.v
PayloadsQueue.v
NodeEvents.v
CLSync.v
Finalizer.v
AttributesHandler.v
PipelineDeriver.v
StatusTracker.v
EventSystem.v
Driver.v
Sequencer.v
OriginSelector.v
Node.v
NodeFlow.v
TxFees.v
TxManager.v
EntryDB.v
FromDA.v
FromDASearch.v
FromDALinks.v
DepSet.v
SupervisorTypes.v
CrossGraph.v
CrossCycle.v
HazardSet.v
CrossUpdate.v
LogDB.v
LogCodec.v
LogStream.v
LogRead.v
LogSearch.v
LogRecover.v
LogWrite.v
LogRefine.v
LogQuery.v
LogTheorems.v
ChainsDB.v
ChainsLinks.v
ChainsInv.v
ChainsOps.v
ChainsTheorems.v
Rewinder.v
RewinderTheorems.v
Processors.v
Indexing.v
Supervisor.v
SupervisorTheorems.v
P2PBase.v
Signer.v
Gossip.v
PayloadSync.v
GossipTheorems.v
GossipConcurrency.v
PayloadSyncTheorems.v
