(* ===== verification/Prelude.v ===== *)
(** * roothash-chain: verification of the rollup node's core

    ** The program

    roothash-chain is a rollup stack derived from the OP stack.  Its node
    ([src/rhs-node]) drives an execution engine: the derivation pipeline
    ([rollup/derive]) turns batch data and the chain's configuration into
    payload attributes, the engine controller and the engine deriver
    ([rollup/engine]) have the execution engine build, execute and adopt the
    blocks and keep the unsafe, safe and finalized heads, the sync code
    ([rollup/sync]) finds the heads to start from.  Around them CL sync
    ([rollup/clsync]) feeds payloads from the network to the engine, the
    attributes handler ([rollup/attributes]) feeds it derived attributes, the
    finalizer ([rollup/finality]) promotes the finalized head, the sequencer
    ([rollup/sequencing]) produces blocks, the status tracker
    ([rollup/status]) publishes the heads, and the driver ([rollup/driver])
    schedules the steps.  These derivers do not call each other: each handles
    the events of one queue ([rollup/event]) and emits new ones.  In this chain the pipeline is reduced to
    the attributes queue: the frame, channel and batch stages are complete in
    the source but are not linked into it; they are modelled as the library
    code they are.

    ** Files and the code they model (paths under src/rhs-node/rollup)

    - [Prelude] (this file): machine integers with their wrap-around, errors
      ([derive/error.go]) and results with panics, bytes, readers, varints,
      the shared lemmas on lists and on sums over maps.
    - [EthTypes]: the records of [src/rhs-service/eth]: block references,
      payload attributes, execution payloads, the system configuration and its
      scalar encodings.
    - [RollupConfig]: [types.go] (Config, Check, fork predicates, activation
      blocks, block times, engine API versions) and [chain_spec.go].
    - [Frames], [FrameQueue]: [derive/frame.go], [derive/frame_queue.go].
    - [Channel], [ChannelBank], [ChannelAssembler]: [derive/channel.go], the
      pre-Holocene bank, the Holocene assembler and the mux between them.
    - [SpanBatch]: [derive/span_batch.go], span_batch_util.go,
      singular_batch.go, batch.go.
    - [SpanTxs]: the transaction columns of span batches,
      [derive/span_batch_txs.go], span_batch_tx.go and [ReadTxData].
    - [Batches]: the validity rules of [derive/batches.go] and
      payload_util.go.
    - [BatchStages]: base_batch_stage.go, batch_queue.go, batch_stage.go,
      batch_mux.go.
    - [Pipeline]: attributes.go, attributes_queue.go, pipeline.go.
    - [Engine], [EngineDeriver]: [engine/engine_controller.go], and the event
      handlers of events.go, build_*.go, payload_*.go with engine_update.go
      and the queue of [event/executor_global.go].
    - [SyncStart]: [sync/start.go] and [engine/engine_reset.go].
    - [L1Info], [L1Logs]: [derive/l1_block_info.go], deposit_source.go,
      l2block_util.go on the ABI words of [src/rhs-service/solabi/util.go];
      [derive/deposit_log.go], deposits.go and system_config.go.
    - [ChannelOut], [ChannelIn], [ChannelFlow]: [derive/channel_out.go],
      span_channel_out.go, channel_compressor.go and types.go; [BatchReader] of
      channel.go and channel_in_reader.go; what is written to a channel is read
      from it.
    - [Blob], [BlobCodec]: [src/rhs-service/eth/blob.go] and its correctness.
    - [DataSources], [L1Traversal]: [derive/data_source.go],
      calldata_source.go, blob_data_source.go; l1_traversal.go,
      l1_traversal_managed.go and l1_retrieval.go.
    - [Ssz], [SszCodec]: [src/rhs-service/eth/ssz.go], its correctness, and the
      payloads that the decoder gives.
    - [PayloadsQueue], [CLSync]: [clsync/payloads_queue.go] on the loops of
      container/heap, and [clsync/clsync.go].
    - [NodeEvents]: the event types the derivers exchange.
    - [Finalizer], [AttributesHandler], [PipelineDeriver]:
      [finality/finalizer.go], [attributes/attributes.go] with
      engine_consolidate.go, [derive/deriver.go].
    - [StatusTracker]: [status/ringbuffer.go], l1_head_buffer.go,
      l1_tracker.go, status.go.
    - [EventSystem]: [event/system.go] and [event/executor_global.go], generic
      in the derivers.
    - [Driver]: [driver/steps.go] with the backoff of
      [src/rhs-service/retry/strategies.go], and the sync deriver and EL-sync
      helpers of [driver/state.go].
    - [Sequencer], [OriginSelector]: [sequencing/sequencer.go] with
      [async/asyncgossiper.go]; [sequencing/origin_selector.go] with
      [confdepth/conf_depth.go].
    - [Node]: [NewDriver] of [driver/driver.go] and the event loop of
      [driver/state.go] around all the derivers.
    - [NodeFlow]: the way of one payload through the whole node.
    - [TxFees], [TxManager]: the transaction manager of
      [src/rhs-service/txmgr]: send_state.go, the configuration check of
      cli.go, estimator.go and txmgr.go; the sending loop with its receipt
      pollers is a machine of interleaved steps.
    - [EntryDB]: the entry files of the supervisor,
      [src/rhs-supervisor/supervisor/backend/db/entrydb], on a file whose
      operations may fail, and the interface [EntryStore] they implement.
    - [FromDA], [FromDASearch], [FromDALinks]: the derivation database
      [db/fromda] on that interface; its entries and bisection; its invariant
      and its queries.
    - [DepSet]: the dependency set [backend/depset/static.go] and the messages
      of [supervisor/types/types.go]; the order of map iterations.
    - [SupervisorTypes]: access lists and their time rules,
      [supervisor/types/types.go]; output roots and super roots,
      [src/rhs-service/eth/output.go] and super_root.go.
    - [CrossGraph], [CrossCycle], [HazardSet], [CrossUpdate]: the cross-chain
      checks [backend/cross]: cycle.go, hazard_set.go, the frontier checks and
      the two promotion routines.
    - [LogDB]: the log database [db/logs]: entry.go, entries.go, state.go,
      iterator.go, db.go.  Its proofs: [LogCodec] (entries), [LogStream] (a
      history and the entries that encode it), [LogRead], [LogSearch] (the
      iterator and the search on such entries), [LogRecover] (scanning, opening
      and trimming), [LogWrite] (what [infer] writes), [LogRefine]
      (the abstract log and the simulation), [LogQuery] (the queries),
      [LogTheorems].
    - [ChainsDB]: the chains database [backend/db]: db.go, anchor.go,
      update.go, query.go, on the two databases above, and the events of
      [backend/superevents].  Its proofs: [ChainsLinks] (updates of the
      derivation databases), [ChainsInv] (the invariant and the
      announcements), [ChainsOps] (all operations), [ChainsTheorems].
    - [Rewinder], [RewinderTheorems]: [backend/l1access/l1_accessor.go] and
      [backend/rewinder/rewinder.go], and what a rewind leaves.
    - [Processors], [Indexing]: [backend/processors]: executing_message.go,
      log_processor.go, chain_processor.go, and what a request stores.
    - [Supervisor], [SupervisorTheorems]: [backend/backend.go]: opening and
      attaching, the check of access lists, the labels and super roots.
    - [P2PBase]: LRU caches, snappy and signatures, as interfaces with laws.
      [Signer]: block signing, [src/rhs-service/signer].  [Gossip]: the block
      topics of [src/rhs-node/p2p/gossip.go]; [GossipTheorems] (verdicts and
      the way from a publisher to a subscriber), [GossipConcurrency]
      (validators that run at once).  [PayloadSync], [PayloadSyncTheorems]:
      [src/rhs-node/p2p/sync.go], the client as the steps of its goroutines,
      the protocol and the server.

    ** Conventions

    A component's state is a record with the source's fields, less loggers,
    metrics, locks and contexts; an operation takes the state and returns the
    new one with its result.  [result] has a constructor for a run-time
    panic, so that "never panics" is a statement.  A [uint64] is a [Z] and
    every arithmetic operation of the source that can wrap is written with
    the wrapping operators.  Hashes and addresses are integers; byte strings
    are lists of integers below 256.  A previous stage, the execution client
    and the engine are interfaces: a class or a record of their methods.  The
    classes are [NextDataProvider], [NextFrameProvider],
    [RawChannelProvider] and [NextBatchProvider]; [FrameQueue] is an instance
    of the frame interface, so the theorems on the channel stages hold of the
    real queue.  [SpanBatchTxs] is the interface of the transaction columns
    and [SpanBatchTxsLaws] the laws the span-batch codec relies on, which
    [SpanTxs] proves of the columns of the source; [EntryStore] and
    [EntryStoreLaws] are the interface of the databases of the supervisor,
    which [EntryDB] implements on any file with [DataAccessLaws].  Transactions and RLP of
    go-ethereum are the class [EthLib] with the documented behaviour
    [EthLibLaws], of which [SpanTxs] gives a concrete instance; the EIP-1559
    codec and the upgrade transactions come from libraries or constant tables
    and are parameters.  [Compression], [Decompression] and [RLPBytes] are the
    streams of zlib, brotli and rlp, with [CompressionLaws] and [RLPBytesLaws].
    Where the source shares an object by pointer and writes to it (the
    configuration in [PayloadToBlockRef]), the operations return it.

    A deriver's handler returns the new state and the events it emits, in
    order; it is [None] for an event it ignores and [Some None] when it
    panics.  Most handlers emit only at the end of their work, so the list is
    all the queue sees; the sync deriver calls [Drain] in the middle, and
    [EventSystem] therefore gives handlers as programs ([act]) that emit,
    access the shared state and drain.  In [Node] the components live in one
    record with the one configuration they share by pointer, and what the
    outside world answers ([World]: the execution client, the clock, random
    numbers, the network) may differ at every handled event.  The event loop
    is the relation [loop_reaches]: a drain and one ready case of the select
    per step, in any order.

    ** Loops and fuel

    Loops over a list recurse on it.  The other loops run on fuel, and the
    theorems show that it is enough: [prune_loop] restarts at most once per
    frame; [ingest_loop] of the assembler ends when the provider runs dry;
    [parse_loop] consumes input at each frame; [ReadUvarint] has the ten
    bytes of the source; [bank_prune_loop] pops a channel per round;
    [Drain] needs as many steps as events are processed, and 30 are enough to
    adopt a sealed block; [walk_loop] needs one step per block between the
    finalized and the unsafe head.  The sift loops [up] and [down] follow a
    path of the heap and have its length; [drop_loop] and [forkchoice_loop]
    pop a payload per round; [sys_Drain] has no bound of its own (handlers may
    answer each other for ever): a drain that ends ends the same with more
    fuel ([Drain_mono]), ten steps are enough for a gossiped payload to become
    every head, and invariants hold whenever it ends.  [search_loop] has one
    round per entry and halves the range.  The loops of the log iterator
    have one step per entry of the store and one for its end, and [infer_loop]
    the ten steps after which the source panics.  [l1_walk] has a step per L1
    block down to zero and [unsafe_walk] one per height of its range.
    [range_loop] has one step per number of its range and one for its end.
    [access_loop] takes entries off its list in every round and [read_outputs]
    64 bytes of its input.
    [output_loop] has one step per frame of full size and one for the last;
    [close_loop] ends unless the closing frame has the last number.

    ** What the theorems show

    - Codecs: frames, span-batch bits, raw span batches, their transaction
      columns and the scalar encodings round-trip, and parsing frames accepts
      exactly the encodings; what the batcher appends to a span batch is what
      the verifier derives from it; payloads and envelopes survive SSZ, and
      the messages on which the decoder panics are characterised.
    - L1 data: the L1 block info has one encoding per fork and its deposit
      reads back; deposit logs read back; blobs carry data and only encodings
      decode; with a configured data source that advances when a block is done,
      the walk over L1 hands out the batcher data of a chain of blocks in order,
      whatever the node fails to answer.
    - Batcher to verifier: the blocks that a span channel takes are, through
      compression, fewer than 65536 frames, reassembly and decoding, the batches
      that the channel reader hands out.
    - Channels: reassembly gives the data back whatever the arrival order, or
      in order where the channel requires order, and then refuses other orders;
      the bank and channel invariants are preserved; pruning and reading do what
      their specification says; the assembler terminates and forwards whole
      channels only.
    - Batches: the singular check is equivalent to a declarative rule; blocks
      of accepted span batches obey the rules of their own L1 origin; every
      batch a stage returns extends its parent; expired windows make progress.
    - Pipeline: attributes are determined by the parent and the active forks,
      are handed out only after a confirmed reset, and a reset pipeline
      recovers in two steps.
    - Engine: forkchoice updates carry exactly the heads and are retried until
      they succeed, finality is monotone, restoring the unsafe head leaves
      safety alone, and a sealed block becomes the head in a bounded number
      of events.
    - Queues and caches: the heap of payloads refines a priority queue, the
      ring buffer a list, the cache of L1 heads the chain of the last head,
      the finalizer an abstract finalizer with two fields.
    - Derivers: CL sync drops stale payloads only and processes a child of the
      unsafe head; the attributes handler builds and promotes only what
      matches; attributes are handed out one confirmation at a time; the
      backoff of the scheduler is bounded; the origin selector never chooses
      an origin from the future.
    - Sequencer: it builds one block at a time, on its latest head, in every
      reachable state; a round of sequencing gossips the block before it is
      processed and ends where it began, one block further.
    - Event system and node: what each handler keeps survives every drain; a
      critical error freezes the node; in the composed node a gossiped payload
      becomes every head within one drain, and no run of the event loop resets
      the backoff in CL sync.
    - Transaction manager: the publication state is a function of the history
      of its calls; in every interleaving a returned receipt belongs to a
      version of the transaction and is confirmed, and the published versions
      replace each other by the pool's rules; publishing ends.
    - Supervisor databases: a file of entries is a list, whatever fails; the
      links of the derivation database keep their order under all updates,
      and bisection finds what a scan finds; the log database refines a
      history of blocks and logs, taking what fits unless the store fails,
      recovers a prefix of it from any cut of its file, and its queries answer
      what a stored history says.  The chains database
      keeps all of them in order under every operation, one chain at a time,
      announces only what is stored, starts a chain at its anchor, and its
      finality follows the cross-safe database and never goes back.
    - Supervisor processing: a request indexes whole blocks in order, drops what
      a failed block wrote and takes the next client when there was no progress;
      after an L1 reorg, and only then, the local-safe and cross-safe links of a
      chain are cut to its latest confirmed source, within the confirmation
      depth.
    - Supervisor queries: an access list is accepted only for messages that are
      logged, timely and safe enough; a super root is the outputs of the nodes
      at blocks of the cross-safe databases; access lists and super roots read
      back.
    - Gossip: an accepted message has the sequencer's signature over these bytes
      for this chain and a block that is new and in time, and such a message
      with a valid block hash is accepted; before Ecotone what a publisher sends
      is what a subscriber gets; interleaved validators accept a bounded
      number of blocks at a height.
    - Block sync: in every interleaving only blocks that a sync target vouches
      for are forwarded; a quarantined chain is forwarded whole; range requests
      end and ask for what is missing; a served block whose hash the client can
      check arrives as it was.
    - Supervisor cross-safety: for every map order the cycle check accepts what
      has no cycle and refuses the cycles of its own edges, which are all cycles
      when every initiating log executes a message; hazard sets are closed and
      always end, and only blocks that pass every check are promoted, at the L1
      block that the candidate determines.
    - Configuration: Check accepts exactly the stated configurations, block
      times and numbers are inverse, forks have one activation block and the
      fork tracker follows them.
    - Behaviour the comments do not announce is stated as the code has it:
      [closing_frame_undercounts], [CheckForkActivation_stuck],
      [ChannelMux_Reset_bank], [overlapping_span_needs_epoch_zero],
      [span_accepts_set_code], [reset_keeps_stale_span],
      [past_batch_is_critical], [upgrade_transactions_skipped],
      [deposits_only_panics], [InsertUnsafePayload_finalizes],
      [initializeUnknowns_zero_safe], [force_reset_spec],
      [FindL2Heads_rewinds_to_finalized], [dropped_payload_refused],
      [CLSync_total], [Finalizer_refines],
      [consolidation_ignores_transactions], [critical_lost],
      [syncUnsafeBlocks_stops_short], [checkSyncUnsafeBlocks_wraps],
      [max_safe_lag_overridden], [action_after_stop], [node_never_idle],
      [batcher_update_halts], [NewDataSourceFactory_opens_nothing],
      [failed_open_loses_block], [UnmarshalSSZ_panics_iff],
      [envelope_short_read], [empty_root_lost], [spins_for_ever],
      [Send_never_pending], [reset_reuses_nonce],
      [late_goroutine_polls_replacement], [mem_Truncate_last],
      [invalidate_first_empties], [failed_replacement_loses_placeholder],
      [candidate_zero_block], [missed_cycle], [frontier_skips],
      [link_index_truncated], [oversized_log_stops], [retry_refused],
      [early_log_blocks_first_seal], [initialized_without_local_safe],
      [findRevision_hides_conflict], [rewind_needs_genesis],
      [young_chain_unprotected], [genesis_failure_hidden],
      [ForceCloseTxData_spec], [force_close_refused], [frame_numbers_wrap],
      [beacon_root_rejected], [signed_envelope_needs_root],
      [half_chain_panics], [half_chain_reads_beyond],
      [super_root_before_attach], [stop_before_start],
      [access_list_not_canonical], [gossiped_payload_finalized],
      [schedule_accepts_30], [sync_server_deadlock], [stuck_in_flight],
      [lost_registration], [CheckBlockHash_ignores], [missing_root_response].

    ** Not modelled

    Compression and RLP themselves, tracing, rate limiting and metrics, timers
    and goroutines other than those of the block sync client, the transaction
    manager and the gossip validators (their effects are inputs of the event
    loop), the libp2p host, discovery and peer scores, RPC, the sync-node
    controllers, the status tracker and the services of the supervisor, the fault-proof program and the deployer. *)

From stdpp Require Export base tactics option list numbers strings gmap.
From Stdlib Require Export ZArith Lia.

#[global] Set Default Goal Selector "!".

Declare Scope go_scope.
Delimit Scope go_scope with go.
Open Scope Z_scope.

Create HintDb rollup.

(** ** Machine integers

    A [uint64] is an integer of [Z] in [[0, 2^64)]; every arithmetic
    operation of the source wraps, so it is written with [u64]. *)

Definition two64 : Z := 18446744073709551616.
Definition two16 : Z := 65536.
Definition two32 : Z := 4294967296.

Definition u64 (z : Z) : Z := z mod two64.
Definition u32 (z : Z) : Z := z mod two32.
Definition u16 (z : Z) : Z := z mod two16.

Definition is_u64 (z : Z) : Prop := 0 <= z < two64.
Definition is_u32 (z : Z) : Prop := 0 <= z < two32.
Definition is_u16 (z : Z) : Prop := 0 <= z < two16.

Notation "a +u b" := (u64 (a + b)) (at level 50, left associativity) : go_scope.
Notation "a -u b" := (u64 (a - b)) (at level 50, left associativity) : go_scope.
Notation "a *u b" := (u64 (a * b)) (at level 40, left associativity) : go_scope.
Open Scope go_scope.

(** [int(x)] and [int64(x)] of a [uint64]. *)
Definition two63 : Z := 9223372036854775808.
Definition int_of (x : Z) : Z := if x <? two63 then x else x - two64.

Lemma int_of_small x : x < two63 -> int_of x = x.
Proof. intros H. unfold int_of. by rewrite (proj2 (Z.ltb_lt _ _)). Qed.

Lemma u64_small z : is_u64 z -> u64 z = z.
Proof. unfold is_u64, u64. intros. by apply Z.mod_small. Qed.

Lemma u64_range z : is_u64 (u64 z).
Proof. unfold is_u64, u64. by apply Z.mod_pos_bound. Qed.

Lemma u16_small z : is_u16 z -> u16 z = z.
Proof. unfold is_u16, u16. intros. by apply Z.mod_small. Qed.

(** [u64_solve] normalises every wrapping operation to a division equation
    and calls [lia]. *)
Ltac u64_unfold :=
  unfold is_u64, is_u32, is_u16, u64, u32, u16, two64, two32, two16 in *.
Ltac u64_solve :=
  u64_unfold; Z.div_mod_to_equations; lia.

(** ** Errors and results *)

Inductive Level : Type := LevelTemporary | LevelReset | LevelCritical.

(** The error values the code compares or classifies.  [Msg] is
    [errors.New]/[fmt.Errorf] without a wrapped error, [Wrap] is
    [fmt.Errorf] with [%w]; the string is the constant part of the
    message.  [Leveled l e] is the [derive.Error] struct around [e]. *)
Inductive error : Type :=
  | EOF
  | UnexpectedEOF
  | NotFound
  | NotEnoughData
  | EngineELSyncing
  | ErrNoFCUNeeded
  | DuplicateErr
  | ErrTooBigSpanBatchSize
  | ErrEmptySpanBatch
  | ErrOverflow
  | Msg (s : string)
  | RpcError (code : Z)
  | Wrap (s : string) (e : error)
  | Leveled (l : Level) (e : error).

(** A Go call that returns [(v, err)] is an [Ok v] or an [Err e]; [Panic]
    is a run-time panic (index out of range, nil dereference, an explicit
    [panic]), which unwinds the caller. *)
Inductive result (A : Type) : Type :=
  | Ok (a : A)
  | Err (e : error)
  | Panic.
Arguments Ok {A} a.
Arguments Err {A} e.
Arguments Panic {A}.

#[global] Instance Level_eq_dec : EqDecision Level.
Proof. solve_decision. Defined.
#[global] Instance error_eq_dec : EqDecision error.
Proof. solve_decision. Defined.
#[global] Instance result_eq_dec {A} `{EqDecision A} : EqDecision (result A).
Proof. solve_decision. Defined.

Definition rbind {A B} (r : result A) (k : A -> result B) : result B :=
  match r with
  | Ok a => k a
  | Err e => Err e
  | Panic => Panic
  end.

Definition map_err {A} (f : error -> error) (r : result A) : result A :=
  match r with
  | Ok a => Ok a
  | Err e => Err (f e)
  | Panic => Panic
  end.

Notation "'let*' x ':=' r 'in' k" := (rbind r (fun x => k))
  (at level 10, x pattern, r at level 100, k at level 200) : go_scope.

Lemma rbind_Ok {A B} (r : result A) (k : A -> result B) b :
  rbind r k = Ok b <-> exists a, r = Ok a /\ k a = Ok b.
Proof. destruct r; simpl; naive_solver. Qed.

Lemma Ok_inj {A} (x y : A) : Ok x = Ok y -> x = y.
Proof. by intros [= ->]. Qed.

Lemma map_err_no_panic {A} f (r : result A) : r <> Panic -> map_err f r <> Panic.
Proof. by destruct r. Qed.

Lemma map_err_Ok {A} f (r : result A) a : map_err f r = Ok a <-> r = Ok a.
Proof. destruct r; simpl; naive_solver. Qed.

(** [errors.Is(err, target)] for a plain sentinel: the chain of wrapped
    errors contains the sentinel. *)
Fixpoint errors_Is (e target : error) : bool :=
  bool_decide (e = target) ||
  match e with
  | Wrap _ e' => errors_Is e' target
  | Leveled _ e' => errors_Is e' target
  | _ => false
  end.

(** [errors.Is(err, target)] for a target that is a [derive.Error]: some
    [derive.Error] of the chain has its level. *)
Fixpoint Error_Is (e : error) (l : Level) : bool :=
  match e with
  | Wrap _ e' => Error_Is e' l
  | Leveled l' e' => bool_decide (l' = l) || Error_Is e' l
  | _ => false
  end.

(** [errors.As(err, &rpcErr)]: the code of the first RPC error of the chain. *)
Fixpoint errors_As_rpc (e : error) : option Z :=
  match e with
  | RpcError code => Some code
  | Wrap _ e' => errors_As_rpc e'
  | Leveled _ e' => errors_As_rpc e'
  | _ => None
  end.

(** ** Bytes

    A byte is an integer of [Z] in [[0, 256)], a [[]byte] a list of them. *)

Abbreviation bytes := (list Z).

Definition is_byte (b : Z) : Prop := 0 <= b < 256.
Definition is_bytes (l : bytes) : Prop := Forall is_byte l.

Lemma byte_brute (P : Z -> bool) :
  forallb P (Z.of_nat <$> seq 0 256) = true -> forall b, is_byte b -> P b = true.
Proof.
  intros H b Hb. rewrite forallb_forall in H. apply H.
  apply list_elem_of_In, list_elem_of_fmap. exists (Z.to_nat b).
  unfold is_byte in Hb. split; [lia|]. apply elem_of_seq. lia.
Qed.

Lemma is_bytes_zeros n : is_bytes (replicate n 0).
Proof. apply Forall_replicate. done. Qed.

Lemma is_bytes_take n l : is_bytes l -> is_bytes (take n l).
Proof. apply Forall_take. Qed.

Lemma is_bytes_drop n l : is_bytes l -> is_bytes (drop n l).
Proof. apply Forall_drop. Qed.

#[export] Hint Resolve is_bytes_take is_bytes_drop : rollup.

Lemma is_bytes_check l :
  forallb (fun b => (0 <=? b) && (b <? 256)) l = true -> is_bytes l.
Proof.
  rewrite forallb_forall. intros H. apply List.Forall_forall. intros b Hb.
  specialize (H b Hb). unfold is_byte. lia.
Qed.

(** Big-endian fixed-width encoding ([binary.BigEndian], [big.Int.FillBytes])
    and decoding ([binary.Read], [big.Int.SetBytes]). *)
Fixpoint be_encode (n : nat) (z : Z) : bytes :=
  match n with
  | O => []
  | S m => (z / 256 ^ Z.of_nat m) mod 256 :: be_encode m z
  end.

Fixpoint be_decode (l : bytes) : Z :=
  match l with
  | [] => 0
  | b :: t => b * 256 ^ Z.of_nat (length t) + be_decode t
  end.

Lemma length_be_encode n z : length (be_encode n z) = n.
Proof. induction n; simpl; congruence. Qed.

Lemma is_bytes_be_encode n z : is_bytes (be_encode n z).
Proof.
  induction n; simpl; constructor; [|done].
  unfold is_byte. by apply Z.mod_pos_bound.
Qed.

Lemma be_decode_encode n z : be_decode (be_encode n z) = z mod 256 ^ Z.of_nat n.
Proof.
  induction n as [|n IH]; simpl be_encode; simpl be_decode.
  { by rewrite Z.mod_1_r. }
  rewrite length_be_encode, IH, Nat2Z.inj_succ, Z.pow_succ_r by lia.
  rewrite (Z.mul_comm 256), Z.rem_mul_r; [lia| |lia].
  apply Z.pow_nonzero; lia.
Qed.

Lemma be_decode_bound l : is_bytes l -> 0 <= be_decode l < 256 ^ Z.of_nat (length l).
Proof.
  induction 1 as [|b t Hb Ht IH]; simpl be_decode; [simpl; lia|].
  rewrite length_cons, Nat2Z.inj_succ, Z.pow_succ_r by lia.
  unfold is_byte in Hb. nia.
Qed.

Lemma be_encode_mod n m z : (n <= m)%nat ->
  be_encode n (z mod 256 ^ Z.of_nat m) = be_encode n z.
Proof.
  induction n as [|n IH]; intros Hle; simpl; [done|].
  rewrite IH by lia. f_equal.
  replace (256 ^ Z.of_nat m) with (256 ^ Z.of_nat n * (256 * 256 ^ Z.of_nat (m - n - 1))).
  2:{ rewrite <- Z.pow_succ_r, <- Z.pow_add_r by lia. f_equal. lia. }
  assert (0 < 256 ^ Z.of_nat n) by (apply Z.pow_pos_nonneg; lia).
  assert (0 < 256 ^ Z.of_nat (m - n - 1)) by (apply Z.pow_pos_nonneg; lia).
  rewrite Z.rem_mul_r, Z.add_comm, Z.mul_comm, Z.div_add_l by lia.
  rewrite (Z.div_small (z mod _)) by (apply Z.mod_pos_bound; lia).
  rewrite Z.add_0_r, Z.rem_mul_r by lia.
  rewrite (Z.mul_comm 256), Z_mod_plus_full. by apply Z.mod_small, Z.mod_pos_bound.
Qed.

Lemma be_encode_decode l : is_bytes l -> be_encode (length l) (be_decode l) = l.
Proof.
  induction 1 as [|b t Hb Ht IH]; [done|].
  pose proof (be_decode_bound t Ht). simpl. f_equal.
  - rewrite Z.div_add_l by (apply Z.pow_nonzero; lia).
    rewrite Z.div_small by done. rewrite Z.add_0_r. by apply Z.mod_small.
  - rewrite <- (be_encode_mod _ (length t)) by done.
    rewrite Z.add_comm, Z_mod_plus_full, Z.mod_small by done. done.
Qed.

#[global] Arguments be_encode : simpl never.

(** ** Readers

    A [bytes.Reader]/[bytes.Buffer] is the list of the unread bytes. *)

(** [io.ReadFull] into a buffer of [n] bytes. *)
Definition ReadFull (n : nat) (r : bytes) : result (bytes * bytes) :=
  if decide (n = 0%nat) then Ok ([], r)
  else match r with
       | [] => Err EOF
       | _ => if decide (length r < n)%nat then Err UnexpectedEOF
              else Ok (take n r, drop n r)
       end.

Definition ReadByte (r : bytes) : result (Z * bytes) :=
  match r with
  | [] => Err EOF
  | b :: t => Ok (b, t)
  end.

(** [binary.Read] of an unsigned integer of [n] bytes, big endian. *)
Definition ReadBE (n : nat) (r : bytes) : result (Z * bytes) :=
  let* (b, r') := ReadFull n r in Ok (be_decode b, r').

Lemma ReadFull_app n l r : length l = n -> ReadFull n (l ++ r) = Ok (l, r).
Proof.
  intros <-. unfold ReadFull. case_decide as Hn.
  { apply nil_length_inv in Hn. by subst. }
  destruct (l ++ r) eqn:E; [by destruct l|]. rewrite <- E.
  rewrite decide_False by (rewrite length_app; lia).
  by rewrite take_app_length, drop_app_length.
Qed.

Lemma ReadFull_Ok n r l r' :
  ReadFull n r = Ok (l, r') -> r = l ++ r' /\ length l = n.
Proof.
  unfold ReadFull. case_decide; [naive_solver|].
  destruct r as [|b t] eqn:E; [done|]. case_decide; [done|].
  intros [= <- <-]. split; [by rewrite take_drop|].
  rewrite length_take. lia.
Qed.

Lemma ReadBE_app n z r : 0 <= z < 256 ^ Z.of_nat n ->
  ReadBE n (be_encode n z ++ r) = Ok (z, r).
Proof.
  intros Hz. unfold ReadBE. rewrite ReadFull_app by apply length_be_encode.
  simpl. by rewrite be_decode_encode, Z.mod_small.
Qed.

Lemma ReadBE_Ok n r z r' : is_bytes r -> ReadBE n r = Ok (z, r') ->
  r = be_encode n z ++ r' /\ 0 <= z < 256 ^ Z.of_nat n.
Proof.
  intros Hr. unfold ReadBE. intros ([l r''] & Hl & [= <- <-])%rbind_Ok.
  apply ReadFull_Ok in Hl as [-> <-]. apply Forall_app in Hr as [Hl _].
  rewrite be_encode_decode by done. split; [done|]. by apply be_decode_bound.
Qed.

(** ** Unsigned varints ([encoding/binary]) *)

Definition MaxVarintLen64 : nat := 10.

(** [binary.ReadUvarint]; [left] is [MaxVarintLen64 - i]. *)
Fixpoint ReadUvarint_loop (left : nat) (x s : Z) (r : bytes) : result (Z * bytes) :=
  match left with
  | O => Err ErrOverflow
  | S left' =>
      match r with
      | [] => Err (if decide (left = MaxVarintLen64) then EOF else UnexpectedEOF)
      | b :: t =>
          if b <? 128 then
            if (bool_decide (left' = 0%nat)) && (1 <? b) then Err ErrOverflow
            else Ok (Z.lor x (u64 (Z.shiftl b s)), t)
          else ReadUvarint_loop left' (Z.lor x (u64 (Z.shiftl (Z.land b 127) s))) (s + 7) t
      end
  end.

Definition ReadUvarint (r : bytes) : result (Z * bytes) :=
  ReadUvarint_loop MaxVarintLen64 0 0 r.

(** [binary.PutUvarint]; a [uint64] takes at most [MaxVarintLen64] bytes. *)
Fixpoint PutUvarint_loop (fuel : nat) (x : Z) : bytes :=
  match fuel with
  | O => []
  | S f => if x <? 128 then [x]
           else Z.lor (x mod 256) 128 :: PutUvarint_loop f (Z.shiftr x 7)
  end.

Definition PutUvarint (x : Z) : bytes := PutUvarint_loop MaxVarintLen64 x.

Lemma lor_disjoint_add a b n : 0 <= n -> 0 <= a < 2 ^ n ->
  Z.lor a (b * 2 ^ n) = a + b * 2 ^ n.
Proof.
  intros Hn Ha. rewrite <- Z.shiftl_mul_pow2 by done.
  assert (Z.land a (Z.shiftl b n) = 0) as Hd.
  { apply Z.bits_inj'. intros i Hi.
    rewrite Z.land_spec, Z.bits_0, Z.shiftl_spec by done.
    destruct (Z.lt_ge_cases i n).
    - by rewrite (Z.testbit_neg_r b), andb_false_r by lia.
    - rewrite <- (Z.mod_small a (2 ^ n)), Z.mod_pow2_bits_high by lia. done. }
  rewrite Z.add_nocarry_lxor, Z.lxor_lor by done. done.
Qed.

Lemma cont_byte c : is_byte c ->
  (Z.lor c 128 <? 128) = false /\ Z.land (Z.lor c 128) 127 = c mod 128
  /\ is_byte (Z.lor c 128).
Proof.
  intros Hc.
  assert (negb (Z.lor c 128 <? 128) && (Z.land (Z.lor c 128) 127 =? c mod 128)
            && ((0 <=? Z.lor c 128) && (Z.lor c 128 <? 256)) = true) as H.
  { revert c Hc. apply byte_brute. vm_compute. reflexivity. }
  unfold is_byte. destruct (Z.lor c 128 <? 128); simpl in H; [done|lia].
Qed.

Lemma ReadUvarint_loop_Put left x acc rest :
  (0 < left <= 10)%nat ->
  let s := 70 - 7 * Z.of_nat left in
  0 <= acc < 2 ^ s -> 0 <= x < 2 ^ (64 - s) ->
  ReadUvarint_loop left acc s (PutUvarint_loop left x ++ rest)
  = Ok (acc + x * 2 ^ s, rest).
Proof.
  revert x acc. induction left as [|left IH]; intros x acc Hl s Ha Hx; [lia|].
  assert (0 <= s) by lia.
  assert (0 < 2 ^ s) by (apply Z.pow_pos_nonneg; lia).
  assert (2 ^ (64 - s) * 2 ^ s = two64) as H64.
  { destruct (Z.le_gt_cases s 64); [|rewrite Z.pow_neg_r in Hx by lia; lia].
    rewrite <- Z.pow_add_r by lia. by replace (64 - s + s) with 64 by lia. }
  assert (is_u64 (x * 2 ^ s)) as Hxs.
  { unfold is_u64. rewrite <- H64. nia. }
  simpl PutUvarint_loop. destruct (x <? 128) eqn:E; simpl.
  - rewrite E. destruct (bool_decide (left = 0%nat)) eqn:E0; simpl.
    + apply bool_decide_eq_true in E0. subst left.
      replace (64 - s) with 1 in Hx by lia.
      rewrite (proj2 (Z.ltb_ge 1 x)) by lia.
      rewrite Z.shiftl_mul_pow2, u64_small by done.
      by rewrite lor_disjoint_add.
    + rewrite Z.shiftl_mul_pow2, u64_small by done.
      by rewrite lor_disjoint_add.
  - destruct (cont_byte (x mod 256)) as (-> & -> & _).
    { by apply Z.mod_pos_bound. }
    assert (x mod 256 mod 128 = x mod 128) as -> by (Z.div_mod_to_equations; lia).
    pose proof (Z.mod_pos_bound x 128 eq_refl).
    assert (left <> 0%nat).
    { intros ->. replace (64 - s) with 1 in Hx by lia. lia. }
    assert (64 - s = 7 + (64 - (s + 7))) as Hs by lia.
    rewrite Hs, Z.pow_add_r in Hx by lia.
    assert (2 ^ (s + 7) = 2 ^ s * 128) as Hs7 by (by rewrite Z.pow_add_r by lia).
    pose proof (Z.div_mod x 128).
    assert (is_u64 (x mod 128 * 2 ^ s)) by (unfold is_u64 in *; nia).
    rewrite Z.shiftl_mul_pow2, u64_small by done.
    rewrite lor_disjoint_add by done.
    rewrite Z.shiftr_div_pow2 by lia. change (2 ^ 7) with 128 in *.
    replace (s + 7) with (70 - 7 * Z.of_nat left) in * by lia.
    rewrite IH; [|lia|rewrite Hs7; nia|].
    + do 2 f_equal. rewrite Hs7. nia.
    + split; [apply Z.div_pos; lia|]. apply Z.div_lt_upper_bound; lia.
Qed.

Lemma ReadUvarint_Put x rest : is_u64 x ->
  ReadUvarint (PutUvarint x ++ rest) = Ok (x, rest).
Proof.
  intros Hx. pose proof (ReadUvarint_loop_Put 10 x 0 rest) as H.
  cbv zeta in H. change (70 - 7 * Z.of_nat 10) with 0 in H.
  assert (2 ^ (64 - 0) = two64) as E by reflexivity. rewrite E in H.
  unfold ReadUvarint, PutUvarint, MaxVarintLen64.
  rewrite H by (unfold is_u64 in Hx; lia). do 2 f_equal. lia.
Qed.

Lemma is_bytes_PutUvarint_loop f x : 0 <= x -> is_bytes (PutUvarint_loop f x).
Proof.
  revert x. induction f as [|f IH]; intros x Hx; simpl; [constructor|].
  destruct (x <? 128) eqn:E.
  - apply Forall_singleton. unfold is_byte. lia.
  - constructor; [|apply IH, Z.shiftr_nonneg; lia].
    apply cont_byte. by apply Z.mod_pos_bound.
Qed.

(** ** Lists *)

(** ** Buffers *)

Definition len (l : bytes) : Z := Z.of_nat (length l).

Definition u8 (z : Z) : Z := z mod 256.

(** [copy(dst[off:], src)], where the slice is in range. *)
Definition copy_at (off : Z) (src dst : bytes) : bytes :=
  take (Z.to_nat off) dst ++ take (length dst - Z.to_nat off) src
  ++ drop (Z.to_nat off + length src) dst.

Lemma to_nat_len l : Z.to_nat (len l) = length l.
Proof. apply Nat2Z.id. Qed.

Lemma len_app l r : len (l ++ r) = len l + len r.
Proof. unfold len. rewrite length_app. lia. Qed.

Lemma len_cons a l : len (a :: l) = len l + 1.
Proof. unfold len. cbn [length]. lia. Qed.

Lemma copy_at_mid P s Q R : length Q = length s ->
  copy_at (len P) s (P ++ Q ++ R) = P ++ s ++ R.
Proof.
  intros HQ. unfold copy_at. rewrite to_nat_len, take_app_length, !length_app.
  rewrite take_ge by lia. f_equal. f_equal.
  rewrite <- drop_drop, drop_app_length. by rewrite <- HQ, drop_app_length.
Qed.

(** *** Little-endian integers *)

Definition le_encode (n : nat) (z : Z) : bytes := reverse (be_encode n z).
Definition le_decode (l : bytes) : Z := be_decode (reverse l).

Lemma length_le_encode n z : length (le_encode n z) = n.
Proof. unfold le_encode. by rewrite length_reverse, length_be_encode. Qed.

Lemma is_bytes_le_encode n z : is_bytes (le_encode n z).
Proof. apply Forall_reverse, is_bytes_be_encode. Qed.

Lemma le_decode_encode n z : 0 <= z < 256 ^ Z.of_nat n -> le_decode (le_encode n z) = z.
Proof.
  intros Hz. unfold le_decode, le_encode. rewrite reverse_involutive, be_decode_encode.
  by apply Z.mod_small.
Qed.

Lemma le_encode_decode l : is_bytes l -> le_encode (length l) (le_decode l) = l.
Proof.
  intros Hl. unfold le_decode, le_encode. rewrite <- (length_reverse l).
  rewrite be_encode_decode by (by apply Forall_reverse). apply reverse_involutive.
Qed.

(** Every two neighbours of the list are related. *)
Fixpoint adjacent {A} (R : A -> A -> Prop) (l : list A) : Prop :=
  match l with
  | a :: ((b :: _) as t) => R a b /\ adjacent R t
  | _ => True
  end.

Lemma adjacent_cons {A} (R : A -> A -> Prop) a l :
  adjacent R (a :: l) <-> (forall b, head l = Some b -> R a b) /\ adjacent R l.
Proof. destruct l; simpl; naive_solver. Qed.

Lemma adjacent_map {A B} (R : A -> A -> Prop) (S : B -> B -> Prop) (f : A -> B) l :
  (forall a b, R a b -> S (f a) (f b)) -> adjacent R l -> adjacent S (f <$> l).
Proof.
  intros HRS. induction l as [|a l IH]; [done|].
  rewrite fmap_cons, !adjacent_cons. intros [Ha Hl]. split; [|by apply IH].
  intros b. destruct l as [|a' l]; [done|]. intros [= <-]. by apply HRS, Ha.
Qed.

Lemma adjacent_lookup {A} (R : A -> A -> Prop) `{!PreOrder R} l i j a b :
  adjacent R l -> l !! i = Some a -> l !! j = Some b -> (i <= j)%nat -> R a b.
Proof.
  revert i j a. induction l as [|x l IH]; intros i j a Hl Hi Hj Hij; [done|].
  apply adjacent_cons in Hl as [Hx Hl].
  destruct i as [|i], j as [|j]; simplify_eq/=; [reflexivity| |lia|].
  - destruct l as [|y l]; [done|]. transitivity y; [by apply Hx|].
    apply (IH 0%nat j y); [done|done|done|lia].
  - apply (IH i j a); [done|done|done|lia].
Qed.

Lemma rev_reverse {A} (l : list A) : rev l = reverse l.
Proof. apply rev_alt. Qed.

Lemma sublist_rev {A} (l k : list A) : sublist l k -> sublist (rev l) (rev k).
Proof.
  induction 1; simpl; [done|by apply sublist_app|by apply sublist_inserts_r].
Qed.

Lemma Forall_sublist {A} (P : A -> Prop) l k : sublist l k -> Forall P k -> Forall P l.
Proof.
  intros Hs. rewrite !Forall_forall. intros H x Hx. by apply H, (elem_of_sublist l).
Qed.

Lemma adjacent_app {A} (R : A -> A -> Prop) l r :
  adjacent R (l ++ r) <-> adjacent R l /\ adjacent R r
    /\ forall a b, last l = Some a -> head r = Some b -> R a b.
Proof.
  induction l as [|x l IH]; [simpl; naive_solver|].
  rewrite <- app_comm_cons, !adjacent_cons, IH.
  destruct l as [|y l]; simpl; naive_solver.
Qed.

Lemma adjacent_rev {A} (R : A -> A -> Prop) l : adjacent (flip R) l -> adjacent R (rev l).
Proof.
  induction l as [|x l IH]; [done|]. intros [Hx Hl]%adjacent_cons.
  simpl. apply adjacent_app. split_and!; [by apply IH|done|].
  intros a b Ha [= <-]. apply (Hx a).
  by rewrite rev_reverse, last_reverse in Ha.
Qed.

(** ** Sums over finite maps

    [for _, a := range m { total += f(a) }], without and with wrap-around. *)

Section MapSum.
Context {K A : Type} `{Countable K} (f : A -> Z).

Definition map_sum (m : gmap K A) : Z := map_fold (fun _ a s => s + f a) 0 m.

Lemma map_sum_empty : map_sum ∅ = 0.
Proof. done. Qed.

Lemma map_sum_insert m k a : m !! k = None -> map_sum (<[k := a]> m) = map_sum m + f a.
Proof.
  intros Hk. unfold map_sum. rewrite map_fold_insert_L; [done| |done]. intros. lia.
Qed.

Lemma map_sum_delete m k a : m !! k = Some a -> map_sum (delete k m) = map_sum m - f a.
Proof.
  intros Hk. rewrite <- (insert_delete_id m k a) at 2 by done.
  rewrite map_sum_insert by apply lookup_delete_eq. lia.
Qed.

Lemma map_sum_nonneg m : (forall k a, m !! k = Some a -> 0 <= f a) -> 0 <= map_sum m.
Proof.
  induction m as [|k a m Hk IH] using map_ind; intros Hpos; [done|].
  rewrite map_sum_insert by done.
  assert (0 <= f a) by (apply (Hpos k); by rewrite lookup_insert_eq).
  assert (0 <= map_sum m); [|lia]. apply IH. intros k' a' Hk'. apply (Hpos k').
  rewrite lookup_insert_ne; [done|congruence].
Qed.

Lemma u64_add_add a b c : u64 (u64 (a + b) + c) = u64 (u64 (a + c) + b).
Proof. u64_solve. Qed.

Lemma u64_sub_sub a b c : u64 (u64 (a - b) - c) = u64 (u64 (a - c) - b).
Proof. u64_solve. Qed.

Lemma map_fold_add_u64 m :
  map_fold (fun _ a s => s +u f a) 0 m = u64 (map_sum m).
Proof.
  induction m as [|k a m Hk IH] using map_ind; [done|].
  rewrite map_fold_insert_L; [|intros; apply u64_add_add|done].
  rewrite IH, map_sum_insert by done. u64_solve.
Qed.

Lemma map_fold_sub_u64 m s :
  map_fold (fun _ a s => s -u f a) (u64 s) m = u64 (s - map_sum m).
Proof.
  induction m as [|k a m Hk IH] using map_ind.
  { rewrite map_fold_empty, map_sum_empty. f_equal. lia. }
  rewrite map_fold_insert_L; [|intros; apply u64_sub_sub|done].
  rewrite IH, map_sum_insert by done. u64_solve.
Qed.

End MapSum.

(** How many elements satisfy a boolean predicate. *)
Definition count {A} (f : A -> bool) (l : list A) : nat := length (List.filter f l).

Lemma count_app {A} (f : A -> bool) l r : count f (l ++ r) = (count f l + count f r)%nat.
Proof. unfold count. by rewrite List.filter_app, length_app. Qed.
