(* ===== verification/EthTypes.v ===== *)
(** * Block references and engine-API types

    Models the value types of [rhs-service/eth/id.go] and
    [rhs-service/eth/types.go] that the rollup node passes around, with their
    methods: block identifiers and references, the rollup system
    configuration and its scalar encodings, and payload attributes with the
    deposits-only filter.  A [common.Hash] is a 256-bit integer whose bytes
    are [hash_bytes]; Go's struct equality is Leibniz equality, decided by
    the [EqDecision] instances. *)

From S2P Require Import Prelude.

(** ** Identifiers and references *)

Abbreviation Hash := Z.

Definition zero_hash : Hash := 0.

Definition hash_bytes (h : Hash) : bytes := be_encode 32 h.

Record BlockID : Type := { bid_Hash : Hash; bid_Number : Z }.

Record L2BlockRef : Type := {
  l2_Hash : Hash;
  l2_Number : Z;
  l2_ParentHash : Hash;
  l2_Time : Z;
  l2_L1Origin : BlockID;
  l2_SequenceNumber : Z }.

Record L1BlockRef : Type := {
  l1_Hash : Hash;
  l1_Number : Z;
  l1_ParentHash : Hash;
  l1_Time : Z }.

Abbreviation BlockRef := L1BlockRef.

#[global] Instance BlockID_eq_dec : EqDecision BlockID.
Proof. solve_decision. Defined.
#[global] Instance L2BlockRef_eq_dec : EqDecision L2BlockRef.
Proof. solve_decision. Defined.
#[global] Instance L1BlockRef_eq_dec : EqDecision L1BlockRef.
Proof. solve_decision. Defined.

(** The zero values [eth.BlockID{}], [eth.L2BlockRef{}], [eth.L1BlockRef{}]. *)
Definition zeroBlockID : BlockID := {| bid_Hash := 0; bid_Number := 0 |}.
Definition zeroL2BlockRef : L2BlockRef :=
  {| l2_Hash := 0; l2_Number := 0; l2_ParentHash := 0; l2_Time := 0;
     l2_L1Origin := zeroBlockID; l2_SequenceNumber := 0 |}.
Definition zeroL1BlockRef : L1BlockRef :=
  {| l1_Hash := 0; l1_Number := 0; l1_ParentHash := 0; l1_Time := 0 |}.

Definition L2BlockRef_BlockRef (id : L2BlockRef) : BlockRef :=
  {| l1_Hash := l2_Hash id; l1_Number := l2_Number id;
     l1_ParentHash := l2_ParentHash id; l1_Time := l2_Time id |}.

Definition L1BlockRef_ID (id : L1BlockRef) : BlockID :=
  {| bid_Hash := l1_Hash id; bid_Number := l1_Number id |}.

Definition L1BlockRef_ParentID (id : L1BlockRef) : BlockID :=
  let n := bid_Number (L1BlockRef_ID id) in
  {| bid_Hash := l1_ParentHash id;
     bid_Number := if 0 <? n then n -u 1 else n |}.

Definition L2BlockRef_ID (id : L2BlockRef) : BlockID :=
  {| bid_Hash := l2_Hash id; bid_Number := l2_Number id |}.

Definition L2BlockRef_ParentID (id : L2BlockRef) : BlockID :=
  let n := bid_Number (L2BlockRef_ID id) in
  {| bid_Hash := l2_ParentHash id;
     bid_Number := if 0 <? n then n -u 1 else n |}.

(** ** Transactions *)

Definition DepositTxType : Z := 126.   (* 0x7E *)
Definition SetCodeTxType : Z := 4.     (* 0x04 *)

(** ** Payload attributes *)

(** [types.Withdrawal] *)
Record Withdrawal : Type := {
  wd_Index : Z;
  wd_Validator : Z;
  wd_Address : Z;
  wd_Amount : Z }.

#[global] Instance Withdrawal_eq_dec : EqDecision Withdrawal.
Proof. solve_decision. Defined.

(** [types.EmptyWithdrawalsHash], the root of the empty trie. *)
Definition EmptyWithdrawalsHash : Hash :=
  0x56e81f171bcc55a6ff8345e692c0f86e5b48e01b996cadc001622fb5e363b421.

(** [pa_Withdrawals] is [nil] or a pointer to a list of withdrawals. *)
Record PayloadAttributes : Type := {
  pa_Timestamp : Z;
  pa_PrevRandao : bytes;
  pa_SuggestedFeeRecipient : Z;
  pa_Withdrawals : option (list Withdrawal);
  pa_ParentBeaconBlockRoot : option Hash;
  pa_Transactions : list bytes;
  pa_NoTxPool : bool;
  pa_GasLimit : option Z;
  pa_EIP1559Params : option bytes }.

#[global] Instance PayloadAttributes_eq_dec : EqDecision PayloadAttributes.
Proof. solve_decision. Defined.

Definition is_deposit (tx : bytes) : bool :=
  match tx with
  | [] => false
  | b :: _ => b =? DepositTxType
  end.

Definition IsDepositsOnly (a : PayloadAttributes) : bool :=
  forallb is_deposit (pa_Transactions a).

Definition WithDepositsOnly (a : PayloadAttributes) : PayloadAttributes :=
  {| pa_Timestamp := pa_Timestamp a;
     pa_PrevRandao := pa_PrevRandao a;
     pa_SuggestedFeeRecipient := pa_SuggestedFeeRecipient a;
     pa_Withdrawals := pa_Withdrawals a;
     pa_ParentBeaconBlockRoot := pa_ParentBeaconBlockRoot a;
     pa_Transactions := List.filter is_deposit (pa_Transactions a);
     pa_NoTxPool := pa_NoTxPool a;
     pa_GasLimit := pa_GasLimit a;
     pa_EIP1559Params := pa_EIP1559Params a |}.

Lemma WithDepositsOnly_deposits a : IsDepositsOnly (WithDepositsOnly a) = true.
Proof.
  apply forallb_forall. simpl. intros x Hx. by apply List.filter_In in Hx as [_ Hx].
Qed.

Lemma WithDepositsOnly_id a : IsDepositsOnly a = true -> WithDepositsOnly a = a.
Proof.
  unfold IsDepositsOnly, WithDepositsOnly. destruct a; simpl. intros H. f_equal.
  induction pa_Transactions0 as [|t l IH]; [done|]. simpl in *.
  apply andb_true_iff in H as [-> H]. by rewrite IH.
Qed.

(** ** Execution payloads *)

(** The envelope's payload; [ep_Withdrawals] is [nil] or a list of
    withdrawals as in [PayloadAttributes]. *)
Record ExecutionPayload : Type := {
  ep_ParentHash : Hash;
  ep_FeeRecipient : Z;
  ep_StateRoot : Hash;
  ep_ReceiptsRoot : Hash;
  ep_LogsBloom : bytes;
  ep_PrevRandao : bytes;
  ep_BlockNumber : Z;
  ep_GasLimit : Z;
  ep_GasUsed : Z;
  ep_Timestamp : Z;
  ep_ExtraData : bytes;
  ep_BaseFeePerGas : Z;
  ep_BlockHash : Hash;
  ep_Transactions : list bytes;
  ep_Withdrawals : option (list Withdrawal);
  ep_BlobGasUsed : option Z;
  ep_ExcessBlobGas : option Z;
  ep_WithdrawalsRoot : option Hash }.

Record ExecutionPayloadEnvelope : Type := {
  ParentBeaconBlockRoot : option Hash;
  env_ExecutionPayload : ExecutionPayload }.

#[global] Instance ExecutionPayload_eq_dec : EqDecision ExecutionPayload.
Proof. solve_decision. Defined.
#[global] Instance ExecutionPayloadEnvelope_eq_dec : EqDecision ExecutionPayloadEnvelope.
Proof. solve_decision. Defined.

Definition ExecutionPayload_ID (payload : ExecutionPayload) : BlockID :=
  {| bid_Hash := ep_BlockHash payload; bid_Number := ep_BlockNumber payload |}.

Definition ExecutionPayload_ParentID (payload : ExecutionPayload) : BlockID :=
  let n := ep_BlockNumber payload in
  {| bid_Hash := ep_ParentHash payload;
     bid_Number := if 0 <? n then n -u 1 else n |}.

Definition ExecutionPayload_BlockRef (payload : ExecutionPayload) : BlockRef :=
  {| l1_Hash := ep_BlockHash payload; l1_Number := ep_BlockNumber payload;
     l1_ParentHash := ep_ParentHash payload; l1_Time := ep_Timestamp payload |}.

(** ** Engine API results *)

(** A Go string type: [ExecutionUnknown] is any other string. *)
Inductive ExecutePayloadStatus : Type :=
  | ExecutionValid
  | ExecutionInvalid
  | ExecutionSyncing
  | ExecutionAccepted
  | ExecutionInvalidBlockHash
  | ExecutionInvalidTerminalBlock
  | ExecutionUnknown (s : string).

#[global] Instance ExecutePayloadStatus_eq_dec : EqDecision ExecutePayloadStatus.
Proof. solve_decision. Defined.

Record ForkchoiceState : Type := {
  HeadBlockHash : Hash;
  SafeBlockHash : Hash;
  FinalizedBlockHash : Hash }.

#[global] Instance ForkchoiceState_eq_dec : EqDecision ForkchoiceState.
Proof. solve_decision. Defined.

Inductive EngineAPIMethod : Type :=
  | FCUV1 | FCUV2 | FCUV3
  | NewPayloadV2 | NewPayloadV3 | NewPayloadV4
  | GetPayloadV2 | GetPayloadV3 | GetPayloadV4.

(** ** System configuration *)

Record SystemConfig : Type := {
  GasLimit : Z;
  EIP1559Params : bytes;
  sc_OperatorFeeParams : bytes;
  MarshalPreHolocene : bool }.

#[global] Instance SystemConfig_eq_dec : EqDecision SystemConfig.
Proof. solve_decision. Defined.

Definition zeroSystemConfig : SystemConfig :=
  {| GasLimit := 0; EIP1559Params := replicate 8 0;
     sc_OperatorFeeParams := replicate 32 0; MarshalPreHolocene := false |}.

(** *** Scalar encodings *)

Definition L1ScalarBedrock : Z := 0.
Definition L1ScalarEcotone : Z := 1.

Record EcotoneScalars : Type := {
  BlobBaseFeeScalar : Z;
  BaseFeeScalar : Z }.

(** [l[lo:hi]] of a byte array. *)
Definition slice (lo hi : nat) (l : bytes) : bytes := take (hi - lo) (drop lo l).

Definition DecodeScalar (scalar : bytes) : result EcotoneScalars :=
  match scalar !! 0%nat with
  | None => Panic
  | Some v =>
      if v =? L1ScalarBedrock then
        Ok {| BlobBaseFeeScalar := 0;
              BaseFeeScalar := be_decode (slice 28 32 scalar) |}
      else if v =? L1ScalarEcotone then
        Ok {| BlobBaseFeeScalar := be_decode (slice 24 28 scalar);
              BaseFeeScalar := be_decode (slice 28 32 scalar) |}
      else Err (Msg "unexpected system config scalar")
  end.

Definition EncodeScalar (s : EcotoneScalars) : bytes :=
  L1ScalarEcotone :: replicate 23 0
  ++ be_encode 4 (BlobBaseFeeScalar s) ++ be_encode 4 (BaseFeeScalar s).

Definition CheckEcotoneL1SystemConfigScalar (scalar : bytes) : result unit :=
  match scalar !! 0%nat with
  | None => Panic
  | Some v =>
      if v =? L1ScalarBedrock then
        if decide (slice 1 28 scalar = replicate 27 0) then Ok ()
        else Err (Msg "version 0 scalar has non-empty padding")
      else if v =? L1ScalarEcotone then
        if decide (slice 1 24 scalar = replicate 23 0) then Ok ()
        else Err (Msg "invalid version 1 scalar padding")
      else Err (Msg "unrecognized scalar version")
  end.

Record OperatorFeeParams : Type := { Scalar : Z; Constant : Z }.

Definition DecodeOperatorFeeParams (scalar : bytes) : OperatorFeeParams :=
  {| Scalar := be_decode (slice 20 24 scalar);
     Constant := be_decode (slice 24 32 scalar) |}.

Definition EncodeOperatorFeeParams (p : OperatorFeeParams) : bytes :=
  replicate 20 0 ++ be_encode 4 (Scalar p) ++ be_encode 8 (Constant p).

Definition OperatorFee (sysCfg : SystemConfig) : OperatorFeeParams :=
  DecodeOperatorFeeParams (sc_OperatorFeeParams sysCfg).

(** *** Round trips *)

Lemma slice_app_mid p l q lo hi :
  length p = lo -> (length l = hi - lo)%nat -> slice lo hi (p ++ l ++ q) = l.
Proof.
  intros <- Hl. unfold slice. rewrite drop_app_length. by apply take_app_length'.
Qed.

Lemma be_decode_u32 z : is_u32 z -> be_decode (be_encode 4 z) = z.
Proof. intros. rewrite be_decode_encode. by apply Z.mod_small. Qed.

Lemma be_decode_u64 z : is_u64 z -> be_decode (be_encode 8 z) = z.
Proof. intros. rewrite be_decode_encode. by apply Z.mod_small. Qed.

Definition scalars_ok (s : EcotoneScalars) : Prop :=
  is_u32 (BlobBaseFeeScalar s) /\ is_u32 (BaseFeeScalar s).

Definition operator_fee_ok (p : OperatorFeeParams) : Prop :=
  is_u32 (Scalar p) /\ is_u64 (Constant p).

(** Encoding Ecotone scalars gives a 32-byte value that passes the
    L1 scalar check and decodes to the same scalars; the same holds for the
    operator fee parameters, which keep their 20 leading zero bytes. *)
Theorem scalar_roundtrip s p :
  scalars_ok s -> operator_fee_ok p ->
  length (EncodeScalar s) = 32%nat
  /\ CheckEcotoneL1SystemConfigScalar (EncodeScalar s) = Ok ()
  /\ DecodeScalar (EncodeScalar s) = Ok s
  /\ DecodeOperatorFeeParams (EncodeOperatorFeeParams p) = p.
Proof.
  intros [H1 H2] [H3 H4]. repeat split.
  - unfold DecodeScalar. simpl lookup. cbv [L1ScalarEcotone L1ScalarBedrock Z.eqb Pos.eqb].
    unfold EncodeScalar.
    change (slice 24 28 _) with
      (slice 24 28 ((1 :: replicate 23 0) ++ be_encode 4 (BlobBaseFeeScalar s)
         ++ be_encode 4 (BaseFeeScalar s))).
    change (slice 28 32 _) with
      (slice 28 32 (((1 :: replicate 23 0) ++ be_encode 4 (BlobBaseFeeScalar s))
         ++ be_encode 4 (BaseFeeScalar s) ++ [])).
    rewrite !slice_app_mid by reflexivity.
    rewrite !be_decode_u32 by done. by destruct s.
  - unfold DecodeOperatorFeeParams, EncodeOperatorFeeParams.
    rewrite slice_app_mid by reflexivity.
    change (slice 24 32 _) with
      (slice 24 32 ((replicate 20 0 ++ be_encode 4 (Scalar p))
         ++ be_encode 8 (Constant p) ++ [])).
    rewrite slice_app_mid by reflexivity.
    rewrite be_decode_u32, be_decode_u64 by done. by destruct p.
Qed.

Lemma scalar_roundtrip_witness :
  let s := {| BlobBaseFeeScalar := 810949; BaseFeeScalar := 1368 |} in
  let p := {| Scalar := 7; Constant := 1000000 |} in
  DecodeScalar (EncodeScalar s) = Ok s /\ DecodeOperatorFeeParams (EncodeOperatorFeeParams p) = p.
Proof.
  intros s p.
  destruct (scalar_roundtrip s p) as (_ & _ & H & H');
    [split; vm_compute; intuition congruence | split; vm_compute; intuition congruence |].
  exact (conj H H').
Defined.
