(* ===== verification/RollupConfig.v ===== *)
(** * Rollup configuration and chain specification

    Models [rhs-node/rollup/types.go] (the [Config] struct, its validity
    check, block-number/time conversions, fork activation predicates, engine
    API version selection) and [rhs-node/rollup/chain_spec.go] (fork names,
    fork-dependent protocol constants and the [ChainSpec] fork tracker).
    A [*uint64] fork time is an [option Z]; a [*big.Int] chain id is an
    [option Z]. *)

From S2P Require Import Prelude EthTypes.

(** ** Fork names *)

Inductive ForkName : Type :=
  | Bedrock | Regolith | Canyon | Delta | Ecotone | Fjord | Granite
  | Holocene | Isthmus | Jovian | Interop
  | NoFork          (* the name "none" *)
  | EmptyFork.      (* the empty name, Go's zero value *)

#[global] Instance ForkName_eq_dec : EqDecision ForkName.
Proof. solve_decision. Defined.

Definition AllForks : list ForkName :=
  [Bedrock; Regolith; Canyon; Delta; Ecotone; Fjord; Granite; Holocene;
   Isthmus; Jovian; Interop].

Fixpoint forksFrom_loop (fork : ForkName) (l : list ForkName) : result (list ForkName) :=
  match l with
  | [] => Panic
  | f :: t => if decide (f = fork) then Ok l else forksFrom_loop fork t
  end.

Definition ForksFrom (fork : ForkName) : result (list ForkName) :=
  forksFrom_loop fork AllForks.

(** The map built at package initialisation: each fork to its successor,
    the last one to [None].  Looking up a missing key gives [""]. *)
Fixpoint nextFork_entries (l : list ForkName) : list (ForkName * ForkName) :=
  match l with
  | [] => []
  | [f] => [(f, NoFork)]
  | f :: ((g :: _) as t) => (f, g) :: nextFork_entries t
  end.

Fixpoint assoc_fork (f : ForkName) (l : list (ForkName * ForkName)) : option ForkName :=
  match l with
  | [] => None
  | (k, v) :: t => if decide (k = f) then Some v else assoc_fork f t
  end.

Definition nextFork (f : ForkName) : ForkName :=
  default EmptyFork (assoc_fork f (nextFork_entries AllForks)).

Definition IsValidFork (f : ForkName) : bool :=
  match assoc_fork f (nextFork_entries AllForks) with
  | Some _ => true
  | None => false
  end.

(** ** Configuration

    The Go structs, less [ChainOpConfig], a pointer into the execution
    layer's configuration that only the consolidation code reads. *)

Record Genesis : Type := {
  L2 : BlockID;
  L2Time : Z;
  gen_SystemConfig : SystemConfig }.

Record Config : Type := {
  cfg_Genesis : Genesis;
  BlockTime : Z;
  cfg_MaxSequencerDrift : Z;
  SeqWindowSize : Z;
  ChannelTimeoutBedrock : Z;
  L2ChainID : option Z;
  RegolithTime : option Z;
  CanyonTime : option Z;
  DeltaTime : option Z;
  EcotoneTime : option Z;
  FjordTime : option Z;
  GraniteTime : option Z;
  HoloceneTime : option Z;
  IsthmusTime : option Z;
  JovianTime : option Z;
  InteropTime : option Z;
  PectraBlobScheduleTime : option Z }.

Definition TimestampForBlock (cfg : Config) (blockNumber : Z) : Z :=
  L2Time (cfg_Genesis cfg)
  +u ((blockNumber -u bid_Number (L2 (cfg_Genesis cfg))) *u BlockTime cfg).

(** Integer division by zero panics. *)
Definition TargetBlockNumber (cfg : Config) (timestamp : Z) : result Z :=
  let genesisTimestamp := L2Time (cfg_Genesis cfg) in
  if timestamp <? genesisTimestamp then Err (Msg "did not reach genesis time yet")
  else if BlockTime cfg =? 0 then Panic
  else
    let wallClockGenesisDiff := timestamp -u genesisTimestamp in
    let blocksSinceGenesis := wallClockGenesisDiff / BlockTime cfg in
    Ok (bid_Number (L2 (cfg_Genesis cfg)) +u blocksSinceGenesis).

(** [client.ChainID] and [client.L2BlockRefByNumber] are the arguments. *)
Definition CheckL2ChainID (cfg : Config) (client_ChainID : result Z) : result unit :=
  let* id := map_err (Wrap "failed to get core chain ID") client_ChainID in
  match L2ChainID cfg with
  | None => Panic
  | Some want => if want =? id then Ok () else Err (Msg "incorrect core RPC chain id")
  end.

Definition CheckL2GenesisBlockHash (cfg : Config)
    (client_L2BlockRefByNumber : Z -> result L2BlockRef) : result unit :=
  let* ref := map_err (Wrap "failed to get core genesis blockhash")
                (client_L2BlockRefByNumber (bid_Number (L2 (cfg_Genesis cfg)))) in
  if l2_Hash ref =? bid_Hash (L2 (cfg_Genesis cfg)) then Ok ()
  else Err (Msg "incorrect core genesis block hash").

Definition ValidateL2Config (cfg : Config) (client_ChainID : result Z)
    (client_L2BlockRefByNumber : Z -> result L2BlockRef)
    (skipL2GenesisBlockHash : bool) : result unit :=
  let* _ := CheckL2ChainID cfg client_ChainID in
  if skipL2GenesisBlockHash then Ok ()
  else CheckL2GenesisBlockHash cfg client_L2BlockRefByNumber.

(** ** Validity check *)

Definition checkFork (a b : option Z) : result unit :=
  match a, b with
  | None, None => Ok ()
  | None, Some _ => Err (Msg "prior fork missing")
  | Some _, None => Ok ()
  | Some x, Some y =>
      if y <? x then Err (Msg "prior fork has higher offset") else Ok ()
  end.

Definition validateAltDAConfig (cfg : Config) : result unit := Ok ().

(** [if cond { return err }] *)
Definition reject_if (b : bool) (e : error) : result unit :=
  if b then Err e else Ok ().

Definition ErrBlockTimeZero := Msg "block time cannot be 0".
Definition ErrMissingChannelTimeout := Msg "channel timeout must be set".
Definition ErrInvalidSeqWindowSize := Msg "sequencing window size must at least be 2".
Definition ErrInvalidMaxSeqDrift := Msg "maximum sequencer drift must be greater than 0".
Definition ErrMissingGenesisL2Hash := Msg "genesis core hash cannot be empty".
Definition ErrMissingGenesisL2Time := Msg "missing core genesis time".
Definition ErrMissingGasLimit := Msg "missing genesis system config gas limit".
Definition ErrMissingL2ChainID := Msg "core chain ID must not be nil".
Definition ErrL2ChainIDNotPositive := Msg "core chain ID must be non-zero and positive".

Definition Check (cfg : Config) : result unit :=
  let* _ := reject_if (BlockTime cfg =? 0) ErrBlockTimeZero in
  let* _ := reject_if (ChannelTimeoutBedrock cfg =? 0) ErrMissingChannelTimeout in
  let* _ := reject_if (SeqWindowSize cfg <? 2) ErrInvalidSeqWindowSize in
  let* _ := reject_if (cfg_MaxSequencerDrift cfg =? 0) ErrInvalidMaxSeqDrift in
  let* _ := reject_if (bid_Hash (L2 (cfg_Genesis cfg)) =? zero_hash) ErrMissingGenesisL2Hash in
  let* _ := reject_if (L2Time (cfg_Genesis cfg) =? 0) ErrMissingGenesisL2Time in
  let* _ := reject_if (GasLimit (gen_SystemConfig (cfg_Genesis cfg)) =? 0) ErrMissingGasLimit in
  match L2ChainID cfg with
  | None => Err ErrMissingL2ChainID
  | Some id =>
      let* _ := reject_if (Z.sgn id <? 1) ErrL2ChainIDNotPositive in
      let* _ := validateAltDAConfig cfg in
      let* _ := checkFork (RegolithTime cfg) (CanyonTime cfg) in
      let* _ := checkFork (CanyonTime cfg) (DeltaTime cfg) in
      let* _ := checkFork (DeltaTime cfg) (EcotoneTime cfg) in
      let* _ := checkFork (EcotoneTime cfg) (FjordTime cfg) in
      let* _ := checkFork (FjordTime cfg) (GraniteTime cfg) in
      let* _ := checkFork (GraniteTime cfg) (HoloceneTime cfg) in
      let* _ := checkFork (HoloceneTime cfg) (IsthmusTime cfg) in
      Ok ()
  end.

(** ** Fork activation *)

Definition fork_active (ft : option Z) (timestamp : Z) : bool :=
  match ft with
  | None => false
  | Some t => t <=? timestamp
  end.

Definition IsRegolith (c : Config) (timestamp : Z) : bool :=
  fork_active (RegolithTime c) timestamp.

Definition IsCanyon (c : Config) (timestamp : Z) : bool :=
  fork_active (CanyonTime c) timestamp.

Definition IsDelta (c : Config) (timestamp : Z) : bool :=
  fork_active (DeltaTime c) timestamp.

Definition IsEcotone (c : Config) (timestamp : Z) : bool :=
  fork_active (EcotoneTime c) timestamp.

Definition IsFjord (c : Config) (timestamp : Z) : bool :=
  fork_active (FjordTime c) timestamp.

Definition IsGranite (c : Config) (timestamp : Z) : bool :=
  fork_active (GraniteTime c) timestamp.

Definition IsHolocene (c : Config) (timestamp : Z) : bool :=
  fork_active (HoloceneTime c) timestamp.

Definition IsIsthmus (c : Config) (timestamp : Z) : bool :=
  fork_active (IsthmusTime c) timestamp.

Definition IsJovian (c : Config) (timestamp : Z) : bool :=
  fork_active (JovianTime c) timestamp.

Definition IsInterop (c : Config) (timestamp : Z) : bool :=
  fork_active (InteropTime c) timestamp.

Definition activation_block (active : Z -> bool) (blockTime l2BlockTime : Z) : bool :=
  active l2BlockTime && (blockTime <=? l2BlockTime)
  && negb (active (l2BlockTime -u blockTime)).

Definition IsRegolithActivationBlock (c : Config) (l2BlockTime : Z) : bool :=
  activation_block (IsRegolith c) (BlockTime c) l2BlockTime.

Definition IsCanyonActivationBlock (c : Config) (l2BlockTime : Z) : bool :=
  activation_block (IsCanyon c) (BlockTime c) l2BlockTime.

Definition IsDeltaActivationBlock (c : Config) (l2BlockTime : Z) : bool :=
  activation_block (IsDelta c) (BlockTime c) l2BlockTime.

Definition IsEcotoneActivationBlock (c : Config) (l2BlockTime : Z) : bool :=
  activation_block (IsEcotone c) (BlockTime c) l2BlockTime.

Definition IsFjordActivationBlock (c : Config) (l2BlockTime : Z) : bool :=
  activation_block (IsFjord c) (BlockTime c) l2BlockTime.

Definition IsGraniteActivationBlock (c : Config) (l2BlockTime : Z) : bool :=
  activation_block (IsGranite c) (BlockTime c) l2BlockTime.

Definition IsHoloceneActivationBlock (c : Config) (l2BlockTime : Z) : bool :=
  activation_block (IsHolocene c) (BlockTime c) l2BlockTime.

Definition IsIsthmusActivationBlock (c : Config) (l2BlockTime : Z) : bool :=
  activation_block (IsIsthmus c) (BlockTime c) l2BlockTime.

Definition IsJovianActivationBlock (c : Config) (l2BlockTime : Z) : bool :=
  activation_block (IsJovian c) (BlockTime c) l2BlockTime.

Definition IsInteropActivationBlock (c : Config) (l2BlockTime : Z) : bool :=
  activation_block (IsInterop c) (BlockTime c) l2BlockTime.

Definition HasOptimismWithdrawalsRoot (c : Config) (timestamp : Z) : bool :=
  IsIsthmus c timestamp.

Definition IsActivationBlock (c : Config) (oldTime newTime : Z) : ForkName :=
  if IsHolocene c newTime && negb (IsHolocene c oldTime) then Holocene
  else EmptyFork.

(** *** [ActivateAtGenesis] *)

Definition set_RegolithTime (v : option Z) (c : Config) : Config :=
  {| cfg_Genesis := cfg_Genesis c; BlockTime := BlockTime c;
     cfg_MaxSequencerDrift := cfg_MaxSequencerDrift c;
     SeqWindowSize := SeqWindowSize c;
     ChannelTimeoutBedrock := ChannelTimeoutBedrock c; L2ChainID := L2ChainID c;
     RegolithTime := v;
     CanyonTime := CanyonTime c;
     DeltaTime := DeltaTime c;
     EcotoneTime := EcotoneTime c;
     FjordTime := FjordTime c;
     GraniteTime := GraniteTime c;
     HoloceneTime := HoloceneTime c;
     IsthmusTime := IsthmusTime c;
     JovianTime := JovianTime c;
     InteropTime := InteropTime c;
     PectraBlobScheduleTime := PectraBlobScheduleTime c |}.

Definition set_CanyonTime (v : option Z) (c : Config) : Config :=
  {| cfg_Genesis := cfg_Genesis c; BlockTime := BlockTime c;
     cfg_MaxSequencerDrift := cfg_MaxSequencerDrift c;
     SeqWindowSize := SeqWindowSize c;
     ChannelTimeoutBedrock := ChannelTimeoutBedrock c; L2ChainID := L2ChainID c;
     RegolithTime := RegolithTime c;
     CanyonTime := v;
     DeltaTime := DeltaTime c;
     EcotoneTime := EcotoneTime c;
     FjordTime := FjordTime c;
     GraniteTime := GraniteTime c;
     HoloceneTime := HoloceneTime c;
     IsthmusTime := IsthmusTime c;
     JovianTime := JovianTime c;
     InteropTime := InteropTime c;
     PectraBlobScheduleTime := PectraBlobScheduleTime c |}.

Definition set_DeltaTime (v : option Z) (c : Config) : Config :=
  {| cfg_Genesis := cfg_Genesis c; BlockTime := BlockTime c;
     cfg_MaxSequencerDrift := cfg_MaxSequencerDrift c;
     SeqWindowSize := SeqWindowSize c;
     ChannelTimeoutBedrock := ChannelTimeoutBedrock c; L2ChainID := L2ChainID c;
     RegolithTime := RegolithTime c;
     CanyonTime := CanyonTime c;
     DeltaTime := v;
     EcotoneTime := EcotoneTime c;
     FjordTime := FjordTime c;
     GraniteTime := GraniteTime c;
     HoloceneTime := HoloceneTime c;
     IsthmusTime := IsthmusTime c;
     JovianTime := JovianTime c;
     InteropTime := InteropTime c;
     PectraBlobScheduleTime := PectraBlobScheduleTime c |}.

Definition set_EcotoneTime (v : option Z) (c : Config) : Config :=
  {| cfg_Genesis := cfg_Genesis c; BlockTime := BlockTime c;
     cfg_MaxSequencerDrift := cfg_MaxSequencerDrift c;
     SeqWindowSize := SeqWindowSize c;
     ChannelTimeoutBedrock := ChannelTimeoutBedrock c; L2ChainID := L2ChainID c;
     RegolithTime := RegolithTime c;
     CanyonTime := CanyonTime c;
     DeltaTime := DeltaTime c;
     EcotoneTime := v;
     FjordTime := FjordTime c;
     GraniteTime := GraniteTime c;
     HoloceneTime := HoloceneTime c;
     IsthmusTime := IsthmusTime c;
     JovianTime := JovianTime c;
     InteropTime := InteropTime c;
     PectraBlobScheduleTime := PectraBlobScheduleTime c |}.

Definition set_FjordTime (v : option Z) (c : Config) : Config :=
  {| cfg_Genesis := cfg_Genesis c; BlockTime := BlockTime c;
     cfg_MaxSequencerDrift := cfg_MaxSequencerDrift c;
     SeqWindowSize := SeqWindowSize c;
     ChannelTimeoutBedrock := ChannelTimeoutBedrock c; L2ChainID := L2ChainID c;
     RegolithTime := RegolithTime c;
     CanyonTime := CanyonTime c;
     DeltaTime := DeltaTime c;
     EcotoneTime := EcotoneTime c;
     FjordTime := v;
     GraniteTime := GraniteTime c;
     HoloceneTime := HoloceneTime c;
     IsthmusTime := IsthmusTime c;
     JovianTime := JovianTime c;
     InteropTime := InteropTime c;
     PectraBlobScheduleTime := PectraBlobScheduleTime c |}.

Definition set_GraniteTime (v : option Z) (c : Config) : Config :=
  {| cfg_Genesis := cfg_Genesis c; BlockTime := BlockTime c;
     cfg_MaxSequencerDrift := cfg_MaxSequencerDrift c;
     SeqWindowSize := SeqWindowSize c;
     ChannelTimeoutBedrock := ChannelTimeoutBedrock c; L2ChainID := L2ChainID c;
     RegolithTime := RegolithTime c;
     CanyonTime := CanyonTime c;
     DeltaTime := DeltaTime c;
     EcotoneTime := EcotoneTime c;
     FjordTime := FjordTime c;
     GraniteTime := v;
     HoloceneTime := HoloceneTime c;
     IsthmusTime := IsthmusTime c;
     JovianTime := JovianTime c;
     InteropTime := InteropTime c;
     PectraBlobScheduleTime := PectraBlobScheduleTime c |}.

Definition set_HoloceneTime (v : option Z) (c : Config) : Config :=
  {| cfg_Genesis := cfg_Genesis c; BlockTime := BlockTime c;
     cfg_MaxSequencerDrift := cfg_MaxSequencerDrift c;
     SeqWindowSize := SeqWindowSize c;
     ChannelTimeoutBedrock := ChannelTimeoutBedrock c; L2ChainID := L2ChainID c;
     RegolithTime := RegolithTime c;
     CanyonTime := CanyonTime c;
     DeltaTime := DeltaTime c;
     EcotoneTime := EcotoneTime c;
     FjordTime := FjordTime c;
     GraniteTime := GraniteTime c;
     HoloceneTime := v;
     IsthmusTime := IsthmusTime c;
     JovianTime := JovianTime c;
     InteropTime := InteropTime c;
     PectraBlobScheduleTime := PectraBlobScheduleTime c |}.

Definition set_IsthmusTime (v : option Z) (c : Config) : Config :=
  {| cfg_Genesis := cfg_Genesis c; BlockTime := BlockTime c;
     cfg_MaxSequencerDrift := cfg_MaxSequencerDrift c;
     SeqWindowSize := SeqWindowSize c;
     ChannelTimeoutBedrock := ChannelTimeoutBedrock c; L2ChainID := L2ChainID c;
     RegolithTime := RegolithTime c;
     CanyonTime := CanyonTime c;
     DeltaTime := DeltaTime c;
     EcotoneTime := EcotoneTime c;
     FjordTime := FjordTime c;
     GraniteTime := GraniteTime c;
     HoloceneTime := HoloceneTime c;
     IsthmusTime := v;
     JovianTime := JovianTime c;
     InteropTime := InteropTime c;
     PectraBlobScheduleTime := PectraBlobScheduleTime c |}.

Definition set_JovianTime (v : option Z) (c : Config) : Config :=
  {| cfg_Genesis := cfg_Genesis c; BlockTime := BlockTime c;
     cfg_MaxSequencerDrift := cfg_MaxSequencerDrift c;
     SeqWindowSize := SeqWindowSize c;
     ChannelTimeoutBedrock := ChannelTimeoutBedrock c; L2ChainID := L2ChainID c;
     RegolithTime := RegolithTime c;
     CanyonTime := CanyonTime c;
     DeltaTime := DeltaTime c;
     EcotoneTime := EcotoneTime c;
     FjordTime := FjordTime c;
     GraniteTime := GraniteTime c;
     HoloceneTime := HoloceneTime c;
     IsthmusTime := IsthmusTime c;
     JovianTime := v;
     InteropTime := InteropTime c;
     PectraBlobScheduleTime := PectraBlobScheduleTime c |}.

Definition set_InteropTime (v : option Z) (c : Config) : Config :=
  {| cfg_Genesis := cfg_Genesis c; BlockTime := BlockTime c;
     cfg_MaxSequencerDrift := cfg_MaxSequencerDrift c;
     SeqWindowSize := SeqWindowSize c;
     ChannelTimeoutBedrock := ChannelTimeoutBedrock c; L2ChainID := L2ChainID c;
     RegolithTime := RegolithTime c;
     CanyonTime := CanyonTime c;
     DeltaTime := DeltaTime c;
     EcotoneTime := EcotoneTime c;
     FjordTime := FjordTime c;
     GraniteTime := GraniteTime c;
     HoloceneTime := HoloceneTime c;
     IsthmusTime := IsthmusTime c;
     JovianTime := JovianTime c;
     InteropTime := v;
     PectraBlobScheduleTime := PectraBlobScheduleTime c |}.

(** The switch falls through from the named fork down to the oldest one;
    [new(uint64)] is a pointer to zero. *)
Definition activate_upto_Bedrock (c : Config) : Config := c.
Definition activate_upto_Regolith (c : Config) : Config :=
  activate_upto_Bedrock (set_RegolithTime (Some 0) c).
Definition activate_upto_Canyon (c : Config) : Config :=
  activate_upto_Regolith (set_CanyonTime (Some 0) c).
Definition activate_upto_Delta (c : Config) : Config :=
  activate_upto_Canyon (set_DeltaTime (Some 0) c).
Definition activate_upto_Ecotone (c : Config) : Config :=
  activate_upto_Delta (set_EcotoneTime (Some 0) c).
Definition activate_upto_Fjord (c : Config) : Config :=
  activate_upto_Ecotone (set_FjordTime (Some 0) c).
Definition activate_upto_Granite (c : Config) : Config :=
  activate_upto_Fjord (set_GraniteTime (Some 0) c).
Definition activate_upto_Holocene (c : Config) : Config :=
  activate_upto_Granite (set_HoloceneTime (Some 0) c).
Definition activate_upto_Isthmus (c : Config) : Config :=
  activate_upto_Holocene (set_IsthmusTime (Some 0) c).
Definition activate_upto_Jovian (c : Config) : Config :=
  activate_upto_Isthmus (set_JovianTime (Some 0) c).
Definition activate_upto_Interop (c : Config) : Config :=
  activate_upto_Jovian (set_InteropTime (Some 0) c).

Definition ActivateAtGenesis (c : Config) (hardfork : ForkName) : Config :=
  match hardfork with
  | Interop => activate_upto_Interop c
  | Jovian => activate_upto_Jovian c
  | Isthmus => activate_upto_Isthmus c
  | Holocene => activate_upto_Holocene c
  | Granite => activate_upto_Granite c
  | Fjord => activate_upto_Fjord c
  | Ecotone => activate_upto_Ecotone c
  | Delta => activate_upto_Delta c
  | Canyon => activate_upto_Canyon c
  | Regolith => activate_upto_Regolith c
  | Bedrock => activate_upto_Bedrock c
  | NoFork | EmptyFork => c
  end.

(** *** Engine API versions *)

(** [attr_Timestamp] is [None] for nil attributes. *)
Definition ForkchoiceUpdatedVersion (c : Config) (attr : option PayloadAttributes)
    : EngineAPIMethod :=
  match attr with
  | None => FCUV3
  | Some a =>
      let ts := pa_Timestamp a in
      if IsEcotone c ts then FCUV3
      else if IsCanyon c ts then FCUV2
      else FCUV1
  end.

Definition NewPayloadVersion (c : Config) (timestamp : Z) : EngineAPIMethod :=
  if IsIsthmus c timestamp then NewPayloadV4
  else if IsEcotone c timestamp then NewPayloadV3
  else NewPayloadV2.

Definition GetPayloadVersion (c : Config) (timestamp : Z) : EngineAPIMethod :=
  if IsIsthmus c timestamp then GetPayloadV4
  else if IsEcotone c timestamp then GetPayloadV3
  else GetPayloadV2.

Definition SyncLookback (c : Config) : Z := SeqWindowSize c.

(** ** Chain specification *)

Definition maxChannelBankSizeBedrock : Z := 100000000.
Definition maxChannelBankSizeFjord : Z := 1000000000.
Definition maxRLPBytesPerChannelBedrock : Z := 10000000.
Definition maxRLPBytesPerChannelFjord : Z := 100000000.
Definition maxSequencerDriftFjord : Z := 1800.
Definition ChannelTimeoutGranite : Z := 50.

Record ChainSpec : Type := { spec_config : Config; currentFork : ForkName }.

Definition NewChainSpec (c : Config) : ChainSpec :=
  {| spec_config := c; currentFork := EmptyFork |}.

Definition MaxChannelBankSize (s : ChainSpec) (t : Z) : Z :=
  if IsFjord (spec_config s) t then maxChannelBankSizeFjord
  else maxChannelBankSizeBedrock.

Definition ChannelTimeout (s : ChainSpec) (t : Z) : Z :=
  if IsGranite (spec_config s) t then ChannelTimeoutGranite
  else ChannelTimeoutBedrock (spec_config s).

Definition MaxRLPBytesPerChannel (s : ChainSpec) (t : Z) : Z :=
  if IsFjord (spec_config s) t then maxRLPBytesPerChannelFjord
  else maxRLPBytesPerChannelBedrock.

Definition IsFeatMaxSequencerDriftConstant (s : ChainSpec) (t : Z) : bool :=
  IsFjord (spec_config s) t.

Definition MaxSequencerDrift (s : ChainSpec) (t : Z) : Z :=
  if IsFeatMaxSequencerDriftConstant s t then maxSequencerDriftFjord
  else cfg_MaxSequencerDrift (spec_config s).

(** The first call: the latest fork active at the block, found by testing
    the forks in order. *)
Definition initialFork (c : Config) (t : Z) : ForkName :=
  let f := Bedrock in
  let f := if IsRegolith c t then Regolith else f in
  let f := if IsCanyon c t then Canyon else f in
  let f := if IsDelta c t then Delta else f in
  let f := if IsEcotone c t then Ecotone else f in
  let f := if IsFjord c t then Fjord else f in
  let f := if IsGranite c t then Granite else f in
  let f := if IsHolocene c t then Holocene else f in
  let f := if IsIsthmus c t then Isthmus else f in
  let f := if IsJovian c t then Jovian else f in
  let f := if IsInterop c t then Interop else f in
  f.

Definition CheckForkActivation (s : ChainSpec) (block : L2BlockRef) : ChainSpec :=
  let c := spec_config s in
  let t := l2_Time block in
  if decide (currentFork s = Interop) then s
  else if decide (currentFork s = EmptyFork) then
    {| spec_config := c; currentFork := initialFork c t |}
  else
    let foundActivationBlock :=
      match nextFork (currentFork s) with
      | Regolith => IsRegolithActivationBlock c t
      | Canyon => IsCanyonActivationBlock c t
      | Delta => IsDeltaActivationBlock c t
      | Ecotone => IsEcotoneActivationBlock c t
      | Fjord => IsFjordActivationBlock c t
      | Granite => IsGraniteActivationBlock c t
      | Holocene => IsHoloceneActivationBlock c t
      | Isthmus => IsIsthmusActivationBlock c t
      | Jovian => IsJovianActivationBlock c t
      | Interop => IsInteropActivationBlock c t
      | _ => false
      end in
    if foundActivationBlock
    then {| spec_config := c; currentFork := nextFork (currentFork s) |}
    else s.

(** ** Properties of the configuration *)

Lemma reject_if_Ok b e : reject_if b e = Ok () <-> b = false.
Proof. destruct b; simpl; naive_solver. Qed.

Lemma checkFork_Ok a b : checkFork a b = Ok () <->
  forall t, b = Some t -> exists t', a = Some t' /\ t' <= t.
Proof.
  destruct a as [x|], b as [y|]; simpl; [| | |naive_solver].
  - destruct (Z.ltb_spec y x); split; naive_solver lia.
  - naive_solver.
  - split; [done|]. intros H. by destruct (H y) as (? & ? & ?).
Qed.

(** A fork that passes [checkFork] against its predecessor is never active
    before it. *)
Lemma checkFork_active a b t :
  checkFork a b = Ok () -> fork_active b t = true -> fork_active a t = true.
Proof.
  rewrite checkFork_Ok. destruct b as [y|]; simpl; [|done].
  intros H Hy. destruct (H y) as (x & -> & ?); [done|]. simpl. lia.
Qed.

(** The conditions a configuration has to meet. *)
Record config_ok (c : Config) : Prop := {
  ok_BlockTime : BlockTime c <> 0;
  ok_ChannelTimeout : ChannelTimeoutBedrock c <> 0;
  ok_SeqWindow : 2 <= SeqWindowSize c;
  ok_Drift : cfg_MaxSequencerDrift c <> 0;
  ok_GenesisHash : bid_Hash (L2 (cfg_Genesis c)) <> 0;
  ok_GenesisTime : L2Time (cfg_Genesis c) <> 0;
  ok_GasLimit : GasLimit (gen_SystemConfig (cfg_Genesis c)) <> 0;
  ok_ChainID : exists id, L2ChainID c = Some id /\ 0 < id;
  ok_forks : adjacent (fun a b => checkFork a b = Ok ())
    [RegolithTime c; CanyonTime c; DeltaTime c; EcotoneTime c; FjordTime c;
     GraniteTime c; HoloceneTime c; IsthmusTime c] }.

Ltac invert_results :=
  repeat match goal with
  | H : rbind _ _ = Ok _ |- _ => apply rbind_Ok in H as (? & ? & H)
  | H : reject_if _ _ = Ok _ |- _ => apply reject_if_Ok in H
  | u : unit |- _ => destruct u
  end.

Lemma Check_complete c : config_ok c -> Check c = Ok ().
Proof.
  intros []. unfold Check. destruct ok_ChainID0 as (id & -> & Hid).
  unfold validateAltDAConfig, zero_hash.
  simpl in ok_forks0. destruct_and?.
  rewrite !(proj2 (reject_if_Ok _ _)); try (apply Z.eqb_neq; done);
    try (apply Z.ltb_ge; lia).
  simpl. by repeat match goal with H : checkFork _ _ = _ |- _ => rewrite H; clear H end.
Qed.

Lemma Check_sound c : Check c = Ok () -> config_ok c.
Proof.
  unfold Check, zero_hash. intros H. invert_results.
  destruct (L2ChainID c) as [id|] eqn:E; [|done]. invert_results.
  constructor; try lia.
  - exists id. split; [done|]. lia.
  - by repeat constructor.
Qed.

(** [Config.Check] accepts a configuration exactly when its block time,
    channel timeout, sequencer drift, genesis hash/time, gas limit and chain
    id are set, the sequencing window is at least 2, and each fork from
    Canyon to Isthmus is set only with its predecessor set no later. *)
Theorem Check_spec c : Check c = Ok () <-> config_ok c.
Proof. split; [apply Check_sound | apply Check_complete]. Qed.

Definition fork_is_active (c : Config) (f : ForkName) (t : Z) : bool :=
  match f with
  | Regolith => IsRegolith c t
  | Canyon => IsCanyon c t
  | Delta => IsDelta c t
  | Ecotone => IsEcotone c t
  | Fjord => IsFjord c t
  | Granite => IsGranite c t
  | Holocene => IsHolocene c t
  | Isthmus => IsIsthmus c t
  | Jovian => IsJovian c t
  | Interop => IsInterop c t
  | Bedrock => true
  | NoFork | EmptyFork => false
  end.

(** Boolean implication, the order in which forks activate. *)
Definition bimpl (a b : bool) : Prop := b = true -> a = true.

#[global] Instance bimpl_preorder : PreOrder bimpl.
Proof. split; unfold bimpl; repeat intro; auto. Qed.

Definition fork_times (c : Config) : list (option Z) :=
  [RegolithTime c; CanyonTime c; DeltaTime c; EcotoneTime c; FjordTime c;
   GraniteTime c; HoloceneTime c; IsthmusTime c; JovianTime c; InteropTime c].

Lemma ordered_active (l : list (option Z)) t :
  adjacent (fun a b => checkFork a b = Ok ()) l ->
  adjacent bimpl ((fun ft => fork_active ft t) <$> l).
Proof. apply adjacent_map. intros a b H. unfold bimpl. by apply checkFork_active. Qed.

(** In a configuration that passes [Check], the forks activate in order:
    at every timestamp, if a fork up to Isthmus is active then so is every
    earlier one. *)
Theorem Check_forks_in_order c t i j f g :
  Check c = Ok () ->
  AllForks !! i = Some f -> AllForks !! j = Some g -> (i <= j <= 8)%nat ->
  fork_is_active c g t = true -> fork_is_active c f t = true.
Proof.
  intros [_ _ _ _ _ _ _ _ H]%Check_sound Hi Hj Hij.
  apply (ordered_active _ t) in H.
  apply (adjacent_lookup bimpl (true :: ((fun ft => fork_active ft t) <$> take 8 (fork_times c))) i j);
    [split; [done|exact H]| | |lia].
  - do 9 (destruct i as [|i]; [by injection Hi as <-|]). lia.
  - do 9 (destruct j as [|j]; [by injection Hj as <-|]). lia.
Qed.

(** *** Block numbers and timestamps *)

Lemma TimestampForBlock_exact c n :
  bid_Number (L2 (cfg_Genesis c)) <= n ->
  is_u64 n -> 0 <= bid_Number (L2 (cfg_Genesis c)) ->
  0 <= BlockTime c -> 0 <= L2Time (cfg_Genesis c) ->
  is_u64 (L2Time (cfg_Genesis c) + (n - bid_Number (L2 (cfg_Genesis c))) * BlockTime c) ->
  TimestampForBlock c n
  = L2Time (cfg_Genesis c) + (n - bid_Number (L2 (cfg_Genesis c))) * BlockTime c.
Proof.
  intros. unfold TimestampForBlock. unfold is_u64 in *.
  rewrite (u64_small (n - _)) by (unfold is_u64; lia).
  rewrite (u64_small (_ * _)) by (unfold is_u64; nia).
  by apply u64_small.
Qed.

(** The chain's numbers and times stay in 64 bits up to time [ts]. *)
Record clock_ok (c : Config) (ts : Z) : Prop := {
  clock_genesis : 0 <= L2Time (cfg_Genesis c);
  clock_number : 0 <= bid_Number (L2 (cfg_Genesis c));
  clock_block : 0 < BlockTime c;
  clock_ts : is_u64 ts;
  clock_top : bid_Number (L2 (cfg_Genesis c)) + ts < two64 }.

(** [TargetBlockNumber] fails before genesis, and from genesis on it
    returns the block whose timestamp interval holds the given time: the
    latest one that is not in its future.  On the timestamp of a block it
    returns that block. *)
Theorem TargetBlockNumber_spec c ts :
  clock_ok c ts ->
  if ts <? L2Time (cfg_Genesis c)
  then TargetBlockNumber c ts = Err (Msg "did not reach genesis time yet")
  else exists n, TargetBlockNumber c ts = Ok n
       /\ TimestampForBlock c n <= ts < TimestampForBlock c n + BlockTime c
       /\ TargetBlockNumber c (TimestampForBlock c n) = Ok n.
Proof.
  intros [Hg Hn Hb Ht Htop]. unfold TargetBlockNumber.
  destruct (Z.ltb_spec ts (L2Time (cfg_Genesis c))) as [|Hts]; [done|].
  set (g := L2Time (cfg_Genesis c)) in *. set (b := BlockTime c) in *.
  set (k := (ts - g) / b). set (n := bid_Number (L2 (cfg_Genesis c)) + k).
  assert (0 <= k <= ts) as Hk.
  { split; [apply Z.div_pos; lia|]. transitivity (ts - g); [|lia].
    apply Z.div_le_upper_bound; nia. }
  unfold is_u64 in *.
  assert (b * k <= ts - g < b * k + b) as Hdiv.
  { pose proof (Z.div_mod (ts - g) b). pose proof (Z.mod_pos_bound (ts - g) b). lia. }
  assert (TimestampForBlock c n = g + k * b) as Hts'.
  { rewrite TimestampForBlock_exact; subst n; fold g b; unfold is_u64;
      [f_equal; f_equal; lia|lia|lia|lia|lia|lia|].
    replace (_ + k - _) with k by lia. nia. }
  rewrite (proj2 (Z.eqb_neq b 0)), (u64_small (ts - g)) by (unfold is_u64; lia).
  fold k. fold n. rewrite (u64_small n) by (unfold is_u64; lia).
  exists n. split; [done|]. rewrite Hts'. split; [lia|].
  rewrite (proj2 (Z.ltb_ge _ g)) by lia.
  rewrite (u64_small (g + k * b - g)) by (unfold is_u64; nia).
  replace ((g + k * b - g) / b) with k by (rewrite <- (Z.div_mul k b) at 1 by lia; f_equal; lia).
  by rewrite u64_small by (unfold is_u64; lia).
Qed.

(** *** Activation blocks *)

Lemma fork_active_mono ft t t' : t <= t' -> fork_active ft t = true -> fork_active ft t' = true.
Proof. destruct ft; simpl; lia. Qed.

Lemma activation_block_prev ft bt t :
  0 <= bt -> is_u64 (t + bt) -> 0 <= t ->
  activation_block (fork_active ft) bt (t + bt)
  = fork_active ft (t + bt) && negb (fork_active ft t).
Proof.
  intros. unfold activation_block.
  replace (t + bt - bt) with t by lia.
  rewrite u64_small by (unfold is_u64 in *; lia).
  rewrite (proj2 (Z.leb_le bt (t + bt))) by lia. by rewrite andb_true_r.
Qed.

Lemma first_active ft t0 bt n : 0 < bt -> fork_active ft t0 = false ->
  fork_active ft (t0 + Z.of_nat n * bt) = true ->
  exists k, (k < n)%nat /\ fork_active ft (t0 + Z.of_nat k * bt) = false
         /\ fork_active ft (t0 + Z.of_nat (S k) * bt) = true.
Proof.
  intros Hb H0. induction n as [|n IH]; intros Hn.
  { by rewrite Z.mul_0_l, Z.add_0_r, H0 in Hn. }
  destruct (fork_active ft (t0 + Z.of_nat n * bt)) eqn:E.
  - destruct IH as (k & ? & ? & ?); [done|]. exists k. auto with lia.
  - exists n. auto with lia.
Qed.

(** If a fork is not active at some block and active [n] blocks later,
    then exactly one of the blocks in between is its activation block, so
    the code that runs upgrade transactions runs them once. *)
Theorem activation_block_unique ft bt t0 n :
  0 < bt -> 0 <= t0 -> is_u64 (t0 + Z.of_nat n * bt) ->
  fork_active ft t0 = false -> fork_active ft (t0 + Z.of_nat n * bt) = true ->
  exists k, (0 < k <= n)%nat
    /\ activation_block (fork_active ft) bt (t0 + Z.of_nat k * bt) = true
    /\ forall j, (0 < j <= n)%nat ->
        activation_block (fork_active ft) bt (t0 + Z.of_nat j * bt) = true -> j = k.
Proof.
  intros Hb H0 Hn Ha Hz. unfold is_u64 in Hn.
  assert (forall j, (j < n)%nat ->
    activation_block (fork_active ft) bt (t0 + Z.of_nat (S j) * bt)
    = fork_active ft (t0 + Z.of_nat (S j) * bt)
      && negb (fork_active ft (t0 + Z.of_nat j * bt))) as Hact.
  { intros j Hj. replace (t0 + Z.of_nat (S j) * bt) with (t0 + Z.of_nat j * bt + bt) by lia.
    apply activation_block_prev; unfold is_u64; nia. }
  destruct (first_active ft t0 bt n) as (k & Hk & Hk0 & Hk1); try done.
  exists (S k). split; [lia|]. split; [by rewrite Hact, Hk0, Hk1|].
  intros [|j] Hj; [lia|]. rewrite Hact by lia.
  intros [H1 H2]%andb_true_iff. apply negb_true_iff in H2.
  destruct (Nat.lt_trichotomy j k) as [Hlt|[->|Hlt]]; [|done|].
  - rewrite (fork_active_mono ft (t0 + Z.of_nat (S j) * bt) (t0 + Z.of_nat k * bt)) in Hk0;
      [done|nia|done].
  - rewrite (fork_active_mono ft (t0 + Z.of_nat (S k) * bt) (t0 + Z.of_nat j * bt)) in H2;
      [done|nia|done].
Qed.

Lemma activation_block_unique_witness :
  exists k, (0 < k <= 5)%nat
    /\ activation_block (fork_active (Some 7)) 2 (0 + Z.of_nat k * 2) = true
    /\ forall j, (0 < j <= 5)%nat ->
        activation_block (fork_active (Some 7)) 2 (0 + Z.of_nat j * 2) = true -> j = k.
Proof.
  apply (activation_block_unique (Some 7) 2 0 5); vm_compute; intuition congruence.
Defined.

(** *** The fork tracker *)

(** Forks that activate after [t] and not later than [t']. *)
Definition newly_active (c : Config) (t t' : Z) : list ForkName :=
  List.filter (fun f => fork_is_active c f t' && negb (fork_is_active c f t)) AllForks.

(** The fork times are set in order, for every fork ([Check] establishes it
    up to Isthmus). *)
Definition forks_ordered (c : Config) : Prop :=
  adjacent (fun a b => checkFork a b = Ok ()) (fork_times c).

(** The forks active at a time are the first [n] ones. *)
Definition active_bits (c : Config) (t : Z) : list bool :=
  (fun ft => fork_active ft t) <$> fork_times c.

Lemma bimpl_prefix l : adjacent bimpl l ->
  exists n, (n <= length l)%nat /\ l = replicate n true ++ replicate (length l - n) false.
Proof.
  induction l as [|a l IH]; [by exists 0%nat|].
  intros [Ha Hl]%adjacent_cons. destruct (IH Hl) as (n & Hn & Hl').
  destruct a.
  - exists (S n). simpl. split; [lia|]. by rewrite <- Hl'.
  - exists 0%nat. simpl. split; [lia|]. f_equal.
    destruct n as [|n]; [by rewrite Hl' at 1; rewrite Nat.sub_0_r|].
    rewrite Hl' in Ha. discriminate (Ha true eq_refl eq_refl).
Qed.

Lemma active_bits_prefix c t : forks_ordered c ->
  exists n, (n <= 10)%nat /\ active_bits c t = replicate n true ++ replicate (10 - n) false.
Proof.
  intros H. by destruct (bimpl_prefix (active_bits c t)) as (n & Hn & E);
    [apply ordered_active|exists n].
Qed.

Lemma initialFork_bits c t n : (n <= 10)%nat ->
  active_bits c t = replicate n true ++ replicate (10 - n) false ->
  Some (initialFork c t) = AllForks !! n.
Proof.
  intros Hn. cbv [active_bits fork_times fmap list_fmap].
  unfold initialFork, IsRegolith, IsCanyon, IsDelta, IsEcotone, IsFjord,
    IsGranite, IsHolocene, IsIsthmus, IsJovian, IsInterop.
  do 11 (destruct n as [|n];
    [intros [= -> -> -> -> -> -> -> -> -> ->]; reflexivity|]). lia.
Qed.

Lemma length_filter_fmap {A} (P : A -> bool) l :
  length (List.filter P l) = length (List.filter id (P <$> l)).
Proof. induction l as [|a l IH]; simpl; [done|]. destruct (P a); simpl; by rewrite IH. Qed.

Lemma newly_active_bits c t t' n n' : (n <= 10)%nat -> (n' <= 10)%nat ->
  active_bits c t = replicate n true ++ replicate (10 - n) false ->
  active_bits c t' = replicate n' true ++ replicate (10 - n') false ->
  length (newly_active c t t') = (n' - n)%nat.
Proof.
  intros Hn Hn' E E'. unfold newly_active. rewrite length_filter_fmap.
  change (_ <$> AllForks) with
    (false :: zip_with (fun a b => b && negb a) (active_bits c t) (active_bits c t')).
  rewrite E, E'. clear E E'.
  do 11 (destruct n as [|n]; [do 11 (destruct n' as [|n']; [reflexivity|]); lia|]). lia.
Qed.

Lemma active_bits_mono c t t' n n' : t <= t' -> (n <= 10)%nat -> (n' <= 10)%nat ->
  active_bits c t = replicate n true ++ replicate (10 - n) false ->
  active_bits c t' = replicate n' true ++ replicate (10 - n') false ->
  (n <= n')%nat.
Proof.
  intros Ht Hn Hn' E E'. destruct (decide (n <= n')%nat) as [|Hlt]; [done|].
  assert (active_bits c t !! n' = Some true) as H
    by (rewrite E, lookup_app_l by (rewrite length_replicate; lia); apply lookup_replicate; lia).
  assert (active_bits c t' !! n' = Some false) as H'.
  { rewrite E', lookup_app_r by (rewrite length_replicate; lia).
    apply lookup_replicate. rewrite length_replicate. lia. }
  unfold active_bits in *. rewrite list_lookup_fmap in *.
  destruct (fork_times c !! n') as [ft|]; [|done]. simplify_eq/=.
  by rewrite (fork_active_mono ft t t') in H'.
Qed.

(** The activation test of the fork after [f], as [CheckForkActivation]
    selects it. *)
Lemma CheckForkActivation_step s block t n n' :
  0 < BlockTime (spec_config s) -> 0 <= t -> is_u64 (l2_Time block) ->
  l2_Time block = t + BlockTime (spec_config s) ->
  (n <= n' <= S n)%nat -> (n' <= 10)%nat ->
  active_bits (spec_config s) t = replicate n true ++ replicate (10 - n) false ->
  active_bits (spec_config s) (l2_Time block) = replicate n' true ++ replicate (10 - n') false ->
  Some (currentFork s) = AllForks !! n ->
  spec_config (CheckForkActivation s block) = spec_config s
  /\ Some (currentFork (CheckForkActivation s block)) = AllForks !! n'.
Proof.
  destruct s as [c f]; simpl. intros Hb Ht Hu Hbt Hn Hn' E E' Hf.
  assert (forall ft, activation_block (fork_active ft) (BlockTime c) (l2_Time block)
    = fork_active ft (l2_Time block) && negb (fork_active ft t)) as Hact.
  { intros ft. rewrite Hbt in *. apply activation_block_prev; [lia|done|done]. }
  revert E E'. cbv [active_bits fork_times fmap list_fmap].
  unfold CheckForkActivation, IsRegolithActivationBlock, IsCanyonActivationBlock,
    IsDeltaActivationBlock, IsEcotoneActivationBlock, IsFjordActivationBlock,
    IsGraniteActivationBlock, IsHoloceneActivationBlock, IsIsthmusActivationBlock,
    IsJovianActivationBlock, IsInteropActivationBlock, IsRegolith, IsCanyon, IsDelta,
    IsEcotone, IsFjord, IsGranite, IsHolocene, IsIsthmus, IsJovian, IsInterop.
  cbn [spec_config currentFork]. rewrite !Hact. intros E E'.
  assert (n' = n \/ n' = S n) as [-> | ->] by lia;
  do 11 (destruct n as [|n];
    [injection E as -> -> -> -> -> -> -> -> -> ->;
     try injection E' as -> -> -> -> -> -> -> -> -> ->;
     injection Hf as ->; try done; try lia|]); lia.
Qed.

(** If the tracker is at the latest fork of the previous block and at
    most one fork activates at the next block, [CheckForkActivation] moves it
    to the latest fork of that block. *)
Theorem CheckForkActivation_tracks s block t :
  forks_ordered (spec_config s) ->
  0 < BlockTime (spec_config s) -> 0 <= t -> is_u64 (l2_Time block) ->
  l2_Time block = t + BlockTime (spec_config s) ->
  currentFork s = initialFork (spec_config s) t ->
  (length (newly_active (spec_config s) t (l2_Time block)) <= 1)%nat ->
  spec_config (CheckForkActivation s block) = spec_config s
  /\ currentFork (CheckForkActivation s block)
    = initialFork (spec_config s) (l2_Time block).
Proof.
  intros Hord Hb Ht Hu Hbt Hf Hone.
  destruct (active_bits_prefix (spec_config s) t) as (n & Hn & E); [done|].
  destruct (active_bits_prefix (spec_config s) (l2_Time block)) as (n' & Hn' & E'); [done|].
  rewrite (newly_active_bits _ _ _ n n') in Hone by done.
  pose proof (active_bits_mono _ t (l2_Time block) n n' ltac:(lia) Hn Hn' E E').
  destruct (CheckForkActivation_step s block t n n') as [Hc Hs]; try done; try lia.
  { rewrite Hf. by apply initialFork_bits. }
  split; [done|]. apply (inj Some). rewrite Hs. symmetry. by apply initialFork_bits.
Qed.

Definition example_config : Config :=
  {| cfg_Genesis := {| L2 := {| bid_Hash := 17; bid_Number := 0 |}; L2Time := 100;
       gen_SystemConfig := {| GasLimit := 30000000; EIP1559Params := replicate 8 0;
         sc_OperatorFeeParams := replicate 32 0; MarshalPreHolocene := false |} |};
     BlockTime := 2; cfg_MaxSequencerDrift := 600; SeqWindowSize := 3600;
     ChannelTimeoutBedrock := 300; L2ChainID := Some 901;
     RegolithTime := Some 0; CanyonTime := Some 0; DeltaTime := Some 0;
     EcotoneTime := Some 110; FjordTime := Some 120; GraniteTime := Some 120;
     HoloceneTime := Some 130; IsthmusTime := None; JovianTime := None;
     InteropTime := None; PectraBlobScheduleTime := None |}.

Definition example_block (t : Z) : L2BlockRef :=
  {| l2_Hash := 5; l2_Number := 1; l2_ParentHash := 4; l2_Time := t;
     l2_L1Origin := zeroBlockID; l2_SequenceNumber := 0 |}.

Lemma Check_forks_in_order_witness :
  fork_is_active example_config Ecotone 1000 = true.
Proof.
  apply (Check_forks_in_order example_config 1000 4 7 Ecotone Holocene);
    [reflexivity|reflexivity|reflexivity|lia|reflexivity].
Defined.

Lemma TargetBlockNumber_spec_witness :
  exists n, TargetBlockNumber example_config 131 = Ok n
    /\ TimestampForBlock example_config n <= 131 < TimestampForBlock example_config n + 2
    /\ TargetBlockNumber example_config (TimestampForBlock example_config n) = Ok n.
Proof.
  apply (TargetBlockNumber_spec example_config 131).
  constructor; vm_compute; intuition congruence.
Defined.

Lemma CheckForkActivation_tracks_witness :
  currentFork (CheckForkActivation {| spec_config := example_config; currentFork := Delta |}
                 (example_block 110)) = Ecotone.
Proof.
  apply (CheckForkActivation_tracks
    {| spec_config := example_config; currentFork := Delta |} (example_block 110) 108);
    vm_compute; intuition (congruence || lia).
Defined.

(** Two forks that activate at the same block leave the tracker behind
    for good: it moves one fork per call, and the second fork's activation
    block has passed.  (Fjord and Granite both activate at time 120 here; at
    time 122 the latest fork is Granite and the tracker stays at Fjord.) *)
Theorem CheckForkActivation_stuck :
  let s0 := {| spec_config := example_config; currentFork := Ecotone |} in
  let s1 := CheckForkActivation s0 (example_block 120) in
  Check example_config = Ok ()
  /\ currentFork s1 = Fjord
  /\ forall k, 0 < k <= 100 ->
      currentFork (CheckForkActivation s1 (example_block (120 + 2 * k))) = Fjord
      /\ fork_is_active example_config Granite (120 + 2 * k) = true.
Proof.
  intros s0 s1. split; [reflexivity|]. split; [reflexivity|]. intros k Hk.
  assert (s1 = {| spec_config := example_config; currentFork := Fjord |}) as -> by reflexivity.
  change (CheckForkActivation _ _) with
    (if IsGraniteActivationBlock example_config (120 + 2 * k)
     then {| spec_config := example_config; currentFork := Granite |}
     else {| spec_config := example_config; currentFork := Fjord |}).
  unfold IsGraniteActivationBlock, activation_block, fork_is_active, IsGranite.
  cbn -[Z.mul Z.add Z.sub Z.leb u64].
  rewrite u64_small by (unfold is_u64, two64; lia).
  rewrite (proj2 (Z.leb_le 120 (120 + 2 * k - 2))), andb_false_r by lia.
  split; [done|lia].
Qed.

(** [ActivateAtGenesis] with a fork name makes that fork and all earlier
    ones active at every timestamp, and leaves the activation of every later
    fork as it was. *)
Theorem ActivateAtGenesis_spec c i h j f t :
  AllForks !! i = Some h -> AllForks !! j = Some f -> 0 <= t ->
  fork_is_active (ActivateAtGenesis c h) f t
  = if (j <=? i)%nat then true else fork_is_active c f t.
Proof.
  intros Hi Hj Ht. assert ((0 <=? t) = true) as H0 by lia.
  do 11 (destruct i as [|i];
    [injection Hi as <-;
     do 11 (destruct j as [|j]; [injection Hj as <-; (reflexivity || exact H0)|]);
     done|]). done.
Qed.

Lemma ActivateAtGenesis_spec_witness :
  fork_is_active (ActivateAtGenesis example_config Holocene) Fjord 1 = true
  /\ fork_is_active (ActivateAtGenesis example_config Holocene) Isthmus 1 = false.
Proof.
  split.
  - exact (ActivateAtGenesis_spec example_config 7 Holocene 5 Fjord 1 eq_refl eq_refl ltac:(lia)).
  - exact (ActivateAtGenesis_spec example_config 7 Holocene 8 Isthmus 1 eq_refl eq_refl ltac:(lia)).
Defined.
