(* ===== verification/Frames.v ===== *)
(** * Frames

    Models [rhs-node/rollup/derive/frame.go] and the frame constants of
    [derive/params.go]: the wire format of a frame, its parser, and the parser
    of the frames of a batcher transaction.  A writer is the list of bytes
    written so far, which never fails (the callers write to buffers); a
    reader is the list of the unread bytes. *)

From S2P Require Import Prelude.

Definition MaxFrameLen : Z := 1000000.
Definition DerivationVersion0 : Z := 0.
Definition ChannelIDLength : nat := 16.
Definition frameOverhead : Z := 200.

(** A [ChannelID] is an array of [ChannelIDLength] bytes. *)
Abbreviation ChannelID := (list Z).

Record Frame : Type := {
  ID : ChannelID;
  FrameNumber : Z;
  Data : bytes;
  IsLast : bool }.

#[global] Instance Frame_eq_dec : EqDecision Frame.
Proof. solve_decision. Defined.

(** The length of a slice, as Go's [uint64(len(l))]. *)
Definition lenZ {A} (l : list A) : Z := Z.of_nat (length l).

Definition frameSize (frame : Frame) : Z := u64 (lenZ (Data frame)) +u frameOverhead.

Definition MarshalBinary (f : Frame) : bytes :=
  ID f ++ be_encode 2 (FrameNumber f) ++ be_encode 4 (u32 (lenZ (Data f)))
  ++ Data f ++ [if IsLast f then 1 else 0].

Definition eofAsUnexpectedMissing (err : error) : error :=
  if errors_Is err EOF then Wrap "fully missing" UnexpectedEOF else err.

Definition UnmarshalBinary (r : bytes) : result (Frame * bytes) :=
  let* (id, r) := map_err (Wrap "reading channel_id") (ReadFull ChannelIDLength r) in
  let* (num, r) := map_err (fun e => Wrap "reading frame_number" (eofAsUnexpectedMissing e))
                     (ReadBE 2 r) in
  let* (frameLength, r) :=
    map_err (fun e => Wrap "reading frame_data_length" (eofAsUnexpectedMissing e)) (ReadBE 4 r) in
  if MaxFrameLen <? frameLength then Err (Msg "frame_data_length is too large") else
  let* (data, r) := map_err (fun e => Wrap "reading frame_data" (eofAsUnexpectedMissing e))
                      (ReadFull (Z.to_nat frameLength) r) in
  let* (isLastByte, r) :=
    map_err (fun e => Wrap "reading final byte (is_last)" (eofAsUnexpectedMissing e)) (ReadByte r) in
  if isLastByte =? 0 then
    Ok ({| ID := id; FrameNumber := num; Data := data; IsLast := false |}, r)
  else if isLastByte =? 1 then
    Ok ({| ID := id; FrameNumber := num; Data := data; IsLast := true |}, r)
  else Err (Msg "invalid byte as is_last").

(** The loop of [ParseFrames]; every frame takes at least one byte, so the
    length of the buffer is enough fuel ([parse_loop_spec]). *)
Fixpoint parse_loop (fuel : nat) (buf : bytes) (frames : list Frame) : result (list Frame) :=
  match buf with
  | [] => Ok frames
  | _ =>
      match fuel with
      | O => Panic
      | S fuel' =>
          let* (f, buf') := map_err (Wrap "parsing frame") (UnmarshalBinary buf) in
          parse_loop fuel' buf' (frames ++ [f])
      end
  end.

Definition ParseFrames (data : bytes) : result (list Frame) :=
  match data with
  | [] => Err (Msg "data array must not be empty")
  | v :: buf =>
      if negb (v =? DerivationVersion0) then Err (Msg "invalid derivation format byte") else
      let* frames := parse_loop (length buf) buf [] in
      match frames with
      | [] => Err (Msg "was not able to find any frames")
      | _ => Ok frames
      end
  end.

(** ** The wire format *)

(** The frames that exist on the wire. *)
Record frame_ok (f : Frame) : Prop := {
  ok_ID : length (ID f) = ChannelIDLength;
  ok_ID_bytes : is_bytes (ID f);
  ok_Number : is_u16 (FrameNumber f);
  ok_Data : is_bytes (Data f);
  ok_Len : lenZ (Data f) <= MaxFrameLen }.

Lemma frame_len_small f : frame_ok f -> u32 (lenZ (Data f)) = lenZ (Data f).
Proof.
  intros []. unfold u32. apply Z.mod_small. unfold lenZ, MaxFrameLen, two32 in *. lia.
Qed.

Lemma Unmarshal_Marshal f r : frame_ok f -> UnmarshalBinary (MarshalBinary f ++ r) = Ok (f, r).
Proof.
  intros Hf. unfold UnmarshalBinary, MarshalBinary. rewrite frame_len_small by done.
  destruct Hf as [H1 _ H3 _ H5]. unfold lenZ, MaxFrameLen in *.
  rewrite <- !app_assoc, ReadFull_app by done. cbn [rbind map_err].
  rewrite ReadBE_app by (unfold is_u16, two16 in H3; simpl; lia). cbn [rbind map_err].
  rewrite ReadBE_app by (simpl; lia). cbn [rbind map_err].
  rewrite (proj2 (Z.ltb_ge _ _)) by lia.
  rewrite Nat2Z.id, ReadFull_app by done. simpl.
  by destruct f as [? ? ? []].
Qed.

Lemma Unmarshal_inv r f r' : is_bytes r -> UnmarshalBinary r = Ok (f, r') ->
  frame_ok f /\ r = MarshalBinary f ++ r'.
Proof.
  intros Hr H. unfold UnmarshalBinary in H.
  apply rbind_Ok in H as ([id r1] & H1 & H). apply map_err_Ok, ReadFull_Ok in H1 as [-> Hid].
  apply Forall_app in Hr as [Hidb Hr].
  apply rbind_Ok in H as ([num r2] & H2 & H).
  apply map_err_Ok, ReadBE_Ok in H2 as [-> Hnum]; [|done]. apply Forall_app in Hr as [_ Hr].
  apply rbind_Ok in H as ([len r3] & H3 & H).
  apply map_err_Ok, ReadBE_Ok in H3 as [-> Hlen]; [|done]. apply Forall_app in Hr as [_ Hr].
  destruct (MaxFrameLen <? len) eqn:Emax; [done|].
  apply rbind_Ok in H as ([data r4] & H4 & H). apply map_err_Ok, ReadFull_Ok in H4 as [-> Hdata].
  apply Forall_app in Hr as [Hdatab Hr].
  apply rbind_Ok in H as ([b r5] & H5 & H). apply map_err_Ok in H5.
  destruct r4 as [|b' r4]; [done|]. injection H5 as -> ->.
  assert (forall last, frame_ok {| ID := id; FrameNumber := num; Data := data; IsLast := last |})
    as Hok.
  { intros last. constructor; simpl; try done. unfold lenZ. lia. }
  destruct (b =? 0) eqn:E0; [|destruct (b =? 1) eqn:E1; [|done]];
    injection H as <- <-; (split; [apply Hok|]); unfold MarshalBinary;
    rewrite frame_len_small by apply Hok; unfold lenZ; cbn [ID FrameNumber Data IsLast];
    rewrite Hdata, Z2Nat.id by lia; repeat rewrite <- app_assoc;
    do 4 f_equal; simpl; f_equal; lia.
Qed.

(** No read of the parser panics. *)
Lemma ReadFull_no_panic n r : ReadFull n r <> Panic.
Proof. unfold ReadFull. case_decide; [done|]. destruct r; [done|]. by case_decide. Qed.

Lemma rbind_no_panic {A B} (r : result A) (k : A -> result B) :
  r <> Panic -> (forall a, k a <> Panic) -> rbind r k <> Panic.
Proof. destruct r; simpl; auto. Qed.

Lemma ReadBE_no_panic n r : ReadBE n r <> Panic.
Proof. apply rbind_no_panic; [apply ReadFull_no_panic|]. by intros []. Qed.

Lemma ReadByte_no_panic r : ReadByte r <> Panic.
Proof. by destruct r. Qed.

#[export] Hint Resolve ReadFull_no_panic ReadBE_no_panic ReadByte_no_panic
  map_err_no_panic : rollup.

Ltac no_panic :=
  repeat first
    [ done
    | apply rbind_no_panic; [solve [auto with rollup] | intros []]
    | match goal with |- context [if ?b then _ else _] => destruct b end ].

Lemma Unmarshal_no_panic r : UnmarshalBinary r <> Panic.
Proof. unfold UnmarshalBinary. no_panic. Qed.

Lemma MarshalBinary_nonempty f : (0 < length (MarshalBinary f))%nat.
Proof. unfold MarshalBinary. rewrite !length_app, length_cons. lia. Qed.

Lemma parse_loop_frames fs fuel acc :
  Forall frame_ok fs -> (length (mjoin (MarshalBinary <$> fs)) <= fuel)%nat ->
  parse_loop fuel (mjoin (MarshalBinary <$> fs)) acc = Ok (acc ++ fs).
Proof.
  intros Hfs. revert fuel acc. induction Hfs as [|f fs Hf Hfs IH]; intros fuel acc Hfuel.
  { destruct fuel; simpl; by rewrite app_nil_r. }
  rewrite fmap_cons in *. simpl mjoin in *. rewrite length_app in Hfuel.
  pose proof (MarshalBinary_nonempty f).
  destruct fuel as [|fuel]; [lia|].
  destruct (MarshalBinary f ++ _) as [|b t] eqn:E.
  { apply app_eq_nil in E as [E _]. rewrite E in *. simpl in *. lia. }
  simpl parse_loop. rewrite <- E, Unmarshal_Marshal by done. cbn [rbind map_err].
  rewrite IH by lia. by rewrite <- app_assoc.
Qed.

Lemma parse_loop_inv fuel buf acc fs :
  is_bytes buf -> parse_loop fuel buf acc = Ok fs ->
  exists fs', fs = acc ++ fs' /\ Forall frame_ok fs' /\ buf = mjoin (MarshalBinary <$> fs').
Proof.
  revert buf acc. induction fuel as [|fuel IH]; intros [|b t] acc Hb H;
    try (injection H as <-; exists []; by rewrite app_nil_r); [done|].
  apply rbind_Ok in H as ([f buf'] & H1 & H). apply map_err_Ok in H1.
  apply Unmarshal_inv in H1 as [Hf E]; [|done]. rewrite E in Hb |- *.
  apply Forall_app in Hb as [_ Hb].
  destruct (IH _ _ Hb H) as (fs' & -> & Hfs & ->).
  exists (f :: fs'). rewrite <- app_assoc. split_and!; [done|by constructor|done].
Qed.

Lemma parse_loop_no_panic fuel buf acc :
  (length buf <= fuel)%nat -> is_bytes buf -> parse_loop fuel buf acc <> Panic.
Proof.
  revert buf acc. induction fuel as [|fuel IH]; intros [|b t] acc Hf Hb; simpl in *;
    try done; [lia|].
  destruct (UnmarshalBinary (b :: t)) as [[f buf']| |] eqn:E; simpl; [|done|].
  - apply Unmarshal_inv in E as [Hok E]; [|done].
    pose proof (MarshalBinary_nonempty f). rewrite E in Hb.
    apply (f_equal length) in E. rewrite length_app in E. simpl in E.
    apply Forall_app in Hb as [_ Hb]. apply IH; [lia|done].
  - by apply Unmarshal_no_panic in E.
Qed.

Lemma ParseFrames_correct data :
  is_bytes data ->
  (forall fs, ParseFrames data = Ok fs <->
     fs <> [] /\ Forall frame_ok fs
     /\ data = DerivationVersion0 :: mjoin (MarshalBinary <$> fs))
  /\ ParseFrames data <> Panic.
Proof.
  intros Hb. unfold ParseFrames. destruct data as [|v buf]; [naive_solver|].
  apply Forall_cons in Hb as [_ Hb].
  pose proof (parse_loop_no_panic (length buf) buf [] ltac:(done) Hb) as Hp.
  destruct (Z.eqb_spec v DerivationVersion0) as [->|]; simpl; [|naive_solver].
  split.
  - intros fs. split.
    + intros H. apply rbind_Ok in H as (fs' & H & Hne).
      apply parse_loop_inv in H as (fs'' & -> & Hok & ->); [|done]. simpl in *.
      by destruct fs''; simplify_eq.
    + intros (Hne & Hok & [= ->]). rewrite parse_loop_frames by done. simpl.
      by destruct fs.
  - destruct (parse_loop _ _ _) as [fs| |]; simpl; [by destruct fs|done|done].
Qed.

(** [ParseFrames] accepts exactly the data that is the version byte
    followed by the concatenated encodings of one or more well-formed frames,
    and returns those frames; on any other bytes it returns an error (its
    loop always terminates and never indexes out of range). *)
Theorem ParseFrames_spec data :
  is_bytes data ->
  (forall fs, ParseFrames data = Ok fs <->
     fs <> [] /\ Forall frame_ok fs
     /\ data = DerivationVersion0 :: mjoin (MarshalBinary <$> fs))
  /\ ParseFrames data <> Panic.
Proof. apply ParseFrames_correct. Qed.

(** A frame truncated somewhere. *)
Lemma ReadFull_short n r : r <> [] -> (length r < n)%nat -> ReadFull n r = Err UnexpectedEOF.
Proof.
  intros Hr Hl. unfold ReadFull. rewrite decide_False by lia.
  destruct r; [done|]. by rewrite decide_True.
Qed.

Lemma ReadBE_short n r : r <> [] -> (length r < n)%nat -> ReadBE n r = Err UnexpectedEOF.
Proof. intros. unfold ReadBE. by rewrite ReadFull_short. Qed.

Lemma ReadFull_nil n : n <> 0%nat -> ReadFull n [] = Err EOF.
Proof. intros. unfold ReadFull. by rewrite decide_False. Qed.

(** The first [n] bytes of a concatenation, with less than the first part. *)
Lemma short_prefix n (l r : bytes) : (n < length (l ++ r))%nat ->
  (exists m, (m < length l)%nat /\ take n (l ++ r) = take m l)
  \/ (exists m, (m < length r)%nat /\ take n (l ++ r) = l ++ take m r).
Proof.
  intros H. rewrite length_app in H. destruct (decide (n < length l)%nat).
  - left. exists n. split; [done|]. by rewrite take_app_le by lia.
  - right. exists (n - length l)%nat. split; [lia|].
    rewrite take_app_ge by lia. done.
Qed.

Definition truncated_err (e : error) : Prop :=
  errors_Is e UnexpectedEOF = true /\ errors_Is e EOF = false.

Ltac solve_truncated := eexists; split; [|reflexivity]; split; reflexivity.

Lemma read_cut {A} n m (l : bytes) (k : bytes * bytes -> result A) s :
  length l = n -> (m < n)%nat ->
  exists e, truncated_err e /\
  rbind (map_err (fun e => Wrap s (eofAsUnexpectedMissing e)) (ReadFull n (take m l))) k = Err e.
Proof.
  intros Hl Hm. destruct m as [|m].
  - rewrite take_0, ReadFull_nil by lia. solve_truncated.
  - rewrite ReadFull_short; [solve_truncated| |rewrite length_take; lia].
    destruct l; simpl in *; [lia|done].
Qed.

Lemma readBE_cut {A} n m (l : bytes) (k : Z * bytes -> result A) s :
  length l = n -> (m < n)%nat ->
  exists e, truncated_err e /\
  rbind (map_err (fun e => Wrap s (eofAsUnexpectedMissing e)) (ReadBE n (take m l))) k = Err e.
Proof.
  intros Hl Hm. destruct m as [|m].
  - unfold ReadBE. rewrite take_0, ReadFull_nil by lia. solve_truncated.
  - rewrite ReadBE_short; [solve_truncated| |rewrite length_take; lia].
    destruct l; simpl in *; [lia|done].
Qed.

Lemma Unmarshal_cut f n :
  frame_ok f -> (0 < n < length (MarshalBinary f))%nat ->
  exists e, truncated_err e /\ UnmarshalBinary (take n (MarshalBinary f)) = Err e.
Proof.
  intros Hf [H0 Hn]. revert Hn. unfold MarshalBinary. rewrite frame_len_small by done.
  destruct Hf as [H1 _ H3 _ H5]. unfold UnmarshalBinary, lenZ, MaxFrameLen in *. intros Hn.
  destruct (short_prefix _ _ _ Hn) as [(m & Hm & E) | (m & Hm & ->)]; clear Hn.
  { destruct n as [|n]; [lia|]. rewrite ReadFull_short; [solve_truncated| |].
    - by destruct (ID f).
    - rewrite E, length_take. lia. }
  rewrite ReadFull_app by done. cbn [rbind map_err].
  destruct (short_prefix _ _ _ Hm) as [(m' & Hm' & ->) | (m' & Hm' & ->)]; clear Hm.
  { rewrite length_be_encode in Hm'. apply readBE_cut; [apply length_be_encode|done]. }
  rewrite ReadBE_app by (unfold is_u16, two16 in H3; simpl; lia). cbn [rbind map_err].
  destruct (short_prefix _ _ _ Hm') as [(p & Hp & ->) | (p & Hp & ->)]; clear Hm'.
  { rewrite length_be_encode in Hp. apply readBE_cut; [apply length_be_encode|done]. }
  rewrite ReadBE_app by (simpl; lia). cbn [rbind map_err].
  rewrite (proj2 (Z.ltb_ge _ _)) by lia. rewrite Nat2Z.id.
  destruct (short_prefix _ _ _ Hp) as [(q & Hq & ->) | (q & Hq & ->)]; clear Hp.
  { by apply read_cut. }
  rewrite ReadFull_app by done. cbn [rbind map_err]. simpl in Hq.
  assert (q = 0%nat) as -> by lia. solve_truncated.
Qed.

(** Reading a frame from a truncated encoding fails the way the
    documentation of [UnmarshalBinary] says: with [io.EOF] in the error chain
    when no byte is left, with [io.ErrUnexpectedEOF] (and no [io.EOF]) when
    the data stops half-way. *)
Theorem Unmarshal_truncated f n :
  frame_ok f -> (n < length (MarshalBinary f))%nat ->
  exists e, UnmarshalBinary (take n (MarshalBinary f)) = Err e
  /\ if decide (n = 0%nat) then errors_Is e EOF = true else truncated_err e.
Proof.
  intros Hf Hn. case_decide as H0.
  - subst n. eexists. split; reflexivity.
  - destruct (Unmarshal_cut f n) as (e & ? & ?); [done|lia|]. by exists e.
Qed.

Definition example_frame : Frame :=
  {| ID := replicate 16 7; FrameNumber := 258; Data := [1; 2; 3]; IsLast := true |}.

Lemma example_frame_ok : frame_ok example_frame.
Proof.
  constructor; [reflexivity|by apply is_bytes_check| |by apply is_bytes_check|].
  - vm_compute; intuition congruence.
  - vm_compute; congruence.
Qed.

Lemma ParseFrames_spec_witness :
  ParseFrames (0 :: MarshalBinary example_frame) = Ok [example_frame].
Proof.
  apply (ParseFrames_spec (0 :: MarshalBinary example_frame)).
  - by apply is_bytes_check.
  - split; [done|]. split; [constructor; [apply example_frame_ok|constructor]|reflexivity].
Defined.

Lemma Unmarshal_truncated_witness :
  exists e, UnmarshalBinary (take 20 (MarshalBinary example_frame)) = Err e /\ truncated_err e.
Proof. apply (Unmarshal_truncated example_frame 20 example_frame_ok). vm_compute. lia. Defined.
