(* ===== verification/FrameQueue.v ===== *)
(** * The frame queue

    Models [rhs-node/rollup/derive/frame_queue.go]: the stage that parses
    batcher transactions into frames and, under Holocene, prunes them to
    contiguous channels.  The stages below and above it talk through the
    interfaces [NextDataProvider] and [NextFrameProvider], which are type
    classes over the state of the provider; their [Laws] classes state what a
    stage relies on, and this file discharges the frame provider's laws for
    the queue. *)

From S2P Require Import Prelude EthTypes RollupConfig Frames.

(** ** Interfaces *)

(** [NextDataProvider]: the next batcher transaction, or an error. *)
Class NextDataProvider (S : Type) := {
  NextData : S -> S * result bytes;
  data_Origin : S -> L1BlockRef }.

(** [NextFrameProvider]: the next frame, or an error. *)
Class NextFrameProvider (S : Type) := {
  NextFrame : S -> S * result Frame;
  frame_Origin : S -> L1BlockRef }.

(** What the clients of a data provider rely on: it yields bytes, its call
    does not move the L1 origin (only the traversal stage does) and it does
    not panic. *)
Class NextDataLaws (S : Type) `{NextDataProvider S} (I : S -> Prop) := {
  data_inv : forall s, I s -> I (NextData s).1;
  data_origin : forall s, I s -> data_Origin (NextData s).1 = data_Origin s;
  data_bytes : forall s d, I s -> (NextData s).2 = Ok d -> is_bytes d;
  data_no_panic : forall s, I s -> (NextData s).2 <> Panic }.

Class NextFrameLaws (S : Type) `{NextFrameProvider S} (I : S -> Prop) := {
  frame_inv : forall s, I s -> I (NextFrame s).1;
  frame_origin : forall s, I s -> frame_Origin (NextFrame s).1 = frame_Origin s;
  frame_yields_ok : forall s f, I s -> (NextFrame s).2 = Ok f -> frame_ok f;
  frame_no_panic : forall s, I s -> (NextFrame s).2 <> Panic }.

(** ** Pruning *)

(** [append(frames[0:k], frames[k+1:]...)] *)
Definition remove_at {A} (k : nat) (l : list A) : list A := take k l ++ drop (S k) l.

(** The loop of [pruneFrameQueue]: [i] is the cursor.  Every iteration either
    removes a frame (and moves the cursor back by at most one) or advances
    the cursor, so twice the number of frames is enough fuel
    ([prune_loop_spec]). *)
Fixpoint prune_loop (fuel i : nat) (frames : list Frame) : result (list Frame) :=
  match fuel with
  | O => Panic
  | S fuel' =>
      match frames !! i, frames !! S i with
      | Some current, Some next =>
          if decide (ID current = ID next) then
            if IsLast current then prune_loop fuel' i (remove_at (S i) frames)
            else if negb (FrameNumber next =? u16 (FrameNumber current + 1)) then
              prune_loop fuel' i (remove_at (S i) frames)
            else prune_loop fuel' (S i) frames
          else
            if (FrameNumber next =? 0) && negb (IsLast current) then
              prune_loop fuel' (i - 1) (remove_at i frames)
            else if negb (FrameNumber next =? 0) then
              prune_loop fuel' i (remove_at (S i) frames)
            else prune_loop fuel' (S i) frames
      | _, _ => Ok frames
      end
  end.

Definition pruneFrameQueue (frames : list Frame) : result (list Frame) :=
  prune_loop (S (2 * length frames)) 0 frames.

(** ** The stage *)

Record FrameQueue (S : Type) : Type := {
  fq_frames : list Frame;
  fq_prev : S;
  fq_cfg : Config }.
Arguments fq_frames {S} _.
Arguments fq_prev {S} _.
Arguments fq_cfg {S} _.

Section Stage.
Context {S : Type} `{!NextDataProvider S}.

Definition fq_with (fq : FrameQueue S) (frames : list Frame) (prev : S) : FrameQueue S :=
  {| fq_frames := frames; fq_prev := prev; fq_cfg := fq_cfg fq |}.

Definition NewFrameQueue (cfg : Config) (prev : S) : FrameQueue S :=
  {| fq_frames := []; fq_prev := prev; fq_cfg := cfg |}.

Definition FrameQueue_Origin (fq : FrameQueue S) : L1BlockRef := data_Origin (fq_prev fq).

Definition fq_reset (fq : FrameQueue S) : FrameQueue S := fq_with fq [] (fq_prev fq).

Definition FrameQueue_Reset (fq : FrameQueue S) : FrameQueue S * result unit :=
  (fq_reset fq, Err EOF).

Definition FrameQueue_Transform (fq : FrameQueue S) (f : ForkName) : FrameQueue S :=
  match f with
  | Holocene => fq_reset fq
  | _ => fq
  end.

Definition loadNextFrames (fq : FrameQueue S) : FrameQueue S * result unit :=
  let (prev, r) := NextData (fq_prev fq) in
  let fq := fq_with fq (fq_frames fq) prev in
  match r with
  | Err e => (fq, Err e)
  | Panic => (fq, Panic)
  | Ok data =>
      match ParseFrames data with
      | Panic => (fq, Panic)
      | Err _ => (fq, Ok ())
      | Ok frames =>
          let all := fq_frames fq ++ frames in
          if IsHolocene (fq_cfg fq) (l1_Time (FrameQueue_Origin fq)) then
            match pruneFrameQueue all with
            | Ok pruned => (fq_with fq pruned prev, Ok ())
            | Err e => (fq, Err e)
            | Panic => (fq, Panic)
            end
          else (fq_with fq all prev, Ok ())
      end
  end.

Definition FrameQueue_NextFrame (fq : FrameQueue S) : FrameQueue S * result Frame :=
  let '(fq, r) :=
    match fq_frames fq with
    | [] => loadNextFrames fq
    | _ => (fq, Ok ())
    end in
  match r with
  | Err e => (fq, Err e)
  | Panic => (fq, Panic)
  | Ok _ =>
      match fq_frames fq with
      | [] => (fq, Err NotEnoughData)
      | ret :: rest => (fq_with fq rest (fq_prev fq), Ok ret)
      end
  end.

#[global] Instance FrameQueue_provider : NextFrameProvider (FrameQueue S) :=
  { NextFrame := FrameQueue_NextFrame; frame_Origin := FrameQueue_Origin }.

End Stage.

(** ** What pruning computes

    The reference: go over the frames once with a stack of the frames kept
    so far (last one first). *)
Fixpoint keep_frame (kept : list Frame) (next : Frame) : list Frame :=
  match kept with
  | [] => [next]
  | current :: older =>
      if decide (ID current = ID next) then
        if IsLast current || negb (FrameNumber next =? u16 (FrameNumber current + 1))
        then kept else next :: kept
      else if negb (FrameNumber next =? 0) then kept
      else if IsLast current then next :: kept
      else keep_frame older next
  end.

Definition prune_reference (frames : list Frame) : list Frame :=
  rev (fold_left keep_frame frames []).

(** Neighbours in a pruned queue: the next frame of the same open channel, or
    the first frame of a channel after a closed one. *)
Definition follows (current next : Frame) : Prop :=
  if decide (ID current = ID next)
  then IsLast current = false /\ FrameNumber next = u16 (FrameNumber current + 1)
  else IsLast current = true /\ FrameNumber next = 0.

Lemma remove_at_app {A} (l : list A) a r : remove_at (length l) (l ++ a :: r) = l ++ r.
Proof.
  unfold remove_at. rewrite take_app_length. f_equal.
  rewrite drop_app_ge by lia. by replace (S (length l) - length l)%nat with 1%nat by lia.
Qed.

Lemma remove_at_app' {A} k (l : list A) a r :
  length l = k -> remove_at k (l ++ a :: r) = l ++ r.
Proof. intros <-. apply remove_at_app. Qed.

Lemma prune_loop_spec fuel i kept cur rest :
  i = length kept -> (2 * length rest + length kept < fuel)%nat ->
  prune_loop fuel i (rev kept ++ cur :: rest)
  = Ok (rev (fold_left keep_frame rest (cur :: kept))).
Proof.
  revert i kept cur rest. induction fuel as [|fuel IH]; intros i kept cur rest -> Hf; [lia|].
  simpl prune_loop.
  rewrite lookup_app_r, length_rev, Nat.sub_diag by (rewrite length_rev; lia).
  simpl lookup at 1. cbn iota.
  rewrite lookup_app_r by (rewrite length_rev; lia).
  rewrite length_rev. replace (S (length kept) - length kept)%nat with 1%nat by lia.
  destruct rest as [|next rest]; simpl lookup; cbn iota; [by simpl rev|].
  simpl length in Hf. simpl fold_left.
  assert (forall p, remove_at (S (length kept)) (rev kept ++ cur :: next :: p)
                    = rev kept ++ cur :: p) as Hnext.
  { intros p. replace (rev kept ++ cur :: next :: p) with ((rev kept ++ [cur]) ++ next :: p)
      by by rewrite <- app_assoc.
    rewrite remove_at_app', <- app_assoc; [done|]. rewrite length_app, length_rev. simpl. lia. }
  assert (prune_loop fuel (S (length kept)) (rev kept ++ cur :: next :: rest)
          = Ok (rev (fold_left keep_frame rest (next :: cur :: kept)))) as Hadv.
  { rewrite <- (IH (S (length kept)) (cur :: kept)) by (simpl; lia).
    simpl. by rewrite <- app_assoc. }
  repeat case_decide; try done.
  - destruct (IsLast cur); simpl; [rewrite Hnext; apply IH; [done|lia]|].
    destruct (_ =? _); simpl; [done|]. rewrite Hnext. apply IH; [done|lia].
  - destruct (FrameNumber next =? 0) eqn:E0; simpl.
    2:{ rewrite Hnext. apply IH; [done|lia]. }
    destruct (IsLast cur) eqn:El; simpl; [done|].
    rewrite remove_at_app' by apply length_rev.
    destruct kept as [|prev kept]; simpl; [apply (IH 0%nat []); simpl; lia|].
    rewrite Nat.sub_0_r, <- app_assoc. simpl.
    rewrite (IH (length kept) kept prev (next :: rest)) by (simpl in *; lia).
    simpl. done.
Qed.

Lemma pruneFrameQueue_eq frames : pruneFrameQueue frames = Ok (prune_reference frames).
Proof.
  unfold pruneFrameQueue, prune_reference. destruct frames as [|f frames]; [done|].
  apply (prune_loop_spec _ 0 []); simpl; lia.
Qed.

(** The stack of kept frames, last one first, is linked by [follows]. *)
Lemma keep_frame_linked kept next :
  adjacent (flip follows) kept -> adjacent (flip follows) (keep_frame kept next).
Proof.
  induction kept as [|cur older IH]; intros Hk; [done|].
  simpl. apply adjacent_cons in Hk as Hc.
  case_decide as Eid.
  - destruct (IsLast cur) eqn:El; simpl; [done|].
    destruct (Z.eqb_spec (FrameNumber next) (u16 (FrameNumber cur + 1))); simpl; [|done].
    split; [|done]. unfold flip, follows. by rewrite decide_True.
  - destruct (Z.eqb_spec (FrameNumber next) 0); simpl; [|done].
    destruct (IsLast cur) eqn:El; [|by apply IH, Hc].
    split; [|done]. unfold flip, follows. by rewrite decide_False.
Qed.

Lemma keep_frame_sublist kept next :
  sublist (keep_frame kept next) (next :: kept).
Proof.
  induction kept as [|cur older IH]; simpl; [done|].
  repeat case_match; try done; try by constructor.
  etransitivity; [exact IH|]. constructor. by constructor.
Qed.

Lemma keep_frame_keeps kept next cur :
  head kept = Some cur -> follows cur next -> keep_frame kept next = next :: kept.
Proof.
  destruct kept as [|c older]; [done|]. intros [= ->]. unfold follows. simpl.
  case_decide; intros [-> ->]; by rewrite Z.eqb_refl.
Qed.

Lemma fold_keep_linked frames kept :
  adjacent (flip follows) kept -> adjacent (flip follows) (fold_left keep_frame frames kept).
Proof.
  revert kept. induction frames as [|f l IH]; intros kept H; [done|].
  by apply IH, keep_frame_linked.
Qed.

Lemma fold_keep_sublist frames kept :
  sublist (fold_left keep_frame frames kept) (rev frames ++ kept).
Proof.
  revert kept. induction frames as [|f l IH]; intros kept; [done|]. simpl.
  etransitivity; [apply IH|]. rewrite <- app_assoc. apply sublist_app; [done|].
  apply keep_frame_sublist.
Qed.

Lemma fold_keep_fixed frames kept :
  adjacent follows frames ->
  (forall f g, head kept = Some f -> head frames = Some g -> follows f g) ->
  fold_left keep_frame frames kept = rev frames ++ kept.
Proof.
  revert kept. induction frames as [|f l IH]; intros kept Hf Hk; [done|]. simpl.
  apply adjacent_cons in Hf as [Hfl Hl].
  assert (keep_frame kept f = f :: kept) as ->.
  { destruct kept as [|c older]; [done|]. by apply (keep_frame_keeps _ _ c), Hk. }
  rewrite IH; [by rewrite <- app_assoc|done|].
  intros f' g [= ->]. apply Hfl.
Qed.

Lemma pruneFrameQueue_correct frames :
  pruneFrameQueue frames = Ok (prune_reference frames)
  /\ adjacent follows (prune_reference frames)
  /\ sublist (prune_reference frames) frames
  /\ (adjacent follows frames <-> prune_reference frames = frames).
Proof.
  assert (adjacent follows (prune_reference frames)) as Hadj.
  { apply adjacent_rev, fold_keep_linked. done. }
  split_and!; [apply pruneFrameQueue_eq|done| |split].
  - pose proof (sublist_rev _ _ (fold_keep_sublist frames [])) as H.
    by rewrite app_nil_r, rev_involutive in H.
  - intros H. unfold prune_reference. rewrite fold_keep_fixed by done.
    by rewrite app_nil_r, rev_involutive.
  - by intros <-.
Qed.

(** [pruneFrameQueue] terminates without indexing out of range and
    computes the one-pass reference; its result is a subsequence of the
    queue in which every frame is the next frame of the open channel before
    it or the first frame after a closed channel (the Holocene rules), and a
    queue that already obeys the rules is left alone. *)
Theorem pruneFrameQueue_spec frames :
  pruneFrameQueue frames = Ok (prune_reference frames)
  /\ adjacent follows (prune_reference frames)
  /\ sublist (prune_reference frames) frames
  /\ (adjacent follows frames <-> prune_reference frames = frames).
Proof. apply pruneFrameQueue_correct. Qed.

(** ** Laws of the stage *)

Section Laws.
Context {S : Type} `{!NextDataProvider S} {I : S -> Prop} `{!NextDataLaws S I}.

Implicit Types fq : FrameQueue S.

(** The queue holds parsed frames, and under Holocene only contiguous
    ones. *)
Record fq_inv fq : Prop := {
  inv_prev : I (fq_prev fq);
  inv_frames : Forall frame_ok (fq_frames fq);
  inv_holocene : IsHolocene (fq_cfg fq) (l1_Time (FrameQueue_Origin fq)) = true ->
    adjacent follows (fq_frames fq) }.

Lemma loadNextFrames_inv fq : fq_frames fq = [] -> fq_inv fq ->
  fq_inv (loadNextFrames fq).1
  /\ FrameQueue_Origin (loadNextFrames fq).1 = FrameQueue_Origin fq
  /\ (loadNextFrames fq).2 <> Panic.
Proof.
  intros Hnil [Hp Hf Hh]. unfold loadNextFrames.
  pose proof (data_inv _ Hp) as Hi. pose proof (data_origin _ Hp) as Ho.
  pose proof (data_no_panic _ Hp) as Hn. pose proof (fun d => data_bytes _ d Hp) as Hb.
  destruct (NextData (fq_prev fq)) as [prev r]; simpl in *.
  assert (fq_inv (fq_with fq (fq_frames fq) prev)) as Hsame.
  { constructor; simpl; [done|done|]. unfold FrameQueue_Origin in *. simpl. by rewrite Ho. }
  unfold FrameQueue_Origin in *. destruct r as [data| |]; simpl; [|done|done].
  destruct (ParseFrames_correct data (Hb data eq_refl)) as [Hparse Hnp].
  destruct (ParseFrames data) as [frames| |] eqn:E; simpl; [|done|done].
  destruct (proj1 (Hparse frames) eq_refl) as (_ & Hok & _).
  rewrite Hnil. simpl app.
  destruct (IsHolocene (fq_cfg fq) (l1_Time (data_Origin prev))) eqn:EH.
  - destruct (pruneFrameQueue_correct frames) as (-> & Hadj & Hsub & _). simpl.
    split_and!; [|done|done]. constructor; simpl; [done| |done].
    by apply (Forall_sublist _ _ frames).
  - simpl. split_and!; [|done|done]. constructor; simpl; [done|done|].
    unfold FrameQueue_Origin. simpl. by rewrite EH.
Qed.

Lemma follows_tail f l : adjacent follows (f :: l) -> adjacent follows l.
Proof. by intros [_ H]%adjacent_cons. Qed.

Lemma NextFrame_preserves fq : fq_inv fq ->
  fq_inv (FrameQueue_NextFrame fq).1
  /\ FrameQueue_Origin (FrameQueue_NextFrame fq).1 = FrameQueue_Origin fq
  /\ (forall f, (FrameQueue_NextFrame fq).2 = Ok f -> frame_ok f)
  /\ (FrameQueue_NextFrame fq).2 <> Panic.
Proof.
  intros Hfq. unfold FrameQueue_NextFrame.
  assert (exists fq' r, match fq_frames fq with [] => loadNextFrames fq | _ => (fq, Ok ()) end
    = (fq', r) /\ fq_inv fq' /\ FrameQueue_Origin fq' = FrameQueue_Origin fq /\ r <> Panic)
    as (fq' & r & -> & Hinv & Ho & Hr).
  { destruct (fq_frames fq) eqn:E; [|by exists fq, (Ok ())].
    destruct (loadNextFrames_inv fq) as (? & ? & ?); [done|done|].
    destruct (loadNextFrames fq) as [fq' r]. by exists fq', r. }
  destruct r as [u| |]; simpl; [|done|done].
  destruct Hinv as [Hp Hf Hh].
  destruct (fq_frames fq') as [|ret rest] eqn:E; simpl.
  { split_and!; [constructor; by rewrite ?E|done|done|done]. }
  apply Forall_cons in Hf as [Hret Hrest].
  split_and!; [|done|naive_solver|done].
  constructor; simpl; [done|done|]. intros Hhol. by apply (follows_tail ret), Hh.
Qed.

(** Taking a frame from the queue keeps its invariant (only well-formed
    frames, contiguous ones under Holocene), does not move the L1 origin,
    yields only well-formed frames and never panics, for any data provider
    that yields bytes. *)
Theorem NextFrame_inv fq : fq_inv fq ->
  fq_inv (FrameQueue_NextFrame fq).1
  /\ FrameQueue_Origin (FrameQueue_NextFrame fq).1 = FrameQueue_Origin fq
  /\ (forall f, (FrameQueue_NextFrame fq).2 = Ok f -> frame_ok f)
  /\ (FrameQueue_NextFrame fq).2 <> Panic.
Proof. apply NextFrame_preserves. Qed.

#[global] Instance FrameQueue_laws : NextFrameLaws (FrameQueue S) fq_inv.
Proof.
  constructor; simpl; intros fq; intros.
  - by apply NextFrame_preserves.
  - by apply NextFrame_preserves.
  - by eapply NextFrame_preserves.
  - by apply NextFrame_preserves.
Qed.

(** Two frames taken one after the other from the same batch of data are
    linked by [follows] under Holocene. *)
Lemma NextFrame_in_order fq f g l :
  fq_inv fq -> fq_frames fq = f :: g :: l ->
  IsHolocene (fq_cfg fq) (l1_Time (FrameQueue_Origin fq)) = true ->
  let (fq1, r1) := FrameQueue_NextFrame fq in
  let (fq2, r2) := FrameQueue_NextFrame fq1 in
  r1 = Ok f /\ r2 = Ok g /\ follows f g /\ fq_frames fq2 = l.
Proof.
  intros [_ _ Hh] E Hhol. unfold FrameQueue_NextFrame. rewrite E. simpl. rewrite E. simpl.
  specialize (Hh Hhol). rewrite E in Hh. apply adjacent_cons in Hh as [Hh _].
  split_and!; [done|done|by apply Hh|done].
Qed.

End Laws.

(** ** A concrete data provider: the remaining transactions of one block *)

Definition ListData : Type := L1BlockRef * list bytes.

#[global] Instance ListData_provider : NextDataProvider ListData := {
  NextData s := match s.2 with
                | [] => (s, Err EOF)
                | d :: t => ((s.1, t), Ok d)
                end;
  data_Origin s := s.1 }.

Definition ListData_ok (s : ListData) : Prop := Forall is_bytes s.2.

#[global] Instance ListData_laws : NextDataLaws ListData ListData_ok.
Proof.
  constructor.
  - intros [o [|d t]] H; [done|]. by apply Forall_cons in H as [_ H].
  - by intros [o [|d t]].
  - intros [o [|d t]] d' H; [done|]. intros [= <-]. by apply Forall_cons in H as [H _].
  - by intros [o [|d t]].
Qed.

Definition example_origin (t : Z) : L1BlockRef :=
  {| l1_Hash := 1; l1_Number := 10; l1_ParentHash := 0; l1_Time := t |}.

Definition example_queue : FrameQueue ListData :=
  NewFrameQueue example_config (example_origin 200, [0 :: MarshalBinary example_frame]).

Lemma NextFrame_inv_witness :
  (FrameQueue_NextFrame example_queue).2 = Ok example_frame
  /\ fq_inv (I := ListData_ok) (FrameQueue_NextFrame example_queue).1.
Proof.
  split; [reflexivity|].
  apply (NextFrame_inv (I := ListData_ok) example_queue).
  constructor; [|constructor|done].
  constructor; [by apply is_bytes_check|constructor].
Defined.
