(* ===== verification/Channel.v ===== *)
(** * Channels

    Models [rhs-node/rollup/derive/channel.go]: a channel collects frames,
    possibly out of order, until its closing frame and all frames before it
    have arrived.  [inputs] is the Go map from frame number to frame. *)

From S2P Require Import Prelude EthTypes RollupConfig Frames.

Record Channel : Type := {
  ch_id : ChannelID;
  openBlock : L1BlockRef;
  requireInOrder : bool;
  ch_size : Z;
  closed : bool;
  highestFrameNumber : Z;
  endFrameNumber : Z;
  inputs : gmap Z Frame;
  highestL1InclusionBlock : L1BlockRef }.

Definition NewChannel (id : ChannelID) (open : L1BlockRef) (inOrder : bool) : Channel :=
  {| ch_id := id; openBlock := open; requireInOrder := inOrder; ch_size := 0;
     closed := false; highestFrameNumber := 0; endFrameNumber := 0; inputs := ∅;
     highestL1InclusionBlock := zeroL1BlockRef |}.

(** The pruning loop over the map: every frame is subtracted from the size,
    the frames from the closing number on are deleted. *)
Definition prune_size (inputs : gmap Z Frame) (size : Z) : Z :=
  map_fold (fun _ prunedFrame s => s -u frameSize prunedFrame) size inputs.

Definition prune_inputs (endNumber : Z) (inputs : gmap Z Frame) : gmap Z Frame :=
  filter (fun kv => kv.1 < endNumber) inputs.

Definition AddFrame (ch : Channel) (frame : Frame) (l1InclusionBlock : L1BlockRef)
    : result Channel :=
  let num := FrameNumber frame in
  if decide (ID frame <> ch_id ch) then Err (Msg "frame id does not match channel id")
  else if IsLast frame && closed ch then
    Err (Msg "cannot add ending frame to a closed channel")
  else if decide (is_Some (inputs ch !! num)) then Err DuplicateErr
  else if closed ch && (endFrameNumber ch <=? num) then
    Err (Msg "frame number is greater than or equal to end frame number of a closed channel")
  else if requireInOrder ch && negb (num =? Z.of_nat (size (inputs ch))) then
    Err (Msg "frame out of order")
  else
    let endNum := if IsLast frame then num else endFrameNumber ch in
    let isClosed := if IsLast frame then true else closed ch in
    let prune := IsLast frame && (endNum <? highestFrameNumber ch) in
    let ins := if prune then prune_inputs endNum (inputs ch) else inputs ch in
    let sz := if prune then prune_size (inputs ch) (ch_size ch) else ch_size ch in
    let high := if prune then endNum else highestFrameNumber ch in
    let high := if high <? num then num else high in
    let highL1 := if l1_Number (highestL1InclusionBlock ch) <? l1_Number l1InclusionBlock
                  then l1InclusionBlock else highestL1InclusionBlock ch in
    Ok {| ch_id := ch_id ch; openBlock := openBlock ch;
          requireInOrder := requireInOrder ch;
          ch_size := sz +u frameSize frame;
          closed := isClosed; highestFrameNumber := high; endFrameNumber := endNum;
          inputs := <[num := frame]> ins;
          highestL1InclusionBlock := highL1 |}.

Definition OpenBlockNumber (ch : Channel) : Z := l1_Number (openBlock ch).

(** [for i := uint64(0); i <= uint64(ch.endFrameNumber); i++] *)
Definition frame_indices (endNumber : Z) : list Z := seqZ 0 (endNumber + 1).

Definition IsReady (ch : Channel) : bool :=
  closed ch
  && (Z.of_nat (size (inputs ch)) =? endFrameNumber ch + 1)
  && forallb (fun i => bool_decide (is_Some (inputs ch !! i)))
       (frame_indices (endFrameNumber ch)).

(** The concatenated data of the frames; a missing frame panics. *)
Fixpoint read_frames (ins : gmap Z Frame) (indices : list Z) : result bytes :=
  match indices with
  | [] => Ok []
  | i :: t =>
      match ins !! i with
      | None => Panic
      | Some frame => let* rest := read_frames ins t in Ok (Data frame ++ rest)
      end
  end.

Definition Reader (ch : Channel) : result bytes :=
  read_frames (inputs ch) (frame_indices (endFrameNumber ch)).

(** ** The size of a set of frames *)

Definition total_size (m : gmap Z Frame) : Z := map_sum frameSize m.

Lemma frameSize_nonneg f : 0 <= frameSize f.
Proof.
  pose proof (u64_range (u64 (lenZ (Data f)) + frameOverhead)).
  unfold frameSize, is_u64 in *. lia.
Qed.

Lemma total_size_insert m k f : m !! k = None ->
  total_size (<[k := f]> m) = total_size m + frameSize f.
Proof. apply map_sum_insert. Qed.

Lemma total_size_nonneg m : 0 <= total_size m.
Proof. apply map_sum_nonneg. intros. apply frameSize_nonneg. Qed.

Lemma frameSize_exact f : frame_ok f -> frameSize f = lenZ (Data f) + frameOverhead.
Proof.
  intros [_ _ _ _ H]. unfold frameSize, lenZ, MaxFrameLen, frameOverhead in *.
  rewrite !u64_small; unfold is_u64, two64; rewrite ?u64_small; unfold is_u64, two64; lia.
Qed.

Lemma frameSize_bounds f : frame_ok f -> 200 <= frameSize f <= 1000200.
Proof.
  intros Hf. rewrite frameSize_exact by done. destruct Hf as [_ _ _ _ H].
  unfold lenZ, MaxFrameLen, frameOverhead in *. lia.
Qed.

Lemma prune_size_exact m s : total_size m <= s -> is_u64 s ->
  prune_size m s = s - total_size m.
Proof.
  intros Ht Hs. pose proof (total_size_nonneg m). unfold prune_size.
  rewrite <- (u64_small s) at 1 by done. rewrite map_fold_sub_u64.
  apply u64_small. unfold total_size, is_u64 in *. lia.
Qed.

(** ** The channel invariant *)

(** Every stored frame is well-formed, belongs to the channel and sits at its
    number; exactly the frame at [endFrameNumber] of a closed channel is
    marked last, and it is the highest; [highestFrameNumber] is the highest
    number stored; the size is the sum of the stored frames' sizes until a
    closing frame prunes, and never more than it afterwards; a channel that
    requires order holds the numbers from 0 on without a gap. *)
Record channel_wf (ch : Channel) : Prop := {
  wf_frames : forall k f, inputs ch !! k = Some f ->
    FrameNumber f = k /\ frame_ok f /\ ID f = ch_id ch
    /\ k <= highestFrameNumber ch
    /\ (IsLast f = true <-> closed ch = true /\ k = endFrameNumber ch);
  wf_end : closed ch = true ->
    is_Some (inputs ch !! endFrameNumber ch)
    /\ highestFrameNumber ch = endFrameNumber ch;
  wf_highest : inputs ch = ∅ /\ highestFrameNumber ch = 0 /\ closed ch = false
    \/ is_Some (inputs ch !! highestFrameNumber ch);
  wf_size : 0 <= ch_size ch <= total_size (inputs ch);
  wf_size_open : closed ch = false \/ requireInOrder ch = true ->
    ch_size ch = total_size (inputs ch);
  wf_order : requireInOrder ch = true -> forall k,
    is_Some (inputs ch !! k) <-> 0 <= k < Z.of_nat (size (inputs ch)) }.

Lemma u16_keys_size (m : gmap Z Frame) :
  (forall k f, m !! k = Some f -> is_u16 k) -> Z.of_nat (size m) <= two16.
Proof.
  intros H. rewrite <- size_dom.
  assert (dom m ⊆ (list_to_set (seqZ 0 two16) : gset Z)) as Hs.
  { intros k [f Hf]%elem_of_dom. apply elem_of_list_to_set, elem_of_seqZ.
    specialize (H k f Hf). unfold is_u16 in H. lia. }
  apply subseteq_size in Hs. rewrite size_list_to_set in Hs by apply NoDup_seqZ.
  rewrite length_seqZ in Hs. unfold two16 in *. lia.
Qed.

Lemma total_size_le (m : gmap Z Frame) :
  (forall k f, m !! k = Some f -> frame_ok f) ->
  total_size m <= Z.of_nat (size m) * 1000200.
Proof.
  induction m as [|k f m Hk IH] using map_ind; intros H; [done|].
  rewrite total_size_insert, map_size_insert_None by done.
  assert (frame_ok f) as Hf by (apply (H k); by rewrite lookup_insert_eq).
  apply frameSize_bounds in Hf.
  assert (total_size m <= Z.of_nat (size m) * 1000200); [|lia].
  apply IH. intros k' f' Hk'. apply (H k'). rewrite lookup_insert_ne; [done|congruence].
Qed.

Lemma frame_ok_number f : frame_ok f -> is_u16 (FrameNumber f).
Proof. by intros []. Qed.

(** A channel never holds more than [65536] frames, so its size is far from
    the range of [uint64]. *)
Lemma channel_total_bound ch : channel_wf ch ->
  0 <= total_size (inputs ch) <= 65549107200.
Proof.
  intros H. pose proof (total_size_nonneg (inputs ch)).
  assert (Z.of_nat (size (inputs ch)) <= two16).
  { apply u16_keys_size. intros k f Hk.
    destruct (wf_frames _ H _ _ Hk) as (<- & Hf & _). by apply frame_ok_number. }
  assert (total_size (inputs ch) <= Z.of_nat (size (inputs ch)) * 1000200).
  { apply total_size_le. intros k f Hk. by destruct (wf_frames _ H _ _ Hk) as (_ & ? & _). }
  unfold two16 in *. lia.
Qed.

Lemma NewChannel_wf id b o : channel_wf (NewChannel id b o).
Proof.
  constructor; simpl; try done; try by left.
  intros _ k. rewrite lookup_empty. split; [by intros []|]. intros. change (size ∅) with 0%nat in *. lia.
Qed.

(** The guards of [AddFrame] as propositions. *)
Record accepts (ch : Channel) (f : Frame) : Prop := {
  acc_id : ID f = ch_id ch;
  acc_last : IsLast f = true -> closed ch = false;
  acc_new : inputs ch !! FrameNumber f = None;
  acc_before_end : closed ch = true -> FrameNumber f < endFrameNumber ch;
  acc_order : requireInOrder ch = true -> FrameNumber f = Z.of_nat (size (inputs ch)) }.

Definition prunes (ch : Channel) (f : Frame) : bool :=
  IsLast f && (FrameNumber f <? highestFrameNumber ch).

(** The channel [AddFrame] returns when the guards pass. *)
Definition added (ch : Channel) (f : Frame) (b : L1BlockRef) : Channel :=
  {| ch_id := ch_id ch; openBlock := openBlock ch; requireInOrder := requireInOrder ch;
     ch_size := (if prunes ch f then prune_size (inputs ch) (ch_size ch) else ch_size ch)
                +u frameSize f;
     closed := IsLast f || closed ch;
     highestFrameNumber :=
       if prunes ch f then FrameNumber f else Z.max (highestFrameNumber ch) (FrameNumber f);
     endFrameNumber := if IsLast f then FrameNumber f else endFrameNumber ch;
     inputs := <[FrameNumber f := f]>
       (if prunes ch f then prune_inputs (FrameNumber f) (inputs ch) else inputs ch);
     highestL1InclusionBlock :=
       if l1_Number (highestL1InclusionBlock ch) <? l1_Number b then b
       else highestL1InclusionBlock ch |}.

Lemma AddFrame_Ok ch f b ch' :
  AddFrame ch f b = Ok ch' <-> accepts ch f /\ ch' = added ch f b.
Proof.
  unfold AddFrame.
  case_decide as Hid; [split; [done|]; intros [[] _]; congruence|].
  destruct (IsLast f && closed ch) eqn:El.
  { apply andb_true_iff in El as [E1 E2]. split; [done|]. intros [[_ H _ _ _] _].
    specialize (H E1). congruence. }
  case_decide as Hn; [split; [done|]; intros [[_ _ H _ _] _]; rewrite H in Hn; by destruct Hn|].
  apply eq_None_not_Some in Hn.
  destruct (closed ch && _) eqn:Ee.
  { apply andb_true_iff in Ee as [E1 E2%Z.leb_le]. split; [done|]. intros [[_ _ _ H _] _].
    specialize (H E1). lia. }
  destruct (requireInOrder ch && _) eqn:Eo.
  { apply andb_true_iff in Eo as [E1 E2%negb_true_iff%Z.eqb_neq]. split; [done|].
    intros [[_ _ _ _ H] _]. by specialize (H E1). }
  assert (accepts ch f) as Ha.
  { constructor; try done.
    - intros E. rewrite E in El. done.
    - intros E. rewrite E in Ee. simpl in Ee. lia.
    - intros E. rewrite E in Eo. simpl in Eo. by apply negb_false_iff, Z.eqb_eq in Eo. }
  match goal with |- Ok ?x = _ <-> _ => assert (x = added ch f b) as -> end; [|naive_solver].
  unfold added, prunes. destruct (IsLast f); simpl; f_equal.
  all: repeat match goal with |- context [?a <? ?b] => destruct (Z.ltb_spec a b) end; lia || done.
Qed.

Lemma lookup_prune_inputs e m k (f : Frame) :
  prune_inputs e m !! k = Some f <-> m !! k = Some f /\ k < e.
Proof. unfold prune_inputs. by rewrite map_lookup_filter_Some. Qed.

Lemma prune_inputs_total e m : total_size (prune_inputs e m) <= total_size m.
Proof.
  induction m as [|k f m Hk IH] using map_ind; [done|].
  rewrite total_size_insert by done. unfold prune_inputs in *.
  pose proof (frameSize_nonneg f).
  destruct (Z.lt_decidable k e).
  - rewrite map_filter_insert_True by done.
    rewrite total_size_insert; [lia|]. apply map_lookup_filter_None. by left.
  - rewrite map_filter_insert_False, delete_id by done. lia.
Qed.

Section AddFrameWf.
Context (ch : Channel) (f : Frame) (b : L1BlockRef).
Hypotheses (Hwf : channel_wf ch) (Hf : frame_ok f) (Ha : accepts ch f).

(** The frames kept before the new one is inserted. *)
Let kept := if prunes ch f then prune_inputs (FrameNumber f) (inputs ch) else inputs ch.

Lemma prunes_closes : prunes ch f = true ->
  IsLast f = true /\ closed ch = false /\ FrameNumber f < highestFrameNumber ch.
Proof.
  unfold prunes. intros [E1 E2%Z.ltb_lt]%andb_true_iff. by pose proof (acc_last _ _ Ha E1).
Qed.

Lemma kept_lookup k g : kept !! k = Some g ->
  inputs ch !! k = Some g /\ (IsLast f = true -> k < FrameNumber f).
Proof.
  unfold kept. destruct (prunes ch f) eqn:E.
  - by intros [H1 H2]%lookup_prune_inputs.
  - intros H. split; [done|]. intros El. unfold prunes in E. rewrite El in E. simpl in E.
    apply Z.ltb_ge in E. destruct (wf_frames _ Hwf _ _ H) as (_ & _ & _ & ? & _).
    assert (k <> FrameNumber f); [|lia].
    intros ->. by rewrite (acc_new _ _ Ha) in H.
Qed.

Lemma kept_new : kept !! FrameNumber f = None.
Proof.
  apply eq_None_not_Some. intros [g [H _]%kept_lookup]. by rewrite (acc_new _ _ Ha) in H.
Qed.

Lemma added_size :
  ch_size (added ch f b) = (if prunes ch f then 0 else ch_size ch) + frameSize f.
Proof.
  simpl. pose proof (channel_total_bound _ Hwf). pose proof (wf_size _ Hwf).
  pose proof (frameSize_bounds _ Hf).
  destruct (prunes ch f) eqn:E.
  - destruct (prunes_closes E) as (_ & Ec & _).
    pose proof (wf_size_open _ Hwf (or_introl Ec)) as Hs.
    rewrite prune_size_exact; [|lia|unfold is_u64, two64; lia].
    rewrite u64_small; [lia|]. unfold is_u64, two64. lia.
  - apply u64_small. unfold is_u64, two64. lia.
Qed.

(** A channel in order never prunes, and does not grow once closed. *)
Lemma in_order_open : requireInOrder ch = true -> prunes ch f = false /\ closed ch = false.
Proof.
  intros Ho. pose proof (wf_order _ Hwf Ho) as Hk. pose proof (acc_order _ _ Ha Ho) as Hn.
  assert (highestFrameNumber ch <= FrameNumber f) as Hh.
  { destruct (wf_highest _ Hwf) as [(_ & -> & _)|Hh].
    - apply frame_ok_number in Hf. unfold is_u16 in Hf. lia.
    - apply Hk in Hh. lia. }
  split.
  - unfold prunes. rewrite (proj2 (Z.ltb_ge _ _)) by done. apply andb_false_r.
  - destruct (closed ch) eqn:Ec; [|done].
    destruct (wf_end _ Hwf Ec) as [_ He]. pose proof (acc_before_end _ _ Ha Ec). lia.
Qed.

Lemma added_wf : channel_wf (added ch f b).
Proof.
  pose proof added_size as Hsize. pose proof (frameSize_bounds _ Hf) as Hfs.
  pose proof (wf_size _ Hwf) as Hs. pose proof (total_size_nonneg kept) as Hk0.
  assert (inputs (added ch f b) = <[FrameNumber f := f]> kept) as Hi by done.
  assert (total_size (inputs (added ch f b)) = total_size kept + frameSize f) as Ht.
  { rewrite Hi. by rewrite total_size_insert by apply kept_new. }
  constructor.
  - intros k g. rewrite Hi, lookup_insert_Some. intros [[<- <-]|[Hne Hg]].
    + split_and!; [done|done|by apply Ha| |].
      * simpl. destruct (prunes ch f); lia.
      * simpl. destruct (IsLast f) eqn:El; [done|]. split; [done|].
        intros [Hc He]. pose proof (acc_before_end _ _ Ha Hc). lia.
    + apply kept_lookup in Hg as [Hg Hlt].
      destruct (wf_frames _ Hwf _ _ Hg) as (H1 & H2 & H3 & H4 & H5). simpl.
      split_and!; [done|done|done| |].
      * destruct (prunes ch f) eqn:E; [|lia].
        apply prunes_closes in E as (E & _). specialize (Hlt E). lia.
      * destruct (IsLast f) eqn:El; simpl; [|done].
        rewrite H5, (acc_last _ _ Ha El). specialize (Hlt eq_refl). naive_solver lia.
  - simpl. destruct (IsLast f) eqn:El; simpl; intros Hc.
    + rewrite lookup_insert_eq. split; [done|].
      destruct (prunes ch f) eqn:E; [done|]. unfold prunes in E. rewrite El in E. simpl in E. lia.
    + destruct (wf_end _ Hwf Hc) as [He Hh]. pose proof (acc_before_end _ _ Ha Hc).
      unfold prunes. rewrite El. simpl. rewrite lookup_insert_ne by lia.
      split; [done|lia].
  - right. rewrite Hi. simpl. destruct (prunes ch f) eqn:E; [by rewrite lookup_insert_eq|].
    destruct (Z.max_spec (highestFrameNumber ch) (FrameNumber f)) as [[_ ->]|[? ->]];
      [by rewrite lookup_insert_eq|].
    destruct (decide (highestFrameNumber ch = FrameNumber f)) as [->|];
      [by rewrite lookup_insert_eq|].
    rewrite lookup_insert_ne by congruence. unfold kept. rewrite ?E.
    destruct (wf_highest _ Hwf) as [(_ & ? & _)|]; [|done].
    apply frame_ok_number in Hf. unfold is_u16 in Hf. lia.
  - rewrite Hsize, Ht. destruct (prunes ch f) eqn:E; [lia|].
    assert (kept = inputs ch) as -> by (unfold kept; by rewrite ?E). lia.
  - simpl requireInOrder. intros Hc. rewrite Hsize, Ht.
    assert (prunes ch f = false /\ (closed ch = false \/ requireInOrder ch = true)) as [E Hc'].
    { destruct Hc as [Hc|Ho]; [|by destruct (in_order_open Ho); auto].
      simpl in Hc. apply orb_false_iff in Hc as [El Hc].
      unfold prunes. rewrite El. by auto. }
    rewrite E. assert (kept = inputs ch) as -> by (unfold kept; by rewrite ?E).
    by rewrite (wf_size_open _ Hwf Hc').
  - simpl requireInOrder. intros Ho k. destruct (in_order_open Ho) as [E Ec].
    rewrite Hi, map_size_insert_None by apply kept_new.
    assert (kept = inputs ch) as -> by (unfold kept; by rewrite ?E).
    rewrite lookup_insert_is_Some, (wf_order _ Hwf Ho), (acc_order _ _ Ha Ho). lia.
Qed.

End AddFrameWf.

Lemma AddFrame_no_panic ch f b : AddFrame ch f b <> Panic.
Proof. unfold AddFrame. by repeat case_match. Qed.

Lemma AddFrame_wf_lemma ch f b ch' : channel_wf ch -> frame_ok f ->
  AddFrame ch f b = Ok ch' -> channel_wf ch'.
Proof. intros Hw Hf [Ha ->]%AddFrame_Ok. by apply added_wf. Qed.

(** [AddFrame] accepts a frame exactly when its guards pass (right id,
    not a second closing frame, not a duplicate, before the end of a closed
    channel, next in line when order is required), never panics, and keeps
    the channel invariant. *)
Theorem AddFrame_invariant ch f b :
  channel_wf ch -> frame_ok f ->
  AddFrame ch f b <> Panic
  /\ ((exists ch', AddFrame ch f b = Ok ch') <-> accepts ch f)
  /\ forall ch', AddFrame ch f b = Ok ch' -> channel_wf ch'.
Proof.
  intros Hw Hf. split_and!; [apply AddFrame_no_panic| |].
  - split; [by intros [ch' [Ha _]%AddFrame_Ok]|].
    intros Ha. exists (added ch f b). by apply AddFrame_Ok.
  - intros ch'. by apply AddFrame_wf_lemma.
Qed.

(** ** Reading a channel *)

Lemma read_frames_spec m idx fs :
  Forall2 (fun i f => m !! i = Some f) idx fs ->
  read_frames m idx = Ok (concat (Data <$> fs)).
Proof. induction 1 as [|i f idx fs Hi _ IH]; [done|]. simpl. by rewrite Hi, IH. Qed.

Lemma indices_present (m : gmap Z Frame) e :
  (forall i, 0 <= i <= e -> is_Some (m !! i)) ->
  exists fs, Forall2 (fun i f => m !! i = Some f) (frame_indices e) fs.
Proof.
  intros H. assert (Forall (fun i => exists f, m !! i = Some f) (frame_indices e)) as Hall.
  { apply Forall_forall. intros i [? ?]%elem_of_seqZ. apply H. lia. }
  revert Hall. generalize (frame_indices e) as l. induction l as [|i l IH].
  { exists []. constructor. }
  intros [[f Hi] Hl]%Forall_cons. destruct (IH Hl) as [fs Hfs].
  exists (f :: fs). by constructor.
Qed.

Lemma frame_indices_forall (P : Z -> bool) e :
  forallb P (frame_indices e) = true <-> forall i, 0 <= i <= e -> P i = true.
Proof.
  rewrite forallb_forall. unfold frame_indices.
  split; intros H i Hi; apply H; [apply list_elem_of_In, elem_of_seqZ; lia|].
  apply list_elem_of_In, elem_of_seqZ in Hi. lia.
Qed.

Lemma channel_keys_range ch k : channel_wf ch -> closed ch = true ->
  is_Some (inputs ch !! k) -> 0 <= k <= endFrameNumber ch.
Proof.
  intros Hw Hc [f Hk]. destruct (wf_frames _ Hw _ _ Hk) as (<- & Hf & _ & Hle & _).
  destruct (wf_end _ Hw Hc) as [_ He]. apply frame_ok_number in Hf. unfold is_u16 in Hf. lia.
Qed.

(** The frame count test of [IsReady] is implied by the presence of every
    frame up to the end. *)
Lemma full_size ch : channel_wf ch -> closed ch = true ->
  (forall i, 0 <= i <= endFrameNumber ch -> is_Some (inputs ch !! i)) ->
  Z.of_nat (size (inputs ch)) = endFrameNumber ch + 1.
Proof.
  intros Hw Hc Hall. rewrite <- size_dom.
  assert (dom (inputs ch) ≡ (list_to_set (frame_indices (endFrameNumber ch)) : gset Z)) as ->.
  { intros k. rewrite elem_of_dom, elem_of_list_to_set. unfold frame_indices.
    rewrite elem_of_seqZ. split; [intros H; apply channel_keys_range in H; [lia|done|done]|].
    intros. apply Hall. lia. }
  unfold frame_indices. rewrite size_list_to_set by apply NoDup_seqZ.
  rewrite length_seqZ. destruct (wf_end _ Hw Hc) as [He _].
  apply channel_keys_range in He; [|done|done]. lia.
Qed.

Lemma IsReady_correct ch : channel_wf ch ->
  IsReady ch = true
  <-> closed ch = true
      /\ forall i, 0 <= i <= endFrameNumber ch -> is_Some (inputs ch !! i).
Proof.
  intros Hw. unfold IsReady. rewrite !andb_true_iff, frame_indices_forall, Z.eqb_eq.
  setoid_rewrite bool_decide_eq_true. split; [tauto|]. intros [Hc Hall].
  split_and!; [done|by apply full_size|done].
Qed.

(** A channel is ready exactly when its closing frame and every frame
    before it have arrived; reading a ready channel does not panic and
    returns the data of the frames [0 .. endFrameNumber] in order. *)
Theorem IsReady_Reader ch :
  channel_wf ch ->
  (IsReady ch = true
   <-> closed ch = true
       /\ forall i, 0 <= i <= endFrameNumber ch -> is_Some (inputs ch !! i))
  /\ (IsReady ch = true -> exists fs,
        Forall2 (fun i f => inputs ch !! i = Some f) (frame_indices (endFrameNumber ch)) fs
        /\ Reader ch = Ok (concat (Data <$> fs))).
Proof.
  intros Hw. split; [by apply IsReady_correct|].
  intros [_ Hall]%IsReady_correct; [|done].
  destruct (indices_present _ _ Hall) as [fs Hfs]. exists fs.
  split; [done|]. by apply read_frames_spec.
Qed.

(** ** Reassembly in any order *)

(** The frames of a whole channel, in order: numbered from 0, only the final
    one marked last. *)
Record complete_frames (id : ChannelID) (fs : list Frame) : Prop := {
  cf_nonempty : fs <> [];
  cf_frame : forall i f, fs !! i = Some f ->
    ID f = id /\ FrameNumber f = Z.of_nat i
    /\ IsLast f = bool_decide (S i = length fs) }.

Fixpoint AddFrames (ch : Channel) (fs : list (Frame * L1BlockRef)) : result Channel :=
  match fs with
  | [] => Ok ch
  | (f, b) :: t => let* ch' := AddFrame ch f b in AddFrames ch' t
  end.

(** After a part [got] of the frames, arrived in some order; [o] is whether the
    channel requires them in order. *)
Record partial (o : bool) (id : ChannelID) (fs got : list Frame) (ch : Channel) : Prop := {
  pa_id : ch_id ch = id;
  pa_order : requireInOrder ch = o;
  pa_size : size (inputs ch) = length got;
  pa_inputs : forall k f, inputs ch !! k = Some f <-> f ∈ got /\ FrameNumber f = k;
  pa_high : highestFrameNumber ch <= Z.of_nat (length fs) - 1;
  pa_closed : closed ch = true <-> exists f, f ∈ got /\ IsLast f = true;
  pa_end : closed ch = true -> endFrameNumber ch = Z.of_nat (length fs) - 1 }.

Section Reassembly.
Context (o : bool) (id : ChannelID) (fs : list Frame).
Hypothesis Hfs : complete_frames id fs.

Lemma complete_elem f : f ∈ fs ->
  ID f = id /\ 0 <= FrameNumber f <= Z.of_nat (length fs) - 1
  /\ (IsLast f = true <-> FrameNumber f = Z.of_nat (length fs) - 1).
Proof.
  intros [i Hi]%list_elem_of_lookup. apply lookup_lt_Some in Hi as Hlt.
  destruct (cf_frame _ _ Hfs _ _ Hi) as (? & -> & ->). rewrite bool_decide_eq_true.
  split_and!; [done|lia|lia|lia].
Qed.

Lemma complete_number_inj f g : f ∈ fs -> g ∈ fs -> FrameNumber f = FrameNumber g -> f = g.
Proof.
  intros [i Hi]%list_elem_of_lookup [j Hj]%list_elem_of_lookup E.
  destruct (cf_frame _ _ Hfs _ _ Hi) as (_ & E1 & _).
  destruct (cf_frame _ _ Hfs _ _ Hj) as (_ & E2 & _).
  assert (i = j) by lia. subst j. congruence.
Qed.

Lemma partial_step got ch f b :
  partial o id fs got ch -> (forall g, g ∈ got -> g ∈ fs) -> f ∈ fs -> f ∉ got ->
  (o = true -> FrameNumber f = Z.of_nat (length got)) ->
  exists ch', AddFrame ch f b = Ok ch' /\ partial o id fs (f :: got) ch'.
Proof.
  intros [Hid Ho Hsz Hin Hh Hc He] Hgot Hf Hnew Hord.
  destruct (complete_elem f Hf) as (Hfid & Hfn & Hfl).
  assert (closed ch = true -> IsLast f = false) as Hnolast.
  { intros (g & Hg & Hgl)%Hc. destruct (IsLast f) eqn:El; [|done].
    destruct (complete_elem g (Hgot g Hg)) as (_ & _ & Hgl').
    rewrite (complete_number_inj f g) in Hnew; [done|done|by apply Hgot|].
    rewrite (proj1 Hgl' Hgl). by apply Hfl. }
  assert (prunes ch f = false) as Hp.
  { unfold prunes. destruct (IsLast f) eqn:El; [|done]. simpl. apply Z.ltb_ge.
    rewrite (proj1 Hfl eq_refl). done. }
  assert (inputs ch !! FrameNumber f = None) as Hfresh.
  { apply eq_None_not_Some. intros [g [Hg Hgn]%Hin].
    rewrite (complete_number_inj f g) in Hnew; [done|done|by apply Hgot|done]. }
  exists (added ch f b). split.
  - apply AddFrame_Ok. split; [|done]. constructor.
    + congruence.
    + intros El. destruct (closed ch); [|done]. rewrite Hnolast in El; done.
    + done.
    + intros Ec. rewrite (He Ec). specialize (Hnolast Ec).
      assert (FrameNumber f <> Z.of_nat (length fs) - 1); [|lia].
      intros E%Hfl. congruence.
    + rewrite Hsz, Ho. done.
  - constructor; simpl; rewrite ?Hp; try done.
    + by rewrite map_size_insert_None, Hsz.
    + intros k g. rewrite lookup_insert_Some, Hin, elem_of_cons. split.
      * intros [[<- <-]|[Hne [Hg <-]]]; tauto.
      * intros [[->|Hg] <-]; [by left|]. right. split; [|done].
        intros E. apply Hnew. rewrite (complete_number_inj f g); [done|done|by apply Hgot|done].
    + lia.
    + rewrite orb_true_iff, Hc. setoid_rewrite elem_of_cons. naive_solver.
    + intros Hcl. destruct (IsLast f) eqn:El; [by apply Hfl|]. by apply He.
Qed.

Lemma partial_steps todo got ch :
  partial o id fs got ch -> (forall g, g ∈ got -> g ∈ fs) ->
  NoDup todo.*1 -> (forall g, g ∈ todo.*1 -> g ∈ fs /\ g ∉ got) ->
  (o = true -> forall i f, todo.*1 !! i = Some f -> FrameNumber f = Z.of_nat (length got + i)) ->
  exists ch', AddFrames ch todo = Ok ch' /\ partial o id fs (rev todo.*1 ++ got) ch'.
Proof.
  revert got ch. induction todo as [|[f b] todo IH]; intros got ch Hp Hgot Hnd Htodo Hord.
  { by exists ch. }
  simpl in *. apply NoDup_cons in Hnd as [Hf Hnd].
  destruct (Htodo f (list_elem_of_here _ _)) as [Hffs Hfnew].
  destruct (partial_step got ch f b Hp Hgot Hffs Hfnew) as (ch1 & -> & Hp1).
  { intros Ho. rewrite (Hord Ho 0%nat f eq_refl). lia. }
  simpl.
  destruct (IH (f :: got) ch1 Hp1) as (ch2 & Hrun & Hp2).
  - set_solver.
  - done.
  - intros g Hg. destruct (Htodo g) as [? ?]; [set_solver|]. split; [done|].
    intros [->|]%elem_of_cons; done.
  - intros Ho i g Hg. rewrite (Hord Ho (S i) g Hg). simpl. lia.
  - exists ch2. split; [done|]. by rewrite <- app_assoc.
Qed.

(** A channel that requires order refuses the first frame out of it. *)
Lemma strict_refuses todo got ch :
  partial o id fs got ch -> (forall g, g ∈ got -> g ∈ fs) ->
  NoDup todo.*1 -> (forall g, g ∈ todo.*1 -> g ∈ fs /\ g ∉ got) -> o = true ->
  (exists i f, todo.*1 !! i = Some f /\ FrameNumber f <> Z.of_nat (length got + i)) ->
  exists e, AddFrames ch todo = Err e.
Proof.
  revert got ch. induction todo as [|[f b] todo IH]; intros got ch Hp Hgot Hnd Htodo Ho (i & g & Hg & Hne); [done|].
  simpl in *. apply NoDup_cons in Hnd as [Hf Hnd]. destruct (Htodo f (list_elem_of_here _ _)) as [Hffs Hfnew].
  destruct (decide (FrameNumber f = Z.of_nat (length got))) as [Hn|Hn].
  - destruct (partial_step got ch f b Hp Hgot Hffs Hfnew (fun _ => Hn)) as (ch1 & -> & Hp1). simpl.
    apply (IH (f :: got) ch1 Hp1); [set_solver|done| |done|].
    + intros g' Hg'. destruct (Htodo g') as [? ?]; [set_solver|]. split; [done|]. intros [->|]%elem_of_cons; done.
    + destruct i as [|i]; [injection Hg as <-; lia|]. exists i, g. split; [done|]. simpl. lia.
  - destruct (AddFrame ch f b) as [ch1|e|] eqn:Ha; [|by exists e|by apply AddFrame_no_panic in Ha].
    apply AddFrame_Ok in Ha as [[_ _ _ _ Hord] _]. exfalso. apply Hn. destruct Hp as [_ Ho' Hsz _ _ _ _].
    rewrite Hord by congruence. by rewrite Hsz.
Qed.

Lemma complete_indices : Forall2 (fun i f => f ∈ fs /\ FrameNumber f = i)
    (frame_indices (Z.of_nat (length fs) - 1)) fs.
Proof.
  unfold frame_indices. apply Forall2_same_length_lookup_2.
  { rewrite length_seqZ. lia. }
  intros i z f Hz Hf. apply lookup_seqZ in Hz as [-> _].
  destruct (cf_frame _ _ Hfs _ _ Hf) as (_ & -> & _). split; [|lia].
  by apply list_elem_of_lookup_2 in Hf.
Qed.

Lemma complete_NoDup : NoDup fs.
Proof.
  apply NoDup_alt. intros i j f Hi Hj.
  destruct (cf_frame _ _ Hfs _ _ Hi) as (_ & E1 & _).
  destruct (cf_frame _ _ Hfs _ _ Hj) as (_ & E2 & _). lia.
Qed.

Lemma complete_last : exists f, f ∈ fs /\ IsLast f = true.
Proof.
  destruct (last fs) as [f|] eqn:El; [|by apply last_None, (cf_nonempty _ _ Hfs) in El].
  rewrite last_lookup in El. exists f. split; [by apply list_elem_of_lookup_2 in El|].
  apply lookup_lt_Some in El as Hlt.
  destruct (cf_frame _ _ Hfs _ _ El) as (_ & _ & ->). apply bool_decide_eq_true. lia.
Qed.

(** With every frame in, the channel is ready and reads as the data. *)
Lemma partial_complete got ch : partial o id fs got ch -> (forall f, f ∈ got <-> f ∈ fs) ->
  IsReady ch = true /\ Reader ch = Ok (concat (Data <$> fs)).
Proof.
  intros [_ _ _ Hin _ Hc He] Hel.
  assert (closed ch = true) as Hcl.
  { apply Hc. setoid_rewrite Hel. apply complete_last. }
  specialize (He Hcl).
  assert (Forall2 (fun i f => inputs ch !! i = Some f)
            (frame_indices (endFrameNumber ch)) fs) as H2.
  { rewrite He. eapply Forall2_impl; [by apply complete_indices|].
    simpl. intros i f [Hf Hn]. apply Hin. by rewrite Hel. }
  split; [|by apply read_frames_spec].
  unfold IsReady. rewrite Hcl. simpl. apply andb_true_iff. split.
  - apply Z.eqb_eq. rewrite <- size_dom.
    assert (dom (inputs ch) ≡ (list_to_set (FrameNumber <$> fs) : gset Z)) as ->.
    { intros k. rewrite elem_of_dom, elem_of_list_to_set, list_elem_of_fmap. split.
      - intros [f [Hf <-]%Hin]. exists f. by rewrite <- Hel.
      - intros (f & -> & Hf). exists f. apply Hin. by rewrite Hel. }
    rewrite size_list_to_set; [rewrite length_fmap; lia|].
    apply NoDup_fmap_2_strong; [|by apply complete_NoDup].
    intros. by apply complete_number_inj.
  - apply forallb_forall. intros i Hi%list_elem_of_In. apply bool_decide_eq_true.
    apply list_elem_of_lookup in Hi as [n Hn].
    destruct (Forall2_lookup_l _ _ _ _ _ H2 Hn) as (f & _ & Hf). by exists f.
Qed.

End Reassembly.

Lemma partial_nil o id open fs : complete_frames id fs -> partial o id fs [] (NewChannel id open o).
Proof.
  intros Hfs. constructor; simpl; try done.
  - intros k f. rewrite lookup_empty. set_solver.
  - pose proof (cf_nonempty _ _ Hfs). destruct fs; simpl; [done|lia].
  - set_solver.
Qed.

Lemma reassembly_correct o id open fs arrival :
  complete_frames id fs -> arrival.*1 ≡ₚ fs -> (o = true -> arrival.*1 = fs) ->
  exists ch, AddFrames (NewChannel id open o) arrival = Ok ch
    /\ IsReady ch = true /\ Reader ch = Ok (concat (Data <$> fs)).
Proof.
  intros Hfs Hperm Hord.
  destruct (partial_steps o id fs Hfs arrival [] (NewChannel id open o)) as (ch & Hrun & Hp).
  - by apply partial_nil.
  - set_solver.
  - rewrite Hperm. by apply (complete_NoDup id).
  - intros g. rewrite Hperm. set_solver.
  - intros Ho i f. rewrite (Hord Ho). intros Hf. by destruct (cf_frame _ _ Hfs _ _ Hf) as (_ & -> & _).
  - exists ch. split; [done|]. apply (partial_complete o id fs Hfs _ _ Hp).
    intros f. rewrite app_nil_r, rev_reverse, elem_of_reverse. by rewrite Hperm.
Qed.

(** C1: the frames of a whole channel reassemble.  A channel that does not
    require order accepts them in whatever order they arrive, becomes ready and
    reads as the concatenation of their data; a channel that requires order, as
    from Holocene on, does so exactly when they arrive in order, and otherwise
    refuses one of them with an error. *)
Theorem reassembly_any_order id open fs arrival :
  complete_frames id fs -> arrival.*1 ≡ₚ fs ->
  (exists ch, AddFrames (NewChannel id open false) arrival = Ok ch
    /\ IsReady ch = true /\ Reader ch = Ok (concat (Data <$> fs)))
  /\ (arrival.*1 = fs -> exists ch, AddFrames (NewChannel id open true) arrival = Ok ch
       /\ IsReady ch = true /\ Reader ch = Ok (concat (Data <$> fs)))
  /\ (arrival.*1 <> fs -> exists e, AddFrames (NewChannel id open true) arrival = Err e).
Proof.
  intros Hfs Hperm. split_and!; [by apply reassembly_correct|intros Heq; by apply reassembly_correct|]. intros Hne.
  apply (strict_refuses true id fs Hfs arrival [] (NewChannel id open true)); [by apply partial_nil|set_solver| | |done|].
  - rewrite Hperm. by apply (complete_NoDup id).
  - intros g. rewrite Hperm. set_solver.
  - destruct (decide (Forall (fun '(i, f) => FrameNumber f = Z.of_nat i) (imap pair arrival.*1))) as [Hall|Hex].
    + exfalso. apply Hne, list_eq_same_length with (length fs); [done|by rewrite Hperm|].
      intros i x y _ Hx Hy. rewrite Forall_lookup in Hall. specialize (Hall i (i, x)). rewrite list_lookup_imap, Hx in Hall.
      specialize (Hall eq_refl). simpl in Hall. destruct (cf_frame _ _ Hfs _ _ Hy) as (_ & Hn & _).
      apply (complete_number_inj id fs Hfs); [rewrite <-Hperm; by eapply list_elem_of_lookup_2|by eapply list_elem_of_lookup_2|congruence].
    + apply not_Forall_Exists in Hex; [|intros [? ?]; apply _]. apply Exists_exists in Hex as ([i f] & Hin & Hn).
      apply list_elem_of_lookup in Hin as [k Hk]. rewrite list_lookup_imap in Hk. apply fmap_Some in Hk as (g & Hg & [= -> ->]).
      by exists k, g.
Qed.

(** A closing frame that arrives after a frame with a higher number
    resets the size of the channel to its own size, although the frames with
    lower numbers are kept: the subtraction of the pruning loop runs for
    every stored frame and not only for the deleted ones, so the size
    undercounts the kept frames. *)
Theorem closing_frame_undercounts ch f b :
  channel_wf ch -> frame_ok f -> accepts ch f ->
  IsLast f = true -> FrameNumber f < highestFrameNumber ch ->
  exists ch', AddFrame ch f b = Ok ch'
    /\ ch_size ch' = frameSize f
    /\ total_size (inputs ch')
       = total_size (prune_inputs (FrameNumber f) (inputs ch)) + frameSize f.
Proof.
  intros Hw Hf Ha El Hlt. exists (added ch f b).
  assert (prunes ch f = true) as Hp by (unfold prunes; rewrite El; simpl; lia).
  split_and!; [by apply AddFrame_Ok|by rewrite added_size, Hp by done|].
  pose proof (kept_new ch f Hw Ha) as Hk. rewrite Hp in Hk.
  simpl. rewrite Hp. by rewrite total_size_insert.
Qed.

(** ** Witnesses *)

Definition mk_frame (n : Z) (data : bytes) (last : bool) : Frame :=
  {| ID := repeat 7 16; FrameNumber := n; Data := data; IsLast := last |}.

Lemma mk_frame_ok n data last :
  is_u16 n -> lenZ data <= MaxFrameLen -> is_bytes data -> frame_ok (mk_frame n data last).
Proof.
  intros. constructor; simpl; [done| |done|done|done]. by apply is_bytes_check.
Qed.

Definition example_channel : Channel := NewChannel (repeat 7 16) zeroL1BlockRef false.

Lemma mk_frame_ok_concrete n : (0 <=? n) && (n <? 65536) = true ->
  frame_ok (mk_frame n [1; 2] false) /\ frame_ok (mk_frame n [3] true).
Proof.
  intros. split; apply mk_frame_ok; unfold is_u16, two16; try lia;
    unfold MaxFrameLen, lenZ; simpl; try lia; by apply is_bytes_check.
Qed.

Definition example_open : Channel :=
  added (added example_channel (mk_frame 0 [1; 2] false) zeroL1BlockRef)
    (mk_frame 5 [1; 2] false) zeroL1BlockRef.

Lemma example_open_run :
  AddFrames example_channel
    [(mk_frame 0 [1; 2] false, zeroL1BlockRef); (mk_frame 5 [1; 2] false, zeroL1BlockRef)]
  = Ok example_open.
Proof. vm_compute. reflexivity. Qed.

Lemma AddFrames_wf fs ch ch' : channel_wf ch -> Forall (fun fb => frame_ok fb.1) fs ->
  AddFrames ch fs = Ok ch' -> channel_wf ch'.
Proof.
  revert ch. induction fs as [|[f b] fs IH]; simpl; intros ch Hw Hfs; [by intros [= <-]|].
  apply Forall_cons in Hfs as [Hf Hfs]. intros (ch1 & H1 & H2)%rbind_Ok.
  eapply IH; [|done|done]. by eapply AddFrame_wf_lemma.
Qed.

Lemma example_open_wf : channel_wf example_open.
Proof.
  apply (AddFrames_wf _ _ _ (NewChannel_wf _ _ _)) with (2 := example_open_run).
  apply Forall_cons; split; [by apply mk_frame_ok_concrete|].
  apply Forall_singleton. by apply mk_frame_ok_concrete.
Qed.

Lemma AddFrame_invariant_witness :
  AddFrame example_open (mk_frame 3 [1; 2] false) zeroL1BlockRef <> Panic.
Proof.
  apply (AddFrame_invariant example_open (mk_frame 3 [1; 2] false) zeroL1BlockRef).
  - apply example_open_wf.
  - by apply mk_frame_ok_concrete.
Defined.

Definition example_ready : Channel := added example_channel (mk_frame 0 [3] true) zeroL1BlockRef.

Lemma IsReady_Reader_witness :
  IsReady example_ready = true /\ Reader example_ready = Ok [3]
  /\ exists fs, Reader example_ready = Ok (concat (Data <$> fs)).
Proof.
  split_and!; [vm_compute; reflexivity|vm_compute; reflexivity|].
  destruct (IsReady_Reader example_ready) as [_ H].
  - apply (AddFrame_wf_lemma example_channel (mk_frame 0 [3] true) zeroL1BlockRef);
      [apply NewChannel_wf|by apply mk_frame_ok_concrete|vm_compute; reflexivity].
  - destruct H as (fs & _ & H); [vm_compute; reflexivity|]. by exists fs.
Defined.

Lemma reassembly_any_order_witness :
  let frames := [(mk_frame 1 [3] true, zeroL1BlockRef); (mk_frame 0 [1; 2] false, zeroL1BlockRef)] in
  (exists ch, AddFrames example_channel frames = Ok ch /\ IsReady ch = true /\ Reader ch = Ok [1; 2; 3])
  /\ exists e, AddFrames (NewChannel (repeat 7 16) zeroL1BlockRef true) frames = Err e.
Proof.
  destruct (reassembly_any_order (repeat 7 16) zeroL1BlockRef
           [mk_frame 0 [1; 2] false; mk_frame 1 [3] true]
           [(mk_frame 1 [3] true, zeroL1BlockRef); (mk_frame 0 [1; 2] false, zeroL1BlockRef)]) as (Hany & _ & Hstrict).
  - constructor; [done|]. intros [|[|i]] f; [| |done]; by intros [= <-].
  - apply Permutation_swap.
  - split; [exact Hany|]. apply Hstrict. discriminate.
Defined.

Lemma closing_frame_undercounts_witness :
  exists ch', AddFrame example_open (mk_frame 2 [3] true) zeroL1BlockRef = Ok ch'
    /\ ch_size ch' = 201 /\ total_size (inputs ch') = 403.
Proof.
  apply (closing_frame_undercounts example_open (mk_frame 2 [3] true) zeroL1BlockRef).
  - apply example_open_wf.
  - by apply mk_frame_ok_concrete.
  - by constructor.
  - reflexivity.
  - vm_compute. reflexivity.
Defined.
