(* ===== verification/ChannelBank.v ===== *)
(** * The channel bank

    Models [rhs-node/rollup/derive/channel_bank.go]: the pre-Holocene stage
    that buffers the frames of many channels, times channels out, prunes the
    oldest ones when the bank grows too large and emits the data of the
    channels that are ready.  The frames come from any [NextFrameProvider];
    what the stage gives to its own client is the interface
    [RawChannelProvider]. *)

From S2P Require Import Prelude EthTypes RollupConfig Frames FrameQueue Channel.

(** ** Interface *)

(** [RawChannelProvider]: the data of the next channel, or an error. *)
Class RawChannelProvider (P : Type) := {
  NextRawChannel : P -> P * result bytes;
  raw_Origin : P -> L1BlockRef;
  raw_Reset : P -> P * result unit;
  raw_FlushChannel : P -> result P }.

(** What a client relies on: pulling a channel keeps the invariant of the
    stage, does not move the origin and does not panic. *)
Class RawChannelLaws (P : Type) `{RawChannelProvider P} (J : P -> Prop) := {
  raw_inv : forall p, J p -> J (NextRawChannel p).1;
  raw_origin : forall p, J p -> raw_Origin (NextRawChannel p).1 = raw_Origin p;
  raw_no_panic : forall p, J p -> (NextRawChannel p).2 <> Panic;
  raw_reset_inv : forall p, J p -> J (raw_Reset p).1 /\ (raw_Reset p).2 = Err EOF }.

(** ** The stage *)

Record ChannelBank (S : Type) : Type := {
  cb_spec : ChainSpec;
  channels : gmap ChannelID Channel;
  channelQueue : list ChannelID;
  cb_prev : S }.
Arguments cb_spec {S} _.
Arguments channels {S} _.
Arguments channelQueue {S} _.
Arguments cb_prev {S} _.

(** The channel's opening block plus the timeout lies before the origin. *)
Definition timed_out (spec : ChainSpec) (origin : L1BlockRef) (ch : Channel) : bool :=
  (OpenBlockNumber ch +u ChannelTimeout spec (l1_Time origin)) <? l1_Number origin.

(** [for _, ch := range cb.channels { totalSize += ch.size }] *)
Definition totalSize (chs : gmap ChannelID Channel) : Z :=
  map_fold (fun _ ch s => s +u ch_size ch) 0 chs.

Fixpoint bank_prune_loop (maxSize total : Z) (chs : gmap ChannelID Channel)
    (queue : list ChannelID) : result (gmap ChannelID Channel * list ChannelID) :=
  if total <=? maxSize then Ok (chs, queue)
  else match queue with
       | [] => Panic
       | id :: rest =>
           match chs !! id with
           | None => Panic
           | Some ch => bank_prune_loop maxSize (total -u ch_size ch) (delete id chs) rest
           end
       end.

Section Stage.
Context {S : Type} `{!NextFrameProvider S}.
Implicit Types cb : ChannelBank S.

Definition cb_with cb (chs : gmap ChannelID Channel) (queue : list ChannelID) : ChannelBank S :=
  {| cb_spec := cb_spec cb; channels := chs; channelQueue := queue; cb_prev := cb_prev cb |}.

Definition cb_set_prev cb (prev : S) : ChannelBank S :=
  {| cb_spec := cb_spec cb; channels := channels cb; channelQueue := channelQueue cb;
     cb_prev := prev |}.

Definition NewChannelBank (spec : ChainSpec) (prev : S) : ChannelBank S :=
  {| cb_spec := spec; channels := ∅; channelQueue := []; cb_prev := prev |}.

Definition ChannelBank_Origin cb : L1BlockRef := frame_Origin (cb_prev cb).

Definition bank_prune cb : result (ChannelBank S) :=
  let maxSize := MaxChannelBankSize (cb_spec cb) (l1_Time (ChannelBank_Origin cb)) in
  let* (chs, queue) :=
    bank_prune_loop maxSize (totalSize (channels cb)) (channels cb) (channelQueue cb) in
  Ok (cb_with cb chs queue).

Definition IngestFrame cb (f : Frame) : result (ChannelBank S) :=
  let origin := ChannelBank_Origin cb in
  let '(cb, currentCh) :=
    match channels cb !! ID f with
    | Some ch => (cb, ch)
    | None =>
        let ch := NewChannel (ID f) origin false in
        (cb_with cb (<[ID f := ch]> (channels cb)) (channelQueue cb ++ [ID f]), ch)
    end in
  if timed_out (cb_spec cb) origin currentCh then Ok cb
  else match AddFrame currentCh f origin with
       | Panic => Panic
       | Err _ => Ok cb
       | Ok ch => bank_prune (cb_with cb (<[ID f := ch]> (channels cb)) (channelQueue cb))
       end.

Definition tryReadChannelAtIndex cb (i : nat) : ChannelBank S * result bytes :=
  match channelQueue cb !! i with
  | None => (cb, Panic)
  | Some chanID =>
      match channels cb !! chanID with
      | None => (cb, Panic)
      | Some ch =>
          if timed_out (cb_spec cb) (ChannelBank_Origin cb) ch || negb (IsReady ch)
          then (cb, Err EOF)
          else (cb_with cb (delete chanID (channels cb)) (remove_at i (channelQueue cb)),
                Reader ch)
      end
  end.

(** [for i := 0; i < len(cb.channelQueue); i++]; a failed attempt leaves the
    bank as it is, so the queue keeps its length. *)
Fixpoint read_loop cb (indices : list nat) : ChannelBank S * result bytes :=
  match indices with
  | [] => (cb, Err EOF)
  | i :: rest =>
      match tryReadChannelAtIndex cb i with
      | (_, Err _) => read_loop cb rest
      | done => done
      end
  end.

Definition Read cb : ChannelBank S * result bytes :=
  match channelQueue cb with
  | [] => (cb, Err EOF)
  | first :: rest =>
      match channels cb !! first with
      | None => (cb, Panic)
      | Some ch =>
          if timed_out (cb_spec cb) (ChannelBank_Origin cb) ch then
            (cb_with cb (delete first (channels cb)) rest, Ok [])
          else if negb (IsCanyon (spec_config (cb_spec cb)) (l1_Time (ChannelBank_Origin cb))) then
            tryReadChannelAtIndex cb 0
          else read_loop cb (seq 0 (length (channelQueue cb)))
      end
  end.

Definition ChannelBank_NextRawChannel cb : ChannelBank S * result bytes :=
  match Read cb with
  | (cb, Err e) =>
      if decide (e = EOF) then
        let (prev, r) := NextFrame (cb_prev cb) in
        let cb := cb_set_prev cb prev in
        match r with
        | Err e => (cb, Err e)
        | Panic => (cb, Panic)
        | Ok frame =>
            match IngestFrame cb frame with
            | Ok cb => (cb, Err NotEnoughData)
            | _ => (cb, Panic)
            end
        end
      else (cb, Err e)
  | done => done
  end.

Definition ChannelBank_Reset cb : ChannelBank S * result unit :=
  (cb_with cb ∅ [], Err EOF).

Definition ChannelBank_FlushChannel cb : result (ChannelBank S) := Panic.

#[global] Instance ChannelBank_provider : RawChannelProvider (ChannelBank S) := {
  NextRawChannel := ChannelBank_NextRawChannel;
  raw_Origin := ChannelBank_Origin;
  raw_Reset := ChannelBank_Reset;
  raw_FlushChannel := ChannelBank_FlushChannel }.

End Stage.

(** ** The bank invariant *)

Definition bank_total (chs : gmap ChannelID Channel) : Z := map_sum ch_size chs.

(** The queue lists the ids of the open channels, once each; every channel is
    well-formed and filed under its own id; the bank holds at most the
    largest size it is ever allowed to keep. *)
Record bank_ok (chs : gmap ChannelID Channel) (queue : list ChannelID) : Prop := {
  bk_nodup : NoDup queue;
  bk_dom : forall id, id ∈ queue <-> is_Some (chs !! id);
  bk_channel : forall id ch, chs !! id = Some ch ->
    channel_wf ch /\ ch_id ch = id /\ requireInOrder ch = false }.

Lemma bank_total_nonneg chs queue : bank_ok chs queue -> 0 <= bank_total chs.
Proof.
  intros H. apply map_sum_nonneg. intros k ch Hk.
  destruct (bk_channel _ _ H _ _ Hk) as [Hw _]. apply (wf_size _ Hw).
Qed.

Lemma bank_ok_empty : bank_ok ∅ [].
Proof.
  constructor; [apply NoDup_nil_2| |].
  - intros id. rewrite lookup_empty. split; [by intros ?%elem_of_nil|by intros []].
  - intros id ch. by rewrite lookup_empty.
Qed.

Lemma bank_ok_remove chs l id r : bank_ok chs (l ++ id :: r) ->
  bank_ok (delete id chs) (l ++ r).
Proof.
  intros [Hn Hd Hc]. rewrite <- Permutation_middle in Hn.
  apply NoDup_cons in Hn as [Hid Hn]. constructor; [done| |].
  - intros k. rewrite lookup_delete_is_Some, <- Hd, !elem_of_app, elem_of_cons.
    rewrite elem_of_app in Hid. naive_solver.
  - intros k ch [_ Hk]%lookup_delete_Some. by apply Hc.
Qed.

Lemma bank_ok_update chs queue id ch : bank_ok chs queue -> id ∈ queue ->
  channel_wf ch -> ch_id ch = id -> requireInOrder ch = false ->
  bank_ok (<[id := ch]> chs) queue.
Proof.
  intros [Hn Hd Hc] Hid Hw Hi Ho. constructor; [done| |].
  - intros k. rewrite lookup_insert_is_Some', <- Hd. naive_solver.
  - intros k c [[<- <-]|[_ Hk]]%lookup_insert_Some; [done|by apply Hc].
Qed.

Lemma bank_ok_open chs queue id ch : bank_ok chs queue -> chs !! id = None ->
  channel_wf ch -> ch_id ch = id -> requireInOrder ch = false ->
  bank_ok (<[id := ch]> chs) (queue ++ [id]).
Proof.
  intros [Hn Hd Hc] Hid Hw Hi Ho.
  assert (id ∉ queue) as Hnew by (rewrite Hd, Hid; by intros []).
  constructor.
  - apply NoDup_app. split_and!; [done|set_solver|apply NoDup_singleton].
  - intros k. rewrite lookup_insert_is_Some', <- Hd. set_solver.
  - intros k c [[<- <-]|[_ Hk]]%lookup_insert_Some; [done|by apply Hc].
Qed.

Definition without (chs : gmap ChannelID Channel) (ids : list ChannelID)
    : gmap ChannelID Channel :=
  fold_left (fun m id => delete id m) ids chs.

(** Pruning drops a prefix of the queue, the shortest one that brings the
    total under the limit. *)
Lemma bank_prune_loop_spec maxSize chs queue :
  bank_ok chs queue -> 0 <= maxSize -> bank_total chs < two64 ->
  exists k,
    bank_prune_loop maxSize (bank_total chs) chs queue
      = Ok (without chs (take k queue), drop k queue)
    /\ bank_ok (without chs (take k queue)) (drop k queue)
    /\ bank_total (without chs (take k queue)) <= maxSize
    /\ forall j, (j < k)%nat -> maxSize < bank_total (without chs (take j queue)).
Proof.
  revert chs. induction queue as [|id rest IH]; intros chs Hb Hmax Ht; simpl.
  - assert (chs = ∅) as ->.
    { apply map_empty. intros k. apply eq_None_not_Some. rewrite <- (bk_dom _ _ Hb). set_solver. }
    exists 0%nat. simpl. rewrite (proj2 (Z.leb_le _ _)) by done.
    split_and!; [done|done|done|lia].
  - pose proof (bank_total_nonneg _ _ Hb).
    destruct (bank_total chs <=? maxSize) eqn:E.
    + exists 0%nat. split_and!; [done|done|simpl; lia|lia].
    + destruct (proj1 (bk_dom _ _ Hb id)) as [ch Hch]; [set_solver|]. rewrite Hch.
      destruct (bk_channel _ _ Hb _ _ Hch) as [Hw _]. pose proof (wf_size _ Hw).
      pose proof (bank_ok_remove chs [] id rest Hb) as Hb'. simpl in Hb'.
      assert (bank_total (delete id chs) = bank_total chs - ch_size ch) as Hd
        by by apply map_sum_delete.
      pose proof (bank_total_nonneg _ _ Hb').
      rewrite u64_small by (unfold is_u64; lia). rewrite <- Hd.
      destruct (IH (delete id chs) Hb' Hmax) as (k & Hrun & Hok & Hle & Hmin); [lia|].
      exists (S k). simpl. split_and!; [done|done|done|].
      intros [|j] Hj; simpl; [lia|]. apply Hmin. lia.
Qed.

Section Laws.
Context {S : Type} `{!NextFrameProvider S} {I : S -> Prop} `{!NextFrameLaws S I}.
Implicit Types cb : ChannelBank S.

Definition BankLimit : Z := 1000000000.

Record bank_inv cb : Prop := {
  bi_prev : I (cb_prev cb);
  bi_ok : bank_ok (channels cb) (channelQueue cb);
  bi_total : bank_total (channels cb) <= BankLimit }.

Lemma MaxChannelBankSize_bounds spec t : 0 <= MaxChannelBankSize spec t <= BankLimit.
Proof.
  unfold MaxChannelBankSize, maxChannelBankSizeFjord, maxChannelBankSizeBedrock, BankLimit.
  case_match; lia.
Qed.

Lemma bank_prune_spec cb :
  I (cb_prev cb) -> bank_ok (channels cb) (channelQueue cb) ->
  bank_total (channels cb) < two64 ->
  exists k, let queue := channelQueue cb in
    bank_prune cb = Ok (cb_with cb (without (channels cb) (take k queue)) (drop k queue))
    /\ bank_inv (cb_with cb (without (channels cb) (take k queue)) (drop k queue))
    /\ bank_total (without (channels cb) (take k queue))
       <= MaxChannelBankSize (cb_spec cb) (l1_Time (ChannelBank_Origin cb))
    /\ forall j, (j < k)%nat ->
         MaxChannelBankSize (cb_spec cb) (l1_Time (ChannelBank_Origin cb))
         < bank_total (without (channels cb) (take j queue)).
Proof.
  intros Hp Hb Ht. unfold bank_prune.
  pose proof (MaxChannelBankSize_bounds (cb_spec cb) (l1_Time (ChannelBank_Origin cb))) as Hm.
  pose proof (bank_total_nonneg _ _ Hb).
  unfold totalSize. rewrite map_fold_add_u64. fold (bank_total (channels cb)).
  rewrite u64_small by (unfold is_u64; lia).
  destruct (bank_prune_loop_spec _ _ _ Hb (proj1 Hm) Ht) as (k & Hrun & Hok & Hle & Hmin).
  exists k. cbv zeta. rewrite Hrun. simpl. split_and!; [done| |done|done].
  constructor; simpl; [done|done|lia].
Qed.

Lemma AddFrame_size ch f b ch' : channel_wf ch -> frame_ok f -> AddFrame ch f b = Ok ch' ->
  ch_size ch' <= ch_size ch + 1000200.
Proof.
  intros Hw Hf [Ha ->]%AddFrame_Ok. rewrite added_size by done.
  pose proof (frameSize_bounds _ Hf). pose proof (wf_size _ Hw). case_match; lia.
Qed.

Lemma AddFrame_fixed ch f b ch' : AddFrame ch f b = Ok ch' ->
  ch_id ch' = ch_id ch /\ requireInOrder ch' = requireInOrder ch /\ openBlock ch' = openBlock ch.
Proof. by intros [_ ->]%AddFrame_Ok. Qed.

Lemma IngestFrame_inv cb f : bank_inv cb -> frame_ok f ->
  exists cb', IngestFrame cb f = Ok cb' /\ bank_inv cb' /\ cb_prev cb' = cb_prev cb.
Proof.
  intros [Hp Hb Ht] Hf. unfold IngestFrame.
  assert (exists cb1 ch1,
    match channels cb !! ID f with
    | Some ch => (cb, ch)
    | None =>
        (cb_with cb (<[ID f := NewChannel (ID f) (ChannelBank_Origin cb) false]> (channels cb))
           (channelQueue cb ++ [ID f]),
         NewChannel (ID f) (ChannelBank_Origin cb) false)
    end = (cb1, ch1) /\ bank_inv cb1 /\ cb_prev cb1 = cb_prev cb
    /\ channels cb1 !! ID f = Some ch1) as (cb1 & ch1 & -> & Hinv & Hprev & Hch).
  { destruct (channels cb !! ID f) as [ch|] eqn:E; [by exists cb, ch|].
    eexists _, _. split; [reflexivity|]. simpl. rewrite lookup_insert_eq.
    split_and!; [|done|done]. constructor; simpl; [done| |].
    - apply bank_ok_open; [done|done|apply NewChannel_wf|done|done].
    - unfold bank_total. rewrite map_sum_insert by done. simpl.
      unfold bank_total in Ht. lia. }
  case_match; [by exists cb1|]. rewrite <- Hprev.
  destruct Hinv as [Hp1 Hb1 Ht1].
  destruct (bk_channel _ _ Hb1 _ _ Hch) as (Hw & Hid & Ho).
  destruct (AddFrame ch1 f (ChannelBank_Origin cb)) as [ch2| |] eqn:Ea.
  - apply AddFrame_fixed in Ea as Hfix. destruct Hfix as (E1 & E2 & _).
    apply AddFrame_size in Ea as Hs; [|done|done].
    apply AddFrame_wf_lemma in Ea as Hw2; [|done|done].
    assert (ID f ∈ channelQueue cb1) by by apply (bk_dom _ _ Hb1); exists ch1.
    edestruct (bank_prune_spec (cb_with cb1 (<[ID f := ch2]> (channels cb1)) (channelQueue cb1)))
      as (k & Hrun & Hi & _).
    + done.
    + apply bank_ok_update; congruence || done.
    + simpl. unfold bank_total. rewrite <- insert_delete_eq.
      rewrite map_sum_insert by apply lookup_delete_eq.
      rewrite (map_sum_delete _ _ _ _ Hch). unfold bank_total, BankLimit, two64 in *. lia.
    + rewrite Hrun. eexists. split_and!; [done|done|done].
  - by exists cb1.
  - by apply AddFrame_no_panic in Ea.
Qed.

(** Reading at an index either takes a channel out of the bank or leaves the
    bank as it is. *)
Lemma tryRead_spec cb i id ch :
  bank_inv cb -> channelQueue cb !! i = Some id -> channels cb !! id = Some ch ->
  let blocked := timed_out (cb_spec cb) (ChannelBank_Origin cb) ch || negb (IsReady ch) in
  if blocked then tryReadChannelAtIndex cb i = (cb, Err EOF)
  else exists cb' fs, tryReadChannelAtIndex cb i = (cb', Ok (concat (Data <$> fs)))
    /\ Forall2 (fun i f => inputs ch !! i = Some f) (frame_indices (endFrameNumber ch)) fs
    /\ bank_inv cb' /\ cb_prev cb' = cb_prev cb
    /\ channels cb' = delete id (channels cb)
    /\ channelQueue cb' = remove_at i (channelQueue cb).
Proof.
  intros [Hp Hb Ht] Hi Hch. cbv zeta. unfold tryReadChannelAtIndex. rewrite Hi, Hch.
  destruct (timed_out _ _ _ || _) eqn:E; [done|].
  apply orb_false_iff in E as [_ Hr%negb_false_iff].
  destruct (bk_channel _ _ Hb _ _ Hch) as (Hw & _ & _).
  apply IsReady_correct in Hr as [_ Hall]; [|done].
  destruct (indices_present _ _ Hall) as [fs Hfs].
  eexists _, fs. unfold Reader. rewrite (read_frames_spec _ _ _ Hfs).
  split_and!; [reflexivity|done| |done|done|done].
  apply list_elem_of_split_length in Hi as (l & r & Hq & ->). constructor; simpl; [done| |].
  - rewrite Hq, remove_at_app. apply bank_ok_remove. by rewrite <- Hq.
  - pose proof (wf_size _ Hw). unfold bank_total in *.
    rewrite (map_sum_delete _ _ _ _ Hch). lia.
Qed.

(** The channel is complete and within its timeout. *)
Definition readable cb (id : ChannelID) : bool :=
  match channels cb !! id with
  | Some ch => negb (timed_out (cb_spec cb) (ChannelBank_Origin cb) ch) && IsReady ch
  | None => false
  end.

(** [cb'] is [cb] with the channel at index [i] of the queue taken out, and
    [data] is the concatenated data of its frames. *)
Definition takes cb (i : nat) cb' (data : bytes) : Prop :=
  exists id ch fs,
    channelQueue cb !! i = Some id /\ channels cb !! id = Some ch
    /\ Forall2 (fun i f => inputs ch !! i = Some f) (frame_indices (endFrameNumber ch)) fs
    /\ data = concat (Data <$> fs)
    /\ channels cb' = delete id (channels cb)
    /\ channelQueue cb' = remove_at i (channelQueue cb).

Lemma tryRead_cases cb i id :
  bank_inv cb -> channelQueue cb !! i = Some id ->
  if readable cb id
  then exists cb' data, tryReadChannelAtIndex cb i = (cb', Ok data)
    /\ takes cb i cb' data /\ bank_inv cb' /\ cb_prev cb' = cb_prev cb
  else tryReadChannelAtIndex cb i = (cb, Err EOF).
Proof.
  intros Hc Hi.
  destruct (proj1 (bk_dom _ _ (bi_ok _ Hc) id)) as [ch Hch].
  { by apply list_elem_of_lookup_2 in Hi. }
  pose proof (tryRead_spec cb i id ch Hc Hi Hch) as H. cbv zeta in H.
  unfold readable. rewrite Hch.
  destruct (timed_out _ _ ch), (IsReady ch); simpl in *; try done.
  destruct H as (cb' & fs & Hrun & Hfs & Hinv & Hp & E1 & E2).
  exists cb', (concat (Data <$> fs)). split_and!; [done| |done|done].
  by exists id, ch, fs.
Qed.

Lemma read_loop_spec cb s n : bank_inv cb -> (s + n = length (channelQueue cb))%nat ->
  let queue := channelQueue cb in
  (exists i id cb' data, (s <= i)%nat /\ queue !! i = Some id /\ readable cb id = true
     /\ (forall j id', (s <= j < i)%nat -> queue !! j = Some id' -> readable cb id' = false)
     /\ read_loop cb (seq s n) = (cb', Ok data)
     /\ takes cb i cb' data /\ bank_inv cb' /\ cb_prev cb' = cb_prev cb)
  \/ (forall j id', (s <= j)%nat -> queue !! j = Some id' -> readable cb id' = false)
     /\ read_loop cb (seq s n) = (cb, Err EOF).
Proof.
  cbv zeta. revert s. induction n as [|n IH]; intros s Hc Hs; simpl.
  { right. split; [|done]. intros j id' Hj Hlt%lookup_lt_Some. lia. }
  destruct (lookup_lt_is_Some_2 (channelQueue cb) s) as [id Hid]; [lia|].
  pose proof (tryRead_cases cb s id Hc Hid) as Ht.
  destruct (readable cb id) eqn:Er.
  { destruct Ht as (cb' & data & -> & Ht & Hinv & Hp). left. exists s, id, cb', data.
    split_and!; try done. lia. }
  rewrite Ht. destruct (IH (Datatypes.S s)) as [(i & id' & cb' & data & Hi & Hq & Hr & Hmin & H1 & H2 & H3 & H4)|[Hno Hrun]];
    [done|lia| |].
  - left. exists i, id', cb', data. split_and!; try done; [lia|].
    intros j id'' Hj Hlook. destruct (decide (j = s)) as [->|]; [congruence|].
    apply (Hmin j); [lia|done].
  - right. split; [|done]. intros j id'' Hj Hlook.
    destruct (decide (j = s)) as [->|]; [congruence|]. apply (Hno j); [lia|done].
Qed.

(** The outcome of [Read] on a bank with a queue. *)
Inductive read_outcome cb : ChannelBank S -> result bytes -> Prop :=
  | read_timed_out first rest ch :
      channelQueue cb = first :: rest -> channels cb !! first = Some ch ->
      timed_out (cb_spec cb) (ChannelBank_Origin cb) ch = true ->
      read_outcome cb (cb_with cb (delete first (channels cb)) rest) (Ok [])
  | read_ready i id cb' data :
      channelQueue cb !! i = Some id -> readable cb id = true ->
      (IsCanyon (spec_config (cb_spec cb)) (l1_Time (ChannelBank_Origin cb)) = false ->
       i = 0%nat) ->
      (forall j id', (j < i)%nat -> channelQueue cb !! j = Some id' -> readable cb id' = false) ->
      takes cb i cb' data ->
      read_outcome cb cb' (Ok data)
  | read_nothing :
      (forall j id, channelQueue cb !! j = Some id ->
         IsCanyon (spec_config (cb_spec cb)) (l1_Time (ChannelBank_Origin cb)) = true
         \/ j = 0%nat -> readable cb id = false) ->
      read_outcome cb cb (Err EOF).

Lemma Read_correct cb : bank_inv cb ->
  read_outcome cb (Read cb).1 (Read cb).2
  /\ bank_inv (Read cb).1 /\ cb_prev (Read cb).1 = cb_prev cb.
Proof.
  intros Hc. unfold Read. destruct (channelQueue cb) as [|first rest] eqn:Eq.
  { simpl. split_and!; [|done|done]. apply read_nothing. by rewrite Eq. }
  pose proof Hc as [Hp Hb Ht].
  destruct (proj1 (bk_dom _ _ Hb first)) as [ch Hch]; [rewrite Eq; set_solver|]. rewrite Hch.
  destruct (timed_out _ _ ch) eqn:Eto; cbn [fst snd].
  { split_and!; [by eapply read_timed_out| |done]. constructor; simpl; [done| |].
    - apply (bank_ok_remove _ []). by rewrite <- Eq.
    - destruct (bk_channel _ _ Hb _ _ Hch) as [Hw _]. pose proof (wf_size _ Hw).
      unfold bank_total in *. rewrite (map_sum_delete _ _ _ _ Hch). lia. }
  destruct (IsCanyon _ _) eqn:Ecan; cbn [negb].
  - rewrite <- Eq.
    destruct (read_loop_spec cb 0 (length (channelQueue cb)) Hc) as
      [(i & id & cb' & data & _ & Hi & Hr & Hmin & -> & Htk & Hinv & Hpr)|[Hno ->]]; [done| |].
    + split_and!; [|done|done]. apply (read_ready _ i id); try done; [congruence|].
      intros j id' Hj. apply Hmin. lia.
    + split_and!; [|done|done]. apply read_nothing. intros j id Hj _. apply (Hno j); [lia|done].
  - assert (channelQueue cb !! 0%nat = Some first) as H0 by by rewrite Eq.
    pose proof (tryRead_cases cb 0 first Hc H0) as H.
    destruct (readable cb first) eqn:Er.
    + destruct H as (cb' & data & -> & Htk & Hinv & Hpr). split_and!; [|done|done].
      apply (read_ready _ 0 first); try done. lia.
    + rewrite H. split_and!; [|done|done]. apply read_nothing.
      intros j id Hj Hbad. assert (id = first) as ->; [|done]. destruct Hbad as [Hbad| ->]; [simpl in Hbad; congruence|]. simpl in Hj; rewrite H0 in Hj. congruence.
Qed.

Lemma NextRawChannel_preserves cb : bank_inv cb ->
  bank_inv (ChannelBank_NextRawChannel cb).1
  /\ ChannelBank_Origin (ChannelBank_NextRawChannel cb).1 = ChannelBank_Origin cb
  /\ (ChannelBank_NextRawChannel cb).2 <> Panic.
Proof.
  intros Hc. unfold ChannelBank_NextRawChannel.
  destruct (Read_correct cb Hc) as (Hout & Hinv & Hp).
  destruct (Read cb) as [cb1 r] eqn:ER. simpl in *.
  assert (ChannelBank_Origin cb1 = ChannelBank_Origin cb) as Ho
    by (unfold ChannelBank_Origin; by rewrite Hp).
  destruct r as [data|e|]; [done| |by inversion Hout].
  case_decide; [|done].
  pose proof Hinv as [Hp1 Hb1 Ht1].
  pose proof (frame_inv _ Hp1) as Hfi. pose proof (frame_origin _ Hp1) as Hfo.
  pose proof (fun f => frame_yields_ok _ f Hp1) as Hfk.
  pose proof (frame_no_panic _ Hp1) as Hfp.
  destruct (NextFrame (cb_prev cb1)) as [prev r]; simpl in *.
  assert (bank_inv (cb_set_prev cb1 prev)) as Hinv2 by by constructor.
  assert (ChannelBank_Origin (cb_set_prev cb1 prev) = ChannelBank_Origin cb) as Ho2.
  { rewrite <- Ho. apply Hfo. }
  destruct r as [frame|e'|]; [|done|done].
  destruct (IngestFrame_inv _ frame Hinv2 (Hfk frame eq_refl)) as (cb3 & -> & Hi3 & Hp3).
  simpl. split_and!; [done| |done]. rewrite <- Ho2. unfold ChannelBank_Origin. by rewrite Hp3.
Qed.

#[global] Instance ChannelBank_laws : RawChannelLaws (ChannelBank S) bank_inv.
Proof.
  constructor; simpl; intros cb Hc; try by apply NextRawChannel_preserves.
  split; [|done]. constructor; simpl; [by destruct Hc|apply bank_ok_empty|done].
Qed.

(** Pruning the bank never runs past the end of the queue and keeps the
    bank invariant; it drops a prefix of the queue of channels, oldest first,
    namely the shortest one after which the bank is within the protocol's
    size limit. *)
Theorem bank_prune_correct cb :
  I (cb_prev cb) -> bank_ok (channels cb) (channelQueue cb) ->
  bank_total (channels cb) < two64 ->
  exists k, let queue := channelQueue cb in
    bank_prune cb = Ok (cb_with cb (without (channels cb) (take k queue)) (drop k queue))
    /\ bank_inv (cb_with cb (without (channels cb) (take k queue)) (drop k queue))
    /\ bank_total (without (channels cb) (take k queue))
       <= MaxChannelBankSize (cb_spec cb) (l1_Time (ChannelBank_Origin cb))
    /\ forall j, (j < k)%nat ->
         MaxChannelBankSize (cb_spec cb) (l1_Time (ChannelBank_Origin cb))
         < bank_total (without (channels cb) (take j queue)).
Proof. apply bank_prune_spec. Qed.

(** [Read] drops the first channel when it is timed out; otherwise it
    takes the first complete channel of the queue (only the head before
    Canyon) with the concatenated data of its frames, and returns [io.EOF]
    with the bank unchanged when there is none. *)
Theorem Read_spec cb : bank_inv cb -> read_outcome cb (Read cb).1 (Read cb).2.
Proof. apply Read_correct. Qed.

(** Pulling a channel from the bank keeps the bank invariant (the queue
    lists the open channels once each, every channel is well-formed, the
    sizes stay within the limit), does not move the origin and never
    panics, for any frame provider that keeps its laws. *)
Theorem ChannelBank_NextRawChannel_inv cb : bank_inv cb ->
  bank_inv (ChannelBank_NextRawChannel cb).1
  /\ ChannelBank_Origin (ChannelBank_NextRawChannel cb).1 = ChannelBank_Origin cb
  /\ (ChannelBank_NextRawChannel cb).2 <> Panic.
Proof. apply NextRawChannel_preserves. Qed.

End Laws.

(** ** Witnesses *)

Definition ex_provider : FrameQueue ListData :=
  NewFrameQueue example_config (example_origin 200, [0 :: MarshalBinary (mk_frame 0 [3] true)]).

Definition ex_bank : ChannelBank (FrameQueue ListData) :=
  NewChannelBank (NewChainSpec example_config) ex_provider.

Lemma ex_bank_inv : bank_inv (I := fq_inv (I := ListData_ok)) ex_bank.
Proof.
  constructor; simpl; [|apply bank_ok_empty|done].
  constructor; [|constructor|done]. constructor; [by apply is_bytes_check|constructor].
Qed.

Lemma bank_prune_correct_witness : bank_prune ex_bank = Ok ex_bank /\
  exists k, bank_prune ex_bank
    = Ok (cb_with ex_bank (without (channels ex_bank) (take k (channelQueue ex_bank)))
            (drop k (channelQueue ex_bank))).
Proof.
  split; [reflexivity|].
  destruct (bank_prune_correct (I := fq_inv (I := ListData_ok)) ex_bank) as (k & H & _).
  - apply ex_bank_inv.
  - apply ex_bank_inv.
  - reflexivity.
  - by exists k.
Defined.

Lemma Read_spec_witness :
  read_outcome ex_bank (Read ex_bank).1 (Read ex_bank).2.
Proof. apply (Read_spec (I := fq_inv (I := ListData_ok))), ex_bank_inv. Defined.

Lemma ChannelBank_NextRawChannel_inv_witness :
  let cb1 := (ChannelBank_NextRawChannel ex_bank).1 in
  (ChannelBank_NextRawChannel ex_bank).2 = Err NotEnoughData
  /\ (ChannelBank_NextRawChannel cb1).2 = Ok [3]
  /\ bank_inv (I := fq_inv (I := ListData_ok)) cb1.
Proof.
  cbv zeta. split_and!; [vm_compute; reflexivity|vm_compute; reflexivity|].
  apply (ChannelBank_NextRawChannel_inv (I := fq_inv (I := ListData_ok)) ex_bank), ex_bank_inv.
Defined.
