(* ===== verification/ChannelAssembler.v ===== *)
(** * The channel assembler and the channel mux

    Models [rhs-node/rollup/derive/channel_assembler.go] (the Holocene
    channel stage: one channel at a time, frames strictly in order) and
    [rhs-node/rollup/derive/channel_mux.go] (the switch between the channel
    bank and the assembler).  The ingestion loop has no bound of its own: it
    runs until the frame provider fails, so the model takes fuel and returns
    [None] when the fuel runs out; [exhausts] bounds the frames a provider
    still has, and that bound is enough fuel. *)

From S2P Require Import Prelude EthTypes RollupConfig Frames FrameQueue Channel ChannelBank.

Record ChannelAssembler (S : Type) : Type := {
  ca_spec : ChainSpec;
  ca_channel : option Channel;
  ca_prev : S }.
Arguments ca_spec {S} _.
Arguments ca_channel {S} _.
Arguments ca_prev {S} _.

Section Stage.
Context {S : Type} `{!NextFrameProvider S}.
Implicit Types ca : ChannelAssembler S.

Definition NewChannelAssembler (spec : ChainSpec) (prev : S) : ChannelAssembler S :=
  {| ca_spec := spec; ca_channel := None; ca_prev := prev |}.

Definition ca_with ca (ch : option Channel) : ChannelAssembler S :=
  {| ca_spec := ca_spec ca; ca_channel := ch; ca_prev := ca_prev ca |}.

Definition ChannelAssembler_Origin ca : L1BlockRef := frame_Origin (ca_prev ca).

Definition resetChannel ca : ChannelAssembler S := ca_with ca None.

Definition ChannelAssembler_Reset ca : ChannelAssembler S * result unit :=
  (resetChannel ca, Err EOF).

Definition ChannelAssembler_FlushChannel ca : ChannelAssembler S := resetChannel ca.

(** Panics when there is no current channel. *)
Definition channelTimedOut ca : result bool :=
  match ca_channel ca with
  | None => Panic
  | Some ch => Ok (timed_out (ca_spec ca) (ChannelAssembler_Origin ca) ch)
  end.

Definition critical (s : string) : error := Leveled LevelCritical (Msg s).

(** The end of [NextRawChannel], after the loop. *)
Definition forward_channel ca : ChannelAssembler S * result bytes :=
  match ca_channel ca with
  | None => (ca, Err (critical "unexpected non-ready channel"))
  | Some ch =>
      if negb (IsReady ch) then (ca, Err (critical "unexpected non-ready channel"))
      else (resetChannel ca, Reader ch)
  end.

(** What the loop does with a frame: [inl] continues, [inr] leaves the loop. *)
Definition ingest ca (origin : L1BlockRef) (frame : Frame)
    : result (ChannelAssembler S + ChannelAssembler S) :=
  let ca := if FrameNumber frame =? 0
            then ca_with ca (Some (NewChannel (ID frame) origin true)) else ca in
  match ca_channel ca with
  | None => if 0 <? FrameNumber frame then Ok (inl ca) else Panic
  | Some ch =>
      match AddFrame ch frame origin with
      | Panic => Panic
      | Err _ => Ok (inl ca)
      | Ok ch =>
          if MaxRLPBytesPerChannel (ca_spec ca) (l1_Time (ChannelAssembler_Origin ca)) <? ch_size ch
          then Ok (inl (resetChannel ca))
          else if IsLast frame then Ok (inr (ca_with ca (Some ch)))
          else Ok (inl (ca_with ca (Some ch)))
      end
  end.

Fixpoint ingest_loop (fuel : nat) ca (origin : L1BlockRef)
    : option (ChannelAssembler S * result bytes) :=
  match fuel with
  | O => None
  | Datatypes.S fuel' =>
      let (prev, r) := NextFrame (ca_prev ca) in
      let ca := {| ca_spec := ca_spec ca; ca_channel := ca_channel ca; ca_prev := prev |} in
      match r with
      | Err e => Some (ca, Err e)
      | Panic => Some (ca, Panic)
      | Ok frame =>
          match ingest ca origin frame with
          | Ok (inl ca) => ingest_loop fuel' ca origin
          | Ok (inr ca) => Some (forward_channel ca)
          | _ => Some (ca, Panic)
          end
      end
  end.

Definition ChannelAssembler_NextRawChannel (fuel : nat) ca
    : option (ChannelAssembler S * result bytes) :=
  let ca := match ca_channel ca with
            | Some ch => if timed_out (ca_spec ca) (ChannelAssembler_Origin ca) ch
                         then resetChannel ca else ca
            | None => ca
            end in
  let origin := ChannelAssembler_Origin ca in
  match ca_channel ca with
  | Some ch =>
      if IsReady ch then Some (ca, Err (critical "unexpected ready channel"))
      else ingest_loop fuel ca origin
  | None => ingest_loop fuel ca origin
  end.

(** The provider fails within [n] more frames. *)
Fixpoint exhausts (n : nat) (s : S) : Prop :=
  match NextFrame s with
  | (s', Ok _) => match n with O => False | Datatypes.S n' => exhausts n' s' end
  | _ => True
  end.

End Stage.

(** ** The mux *)

(** The active stage; a stage owns the frame provider, which the mux shares
    with it.  [NoStage] is the nil stage of a new mux. *)
Inductive ChannelStage (S : Type) : Type :=
  | NoStage (prev : S)
  | BankStage (cb : ChannelBank S)
  | AssemblerStage (ca : ChannelAssembler S).
Arguments NoStage {S} prev.
Arguments BankStage {S} cb.
Arguments AssemblerStage {S} ca.

Record ChannelMux (S : Type) : Type := {
  mux_spec : ChainSpec;
  mux_stage : ChannelStage S }.
Arguments mux_spec {S} _.
Arguments mux_stage {S} _.

Section Mux.
Context {S : Type} `{!NextFrameProvider S}.
Implicit Types m : ChannelMux S.

Definition NewChannelMux (spec : ChainSpec) (prev : S) : ChannelMux S :=
  {| mux_spec := spec; mux_stage := NoStage prev |}.

Definition mux_prev m : S :=
  match mux_stage m with
  | NoStage prev => prev
  | BankStage cb => cb_prev cb
  | AssemblerStage ca => ca_prev ca
  end.

Definition ChannelMux_Reset m : ChannelMux S * result unit :=
  let cb := match mux_stage m with
            | BankStage cb => cb
            | _ => NewChannelBank (mux_spec m) (mux_prev m)
            end in
  let (cb, r) := ChannelBank_Reset cb in
  ({| mux_spec := mux_spec m; mux_stage := BankStage cb |}, r).

Definition ChannelMux_TransformHolocene m : result (ChannelMux S) :=
  match mux_stage m with
  | BankStage cb =>
      Ok {| mux_spec := mux_spec m;
            mux_stage := AssemblerStage (NewChannelAssembler (mux_spec m) (mux_prev m)) |}
  | AssemblerStage _ => Panic
  | NoStage _ => Panic
  end.

Definition ChannelMux_Transform m (f : ForkName) : result (ChannelMux S) :=
  match f with
  | Holocene => ChannelMux_TransformHolocene m
  | _ => Ok m
  end.

(** The methods of the embedded stage. *)
Definition ChannelMux_NextRawChannel (fuel : nat) m : option (ChannelMux S * result bytes) :=
  match mux_stage m with
  | NoStage _ => Some (m, Panic)
  | BankStage cb =>
      let (cb, r) := ChannelBank_NextRawChannel cb in
      Some ({| mux_spec := mux_spec m; mux_stage := BankStage cb |}, r)
  | AssemblerStage ca =>
      match ChannelAssembler_NextRawChannel fuel ca with
      | None => None
      | Some (ca, r) =>
          Some ({| mux_spec := mux_spec m; mux_stage := AssemblerStage ca |}, r)
      end
  end.

Definition ChannelMux_FlushChannel m : result (ChannelMux S) :=
  match mux_stage m with
  | NoStage _ => Panic
  | BankStage cb =>
      let* cb := ChannelBank_FlushChannel cb in
      Ok {| mux_spec := mux_spec m; mux_stage := BankStage cb |}
  | AssemblerStage ca =>
      Ok {| mux_spec := mux_spec m;
            mux_stage := AssemblerStage (ChannelAssembler_FlushChannel ca) |}
  end.

End Mux.

(** ** Channels in order *)

Lemma in_order_ready ch : channel_wf ch -> requireInOrder ch = true -> closed ch = true ->
  IsReady ch = true.
Proof.
  intros Hw Ho Hc. apply IsReady_correct; [done|]. split; [done|]. intros i Hi.
  destruct (wf_end _ Hw Hc) as [He _]. apply (wf_order _ Hw Ho) in He.
  apply (wf_order _ Hw Ho). lia.
Qed.

Lemma ready_complete ch fs : channel_wf ch -> closed ch = true ->
  Forall2 (fun i f => inputs ch !! i = Some f) (frame_indices (endFrameNumber ch)) fs ->
  complete_frames (ch_id ch) fs.
Proof.
  intros Hw Hc H2. destruct (wf_end _ Hw Hc) as [He _].
  apply channel_keys_range in He as Hr; [|done|done].
  apply Forall2_length in H2 as Hlen. unfold frame_indices in *. rewrite length_seqZ in Hlen.
  constructor.
  - intros ->. simpl in Hlen. lia.
  - intros i f Hf. destruct (Forall2_lookup_r _ _ _ _ _ H2 Hf) as (k & Hk & Hin).
    apply lookup_seqZ in Hk as [-> _].
    destruct (wf_frames _ Hw _ _ Hin) as (Hn & _ & Hid & _ & Hl).
    split_and!; [done|lia|]. apply eq_true_iff_eq. rewrite Hl, bool_decide_eq_true.
    rewrite Hc. split; [intros [_ E]; lia|intros E; split; [done|lia]].
Qed.

Definition frames_size (fs : list Frame) : Z := foldr (fun f s => frameSize f + s) 0 fs.

Lemma frames_size_app l r : frames_size (l ++ r) = frames_size l + frames_size r.
Proof. induction l as [|f l IH]; simpl; [done|]. rewrite IH. lia. Qed.

Lemma total_size_frames idx : forall (m : gmap Z Frame) fs, NoDup idx ->
  Forall2 (fun i f => m !! i = Some f) idx fs ->
  frames_size fs <= total_size m.
Proof.
  induction idx as [|i idx IH]; intros m fs Hnd H2.
  { apply Forall2_nil_inv_l in H2 as ->. apply total_size_nonneg. }
  apply Forall2_cons_inv_l in H2 as (f & fs' & Hi & H2 & ->).
  apply NoDup_cons in Hnd as [Hni Hnd]. simpl.
  assert (frames_size fs' <= total_size (delete i m)) as Hle.
  { apply IH; [done|]. apply Forall2_same_length_lookup_2; [by eapply Forall2_length|].
    intros j k g Hk Hg. rewrite lookup_delete_ne; [exact (Forall2_lookup_lr _ _ _ _ _ _ H2 Hk Hg)|].
    intros ->. apply Hni. by apply list_elem_of_lookup_2 in Hk. }
  unfold total_size in *. rewrite (map_sum_delete _ _ _ _ Hi) in Hle. lia.
Qed.

(** ** The assembler's invariant *)

Section Laws.
Context {S : Type} `{!NextFrameProvider S} {I : S -> Prop} `{!NextFrameLaws S I}.
Implicit Types ca : ChannelAssembler S.

(** The staged channel is well-formed, in order and still open. *)
Record ca_inv ca : Prop := {
  ca_inv_prev : I (ca_prev ca);
  ca_inv_channel : forall ch, ca_channel ca = Some ch ->
    channel_wf ch /\ requireInOrder ch = true /\ closed ch = false }.

Lemma ca_inv_none ca : I (ca_prev ca) -> ca_inv (resetChannel ca).
Proof. by constructor. Qed.

(** The channel [ingest] adds the frame to. *)
Lemma staged ca origin frame : ca_inv ca ->
  let ca1 := if FrameNumber frame =? 0
             then ca_with ca (Some (NewChannel (ID frame) origin true)) else ca in
  ca_inv ca1 /\ ca_spec ca1 = ca_spec ca /\ ca_prev ca1 = ca_prev ca
  /\ (ca_channel ca1 = None -> FrameNumber frame <> 0).
Proof.
  intros [Hp Hc]. cbv zeta. destruct (Z.eqb_spec (FrameNumber frame) 0).
  - split_and!; [|done|done|done]. constructor; [done|]. simpl. intros ch [= <-].
    split_and!; [apply NewChannel_wf|done|done].
  - done.
Qed.

Lemma ingest_spec ca origin frame : ca_inv ca -> frame_ok frame ->
  exists o, ingest ca origin frame = Ok o
  /\ match o with
     | inl ca' => ca_inv ca' /\ ca_spec ca' = ca_spec ca /\ ca_prev ca' = ca_prev ca
     | inr ca' => I (ca_prev ca') /\ ca_spec ca' = ca_spec ca /\ ca_prev ca' = ca_prev ca
         /\ exists ch, ca_channel ca' = Some ch /\ channel_wf ch /\ requireInOrder ch = true
           /\ closed ch = true
           /\ ch_size ch <= MaxRLPBytesPerChannel (ca_spec ca)
                              (l1_Time (ChannelAssembler_Origin ca))
     end.
Proof.
  intros Hca Hf. unfold ingest.
  destruct (staged ca origin frame Hca) as (Hca1 & Es & Ep & Hnone).
  set (ca1 := if _ =? 0 then _ else _) in *. clearbody ca1.
  assert (ChannelAssembler_Origin ca1 = ChannelAssembler_Origin ca) as Eo
    by (unfold ChannelAssembler_Origin; by rewrite Ep).
  destruct (ca_channel ca1) as [ch|] eqn:Ech.
  2:{ apply frame_ok_number in Hf. unfold is_u16 in Hf. specialize (Hnone eq_refl).
      rewrite (proj2 (Z.ltb_lt _ _)) by lia. by exists (inl ca1). }
  destruct (ca_inv_channel _ Hca1 _ Ech) as (Hw & Ho & Hcl).
  destruct (AddFrame ch frame origin) as [ch'|e|] eqn:Ea.
  - apply AddFrame_fixed in Ea as Hfix. destruct Hfix as (_ & Eo' & _).
    apply AddFrame_wf_lemma in Ea as Hw'; [|done|done].
    rewrite Es, Eo. destruct (_ <? ch_size ch') eqn:Es'.
    { eexists. split; [done|]. split; [|done]. apply ca_inv_none. by destruct Hca1. }
    apply AddFrame_Ok in Ea as [_ ->]. destruct (IsLast frame) eqn:El.
    + eexists. split; [done|]. simpl. split_and!; [by destruct Hca1|done|done|].
      eexists. split_and!; [done|done|congruence| |lia]. simpl. by rewrite El.
    + eexists. split; [done|]. split; [|done]. constructor; [by destruct Hca1|].
      simpl. intros ? [= <-]. split_and!; [done|congruence|]. simpl. by rewrite El.
  - by exists (inl ca1).
  - by apply AddFrame_no_panic in Ea.
Qed.

(** The outcomes of pulling a channel: an error of the provider, or the data
    of a whole channel whose frames are within the size limit. *)
Definition raw_channel_ok (maxSize : Z) (data : bytes) : Prop :=
  exists id fs, complete_frames id fs /\ data = concat (Data <$> fs)
    /\ frames_size fs <= maxSize.

Lemma forward_spec ca ch maxSize :
  I (ca_prev ca) -> ca_channel ca = Some ch -> channel_wf ch -> requireInOrder ch = true ->
  closed ch = true -> ch_size ch <= maxSize ->
  exists data, forward_channel ca = (resetChannel ca, Ok data) /\ raw_channel_ok maxSize data.
Proof.
  intros Hp Ech Hw Ho Hc Hs. unfold forward_channel. rewrite Ech, in_order_ready by done.
  simpl. pose proof (in_order_ready ch Hw Ho Hc) as Hr.
  apply IsReady_correct in Hr as [_ Hall]; [|done].
  destruct (indices_present _ _ Hall) as [fs Hfs].
  exists (concat (Data <$> fs)). unfold Reader. rewrite (read_frames_spec _ _ _ Hfs).
  split; [done|]. exists (ch_id ch), fs. split_and!; [by apply ready_complete|done|].
  pose proof (total_size_frames _ _ _ (NoDup_seqZ _ _) Hfs).
  pose proof (wf_size_open ch Hw (or_intror Ho)). lia.
Qed.

Lemma ingest_loop_spec n fuel ca origin :
  ca_inv ca -> exhausts n (ca_prev ca) -> (n < fuel)%nat ->
  exists ca' r, ingest_loop fuel ca origin = Some (ca', r) /\ ca_inv ca'
    /\ ChannelAssembler_Origin ca' = ChannelAssembler_Origin ca
    /\ match r with
       | Ok data => raw_channel_ok
           (MaxRLPBytesPerChannel (ca_spec ca) (l1_Time (ChannelAssembler_Origin ca))) data
       | Err e => exists s, I s /\ (NextFrame s).2 = Err e
       | Panic => False
       end.
Proof.
  revert n ca. induction fuel as [|fuel IH]; intros n ca Hca Hn Hlt; [lia|]. simpl.
  destruct Hca as [Hp Hch]. pose proof (frame_inv _ Hp) as Hi.
  pose proof (frame_origin _ Hp) as Ho. pose proof (fun f => frame_yields_ok _ f Hp) as Hf.
  pose proof (frame_no_panic _ Hp) as Hnp.
  destruct (NextFrame (ca_prev ca)) as [prev r] eqn:E. simpl in Hi, Ho, Hf, Hnp.
  set (ca1 := {| ca_spec := _; ca_channel := _; ca_prev := _ |}).
  assert (ca_inv ca1) as Hca1 by by constructor.
  assert (ChannelAssembler_Origin ca1 = ChannelAssembler_Origin ca) as Eo by exact Ho.
  destruct r as [frame|e|]; [| |done].
  2:{ exists ca1, (Err e). split_and!; [done|done|done|]. exists (ca_prev ca). by rewrite E. }
  destruct (ingest_spec ca1 origin frame Hca1 (Hf _ eq_refl)) as ([ca2|ca2] & -> & H).
  - destruct H as (Hca2 & Es & Ep).
    assert (exists m, n = Datatypes.S m /\ exhausts m prev) as (m & -> & Hm).
    { destruct n as [|m]; simpl in Hn; rewrite E in Hn; [done|by exists m]. }
    destruct (IH m ca2 Hca2) as (ca' & r & Hrun & Hinv & Ho' & Hr);
      [rewrite Ep; done|lia|].
    assert (ChannelAssembler_Origin ca2 = ChannelAssembler_Origin ca) as Eo2.
    { rewrite <- Eo. unfold ChannelAssembler_Origin. by rewrite Ep. }
    rewrite Eo2, Es in *. exists ca', r. by split_and!.
  - destruct H as (Hp2 & Es & Ep & ch & Ech & Hw & Hor & Hcl & Hs).
    rewrite Eo in Hs. simpl in Hs.
    destruct (forward_spec ca2 ch _ Hp2 Ech Hw Hor Hcl Hs) as (data & -> & Hd).
    exists (resetChannel ca2), (Ok data). split_and!; [done|by apply ca_inv_none| |done].
    rewrite <- Eo. unfold ChannelAssembler_Origin. simpl. by rewrite Ep.
Qed.

Lemma Assembler_correct n fuel ca :
  ca_inv ca -> exhausts n (ca_prev ca) -> (n < fuel)%nat ->
  exists ca' r, ChannelAssembler_NextRawChannel fuel ca = Some (ca', r) /\ ca_inv ca'
    /\ ChannelAssembler_Origin ca' = ChannelAssembler_Origin ca
    /\ match r with
       | Ok data => raw_channel_ok
           (MaxRLPBytesPerChannel (ca_spec ca) (l1_Time (ChannelAssembler_Origin ca))) data
       | Err e => exists s, I s /\ (NextFrame s).2 = Err e
       | Panic => False
       end.
Proof.
  intros Hca Hn Hlt. unfold ChannelAssembler_NextRawChannel.
  set (ca1 := match ca_channel ca with Some _ => _ | None => _ end).
  assert (ca_inv ca1 /\ ca_spec ca1 = ca_spec ca /\ ca_prev ca1 = ca_prev ca)
    as (Hca1 & Es & Ep).
  { unfold ca1. destruct (ca_channel ca); [|done]. case_match; [|done].
    split; [|done]. apply ca_inv_none. by destruct Hca. }
  assert (ChannelAssembler_Origin ca1 = ChannelAssembler_Origin ca) as Eo
    by (unfold ChannelAssembler_Origin; by rewrite Ep).
  clearbody ca1. rewrite <- Ep in Hn. rewrite <- Eo, <- Es.
  destruct (ca_channel ca1) as [ch|] eqn:Ech; [|by apply (ingest_loop_spec n)].
  destruct (ca_inv_channel _ Hca1 _ Ech) as (_ & _ & Hcl).
  unfold IsReady. rewrite Hcl. simpl. by apply (ingest_loop_spec n).
Qed.

(** The assembler's loop terminates when its provider runs out of
    frames; it never panics and never reports one of its two critical
    errors, only errors of the provider; the data it forwards is that of one
    whole channel, frames in order from 0 to the one marked last, and the
    frames together are within the size limit of the origin. *)
Theorem ChannelAssembler_NextRawChannel_spec n fuel ca :
  ca_inv ca -> exhausts n (ca_prev ca) -> (n < fuel)%nat ->
  exists ca' r, ChannelAssembler_NextRawChannel fuel ca = Some (ca', r) /\ ca_inv ca'
    /\ ChannelAssembler_Origin ca' = ChannelAssembler_Origin ca
    /\ match r with
       | Ok data => raw_channel_ok
           (MaxRLPBytesPerChannel (ca_spec ca) (l1_Time (ChannelAssembler_Origin ca))) data
       | Err e => exists s, I s /\ (NextFrame s).2 = Err e
       | Panic => False
       end.
Proof. apply Assembler_correct. Qed.

(** ** The mux *)

Definition mux_inv (m : ChannelMux S) : Prop :=
  match mux_stage m with
  | NoStage prev => I prev
  | BankStage cb => bank_inv (I := I) cb
  | AssemblerStage ca => ca_inv ca
  end.

(** Resetting the mux activates the pre-Holocene channel bank whatever
    the origin and whatever stage was active, also at a Holocene origin,
    where only a later [Transform] can bring the assembler back; the reset
    keeps the frame provider and the mux invariant, and transforming right
    after it succeeds. *)
Theorem ChannelMux_Reset_bank (m : ChannelMux S) :
  mux_inv m ->
  exists cb, (ChannelMux_Reset m).1 = {| mux_spec := mux_spec m; mux_stage := BankStage cb |}
    /\ (ChannelMux_Reset m).2 = Err EOF
    /\ cb_prev cb = mux_prev m /\ channels cb = ∅
    /\ mux_inv (ChannelMux_Reset m).1
    /\ ChannelMux_Transform (ChannelMux_Reset m).1 Holocene
       = Ok {| mux_spec := mux_spec m;
               mux_stage := AssemblerStage (NewChannelAssembler (mux_spec m) (mux_prev m)) |}.
Proof.
  intros Hm. assert (I (mux_prev m)) as Hp.
  { unfold mux_inv, mux_prev in *. destruct (mux_stage m); [done|by destruct Hm|by destruct Hm]. }
  unfold ChannelMux_Reset, mux_prev, mux_inv in *.
  destruct (mux_stage m) as [prev|cb|ca]; simpl.
  all: eexists; split_and!; [done|done|done|done| |done].
  all: constructor; simpl; [done|apply bank_ok_empty|done].
Qed.

End Laws.

(** ** Witnesses

    A frame queue over a finite list of batcher transactions runs dry. *)

Definition list_queue (cfg : Config) (o : L1BlockRef) (datas : list bytes) (frames : list Frame)
    : FrameQueue ListData :=
  {| fq_frames := frames; fq_prev := (o, datas); fq_cfg := cfg |}.

Lemma list_queue_load cfg o d datas :
  (exists fq e, FrameQueue_NextFrame (list_queue cfg o (d :: datas) []) = (fq, Err e))
  \/ (exists fq, FrameQueue_NextFrame (list_queue cfg o (d :: datas) []) = (fq, Panic))
  \/ exists f rest, FrameQueue_NextFrame (list_queue cfg o (d :: datas) [])
                    = (list_queue cfg o datas rest, Ok f).
Proof.
  unfold FrameQueue_NextFrame, loadNextFrames, list_queue. simpl.
  destruct (ParseFrames d) as [frames| |]; simpl; [|by left; eauto|by right; left; eauto].
  destruct (IsHolocene _ _); [|destruct frames; simpl; [left; by eauto|right; right; by eauto]].
  destruct (pruneFrameQueue frames) as [fs| |]; simpl; [|by left; eauto|by right; left; eauto].
  destruct fs; simpl; [left; by eauto|right; right; by eauto].
Qed.

Lemma list_queue_exhausts cfg o datas frames :
  exists n, exhausts n (list_queue cfg o datas frames).
Proof.
  revert frames. induction datas as [|d datas IH].
  all: intros frames; induction frames as [|f frames IHf].
  2,4: destruct IHf as [n Hn]; by exists (Datatypes.S n).
  - by exists 0%nat.
  - destruct (list_queue_load cfg o d datas) as [(fq & e & E)|[(fq & E)|(f & rest & E)]].
    + exists 0%nat. simpl. by rewrite E.
    + exists 0%nat. simpl. by rewrite E.
    + destruct (IH rest) as [n Hn]. exists (Datatypes.S n). simpl. by rewrite E.
Qed.

Definition ex_assembler : ChannelAssembler (FrameQueue ListData) :=
  NewChannelAssembler (NewChainSpec example_config) ex_provider.

Lemma ex_assembler_inv : ca_inv (I := fq_inv (I := ListData_ok)) ex_assembler.
Proof. constructor; [apply ex_bank_inv|done]. Qed.

Lemma ChannelAssembler_NextRawChannel_spec_witness :
  ChannelAssembler_NextRawChannel 2 ex_assembler
    = Some (NewChannelAssembler (NewChainSpec example_config)
              (list_queue example_config (example_origin 200) [] []), Ok [3])
  /\ exists ca' r, ChannelAssembler_NextRawChannel 2 ex_assembler = Some (ca', r)
       /\ ca_inv (I := fq_inv (I := ListData_ok)) ca'.
Proof.
  split; [vm_compute; reflexivity|].
  destruct (ChannelAssembler_NextRawChannel_spec (I := fq_inv (I := ListData_ok))
              1 2 ex_assembler) as (ca' & r & H1 & H2 & _).
  - apply ex_assembler_inv.
  - vm_compute. done.
  - lia.
  - by exists ca', r.
Defined.

Definition ex_mux : ChannelMux (FrameQueue ListData) :=
  {| mux_spec := NewChainSpec example_config; mux_stage := AssemblerStage ex_assembler |}.

Lemma ChannelMux_Reset_bank_witness :
  exists cb, (ChannelMux_Reset ex_mux).1
    = {| mux_spec := NewChainSpec example_config; mux_stage := BankStage cb |}.
Proof.
  destruct (ChannelMux_Reset_bank (I := fq_inv (I := ListData_ok)) ex_mux) as (cb & H & _).
  - apply ex_assembler_inv.
  - by exists cb.
Defined.
