(* ===== verification/SpanBatch.v ===== *)
(** * Batches and the span-batch codec

    Models the batch types of [rhs-node/rollup/derive/singular_batch.go],
    [span_batch.go] and [batch.go], and the span-batch bit lists of
    [span_batch_util.go].  The transaction columns of a span batch
    ([span_batch_txs.go]) are reached through the interface [SpanBatchTxs],
    whose laws the file [SpanTxs] proves of the real columns.  A [big.Int] used as a
    bit list is an integer of [Z]; a [bytes.Reader] is the list of the unread
    bytes, and a decoder returns the value with the rest. *)

From S2P Require Import Prelude EthTypes RollupConfig.

Definition SingularBatchType : Z := 0.
Definition SpanBatchType : Z := 1.
Definition MaxSpanBatchElementCount : Z := 10000000.

(** ** Singular batches *)

Record SingularBatch : Type := {
  sb_ParentHash : Hash;
  sb_EpochNum : Z;
  sb_EpochHash : Hash;
  sb_Timestamp : Z;
  sb_Transactions : list bytes }.

#[global] Instance SingularBatch_eq_dec : EqDecision SingularBatch.
Proof. solve_decision. Defined.

Definition Epoch (b : SingularBatch) : BlockID :=
  {| bid_Hash := sb_EpochHash b; bid_Number := sb_EpochNum b |}.

(** ** The transaction columns *)

(** [spanBatchTxs]: the operations the span batch calls. *)
Class SpanBatchTxs (T : Type) := {
  newSpanBatchTxs : list bytes -> Z -> result T;
  AddTxs : T -> list bytes -> Z -> T * result unit;
  txs_encode : T -> result bytes;
  (** with [totalBlockTxCount] set to the first argument *)
  txs_decode : Z -> bytes -> result (T * bytes);
  recoverV : T -> Z -> result T;
  fullTxs : T -> Z -> result (list bytes) }.

(** What the columns promise for the transactions of a chain id that are
    [tx_ok]: columns that hold the transactions [l] are encoded to what decodes
    to columns that hold [l], adding transactions extends [l], and [l] is read
    back once the signatures' recovery ids are restored. *)
Class SpanBatchTxsLaws (T : Type) `{SpanBatchTxs T} (tx_ok : Z -> bytes -> Prop)
    (txs_holds : T -> Z -> list bytes -> Prop) := {
  txs_roundtrip : forall t id l buf r, txs_holds t id l ->
    Z.of_nat (length l) <= MaxSpanBatchElementCount -> txs_encode t = Ok buf ->
    exists t', txs_decode (Z.of_nat (length l)) (buf ++ r) = Ok (t', r) /\ txs_holds t' id l;
  txs_new : forall id, exists t, newSpanBatchTxs [] id = Ok t /\ txs_holds t id [];
  txs_add : forall t id l l', txs_holds t id l -> Forall (tx_ok id) l' ->
    Z.of_nat (length (l ++ l')) < two64 -> (AddTxs t l' id).2 = Ok () -> txs_holds (AddTxs t l' id).1 id (l ++ l');
  txs_read : forall t id l, txs_holds t id l ->
    exists t', recoverV t id = Ok t' /\ fullTxs t' id = Ok l }.

(** ** Bit lists *)

(** [big.Int.BitLen] *)
Definition BitLen (x : Z) : Z := if x =? 0 then 0 else Z.log2 x + 1.

Definition bits_bufLen (bitLength : Z) : Z :=
  bitLength / 8 + (if negb (bitLength mod 8 =? 0) then 1 else 0).

Definition decodeSpanBatchBits (r : bytes) (bitLength : Z) : result (Z * bytes) :=
  let bufLen := bits_bufLen bitLength in
  let* (buf, r) := map_err (Wrap "failed to read bits") (ReadFull (Z.to_nat bufLen) r) in
  let out := be_decode buf in
  if bitLength <? BitLen out then Err (Msg "bitfield has too many bits")
  else Ok (out, r).

(** [bits.FillBytes] panics when the bits do not fit the buffer. *)
Definition encodeSpanBatchBits (bitLength : Z) (bits : Z) : result bytes :=
  if bitLength <? BitLen bits then Err (Msg "bitfield is larger than bitLength")
  else
    let bufLen := bits_bufLen bitLength in
    if bufLen * 8 <? BitLen bits then Panic
    else Ok (be_encode (Z.to_nat bufLen) bits).

(** ** The raw span batch *)

Record spanBatchPrefix : Type := {
  relTimestamp : Z;
  l1OriginNum : Z;
  parentCheck : bytes;
  l1OriginCheck : bytes }.

(** [txs] is a pointer; [None] is nil. *)
Record spanBatchPayload (T : Type) : Type := {
  blockCount : Z;
  originBits : Z;
  blockTxCounts : list Z;
  txs : option T }.
Arguments blockCount {T} _.
Arguments originBits {T} _.
Arguments blockTxCounts {T} _.
Arguments txs {T} _.

Record RawSpanBatch (T : Type) : Type := {
  raw_prefix : spanBatchPrefix;
  raw_payload : spanBatchPayload T }.
Arguments raw_prefix {T} _.
Arguments raw_payload {T} _.

Definition decodeRelTimestamp (r : bytes) : result (Z * bytes) :=
  map_err (Wrap "failed to read rel timestamp") (ReadUvarint r).

Definition decodeL1OriginNum (r : bytes) : result (Z * bytes) :=
  map_err (Wrap "failed to read l1 origin num") (ReadUvarint r).

Definition decodeParentCheck (r : bytes) : result (bytes * bytes) :=
  map_err (Wrap "failed to read parent check") (ReadFull 20 r).

Definition decodeL1OriginCheck (r : bytes) : result (bytes * bytes) :=
  map_err (Wrap "failed to read l1 origin check") (ReadFull 20 r).

Definition decodePrefix (r : bytes) : result (spanBatchPrefix * bytes) :=
  let* (rel, r) := decodeRelTimestamp r in
  let* (num, r) := decodeL1OriginNum r in
  let* (parent, r) := decodeParentCheck r in
  let* (origin, r) := decodeL1OriginCheck r in
  Ok ({| relTimestamp := rel; l1OriginNum := num; parentCheck := parent;
         l1OriginCheck := origin |}, r).

Definition decodeBlockCount (r : bytes) : result (Z * bytes) :=
  let* (count, r) := map_err (Wrap "failed to read block count") (ReadUvarint r) in
  if MaxSpanBatchElementCount <? count then Err ErrTooBigSpanBatchSize
  else if count =? 0 then Err ErrEmptySpanBatch
  else Ok (count, r).

Definition decodeOriginBits (count : Z) (r : bytes) : result (Z * bytes) :=
  if MaxSpanBatchElementCount <? count then Err ErrTooBigSpanBatchSize
  else map_err (Wrap "failed to decode origin bits") (decodeSpanBatchBits r count).

(** The loop over the blocks; [n] blocks are left. *)
Fixpoint decodeBlockTxCounts (n : nat) (r : bytes) : result (list Z * bytes) :=
  match n with
  | O => Ok ([], r)
  | S n' =>
      let* (count, r) := map_err (Wrap "failed to read block tx count") (ReadUvarint r) in
      if MaxSpanBatchElementCount <? count then Err ErrTooBigSpanBatchSize
      else
        let* (counts, r) := decodeBlockTxCounts n' r in
        Ok (count :: counts, r)
  end.

(** [math.SafeAdd] over the counts; [None] on overflow. *)
Fixpoint sum_counts (total : Z) (counts : list Z) : option Z :=
  match counts with
  | [] => Some total
  | c :: t => if two64 <=? total + c then None else sum_counts (total + c) t
  end.

Definition encodePrefix (p : spanBatchPrefix) : bytes :=
  PutUvarint (relTimestamp p) ++ PutUvarint (l1OriginNum p) ++ parentCheck p ++ l1OriginCheck p.

Definition encodeBlockTxCounts (counts : list Z) : bytes := concat (PutUvarint <$> counts).

Section Raw.
Context {T : Type} `{!SpanBatchTxs T}.

Definition decodeTxs (counts : list Z) (r : bytes) : result (T * bytes) :=
  match counts with
  | [] => Err (Msg "failed to read txs: blockTxCounts not set")
  | _ =>
      match sum_counts 0 counts with
      | None => Err ErrTooBigSpanBatchSize
      | Some total =>
          if MaxSpanBatchElementCount <? total then Err ErrTooBigSpanBatchSize
          else txs_decode total r
      end
  end.

Definition decodePayload (r : bytes) : result (spanBatchPayload T * bytes) :=
  let* (count, r) := decodeBlockCount r in
  let* (bits, r) := decodeOriginBits count r in
  let* (counts, r) := decodeBlockTxCounts (Z.to_nat count) r in
  let* (t, r) := decodeTxs counts r in
  Ok ({| blockCount := count; originBits := bits; blockTxCounts := counts; txs := Some t |}, r).

Definition RawSpanBatch_decode (r : bytes) : result (RawSpanBatch T * bytes) :=
  let* (p, r) := map_err (Wrap "failed to decode span batch prefix") (decodePrefix r) in
  let* (q, r) := map_err (Wrap "failed to decode span batch payload") (decodePayload r) in
  Ok ({| raw_prefix := p; raw_payload := q |}, r).

Definition encodeOriginBits (bp : spanBatchPayload T) : result bytes :=
  map_err (Wrap "failed to encode origin bits")
    (encodeSpanBatchBits (blockCount bp) (originBits bp)).

Definition encodeTxs (bp : spanBatchPayload T) : result bytes :=
  match txs bp with
  | None => Err (Msg "cannot write txs: txs not set")
  | Some t => txs_encode t
  end.

Definition encodePayload (bp : spanBatchPayload T) : result bytes :=
  let* bits := encodeOriginBits bp in
  let* t := encodeTxs bp in
  Ok (PutUvarint (blockCount bp) ++ bits ++ encodeBlockTxCounts (blockTxCounts bp) ++ t).

Definition RawSpanBatch_encode (b : RawSpanBatch T) : result bytes :=
  let* payload := encodePayload (raw_payload b) in
  Ok (encodePrefix (raw_prefix b) ++ payload).

End Raw.

(** ** The derived span batch *)

Record SpanBatchElement : Type := {
  el_EpochNum : Z;
  el_Timestamp : Z;
  el_Transactions : list bytes }.

#[global] Instance SpanBatchElement_eq_dec : EqDecision SpanBatchElement.
Proof. solve_decision. Defined.

Definition singularBatchToElement (b : SingularBatch) : SpanBatchElement :=
  {| el_EpochNum := sb_EpochNum b; el_Timestamp := sb_Timestamp b;
     el_Transactions := sb_Transactions b |}.

(** [cache_originBits], [cache_blockTxCounts] and [sbtxs] are the caching
    fields, which only the batcher's side fills: [None] is the nil pointer
    of a batch built by [derive]. *)
Record SpanBatch (T : Type) : Type := {
  ParentCheck : bytes;
  L1OriginCheck : bytes;
  GenesisTimestamp : Z;
  ChainID : Z;
  Batches : list SpanBatchElement;
  cache_originBits : Z;
  cache_blockTxCounts : list Z;
  sbtxs : option T }.
Arguments ParentCheck {T} _.
Arguments L1OriginCheck {T} _.
Arguments GenesisTimestamp {T} _.
Arguments ChainID {T} _.
Arguments Batches {T} _.
Arguments cache_originBits {T} _.
Arguments cache_blockTxCounts {T} _.
Arguments sbtxs {T} _.

(** The descending loop that turns the last origin number and the origin bits
    into one origin number per block: block [i] is the head of the remaining
    [i + 1] blocks counted from the end. *)
Fixpoint origin_nums (bits : Z) (i : nat) (num : Z) : list Z :=
  match i with
  | O => [num]
  | S i' =>
      origin_nums bits i' (if Z.testbit bits (Z.of_nat i) then num -u 1 else num) ++ [num]
  end.

(** The loop that deals the transactions out to the blocks; reading past the
    transactions panics. *)
Fixpoint deal_blocks (i : Z) (counts nums : list Z) (start blockTime : Z) (all : list bytes)
    : result (list SpanBatchElement) :=
  match nums, counts with
  | [], _ => Ok []
  | _ :: _, [] => Panic
  | num :: nums', count :: counts' =>
      if Z.of_nat (length all) <? count then Panic
      else
        let* rest := deal_blocks (i + 1) counts' nums' start blockTime
                       (drop (Z.to_nat count) all) in
        Ok ({| el_EpochNum := num; el_Timestamp := start +u (blockTime *u i);
               el_Transactions := take (Z.to_nat count) all |} :: rest)
  end.

Section Derived.
Context {T : Type} `{!SpanBatchTxs T}.
Implicit Types b : SpanBatch T.

Definition derive (rb : RawSpanBatch T) (blockTime genesisTimestamp chainID : Z)
    : result (SpanBatch T) :=
  let p := raw_prefix rb in
  let q := raw_payload rb in
  if blockCount q =? 0 then Err ErrEmptySpanBatch
  else
    let nums := origin_nums (originBits q) (Z.to_nat (blockCount q) - 1) (l1OriginNum p) in
    let* t := match txs q with Some t => recoverV t chainID | None => Panic end in
    let* all := fullTxs t chainID in
    let* batches := deal_blocks 0 (blockTxCounts q) nums
                      (genesisTimestamp +u relTimestamp p) blockTime all in
    Ok {| ParentCheck := parentCheck p; L1OriginCheck := l1OriginCheck p;
          GenesisTimestamp := 0; ChainID := 0; Batches := batches;
          cache_originBits := 0; cache_blockTxCounts := []; sbtxs := None |}.

Definition ToSpanBatch (rb : RawSpanBatch T) (blockTime genesisTimestamp chainID : Z)
    : result (SpanBatch T) :=
  derive rb blockTime genesisTimestamp chainID.

(** [b.Batches[i]]; out of range panics. *)
Definition element b (i : nat) : result SpanBatchElement :=
  match Batches b !! i with
  | Some e => Ok e
  | None => Panic
  end.

Definition GetTimestamp b : result Z := let* e := element b 0 in Ok (el_Timestamp e).
Definition GetStartEpochNum b : result Z := let* e := element b 0 in Ok (el_EpochNum e).
Definition GetBlockEpochNum b (i : nat) : result Z := let* e := element b i in Ok (el_EpochNum e).
Definition GetBlockTimestamp b (i : nat) : result Z :=
  let* e := element b i in Ok (el_Timestamp e).
Definition GetBlockTransactions b (i : nat) : result (list bytes) :=
  let* e := element b i in Ok (el_Transactions e).
Definition GetBlockCount b : nat := length (Batches b).

Definition CheckOriginHash b (hash : Hash) : bool :=
  bool_decide (L1OriginCheck b = take 20 (hash_bytes hash)).

Definition CheckParentHash b (hash : Hash) : bool :=
  bool_decide (ParentCheck b = take 20 (hash_bytes hash)).

Definition NewSpanBatch (genesisTimestamp chainID : Z) : SpanBatch T :=
  {| ParentCheck := replicate 20 0; L1OriginCheck := replicate 20 0;
     GenesisTimestamp := genesisTimestamp; ChainID := chainID; Batches := [];
     cache_originBits := 0; cache_blockTxCounts := [];
     sbtxs := match newSpanBatchTxs [] chainID with Ok t => Some t | _ => None end |}.

(** [bits.SetBit(bits, i, b)] *)
Definition SetBit (bits : Z) (i : Z) (b : bool) : Z :=
  if b then Z.setbit bits i else Z.clearbit bits i.

(** The batch is updated before the transactions are added, also when adding
    them fails. *)
Definition AppendSingularBatch b (singularBatch : SingularBatch) (seqNum : Z)
    : SpanBatch T * result unit :=
  let unordered := match last (Batches b) with
                   | Some e => sb_Timestamp singularBatch <? el_Timestamp e
                   | None => false
                   end in
  if unordered then (b, Panic)
  else
    let el := singularBatchToElement singularBatch in
    let epochBit := match last (Batches b) with
                    | None => seqNum =? 0
                    | Some prev => el_EpochNum prev <? el_EpochNum el
                    end in
    let parent := match Batches b with
                  | [] => take 20 (hash_bytes (sb_ParentHash singularBatch))
                  | _ => ParentCheck b
                  end in
    let '(cols, r) := match sbtxs b with
                      | None => (None, Panic)
                      | Some t => let (t, r) := AddTxs t (el_Transactions el) (ChainID b) in
                                  (Some t, r)
                      end in
    ({| ParentCheck := parent;
        L1OriginCheck := take 20 (hash_bytes (sb_EpochHash singularBatch));
        GenesisTimestamp := GenesisTimestamp b; ChainID := ChainID b;
        Batches := Batches b ++ [el];
        cache_originBits :=
          SetBit (cache_originBits b) (Z.of_nat (length (Batches b))) epochBit;
        cache_blockTxCounts :=
          cache_blockTxCounts b ++ [Z.of_nat (length (el_Transactions el))];
        sbtxs := cols |}, r).

Definition ToRawSpanBatch b : result (RawSpanBatch T) :=
  match Batches b, last (Batches b) with
  | span_start :: _, Some span_end =>
      Ok {| raw_prefix :=
              {| relTimestamp := el_Timestamp span_start -u GenesisTimestamp b;
                 l1OriginNum := el_EpochNum span_end;
                 parentCheck := ParentCheck b; l1OriginCheck := L1OriginCheck b |};
            raw_payload :=
              {| blockCount := Z.of_nat (length (Batches b));
                 originBits := cache_originBits b;
                 blockTxCounts := cache_blockTxCounts b; txs := sbtxs b |} |}
  | _, _ => Err (Msg "cannot merge empty singularBatch list")
  end.

(** The first index from [i] on whose block has the number. *)
Fixpoint find_origin (l1 : list L1BlockRef) (i : nat) (num : Z) : option (nat * L1BlockRef) :=
  match l1 with
  | [] => None
  | o :: t =>
      match i with
      | S i' => option_map (fun '(j, o) => (S j, o)) (find_origin t i' num)
      | O => if l1_Number o =? num then Some (0%nat, o)
             else option_map (fun '(j, o) => (S j, o)) (find_origin t 0 num)
      end
  end.

Fixpoint singular_loop (l1Origins : list L1BlockRef) (safeTime : Z) (originIdx : nat)
    (els : list SpanBatchElement) : result (list SingularBatch) :=
  match els with
  | [] => Ok []
  | batch :: rest =>
      if el_Timestamp batch <=? safeTime then singular_loop l1Origins safeTime originIdx rest
      else match find_origin l1Origins originIdx (el_EpochNum batch) with
           | None => Err (Msg "unable to find L1 origin for the epoch number")
           | Some (i, o) =>
               let* l := singular_loop l1Origins safeTime i rest in
               Ok ({| sb_ParentHash := zero_hash; sb_EpochNum := el_EpochNum batch;
                      sb_EpochHash := l1_Hash o; sb_Timestamp := el_Timestamp batch;
                      sb_Transactions := el_Transactions batch |} :: l)
           end
  end.

Definition GetSingularBatches b (l1Origins : list L1BlockRef) (l2SafeHead : L2BlockRef)
    : result (list SingularBatch) :=
  singular_loop l1Origins (l2_Time l2SafeHead) 0 (Batches b).

End Derived.

(** ** Typed batches *)

(** [SingularBatch] is coded with RLP, a library: the interface is its
    encoder and its decoder on a reader, which may leave bytes unread. *)
Class SingularRLP := {
  rlp_encode_singular : SingularBatch -> bytes;
  rlp_decode_singular : bytes -> result SingularBatch }.

Inductive InnerBatchData (T : Type) : Type :=
  | InnerSingular (b : SingularBatch)
  | InnerSpan (b : RawSpanBatch T).
Arguments InnerSingular {T} b.
Arguments InnerSpan {T} b.

Section Typed.
Context {T : Type} `{!SpanBatchTxs T} `{!SingularRLP}.

Definition GetBatchType (d : InnerBatchData T) : Z :=
  match d with
  | InnerSingular _ => SingularBatchType
  | InnerSpan _ => SpanBatchType
  end.

Definition encodeTyped (d : InnerBatchData T) : result bytes :=
  let* inner := match d with
                | InnerSingular b => Ok (rlp_encode_singular b)
                | InnerSpan b => RawSpanBatch_encode b
                end in
  Ok (GetBatchType d :: inner).

Definition decodeTyped (data : bytes) : result (InnerBatchData T) :=
  match data with
  | [] => Err (Msg "batch too short")
  | typ :: rest =>
      if typ =? SingularBatchType then
        let* b := rlp_decode_singular rest in Ok (InnerSingular b)
      else if typ =? SpanBatchType then
        let* (b, _) := RawSpanBatch_decode rest in Ok (InnerSpan b)
      else Err (Msg "unrecognized batch type")
  end.

Definition GetSingularBatch (d : InnerBatchData T) : result SingularBatch :=
  match d with
  | InnerSingular b => Ok b
  | InnerSpan _ => Err (Leveled LevelCritical (Msg "failed type assertion to SingularBatch"))
  end.

Definition DeriveSpanBatch (d : InnerBatchData T) (blockTime genesisTimestamp chainID : Z)
    : result (SpanBatch T) :=
  match d with
  | InnerSpan rb => ToSpanBatch rb blockTime genesisTimestamp chainID
  | InnerSingular _ => Err (Leveled LevelCritical (Msg "failed type assertion to SpanBatch"))
  end.

End Typed.

(** ** Bit lists round trip *)

Lemma BitLen_le x n : 0 <= x -> 0 <= n -> BitLen x <= n <-> x < 2 ^ n.
Proof.
  intros Hx Hn. unfold BitLen. destruct (Z.eqb_spec x 0) as [->|].
  { split; [intros _; by apply Z.pow_pos_nonneg|done]. }
  rewrite (Z.log2_lt_pow2 x n) by lia. lia.
Qed.

Lemma bits_bufLen_bound n : 0 <= n -> 0 <= bits_bufLen n /\ n <= bits_bufLen n * 8.
Proof.
  intros Hn. unfold bits_bufLen. destruct (Z.eqb_spec (n mod 8) 0); simpl;
    Z.div_mod_to_equations; lia.
Qed.

Lemma pow_256_bits k : 0 <= k -> 256 ^ k = 2 ^ (k * 8).
Proof. intros. change 256 with (2 ^ 8). rewrite <- Z.pow_mul_r by lia. f_equal. lia. Qed.

Lemma bits_fit n bits : 0 <= n -> 0 <= bits < 2 ^ n ->
  0 <= bits < 256 ^ Z.of_nat (Z.to_nat (bits_bufLen n)).
Proof.
  intros Hn Hb. destruct (bits_bufLen_bound n Hn). rewrite Z2Nat.id, pow_256_bits by done.
  split; [lia|]. eapply Z.lt_le_trans; [apply Hb|]. apply Z.pow_le_mono_r; lia.
Qed.

Lemma encodeBits_Ok n bits : 0 <= n -> 0 <= bits < 2 ^ n ->
  encodeSpanBatchBits n bits = Ok (be_encode (Z.to_nat (bits_bufLen n)) bits).
Proof.
  intros Hn Hb. unfold encodeSpanBatchBits. destruct (bits_bufLen_bound n Hn).
  assert (BitLen bits <= n) by (apply BitLen_le; lia).
  rewrite (proj2 (Z.ltb_ge _ _)) by lia. by rewrite (proj2 (Z.ltb_ge _ _)) by lia.
Qed.

Lemma decodeBits_encode n bits r : 0 <= n -> 0 <= bits < 2 ^ n ->
  decodeSpanBatchBits (be_encode (Z.to_nat (bits_bufLen n)) bits ++ r) n = Ok (bits, r).
Proof.
  intros Hn Hb. unfold decodeSpanBatchBits.
  rewrite ReadFull_app by apply length_be_encode. cbn [rbind map_err].
  rewrite be_decode_encode, Z.mod_small by by apply bits_fit.
  rewrite (proj2 (Z.ltb_ge _ _)); [done|]. apply BitLen_le; lia.
Qed.

Lemma decodeBits_Ok n r bits r' : 0 <= n -> is_bytes r ->
  decodeSpanBatchBits r n = Ok (bits, r') ->
  0 <= bits < 2 ^ n /\ r = be_encode (Z.to_nat (bits_bufLen n)) bits ++ r'.
Proof.
  intros Hn Hr. unfold decodeSpanBatchBits.
  intros ([buf r1] & H1%map_err_Ok & H2)%rbind_Ok. apply ReadFull_Ok in H1 as [-> Hlen].
  apply Forall_app in Hr as [Hbuf _]. pose proof (be_decode_bound _ Hbuf).
  destruct (Z.ltb_spec n (BitLen (be_decode buf))) as [|Hle]; [done|].
  injection H2 as <- <-. apply BitLen_le in Hle; [|lia|lia].
  split; [lia|]. rewrite <- Hlen. by rewrite be_encode_decode.
Qed.

(** a span-batch bit list of [n] bits is written exactly when it has no
    bit beyond the [n]-th, in the padded big-endian form of
    [ceil(n/8)] bytes; decoding gives the bits back with the rest of the
    input, and whatever decodes is that encoding, so the form is
    canonical. *)
Theorem span_bits_roundtrip n bits :
  0 <= n -> 0 <= bits ->
  (bits < 2 ^ n -> exists buf, encodeSpanBatchBits n bits = Ok buf
     /\ Z.of_nat (length buf) = (n + 7) / 8
     /\ forall r, decodeSpanBatchBits (buf ++ r) n = Ok (bits, r))
  /\ (2 ^ n <= bits -> exists e, encodeSpanBatchBits n bits = Err e)
  /\ (forall r r', is_bytes r -> decodeSpanBatchBits r n = Ok (bits, r') ->
       exists buf, encodeSpanBatchBits n bits = Ok buf /\ r = buf ++ r').
Proof.
  intros Hn Hb. split_and!.
  - intros Hlt. eexists. split; [by apply encodeBits_Ok|]. split.
    + rewrite length_be_encode, Z2Nat.id by by apply bits_bufLen_bound.
      unfold bits_bufLen. destruct (Z.eqb_spec (n mod 8) 0); simpl;
        Z.div_mod_to_equations; lia.
    + intros r. by apply decodeBits_encode.
  - intros Hge. unfold encodeSpanBatchBits.
    rewrite (proj2 (Z.ltb_lt _ _)); [by eexists|].
    apply Z.nle_gt. rewrite BitLen_le by done. lia.
  - intros r r' Hr Hd. apply decodeBits_Ok in Hd as [Hlt ->]; [|done|done].
    eexists. split; [by apply encodeBits_Ok|done].
Qed.

Lemma span_bits_roundtrip_witness :
  exists buf, encodeSpanBatchBits 10 517 = Ok buf /\ Z.of_nat (length buf) = 17 / 8
    /\ forall r, decodeSpanBatchBits (buf ++ r) 10 = Ok (517, r).
Proof. apply (span_bits_roundtrip 10 517); lia. Defined.

(** ** The raw span batch round trip *)

Lemma sum_counts_Some total counts :
  0 <= total -> Forall (fun c => 0 <= c) counts -> total + foldr Z.add 0 counts < two64 ->
  sum_counts total counts = Some (total + foldr Z.add 0 counts).
Proof.
  revert total. induction counts as [|c counts IH]; intros total Ht Hc Hs; simpl in *.
  { f_equal. lia. }
  apply Forall_cons in Hc as [Hc Hcs].
  assert (0 <= foldr Z.add 0 counts) by (clear -Hcs; induction Hcs; simpl; lia).
  rewrite (proj2 (Z.leb_gt _ _)) by lia. rewrite IH; [f_equal; lia|lia|done|lia].
Qed.

Lemma decodeCounts_encode counts r :
  Forall (fun c => 0 <= c <= MaxSpanBatchElementCount) counts ->
  decodeBlockTxCounts (length counts) (encodeBlockTxCounts counts ++ r) = Ok (counts, r).
Proof.
  unfold encodeBlockTxCounts. induction 1 as [|c counts Hc _ IH]; [done|].
  change (concat (PutUvarint <$> c :: counts))
    with (PutUvarint c ++ concat (PutUvarint <$> counts)).
  cbn [length decodeBlockTxCounts].
  unfold MaxSpanBatchElementCount in *.
  rewrite <- app_assoc, ReadUvarint_Put by (unfold is_u64, two64; lia). cbn [rbind map_err].
  rewrite (proj2 (Z.ltb_ge _ _)) by lia. by rewrite IH.
Qed.

Section RawRoundtrip.
Context {T : Type} `{!SpanBatchTxs T} {tx_ok : Z -> bytes -> Prop}
  {holds : T -> Z -> list bytes -> Prop} `{!SpanBatchTxsLaws T tx_ok holds}.

(** The values a raw span batch has when it was built or decoded. *)
Record raw_wf (b : RawSpanBatch T) : Prop := {
  rw_rel : is_u64 (relTimestamp (raw_prefix b));
  rw_num : is_u64 (l1OriginNum (raw_prefix b));
  rw_parent : length (parentCheck (raw_prefix b)) = 20%nat;
  rw_origin : length (l1OriginCheck (raw_prefix b)) = 20%nat;
  rw_count : blockCount (raw_payload b) = Z.of_nat (length (blockTxCounts (raw_payload b)));
  rw_count_range : 1 <= blockCount (raw_payload b) <= MaxSpanBatchElementCount;
  rw_bits : 0 <= originBits (raw_payload b) < 2 ^ blockCount (raw_payload b);
  rw_counts : Forall (fun c => 0 <= c <= MaxSpanBatchElementCount)
                (blockTxCounts (raw_payload b));
  rw_total : foldr Z.add 0 (blockTxCounts (raw_payload b)) <= MaxSpanBatchElementCount }.

Lemma decodePrefix_encode p r :
  is_u64 (relTimestamp p) -> is_u64 (l1OriginNum p) ->
  length (parentCheck p) = 20%nat -> length (l1OriginCheck p) = 20%nat ->
  decodePrefix (encodePrefix p ++ r) = Ok (p, r).
Proof.
  intros H1 H2 H3 H4. unfold decodePrefix, encodePrefix, decodeRelTimestamp, decodeL1OriginNum,
    decodeParentCheck, decodeL1OriginCheck.
  rewrite <- !app_assoc, ReadUvarint_Put by done. cbn [rbind map_err].
  rewrite ReadUvarint_Put by done. cbn [rbind map_err].
  rewrite ReadFull_app by done. cbn [rbind map_err].
  rewrite ReadFull_app by done. cbn [rbind map_err]. by destruct p.
Qed.

(** The batch with other columns. *)
Definition with_txs (b : RawSpanBatch T) (t : T) : RawSpanBatch T :=
  {| raw_prefix := raw_prefix b;
     raw_payload := {| blockCount := blockCount (raw_payload b);
                       originBits := originBits (raw_payload b);
                       blockTxCounts := blockTxCounts (raw_payload b); txs := Some t |} |}.

(** The columns of the batch hold the transactions. *)
Definition batch_holds (id : Z) (b : RawSpanBatch T) (l : list bytes) : Prop :=
  exists t, txs (raw_payload b) = Some t /\ holds t id l
    /\ Z.of_nat (length l) = foldr Z.add 0 (blockTxCounts (raw_payload b)).

Lemma decodePayload_encode id b l buf r : raw_wf b -> batch_holds id b l ->
  encodePayload (raw_payload b) = Ok buf ->
  exists t', decodePayload (buf ++ r) = Ok (raw_payload (with_txs b t'), r) /\ holds t' id l.
Proof.
  intros [_ _ _ _ Hc Hr Hb Hcs Ht] (t & Et & Hl & Hlen).
  destruct b as [p q]; simpl in *. unfold encodePayload, encodeOriginBits, encodeTxs.
  rewrite encodeBits_Ok, Et by lia. cbn [rbind map_err].
  intros (tb & Htb & [= <-])%rbind_Ok. unfold MaxSpanBatchElementCount in *.
  unfold decodePayload, decodeBlockCount, decodeOriginBits, decodeTxs, MaxSpanBatchElementCount.
  rewrite <- !app_assoc, ReadUvarint_Put by (unfold is_u64, two64; lia). cbn [rbind map_err].
  rewrite (proj2 (Z.ltb_ge _ _)), (proj2 (Z.eqb_neq _ _)) by lia. cbn [rbind map_err].
  rewrite (proj2 (Z.ltb_ge _ _)) by lia.
  rewrite decodeBits_encode by lia. cbn [rbind map_err].
  replace (Z.to_nat (blockCount q)) with (length (blockTxCounts q)) by lia.
  rewrite decodeCounts_encode by done. cbn [rbind map_err].
  assert (Forall (fun c => 0 <= c) (blockTxCounts q)) as Hpos.
  { eapply Forall_impl; [done|]. simpl. lia. }
  rewrite sum_counts_Some; [|lia|done|unfold two64; lia]. rewrite Z.add_0_l.
  destruct (blockTxCounts q) as [|c cs] eqn:Ec; [simpl in Hc; lia|]. rewrite <- Ec in *.
  rewrite (proj2 (Z.ltb_ge _ _)) by lia. rewrite <- Hlen.
  destruct (txs_roundtrip t id l tb r) as (t' & Hd & Hh');
    [done|unfold MaxSpanBatchElementCount; lia|done|].
  rewrite Hd. cbn [rbind map_err]. by exists t'.
Qed.

Lemma RawSpanBatch_decode_encode id b l buf r :
  raw_wf b -> batch_holds id b l -> RawSpanBatch_encode b = Ok buf ->
  exists t', RawSpanBatch_decode (buf ++ r) = Ok (with_txs b t', r)
    /\ batch_holds id (with_txs b t') l.
Proof.
  intros Hb Hh. unfold RawSpanBatch_encode. intros (q & Hq & [= <-])%rbind_Ok.
  destruct (decodePayload_encode id b l q r) as (t' & Hd & Hh'); [done|done|done|].
  exists t'. unfold RawSpanBatch_decode. rewrite <- app_assoc.
  rewrite decodePrefix_encode by apply Hb. cbn [rbind map_err].
  rewrite Hd. cbn [rbind map_err]. split; [done|].
  exists t'. split_and!; [done|done|]. by destruct Hh as (t & _ & _ & Hlen).
Qed.

(** C7: decoding the encoding of a well-formed raw span batch gives the batch
    back, field by field, with columns that hold the same transactions, and
    leaves the rest of the input unread, for any transaction columns that keep
    the promises of [SpanBatchTxsLaws]. *)
Theorem RawSpanBatch_roundtrip id b l buf r :
  raw_wf b -> batch_holds id b l -> RawSpanBatch_encode b = Ok buf ->
  exists t', RawSpanBatch_decode (buf ++ r) = Ok (with_txs b t', r)
    /\ batch_holds id (with_txs b t') l.
Proof. apply RawSpanBatch_decode_encode. Qed.

End RawRoundtrip.

(** ** Building a span batch and deriving it back *)

Fixpoint AppendAll {T} `{!SpanBatchTxs T} (b : SpanBatch T) (l : list (SingularBatch * Z))
    : SpanBatch T * result unit :=
  match l with
  | [] => (b, Ok ())
  | (s, seqNum) :: t =>
      match AppendSingularBatch b s seqNum with
      | (b', Ok _) => AppendAll b' t
      | failed => failed
      end
  end.

(** The epochs stay or advance by one from block to block. *)
Definition epoch_step (e e' : Z) : Prop := e' = e \/ e' = e + 1.

(** The origin bits of the epochs: bit [i > 0] is set iff block [i] advances. *)
Definition bits_of (bits : Z) (es : list Z) : Prop :=
  forall i e e', es !! i = Some e -> es !! S i = Some e' ->
    Z.testbit bits (Z.of_nat (S i)) = (e <? e').

Lemma origin_nums_spec bits es : forall e,
  adjacent epoch_step (es ++ [e]) -> Forall is_u64 (es ++ [e]) -> bits_of bits (es ++ [e]) ->
  origin_nums bits (length es) e = es ++ [e].
Proof.
  induction es as [|e' es IH] using rev_ind; intros e Hs Hu Hb; [done|].
  rewrite length_app. simpl length. rewrite Nat.add_1_r. cbn [origin_nums].
  apply adjacent_app in Hs as (Hs & _ & Hstep). specialize (Hstep e' e).
  rewrite last_snoc in Hstep. specialize (Hstep eq_refl eq_refl).
  assert (Z.testbit bits (Z.of_nat (S (length es))) = (e' <? e)) as ->.
  { rewrite <- app_assoc in Hb. apply Hb.
    - rewrite lookup_app_r, Nat.sub_diag by lia. done.
    - rewrite lookup_app_r by lia. by replace (S (length es) - length es)%nat with 1%nat by lia. }
  apply Forall_app in Hu as [Hu Hue]. rewrite Forall_singleton in Hue.
  assert ((if e' <? e then e -u 1 else e) = e') as ->.
  { apply Forall_app in Hu as [_ Hu]. rewrite Forall_singleton in Hu. unfold is_u64 in *.
    destruct Hstep as [->| ->]; [by rewrite Z.ltb_irrefl|].
    rewrite (proj2 (Z.ltb_lt _ _)) by lia. rewrite u64_small; [lia|]. unfold is_u64. lia. }
  rewrite IH; [done|done|done|].
  intros i a c Ha Hc. apply Hb; by apply lookup_app_l_Some.
Qed.

Lemma deal_blocks_spec start bt els : forall i,
  (forall k el, els !! k = Some el -> el_Timestamp el = start +u (bt *u (i + Z.of_nat k))) ->
  deal_blocks i ((fun el => Z.of_nat (length (el_Transactions el))) <$> els)
    (el_EpochNum <$> els) start bt (concat (el_Transactions <$> els)) = Ok els.
Proof.
  induction els as [|el els IH]; intros i Ht; [done|].
  rewrite !fmap_cons. cbn [concat deal_blocks].
  rewrite length_app, (proj2 (Z.ltb_ge _ _)) by lia.
  rewrite Nat2Z.id, drop_app_length, take_app_length, IH.
  - simpl. specialize (Ht 0%nat el eq_refl). rewrite Z.add_0_r in Ht. rewrite <- Ht.
    by destruct el.
  - intros k el' Hk. specialize (Ht (S k) el' Hk).
    by replace (i + 1 + Z.of_nat k) with (i + Z.of_nat (S k)) by lia.
Qed.

Lemma SetBit_testbit bits i b j : 0 <= i -> 0 <= j ->
  Z.testbit (SetBit bits i b) j = if j =? i then b else Z.testbit bits j.
Proof.
  intros Hi Hj. unfold SetBit. destruct b; destruct (Z.eqb_spec j i) as [->|].
  - by apply Z.setbit_eq.
  - apply Z.setbit_neq; lia.
  - by apply Z.clearbit_eq.
  - apply Z.clearbit_neq; lia.
Qed.

Lemma SetBit_bound bits n b : 0 <= n -> 0 <= bits < 2 ^ n -> 0 <= SetBit bits n b < 2 ^ (n + 1).
Proof.
  intros Hn Hb. rewrite Z.pow_add_r by lia. unfold SetBit. destruct b.
  - unfold Z.setbit. rewrite Z.shiftl_1_l.
    rewrite <- (Z.mul_1_l (2 ^ n)), lor_disjoint_add by lia. lia.
  - assert (Z.clearbit bits n = bits) as ->; [|lia].
    apply Z.bits_inj'. intros m Hm. rewrite Z.clearbit_eqb.
    destruct (Z.eqb_spec n m) as [<-|]; [|by rewrite andb_true_r].
    rewrite andb_false_r. symmetry.
    rewrite <- (Z.mod_small bits (2 ^ n)) by lia. apply Z.mod_pow2_bits_high. lia.
Qed.

Section Build.
Context {T : Type} `{!SpanBatchTxs T} {tx_ok : Z -> bytes -> Prop}
  {holds : T -> Z -> list bytes -> Prop} `{!SpanBatchTxsLaws T tx_ok holds}.
Context (genesis chainID : Z).

(** The span batch after the singular batches [l] were appended. *)
Record built (l : list SingularBatch) (b : SpanBatch T) : Prop := {
  bu_genesis : GenesisTimestamp b = genesis;
  bu_chain : ChainID b = chainID;
  bu_batches : Batches b = singularBatchToElement <$> l;
  bu_range : 0 <= cache_originBits b < 2 ^ Z.of_nat (length l);
  bu_bits : bits_of (cache_originBits b) (sb_EpochNum <$> l);
  bu_counts : cache_blockTxCounts b
              = (fun s => Z.of_nat (length (sb_Transactions s))) <$> l;
  bu_txs : exists t, sbtxs b = Some t /\ holds t chainID (concat (sb_Transactions <$> l));
  bu_parent : forall s, head l = Some s -> ParentCheck b = take 20 (hash_bytes (sb_ParentHash s));
  bu_origin : forall s, last l = Some s ->
    L1OriginCheck b = take 20 (hash_bytes (sb_EpochHash s)) }.

Lemma built_new : built [] (NewSpanBatch genesis chainID).
Proof.
  destruct (txs_new chainID) as (t & Ht & Hh).
  constructor; simpl; try done. rewrite Ht. by exists t.
Qed.

Lemma bits_of_snoc bits l e b :
  0 <= bits < 2 ^ Z.of_nat (length l) -> bits_of bits l ->
  (forall e', last l = Some e' -> b = (e' <? e)) ->
  bits_of (SetBit bits (Z.of_nat (length l)) b) (l ++ [e]).
Proof.
  intros Hr Hb Hl i a c Ha Hc. rewrite SetBit_testbit by lia.
  apply lookup_lt_Some in Hc as Hlt. rewrite length_app in Hlt. simpl in Hlt.
  destruct (Z.eqb_spec (Z.of_nat (S i)) (Z.of_nat (length l))) as [E|E].
  - rewrite lookup_app_r in Hc by lia.
    replace (S i - length l)%nat with 0%nat in Hc by lia. injection Hc as <-.
    apply Hl. rewrite lookup_app_l in Ha by lia. rewrite last_lookup.
    by replace (pred (length l)) with i by lia.
  - rewrite lookup_app_l in Ha, Hc by lia. by apply Hb.
Qed.

Lemma built_append l b s seqNum b' : built l b -> Forall (tx_ok chainID) (sb_Transactions s) ->
  Z.of_nat (length (concat (sb_Transactions <$> l) ++ sb_Transactions s)) < two64 ->
  AppendSingularBatch b s seqNum = (b', Ok ()) -> built (l ++ [s]) b'.
Proof.
  intros [Hg Hc Hb Hr Hbits Hcnt (t & Ht & Hh) Hp Ho] Hok Hsz. unfold AppendSingularBatch.
  destruct (match last (Batches b) with Some _ => _ | None => _ end) eqn:Eun; [done|].
  rewrite Ht. rewrite Hc. destruct (AddTxs t _ chainID) as [t' r] eqn:Ea. intros [= <- ->].
  assert (length (Batches b) = length l) as Hlen by (rewrite Hb; apply length_fmap).
  constructor; simpl; try done.
  - by rewrite Hb, fmap_app.
  - rewrite Hlen, length_app. simpl.
    replace (Z.of_nat (length l + 1)) with (Z.of_nat (length l) + 1) by lia.
    apply SetBit_bound; [lia|done].
  - rewrite fmap_app, Hlen.
    replace (length l) with (length (sb_EpochNum <$> l)) by apply length_fmap.
    apply bits_of_snoc; [by rewrite length_fmap|done|].
    intros e'. rewrite fmap_last, Hb, fmap_last. destruct (last l); simpl; [|done].
    by intros [= <-].
  - by rewrite Hcnt, fmap_app.
  - exists t'. split; [done|]. rewrite fmap_app, concat_app. simpl. rewrite app_nil_r.
    pose proof (txs_add t chainID (concat (sb_Transactions <$> l)) (sb_Transactions s) Hh Hok Hsz) as H.
    simpl in Ea. rewrite Ea in H. by apply H.
  - intros s' Hs'. rewrite Hb. destruct l as [|s0 l]; simpl in *.
    + by injection Hs' as <-.
    + by apply Hp.
  - intros s'. rewrite last_snoc. by intros [= <-].
Qed.

Lemma built_all l l0 b b' : built l0 b ->
  Forall (fun s => Forall (tx_ok chainID) (sb_Transactions s)) l.*1 ->
  Z.of_nat (length (concat (sb_Transactions <$> (l0 ++ l.*1)))) < two64 ->
  AppendAll b l = (b', Ok ()) -> built (l0 ++ l.*1) b'.
Proof.
  revert l0 b. induction l as [|[s q] l IH]; intros l0 b Hb Hok Hsz; simpl.
  { intros [= <-]. by rewrite app_nil_r. }
  rewrite fmap_cons, Forall_cons in Hok. destruct Hok as [Hs Hok].
  destruct (AppendSingularBatch b s q) as [b1 [[]| |]] eqn:E; [|done|done].
  intros Hrun. apply (built_append l0) in E; [|done|done|].
  2:{ rewrite fmap_app, concat_app, length_app in Hsz. rewrite length_app.
      simpl in Hsz. rewrite length_app in Hsz. lia. }
  apply (IH (l0 ++ [s])) in Hrun; [|done|done|by rewrite <- app_assoc]. by rewrite <- app_assoc in Hrun.
Qed.

(** The blocks of a span: one block time apart, epochs in steps. *)
Record span_ok (blockTime : Z) (l : list SingularBatch) : Prop := {
  sp_nonempty : l <> [];
  sp_time : forall i s s0, l !! i = Some s -> head l = Some s0 ->
    sb_Timestamp s = sb_Timestamp s0 + Z.of_nat i * blockTime /\ is_u64 (sb_Timestamp s);
  sp_size : Z.of_nat (length (concat (sb_Transactions <$> l))) < two64;
  sp_epoch : Forall is_u64 (sb_EpochNum <$> l);
  sp_steps : adjacent epoch_step (sb_EpochNum <$> l) }.

Lemma last_split {A} (l : list A) x : last l = Some x -> exists l', l = l' ++ [x].
Proof.
  intros H. destruct l as [|y l _] using rev_ind; [done|].
  rewrite last_snoc in H. injection H as ->. by exists l.
Qed.

Lemma built_nums l b s1 : built l b -> last l = Some s1 ->
  Forall is_u64 (sb_EpochNum <$> l) -> adjacent epoch_step (sb_EpochNum <$> l) ->
  origin_nums (cache_originBits b) (length (Batches b) - 1) (sb_EpochNum s1)
  = sb_EpochNum <$> l.
Proof.
  intros Hb [es ->]%last_split Hep Hst. rewrite (bu_batches _ _ Hb), length_fmap, length_app.
  pose proof (bu_bits _ _ Hb) as Hbits. rewrite fmap_app in *. simpl length.
  replace (length es + 1 - 1)%nat with (length (sb_EpochNum <$> es)) by (rewrite length_fmap; lia).
  by apply origin_nums_spec.
Qed.

Lemma built_derive blockTime l b : built l b -> span_ok blockTime l ->
  exists rb sb s0 s1, ToRawSpanBatch b = Ok rb /\ derive rb blockTime genesis chainID = Ok sb
    /\ head l = Some s0 /\ last l = Some s1
    /\ Batches sb = singularBatchToElement <$> l
    /\ ParentCheck sb = take 20 (hash_bytes (sb_ParentHash s0))
    /\ L1OriginCheck sb = take 20 (hash_bytes (sb_EpochHash s1)).
Proof.
  intros Hbu [Hne Htime _ Hep Hst].
  destruct (last l) as [s1|] eqn:Els; [|by apply last_None in Els].
  pose proof (built_nums l b s1 Hbu Els Hep Hst) as Hnums.
  destruct Hbu as [Hg Hc Hb Hr Hbits Hcnt (t & Ht & Hh) Hp Ho].
  destruct (head l) as [s0|] eqn:Ehd; [|by destruct l].
  pose proof (Htime 0%nat s0 s0) as H0. rewrite <- head_lookup in H0.
  destruct (H0 Ehd eq_refl) as [_ Hu0].
  assert (genesis +u (sb_Timestamp s0 -u genesis) = sb_Timestamp s0) as Hst0
    by (clear -Hu0; u64_solve).
  destruct (txs_read t chainID _ Hh) as (t' & Hrec & Hfull).
  assert (exists els, Batches b = singularBatchToElement s0 :: els) as [els Eb].
  { destruct l; [done|]. injection Ehd as ->. rewrite Hb. by eexists. }
  unfold ToRawSpanBatch. rewrite Hb, fmap_last, Els, <- Hb, Eb. simpl fmap. cbn iota.
  rewrite <- Eb. eexists _, _, s0, s1. split; [reflexivity|]. unfold derive. simpl.
  destruct (Z.eqb_spec (Z.of_nat (length (Batches b))) 0) as [E|_];
    [rewrite Eb in E; simpl in E; lia|].
  rewrite Nat2Z.id, Hnums, Ht, Hrec, Hg, Hst0, Hcnt. simpl. rewrite Hfull. simpl.
  assert (deal_blocks 0 ((fun s => Z.of_nat (length (sb_Transactions s))) <$> l)
            (sb_EpochNum <$> l) (sb_Timestamp s0) blockTime (concat (sb_Transactions <$> l))
          = Ok (singularBatchToElement <$> l)) as ->.
  { pose proof (deal_blocks_spec (sb_Timestamp s0) blockTime (singularBatchToElement <$> l) 0) as Hd.
    rewrite <- !list_fmap_compose in Hd. apply Hd.
    intros k el. rewrite list_lookup_fmap. destruct (l !! k) as [s|] eqn:Ek; [|done].
    intros [= <-]. simpl. destruct (Htime k s s0 Ek eq_refl) as [Et Hu].
    rewrite (Z.mul_comm blockTime). clear -Et Hu. u64_solve. }
  simpl. split_and!; try done; simpl; [by apply Hp|by apply Ho].
Qed.

(** The batcher's and the verifier's views of a span batch agree: after
    appending singular batches one block time apart, with transactions the
    columns accept and epochs that stay or advance by one, converting to the
    raw form and deriving gives back exactly their epochs, timestamps and
    transactions, with the checks taken from the first parent hash and the
    last epoch hash. *)
Theorem append_derive_roundtrip blockTime l b :
  span_ok blockTime l.*1 ->
  Forall (fun s => Forall (tx_ok chainID) (sb_Transactions s)) l.*1 ->
  AppendAll (NewSpanBatch genesis chainID) l = (b, Ok ()) ->
  exists rb sb s0 s1, ToRawSpanBatch b = Ok rb /\ derive rb blockTime genesis chainID = Ok sb
    /\ head l.*1 = Some s0 /\ last l.*1 = Some s1
    /\ Batches sb = singularBatchToElement <$> l.*1
    /\ ParentCheck sb = take 20 (hash_bytes (sb_ParentHash s0))
    /\ L1OriginCheck sb = take 20 (hash_bytes (sb_EpochHash s1)).
Proof.
  intros Hs Hok Hrun. apply built_derive; [|done].
  apply (built_all l [] _ _ built_new) in Hrun; [done|done|apply Hs].
Qed.

End Build.

(** ** From span batches to singular batches *)

Lemma find_origin_Some l1 : forall i num j o, find_origin l1 i num = Some (j, o) ->
  (i <= j)%nat /\ l1 !! j = Some o /\ l1_Number o = num.
Proof.
  induction l1 as [|o' l1 IH]; intros i num j o; simpl; [done|].
  destruct i as [|i].
  - destruct (Z.eqb_spec (l1_Number o') num) as [E|E].
    { intros [= <- <-]. split_and!; [lia|done|done]. }
    destruct (find_origin l1 0 num) as [[j' o'']|] eqn:Ef; simpl; [|done].
    intros [= <- <-]. apply IH in Ef as (? & ? & ?). split_and!; [lia|done|done].
  - destruct (find_origin l1 i num) as [[j' o'']|] eqn:Ef; simpl; [|done].
    intros [= <- <-]. apply IH in Ef as (? & ? & ?). split_and!; [lia|done|done].
Qed.

Lemma find_origin_None l1 : forall i num, find_origin l1 i num = None ->
  forall k o, (i <= k)%nat -> l1 !! k = Some o -> l1_Number o <> num.
Proof.
  induction l1 as [|o' l1 IH]; intros i num Hf k o Hk Ho; [done|]. simpl in Hf.
  destruct i as [|i].
  - destruct (Z.eqb_spec (l1_Number o') num); [done|].
    destruct (find_origin l1 0 num) eqn:Ef; [by destruct p|].
    destruct k as [|k]; [by injection Ho as <-|]. apply (IH _ _ Ef k); [lia|done].
  - destruct (find_origin l1 i num) eqn:Ef; [by destruct p|].
    destruct k as [|k]; [lia|]. apply (IH _ _ Ef k); [lia|done].
Qed.

(** The singular batch is the element with the hash of its L1 origin. *)
Definition completes (l1Origins : list L1BlockRef) (el : SpanBatchElement) (s : SingularBatch)
    : Prop :=
  exists o, o ∈ l1Origins /\ l1_Number o = el_EpochNum el
    /\ s = {| sb_ParentHash := zero_hash; sb_EpochNum := el_EpochNum el;
              sb_EpochHash := l1_Hash o; sb_Timestamp := el_Timestamp el;
              sb_Transactions := el_Transactions el |}.

Definition after (safeTime : Z) (els : list SpanBatchElement) : list SpanBatchElement :=
  filter (fun el => safeTime < el_Timestamp el) els.

Lemma singular_loop_sound l1 safeTime els : forall idx l,
  singular_loop l1 safeTime idx els = Ok l -> Forall2 (completes l1) (after safeTime els) l.
Proof.
  induction els as [|el els IH]; intros idx l; simpl.
  { intros [= <-]. constructor. }
  unfold after. rewrite filter_cons. destruct (Z.leb_spec (el_Timestamp el) safeTime).
  { rewrite decide_False by lia. apply IH. }
  rewrite decide_True by lia.
  destruct (find_origin l1 idx (el_EpochNum el)) as [[i o]|] eqn:Ef; [|done].
  intros (l' & Hl & [= <-])%rbind_Ok. apply find_origin_Some in Ef as (_ & Ho & Hn).
  constructor; [|by eapply IH]. exists o. split_and!; [|done|done].
  by apply list_elem_of_lookup_2 in Ho.
Qed.

(** L1 origins in the order of the chain. *)
Definition increasing (l1 : list L1BlockRef) : Prop :=
  forall i j a b, l1 !! i = Some a -> l1 !! j = Some b -> (i < j)%nat ->
    l1_Number a < l1_Number b.

Lemma singular_loop_complete l1 safeTime els : increasing l1 -> forall idx,
  (forall i j a b, els !! i = Some a -> els !! j = Some b -> (i <= j)%nat ->
     el_EpochNum a <= el_EpochNum b) ->
  (forall el, el ∈ after safeTime els -> exists o, o ∈ l1 /\ l1_Number o = el_EpochNum el) ->
  idx = 0%nat \/ (exists o, l1 !! idx = Some o
                  /\ forall el, el ∈ els -> l1_Number o <= el_EpochNum el) ->
  exists l, singular_loop l1 safeTime idx els = Ok l.
Proof.
  intros Hinc. induction els as [|el els IH]; intros idx Hmono Hall Hidx; simpl; [by eexists|].
  assert (forall i j a b, els !! i = Some a -> els !! j = Some b -> (i <= j)%nat ->
            el_EpochNum a <= el_EpochNum b) as Hmono'.
  { intros i j a b Hi Hj Hij. apply (Hmono (S i) (S j) a b); [done|done|lia]. }
  unfold after in Hall. rewrite filter_cons in Hall.
  destruct (Z.leb_spec (el_Timestamp el) safeTime).
  { rewrite decide_False in Hall by lia. apply IH; [done|done|]. set_solver. }
  rewrite decide_True in Hall by lia.
  destruct (Hall el (list_elem_of_here _ _)) as (o & Ho & Hn).
  apply list_elem_of_lookup in Ho as [k Hk].
  assert (idx <= k)%nat as Hle.
  { destruct Hidx as [->|(oi & Hi & Hle)]; [lia|].
    specialize (Hle el (list_elem_of_here _ _)).
    destruct (decide (idx <= k)%nat); [done|]. specialize (Hinc k idx o oi Hk Hi). lia. }
  destruct (find_origin l1 idx (el_EpochNum el)) as [[i o']|] eqn:Ef.
  2:{ by apply (find_origin_None _ _ _ Ef k o) in Hk. }
  apply find_origin_Some in Ef as (_ & Hi & Hn').
  destruct (IH i) as [l Hl]; [done|set_solver| |rewrite Hl; by eexists].
  right. exists o'. split; [done|]. intros el' [j Hj]%list_elem_of_lookup. rewrite Hn'.
  apply (Hmono 0%nat (S j)); [done|done|lia].
Qed.

(** Expanding a span batch yields, in order, one singular batch for every
    block after the safe head, with the hash of the L1 origin of its epoch;
    when the L1 origins are in chain order, the epochs do not go back and
    every epoch has its origin among them, the expansion succeeds. *)
Theorem GetSingularBatches_spec {T} (b : SpanBatch T) l1 safe :
  (forall l, GetSingularBatches b l1 safe = Ok l ->
     Forall2 (completes l1) (after (l2_Time safe) (Batches b)) l)
  /\ (increasing l1 ->
      (forall i j x y, Batches b !! i = Some x -> Batches b !! j = Some y -> (i <= j)%nat ->
         el_EpochNum x <= el_EpochNum y) ->
      (forall el, el ∈ after (l2_Time safe) (Batches b) ->
         exists o, o ∈ l1 /\ l1_Number o = el_EpochNum el) ->
      exists l, GetSingularBatches b l1 safe = Ok l).
Proof.
  split; [intros l; apply singular_loop_sound|].
  intros Hinc Hm Hall. by apply singular_loop_complete; [| | |left].
Qed.

Definition ex_singular (epoch time : Z) : SingularBatch :=
  {| sb_ParentHash := 77; sb_EpochNum := epoch; sb_EpochHash := 1000 + epoch;
     sb_Timestamp := time; sb_Transactions := [[2; 9]] |}.

Definition ex_l1 (n t : Z) : L1BlockRef :=
  {| l1_Hash := 1000 + n; l1_Number := n; l1_ParentHash := 0; l1_Time := t |}.

(** A span batch of three blocks of two epochs. *)
Definition ex_blocks : SpanBatch unit :=
  {| ParentCheck := replicate 20 0; L1OriginCheck := replicate 20 0;
     GenesisTimestamp := 50; ChainID := 7;
     Batches := singularBatchToElement <$> [ex_singular 5 100; ex_singular 5 102; ex_singular 6 104];
     cache_originBits := 0; cache_blockTxCounts := []; sbtxs := None |}.

Lemma GetSingularBatches_spec_witness :
  exists l, GetSingularBatches ex_blocks [ex_l1 5 90; ex_l1 6 102] zeroL2BlockRef = Ok l.
Proof.
  apply (GetSingularBatches_spec ex_blocks [ex_l1 5 90; ex_l1 6 102] zeroL2BlockRef).
  - intros [|[|i]] [|[|j]] a b Ha Hb Hij; simplify_eq/=; try lia; try done.
  - intros [|[|[|i]]] [|[|[|j]]] a b Ha Hb Hij; vm_compute in Ha, Hb; simplify_eq; simpl; lia.
  - intros el Hel. assert (el_EpochNum el = 5 \/ el_EpochNum el = 6) as [E|E].
    { unfold after in Hel. apply list_elem_of_filter in Hel as [_ Hel]. vm_compute in Hel.
      repeat (apply elem_of_cons in Hel as [->|Hel]; [simpl; auto|]). by apply elem_of_nil in Hel. }
    + exists (ex_l1 5 90). rewrite E. split; [|done]. by left.
    + exists (ex_l1 6 102). rewrite E. split; [|done]. by right; left.
Defined.
