(* ===== verification/SpanTxs.v ===== *)
(** * The transaction columns of span batches

    Models [derive/span_batch_txs.go], [derive/span_batch_tx.go] and
    [ReadTxData] of [derive/span_batch.go]: the columns in which a span batch
    stores its transactions, and shows that they keep the promises of
    [SpanBatchTxsLaws] that the span-batch codec is proved against.  The
    transaction type and the RLP codec are libraries ([go-ethereum]'s
    core/types and rlp): their operations are the class [EthLib], and the
    documented behaviour the proofs use is the class [EthLibLaws]. *)

From S2P Require Import Prelude EthTypes SpanBatch.

Definition LegacyTxType : Z := 0.
Definition AccessListTxType : Z := 1.
Definition DynamicFeeTxType : Z := 2.

(** [rlp.ErrValueTooLarge] and [derive.ErrTypedTxTooShort] *)
Definition ErrValueTooLarge : error := Msg "rlp: value size exceeds available input length".
Definition ErrTypedTxTooShort : error := Msg "typed transaction data too short".
Definition ErrTxTypeNotSupported : error := Msg "transaction type not supported".

(** ** The library *)

(** The structs of span_batch_tx.go; [A] and [U] are the library's access
    lists and authorization lists. *)
Inductive spanBatchTxData (A U : Type) : Type :=
  | spanBatchLegacyTxData (Value GasPrice : Z) (Data : bytes)
  | spanBatchAccessListTxData (Value GasPrice : Z) (Data : bytes) (AccessList : A)
  | spanBatchDynamicFeeTxData (Value GasTipCap GasFeeCap : Z) (Data : bytes) (AccessList : A)
  | spanBatchSetCodeTxData (Value GasTipCap GasFeeCap : Z) (Data : bytes) (AccessList : A)
      (AuthorizationList : U).
Arguments spanBatchLegacyTxData {A U}.
Arguments spanBatchAccessListTxData {A U}.
Arguments spanBatchDynamicFeeTxData {A U}.
Arguments spanBatchSetCodeTxData {A U}.

Definition txType {A U} (d : spanBatchTxData A U) : Z :=
  match d with
  | spanBatchLegacyTxData _ _ _ => LegacyTxType
  | spanBatchAccessListTxData _ _ _ _ => AccessListTxType
  | spanBatchDynamicFeeTxData _ _ _ _ _ => DynamicFeeTxType
  | spanBatchSetCodeTxData _ _ _ _ _ _ => SetCodeTxType
  end.

(** The arguments of [types.NewTx] that the code builds. *)
Inductive TxData (A U : Type) : Type :=
  | LegacyTx (Nonce GasPrice Gas : Z) (To : option Z) (Value : Z) (Data : bytes) (V R S : Z)
  | AccessListTx (ChainID Nonce GasPrice Gas : Z) (To : option Z) (Value : Z) (Data : bytes)
      (AccessList : A) (V R S : Z)
  | DynamicFeeTx (ChainID Nonce GasTipCap GasFeeCap Gas : Z) (To : option Z) (Value : Z)
      (Data : bytes) (AccessList : A) (V R S : Z)
  | SetCodeTx (ChainID Nonce GasTipCap GasFeeCap Gas To Value : Z) (Data : bytes)
      (AccessList : A) (AuthList : U) (V R S : Z).
Arguments LegacyTx {A U}.
Arguments AccessListTx {A U}.
Arguments DynamicFeeTx {A U}.
Arguments SetCodeTx {A U}.

Inductive RlpKind : Type := RlpByte | RlpString | RlpList.

(** [X] is [types.Transaction].  [rlp_Decode k] decodes into the struct of the
    transaction type [k]; [rlp_Kind] and [rlp_Raw] are the methods of a stream
    with the given input limit on a reader. *)
Class EthLib (X A U : Type) := {
  tx_Type : X -> Z;
  Protected : X -> bool;
  tx_ChainId : X -> Z;
  RawV : X -> Z;
  RawR : X -> Z;
  RawS : X -> Z;
  tx_To : X -> option Z;
  Nonce : X -> Z;
  Gas : X -> Z;
  GasPrice : X -> Z;
  GasTipCap : X -> Z;
  GasFeeCap : X -> Z;
  tx_Value : X -> Z;
  tx_Data : X -> bytes;
  tx_AccessList : X -> A;
  SetCodeAuthorizations : X -> U;
  NewTx : TxData A U -> X;
  tx_UnmarshalBinary : bytes -> result X;
  tx_MarshalBinary : X -> result bytes;
  rlp_Encode : spanBatchTxData A U -> bytes;
  rlp_Decode : Z -> bytes -> result (spanBatchTxData A U);
  rlp_Kind : Z -> bytes -> result RlpKind;
  rlp_Raw : Z -> bytes -> result (bytes * bytes) }.

(** The value of [uint256.FromBig], and [uint256.MustFromBig], which panics
    when the magnitude overflows. *)
Definition two256 : Z := 2 ^ 256.
Definition FromBig (z : Z) : Z := z mod two256.
Definition MustFromBig (z : Z) : result Z :=
  if Z.abs z <? two256 then Ok (FromBig z) else Panic.

(** [bits.SetBit(bits, i, b)] with a [uint]: a nil pointer and any other value
    than 0 or 1 panic. *)
Definition SetBitUint (bits : option Z) (i b : Z) : result (option Z) :=
  match bits with
  | None => Panic
  | Some x => if b =? 0 then Ok (Some (SetBit x i false))
              else if b =? 1 then Ok (Some (SetBit x i true))
              else Panic
  end.

(** ** The columns *)

Record spanBatchSignature : Type := { sig_v : Z; sig_r : Z; sig_s : Z }.

(** The bit lists are pointers; [None] is nil. *)
Record spanBatchTxs : Type := {
  totalBlockTxCount : Z;
  contractCreationBits : option Z;
  yParityBits : option Z;
  txSigs : list spanBatchSignature;
  txNonces : list Z;
  txGases : list Z;
  txTos : list Z;
  txDatas : list bytes;
  protectedBits : option Z;
  txTypes : list Z;
  totalLegacyTxCount : Z }.

(** *** Encoding *)

(** [encodeSpanBatchBits] of a pointer: [bits.BitLen()] panics on nil. *)
Definition encode_bits (n : Z) (bits : option Z) (msg : string) : result bytes :=
  match bits with
  | None => Panic
  | Some b => map_err (Wrap msg) (encodeSpanBatchBits n b)
  end.

Definition encodeTxSigsRS (l : list spanBatchSignature) : bytes :=
  concat ((fun g => be_encode 32 (sig_r g) ++ be_encode 32 (sig_s g)) <$> l).
Definition encodeTxNonces (l : list Z) : bytes := concat (PutUvarint <$> l).
Definition encodeTxGases (l : list Z) : bytes := concat (PutUvarint <$> l).
Definition encodeTxTos (l : list Z) : bytes := concat (be_encode 20 <$> l).
Definition encodeTxDatas (l : list bytes) : bytes := concat l.

Definition spanBatchTxs_encode (t : spanBatchTxs) : result bytes :=
  let* cc := encode_bits (totalBlockTxCount t) (contractCreationBits t)
               "failed to encode contract creation bits" in
  let* yp := encode_bits (totalBlockTxCount t) (yParityBits t)
               "failed to encode y-parity bits" in
  let* pb := encode_bits (totalLegacyTxCount t) (protectedBits t)
               "failed to encode protected bits" in
  Ok (cc ++ yp ++ encodeTxSigsRS (txSigs t) ++ encodeTxTos (txTos t)
      ++ encodeTxDatas (txDatas t) ++ encodeTxNonces (txNonces t)
      ++ encodeTxGases (txGases t) ++ pb).

(** *** Decoding *)

(** [n] reads in a row. *)
Fixpoint read_n {B} (read : bytes -> result (B * bytes)) (n : nat) (r : bytes)
    : result (list B * bytes) :=
  match n with
  | O => Ok ([], r)
  | S n' =>
      let* (x, r) := read r in
      let* (l, r) := read_n read n' r in
      Ok (x :: l, r)
  end.

Definition decodeContractCreationBits (n : Z) (r : bytes) : result (Z * bytes) :=
  if MaxSpanBatchElementCount <? n then Err ErrTooBigSpanBatchSize
  else map_err (Wrap "failed to decode contract creation bits") (decodeSpanBatchBits r n).

Definition decodeYParityBits (n : Z) (r : bytes) : result (Z * bytes) :=
  map_err (Wrap "failed to decode y-parity bits") (decodeSpanBatchBits r n).

Definition decodeProtectedBits (n : Z) (r : bytes) : result (Z * bytes) :=
  if MaxSpanBatchElementCount <? n then Err ErrTooBigSpanBatchSize
  else map_err (Wrap "failed to decode protected bits") (decodeSpanBatchBits r n).

(** The recovery id stays 0. *)
Definition read_sig (r : bytes) : result (spanBatchSignature * bytes) :=
  let* (rb, r) := map_err (Wrap "failed to read tx sig r") (ReadFull 32 r) in
  let* (sb, r) := map_err (Wrap "failed to read tx sig s") (ReadFull 32 r) in
  Ok ({| sig_v := 0; sig_r := FromBig (be_decode rb); sig_s := FromBig (be_decode sb) |}, r).

Definition decodeTxSigsRS (n : nat) (r : bytes) : result (list spanBatchSignature * bytes) :=
  read_n read_sig n r.

Definition decodeTxNonces (n : nat) (r : bytes) : result (list Z * bytes) :=
  read_n (fun r => map_err (Wrap "failed to read tx nonce") (ReadUvarint r)) n r.

Definition decodeTxGases (n : nat) (r : bytes) : result (list Z * bytes) :=
  read_n (fun r => map_err (Wrap "failed to read tx gas") (ReadUvarint r)) n r.

Definition contractCreationCount (n : nat) (bits : Z) : nat :=
  length (List.filter (fun i => Z.testbit bits (Z.of_nat i)) (seq 0 n)).

Definition decodeTxTos (n : nat) (bits : Z) (r : bytes) : result (list Z * bytes) :=
  read_n (fun r => let* (b, r) := map_err (Wrap "failed to read tx to address") (ReadFull 20 r) in
                   Ok (be_decode b, r))
    (n - contractCreationCount n bits) r.

Section Columns.
Context {X A U : Type} `{!EthLib X A U}.

Definition ReadTxData (r : bytes) : result (bytes * Z * bytes) :=
  match r with
  | [] => Err (Wrap "failed to read tx initial byte" EOF)
  | b :: r' =>
      let typed := b <=? 127 in
      let rest := if typed then r' else r in
      match rlp_Kind MaxSpanBatchElementCount rest with
      | Panic => Panic
      | Err err => if errors_Is err ErrValueTooLarge then Err ErrTooBigSpanBatchSize
                   else Err (Wrap "failed to read tx RLP prefix" err)
      | Ok RlpByte | Ok RlpString => Err (Msg "tx RLP prefix type must be list")
      | Ok RlpList =>
          let* (payload, rest) := map_err (Wrap "failed to read tx RLP payload")
                                    (rlp_Raw MaxSpanBatchElementCount rest) in
          Ok ((if typed then [b] else []) ++ payload, if typed then b else 0, rest)
      end
  end.

Definition decodeTxDatas (n : nat) (r : bytes) : result (list (bytes * Z) * bytes) :=
  read_n (fun r => let* (data, typ, r) := ReadTxData r in Ok ((data, typ), r)) n r.

(** [decode] into new columns whose transaction count is set to [n]. *)
Definition spanBatchTxs_decode (n : Z) (r : bytes) : result (spanBatchTxs * bytes) :=
  let* (cc, r) := decodeContractCreationBits n r in
  let* (yp, r) := decodeYParityBits n r in
  let* (sigs, r) := decodeTxSigsRS (Z.to_nat n) r in
  let* (tos, r) := decodeTxTos (Z.to_nat n) cc r in
  let* (datas, r) := decodeTxDatas (Z.to_nat n) r in
  let legacy := Z.of_nat (length (List.filter (fun d => d.2 =? LegacyTxType) datas)) in
  let* (nonces, r) := decodeTxNonces (Z.to_nat n) r in
  let* (gases, r) := decodeTxGases (Z.to_nat n) r in
  let* (pb, r) := decodeProtectedBits legacy r in
  Ok ({| totalBlockTxCount := n; contractCreationBits := Some cc; yParityBits := Some yp;
         txSigs := sigs; txNonces := nonces; txGases := gases; txTos := tos;
         txDatas := datas.*1; protectedBits := Some pb; txTypes := datas.*2;
         totalLegacyTxCount := legacy |}, r).

(** *** Signatures *)

Definition isProtectedV (v typ : Z) : bool :=
  if typ =? LegacyTxType then negb (v =? 27) && negb (v =? 28) else true.

Definition convertVToYParity (v typ : Z) : result Z :=
  if typ =? LegacyTxType then
    if isProtectedV v typ then Ok (Z.land (v -u 35) 1) else Ok (v -u 27)
  else if (typ =? AccessListTxType) || (typ =? DynamicFeeTxType) || (typ =? SetCodeTxType) then Ok v
  else Err (Msg "invalid tx type").

(** The loop of [recoverV]: the types and signatures from index [idx] on. *)
Fixpoint recover_loop (yp pb chainID : Z) (idx protectedIdx : Z) (typs : list Z)
    (sigs : list spanBatchSignature) : result (list spanBatchSignature) :=
  match typs, sigs with
  | typ :: typs', g :: sigs' =>
      let bit := Z.b2z (Z.testbit yp idx) in
      let* v :=
        if typ =? LegacyTxType then
          if negb (Z.testbit pb protectedIdx) then Ok (27 +u bit)
          else Ok (((u64 chainID *u 2) +u 35) +u bit)
        else if (typ =? AccessListTxType) || (typ =? DynamicFeeTxType) || (typ =? SetCodeTxType)
        then Ok bit
        else Err (Msg "invalid tx type") in
      let* rest := recover_loop yp pb chainID (idx + 1)
                     (if typ =? LegacyTxType then protectedIdx + 1 else protectedIdx)
                     typs' sigs' in
      Ok ({| sig_v := v; sig_r := sig_r g; sig_s := sig_s g |} :: rest)
  | _, _ => Ok []
  end.

Definition with_sigs (t : spanBatchTxs) (sigs : list spanBatchSignature) : spanBatchTxs :=
  {| totalBlockTxCount := totalBlockTxCount t; contractCreationBits := contractCreationBits t;
     yParityBits := yParityBits t; txSigs := sigs; txNonces := txNonces t; txGases := txGases t;
     txTos := txTos t; txDatas := txDatas t; protectedBits := protectedBits t;
     txTypes := txTypes t; totalLegacyTxCount := totalLegacyTxCount t |}.

Definition spanBatchTxs_recoverV (t : spanBatchTxs) (chainID : Z) : result spanBatchTxs :=
  if negb (bool_decide (length (txTypes t) = length (txSigs t))) then
    Err (Msg "tx type length and tx sigs length mismatch")
  else match protectedBits t, yParityBits t with
       | None, _ => Err (Msg "dev error: protected bits not set")
       | Some _, None => match txTypes t with [] => Ok t | _ => Panic end
       | Some pb, Some yp =>
           let* sigs := recover_loop yp pb chainID 0 0 (txTypes t) (txSigs t) in
           Ok (with_sigs t sigs)
       end.

(** *** Transactions and their data column *)

Definition spanBatchTx_MarshalBinary (d : spanBatchTxData A U) : bytes :=
  if txType d =? LegacyTxType then rlp_Encode d else txType d :: rlp_Encode d.

Definition spanBatchTx_decodeTyped (b : bytes) : result (spanBatchTxData A U) :=
  match b with
  | [] | [_] => Err (Wrap "failed to decode span batch" ErrTypedTxTooShort)
  | typ :: rest =>
      if typ =? AccessListTxType then
        map_err (Wrap "failed to decode spanBatchAccessListTxData")
          (rlp_Decode AccessListTxType rest)
      else if typ =? DynamicFeeTxType then
        map_err (Wrap "failed to decode spanBatchDynamicFeeTxData")
          (rlp_Decode DynamicFeeTxType rest)
      else if typ =? SetCodeTxType then
        map_err (Wrap "failed to decode spanBatchSetCodeTxData") (rlp_Decode SetCodeTxType rest)
      else Err ErrTxTypeNotSupported
  end.

Definition spanBatchTx_UnmarshalBinary (b : bytes) : result (spanBatchTxData A U) :=
  match b with
  | c :: _ =>
      if 127 <? c then map_err (Wrap "failed to decode spanBatchLegacyTxData")
                         (rlp_Decode LegacyTxType b)
      else spanBatchTx_decodeTyped b
  | [] => spanBatchTx_decodeTyped b
  end.

Definition convertToFullTx (d : spanBatchTxData A U) (nonce gas : Z) (to : option Z)
    (chainID V R S : Z) : result X :=
  match d with
  | spanBatchLegacyTxData value gasPrice data =>
      Ok (NewTx (LegacyTx nonce gasPrice gas to value data V R S))
  | spanBatchAccessListTxData value gasPrice data al =>
      Ok (NewTx (AccessListTx chainID nonce gasPrice gas to value data al V R S))
  | spanBatchDynamicFeeTxData value tip fee data al =>
      Ok (NewTx (DynamicFeeTx chainID nonce tip fee gas to value data al V R S))
  | spanBatchSetCodeTxData value tip fee data al auth =>
      match to with
      | None => Err (Msg "to address is required for SetCodeTx")
      | Some to =>
          let* id := MustFromBig chainID in
          let* v := MustFromBig V in
          let* r := MustFromBig R in
          let* s := MustFromBig S in
          Ok (NewTx (SetCodeTx id nonce tip fee gas to value data al auth v r s))
      end
  end.

Definition newSpanBatchTx (tx : X) : result (spanBatchTxData A U) :=
  if tx_Type tx =? LegacyTxType then
    Ok (spanBatchLegacyTxData (tx_Value tx) (GasPrice tx) (tx_Data tx))
  else if tx_Type tx =? AccessListTxType then
    Ok (spanBatchAccessListTxData (tx_Value tx) (GasPrice tx) (tx_Data tx) (tx_AccessList tx))
  else if tx_Type tx =? DynamicFeeTxType then
    Ok (spanBatchDynamicFeeTxData (tx_Value tx) (GasTipCap tx) (GasFeeCap tx) (tx_Data tx)
          (tx_AccessList tx))
  else if tx_Type tx =? SetCodeTxType then
    let* tip := MustFromBig (GasTipCap tx) in
    let* fee := MustFromBig (GasFeeCap tx) in
    let* value := MustFromBig (tx_Value tx) in
    Ok (spanBatchSetCodeTxData value tip fee (tx_Data tx) (tx_AccessList tx)
          (SetCodeAuthorizations tx))
  else Err (Msg "invalid tx type").

(** *** Adding transactions *)

Definition empty_txs : spanBatchTxs :=
  {| totalBlockTxCount := 0; contractCreationBits := Some 0; yParityBits := Some 0;
     txSigs := []; txNonces := []; txGases := []; txTos := []; txDatas := [];
     protectedBits := Some 0; txTypes := []; totalLegacyTxCount := 0 |}.

(** The columns with the first part of an iteration of [AddTxs] done, up to
    the signature and the recipient, and with all of it done. *)
Definition with_legacy (t : spanBatchTxs) (pb : option Z) (count : Z) : spanBatchTxs :=
  {| totalBlockTxCount := totalBlockTxCount t; contractCreationBits := contractCreationBits t;
     yParityBits := yParityBits t; txSigs := txSigs t; txNonces := txNonces t;
     txGases := txGases t; txTos := txTos t; txDatas := txDatas t; protectedBits := pb;
     txTypes := txTypes t; totalLegacyTxCount := count |}.

Definition with_sig_to (t : spanBatchTxs) (sig : spanBatchSignature) (to : option Z)
    : spanBatchTxs :=
  {| totalBlockTxCount := totalBlockTxCount t; contractCreationBits := contractCreationBits t;
     yParityBits := yParityBits t; txSigs := txSigs t ++ [sig]; txNonces := txNonces t;
     txGases := txGases t;
     txTos := match to with Some a => txTos t ++ [a] | None => txTos t end;
     txDatas := txDatas t; protectedBits := protectedBits t;
     txTypes := txTypes t; totalLegacyTxCount := totalLegacyTxCount t |}.

Definition with_bits (t : spanBatchTxs) (cc yp : option Z) : spanBatchTxs :=
  {| totalBlockTxCount := totalBlockTxCount t; contractCreationBits := cc;
     yParityBits := yp; txSigs := txSigs t; txNonces := txNonces t;
     txGases := txGases t; txTos := txTos t; txDatas := txDatas t;
     protectedBits := protectedBits t; txTypes := txTypes t;
     totalLegacyTxCount := totalLegacyTxCount t |}.

Definition with_nonce_gas (t : spanBatchTxs) (nonce gas : Z) : spanBatchTxs :=
  {| totalBlockTxCount := totalBlockTxCount t; contractCreationBits := contractCreationBits t;
     yParityBits := yParityBits t; txSigs := txSigs t; txNonces := txNonces t ++ [nonce];
     txGases := txGases t ++ [gas]; txTos := txTos t; txDatas := txDatas t;
     protectedBits := protectedBits t; txTypes := txTypes t;
     totalLegacyTxCount := totalLegacyTxCount t |}.

Definition with_data (t : spanBatchTxs) (data : bytes) (typ : Z) : spanBatchTxs :=
  {| totalBlockTxCount := totalBlockTxCount t; contractCreationBits := contractCreationBits t;
     yParityBits := yParityBits t; txSigs := txSigs t; txNonces := txNonces t;
     txGases := txGases t; txTos := txTos t; txDatas := txDatas t ++ [data];
     protectedBits := protectedBits t; txTypes := txTypes t ++ [typ];
     totalLegacyTxCount := totalLegacyTxCount t |}.

(** [step t r k]: the rest [k] of an iteration when [r] succeeds; otherwise the
    iteration ends with the columns as they are. *)
Definition step {B} (t : spanBatchTxs) (r : result B)
    (k : B -> spanBatchTxs * result unit) : spanBatchTxs * result unit :=
  match r with
  | Ok x => k x
  | Err err => (t, Err err)
  | Panic => (t, Panic)
  end.

(** One iteration of [AddTxs], for the transaction at position [pos] of the
    batch; the fields updated before an error stay updated. *)
Definition add_tx (t : spanBatchTxs) (pos : Z) (raw : bytes) (chainID : Z)
    : spanBatchTxs * result unit :=
  step t (map_err (fun _ => Msg "failed to decode tx") (tx_UnmarshalBinary raw)) (fun tx =>
  let legacy := tx_Type tx =? LegacyTxType in
  step t (if legacy then SetBitUint (protectedBits t) (totalLegacyTxCount t)
                           (Z.b2z (Protected tx))
          else Ok (protectedBits t)) (fun pb =>
  let t := with_legacy t pb (if legacy then totalLegacyTxCount t +u 1
                             else totalLegacyTxCount t) in
  if Protected tx && negb (tx_ChainId tx =? chainID) then
    (t, Err (Msg "protected tx has another chain ID"))
  else
    let sig := {| sig_v := u64 (RawV tx); sig_r := FromBig (RawR tx);
                  sig_s := FromBig (RawS tx) |} in
    let t := with_sig_to t sig (tx_To tx) in
    step t (SetBitUint (contractCreationBits t) pos
              (Z.b2z (bool_decide (tx_To tx = None)))) (fun cc =>
    let t := with_bits t cc (yParityBits t) in
    step t (convertVToYParity (sig_v sig) (tx_Type tx)) (fun bit =>
    step t (SetBitUint (yParityBits t) pos bit) (fun yp =>
    let t := with_nonce_gas (with_bits t (contractCreationBits t) yp) (Nonce tx) (Gas tx) in
    step t (newSpanBatchTx tx) (fun stx =>
    (with_data t (spanBatchTx_MarshalBinary stx) (tx_Type tx), Ok ()))))))).

Fixpoint add_loop (t : spanBatchTxs) (pos : Z) (l : list bytes) (chainID : Z)
    : spanBatchTxs * result unit :=
  match l with
  | [] => (t, Ok ())
  | raw :: rest =>
      match add_tx t pos raw chainID with
      | (t', Ok _) => add_loop t' (pos + 1) rest chainID
      | failed => failed
      end
  end.

Definition with_count (t : spanBatchTxs) (n : Z) : spanBatchTxs :=
  {| totalBlockTxCount := n; contractCreationBits := contractCreationBits t;
     yParityBits := yParityBits t; txSigs := txSigs t; txNonces := txNonces t;
     txGases := txGases t; txTos := txTos t; txDatas := txDatas t;
     protectedBits := protectedBits t; txTypes := txTypes t;
     totalLegacyTxCount := totalLegacyTxCount t |}.

Definition spanBatchTxs_AddTxs (t : spanBatchTxs) (l : list bytes) (chainID : Z)
    : spanBatchTxs * result unit :=
  match add_loop t (totalBlockTxCount t) l chainID with
  | (t', Ok _) => (with_count t' (totalBlockTxCount t' +u Z.of_nat (length l)), Ok ())
  | failed => failed
  end.

Definition spanBatchTxs_new (l : list bytes) (chainID : Z) : result spanBatchTxs :=
  let (t, r) := spanBatchTxs_AddTxs empty_txs l chainID in
  let* _ := r in Ok t.

(** *** Reading transactions back *)

Definition at_index {B} (l : list B) (i : nat) : result B :=
  match l !! i with Some x => Ok x | None => Panic end.

(** The loop of [fullTxs] from index [idx] on, with [n] transactions left. *)
Fixpoint full_loop (t : spanBatchTxs) (chainID : Z) (n idx toIdx : nat)
    : result (list bytes) :=
  match n with
  | O => Ok []
  | S n' =>
      let* data := at_index (txDatas t) idx in
      let* stx := spanBatchTx_UnmarshalBinary data in
      let* nonce := at_index (txNonces t) idx in
      let* gas := at_index (txGases t) idx in
      let* creation := match contractCreationBits t with
                       | None => Panic
                       | Some cc => Ok (Z.testbit cc (Z.of_nat idx))
                       end in
      let* to := if creation then Ok None
                 else match txTos t !! toIdx with
                      | Some to => Ok (Some to)
                      | None => Err (Msg "tx to not enough")
                      end in
      let* sig := at_index (txSigs t) idx in
      let* tx := convertToFullTx stx nonce gas to chainID (sig_v sig) (sig_r sig) (sig_s sig) in
      let* raw := tx_MarshalBinary tx in
      let* rest := full_loop t chainID n' (S idx) (if creation then toIdx else S toIdx) in
      Ok (raw :: rest)
  end.

Definition spanBatchTxs_fullTxs (t : spanBatchTxs) (chainID : Z) : result (list bytes) :=
  full_loop t chainID (Z.to_nat (totalBlockTxCount t)) 0 0.

#[global] Instance spanBatchTxs_ops : SpanBatchTxs spanBatchTxs := {
  newSpanBatchTxs := spanBatchTxs_new;
  AddTxs := spanBatchTxs_AddTxs;
  txs_encode := spanBatchTxs_encode;
  txs_decode := spanBatchTxs_decode;
  recoverV := spanBatchTxs_recoverV;
  fullTxs := spanBatchTxs_fullTxs }.

End Columns.

(** ** Laws of the library *)

(** The numbers RLP can encode in the structs: not negative, and [uint256] in
    set-code transactions. *)
Definition data_ok {A U} (d : spanBatchTxData A U) : Prop :=
  match d with
  | spanBatchLegacyTxData v p _ | spanBatchAccessListTxData v p _ _ => 0 <= v /\ 0 <= p
  | spanBatchDynamicFeeTxData v t f _ _ => 0 <= v /\ 0 <= t /\ 0 <= f
  | spanBatchSetCodeTxData v t f _ _ _ =>
      0 <= v < two256 /\ 0 <= t < two256 /\ 0 <= f < two256
  end.

(** What the proofs use of [core/types] and [rlp]: a decoded transaction
    encodes to the bytes it was decoded from; a transaction is determined by
    its fields; legacy transactions carry the chain id in [V] (EIP-155); RLP
    lists round-trip, start with a byte above [0x7f] and can be read from a
    stream that is large enough. *)
Class EthLibLaws (X A U : Type) `{EthLib X A U} := {
  unmarshal_marshal : forall b tx, tx_UnmarshalBinary b = Ok tx -> tx_MarshalBinary tx = Ok b;
  newtx_legacy : forall tx, tx_Type tx = LegacyTxType ->
    NewTx (LegacyTx (Nonce tx) (GasPrice tx) (Gas tx) (tx_To tx) (tx_Value tx) (tx_Data tx)
             (RawV tx) (RawR tx) (RawS tx)) = tx;
  newtx_access_list : forall tx, tx_Type tx = AccessListTxType ->
    NewTx (AccessListTx (tx_ChainId tx) (Nonce tx) (GasPrice tx) (Gas tx) (tx_To tx)
             (tx_Value tx) (tx_Data tx) (tx_AccessList tx) (RawV tx) (RawR tx) (RawS tx)) = tx;
  newtx_dynamic_fee : forall tx, tx_Type tx = DynamicFeeTxType ->
    NewTx (DynamicFeeTx (tx_ChainId tx) (Nonce tx) (GasTipCap tx) (GasFeeCap tx) (Gas tx)
             (tx_To tx) (tx_Value tx) (tx_Data tx) (tx_AccessList tx)
             (RawV tx) (RawR tx) (RawS tx)) = tx;
  newtx_set_code : forall tx, tx_Type tx = SetCodeTxType -> exists to, tx_To tx = Some to
    /\ NewTx (SetCodeTx (tx_ChainId tx) (Nonce tx) (GasTipCap tx) (GasFeeCap tx) (Gas tx) to
                (tx_Value tx) (tx_Data tx) (tx_AccessList tx) (SetCodeAuthorizations tx)
                (RawV tx) (RawR tx) (RawS tx)) = tx;
  protected_typed : forall tx, tx_Type tx <> LegacyTxType -> Protected tx = true;
  protected_legacy : forall tx, tx_Type tx = LegacyTxType ->
    Protected tx = true <-> RawV tx ∉ [0; 1; 27; 28];
  chain_id_legacy : forall tx, tx_Type tx = LegacyTxType -> Protected tx = true ->
    35 <= RawV tx -> tx_ChainId tx = (RawV tx - 35) / 2;
  nonce_range : forall tx, is_u64 (Nonce tx);
  gas_range : forall tx, is_u64 (Gas tx);
  to_range : forall tx to, tx_To tx = Some to -> 0 <= to < 256 ^ 20;
  price_range : forall tx, 0 <= tx_Value tx /\ 0 <= GasPrice tx /\ 0 <= GasTipCap tx
    /\ 0 <= GasFeeCap tx;
  rlp_roundtrip : forall d, data_ok d -> rlp_Decode (txType d) (rlp_Encode d) = Ok d;
  rlp_prefix : forall d, data_ok d -> exists b r, rlp_Encode d = b :: r /\ 127 < b;
  rlp_stream : forall limit d r, data_ok d -> Z.of_nat (length (rlp_Encode d)) <= limit ->
    rlp_Kind limit (rlp_Encode d ++ r) = Ok RlpList
    /\ rlp_Raw limit (rlp_Encode d ++ r) = Ok (rlp_Encode d, r) }.

(** ** Bit lists as lists of booleans *)

Fixpoint bits_val (l : list bool) : Z :=
  match l with
  | [] => 0
  | b :: t => 2 * bits_val t + Z.b2z b
  end.

Lemma bits_val_testbit l i :
  Z.testbit (bits_val l) (Z.of_nat i) = default false (l !! i).
Proof.
  revert i. induction l as [|b l IH]; intros i; [by rewrite Z.testbit_0_l|].
  cbn [bits_val]. destruct i as [|i]; [apply Z.testbit_0_r|].
  rewrite Nat2Z.inj_succ, Z.testbit_succ_r by lia. apply IH.
Qed.

Lemma bits_val_range l : 0 <= bits_val l < 2 ^ Z.of_nat (length l).
Proof.
  induction l as [|b l IH]; [simpl; lia|]. cbn [bits_val length].
  rewrite Nat2Z.inj_succ, Z.pow_succ_r by lia. destruct b; simpl; lia.
Qed.

Lemma bits_val_snoc l b : SetBit (bits_val l) (Z.of_nat (length l)) b = bits_val (l ++ [b]).
Proof.
  apply Z.bits_inj'. intros n Hn. rewrite SetBit_testbit by lia.
  rewrite <- (Z2Nat.id n) by done. rewrite !bits_val_testbit.
  destruct (Z.eqb_spec (Z.of_nat (Z.to_nat n)) (Z.of_nat (length l))) as [E|E].
  - apply Nat2Z.inj in E. rewrite E, lookup_app_r, Nat.sub_diag by lia. done.
  - destruct (decide (Z.to_nat n < length l)%nat).
    + by rewrite lookup_app_l.
    + rewrite !lookup_ge_None_2; [done| |lia]. rewrite length_app. simpl. lia.
Qed.

Lemma MustFromBig_small z : 0 <= z < two256 -> MustFromBig z = Ok z.
Proof.
  intros Hz. unfold MustFromBig, FromBig. rewrite (proj2 (Z.ltb_lt _ _)) by lia.
  by rewrite Z.mod_small.
Qed.

Lemma MustFromBig_Ok z x : 0 <= z -> MustFromBig z = Ok x -> 0 <= z < two256 /\ x = z.
Proof.
  intros Hz. unfold MustFromBig, FromBig. destruct (Z.ltb_spec (Z.abs z) two256); [|done].
  intros [= <-]. rewrite Z.mod_small by lia. split; [lia|done].
Qed.

Lemma SetBitUint_b2z x i b : SetBitUint (Some x) i (Z.b2z b) = Ok (Some (SetBit x i b)).
Proof. by destruct b. Qed.

Lemma contractCreationCount_bits l :
  contractCreationCount (length l) (bits_val l) = length (List.filter id l).
Proof.
  unfold contractCreationCount.
  assert (forall k, length (List.filter (fun i => default false (l !! (i - k)%nat))
                              (seq k (length l))) = length (List.filter id l)) as H.
  { induction l as [|b l IH]; intros k; [done|]. cbn [length seq List.filter].
    rewrite Nat.sub_diag. simpl lookup. simpl default.
    assert (List.filter (fun i => default false ((b :: l) !! (i - k)%nat)) (seq (S k) (length l))
            = List.filter (fun i => default false (l !! (i - S k)%nat)) (seq (S k) (length l)))
      as ->.
    { apply List.filter_ext_in. intros i [Hi _]%in_seq.
      by replace (i - k)%nat with (S (i - S k)) by lia. }
    destruct b; simpl; by rewrite IH. }
  rewrite <- (H 0%nat). f_equal. apply List.filter_ext. intros i.
  by rewrite bits_val_testbit, Nat.sub_0_r.
Qed.

(** ** Reading lists back *)

Lemma read_n_map {B C} (read : bytes -> result (C * bytes)) (f : B -> C) (enc : B -> bytes) l r :
  (forall x r, x ∈ l -> read (enc x ++ r) = Ok (f x, r)) ->
  read_n read (length l) (concat (enc <$> l) ++ r) = Ok (f <$> l, r).
Proof.
  induction l as [|x l IH]; intros Hr; [done|].
  change (concat (enc <$> x :: l)) with (enc x ++ concat (enc <$> l)). cbn [length read_n].
  rewrite <- app_assoc, Hr by by left. cbn [rbind].
  rewrite IH; [done|]. intros y r' Hy. apply Hr. by right.
Qed.

Lemma be_decode_full n z : 0 <= z < 256 ^ Z.of_nat n -> be_decode (be_encode n z) = z.
Proof. intros. rewrite be_decode_encode. by apply Z.mod_small. Qed.

(** ** The columns of a list of transactions *)

Section ColumnLaws.
Context {X A U : Type} `{!EthLib X A U} `{!EthLibLaws X A U}.
Implicit Types tx : X.

(** A chain id whose EIP-155 values fit a [uint64]. *)
Definition id_ok (id : Z) : Prop := 0 <= id /\ 2 * id + 36 < two64.

(** The signature values the columns can represent, and a data field the
    reader accepts. *)
Record tx_wf (tx : X) : Prop := {
  wf_r : 0 <= RawR tx < two256;
  wf_s : 0 <= RawS tx < two256;
  wf_legacy : tx_Type tx = LegacyTxType ->
    RawV tx = 27 \/ RawV tx = 28 \/ 35 <= RawV tx < two64;
  wf_typed : tx_Type tx <> LegacyTxType -> RawV tx = 0 \/ RawV tx = 1;
  wf_data : forall d, newSpanBatchTx tx = Ok d ->
    Z.of_nat (length (rlp_Encode d)) <= MaxSpanBatchElementCount }.

Definition tx_ok (id : Z) (raw : bytes) : Prop :=
  id_ok id /\ forall tx, tx_UnmarshalBinary raw = Ok tx -> tx_wf tx.

(** A transaction that [AddTxs] accepted. *)
Record tx_added (id : Z) (tx : X) : Prop := {
  ad_wf : tx_wf tx;
  ad_id : id_ok id;
  ad_data : exists d, newSpanBatchTx tx = Ok d;
  ad_chain : Protected tx = true -> tx_ChainId tx = id }.

Definition is_legacy (tx : X) : bool := tx_Type tx =? LegacyTxType.
Definition creates (tx : X) : bool := bool_decide (tx_To tx = None).
Definition parity (tx : X) : bool :=
  if is_legacy tx then if Protected tx then Z.odd (RawV tx - 35) else RawV tx =? 28
  else RawV tx =? 1.
Definition data_of (tx : X) : bytes :=
  match newSpanBatchTx tx with Ok d => spanBatchTx_MarshalBinary d | _ => [] end.
Definition bare_sig (tx : X) : spanBatchSignature :=
  {| sig_v := 0; sig_r := RawR tx; sig_s := RawS tx |}.

(** The columns of the transactions, without the recovery ids; [n] is the
    transaction count, which lags behind while transactions are added. *)
Definition columns (n : Z) (l : list X) : spanBatchTxs :=
  {| totalBlockTxCount := n;
     contractCreationBits := Some (bits_val (creates <$> l));
     yParityBits := Some (bits_val (parity <$> l));
     txSigs := bare_sig <$> l; txNonces := Nonce <$> l; txGases := Gas <$> l;
     txTos := omap tx_To l; txDatas := data_of <$> l;
     protectedBits := Some (bits_val (Protected <$> List.filter is_legacy l));
     txTypes := tx_Type <$> l;
     totalLegacyTxCount := Z.of_nat (length (List.filter is_legacy l)) |}.

Definition erase (g : spanBatchSignature) : spanBatchSignature :=
  {| sig_v := 0; sig_r := sig_r g; sig_s := sig_s g |}.

Definition erase_v (t : spanBatchTxs) : spanBatchTxs := with_sigs t (erase <$> txSigs t).

Definition txs_holds (t : spanBatchTxs) (id : Z) (l : list bytes) : Prop :=
  exists xs, Forall2 (fun raw tx => tx_UnmarshalBinary raw = Ok tx) l xs
    /\ Forall (tx_added id) xs /\ Z.of_nat (length l) < two64
    /\ erase_v t = columns (Z.of_nat (length l)) xs.

(** *** Parities *)

Lemma legacy_protected tx : tx_Type tx = LegacyTxType -> tx_wf tx ->
  Protected tx = isProtectedV (RawV tx) LegacyTxType
  /\ (Protected tx = true -> 35 <= RawV tx < two64)
  /\ (Protected tx = false -> RawV tx = 27 \/ RawV tx = 28).
Proof.
  intros Ht Hw. pose proof (protected_legacy tx Ht) as Hp.
  destruct (wf_legacy tx Hw Ht) as [E|[E|E]].
  1,2: assert (Protected tx = false) as ->
         by (apply not_true_is_false; rewrite Hp, E; set_solver).
  1,2: rewrite E; split_and!; auto; done.
  assert (Protected tx = true) as ->.
  { apply Hp. rewrite !not_elem_of_cons. split_and!; try lia. apply not_elem_of_nil. }
  unfold isProtectedV. simpl. split_and!; [|done|done].
  rewrite !(proj2 (Z.eqb_neq _ _)) by lia. done.
Qed.

Lemma parity_bit tx b : tx_wf tx ->
  convertVToYParity (u64 (RawV tx)) (tx_Type tx) = Ok b -> b = Z.b2z (parity tx).
Proof.
  intros Hw. unfold convertVToYParity, parity, is_legacy.
  destruct (Z.eqb_spec (tx_Type tx) LegacyTxType) as [E|E].
  - destruct (legacy_protected tx E Hw) as (Hp & Ht & Hf). rewrite E.
    assert (is_u64 (RawV tx)) as Hu.
    { destruct (wf_legacy tx Hw E) as [->|[->|?]]; unfold is_u64, two64 in *; lia. }
    rewrite u64_small by done. rewrite <- Hp. destruct (Protected tx).
    + intros [= <-]. specialize (Ht eq_refl). rewrite u64_small by (unfold is_u64; lia).
      change 1 with (Z.ones 1). rewrite Z.land_ones by lia.
      change (2 ^ 1) with 2. rewrite Zmod_odd. by destruct (Z.odd _).
    + intros [= <-]. by destruct (Hf eq_refl) as [-> | ->].
  - destruct (_ || _); [|done]. intros [= <-].
    by destruct (wf_typed tx Hw E) as [-> | ->].
Qed.

(** *** Adding *)

Lemma txs_ext t t' :
  totalBlockTxCount t = totalBlockTxCount t' ->
  contractCreationBits t = contractCreationBits t' -> yParityBits t = yParityBits t' ->
  txSigs t = txSigs t' -> txNonces t = txNonces t' -> txGases t = txGases t' ->
  txTos t = txTos t' -> txDatas t = txDatas t' -> protectedBits t = protectedBits t' ->
  txTypes t = txTypes t' -> totalLegacyTxCount t = totalLegacyTxCount t' -> t = t'.
Proof. destruct t, t'; simpl; intros; by subst. Qed.

Lemma erase_fields t n l : erase_v t = columns n l ->
  totalBlockTxCount t = n
  /\ contractCreationBits t = Some (bits_val (creates <$> l))
  /\ yParityBits t = Some (bits_val (parity <$> l))
  /\ erase <$> txSigs t = bare_sig <$> l /\ txNonces t = Nonce <$> l /\ txGases t = Gas <$> l
  /\ txTos t = omap tx_To l /\ txDatas t = data_of <$> l
  /\ protectedBits t = Some (bits_val (Protected <$> List.filter is_legacy l))
  /\ txTypes t = tx_Type <$> l
  /\ totalLegacyTxCount t = Z.of_nat (length (List.filter is_legacy l)).
Proof. unfold erase_v, with_sigs, columns. intros [=]. by split_and!. Qed.

Lemma fmap_snoc' {B C} (f : B -> C) l x : f <$> (l ++ [x]) = (f <$> l) ++ [f x].
Proof. by rewrite fmap_app. Qed.

Lemma filter_legacy_length l : (length (List.filter is_legacy l) <= length l)%nat.
Proof. induction l as [|tx l IH]; simpl; [lia|]. destruct (is_legacy tx); simpl; lia. Qed.

Lemma add_tx_columns t n l raw id t' :
  erase_v t = columns n l -> tx_ok id raw -> Z.of_nat (length l) + 1 < two64 ->
  add_tx t (Z.of_nat (length l)) raw id = (t', Ok ()) ->
  exists tx, tx_UnmarshalBinary raw = Ok tx /\ tx_added id tx
    /\ erase_v t' = columns n (l ++ [tx]).
Proof.
  intros Ht [Hid Hok] Hlen. apply erase_fields in Ht as
    (H1 & H2 & H3 & H4 & H5 & H6 & H7 & H8 & H9 & H10 & H11).
  unfold add_tx. destruct (tx_UnmarshalBinary raw) as [tx| |] eqn:Eu; [|done|done].
  specialize (Hok tx eq_refl). cbn [map_err step].
  rewrite H9, SetBitUint_b2z.
  set (pb := if tx_Type tx =? LegacyTxType then _ else _).
  assert (pb = Ok (Some (bits_val (Protected <$> List.filter is_legacy (l ++ [tx]))))) as ->.
  { subst pb. rewrite List.filter_app. simpl. fold (is_legacy tx).
    destruct (is_legacy tx); [|by rewrite app_nil_r].
    by rewrite fmap_snoc', H11, <- bits_val_snoc, length_fmap. }
  cbn [step]. destruct (Protected tx && negb (tx_ChainId tx =? id)) eqn:Ec; [done|].
  cbn [contractCreationBits with_sig_to with_legacy yParityBits with_bits].
  rewrite H2, SetBitUint_b2z. cbn [step].
  destruct (convertVToYParity _ _) as [bit| |] eqn:Ev; [|done|done]. cbn [step].
  apply (parity_bit tx bit Hok) in Ev as ->. cbn [yParityBits with_bits with_sig_to with_legacy].
  rewrite H3, SetBitUint_b2z. cbn [step].
  destruct (newSpanBatchTx tx) as [d| |] eqn:Ed; [|done|done]. intros [= <-].
  exists tx. split; [done|]. split.
  { constructor; [done|done|by exists d|]. intros Hp. rewrite Hp in Ec. simpl in Ec.
    by apply negb_false_iff, Z.eqb_eq in Ec. }
  apply txs_ext; cbn -[fmap bits_val FromBig];
    rewrite ?H1, ?H5, ?H6, ?H7, ?H8, ?H10, ?H11, ?fmap_snoc', ?H4, <- ?bits_val_snoc, ?length_fmap;
    try done.
  - do 2 f_equal. unfold erase, bare_sig, FromBig. simpl.
    by rewrite !Z.mod_small by apply Hok.
  - rewrite omap_app. simpl. by destruct (tx_To tx); [|rewrite app_nil_r].
  - do 2 f_equal. unfold data_of. by rewrite Ed.
  - rewrite List.filter_app, length_app. simpl. fold (is_legacy tx).
    pose proof (filter_legacy_length l). destruct (is_legacy tx); simpl; [|f_equal; lia].
    rewrite u64_small by (unfold is_u64; lia). lia.
Qed.

Lemma add_loop_columns t n l id raws t' :
  erase_v t = columns n l -> Forall (tx_ok id) raws ->
  Z.of_nat (length l + length raws) < two64 ->
  add_loop t (Z.of_nat (length l)) raws id = (t', Ok ()) ->
  exists xs, Forall2 (fun raw tx => tx_UnmarshalBinary raw = Ok tx) raws xs
    /\ Forall (tx_added id) xs /\ erase_v t' = columns n (l ++ xs).
Proof.
  revert t l. induction raws as [|raw raws IH]; intros t l Ht Hok Hlen H; simpl in H.
  { injection H as <-. exists []. by rewrite app_nil_r. }
  apply Forall_cons in Hok as [Hraw Hok]. simpl in Hlen.
  destruct (add_tx t _ raw id) as [t1 [[]| |]] eqn:Ea; [|done|done].
  destruct (add_tx_columns t n l raw id t1) as (tx & Hu & Had & Ht1); [done|done|lia|done|].
  replace (Z.of_nat (length l) + 1) with (Z.of_nat (length (l ++ [tx]))) in H
    by (rewrite length_app; simpl; lia).
  destruct (IH t1 (l ++ [tx])) as (xs & Hf & Hadd & Hc); [done|done| |done|].
  { rewrite length_app. simpl. lia. }
  exists (tx :: xs). split_and!; [by constructor|by constructor|].
  by rewrite Hc, <- app_assoc.
Qed.

Lemma AddTxs_holds t id l l' : txs_holds t id l -> Forall (tx_ok id) l' ->
  Z.of_nat (length (l ++ l')) < two64 ->
  (spanBatchTxs_AddTxs t l' id).2 = Ok () ->
  txs_holds (spanBatchTxs_AddTxs t l' id).1 id (l ++ l').
Proof.
  intros (xs & Hf & Ha & Hl & Hc) Hok Hlen. unfold spanBatchTxs_AddTxs.
  pose proof (erase_fields _ _ _ Hc) as (Hn & _).
  pose proof (Forall2_length _ _ _ Hf) as Hxs. rewrite length_app in Hlen.
  destruct (add_loop t (totalBlockTxCount t) l' id) as [t' [[]| |]] eqn:Ea; [|done|done].
  intros _. rewrite Hn, Hxs in Ea.
  destruct (add_loop_columns t (Z.of_nat (length l)) xs id l' t') as (ys & Hf' & Ha' & Hc'); [done|done|lia|done|].
  exists (xs ++ ys). simpl. split_and!; [by apply Forall2_app|by apply Forall_app|
    by rewrite length_app|].
  pose proof (erase_fields _ _ _ Hc') as (Hn' & _).
  rewrite length_app, Hn'. apply (f_equal (fun t => with_count t (Z.of_nat (length l + length l'))))
    in Hc'.
  rewrite u64_small by (unfold is_u64; lia). rewrite <- Nat2Z.inj_add. exact Hc'.
Qed.

Lemma new_holds id : exists t, spanBatchTxs_new [] id = Ok t /\ txs_holds t id [].
Proof. eexists. split; [reflexivity|]. by exists []. Qed.

(** *** Encoding and decoding *)

Lemma newSpanBatchTx_ok tx d : newSpanBatchTx tx = Ok d -> data_ok d /\ txType d = tx_Type tx.
Proof.
  destruct (price_range tx) as (H1 & H2 & H3 & H4). unfold newSpanBatchTx.
  destruct (Z.eqb_spec (tx_Type tx) LegacyTxType) as [->|]; [by intros [= <-]|].
  destruct (Z.eqb_spec (tx_Type tx) AccessListTxType) as [->|]; [by intros [= <-]|].
  destruct (Z.eqb_spec (tx_Type tx) DynamicFeeTxType) as [->|]; [by intros [= <-]|].
  destruct (Z.eqb_spec (tx_Type tx) SetCodeTxType) as [->|]; [|done].
  intros (tip & Htip & (fee & Hfee & (value & Hval & [= <-])%rbind_Ok)%rbind_Ok)%rbind_Ok.
  apply MustFromBig_Ok in Htip as [? ->], Hfee as [? ->], Hval as [? ->]; [|done..].
  simpl. split; [lia|done].
Qed.

Lemma tx_type_cases tx d : newSpanBatchTx tx = Ok d -> 0 <= tx_Type tx <= 127.
Proof. intros [_ <-]%newSpanBatchTx_ok. by destruct d; vm_compute. Qed.

Lemma ReadTxData_data id tx r : tx_added id tx ->
  ReadTxData (data_of tx ++ r) = Ok (data_of tx, tx_Type tx, r).
Proof.
  intros [Hwf _ (d & Ed) _]. pose proof (wf_data tx Hwf d Ed) as Hsz.
  destruct (newSpanBatchTx_ok tx d Ed) as [Hd Ht]. pose proof (tx_type_cases tx d Ed) as Hc.
  destruct (rlp_stream MaxSpanBatchElementCount d r Hd Hsz) as [Hk Hr].
  destruct (rlp_prefix d Hd) as (b & rest & Eb & Hb).
  unfold data_of. rewrite Ed. unfold spanBatchTx_MarshalBinary. rewrite Ht.
  destruct (Z.eqb_spec (tx_Type tx) LegacyTxType) as [E|E]; unfold ReadTxData.
  - rewrite Eb in *. rewrite <- app_comm_cons in *.
    rewrite (proj2 (Z.leb_gt _ _)) by lia. rewrite Hk, Hr. simpl. by rewrite E.
  - rewrite <- app_comm_cons. rewrite (proj2 (Z.leb_le _ _)) by lia. by rewrite Hk, Hr.
Qed.

Lemma tos_count l : (length (List.filter id (creates <$> l)) + length (omap tx_To l) = length l)%nat.
Proof.
  induction l as [|tx l IH]; [done|]. rewrite fmap_cons. cbn [List.filter omap list_omap length].
  unfold creates at 1, id at 1. destruct (tx_To tx); simpl; lia.
Qed.

Lemma legacy_count (l : list X) :
  length (List.filter (fun d : bytes * Z => d.2 =? LegacyTxType)
            ((fun tx => (data_of tx, tx_Type tx)) <$> l))
  = length (List.filter is_legacy l).
Proof.
  induction l as [|tx l IH]; [done|]. rewrite fmap_cons. cbn [List.filter snd].
  fold (is_legacy tx). destruct (is_legacy tx); simpl; lia.
Qed.

(** The bits of a property of the elements of a list. *)
Definition bits_buf {B} (f : B -> bool) (l : list B) : bytes :=
  be_encode (Z.to_nat (bits_bufLen (Z.of_nat (length l)))) (bits_val (f <$> l)).

Lemma encode_bits_val {B} (f : B -> bool) l msg :
  encode_bits (Z.of_nat (length l)) (Some (bits_val (f <$> l))) msg = Ok (bits_buf f l).
Proof.
  unfold encode_bits. pose proof (bits_val_range (f <$> l)) as H. rewrite length_fmap in H.
  by rewrite encodeBits_Ok by lia.
Qed.

Lemma decode_bits_val {B} (f : B -> bool) l r :
  decodeSpanBatchBits (bits_buf f l ++ r) (Z.of_nat (length l)) = Ok (bits_val (f <$> l), r).
Proof.
  pose proof (bits_val_range (f <$> l)) as H. rewrite length_fmap in H.
  apply decodeBits_encode; lia.
Qed.

Lemma encode_erase t : spanBatchTxs_encode t = spanBatchTxs_encode (erase_v t).
Proof.
  unfold spanBatchTxs_encode, erase_v, encodeTxSigsRS. simpl.
  by rewrite <- list_fmap_compose.
Qed.

(** The columns are always encodable. *)
Lemma encode_columns xs :
  spanBatchTxs_encode (columns (Z.of_nat (length xs)) xs)
  = Ok (bits_buf creates xs ++ bits_buf parity xs ++ encodeTxSigsRS (bare_sig <$> xs)
        ++ encodeTxTos (omap tx_To xs) ++ encodeTxDatas (data_of <$> xs)
        ++ encodeTxNonces (Nonce <$> xs) ++ encodeTxGases (Gas <$> xs)
        ++ bits_buf Protected (List.filter is_legacy xs)).
Proof.
  unfold spanBatchTxs_encode. cbn [totalBlockTxCount contractCreationBits columns yParityBits
    protectedBits totalLegacyTxCount].
  by rewrite !encode_bits_val.
Qed.

Lemma read_sig_bare tx r : tx_wf tx ->
  read_sig ((be_encode 32 (RawR tx) ++ be_encode 32 (RawS tx)) ++ r) = Ok (bare_sig tx, r).
Proof.
  intros [Hr Hs _ _ _]. unfold read_sig, two256 in *.
  rewrite <- app_assoc, ReadFull_app by apply length_be_encode. cbn [rbind map_err].
  rewrite ReadFull_app by apply length_be_encode. cbn [rbind map_err].
  change (2 ^ 256) with (256 ^ Z.of_nat 32) in *.
  rewrite !be_decode_full by done. unfold FromBig, two256.
  by rewrite !Z.mod_small.
Qed.

Lemma tos_elem (xs : list X) to : to ∈ omap tx_To xs -> 0 <= to < 256 ^ 20.
Proof. intros (tx & _ & H)%list_elem_of_omap. by apply (to_range tx). Qed.

Lemma decode_columns ch xs buf r :
  Forall (tx_added ch) xs -> Z.of_nat (length xs) <= MaxSpanBatchElementCount ->
  spanBatchTxs_encode (columns (Z.of_nat (length xs)) xs) = Ok buf ->
  spanBatchTxs_decode (Z.of_nat (length xs)) (buf ++ r)
  = Ok (columns (Z.of_nat (length xs)) xs, r).
Proof.
  intros Ha Hn. rewrite Forall_forall in Ha. rewrite encode_columns. intros [= <-].
  unfold spanBatchTxs_decode, decodeContractCreationBits, decodeYParityBits, decodeProtectedBits,
    decodeTxSigsRS, decodeTxTos, decodeTxDatas, decodeTxNonces, decodeTxGases, encodeTxSigsRS,
    encodeTxTos, encodeTxDatas, encodeTxNonces, encodeTxGases.
  rewrite (proj2 (Z.ltb_ge _ _)) by done. rewrite <- !app_assoc, decode_bits_val.
  cbn [rbind map_err]. rewrite decode_bits_val. cbn [rbind map_err]. rewrite Nat2Z.id.
  rewrite <- !list_fmap_compose.
  rewrite (read_n_map _ bare_sig) by (intros x r' Hx; apply read_sig_bare, (Ha x Hx)).
  cbn [rbind]. rewrite <- (length_fmap creates xs) at 1 2. rewrite contractCreationCount_bits.
  replace (_ - _)%nat with (length (omap tx_To xs))
    by (pose proof (tos_count xs); rewrite length_fmap; lia).
  rewrite (read_n_map _ id).
  2:{ intros to r' Hto. rewrite ReadFull_app by apply length_be_encode. cbn [rbind map_err].
      rewrite be_decode_full; [done|]. by apply (tos_elem xs). }
  cbn [rbind]. rewrite list_fmap_id.
  rewrite (read_n_map _ (fun tx => (data_of tx, tx_Type tx))).
  2:{ intros x r' Hx. by rewrite (ReadTxData_data ch) by by apply Ha. }
  cbn [rbind]. rewrite legacy_count.
  rewrite (read_n_map _ Nonce).
  2:{ intros x r' _. simpl. by rewrite ReadUvarint_Put by apply nonce_range. }
  cbn [rbind]. rewrite (read_n_map _ Gas).
  2:{ intros x r' _. simpl. by rewrite ReadUvarint_Put by apply gas_range. }
  cbn [rbind]. rewrite (proj2 (Z.ltb_ge _ _)) by (pose proof (filter_legacy_length xs); lia).
  rewrite decode_bits_val. cbn [rbind map_err]. unfold columns. do 3 f_equal.
  all: by rewrite <- list_fmap_compose.
Qed.

(** *** Recovering the signatures *)

Definition full_sig (tx : X) : spanBatchSignature :=
  {| sig_v := RawV tx; sig_r := RawR tx; sig_s := RawS tx |}.

Lemma recover_v ch tx : tx_added ch tx ->
  (if tx_Type tx =? LegacyTxType then
     if negb (Protected tx) then Ok (27 +u Z.b2z (parity tx))
     else Ok (((u64 ch *u 2) +u 35) +u Z.b2z (parity tx))
   else if (tx_Type tx =? AccessListTxType) || (tx_Type tx =? DynamicFeeTxType)
           || (tx_Type tx =? SetCodeTxType)
   then Ok (Z.b2z (parity tx)) else Err (Msg "invalid tx type")) = Ok (RawV tx).
Proof.
  intros [Hwf [Hch1 Hch2] (d & Ed) Hc]. unfold parity, is_legacy.
  destruct (Z.eqb_spec (tx_Type tx) LegacyTxType) as [E|E].
  - destruct (legacy_protected tx E Hwf) as (_ & Ht & Hf). destruct (Protected tx) eqn:Ep; simpl.
    + specialize (Ht eq_refl). specialize (Hc eq_refl). f_equal.
      rewrite (chain_id_legacy tx E Ep) in Hc by lia.
      pose proof (Zdiv2_odd_eqn (RawV tx - 35)) as Ho. rewrite Z.div2_div, Hc in Ho.
      rewrite (u64_small ch) by (unfold is_u64; lia).
      rewrite (u64_small (ch * 2)) by (unfold is_u64; lia).
      destruct (Z.odd (RawV tx - 35)); simpl;
        rewrite !u64_small by (rewrite ?u64_small; unfold is_u64; lia); lia.
    + by destruct (Hf eq_refl) as [-> | ->].
  - apply newSpanBatchTx_ok in Ed as [_ Ht].
    replace (_ || _ || _) with true by (rewrite <- Ht in *; by destruct d).
    by destruct (wf_typed tx Hwf E) as [-> | ->].
Qed.

Lemma recover_loop_spec ch yp pb xs : forall sigs i p,
  0 <= i -> 0 <= p -> Forall (tx_added ch) xs -> erase <$> sigs = bare_sig <$> xs ->
  (forall k tx, xs !! k = Some tx -> Z.testbit yp (i + Z.of_nat k) = parity tx) ->
  (forall k tx, List.filter is_legacy xs !! k = Some tx ->
     Z.testbit pb (p + Z.of_nat k) = Protected tx) ->
  recover_loop yp pb ch i p (tx_Type <$> xs) sigs = Ok (full_sig <$> xs).
Proof.
  induction xs as [|tx xs IH]; intros sigs i p Hi Hp Ha Hs Hyp Hpb.
  { by destruct sigs. }
  destruct sigs as [|g sigs]; [done|]. rewrite !fmap_cons in Hs. injection Hs as Hr Hs' Hs.
  apply Forall_cons in Ha as [Htx Ha]. rewrite fmap_cons. cbn [recover_loop].
  pose proof (Hyp 0%nat tx eq_refl) as Hy0. rewrite Z.add_0_r in Hy0. rewrite Hy0.
  cbn [List.filter] in Hpb. fold (is_legacy tx) in *.
  assert (is_legacy tx = true -> Z.testbit pb p = Protected tx) as Hp0.
  { intros El. rewrite El in Hpb. specialize (Hpb 0%nat tx eq_refl). by rewrite Z.add_0_r in Hpb. }
  pose proof (recover_v ch tx Htx) as Hv. fold (is_legacy tx) in Hv.
  destruct (is_legacy tx) eqn:El.
  - rewrite Hp0 by done. rewrite Hv. cbn [rbind]. rewrite IH; [|lia|lia|done|done| |].
    + cbn [rbind]. unfold full_sig at 2. by rewrite Hr, Hs'.
    + intros k tx' Hk. rewrite <- (Hyp (S k) tx' Hk). f_equal. lia.
    + intros k tx' Hk. rewrite <- (Hpb (S k) tx' Hk). f_equal. lia.
  - rewrite Hv. cbn [rbind]. rewrite IH; [|lia|lia|done|done| |done].
    + cbn [rbind]. unfold full_sig at 2. by rewrite Hr, Hs'.
    + intros k tx' Hk. rewrite <- (Hyp (S k) tx' Hk). f_equal. lia.
Qed.

Lemma bits_of_elem {B} (f : B -> bool) l k x : l !! k = Some x ->
  Z.testbit (bits_val (f <$> l)) (0 + Z.of_nat k) = f x.
Proof. intros Hk. by rewrite Z.add_0_l, bits_val_testbit, list_lookup_fmap, Hk. Qed.

(** *** Reading back *)

Lemma unmarshal_data tx d : newSpanBatchTx tx = Ok d ->
  spanBatchTx_UnmarshalBinary (data_of tx) = Ok d.
Proof.
  intros Ed. destruct (newSpanBatchTx_ok tx d Ed) as [Hd Ht].
  destruct (rlp_prefix d Hd) as (b & rest & Eb & Hb). pose proof (rlp_roundtrip d Hd) as Hrt.
  unfold data_of. rewrite Ed. unfold spanBatchTx_MarshalBinary.
  destruct d; simpl in *; rewrite Eb in *; unfold spanBatchTx_UnmarshalBinary;
    [rewrite (proj2 (Z.ltb_lt _ _)) by lia; by rewrite Hrt| | |];
    simpl; by rewrite Hrt.
Qed.

Lemma convert_full ch tx d : tx_added ch tx -> newSpanBatchTx tx = Ok d ->
  convertToFullTx d (Nonce tx) (Gas tx) (tx_To tx) ch (RawV tx) (RawR tx) (RawS tx) = Ok tx.
Proof.
  intros [Hwf [Hc1 Hc2] _ Hc] Ed. destruct (newSpanBatchTx_ok tx d Ed) as [Hd Ht].
  assert (tx_Type tx <> LegacyTxType -> tx_ChainId tx = ch) as Hch
    by (intros E; by apply Hc, protected_typed).
  unfold newSpanBatchTx in Ed.
  destruct (Z.eqb_spec (tx_Type tx) LegacyTxType) as [E|E].
  { injection Ed as <-. simpl. by rewrite newtx_legacy. }
  specialize (Hch E). subst ch.
  destruct (Z.eqb_spec (tx_Type tx) AccessListTxType) as [E1|E1].
  { injection Ed as <-. simpl. by rewrite newtx_access_list. }
  destruct (Z.eqb_spec (tx_Type tx) DynamicFeeTxType) as [E2|E2].
  { injection Ed as <-. simpl. by rewrite newtx_dynamic_fee. }
  destruct (Z.eqb_spec (tx_Type tx) SetCodeTxType) as [E3|E3]; [|done].
  destruct (newtx_set_code tx E3) as (to & Hto & Hnew).
  assert (two64 < two256) by reflexivity.
  apply rbind_Ok in Ed as (tip & Htip & Ed). apply rbind_Ok in Ed as (fee & Hfee & Ed).
  apply rbind_Ok in Ed as (value & Hval & [= <-]).
  destruct (price_range tx) as (Hp1 & _ & Hp3 & Hp4).
  apply MustFromBig_Ok in Htip as [_ ->], Hfee as [_ ->], Hval as [_ ->]; [|done..].
  unfold convertToFullTx. rewrite Hto, MustFromBig_small by lia. cbn [rbind].
  rewrite MustFromBig_small by (destruct (wf_typed tx Hwf E) as [-> | ->]; unfold two256; lia). cbn [rbind].
  rewrite !MustFromBig_small by apply Hwf. cbn [rbind]. by rewrite Hnew.
Qed.

Lemma full_loop_spec ch t pre xs raws :
  Forall2 (fun raw tx => tx_UnmarshalBinary raw = Ok tx) raws xs -> Forall (tx_added ch) xs ->
  contractCreationBits t = Some (bits_val (creates <$> pre ++ xs)) ->
  txDatas t = data_of <$> pre ++ xs -> txNonces t = Nonce <$> pre ++ xs ->
  txGases t = Gas <$> pre ++ xs -> txTos t = omap tx_To (pre ++ xs) ->
  txSigs t = full_sig <$> pre ++ xs ->
  full_loop t ch (length xs) (length pre) (length (omap tx_To pre)) = Ok raws.
Proof.
  intros Hf. revert pre. induction Hf as [|raw tx raws xs Hraw Hf IH];
    intros pre Ha Hcc Hd Hn Hg Ht Hs; [done|].
  apply Forall_cons in Ha as [Htx Ha]. pose proof Htx as [_ _ (d & Ed) _].
  assert ((pre ++ tx :: xs) !! length pre = Some tx) as Hk
    by (by rewrite lookup_app_r, Nat.sub_diag by lia).
  cbn [length full_loop]. unfold at_index. rewrite Hd, Hn, Hg, Hs, !list_lookup_fmap, Hk.
  cbn [fmap option_fmap option_map rbind]. rewrite (unmarshal_data tx d Ed). cbn [rbind].
  rewrite Hcc. cbn [rbind].
  replace (Z.testbit _ _) with (creates tx)
    by (rewrite <- (Z.add_0_l (Z.of_nat _)); symmetry; by apply bits_of_elem).
  assert ((if creates tx then Ok None
           else match txTos t !! length (omap tx_To pre) with
                | Some to => Ok (Some to)
                | None => Err (Msg "tx to not enough")
                end) = Ok (tx_To tx)) as ->.
  { unfold creates. rewrite Ht, omap_app. cbn [omap list_omap].
    destruct (tx_To tx); simpl; [|done].
    by rewrite lookup_app_r, Nat.sub_diag by lia. }
  cbn [rbind full_sig sig_v sig_r sig_s]. rewrite (convert_full ch tx d Htx Ed). cbn [rbind].
  rewrite (unmarshal_marshal raw tx Hraw). cbn [rbind].
  specialize (IH (pre ++ [tx])). rewrite <- app_assoc in IH. simpl in IH.
  rewrite length_app, (omap_app tx_To pre [tx]), length_app in IH. cbn [length omap list_omap] in IH.
  assert (length (match tx_To tx with Some y => [y] | None => [] end)
          = if creates tx then 0%nat else 1%nat) as El
    by (unfold creates; by destruct (tx_To tx)).
  rewrite El, Nat.add_1_r in IH. specialize (IH Ha Hcc Hd Hn Hg Ht Hs).
  destruct (creates tx); rewrite ?Nat.add_0_r, ?Nat.add_1_r in IH; by rewrite IH.
Qed.

Lemma recover_full t ch l : txs_holds t ch l ->
  exists t', spanBatchTxs_recoverV t ch = Ok t' /\ spanBatchTxs_fullTxs t' ch = Ok l.
Proof.
  intros (xs & Hf & Ha & Hlen & Hc). apply erase_fields in Hc as
    (H1 & H2 & H3 & H4 & H5 & H6 & H7 & H8 & H9 & H10 & H11).
  pose proof (Forall2_length _ _ _ Hf) as Hl.
  unfold spanBatchTxs_recoverV. rewrite H10, H9, H3.
  assert (length (txSigs t) = length xs) as Hsig.
  { apply (f_equal length) in H4. by rewrite !length_fmap in H4. }
  rewrite length_fmap, bool_decide_eq_true_2 by done. cbn [negb].
  rewrite (recover_loop_spec ch); [|lia|lia|done|done| |].
  2,3: intros k tx Hk; by apply bits_of_elem.
  cbn [rbind]. eexists. split; [reflexivity|]. unfold spanBatchTxs_fullTxs. simpl.
  rewrite H1, Nat2Z.id, Hl.
  by apply (full_loop_spec ch (with_sigs t (full_sig <$> xs)) [] xs l).
Qed.

(** The columns keep what they promise to the span batch. *)
#[global] Instance spanBatchTxs_laws : SpanBatchTxsLaws spanBatchTxs tx_ok txs_holds.
Proof.
  constructor.
  - intros t ch l buf r (xs & Hf & Ha & Hlen & Hc) Hmax. simpl.
    pose proof (Forall2_length _ _ _ Hf) as Hl. rewrite encode_erase, Hc, Hl. rewrite Hl in Hmax.
    intros He. exists (columns (Z.of_nat (length xs)) xs).
    split; [by apply (decode_columns ch)|]. exists xs. split_and!; [done|done|done|].
    rewrite Hl. unfold erase_v, columns, with_sigs. simpl. by rewrite <- list_fmap_compose.
  - intros ch. apply new_holds.
  - intros t ch l l'. apply AddTxs_holds.
  - intros t ch l. apply recover_full.
Qed.

(** The columns lose nothing: for every list of transactions that the
    batcher's side accepts, whose signatures are EIP-155, pre-EIP-155 or
    typed ones and whose data fits the reader's limit, the columns can be
    encoded, decoding the bytes succeeds and leaves the rest of the input, and
    after recovering the signatures the full transactions are read back, byte
    by byte and in order. *)
Theorem span_columns_roundtrip ch l t :
  Forall (tx_ok ch) l -> Z.of_nat (length l) <= MaxSpanBatchElementCount ->
  spanBatchTxs_new l ch = Ok t ->
  exists buf, spanBatchTxs_encode t = Ok buf
    /\ forall r, exists t' t'',
         spanBatchTxs_decode (Z.of_nat (length l)) (buf ++ r) = Ok (t', r)
         /\ spanBatchTxs_recoverV t' ch = Ok t'' /\ spanBatchTxs_fullTxs t'' ch = Ok l.
Proof.
  intros Hok Hmax. unfold spanBatchTxs_new.
  destruct (new_holds ch) as (t0 & H0 & Hh0). injection H0 as <-.
  pose proof (AddTxs_holds empty_txs ch [] l Hh0 Hok) as Hadd.
  destruct (spanBatchTxs_AddTxs empty_txs l ch) as [t1 [[]| |]]; [|done|done].
  intros [= <-]. specialize (Hadd ltac:(simpl; unfold MaxSpanBatchElementCount, two64 in *; lia) eq_refl).
  simpl in Hadd. pose proof Hadd as (xs & Hf & _ & _ & Hc).
  pose proof (Forall2_length _ _ _ Hf) as Hl. rewrite Hl in Hc.
  assert (exists buf, spanBatchTxs_encode t1 = Ok buf) as [buf He]
    by (eexists; rewrite encode_erase, Hc; apply encode_columns).
  exists buf. split; [done|]. intros r.
  destruct (@txs_roundtrip _ _ _ _ spanBatchTxs_laws t1 ch l buf r Hadd Hmax He) as (t' & Hd & Hh').
  destruct (recover_full t' ch l Hh') as (t'' & Hr & Hfull). by exists t', t''.
Qed.

End ColumnLaws.

(** ** A concrete library

    Three transactions with a self-delimiting encoding of the data structs, on
    which the laws can be checked. *)

Inductive ex_tx : Type := ExEIP155 | ExHomestead | ExDynamic.

#[global] Instance ex_tx_eq_dec : EqDecision ex_tx.
Proof. solve_decision. Defined.

#[global] Instance TxData_eq_dec : EqDecision (TxData unit unit).
Proof. solve_decision. Defined.

Definition ex_data (tx : ex_tx) : TxData unit unit :=
  match tx with
  | ExEIP155 => LegacyTx 3 1000 21000 (Some 170) 5 [1; 2] 49 111 222
  | ExHomestead => LegacyTx 4 1000 53000 None 0 [96] 28 333 444
  | ExDynamic => DynamicFeeTx 7 5 10 2000 21000 (Some 187) 6 [] () 1 555 666
  end.

Definition ex_raw_tx (tx : ex_tx) : bytes :=
  match tx with
  | ExEIP155 => [193; 1]
  | ExHomestead => [193; 2]
  | ExDynamic => [2; 193; 3]
  end.

(** The first of the three with the property. *)
Definition ex_find (P : ex_tx -> bool) : option ex_tx :=
  List.find P [ExEIP155; ExHomestead; ExDynamic].

(** The fields of a data struct, with its type. *)
Definition data_fields (d : spanBatchTxData unit unit) : Z * Z * Z * Z * bytes :=
  match d with
  | spanBatchLegacyTxData v p b => (LegacyTxType, v, p, 0, b)
  | spanBatchAccessListTxData v p b _ => (AccessListTxType, v, p, 0, b)
  | spanBatchDynamicFeeTxData v t f b _ => (DynamicFeeTxType, v, t, f, b)
  | spanBatchSetCodeTxData v t f b _ _ => (SetCodeTxType, v, t, f, b)
  end.

Definition data_of_fields (x : Z * Z * Z * Z * bytes) : spanBatchTxData unit unit :=
  let '(k, v, p, q, b) := x in
  if k =? LegacyTxType then spanBatchLegacyTxData v p b
  else if k =? AccessListTxType then spanBatchAccessListTxData v p b ()
  else if k =? DynamicFeeTxType then spanBatchDynamicFeeTxData v p q b ()
  else spanBatchSetCodeTxData v p q b () ().

(** Binary digits with a terminator. *)
Fixpoint pos_digits (p : positive) : bytes :=
  match p with
  | xH => [2]
  | xO p' => 0 :: pos_digits p'
  | xI p' => 1 :: pos_digits p'
  end.

Fixpoint read_pos (b : bytes) : option (positive * bytes) :=
  match b with
  | [] => None
  | c :: t =>
      if c =? 2 then Some (xH, t)
      else '(p, r) ← read_pos t; Some ((if c =? 0 then xO p else xI p), r)
  end.

Lemma read_pos_digits p r : read_pos (pos_digits p ++ r) = Some (p, r).
Proof. induction p as [p IH|p IH|]; simpl; rewrite ?IH; done. Qed.

Definition ex_encode (d : spanBatchTxData unit unit) : bytes :=
  192 :: pos_digits (encode (data_fields d)).

#[local] Instance ex_lib : EthLib ex_tx unit unit := {
  tx_Type tx := match tx with ExDynamic => DynamicFeeTxType | _ => LegacyTxType end;
  Protected tx := match tx with ExHomestead => false | _ => true end;
  tx_ChainId tx := match tx with ExHomestead => 0 | _ => 7 end;
  RawV tx := match tx with ExEIP155 => 49 | ExHomestead => 28 | ExDynamic => 1 end;
  RawR tx := match tx with ExEIP155 => 111 | ExHomestead => 333 | ExDynamic => 555 end;
  RawS tx := match tx with ExEIP155 => 222 | ExHomestead => 444 | ExDynamic => 666 end;
  tx_To tx := match tx with ExEIP155 => Some 170 | ExHomestead => None | ExDynamic => Some 187 end;
  Nonce tx := match tx with ExEIP155 => 3 | ExHomestead => 4 | ExDynamic => 5 end;
  Gas tx := match tx with ExHomestead => 53000 | _ => 21000 end;
  GasPrice tx := match tx with ExDynamic => 2000 | _ => 1000 end;
  GasTipCap tx := match tx with ExDynamic => 10 | _ => 1000 end;
  GasFeeCap tx := match tx with ExDynamic => 2000 | _ => 1000 end;
  tx_Value tx := match tx with ExEIP155 => 5 | ExHomestead => 0 | ExDynamic => 6 end;
  tx_Data tx := match tx with ExEIP155 => [1; 2] | ExHomestead => [96] | ExDynamic => [] end;
  tx_AccessList _ := ();
  SetCodeAuthorizations _ := ();
  NewTx d := default ExEIP155 (ex_find (fun tx => bool_decide (ex_data tx = d)));
  tx_UnmarshalBinary b := match ex_find (fun tx => bool_decide (ex_raw_tx tx = b)) with
                          | Some tx => Ok tx
                          | None => Err ErrTxTypeNotSupported
                          end;
  tx_MarshalBinary tx := Ok (ex_raw_tx tx);
  rlp_Encode d := ex_encode d;
  rlp_Decode k b :=
    match b with
    | 192 :: t => match read_pos t with
                  | Some (p, []) => match decode p with
                                    | Some x => Ok (data_of_fields x)
                                    | None => Err EOF
                                    end
                  | _ => Err EOF
                  end
    | _ => Err EOF
    end;
  rlp_Kind limit b := match b with
                      | 192 :: _ => Ok RlpList
                      | [] => Err EOF
                      | _ => Ok RlpString
                      end;
  rlp_Raw limit b :=
    match b with
    | 192 :: t => match read_pos t with
                  | Some (p, r) =>
                      if limit <? 1 + Z.of_nat (length (pos_digits p)) then Err ErrValueTooLarge
                      else Ok (192 :: pos_digits p, r)
                  | None => Err EOF
                  end
    | _ => Err EOF
    end }.

#[local] Instance ex_laws : EthLibLaws ex_tx unit unit.
Proof.
  constructor.
  - intros b tx. cbn [tx_UnmarshalBinary tx_MarshalBinary ex_lib].
    destruct (ex_find _) as [tx'|] eqn:E; [|done]. intros [= <-].
    apply List.find_some in E as [_ E%bool_decide_eq_true]. by rewrite E.
  - by intros [].
  - by intros [].
  - by intros [].
  - by intros [].
  - by intros [].
  - intros [] Ht; simpl in *; [| |done].
    + split; [intros _|done]. rewrite !not_elem_of_cons. split_and!; [lia..|apply not_elem_of_nil].
    + split; [done|]. intros []. set_solver.
  - by intros [].
  - intros []; simpl; unfold is_u64, two64; lia.
  - intros []; simpl; unfold is_u64, two64; lia.
  - intros [] to [= <-]; lia.
  - intros []; simpl; lia.
  - intros d _. simpl. rewrite <- (app_nil_r (pos_digits _)), read_pos_digits, decode_encode.
    by destruct d; repeat match goal with x : unit |- _ => destruct x end.
  - intros d _. by eexists _, _.
  - intros limit d r _ Hl. simpl in *. split; [done|]. rewrite read_pos_digits.
    rewrite (proj2 (Z.ltb_ge _ _)) by lia. done.
Qed.

Definition ex_txs : list bytes := ex_raw_tx <$> [ExEIP155; ExHomestead; ExDynamic].

Lemma ex_tx_wf (tx : ex_tx) : tx_wf tx.
Proof.
  constructor.
  - destruct tx; unfold two256; simpl; lia.
  - destruct tx; unfold two256; simpl; lia.
  - destruct tx; intros [=]; unfold two64; simpl; lia.
  - destruct tx; simpl; intros H; [by destruct H..|lia].
  - intros d Hd. apply Z.leb_le.
    destruct tx; injection Hd as <-; vm_compute; reflexivity.
Qed.

Lemma ex_txs_ok l : Forall (tx_ok 7) l.
Proof.
  apply Forall_true. intros raw. split; [unfold id_ok, two64; lia|].
  intros tx _. apply ex_tx_wf.
Qed.

Definition ex_columns : spanBatchTxs :=
  match spanBatchTxs_new ex_txs 7 with Ok t => t | _ => empty_txs end.

Lemma span_columns_roundtrip_witness :
  spanBatchTxs_new ex_txs 7 = Ok ex_columns
  /\ exists buf, spanBatchTxs_encode ex_columns = Ok buf
    /\ forall r, exists t' t'', spanBatchTxs_decode 3 (buf ++ r) = Ok (t', r)
         /\ spanBatchTxs_recoverV t' 7 = Ok t'' /\ spanBatchTxs_fullTxs t'' 7 = Ok ex_txs.
Proof.
  split; [vm_compute; reflexivity|].
  apply (span_columns_roundtrip 7 ex_txs ex_columns).
  - apply ex_txs_ok.
  - unfold MaxSpanBatchElementCount. simpl. lia.
  - vm_compute. reflexivity.
Defined.

(** A span batch of three blocks of two epochs. *)
Definition ex_block (epoch time : Z) (l : list bytes) : SingularBatch :=
  {| sb_ParentHash := 77; sb_EpochNum := epoch; sb_EpochHash := 1000 + epoch;
     sb_Timestamp := time; sb_Transactions := l |}.

Definition ex_span_input : list (SingularBatch * Z) :=
  [(ex_block 5 100 (ex_raw_tx <$> [ExEIP155; ExDynamic]), 0); (ex_block 5 102 [], 1);
   (ex_block 6 104 [ex_raw_tx ExHomestead], 0)].

Definition ex_span : SpanBatch spanBatchTxs := (AppendAll (NewSpanBatch 50 7) ex_span_input).1.

Lemma ex_span_ok : span_ok 2 ex_span_input.*1.
Proof.
  constructor; [done| | | |].
  - intros i s s0 Hi [= <-]. do 3 (destruct i as [|i];
      [injection Hi as <-; split; [reflexivity|unfold is_u64, two64; simpl; lia]|]). done.
  - unfold two64. simpl. lia.
  - repeat constructor; unfold two64; simpl; lia.
  - split; [by left|]. split; [by right|]. done.
Qed.

Lemma append_derive_roundtrip_witness :
  exists rb sb, ToRawSpanBatch ex_span = Ok rb /\ derive rb 2 50 7 = Ok sb
    /\ Batches sb = singularBatchToElement <$> ex_span_input.*1.
Proof.
  destruct (append_derive_roundtrip (holds := txs_holds) 50 7 2 ex_span_input ex_span)
    as (rb & sb & s0 & s1 & H1 & H2 & _ & _ & H3 & _).
  - apply ex_span_ok.
  - apply Forall_true. intros s. apply ex_txs_ok.
  - vm_compute. reflexivity.
  - by exists rb, sb.
Defined.

Definition ex_raw : RawSpanBatch spanBatchTxs :=
  {| raw_prefix := {| relTimestamp := 50; l1OriginNum := 6; parentCheck := replicate 20 1;
                      l1OriginCheck := replicate 20 2 |};
     raw_payload := {| blockCount := 2; originBits := 2; blockTxCounts := [3; 0];
                       txs := Some ex_columns |} |}.

Lemma ex_raw_wf : raw_wf ex_raw.
Proof.
  constructor.
  1,2: unfold is_u64, two64; simpl; lia.
  1,2,3: reflexivity.
  - unfold MaxSpanBatchElementCount. simpl. lia.
  - simpl. lia.
  - unfold MaxSpanBatchElementCount. repeat constructor; simpl; lia.
  - unfold MaxSpanBatchElementCount. simpl. lia.
Qed.

Lemma ex_columns_holds : txs_holds ex_columns 7 ex_txs.
Proof.
  exists [ExEIP155; ExHomestead; ExDynamic]. split_and!.
  - repeat constructor.
  - apply Forall_true. intros tx. constructor; [apply ex_tx_wf|unfold id_ok, two64; lia| |].
    + destruct tx; by eexists.
    + by destruct tx.
  - unfold two64. simpl. lia.
  - vm_compute. reflexivity.
Qed.

Lemma RawSpanBatch_roundtrip_witness :
  exists buf t', RawSpanBatch_encode ex_raw = Ok buf
    /\ RawSpanBatch_decode (buf ++ [1; 2]) = Ok (with_txs ex_raw t', [1; 2])
    /\ batch_holds (holds := txs_holds) 7 (with_txs ex_raw t') ex_txs.
Proof.
  assert (exists buf, RawSpanBatch_encode ex_raw = Ok buf) as [buf Hb]
    by (eexists; vm_compute; reflexivity).
  exists buf. destruct (RawSpanBatch_roundtrip (holds := txs_holds) 7 ex_raw ex_txs buf [1; 2])
    as (t' & H1 & H2); [apply ex_raw_wf| |done|by exists t'].
  exists ex_columns. split_and!; [done|apply ex_columns_holds|done].
Defined.
