(* ===== verification/Batches.v ===== *)
(** * Batch validity

    Models [rhs-node/rollup/derive/batches.go] (the validity rules of
    singular and span batches) and the block-reference extraction of
    [rhs-node/rollup/derive/payload_util.go] that the span-batch rules call.
    [PayloadToBlockRef] writes to the rollup configuration it is given, so
    the functions that reach it return the configuration. *)

From S2P Require Import Prelude EthTypes RollupConfig SpanBatch.

(** ** Block references of payloads *)

Definition set_genesis_hash (cfg : Config) (h : Hash) : Config :=
  let g := cfg_Genesis cfg in
  {| cfg_Genesis := {| L2 := {| bid_Hash := h; bid_Number := bid_Number (L2 g) |};
                       L2Time := L2Time g; gen_SystemConfig := gen_SystemConfig g |};
     BlockTime := BlockTime cfg; cfg_MaxSequencerDrift := cfg_MaxSequencerDrift cfg;
     SeqWindowSize := SeqWindowSize cfg; ChannelTimeoutBedrock := ChannelTimeoutBedrock cfg;
     L2ChainID := L2ChainID cfg; RegolithTime := RegolithTime cfg;
     CanyonTime := CanyonTime cfg; DeltaTime := DeltaTime cfg;
     EcotoneTime := EcotoneTime cfg; FjordTime := FjordTime cfg;
     GraniteTime := GraniteTime cfg; HoloceneTime := HoloceneTime cfg;
     IsthmusTime := IsthmusTime cfg; JovianTime := JovianTime cfg;
     InteropTime := InteropTime cfg; PectraBlobScheduleTime := PectraBlobScheduleTime cfg |}.

(** Both branches set the sequence number to 0, and [L1Origin] stays the zero
    value. *)
Definition PayloadToBlockRef (cfg : Config) (payload : ExecutionPayload)
    : Config * result L2BlockRef :=
  let genesis := cfg_Genesis cfg in
  let cfg := if (ep_BlockNumber payload =? bid_Number (L2 genesis))
                && negb (ep_BlockHash payload =? bid_Hash (L2 genesis))
             then set_genesis_hash cfg (ep_BlockHash payload) else cfg in
  (cfg, Ok {| l2_Hash := ep_BlockHash payload; l2_Number := ep_BlockNumber payload;
              l2_ParentHash := ep_ParentHash payload; l2_Time := ep_Timestamp payload;
              l2_L1Origin := zeroBlockID; l2_SequenceNumber := 0 |}).

(** The EIP-1559 codec of the execution client's library. *)
Class EIP1559 := {
  ValidateHoloceneExtraData : bytes -> result unit;
  DecodeHoloceneExtraData : bytes -> Z * Z;
  EncodeHolocene1559Params : Z -> Z -> bytes }.

(** [copy(dst[:], src)] into an array. *)
Definition copy_into (dst src : bytes) : bytes :=
  take (length dst) src ++ drop (length src) dst.

Definition PayloadToSystemConfig `{!EIP1559} (cfg : Config) (payload : ExecutionPayload)
    : result SystemConfig :=
  let genesis := cfg_Genesis cfg in
  if ep_BlockNumber payload =? bid_Number (L2 genesis) then
    if negb (ep_BlockHash payload =? bid_Hash (L2 genesis)) then
      Err (Msg "expected core genesis hash to match core block at genesis block number")
    else Ok (gen_SystemConfig genesis)
  else
    let r := {| GasLimit := GasLimit (gen_SystemConfig genesis);
                EIP1559Params := EIP1559Params zeroSystemConfig;
                sc_OperatorFeeParams := sc_OperatorFeeParams zeroSystemConfig;
                MarshalPreHolocene := false |} in
    if IsHolocene cfg (ep_Timestamp payload) then
      let* _ := ValidateHoloceneExtraData (ep_ExtraData payload) in
      let (d, e) := DecodeHoloceneExtraData (ep_ExtraData payload) in
      Ok {| GasLimit := GasLimit r;
            EIP1559Params := copy_into (EIP1559Params r) (EncodeHolocene1559Params d e);
            sc_OperatorFeeParams := sc_OperatorFeeParams r;
            MarshalPreHolocene := MarshalPreHolocene r |}
    else Ok r.

(** ** Validity *)

Inductive BatchValidity : Type :=
  | BatchDrop
  | BatchAccept
  | BatchUndecided
  | BatchFuture
  | BatchPast.

#[global] Instance BatchValidity_eq_dec : EqDecision BatchValidity.
Proof. solve_decision. Defined.

(** [SafeBlockFetcher]: the execution client, queried for the safe chain. *)
Record SafeBlockFetcher : Type := {
  L2BlockRefByNumber : Z -> result L2BlockRef;
  PayloadByNumber : Z -> result ExecutionPayloadEnvelope }.

(** The transactions a singular batch may carry. *)
Definition singular_tx_ok (isIsthmus : bool) (tx : bytes) : bool :=
  match tx with
  | [] => false
  | b :: _ => negb (b =? DepositTxType) && negb (negb isIsthmus && (b =? SetCodeTxType))
  end.

(** The rules from the L1 origin on: hash, time, sequencer drift,
    transactions. *)
Definition check_origin_rules (cfg : Config) (l1Blocks : list L1BlockRef)
    (epoch batchOrigin : L1BlockRef) (batch : SingularBatch) : BatchValidity :=
  if negb (sb_EpochHash batch =? l1_Hash batchOrigin) then BatchDrop
  else if sb_Timestamp batch <? l1_Time batchOrigin then BatchDrop
  else
    let max := l1_Time batchOrigin +u MaxSequencerDrift (NewChainSpec cfg) (l1_Time batchOrigin) in
    let drift :=
      if max <? sb_Timestamp batch then
        match sb_Transactions batch with
        | [] =>
            if l1_Number epoch =? l1_Number batchOrigin then
              match l1Blocks with
              | _ :: nextOrigin :: _ =>
                  if l1_Time nextOrigin <=? sb_Timestamp batch then Some BatchDrop else None
              | _ => Some BatchUndecided
              end
            else None
        | _ => Some BatchDrop
        end
      else None in
    match drift with
    | Some v => v
    | None =>
        if forallb (singular_tx_ok (IsIsthmus cfg (sb_Timestamp batch))) (sb_Transactions batch)
        then BatchAccept else BatchDrop
    end.

Definition checkSingularBatch (cfg : Config) (l1Blocks : list L1BlockRef)
    (l2SafeHead : L2BlockRef) (batch : SingularBatch) (l1InclusionBlock : L1BlockRef)
    : BatchValidity :=
  match l1Blocks with
  | [] => BatchUndecided
  | epoch :: later =>
      let nextTimestamp := l2_Time l2SafeHead +u BlockTime cfg in
      if nextTimestamp <? sb_Timestamp batch then
        if IsHolocene cfg (l1_Time l1InclusionBlock) then BatchDrop else BatchFuture
      else if sb_Timestamp batch <? nextTimestamp then
        if IsHolocene cfg (l1_Time l1InclusionBlock) then BatchPast else BatchDrop
      else if negb (sb_ParentHash batch =? l2_Hash l2SafeHead) then BatchDrop
      else if (sb_EpochNum batch +u SeqWindowSize cfg) <? l1_Number l1InclusionBlock then BatchDrop
      else if sb_EpochNum batch <? l1_Number epoch then BatchDrop
      else if sb_EpochNum batch =? l1_Number epoch then
        check_origin_rules cfg l1Blocks epoch epoch batch
      else if sb_EpochNum batch =? l1_Number epoch +u 1 then
        match later with
        | [] => BatchUndecided
        | next :: _ => check_origin_rules cfg l1Blocks epoch next batch
        end
      else BatchDrop
  end.

Section Span.
Context {T : Type}.
Implicit Types batch : SpanBatch T.

(** [for _, l1Block := range l1Blocks { if l1Block.Number == endEpochNum ... }] *)
Definition check_end_origin (l1Blocks : list L1BlockRef) (endEpochNum : Z) batch
    : option bool :=
  match find_origin l1Blocks 0 endEpochNum with
  | None => None
  | Some (_, o) => Some (CheckOriginHash batch (l1_Hash o))
  end.

Definition checkSpanBatchPrefix (cfg : Config) (l1Blocks : list L1BlockRef)
    (l2SafeHead : L2BlockRef) batch (l1InclusionBlock : L1BlockRef)
    (l2Fetcher : SafeBlockFetcher) : result (BatchValidity * L2BlockRef) :=
  match l1Blocks with
  | [] => Ok (BatchUndecided, zeroL2BlockRef)
  | epoch :: later =>
      let* startEpochNum := GetStartEpochNum batch in
      let batchOrigin :=
        if startEpochNum =? l1_Number epoch +u 1 then head later else Some epoch in
      match batchOrigin with
      | None => Ok (BatchUndecided, zeroL2BlockRef)
      | Some batchOrigin =>
      if negb (IsDelta cfg (l1_Time batchOrigin)) then Ok (BatchDrop, zeroL2BlockRef) else
      let nextTimestamp := l2_Time l2SafeHead +u BlockTime cfg in
      let* timestamp := GetTimestamp batch in
      let* lastTimestamp := GetBlockTimestamp batch (GetBlockCount batch - 1) in
      if nextTimestamp <? timestamp then
        Ok (if IsHolocene cfg (l1_Time l1InclusionBlock) then BatchDrop else BatchFuture,
            zeroL2BlockRef)
      else if lastTimestamp <? nextTimestamp then
        Ok (if IsHolocene cfg (l1_Time l1InclusionBlock) then BatchPast else BatchDrop,
            zeroL2BlockRef)
      else
      (* [inl] returns early, [inr] is the parent block *)
      let* parent :=
        if timestamp <? nextTimestamp then
          if l2_Time l2SafeHead <? timestamp then Ok (inl BatchDrop)
          else if BlockTime cfg =? 0 then Panic
          else if negb ((l2_Time l2SafeHead -u timestamp) mod BlockTime cfg =? 0)
               then Ok (inl BatchDrop)
          else
            let parentNum :=
              (l2_Number l2SafeHead -u (l2_Time l2SafeHead -u timestamp) / BlockTime cfg) -u 1 in
            match L2BlockRefByNumber l2Fetcher parentNum with
            | Ok parentBlock => Ok (inr parentBlock)
            | Err _ => Ok (inl BatchUndecided)
            | Panic => Panic
            end
        else Ok (inr l2SafeHead) in
      match parent with
      | inl v => Ok (v, zeroL2BlockRef)
      | inr parentBlock =>
          if negb (CheckParentHash batch (l2_Hash parentBlock)) then Ok (BatchDrop, parentBlock)
          else if (startEpochNum +u SeqWindowSize cfg) <? l1_Number l1InclusionBlock then
            Ok (BatchDrop, parentBlock)
          else if (bid_Number (l2_L1Origin parentBlock) +u 1) <? startEpochNum then
            Ok (BatchDrop, parentBlock)
          else
            let* endEpochNum := GetBlockEpochNum batch (GetBlockCount batch - 1) in
            match check_end_origin l1Blocks endEpochNum batch with
            | None => Ok (BatchUndecided, parentBlock)
            | Some false => Ok (BatchDrop, parentBlock)
            | Some true =>
                if startEpochNum <? bid_Number (l2_L1Origin parentBlock)
                then Ok (BatchDrop, parentBlock)
                else Ok (BatchAccept, parentBlock)
            end
      end
      end
  end.

(** The transactions a span batch may carry. *)
Definition span_tx_ok (tx : bytes) : bool :=
  match tx with
  | [] => false
  | b :: _ => negb (b =? DepositTxType)
  end.

(** One iteration of the loop over the new blocks: the index of the origin and
    [None] to go on, or the verdict to return. *)
Definition check_block (cfg : Config) (l1Blocks : list L1BlockRef) (originIdx : nat)
    (originAdvanced : bool) (el : SpanBatchElement) : nat * option BatchValidity :=
  let '(originIdx, l1Origin) :=
    match find_origin l1Blocks originIdx (el_EpochNum el) with
    | Some (j, o) => (j, o)
    | None => (originIdx, zeroL1BlockRef)
    end in
  let blockTimestamp := el_Timestamp el in
  (originIdx,
   if blockTimestamp <? l1_Time l1Origin then Some BatchDrop
   else
     let max := l1_Time l1Origin +u MaxSequencerDrift (NewChainSpec cfg) (l1_Time l1Origin) in
     let drift :=
       if max <? blockTimestamp then
         match el_Transactions el with
         | [] =>
             if negb originAdvanced then
               match l1Blocks !! S originIdx with
               | None => Some BatchUndecided
               | Some next => if l1_Time next <=? blockTimestamp then Some BatchDrop else None
               end
             else None
         | _ => Some BatchDrop
         end
       else None in
     match drift with
     | Some v => Some v
     | None => if forallb span_tx_ok (el_Transactions el) then None else Some BatchDrop
     end).

(** [prev] is the block before, [None] at index 0. *)
Fixpoint check_blocks (cfg : Config) (l1Blocks : list L1BlockRef) (safeTime : Z)
    (originIdx : nat) (originAdvanced : bool) (prev : option SpanBatchElement)
    (els : list SpanBatchElement) : option BatchValidity :=
  match els with
  | [] => None
  | el :: rest =>
      if el_Timestamp el <=? safeTime then
        check_blocks cfg l1Blocks safeTime originIdx originAdvanced (Some el) rest
      else
        let originAdvanced := match prev with
                              | None => originAdvanced
                              | Some p => el_EpochNum p <? el_EpochNum el
                              end in
        match check_block cfg l1Blocks originIdx originAdvanced el with
        | (_, Some v) => Some v
        | (originIdx, None) =>
            check_blocks cfg l1Blocks safeTime originIdx originAdvanced (Some el) rest
        end
  end.

(** [tx[0]] of an empty transaction panics. *)
Fixpoint count_deposits (l : list bytes) : result Z :=
  match l with
  | [] => Ok 0
  | [] :: _ => Panic
  | (b :: _) :: t => let* n := count_deposits t in Ok (if b =? DepositTxType then n + 1 else n)
  end.

(** One iteration of the overlap loop: [None] to go on, or the verdict. *)
Definition check_overlap (cfg : Config) batch (l2Fetcher : SafeBlockFetcher)
    (safeBlockNum : Z) (i : nat) : Config * result (option BatchValidity) :=
  match PayloadByNumber l2Fetcher safeBlockNum with
  | Panic => (cfg, Panic)
  | Err _ => (cfg, Ok (Some BatchUndecided))
  | Ok env =>
      let payload := env_ExecutionPayload env in
      let safeBlockTxs := ep_Transactions payload in
      match GetBlockTransactions batch i, count_deposits safeBlockTxs with
      | Ok batchTxs, Ok depositCount =>
          if negb (Z.of_nat (length safeBlockTxs) - depositCount =? Z.of_nat (length batchTxs))
          then (cfg, Ok (Some BatchDrop))
          else if negb (bool_decide (take (length batchTxs)
                          (drop (Z.to_nat depositCount) safeBlockTxs) = batchTxs))
          then (cfg, Ok (Some BatchDrop))
          else
            let (cfg, ref) := PayloadToBlockRef cfg payload in
            match ref, GetBlockEpochNum batch i with
            | Ok safeBlockRef, Ok epochNum =>
                (cfg, Ok (if negb (bid_Number (l2_L1Origin safeBlockRef) =? epochNum)
                          then Some BatchDrop else None))
            | Err _, _ => (cfg, Ok (Some BatchDrop))
            | _, _ => (cfg, Panic)
            end
      | _, _ => (cfg, Panic)
      end
  end.

(** [n] overlapped blocks are left, from index [i] on. *)
Fixpoint check_overlaps (cfg : Config) batch (l2Fetcher : SafeBlockFetcher) (parentNum : Z)
    (i n : nat) : Config * result BatchValidity :=
  match n with
  | O => (cfg, Ok BatchAccept)
  | S n' =>
      match check_overlap cfg batch l2Fetcher (parentNum +u Z.of_nat i +u 1) i with
      | (cfg, Ok None) => check_overlaps cfg batch l2Fetcher parentNum (S i) n'
      | (cfg, Ok (Some v)) => (cfg, Ok v)
      | (cfg, Err e) => (cfg, Err e)
      | (cfg, Panic) => (cfg, Panic)
      end
  end.

Definition checkSpanBatch (cfg : Config) (l1Blocks : list L1BlockRef)
    (l2SafeHead : L2BlockRef) batch (l1InclusionBlock : L1BlockRef)
    (l2Fetcher : SafeBlockFetcher) : Config * result BatchValidity :=
  match checkSpanBatchPrefix cfg l1Blocks l2SafeHead batch l1InclusionBlock l2Fetcher with
  | Panic => (cfg, Panic)
  | Err e => (cfg, Err e)
  | Ok (prefixValidity, parentBlock) =>
      if negb (bool_decide (prefixValidity = BatchAccept)) then (cfg, Ok prefixValidity)
      else match GetStartEpochNum batch, GetTimestamp batch with
      | Ok startEpochNum, Ok timestamp =>
          let originAdvanced := startEpochNum =? bid_Number (l2_L1Origin parentBlock) +u 1 in
          match check_blocks cfg l1Blocks (l2_Time l2SafeHead) 0 originAdvanced None
                  (Batches batch) with
          | Some v => (cfg, Ok v)
          | None =>
              let parentNum := l2_Number parentBlock in
              if timestamp <? l2_Time l2SafeHead +u BlockTime cfg then
                check_overlaps cfg batch l2Fetcher parentNum 0
                  (Z.to_nat (l2_Number l2SafeHead -u parentNum))
              else (cfg, Ok BatchAccept)
          end
      | _, _ => (cfg, Panic)
      end
  end.

End Span.

(** A batch with the L1 block it was included in. *)
Inductive Batch (T : Type) : Type :=
  | Singular (b : SingularBatch)
  | Span (b : SpanBatch T).
Arguments Singular {T} b.
Arguments Span {T} b.

Record BatchWithL1InclusionBlock (T : Type) : Type := {
  bw_Batch : Batch T;
  L1InclusionBlock : L1BlockRef }.
Arguments bw_Batch {T} _.
Arguments L1InclusionBlock {T} _.

Definition CheckBatch {T} (cfg : Config) (l1Blocks : list L1BlockRef) (l2SafeHead : L2BlockRef)
    (batch : BatchWithL1InclusionBlock T) (l2Fetcher : SafeBlockFetcher)
    : Config * result BatchValidity :=
  match bw_Batch batch with
  | Singular b => (cfg, Ok (checkSingularBatch cfg l1Blocks l2SafeHead b (L1InclusionBlock batch)))
  | Span b => checkSpanBatch cfg l1Blocks l2SafeHead b (L1InclusionBlock batch) l2Fetcher
  end.

(** ** Singular batches: what acceptance means *)

(** Sequencer drift: within the maximum, or an empty batch that either
    advances the epoch or comes before the next L1 origin. *)
Definition drift_ok (cfg : Config) (l1Blocks : list L1BlockRef) (epoch origin : L1BlockRef)
    (batch : SingularBatch) : Prop :=
  sb_Timestamp batch <= l1_Time origin +u MaxSequencerDrift (NewChainSpec cfg) (l1_Time origin)
  \/ sb_Transactions batch = []
     /\ (l1_Number epoch <> l1_Number origin
         \/ exists next, l1Blocks !! 1%nat = Some next /\ sb_Timestamp batch < l1_Time next).

(** The L1 origin the batch names: the current epoch or the next block. *)
Definition names_origin (l1Blocks : list L1BlockRef) (batch : SingularBatch)
    (epoch origin : L1BlockRef) : Prop :=
  l1Blocks !! 0%nat = Some epoch
  /\ (sb_EpochNum batch = l1_Number epoch /\ origin = epoch
      \/ l1_Number epoch < sb_EpochNum batch /\ sb_EpochNum batch = l1_Number epoch +u 1
         /\ l1Blocks !! 1%nat = Some origin).

Record singular_valid (cfg : Config) (l1Blocks : list L1BlockRef) (safe : L2BlockRef)
    (batch : SingularBatch) (inclusion : L1BlockRef) : Prop := {
  sv_time : sb_Timestamp batch = l2_Time safe +u BlockTime cfg;
  sv_parent : sb_ParentHash batch = l2_Hash safe;
  sv_window : l1_Number inclusion <= sb_EpochNum batch +u SeqWindowSize cfg;
  sv_origin : exists epoch origin, names_origin l1Blocks batch epoch origin
    /\ sb_EpochHash batch = l1_Hash origin /\ l1_Time origin <= sb_Timestamp batch
    /\ drift_ok cfg l1Blocks epoch origin batch;
  sv_txs : Forall (fun tx => singular_tx_ok (IsIsthmus cfg (sb_Timestamp batch)) tx = true)
             (sb_Transactions batch) }.

(** Turns boolean comparisons of the goal into cases with their meaning. *)
Ltac cmp_cases :=
  repeat match goal with
  | |- context [?a <? ?b] => destruct (Z.ltb_spec a b)
  | |- context [?a <=? ?b] => destruct (Z.leb_spec a b)
  | |- context [?a =? ?b] => destruct (Z.eqb_spec a b)
  end; cbn [negb andb orb].

Lemma Forall_forallb {A} (P : A -> bool) l : forallb P l = true <-> Forall (fun a => P a = true) l.
Proof. rewrite forallb_forall, List.Forall_forall. done. Qed.

Lemma check_origin_rules_accept cfg l1Blocks epoch origin batch :
  (exists later, l1Blocks = epoch :: later) ->
  check_origin_rules cfg l1Blocks epoch origin batch = BatchAccept
  <-> sb_EpochHash batch = l1_Hash origin /\ l1_Time origin <= sb_Timestamp batch
      /\ drift_ok cfg l1Blocks epoch origin batch
      /\ Forall (fun tx => singular_tx_ok (IsIsthmus cfg (sb_Timestamp batch)) tx = true)
           (sb_Transactions batch).
Proof.
  intros [later ->]. unfold check_origin_rules, drift_ok. rewrite <- Forall_forallb.
  destruct (Z.eqb_spec (sb_EpochHash batch) (l1_Hash origin)); cbn [negb]; [|naive_solver].
  destruct (Z.ltb_spec (sb_Timestamp batch) (l1_Time origin)); [naive_solver lia|].
  destruct (Z.ltb_spec (l1_Time origin +u MaxSequencerDrift (NewChainSpec cfg) (l1_Time origin))
              (sb_Timestamp batch)).
  2:{ destruct (forallb _ _); naive_solver lia. }
  destruct (sb_Transactions batch) as [|tx txs]; [|naive_solver lia].
  destruct (Z.eqb_spec (l1_Number epoch) (l1_Number origin)); simpl; [|naive_solver lia].
  destruct later as [|next later]; [naive_solver lia|].
  destruct (Z.leb_spec (l1_Time next) (sb_Timestamp batch)); naive_solver lia.
Qed.

Lemma checkSingularBatch_accept cfg l1Blocks safe batch inclusion :
  checkSingularBatch cfg l1Blocks safe batch inclusion = BatchAccept
  <-> singular_valid cfg l1Blocks safe batch inclusion.
Proof.
  split.
  - unfold checkSingularBatch. destruct l1Blocks as [|epoch later]; [done|].
    cmp_cases; try done; try by case_match.
    + intros (Ha1 & Ha2 & Ha3 & Ha4)%check_origin_rules_accept; [|by eexists].
      constructor; [lia|done|lia| |done]. exists epoch, epoch. split; [split; [done|by left]|done].
    + destruct later as [|next later]; [done|].
      intros (Ha1 & Ha2 & Ha3 & Ha4)%check_origin_rules_accept; [|by eexists].
      constructor; [lia|done|lia| |done]. exists epoch, next. split; [|done].
      split; [done|]. right. split_and!; [lia|done|done].
  - intros [H1 H2 H3 (epoch & origin & [He Ho] & H4 & H5 & H6) H7].
    destruct l1Blocks as [|epoch' later]; [done|]. injection He as ->.
    unfold checkSingularBatch. cmp_cases; try lia; try done.
    + destruct Ho as [[_ ->]|(? & ? & ?)]; [|lia].
      apply check_origin_rules_accept; [by eexists|done].
    + destruct Ho as [[? _]|(_ & _ & Hn)]; [lia|].
      destruct later as [|next later]; [done|]. injection Hn as ->.
      apply check_origin_rules_accept; [by eexists|done].
Qed.

(** C6: a singular batch is accepted exactly when it follows the safe head (by
    time and parent hash), was included within the sequencing window, names
    the current or the next L1 block with its hash as origin, is not older
    than it, respects the sequencer drift and carries only transactions a
    sequencer may include. *)
Theorem checkSingularBatch_spec cfg l1Blocks safe batch inclusion :
  checkSingularBatch cfg l1Blocks safe batch inclusion = BatchAccept
  <-> singular_valid cfg l1Blocks safe batch inclusion.
Proof. apply checkSingularBatch_accept. Qed.

Lemma check_origin_rules_more cfg epoch later more origin batch :
  check_origin_rules cfg (epoch :: later) epoch origin batch <> BatchUndecided ->
  check_origin_rules cfg (epoch :: later ++ more) epoch origin batch
  = check_origin_rules cfg (epoch :: later) epoch origin batch.
Proof.
  unfold check_origin_rules. cmp_cases; try done.
  all: destruct (sb_Transactions batch); try done; destruct later; done.
Qed.

Lemma check_origin_rules_decided cfg epoch next later origin batch :
  check_origin_rules cfg (epoch :: next :: later) epoch origin batch <> BatchUndecided.
Proof.
  unfold check_origin_rules. cmp_cases; try done.
  all: destruct (sb_Transactions batch); try done; simpl; repeat case_match; done.
Qed.

(** The verdict on a singular batch does not depend on how many L1 blocks
    are already known: a decision taken with some L1 blocks stays the same
    when more are appended, and two L1 blocks are always enough to decide. *)
Theorem checkSingularBatch_eager cfg l1Blocks safe batch inclusion :
  (checkSingularBatch cfg l1Blocks safe batch inclusion <> BatchUndecided ->
   forall more, checkSingularBatch cfg (l1Blocks ++ more) safe batch inclusion
                = checkSingularBatch cfg l1Blocks safe batch inclusion)
  /\ ((2 <= length l1Blocks)%nat ->
      checkSingularBatch cfg l1Blocks safe batch inclusion <> BatchUndecided).
Proof.
  unfold checkSingularBatch. split.
  - destruct l1Blocks as [|epoch later]; [done|]. intros Hd more. rewrite <- app_comm_cons.
    revert Hd. cmp_cases; try done; intros Hd.
    + by apply check_origin_rules_more.
    + destruct later as [|next later]; [done|]. by apply (check_origin_rules_more _ _ (next :: later)).
  - destruct l1Blocks as [|epoch [|next later]]; simpl; [lia|lia|]. intros _.
    cmp_cases; try done; try (by case_match); apply check_origin_rules_decided.
Qed.

(** ** Span batches *)

Section SpanLaws.
Context {T : Type}.
Implicit Types batch : SpanBatch T.

(** What the block loop guarantees for the singular batch of a new block. *)
Definition block_ok (cfg : Config) (l1Blocks : list L1BlockRef) (s : SingularBatch) : Prop :=
  exists o, o ∈ l1Blocks /\ l1_Number o = sb_EpochNum s /\ l1_Hash o = sb_EpochHash s
    /\ l1_Time o <= sb_Timestamp s
    /\ (sb_Timestamp s <= l1_Time o +u MaxSequencerDrift (NewChainSpec cfg) (l1_Time o)
        \/ sb_Transactions s = [])
    /\ Forall (fun tx => span_tx_ok tx = true) (sb_Transactions s).

Lemma check_blocks_singular cfg l1Blocks safeTime els : forall idx adv prev l,
  check_blocks cfg l1Blocks safeTime idx adv prev els = None ->
  singular_loop l1Blocks safeTime idx els = Ok l ->
  Forall (block_ok cfg l1Blocks) l.
Proof.
  induction els as [|el els IH]; intros idx adv prev l; simpl.
  { intros _ [= <-]. constructor. }
  destruct (Z.leb_spec (el_Timestamp el) safeTime); [apply IH|].
  destruct (find_origin l1Blocks idx (el_EpochNum el)) as [[j o]|] eqn:Ef; [|done].
  unfold check_block. rewrite Ef.
  apply find_origin_Some in Ef as (_ & Ho & Hn). apply list_elem_of_lookup_2 in Ho.
  destruct (Z.ltb_spec (el_Timestamp el) (l1_Time o)); [done|].
  intros Hc (l' & Hl & [= <-])%rbind_Ok.
  assert (forallb span_tx_ok (el_Transactions el) = true
    /\ (el_Timestamp el <= l1_Time o +u MaxSequencerDrift (NewChainSpec cfg) (l1_Time o)
        \/ el_Transactions el = [])
    /\ exists adv', check_blocks cfg l1Blocks safeTime j adv' (Some el) els = None)
    as (Htx & Hd & adv' & Hrest).
  { revert Hc. destruct (Z.ltb_spec
      (l1_Time o +u MaxSequencerDrift (NewChainSpec cfg) (l1_Time o)) (el_Timestamp el)).
    - destruct (el_Transactions el); [|done]. simpl. repeat case_match; naive_solver.
    - destruct (forallb _ _); [|done]. naive_solver. }
  constructor; [|by eapply IH].
  exists o. simpl. split_and!; try done. by apply Forall_forallb.
Qed.

(** The loop over the new blocks never returns early with acceptance. *)
Lemma check_blocks_not_accept cfg l1Blocks safeTime els : forall idx adv prev,
  check_blocks cfg l1Blocks safeTime idx adv prev els <> Some BatchAccept.
Proof.
  induction els as [|el els IH]; intros idx adv prev; simpl; [done|].
  destruct (_ <=? _); [apply IH|]. unfold check_block.
  repeat (case_match; simplify_eq/=; try done); apply IH.
Qed.

Lemma check_overlaps_epochs fetcher parentNum batch n : forall cfg cfg' i,
  check_overlaps cfg batch fetcher parentNum i n = (cfg', Ok BatchAccept) ->
  forall k el, (i <= k < i + n)%nat -> Batches batch !! k = Some el -> el_EpochNum el = 0.
Proof.
  induction n as [|n IH]; intros cfg cfg' i; simpl; [lia|].
  destruct (check_overlap cfg batch fetcher (parentNum +u Z.of_nat i +u 1) i)
    as [cfg1 [[v|]| |]] eqn:E; [| |done|done].
  { intros [= -> ->]. exfalso. unfold check_overlap in E.
    repeat (case_match; simplify_eq/=; try done). }
  intros Hrest k el Hk Hel.
  destruct (decide (k = i)) as [->|]; [|by eapply (IH _ _ _ Hrest k); [lia|]].
  unfold check_overlap, PayloadToBlockRef, GetBlockEpochNum, element in E. rewrite Hel in E.
  simpl in E. repeat (case_match; simplify_eq/=; try done).
Qed.

(** The overlap count of an accepted span batch that starts at or before the
    safe head. *)
Lemma checkSpanBatch_overlap cfg cfg' l1Blocks safe batch incl fetcher t :
  checkSpanBatch cfg l1Blocks safe batch incl fetcher = (cfg', Ok BatchAccept) ->
  GetTimestamp batch = Ok t -> t < l2_Time safe +u BlockTime cfg ->
  exists parent,
    checkSpanBatchPrefix cfg l1Blocks safe batch incl fetcher = Ok (BatchAccept, parent)
    /\ check_overlaps cfg batch fetcher (l2_Number parent) 0
         (Z.to_nat (l2_Number safe -u l2_Number parent)) = (cfg', Ok BatchAccept).
Proof.
  unfold checkSpanBatch. intros H Ht Hlt.
  destruct (checkSpanBatchPrefix _ _ _ _ _ _) as [[v parent]| |]; [|done|done].
  rewrite Ht in H. case_bool_decide; simpl in H; [|naive_solver]. subst v.
  exists parent. split; [done|]. destruct (GetStartEpochNum batch); [|done|done].
  destruct (check_blocks _ _ _ _ _ _ _) as [v|] eqn:Eb.
  { injection H as _ ->. by apply check_blocks_not_accept in Eb. }
  by rewrite (proj2 (Z.ltb_lt _ _)) in H by lia.
Qed.

(** A span batch that overlaps the safe chain is accepted only if all its
    overlapped blocks claim L1 epoch 0: the reference of a safe block is
    extracted without its L1 origin, so the comparison of origin numbers
    drops every other overlapping batch. *)
Theorem overlapping_span_needs_epoch_zero cfg cfg' l1Blocks safe batch incl fetcher t :
  checkSpanBatch cfg l1Blocks safe batch incl fetcher = (cfg', Ok BatchAccept) ->
  GetTimestamp batch = Ok t -> t < l2_Time safe +u BlockTime cfg ->
  exists parent,
    checkSpanBatchPrefix cfg l1Blocks safe batch incl fetcher = Ok (BatchAccept, parent)
    /\ forall k el, Z.of_nat k < l2_Number safe -u l2_Number parent ->
         Batches batch !! k = Some el -> el_EpochNum el = 0.
Proof.
  intros H Ht Hlt. destruct (checkSpanBatch_overlap _ _ _ _ _ _ _ _ H Ht Hlt) as (p & Hp & Ho).
  exists p. split; [done|]. intros k el Hk. eapply check_overlaps_epochs; [exact Ho|]. lia.
Qed.

(** The singular batches a span batch expands to, once the block rules of
    the span batch passed, obey the singular rules that depend on their own
    L1 origin: it is among the known L1 blocks with their hash, not younger
    than the block, within the sequencer drift unless the block is empty,
    and no block carries an empty or a deposit transaction. *)
Theorem accepted_span_blocks cfg cfg' l1Blocks safe batch incl fetcher l :
  checkSpanBatch cfg l1Blocks safe batch incl fetcher = (cfg', Ok BatchAccept) ->
  GetSingularBatches batch l1Blocks safe = Ok l ->
  Forall (block_ok cfg l1Blocks) l.
Proof.
  unfold checkSpanBatch, GetSingularBatches. intros H Hl.
  destruct (checkSpanBatchPrefix _ _ _ _ _ _) as [[v parent]| |]; [|done|done].
  case_bool_decide; simpl in H; [|naive_solver].
  destruct (GetStartEpochNum batch) as [start| |]; [|done|done].
  destruct (GetTimestamp batch); [|done|done].
  destruct (check_blocks _ _ _ _ _ _ _) as [w|] eqn:Eb.
  { injection H as _ ->. by apply check_blocks_not_accept in Eb. }
  by eapply check_blocks_singular.
Qed.

End SpanLaws.

(** ** Witnesses *)

Definition ex_payload (txs : list bytes) : ExecutionPayload :=
  {| ep_ParentHash := 11; ep_FeeRecipient := 0; ep_StateRoot := 0; ep_ReceiptsRoot := 0;
     ep_LogsBloom := []; ep_PrevRandao := []; ep_BlockNumber := 1; ep_GasLimit := 0;
     ep_GasUsed := 0; ep_Timestamp := 1000; ep_ExtraData := []; ep_BaseFeePerGas := 0;
     ep_BlockHash := 12; ep_Transactions := txs; ep_Withdrawals := None;
     ep_BlobGasUsed := None; ep_ExcessBlobGas := None; ep_WithdrawalsRoot := None |}.

Definition ex_ref (hash number time : Z) : L2BlockRef :=
  {| l2_Hash := hash; l2_Number := number; l2_ParentHash := 0; l2_Time := time;
     l2_L1Origin := zeroBlockID; l2_SequenceNumber := 0 |}.

Definition ex_fetcher : SafeBlockFetcher :=
  {| L2BlockRefByNumber _ := Ok (ex_ref 11 0 998);
     PayloadByNumber _ := Ok {| ParentBeaconBlockRoot := None;
                                env_ExecutionPayload := ex_payload [[126; 0]; [2; 9]] |} |}.

Definition ex_epoch (n t : Z) : L1BlockRef :=
  {| l1_Hash := 500 + n; l1_Number := n; l1_ParentHash := 0; l1_Time := t |}.

Definition ex_el (epoch time : Z) (txs : list bytes) : SpanBatchElement :=
  {| el_EpochNum := epoch; el_Timestamp := time; el_Transactions := txs |}.

Definition mk_span (parent origin : Hash) (els : list SpanBatchElement) : SpanBatch (list bytes) :=
  {| ParentCheck := take 20 (hash_bytes parent); L1OriginCheck := take 20 (hash_bytes origin);
     GenesisTimestamp := 0; ChainID := 0; Batches := els; cache_originBits := 0;
     cache_blockTxCounts := []; sbtxs := None |}.

(** Overlaps the safe block at time 1000 and adds one block. *)
Definition ex_overlap : SpanBatch (list bytes) :=
  mk_span 11 500 [ex_el 0 1000 [[2; 9]]; ex_el 0 1002 [[2; 7]]].

Lemma overlapping_span_needs_epoch_zero_witness :
  checkSpanBatch example_config [ex_epoch 0 990] (ex_ref 12 1 1000) ex_overlap
    (ex_epoch 1 1000) ex_fetcher = (example_config, Ok BatchAccept)
  /\ forall el, Batches ex_overlap !! 0%nat = Some el -> el_EpochNum el = 0.
Proof.
  split; [vm_compute; reflexivity|].
  destruct (overlapping_span_needs_epoch_zero example_config example_config [ex_epoch 0 990]
    (ex_ref 12 1 1000) ex_overlap (ex_epoch 1 1000) ex_fetcher 1000) as (p & Hp & H).
  - vm_compute. reflexivity.
  - reflexivity.
  - vm_compute. reflexivity.
  - vm_compute in Hp. injection Hp as <-. intros el. apply (H 0%nat el). vm_compute. reflexivity.
Defined.

Definition ex_new_span : SpanBatch (list bytes) :=
  mk_span 12 501 [ex_el 0 1002 [[2; 9]]; ex_el 1 1004 [[2; 7]]].

Lemma accepted_span_blocks_witness :
  exists l, GetSingularBatches ex_new_span [ex_epoch 0 990; ex_epoch 1 1003] (ex_ref 12 1 1000)
            = Ok l
    /\ Forall (block_ok example_config [ex_epoch 0 990; ex_epoch 1 1003]) l.
Proof.
  eexists. split; [reflexivity|].
  apply (accepted_span_blocks example_config example_config [ex_epoch 0 990; ex_epoch 1 1003]
    (ex_ref 12 1 1000) ex_new_span (ex_epoch 2 1010) ex_fetcher).
  - vm_compute. reflexivity.
  - reflexivity.
Defined.

Definition ex_single (txs : list bytes) : SingularBatch :=
  {| sb_ParentHash := 12; sb_EpochNum := 0; sb_EpochHash := 500; sb_Timestamp := 1002;
     sb_Transactions := txs |}.

(** Before Isthmus, a set-code transaction makes a singular batch invalid
    but not a span batch: the span rules have no counterpart of the check,
    so the same block content is dropped in one format and accepted in the
    other. *)
Theorem span_accepts_set_code :
  exists tx,
    IsIsthmus example_config 1002 = false
    /\ checkSingularBatch example_config [ex_epoch 0 990] (ex_ref 12 1 1000) (ex_single [tx])
         (ex_epoch 1 1000) = BatchDrop
    /\ (checkSpanBatch example_config [ex_epoch 0 990] (ex_ref 12 1 1000)
          (mk_span 12 500 [ex_el 0 1002 [tx]]) (ex_epoch 1 1000) ex_fetcher).2
       = Ok BatchAccept
    /\ checkSingularBatch example_config [ex_epoch 0 990] (ex_ref 12 1 1000) (ex_single [[2; 9]])
         (ex_epoch 1 1000) = BatchAccept.
Proof. exists [SetCodeTxType; 1]. vm_compute. done. Qed.

Lemma checkSingularBatch_eager_witness :
  checkSingularBatch example_config [ex_epoch 0 990; ex_epoch 1 1003] (ex_ref 12 1 1000)
    (ex_single [[2; 9]]) (ex_epoch 1 1000) <> BatchUndecided.
Proof.
  apply (checkSingularBatch_eager example_config [ex_epoch 0 990; ex_epoch 1 1003]
    (ex_ref 12 1 1000) (ex_single [[2; 9]]) (ex_epoch 1 1000)). simpl. lia.
Defined.
