(* ===== verification/BatchStages.v ===== *)
(** * The batch stages

    Models [rhs-node/rollup/derive/base_batch_stage.go] (the shared state of
    the batch stages: buffered L1 origins and the cached singular batches of
    a span batch), [batch_queue.go] (the pre-Holocene stage, which buffers
    batches), [batch_stage.go] (the Holocene stage, which takes them strictly
    in order) and [batch_mux.go] (the switch between them).  The stages pull
    from any [NextBatchProvider]; the execution client is the
    [SafeBlockFetcher] record. *)

From S2P Require Import Prelude EthTypes RollupConfig SpanBatch Batches.

(** ** Interface *)

(** [NextBatchProvider]: the next batch, the origin of the pipeline and the
    flush of the current channel. *)
Class NextBatchProvider (P : Type) (T : Type) := {
  prev_NextBatch : P -> P * result (Batch T);
  batch_Origin : P -> L1BlockRef;
  prev_FlushChannel : P -> result P }.

(** ** The shared state *)

Record baseBatchStage (P : Type) : Type := {
  bs_config : Config;
  bs_prev : P;
  bs_l2 : SafeBlockFetcher;
  origin : L1BlockRef;
  l1Blocks : list L1BlockRef;
  nextSpan : list SingularBatch }.
Arguments bs_config {P} _.
Arguments bs_prev {P} _.
Arguments bs_l2 {P} _.
Arguments origin {P} _.
Arguments l1Blocks {P} _.
Arguments nextSpan {P} _.

Section Base.
Context {P T : Type} `{!NextBatchProvider P T}.
Implicit Types bs : baseBatchStage P.

Definition newBaseBatchStage (cfg : Config) (prev : P) (l2 : SafeBlockFetcher)
    : baseBatchStage P :=
  {| bs_config := cfg; bs_prev := prev; bs_l2 := l2; origin := zeroL1BlockRef;
     l1Blocks := []; nextSpan := [] |}.

Definition set_config bs (cfg : Config) : baseBatchStage P :=
  {| bs_config := cfg; bs_prev := bs_prev bs; bs_l2 := bs_l2 bs; origin := origin bs;
     l1Blocks := l1Blocks bs; nextSpan := nextSpan bs |}.
Definition set_prev bs (prev : P) : baseBatchStage P :=
  {| bs_config := bs_config bs; bs_prev := prev; bs_l2 := bs_l2 bs; origin := origin bs;
     l1Blocks := l1Blocks bs; nextSpan := nextSpan bs |}.
Definition set_origins bs (o : L1BlockRef) (l : list L1BlockRef) : baseBatchStage P :=
  {| bs_config := bs_config bs; bs_prev := bs_prev bs; bs_l2 := bs_l2 bs; origin := o;
     l1Blocks := l; nextSpan := nextSpan bs |}.
Definition set_span bs (span : list SingularBatch) : baseBatchStage P :=
  {| bs_config := bs_config bs; bs_prev := bs_prev bs; bs_l2 := bs_l2 bs; origin := origin bs;
     l1Blocks := l1Blocks bs; nextSpan := span |}.

Definition base_Origin bs : L1BlockRef := batch_Origin (bs_prev bs).

Definition with_parent (b : SingularBatch) (h : Hash) : SingularBatch :=
  {| sb_ParentHash := h; sb_EpochNum := sb_EpochNum b; sb_EpochHash := sb_EpochHash b;
     sb_Timestamp := sb_Timestamp b; sb_Transactions := sb_Transactions b |}.

Definition popNextBatch bs (parent : L2BlockRef)
    : baseBatchStage P * result SingularBatch :=
  match nextSpan bs with
  | [] => (bs, Panic)
  | nextBatch :: rest => (set_span bs rest, Ok (with_parent nextBatch (l2_Hash parent)))
  end.

(** [None] is the nil batch. *)
Definition nextFromSpanBatch bs (parent : L2BlockRef)
    : baseBatchStage P * option (SingularBatch * bool) :=
  match nextSpan bs with
  | [] => (bs, None)
  | next :: rest =>
      if sb_Timestamp next =? l2_Time parent +u BlockTime (bs_config bs) then
        (set_span bs rest,
         Some (with_parent next (l2_Hash parent), bool_decide (rest = [])))
      else (set_span bs [], None)
  end.

Definition originBehind bs (parent : L2BlockRef) : bool :=
  l1_Number (batch_Origin (bs_prev bs)) <? bid_Number (l2_L1Origin parent).

(** [l1Blocks[i:]] for the first block with the number, if there is one. *)
Fixpoint advance_to (num : Z) (all l : list L1BlockRef) : list L1BlockRef :=
  match l with
  | [] => all
  | b :: t => if num =? l1_Number b then l else advance_to num all t
  end.

Definition updateOrigins bs (parent : L2BlockRef) : baseBatchStage P :=
  let behind := originBehind bs parent in
  let now := batch_Origin (bs_prev bs) in
  let bs :=
    if decide (origin bs <> now) then
      set_origins bs now (if negb behind then l1Blocks bs ++ [now] else [])
    else bs in
  match l1Blocks bs with
  | [] => bs
  | first :: _ =>
      if l1_Number first <? bid_Number (l2_L1Origin parent) then
        set_origins bs (origin bs)
          (advance_to (bid_Number (l2_L1Origin parent)) (l1Blocks bs) (l1Blocks bs))
      else bs
  end.

Definition base_reset bs (base : L1BlockRef) : baseBatchStage P :=
  set_span (set_origins bs base [base]) [].

Definition deriveNextEmptyBatch bs (outOfData : bool) (parent : L2BlockRef)
    : baseBatchStage P * result SingularBatch :=
  match l1Blocks bs with
  | [] => (bs, Panic)
  | epoch :: later =>
      let expiryEpoch := l1_Number epoch +u SeqWindowSize (bs_config bs) in
      let forceEmptyBatches :=
        ((expiryEpoch =? l1_Number (origin bs)) && outOfData)
        || (expiryEpoch <? l1_Number (origin bs)) in
      let firstOfEpoch := l1_Number epoch =? bid_Number (l2_L1Origin parent) +u 1 in
      let nextTimestamp := l2_Time parent +u BlockTime (bs_config bs) in
      if negb forceEmptyBatches then (bs, Err EOF)
      else match later with
           | [] => (bs, Err EOF)
           | nextEpoch :: _ =>
               if (nextTimestamp <? l1_Time nextEpoch) || firstOfEpoch then
                 (bs, Ok {| sb_ParentHash := l2_Hash parent; sb_EpochNum := l1_Number epoch;
                            sb_EpochHash := l1_Hash epoch; sb_Timestamp := nextTimestamp;
                            sb_Transactions := [] |})
               else (set_origins bs (origin bs) later, Err EOF)
           end
  end.

(** The safe head's origin is the epoch, or the block before it. *)
Definition epoch_matches (epoch : L1BlockRef) (parent : L2BlockRef) : bool :=
  bool_decide (l2_L1Origin parent = L1BlockRef_ID epoch)
  || (bid_Number (l2_L1Origin parent) =? l1_Number epoch -u 1).

End Base.

Definition crit (s : string) : error := Leveled LevelCritical (Msg s).

(** ** The pre-Holocene batch queue *)

Record BatchQueue (P T : Type) : Type := {
  bq_base : baseBatchStage P;
  batches : list (BatchWithL1InclusionBlock T) }.
Arguments bq_base {P T} _.
Arguments batches {P T} _.

(** The loop of [deriveNextBatch] over the buffered batches. *)
Inductive loop_result (T : Type) : Type :=
  | LoopNext (next : option (BatchWithL1InclusionBlock T))
      (remaining : list (BatchWithL1InclusionBlock T))
  | LoopUndecided (remaining : list (BatchWithL1InclusionBlock T))
  | LoopError (e : error)
  | LoopPanic.
Arguments LoopNext {T} next remaining.
Arguments LoopUndecided {T} remaining.
Arguments LoopError {T} e.
Arguments LoopPanic {T}.

Fixpoint batch_loop {T} (cfg : Config) (l1 : list L1BlockRef) (parent : L2BlockRef)
    (l2 : SafeBlockFetcher) (remaining todo : list (BatchWithL1InclusionBlock T))
    : Config * loop_result T :=
  match todo with
  | [] => (cfg, LoopNext None remaining)
  | batch :: rest =>
      match CheckBatch cfg l1 parent batch l2 with
      | (cfg, Ok BatchFuture) => batch_loop cfg l1 parent l2 (remaining ++ [batch]) rest
      | (cfg, Ok BatchDrop) => batch_loop cfg l1 parent l2 remaining rest
      | (cfg, Ok BatchAccept) => (cfg, LoopNext (Some batch) (remaining ++ rest))
      | (cfg, Ok BatchUndecided) => (cfg, LoopUndecided (remaining ++ batch :: rest))
      | (cfg, Ok BatchPast) => (cfg, LoopError (crit "unknown batch validity type"))
      | (cfg, Err e) => (cfg, LoopError e)
      | (cfg, Panic) => (cfg, LoopPanic)
      end
  end.

Section Queue.
Context {P T : Type} `{!NextBatchProvider P T}.
Implicit Types bq : BatchQueue P T.

Definition NewBatchQueue (cfg : Config) (prev : P) (l2 : SafeBlockFetcher) : BatchQueue P T :=
  {| bq_base := newBaseBatchStage cfg prev l2; batches := [] |}.

Definition bq_with bq (base : baseBatchStage P) : BatchQueue P T :=
  {| bq_base := base; batches := batches bq |}.

Definition AddBatch bq (batch : Batch T) (parent : L2BlockRef) : result (BatchQueue P T) :=
  let bs := bq_base bq in
  match l1Blocks bs with
  | [] => Panic
  | _ =>
      let data := {| bw_Batch := batch; L1InclusionBlock := origin bs |} in
      let (cfg, r) := CheckBatch (bs_config bs) (l1Blocks bs) parent data (bs_l2 bs) in
      let* validity := r in
      Ok {| bq_base := set_config bs cfg;
            batches := if decide (validity = BatchDrop) then batches bq
                       else batches bq ++ [data] |}
  end.

Definition deriveNextBatch bq (outOfData : bool) (parent : L2BlockRef)
    : BatchQueue P T * result (Batch T) :=
  let bs := bq_base bq in
  match l1Blocks bs with
  | [] => (bq, Err (crit "cannot derive next batch, no origin was prepared"))
  | epoch :: _ =>
      if negb (epoch_matches epoch parent) then
        (bq, Err (Leveled LevelReset
                    (Msg "buffered L1 chain epoch in batch queue does not match safe head origin")))
      else
        match batch_loop (bs_config bs) (l1Blocks bs) parent (bs_l2 bs) [] (batches bq) with
        | (cfg, LoopPanic) => (bq_with bq (set_config bs cfg), Panic)
        | (cfg, LoopError e) => (bq_with bq (set_config bs cfg), Err e)
        | (cfg, LoopUndecided remaining) =>
            ({| bq_base := set_config bs cfg; batches := remaining |}, Err EOF)
        | (cfg, LoopNext (Some next) remaining) =>
            ({| bq_base := set_config bs cfg; batches := remaining |}, Ok (bw_Batch next))
        | (cfg, LoopNext None remaining) =>
            let (base, r) := deriveNextEmptyBatch (set_config bs cfg) outOfData parent in
            ({| bq_base := base; batches := remaining |},
             match r with
             | Ok b => Ok (Singular b)
             | Err e => Err e
             | Panic => Panic
             end)
        end
  end.

(** [err == io.EOF] depends on whether the previous stage ran out of data. *)
Definition no_batch {A} (outOfData : bool) : result A :=
  Err (if outOfData then EOF else NotEnoughData).

(** The last part of [NextBatch]: a derived batch becomes the next singular
    batch. *)
Definition take_batch bq (batch : Batch T) (parent : L2BlockRef)
    : BatchQueue P T * result (SingularBatch * bool) :=
  match batch with
  | Singular b => (bq, Ok (b, bool_decide (nextSpan (bq_base bq) = [])))
  | Span b =>
      match GetSingularBatches b (l1Blocks (bq_base bq)) parent with
      | Err e => (bq, Err (Leveled LevelCritical e))
      | Panic => (bq, Panic)
      | Ok singularBatches =>
          let (base, r) := popNextBatch (set_span (bq_base bq) singularBatches) parent in
          (bq_with bq base,
           let* nextBatch := r in Ok (nextBatch, bool_decide (nextSpan base = [])))
      end
  end.

(** Loading from the previous stage: [Ok outOfData] goes on. *)
Definition load_batch bq (parent : L2BlockRef) : BatchQueue P T * result bool :=
  let behind := originBehind (bq_base bq) parent in
  let (prev, r) := prev_NextBatch (bs_prev (bq_base bq)) in
  let bq := bq_with bq (set_prev (bq_base bq) prev) in
  match r with
  | Panic => (bq, Panic)
  | Err e => if decide (e = EOF) then (bq, Ok true) else (bq, Err e)
  | Ok batch =>
      if behind then (bq, Ok false)
      else match AddBatch bq batch parent with
           | Ok bq => (bq, Ok false)
           | Err e => (bq, Err e)
           | Panic => (bq, Panic)
           end
  end.

Definition BatchQueue_NextBatch bq (parent : L2BlockRef)
    : BatchQueue P T * result (SingularBatch * bool) :=
  match nextFromSpanBatch (bq_base bq) parent with
  | (base, Some r) => (bq_with bq base, Ok r)
  | (base, None) =>
      let bq := bq_with bq (updateOrigins base parent) in
      let behind := originBehind (bq_base bq) parent in
      match load_batch bq parent with
      | (bq, Panic) => (bq, Panic)
      | (bq, Err e) => (bq, Err e)
      | (bq, Ok outOfData) =>
          if behind then (bq, no_batch outOfData)
          else match deriveNextBatch bq outOfData parent with
               | (bq, Panic) => (bq, Panic)
               | (bq, Err e) => (bq, if decide (e = EOF) then no_batch outOfData else Err e)
               | (bq, Ok batch) => take_batch bq batch parent
               end
      end
  end.

Definition BatchQueue_Reset bq : BatchQueue P T * result unit :=
  ({| bq_base := bq_base bq; batches := [] |}, Err EOF).

Definition BatchQueue_FlushChannel bq : result (BatchQueue P T) := Panic.

End Queue.

(** ** The Holocene batch stage *)

Section HoloceneStage.
Context {P T : Type} `{!NextBatchProvider P T}.
Implicit Types bs : baseBatchStage P.

Definition NewBatchStage (cfg : Config) (prev : P) (l2 : SafeBlockFetcher) : baseBatchStage P :=
  newBaseBatchStage cfg prev l2.

Definition BatchStage_Reset bs : baseBatchStage P * result unit := (bs, Err EOF).

Definition BatchStage_FlushChannel bs : result (baseBatchStage P) :=
  let* prev := prev_FlushChannel (bs_prev bs) in
  Ok (set_prev (set_span bs []) prev).

(** Flush the channel, then [NotEnoughData]. *)
Definition flush_and_retry {A} bs : baseBatchStage P * result A :=
  match BatchStage_FlushChannel bs with
  | Ok bs => (bs, Err NotEnoughData)
  | Err e => (bs, Err e)
  | Panic => (bs, Panic)
  end.

Definition nextSingularBatchCandidate bs (parent : L2BlockRef)
    : baseBatchStage P * result SingularBatch :=
  match nextFromSpanBatch bs parent with
  | (bs, Some (nextBatch, _)) => (bs, Ok nextBatch)
  | (bs, None) =>
      let (prev, r) := prev_NextBatch (bs_prev bs) in
      let bs := set_prev bs prev in
      match r with
      | Err e => (bs, Err e)
      | Panic => (bs, Panic)
      | Ok (Singular b) => (bs, Ok b)
      | Ok (Span spanBatch) =>
          match checkSpanBatchPrefix (bs_config bs) (l1Blocks bs) parent spanBatch (origin bs)
                  (bs_l2 bs) with
          | Panic => (bs, Panic)
          | Err e => (bs, Err e)
          | Ok (BatchPast, _) => (bs, Err NotEnoughData)
          | Ok (BatchDrop, _) => flush_and_retry bs
          | Ok (BatchUndecided, _) => (bs, Err NotEnoughData)
          | Ok (BatchFuture, _) => (bs, Err (crit "impossible future batch validity"))
          | Ok (BatchAccept, _) =>
              match GetSingularBatches spanBatch (l1Blocks bs) parent with
              | Err e => (bs, Err (Leveled LevelCritical e))
              | Panic => (bs, Panic)
              | Ok singularBatches => popNextBatch (set_span bs singularBatches) parent
              end
          end
      end
  end.

Definition BatchStage_NextBatch bs (parent : L2BlockRef)
    : baseBatchStage P * result (SingularBatch * bool) :=
  let bs := updateOrigins bs parent in
  if originBehind bs parent || (bid_Number (l2_L1Origin parent) =? l1_Number (origin bs)) then
    let (prev, r) := prev_NextBatch (bs_prev bs) in
    (set_prev bs prev, let* _ := r in Err NotEnoughData)
  else match l1Blocks bs with
  | epoch :: _ :: _ =>
      if negb (epoch_matches epoch parent) then
        (bs, Err (Leveled LevelReset
                    (Msg "buffered L1 chain epoch in batch queue does not match safe head origin")))
      else match nextSingularBatchCandidate bs parent with
      | (bs, Panic) => (bs, Panic)
      | (bs, Err e) =>
          if decide (e = EOF) then
            let (bs, r) := deriveNextEmptyBatch bs true parent in
            (bs, let* empty := r in Ok (empty, true))
          else (bs, Err e)
      | (bs, Ok batch) =>
          match checkSingularBatch (bs_config bs) (l1Blocks bs) parent batch (origin bs) with
          | BatchAccept => (bs, Ok (batch, true))
          | BatchPast => (bs, Err NotEnoughData)
          | BatchDrop => flush_and_retry bs
          | BatchUndecided => (bs, Err NotEnoughData)
          | BatchFuture => (bs, Err (crit "impossible batch validity"))
          end
      end
  | _ => (bs, Err (crit "unexpected low buffered origin count"))
  end.

End HoloceneStage.

(** ** The mux *)

Inductive BatchMuxStage (P T : Type) : Type :=
  | NoBatchStage
  | QueueStage (bq : BatchQueue P T)
  | HoloceneStage (bs : baseBatchStage P).
Arguments NoBatchStage {P T}.
Arguments QueueStage {P T} bq.
Arguments HoloceneStage {P T} bs.

(** The mux shares the previous stage and the configuration with its active
    stage; [bm_prev] and [bm_cfg] are those of a mux without a stage. *)
Record BatchMux (P T : Type) : Type := {
  bm_cfg : Config;
  bm_prev : P;
  bm_l2 : SafeBlockFetcher;
  bm_stage : BatchMuxStage P T }.
Arguments bm_cfg {P T} _.
Arguments bm_prev {P T} _.
Arguments bm_l2 {P T} _.
Arguments bm_stage {P T} _.

Section Mux.
Context {P T : Type} `{!NextBatchProvider P T}.
Implicit Types b : BatchMux P T.

Definition NewBatchMux (cfg : Config) (prev : P) (l2 : SafeBlockFetcher) : BatchMux P T :=
  {| bm_cfg := cfg; bm_prev := prev; bm_l2 := l2; bm_stage := NoBatchStage |}.

Definition shared_prev b : P :=
  match bm_stage b with
  | NoBatchStage => bm_prev b
  | QueueStage bq => bs_prev (bq_base bq)
  | HoloceneStage bs => bs_prev bs
  end.

Definition shared_cfg b : Config :=
  match bm_stage b with
  | NoBatchStage => bm_cfg b
  | QueueStage bq => bs_config (bq_base bq)
  | HoloceneStage bs => bs_config bs
  end.

Definition with_stage b (s : BatchMuxStage P T) : BatchMux P T :=
  {| bm_cfg := shared_cfg b; bm_prev := shared_prev b; bm_l2 := bm_l2 b; bm_stage := s |}.

Definition BatchMux_Reset b : BatchMux P T * result unit :=
  let bq := match bm_stage b with
            | QueueStage bq => bq
            | _ => NewBatchQueue (shared_cfg b) (shared_prev b) (bm_l2 b)
            end in
  let (bq, r) := BatchQueue_Reset bq in
  (with_stage b (QueueStage bq), r).

Definition BatchMux_TransformHolocene b : result (BatchMux P T) :=
  match bm_stage b with
  | QueueStage bq =>
      let bs := NewBatchStage (shared_cfg b) (shared_prev b) (bm_l2 b) in
      Ok (with_stage b
            (HoloceneStage (set_origins bs (origin (bq_base bq)) (l1Blocks (bq_base bq)))))
  | HoloceneStage _ => Panic
  | NoBatchStage => Panic
  end.

Definition BatchMux_Transform b (f : ForkName) : result (BatchMux P T) :=
  match f with
  | Holocene => BatchMux_TransformHolocene b
  | _ => Ok b
  end.

End Mux.

(** ** What the stages return *)

(** The batch builds on the parent: its hash and the next block time. *)
Definition extends (cfg : Config) (parent : L2BlockRef) (b : SingularBatch) : Prop :=
  sb_ParentHash b = l2_Hash parent /\ sb_Timestamp b = l2_Time parent +u BlockTime cfg.

Section Results.
Context {P T : Type} `{!NextBatchProvider P T}.
Implicit Types bs : baseBatchStage P.
Implicit Types bq : BatchQueue P T.

(** The empty batch the stage makes up when the sequencing window of the
    first buffered epoch has expired. *)
Definition forced_empty bs (parent : L2BlockRef) (b : SingularBatch) : Prop :=
  exists epoch next rest, l1Blocks bs = epoch :: next :: rest
    /\ sb_Transactions b = [] /\ sb_EpochNum b = l1_Number epoch /\ sb_EpochHash b = l1_Hash epoch
    /\ l1_Number epoch +u SeqWindowSize (bs_config bs) <= l1_Number (origin bs)
    /\ (sb_Timestamp b < l1_Time next
        \/ l1_Number epoch = bid_Number (l2_L1Origin parent) +u 1).

Lemma deriveNextEmptyBatch_Ok bs outOfData parent bs' b :
  deriveNextEmptyBatch bs outOfData parent = (bs', Ok b) ->
  bs' = bs /\ extends (bs_config bs) parent b /\ forced_empty bs parent b.
Proof.
  unfold deriveNextEmptyBatch. destruct (l1Blocks bs) as [|epoch [|next rest]] eqn:El;
    [done|by repeat case_match|].
  destruct (negb _) eqn:Ef; [done|].
  match goal with |- context [if ?c then _ else _] => destruct c eqn:En end; [|done].
  intros [= <- <-]. split; [done|]. split; [done|]. exists epoch, next, rest.
  apply negb_false_iff, orb_true_iff in Ef. apply orb_true_iff in En. simpl.
  split_and!; try done.
  - destruct Ef as [[E%Z.eqb_eq _]%andb_true_iff|E%Z.ltb_lt]; lia.
  - destruct En as [E%Z.ltb_lt|E%Z.eqb_eq]; [by left|by right].
Qed.

Lemma flush_not_Ok {A} bs bs' (a : A) : flush_and_retry bs <> (bs', Ok a).
Proof. unfold flush_and_retry. by destruct (BatchStage_FlushChannel bs). Qed.

Lemma candidate_fixed bs parent bs' r :
  nextSingularBatchCandidate bs parent = (bs', r) -> r <> Panic ->
  bs_config bs' = bs_config bs /\ l1Blocks bs' = l1Blocks bs /\ origin bs' = origin bs.
Proof.
  unfold nextSingularBatchCandidate, nextFromSpanBatch, flush_and_retry, BatchStage_FlushChannel,
    popNextBatch, rbind.
  intros H Hp. repeat (case_match; simplify_eq/=; try done).
Qed.

Lemma updateOrigins_config bs parent : bs_config (updateOrigins bs parent) = bs_config bs.
Proof. unfold updateOrigins. by repeat case_match. Qed.

Lemma BatchStage_NextBatch_Ok bs parent bs' b isLast :
  BatchStage_NextBatch bs parent = (bs', Ok (b, isLast)) ->
  bs_config bs' = bs_config bs /\ isLast = true /\ extends (bs_config bs') parent b
  /\ (singular_valid (bs_config bs') (l1Blocks bs') parent b (origin bs')
      \/ forced_empty bs' parent b).
Proof.
  unfold BatchStage_NextBatch. rewrite <- (updateOrigins_config bs parent).
  generalize (updateOrigins bs parent) as bs1. intros bs1.
  destruct (_ || _); [by destruct (prev_NextBatch _) as [? []]|].
  destruct (l1Blocks bs1) as [|epoch [|next rest]] eqn:El; [done|done|].
  destruct (negb _); [done|].
  destruct (nextSingularBatchCandidate bs1 parent) as [bs2 r] eqn:Ec.
  destruct r as [batch|e|]; [| |done].
  - apply candidate_fixed in Ec as (E1 & E2 & E3); [|done].
    destruct (checkSingularBatch _ _ _ _ _) eqn:Ev; try done.
    { intros H. by apply flush_not_Ok in H. }
    intros [= <- <- <-]. apply checkSingularBatch_accept in Ev. split_and!; [done|done| |by left].
    split; [apply Ev|apply Ev].
  - apply candidate_fixed in Ec as (E1 & E2 & E3); [|done].
    case_decide; [|done].
    destruct (deriveNextEmptyBatch bs2 true parent) as [bs3 r] eqn:Ed.
    destruct r as [empty| |]; simpl; [|done|done]. intros [= -> -> <-].
    apply deriveNextEmptyBatch_Ok in Ed as (-> & Hx & Hf).
    split_and!; [done|done|done|by right].
Qed.

(** C8: whatever batch the Holocene batch stage returns builds on the parent
    it was asked for, ends its step (every block becomes safe at once), and
    either passes the singular-batch rules against the buffered L1 blocks or
    is the empty batch of an epoch whose sequencing window has expired. *)
Theorem BatchStage_NextBatch_sound bs parent bs' b isLast :
  BatchStage_NextBatch bs parent = (bs', Ok (b, isLast)) ->
  bs_config bs' = bs_config bs /\ isLast = true /\ extends (bs_config bs') parent b
  /\ (singular_valid (bs_config bs') (l1Blocks bs') parent b (origin bs')
      \/ forced_empty bs' parent b).
Proof. apply BatchStage_NextBatch_Ok. Qed.

(** When the sequencing window of the first buffered epoch has expired and
    the next L1 block is known, the stage makes progress: it either produces
    an empty batch, whose time is not before its L1 origin and before the
    next one unless it is the first of its epoch, or it moves on to the next
    epoch, which the next block may then adopt; so L2 time never falls
    behind the time of the epoch. *)
Theorem deriveNextEmptyBatch_progress bs outOfData parent epoch next rest :
  l1Blocks bs = epoch :: next :: rest ->
  l1_Number epoch +u SeqWindowSize (bs_config bs) < l1_Number (origin bs) ->
  l1_Time epoch <= l2_Time parent +u BlockTime (bs_config bs) ->
  (exists b, deriveNextEmptyBatch bs outOfData parent = (bs, Ok b)
     /\ extends (bs_config bs) parent b /\ forced_empty bs parent b
     /\ l1_Time epoch <= sb_Timestamp b)
  \/ (deriveNextEmptyBatch bs outOfData parent
      = (set_origins bs (origin bs) (next :: rest), Err EOF)
      /\ l1_Time next <= l2_Time parent +u BlockTime (bs_config bs)).
Proof.
  intros El Hexp Ht. destruct (deriveNextEmptyBatch bs outOfData parent) as [bs' r] eqn:Ed.
  pose proof Ed as Ed'. unfold deriveNextEmptyBatch in Ed. rewrite El in Ed.
  rewrite (proj2 (Z.ltb_lt _ _) Hexp), orb_true_r in Ed. simpl in Ed.
  destruct (_ || _) eqn:En; injection Ed as <- <-.
  - left. eexists. split; [done|].
    apply deriveNextEmptyBatch_Ok in Ed' as (_ & Hx & Hf). by split_and!.
  - right. apply orb_false_iff in En as [En%Z.ltb_ge _]. done.
Qed.

(** ** The queue *)

(** The blocks of a span batch are one block time apart, without wrapping. *)
Definition spaced (blockTime : Z) (b : SpanBatch T) : Prop :=
  forall i el el0, Batches b !! i = Some el -> Batches b !! 0%nat = Some el0 ->
    el_Timestamp el = el_Timestamp el0 + Z.of_nat i * blockTime
    /\ is_u64 (el_Timestamp el).

(** Block times are positive and the safe head is not at the end of time. *)
Definition clock_fine (cfg : Config) (safe : L2BlockRef) : Prop :=
  0 < BlockTime cfg /\ 0 <= l2_Time safe /\ l2_Time safe + BlockTime cfg < two64.

Lemma prefix_accept_times cfg l1 safe b incl fetcher p :
  clock_fine cfg safe -> spaced (BlockTime cfg) b ->
  checkSpanBatchPrefix cfg l1 safe b incl fetcher = Ok (BatchAccept, p) ->
  exists k el, Batches b !! k = Some el
    /\ el_Timestamp el = l2_Time safe + BlockTime cfg
    /\ forall j el', (j < k)%nat -> Batches b !! j = Some el' -> el_Timestamp el' <= l2_Time safe.
Proof.
  intros (Hbt & Hs0 & Hs1) Hsp. unfold checkSpanBatchPrefix, GetStartEpochNum, GetTimestamp,
    GetBlockTimestamp, GetBlockCount, element.
  destruct l1 as [|epoch later]; [done|].
  destruct (Batches b !! 0%nat) as [e0|] eqn:E0; [|done]. cbn [rbind].
  destruct (if _ =? _ then _ else _) as [o|]; [|done]. destruct (negb _); [done|].
  destruct (Batches b !! (length (Batches b) - 1)%nat) as [e1|] eqn:E1; [|done]. cbn [rbind].
  rewrite (u64_small (_ + _)) by (unfold is_u64; lia).
  destruct (Hsp _ _ _ E1 E0) as [Ht1 Hu1]. destruct (Hsp 0%nat _ _ E0 E0) as [_ Hu0].
  destruct (Z.ltb_spec (l2_Time safe + BlockTime cfg) (el_Timestamp e0)) as [|Hle]; [by case_match|].
  destruct (Z.ltb_spec (el_Timestamp e1) (l2_Time safe + BlockTime cfg)) as [|Hge]; [by case_match|].
  set (d := l2_Time safe + BlockTime cfg - el_Timestamp e0) in *.
  intros H. assert (d mod BlockTime cfg = 0) as Hmod.
  { destruct (Z.ltb_spec (el_Timestamp e0) (l2_Time safe + BlockTime cfg)) as [Hlt|].
    2:{ replace d with 0 by lia. done. }
    destruct (Z.ltb_spec (l2_Time safe) (el_Timestamp e0)); [done|].
    destruct (Z.eqb_spec (BlockTime cfg) 0); [done|].
    unfold is_u64 in Hu0. rewrite (u64_small (_ - _)) in H by (unfold is_u64; lia).
    destruct (Z.eqb_spec ((l2_Time safe - el_Timestamp e0) mod BlockTime cfg) 0) as [E|]; [|done].
    unfold d. replace (l2_Time safe + BlockTime cfg - el_Timestamp e0)
      with (l2_Time safe - el_Timestamp e0 + 1 * BlockTime cfg) by lia.
    by rewrite Z_mod_plus_full. }
  clear H. apply Z.div_exact in Hmod; [|lia].
  assert (0 <= d / BlockTime cfg) by (apply Z.div_pos; lia).
  apply lookup_lt_Some in E0 as Hlen.
  assert (Z.to_nat (d / BlockTime cfg) < length (Batches b))%nat as Hk by nia.
  destruct (lookup_lt_is_Some_2 _ _ Hk) as [el Hel].
  exists (Z.to_nat (d / BlockTime cfg)), el. split; [done|].
  destruct (Hsp _ _ _ Hel E0) as [Htel _]. rewrite Z2Nat.id in Htel by done.
  split; [unfold d in *; lia|]. intros j el' Hj Hel'.
  destruct (Hsp _ _ _ Hel' E0) as [-> _]. nia.
Qed.

Lemma after_first safeTime els k el :
  els !! k = Some el -> safeTime < el_Timestamp el ->
  (forall j el', (j < k)%nat -> els !! j = Some el' -> el_Timestamp el' <= safeTime) ->
  exists rest, after safeTime els = el :: rest.
Proof.
  revert k. induction els as [|e els IH]; intros k Hk Ht Hpre; [done|].
  unfold after. rewrite filter_cons. destruct k as [|k].
  { injection Hk as ->. rewrite decide_True by done. by eexists. }
  rewrite decide_False.
  2:{ specialize (Hpre 0%nat e). intros ?. enough (el_Timestamp e <= safeTime) by lia.
      apply Hpre; [lia|done]. }
  apply (IH k); [done|done|]. intros j el' Hj. apply (Hpre (S j)). lia.
Qed.

(** An accepted span batch expands to at least one batch, and the first one
    has the next block time: the pop after the expansion is safe. *)
Lemma accepted_span_first cfg l1 safe b incl fetcher p l :
  clock_fine cfg safe -> spaced (BlockTime cfg) b ->
  checkSpanBatchPrefix cfg l1 safe b incl fetcher = Ok (BatchAccept, p) ->
  GetSingularBatches b l1 safe = Ok l ->
  exists s rest, l = s :: rest /\ sb_Timestamp s = l2_Time safe +u BlockTime cfg.
Proof.
  intros Hc Hsp Hp Hl.
  destruct (prefix_accept_times _ _ _ _ _ _ _ Hc Hsp Hp) as (k & el & Hk & Ht & Hpre).
  destruct Hc as (Hbt & Hs0 & Hs1).
  destruct (after_first (l2_Time safe) (Batches b) k el Hk ltac:(lia) Hpre) as [rest Hr].
  apply singular_loop_sound in Hl. rewrite Hr in Hl.
  apply Forall2_cons_inv_l in Hl as (s & l' & (o & _ & _ & ->) & _ & ->).
  eexists _, l'. split; [done|]. simpl. rewrite u64_small by (unfold is_u64; lia). done.
Qed.

(** Checking a batch can only rewrite the genesis hash of the configuration. *)
Lemma check_overlaps_BlockTime fetcher parentNum (b : SpanBatch T) n : forall cfg i,
  BlockTime (check_overlaps cfg b fetcher parentNum i n).1 = BlockTime cfg.
Proof.
  induction n as [|n IH]; intros cfg i; simpl; [done|].
  destruct (check_overlap cfg b fetcher _ i) as [cfg1 r] eqn:E.
  assert (BlockTime cfg1 = BlockTime cfg) as <-.
  { unfold check_overlap, PayloadToBlockRef in E. by repeat (case_match; simplify_eq/=). }
  destruct r as [[v|]| |]; simpl; [done|apply IH|done|done].
Qed.

Lemma CheckBatch_BlockTime cfg l1 parent (data : BatchWithL1InclusionBlock T) l2 :
  BlockTime (CheckBatch cfg l1 parent data l2).1 = BlockTime cfg.
Proof.
  unfold CheckBatch. destruct (bw_Batch data) as [b|b]; [done|]. unfold checkSpanBatch.
  destruct (checkSpanBatchPrefix _ _ _ _ _ _) as [[v p]| |]; [|done|done].
  destruct (negb _); [done|]. repeat (case_match; try done). apply check_overlaps_BlockTime.
Qed.

Lemma checkSpanBatch_prefix cfg l1 safe (b : SpanBatch T) incl fetcher :
  (checkSpanBatch cfg l1 safe b incl fetcher).2 = Ok BatchAccept ->
  exists p, checkSpanBatchPrefix cfg l1 safe b incl fetcher = Ok (BatchAccept, p).
Proof.
  unfold checkSpanBatch. destruct (checkSpanBatchPrefix _ _ _ _ _ _) as [[v p]| |]; [|done|done].
  case_bool_decide; simpl; [|naive_solver]. subst. eauto.
Qed.

(** The batch the loop picks is one of the buffered ones and was accepted. *)
Lemma batch_loop_accept l1 parent l2 (todo : list (BatchWithL1InclusionBlock T)) :
  forall cfg cfg' remaining next rest,
  batch_loop cfg l1 parent l2 remaining todo = (cfg', LoopNext (Some next) rest) ->
  exists cfg1, BlockTime cfg1 = BlockTime cfg /\ next ∈ todo
    /\ (CheckBatch cfg1 l1 parent next l2).2 = Ok BatchAccept.
Proof.
  induction todo as [|data todo IH]; intros cfg cfg' remaining next rest; simpl; [done|].
  pose proof (CheckBatch_BlockTime cfg l1 parent data l2) as Hbt.
  destruct (CheckBatch cfg l1 parent data l2) as [cfg1 [[]| |]] eqn:E; simpl in Hbt; try done.
  1,3: intros (cfg2 & H1 & H2 & H3)%IH; exists cfg2; split_and!; [congruence|by right|done].
  intros [= <- <- <-]. exists cfg. split_and!; [done|by left|by rewrite E].
Qed.

Lemma batch_loop_BlockTime l1 parent l2 (todo : list (BatchWithL1InclusionBlock T)) :
  forall cfg remaining, BlockTime (batch_loop cfg l1 parent l2 remaining todo).1 = BlockTime cfg.
Proof.
  induction todo as [|data todo IH]; intros cfg remaining; simpl; [done|].
  rewrite <- (CheckBatch_BlockTime cfg l1 parent data l2).
  destruct (CheckBatch cfg l1 parent data l2) as [cfg1 [[]| |]]; simpl; try done; apply IH.
Qed.

(** The batches that stay buffered were buffered before. *)
Lemma batch_loop_remaining l1 parent l2 (todo : list (BatchWithL1InclusionBlock T)) :
  forall cfg remaining cfg' r,
  batch_loop cfg l1 parent l2 remaining todo = (cfg', r) ->
  match r with
  | LoopNext _ rest | LoopUndecided rest => forall d, d ∈ rest -> d ∈ remaining \/ d ∈ todo
  | _ => True
  end.
Proof.
  induction todo as [|data todo IH]; intros cfg remaining cfg' r; simpl.
  { intros [= <- <-]. by left. }
  destruct (CheckBatch cfg l1 parent data l2) as [cfg1 [[]| |]].
  1,4: intros H; apply IH in H; destruct r; set_solver.
  all: intros [= <- <-]; set_solver.
Qed.

Section QueueSound.
Context (bt : Z).
Hypothesis provider_spaced : forall p b, (prev_NextBatch p).2 = Ok (Span b) -> spaced bt b.

(** The block time is fixed and every buffered span batch is well spaced. *)
Record queue_inv bq : Prop := {
  qi_time : BlockTime (bs_config (bq_base bq)) = bt;
  qi_batches : forall data b, data ∈ batches bq -> bw_Batch data = Span b -> spaced bt b }.

Lemma load_batch_inv bq parent bq' r : queue_inv bq -> load_batch bq parent = (bq', r) ->
  queue_inv bq'.
Proof.
  intros [Hq1 Hq2]. unfold load_batch.
  pose proof (fun b => provider_spaced (bs_prev (bq_base bq)) b) as Hp.
  destruct (prev_NextBatch (bs_prev (bq_base bq))) as [prev [batch|e|]]; simpl in Hp.
  2:{ case_decide; by intros [= <- <-]. }
  2:{ by intros [= <- <-]. }
  destruct (originBehind _ _); [by intros [= <- <-]|].
  unfold AddBatch. simpl. destruct (l1Blocks (bq_base bq)) as [|o l] eqn:El; [by intros [= <- <-]|].
  rewrite <- El.
  pose proof (CheckBatch_BlockTime (bs_config (bq_base bq)) (l1Blocks (bq_base bq)) parent
    {| bw_Batch := batch; L1InclusionBlock := origin (bq_base bq) |} (bs_l2 (bq_base bq))) as Hbt.
  destruct (CheckBatch _ _ _ _ _) as [cfg [v| |]]; simpl in *; [|by intros [= <- <-]..].
  intros [= <- <-]. constructor; simpl; [congruence|].
  intros data b. case_decide; [by apply Hq2|].
  intros [Hin|Hin]%elem_of_app; [by apply Hq2|].
  apply list_elem_of_singleton in Hin as ->. simpl. intros ->. by apply Hp.
Qed.

Lemma deriveNextBatch_sound bq outOfData parent bq' r :
  queue_inv bq -> deriveNextBatch bq outOfData parent = (bq', r) ->
  queue_inv bq'
  /\ forall batch, r = Ok batch ->
     match batch with
     | Singular b => extends (bs_config (bq_base bq)) parent b
     | Span b => spaced bt b /\ l1Blocks (bq_base bq') = l1Blocks (bq_base bq)
         /\ exists cfg1 incl l2 p, BlockTime cfg1 = bt
            /\ checkSpanBatchPrefix cfg1 (l1Blocks (bq_base bq)) parent b incl l2
               = Ok (BatchAccept, p)
     end.
Proof.
  intros [Hq1 Hq2]. unfold deriveNextBatch.
  destruct (l1Blocks (bq_base bq)) as [|epoch l] eqn:El; [by intros [= <- <-]|]. rewrite <- El.
  destruct (negb _); [by intros [= <- <-]|].
  destruct (batch_loop _ _ _ _ _ _) as [cfg o] eqn:Eb.
  pose proof (batch_loop_BlockTime (l1Blocks (bq_base bq)) parent (bs_l2 (bq_base bq))
    (batches bq) (bs_config (bq_base bq)) []) as Hbt. rewrite Eb in Hbt. simpl in Hbt.
  apply batch_loop_remaining in Eb as Hrem.
  destruct o as [[next|] rest|rest|e|].
  - intros [= <- <-]. split.
    { constructor; simpl; [congruence|]. intros data b Hd. apply Hq2. set_solver. }
    intros batch [= <-]. apply batch_loop_accept in Eb as (cfg1 & H1 & H2 & H3).
    unfold CheckBatch in H3. destruct (bw_Batch next) as [b|b] eqn:En.
    + injection H3 as H3. apply checkSingularBatch_accept in H3. split; [apply H3|].
      rewrite <- H1. apply H3.
    + split_and!; [by eapply Hq2|done|]. apply checkSpanBatch_prefix in H3 as [p Hp].
      eexists _, _, _, p. split; [|exact Hp]. congruence.
  - destruct (deriveNextEmptyBatch _ _ _) as [base r'] eqn:Ed. intros [= <- <-].
    assert (bs_config base = cfg) as Hbase.
    { unfold deriveNextEmptyBatch in Ed. by repeat (case_match; simplify_eq/=). }
    split; [constructor; simpl; [congruence|]; intros data b Hd; apply Hq2; set_solver|].
    intros batch. destruct r' as [b| |]; intros [= <-].
    apply deriveNextEmptyBatch_Ok in Ed as (_ & [Hx1 Hx2] & _). split; [done|].
    simpl in Hx2. congruence.
  - intros [= <- <-]. split; [|done]. constructor; simpl; [congruence|].
    intros data b Hd. apply Hq2. set_solver.
  - intros [= <- <-]. split; [|done]. by constructor; simpl; [congruence|].
  - intros [= <- <-]. split; [|done]. by constructor; simpl; [congruence|].
Qed.

Lemma take_batch_sound bq batch parent bq' r :
  queue_inv bq -> clock_fine (bs_config (bq_base bq)) parent ->
  match batch with
  | Singular b => extends (bs_config (bq_base bq)) parent b
  | Span b => spaced bt b /\ exists cfg1 incl l2 p, BlockTime cfg1 = bt
      /\ checkSpanBatchPrefix cfg1 (l1Blocks (bq_base bq)) parent b incl l2 = Ok (BatchAccept, p)
  end ->
  take_batch bq batch parent = (bq', r) ->
  queue_inv bq' /\ r <> Panic
  /\ forall b isLast, r = Ok (b, isLast) -> extends (bs_config (bq_base bq)) parent b.
Proof.
  intros [Hq1 Hq2] Hc Hb. unfold take_batch. destruct batch as [s|b].
  { intros [= <- <-]. split_and!; [done|done|]. by intros b isLast [= <- _]. }
  destruct Hb as (Hsp & cfg1 & incl & l2 & p & Hbt & Hp).
  unfold clock_fine in Hc. rewrite Hq1 in Hc.
  destruct (GetSingularBatches b _ _) as [l| |] eqn:Eg; [|by intros [= <- <-]|].
  - apply (accepted_span_first cfg1 _ _ _ incl l2 p) in Eg as (s & rest & -> & Ht);
      [|by unfold clock_fine; rewrite Hbt|by rewrite Hbt|done].
    simpl. intros [= <- <-]. split_and!; [by constructor|done|].
    intros b' isLast [= <- _]. split; [done|]. simpl. rewrite Ht. congruence.
  - unfold GetSingularBatches in Eg. exfalso. revert Eg. generalize 0%nat.
    induction (Batches b) as [|el els IH]; intros idx; simpl; [done|].
    destruct (_ <=? _); [apply IH|].
    destruct (find_origin _ idx _) as [[i o]|]; [|done].
    destruct (singular_loop _ _ i els) eqn:E; simpl; [done|done|]. by apply IH in E.
Qed.

Lemma BatchQueue_NextBatch_correct bq parent bq' r :
  queue_inv bq -> clock_fine (bs_config (bq_base bq)) parent ->
  BatchQueue_NextBatch bq parent = (bq', r) ->
  queue_inv bq'
  /\ forall b isLast, r = Ok (b, isLast) -> extends (bs_config (bq_base bq)) parent b.
Proof.
  intros Hq Hc. pose proof (qi_time _ Hq) as Ht0. unfold BatchQueue_NextBatch.
  destruct (nextFromSpanBatch (bq_base bq) parent) as [base o] eqn:En.
  assert (bs_config base = bs_config (bq_base bq)) as Hbase.
  { unfold nextFromSpanBatch in En. by repeat (case_match; simplify_eq/=). }
  destruct o as [[b0 l0]|].
  { intros [= <- <-]. destruct Hq. split; [constructor; simpl; [congruence|done]|].
    intros b isLast [= <- _]. unfold nextFromSpanBatch in En.
    repeat (case_match; simplify_eq/=). split; [done|]. simpl. lia. }
  set (bq1 := bq_with bq (updateOrigins base parent)).
  assert (queue_inv bq1) as Hq1.
  { destruct Hq. constructor; simpl; [rewrite updateOrigins_config; congruence|done]. }
  destruct (load_batch bq1 parent) as [bq2 r2] eqn:El.
  apply load_batch_inv in El as Hq2; [|done].
  destruct r2 as [outOfData|e|]; [|by intros [= <- <-]|by intros [= <- <-]].
  destruct (originBehind _ _); [by intros [= <- <-]|].
  destruct (deriveNextBatch bq2 outOfData parent) as [bq3 r3] eqn:Ed.
  apply deriveNextBatch_sound in Ed as [Hq3 Hr3]; [|done].
  pose proof (qi_time _ Hq2) as Ht2. pose proof (qi_time _ Hq3) as Ht3.
  destruct r3 as [batch|e|]; [|case_decide; by intros [= <- <-]|by intros [= <- <-]].
  specialize (Hr3 batch eq_refl). intros Hrun.
  apply take_batch_sound in Hrun as (Hq' & _ & Hx); [|done| |].
  - split; [done|]. intros b isLast Hr. destruct (Hx b isLast Hr) as [Hx1 Hx2].
    split; [done|]. congruence.
  - unfold clock_fine in *. congruence.
  - destruct batch as [s|b].
    + destruct Hr3 as [Hx1 Hx2]. split; [done|congruence].
    + destruct Hr3 as (Hsp & Hl & Hex). split; [done|]. by rewrite Hl.
Qed.

(** Every batch the pre-Holocene batch queue returns, be it buffered,
    expanded from a span batch or made up for an expired window, builds on
    the parent it was asked for, with its hash and the next block time, when
    the span batches of the previous stage are one block time apart. *)
Theorem BatchQueue_NextBatch_sound bq parent bq' r :
  queue_inv bq -> clock_fine (bs_config (bq_base bq)) parent ->
  BatchQueue_NextBatch bq parent = (bq', r) ->
  queue_inv bq'
  /\ forall b isLast, r = Ok (b, isLast) -> extends (bs_config (bq_base bq)) parent b.
Proof. apply BatchQueue_NextBatch_correct. Qed.

End QueueSound.
End Results.

(** ** Resets, past batches and origins *)

#[local] Arguments checkSingularBatch : simpl never.

Section Resets.
Context {P T : Type} `{!NextBatchProvider P T}.
Implicit Types bq : BatchQueue P T.
Implicit Types bs : baseBatchStage P.

(** Resetting the batch queue clears the buffered batches only: the cached
    singular batches of a span batch and the buffered L1 origins of the old
    chain survive, and if the new parent is one block time before the first
    cached batch, the very next call returns that stale batch, re-parented
    onto the new chain. *)
Theorem reset_keeps_stale_span bq parent s rest :
  nextSpan (bq_base bq) = s :: rest ->
  sb_Timestamp s = l2_Time parent +u BlockTime (bs_config (bq_base bq)) ->
  let bq' := (BatchQueue_Reset bq).1 in
  batches bq' = [] /\ l1Blocks (bq_base bq') = l1Blocks (bq_base bq)
  /\ (BatchQueue_NextBatch bq' parent).2
     = Ok (with_parent s (l2_Hash parent), bool_decide (rest = [])).
Proof.
  intros Hs Ht. cbv zeta. split_and!; [done|done|].
  unfold BatchQueue_NextBatch, nextFromSpanBatch. simpl. rewrite Hs.
  by rewrite (proj2 (Z.eqb_eq _ _) Ht).
Qed.

(** The batch queue does not survive a past batch at a Holocene origin:
    the check answers [BatchPast], so the batch is buffered instead of being
    dropped, and deriving the next batch then fails with a critical error.
    (The queue is the stage a reset activates, also at Holocene origins.) *)
Theorem past_batch_is_critical bq b parent epoch rest :
  l1Blocks (bq_base bq) = epoch :: rest -> epoch_matches epoch parent = true ->
  batches bq = [] ->
  IsHolocene (bs_config (bq_base bq)) (l1_Time (origin (bq_base bq))) = true ->
  sb_Timestamp b < l2_Time parent +u BlockTime (bs_config (bq_base bq)) ->
  exists bq' bq'', AddBatch bq (Singular b) parent = Ok bq'
    /\ length (batches bq') = 1%nat
    /\ deriveNextBatch bq' true parent
       = (bq'', Err (Leveled LevelCritical (Msg "unknown batch validity type"))).
Proof.
  intros El Ee Hb Hh Ht.
  assert (checkSingularBatch (bs_config (bq_base bq)) (epoch :: rest) parent b
            (origin (bq_base bq)) = BatchPast) as Hc.
  { unfold checkSingularBatch. rewrite (proj2 (Z.ltb_ge _ _)) by lia.
    by rewrite (proj2 (Z.ltb_lt _ _) Ht), Hh. }
  unfold AddBatch. rewrite El. simpl. rewrite Hc, Hb. simpl.
  eexists _, _. split; [done|]. split; [done|].
  unfold deriveNextBatch. simpl. rewrite El, Ee. simpl. by rewrite Hc.
Qed.

(** The buffered L1 blocks are consecutive and end at the origin. *)
Definition follows_l1 (a b : L1BlockRef) : Prop := l1_Number b = l1_Number a + 1.

Record origins_ok bs : Prop := {
  oo_consecutive : adjacent follows_l1 (l1Blocks bs);
  oo_last : l1Blocks bs = [] \/ last (l1Blocks bs) = Some (origin bs) }.

Lemma advance_to_suffix num all l :
  (exists pre, all = pre ++ l) -> exists pre, all = pre ++ advance_to num all l.
Proof.
  induction l as [|b l IH]; simpl; intros [pre ->].
  { by exists []. }
  destruct (_ =? _); [by exists pre|]. apply IH. exists (pre ++ [b]). by rewrite <- app_assoc.
Qed.

Lemma origins_ok_suffix bs pre l : origins_ok bs -> l1Blocks bs = pre ++ l ->
  origins_ok (set_origins bs (origin bs) l).
Proof.
  intros [H1 H2] E. rewrite E in *. apply adjacent_app in H1 as (_ & H1 & _).
  constructor; [done|]. simpl. destruct l as [|x l]; [by left|]. right.
  destruct H2 as [H2|H2]; [by apply app_eq_nil in H2 as []|]. by rewrite last_app_cons in H2.
Qed.

(** As long as the origin of the pipeline advances one L1 block at a time,
    updating the origins keeps the buffered L1 blocks consecutive and ending
    at the stage's origin, which afterwards is the pipeline's. *)
Theorem updateOrigins_consecutive bs parent :
  origins_ok bs ->
  batch_Origin (bs_prev bs) = origin bs \/ follows_l1 (origin bs) (batch_Origin (bs_prev bs)) ->
  origins_ok (updateOrigins bs parent)
  /\ origin (updateOrigins bs parent) = batch_Origin (bs_prev bs).
Proof.
  intros Hok Hstep. unfold updateOrigins. set (now := batch_Origin (bs_prev bs)) in *.
  set (bs1 := if decide (origin bs <> now) then _ else bs).
  assert (origins_ok bs1 /\ origin bs1 = now) as [Hok1 Ho1].
  { unfold bs1. case_decide as Hne; [|destruct (decide (origin bs = now)); done].
    destruct Hstep as [->|Hstep]; [done|]. split; [|done].
    destruct (originBehind bs parent); simpl; [by constructor; [|left]|].
    destruct Hok as [H1 H2]. constructor; simpl.
    - apply adjacent_app. split_and!; [done|done|]. intros a b Ha [= <-].
      destruct H2 as [H2|H2]; [by rewrite H2 in Ha|]. rewrite Ha in H2. by injection H2 as ->.
    - right. by rewrite last_snoc. }
  clearbody bs1. destruct (l1Blocks bs1) as [|first l] eqn:El; [done|].
  destruct (_ <? _); [|done]. split; [|done].
  destruct (advance_to_suffix (bid_Number (l2_L1Origin parent)) (l1Blocks bs1) (l1Blocks bs1))
    as [pre Hpre]; [by exists []|].
  rewrite <- El. by apply (origins_ok_suffix bs1 pre).
Qed.

End Resets.

(** ** Witnesses: a provider that holds a list of batches *)

Definition ListBatches : Type := L1BlockRef * list (Batch (list bytes)).

#[global] Instance ListBatches_provider : NextBatchProvider ListBatches (list bytes) := {
  prev_NextBatch p := match p.2 with
                      | [] => (p, Err EOF)
                      | b :: t => ((p.1, t), Ok b)
                      end;
  batch_Origin p := p.1;
  prev_FlushChannel p := Ok (p.1, []) }.

(** Safe head of epoch 0 at time 1000; blocks 0 and 1 of L1 are known. *)
Definition ex_base (l : list (Batch (list bytes))) : baseBatchStage ListBatches :=
  {| bs_config := example_config; bs_prev := (ex_epoch 1 1003, l); bs_l2 := ex_fetcher;
     origin := ex_epoch 1 1003; l1Blocks := [ex_epoch 0 990; ex_epoch 1 1003]; nextSpan := [] |}.

Definition ex_parent : L2BlockRef :=
  {| l2_Hash := 12; l2_Number := 1; l2_ParentHash := 11; l2_Time := 1000;
     l2_L1Origin := {| bid_Hash := 500; bid_Number := 0 |}; l2_SequenceNumber := 0 |}.

Lemma BatchStage_NextBatch_sound_witness :
  exists bs' b, BatchStage_NextBatch (ex_base [Singular (ex_single [[2; 9]])]) ex_parent
                = (bs', Ok (b, true))
    /\ extends (bs_config bs') ex_parent b.
Proof.
  eexists _, _. split; [vm_compute; reflexivity|].
  eapply (BatchStage_NextBatch_sound (ex_base [Singular (ex_single [[2; 9]])]) ex_parent).
  vm_compute. reflexivity.
Defined.

(** The window of epoch 0 has long expired. *)
Definition ex_expired : baseBatchStage ListBatches :=
  set_origins (ex_base []) (ex_epoch 5000 70000) [ex_epoch 0 990; ex_epoch 1 1003].

Lemma deriveNextEmptyBatch_progress_witness :
  exists b, deriveNextEmptyBatch ex_expired true ex_parent = (ex_expired, Ok b)
    /\ sb_Timestamp b = 1002.
Proof.
  destruct (deriveNextEmptyBatch_progress ex_expired true ex_parent
    (ex_epoch 0 990) (ex_epoch 1 1003) []) as [(b & H & [_ Hx] & _)|[H _]].
  - reflexivity.
  - vm_compute. reflexivity.
  - vm_compute. intuition congruence.
  - exists b. split; [done|]. by rewrite Hx.
  - vm_compute in H. discriminate H.
Defined.

Definition ex_queue : BatchQueue ListBatches (list bytes) :=
  {| bq_base := ex_base []; batches := [] |}.

(** A provider without span batches is well spaced for any block time. *)
Definition SingularOnly : Type := L1BlockRef * list SingularBatch.

#[global] Instance SingularOnly_provider : NextBatchProvider SingularOnly (list bytes) := {
  prev_NextBatch p := match p.2 with
                      | [] => (p, Err EOF)
                      | b :: t => ((p.1, t), Ok (Singular b))
                      end;
  batch_Origin p := p.1;
  prev_FlushChannel p := Ok (p.1, []) }.

Definition ex_singular_queue : BatchQueue SingularOnly (list bytes) :=
  {| bq_base :=
       {| bs_config := example_config; bs_prev := (ex_epoch 1 1003, [ex_single [[2; 9]]]);
          bs_l2 := ex_fetcher; origin := ex_epoch 1 1003;
          l1Blocks := [ex_epoch 0 990; ex_epoch 1 1003]; nextSpan := [] |};
     batches := [] |}.

Lemma BatchQueue_NextBatch_sound_witness :
  exists bq' b, BatchQueue_NextBatch ex_singular_queue ex_parent = (bq', Ok (b, true))
    /\ extends example_config ex_parent b.
Proof.
  eexists _, _. split; [vm_compute; reflexivity|].
  eapply (BatchQueue_NextBatch_sound 2) with (bq := ex_singular_queue) (isLast := true).
  - intros [o [|s l]] b; simpl; congruence.
  - constructor; [done|]. intros data b Hd. by apply elem_of_nil in Hd.
  - vm_compute. intuition congruence.
  - vm_compute. reflexivity.
  - reflexivity.
Defined.

Lemma reset_keeps_stale_span_witness :
  (BatchQueue_NextBatch
     (BatchQueue_Reset (bq_with ex_queue (set_span (ex_base []) [ex_single []]))).1 ex_parent).2
  = Ok (with_parent (ex_single []) 12, true).
Proof.
  apply (reset_keeps_stale_span (bq_with ex_queue (set_span (ex_base []) [ex_single []]))
           ex_parent (ex_single []) []); reflexivity.
Defined.

Lemma past_batch_is_critical_witness :
  exists bq' bq'', AddBatch ex_queue (Singular (with_parent (ex_singular 0 998) 11)) ex_parent
                   = Ok bq'
    /\ length (batches bq') = 1%nat
    /\ deriveNextBatch bq' true ex_parent
       = (bq'', Err (Leveled LevelCritical (Msg "unknown batch validity type"))).
Proof.
  apply (past_batch_is_critical ex_queue (with_parent (ex_singular 0 998) 11) ex_parent
           (ex_epoch 0 990) [ex_epoch 1 1003]); vm_compute; reflexivity.
Defined.

Lemma updateOrigins_consecutive_witness :
  origin (updateOrigins (set_prev (ex_base []) (ex_epoch 2 1015, [])) ex_parent) = ex_epoch 2 1015.
Proof.
  destruct (updateOrigins_consecutive (set_prev (ex_base []) (ex_epoch 2 1015, [])) ex_parent)
    as [_ H].
  - constructor; [split; [reflexivity|done]|right; reflexivity].
  - right. reflexivity.
  - exact H.
Defined.
