(* ===== verification/Pipeline.v ===== *)
(** * Payload attributes and the derivation pipeline

    Models [rhs-node/rollup/derive/attributes.go] (the builder of payload
    attributes), [attributes_queue.go] (the last stage, which remembers the
    attributes it handed out) and [pipeline.go] (the reset protocol and the
    step function).  The pipeline of this chain has the attributes queue as
    its only stage.  The execution client ([L2Source]), the encoded upgrade
    transactions and the wall clock are arguments. *)

From S2P Require Import Prelude EthTypes RollupConfig.

(** ** Inputs *)

(** The part of [L2Source] the pipeline calls. *)
Record L2Source : Type := {
  SystemConfigByL2Hash : Hash -> result SystemConfig;
  src_L2BlockRefByHash : Hash -> result L2BlockRef }.

(** The encoded network-upgrade transactions ([ecotone_upgrade_transactions.go]
    and its siblings), which the transaction library builds. *)
Record UpgradeTxs : Type := {
  EcotoneNetworkUpgradeTransactions : result (list bytes);
  FjordNetworkUpgradeTransactions : result (list bytes);
  IsthmusNetworkUpgradeTransactions : result (list bytes) }.

(** Two readings of [time.Now().Unix()], the second not before the first. *)
Record Clock : Type := { now1 : Z; now2 : Z }.

(** [predeploys.SequencerFeeVaultAddr] *)
Definition SequencerFeeVaultAddr : Z := 376793390874373408599387495934666716005045108753.

Definition NewTemporaryError (e : error) : error := Leveled LevelTemporary e.
Definition NewResetError (e : error) : error := Leveled LevelReset e.
Definition NewCriticalError (e : error) : error := Leveled LevelCritical e.

(** ** The attributes builder *)

(** [if active { txs, err := f(); ...; upgradeTxs = append(upgradeTxs, txs...) }] *)
Definition append_upgrade (active : bool) (txs : result (list bytes)) (msg : string)
    (upgradeTxs : list bytes) : result (list bytes) :=
  if active then
    let* l := map_err (fun e => NewCriticalError (Wrap msg e)) txs in Ok (upgradeTxs ++ l)
  else Ok upgradeTxs.

Definition PreparePayloadAttributes (cfg : Config) (l2 : L2Source) (up : UpgradeTxs)
    (clock : Clock) (l2Parent : L2BlockRef) : result PayloadAttributes :=
  let* sysConfig := map_err (fun e => NewTemporaryError (Wrap "failed to retrieve core parent block" e))
                      (SystemConfigByL2Hash l2 (l2_Hash l2Parent)) in
  let nextL2Time := l2_Time l2Parent +u BlockTime cfg in
  let* txs := append_upgrade (IsEcotoneActivationBlock cfg nextL2Time)
                (EcotoneNetworkUpgradeTransactions up)
                "failed to build ecotone network upgrade txs" [] in
  let* txs := append_upgrade (IsFjordActivationBlock cfg nextL2Time)
                (FjordNetworkUpgradeTransactions up)
                "failed to build fjord network upgrade txs" txs in
  let* txs := append_upgrade (IsIsthmusActivationBlock cfg nextL2Time)
                (IsthmusNetworkUpgradeTransactions up)
                "failed to build isthmus network upgrade txs" txs in
  let withdrawals := if IsCanyon cfg nextL2Time then Some [] else None in
  let nextL2Time := if nextL2Time <? (u64 (now1 clock) -u 60) then u64 (now2 clock)
                    else nextL2Time in
  Ok {| pa_Timestamp := nextL2Time;
        pa_PrevRandao := replicate 32 0;
        pa_SuggestedFeeRecipient := SequencerFeeVaultAddr;
        pa_Withdrawals := withdrawals;
        pa_ParentBeaconBlockRoot := None;
        pa_Transactions := txs;
        pa_NoTxPool := true;
        pa_GasLimit := Some (GasLimit sysConfig);
        pa_EIP1559Params := if IsHolocene cfg nextL2Time then Some (EIP1559Params sysConfig)
                            else None |}.

(** ** The attributes queue *)

Record AttributesWithParent : Type := {
  Attributes : PayloadAttributes;
  Parent : L2BlockRef;
  Concluding : bool }.

#[global] Instance AttributesWithParent_eq_dec : EqDecision AttributesWithParent.
Proof. solve_decision. Defined.

Definition AttributesWithParent_WithDepositsOnly (a : AttributesWithParent)
    : AttributesWithParent :=
  {| Attributes := WithDepositsOnly (Attributes a); Parent := Parent a;
     Concluding := Concluding a |}.

(** [prev] is the stage before, as its flush operation; [None] is nil.  The
    buffered batch is only tested for nil. *)
Record AttributesQueue : Type := {
  aq_prev : option (result unit);
  aq_batch : bool;
  concluding : bool;
  lastAttribs : option AttributesWithParent }.

Definition NewAttributesQueue : AttributesQueue :=
  {| aq_prev := None; aq_batch := false; concluding := false; lastAttribs := None |}.

Definition createNextAttributes (cfg : Config) (l2 : L2Source) (up : UpgradeTxs)
    (clock : Clock) (l2SafeHead : L2BlockRef) : result PayloadAttributes :=
  let* attrs := PreparePayloadAttributes cfg l2 up clock l2SafeHead in
  Ok {| pa_Timestamp := pa_Timestamp attrs; pa_PrevRandao := pa_PrevRandao attrs;
        pa_SuggestedFeeRecipient := pa_SuggestedFeeRecipient attrs;
        pa_Withdrawals := pa_Withdrawals attrs;
        pa_ParentBeaconBlockRoot := pa_ParentBeaconBlockRoot attrs;
        pa_Transactions := pa_Transactions attrs; pa_NoTxPool := true;
        pa_GasLimit := pa_GasLimit attrs; pa_EIP1559Params := pa_EIP1559Params attrs |}.

Definition NextAttributes (cfg : Config) (l2 : L2Source) (up : UpgradeTxs) (clock : Clock)
    (aq : AttributesQueue) (parent : L2BlockRef) : AttributesQueue * result AttributesWithParent :=
  match createNextAttributes cfg l2 up clock parent with
  | Err e => (aq, Err e)
  | Panic => (aq, Panic)
  | Ok attrs =>
      let attr := {| Attributes := attrs; Parent := parent; Concluding := true |} in
      ({| aq_prev := aq_prev aq; aq_batch := false; concluding := false;
          lastAttribs := Some attr |}, Ok attr)
  end.

Definition aq_reset (aq : AttributesQueue) : AttributesQueue :=
  {| aq_prev := aq_prev aq; aq_batch := false; concluding := false; lastAttribs := None |}.

Definition AttributesQueue_Reset (aq : AttributesQueue) : AttributesQueue * result unit :=
  (aq_reset aq, Err EOF).

(** [aq.prev.FlushChannel()] on a nil interface panics. *)
Definition DepositsOnlyAttributes (aq : AttributesQueue) (parent : BlockID)
    : AttributesQueue * result AttributesWithParent :=
  if aq_batch aq then (aq, Err (Msg "unexpected buffered batch"))
  else match lastAttribs aq with
       | None => (aq, Err (Msg "no attributes generated yet"))
       | Some attribs =>
           if decide (parent <> L2BlockRef_ID (Parent attribs)) then
             (aq, Err (Msg "unexpected parent"))
           else match aq_prev aq with
                | None => (aq, Panic)
                | Some flush =>
                    match flush with
                    | Ok _ =>
                        let attrs := AttributesWithParent_WithDepositsOnly attribs in
                        ({| aq_prev := aq_prev aq; aq_batch := aq_batch aq;
                            concluding := concluding aq; lastAttribs := Some attrs |}, Ok attrs)
                    | Err e => (aq, Err e)
                    | Panic => (aq, Panic)
                    end
                end
       end.

(** ** The pipeline *)

Record DerivationPipeline : Type := {
  dp_cfg : Config;
  resetting : Z;
  attrib : AttributesQueue;
  dp_origin : L1BlockRef;
  resetL2Safe : L2BlockRef;
  resetSysConfig : SystemConfig;
  engineIsReset : bool }.

Definition NewDerivationPipeline (cfg : Config) : DerivationPipeline :=
  {| dp_cfg := cfg; resetting := 0; attrib := NewAttributesQueue; dp_origin := zeroL1BlockRef;
     resetL2Safe := zeroL2BlockRef; resetSysConfig := zeroSystemConfig; engineIsReset := false |}.

(** [len(dp.stages)]: the attributes queue is the only stage. *)
Definition num_stages : Z := 1.

Definition DerivationReady (dp : DerivationPipeline) : bool :=
  engineIsReset dp && (0 <? resetting dp).

Definition Pipeline_Reset (dp : DerivationPipeline) : DerivationPipeline :=
  {| dp_cfg := dp_cfg dp; resetting := 0; attrib := attrib dp; dp_origin := dp_origin dp;
     resetL2Safe := zeroL2BlockRef; resetSysConfig := zeroSystemConfig; engineIsReset := false |}.

Definition ConfirmEngineReset (dp : DerivationPipeline) : DerivationPipeline :=
  {| dp_cfg := dp_cfg dp; resetting := resetting dp; attrib := attrib dp;
     dp_origin := dp_origin dp; resetL2Safe := resetL2Safe dp;
     resetSysConfig := resetSysConfig dp; engineIsReset := true |}.

Definition with_attrib (dp : DerivationPipeline) (aq : AttributesQueue) : DerivationPipeline :=
  {| dp_cfg := dp_cfg dp; resetting := resetting dp; attrib := aq; dp_origin := dp_origin dp;
     resetL2Safe := resetL2Safe dp; resetSysConfig := resetSysConfig dp;
     engineIsReset := engineIsReset dp |}.

Definition Pipeline_DepositsOnlyAttributes (dp : DerivationPipeline) (parent : BlockID)
    : DerivationPipeline * result AttributesWithParent :=
  let (aq, r) := DepositsOnlyAttributes (attrib dp) parent in (with_attrib dp aq, r).

Definition initialReset (l2 : L2Source) (dp : DerivationPipeline) (safe : L2BlockRef)
    : result DerivationPipeline :=
  let* parent := map_err (fun _ => NewResetError (Msg "failed to fetch core parent block"))
                   (src_L2BlockRefByHash l2 (l2_ParentHash safe)) in
  let* sysCfg := map_err (fun e => NewTemporaryError (Wrap "failed to fetch L1 config of core block" e))
                   (SystemConfigByL2Hash l2 (l2_Hash parent)) in
  Ok {| dp_cfg := dp_cfg dp; resetting := resetting dp; attrib := attrib dp;
        dp_origin := dp_origin dp; resetL2Safe := safe; resetSysConfig := sysCfg;
        engineIsReset := engineIsReset dp |}.

Definition ErrEngineResetReq : error :=
  Msg "cannot continue derivation until Engine has been reset".

(** One step: [Ok None] is [nil, nil], to be called again. *)
Definition Step (l2 : L2Source) (up : UpgradeTxs) (clock : Clock) (dp : DerivationPipeline)
    (pendingSafeHead : L2BlockRef) : DerivationPipeline * result (option AttributesWithParent) :=
  if resetting dp <? num_stages then
    if negb (engineIsReset dp) then (dp, Err (NewResetError ErrEngineResetReq))
    else
      match (if decide (pendingSafeHead <> resetL2Safe dp)
             then map_err (Wrap "failed initial reset work") (initialReset l2 dp pendingSafeHead)
             else Ok dp) with
      | Err e => (dp, Err e)
      | Panic => (dp, Panic)
      | Ok dp =>
          match AttributesQueue_Reset (attrib dp) with
          | (aq, Err e) =>
              if decide (e = EOF) then
                ({| dp_cfg := dp_cfg dp; resetting := resetting dp + 1; attrib := aq;
                    dp_origin := dp_origin dp; resetL2Safe := resetL2Safe dp;
                    resetSysConfig := resetSysConfig dp; engineIsReset := engineIsReset dp |},
                 Ok None)
              else (with_attrib dp aq, Err (Wrap "stage failed resetting" e))
          | (aq, Ok _) => (with_attrib dp aq, Ok None)
          | (aq, Panic) => (with_attrib dp aq, Panic)
          end
      end
  else
    match NextAttributes (dp_cfg dp) l2 up clock (attrib dp) pendingSafeHead with
    | (aq, Ok a) => (with_attrib dp aq, Ok (Some a))
    | (aq, Err e) =>
        (with_attrib dp aq,
         if decide (e = EOF) then Err e
         else if errors_Is e EngineELSyncing then Err e
         else Err (Wrap "derivation failed" e))
    | (aq, Panic) => (with_attrib dp aq, Panic)
    end.

(** ** The attributes *)

(** The time the builder gives the block: the next block time, or the wall
    clock when the next block time is more than a minute in the past. *)
Definition block_time (cfg : Config) (clock : Clock) (l2Parent : L2BlockRef) : Z :=
  let next := l2_Time l2Parent +u BlockTime cfg in
  if next <? (u64 (now1 clock) -u 60) then u64 (now2 clock) else next.

Definition upgrades (up : UpgradeTxs) : option (list bytes * list bytes * list bytes) :=
  match EcotoneNetworkUpgradeTransactions up, FjordNetworkUpgradeTransactions up,
        IsthmusNetworkUpgradeTransactions up with
  | Ok e, Ok f, Ok i => Some (e, f, i)
  | _, _, _ => None
  end.

Definition when (b : bool) (l : list bytes) : list bytes := if b then l else [].

Lemma append_upgrade_Ok b l msg acc : append_upgrade b (Ok l) msg acc = Ok (acc ++ when b l).
Proof. destruct b; simpl; [done|]. by rewrite app_nil_r. Qed.

Lemma Prepare_Ok cfg l2 up clock parent sys e f i :
  SystemConfigByL2Hash l2 (l2_Hash parent) = Ok sys -> upgrades up = Some (e, f, i) ->
  PreparePayloadAttributes cfg l2 up clock parent
  = Ok {| pa_Timestamp := block_time cfg clock parent;
          pa_PrevRandao := replicate 32 0;
          pa_SuggestedFeeRecipient := SequencerFeeVaultAddr;
          pa_Withdrawals :=
            if IsCanyon cfg (l2_Time parent +u BlockTime cfg) then Some [] else None;
          pa_ParentBeaconBlockRoot := None;
          pa_Transactions :=
            when (IsEcotoneActivationBlock cfg (l2_Time parent +u BlockTime cfg)) e
            ++ when (IsFjordActivationBlock cfg (l2_Time parent +u BlockTime cfg)) f
            ++ when (IsIsthmusActivationBlock cfg (l2_Time parent +u BlockTime cfg)) i;
          pa_NoTxPool := true;
          pa_GasLimit := Some (GasLimit sys);
          pa_EIP1559Params := if IsHolocene cfg (block_time cfg clock parent)
                              then Some (EIP1559Params sys) else None |}.
Proof.
  intros Hs Hu. unfold upgrades in Hu. unfold PreparePayloadAttributes, block_time. rewrite Hs.
  destruct (EcotoneNetworkUpgradeTransactions up); [|done|done].
  destruct (FjordNetworkUpgradeTransactions up); [|done|done].
  destruct (IsthmusNetworkUpgradeTransactions up); [|done|done]. injection Hu as -> -> ->.
  cbn [map_err rbind]. rewrite append_upgrade_Ok. cbn [rbind].
  rewrite append_upgrade_Ok. cbn [rbind]. rewrite append_upgrade_Ok. cbn [rbind].
  by rewrite <- app_assoc.
Qed.

(** A fork time: not active before it, active from it on. *)
Lemma activation_past ft bt t : 0 < bt -> ft <= t -> is_u64 t -> is_u64 (t + bt) ->
  activation_block (fork_active (Some ft)) bt (t +u bt) = false.
Proof.
  intros Hb Hft Ht Htb. unfold activation_block, fork_active.
  rewrite (u64_small (t + bt)) by done. unfold is_u64 in *.
  rewrite (u64_small (t + bt - bt)) by (unfold is_u64; lia).
  replace (t + bt - bt) with t by lia.
  rewrite (proj2 (Z.leb_le ft t)) by lia. by rewrite andb_false_r.
Qed.

(** A node that builds on a parent more than a minute old jumps its block
    to the wall clock; if Ecotone activates between the regular block time
    and the clock, this block does not carry Ecotone's upgrade transactions,
    and no block built on it or later ever will, since none of them is an
    activation block any more: the upgrade transactions are lost. *)
Theorem upgrade_transactions_skipped cfg l2 up clock parent sys e f i ft :
  SystemConfigByL2Hash l2 (l2_Hash parent) = Ok sys -> upgrades up = Some (e, f, i) ->
  EcotoneTime cfg = Some ft -> 0 < BlockTime cfg ->
  l2_Time parent +u BlockTime cfg < ft <= now2 clock ->
  l2_Time parent +u BlockTime cfg < u64 (now1 clock) -u 60 ->
  is_u64 (now2 clock) ->
  exists attrs, PreparePayloadAttributes cfg l2 up clock parent = Ok attrs
    /\ pa_Timestamp attrs = now2 clock
    /\ pa_Transactions attrs
       = when (IsFjordActivationBlock cfg (l2_Time parent +u BlockTime cfg)) f
         ++ when (IsIsthmusActivationBlock cfg (l2_Time parent +u BlockTime cfg)) i
    /\ forall t, now2 clock <= t -> is_u64 t -> is_u64 (t + BlockTime cfg) ->
         IsEcotoneActivationBlock cfg (t +u BlockTime cfg) = false.
Proof.
  intros Hs Hu Hft Hbt [Hlt Hle] Hlate Hn.
  eexists. split; [by apply (Prepare_Ok cfg l2 up clock parent sys e f i)|]. simpl.
  unfold block_time. rewrite (proj2 (Z.ltb_lt _ _)) by done.
  split; [by apply u64_small|]. split.
  - assert (IsEcotoneActivationBlock cfg (l2_Time parent +u BlockTime cfg) = false) as ->; [|done].
    unfold IsEcotoneActivationBlock, activation_block, IsEcotone, fork_active. rewrite Hft.
    by rewrite (proj2 (Z.leb_gt _ _)) by lia.
  - intros t Ht Htu Htb. unfold IsEcotoneActivationBlock, IsEcotone. rewrite Hft.
    apply activation_past; [done|lia|done|done].
Qed.

(** When the execution client answers, the attributes are determined: the
    next block time unless it is more than a minute in the past, the
    parent's gas limit, withdrawals from Canyon on, EIP-1559 parameters from
    Holocene on, no transaction pool, and as transactions exactly the
    upgrade transactions of the forks that the next block time activates. *)
Theorem PreparePayloadAttributes_spec cfg l2 up clock parent sys e f i :
  SystemConfigByL2Hash l2 (l2_Hash parent) = Ok sys -> upgrades up = Some (e, f, i) ->
  let next := l2_Time parent +u BlockTime cfg in
  exists attrs, PreparePayloadAttributes cfg l2 up clock parent = Ok attrs
    /\ (u64 (now1 clock) -u 60 <= next -> pa_Timestamp attrs = next)
    /\ pa_GasLimit attrs = Some (GasLimit sys) /\ pa_NoTxPool attrs = true
    /\ (pa_Withdrawals attrs = Some [] <-> IsCanyon cfg next = true)
    /\ (pa_EIP1559Params attrs = Some (EIP1559Params sys)
        <-> IsHolocene cfg (pa_Timestamp attrs) = true)
    /\ pa_Transactions attrs
       = when (IsEcotoneActivationBlock cfg next) e ++ when (IsFjordActivationBlock cfg next) f
         ++ when (IsIsthmusActivationBlock cfg next) i.
Proof.
  intros Hs Hu. cbv zeta. eexists. split; [by apply (Prepare_Ok cfg l2 up clock parent sys e f i)|].
  simpl. split_and!; [|done|done| | |done].
  - intros Hge. unfold block_time. by rewrite (proj2 (Z.ltb_ge _ _)).
  - by destruct (IsCanyon _ _).
  - by destruct (IsHolocene _ _).
Qed.

Lemma Prepare_err cfg l2 up clock parent err :
  PreparePayloadAttributes cfg l2 up clock parent = Err err ->
  exists lvl e', err = Leveled lvl e'.
Proof.
  unfold PreparePayloadAttributes, append_upgrade, rbind, map_err.
  intros H. repeat (case_match; simplify_eq/=); unfold NewTemporaryError, NewCriticalError; eauto.
Qed.

(** ** The reset protocol as a state machine *)

(** The operations on a pipeline, with the inputs a step reads. *)
Inductive dp_event : Type :=
  | EvReset
  | EvConfirm
  | EvStep (l2 : L2Source) (up : UpgradeTxs) (clock : Clock) (head : L2BlockRef)
  | EvDepositsOnly (parent : BlockID).

Definition dp_apply (ev : dp_event) (dp : DerivationPipeline) : DerivationPipeline :=
  match ev with
  | EvReset => Pipeline_Reset dp
  | EvConfirm => ConfirmEngineReset dp
  | EvStep l2 up clock head => (Step l2 up clock dp head).1
  | EvDepositsOnly parent => (Pipeline_DepositsOnlyAttributes dp parent).1
  end.

Inductive reachable (cfg : Config) : DerivationPipeline -> Prop :=
  | reach_new : reachable cfg (NewDerivationPipeline cfg)
  | reach_step dp ev : reachable cfg dp -> reachable cfg (dp_apply ev dp).

(** At most one stage is reset, only after the engine; the attributes queue
    has no stage before it. *)
Record dp_inv (dp : DerivationPipeline) : Prop := {
  di_range : 0 <= resetting dp <= num_stages;
  di_engine : 0 < resetting dp -> engineIsReset dp = true;
  di_prev : aq_prev (attrib dp) = None }.

Lemma NextAttributes_prev cfg l2 up clock aq parent :
  aq_prev (NextAttributes cfg l2 up clock aq parent).1 = aq_prev aq.
Proof. unfold NextAttributes. by destruct (createNextAttributes _ _ _ _ _). Qed.

Lemma Step_inv l2 up clock dp head : dp_inv dp -> dp_inv (Step l2 up clock dp head).1.
Proof.
  intros [Hr He Hp]. unfold Step, num_stages in *.
  destruct (Z.ltb_spec (resetting dp) 1).
  - destruct (engineIsReset dp) eqn:Ee; [|constructor; simpl; unfold num_stages; [lia|intros; lia|done]]. simpl.
    set (r := if decide _ then _ else _).
    assert (r = Panic \/ (exists e, r = Err e) \/ exists dp', r = Ok dp'
      /\ resetting dp' = resetting dp /\ engineIsReset dp' = true /\ attrib dp' = attrib dp)
      as [->|[[e ->]|(dp' & -> & E1 & E2 & E3)]].
    { unfold r. case_decide; [|right; right; by exists dp].
      unfold initialReset, map_err, rbind. repeat (case_match; simplify_eq/=); eauto 10. }
    + by constructor.
    + by constructor.
    + simpl. constructor; simpl; [rewrite E1; unfold num_stages; lia|done|by rewrite E3].
  - pose proof (NextAttributes_prev (dp_cfg dp) l2 up clock (attrib dp) head) as Hn.
    destruct (NextAttributes _ _ _ _ _ _) as [aq [a|e|]]; simpl in *;
      constructor; simpl; unfold num_stages; try done; by rewrite Hn.
Qed.

Lemma reachable_inv cfg dp : reachable cfg dp -> dp_inv dp.
Proof.
  induction 1 as [|dp ev _ IH]; [by constructor|].
  destruct IH as [Hr He Hp]. destruct ev as [| |l2 up clock head|parent]; simpl.
  - by constructor.
  - by constructor.
  - by apply Step_inv.
  - unfold Pipeline_DepositsOnlyAttributes, DepositsOnlyAttributes. rewrite Hp.
    repeat (case_match; simplify_eq/=); by constructor.
Qed.

Lemma NextAttributes_not_eof cfg l2 up clock aq parent :
  (NextAttributes cfg l2 up clock aq parent).2 <> Err EOF.
Proof.
  unfold NextAttributes, createNextAttributes.
  destruct (PreparePayloadAttributes cfg l2 up clock parent) eqn:E; simpl; [done| |done].
  apply Prepare_err in E as (lvl & e' & ->). done.
Qed.

(** In every reachable state of the pipeline, a step hands out attributes
    only after the engine reset was confirmed and every stage was reset, and
    they build on the head it was given; and a step never reports [io.EOF]:
    this pipeline does not wait for L1 data. *)
Theorem Step_safety cfg dp l2 up clock head :
  reachable cfg dp ->
  (forall a, (Step l2 up clock dp head).2 = Ok (Some a) ->
     DerivationReady dp = true /\ Parent a = head /\ pa_NoTxPool (Attributes a) = true)
  /\ (Step l2 up clock dp head).2 <> Err EOF.
Proof.
  intros [Hr He _]%reachable_inv. unfold Step, num_stages in *.
  destruct (Z.ltb_spec (resetting dp) 1).
  - destruct (engineIsReset dp); [|done]. simpl.
    set (r := if decide _ then _ else _).
    assert (r <> Err EOF) as Hne.
    { unfold r. case_decide; [|done]. unfold initialReset, map_err, rbind.
      repeat (case_match; simplify_eq/=); done. }
    destruct r as [dp'|e|]; simpl; [done| |done]. split; [done|congruence].
  - pose proof (NextAttributes_not_eof (dp_cfg dp) l2 up clock (attrib dp) head) as Hne.
    destruct (NextAttributes _ _ _ _ _ _) as [aq r] eqn:En. simpl in Hne.
    destruct r as [a|e|]; simpl.
    + split; [|done]. intros a' [= <-]. unfold DerivationReady. rewrite He by lia.
      split; [apply andb_true_iff; split; [done|lia]|].
      unfold NextAttributes, createNextAttributes in En.
      destruct (PreparePayloadAttributes _ _ _ _ _); simpl in En; [|done|done].
      by injection En as _ <-.
    + split; [by repeat case_match|].
      case_decide; [congruence|]. by case_match; [congruence|].
    + done.
Qed.

(** The pipeline can always recover: from any state, after a reset and the
    engine's confirmation, two steps on the same head give attributes, when
    the execution client knows the head's parent and both system
    configurations. *)
Theorem reset_then_two_steps l2 up clock dp head parent sys sys' e f i :
  src_L2BlockRefByHash l2 (l2_ParentHash head) = Ok parent ->
  SystemConfigByL2Hash l2 (l2_Hash parent) = Ok sys ->
  SystemConfigByL2Hash l2 (l2_Hash head) = Ok sys' ->
  upgrades up = Some (e, f, i) -> head <> zeroL2BlockRef ->
  let dp0 := ConfirmEngineReset (Pipeline_Reset dp) in
  let (dp1, r1) := Step l2 up clock dp0 head in
  let (dp2, r2) := Step l2 up clock dp1 head in
  r1 = Ok None /\ DerivationReady dp1 = true /\ exists a, r2 = Ok (Some a) /\ Parent a = head.
Proof.
  intros Hp Hs Hs' Hu Hne. cbv zeta. unfold Step at 1. simpl. rewrite decide_True by done.
  unfold initialReset. rewrite Hp. cbn [map_err rbind]. rewrite Hs. simpl.
  unfold Step, NextAttributes, createNextAttributes. simpl.
  rewrite (Prepare_Ok _ l2 up clock head sys' e f i Hs' Hu). simpl.
  split_and!; [done|done|]. by eexists.
Qed.

(** Handling an invalid block by its deposits alone panics: in every
    reachable state the attributes queue has no stage before it, so the flush
    of the channel dereferences nil, and asking for the deposits-only version
    of the attributes just handed out never returns. *)
Theorem deposits_only_panics cfg dp parent :
  reachable cfg dp ->
  (forall a, (Pipeline_DepositsOnlyAttributes dp parent).2 <> Ok a)
  /\ (forall last, lastAttribs (attrib dp) = Some last -> aq_batch (attrib dp) = false ->
       parent = L2BlockRef_ID (Parent last) ->
       (Pipeline_DepositsOnlyAttributes dp parent).2 = Panic).
Proof.
  intros [_ _ Hp]%reachable_inv.
  unfold Pipeline_DepositsOnlyAttributes, DepositsOnlyAttributes. rewrite Hp. split.
  - intros a. by repeat (case_match; simplify_eq/=).
  - intros last -> -> ->. by rewrite decide_False by (intros H; by apply H).
Qed.

(** ** Witnesses *)

Definition ex_source : L2Source :=
  {| SystemConfigByL2Hash _ := Ok (gen_SystemConfig (cfg_Genesis example_config));
     src_L2BlockRefByHash _ := Ok (example_block 98) |}.

Definition ex_upgrades : UpgradeTxs :=
  {| EcotoneNetworkUpgradeTransactions := Ok [[126; 1]];
     FjordNetworkUpgradeTransactions := Ok [[126; 2]];
     IsthmusNetworkUpgradeTransactions := Ok [[126; 3]] |}.

Definition ex_clock (t : Z) : Clock := {| now1 := t; now2 := t |}.

(** The parent is at 100, Ecotone activates at 110, the clock is at 200. *)
Lemma upgrade_transactions_skipped_witness :
  exists attrs, PreparePayloadAttributes example_config ex_source ex_upgrades (ex_clock 200)
                  (example_block 100) = Ok attrs
    /\ pa_Timestamp attrs = 200
    /\ pa_Transactions attrs = []
    /\ forall t, 200 <= t -> is_u64 t -> is_u64 (t + 2) ->
         IsEcotoneActivationBlock example_config (t +u 2) = false.
Proof.
  apply (upgrade_transactions_skipped example_config ex_source ex_upgrades (ex_clock 200)
    (example_block 100) (gen_SystemConfig (cfg_Genesis example_config))
    [[126; 1]] [[126; 2]] [[126; 3]] 110); try reflexivity.
  all: vm_compute; intuition congruence.
Defined.

Lemma PreparePayloadAttributes_spec_witness :
  exists attrs, PreparePayloadAttributes example_config ex_source ex_upgrades (ex_clock 110)
                  (example_block 108) = Ok attrs
    /\ pa_Transactions attrs = [[126; 1]].
Proof.
  destruct (PreparePayloadAttributes_spec example_config ex_source ex_upgrades (ex_clock 110)
    (example_block 108) (gen_SystemConfig (cfg_Genesis example_config))
    [[126; 1]] [[126; 2]] [[126; 3]]) as (a & H & _ & _ & _ & _ & _ & Ht); [done|done|].
  exists a. split; [exact H|]. rewrite Ht. vm_compute. reflexivity.
Defined.

Lemma Step_safety_witness :
  (Step ex_source ex_upgrades (ex_clock 110) (NewDerivationPipeline example_config)
     (example_block 108)).2 <> Err EOF.
Proof. apply (Step_safety example_config). constructor. Defined.

Lemma reset_then_two_steps_witness :
  let dp0 := ConfirmEngineReset (Pipeline_Reset (NewDerivationPipeline example_config)) in
  let (dp1, r1) := Step ex_source ex_upgrades (ex_clock 110) dp0 (example_block 108) in
  DerivationReady dp1 = true.
Proof.
  pose proof (reset_then_two_steps ex_source ex_upgrades (ex_clock 110)
    (NewDerivationPipeline example_config) (example_block 108) (example_block 98)
    (gen_SystemConfig (cfg_Genesis example_config)) (gen_SystemConfig (cfg_Genesis example_config))
    [[126; 1]] [[126; 2]] [[126; 3]] eq_refl eq_refl eq_refl eq_refl ltac:(discriminate)) as H.
  cbv zeta in *. destruct (Step _ _ _ _ _) as [dp1 r1]. destruct (Step _ _ _ dp1 _) as [dp2 r2].
  apply H.
Defined.

Lemma deposits_only_panics_witness :
  let dp := (Step ex_source ex_upgrades (ex_clock 110)
              (Step ex_source ex_upgrades (ex_clock 110)
                (ConfirmEngineReset (NewDerivationPipeline example_config))
                (example_block 108)).1 (example_block 108)).1 in
  (Pipeline_DepositsOnlyAttributes dp (L2BlockRef_ID (example_block 108))).2 = Panic.
Proof.
  cbv zeta. eapply (deposits_only_panics example_config).
  - apply (reach_step _ _ (EvStep ex_source ex_upgrades (ex_clock 110) (example_block 108))).
    apply (reach_step _ _ (EvStep ex_source ex_upgrades (ex_clock 110) (example_block 108))).
    apply (reach_step _ _ EvConfirm). constructor.
  - vm_compute. reflexivity.
  - vm_compute. reflexivity.
  - vm_compute. reflexivity.
Defined.
