(* ===== verification/Engine.v ===== *)
(** * The engine controller

    Models [rhs-node/rollup/engine/engine_controller.go] and the event types
    of events.go, build_*.go and payload_*.go.  The execution engine is a
    record of its RPC methods, passed to each operation; an operation returns
    the new state, the events it emitted in order, and its result.  Time
    stamps that only feed logs and metrics are left out of the events. *)

From S2P Require Import Prelude EthTypes RollupConfig SpanBatch Batches Pipeline.

(** ** The execution engine *)

Inductive BlockLabel : Type := LabelUnsafe | LabelSafe | LabelFinalized.

Record PayloadInfo : Type := { pi_ID : Z; pi_Timestamp : Z }.

Record ExecEngine : Type := {
  GetPayload : PayloadInfo -> result ExecutionPayloadEnvelope;
  ForkchoiceUpdate : ForkchoiceState -> option PayloadAttributes ->
                     result (ExecutePayloadStatus * option Z);
  NewPayload : ExecutionPayload -> option Hash -> result ExecutePayloadStatus;
  L2BlockRefByLabel : BlockLabel -> result L2BlockRef }.

Definition UnknownPayload : Z := -38001.
Definition InvalidForkchoiceState : Z := -38002.
Definition InvalidPayloadAttributes : Z := -38003.

Definition IsEngineError (c : Z) : bool := (-38100 <? c) && (c <=? -38000).

(** ** State *)

Inductive syncStatusEnum : Type :=
  | syncStatusCL
  | syncStatusWillStartEL
  | syncStatusStartedEL
  | syncStatusFinishedELButNotFinalized
  | syncStatusFinishedEL.

Inductive Mode : Type := CLSync | ELSync.

#[global] Instance syncStatusEnum_eq_dec : EqDecision syncStatusEnum.
Proof. solve_decision. Defined.
#[global] Instance Mode_eq_dec : EqDecision Mode.
Proof. solve_decision. Defined.

(** The configuration is shared with the chain spec, whose own state is the
    current fork. *)
Record EngineController : Type := {
  SyncMode : Mode;
  SupportsPostFinalizationELSync : bool;
  syncStatus : syncStatusEnum;
  ec_fork : ForkName;
  rollupCfg : Config;
  unsafeHead : L2BlockRef;
  crossUnsafeHead : L2BlockRef;
  pendingSafeHead : L2BlockRef;
  localSafeHead : L2BlockRef;
  safeHead : L2BlockRef;
  finalizedHead : L2BlockRef;
  backupUnsafeHead : L2BlockRef;
  needFCUCall : bool;
  needFCUCallForBackupUnsafeReorg : bool }.

Definition NewEngineController (cfg : Config) (mode : Mode) (elsync : bool) : EngineController :=
  {| SyncMode := mode; SupportsPostFinalizationELSync := elsync;
     syncStatus := match mode with ELSync => syncStatusWillStartEL | CLSync => syncStatusCL end;
     ec_fork := EmptyFork; rollupCfg := cfg;
     unsafeHead := zeroL2BlockRef; crossUnsafeHead := zeroL2BlockRef;
     pendingSafeHead := zeroL2BlockRef; localSafeHead := zeroL2BlockRef;
     safeHead := zeroL2BlockRef; finalizedHead := zeroL2BlockRef;
     backupUnsafeHead := zeroL2BlockRef; needFCUCall := false;
     needFCUCallForBackupUnsafeReorg := false |}.

Definition IsEngineSyncing (e : EngineController) : bool :=
  match syncStatus e with
  | syncStatusWillStartEL | syncStatusStartedEL | syncStatusFinishedELButNotFinalized => true
  | _ => false
  end.

(** *** Setters *)

Definition set_syncStatus (e : EngineController) (s : syncStatusEnum) : EngineController :=
  {| SyncMode := SyncMode e; SupportsPostFinalizationELSync := SupportsPostFinalizationELSync e;
     syncStatus := s; ec_fork := ec_fork e; rollupCfg := rollupCfg e; unsafeHead := unsafeHead e;
     crossUnsafeHead := crossUnsafeHead e; pendingSafeHead := pendingSafeHead e;
     localSafeHead := localSafeHead e; safeHead := safeHead e; finalizedHead := finalizedHead e;
     backupUnsafeHead := backupUnsafeHead e; needFCUCall := needFCUCall e;
     needFCUCallForBackupUnsafeReorg := needFCUCallForBackupUnsafeReorg e |}.

Definition set_rollupCfg (e : EngineController) (c : Config) : EngineController :=
  {| SyncMode := SyncMode e; SupportsPostFinalizationELSync := SupportsPostFinalizationELSync e;
     syncStatus := syncStatus e; ec_fork := ec_fork e; rollupCfg := c; unsafeHead := unsafeHead e;
     crossUnsafeHead := crossUnsafeHead e; pendingSafeHead := pendingSafeHead e;
     localSafeHead := localSafeHead e; safeHead := safeHead e; finalizedHead := finalizedHead e;
     backupUnsafeHead := backupUnsafeHead e; needFCUCall := needFCUCall e;
     needFCUCallForBackupUnsafeReorg := needFCUCallForBackupUnsafeReorg e |}.

Definition set_needFCUCall (e : EngineController) (b : bool) : EngineController :=
  {| SyncMode := SyncMode e; SupportsPostFinalizationELSync := SupportsPostFinalizationELSync e;
     syncStatus := syncStatus e; ec_fork := ec_fork e; rollupCfg := rollupCfg e;
     unsafeHead := unsafeHead e;
     crossUnsafeHead := crossUnsafeHead e; pendingSafeHead := pendingSafeHead e;
     localSafeHead := localSafeHead e; safeHead := safeHead e; finalizedHead := finalizedHead e;
     backupUnsafeHead := backupUnsafeHead e; needFCUCall := b;
     needFCUCallForBackupUnsafeReorg := needFCUCallForBackupUnsafeReorg e |}.

Definition SetFinalizedHead (e : EngineController) (r : L2BlockRef) : EngineController :=
  {| SyncMode := SyncMode e; SupportsPostFinalizationELSync := SupportsPostFinalizationELSync e;
     syncStatus := syncStatus e; ec_fork := ec_fork e; rollupCfg := rollupCfg e;
     unsafeHead := unsafeHead e;
     crossUnsafeHead := crossUnsafeHead e; pendingSafeHead := pendingSafeHead e;
     localSafeHead := localSafeHead e; safeHead := safeHead e; finalizedHead := r;
     backupUnsafeHead := backupUnsafeHead e; needFCUCall := true;
     needFCUCallForBackupUnsafeReorg := needFCUCallForBackupUnsafeReorg e |}.

Definition SetPendingSafeL2Head (e : EngineController) (r : L2BlockRef) : EngineController :=
  {| SyncMode := SyncMode e; SupportsPostFinalizationELSync := SupportsPostFinalizationELSync e;
     syncStatus := syncStatus e; ec_fork := ec_fork e; rollupCfg := rollupCfg e;
     unsafeHead := unsafeHead e;
     crossUnsafeHead := crossUnsafeHead e; pendingSafeHead := r;
     localSafeHead := localSafeHead e; safeHead := safeHead e; finalizedHead := finalizedHead e;
     backupUnsafeHead := backupUnsafeHead e; needFCUCall := needFCUCall e;
     needFCUCallForBackupUnsafeReorg := needFCUCallForBackupUnsafeReorg e |}.

Definition SetLocalSafeHead (e : EngineController) (r : L2BlockRef) : EngineController :=
  {| SyncMode := SyncMode e; SupportsPostFinalizationELSync := SupportsPostFinalizationELSync e;
     syncStatus := syncStatus e; ec_fork := ec_fork e; rollupCfg := rollupCfg e;
     unsafeHead := unsafeHead e;
     crossUnsafeHead := crossUnsafeHead e; pendingSafeHead := pendingSafeHead e;
     localSafeHead := r; safeHead := safeHead e; finalizedHead := finalizedHead e;
     backupUnsafeHead := backupUnsafeHead e; needFCUCall := needFCUCall e;
     needFCUCallForBackupUnsafeReorg := needFCUCallForBackupUnsafeReorg e |}.

Definition SetSafeHead (e : EngineController) (r : L2BlockRef) : EngineController :=
  {| SyncMode := SyncMode e; SupportsPostFinalizationELSync := SupportsPostFinalizationELSync e;
     syncStatus := syncStatus e; ec_fork := ec_fork e; rollupCfg := rollupCfg e;
     unsafeHead := unsafeHead e;
     crossUnsafeHead := crossUnsafeHead e; pendingSafeHead := pendingSafeHead e;
     localSafeHead := localSafeHead e; safeHead := r; finalizedHead := finalizedHead e;
     backupUnsafeHead := backupUnsafeHead e; needFCUCall := true;
     needFCUCallForBackupUnsafeReorg := needFCUCallForBackupUnsafeReorg e |}.

Definition SetUnsafeHead (e : EngineController) (r : L2BlockRef) : EngineController :=
  let spec := CheckForkActivation {| spec_config := rollupCfg e; currentFork := ec_fork e |} r in
  {| SyncMode := SyncMode e; SupportsPostFinalizationELSync := SupportsPostFinalizationELSync e;
     syncStatus := syncStatus e; ec_fork := currentFork spec; rollupCfg := rollupCfg e;
     unsafeHead := r;
     crossUnsafeHead := crossUnsafeHead e; pendingSafeHead := pendingSafeHead e;
     localSafeHead := localSafeHead e; safeHead := safeHead e; finalizedHead := finalizedHead e;
     backupUnsafeHead := backupUnsafeHead e; needFCUCall := true;
     needFCUCallForBackupUnsafeReorg := needFCUCallForBackupUnsafeReorg e |}.

Definition SetCrossUnsafeHead (e : EngineController) (r : L2BlockRef) : EngineController :=
  {| SyncMode := SyncMode e; SupportsPostFinalizationELSync := SupportsPostFinalizationELSync e;
     syncStatus := syncStatus e; ec_fork := ec_fork e; rollupCfg := rollupCfg e;
     unsafeHead := unsafeHead e;
     crossUnsafeHead := r; pendingSafeHead := pendingSafeHead e;
     localSafeHead := localSafeHead e; safeHead := safeHead e; finalizedHead := finalizedHead e;
     backupUnsafeHead := backupUnsafeHead e; needFCUCall := needFCUCall e;
     needFCUCallForBackupUnsafeReorg := needFCUCallForBackupUnsafeReorg e |}.

Definition SetBackupUnsafeL2Head (e : EngineController) (r : L2BlockRef) (triggerReorg : bool)
    : EngineController :=
  {| SyncMode := SyncMode e; SupportsPostFinalizationELSync := SupportsPostFinalizationELSync e;
     syncStatus := syncStatus e; ec_fork := ec_fork e; rollupCfg := rollupCfg e;
     unsafeHead := unsafeHead e;
     crossUnsafeHead := crossUnsafeHead e; pendingSafeHead := pendingSafeHead e;
     localSafeHead := localSafeHead e; safeHead := safeHead e; finalizedHead := finalizedHead e;
     backupUnsafeHead := r; needFCUCall := needFCUCall e;
     needFCUCallForBackupUnsafeReorg := triggerReorg |}.

(** ** Events *)

Record ForceReset : Type := {
  fr_LocalUnsafe : L2BlockRef;
  fr_CrossUnsafe : L2BlockRef;
  fr_LocalSafe : L2BlockRef;
  fr_CrossSafe : L2BlockRef;
  fr_Finalized : L2BlockRef }.

Inductive Event : Type :=
  | ForkchoiceRequestEvent
  | ForkchoiceUpdateEvent (UnsafeL2Head SafeL2Head FinalizedL2Head : L2BlockRef)
  | PromoteUnsafeEvent (Ref : L2BlockRef)
  | RequestCrossUnsafeEvent
  | UnsafeUpdateEvent (Ref : L2BlockRef)
  | PromoteCrossUnsafeEvent (Ref : L2BlockRef)
  | CrossUnsafeUpdateEvent (CrossUnsafe LocalUnsafe : L2BlockRef)
  | PendingSafeUpdateEvent (PendingSafe Unsafe : L2BlockRef)
  | PromotePendingSafeEvent (Ref : L2BlockRef) (Concluding : bool)
  | PromoteLocalSafeEvent (Ref : L2BlockRef)
  | RequestCrossSafeEvent
  | CrossSafeUpdateEvent (CrossSafe LocalSafe : L2BlockRef)
  | LocalSafeUpdateEvent (Ref : L2BlockRef)
  | PromoteSafeEvent (Ref : L2BlockRef)
  | SafeDerivedEvent (Safe : L2BlockRef)
  | PendingSafeRequestEvent
  | ProcessUnsafePayloadEvent (Envelope : ExecutionPayloadEnvelope)
  | TryBackupUnsafeReorgEvent
  | TryUpdateEngineEvent (Envelope : option ExecutionPayloadEnvelope)
  | EngineResetConfirmedEvent (LocalUnsafe CrossUnsafe LocalSafe CrossSafe Finalized : L2BlockRef)
  | PromoteFinalizedEvent (Ref : L2BlockRef)
  | FinalizedUpdateEvent (Ref : L2BlockRef)
  | RequestFinalizedUpdateEvent
  | CrossUpdateRequestEvent (CrossUnsafe CrossSafe : bool)
  | InteropInvalidateBlockEvent (Invalidated : BlockRef) (Attrs : AttributesWithParent)
  | BuildStartEvent (Attrs : AttributesWithParent)
  | BuildStartedEvent (Info : PayloadInfo) (Parent : L2BlockRef) (Concluding : bool)
  | BuildSealEvent (Info : PayloadInfo) (Concluding : bool)
  | BuildSealedEvent (Concluding : bool) (Info : PayloadInfo)
      (Envelope : ExecutionPayloadEnvelope) (Ref : L2BlockRef)
  | BuildInvalidEvent (Attrs : AttributesWithParent) (Err : error)
  | BuildCancelEvent (Info : PayloadInfo) (Force : bool)
  | InvalidPayloadAttributesEvent (Attrs : AttributesWithParent) (Err : error)
  | PayloadSealInvalidEvent (Info : PayloadInfo) (Err : error) (Concluding : bool)
  | PayloadSealExpiredErrorEvent (Info : PayloadInfo) (Err : error) (Concluding : bool)
  | PayloadProcessEvent (Concluding : bool) (Envelope : ExecutionPayloadEnvelope) (Ref : L2BlockRef)
  | PayloadSuccessEvent (Concluding : bool) (Envelope : ExecutionPayloadEnvelope) (Ref : L2BlockRef)
  | PayloadInvalidEvent (Envelope : ExecutionPayloadEnvelope) (Err : option error)
  | ForceResetEvent (x : ForceReset)
  | ResetEvent (Err : error)
  | EngineTemporaryErrorEvent (Err : option error)
  | CriticalErrorEvent (Err : error).

(** [eth.NewPayloadErr] and [eth.ForkchoiceUpdateErr]; [None] is a nil error. *)
Definition NewPayloadErr (payload : ExecutionPayload) (status : ExecutePayloadStatus)
    : option error :=
  match status with
  | ExecutionValid => None
  | ExecutionSyncing => Some (Msg "failed to execute payload, node is syncing")
  | ExecutionInvalid => Some (Msg "execution payload was INVALID!")
  | ExecutionInvalidBlockHash => Some (Msg "execution payload has INVALID BLOCKHASH!")
  | ExecutionInvalidTerminalBlock => Some (Msg "engine is misconfigured")
  | ExecutionAccepted => Some (Msg "execution payload cannot be validated yet")
  | ExecutionUnknown _ => Some (Msg "unknown execution status")
  end.

Definition ForkchoiceUpdateErr (status : ExecutePayloadStatus) : option error :=
  match status with
  | ExecutionSyncing => Some (Msg "updated forkchoice, but node is syncing")
  | ExecutionAccepted | ExecutionInvalidTerminalBlock | ExecutionInvalidBlockHash =>
      Some (Msg "unexpected status, could not update forkchoice")
  | ExecutionInvalid => Some (Msg "cannot update forkchoice, block is invalid")
  | ExecutionValid => None
  | ExecutionUnknown _ => Some (Msg "unknown forkchoice status")
  end.

(** [fmt.Errorf("msg: %w", err)] where [err] may be nil. *)
Definition Errorf (msg : string) (err : option error) : error :=
  match err with Some e => Wrap msg e | None => Msg msg end.

(** ** The controller's operations *)

Definition checkNewPayloadStatus (e : EngineController) (status : ExecutePayloadStatus)
    : EngineController * bool :=
  match SyncMode e with
  | ELSync =>
      (if bool_decide (status = ExecutionValid) && bool_decide (syncStatus e = syncStatusStartedEL)
       then set_syncStatus e syncStatusFinishedELButNotFinalized else e,
       bool_decide (status = ExecutionValid) || bool_decide (status = ExecutionSyncing)
       || bool_decide (status = ExecutionAccepted))
  | CLSync => (e, bool_decide (status = ExecutionValid))
  end.

Definition checkForkchoiceUpdatedStatus (e : EngineController) (status : ExecutePayloadStatus)
    : EngineController * bool :=
  match SyncMode e with
  | ELSync =>
      (if bool_decide (status = ExecutionValid) && bool_decide (syncStatus e = syncStatusStartedEL)
       then set_syncStatus e syncStatusFinishedELButNotFinalized else e,
       bool_decide (status = ExecutionValid) || bool_decide (status = ExecutionSyncing))
  | CLSync => (e, bool_decide (status = ExecutionValid))
  end.

(** [e.unsafeHead == (eth.L2BlockRef{})] *)
Definition is_zero (r : L2BlockRef) : bool := bool_decide (r = zeroL2BlockRef).

(** The heads are loaded one after the other; a failure keeps those loaded
    before it.  [finalizedRef] stays the zero value when the finalized head
    is already known. *)
Definition initializeUnknowns (eng : ExecEngine) (e : EngineController)
    : EngineController * result unit :=
  let '(e, r) :=
    if is_zero (unsafeHead e) then
      match L2BlockRefByLabel eng LabelUnsafe with
      | Ok ref => (SetUnsafeHead e ref, Ok ())
      | Err err => (e, Err (Wrap "failed to load local-unsafe head" err))
      | Panic => (e, Panic)
      end
    else (e, Ok ()) in
  match r with
  | Err err => (e, Err err)
  | Panic => (e, Panic)
  | Ok _ =>
  let '(e, r) :=
    if is_zero (finalizedHead e) then
      match L2BlockRefByLabel eng LabelFinalized with
      | Ok ref => (SetFinalizedHead e ref, Ok ref)
      | Err err => (e, Err (Wrap "failed to load finalized head" err))
      | Panic => (e, Panic)
      end
    else (e, Ok zeroL2BlockRef) in
  match r with
  | Err err => (e, Err err)
  | Panic => (e, Panic)
  | Ok finalizedRef =>
  let '(e, r) :=
    if is_zero (safeHead e) then
      match L2BlockRefByLabel eng LabelSafe with
      | Ok ref => (SetSafeHead e ref, Ok ())
      | Err err => if errors_Is err NotFound then (SetSafeHead e finalizedRef, Ok ())
                   else (e, Err (Wrap "failed to load cross-safe head" err))
      | Panic => (e, Panic)
      end
    else (e, Ok ()) in
  match r with
  | Err err => (e, Err err)
  | Panic => (e, Panic)
  | Ok _ =>
      let e := if is_zero (crossUnsafeHead e) then SetCrossUnsafeHead e (safeHead e) else e in
      let e := if is_zero (localSafeHead e) then SetLocalSafeHead e (safeHead e) else e in
      (e, Ok ())
  end end end.

Definition forkchoice (e : EngineController) : ForkchoiceState :=
  {| HeadBlockHash := l2_Hash (unsafeHead e); SafeBlockHash := l2_Hash (safeHead e);
     FinalizedBlockHash := l2_Hash (finalizedHead e) |}.

(** The error of a failed forkchoice update: [inconsistent] and [failed] are
    the messages of the branches. *)
Definition fcu_error (err : error) (inconsistent failed : string) : error :=
  match errors_As_rpc err with
  | Some code =>
      if code =? InvalidForkchoiceState then NewResetError (Wrap inconsistent err)
      else NewTemporaryError (Wrap "unexpected error code in forkchoice-updated response" err)
  | None => NewTemporaryError (Wrap failed err)
  end.

Definition TryUpdateEngine (eng : ExecEngine) (e : EngineController)
    : EngineController * list Event * result unit :=
  if negb (needFCUCall e) then (e, [], Err ErrNoFCUNeeded)
  else
    match initializeUnknowns eng e with
    | (e, Panic) => (e, [], Panic)
    | (e, Err err) =>
        (e, [], Err (NewTemporaryError
          (Wrap "cannot update engine until engine forkchoice is initialized" err)))
    | (e, Ok _) =>
        if l2_Number (unsafeHead e) <? l2_Number (finalizedHead e) then
          let err := Msg "invalid forkchoice state, unsafe head is behind finalized head" in
          (e, [CriticalErrorEvent err], Err err)
        else
          match ForkchoiceUpdate eng (forkchoice e) None with
          | Panic => (e, [], Panic)
          | Err err =>
              (e, [], Err (fcu_error err
                "forkchoice update was inconsistent with engine, need reset to resolve"
                "failed to sync forkchoice with engine"))
          | Ok (status, _) =>
              let evs := if decide (status = ExecutionValid)
                         then [ForkchoiceUpdateEvent (unsafeHead e) (safeHead e) (finalizedHead e)]
                         else [] in
              let e := if bool_decide (unsafeHead e = safeHead e)
                          && bool_decide (safeHead e = pendingSafeHead e)
                       then SetBackupUnsafeL2Head e zeroL2BlockRef false else e in
              (set_needFCUCall e false, evs, Ok ())
          end
    end.

(** The EL-sync gate at the start of [InsertUnsafePayload]: [Ok true] goes on,
    [Ok false] returns nil. *)
Definition start_el_sync (eng : ExecEngine) (e : EngineController)
    : EngineController * result bool :=
  if decide (syncStatus e = syncStatusWillStartEL) then
    let r := L2BlockRefByLabel eng LabelFinalized in
    let b := match r with Ok ref => ref | _ => zeroL2BlockRef end in
    let notFound := match r with Err err => errors_Is err NotFound | _ => false end in
    let rollupGenesisIsFinalized :=
      l2_Hash b =? bid_Hash (L2 (cfg_Genesis (rollupCfg e))) in
    match r with
    | Panic => (e, Panic)
    | _ =>
        if notFound || rollupGenesisIsFinalized || SupportsPostFinalizationELSync e then
          (set_syncStatus e syncStatusStartedEL, Ok true)
        else match r with
             | Ok _ => (set_syncStatus e syncStatusFinishedEL, Ok false)
             | Err err => (e, Err (NewTemporaryError (Wrap "failed to fetch finalized head" err)))
             | Panic => (e, Panic)
             end
    end
  else (e, Ok true).

(** The part after the gate, with the payload's verdict. *)
Definition insert_payload (eng : ExecEngine) (e : EngineController)
    (envelope : ExecutionPayloadEnvelope) (ref : L2BlockRef) (status : ExecutePayloadStatus)
    : EngineController * list Event * result unit :=
  let payload := env_ExecutionPayload envelope in
  let evs := if decide (status = ExecutionInvalid)
             then [PayloadInvalidEvent envelope (NewPayloadErr payload status)] else [] in
  let '(e, ok) := checkNewPayloadStatus e status in
  if negb ok then
    (e, evs, Err (NewTemporaryError
       (Errorf "cannot process unsafe payload" (NewPayloadErr payload status))))
  else
    let finished := bool_decide (syncStatus e = syncStatusFinishedELButNotFinalized) in
    let fc :=
      if finished
      then {| HeadBlockHash := ep_BlockHash payload; SafeBlockHash := ep_BlockHash payload;
              FinalizedBlockHash := ep_BlockHash payload |}
      else {| HeadBlockHash := ep_BlockHash payload; SafeBlockHash := l2_Hash (safeHead e);
              FinalizedBlockHash := l2_Hash (finalizedHead e) |} in
    let e := if finished
             then SetFinalizedHead
                    (SetSafeHead (SetLocalSafeHead (SetUnsafeHead e ref) ref) ref) ref
             else e in
    let evs := if finished
               then evs ++ [UnsafeUpdateEvent ref; CrossSafeUpdateEvent ref ref] else evs in
    match ForkchoiceUpdate eng fc None with
    | Panic => (e, evs, Panic)
    | Err err =>
        (e, evs, Err (fcu_error err
          "pre-unsafe-block forkchoice update was inconsistent with engine, need reset to resolve"
          "failed to update forkchoice to prepare for new unsafe payload"))
    | Ok (fcStatus, _) =>
        let '(e, ok) := checkForkchoiceUpdatedStatus e fcStatus in
        if negb ok then
          (e, evs, Err (NewTemporaryError
             (Errorf "cannot prepare unsafe chain for new payload" (ForkchoiceUpdateErr fcStatus))))
        else
          let e := set_needFCUCall (SetUnsafeHead e ref) false in
          let evs := evs ++ [UnsafeUpdateEvent ref] in
          let e := if decide (syncStatus e = syncStatusFinishedELButNotFinalized)
                   then set_syncStatus e syncStatusFinishedEL else e in
          if bool_decide (fcStatus = ExecutionValid) || bool_decide (fcStatus = ExecutionSyncing)
          then
            let e := SetFinalizedHead (SetSafeHead e ref) ref in
            (e, evs ++ [ForkchoiceUpdateEvent (unsafeHead e) (safeHead e) (finalizedHead e)], Ok ())
          else (e, evs, Ok ())
    end.

Definition InsertUnsafePayload (eng : ExecEngine) (e : EngineController)
    (envelope : ExecutionPayloadEnvelope) (ref : L2BlockRef)
    : EngineController * list Event * result unit :=
  match start_el_sync eng e with
  | (e, Panic) => (e, [], Panic)
  | (e, Err err) => (e, [], Err err)
  | (e, Ok false) => (e, [], Ok ())
  | (e, Ok true) =>
      match NewPayload eng (env_ExecutionPayload envelope) (ParentBeaconBlockRoot envelope) with
      | Panic => (e, [], Panic)
      | Err err =>
          (e, [], Err (NewTemporaryError (Wrap "failed to update insert payload" err)))
      | Ok status => insert_payload eng e envelope ref status
      end
  end.

Definition shouldTryBackupUnsafeReorg (e : EngineController) : EngineController * bool :=
  if negb (needFCUCallForBackupUnsafeReorg e) then (e, false)
  else if IsEngineSyncing e then (e, false)
  else if is_zero (backupUnsafeHead e) then (SetBackupUnsafeL2Head e zeroL2BlockRef false, false)
  else (e, true).

Definition set_needBackup (e : EngineController) (b : bool) : EngineController :=
  SetBackupUnsafeL2Head e (backupUnsafeHead e) b.

Definition TryBackupUnsafeReorg (eng : ExecEngine) (e : EngineController)
    : EngineController * list Event * (bool * result unit) :=
  match shouldTryBackupUnsafeReorg e with
  | (e, false) => (e, [], (false, Ok ()))
  | (e, true) =>
      let e := set_needBackup e false in
      let fc := {| HeadBlockHash := l2_Hash (backupUnsafeHead e);
                   SafeBlockHash := l2_Hash (safeHead e);
                   FinalizedBlockHash := l2_Hash (finalizedHead e) |} in
      match ForkchoiceUpdate eng fc None with
      | Panic => (e, [], (true, Panic))
      | Err err =>
          let invalid := match errors_As_rpc err with
                         | Some code => code =? InvalidForkchoiceState
                         | None => false
                         end in
          (if invalid then SetBackupUnsafeL2Head e zeroL2BlockRef false
           else set_needBackup e true, [],
           (true, Err (fcu_error err
              "forkchoice update was inconsistent with engine, need reset to resolve"
              "failed to sync forkchoice with engine")))
      | Ok (status, _) =>
          if decide (status = ExecutionValid) then
            let ev := ForkchoiceUpdateEvent (backupUnsafeHead e) (safeHead e) (finalizedHead e) in
            let e := SetUnsafeHead e (backupUnsafeHead e) in
            (SetBackupUnsafeL2Head e zeroL2BlockRef false, [ev], (true, Ok ()))
          else
            (SetBackupUnsafeL2Head e zeroL2BlockRef false, [],
             (true, Err (NewTemporaryError
                (Errorf "cannot restore unsafe chain using backupUnsafe" (ForkchoiceUpdateErr status)))))
      end
  end.

(** ** Properties of the controller *)

(** [e'] has the heads of [e], except that a head that was the zero value may
    have been loaded; everything the update does not touch is the same. *)
Definition filled (r r' : L2BlockRef) : Prop := r = zeroL2BlockRef \/ r' = r.

Record fills (e e' : EngineController) : Prop := {
  fills_unsafe : filled (unsafeHead e) (unsafeHead e');
  fills_crossUnsafe : filled (crossUnsafeHead e) (crossUnsafeHead e');
  fills_localSafe : filled (localSafeHead e) (localSafeHead e');
  fills_safe : filled (safeHead e) (safeHead e');
  fills_finalized : filled (finalizedHead e) (finalizedHead e');
  fills_pending : pendingSafeHead e' = pendingSafeHead e;
  fills_status : syncStatus e' = syncStatus e;
  fills_cfg : rollupCfg e' = rollupCfg e }.

(** What a failing update keeps: the request for the update and the backup. *)
Record keeps_request (e e' : EngineController) : Prop := {
  keeps_need : needFCUCall e = true -> needFCUCall e' = true;
  keeps_backup : backupUnsafeHead e' = backupUnsafeHead e
    /\ needFCUCallForBackupUnsafeReorg e' = needFCUCallForBackupUnsafeReorg e }.

Lemma filled_refl r : filled r r.
Proof. by right. Qed.

Lemma is_zero_true r : is_zero r = true -> r = zeroL2BlockRef.
Proof. apply bool_decide_eq_true_1. Qed.

#[export] Hint Resolve filled_refl : rollup.

(** Every head of [initializeUnknowns] is written under a test that it is
    zero. *)
Ltac head_tests :=
  repeat match goal with
  | |- context [is_zero ?r] => destruct (is_zero r) eqn:?; simpl
  | |- context [L2BlockRefByLabel ?e ?l] => destruct (L2BlockRefByLabel e l) eqn:?; simpl
  | |- context [errors_Is ?e ?t] => destruct (errors_Is e t) eqn:?; simpl
  end.

Lemma initializeUnknowns_fills eng e :
  let e' := (initializeUnknowns eng e).1 in fills e e' /\ keeps_request e e'.
Proof.
  unfold initializeUnknowns. head_tests; (split; constructor; simpl);
    auto with rollup; try (left; by apply is_zero_true).
Qed.

(** The heads after a successful initialisation. *)
Lemma initializeUnknowns_known eng e :
  unsafeHead e <> zeroL2BlockRef -> crossUnsafeHead e <> zeroL2BlockRef ->
  localSafeHead e <> zeroL2BlockRef -> safeHead e <> zeroL2BlockRef ->
  finalizedHead e <> zeroL2BlockRef -> initializeUnknowns eng e = (e, Ok ()).
Proof.
  intros H1 H2 H3 H4 H5. unfold initializeUnknowns, is_zero.
  rewrite (bool_decide_eq_false_2 _ H1). rewrite (bool_decide_eq_false_2 _ H5).
  rewrite (bool_decide_eq_false_2 _ H4). rewrite (bool_decide_eq_false_2 _ H2).
  by rewrite (bool_decide_eq_false_2 _ H3).
Qed.

(** The level of the error of a failed forkchoice update. *)
Lemma fcu_error_level err m1 m2 :
  Error_Is (fcu_error err m1 m2) LevelTemporary = true
  \/ Error_Is (fcu_error err m1 m2) LevelReset = true.
Proof.
  unfold fcu_error. destruct (errors_As_rpc err) as [c|]; [destruct (c =? _)|];
    [right|left|left]; reflexivity.
Qed.

(** [TryUpdateEngine] does nothing but answer "not needed" when no update
    is requested.  Otherwise it never replaces a known head, it sends the
    engine a forkchoice that is exactly the unsafe, safe and finalized heads of
    the state it leaves, never one whose unsafe head is behind the finalized
    head, and on success no update is requested any more, so that a second
    call is a no-op; on failure the request and the backup head stay for a
    retry, and the error is temporary, a reset, or comes with a critical
    event. *)
Theorem TryUpdateEngine_spec eng e e' evs r :
  TryUpdateEngine eng e = (e', evs, r) ->
  (needFCUCall e = false -> e' = e /\ evs = [] /\ r = Err ErrNoFCUNeeded)
  /\ (needFCUCall e = true ->
      fills e e'
      /\ (r = Ok () ->
          l2_Number (finalizedHead e') <= l2_Number (unsafeHead e')
          /\ (exists status id,
                ForkchoiceUpdate eng
                  {| HeadBlockHash := l2_Hash (unsafeHead e');
                     SafeBlockHash := l2_Hash (safeHead e');
                     FinalizedBlockHash := l2_Hash (finalizedHead e') |} None = Ok (status, id)
                /\ evs = if decide (status = ExecutionValid)
                         then [ForkchoiceUpdateEvent (unsafeHead e') (safeHead e')
                                 (finalizedHead e')] else [])
          /\ TryUpdateEngine eng e' = (e', [], Err ErrNoFCUNeeded))
      /\ (r <> Ok () -> keeps_request e e' /\ needFCUCall e' = true)
      /\ (forall err, r = Err err ->
          Error_Is err LevelTemporary = true \/ Error_Is err LevelReset = true
          \/ evs = [CriticalErrorEvent err])).
Proof.
  unfold TryUpdateEngine at 1. destruct (needFCUCall e) eqn:Hn; simpl; [|naive_solver].
  intros H. split; [done|intros _].
  destruct (initializeUnknowns_fills eng e) as [Hf Hk].
  destruct (initializeUnknowns eng e) as [e1 [[]|err|]]; simpl in *.
  2-3: injection H as <- <- <-; split_and!; [done|done|intros _; split; [done|by apply Hk]|].
  2: intros err' [= <-]; by left.
  2: done.
  destruct (_ <? _) eqn:Hlt.
  { injection H as <- <- <-. split_and!; [done|done|intros _; split; [done|by apply Hk]|].
    intros err' [= <-]. by right; right. }
  destruct (ForkchoiceUpdate _ _ _) as [[status id]|err|] eqn:Hfc.
  2-3: injection H as <- <- <-; split_and!; [done|done|intros _; split; [done|by apply Hk]|].
  2: intros err' [= <-]; destruct (fcu_error_level err
       "forkchoice update was inconsistent with engine, need reset to resolve"
       "failed to sync forkchoice with engine"); tauto.
  2: done.
  set (e2 := if _ && _ then _ else _) in H. injection H as <- <- <-.
  assert (unsafeHead e2 = unsafeHead e1 /\ safeHead e2 = safeHead e1
    /\ finalizedHead e2 = finalizedHead e1 /\ fills e e2) as (E1 & E2 & E3 & Hf2).
  { subst e2. case_match; [|done]. split_and!; [done|done|done|]. by destruct Hf. }
  simpl. rewrite E1, E2, E3. split_and!; [by destruct Hf2| |done|done].
  intros _. split_and!; [lia| |done]. by exists status, id.
Qed.

(** *** Inserting unsafe payloads *)

(** The EL sync moves forward only. *)
Definition sync_rank (s : syncStatusEnum) : nat :=
  match s with
  | syncStatusCL => 0
  | syncStatusWillStartEL => 1
  | syncStatusStartedEL => 2
  | syncStatusFinishedELButNotFinalized => 3
  | syncStatusFinishedEL => 4
  end.

Definition sync_forward (s s' : syncStatusEnum) : Prop :=
  s = s' \/ s <> syncStatusCL /\ (sync_rank s < sync_rank s')%nat.

Lemma sync_forward_trans s1 s2 s3 : sync_forward s1 s2 -> sync_forward s2 s3 -> sync_forward s1 s3.
Proof.
  unfold sync_forward. intros [->|[H1 H2]] [->|[H3 H4]]; [by left|by right|by right|].
  right. split; [done|lia].
Qed.

#[global] Instance sync_forward_refl : Reflexive sync_forward.
Proof. by left. Qed.

Lemma set_syncStatus_id e : set_syncStatus e (syncStatus e) = e.
Proof. by destruct e. Qed.

Lemma start_el_sync_spec eng e e1 r : start_el_sync eng e = (e1, r) ->
  e1 = set_syncStatus e (syncStatus e1)
  /\ sync_forward (syncStatus e) (syncStatus e1)
  /\ (r = Ok false -> syncStatus e = syncStatusWillStartEL /\ syncStatus e1 = syncStatusFinishedEL)
  /\ (forall err, r = Err err -> Error_Is err LevelTemporary = true)
  /\ (syncStatus e <> syncStatusWillStartEL -> e1 = e).
Proof.
  assert (forall s s' : syncStatusEnum, s <> syncStatusCL -> (sync_rank s < sync_rank s')%nat ->
    sync_forward s s') as Hfwd by (by right).
  unfold start_el_sync. case_decide as Hs;
    [|intros [= <- <-]; rewrite set_syncStatus_id; by split_and!].
  destruct (L2BlockRefByLabel _ _) as [b|err|]; try destruct (_ || _);
    intros [= <- <-]; rewrite ?set_syncStatus_id; simpl; rewrite ?Hs; split_and!;
    try done; try (apply Hfwd; [done|simpl; lia]).
  by intros err' [= <-].
Qed.

(** The two status checks: the mode, the new sync status and the verdict. *)
Lemma check_status_spec e status e1 ok :
  checkNewPayloadStatus e status = (e1, ok) \/ checkForkchoiceUpdatedStatus e status = (e1, ok) ->
  e1 = set_syncStatus e (syncStatus e1) /\ sync_forward (syncStatus e) (syncStatus e1)
  /\ (syncStatus e <> syncStatusStartedEL -> e1 = e).
Proof.
  unfold checkNewPayloadStatus, checkForkchoiceUpdatedStatus, sync_forward.
  intros H. destruct (SyncMode e).
  { destruct H as [[= <- _]|[= <- _]]; destruct e; auto. }
  destruct (decide (syncStatus e = syncStatusStartedEL)) as [Hs|Hs].
  - assert (e1 = e \/ e1 = set_syncStatus e syncStatusFinishedELButNotFinalized) as [-> | ->].
    { destruct H as [[= <- _]|[= <- _]]; destruct (bool_decide (status = _)); simpl;
        try rewrite (bool_decide_eq_true_2 _ Hs); auto. }
    + destruct e; auto.
    + simpl. rewrite Hs. split_and!; [done|right; split; [done|simpl; lia]|done].
  - rewrite (bool_decide_eq_false_2 _ Hs), andb_false_r in H.
    destruct H as [[= <- _]|[= <- _]]; destruct e; auto.
Qed.

Lemma checkForkchoiceUpdatedStatus_ok e status e1 :
  checkForkchoiceUpdatedStatus e status = (e1, true) ->
  status = ExecutionValid \/ status = ExecutionSyncing.
Proof.
  unfold checkForkchoiceUpdatedStatus. destruct (SyncMode e); intros [= _ H].
  - apply bool_decide_eq_true in H. by left.
  - apply orb_true_iff in H as [H|H]; apply bool_decide_eq_true in H; auto.
Qed.

Definition marked_final (e : EngineController) (evs : list Event) (ref : L2BlockRef) : Prop :=
  unsafeHead e = ref /\ safeHead e = ref /\ finalizedHead e = ref /\ needFCUCall e = true
  /\ last evs = Some (ForkchoiceUpdateEvent ref ref ref).

Definition retryable (r : result unit) : Prop :=
  forall err, r = Err err ->
    Error_Is err LevelTemporary = true \/ Error_Is err LevelReset = true.

Lemma Errorf_temporary m o : retryable (Err (NewTemporaryError (Errorf m o))).
Proof. intros err [= <-]. by left. Qed.

Lemma fcu_error_retryable err m1 m2 : retryable (Err (fcu_error err m1 m2)).
Proof. intros err' [= <-]. apply fcu_error_level. Qed.

#[export] Hint Resolve Errorf_temporary fcu_error_retryable : rollup.

(** The state after the payload was found acceptable: only an EL sync that
    just finished moves heads before the forkchoice update. *)
Definition pre_update (e : EngineController) (ref : L2BlockRef) : EngineController :=
  if bool_decide (syncStatus e = syncStatusFinishedELButNotFinalized)
  then SetFinalizedHead (SetSafeHead (SetLocalSafeHead (SetUnsafeHead e ref) ref) ref) ref
  else e.

Lemma pre_update_status e ref :
  syncStatus (pre_update e ref) = syncStatus e /\ SyncMode (pre_update e ref) = SyncMode e.
Proof. unfold pre_update. by case_match. Qed.

Lemma insert_payload_spec eng e envelope ref status e' evs r :
  insert_payload eng e envelope ref status = (e', evs, r) ->
  sync_forward (syncStatus e) (syncStatus e')
  /\ (r = Ok () -> marked_final e' evs ref)
  /\ retryable r
  /\ (SyncMode e = CLSync -> syncStatus e = syncStatusCL -> r <> Ok () -> e' = e).
Proof.
  unfold insert_payload.
  destruct (checkNewPayloadStatus e status) as [e1 ok] eqn:Hc.
  destruct (check_status_spec e status e1 ok) as (He1 & Hf1 & Hs1); [by left|].
  assert (syncStatus e = syncStatusCL -> e1 = e) as Hcl1 by (intros E; apply Hs1; by rewrite E).
  destruct ok; simpl; [|intros [= <- <- <-]; split_and!; auto with rollup; done].
  set (evs1 := if bool_decide _ then _ else _). set (e2 := if bool_decide _ then _ else e1).
  assert (syncStatus e2 = syncStatus e1 /\ SyncMode e2 = SyncMode e1) as [E1 E2]
    by apply (pre_update_status e1 ref).
  assert (syncStatus e = syncStatusCL -> e2 = e) as Hcl.
  { intros Hst. rewrite <- (Hcl1 Hst). subst e2. rewrite bool_decide_eq_false_2; [done|].
    by rewrite (Hcl1 Hst), Hst. }
  clearbody e2 evs1.
  destruct (ForkchoiceUpdate _ _ _) as [[fcStatus id]|err|].
  2-3: intros [= <- <- <-]; rewrite E1; split_and!; auto with rollup; done.
  destruct (checkForkchoiceUpdatedStatus e2 fcStatus) as [e3 ok'] eqn:Hc'.
  destruct (check_status_spec e2 fcStatus e3 ok') as (He3 & Hf3 & Hs3); [by right|].
  rewrite E1 in Hf3. pose proof (sync_forward_trans _ _ _ Hf1 Hf3) as Hf.
  destruct ok'; simpl.
  2:{ intros [= <- <- <-]; split_and!; auto with rollup; [done|]. intros _ Hst _.
      rewrite <- Hcl by done. apply Hs3. rewrite Hcl by done. by rewrite Hst. }
  replace (bool_decide (fcStatus = ExecutionValid) || bool_decide (fcStatus = ExecutionSyncing))
    with true by (by destruct (checkForkchoiceUpdatedStatus_ok _ _ _ Hc') as [-> | ->]).
  case_decide as Hfin; intros [= <- <- <-]; simpl; unfold marked_final; simpl;
    rewrite ?last_app; simpl; split_and!; try done.
  apply (sync_forward_trans _ _ _ Hf). right. simpl in Hfin. rewrite Hfin.
  split; [done|simpl; lia].
Qed.

(** [InsertUnsafePayload] as it is written.  When it succeeds, either it
    skipped the EL sync without touching the engine, or the new unsafe block
    has become the safe and the finalized head as well, wherever these heads
    were before, another forkchoice update is requested, and the last event
    announces the block as finalized.  Every error is temporary or a reset,
    a failure in CL-sync mode changes nothing, and the EL sync status moves
    forward only. *)
Theorem InsertUnsafePayload_finalizes eng e envelope ref e' evs r :
  InsertUnsafePayload eng e envelope ref = (e', evs, r) ->
  sync_forward (syncStatus e) (syncStatus e')
  /\ (r = Ok () ->
      (syncStatus e = syncStatusWillStartEL /\ e' = set_syncStatus e syncStatusFinishedEL
       /\ evs = [])
      \/ marked_final e' evs ref)
  /\ retryable r
  /\ (SyncMode e = CLSync -> syncStatus e = syncStatusCL -> r <> Ok () -> e' = e).
Proof.
  unfold InsertUnsafePayload. destruct (start_el_sync eng e) as [e1 r1] eqn:Hs.
  destruct (start_el_sync_spec _ _ _ _ Hs) as (He1 & Hf1 & Hskip & Herr & Hsame).
  assert (syncStatus e = syncStatusCL -> e1 = e) as Hcl by (intros E; apply Hsame; by rewrite E).
  destruct r1 as [[]|err|].
  - destruct (NewPayload _ _ _) as [status|err|].
    + intros H. destruct (insert_payload_spec _ _ _ _ _ _ _ _ H) as (Hf & Hok & Hr & Hk).
      split_and!; [by eapply sync_forward_trans|by right; apply Hok|done|].
      intros Hm Hst Hne. rewrite Hcl in Hk by done. auto.
    + intros [= <- <- <-]. split_and!; auto; [done|]. intros err' [= <-]. by left.
    + intros [= <- <- <-]. by split_and!; auto.
  - intros [= <- <- <-]. destruct (Hskip eq_refl) as [H1 H2].
    split_and!; auto; [|done]. intros _. left. rewrite H2 in He1. done.
  - intros [= <- <- <-]. split_and!; auto; [done|]. intros err' [= <-]. left. by apply Herr.
  - intros [= <- <- <-]. by split_and!; auto.
Qed.

(** *** Loading the initial heads *)

(** When the finalized head was loaded by an earlier attempt that then
    failed to load the safe head, and the engine now reports that it has no
    safe head, [initializeUnknowns] succeeds with the zero block reference
    as safe head, and as cross-unsafe and local-safe head, not with the
    finalized head; the forkchoice update that follows sends the zero hash as
    safe block. *)
Theorem initializeUnknowns_zero_safe eng1 eng2 e u f err1 err2 :
  unsafeHead e = zeroL2BlockRef -> finalizedHead e = zeroL2BlockRef ->
  safeHead e = zeroL2BlockRef -> crossUnsafeHead e = zeroL2BlockRef ->
  localSafeHead e = zeroL2BlockRef -> u <> zeroL2BlockRef -> f <> zeroL2BlockRef ->
  L2BlockRefByLabel eng1 LabelUnsafe = Ok u -> L2BlockRefByLabel eng1 LabelFinalized = Ok f ->
  L2BlockRefByLabel eng1 LabelSafe = Err err1 -> errors_Is err1 NotFound = false ->
  L2BlockRefByLabel eng2 LabelSafe = Err err2 -> errors_Is err2 NotFound = true ->
  exists e1 e2,
    initializeUnknowns eng1 e = (e1, Err (Wrap "failed to load cross-safe head" err1))
    /\ initializeUnknowns eng2 e1 = (e2, Ok ())
    /\ finalizedHead e2 = f /\ unsafeHead e2 = u
    /\ safeHead e2 = zeroL2BlockRef /\ crossUnsafeHead e2 = zeroL2BlockRef
    /\ localSafeHead e2 = zeroL2BlockRef
    /\ forkchoice e2 = {| HeadBlockHash := l2_Hash u; SafeBlockHash := 0;
                          FinalizedBlockHash := l2_Hash f |}.
Proof.
  intros Hu Hf Hs Hc Hl Hu0 Hf0 Eu Ef Es En Es2 En2.
  exists (SetFinalizedHead (SetUnsafeHead e u) f). eexists.
  split; [|split].
  - unfold initializeUnknowns, is_zero.
    rewrite (bool_decide_eq_true_2 _ Hu), Eu. simpl. rewrite (bool_decide_eq_true_2 _ Hf), Ef.
    simpl. by rewrite (bool_decide_eq_true_2 _ Hs), Es, En.
  - unfold initializeUnknowns, is_zero. simpl.
    rewrite (bool_decide_eq_false_2 _ Hu0), (bool_decide_eq_false_2 _ Hf0).
    rewrite (bool_decide_eq_true_2 _ Hs), Es2, En2. simpl.
    rewrite (bool_decide_eq_true_2 _ Hc). simpl. by rewrite (bool_decide_eq_true_2 _ Hl).
  - by split_and!.
Qed.

(** *** Restoring the unsafe head *)

(** [TryBackupUnsafeReorg] never moves the safe or the finalized head, and
    an error never comes without a forkchoice call.  It calls the engine only
    when the reorg was requested, the engine is not syncing and a backup is
    known; a success makes the backup the unsafe head and forgets it; a failure
    leaves the unsafe head, and either keeps the backup and the request for a
    retry, when the engine call itself failed, or forgets both, when the engine
    refused the backup. *)
Theorem TryBackupUnsafeReorg_spec eng e e' evs called r :
  TryBackupUnsafeReorg eng e = (e', evs, (called, r)) ->
  safeHead e' = safeHead e /\ finalizedHead e' = finalizedHead e
  /\ (called = false -> r = Ok () /\ evs = [] /\ unsafeHead e' = unsafeHead e)
  /\ (called = true ->
      needFCUCallForBackupUnsafeReorg e = true /\ IsEngineSyncing e = false
      /\ backupUnsafeHead e <> zeroL2BlockRef)
  /\ (called = true -> r = Ok () ->
      unsafeHead e' = backupUnsafeHead e /\ backupUnsafeHead e' = zeroL2BlockRef
      /\ needFCUCallForBackupUnsafeReorg e' = false
      /\ evs = [ForkchoiceUpdateEvent (backupUnsafeHead e) (safeHead e) (finalizedHead e)])
  /\ (forall err, r = Err err ->
      unsafeHead e' = unsafeHead e /\ evs = []
      /\ (backupUnsafeHead e' = backupUnsafeHead e /\ needFCUCallForBackupUnsafeReorg e' = true
          /\ Error_Is err LevelTemporary = true
          \/ backupUnsafeHead e' = zeroL2BlockRef
             /\ needFCUCallForBackupUnsafeReorg e' = false)).
Proof.
  unfold TryBackupUnsafeReorg, shouldTryBackupUnsafeReorg.
  destruct (needFCUCallForBackupUnsafeReorg e) eqn:Hn; simpl; [|naive_solver].
  destruct (IsEngineSyncing e) eqn:Hs; [naive_solver|].
  destruct (is_zero (backupUnsafeHead e)) eqn:Hz; [naive_solver|].
  apply bool_decide_eq_false in Hz.
  destruct (ForkchoiceUpdate _ _ _) as [[status id]|err|]; simpl.
  - case_decide; intros [= <- <- <- <-]; simpl; naive_solver.
  - unfold fcu_error. destruct (errors_As_rpc err) as [c|]; [destruct (c =? _)|];
      intros [= <- <- <- <-]; simpl; split_and!; try done; intros err' [= <-];
      (split_and!; [done|done|]); [by right|by left|by left].
  - intros [= <- <- <- <-]. naive_solver.
Qed.

(** ** Witnesses *)

Definition ref_at (n : Z) : L2BlockRef :=
  {| l2_Hash := 100 + n; l2_Number := n; l2_ParentHash := 99 + n; l2_Time := 2 * n;
     l2_L1Origin := zeroBlockID; l2_SequenceNumber := 0 |}.

Definition payload_at (n : Z) : ExecutionPayload :=
  {| ep_ParentHash := 99 + n; ep_FeeRecipient := 0; ep_StateRoot := 0; ep_ReceiptsRoot := 0;
     ep_LogsBloom := []; ep_PrevRandao := []; ep_BlockNumber := n; ep_GasLimit := 30000000;
     ep_GasUsed := 0; ep_Timestamp := 2 * n; ep_ExtraData := []; ep_BaseFeePerGas := 7;
     ep_BlockHash := 100 + n; ep_Transactions := []; ep_Withdrawals := None;
     ep_BlobGasUsed := None; ep_ExcessBlobGas := None; ep_WithdrawalsRoot := None |}.

(** An engine that accepts everything, with the blocks of the given labels. *)
Definition ex_engine (labels : BlockLabel -> result L2BlockRef) : ExecEngine :=
  {| GetPayload := fun _ => Ok {| ParentBeaconBlockRoot := None;
                                  env_ExecutionPayload := payload_at 12 |};
     ForkchoiceUpdate := fun _ attr => Ok (ExecutionValid, match attr with
                                                           | Some _ => Some 77
                                                           | None => None
                                                           end);
     NewPayload := fun _ _ => Ok ExecutionValid;
     L2BlockRefByLabel := labels |}.

Definition ex_labels (l : BlockLabel) : result L2BlockRef :=
  match l with
  | LabelUnsafe => Ok (ref_at 11)
  | LabelSafe => Ok (ref_at 10)
  | LabelFinalized => Ok (ref_at 9)
  end.

(** A controller in CL-sync mode with unsafe head 11, safe head 10 and
    finalized head 9. *)
Definition ex_controller : EngineController :=
  SetPendingSafeL2Head (SetLocalSafeHead (SetCrossUnsafeHead (SetFinalizedHead (SetSafeHead
    (SetUnsafeHead (NewEngineController example_config CLSync false) (ref_at 11))
    (ref_at 10)) (ref_at 9)) (ref_at 11)) (ref_at 10)) (ref_at 10).

Lemma TryUpdateEngine_spec_witness :
  let eng := ex_engine ex_labels in
  let e' := (TryUpdateEngine eng ex_controller).1.1 in
  l2_Number (finalizedHead e') <= l2_Number (unsafeHead e')
  /\ TryUpdateEngine eng e' = (e', [], Err ErrNoFCUNeeded).
Proof.
  intros eng e'.
  destruct (TryUpdateEngine_spec eng ex_controller e' (TryUpdateEngine eng ex_controller).1.2
              (Ok ())) as (_ & H); [vm_compute; reflexivity|].
  destruct (H eq_refl) as (_ & H1 & _). destruct (H1 eq_refl) as (H2 & _ & H3).
  exact (conj H2 H3).
Defined.

(** The finalized head is rewound from block 9 to block 5. *)
Lemma InsertUnsafePayload_finalizes_witness :
  let envelope := {| ParentBeaconBlockRoot := None; env_ExecutionPayload := payload_at 5 |} in
  let x := InsertUnsafePayload (ex_engine ex_labels) ex_controller envelope (ref_at 5) in
  finalizedHead ex_controller = ref_at 9 /\ marked_final x.1.1 x.1.2 (ref_at 5).
Proof.
  intros envelope x. split; [reflexivity|].
  destruct (InsertUnsafePayload_finalizes (ex_engine ex_labels) ex_controller envelope (ref_at 5)
              x.1.1 x.1.2 (Ok ())) as (_ & H & _); [vm_compute; reflexivity|].
  destruct (H eq_refl) as [[H1 _]|H1]; [discriminate H1|exact H1].
Defined.

Lemma initializeUnknowns_zero_safe_witness :
  let no_safe err l := match l with LabelSafe => Err err | l => ex_labels l end in
  exists e2,
    initializeUnknowns (ex_engine (no_safe NotFound))
      (initializeUnknowns (ex_engine (no_safe (Msg "timeout")))
         (NewEngineController example_config CLSync false)).1 = (e2, Ok ())
    /\ finalizedHead e2 = ref_at 9 /\ safeHead e2 = zeroL2BlockRef.
Proof.
  intros no_safe.
  destruct (initializeUnknowns_zero_safe (ex_engine (no_safe (Msg "timeout")))
              (ex_engine (no_safe NotFound)) (NewEngineController example_config CLSync false)
              (ref_at 11) (ref_at 9) (Msg "timeout") NotFound)
    as (e1 & e2 & H1 & H2 & H3 & _ & H4 & _); try reflexivity; try discriminate.
  exists e2. rewrite H1. exact (conj H2 (conj H3 H4)).
Defined.

Lemma TryBackupUnsafeReorg_spec_witness :
  let e := SetBackupUnsafeL2Head ex_controller (ref_at 13) true in
  let x := TryBackupUnsafeReorg (ex_engine ex_labels) e in
  unsafeHead x.1.1 = ref_at 13 /\ safeHead x.1.1 = ref_at 10.
Proof.
  intros e x.
  destruct (TryBackupUnsafeReorg_spec (ex_engine ex_labels) e x.1.1 x.1.2 true (Ok ()))
    as (H1 & _ & _ & _ & H2 & _); [vm_compute; reflexivity|].
  destruct (H2 eq_refl eq_refl) as (H3 & _). exact (conj H3 H1).
Defined.
