(* ===== verification/EngineDeriver.v ===== *)
(** * The engine deriver

    Models the event handlers of [EngDeriver] (rhs-node/rollup/engine:
    events.go, build_*.go, payload_*.go), the payload checks and the payload
    start of engine_update.go, and the event queue that drives them
    (rhs-node/rollup/event/executor_global.go), with the engine deriver as the
    only handler.  The deriver's configuration is the controller's, by
    pointer: [PayloadToBlockRef] may change it. *)

From S2P Require Import Prelude EthTypes RollupConfig SpanBatch Batches Pipeline Engine.

(** ** Payload checks *)

Definition isDepositTx (opaqueTx : bytes) : result bool :=
  match opaqueTx with
  | [] => Err (Msg "empty transaction")
  | b :: _ => Ok (b =? DepositTxType)
  end.

(** The loop of [lastDeposit], at index [i] with the last deposit found so
    far. *)
Fixpoint lastDeposit_loop (i last : nat) (txns : list bytes) : result nat :=
  match txns with
  | [] => Ok last
  | tx :: t =>
      match isDepositTx tx with
      | Err _ => Err (Msg "invalid transaction at idx")
      | Panic => Panic
      | Ok true => lastDeposit_loop (S i) i t
      | Ok false => Ok last
      end
  end.

Definition lastDeposit (txns : list bytes) : result nat := lastDeposit_loop 0 0 txns.

(** The loop over the transactions after the last deposit. *)
Fixpoint no_deposits (txns : list bytes) : result unit :=
  match txns with
  | [] => Ok ()
  | tx :: t =>
      match isDepositTx tx with
      | Err err => Err (Wrap "failed to decode transaction idx" err)
      | Panic => Panic
      | Ok true => Err (Msg "deposit tx after other tx in l2 block")
      | Ok false => no_deposits t
      end
  end.

(** [payload.Transactions[0][0]] panics on an empty first transaction. *)
Definition sanityCheckPayload (payload : ExecutionPayload) : result unit :=
  match ep_Transactions payload with
  | [] => Err (Msg "no transactions in returned payload")
  | [] :: _ => Panic
  | (b :: _) :: _ =>
      if negb (b =? DepositTxType) then Err (Msg "first transaction was not deposit tx")
      else
        let* last := map_err (Wrap "failed to find last deposit")
                       (lastDeposit (ep_Transactions payload)) in
        no_deposits (drop (S last) (ep_Transactions payload))
  end.

(** ** Starting a payload *)

Inductive BlockInsertionErrType : Type :=
  | BlockInsertOK
  | BlockInsertTemporaryErr
  | BlockInsertPrestateErr
  | BlockInsertPayloadErr.

Definition ErrEngineSyncing : error := Msg "engine is syncing".

(** The payload id, or the error with its type; [None] stands for a nil
    error. *)
Definition startPayload (eng : ExecEngine) (fc : ForkchoiceState) (attrs : PayloadAttributes)
    : result (Z + BlockInsertionErrType * option error) :=
  match ForkchoiceUpdate eng fc (Some attrs) with
  | Panic => Panic
  | Err err =>
      Ok (inr (match errors_As_rpc err with
       | Some code =>
           if code =? InvalidForkchoiceState then
             (BlockInsertPrestateErr, Some (Wrap
                "pre-block-creation forkchoice update was inconsistent with engine, need reset to resolve"
                err))
           else if code =? InvalidPayloadAttributes then
             (BlockInsertPayloadErr,
              Some (Wrap "payload attributes are not valid, cannot build block" err))
           else if IsEngineError code then
             (BlockInsertPrestateErr,
              Some (Wrap "unexpected engine error code in forkchoice-updated response" err))
           else
             (BlockInsertTemporaryErr,
              Some (Wrap "unexpected generic error code in forkchoice-updated response" err))
       | None =>
           (BlockInsertTemporaryErr, Some (Wrap "failed to create new block via forkchoice" err))
       end))
  | Ok (status, payloadID) =>
      match status with
      | ExecutionInvalid | ExecutionInvalidBlockHash =>
          Ok (inr (BlockInsertPayloadErr, ForkchoiceUpdateErr status))
      | ExecutionValid =>
          match payloadID with
          | None => Ok (inr (BlockInsertTemporaryErr,
                      Some (Msg "nil id in forkchoice result when expecting a valid ID")))
          | Some id => Ok (inl id)
          end
      | ExecutionSyncing => Ok (inr (BlockInsertTemporaryErr, Some ErrEngineSyncing))
      | _ => Ok (inr (BlockInsertTemporaryErr, ForkchoiceUpdateErr status))
      end
  end.

(** ** Handlers

    A handler returns the controller and the emitted events; [None] is a
    panic, from the engine client or [log.Crit], which ends the process. *)

Abbreviation handled := (option (EngineController * list Event)).

(** The translation of an error into an event, written out after each call
    of the controller. *)
Definition error_event (msg : string) (err : error) : Event :=
  if Error_Is err LevelReset then ResetEvent err
  else if Error_Is err LevelTemporary then EngineTemporaryErrorEvent (Some err)
  else CriticalErrorEvent (Wrap msg err).

Definition onBuildStart (eng : ExecEngine) (e : EngineController) (a : AttributesWithParent)
    : handled :=
  if l2_Number (Parent a) <? l2_Number (finalizedHead e) then
    Some (e, [CriticalErrorEvent
      (Msg "invalid block-building pre-state, unsafe head is behind finalized head")])
  else
    let fc := {| HeadBlockHash := l2_Hash (Parent a); SafeBlockHash := l2_Hash (safeHead e);
                 FinalizedBlockHash := l2_Hash (finalizedHead e) |} in
    match startPayload eng fc (Attributes a) with
    | Panic => None
    | Err err => Some (e, [CriticalErrorEvent err])
    | Ok (inr (typ, Some err)) =>
        Some (e, [match typ with
          | BlockInsertTemporaryErr => EngineTemporaryErrorEvent
              (Some (Wrap "temporarily cannot insert new safe block" err))
          | BlockInsertPrestateErr =>
              ResetEvent (Wrap "need reset to resolve pre-state problem" err)
          | BlockInsertPayloadErr => BuildInvalidEvent a err
          | BlockInsertOK => CriticalErrorEvent (Wrap "unknown error type" err)
          end])
    | Ok r =>
        let id := match r with inl id => id | inr _ => 0 end in
        Some (e, [ForkchoiceUpdateEvent (Parent a) (safeHead e) (finalizedHead e);
                  BuildStartedEvent {| pi_ID := id; pi_Timestamp := pa_Timestamp (Attributes a) |}
                    (Parent a) (Concluding a)])
    end.

(** The body is commented out in the source. *)
Definition onBuildStarted (e : EngineController) (info : PayloadInfo) (parent : L2BlockRef)
    (concluding : bool) : handled := Some (e, []).

Definition onBuildSeal (eng : ExecEngine) (e : EngineController) (info : PayloadInfo)
    (concluding : bool) : handled :=
  match GetPayload eng info with
  | Panic => None
  | Err err => Some (e, [PayloadSealExpiredErrorEvent info
                           (Wrap "failed to seal execution payload" err) concluding])
  | Ok envelope =>
      let '(cfg, r) := PayloadToBlockRef (rollupCfg e) (env_ExecutionPayload envelope) in
      let e := set_rollupCfg e cfg in
      match r with
      | Panic => None
      | Err err => Some (e, [PayloadSealInvalidEvent info
                               (Wrap "failed to decode core block ref from payload" err) concluding])
      | Ok ref => Some (e, [BuildSealedEvent concluding info envelope ref])
      end
  end.

Definition onBuildSealed (e : EngineController) (concluding : bool)
    (envelope : ExecutionPayloadEnvelope) (ref : L2BlockRef) : handled :=
  Some (e, [PayloadProcessEvent concluding envelope ref]).

Definition onBuildCancel (eng : ExecEngine) (e : EngineController) (info : PayloadInfo)
    (force : bool) : handled :=
  match GetPayload eng info with
  | Panic => None
  | Ok _ => Some (e, [])
  | Err err =>
      let unknown := match errors_As_rpc err with
                     | Some code => code =? UnknownPayload
                     | None => false
                     end in
      if unknown then Some (e, [])
      else Some (e, if force then [] else [EngineTemporaryErrorEvent (Some err)])
  end.

Definition onBuildInvalid (e : EngineController) (a : AttributesWithParent) (err : error)
    : handled :=
  if IsDepositsOnly (Attributes a) then
    Some (e, [CriticalErrorEvent
      (Wrap "failed to process block with only deposit transactions" err)])
  else
    let e := SetPendingSafeL2Head e (safeHead e) in
    let e := SetBackupUnsafeL2Head e (backupUnsafeHead e) true in
    Some (e, [InvalidPayloadAttributesEvent a err]).

Definition onPayloadProcess (eng : ExecEngine) (e : EngineController) (concluding : bool)
    (envelope : ExecutionPayloadEnvelope) (ref : L2BlockRef) : handled :=
  match NewPayload eng (env_ExecutionPayload envelope) (ParentBeaconBlockRoot envelope) with
  | Panic => None
  | Err err => Some (e, [EngineTemporaryErrorEvent
                           (Some (Wrap "failed to insert execution payload" err))])
  | Ok status =>
      let err := NewPayloadErr (env_ExecutionPayload envelope) status in
      Some (e, [match status with
                | ExecutionInvalid | ExecutionInvalidBlockHash => PayloadInvalidEvent envelope err
                | ExecutionValid => PayloadSuccessEvent concluding envelope ref
                | _ => EngineTemporaryErrorEvent err
                end])
  end.

Definition onPayloadSuccess (e : EngineController) (concluding : bool)
    (envelope : ExecutionPayloadEnvelope) (ref : L2BlockRef) : handled :=
  Some (e, [PromoteUnsafeEvent ref; PromotePendingSafeEvent ref concluding;
            TryUpdateEngineEvent (Some envelope)]).

(** Only logs. *)
Definition onPayloadInvalid (e : EngineController) : handled := Some (e, []).

Definition ForceEngineReset (e : EngineController) (x : ForceReset) : EngineController :=
  let e := if negb (is_zero (fr_LocalUnsafe x)) then SetUnsafeHead e (fr_LocalUnsafe x) else e in
  let e := SetCrossUnsafeHead e (fr_CrossUnsafe x) in
  let e := SetLocalSafeHead e (fr_LocalSafe x) in
  let e := SetPendingSafeL2Head e (fr_LocalSafe x) in
  let e := SetSafeHead e (fr_CrossSafe x) in
  let e := SetFinalizedHead e (fr_Finalized x) in
  SetBackupUnsafeL2Head e zeroL2BlockRef false.

(** The handler of an event: [None] when the deriver ignores it
    ([OnEvent] returns false). *)
Definition OnEvent (eng : ExecEngine) (e : EngineController) (ev : Event) : option handled :=
  match ev with
  | TryBackupUnsafeReorgEvent =>
      Some (match TryBackupUnsafeReorg eng e with
            | (_, _, (_, Panic)) => None
            | (_, _, (false, Err _)) => None
            | (e, evs, (true, Err err)) =>
                Some (e, evs ++ [error_event "unexpected TryBackupUnsafeReorg error type" err])
            | (e, evs, (_, Ok _)) => Some (e, evs)
            end)
  | TryUpdateEngineEvent _ =>
      Some (match TryUpdateEngine eng e with
            | (_, _, Panic) => None
            | (e, evs, Err err) =>
                Some (e, evs ++ if errors_Is err ErrNoFCUNeeded then []
                                else [error_event "unexpected TryUpdateEngine error type" err])
            | (e, evs, Ok _) => Some (e, evs)
            end)
  | ProcessUnsafePayloadEvent envelope =>
      Some (let '(cfg, r) := PayloadToBlockRef (rollupCfg e) (env_ExecutionPayload envelope) in
            let e := set_rollupCfg e cfg in
            match r with
            | Panic => None
            | Err _ => Some (e, [])
            | Ok ref =>
                if decide (L1BlockRef_ID (L2BlockRef_BlockRef ref)
                           = L1BlockRef_ID (L2BlockRef_BlockRef (unsafeHead e)))
                then Some (e, [])
                else match InsertUnsafePayload eng e envelope ref with
                     | (_, _, Panic) => None
                     | (e, evs, Err err) =>
                         Some (e, evs ++
                           [error_event "unexpected InsertUnsafePayload error type" err])
                     | (e, evs, Ok _) => Some (e, evs)
                     end
            end)
  | ForkchoiceRequestEvent =>
      Some (Some (e, [ForkchoiceUpdateEvent (unsafeHead e) (safeHead e) (finalizedHead e)]))
  | ForceResetEvent x =>
      let e := ForceEngineReset e x in
      Some (Some (e, [TryUpdateEngineEvent None;
                      EngineResetConfirmedEvent (localSafeHead e) (crossUnsafeHead e)
                        (localSafeHead e) (safeHead e) (finalizedHead e)]))
  | PromoteUnsafeEvent ref =>
      let e := if l2_Number ref <=? l2_Number (unsafeHead e)
               then SetBackupUnsafeL2Head e (unsafeHead e) false else e in
      Some (Some (SetUnsafeHead e ref, [UnsafeUpdateEvent ref]))
  | UnsafeUpdateEvent ref =>
      Some (Some (e, (if negb (IsInterop (rollupCfg e) (l2_Time ref))
                      then [PromoteCrossUnsafeEvent ref] else [])
                     ++ [TryUpdateEngineEvent None]))
  | PromoteCrossUnsafeEvent ref =>
      let e := SetCrossUnsafeHead e ref in
      Some (Some (e, [CrossUnsafeUpdateEvent ref (unsafeHead e)]))
  | RequestCrossUnsafeEvent =>
      Some (Some (e, [CrossUnsafeUpdateEvent (crossUnsafeHead e) (unsafeHead e)]))
  | RequestCrossSafeEvent =>
      Some (Some (e, [CrossSafeUpdateEvent (safeHead e) (localSafeHead e)]))
  | PendingSafeRequestEvent =>
      Some (Some (e, [PendingSafeUpdateEvent (pendingSafeHead e) (unsafeHead e)]))
  | PromotePendingSafeEvent ref concluding =>
      let promote := l2_Number (pendingSafeHead e) <? l2_Number ref in
      let e := if promote then SetPendingSafeL2Head e ref else e in
      Some (Some (e,
        (if promote then [PendingSafeUpdateEvent (pendingSafeHead e) (unsafeHead e)] else [])
        ++ (if concluding && (l2_Number (localSafeHead e) <? l2_Number ref)
            then [PromoteLocalSafeEvent ref] else [])))
  | PromoteLocalSafeEvent ref =>
      Some (Some (SetLocalSafeHead e ref, [LocalSafeUpdateEvent ref]))
  | LocalSafeUpdateEvent ref =>
      Some (Some (e, if negb (IsInterop (rollupCfg e) (l2_Time ref))
                     then [PromoteSafeEvent ref] else []))
  | PromoteSafeEvent ref =>
      let e := SetSafeHead e ref in
      let stale := l2_Number (crossUnsafeHead e) <? l2_Number ref in
      Some (Some (if stale then SetCrossUnsafeHead e ref else e,
        [SafeDerivedEvent ref; CrossSafeUpdateEvent (safeHead e) (localSafeHead e)]
        ++ (if stale then [CrossUnsafeUpdateEvent ref (unsafeHead e)] else [])
        ++ [TryUpdateEngineEvent None]))
  | PromoteFinalizedEvent ref =>
      if l2_Number ref <? l2_Number (finalizedHead e) then Some (Some (e, []))
      else if l2_Number (safeHead e) <? l2_Number ref then Some (Some (e, []))
      else Some (Some (SetFinalizedHead e ref,
                       [FinalizedUpdateEvent ref; TryUpdateEngineEvent None]))
  | RequestFinalizedUpdateEvent => Some (Some (e, [FinalizedUpdateEvent (finalizedHead e)]))
  | CrossUpdateRequestEvent crossUnsafe crossSafe =>
      Some (Some (e,
        (if crossUnsafe then [CrossUnsafeUpdateEvent (crossUnsafeHead e) (unsafeHead e)] else [])
        ++ (if crossSafe then [CrossSafeUpdateEvent (safeHead e) (localSafeHead e)] else [])))
  | InteropInvalidateBlockEvent _ attrs => Some (Some (e, [BuildStartEvent attrs]))
  | BuildStartEvent a => Some (onBuildStart eng e a)
  | BuildStartedEvent info parent concluding => Some (onBuildStarted e info parent concluding)
  | BuildSealEvent info concluding => Some (onBuildSeal eng e info concluding)
  | BuildSealedEvent concluding _ envelope ref => Some (onBuildSealed e concluding envelope ref)
  | BuildInvalidEvent a err => Some (onBuildInvalid e a err)
  | BuildCancelEvent info force => Some (onBuildCancel eng e info force)
  | PayloadProcessEvent concluding envelope ref =>
      Some (onPayloadProcess eng e concluding envelope ref)
  | PayloadSuccessEvent concluding envelope ref =>
      Some (onPayloadSuccess e concluding envelope ref)
  | PayloadInvalidEvent _ _ => Some (onPayloadInvalid e)
  | _ => None
  end.

(** ** The event queue

    [Enqueue] drops an event when [sanityEventLimit] events are queued;
    [Drain] pops and processes until the queue is empty.  [drain] returns the
    final controller, the queue that is left when the fuel runs out, and the
    log of processed events; [None] is a panic. *)

Definition sanityEventLimit : nat := Z.to_nat 10000.

Definition Enqueue (events : list Event) (ev : Event) : list Event :=
  if decide (sanityEventLimit <= length events)%nat then events else events ++ [ev].

Definition processEvent (eng : ExecEngine) (e : EngineController) (ev : Event) : handled :=
  match OnEvent eng e ev with
  | None => Some (e, [])
  | Some r => r
  end.

Fixpoint Drain (fuel : nat) (eng : ExecEngine) (e : EngineController) (events : list Event)
    : option (EngineController * list Event * list Event) :=
  match fuel with
  | O => Some (e, events, [])
  | S f =>
      match events with
      | [] => Some (e, [], [])
      | ev :: rest =>
          match processEvent eng e ev with
          | None => None
          | Some (e', emitted) =>
              match Drain f eng e' (fold_left Enqueue emitted rest) with
              | None => None
              | Some (e'', remaining, log) => Some (e'', remaining, ev :: log)
              end
          end
      end
  end.

(** ** Properties of the payload checks *)

Definition deposit_tx (tx : bytes) : Prop := exists t, tx = DepositTxType :: t.
Definition user_tx (tx : bytes) : Prop := exists b t, tx = b :: t /\ b <> DepositTxType.

Lemma isDepositTx_true tx : isDepositTx tx = Ok true <-> deposit_tx tx.
Proof.
  unfold deposit_tx. destruct tx as [|b t]; simpl; [naive_solver|].
  split; [intros [= H%Z.eqb_eq]; naive_solver|by intros (? & [= -> ->])].
Qed.

Lemma isDepositTx_false tx : isDepositTx tx = Ok false <-> user_tx tx.
Proof.
  unfold user_tx. destruct tx as [|b t]; simpl; [naive_solver|].
  split; [intros [= H%Z.eqb_neq]; naive_solver|].
  intros (? & ? & [= -> ->] & H). by apply Z.eqb_neq in H as ->.
Qed.

Lemma isDepositTx_not_panic tx : isDepositTx tx <> Panic.
Proof. by destruct tx. Qed.

(** The loop stops before the first transaction that is not a deposit. *)
Lemma lastDeposit_loop_Ok deps rest i last :
  Forall deposit_tx deps -> match rest with [] => True | tx :: _ => user_tx tx end ->
  lastDeposit_loop i last (deps ++ rest)
  = Ok (if decide (deps = []) then last else (i + length deps - 1)%nat).
Proof.
  intros Hd Hr. revert i last. induction Hd as [|tx deps Htx Hd IH]; intros i last; simpl.
  - destruct rest as [|tx t]; [done|]. simpl. by apply isDepositTx_false in Hr as ->.
  - apply isDepositTx_true in Htx as ->. rewrite IH. f_equal. case_decide; [subst; simpl|]; lia.
Qed.

Lemma lastDeposit_loop_inv i last txns n :
  lastDeposit_loop i last txns = Ok n ->
  exists deps rest, txns = deps ++ rest /\ Forall deposit_tx deps
    /\ match rest with [] => True | tx :: _ => user_tx tx end.
Proof.
  revert i last. induction txns as [|tx t IH]; intros i last H; simpl in H.
  { by exists [], []. }
  destruct (isDepositTx tx) as [[]|err|] eqn:E; try done.
  - destruct (IH _ _ H) as (deps & rest & -> & Hd & Hr). exists (tx :: deps), rest.
    split_and!; [done|by constructor; [apply isDepositTx_true|]|done].
  - exists [], (tx :: t). split_and!; [done|constructor|by apply isDepositTx_false].
Qed.

Lemma no_deposits_Ok txns : no_deposits txns = Ok () <-> Forall user_tx txns.
Proof.
  induction txns as [|tx t IH]; simpl; [by split|]. rewrite Forall_cons, <- isDepositTx_false.
  destruct (isDepositTx tx) as [[]|err|]; naive_solver.
Qed.

(** [sanityCheckPayload] accepts exactly the payloads whose transactions
    are a non-empty run of deposits followed by non-empty transactions none of
    which is a deposit. *)
Theorem sanityCheckPayload_spec payload :
  sanityCheckPayload payload = Ok () <->
  exists deps rest, ep_Transactions payload = deps ++ rest
    /\ deps <> [] /\ Forall deposit_tx deps /\ Forall user_tx rest.
Proof.
  unfold sanityCheckPayload, lastDeposit.
  assert (forall (deps rest : list bytes) n, deps <> [] -> n = (length deps - 1)%nat ->
    drop (S n) (deps ++ rest) = rest) as Hdrop.
  { intros deps rest n Hne ->. apply drop_app_length'. destruct deps; [done|simpl; lia]. }
  split.
  - destruct (ep_Transactions payload) as [|[|b tx] t] eqn:Et; [done|done|].
    destruct (b =? DepositTxType) eqn:Eb; cbn [negb]; [|done].
    intros (n & Hn & Hrest)%rbind_Ok. apply (proj1 (map_err_Ok _ _ _)) in Hn.
    destruct (lastDeposit_loop_inv _ _ _ _ Hn) as (deps & rest & E & Hd & Hr).
    assert (deps <> []) as Hne.
    { intros ->. simpl in E. subst rest. destruct Hr as (? & ? & [= <- <-] & Hb). lia. }
    exists deps, rest. split_and!; [done|done|done|].
    rewrite E in Hn, Hrest. rewrite lastDeposit_loop_Ok, decide_False in Hn by done.
    injection Hn as <-. rewrite Hdrop in Hrest by (done || lia). by apply no_deposits_Ok.
  - intros (deps & rest & -> & Hne & Hd & Hr).
    assert (map_err (Wrap "failed to find last deposit") (lastDeposit_loop 0 0 (deps ++ rest))
            = Ok (0 + length deps - 1)%nat) as E.
    { apply map_err_Ok. rewrite lastDeposit_loop_Ok, decide_False; [done|done|done|].
      destruct rest; [done|by inversion Hr]. }
    rewrite E. simpl rbind. rewrite Hdrop by (done || lia).
    apply no_deposits_Ok in Hr. destruct Hd as [|tx deps (t & ->) Hd]; [done|]. exact Hr.
Qed.

(** ** Finality *)

(** The events that may set the finalized head without comparing it with the
    current one. *)
Definition may_rewind (ev : Event) : bool :=
  match ev with
  | ForceResetEvent _ | ProcessUnsafePayloadEvent _ => true
  | _ => false
  end.

Lemma TryUpdateEngine_finalized eng e :
  filled (finalizedHead e) (finalizedHead (TryUpdateEngine eng e).1.1).
Proof.
  unfold TryUpdateEngine. destruct (needFCUCall e); simpl; [|by right].
  destruct (initializeUnknowns_fills eng e) as [Hf _].
  destruct (initializeUnknowns eng e) as [e1 [[]|err|]]; simpl in *; try apply Hf.
  destruct (_ <? _); [apply Hf|].
  destruct (ForkchoiceUpdate _ _ _) as [[status id]|err|]; simpl; try apply Hf.
  case_match; apply Hf.
Qed.

Lemma TryBackupUnsafeReorg_finalized eng e :
  finalizedHead (TryBackupUnsafeReorg eng e).1.1 = finalizedHead e.
Proof.
  unfold TryBackupUnsafeReorg, shouldTryBackupUnsafeReorg.
  destruct (negb _); [done|]. destruct (IsEngineSyncing e); [done|].
  destruct (is_zero _); [done|].
  destruct (ForkchoiceUpdate _ _ _) as [[status id]|err|]; simpl; try case_match; done.
Qed.

(** Finality is monotone.  Once the finalized head is known, no event but
    a forced reset or an unsafe payload changes it to another block unless it
    is a [PromoteFinalizedEvent] for a block that is not behind the current
    finalized head and not ahead of the safe head; [EngDeriver] ignores every
    other promotion. *)
Theorem finality_monotone eng e ev e' evs :
  finalizedHead e <> zeroL2BlockRef -> may_rewind ev = false ->
  OnEvent eng e ev = Some (Some (e', evs)) ->
  l2_Number (finalizedHead e) <= l2_Number (finalizedHead e')
  /\ (finalizedHead e' <> finalizedHead e ->
      ev = PromoteFinalizedEvent (finalizedHead e')
      /\ l2_Number (finalizedHead e') <= l2_Number (safeHead e)).
Proof.
  intros Hz Hev H.
  assert (finalizedHead e' = finalizedHead e \/ exists ref, ev = PromoteFinalizedEvent ref)
    as [E|[ref ->]].
  2:{ rewrite E. split; [lia|done]. }
  2:{ cbn [OnEvent] in H.
      destruct (l2_Number ref <? l2_Number (finalizedHead e)) eqn:E1; [naive_solver|].
      destruct (l2_Number (safeHead e) <? l2_Number ref) eqn:E2; [naive_solver|]. injection H as <- _. simpl.
      split; [lia|]. intros _. split; [done|lia]. }
  destruct ev; try discriminate Hev; try discriminate H; try (right; eexists; reflexivity);
    left; simpl in H;
    try (injection H as <- _; simpl; repeat case_match; reflexivity).
  - pose proof (TryBackupUnsafeReorg_finalized eng e) as Hf.
    destruct (TryBackupUnsafeReorg eng e) as [[e1 evs1] [[] []]]; naive_solver.
  - destruct (TryUpdateEngine_finalized eng e) as [Hf|Hf]; [done|].
    destruct (TryUpdateEngine eng e) as [[e1 evs1] []]; naive_solver.
  - unfold onBuildStart in H. destruct (_ <? _); [naive_solver|].
    destruct (startPayload _ _ _) as [[|[? []]]|?|]; naive_solver.
  - unfold onBuildSeal in H. destruct (GetPayload _ _); naive_solver.
  - unfold onBuildInvalid in H. destruct (IsDepositsOnly _); naive_solver.
  - unfold onBuildCancel in H. destruct (GetPayload _ _) as [?|err|]; [naive_solver| |done].
    destruct (errors_As_rpc err) as [c|]; [destruct (c =? _)|]; naive_solver.
  - unfold onPayloadProcess in H. destruct (NewPayload _ _ _); naive_solver.
Qed.

(** After a forced reset every head is the one the reset asks for, an
    empty local-unsafe head keeping the current one, the backup is forgotten
    and a forkchoice update is requested; but the confirmation that follows
    reports the local-safe head as the local-unsafe head. *)
Theorem force_reset_spec eng e x e' evs :
  OnEvent eng e (ForceResetEvent x) = Some (Some (e', evs)) ->
  unsafeHead e' = (if decide (fr_LocalUnsafe x = zeroL2BlockRef) then unsafeHead e
                   else fr_LocalUnsafe x)
  /\ crossUnsafeHead e' = fr_CrossUnsafe x
  /\ localSafeHead e' = fr_LocalSafe x /\ pendingSafeHead e' = fr_LocalSafe x
  /\ safeHead e' = fr_CrossSafe x /\ finalizedHead e' = fr_Finalized x
  /\ backupUnsafeHead e' = zeroL2BlockRef /\ needFCUCallForBackupUnsafeReorg e' = false
  /\ needFCUCall e' = true
  /\ evs = [TryUpdateEngineEvent None;
            EngineResetConfirmedEvent (fr_LocalSafe x) (fr_CrossUnsafe x) (fr_LocalSafe x)
              (fr_CrossSafe x) (fr_Finalized x)].
Proof.
  simpl. intros [= <- <-]. unfold ForceEngineReset, is_zero.
  destruct (decide (fr_LocalUnsafe x = zeroL2BlockRef)) as [E|E].
  - rewrite (bool_decide_eq_true_2 _ E). by split_and!.
  - rewrite (bool_decide_eq_false_2 _ E). by split_and!.
Qed.

(** ** Runs of the event queue

    [drains eng e q e' log]: processing the queue [q] to the end leaves the
    controller [e'], having processed the events [log]. *)
Inductive drains (eng : ExecEngine)
    : EngineController -> list Event -> EngineController -> list Event -> Prop :=
  | drains_nil e : drains eng e [] e []
  | drains_cons e ev rest e1 emitted e' log :
      processEvent eng e ev = Some (e1, emitted) ->
      drains eng e1 (fold_left Enqueue emitted rest) e' log ->
      drains eng e (ev :: rest) e' (ev :: log).

(** As many steps of fuel as events are processed are enough. *)
Lemma drains_Drain eng e q e' log fuel :
  drains eng e q e' log -> (length log < fuel)%nat ->
  Drain fuel eng e q = Some (e', [], log).
Proof.
  intros H. revert fuel. induction H as [e|e ev rest e1 emitted e' log Hp _ IH];
    intros [|fuel] Hlt; simpl in *; try lia; [done|].
  rewrite Hp, IH by lia. done.
Qed.

Lemma Enqueue_all q evs : (length q + length evs <= sanityEventLimit)%nat ->
  fold_left Enqueue evs q = q ++ evs.
Proof.
  revert q. induction evs as [|ev evs IH]; intros q Hlen; simpl in *; [by rewrite app_nil_r|].
  unfold Enqueue at 2. rewrite decide_False by lia.
  rewrite IH by (rewrite length_app; simpl; lia). by rewrite <- app_assoc.
Qed.

(** The queue runs empty, with the postcondition on the final controller and
    the log. *)
Definition runs (eng : ExecEngine) (e : EngineController) (q : list Event)
    (P : EngineController -> list Event -> Prop) : Prop :=
  exists e' log, drains eng e q e' log /\ P e' log.

Lemma runs_nil eng e (P : EngineController -> list Event -> Prop) :
  P e [] -> runs eng e [] P.
Proof. intros HP. exists e, []. split; [constructor|done]. Qed.

(** One step of a run whose queue stays short. *)
Lemma runs_step eng e ev rest e1 emitted P :
  processEvent eng e ev = Some (e1, emitted) ->
  (length rest + length emitted <= sanityEventLimit)%nat ->
  runs eng e1 (rest ++ emitted) (fun e' log => P e' (ev :: log)) ->
  runs eng e (ev :: rest) P.
Proof.
  intros H Hl (e' & log & Hd & HP). exists e', (ev :: log). split; [|done].
  eapply drains_cons; [done|]. by rewrite Enqueue_all.
Qed.

Lemma runs_Drain eng e q P fuel :
  runs eng e q (fun e' log => (length log < fuel)%nat /\ P e' log) ->
  exists e' log, Drain fuel eng e q = Some (e', [], log) /\ P e' log.
Proof.
  intros (e' & log & Hd & Hl & HP). exists e', log. split; [|done]. by apply drains_Drain.
Qed.

(** Every head the forkchoice needs is known. *)
Record heads_known (e : EngineController) : Prop := {
  known_unsafe : unsafeHead e <> zeroL2BlockRef;
  known_crossUnsafe : crossUnsafeHead e <> zeroL2BlockRef;
  known_localSafe : localSafeHead e <> zeroL2BlockRef;
  known_safe : safeHead e <> zeroL2BlockRef;
  known_finalized : finalizedHead e <> zeroL2BlockRef }.

(** The engine accepts every forkchoice update. *)
Definition accepts (eng : ExecEngine) : Prop :=
  forall fc, exists id, ForkchoiceUpdate eng fc None = Ok (ExecutionValid, id).

Lemma SetBackup_id e :
  SetBackupUnsafeL2Head e (backupUnsafeHead e) (needFCUCallForBackupUnsafeReorg e) = e.
Proof. by destruct e. Qed.

Lemma update_step eng e env : accepts eng -> heads_known e -> needFCUCall e = true ->
  l2_Number (finalizedHead e) <= l2_Number (unsafeHead e) ->
  exists b n,
    processEvent eng e (TryUpdateEngineEvent env)
    = Some (set_needFCUCall (SetBackupUnsafeL2Head e b n) false,
            [ForkchoiceUpdateEvent (unsafeHead e) (safeHead e) (finalizedHead e)])
    /\ (unsafeHead e = safeHead e -> safeHead e = pendingSafeHead e ->
        b = zeroL2BlockRef /\ n = false).
Proof.
  intros Hacc [] Hn Hle. unfold processEvent, OnEvent, TryUpdateEngine. rewrite Hn. cbn [negb].
  rewrite initializeUnknowns_known by done. rewrite (proj2 (Z.ltb_ge _ _)) by done.
  destruct (Hacc (forkchoice e)) as [id ->].
  destruct (_ && _) eqn:E.
  - by exists zeroL2BlockRef, false.
  - exists (backupUnsafeHead e), (needFCUCallForBackupUnsafeReorg e).
    rewrite SetBackup_id. split; [done|]. intros E1 E2.
    rewrite !bool_decide_eq_true_2 in E by done. done.
Qed.

Lemma promote_unsafe_step eng e ref : exists b n,
  processEvent eng e (PromoteUnsafeEvent ref)
  = Some (SetUnsafeHead (SetBackupUnsafeL2Head e b n) ref, [UnsafeUpdateEvent ref]).
Proof.
  unfold processEvent, OnEvent. destruct (_ <=? _); [by eexists _, _|].
  exists (backupUnsafeHead e), (needFCUCallForBackupUnsafeReorg e). by rewrite SetBackup_id.
Qed.

Lemma update_noop eng e env : needFCUCall e = false ->
  processEvent eng e (TryUpdateEngineEvent env) = Some (e, []).
Proof. intros Hn. unfold processEvent, OnEvent, TryUpdateEngine. by rewrite Hn. Qed.

(** *** A sealed payload becomes the head *)

(** All heads are [ref], nothing is pending. *)
Definition all_heads (e : EngineController) (ref finalized : L2BlockRef) : Prop :=
  unsafeHead e = ref /\ crossUnsafeHead e = ref /\ pendingSafeHead e = ref
  /\ localSafeHead e = ref /\ safeHead e = ref /\ finalizedHead e = finalized
  /\ backupUnsafeHead e = zeroL2BlockRef /\ needFCUCall e = false
  /\ needFCUCallForBackupUnsafeReorg e = false.

(** [run_step tac] processes the event at the head of the queue, [tac] proving
    the equation of its handler. *)
Tactic Notation "run_step" tactic1(tac) :=
  eapply runs_step; [tac | simpl; unfold sanityEventLimit; lia | cbn [app]].

Lemma runs_update eng e env rest P : accepts eng -> heads_known e -> needFCUCall e = true ->
  l2_Number (finalizedHead e) <= l2_Number (unsafeHead e) ->
  (length rest + 1 <= sanityEventLimit)%nat ->
  (forall b n,
     (unsafeHead e = safeHead e -> safeHead e = pendingSafeHead e ->
      b = zeroL2BlockRef /\ n = false) ->
     runs eng (set_needFCUCall (SetBackupUnsafeL2Head e b n) false)
       (rest ++ [ForkchoiceUpdateEvent (unsafeHead e) (safeHead e) (finalizedHead e)])
       (fun e' log => P e' (TryUpdateEngineEvent env :: log))) ->
  runs eng e (TryUpdateEngineEvent env :: rest) P.
Proof.
  intros Hacc Hk Hn Hle Hl H. destruct (update_step eng e env) as (b & n & Hu & Hb); try done.
  eapply runs_step; [exact Hu|done|]. by apply H.
Qed.

Lemma payload_success_runs eng e envelope ref :
  accepts eng -> heads_known e -> ref <> zeroL2BlockRef ->
  IsInterop (rollupCfg e) (l2_Time ref) = false ->
  l2_Number (pendingSafeHead e) < l2_Number ref -> l2_Number (localSafeHead e) < l2_Number ref ->
  l2_Number (finalizedHead e) <= l2_Number ref ->
  runs eng e [PayloadSuccessEvent true envelope ref] (fun e' log =>
    (length log < 25)%nat /\ all_heads e' ref (finalizedHead e)
    /\ last log = Some (ForkchoiceUpdateEvent ref ref (finalizedHead e))).
Proof.
  intros Hacc [] Hr Hi Hp%Z.ltb_lt Hl%Z.ltb_lt Hf. run_step reflexivity.
  destruct (promote_unsafe_step eng e ref) as (b1 & n1 & Hpu). run_step (exact Hpu). clear Hpu.
  run_step (unfold processEvent, OnEvent; simpl; rewrite Hp; simpl; rewrite Hl; reflexivity).
  eapply runs_update; [done|constructor; done|reflexivity|exact Hf|simpl; unfold sanityEventLimit; lia|].
  intros b2 n2 _. cbn [app].
  run_step (unfold processEvent, OnEvent; simpl; rewrite Hi; reflexivity). do 4 run_step reflexivity.
  run_step (by apply update_noop).
  run_step (unfold processEvent, OnEvent; simpl; rewrite Hi; reflexivity). run_step reflexivity.
  run_step (unfold processEvent, OnEvent; simpl; rewrite Z.ltb_irrefl; reflexivity).
  do 2 run_step reflexivity.
  eapply runs_update; [done|constructor; done|reflexivity|exact Hf|simpl; unfold sanityEventLimit; lia|].
  intros b3 n3 Hb. cbn [app]. destruct (Hb eq_refl eq_refl) as [-> ->]. run_step reflexivity.
  apply runs_nil. split; [simpl; lia|]. split; [|reflexivity]. unfold all_heads. by simpl.
Qed.

Lemma PayloadToBlockRef_InteropTime cfg p :
  InteropTime (PayloadToBlockRef cfg p).1 = InteropTime cfg.
Proof. unfold PayloadToBlockRef. by destruct (_ && _). Qed.

(** C3: before interop, sealing a concluding block that the execution engine
    builds, executes and accepts, and that is ahead of the pending-safe and
    local-safe heads and not behind the finalized head, makes it the unsafe,
    cross-unsafe, pending-safe, local-safe and safe head in at most 30 events:
    the queue runs empty, no forkchoice update stays requested, the backup is
    forgotten, the finalized head is unchanged, and the last event announces
    exactly this forkchoice. *)
Theorem build_seal_advances_heads eng e info envelope ref :
  accepts eng -> heads_known e ->
  GetPayload eng info = Ok envelope ->
  NewPayload eng (env_ExecutionPayload envelope) (ParentBeaconBlockRoot envelope)
    = Ok ExecutionValid ->
  (PayloadToBlockRef (rollupCfg e) (env_ExecutionPayload envelope)).2 = Ok ref ->
  ref <> zeroL2BlockRef -> IsInterop (rollupCfg e) (l2_Time ref) = false ->
  l2_Number (pendingSafeHead e) < l2_Number ref -> l2_Number (localSafeHead e) < l2_Number ref ->
  l2_Number (finalizedHead e) <= l2_Number ref ->
  exists e' log,
    Drain 30 eng e [BuildSealEvent info true] = Some (e', [], log)
    /\ all_heads e' ref (finalizedHead e)
    /\ last log = Some (ForkchoiceUpdateEvent ref ref (finalizedHead e)).
Proof.
  intros Hacc Hk Hg Hn Hp Hr Hi Hps Hls Hf. apply runs_Drain.
  pose proof (PayloadToBlockRef_InteropTime (rollupCfg e) (env_ExecutionPayload envelope)) as Ht.
  destruct (PayloadToBlockRef _ _) as [cfg r] eqn:Hpr. simpl in Hp, Ht. subst r.
  set (e1 := set_rollupCfg e cfg).
  run_step (unfold processEvent, OnEvent, onBuildSeal; rewrite Hg, Hpr; reflexivity).
  run_step reflexivity.
  run_step (unfold processEvent, OnEvent, onPayloadProcess; rewrite Hn; reflexivity).
  destruct (payload_success_runs eng e1 envelope ref) as (e' & log & Hd & Hlen & Hall & Hlast);
    try done; [by destruct Hk|by unfold IsInterop; simpl; rewrite Ht|].
  exists e', log. split; [exact Hd|]. split; [simpl; lia|]. split; [exact Hall|].
  by destruct log.
Qed.

(** ** Witnesses *)

Lemma finality_monotone_witness :
  exists e' evs,
    OnEvent (ex_engine ex_labels) ex_controller (PromoteFinalizedEvent (ref_at 10))
      = Some (Some (e', evs))
    /\ finalizedHead e' = ref_at 10
    /\ l2_Number (finalizedHead ex_controller) <= l2_Number (finalizedHead e').
Proof.
  exists (SetFinalizedHead ex_controller (ref_at 10)),
    [FinalizedUpdateEvent (ref_at 10); TryUpdateEngineEvent None].
  split; [reflexivity|]. split; [reflexivity|].
  destruct (finality_monotone (ex_engine ex_labels) ex_controller
              (PromoteFinalizedEvent (ref_at 10)) (SetFinalizedHead ex_controller (ref_at 10))
              [FinalizedUpdateEvent (ref_at 10); TryUpdateEngineEvent None]) as [H _];
    [discriminate|reflexivity|reflexivity|exact H].
Defined.

Definition ex_reset : ForceReset :=
  {| fr_LocalUnsafe := ref_at 8; fr_CrossUnsafe := ref_at 8; fr_LocalSafe := ref_at 7;
     fr_CrossSafe := ref_at 7; fr_Finalized := ref_at 6 |}.

(** The unsafe head is block 8, and block 7 is confirmed. *)
Lemma force_reset_spec_witness :
  exists e' rest,
    OnEvent (ex_engine ex_labels) ex_controller (ForceResetEvent ex_reset)
      = Some (Some (e', [TryUpdateEngineEvent None;
          EngineResetConfirmedEvent (ref_at 7) (ref_at 8) (ref_at 7) (ref_at 7) (ref_at 6)] ++ rest))
    /\ unsafeHead e' = ref_at 8.
Proof.
  eexists _, []. split; [reflexivity|].
  destruct (force_reset_spec (ex_engine ex_labels) ex_controller ex_reset _ _ eq_refl) as [H _].
  exact H.
Defined.

Lemma build_seal_advances_heads_witness :
  let ref := ref_at 12 in
  exists e' log,
    Drain 30 (ex_engine ex_labels) ex_controller
      [BuildSealEvent {| pi_ID := 77; pi_Timestamp := 24 |} true] = Some (e', [], log)
    /\ all_heads e' ref (ref_at 9)
    /\ last log = Some (ForkchoiceUpdateEvent ref ref (ref_at 9)).
Proof.
  intros ref.
  apply (build_seal_advances_heads (ex_engine ex_labels) ex_controller
           {| pi_ID := 77; pi_Timestamp := 24 |}
           {| ParentBeaconBlockRoot := None; env_ExecutionPayload := payload_at 12 |} ref);
    [intros fc; exists None; reflexivity|constructor; discriminate|reflexivity|reflexivity
    |reflexivity|discriminate|reflexivity|reflexivity|reflexivity|discriminate].
Defined.
