(* ===== verification/SyncStart.v ===== *)
(** * Finding the heads to start from

    Models [currentHeads] and [FindL2Heads] (rhs-node/rollup/sync/start.go)
    and the [EngineResetDeriver] that turns their result into a forced reset
    (rhs-node/rollup/engine/engine_reset.go).  The walk over the chain has no
    bound in the source, so it runs on fuel; [None] is "out of fuel". *)

From S2P Require Import Prelude EthTypes RollupConfig SpanBatch Batches Pipeline.
From S2P Require Import Engine EngineDeriver.

Record L2Chain : Type := {
  chain_L2BlockRefByHash : Hash -> result L2BlockRef;
  chain_L2BlockRefByLabel : BlockLabel -> result L2BlockRef }.

Definition ReorgFinalizedErr : error := Msg "cannot reorg finalized block".
Definition WrongChainErr : error := Msg "wrong chain".
Definition TooDeepReorgErr : error := Msg "reorg is too deep".

Definition MaxReorgSeqWindows : Z := 5.

Record FindHeadsResult : Type := {
  Unsafe : L2BlockRef;
  Safe : L2BlockRef;
  Finalized : L2BlockRef }.

#[global] Instance FindHeadsResult_eq_dec : EqDecision FindHeadsResult.
Proof. solve_decision. Defined.

Definition currentHeads (cfg : Config) (l2 : L2Chain) : result FindHeadsResult :=
  let finalized :=
    match chain_L2BlockRefByLabel l2 LabelFinalized with
    | Err err => if errors_Is err NotFound
                 then chain_L2BlockRefByHash l2 (bid_Hash (L2 (cfg_Genesis cfg))) else Err err
    | r => r
    end in
  let* finalized := map_err (Wrap "failed to find the finalized core block") finalized in
  let safe :=
    match chain_L2BlockRefByLabel l2 LabelSafe with
    | Err err => if errors_Is err NotFound then Ok finalized
                 else Err (Wrap "failed to find the safe core block" err)
    | r => r
    end in
  let* safe := safe in
  let* unsafe := map_err (Wrap "failed to find the core head block")
                   (chain_L2BlockRefByLabel l2 LabelUnsafe) in
  Ok {| Unsafe := unsafe; Safe := safe; Finalized := finalized |}.

(** One iteration of the walk: the result so far, the current block, the
    highest block with a canonical L1 origin, and the two flags. *)
Record walk : Type := {
  w_result : FindHeadsResult;
  w_n : L2BlockRef;
  w_highest : L2BlockRef;
  w_ahead : bool;
  w_ready : bool }.

Definition walk_step (cfg : Config) (l2 : L2Chain) (skip : bool) (prevUnsafe : L2BlockRef)
    (w : walk) : result (walk + FindHeadsResult) :=
  let n := w_n w in
  let genesis := L2 (cfg_Genesis cfg) in
  if (l2_Number n =? bid_Number genesis) && negb (l2_Hash n =? bid_Hash genesis) then
    Err (Wrap "core: genesis" WrongChainErr)
  else if (l2_Number n =? l2_Number (Finalized (w_result w)))
          && negb (l2_Hash n =? l2_Hash (Finalized (w_result w))) then
    Err (Wrap "finalized" ReorgFinalizedErr)
  else
    let* result :=
      if is_zero (Unsafe (w_result w)) then
        if (bid_Number (l2_L1Origin n) +u (MaxReorgSeqWindows *u SyncLookback cfg))
           <? bid_Number (l2_L1Origin prevUnsafe)
        then Err (Wrap "traversed back too deep" TooDeepReorgErr)
        else Ok {| Unsafe := n; Safe := Safe (w_result w); Finalized := Finalized (w_result w) |}
      else Ok (w_result w) in
    let result := if w_ahead w then result
                  else {| Unsafe := zeroL2BlockRef; Safe := Safe result;
                          Finalized := Finalized result |} in
    let highest := zeroL2BlockRef in
    let ready := w_ready w
      || ((l2_Number n <=? l2_Number (Safe result))
          && ((bid_Number (l2_L1Origin n) +u SyncLookback cfg)
              <? bid_Number (l2_L1Origin highest))
          && (l2_SequenceNumber n =? 0)) in
    if l2_Number n =? l2_Number (Finalized result) then
      Ok (inr {| Unsafe := Unsafe result; Safe := n; Finalized := Finalized result |})
    else if skip && (l2_Hash highest =? l2_Hash n) then
      Ok (inl {| w_result := result; w_n := Safe result; w_highest := highest;
                 w_ahead := w_ahead w; w_ready := ready |})
    else
      let* parent := map_err (Wrap "failed to fetch core block by hash")
                       (chain_L2BlockRefByHash l2 (l2_ParentHash n)) in
      if ready then
        Ok (inr {| Unsafe := Unsafe result; Safe := parent; Finalized := Finalized result |})
      else
        Ok (inl {| w_result := result; w_n := parent; w_highest := highest;
                   w_ahead := w_ahead w; w_ready := ready |}).

Fixpoint walk_loop (fuel : nat) (cfg : Config) (l2 : L2Chain) (skip : bool)
    (prevUnsafe : L2BlockRef) (w : walk) : option (result FindHeadsResult) :=
  match fuel with
  | O => None
  | S f =>
      match walk_step cfg l2 skip prevUnsafe w with
      | Panic => Some Panic
      | Err err => Some (Err err)
      | Ok (inr r) => Some (Ok r)
      | Ok (inl w') => walk_loop f cfg l2 skip prevUnsafe w'
      end
  end.

Definition FindL2Heads (fuel : nat) (cfg : Config) (l2 : L2Chain) (skip : bool)
    : option (result FindHeadsResult) :=
  match currentHeads cfg l2 with
  | Panic => Some Panic
  | Err err => Some (Err (Wrap "failed to fetch current core forkchoice state" err))
  | Ok r =>
      let genesis := L2 (cfg_Genesis cfg) in
      let all_unsafe := {| Unsafe := Unsafe r; Safe := Unsafe r; Finalized := Unsafe r |} in
      if (l2_Hash (Finalized r) =? bid_Hash genesis) && (l2_Hash (Safe r) =? bid_Hash genesis)
         && (bid_Number genesis <? l2_Number (Unsafe r)) then Some (Ok all_unsafe)
      else if (l2_Number (Unsafe r) <? l2_Number (Finalized r))
              || (l2_Number (Unsafe r) <? l2_Number (Safe r)) then Some (Ok all_unsafe)
      else walk_loop fuel cfg l2 skip (Unsafe r)
             {| w_result := r; w_n := Unsafe r; w_highest := zeroL2BlockRef;
                w_ahead := false; w_ready := false |}
  end.

(** The reset deriver's handler of [ResetEngineRequestEvent]: the event it
    emits. *)
Definition EngineResetDeriver_OnEvent (fuel : nat) (cfg : Config) (l2 : L2Chain) (skip : bool)
    : option (result Event) :=
  match FindL2Heads fuel cfg l2 skip with
  | None => None
  | Some Panic => Some Panic
  | Some (Err err) =>
      Some (Ok (ResetEvent (Wrap "failed to find the core Heads to start from" err)))
  | Some (Ok r) =>
      Some (Ok (ForceResetEvent
        {| fr_LocalUnsafe := Unsafe r; fr_CrossUnsafe := Unsafe r; fr_LocalSafe := Safe r;
           fr_CrossSafe := Safe r; fr_Finalized := Finalized r |}))
  end.

(** ** Properties *)

(** The blocks from the finalized to the unsafe block, by number: a chain the
    walk can follow. *)
Record walkable (cfg : Config) (l2 : L2Chain) (skip : bool) (chain : Z -> L2BlockRef) (f u : Z)
    : Prop := {
  chain_number k : f <= k <= u -> l2_Number (chain k) = k;
  chain_parent k : f < k <= u ->
    chain_L2BlockRefByHash l2 (l2_ParentHash (chain k)) = Ok (chain (k - 1));
  chain_genesis : f <= bid_Number (L2 (cfg_Genesis cfg)) <= u ->
    l2_Hash (chain (bid_Number (L2 (cfg_Genesis cfg)))) = bid_Hash (L2 (cfg_Genesis cfg));
  chain_hash k : f < k <= u -> skip = true -> l2_Hash (chain k) <> 0;
  chain_depth k : f <= k < u ->
    bid_Number (l2_L1Origin (chain u))
    <= (bid_Number (l2_L1Origin (chain k)) +u (MaxReorgSeqWindows *u SyncLookback cfg)) }.

(** The walk carries no unsafe head and no candidate over from one block to
    the next. *)
Definition at_block (r : FindHeadsResult) (n : L2BlockRef) : walk :=
  {| w_result := r; w_n := n; w_highest := zeroL2BlockRef; w_ahead := false; w_ready := false |}.

Lemma not_ready z : (u64 z <? bid_Number (l2_L1Origin zeroL2BlockRef)) = false.
Proof. pose proof (u64_range z) as H. unfold is_u64 in H. simpl. lia. Qed.

Section Walk.
Context (cfg : Config) (l2 : L2Chain) (skip : bool) (chain : Z -> L2BlockRef) (f u : Z).
Context (Hw : walkable cfg l2 skip chain f u).

Lemma walk_step_spec r k : f <= k <= u -> Finalized r = chain f ->
  (k < u \/ is_zero (Unsafe r) = false) ->
  let r' := {| Unsafe := zeroL2BlockRef; Safe := Safe r; Finalized := Finalized r |} in
  walk_step cfg l2 skip (chain u) (at_block r (chain k))
  = if k =? f
    then Ok (inr {| Unsafe := zeroL2BlockRef; Safe := chain f; Finalized := chain f |})
    else Ok (inl (at_block r' (chain (k - 1)))).
Proof.
  intros Hk Hf Hu r'. unfold walk_step, at_block. cbn [w_n w_result w_ahead w_ready].
  rewrite Hf, (chain_number _ _ _ _ _ _ Hw k Hk), (chain_number _ _ _ _ _ _ Hw f) by lia.
  replace (_ && negb (l2_Hash (chain k) =? bid_Hash _)) with false.
  2:{ destruct (Z.eqb_spec k (bid_Number (L2 (cfg_Genesis cfg)))) as [->|]; [|done].
      rewrite (chain_genesis _ _ _ _ _ _ Hw Hk), Z.eqb_refl. done. }
  replace (_ && negb (l2_Hash (chain k) =? l2_Hash (chain f))) with false.
  2:{ destruct (Z.eqb_spec k f) as [->|]; [|done]. by rewrite Z.eqb_refl. }
  set (res := if is_zero (Unsafe r) then _ else _).
  assert (exists r0, res = Ok r0 /\ Safe r0 = Safe r /\ Finalized r0 = chain f)
    as (r0 & -> & E1 & E2).
  { subst res. destruct (is_zero (Unsafe r)); [|by exists r].
    destruct Hu as [Hu|]; [|done].
    rewrite (proj2 (Z.ltb_ge _ _)) by (apply (chain_depth _ _ _ _ _ _ Hw); lia).
    eexists. by split_and!. }
  cbn [rbind Safe Finalized Unsafe]. rewrite E1, E2, not_ready, andb_false_r.
  rewrite (chain_number _ _ _ _ _ _ Hw f) by lia. cbn [andb orb].
  destruct (Z.eqb_spec k f) as [->|Hne]; [done|].
  replace (skip && _) with false.
  2:{ destruct skip eqn:Es; [|done]. symmetry. cbn [andb]. apply Z.eqb_neq, not_eq_sym.
      apply (chain_hash _ _ _ _ _ _ Hw); [lia|done]. }
  rewrite (chain_parent _ _ _ _ _ _ Hw) by lia. simpl. subst r'. by rewrite Hf.
Qed.

Lemma walk_loop_spec fuel r k : f <= k <= u -> Finalized r = chain f ->
  (k < u \/ is_zero (Unsafe r) = false) -> k - f < Z.of_nat fuel ->
  walk_loop fuel cfg l2 skip (chain u) (at_block r (chain k))
  = Some (Ok {| Unsafe := zeroL2BlockRef; Safe := chain f; Finalized := chain f |}).
Proof.
  revert r k. induction fuel as [|fuel IH]; intros r k Hk Hf Hu Hfuel; [lia|].
  cbn [walk_loop]. rewrite walk_step_spec by done.
  destruct (Z.eqb_spec k f); [done|]. apply IH; [lia|done|left; lia|lia].
Qed.

End Walk.

(** On a healthy chain, one the engine can be walked back on from its
    unsafe head to its finalized head, [FindL2Heads] terminates, within as many
    iterations as there are blocks to walk, and its result never depends on
    the safe head or the L1 origins: the unsafe head is the zero block, and the
    safe head is the finalized block.  The reset that follows therefore rewinds
    the local-safe and cross-safe heads to the finalized block, keeps the unsafe
    head, and sets the cross-unsafe head to the zero block. *)
Theorem FindL2Heads_rewinds_to_finalized cfg l2 skip chain r fuel eng e :
  let f := l2_Number (Finalized r) in
  let u := l2_Number (Unsafe r) in
  currentHeads cfg l2 = Ok r ->
  walkable cfg l2 skip chain f u -> chain f = Finalized r -> chain u = Unsafe r ->
  Unsafe r <> zeroL2BlockRef ->
  f <= u -> l2_Number (Safe r) <= u ->
  ~ (l2_Hash (Safe r) = bid_Hash (L2 (cfg_Genesis cfg)) /\
     l2_Hash (Finalized r) = bid_Hash (L2 (cfg_Genesis cfg))) ->
  u - f < Z.of_nat fuel ->
  FindL2Heads fuel cfg l2 skip
    = Some (Ok {| Unsafe := zeroL2BlockRef; Safe := Finalized r; Finalized := Finalized r |})
  /\ exists ev e' evs,
       EngineResetDeriver_OnEvent fuel cfg l2 skip = Some (Ok ev)
       /\ OnEvent eng e ev = Some (Some (e', evs))
       /\ unsafeHead e' = unsafeHead e /\ crossUnsafeHead e' = zeroL2BlockRef
       /\ localSafeHead e' = Finalized r /\ safeHead e' = Finalized r
       /\ finalizedHead e' = Finalized r.
Proof.
  intros f u Hc Hw Hcf Hcu Hz Hfu Hsu Hg Hfuel.
  assert (FindL2Heads fuel cfg l2 skip
    = Some (Ok {| Unsafe := zeroL2BlockRef; Safe := Finalized r; Finalized := Finalized r |}))
    as HF.
  { unfold FindL2Heads. rewrite Hc.
    replace (_ && _ && _) with false by (symmetry; apply not_true_is_false; lia).
    replace (_ || _) with false by (symmetry; apply not_true_is_false; subst f u; lia).
    pose proof (walk_loop_spec cfg l2 skip chain f u Hw fuel r u) as H.
    rewrite Hcu, Hcf in H. apply H; [lia|done| |lia].
    right. by apply bool_decide_eq_false_2. }
  split; [done|]. unfold EngineResetDeriver_OnEvent. rewrite HF.
  eexists _, _, _. split; [reflexivity|]. split; [reflexivity|]. by split_and!.
Qed.

(** ** Witness *)

Definition ex_chain : L2Chain :=
  {| chain_L2BlockRefByHash := fun h => Ok (ref_at (h - 100));
     chain_L2BlockRefByLabel := ex_labels |}.

Lemma ex_walkable : walkable example_config ex_chain true ref_at 9 11.
Proof.
  constructor; simpl.
  - done.
  - intros k Hk. do 2 f_equal. lia.
  - lia.
  - intros. lia.
  - intros k Hk. u64_solve.
Defined.

(** The safe head 10 is rewound to the finalized head 9. *)
Lemma FindL2Heads_rewinds_to_finalized_witness :
  FindL2Heads 3 example_config ex_chain true
    = Some (Ok {| Unsafe := zeroL2BlockRef; Safe := ref_at 9; Finalized := ref_at 9 |}).
Proof.
  pose (r := {| Unsafe := ref_at 11; Safe := ref_at 10; Finalized := ref_at 9 |}).
  destruct (FindL2Heads_rewinds_to_finalized example_config ex_chain true ref_at r 3
              (ex_engine ex_labels) ex_controller) as [H _];
    [reflexivity|exact ex_walkable|reflexivity|reflexivity|discriminate|simpl; lia|simpl; lia
    |intros [H _]; discriminate H|simpl; lia|exact H].
Defined.
