(* ===== verification/L1Info.v ===== *)
(** * The L1 block info of a block

    Models [rhs-service/solabi/util.go] (the 32-byte words of the Solidity
    ABI), [rhs-node/rollup/derive/l1_block_info.go] (the deposit that carries
    the L1 information, in its three formats), [derive/deposit_source.go]
    (the hashes that identify deposits) and [derive/l2block_util.go].  A writer is the list of bytes it writes; a
    reader is the list of the unread bytes.  Keccak, the blob-fee formula and
    the binary form of a deposit transaction belong to libraries and are
    parameters. *)

From S2P Require Import Prelude EthTypes RollupConfig.

Definition ascii_code (c : Ascii.ascii) : Z := Z.of_N (Ascii.N_of_ascii c).

(** [[]byte(s)] *)
Fixpoint string_bytes (s : string) : bytes :=
  match s with
  | EmptyString => []
  | String c s => ascii_code c :: string_bytes s
  end.

Class Keccak := Keccak256 : bytes -> bytes.

(** A digest has 32 bytes. *)
Class KeccakLaws `{Keccak} : Prop := {
  keccak_length : forall b, length (Keccak256 b) = 32%nat;
  keccak_bytes : forall b, is_bytes (Keccak256 b) }.

(** [crypto.Keccak256Hash] *)
Definition Keccak256Hash `{Keccak} (b : bytes) : Hash := be_decode (Keccak256 b).

(** ** The words of the Solidity ABI *)

Definition ReadAndValidateSignature (r expected : bytes) : result (bytes * bytes) :=
  let* (sig, r) := ReadFull 4 r in
  if bool_decide (sig = expected) then Ok (sig, r) else Err (Msg "invalid function signature").

Definition ReadHash (r : bytes) : result (Hash * bytes) := ReadBE 32 r.

Definition ReadEthBytes32 (r : bytes) : result (bytes * bytes) := ReadFull 32 r.

Definition ReadAddress (r : bytes) : result (Z * bytes) :=
  let* (padding, r) := ReadFull 12 r in
  if bool_decide (padding = replicate 12 0) then ReadBE 20 r
  else Err (Msg "address padding was not empty").

Definition ReadUint64 (r : bytes) : result (Z * bytes) :=
  let* (padding, r) := ReadFull 24 r in
  if bool_decide (padding = replicate 24 0) then
    map_err (fun _ => Msg "expected number length to be 8 bytes") (ReadBE 8 r)
  else Err (Msg "number padding was not empty").

Definition ReadUint256 (r : bytes) : result (Z * bytes) := ReadBE 32 r.

Definition EmptyReader (r : bytes) : bool := bool_decide (r = []).

Definition WriteHash (h : Hash) : bytes := be_encode 32 h.
Definition WriteAddress (a : Z) : bytes := replicate 12 0 ++ be_encode 20 a.
Definition WriteUint64 (n : Z) : bytes := replicate 24 0 ++ be_encode 8 n.

(** A nil integer is dereferenced; [BitLen() > 256] looks at the absolute
    value, as does [FillBytes]. *)
Definition WriteUint256 (n : option Z) : result bytes :=
  match n with
  | None => Panic
  | Some n => if 2 ^ 256 <=? Z.abs n then Err (Msg "big int exceeds 256 bits")
              else Ok (be_encode 32 (Z.abs n))
  end.

(** ** The L1 block info *)

Record L1BlockInfo : Type := {
  info_Number : Z;
  info_Time : Z;
  info_BaseFee : option Z;
  info_BlockHash : Hash;
  info_SequenceNumber : Z;
  info_BatcherAddr : Z;
  info_L1FeeOverhead : bytes;
  info_L1FeeScalar : bytes;
  info_BlobBaseFee : option Z;
  info_BaseFeeScalar : Z;
  info_BlobBaseFeeScalar : Z;
  info_OperatorFeeScalar : Z;
  info_OperatorFeeConstant : Z }.

Definition L1InfoBedrockLen : nat := 4 + 32 * 8.
Definition L1InfoEcotoneLen : nat := 4 + 32 * 5.
Definition L1InfoIsthmusLen : nat := 4 + 32 * 5 + 4 + 8.

Definition ErrInvalidFormat : error := Msg "invalid ecotone l1 block info format".
Definition ErrInvalidIsthmusFormat : error := Msg "invalid isthmus l1 block info format".

Definition RegolithSystemTxGas : Z := 1000000.

Section Info.
Context {KC : Keccak}.

Definition L1InfoFuncBedrockBytes4 : bytes := take 4 (Keccak256 (string_bytes
  "setL1BlockValues(uint64,uint64,uint256,bytes32,uint64,bytes32,uint256,uint256)")).
Definition L1InfoFuncEcotoneBytes4 : bytes :=
  take 4 (Keccak256 (string_bytes "setL1BlockValuesEcotone()")).
Definition L1InfoFuncIsthmusBytes4 : bytes :=
  take 4 (Keccak256 (string_bytes "setL1BlockValuesIsthmus()")).

Definition marshalBinaryBedrock (info : L1BlockInfo) : result bytes :=
  let* baseFee := WriteUint256 (info_BaseFee info) in
  Ok (L1InfoFuncBedrockBytes4 ++ WriteUint64 (info_Number info) ++ WriteUint64 (info_Time info)
      ++ baseFee ++ WriteHash (info_BlockHash info) ++ WriteUint64 (info_SequenceNumber info)
      ++ WriteAddress (info_BatcherAddr info) ++ info_L1FeeOverhead info ++ info_L1FeeScalar info).

(** The info that is returned next to an error is only partly filled; every
    caller discards it. *)
Definition unmarshalBinaryBedrock (data : bytes) : result L1BlockInfo :=
  if negb (length data =? L1InfoBedrockLen)%nat then Err (Msg "data is unexpected length")
  else
    let* (_, r) := ReadAndValidateSignature data L1InfoFuncBedrockBytes4 in
    let* (number, r) := ReadUint64 r in
    let* (time, r) := ReadUint64 r in
    let* (baseFee, r) := ReadUint256 r in
    let* (blockHash, r) := ReadHash r in
    let* (sequenceNumber, r) := ReadUint64 r in
    let* (batcherAddr, r) := ReadAddress r in
    let* (overhead, r) := ReadEthBytes32 r in
    let* (scalar, r) := ReadEthBytes32 r in
    if negb (EmptyReader r) then Err (Msg "too many bytes")
    else Ok {| info_Number := number; info_Time := time; info_BaseFee := Some baseFee;
               info_BlockHash := blockHash; info_SequenceNumber := sequenceNumber;
               info_BatcherAddr := batcherAddr; info_L1FeeOverhead := overhead;
               info_L1FeeScalar := scalar; info_BlobBaseFee := None; info_BaseFeeScalar := 0;
               info_BlobBaseFeeScalar := 0; info_OperatorFeeScalar := 0;
               info_OperatorFeeConstant := 0 |}.

(** The fields that the Ecotone and the Isthmus format share. *)
Definition marshal_ecotone_fields (info : L1BlockInfo) (signature : bytes) : result bytes :=
  let* baseFee := WriteUint256 (info_BaseFee info) in
  let* blobBaseFee := WriteUint256 (Some (default 1 (info_BlobBaseFee info))) in
  Ok (signature ++ be_encode 4 (info_BaseFeeScalar info)
      ++ be_encode 4 (info_BlobBaseFeeScalar info) ++ be_encode 8 (info_SequenceNumber info)
      ++ be_encode 8 (info_Time info) ++ be_encode 8 (info_Number info)
      ++ baseFee ++ blobBaseFee ++ WriteHash (info_BlockHash info)
      ++ WriteAddress (info_BatcherAddr info)).

Definition marshalBinaryEcotone (info : L1BlockInfo) : result bytes :=
  marshal_ecotone_fields info L1InfoFuncEcotoneBytes4.

Definition read_ecotone_fields (invalid : error) (data signature : bytes)
    : result (L1BlockInfo * bytes) :=
  let* (_, r) := ReadAndValidateSignature data signature in
  let* (baseFeeScalar, r) := map_err (fun _ => invalid) (ReadBE 4 r) in
  let* (blobBaseFeeScalar, r) := map_err (fun _ => invalid) (ReadBE 4 r) in
  let* (sequenceNumber, r) := map_err (fun _ => invalid) (ReadBE 8 r) in
  let* (time, r) := map_err (fun _ => invalid) (ReadBE 8 r) in
  let* (number, r) := map_err (fun _ => invalid) (ReadBE 8 r) in
  let* (baseFee, r) := ReadUint256 r in
  let* (blobBaseFee, r) := ReadUint256 r in
  let* (blockHash, r) := ReadHash r in
  let* (batcherAddr, r) := ReadAddress r in
  Ok ({| info_Number := number; info_Time := time; info_BaseFee := Some baseFee;
         info_BlockHash := blockHash; info_SequenceNumber := sequenceNumber;
         info_BatcherAddr := batcherAddr; info_L1FeeOverhead := replicate 32 0;
         info_L1FeeScalar := replicate 32 0; info_BlobBaseFee := Some blobBaseFee;
         info_BaseFeeScalar := baseFeeScalar; info_BlobBaseFeeScalar := blobBaseFeeScalar;
         info_OperatorFeeScalar := 0; info_OperatorFeeConstant := 0 |}, r).

Definition unmarshalBinaryEcotone (data : bytes) : result L1BlockInfo :=
  if negb (length data =? L1InfoEcotoneLen)%nat then Err (Msg "data is unexpected length")
  else
    let* (info, r) := read_ecotone_fields ErrInvalidFormat data L1InfoFuncEcotoneBytes4 in
    if negb (EmptyReader r) then Err (Msg "too many bytes") else Ok info.

Definition with_operator_fee (info : L1BlockInfo) (scalar constant : Z) : L1BlockInfo :=
  {| info_Number := info_Number info; info_Time := info_Time info;
     info_BaseFee := info_BaseFee info; info_BlockHash := info_BlockHash info;
     info_SequenceNumber := info_SequenceNumber info; info_BatcherAddr := info_BatcherAddr info;
     info_L1FeeOverhead := info_L1FeeOverhead info; info_L1FeeScalar := info_L1FeeScalar info;
     info_BlobBaseFee := info_BlobBaseFee info; info_BaseFeeScalar := info_BaseFeeScalar info;
     info_BlobBaseFeeScalar := info_BlobBaseFeeScalar info; info_OperatorFeeScalar := scalar;
     info_OperatorFeeConstant := constant |}.

Definition marshalBinaryWithSignature (info : L1BlockInfo) (signature : bytes) : result bytes :=
  let* fields := marshal_ecotone_fields info signature in
  Ok (fields ++ be_encode 4 (info_OperatorFeeScalar info)
      ++ be_encode 8 (info_OperatorFeeConstant info)).

Definition marshalBinaryIsthmus (info : L1BlockInfo) : result bytes :=
  map_err (Wrap "failed to marshal Isthmus l1 block info")
    (marshalBinaryWithSignature info L1InfoFuncIsthmusBytes4).

Definition unmarshalBinaryWithSignatureAndData (signature data : bytes) : result L1BlockInfo :=
  if negb (length data =? L1InfoIsthmusLen)%nat then Err (Msg "data is unexpected length")
  else
    let* (info, r) := read_ecotone_fields ErrInvalidIsthmusFormat data signature in
    let* (scalar, r) := map_err (fun _ => ErrInvalidIsthmusFormat) (ReadBE 4 r) in
    let* (constant, r) := map_err (fun _ => ErrInvalidIsthmusFormat) (ReadBE 8 r) in
    if negb (EmptyReader r) then Err (Msg "too many bytes")
    else Ok (with_operator_fee info scalar constant).

Definition unmarshalBinaryIsthmus (data : bytes) : result L1BlockInfo :=
  unmarshalBinaryWithSignatureAndData L1InfoFuncIsthmusBytes4 data.

Definition isEcotoneButNotFirstBlock (cfg : Config) (l2Timestamp : Z) : bool :=
  IsEcotone cfg l2Timestamp && negb (IsEcotoneActivationBlock cfg l2Timestamp).

Definition isIsthmusButNotFirstBlock (cfg : Config) (l2Timestamp : Z) : bool :=
  IsIsthmus cfg l2Timestamp && negb (IsIsthmusActivationBlock cfg l2Timestamp).

Definition L1BlockInfoFromBytes (cfg : Config) (l2BlockTime : Z) (data : bytes)
    : result L1BlockInfo :=
  if isIsthmusButNotFirstBlock cfg l2BlockTime then unmarshalBinaryIsthmus data
  else if isEcotoneButNotFirstBlock cfg l2BlockTime then unmarshalBinaryEcotone data
  else unmarshalBinaryBedrock data.
End Info.

(** ** Deposit sources *)

Inductive DepositSource : Type :=
  | UserDepositSource (L1BlockHash : Hash) (LogIndex : Z)
  | L1InfoDepositSource (L1BlockHash : Hash) (SeqNumber : Z)
  | UpgradeDepositSource (Intent : string)
  | AfterForceIncludeSource (L1BlockHash : Hash) (SeqNumber : Z)
  | InvalidatedBlockSource (OutputRoot : Hash).

Definition source_domain (dep : DepositSource) : Z :=
  match dep with
  | UserDepositSource _ _ => 0
  | L1InfoDepositSource _ _ => 1
  | UpgradeDepositSource _ => 2
  | AfterForceIncludeSource _ _ => 3
  | InvalidatedBlockSource _ => 4
  end.

Section Deposit.
Context {KC : Keccak}.

(** A number in the last 8 bytes of a 32-byte word. *)
Definition word (n : Z) : bytes := replicate 24 0 ++ be_encode 8 n.

Definition deposit_id (dep : DepositSource) : bytes :=
  match dep with
  | UserDepositSource h n | L1InfoDepositSource h n | AfterForceIncludeSource h n =>
      Keccak256 (hash_bytes h ++ word n)
  | UpgradeDepositSource intent => Keccak256 (string_bytes intent)
  | InvalidatedBlockSource root => hash_bytes root
  end.

Definition SourceHash (dep : DepositSource) : Hash :=
  Keccak256Hash (word (source_domain dep) ++ deposit_id dep).

(** [types.DepositTx]; a nil mint and a nil recipient are [None]. *)
Record DepositTx : Type := {
  dt_SourceHash : Hash;
  dt_From : Z;
  dt_To : option Z;
  dt_Mint : option Z;
  dt_Value : Z;
  dt_Gas : Z;
  dt_IsSystemTransaction : bool;
  dt_Data : bytes }.

(** [eth.BlockInfo], the methods that are called. *)
Record BlockInfo : Type := {
  bi_NumberU64 : Z;
  bi_Time : Z;
  bi_BaseFee : option Z;
  bi_Hash : Hash;
  bi_BlobBaseFee : option Z;
  bi_ExcessBlobGas : option Z }.

Definition L1InfoDepositerAddress : Z := 0xdeaddeaddeaddeaddeaddeaddeaddeaddead0001.
Definition L1BlockAddress : Z := 0x4200000000000000000000000000000000000015.

(** The blob base fee, with the schedule fix; [calcBlobFee] is
    [eth.CalcBlobFeeCancun]. *)
Definition blob_base_fee (calcBlobFee : Z -> Z) (cfg : Config) (block : BlockInfo) : Z :=
  let fixed := match PectraBlobScheduleTime cfg with
               | Some t => bi_Time block <? t
               | None => false
               end in
  default 1 (if fixed then option_map calcBlobFee (bi_ExcessBlobGas block)
             else bi_BlobBaseFee block).

Definition L1InfoDeposit (calcBlobFee : Z -> Z) (cfg : Config) (sysCfg : SystemConfig)
    (seqNumber : Z) (block : BlockInfo) (l2Timestamp : Z) : result DepositTx :=
  let ecotone := isEcotoneButNotFirstBlock cfg l2Timestamp in
  let isthmus := isIsthmusButNotFirstBlock cfg l2Timestamp in
  let info :=
    {| info_Number := bi_NumberU64 block; info_Time := bi_Time block;
       info_BaseFee := bi_BaseFee block; info_BlockHash := bi_Hash block;
       info_SequenceNumber := seqNumber; info_BatcherAddr := 0;
       info_L1FeeOverhead := replicate 32 0; info_L1FeeScalar := replicate 32 0;
       info_BlobBaseFee := if ecotone then Some (blob_base_fee calcBlobFee cfg block) else None;
       info_BaseFeeScalar := 0; info_BlobBaseFeeScalar := 0;
       info_OperatorFeeScalar := if ecotone && isthmus then Scalar (OperatorFee sysCfg) else 0;
       info_OperatorFeeConstant :=
         if ecotone && isthmus then Constant (OperatorFee sysCfg) else 0 |} in
  let* data :=
    if ecotone then
      if isthmus then map_err (Wrap "failed to marshal Isthmus l1 block info") (marshalBinaryIsthmus info)
      else map_err (Wrap "failed to marshal Ecotone l1 block info") (marshalBinaryEcotone info)
    else map_err (Wrap "failed to marshal Bedrock l1 block info") (marshalBinaryBedrock info) in
  let regolith := IsRegolith cfg l2Timestamp in
  Ok {| dt_SourceHash := SourceHash (L1InfoDepositSource (bi_Hash block) seqNumber);
        dt_From := L1InfoDepositerAddress; dt_To := Some L1BlockAddress; dt_Mint := None;
        dt_Value := 0; dt_Gas := if regolith then RegolithSystemTxGas else 150000000;
        dt_IsSystemTransaction := negb regolith; dt_Data := data |}.

(** [types.NewTx(dep).MarshalBinary()] is [marshalTx]. *)
Definition L1InfoDepositBytes (marshalTx : DepositTx -> result bytes) (calcBlobFee : Z -> Z)
    (cfg : Config) (sysCfg : SystemConfig) (seqNumber : Z) (l1Info : BlockInfo) (l2Timestamp : Z)
    : result bytes :=
  let* dep := map_err (Wrap "failed to create L1 info tx")
                (L1InfoDeposit calcBlobFee cfg sysCfg seqNumber l1Info l2Timestamp) in
  map_err (Wrap "failed to encode L1 info tx") (marshalTx dep).

(** ** Block references *)

(** A transaction of a block: its type, its call data and its binary form. *)
Record BlockTx : Type := {
  bt_Type : Z;
  bt_Data : bytes;
  bt_MarshalBinary : result bytes }.

Definition DepositTxType : Z := 126.

Record Block : Type := {
  b_Hash : Hash;
  b_ParentHash : Hash;
  b_NumberU64 : Z;
  b_Time : Z;
  b_Transactions : list BlockTx }.

Definition L2BlockToBlockRef (cfg : Config) (block : Block) : result L2BlockRef :=
  let genesis := cfg_Genesis cfg in
  let* sequenceNumber :=
    if b_NumberU64 block =? bid_Number (L2 genesis) then
      if negb (b_Hash block =? bid_Hash (L2 genesis)) then
        Err (Msg "expected core genesis hash to match core block at genesis block number")
      else Ok 0
    else
      match b_Transactions block with
      | [] => Err (Msg "l2 block is missing L1 info deposit tx")
      | tx :: _ =>
          if negb (bt_Type tx =? DepositTxType) then
            Err (Msg "first payload tx has unexpected tx type")
          else
            let* info := map_err (Wrap "failed to parse L1 info deposit tx from core block")
                           (L1BlockInfoFromBytes cfg (b_Time block) (bt_Data tx)) in
            Ok (info_SequenceNumber info)
      end in
  Ok {| l2_Hash := b_Hash block; l2_Number := b_NumberU64 block;
        l2_ParentHash := b_ParentHash block; l2_Time := b_Time block;
        l2_L1Origin := zeroBlockID; l2_SequenceNumber := sequenceNumber |}.
End Deposit.

(** ** Readers and writers that are inverse *)

(** [rd] reads exactly what [wr] writes of the values that are [ok]. *)
Record codec {A} (rd : bytes -> result (A * bytes)) (wr : A -> bytes) (ok : A -> Prop) : Prop := {
  codec_write : forall v r, ok v -> rd (wr v ++ r) = Ok (v, r);
  codec_read : forall v r r', is_bytes r -> rd r = Ok (v, r') -> ok v /\ r = wr v ++ r' }.

Lemma codec_inv {A B} rd wr ok (k : A * bytes -> result B) r x : codec rd wr ok -> is_bytes r ->
  rbind (rd r) k = Ok x ->
  exists v r', ok v /\ r = wr v ++ r' /\ is_bytes r' /\ k (v, r') = Ok x.
Proof.
  intros Hc Hr ([v r'] & Hv & Hk)%rbind_Ok.
  destruct (codec_read _ _ _ Hc _ _ _ Hr Hv) as [Hok ->]. apply Forall_app in Hr as [_ Hr].
  by exists v, r'.
Qed.

Lemma codec_map_err {A} f rd wr (ok : A -> Prop) : codec rd wr ok ->
  codec (fun r => map_err f (rd r)) wr ok.
Proof.
  intros [H1 H2]. constructor.
  - intros v r Hv. by rewrite H1.
  - intros v r r' Hr Hm%map_err_Ok. by apply H2.
Qed.

Lemma codec_BE n : codec (ReadBE n) (be_encode n) (fun z => 0 <= z < 256 ^ Z.of_nat n).
Proof.
  constructor; [intros; by apply ReadBE_app|]. intros v r r' Hr H.
  apply ReadBE_Ok in H as [-> ?]; done.
Qed.

(** A codec behind a constant prefix. *)
Lemma codec_prefix {A} (pre : bytes) e (rd : bytes -> result (A * bytes)) wr ok : codec rd wr ok ->
  codec (fun r => let* (p, r) := ReadFull (length pre) r in
                  if bool_decide (p = pre) then rd r else Err e)
        (fun v => pre ++ wr v) ok.
Proof.
  intros [H1 H2]. constructor.
  - intros v r Hv. rewrite <- app_assoc, ReadFull_app by done. cbn [rbind].
    rewrite bool_decide_eq_true_2 by done. by apply H1.
  - intros v r r' Hr ([p r1] & Hp & H)%rbind_Ok. apply ReadFull_Ok in Hp as [-> _].
    case_bool_decide as E; [|done]. subst p. apply Forall_app in Hr as [_ Hr].
    destruct (H2 _ _ _ Hr H) as [? ->]. by rewrite <- app_assoc.
Qed.

Lemma codec_u32 : codec (ReadBE 4) (be_encode 4) is_u32.
Proof. exact (codec_BE 4). Qed.

Lemma codec_u64 : codec (ReadBE 8) (be_encode 8) is_u64.
Proof. exact (codec_BE 8). Qed.

Lemma codec_Uint256 : codec ReadUint256 (be_encode 32) (fun n => 0 <= n < 2 ^ 256).
Proof. exact (codec_BE 32). Qed.

Lemma codec_Hash : codec ReadHash WriteHash (fun h => 0 <= h < 2 ^ 256).
Proof. exact (codec_BE 32). Qed.

Lemma codec_Address : codec ReadAddress WriteAddress (fun a => 0 <= a < 2 ^ 160).
Proof. exact (codec_prefix (replicate 12 0) _ _ _ _ (codec_BE 20)). Qed.

Lemma codec_Uint64 : codec ReadUint64 WriteUint64 is_u64.
Proof. exact (codec_prefix (replicate 24 0) _ _ _ _ (codec_map_err _ _ _ _ (codec_BE 8))). Qed.

Lemma codec_Bytes32 : codec ReadEthBytes32 id (fun b => is_bytes b /\ length b = 32%nat).
Proof.
  constructor.
  - intros v r [_ Hv]. by apply ReadFull_app.
  - intros v r r' Hr Hv. apply ReadFull_Ok in Hv as [-> Hl]. apply Forall_app in Hr as [Hv _]. done.
Qed.

Lemma codec_signature sig : length sig = 4%nat ->
  codec (fun r => ReadAndValidateSignature r sig) (fun _ => sig) (fun s => s = sig).
Proof.
  intros Hs. unfold ReadAndValidateSignature. constructor.
  - intros v r ->. rewrite ReadFull_app by done. cbn [rbind]. by rewrite bool_decide_eq_true_2.
  - intros v r r' Hr ([p r1] & Hp & H)%rbind_Ok. apply ReadFull_Ok in Hp as [-> _].
    case_bool_decide as E; [|done]. injection H as <- <-. by subst p.
Qed.

Lemma WriteUint256_Ok n b : WriteUint256 (Some n) = Ok b -> 0 <= n ->
  b = be_encode 32 n /\ n < 2 ^ 256.
Proof.
  unfold WriteUint256. rewrite Z.leb_antisym. destruct (Z.ltb_spec (Z.abs n) (2 ^ 256)); [|done].
  cbn [negb]. intros [= <-] Hn. rewrite Z.abs_eq in * by done. by split.
Qed.

Lemma WriteUint256_small n : 0 <= n < 2 ^ 256 -> WriteUint256 (Some n) = Ok (be_encode 32 n).
Proof.
  intros [H0 H]. unfold WriteUint256. rewrite Z.abs_eq by done. by rewrite (proj2 (Z.leb_gt _ _)).
Qed.

(** ** The three formats *)

Inductive info_format : Type := FormatBedrock | FormatEcotone | FormatIsthmus.

Section Canonical.
Context {KC : Keccak}.

Definition format_at (cfg : Config) (t : Z) : info_format :=
  if isIsthmusButNotFirstBlock cfg t then FormatIsthmus
  else if isEcotoneButNotFirstBlock cfg t then FormatEcotone else FormatBedrock.

Definition marshal_as (fmt : info_format) : L1BlockInfo -> result bytes :=
  match fmt with
  | FormatBedrock => marshalBinaryBedrock
  | FormatEcotone => marshalBinaryEcotone
  | FormatIsthmus => marshalBinaryIsthmus
  end.

Definition fee_ok (n : option Z) : Prop := exists b, n = Some b /\ 0 <= b < 2 ^ 256.

(** What every format carries. *)
Record common_ok (info : L1BlockInfo) : Prop := {
  co_Number : is_u64 (info_Number info);
  co_Time : is_u64 (info_Time info);
  co_BaseFee : fee_ok (info_BaseFee info);
  co_BlockHash : 0 <= info_BlockHash info < 2 ^ 256;
  co_SequenceNumber : is_u64 (info_SequenceNumber info);
  co_BatcherAddr : 0 <= info_BatcherAddr info < 2 ^ 160 }.

(** What only the Bedrock format carries, and what it does not. *)
Record bedrock_ok (info : L1BlockInfo) : Prop := {
  be_common : common_ok info;
  be_overhead : is_bytes (info_L1FeeOverhead info) /\ length (info_L1FeeOverhead info) = 32%nat;
  be_scalar : is_bytes (info_L1FeeScalar info) /\ length (info_L1FeeScalar info) = 32%nat;
  be_absent : info_BlobBaseFee info = None /\ info_BaseFeeScalar info = 0
              /\ info_BlobBaseFeeScalar info = 0 /\ info_OperatorFeeScalar info = 0
              /\ info_OperatorFeeConstant info = 0 }.

(** The Ecotone format and, but for the operator fee, the Isthmus format. *)
Record ecotone_ok (info : L1BlockInfo) : Prop := {
  ec_common : common_ok info;
  ec_BlobBaseFee : fee_ok (info_BlobBaseFee info);
  ec_BaseFeeScalar : is_u32 (info_BaseFeeScalar info);
  ec_BlobBaseFeeScalar : is_u32 (info_BlobBaseFeeScalar info);
  ec_absent : info_L1FeeOverhead info = replicate 32 0 /\ info_L1FeeScalar info = replicate 32 0 }.

Definition no_operator_fee (info : L1BlockInfo) : Prop :=
  info_OperatorFeeScalar info = 0 /\ info_OperatorFeeConstant info = 0.

Definition info_ok (fmt : info_format) (info : L1BlockInfo) : Prop :=
  match fmt with
  | FormatBedrock => bedrock_ok info
  | FormatEcotone => ecotone_ok info /\ no_operator_fee info
  | FormatIsthmus => ecotone_ok info /\ is_u32 (info_OperatorFeeScalar info)
                     /\ is_u64 (info_OperatorFeeConstant info)
  end.

Definition ecotone_bytes (sig : bytes) (info : L1BlockInfo) : bytes :=
  sig ++ be_encode 4 (info_BaseFeeScalar info) ++ be_encode 4 (info_BlobBaseFeeScalar info)
  ++ be_encode 8 (info_SequenceNumber info) ++ be_encode 8 (info_Time info)
  ++ be_encode 8 (info_Number info) ++ be_encode 32 (default 0 (info_BaseFee info))
  ++ be_encode 32 (default 0 (info_BlobBaseFee info)) ++ WriteHash (info_BlockHash info)
  ++ WriteAddress (info_BatcherAddr info).

Lemma marshal_ecotone_bytes sig info : ecotone_ok info ->
  marshal_ecotone_fields info sig = Ok (ecotone_bytes sig info).
Proof.
  intros [[_ _ (b & Hb & Hbr) _ _ _] (c & Hc & Hcr) _ _ _].
  unfold marshal_ecotone_fields, ecotone_bytes. rewrite Hb, Hc. cbn [default].
  by rewrite !WriteUint256_small.
Qed.

Lemma length_ecotone_bytes sig info : length sig = 4%nat ->
  length (ecotone_bytes sig info) = L1InfoEcotoneLen.
Proof.
  intros Hs. unfold ecotone_bytes, WriteHash, WriteAddress.
  by rewrite !length_app, !length_be_encode, length_replicate, Hs.
Qed.

(** A reading step of a record: one field with its codec. *)
Ltac field_inv H c :=
  let v := fresh "v" in let r := fresh "r" in let Hv := fresh "Hv" in let Hr := fresh "Hr" in
  let K := fresh "K" in
  apply (codec_inv _ _ _ _ _ _ c) in H; [|assumption];
  destruct H as (v & r & Hv & -> & Hr & K); rename K into H; cbn beta in Hv; cbn beta iota in H.

Ltac field_write w :=
  let W := fresh in pose proof w as W; cbn beta in W;
  rewrite W by (assumption || reflexivity); clear W; cbn [rbind].

Lemma codec_ecotone e sig : length sig = 4%nat ->
  codec (fun r => read_ecotone_fields e r sig) (ecotone_bytes sig)
    (fun info => ecotone_ok info /\ no_operator_fee info).
Proof.
  intros Hsig. pose proof (codec_signature sig Hsig) as Cs.
  pose proof (codec_map_err (fun _ => e) _ _ _ codec_u32) as C4.
  pose proof (codec_map_err (fun _ => e) _ _ _ codec_u64) as C8.
  constructor.
  - intros info r [[[H1 H2 (b & Hb & Hbr) H4 H5 H6] (c & Hc & Hcr) H7 H8 [H9 H10]] [H11 H12]].
    unfold read_ecotone_fields, ecotone_bytes. rewrite Hb, Hc. cbn [default].
    rewrite <- !app_assoc. field_write (codec_write _ _ _ Cs sig).
    do 2 field_write (codec_write _ _ _ C4). do 3 field_write (codec_write _ _ _ C8).
    do 2 field_write (codec_write _ _ _ codec_Uint256). field_write (codec_write _ _ _ codec_Hash).
    field_write (codec_write _ _ _ codec_Address). destruct info. by simpl in *; subst.
  - intros info r r' Hr Hd. unfold read_ecotone_fields in Hd.
    field_inv Hd Cs. do 2 field_inv Hd C4. do 3 field_inv Hd C8. do 2 field_inv Hd codec_Uint256.
    field_inv Hd codec_Hash. field_inv Hd codec_Address. injection Hd as <- <-. split.
    + split; [|done]. constructor; [constructor|..]; simpl; try done; by eexists.
    + unfold ecotone_bytes. cbn [info_BaseFee default]. rewrite <- !app_assoc. by subst.
Qed.
Definition bedrock_bytes (info : L1BlockInfo) : bytes :=
  L1InfoFuncBedrockBytes4 ++ WriteUint64 (info_Number info) ++ WriteUint64 (info_Time info)
  ++ be_encode 32 (default 0 (info_BaseFee info)) ++ WriteHash (info_BlockHash info)
  ++ WriteUint64 (info_SequenceNumber info) ++ WriteAddress (info_BatcherAddr info)
  ++ info_L1FeeOverhead info ++ info_L1FeeScalar info.

Context {KL : KeccakLaws}.

Lemma length_sig b : length (take 4 (Keccak256 b)) = 4%nat.
Proof. rewrite length_take, keccak_length. done. Qed.

Lemma EmptyReader_Ok {A} r e (x y : A) :
  (if negb (EmptyReader r) then Err e else Ok x) = Ok y <-> r = [] /\ x = y.
Proof. unfold EmptyReader. case_bool_decide; simpl; naive_solver. Qed.

Lemma length_check {A} (n m : nat) (k : result A) x :
  (if negb (n =? m)%nat then Err (Msg "data is unexpected length") else k) = Ok x
  <-> n = m /\ k = Ok x.
Proof. destruct (Nat.eqb_spec n m); simpl; naive_solver. Qed.

Lemma bedrock_canonical data info : is_bytes data ->
  unmarshalBinaryBedrock data = Ok info <-> bedrock_ok info /\ marshalBinaryBedrock info = Ok data.
Proof.
  intros Hb. pose proof (codec_signature L1InfoFuncBedrockBytes4 (length_sig _)) as Cs.
  unfold unmarshalBinaryBedrock. rewrite length_check. split.
  - intros [Hl Hd]. field_inv Hd Cs. do 2 field_inv Hd codec_Uint64. field_inv Hd codec_Uint256.
    field_inv Hd codec_Hash. field_inv Hd codec_Uint64. field_inv Hd codec_Address.
    do 2 field_inv Hd codec_Bytes32. apply EmptyReader_Ok in Hd as [-> <-]. split.
    + constructor; [constructor|..]; simpl; try done; by eexists.
    + unfold marshalBinaryBedrock. cbn [info_BaseFee]. rewrite WriteUint256_small by done.
      cbn [rbind]. subst. by rewrite app_nil_r.
  - intros [[[H1 H2 (b & Hf & Hbr) H4 H5 H6] H7 H8 (H9 & H10 & H11 & H12 & H13)] Hm].
    unfold marshalBinaryBedrock in Hm. rewrite Hf, WriteUint256_small in Hm by done.
    assert (data = bedrock_bytes info) as ->.
    { unfold bedrock_bytes. rewrite Hf. cbn [default]. symmetry. exact (Ok_inj _ _ Hm). }
    unfold bedrock_bytes. rewrite Hf. cbn [default]. split.
    { unfold WriteUint64, WriteHash, WriteAddress. rewrite !length_app, !length_be_encode, !length_replicate.
      destruct H7 as [_ ->], H8 as [_ ->]. unfold L1InfoFuncBedrockBytes4. by rewrite length_sig. }
    field_write (codec_write _ _ _ Cs L1InfoFuncBedrockBytes4).
    do 2 field_write (codec_write _ _ _ codec_Uint64). field_write (codec_write _ _ _ codec_Uint256).
    field_write (codec_write _ _ _ codec_Hash). field_write (codec_write _ _ _ codec_Uint64).
    field_write (codec_write _ _ _ codec_Address).
    field_write (codec_write _ _ _ codec_Bytes32 (info_L1FeeOverhead info)).
    rewrite <- (app_nil_r (info_L1FeeScalar info)).
    field_write (codec_write _ _ _ codec_Bytes32 (info_L1FeeScalar info)).
    apply EmptyReader_Ok. split; [done|]. destruct info. by simpl in *; subst.
Qed.

Lemma ecotone_canonical data info : is_bytes data ->
  unmarshalBinaryEcotone data = Ok info
  <-> (ecotone_ok info /\ no_operator_fee info) /\ marshalBinaryEcotone info = Ok data.
Proof.
  intros Hb. pose proof (codec_ecotone ErrInvalidFormat L1InfoFuncEcotoneBytes4 (length_sig _)) as Ce.
  unfold unmarshalBinaryEcotone, marshalBinaryEcotone. rewrite length_check. split.
  - intros [Hl Hd]. field_inv Hd Ce. apply EmptyReader_Ok in Hd as [-> <-]. split; [done|].
    rewrite app_nil_r. by apply marshal_ecotone_bytes, Hv.
  - intros [[He Hn] Hm]. rewrite marshal_ecotone_bytes in Hm by done. injection Hm as <-.
    split; [apply length_ecotone_bytes, length_sig|].
    rewrite <- (app_nil_r (ecotone_bytes _ _)), (codec_write _ _ _ Ce) by (by split).
    by apply EmptyReader_Ok.
Qed.

Lemma isthmus_canonical data info : is_bytes data ->
  unmarshalBinaryIsthmus data = Ok info
  <-> (ecotone_ok info /\ is_u32 (info_OperatorFeeScalar info)
       /\ is_u64 (info_OperatorFeeConstant info)) /\ marshalBinaryIsthmus info = Ok data.
Proof.
  intros Hb.
  pose proof (codec_ecotone ErrInvalidIsthmusFormat L1InfoFuncIsthmusBytes4 (length_sig _)) as Ce.
  pose proof (codec_map_err (fun _ => ErrInvalidIsthmusFormat) _ _ _ codec_u32) as C4.
  pose proof (codec_map_err (fun _ => ErrInvalidIsthmusFormat) _ _ _ codec_u64) as C8.
  unfold unmarshalBinaryIsthmus, unmarshalBinaryWithSignatureAndData, marshalBinaryIsthmus.
  rewrite length_check, map_err_Ok. unfold marshalBinaryWithSignature. split.
  - intros [Hl Hd]. field_inv Hd Ce. field_inv Hd C4. field_inv Hd C8.
    apply EmptyReader_Ok in Hd as [-> <-]. destruct Hv as [He Hn].
    assert (ecotone_ok (with_operator_fee v v0 v1)) as He' by (destruct He as [[]]; by constructor).
    split; [by split_and!|]. rewrite marshal_ecotone_bytes by done. cbn [rbind].
    by rewrite app_nil_r.
  - intros [(He & Hs & Hc) Hm]. rewrite marshal_ecotone_bytes in Hm by done. cbn [rbind] in Hm.
    apply Ok_inj in Hm as <-. split.
    { rewrite !length_app, length_ecotone_bytes, !length_be_encode by apply length_sig. done. }
    set (info0 := with_operator_fee info 0 0).
    assert (ecotone_ok info0 /\ no_operator_fee info0) as Hi0.
    { split; [|done]. destruct He as [[]]. by constructor. }
    change (ecotone_bytes L1InfoFuncIsthmusBytes4 info)
      with (ecotone_bytes L1InfoFuncIsthmusBytes4 info0).
    rewrite (codec_write _ _ _ Ce) by exact Hi0. cbn [rbind]. field_write (codec_write _ _ _ C4).
    rewrite <- (app_nil_r (be_encode 8 _)). field_write (codec_write _ _ _ C8).
    apply EmptyReader_Ok. split; [done|]. by destruct info.
Qed.

Lemma FromBytes_canonical cfg t data info : is_bytes data ->
  L1BlockInfoFromBytes cfg t data = Ok info
  <-> info_ok (format_at cfg t) info /\ marshal_as (format_at cfg t) info = Ok data.
Proof.
  intros Hb. unfold L1BlockInfoFromBytes, format_at.
  destruct (isIsthmusButNotFirstBlock cfg t); [by apply isthmus_canonical|].
  destruct (isEcotoneButNotFirstBlock cfg t); [by apply ecotone_canonical|].
  by apply bedrock_canonical.
Qed.

(** The L1 block info has one encoding per format, and the reader accepts
    exactly these: at every block time, [L1BlockInfoFromBytes] succeeds on the
    bytes that the writer of the format in force produces from a well-formed
    info (numbers of their width, fees and hash of 256 bits, fields of other
    formats absent), and gives that info back; it rejects all other data. *)
Theorem L1BlockInfo_canonical cfg t data info : is_bytes data ->
  L1BlockInfoFromBytes cfg t data = Ok info
  <-> info_ok (format_at cfg t) info /\ marshal_as (format_at cfg t) info = Ok data.
Proof. apply FromBytes_canonical. Qed.

(** ** What the deposit carries *)

Lemma is_bytes_sig b : is_bytes (take 4 (Keccak256 b)).
Proof. apply Forall_take, keccak_bytes. Qed.

Ltac all_bytes :=
  repeat first [assumption | apply is_bytes_be_encode | apply is_bytes_zeros | apply is_bytes_sig
               | apply Forall_app; split].

Lemma marshal_as_bytes fmt info data : info_ok fmt info -> marshal_as fmt info = Ok data ->
  is_bytes data.
Proof.
  assert (forall sig, is_bytes sig -> is_bytes (ecotone_bytes sig info)) as Hec.
  { intros sig Hs. unfold ecotone_bytes, WriteHash, WriteAddress.
    all_bytes. }
  destruct fmt; cbn [info_ok marshal_as].
  - intros [[_ _ (b & Hf & Hb) _ _ _] [Ho _] [Hs _] _]. unfold marshalBinaryBedrock.
    rewrite Hf, WriteUint256_small by done. cbn [rbind]. intros <-%Ok_inj.
    unfold WriteUint64, WriteHash, WriteAddress.
    all_bytes.
  - intros [He _]. unfold marshalBinaryEcotone. rewrite marshal_ecotone_bytes by done.
    intros <-%Ok_inj. apply Hec, is_bytes_sig.
  - intros [He _]. unfold marshalBinaryIsthmus, marshalBinaryWithSignature.
    rewrite marshal_ecotone_bytes by done. cbn [rbind map_err]. intros <-%Ok_inj.
    apply Forall_app. split; [apply Hec, is_bytes_sig|all_bytes].
Qed.

Lemma marshal_as_total fmt info : info_ok fmt info -> exists data, marshal_as fmt info = Ok data.
Proof.
  destruct fmt; cbn [info_ok marshal_as].
  - intros [[_ _ (b & Hf & Hb) _ _ _] _ _ _]. unfold marshalBinaryBedrock.
    rewrite Hf, WriteUint256_small by done. by eexists.
  - intros [He _]. unfold marshalBinaryEcotone. rewrite marshal_ecotone_bytes by done. by eexists.
  - intros [He _]. unfold marshalBinaryIsthmus, marshalBinaryWithSignature.
    rewrite marshal_ecotone_bytes by done. by eexists.
Qed.

(** With the forks in order, a block that is past the first Isthmus block is
    past the first Ecotone block. *)
Lemma isthmus_past_ecotone cfg t : Check cfg = Ok () ->
  isIsthmusButNotFirstBlock cfg t = true -> isEcotoneButNotFirstBlock cfg t = true.
Proof.
  intros Hc. assert (forall t, IsIsthmus cfg t = true -> IsEcotone cfg t = true) as Ho.
  { intros t'. exact (Check_forks_in_order cfg t' 4 8 Ecotone Isthmus Hc eq_refl eq_refl ltac:(lia)). }
  unfold isIsthmusButNotFirstBlock, isEcotoneButNotFirstBlock, IsIsthmusActivationBlock,
    IsEcotoneActivationBlock, activation_block.
  destruct (IsIsthmus cfg t) eqn:Ei; [|done]. rewrite (Ho t Ei). cbn [andb].
  destruct (BlockTime cfg <=? t); [|done]. cbn [andb]. rewrite !negb_involutive. apply Ho.
Qed.

Record block_ok (block : BlockInfo) : Prop := {
  bo_Number : is_u64 (bi_NumberU64 block);
  bo_Time : is_u64 (bi_Time block);
  bo_BaseFee : fee_ok (bi_BaseFee block);
  bo_Hash : 0 <= bi_Hash block < 2 ^ 256 }.

Lemma slice_bound lo hi l : is_bytes l ->
  0 <= be_decode (slice lo hi l) < 256 ^ Z.of_nat (hi - lo).
Proof.
  intros Hl. assert (is_bytes (slice lo hi l)) as Hs by by apply Forall_take, Forall_drop.
  apply be_decode_bound in Hs as [H0 H1]. split; [done|]. eapply Z.lt_le_trans; [exact H1|].
  apply Z.pow_le_mono_r; [done|]. unfold slice. rewrite length_take. lia.
Qed.

Lemma OperatorFee_ok sysCfg : is_bytes (sc_OperatorFeeParams sysCfg) ->
  is_u32 (Scalar (OperatorFee sysCfg)) /\ is_u64 (Constant (OperatorFee sysCfg)).
Proof. intros Hb. split; [exact (slice_bound 20 24 _ Hb)|exact (slice_bound 24 32 _ Hb)]. Qed.

(** [L1BlockInfoFromBytes] inverts [L1InfoDeposit]: with a configuration
    that passes [Check], at every block time and across the activation blocks,
    the deposit made from an L1 block is created, and reading its data back
    gives the number, time, base fee and hash of the L1 block and the sequence
    number, after Ecotone also the blob base fee and after Isthmus the
    operator fee of the system configuration; and a block whose first
    transaction is this deposit has a reference with that sequence number. *)
Theorem L1InfoDeposit_roundtrip calc cfg sysCfg seq block t :
  Check cfg = Ok () -> block_ok block -> is_u64 seq -> is_bytes (sc_OperatorFeeParams sysCfg) ->
  0 <= blob_base_fee calc cfg block < 2 ^ 256 ->
  exists dep info, L1InfoDeposit calc cfg sysCfg seq block t = Ok dep
    /\ L1BlockInfoFromBytes cfg t (dt_Data dep) = Ok info
    /\ info_Number info = bi_NumberU64 block /\ info_Time info = bi_Time block
    /\ info_BaseFee info = bi_BaseFee block /\ info_BlockHash info = bi_Hash block
    /\ info_SequenceNumber info = seq
    /\ (isEcotoneButNotFirstBlock cfg t = true ->
        info_BlobBaseFee info = Some (blob_base_fee calc cfg block))
    /\ (isIsthmusButNotFirstBlock cfg t = true ->
        info_OperatorFeeScalar info = Scalar (OperatorFee sysCfg)
        /\ info_OperatorFeeConstant info = Constant (OperatorFee sysCfg))
    /\ (forall b tx rest, b_Transactions b = tx :: rest -> bt_Type tx = DepositTxType ->
        bt_Data tx = dt_Data dep -> b_Time b = t ->
        b_NumberU64 b <> bid_Number (L2 (cfg_Genesis cfg)) ->
        exists ref, L2BlockToBlockRef cfg b = Ok ref /\ l2_SequenceNumber ref = seq).
Proof.
  intros Hc [Hn Ht Hf Hh] Hs Ho Hb. unfold L1InfoDeposit. set (info := {| info_Number := _ |}).
  assert (info_ok (format_at cfg t) info) as Hok.
  { unfold format_at. destruct (isIsthmusButNotFirstBlock cfg t) eqn:Ei.
    - pose proof (isthmus_past_ecotone cfg t Hc Ei) as Ee. subst info. rewrite Ee. cbn [andb].
      destruct (OperatorFee_ok sysCfg Ho). split; [|done]. by constructor; [constructor|..]; try done; eexists.
    - destruct (isEcotoneButNotFirstBlock cfg t) eqn:Ee; subst info; cbn [andb].
      + split; [|done]. by constructor; [constructor|..]; try done; eexists.
      + constructor; [by constructor|..]; try done; split; try done; apply is_bytes_zeros. }
  destruct (marshal_as_total _ _ Hok) as [data Hd].
  assert (L1BlockInfoFromBytes cfg t data = Ok info) as Hr.
  { apply FromBytes_canonical; [by eapply marshal_as_bytes|done]. }
  eexists _, info. split.
  { unfold format_at in Hd. destruct (isIsthmusButNotFirstBlock cfg t) eqn:Ei.
    - rewrite (isthmus_past_ecotone cfg t Hc Ei). cbn [marshal_as] in Hd. rewrite Hd. reflexivity.
    - destruct (isEcotoneButNotFirstBlock cfg t); cbn [marshal_as] in Hd; rewrite Hd; reflexivity. }
  cbn [dt_Data]. split_and!; try done.
  - intros Ee. subst info. cbn [info_BlobBaseFee]. by rewrite Ee.
  - intros Ei. subst info. cbn. by rewrite (isthmus_past_ecotone cfg t Hc Ei), Ei.
  - intros b tx rest Htx Hty Hda Hbt Hne. unfold L2BlockToBlockRef.
    rewrite (proj2 (Z.eqb_neq _ _) Hne), Htx, Hty. cbn [negb Z.eqb]. rewrite Z.eqb_refl. cbn [negb].
    rewrite Hda, Hbt, Hr. cbn [map_err rbind]. by eexists.
Qed.
End Canonical.

(** ** Witnesses *)

(** A digest that is not Keccak's but has its shape. *)
Definition ex_keccak : Keccak := fun b => be_encode 32 (be_decode b).

Lemma ex_keccak_laws : KeccakLaws (H := ex_keccak).
Proof. split; intros b; [apply length_be_encode|apply is_bytes_be_encode]. Qed.

Definition ex_l1_info : L1BlockInfo :=
  {| info_Number := 7; info_Time := 84; info_BaseFee := Some 1000000000; info_BlockHash := 77;
     info_SequenceNumber := 2; info_BatcherAddr := 9; info_L1FeeOverhead := replicate 32 0;
     info_L1FeeScalar := replicate 32 0; info_BlobBaseFee := Some 1; info_BaseFeeScalar := 5;
     info_BlobBaseFeeScalar := 6; info_OperatorFeeScalar := 0; info_OperatorFeeConstant := 0 |}.

(** Ecotone is active in the example configuration at time 1000. *)
Lemma L1BlockInfo_canonical_witness :
  exists data, marshalBinaryEcotone (KC := ex_keccak) ex_l1_info = Ok data
    /\ format_at example_config 1000 = FormatEcotone
    /\ L1BlockInfoFromBytes (KC := ex_keccak) example_config 1000 data = Ok ex_l1_info.
Proof.
  destruct (marshalBinaryEcotone (KC := ex_keccak) ex_l1_info) as [data|e|] eqn:E.
  2,3: vm_compute in E; discriminate E.
  exists data. split; [reflexivity|]. split; [reflexivity|].
  apply (L1BlockInfo_canonical (KC := ex_keccak) (KL := ex_keccak_laws) example_config 1000 data ex_l1_info).
  - apply is_bytes_check. apply Ok_inj in E as <-. vm_compute. reflexivity.
  - split; [|exact E].
    split; [|split; reflexivity].
    constructor; [constructor|..]; try (split; vm_compute; congruence);
      try (eexists; split; [reflexivity|split; vm_compute; congruence]); split; reflexivity.
Defined.

Definition ex_l1_block : BlockInfo :=
  {| bi_NumberU64 := 7; bi_Time := 84; bi_BaseFee := Some 1000000000; bi_Hash := 77;
     bi_BlobBaseFee := None; bi_ExcessBlobGas := None |}.

Lemma L1InfoDeposit_roundtrip_witness :
  exists dep info, L1InfoDeposit (KC := ex_keccak) id example_config zeroSystemConfig 2 ex_l1_block 1000 = Ok dep
    /\ L1BlockInfoFromBytes (KC := ex_keccak) example_config 1000 (dt_Data dep) = Ok info
    /\ info_SequenceNumber info = 2 /\ info_BlobBaseFee info = Some 1.
Proof.
  destruct (L1InfoDeposit_roundtrip (KC := ex_keccak) (KL := ex_keccak_laws) id example_config
    zeroSystemConfig 2 ex_l1_block 1000) as (dep & info & H1 & H2 & _ & _ & _ & _ & H3 & H4 & _).
  - reflexivity.
  - constructor; try (split; vm_compute; congruence).
    eexists; split; [reflexivity|split; vm_compute; congruence].
  - split; vm_compute; congruence.
  - apply is_bytes_check. reflexivity.
  - split; vm_compute; congruence.
  - exists dep, info. split; [exact H1|]. split; [exact H2|]. split; [exact H3|]. exact (H4 eq_refl).
Defined.
