(* ===== verification/L1Logs.v ===== *)
(** * Deposits and configuration updates in L1 logs

    Models [rhs-node/rollup/derive/deposit_log.go] and [deposits.go] (user
    deposits, from and to the log of the deposit contract) and
    [derive/system_config.go] (updates of the system configuration).  A
    [multierror] is the list of its errors, empty for nil. *)

From S2P Require Import Prelude EthTypes RollupConfig L1Info.

(** [types.Log] and [types.Receipt], the fields that are read. *)
Record Log : Type := {
  lg_Address : Z;
  lg_Topics : list Hash;
  lg_Data : bytes;
  lg_BlockHash : Hash;
  lg_Index : Z }.

Record Receipt : Type := {
  rc_Status : Z;
  rc_Logs : list Log }.

Definition ReceiptStatusSuccessful : Z := 1.

Definition critical (msg : string) : error := Leveled LevelCritical (Msg msg).

Section Logs.
Context {KC : Keccak}.

(** ** Deposit logs *)

Definition DepositEventABIHash : Hash :=
  Keccak256Hash (string_bytes "TransactionDeposited(address,address,uint256,bytes)").
Definition DepositEventVersion0 : Hash := 0.

(** The part of the transaction that the opaque data holds: recipient, mint,
    value, gas and data.  A mint of 0 is nil. *)
Definition unmarshalDepositVersion0 (to : Z) (opaqueData : bytes)
    : result (option Z * option Z * Z * Z * bytes) :=
  if (length opaqueData <? 32 + 32 + 8 + 1)%nat then Err (Msg "unexpected opaqueData length")
  else
    let mint := be_decode (slice 0 32 opaqueData) in
    let value := be_decode (slice 32 64 opaqueData) in
    let gas := be_decode (slice 64 72 opaqueData) in
    if two64 <=? gas then Err (Msg "bad gas value")
    else Ok (if bool_decide (opaqueData !! 72%nat = Some 0) then Some to else None,
             if mint =? 0 then None else Some mint, value, gas, drop 73 opaqueData).

Definition UnmarshalDepositLogEvent (ev : Log) : result DepositTx :=
  match lg_Topics ev with
  | [identity; from; to; version] =>
      let data := lg_Data ev in
      if negb (identity =? DepositEventABIHash) then Err (Msg "invalid deposit event selector")
      else if (length data <? 64)%nat then Err (Msg "incomplate opaqueData slice header")
      else if negb (length data mod 32 =? 0)%nat then
        Err (Msg "expected log data to be multiple of 32 bytes")
      else
        let from := be_decode (drop 12 (hash_bytes from)) in
        let to := be_decode (drop 12 (hash_bytes to)) in
        let opaqueContentOffset := be_decode (slice 0 32 data) in
        let opaqueContentLength := be_decode (slice 32 64 data) in
        let rest := Z.of_nat (length data) - 64 in
        if negb (opaqueContentOffset =? 32) then
          Err (Msg "invalid opaqueData slice header offset")
        else if (two64 <=? opaqueContentLength) || (rest <? opaqueContentLength)
                || (opaqueContentLength +u 32 <=? rest) then
          Err (Msg "invalid opaqueData slice header length")
        else
          let opaqueData := slice 64 (64 + Z.to_nat opaqueContentLength) data in
          if negb (version =? DepositEventVersion0) then Err (Msg "invalid deposit version")
          else
            let* fields :=
              map_err (Wrap "failed to decode deposit") (unmarshalDepositVersion0 to opaqueData) in
            let '(recipient, mint, value, gas, txData) := fields in
            Ok {| dt_SourceHash := SourceHash (UserDepositSource (lg_BlockHash ev) (lg_Index ev));
                  dt_From := from; dt_To := recipient; dt_Mint := mint; dt_Value := value;
                  dt_Gas := gas; dt_IsSystemTransaction := false; dt_Data := txData |}
  | _ => Err (Msg "expected 4 event topics")
  end.

Definition marshalDepositVersion0 (deposit : DepositTx) : result bytes :=
  let mint := default 0 (dt_Mint deposit) in
  if 2 ^ 256 <=? Z.abs mint then Err (Msg "mint value exceeds 256 bits")
  else if 2 ^ 256 <=? Z.abs (dt_Value deposit) then Err (Msg "value value exceeds 256 bits")
  else Ok (be_encode 32 (Z.abs mint) ++ be_encode 32 (Z.abs (dt_Value deposit))
           ++ be_encode 8 (dt_Gas deposit)
           ++ [match dt_To deposit with None => 1 | Some _ => 0 end] ++ dt_Data deposit).

(** [eth.AddressAsLeftPaddedHash] *)
Definition AddressAsLeftPaddedHash (addr : Z) : Hash :=
  be_decode (replicate 12 0 ++ be_encode 20 addr).

Definition MarshalDepositLogEvent (depositContractAddr : Z) (deposit : DepositTx) : result Log :=
  let* opaqueData := marshalDepositVersion0 deposit in
  let data := word 32 ++ word (u64 (Z.of_nat (length opaqueData))) ++ opaqueData in
  let data := if negb (length data mod 32 =? 0)%nat
              then data ++ replicate (32 - length data mod 32) 0 else data in
  Ok {| lg_Address := depositContractAddr;
        lg_Topics := [DepositEventABIHash; AddressAsLeftPaddedHash (dt_From deposit);
                      match dt_To deposit with
                      | Some to => AddressAsLeftPaddedHash to
                      | None => 0
                      end; DepositEventVersion0];
        lg_Data := data; lg_BlockHash := 0; lg_Index := 0 |}.

(** The loops over the receipts and their logs: the deposits found, and the
    errors of the malformed ones.  Decoding never panics. *)
Definition deposit_logs (depositContractAddr : Z) (rec : Receipt) : list Log :=
  if rc_Status rec =? ReceiptStatusSuccessful then
    List.filter (fun log => (lg_Address log =? depositContractAddr)
      && match lg_Topics log with t :: _ => t =? DepositEventABIHash | [] => false end) (rc_Logs rec)
  else [].

Definition add_deposit (acc : list DepositTx * list error) (log : Log)
    : list DepositTx * list error :=
  match UnmarshalDepositLogEvent log with
  | Ok dep => (acc.1 ++ [dep], acc.2)
  | Err err => (acc.1, acc.2 ++ [Wrap "malformatted L1 deposit log" err])
  | Panic => acc
  end.

Definition UserDeposits (receipts : list Receipt) (depositContractAddr : Z)
    : list DepositTx * list error :=
  foldl add_deposit ([], []) (mjoin (deposit_logs depositContractAddr <$> receipts)).

(** [types.NewTx(tx).MarshalBinary()] is [marshalTx]. *)
Definition encode_deposit (marshalTx : DepositTx -> result bytes)
    (acc : list bytes * list error) (tx : DepositTx) : list bytes * list error :=
  match marshalTx tx with
  | Ok opaqueTx => (acc.1 ++ [opaqueTx], acc.2)
  | _ => (acc.1, acc.2 ++ [Msg "failed to encode user tx"])
  end.

Definition DeriveDeposits (marshalTx : DepositTx -> result bytes) (receipts : list Receipt)
    (depositContractAddr : Z) : list bytes * list error :=
  let '(userDeposits, errs) := UserDeposits receipts depositContractAddr in
  foldl (encode_deposit marshalTx) ([], errs) userDeposits.

(** ** Updates of the system configuration *)

Definition ConfigUpdateEventABIHash : Hash :=
  Keccak256Hash (string_bytes "ConfigUpdate(uint256,uint8,bytes)").
Definition ConfigUpdateEventVersion0 : Hash := 0.

Definition SystemConfigUpdateBatcher : Hash := 0.
Definition SystemConfigUpdateFeeScalars : Hash := 1.
Definition SystemConfigUpdateGasLimit : Hash := 2.
Definition SystemConfigUpdateUnsafeBlockSigner : Hash := 3.
Definition SystemConfigUpdateEIP1559Params : Hash := 4.
Definition SystemConfigUpdateOperatorFeeParams : Hash := 5.

Definition with_GasLimit (s : SystemConfig) (g : Z) : SystemConfig :=
  {| GasLimit := g; EIP1559Params := EIP1559Params s;
     sc_OperatorFeeParams := sc_OperatorFeeParams s; MarshalPreHolocene := MarshalPreHolocene s |}.
Definition with_EIP1559Params (s : SystemConfig) (p : bytes) : SystemConfig :=
  {| GasLimit := GasLimit s; EIP1559Params := p;
     sc_OperatorFeeParams := sc_OperatorFeeParams s; MarshalPreHolocene := MarshalPreHolocene s |}.
Definition with_OperatorFeeParams (s : SystemConfig) (p : bytes) : SystemConfig :=
  {| GasLimit := GasLimit s; EIP1559Params := EIP1559Params s;
     sc_OperatorFeeParams := p; MarshalPreHolocene := MarshalPreHolocene s |}.

(** [if n, err := solabi.ReadUint64(reader); err != nil || n != want] *)
Definition expect_word (want : Z) (msg : string) (r : bytes) : result bytes :=
  match ReadUint64 r with
  | Ok (n, r) => if n =? want then Ok r else Err (critical msg)
  | _ => Err (critical msg)
  end.

Definition update_header (len : Z) (r : bytes) : result bytes :=
  let* r := expect_word 32 "invalid pointer field" r in
  expect_word len "invalid length field" r.

Definition at_end {A} (r : bytes) (a : A) : result A :=
  if negb (EmptyReader r) then Err (critical "too many bytes") else Ok a.

(** The new configuration; with an error the old one stays. *)
Definition update_config (sysCfg : SystemConfig) (updateType : Hash) (data : bytes)
    : result SystemConfig :=
  if updateType =? SystemConfigUpdateBatcher then
    let* r := update_header 32 data in at_end r sysCfg
  else if updateType =? SystemConfigUpdateFeeScalars then
    let* _ := update_header 64 data in Ok sysCfg
  else if updateType =? SystemConfigUpdateGasLimit then
    let* r := update_header 32 data in
    let* (gasLimit, r) := map_err (fun _ => critical "could not read gas limit") (ReadUint64 r) in
    at_end r (with_GasLimit sysCfg gasLimit)
  else if updateType =? SystemConfigUpdateEIP1559Params then
    let* r := update_header 32 data in
    let* (params, r) := map_err (fun _ => critical "could not read eip-1559 params")
                          (ReadEthBytes32 r) in
    at_end r (with_EIP1559Params sysCfg (slice 24 32 params))
  else if updateType =? SystemConfigUpdateOperatorFeeParams then
    let* r := update_header 32 data in
    let* (params, r) := map_err (fun _ => critical "could not read operator fee params")
                          (ReadEthBytes32 r) in
    at_end r (with_OperatorFeeParams sysCfg params)
  else if updateType =? SystemConfigUpdateUnsafeBlockSigner then Ok sysCfg
  else Err (Msg "unrecognized L1 sysCfg update type").

Definition ProcessSystemConfigUpdateLogEvent (sysCfg : SystemConfig) (ev : Log)
    : result SystemConfig :=
  match lg_Topics ev with
  | [identity; version; updateType] =>
      if negb (identity =? ConfigUpdateEventABIHash) then
        Err (Msg "invalid SystemConfig update event")
      else if negb (version =? ConfigUpdateEventVersion0) then
        Err (Msg "unrecognized SystemConfig update event version")
      else update_config sysCfg updateType (lg_Data ev)
  | _ => Err (Msg "expected 3 event topics")
  end.

Definition config_logs (rec : Receipt) : list Log :=
  if rc_Status rec =? ReceiptStatusSuccessful then
    List.filter (fun log =>
      match lg_Topics log with t :: _ => t =? ConfigUpdateEventABIHash | [] => false end) (rc_Logs rec)
  else [].

Definition apply_update (acc : SystemConfig * list error) (log : Log)
    : SystemConfig * list error :=
  match ProcessSystemConfigUpdateLogEvent acc.1 log with
  | Ok sysCfg => (sysCfg, acc.2)
  | Err err => (acc.1, acc.2 ++ [Wrap "malformatted L1 system sysCfg log" err])
  | Panic => acc
  end.

Definition UpdateSystemConfigWithL1Receipts (sysCfg : SystemConfig) (receipts : list Receipt)
    : SystemConfig * list error :=
  foldl apply_update (sysCfg, []) (mjoin (config_logs <$> receipts)).

(** ** Deposits come back *)

Record deposit_ok (dep : DepositTx) : Prop := {
  de_From : 0 <= dt_From dep < 2 ^ 160;
  de_To : forall to, dt_To dep = Some to -> 0 <= to < 2 ^ 160;
  de_Mint : 0 <= default 0 (dt_Mint dep) < 2 ^ 256;
  de_Value : 0 <= dt_Value dep < 2 ^ 256;
  de_Gas : is_u64 (dt_Gas dep);
  de_Data : Z.of_nat (length (dt_Data dep)) < two63 }.

Lemma be_decode_zeros n l : be_decode (replicate n 0 ++ l) = be_decode l.
Proof. induction n as [|n IH]; [done|]. simpl. rewrite IH. lia. Qed.

Lemma be_decode_word n : is_u64 n -> be_decode (word n) = n.
Proof. intros Hn. unfold word. rewrite be_decode_zeros. by apply be_decode_u64. Qed.

Lemma length_word n : length (word n) = 32%nat.
Proof. unfold word. by rewrite length_app, length_replicate, length_be_encode. Qed.

Lemma be_decode_small n z : 0 <= z < 256 ^ Z.of_nat n -> be_decode (be_encode n z) = z.
Proof. intros Hz. rewrite be_decode_encode. by apply Z.mod_small. Qed.

(** The address in a topic. *)
Lemma topic_address a : 0 <= a < 2 ^ 160 ->
  be_decode (drop 12 (hash_bytes (AddressAsLeftPaddedHash a))) = a.
Proof.
  intros Ha. unfold hash_bytes, AddressAsLeftPaddedHash. set (l := replicate 12 0 ++ be_encode 20 a).
  replace (be_encode 32 (be_decode l)) with l; [by apply (be_decode_small 20)|].
  symmetry. assert (length l = 32%nat) as Hl
    by (unfold l; by rewrite length_app, length_replicate, length_be_encode).
  rewrite <- Hl at 1. apply be_encode_decode. apply Forall_app. split; [apply is_bytes_zeros|apply is_bytes_be_encode].
Qed.

(** The padding of the log's data. *)
Lemma pad_spec (l : bytes) :
  let l' := if negb (length l mod 32 =? 0)%nat then l ++ replicate (32 - length l mod 32) 0 else l in
  exists k, l' = l ++ replicate k 0 /\ (k < 32)%nat /\ (length l' mod 32 = 0)%nat.
Proof.
  intros l'. subst l'. destruct (Nat.eqb_spec (length l mod 32) 0) as [E|E]; cbn [negb].
  - exists 0%nat. split_and!; [by rewrite app_nil_r|lia|exact E].
  - pose proof (Nat.mod_upper_bound (length l) 32 ltac:(lia)).
    exists (32 - length l mod 32)%nat. split_and!; [done|lia|].
    rewrite length_app, length_replicate.
    pose proof (Nat.div_mod (length l) 32 ltac:(lia)).
    replace (length l + (32 - length l mod 32))%nat with ((length l / 32 + 1) * 32)%nat by lia.
    apply Nat.Div0.mod_mul.
Qed.

Lemma opaque_roundtrip dep : deposit_ok dep ->
  exists o, marshalDepositVersion0 dep = Ok o
    /\ (length o = 73 + length (dt_Data dep))%nat
    /\ forall to, unmarshalDepositVersion0 to o
       = Ok (match dt_To dep with Some _ => Some to | None => None end,
             if default 0 (dt_Mint dep) =? 0 then None else dt_Mint dep,
             dt_Value dep, dt_Gas dep, dt_Data dep).
Proof.
  intros [_ _ Hm Hv Hg _]. unfold marshalDepositVersion0.
  rewrite !Z.abs_eq by lia. rewrite !(proj2 (Z.leb_gt _ _)) by lia.
  set (b := [match dt_To dep with None => 1 | Some _ => 0 end]).
  eexists. split; [reflexivity|]. split.
  { rewrite !length_app, !length_be_encode. done. }
  intros to. set (m := default 0 (dt_Mint dep)) in *. unfold unmarshalDepositVersion0.
  set (o := be_encode 32 m ++ _).
  assert (slice 0 32 o = be_encode 32 m) as ->.
  { apply (slice_app_mid []); [done|]. by rewrite length_be_encode. }
  assert (slice 32 64 o = be_encode 32 (dt_Value dep)) as ->.
  { apply slice_app_mid; by rewrite length_be_encode. }
  assert (slice 64 72 o = be_encode 8 (dt_Gas dep)) as ->.
  { unfold o. rewrite (app_assoc (be_encode 32 m)). apply slice_app_mid; [|by rewrite length_be_encode].
    by rewrite length_app, !length_be_encode. }
  assert (o = (be_encode 32 m ++ be_encode 32 (dt_Value dep) ++ be_encode 8 (dt_Gas dep))
              ++ b ++ dt_Data dep) as Eo by (unfold o; by rewrite <- !app_assoc).
  assert (length (be_encode 32 m ++ be_encode 32 (dt_Value dep) ++ be_encode 8 (dt_Gas dep)) = 72%nat)
    as El by by rewrite !length_app, !length_be_encode.
  assert (o !! 72%nat = head b) as -> by (rewrite Eo, lookup_app_r by lia; by rewrite El).
  assert (drop 73 o = dt_Data dep) as ->.
  { rewrite Eo. rewrite drop_app_ge by lia. by rewrite El. }
  rewrite (proj2 (Nat.ltb_ge _ _)) by (rewrite Eo, length_app, El; simpl; lia).
  rewrite !(be_decode_small 32) by done. rewrite be_decode_u64 by done.
  rewrite (proj2 (Z.leb_gt _ _)) by apply Hg. subst b m.
  destruct (dt_To dep); cbn [head]; [rewrite bool_decide_eq_true_2 by done|rewrite bool_decide_eq_false_2 by done];
    destruct (dt_Mint dep) as [m|]; cbn [default]; try done; by destruct (m =? 0).
Qed.
(** The log as it is found in a block. *)
Definition placed (log : Log) (blockHash : Hash) (index : Z) : Log :=
  {| lg_Address := lg_Address log; lg_Topics := lg_Topics log; lg_Data := lg_Data log;
     lg_BlockHash := blockHash; lg_Index := index |}.

Lemma deposit_log_correct addr dep bh idx : deposit_ok dep ->
  exists log, MarshalDepositLogEvent addr dep = Ok log
    /\ UnmarshalDepositLogEvent (placed log bh idx)
       = Ok {| dt_SourceHash := SourceHash (UserDepositSource bh idx); dt_From := dt_From dep;
               dt_To := dt_To dep;
               dt_Mint := if default 0 (dt_Mint dep) =? 0 then None else dt_Mint dep;
               dt_Value := dt_Value dep; dt_Gas := dt_Gas dep; dt_IsSystemTransaction := false;
               dt_Data := dt_Data dep |}.
Proof.
  intros Hd. unfold MarshalDepositLogEvent.
  destruct (opaque_roundtrip dep Hd) as (o & -> & Hlen & Ho). cbn [rbind].
  assert (is_u64 (Z.of_nat (length o))) as Hu.
  { pose proof (de_Data _ Hd). unfold is_u64, two63, two64 in *. lia. }
  rewrite (u64_small _ Hu). set (h := word 32 ++ word (Z.of_nat (length o)) ++ o).
  destruct (pad_spec h) as (k & Hp & Hk & Hmod). cbv zeta in Hp, Hmod. rewrite Hp in Hmod |- *.
  eexists. split; [reflexivity|]. unfold UnmarshalDepositLogEvent, placed.
  cbn [lg_Topics lg_Data lg_BlockHash lg_Index].
  assert (length h = 64 + length o)%nat as Hh by (unfold h; by rewrite !length_app, !length_word).
  set (data := h ++ replicate k 0) in *.
  assert (length data = 64 + length o + k)%nat as Hl
    by (unfold data; rewrite length_app, length_replicate; lia).
  assert (slice 0 32 data = word 32) as ->.
  { unfold data, h. rewrite <- !app_assoc. apply (slice_app_mid []); [done|apply length_word]. }
  assert (slice 32 64 data = word (Z.of_nat (length o))) as ->.
  { unfold data, h. rewrite <- !app_assoc. apply slice_app_mid; apply length_word. }
  rewrite !be_decode_word by (done || (unfold is_u64, two64; lia)). rewrite Nat2Z.id.
  assert (slice 64 (64 + length o) data = o) as ->.
  { unfold data, h. rewrite (app_assoc (word 32)), <- !app_assoc, (app_assoc (word 32)).
    apply slice_app_mid; [by rewrite length_app, !length_word|lia]. }
  rewrite Z.eqb_refl. cbn [negb]. rewrite (proj2 (Nat.ltb_ge _ _)) by lia.
  rewrite (proj2 (Nat.eqb_eq _ _) Hmod). cbn [negb Z.eqb Pos.eqb].
  rewrite (proj2 (Z.leb_gt _ _)) by apply Hu. rewrite (proj2 (Z.ltb_ge _ _)) by lia.
  assert (is_u64 (Z.of_nat (length o) + 32)) as Hu'.
  { pose proof (de_Data _ Hd). unfold is_u64, two63, two64 in *. lia. }
  rewrite (u64_small _ Hu'), (proj2 (Z.leb_gt _ _)) by lia.
  cbn [orb]. unfold DepositEventVersion0. cbn [Z.eqb negb]. rewrite Ho. cbn [map_err rbind].
  rewrite (topic_address _ (de_From _ Hd)).
  destruct (dt_To dep) as [to|] eqn:Et; [|done]. by rewrite (topic_address to (de_To _ Hd to Et)).
Qed.

(** The deposit that is read from the log of [dep] at a place. *)
Definition found (p : DepositTx * Hash * Z) : DepositTx :=
  let '(dep, bh, idx) := p in
  {| dt_SourceHash := SourceHash (UserDepositSource bh idx); dt_From := dt_From dep;
     dt_To := dt_To dep;
     dt_Mint := if default 0 (dt_Mint dep) =? 0 then None else dt_Mint dep;
     dt_Value := dt_Value dep; dt_Gas := dt_Gas dep; dt_IsSystemTransaction := false;
     dt_Data := dt_Data dep |}.

(** Deposits come back from their logs: [MarshalDepositLogEvent] succeeds on
    every deposit whose fields fit their width, and when these logs, wherever
    they are placed, are the deposit logs of a block's receipts, [UserDeposits]
    finds exactly the deposits, in order and without an error: sender,
    recipient or contract creation, value, gas and data are as sent, a mint of
    0 is nil, and the source hash is that of the log's block and index. *)
Theorem deposit_log_roundtrip addr (deps : list (DepositTx * Hash * Z)) :
  Forall (fun p => deposit_ok p.1.1) deps ->
  exists logs, Forall2 (fun p log => exists l, MarshalDepositLogEvent addr p.1.1 = Ok l
      /\ log = placed l p.1.2 p.2) deps logs
    /\ forall receipts, mjoin (deposit_logs addr <$> receipts) = logs ->
         UserDeposits receipts addr = (found <$> deps, []).
Proof.
  intros Hd. assert (exists logs, Forall2 (fun p log => exists l, MarshalDepositLogEvent addr p.1.1 = Ok l
      /\ log = placed l p.1.2 p.2) deps logs
    /\ forall acc errs, foldl add_deposit (acc, errs) logs = (acc ++ (found <$> deps), errs)) as (logs & H1 & H2).
  { induction Hd as [|[[dep bh] idx] deps Hdep Hd (logs & H1 & H2)].
    { exists []. split; [constructor|]. intros. by rewrite app_nil_r. }
    destruct (deposit_log_correct addr dep bh idx Hdep) as (l & Hm & Hu).
    exists (placed l bh idx :: logs). split; [constructor; [by exists l|done]|].
    intros acc errs. cbn [foldl]. unfold add_deposit at 2. rewrite Hu. cbn [fst snd].
    rewrite H2. by rewrite <- app_assoc. }
  exists logs. split; [done|]. intros receipts Hr. unfold UserDeposits. by rewrite Hr, H2.
Qed.

(** ** Configuration updates *)

Lemma expect_word_Ok want msg r r' : is_u64 want -> is_bytes r ->
  expect_word want msg r = Ok r' <-> r = WriteUint64 want ++ r'.
Proof.
  intros Hw Hr. unfold expect_word. split.
  - destruct (ReadUint64 r) as [[n r1]|e|] eqn:E; [|done|done].
    destruct (codec_read _ _ _ codec_Uint64 _ _ _ Hr E) as [_ ->].
    destruct (Z.eqb_spec n want) as [->|]; [|done]. by intros ->%Ok_inj.
  - intros ->. rewrite (codec_write _ _ _ codec_Uint64) by done. by rewrite Z.eqb_refl.
Qed.

Lemma update_header_Ok len r r' : is_u64 len -> is_bytes r ->
  update_header len r = Ok r' <-> r = WriteUint64 32 ++ WriteUint64 len ++ r'.
Proof.
  intros Hl Hr. unfold update_header.
  assert (is_u64 32) as H32 by (unfold is_u64, two64; lia). split.
  - intros (r1 & H1 & H2)%rbind_Ok. apply expect_word_Ok in H1 as ->; [|done|done].
    apply Forall_app in Hr as [_ Hr]. apply expect_word_Ok in H2 as ->; done.
  - intros ->. assert (is_bytes (WriteUint64 len ++ r')) as Hr' by by apply Forall_app in Hr as [_ Hr].
    assert (expect_word 32 "invalid pointer field" (WriteUint64 32 ++ WriteUint64 len ++ r')
            = Ok (WriteUint64 len ++ r')) as -> by by apply expect_word_Ok.
    cbn [rbind]. by apply expect_word_Ok.
Qed.

Lemma at_end_Ok {A} r (a b : A) : at_end r a = Ok b <-> r = [] /\ a = b.
Proof. unfold at_end, EmptyReader. case_bool_decide; simpl; naive_solver. Qed.

Definition header (len : Z) : bytes := WriteUint64 32 ++ WriteUint64 len.

(** The updates that are accepted, and what they change. *)
Inductive config_update (s : SystemConfig) (data : bytes) : Hash -> SystemConfig -> Prop :=
  | cu_gas_limit g : is_u64 g -> data = header 32 ++ WriteUint64 g ->
      config_update s data SystemConfigUpdateGasLimit (with_GasLimit s g)
  | cu_eip1559 p : length p = 32%nat -> data = header 32 ++ p ->
      config_update s data SystemConfigUpdateEIP1559Params (with_EIP1559Params s (slice 24 32 p))
  | cu_operator_fee p : length p = 32%nat -> data = header 32 ++ p ->
      config_update s data SystemConfigUpdateOperatorFeeParams (with_OperatorFeeParams s p)
  | cu_signer : config_update s data SystemConfigUpdateUnsafeBlockSigner s
  | cu_batcher : data = header 32 -> config_update s data SystemConfigUpdateBatcher s
  | cu_scalars rest : data = header 64 ++ rest ->
      config_update s data SystemConfigUpdateFeeScalars s.

Lemma ReadEthBytes32_Ok r p r' :
  ReadEthBytes32 r = Ok (p, r') <-> length p = 32%nat /\ r = p ++ r'.
Proof.
  unfold ReadEthBytes32. split.
  - intros [-> ?]%ReadFull_Ok. done.
  - intros [Hp ->]. by apply ReadFull_app.
Qed.

Lemma update_config_sound s ty data s' : is_bytes data -> update_config s ty data = Ok s' ->
  config_update s data ty s'.
Proof.
  intros Hb. assert (is_u64 32 /\ is_u64 64) as [H32 H64] by (unfold is_u64, two64; lia).
  unfold update_config.
  destruct (Z.eqb_spec ty SystemConfigUpdateBatcher) as [->|_].
  { intros (r & Hh & [-> <-]%at_end_Ok)%rbind_Ok. apply update_header_Ok in Hh; [|done|done].
    constructor. by rewrite Hh, app_nil_r. }
  destruct (Z.eqb_spec ty SystemConfigUpdateFeeScalars) as [->|_].
  { intros (r & Hh & <-%Ok_inj)%rbind_Ok. apply update_header_Ok in Hh; [|done|done].
    apply (cu_scalars _ _ r). unfold header. by rewrite Hh, <- app_assoc. }
  destruct (Z.eqb_spec ty SystemConfigUpdateGasLimit) as [->|_].
  { intros (r & Hh & Hd)%rbind_Ok. apply update_header_Ok in Hh; [|done|done]. subst data.
    apply Forall_app in Hb as [_ [_ Hb]%Forall_app].
    apply rbind_Ok in Hd as ([g r'] & Hg%map_err_Ok & [-> <-]%at_end_Ok).
    destruct (codec_read _ _ _ codec_Uint64 _ _ _ Hb Hg) as [Hu ->].
    constructor; [done|]. unfold header. by rewrite app_nil_r, <- app_assoc. }
  destruct (Z.eqb_spec ty SystemConfigUpdateEIP1559Params) as [->|_];
    [|destruct (Z.eqb_spec ty SystemConfigUpdateOperatorFeeParams) as [->|_]].
  1,2: intros (r & Hh & Hd)%rbind_Ok; apply update_header_Ok in Hh; [|done|done]; subst data;
    apply rbind_Ok in Hd as ([p r'] & [Hp ->]%map_err_Ok%ReadEthBytes32_Ok & [-> <-]%at_end_Ok);
    constructor; [done|]; unfold header; by rewrite app_nil_r, <- app_assoc.
  destruct (Z.eqb_spec ty SystemConfigUpdateUnsafeBlockSigner) as [->|_]; [|done].
  intros <-%Ok_inj. constructor.
Qed.

Lemma update_config_complete s ty data s' : is_bytes data -> config_update s data ty s' ->
  update_config s ty data = Ok s'.
Proof.
  intros Hb. assert (is_u64 32 /\ is_u64 64) as [H32 H64] by (unfold is_u64, two64; lia).
  assert (forall len r, is_u64 len -> data = header len ++ r -> update_header len data = Ok r) as Hh.
  { intros len r Hl Hd. apply update_header_Ok; [done|done|]. rewrite Hd. unfold header. by rewrite <- app_assoc. }
  destruct 1 as [g Hg Hd|p Hp Hd|p Hp Hd| |Hd|rest Hd]; unfold update_config; cbn -[update_header at_end].
  - rewrite (Hh _ _ H32 Hd). cbn [rbind]. rewrite <- (app_nil_r (WriteUint64 g)).
    rewrite (codec_write _ _ _ codec_Uint64) by done. cbn [map_err rbind]. by apply at_end_Ok.
  - rewrite (Hh _ _ H32 Hd). cbn [rbind].
    rewrite (proj2 (ReadEthBytes32_Ok p p [])) by (by rewrite app_nil_r). cbn [map_err rbind].
    by apply at_end_Ok.
  - rewrite (Hh _ _ H32 Hd). cbn [rbind].
    rewrite (proj2 (ReadEthBytes32_Ok p p [])) by (by rewrite app_nil_r). cbn [map_err rbind].
    by apply at_end_Ok.
  - done.
  - rewrite (Hh _ [] H32) by (by rewrite app_nil_r). cbn [rbind]. by apply at_end_Ok.
  - by rewrite (Hh _ _ H64 Hd).
Qed.

(** A log of the system configuration is accepted exactly when it has the
    event's identity, version 0 and the data of one of six updates, and then
    changes exactly what [config_update] says: the gas limit, the EIP-1559
    parameters or the operator fee are set; an update of the signer and of the
    fee scalars changes nothing; an update of the batcher is accepted only
    without the batcher's address. *)
Theorem system_config_update_spec s ev s' : is_bytes (lg_Data ev) ->
  ProcessSystemConfigUpdateLogEvent s ev = Ok s'
  <-> exists ty, lg_Topics ev = [ConfigUpdateEventABIHash; ConfigUpdateEventVersion0; ty]
      /\ config_update s (lg_Data ev) ty s'.
Proof.
  intros Hb. unfold ProcessSystemConfigUpdateLogEvent. split.
  - destruct (lg_Topics ev) as [|i [|v [|ty [|]]]]; try done.
    destruct (Z.eqb_spec i ConfigUpdateEventABIHash) as [->|]; [|done].
    destruct (Z.eqb_spec v ConfigUpdateEventVersion0) as [->|]; [|done]. cbn [negb].
    intros Hu. exists ty. split; [done|]. by apply update_config_sound.
  - intros (ty & -> & Hu). rewrite !Z.eqb_refl. cbn [negb]. by apply update_config_complete.
Qed.
End Logs.

(** ** Witnesses *)

(** A contract creation that mints. *)
Definition ex_deposit : DepositTx :=
  {| dt_SourceHash := 0; dt_From := 0xabc; dt_To := None; dt_Mint := Some 5; dt_Value := 3;
     dt_Gas := 21000; dt_IsSystemTransaction := false; dt_Data := [1; 2; 3] |}.

Definition ex_deposit_log : list Log :=
  match MarshalDepositLogEvent (KC := ex_keccak) 16 ex_deposit with
  | Ok l => [placed l 77 4]
  | _ => []
  end.

(** The log in a successful receipt; the log of a failed one is not read. *)
Lemma deposit_log_roundtrip_witness :
  UserDeposits (KC := ex_keccak) [{| rc_Status := 1; rc_Logs := ex_deposit_log |};
                                  {| rc_Status := 0; rc_Logs := ex_deposit_log |}] 16
  = ([found (KC := ex_keccak) (ex_deposit, 77, 4)], []).
Proof.
  destruct (deposit_log_roundtrip (KC := ex_keccak) 16 [(ex_deposit, 77, 4)]) as (logs & Hl & Hu).
  - constructor; [|constructor]. constructor.
    2: intros to; discriminate.
    5: vm_compute; reflexivity.
    all: split; [apply Zle_bool_imp_le|apply Zlt_is_lt_bool]; vm_compute; reflexivity.
  - rewrite Hu; [reflexivity|].
    inversion Hl as [|p log ps logs' (l & Hm & ->) Hn]. subst p ps logs. inversion Hn. subst logs'.
    transitivity ex_deposit_log; [vm_compute; reflexivity|].
    unfold ex_deposit_log. change (MarshalDepositLogEvent (KC := ex_keccak) 16 ex_deposit = Ok l) in Hm.
    rewrite Hm. reflexivity.
Defined.

Definition ex_gas_update : Log :=
  {| lg_Address := 0;
     lg_Topics := [ConfigUpdateEventABIHash (KC := ex_keccak); ConfigUpdateEventVersion0;
                   SystemConfigUpdateGasLimit];
     lg_Data := header 32 ++ WriteUint64 30000000; lg_BlockHash := 77; lg_Index := 0 |}.

Lemma system_config_update_spec_witness :
  ProcessSystemConfigUpdateLogEvent (KC := ex_keccak) zeroSystemConfig ex_gas_update
  = Ok (with_GasLimit zeroSystemConfig 30000000).
Proof.
  apply (system_config_update_spec (KC := ex_keccak)).
  - apply is_bytes_check. reflexivity.
  - exists SystemConfigUpdateGasLimit. split; [reflexivity|]. constructor; [|reflexivity].
    split; vm_compute; congruence.
Defined.
