(* ===== verification/ChannelOut.v ===== *)
(** * Writing channels

    [derive/channel_out.go], [derive/span_channel_out.go],
    [derive/channel_compressor.go] and [derive/types.go].  The zlib and brotli
    streams and the RLP of byte strings belong to libraries: [Compression],
    [Decompression] and [RLPBytes] are their interfaces.  A compression writer appends to the
    buffer it was made on; the interface returns what it appends.  A
    [bytes.Buffer] is the list of its unread bytes. *)

From S2P Require Import Prelude EthTypes RollupConfig Frames L1Info SpanBatch.

Definition ErrMaxFrameSizeTooSmall : error := Msg "maxSize is too small to fit the fixed frame overhead".
Definition ErrNotDepositTx : error := Msg "first transaction in block is not a deposit tx".
Definition ErrTooManyRLPBytes : error := Msg "batch would cause RLP bytes to go over limit".
Definition ErrChannelOutAlreadyClosed : error := Msg "channel-out already closed".
Definition ErrCompressorFull : error := Msg "compressor is full".

Definition FrameV0OverHeadSize : Z := 23.

(** ** Compression algorithms *)

Definition CompressionAlgo : Type := string.
Definition Zlib : CompressionAlgo := "zlib".
Definition Brotli : CompressionAlgo := "brotli".
Definition Brotli9 : CompressionAlgo := "brotli-9".
Definition Brotli10 : CompressionAlgo := "brotli-10".
Definition Brotli11 : CompressionAlgo := "brotli-11".
Definition CompressionAlgos : list CompressionAlgo := [Zlib; Brotli; Brotli9; Brotli10; Brotli11].

(** The strings that match [^brotli(|-(9|10|11))$]. *)
Definition IsBrotli (algo : CompressionAlgo) : bool := bool_decide (algo ∈ [Brotli; Brotli9; Brotli10; Brotli11]).

Definition GetBrotliLevel (algo : CompressionAlgo) : result Z :=
  if bool_decide (algo = Brotli9) then Ok 9
  else if bool_decide (algo = Brotli10) || bool_decide (algo = Brotli) then Ok 10
  else if bool_decide (algo = Brotli11) then Ok 11
  else Panic.

Definition ValidCompressionAlgo (value : CompressionAlgo) : bool :=
  existsb (fun k => bool_decide (k = value)) CompressionAlgos.

(** [Set]; the flag keeps its value when the new one is refused. *)
Definition algo_Set (algo value : CompressionAlgo) : CompressionAlgo * result unit :=
  if negb (ValidCompressionAlgo value) then (algo, Err (Msg "unknown compression algo type"))
  else (value, Ok tt).

(** ** Libraries *)

(** What can be read from a reader over fixed data: bytes, then an error,
    which is [EOF] for a stream that ends well. *)
Record Stream : Type := { rd_data : bytes; rd_end : error }.

Class Compression (CW : Type) := {
  zlib_NewWriter : result CW;
  brotli_NewWriter : Z -> CW;
  cw_Write : CW -> bytes -> CW * bytes * result unit;
  cw_Flush : CW -> CW * bytes * result unit;
  cw_Close : CW -> CW * bytes * result unit;
  cw_Reset : CW -> CW }.

Class Decompression := {
  zlib_NewReader : bytes -> result Stream;
  brotli_NewReader : bytes -> Stream }.

(** [rlp.Encode] of a byte string, and [Stream.Bytes] of [rlp.NewStream] with
    the number of bytes that may still be read. *)
Class RLPBytes := {
  rlp_EncodeBytes : bytes -> bytes;
  rlp_Bytes : Stream -> Z -> result (bytes * Stream * Z) }.

(** ** Channel compressors *)

Definition ChannelVersionBrotli : Z := 1.

(** [ZlibCompressor] and [BrotliCompressor] on their shared base. *)
Record ChannelCompressor (CW : Type) : Type := {
  cc_brotli : bool;
  compressed : bytes;
  cc_writer : CW }.
Arguments cc_brotli {CW} _.
Arguments compressed {CW} _.
Arguments cc_writer {CW} _.

Section compressor.
Context {CW : Type} `{!Compression CW}.
Implicit Types bcc : ChannelCompressor CW.

Definition cc_Len bcc : Z := lenZ (compressed bcc).

Definition cc_with bcc (x : CW * bytes * result unit) : ChannelCompressor CW * result unit :=
  let '(w, out, r) := x in
  ({| cc_brotli := cc_brotli bcc; compressed := compressed bcc ++ out; cc_writer := w |}, r).

Definition cc_Write bcc (p : bytes) : ChannelCompressor CW * result unit := cc_with bcc (cw_Write (cc_writer bcc) p).
Definition cc_Flush bcc : ChannelCompressor CW * result unit := cc_with bcc (cw_Flush (cc_writer bcc)).
Definition cc_Close bcc : ChannelCompressor CW * result unit := cc_with bcc (cw_Close (cc_writer bcc)).

Definition cc_Reset bcc : ChannelCompressor CW :=
  {| cc_brotli := cc_brotli bcc; compressed := if cc_brotli bcc then [ChannelVersionBrotli] else [];
     cc_writer := cw_Reset (cc_writer bcc) |}.

(** [io.ReadFull] of the compressed bytes; a short buffer is emptied. *)
Definition cc_ReadFull bcc (n : nat) : ChannelCompressor CW * result bytes :=
  let set b := {| cc_brotli := cc_brotli bcc; compressed := b; cc_writer := cc_writer bcc |} in
  match ReadFull n (compressed bcc) with
  | Ok (data, rest) => (set rest, Ok data)
  | Err e => (set [], Err e)
  | Panic => (bcc, Panic)
  end.

Definition NewChannelCompressor (algo : CompressionAlgo) : result (ChannelCompressor CW) :=
  if bool_decide (algo = Zlib) then
    let* writer := zlib_NewWriter in Ok {| cc_brotli := false; compressed := []; cc_writer := writer |}
  else if IsBrotli algo then
    let* level := GetBrotliLevel algo in
    Ok {| cc_brotli := true; compressed := [ChannelVersionBrotli]; cc_writer := brotli_NewWriter level |}
  else Err (Msg "unsupported compression algorithm").
End compressor.

(** ** Frames and blocks *)

Definition createEmptyFrame (id : ChannelID) (frame readyBytes : Z) (closed : bool) (maxSize : Z) : Frame :=
  let maxDataSize := maxSize -u FrameV0OverHeadSize in
  let '(size, isLast) := if readyBytes <=? maxDataSize then (readyBytes, closed) else (maxDataSize, false) in
  {| ID := id; FrameNumber := u16 frame; Data := replicate (Z.to_nat size) 0; IsLast := isLast |}.

(** The frame with its data buffer filled. *)
Definition fill (f : Frame) (data : bytes) : Frame :=
  {| ID := ID f; FrameNumber := FrameNumber f; Data := data; IsLast := IsLast f |}.

Fixpoint opaque_txs (txs : list BlockTx) : result (list bytes) :=
  match txs with
  | [] => Ok []
  | tx :: txs' =>
      if bt_Type tx =? DepositTxType then opaque_txs txs'
      else
        let* otx := map_err (Wrap "could not encode tx in block") (bt_MarshalBinary tx) in
        let* rest := opaque_txs txs' in
        Ok (otx :: rest)
  end.

Definition BlockToSingularBatch `{!Keccak} (rollupCfg : Config) (block : Block) : result (SingularBatch * L1BlockInfo) :=
  match b_Transactions block with
  | [] => Err (Msg "block has no transactions")
  | l1InfoTx :: _ =>
      let* opaqueTxs := opaque_txs (b_Transactions block) in
      if negb (bt_Type l1InfoTx =? DepositTxType) then Err ErrNotDepositTx
      else
        let* l1Info := map_err (Wrap "could not parse the L1 Info deposit")
                         (L1BlockInfoFromBytes rollupCfg (b_Time block) (bt_Data l1InfoTx)) in
        Ok ({| sb_ParentHash := b_ParentHash block; sb_EpochNum := info_Number l1Info;
               sb_EpochHash := info_BlockHash l1Info; sb_Timestamp := b_Time block;
               sb_Transactions := opaqueTxs |}, l1Info)
  end.

(** [ForceCloseTxData].  The numbers seen, the first closing number and
    whether there was one; a frame of another channel ends the scan. *)
Fixpoint close_scan (id : ChannelID) (frames : list Frame) (numbers : gset Z) (closeNumber : Z) (closed : bool)
  : result (gset Z * Z * bool) :=
  match frames with
  | [] => Ok (numbers, closeNumber, closed)
  | frame :: frames' =>
      let closeNumber := if negb closed && IsLast frame then FrameNumber frame else closeNumber in
      let closed := closed || IsLast frame in
      let numbers := {[FrameNumber frame]} ∪ numbers in
      if negb (bool_decide (ID frame = id)) then Err (Msg "invalid ID in list")
      else close_scan id frames' numbers closeNumber closed
  end.

(** The loop over the missing numbers; the counter is a [uint16]. *)
Fixpoint close_loop (fuel : nat) (id : ChannelID) (numbers : gset Z) (closeNumber i : Z) (out : bytes) : option bytes :=
  match fuel with
  | O => None
  | S fuel =>
      if closeNumber <? i then Some out
      else
        let f := {| ID := id; FrameNumber := i; Data := []; IsLast := false |} in
        close_loop fuel id numbers closeNumber (u16 (i + 1))
          (if decide (i ∈ numbers) then out else out ++ MarshalBinary f)
  end.

(** [None]: the loop does not end within [fuel] rounds. *)
Definition ForceCloseTxData (fuel : nat) (frames : list Frame) : option (result bytes) :=
  match frames with
  | [] => Some (Err (Msg "must provide at least one frame"))
  | first :: _ =>
      let id := ID first in
      match close_scan id frames ∅ 0 false with
      | Err e => Some (Err e)
      | Panic => Some Panic
      | Ok (numbers, closeNumber, closed) =>
          let out := [DerivationVersion0] in
          if negb closed then
            Some (Ok (out ++ MarshalBinary {| ID := id; FrameNumber := 0; Data := []; IsLast := true |}))
          else Ok <$> close_loop fuel id numbers closeNumber 0 out
      end
  end.

(** ** Singular channels *)

(** [Compressor]; [cp_ReadFull] is [io.ReadFull] on it. *)
Class Compressor (C : Type) := {
  cp_Write : C -> bytes -> C * result unit;
  cp_Close : C -> C * result unit;
  cp_ReadFull : C -> nat -> C * result bytes;
  cp_Reset : C -> C;
  cp_Len : C -> Z;
  cp_Flush : C -> C * result unit;
  cp_FullErr : C -> option error }.

Record SingularChannelOut (C : Type) : Type := {
  so_id : ChannelID;
  so_frame : Z;
  so_rlpLength : Z;
  so_compress : C;
  so_closed : bool;
  so_chainSpec : ChainSpec }.
Arguments so_id {C} _.
Arguments so_frame {C} _.
Arguments so_rlpLength {C} _.
Arguments so_compress {C} _.
Arguments so_closed {C} _.
Arguments so_chainSpec {C} _.

Section singular.
Context {T : Type} `{!SpanBatchTxs T} `{!SingularRLP} `{!RLPBytes} `{!Keccak} {C : Type} `{!Compressor C}.
Implicit Types co : SingularChannelOut C.

Definition so_with co (frame rlpLength : Z) (compress : C) (closed : bool) : SingularChannelOut C :=
  {| so_id := so_id co; so_frame := frame; so_rlpLength := rlpLength; so_compress := compress; so_closed := closed;
     so_chainSpec := so_chainSpec co |}.

(** [rnd] is what [rand.Read] answers. *)
Definition NewSingularChannelOut (compress : C) (chainSpec : ChainSpec) (rnd : result ChannelID) : result (SingularChannelOut C) :=
  let* id := rnd in
  Ok {| so_id := id; so_frame := 0; so_rlpLength := 0; so_compress := compress; so_closed := false; so_chainSpec := chainSpec |}.

Definition so_Reset co (rnd : result ChannelID) : SingularChannelOut C * result unit :=
  let set id := {| so_id := id; so_frame := 0; so_rlpLength := 0; so_compress := cp_Reset (so_compress co); so_closed := false;
                   so_chainSpec := so_chainSpec co |} in
  match rnd with
  | Ok id => (set id, Ok tt)
  | Err e => (set (so_id co), Err e)
  | Panic => (set (so_id co), Panic)
  end.

Definition so_addSingularBatch co (batch : SingularBatch) : SingularChannelOut C * result unit :=
  if so_closed co then (co, Err ErrChannelOutAlreadyClosed)
  else
    match encodeTyped (T := T) (InnerSingular batch) with
    | Err e => (co, Err e)
    | Panic => (co, Panic)
    | Ok typed =>
        let buf := rlp_EncodeBytes typed in
        if MaxRLPBytesPerChannel (so_chainSpec co) (sb_Timestamp batch) <? so_rlpLength co + lenZ buf then
          (co, Err (Wrap "could not add bytes to channel" ErrTooManyRLPBytes))
        else
          let '(c, r) := cp_Write (so_compress co) buf in
          (so_with co (so_frame co) (so_rlpLength co + lenZ buf) c false, r)
    end.

Definition so_AddBlock co (rollupCfg : Config) (block : Block) : SingularChannelOut C * result L1BlockInfo :=
  if so_closed co then (co, Err ErrChannelOutAlreadyClosed)
  else
    match map_err (Wrap "converting block to batch") (BlockToSingularBatch rollupCfg block) with
    | Err e => (co, Err e)
    | Panic => (co, Panic)
    | Ok (batch, l1Info) => let '(co, r) := so_addSingularBatch co batch in (co, let* _ := r in Ok l1Info)
    end.

Definition so_InputBytes co : Z := so_rlpLength co.
Definition so_ReadyBytes co : Z := cp_Len (so_compress co).

Definition so_Flush co : SingularChannelOut C * result unit :=
  let '(c, r) := cp_Flush (so_compress co) in (so_with co (so_frame co) (so_rlpLength co) c (so_closed co), r).

Definition so_FullErr co : option error := cp_FullErr (so_compress co).

Definition so_Close co : SingularChannelOut C * result unit :=
  if so_closed co then (co, Err ErrChannelOutAlreadyClosed)
  else let '(c, r) := cp_Close (so_compress co) in (so_with co (so_frame co) (so_rlpLength co) c true, r).

(** The bytes written, the frame number, and whether the frame is the last,
    which the source reports as [io.EOF]. *)
Definition so_OutputFrame co (maxSize : Z) : SingularChannelOut C * result (bytes * Z * bool) :=
  if maxSize <? FrameV0OverHeadSize then (co, Err ErrMaxFrameSizeTooSmall)
  else
    let f := createEmptyFrame (so_id co) (so_frame co) (so_ReadyBytes co) (so_closed co) maxSize in
    match cp_ReadFull (so_compress co) (length (Data f)) with
    | (c, Ok data) =>
        (so_with co (so_frame co +u 1) (so_rlpLength co) c (so_closed co),
         Ok (MarshalBinary (fill f data), FrameNumber f, IsLast f))
    | (c, Err e) => (so_with co (so_frame co) (so_rlpLength co) c (so_closed co), Err e)
    | (c, Panic) => (so_with co (so_frame co) (so_rlpLength co) c (so_closed co), Panic)
    end.
End singular.

(** ** Span channels *)

(** The two RLP buffers are [rlp0] and [rlp1]; [rlpIndex] is 0 or 1. *)
Record SpanChannelOut (T CW : Type) : Type := {
  co_id : ChannelID;
  co_frame : Z;
  rlp0 : bytes;
  rlp1 : bytes;
  rlpIndex : Z;
  lastCompressedRLPSize : Z;
  compressor : ChannelCompressor CW;
  target : Z;
  co_closed : bool;
  co_full : option error;
  spanBatch : SpanBatch T;
  maxBlocksPerSpanBatch : Z;
  sealedRLPBytes : Z;
  co_chainSpec : ChainSpec }.
Arguments co_id {T CW} _.
Arguments co_frame {T CW} _.
Arguments rlp0 {T CW} _.
Arguments rlp1 {T CW} _.
Arguments rlpIndex {T CW} _.
Arguments lastCompressedRLPSize {T CW} _.
Arguments compressor {T CW} _.
Arguments target {T CW} _.
Arguments co_closed {T CW} _.
Arguments co_full {T CW} _.
Arguments spanBatch {T CW} _.
Arguments maxBlocksPerSpanBatch {T CW} _.
Arguments sealedRLPBytes {T CW} _.
Arguments co_chainSpec {T CW} _.

Section span.
Context {T : Type} `{!SpanBatchTxs T} `{!SingularRLP} `{!RLPBytes} `{!Keccak} {CW : Type} `{!Compression CW}.
Abbreviation SCO := (SpanChannelOut T CW).
Implicit Types co : SCO.

(** Assignments. *)
Definition set_rlp co (r0 r1 : bytes) (index : Z) : SCO :=
  {| co_id := co_id co; co_frame := co_frame co; rlp0 := r0; rlp1 := r1; rlpIndex := index;
     lastCompressedRLPSize := lastCompressedRLPSize co; compressor := compressor co; target := target co;
     co_closed := co_closed co; co_full := co_full co; spanBatch := spanBatch co;
     maxBlocksPerSpanBatch := maxBlocksPerSpanBatch co; sealedRLPBytes := sealedRLPBytes co; co_chainSpec := co_chainSpec co |}.

Definition set_compressor co (size : Z) (c : ChannelCompressor CW) : SCO :=
  {| co_id := co_id co; co_frame := co_frame co; rlp0 := rlp0 co; rlp1 := rlp1 co; rlpIndex := rlpIndex co;
     lastCompressedRLPSize := size; compressor := c; target := target co;
     co_closed := co_closed co; co_full := co_full co; spanBatch := spanBatch co;
     maxBlocksPerSpanBatch := maxBlocksPerSpanBatch co; sealedRLPBytes := sealedRLPBytes co; co_chainSpec := co_chainSpec co |}.

Definition set_status co (frame : Z) (closed : bool) (full : option error) : SCO :=
  {| co_id := co_id co; co_frame := frame; rlp0 := rlp0 co; rlp1 := rlp1 co; rlpIndex := rlpIndex co;
     lastCompressedRLPSize := lastCompressedRLPSize co; compressor := compressor co; target := target co;
     co_closed := closed; co_full := full; spanBatch := spanBatch co;
     maxBlocksPerSpanBatch := maxBlocksPerSpanBatch co; sealedRLPBytes := sealedRLPBytes co; co_chainSpec := co_chainSpec co |}.

Definition set_spanBatch co (b : SpanBatch T) (sealed : Z) : SCO :=
  {| co_id := co_id co; co_frame := co_frame co; rlp0 := rlp0 co; rlp1 := rlp1 co; rlpIndex := rlpIndex co;
     lastCompressedRLPSize := lastCompressedRLPSize co; compressor := compressor co; target := target co;
     co_closed := co_closed co; co_full := co_full co; spanBatch := b;
     maxBlocksPerSpanBatch := maxBlocksPerSpanBatch co; sealedRLPBytes := sealed; co_chainSpec := co_chainSpec co |}.

Definition set_id co (id : ChannelID) : SCO :=
  {| co_id := id; co_frame := co_frame co; rlp0 := rlp0 co; rlp1 := rlp1 co; rlpIndex := rlpIndex co;
     lastCompressedRLPSize := lastCompressedRLPSize co; compressor := compressor co; target := target co;
     co_closed := co_closed co; co_full := co_full co; spanBatch := spanBatch co;
     maxBlocksPerSpanBatch := maxBlocksPerSpanBatch co; sealedRLPBytes := sealedRLPBytes co; co_chainSpec := co_chainSpec co |}.

Definition setRandomID co (rnd : result ChannelID) : SCO * result unit :=
  match rnd with
  | Ok id => (set_id co id, Ok tt)
  | Err e => (co, Err e)
  | Panic => (co, Panic)
  end.

(** A configuration without a chain ID, which [Check] refuses, panics here. *)
Definition NewSpanChannelOut (targetOutputSize : Z) (compressionAlgo : CompressionAlgo) (chainSpec : ChainSpec)
    (maxBlocks : Z) (rnd : result ChannelID) : result SCO :=
  match L2ChainID (spec_config chainSpec) with
  | None => Panic
  | Some chainID =>
      let* id := rnd in
      let* c := NewChannelCompressor compressionAlgo in
      Ok {| co_id := id; co_frame := 0; rlp0 := []; rlp1 := []; rlpIndex := 0; lastCompressedRLPSize := 0; compressor := c;
            target := targetOutputSize; co_closed := false; co_full := None;
            spanBatch := NewSpanBatch (L2Time (cfg_Genesis (spec_config chainSpec))) chainID;
            maxBlocksPerSpanBatch := maxBlocks; sealedRLPBytes := 0; co_chainSpec := chainSpec |}
  end.

Definition resetSpanBatch co : SCO :=
  set_spanBatch co (NewSpanBatch (GenesisTimestamp (spanBatch co)) (ChainID (spanBatch co))) (sealedRLPBytes co).

Definition co_Reset co (rnd : result ChannelID) : SCO * result unit :=
  let co := set_status co 0 false None in
  let co := set_spanBatch co (spanBatch co) 0 in
  let co := set_rlp co [] [] (rlpIndex co) in
  let co := set_compressor co 0 (cc_Reset (compressor co)) in
  setRandomID (resetSpanBatch co) rnd.

Definition activeRLP co : bytes := if rlpIndex co =? 0 then rlp0 co else rlp1 co.
Definition inactiveRLP co : bytes := if Z.rem (rlpIndex co + 1) 2 =? 0 then rlp0 co else rlp1 co.
Definition swapRLP co : SCO := set_rlp co (rlp0 co) (rlp1 co) (Z.rem (rlpIndex co + 1) 2).

(** Writes to the two buffers. *)
Definition set_active co (b : bytes) : SCO :=
  if rlpIndex co =? 0 then set_rlp co b (rlp1 co) (rlpIndex co) else set_rlp co (rlp0 co) b (rlpIndex co).
Definition set_inactive co (b : bytes) : SCO :=
  if Z.rem (rlpIndex co + 1) 2 =? 0 then set_rlp co b (rlp1 co) (rlpIndex co) else set_rlp co (rlp0 co) b (rlpIndex co).

Definition co_FullErr co : option error := co_full co.

Definition checkFull co : SCO :=
  match co_full co with
  | Some _ => co
  | None => if target co <=? cc_Len (compressor co) then set_status co (co_frame co) (co_closed co) (Some ErrCompressorFull) else co
  end.

Definition compress co : SCO * result unit :=
  let c := cc_Reset (compressor co) in
  let rlpBytes := activeRLP co in
  match cc_Write c rlpBytes with
  | (c, Ok _) =>
      match cc_Close c with
      | (c, Ok _) => (checkFull (set_compressor co (lenZ rlpBytes) c), Ok tt)
      | (c, r) => (set_compressor co (lenZ rlpBytes) c, r)
      end
  | (c, r) => (set_compressor co (lastCompressedRLPSize co) c, r)
  end.

Definition ensureOpenSpanBatch co : SCO * result unit :=
  if (maxBlocksPerSpanBatch co =? 0) || (Z.of_nat (GetBlockCount (spanBatch co)) <? maxBlocksPerSpanBatch co) then (co, Ok tt)
  else if lenZ (activeRLP co) <? lenZ (inactiveRLP co) then (co, Panic)
  else
    let co := set_spanBatch co (spanBatch co) (lenZ (activeRLP co)) in
    let co := set_inactive co (activeRLP co) in
    (resetSpanBatch co, Ok tt).

(** After the span batch was encoded into the active buffer: the limits. *)
Definition check_limits co (batch : SingularBatch) : SCO * result unit :=
  if MaxRLPBytesPerChannel (co_chainSpec co) (sb_Timestamp batch) <? lenZ (activeRLP co) then
    match compress (swapRLP co) with
    | (co, Ok _) => (co, Err (Wrap "could not take bytes as replacement of channel" ErrTooManyRLPBytes))
    | r => r
    end
  else
    let rlpGrowth := lenZ (activeRLP co) - lastCompressedRLPSize co in
    if u64 (cc_Len (compressor co) + rlpGrowth) <? target co then (co, Ok tt)
    else
      match compress co with
      | (co, Ok _) =>
          match co_FullErr co with
          | None => (co, Ok tt)
          | Some err =>
              if (sealedRLPBytes co =? 0) && (GetBlockCount (spanBatch co) =? 1)%nat then (co, Ok tt)
              else if u64 (cc_Len (compressor co)) =? target co then (co, Ok tt)
              else
                match compress (swapRLP co) with
                | (co, Ok _) => (co, Err err)
                | r => r
                end
          end
      | r => r
      end.

Definition co_addSingularBatch co (batch : SingularBatch) (seqNum : Z) : SCO * result unit :=
  if co_closed co then (co, Err ErrChannelOutAlreadyClosed)
  else
    match co_FullErr co with
    | Some err => (co, Err err)
    | None =>
        match ensureOpenSpanBatch co with
        | (co, Ok _) =>
            let '(b, r) := AppendSingularBatch (spanBatch co) batch seqNum in
            let co := set_spanBatch co b (sealedRLPBytes co) in
            match (let* _ := map_err (Wrap "failed to append SingularBatch to SpanBatch") r in
                   map_err (Wrap "failed to convert SpanBatch into RawSpanBatch") (ToRawSpanBatch b)) with
            | Err e => (co, Err e)
            | Panic => (co, Panic)
            | Ok rawSpanBatch =>
                let co := swapRLP co in
                if lenZ (activeRLP co) <? sealedRLPBytes co then (co, Panic)
                else
                  let co := set_active co (take (Z.to_nat (sealedRLPBytes co)) (activeRLP co)) in
                  match map_err (Wrap "failed to encode RawSpanBatch into bytes") (encodeTyped (InnerSpan rawSpanBatch)) with
                  | Err e => (co, Err e)
                  | Panic => (co, Panic)
                  | Ok typed => check_limits (set_active co (activeRLP co ++ rlp_EncodeBytes typed)) batch
                  end
            end
        | r => r
        end
    end.

Definition co_AddBlock co (rollupCfg : Config) (block : Block) : SCO * result L1BlockInfo :=
  if co_closed co then (co, Err ErrChannelOutAlreadyClosed)
  else
    match map_err (Wrap "converting block to batch") (BlockToSingularBatch rollupCfg block) with
    | Err e => (co, Err e)
    | Panic => (co, Panic)
    | Ok (batch, l1Info) =>
        let '(co, r) := co_addSingularBatch co batch (info_SequenceNumber l1Info) in (co, let* _ := r in Ok l1Info)
    end.

Definition co_InputBytes co : Z := lenZ (activeRLP co).

Definition co_ReadyBytes co : Z :=
  if co_closed co || bool_decide (is_Some (co_FullErr co)) then cc_Len (compressor co) else 0.

Definition co_Close co : SCO * result unit :=
  if co_closed co then (co, Err ErrChannelOutAlreadyClosed)
  else
    let co := set_status co (co_frame co) true (co_full co) in
    match co_FullErr co with
    | Some _ => (co, Ok tt)
    | None => compress co
    end.

(** As [so_OutputFrame]. *)
Definition co_OutputFrame co (maxSize : Z) : SCO * result (bytes * Z * bool) :=
  if maxSize <? FrameV0OverHeadSize then (co, Err ErrMaxFrameSizeTooSmall)
  else
    let f := createEmptyFrame (co_id co) (co_frame co) (co_ReadyBytes co) (co_closed co) maxSize in
    match cc_ReadFull (compressor co) (length (Data f)) with
    | (c, Ok data) =>
        let co := set_compressor co (lastCompressedRLPSize co) c in
        (set_status co (co_frame co +u 1) (co_closed co) (co_full co), Ok (MarshalBinary (fill f data), FrameNumber f, IsLast f))
    | (c, Err e) => (set_compressor co (lastCompressedRLPSize co) c, Err e)
    | (c, Panic) => (set_compressor co (lastCompressedRLPSize co) c, Panic)
    end.
End span.
