(* ===== verification/ChannelIn.v ===== *)
(** * Reading channels

    [BatchReader] of [derive/channel.go] and [derive/channel_in_reader.go]: the
    stage between the channel stages and the batch stages.  The compression
    that a batch came with is only logged and left out. *)

From S2P Require Import Prelude EthTypes RollupConfig Frames SpanBatch Batches ChannelBank BatchStages ChannelOut.

Definition ZlibCM8 : Z := 8.
Definition ZlibCM15 : Z := 15.

(** The function that [BatchReader] returns: the decompressed stream and the
    bytes that may still be read from it. *)
Record batchFn : Type := { bf_stream : Stream; bf_limit : Z }.

Section reader.
Context {T : Type} `{!SpanBatchTxs T} `{!SingularRLP} `{!RLPBytes} `{!Decompression}.

Definition BatchReader (r : bytes) (maxRLPBytesPerChannel : Z) (isFjord : bool) : result batchFn :=
  match r with
  | [] => Err EOF
  | compressionType :: rest =>
      let cm := Z.land compressionType 0x0F in
      let* zr :=
        if (cm =? ZlibCM8) || (cm =? ZlibCM15) then zlib_NewReader r
        else if compressionType =? ChannelVersionBrotli then
          if negb isFjord then Err (Msg "cannot accept brotli compressed batch before Fjord")
          else Ok (brotli_NewReader rest)
        else Err (Msg "cannot distinguish the compression algo used given type byte") in
      Ok {| bf_stream := zr; bf_limit := maxRLPBytesPerChannel |}
  end.

(** One call of the function; [DecodeRLP] of [BatchData]. *)
Definition next_batch (f : batchFn) : result (InnerBatchData T * batchFn) :=
  let* (v, s, limit) := rlp_Bytes (bf_stream f) (bf_limit f) in
  let* d := decodeTyped v in
  Ok (d, {| bf_stream := s; bf_limit := limit |}).
End reader.

Record ChannelInReader (P : Type) : Type := {
  cr_spec : ChainSpec;
  cr_cfg : Config;
  nextBatchFn : option batchFn;
  cr_prev : P }.
Arguments cr_spec {P} _.
Arguments cr_cfg {P} _.
Arguments nextBatchFn {P} _.
Arguments cr_prev {P} _.

Section channel_in.
Context {T : Type} `{!SpanBatchTxs T} `{!SingularRLP} `{!RLPBytes} `{!Decompression}.
Context {P : Type} `{!RawChannelProvider P}.
Implicit Types cr : ChannelInReader P.

Definition NewChannelInReader (cfg : Config) (prev : P) : ChannelInReader P :=
  {| cr_spec := NewChainSpec cfg; cr_cfg := cfg; nextBatchFn := None; cr_prev := prev |}.

Definition cr_with cr (f : option batchFn) (prev : P) : ChannelInReader P :=
  {| cr_spec := cr_spec cr; cr_cfg := cr_cfg cr; nextBatchFn := f; cr_prev := prev |}.

Definition cr_Origin cr : L1BlockRef := raw_Origin (cr_prev cr).

Definition WriteChannel cr (data : bytes) : ChannelInReader P * result unit :=
  let t := l1_Time (cr_Origin cr) in
  match BatchReader data (MaxRLPBytesPerChannel (cr_spec cr) t) (IsFjord (cr_cfg cr) t) with
  | Ok f => (cr_with cr (Some f) (cr_prev cr), Ok tt)
  | Err e => (cr, Err e)
  | Panic => (cr, Panic)
  end.

Definition NextChannel cr : ChannelInReader P := cr_with cr None (cr_prev cr).

(** Pulling a channel when none is being read. *)
Definition ensure_channel cr : ChannelInReader P * result batchFn :=
  match nextBatchFn cr with
  | Some f => (cr, Ok f)
  | None =>
      let '(p, r) := NextRawChannel (cr_prev cr) in
      let cr := cr_with cr None p in
      match r with
      | Ok data =>
          match WriteChannel cr data with
          | (cr, Ok _) => (cr, match nextBatchFn cr with Some f => Ok f | None => Panic end)
          | (cr, Err e) => (cr, Err (Leveled LevelTemporary e))
          | (cr, Panic) => (cr, Panic)
          end
      | Err e => (cr, Err e)
      | Panic => (cr, Panic)
      end
  end.

(** The batch of the decoded data; a configuration without a chain ID, which
    [Check] refuses, panics here. *)
Definition batch_of cr (batchData : InnerBatchData T) : result (Batch T) :=
  if GetBatchType batchData =? SingularBatchType then
    let* b := GetSingularBatch batchData in Ok (Singular b)
  else if GetBatchType batchData =? SpanBatchType then
    if negb (IsDelta (cr_cfg cr) (l1_Time (cr_Origin cr))) then
      Err (Leveled LevelTemporary (Msg "cannot accept span batch in L1 block"))
    else
      match L2ChainID (cr_cfg cr) with
      | None => Panic
      | Some chainID =>
          let* b := DeriveSpanBatch batchData (BlockTime (cr_cfg cr)) (L2Time (cfg_Genesis (cr_cfg cr))) chainID in
          Ok (Span b)
      end
  else Err (Leveled LevelTemporary (Msg "unrecognized batch type")).

Definition cr_NextBatch cr : ChannelInReader P * result (Batch T) :=
  match ensure_channel cr with
  | (cr, Ok f) =>
      match next_batch f with
      | Ok (batchData, f) => let cr := cr_with cr (Some f) (cr_prev cr) in (cr, batch_of cr batchData)
      | Err _ => (NextChannel cr, Err NotEnoughData)
      | Panic => (cr, Panic)
      end
  | (cr, Err e) => (cr, Err e)
  | (cr, Panic) => (cr, Panic)
  end.

Definition cr_Reset cr : ChannelInReader P * result unit := (cr_with cr None (cr_prev cr), Err EOF).

Definition cr_FlushChannel cr : result (ChannelInReader P) :=
  let* p := raw_FlushChannel (cr_prev cr) in Ok (cr_with cr None p).

(** The reader provides batches to the batch stages. *)
#[global] Instance ChannelInReader_provider : NextBatchProvider (ChannelInReader P) T := {
  prev_NextBatch := cr_NextBatch;
  batch_Origin := cr_Origin;
  prev_FlushChannel := cr_FlushChannel }.
End channel_in.
