(* ===== verification/ChannelFlow.v ===== *)
(** * What is written to a channel is read from it

    The frames of a channel-out carry its compressed data; the data of a span
    channel is the RLP of span batches of exactly the blocks that were
    accepted; and the channel reader gives these blocks back. *)

From S2P Require Import Prelude EthTypes RollupConfig Frames Channel SpanBatch SpanTxs Batches ChannelBank BatchStages L1Info ChannelOut ChannelIn.

(** ** Frames *)

Section frames.
Context {T : Type} `{!SpanBatchTxs T} `{!SingularRLP} `{!RLPBytes} `{!Keccak} {CW : Type} `{!Compression CW}.
Abbreviation SCO := (SpanChannelOut T CW).

(** Frames of at most [m] bytes, until the last; whether it was reached. *)
Fixpoint output_loop (fuel : nat) (co : SCO) (m : Z) : list bytes * bool :=
  match fuel with
  | O => ([], false)
  | S fuel =>
      match co_OutputFrame co m with
      | (_, Ok (w, _, true)) => ([w], true)
      | (co, Ok (w, _, false)) => let '(ws, ok) := output_loop fuel co m in (w :: ws, ok)
      | (_, _) => ([], false)
      end
  end.

(** Frames from number [n] on, the final one marked. *)
Definition frames_from (id : ChannelID) (n : Z) (fs : list Frame) : Prop :=
  fs <> [] /\ forall i f, fs !! i = Some f -> ID f = id /\ FrameNumber f = n + Z.of_nat i /\ IsLast f = bool_decide (S i = length fs).

Lemma frames_from_cons id n f fs : frames_from id (n + 1) fs -> ID f = id -> FrameNumber f = n -> IsLast f = false ->
  frames_from id n (f :: fs).
Proof.
  intros [Hne Hfs] Hid Hn Hl. split; [done|]. intros [|i] g; simpl.
  - intros [= <-]. split_and!; [done|lia|]. rewrite Hl. symmetry. apply bool_decide_eq_false. destruct fs; [done|simpl; lia].
  - intros Hg. destruct (Hfs i g Hg) as (? & -> & ->). split_and!; [done|lia|]. apply bool_decide_ext. lia.
Qed.

Lemma marshal_length f : length (ID f) = ChannelIDLength -> length (MarshalBinary f) = (23 + length (Data f))%nat.
Proof. intros Hid. unfold MarshalBinary. rewrite !length_app, !length_be_encode, Hid. simpl. unfold ChannelIDLength. lia. Qed.

(** One frame of a closed channel. *)
Lemma OutputFrame_closed (co : SCO) m : co_closed co = true -> 23 < m < two64 -> 0 <= co_frame co < two16 ->
  let d := Z.to_nat (m - 23) in
  let last := bool_decide (length (compressed (compressor co)) <= d)%nat in
  exists co', co_OutputFrame co m = (co', Ok (MarshalBinary {| ID := co_id co; FrameNumber := co_frame co;
      Data := take d (compressed (compressor co)); IsLast := last |}, co_frame co, last)) /\
    co_closed co' = true /\ co_id co' = co_id co /\ co_frame co' = co_frame co + 1 /\
    compressed (compressor co') = drop d (compressed (compressor co)).
Proof.
  intros Hc Hm Hf d last. unfold co_OutputFrame. rewrite (proj2 (Z.ltb_ge _ _)) by (unfold FrameV0OverHeadSize; lia).
  unfold createEmptyFrame, co_ReadyBytes, cc_Len, lenZ. rewrite Hc. cbn [orb].
  rewrite (u64_small (m - FrameV0OverHeadSize)) by (unfold is_u64, FrameV0OverHeadSize; lia).
  assert (u16 (co_frame co) = co_frame co) as Hu by (apply u16_small; unfold is_u16; lia).
  assert (co_frame co +u 1 = co_frame co + 1) as Hu1 by (apply u64_small; unfold is_u64, two16, two64 in *; lia).
  set (b := compressed (compressor co)) in *.
  destruct (Z.leb_spec (Z.of_nat (length b)) (m - FrameV0OverHeadSize)) as [Hle|Hgt]; unfold FrameV0OverHeadSize in *.
  - assert (last = true) as -> by (apply bool_decide_eq_true; lia). cbn [Data fill ID FrameNumber IsLast].
    rewrite length_replicate, Nat2Z.id. unfold cc_ReadFull. fold b. replace (ReadFull (length b) b) with (Ok (b, [] : bytes)).
    2: { rewrite <-(app_nil_r b) at 3. by rewrite ReadFull_app. }
    eexists. rewrite Hu. rewrite take_ge, drop_ge by lia. split; [reflexivity|]. simpl. by rewrite Hu1.
  - assert (last = false) as -> by (apply bool_decide_eq_false; lia). cbn [Data fill ID FrameNumber IsLast].
    rewrite length_replicate. fold d. unfold cc_ReadFull. fold b. replace (ReadFull d b) with (Ok (take d b, drop d b)).
    2: { rewrite <-(take_drop d b) at 3. rewrite ReadFull_app; [done|rewrite length_take; lia]. }
    eexists. rewrite Hu. split; [reflexivity|]. simpl. by rewrite Hu1.
Qed.

(** The frames of a closed channel carry its compressed data. *)
Lemma output_complete m (Hm : 23 < m < two64) fuel : forall co : SCO, co_closed co = true -> (0 < fuel)%nat ->
  (length (compressed (compressor co)) <= fuel * Z.to_nat (m - 23))%nat -> 0 <= co_frame co -> co_frame co + Z.of_nat fuel <= two16 ->
  exists fs, output_loop fuel co m = (MarshalBinary <$> fs, true) /\ frames_from (co_id co) (co_frame co) fs /\
    concat (Data <$> fs) = compressed (compressor co) /\ Forall (fun f => lenZ (Data f) <= m - 23) fs /\ (length fs <= fuel)%nat.
Proof.
  induction fuel as [|fuel IH]; intros co Hc Hpos Hlen Hf Hmax; [lia|].
  destruct (OutputFrame_closed co m Hc Hm ltac:(lia)) as (co' & Ho & Hc' & Hid & Hfr & Hb). cbn [output_loop]. rewrite Ho.
  set (d := Z.to_nat (m - 23)) in *. set (b := compressed (compressor co)) in *.
  set (f := {| ID := co_id co; FrameNumber := co_frame co; Data := take d b; IsLast := bool_decide (length b <= d)%nat |}).
  assert (lenZ (Data f) <= m - 23) as Hsz by (simpl; unfold lenZ; rewrite length_take; lia).
  case_bool_decide as Hlast.
  - exists [f]. split; [done|]. split.
    + split; [done|]. intros [|i] g Hg; [|done]. injection Hg as <-. split_and!; [done|simpl; lia|done].
    + split; [|by split; [repeat constructor|simpl; lia]]. simpl. rewrite app_nil_r. apply take_ge. lia.
  - destruct (IH co') as (fs & -> & Hfs & Hcat & Hsizes & Hlen'); [done|..].
    + destruct fuel; [simpl in Hlen; lia|lia].
    + rewrite Hb, length_drop. simpl in Hlen. lia.
    + lia.
    + lia.
    + exists (f :: fs). split; [done|]. rewrite Hid, Hfr in Hfs.
      split; [apply frames_from_cons; [done..]|].
      split; [|split; [by constructor|simpl; lia]]. rewrite fmap_cons. cbn [concat]. rewrite Hcat, Hb. simpl. by rewrite take_drop.
Qed.

Lemma frames_from_complete id fs : frames_from id 0 fs -> complete_frames id fs.
Proof. intros [Hne Hfs]. split; [done|]. intros i f Hi. by destruct (Hfs i f Hi) as (? & -> & ->). Qed.
End frames.

(** ** Span batches *)

(** What the libraries promise: RLP strings read back within the limit, and a
    compression writer that is reset, written and closed leaves data that its
    reader gives back; zlib data starts with its method 8. *)
Class RLPBytesLaws `{!RLPBytes} : Prop := {
  rlp_read v rest e limit : lenZ (rlp_EncodeBytes v) <= limit ->
    rlp_Bytes {| rd_data := rlp_EncodeBytes v ++ rest; rd_end := e |} limit =
    Ok (v, {| rd_data := rest; rd_end := e |}, limit - lenZ (rlp_EncodeBytes v));
  rlp_eof limit : rlp_Bytes {| rd_data := []; rd_end := EOF |} limit = Err EOF }.

Class CompressionLaws (CW : Type) `{!Compression CW} `{!Decompression} (brotli : CW -> bool) : Prop := {
  kind_zlib w : zlib_NewWriter = Ok w -> brotli w = false;
  kind_brotli n : brotli (brotli_NewWriter n) = true;
  kind_write w d : brotli (cw_Write w d).1.1 = brotli w;
  kind_close w : brotli (cw_Close w).1.1 = brotli w;
  kind_reset w : brotli (cw_Reset w) = brotli w;
  compress_read w d : exists w1 o1 w2 o2, cw_Write (cw_Reset w) d = (w1, o1, Ok tt) /\ cw_Close w1 = (w2, o2, Ok tt) /\
    if brotli w then brotli_NewReader (o1 ++ o2) = {| rd_data := d; rd_end := EOF |}
    else exists c o, o1 ++ o2 = c :: o /\ Z.land c 0x0F = ZlibCM8 /\ zlib_NewReader (c :: o) = Ok {| rd_data := d; rd_end := EOF |} }.

Section spans.
Context {T : Type} `{!SpanBatchTxs T} {tx_ok : Z -> bytes -> Prop}
  {holds : T -> Z -> list bytes -> Prop} `{!SpanBatchTxsLaws T tx_ok holds}.
Context `{!SingularRLP} `{!RLPBytes} {RL : RLPBytesLaws}.
Context (genesis chainID blockTime : Z).

(** The RLP of the span batch of the blocks. *)
Definition span_bytes (l : list SingularBatch) (out : bytes) : Prop :=
  exists (b : SpanBatch T) rb typed, built (holds := holds) genesis chainID l b /\ ToRawSpanBatch b = Ok rb /\
    encodeTyped (InnerSpan rb) = Ok typed /\ out = rlp_EncodeBytes typed.

(** The RLP of the span batches of groups of blocks. *)
Definition spans_bytes (gs : list (list SingularBatch)) (out : bytes) : Prop :=
  exists outs, Forall2 span_bytes gs outs /\ out = concat outs.

Lemma spans_nil : spans_bytes [] [].
Proof. by exists []. Qed.

Lemma spans_snoc gs out l o : spans_bytes gs out -> span_bytes l o -> spans_bytes (gs ++ [l]) (out ++ o).
Proof.
  intros (outs & Hf & ->) Ho. exists (outs ++ [o]). split; [by apply Forall2_app; [|repeat constructor]|].
  rewrite concat_app. simpl. by rewrite app_nil_r.
Qed.

(** Within the limits of the decoder. *)
Definition span_small (l : list SingularBatch) : Prop :=
  Z.of_nat (length l) <= MaxSpanBatchElementCount /\ Z.of_nat (length (concat (sb_Transactions <$> l))) <= MaxSpanBatchElementCount.

(** A span batch holds the blocks. *)
Definition span_of (l : list SingularBatch) (sb : SpanBatch T) : Prop :=
  Batches sb = singularBatchToElement <$> l /\
  (forall s, head l = Some s -> ParentCheck sb = take 20 (hash_bytes (sb_ParentHash s))) /\
  (forall s, last l = Some s -> L1OriginCheck sb = take 20 (hash_bytes (sb_EpochHash s))).

Lemma counts_sum (l : list SingularBatch) :
  foldr Z.add 0 ((fun s => Z.of_nat (length (sb_Transactions s))) <$> l) = Z.of_nat (length (concat (sb_Transactions <$> l))).
Proof. induction l as [|s l IH]; [done|]. rewrite !fmap_cons. cbn [foldr concat]. rewrite IH, length_app. lia. Qed.

Lemma built_raw_wf l b rb : built (holds := holds) genesis chainID l b -> span_ok blockTime l -> span_small l ->
  ToRawSpanBatch b = Ok rb -> raw_wf rb /\ batch_holds (holds := holds) chainID rb (concat (sb_Transactions <$> l)).
Proof.
  intros Hb Hs [Hsm1 Hsm2]. destruct Hs as [Hne Htime _ Hep _]. destruct Hb as [Hg Hc Hbs Hr _ Hcnt (t & Ht & Hh) Hp Ho].
  unfold ToRawSpanBatch. rewrite Hbs. destruct l as [|s0 l']; [done|]. set (l := s0 :: l') in *.
  destruct (last l) as [s1|] eqn:Hl; [|by apply last_None in Hl].
  replace (last (singularBatchToElement <$> l)) with (Some (singularBatchToElement s1)) by (by rewrite fmap_last, Hl). intros [= <-].
  assert (forall h, length (take 20 (hash_bytes h)) = 20%nat) as H20.
  { intros h. rewrite length_take. unfold hash_bytes. rewrite length_be_encode. lia. }
  split.
  - split; simpl.
    + apply u64_range.
    + rewrite Forall_fmap in Hep. rewrite last_lookup in Hl. by apply (Forall_lookup_1 _ _ _ _ Hep Hl).
    + rewrite (Hp s0); done.
    + rewrite (Ho s1); done.
    + rewrite Hcnt, !length_fmap. done.
    + rewrite length_fmap. simpl in Hsm1. lia.
    + rewrite length_fmap. exact Hr.
    + rewrite Hcnt. apply Forall_fmap, Forall_forall. intros s Hin. simpl. split; [lia|]. etrans; [|exact Hsm2].
      apply list_elem_of_split in Hin as (l1 & l2 & Heq). rewrite Heq, fmap_app, concat_app, length_app. simpl. rewrite length_app. lia.
    + rewrite Hcnt. by rewrite counts_sum.
  - exists t. simpl. split; [done|]. split; [done|]. by rewrite Hcnt, counts_sum.
Qed.

(** A span batch is decoded and derived to its blocks. *)
Lemma span_decodes l out : span_bytes l out -> span_ok blockTime l -> span_small l ->
  exists typed d sb, out = rlp_EncodeBytes typed /\ decodeTyped typed = Ok d /\ GetBatchType d = SpanBatchType /\
    DeriveSpanBatch d blockTime genesis chainID = Ok sb /\ span_of l sb.
Proof.
  intros (b & rb & typed & Hb & Hraw & Henc & ->) Hok Hsm. exists typed.
  destruct (built_raw_wf l b rb Hb Hok Hsm Hraw) as [Hwf Hh]. unfold encodeTyped in Henc.
  destruct (RawSpanBatch_encode rb) as [buf|e|] eqn:Hbuf; [|done|done]. injection Henc as <-.
  destruct (RawSpanBatch_decode_encode chainID rb _ buf [] Hwf Hh Hbuf) as (t' & Hdec & (t2 & Ht2 & Hh2 & _)). injection Ht2 as <-.
  rewrite app_nil_r in Hdec.
  set (b' := {| ParentCheck := ParentCheck b; L1OriginCheck := L1OriginCheck b; GenesisTimestamp := GenesisTimestamp b; ChainID := ChainID b;
                Batches := Batches b; cache_originBits := cache_originBits b; cache_blockTxCounts := cache_blockTxCounts b; sbtxs := Some t' |}).
  assert (built (holds := holds) genesis chainID l b') as Hb' by (destruct Hb; split; try done; by exists t').
  destruct (built_derive genesis chainID blockTime l b' Hb' Hok) as (rb' & sb & s0 & s1 & Hraw' & Hder & Hhd & Hlast & Hbs & Hpc & Hoc).
  assert (rb' = with_txs rb t') as ->.
  { unfold ToRawSpanBatch in Hraw, Hraw'. simpl in Hraw'. destruct (Batches b) as [|s t]; [done|]. destruct (last (s :: t)) as [x|]; [|done].
    injection Hraw as <-. injection Hraw' as <-. done. }
  exists (InnerSpan (with_txs rb t')), sb. split; [done|]. split; [|split; [done|split; [done|]]].
  - unfold decodeTyped. change (GetBatchType (InnerSpan rb)) with 1. change (1 =? SingularBatchType) with false.
    change (1 =? SpanBatchType) with true. cbn iota. rewrite Hdec. done.
  - split; [done|]. split; intros s Hs; [rewrite Hhd in Hs|rewrite Hlast in Hs]; by injection Hs as <-.
Qed.
End spans.

(** ** The span channel-out *)

Section channel_out.
Context {T : Type} `{!SpanBatchTxs T} {tx_ok : Z -> bytes -> Prop}
  {holds : T -> Z -> list bytes -> Prop} `{!SpanBatchTxsLaws T tx_ok holds}.
Context `{!SingularRLP} `{!RLPBytes} {RL : RLPBytesLaws} {KC : Keccak}.
Context {CW : Type} `{!Compression CW} `{!Decompression} {brotli : CW -> bool} {CL : CompressionLaws CW brotli}.
Context (genesis chainID blockTime : Z).
Abbreviation SCO := (SpanChannelOut T CW).
Abbreviation spans := (spans_bytes (holds := holds) genesis chainID).
Abbreviation span := (span_bytes (holds := holds) genesis chainID).
Abbreviation built_ := (built (holds := holds) genesis chainID).
Implicit Types co : SCO.

(** The data is the compressed [rlp]. *)
Definition carries (br : bool) (data rlp : bytes) : Prop :=
  if br then exists out, data = ChannelVersionBrotli :: out /\ brotli_NewReader out = {| rd_data := rlp; rd_end := EOF |}
  else exists c o, data = c :: o /\ Z.land c 0x0F = ZlibCM8 /\ zlib_NewReader (c :: o) = Ok {| rd_data := rlp; rd_end := EOF |}.

Definition kind_ok co : Prop := brotli (cc_writer (compressor co)) = cc_brotli (compressor co).
Definition index_ok co : Prop := rlpIndex co = 0 \/ rlpIndex co = 1.

(** What adding blocks and closing leave alone. *)
Definition same_out co co' : Prop :=
  co_id co' = co_id co /\ co_frame co' = co_frame co /\ co_chainSpec co' = co_chainSpec co /\
  cc_brotli (compressor co') = cc_brotli (compressor co).

Lemma active_swap co : index_ok co -> activeRLP (swapRLP co) = inactiveRLP co /\ inactiveRLP (swapRLP co) = activeRLP co /\ index_ok (swapRLP co).
Proof. unfold index_ok, activeRLP, inactiveRLP, swapRLP. intros [Hi|Hi]; simpl; rewrite Hi; split_and!; auto. Qed.

Lemma set_active_spec co b : index_ok co -> activeRLP (set_active co b) = b /\ inactiveRLP (set_active co b) = inactiveRLP co /\
  index_ok (set_active co b).
Proof. unfold index_ok, activeRLP, inactiveRLP, set_active. intros [Hi|Hi]; rewrite Hi; simpl; rewrite ?Hi; split_and!; auto. Qed.

Lemma set_inactive_spec co b : index_ok co -> inactiveRLP (set_inactive co b) = b /\ activeRLP (set_inactive co b) = activeRLP co /\
  index_ok (set_inactive co b).
Proof. unfold index_ok, activeRLP, inactiveRLP, set_inactive. intros [Hi|Hi]; rewrite Hi; simpl; rewrite ?Hi; split_and!; auto. Qed.

Lemma set_active_fields co b : exists r0 r1, set_active co b = set_rlp co r0 r1 (rlpIndex co).
Proof. unfold set_active. destruct (rlpIndex co =? 0); eauto. Qed.
Lemma set_inactive_fields co b : exists r0 r1, set_inactive co b = set_rlp co r0 r1 (rlpIndex co).
Proof. unfold set_inactive. destruct (Z.rem (rlpIndex co + 1) 2 =? 0); eauto. Qed.

(** Compressing replaces the compressor's data by the active buffer's, and may
    find the channel full. *)
Lemma compress_spec co : kind_ok co -> exists c n f, compress co = (set_status (set_compressor co n c) (co_frame co) (co_closed co) f, Ok tt) /\
  cc_brotli c = cc_brotli (compressor co) /\ brotli (cc_writer c) = cc_brotli c /\ carries (cc_brotli c) (compressed c) (activeRLP co) /\
  (co_full co <> None -> f = co_full co) /\ (co_full co = None -> f = None \/ f = Some ErrCompressorFull).
Proof.
  intros Hk. destruct (compress_read (cc_writer (compressor co)) (activeRLP co)) as (w1 & o1 & w2 & o2 & Hw & Hcl & Hrd).
  unfold compress, cc_Write, cc_Close, cc_with, cc_Reset. cbn [cc_writer]. rewrite Hw. cbn [cc_writer cc_brotli compressed]. rewrite Hcl.
  assert (brotli w2 = cc_brotli (compressor co)) as Hk2.
  { pose proof (kind_close w1) as Hkc. rewrite Hcl in Hkc. pose proof (kind_write (cw_Reset (cc_writer (compressor co))) (activeRLP co)) as Hkw.
    rewrite Hw in Hkw. simpl in Hkw, Hkc. rewrite Hkc, Hkw, kind_reset. exact Hk. }
  set (c := {| cc_brotli := cc_brotli (compressor co); compressed := _; cc_writer := w2 |}).
  assert (carries (cc_brotli c) (compressed c) (activeRLP co)) as Hca.
  { unfold kind_ok in Hk. rewrite Hk in Hrd. unfold carries, c. cbn [cc_brotli compressed]. destruct (cc_brotli (compressor co)); simpl.
    - exists (o1 ++ o2). split; [done|]. done.
    - destruct Hrd as (x & o & Ho & Hx & Hz). exists x, o. by rewrite Ho. }
  unfold checkFull. set (n := lenZ (activeRLP co)). destruct (co_full co) as [e|] eqn:Hf; cbn [co_full set_compressor]; rewrite Hf.
  - exists c, n, (Some e). split; [|by split_and!]. f_equal. unfold set_status. simpl. by rewrite <-Hf.
  - destruct (target (set_compressor co n c) <=? cc_Len (compressor (set_compressor co n c))).
    + exists c, n, (Some ErrCompressorFull). split; [done|]. split_and!; [done..|]. by right.
    + exists c, n, None. split; [f_equal; unfold set_status; simpl; by rewrite <-Hf|]. split_and!; [done..|]. by left.
Qed.

(** The buffers while blocks are added: sealed groups, then the group of the
    open span batch. *)
Record span_inv co (gs : list (list SingularBatch)) (cur : list SingularBatch) : Prop := {
  si_index : index_ok co;
  si_kind : kind_ok co;
  si_span : built_ cur (spanBatch co);
  si_groups : Forall (fun g => g <> []) gs;
  si_rlp : exists S o, spans gs S /\ lenZ S = sealedRLPBytes co /\ activeRLP co = S ++ o /\ S `prefix_of` inactiveRLP co /\
    (if decide (cur = []) then o = [] else span cur o) }.

(** Full channels are compressed. *)
Definition settled co : Prop :=
  co_full co = None \/ carries (cc_brotli (compressor co)) (compressed (compressor co)) (activeRLP co).

(** The channel holds the blocks [l]. *)
Definition written co (l : list SingularBatch) : Prop :=
  index_ok co /\ kind_ok co /\ settled co /\ exists gs, concat gs = l /\ Forall (fun g => g <> []) gs /\ spans gs (activeRLP co).

Lemma inv_groups co gs cur : span_inv co gs cur -> exists gs', concat gs' = concat gs ++ cur /\ Forall (fun g => g <> []) gs' /\
  spans gs' (activeRLP co) /\ (cur = [] -> gs' = gs).
Proof.
  intros [_ _ _ Hne (S & o & HS & _ & Hact & _ & Ho)]. case_decide as Hc.
  - subst cur o. rewrite app_nil_r in Hact. exists gs. rewrite app_nil_r, Hact. by split_and!.
  - exists (gs ++ [cur]). rewrite concat_app, Hact. simpl. rewrite app_nil_r. split_and!; [done|by apply Forall_app; split; [|by constructor]|by apply spans_snoc|done].
Qed.

Lemma inv_written co gs cur : span_inv co gs cur -> settled co -> written co (concat gs ++ cur).
Proof. intros Hi Hs. destruct (inv_groups co gs cur Hi) as (gs' & Hc & Hne & Hsp & _). split_and!; [apply Hi|apply Hi|done|]. by exists gs'. Qed.

Lemma ensureOpen_spec co gs cur co1 : span_inv co gs cur -> ensureOpenSpanBatch co = (co1, Ok tt) ->
  exists gs1 cur1, span_inv co1 gs1 cur1 /\ concat gs1 ++ cur1 = concat gs ++ cur /\ activeRLP co1 = activeRLP co /\
    same_out co co1 /\ co_full co1 = co_full co /\ co_closed co1 = co_closed co.
Proof.
  intros Hi. unfold ensureOpenSpanBatch. destruct (_ || _). { intros [= <-]. by exists gs, cur. }
  destruct (_ <? _); [done|]. intros [= <-]. destruct (inv_groups co gs cur Hi) as (gs' & Hc & Hne & Hsp & _).
  set (co2 := set_spanBatch co (spanBatch co) (lenZ (activeRLP co))). assert (index_ok co2) as Hidx2 by apply (si_index _ _ _ Hi).
  destruct (set_inactive_spec co2 (activeRLP co2) Hidx2) as (Hin & Hac & Hidx).
  destruct (set_inactive_fields co2 (activeRLP co2)) as (r0 & r1 & Heq). destruct Hi as [_ Hk Hb _ _].
  exists gs', []. rewrite app_nil_r. split; [|split_and!; try done; by rewrite Heq].
  split.
  - exact Hidx.
  - rewrite Heq. exact Hk.
  - unfold resetSpanBatch. rewrite Heq. simpl. rewrite (bu_genesis _ _ _ _ Hb), (bu_chain _ _ _ _ Hb). apply built_new.
  - done.
  - exists (activeRLP co), []. split; [done|]. split; [by rewrite Heq|]. rewrite app_nil_r. split; [exact Hac|].
    split; [|done]. change (activeRLP co `prefix_of` inactiveRLP (set_inactive co2 (activeRLP co2))). by rewrite Hin.
Qed.

(** The limits after a block was encoded: it is kept within the RLP limit, or
    the buffer without it is active again. *)
Lemma check_limits_spec co gs cur batch : span_inv co gs cur -> co_full co = None ->
  let '(co', r) := check_limits co batch in
  same_out co co' /\ co_closed co' = co_closed co /\ settled co' /\
  match r with
  | Ok _ => span_inv co' gs cur /\ activeRLP co' = activeRLP co /\
      lenZ (activeRLP co) <= MaxRLPBytesPerChannel (co_chainSpec co) (sb_Timestamp batch)
  | Err _ => index_ok co' /\ kind_ok co' /\ activeRLP co' = inactiveRLP co
  | Panic => False
  end.
Proof.
  intros Hi Hf. pose proof (si_index _ _ _ Hi) as Hidx. pose proof (si_kind _ _ _ Hi) as Hk.
  assert (forall co1 e, kind_ok co1 -> index_ok co1 -> same_out co co1 -> co_closed co1 = co_closed co -> activeRLP co1 = activeRLP co -> inactiveRLP co1 = inactiveRLP co ->
    let '(co', r) := match compress (swapRLP co1) with (co', Ok _) => (co', Err e) | r => r end in
    same_out co co' /\ co_closed co' = co_closed co /\ settled co' /\
    match r with Ok _ => False | Err _ => index_ok co' /\ kind_ok co' /\ activeRLP co' = inactiveRLP co | Panic => False end) as Hrev.
  { intros co1 e Hk1 Hi1 Hs1 Hc1 Ha1 Hn1. destruct (active_swap co1 Hi1) as (Hsa & Hsi & Hsx).
    destruct (compress_spec (swapRLP co1) Hk1) as (c & n & f & -> & Hbr & Hkc & Hca & _). rewrite Hsa, Hn1 in Hca.
    split; [destruct Hs1 as (? & ? & ? & ?); split_and!; try done; simpl; by rewrite Hbr|]. split; [done|].
    assert (activeRLP (set_status (set_compressor (swapRLP co1) n c) (co_frame (swapRLP co1)) (co_closed (swapRLP co1)) f) = inactiveRLP co) as Hact.
    { rewrite <-Hn1, <-Hsa. done. }
    split; [right; rewrite Hact; exact Hca|]. split_and!; [exact Hsx|exact Hkc|done]. }
  unfold check_limits. destruct (Z.ltb_spec (MaxRLPBytesPerChannel (co_chainSpec co) (sb_Timestamp batch)) (lenZ (activeRLP co))) as [|Hmax].
  { specialize (Hrev co (Wrap "could not take bytes as replacement of channel" ErrTooManyRLPBytes) Hk Hidx ltac:(done) eq_refl eq_refl eq_refl).
    destruct (match compress (swapRLP co) with (co', Ok _) => _ | r => r end) as [co' [u|e|]]; [|done..]. by destruct Hrev as (_ & _ & _ & []). }
  destruct (_ <? target co); [split; [by split_and!|]; split; [done|]; split; [by left|]; by split_and!|].
  destruct (compress_spec co Hk) as (c & n & f & -> & Hbr & Hkc & Hca & _ & Hfull). specialize (Hfull Hf).
  set (co1 := set_status (set_compressor co n c) (co_frame co) (co_closed co) f).
  assert (span_inv co1 gs cur) as Hi1 by (destruct Hi; split; done).
  assert (same_out co co1) as Hs1 by (split_and!; done).
  assert (settled co1) as Hset by (by right).
  assert (forall u : unit, same_out co co1 /\ co_closed co1 = co_closed co /\ settled co1 /\ match Ok u with Ok _ => span_inv co1 gs cur /\ activeRLP co1 = activeRLP co /\
      lenZ (activeRLP co) <= MaxRLPBytesPerChannel (co_chainSpec co) (sb_Timestamp batch)
  | Err _ => index_ok co1 /\ kind_ok co1 /\ activeRLP co1 = inactiveRLP co | Panic => False end) as Hkeep by (intros []; by split_and!).
  change (co_FullErr co1) with f. destruct f as [err|]; [|exact (Hkeep tt)].
  destruct (_ && _); [exact (Hkeep tt)|]. destruct (_ =? _); [exact (Hkeep tt)|].
  specialize (Hrev co1 err (si_kind _ _ _ Hi1) (si_index _ _ _ Hi1) Hs1 eq_refl eq_refl eq_refl).
  revert Hrev. destruct (compress (swapRLP co1)) as [co' [u|e|]]; intros Hrev; exact Hrev.
Qed.

(** The errors that tell the caller to close the channel. *)
Definition full_error (e : error) : Prop := 
  e = ErrCompressorFull \/ e = Wrap "could not take bytes as replacement of channel" ErrTooManyRLPBytes.

(** The span batch is encoded behind the sealed groups, into the buffer that
    was not active. *)
Definition encoded_into co (typed : bytes) : SCO :=
  let co := set_active (swapRLP co) (take (Z.to_nat (sealedRLPBytes co)) (activeRLP (swapRLP co))) in
  set_active co (activeRLP co ++ rlp_EncodeBytes typed).

Lemma encoded_spec co gs cur cur' b raw typed : span_inv co gs cur -> built_ cur' b -> cur' <> [] ->
  ToRawSpanBatch b = Ok raw -> encodeTyped (InnerSpan raw) = Ok typed ->
  let co2 := set_spanBatch co b (sealedRLPBytes co) in let co4 := encoded_into co2 typed in
  sealedRLPBytes co2 <= lenZ (activeRLP (swapRLP co2)) /\ span_inv co4 gs cur' /\ inactiveRLP co4 = activeRLP co /\ same_out co co4 /\
  co_full co4 = co_full co /\ co_closed co4 = co_closed co.
Proof.
  intros Hi Hb Hne Hraw Henc co2 co4. assert (index_ok co2) as Hx2 by apply (si_index _ _ _ Hi).
  destruct (active_swap co2 Hx2) as (Hsa & Hsi & Hsx). destruct (si_rlp _ _ _ Hi) as (S & o & HS & HSlen & HSact & [rest Hpre] & Ho).
  change (inactiveRLP co2) with (inactiveRLP co) in Hsa. rewrite Hpre in Hsa.
  assert (take (Z.to_nat (sealedRLPBytes co2)) (activeRLP (swapRLP co2)) = S) as Htake.
  { rewrite Hsa. change (sealedRLPBytes co2) with (sealedRLPBytes co). rewrite <-HSlen. unfold lenZ. by rewrite Nat2Z.id, take_app_length. }
  subst co4. unfold encoded_into. rewrite Htake. set (co3 := set_active (swapRLP co2) S).
  destruct (set_active_spec (swapRLP co2) S Hsx) as (Ha3 & Hn3 & Hx3). fold co3 in Ha3, Hn3, Hx3. rewrite Ha3.
  set (co4 := set_active co3 (S ++ rlp_EncodeBytes typed)).
  destruct (set_active_spec co3 (S ++ rlp_EncodeBytes typed) Hx3) as (Ha4 & Hn4 & Hx4). fold co4 in Ha4, Hn4, Hx4.
  destruct (set_active_fields (swapRLP co2) S) as (x0 & x1 & Heq3). fold co3 in Heq3.
  destruct (set_active_fields co3 (S ++ rlp_EncodeBytes typed)) as (y0 & y1 & Heq4). fold co4 in Heq4.
  assert (inactiveRLP co4 = activeRLP co) as Hn by (by rewrite Hn4, Hn3, Hsi).
  split; [rewrite Hsa; change (sealedRLPBytes co2) with (sealedRLPBytes co); rewrite <-HSlen; unfold lenZ; rewrite length_app; lia|].
  split; [|by rewrite Heq4, Heq3 in *]. split; [done|by rewrite Heq4, Heq3; apply Hi|by rewrite Heq4, Heq3|apply Hi|].
  exists S, (rlp_EncodeBytes typed). split; [done|]. split; [by rewrite Heq4, Heq3|]. split; [done|].
  split; [rewrite Hn, HSact; by apply prefix_app_r|]. rewrite decide_False by done. by exists b, raw, typed.
Qed.

(** A block is added, or refused with the blocks before it still written. *)
Lemma add_spec co gs cur batch seqNum co' r : span_inv co gs cur -> co_full co = None -> co_closed co = false ->
  Forall (tx_ok chainID) (sb_Transactions batch) ->
  Z.of_nat (length (concat (sb_Transactions <$> (concat gs ++ cur ++ [batch])))) < two64 ->
  co_addSingularBatch co batch seqNum = (co', r) ->
  match r with
  | Ok _ => exists gs' cur', span_inv co' gs' cur' /\ concat gs' ++ cur' = concat gs ++ cur ++ [batch] /\ settled co' /\
      same_out co co' /\ co_closed co' = false /\ lenZ (activeRLP co') <= MaxRLPBytesPerChannel (co_chainSpec co) (sb_Timestamp batch)
  | Err e => full_error e -> written co' (concat gs ++ cur) /\ same_out co co' /\ co_closed co' = false /\ activeRLP co' = activeRLP co
  | Panic => True
  end.
Proof.
  intros Hi Hf Hcl Htx Hsz. unfold co_addSingularBatch. rewrite Hcl. unfold co_FullErr. rewrite Hf.
  destruct (ensureOpenSpanBatch co) as [co1 [[]|e|]] eqn:Hens; [| |by intros [= <- <-]].
  2: { unfold ensureOpenSpanBatch in Hens. destruct (_ || _); [done|]. destruct (_ <? _); done. }
  destruct (ensureOpen_spec co gs cur co1 Hi Hens) as (gs1 & cur1 & Hi1 & Hcat & Hact & Hs1 & Hf1 & Hc1).
  destruct (AppendSingularBatch (spanBatch co1) batch seqNum) as [b [[]|e|]] eqn:Happ; cbn [map_err rbind];
    [|by intros [= <- <-] [He|He]|by intros [= <- <-]].
  assert (built_ (cur1 ++ [batch]) b) as Hb.
  { eapply built_append; [apply Hi1|done| |exact Happ]. eapply Z.le_lt_trans; [|exact Hsz].
    rewrite app_assoc, <-Hcat, !fmap_app, !concat_app, !length_app. simpl. rewrite app_nil_r. lia. }
  destruct (ToRawSpanBatch b) as [raw|e|] eqn:Hraw; cbn [map_err]; [|by intros [= <- <-] [He|He]|by intros [= <- <-]].
  destruct (_ <? _) eqn:Htrunc; [by intros [= <- <-]|].
  destruct (encodeTyped (InnerSpan raw)) as [typed|e|] eqn:Henc; cbn [map_err]; [|by intros [= <- <-] [He|He]|by intros [= <- <-]].
  destruct (encoded_spec co1 gs1 cur1 (cur1 ++ [batch]) b raw typed Hi1 Hb ltac:(by destruct cur1) Hraw Henc) as (_ & Hi4 & Hn & Hs4 & Hf4 & Hc4).
  change (set_active _ (_ ++ rlp_EncodeBytes typed)) with (encoded_into (set_spanBatch co1 b (sealedRLPBytes co1)) typed).
  set (co4 := encoded_into _ typed) in *. rewrite Hf1, Hf in Hf4. rewrite Hc1, Hcl in Hc4. rewrite Hact in Hn.
  pose proof (check_limits_spec co4 gs1 (cur1 ++ [batch]) batch Hi4 Hf4) as Hcheck. intros Hrun. rewrite Hrun in Hcheck.
  destruct Hcheck as (Hs' & Hc' & Hset & Hr). assert (same_out co co') as Hsame.
  { destruct Hs1 as (? & ? & ? & ?), Hs4 as (? & ? & ? & ?), Hs' as (? & ? & ? & ?). split_and!; congruence. }
  destruct r as [u|e|]; [| |done].
  - destruct Hr as (Hi' & Ha' & Hmax). exists gs1, (cur1 ++ [batch]). split; [done|]. split; [by rewrite app_assoc, Hcat, app_assoc|].
    split; [done|]. split; [done|]. split; [congruence|]. rewrite Ha'. destruct Hs1 as (_ & _ & <- & _), Hs4 as (_ & _ & Hspec & _). by rewrite <-Hspec.
  - intros _. destruct Hr as (Hx' & Hk' & Ha'). rewrite Hn in Ha'. split; [|split; [done|split; [congruence|done]]].
    destruct (inv_groups co gs cur Hi) as (gs' & Hc0 & Hne & Hsp & _). split; [done|]. split; [done|]. split; [done|].
    exists gs'. by rewrite Ha'.
Qed.

(** Blocks until the first that is not taken; the blocks taken. *)
Fixpoint add_all co (l : list (SingularBatch * Z)) : SCO * list SingularBatch * result unit :=
  match l with
  | [] => (co, [], Ok tt)
  | (s, seqNum) :: l' =>
      match co_addSingularBatch co s seqNum with
      | (co, Ok _) => let '(co, acc, r) := add_all co l' in (co, s :: acc, r)
      | (co, r) => (co, [], r)
      end
  end.

(** The RLP fits the limit of every L1 block after the blocks. *)
Definition within co (l : list SingularBatch) : Prop :=
  forall t, Forall (fun s => sb_Timestamp s <= t) l -> lenZ (activeRLP co) <= MaxRLPBytesPerChannel (co_chainSpec co) t.

Lemma MaxRLP_mono spec s t : s <= t -> MaxRLPBytesPerChannel spec s <= MaxRLPBytesPerChannel spec t.
Proof.
  intros Hle. unfold MaxRLPBytesPerChannel. destruct (IsFjord (spec_config spec) s) eqn:Hs.
  - unfold IsFjord in *. by rewrite (fork_active_mono _ _ _ Hle Hs).
  - by destruct (IsFjord (spec_config spec) t).
Qed.

Lemma add_all_spec l : forall co gs cur co' acc r, span_inv co gs cur -> settled co -> co_closed co = false -> within co (concat gs ++ cur) ->
  Forall (fun s => Forall (tx_ok chainID) (sb_Transactions s)) l.*1 ->
  Z.of_nat (length (concat (sb_Transactions <$> (concat gs ++ cur ++ l.*1)))) < two64 ->
  add_all co l = (co', acc, r) -> r = Ok tt \/ (exists e, r = Err e /\ full_error e) ->
  written co' (concat gs ++ cur ++ acc) /\ same_out co co' /\ co_closed co' = false /\ within co' (concat gs ++ cur ++ acc).
Proof.
  induction l as [|[s q] l IH]; intros co gs cur co' acc r Hi Hset Hcl Hw Htx Hsz; simpl.
  { intros [= <- <- <-] _. rewrite app_nil_r. split; [by apply inv_written|done]. }
  rewrite fmap_cons in Htx, Hsz. apply Forall_cons_1 in Htx as [Hs Htx]. simpl in Hs.
  destruct (co_full co) as [e|] eqn:Hf.
  { unfold co_addSingularBatch, co_FullErr. rewrite Hcl, Hf. intros [= <- <- <-] _. rewrite app_nil_r. split; [by apply inv_written|done]. }
  destruct (co_addSingularBatch co s q) as [co1 r1] eqn:Hadd.
  pose proof (add_spec co gs cur s q co1 r1 Hi Hf Hcl Hs) as Hspec. specialize (Hspec ltac:(eapply Z.le_lt_trans; [|exact Hsz];
    rewrite !fmap_app, !concat_app, !length_app; simpl; rewrite !length_app; simpl; lia) Hadd).
  destruct r1 as [u|e|].
  - destruct Hspec as (gs1 & cur1 & Hi1 & Hcat & Hset1 & Hs1 & Hcl1 & Hmax).
    destruct (add_all co1 l) as [[co2 acc2] r2] eqn:Hrun. intros [= <- <- <-] Hr.
    assert (forall x, concat gs ++ cur ++ s :: x = concat gs1 ++ cur1 ++ x) as Hx.
    { intros x. rewrite (app_assoc (concat gs1)), Hcat, <-!app_assoc. done. }
    destruct (IH co1 gs1 cur1 co2 acc2 r2 Hi1 Hset1 Hcl1) as (Hw2 & Hs2 & Hc2 & Hwi2); [| |by rewrite <-Hx|done|done|].
    + intros t Ht. rewrite Hcat in Ht. apply Forall_app in Ht as [_ Ht]. apply Forall_app in Ht as [_ Ht]. apply Forall_cons_1 in Ht as [Ht _].
      destruct Hs1 as (_ & _ & -> & _). etrans; [exact Hmax|]. by apply MaxRLP_mono.
    + done.
    + rewrite Hx. split; [done|]. split; [|done]. destruct Hs1 as (? & ? & ? & ?), Hs2 as (? & ? & ? & ?). split_and!; congruence.
  - intros [= <- <- <-] [|(e' & [= <-] & He)]; [done|]. rewrite app_nil_r. destruct (Hspec He) as (Hwr & Hs1 & Hc1 & Hact).
    split_and!; [done|done..|]. intros t Ht. rewrite Hact. destruct Hs1 as (_ & _ & -> & _). by apply Hw.
  - intros [= <- <- <-] [|(e' & ? & _)]; done.
Qed.

(** A new channel is empty. *)
Lemma New_inv tgt algo spec maxBlocks id co : NewSpanChannelOut tgt algo spec maxBlocks (Ok id) = Ok co ->
  genesis = L2Time (cfg_Genesis (spec_config spec)) -> L2ChainID (spec_config spec) = Some chainID ->
  span_inv co [] [] /\ settled co /\ co_closed co = false /\ within co [] /\ co_id co = id /\ co_frame co = 0 /\ co_chainSpec co = spec /\
  cc_brotli (compressor co) = negb (bool_decide (algo = Zlib)).
Proof.
  intros Hnew Hgen Hid. unfold NewSpanChannelOut in Hnew. rewrite Hid, <-Hgen in Hnew. cbn [rbind] in Hnew.
  destruct (NewChannelCompressor algo) as [c|e|] eqn:Hc; [|done|done]. injection Hnew as <-.
  assert (brotli (cc_writer c) = cc_brotli c /\ cc_brotli c = negb (bool_decide (algo = Zlib))) as [Hk Hbr].
  { unfold NewChannelCompressor in Hc. destruct (bool_decide (algo = Zlib)).
    - destruct zlib_NewWriter as [w|e|] eqn:Hw; [|done|done]. injection Hc as <-. split; [by apply kind_zlib|done].
    - destruct (IsBrotli algo); [|done]. destruct (GetBrotliLevel algo) as [n|e|]; [|done|done]. injection Hc as <-.
      split; [apply kind_brotli|done]. }
  split; [|split; [by left|split; [done|split; [|done]]]].
  - split; [by left|exact Hk|apply built_new|done|]. exists [], []. split; [apply spans_nil|]. split_and!; try done.
  - intros t _. unfold MaxRLPBytesPerChannel. by destruct (IsFjord _ t).
Qed.

(** Closing compresses the blocks. *)
Lemma Close_spec co l : written co l -> co_closed co = false -> exists co', co_Close co = (co', Ok tt) /\ co_closed co' = true /\ same_out co co' /\
  exists rlp gs, rlp = activeRLP co /\ carries (cc_brotli (compressor co)) (compressed (compressor co')) rlp /\
    concat gs = l /\ Forall (fun g => g <> []) gs /\ spans gs rlp.
Proof.
  intros (Hx & Hk & Hset & gs & Hc & Hne & Hsp) Hcl. unfold co_Close. rewrite Hcl. set (co1 := set_status co (co_frame co) true (co_full co)).
  change (co_FullErr co1) with (co_full co). destruct Hset as [Hf|Hca].
  - rewrite Hf. destruct (compress_spec co1 Hk) as (c & n & f & -> & Hbr & _ & Hca & _). eexists. split; [done|]. split; [done|].
    split; [by split_and!|]. exists (activeRLP co), gs. rewrite Hbr in Hca. by split_and!.
  - destruct (co_full co) as [e|].
    + eexists. split; [done|]. split; [done|]. split; [done|]. by exists (activeRLP co), gs.
    + destruct (compress_spec co1 Hk) as (c & n & f & -> & Hbr & _ & Hca1 & _). eexists. split; [done|]. split; [done|].
      split; [by split_and!|]. exists (activeRLP co), gs. rewrite Hbr in Hca1. by split_and!.
Qed.
End channel_out.

(** ** Groups of blocks *)

Lemma span_ok_segment blockTime a g c : span_ok blockTime (a ++ g ++ c) -> g <> [] -> span_ok blockTime g.
Proof.
  intros [Hne Ht Hsz Hep Hst] Hg. split; [done|..].
  - intros i s s0 Hi H0. destruct (head (a ++ g ++ c)) as [h|] eqn:Hh; [|by destruct a, g].
    rewrite head_lookup in H0.
    destruct (Ht (length a + i)%nat s h) as [E Hu]; [|done|].
    { rewrite lookup_app_r by lia. replace (length a + i - length a)%nat with i by lia. by apply lookup_app_l_Some. }
    destruct (Ht (length a) s0 h) as [E0 _]; [|done|].
    { rewrite lookup_app_r by lia. rewrite Nat.sub_diag. by apply lookup_app_l_Some. }
    split; [rewrite E, E0, Nat2Z.inj_add; ring|done].
  - rewrite !fmap_app, !concat_app, !length_app in Hsz. lia.
  - rewrite !fmap_app, !Forall_app in Hep. tauto.
  - rewrite !fmap_app in Hst. apply adjacent_app in Hst as (_ & Hst & _). by apply adjacent_app in Hst as (Hst & _).
Qed.

Lemma span_small_segment a g c : span_small (a ++ g ++ c) -> span_small g.
Proof. unfold span_small. rewrite !fmap_app, !concat_app, !length_app. lia. Qed.

Lemma groups_ok blockTime gs : Forall (fun g => g <> []) gs -> (concat gs <> [] -> span_ok blockTime (concat gs)) -> span_small (concat gs) ->
  Forall (fun g => span_ok blockTime g /\ span_small g) gs.
Proof.
  intros Hne Hok Hsm. apply Forall_forall. intros g Hg. rewrite Forall_forall in Hne. specialize (Hne g Hg).
  apply list_elem_of_split in Hg as (g1 & g2 & ->). rewrite concat_app in Hok, Hsm. simpl in Hok, Hsm.
  split; [eapply span_ok_segment; [apply Hok|done]|by eapply span_small_segment]. by destruct (concat g1), g.
Qed.

(** ** The channel reader *)

Section channel_in.
Context {T : Type} `{!SpanBatchTxs T} {tx_ok : Z -> bytes -> Prop}
  {holds : T -> Z -> list bytes -> Prop} `{!SpanBatchTxsLaws T tx_ok holds}.
Context `{!SingularRLP} `{!RLPBytes} {RL : RLPBytesLaws} `{!Decompression}.
Context {P : Type} `{!RawChannelProvider P}.
Implicit Types cr : ChannelInReader P.

Lemma BatchReader_carries br data rlp limit fjord : carries br data rlp -> (br = true -> fjord = true) ->
  BatchReader data limit fjord = Ok {| bf_stream := {| rd_data := rlp; rd_end := EOF |}; bf_limit := limit |}.
Proof.
  intros Hc Hf. destruct br; simpl in Hc.
  - destruct Hc as (out & -> & Hr). rewrite Hf by done. cbn. by rewrite Hr.
  - destruct Hc as (c & o & -> & Hc & Hz). unfold BatchReader. rewrite Hc. cbn. by rewrite Hz.
Qed.

(** Batches until one is not handed out, and what came instead. *)
Fixpoint read_all (fuel : nat) cr : list (Batch T) * result unit :=
  match fuel with
  | O => ([], Ok tt)
  | S fuel =>
      match cr_NextBatch cr with
      | (cr, Ok b) => let '(bs, r) := read_all fuel cr in (b :: bs, r)
      | (_, Err e) => ([], Err e)
      | (_, Panic) => ([], Panic)
      end
  end.

(** The batches of an open channel are read in order, and then it ends. *)
Lemma read_spans cfg chainID gs : L2ChainID cfg = Some chainID -> forall cr rlp limit,
  spans_bytes (holds := holds) (L2Time (cfg_Genesis cfg)) chainID gs rlp -> Forall (fun g => span_ok (BlockTime cfg) g /\ span_small g) gs ->
  cr_cfg cr = cfg -> IsDelta cfg (l1_Time (cr_Origin cr)) = true -> lenZ rlp <= limit ->
  nextBatchFn cr = Some {| bf_stream := {| rd_data := rlp; rd_end := EOF |}; bf_limit := limit |} ->
  exists sbs : list (SpanBatch T), read_all (S (length gs)) cr = (Span <$> sbs, Err NotEnoughData) /\ Forall2 span_of gs sbs.
Proof.
  intros Hid. induction gs as [|g gs IH]; intros cr rlp limit (outs & Hf & ->) Hok Hcfg Hdelta Hlim Hfn.
  { apply Forall2_nil_inv_l in Hf as ->. exists []. split; [|done]. cbn [read_all length]. unfold cr_NextBatch, ensure_channel. rewrite Hfn.
    unfold next_batch. cbn [bf_stream bf_limit concat]. rewrite rlp_eof. done. }
  apply Forall2_cons_inv_l in Hf as (o & outs' & Ho & Hf & ->). apply Forall_cons_1 in Hok as [[Hg Hsm] Hok].
  destruct (span_decodes _ _ (BlockTime cfg) g o Ho Hg Hsm) as (typed & d & sb & -> & Hdec & Hty & Hder & Hsb).
  cbn [concat] in Hlim, Hfn. unfold lenZ in Hlim. rewrite length_app in Hlim.
  set (f' := {| bf_stream := {| rd_data := concat outs'; rd_end := EOF |}; bf_limit := limit - lenZ (rlp_EncodeBytes typed) |}).
  destruct (IH (cr_with cr (Some f') (cr_prev cr)) (concat outs') (limit - lenZ (rlp_EncodeBytes typed))) as (sbs & Hread & Hall); try done.
  { by exists outs'. }
  { unfold lenZ. lia. }
  exists (sb :: sbs). split; [|by constructor]. cbn [length]. remember (S (length gs)) as n eqn:Hn. cbn [read_all].
  unfold cr_NextBatch, ensure_channel. rewrite Hfn. unfold next_batch. cbn [bf_stream bf_limit].
  rewrite rlp_read by (unfold lenZ; lia). cbn [rbind]. rewrite Hdec. cbn [rbind]. fold f'.
  assert (batch_of (cr_with cr (Some f') (cr_prev cr)) d = Ok (Span sb)) as ->.
  { unfold batch_of. rewrite Hty. change (cr_cfg (cr_with cr (Some f') (cr_prev cr))) with (cr_cfg cr).
    change (cr_Origin (cr_with cr (Some f') (cr_prev cr))) with (cr_Origin cr). rewrite Hcfg, Hdelta, Hid. cbn. by rewrite Hder. }
  by rewrite Hread.
Qed.
End channel_in.

(** ** The frames of singular channels *)

(** A frame of a singular channel fits the size that was asked for, whenever
    the compressor fills the buffers it is given. *)
Theorem so_frame_fits {C} `{!Compressor C} (co : SingularChannelOut C) m co' w n last :
  (forall c k c' d, cp_ReadFull c k = (c', Ok d) -> length d = k) -> 0 <= cp_Len (so_compress co) -> length (so_id co) = ChannelIDLength ->
  0 <= m < two64 -> so_OutputFrame co m = (co', Ok (w, n, last)) -> lenZ w <= m.
Proof.
  intros Hread Hlen Hid Hm. unfold so_OutputFrame. destruct (Z.ltb_spec m FrameV0OverHeadSize); [done|].
  destruct (cp_ReadFull _ _) as [c [d|e|]] eqn:Hd; [|done|done]. intros [= _ <- _ _]. apply Hread in Hd. unfold lenZ.
  assert (length (Data (createEmptyFrame (so_id co) (so_frame co) (so_ReadyBytes co) (so_closed co) m)) <= Z.to_nat (m - 23))%nat as Hb.
  { unfold createEmptyFrame, FrameV0OverHeadSize in *. rewrite u64_small by (unfold is_u64; lia).
    destruct (Z.leb_spec (so_ReadyBytes co) (m - 23)); simpl; rewrite length_replicate; unfold so_ReadyBytes in *; lia. }
  rewrite marshal_length; [|unfold createEmptyFrame; by destruct (_ <=? _)]. simpl. unfold FrameV0OverHeadSize in *. lia.
Qed.

(** ** From the blocks to the batches *)

Section roundtrip.
Context {T : Type} `{!SpanBatchTxs T} {tx_ok : Z -> bytes -> Prop}
  {holds : T -> Z -> list bytes -> Prop} `{!SpanBatchTxsLaws T tx_ok holds}.
Context `{!SingularRLP} `{!RLPBytes} {RL : RLPBytesLaws} {KC : Keccak}.
Context {CW : Type} `{!Compression CW} `{!Decompression} {brotli : CW -> bool} {CL : CompressionLaws CW brotli}.
Context {P : Type} `{!RawChannelProvider P}.

Lemma concat_join (ls : list bytes) : concat ls = mjoin ls.
Proof. induction ls as [|l ls IH]; [done|]. simpl. by rewrite IH. Qed.

(** The frames of the closed channel: they fit the size, parse back from a
    batcher transaction, and a channel that gets them in any order, or in order
    if it requires that, reads as the data. *)
Definition framed (co : SpanChannelOut T CW) (m : Z) : Prop :=
  let data := compressed (compressor co) in
  exists fs, output_loop (S (Z.to_nat (lenZ data / (m - 23)))) co m = (MarshalBinary <$> fs, true) /\
    Forall (fun f => lenZ (Data f) <= m - 23) fs /\
    (is_bytes (co_id co) -> length (co_id co) = ChannelIDLength -> is_bytes data -> m - 23 <= MaxFrameLen ->
     ParseFrames (DerivationVersion0 :: concat (MarshalBinary <$> fs)) = Ok fs) /\
    forall ordered open arrival, arrival.*1 ≡ₚ fs -> (ordered = true -> arrival.*1 = fs) ->
      exists ch, AddFrames (NewChannel (co_id co) open ordered) arrival = Ok ch /\
      IsReady ch = true /\ Reader ch = Ok data.

Lemma closed_framed co m : co_closed co = true -> co_frame co = 0 -> 23 < m < two64 ->
  lenZ (compressed (compressor co)) / (m - 23) < two16 -> framed co m.
Proof.
  intros Hc Hf Hm Hn. set (data := compressed (compressor co)) in *. unfold framed. fold data. unfold lenZ in *.
  assert (0 <= Z.of_nat (length data) / (m - 23)) as Hq by (apply Z.div_pos; lia).
  assert (Z.of_nat (length data) < (Z.of_nat (length data) / (m - 23) + 1) * (m - 23)) as Hdiv.
  { pose proof (Z.mul_succ_div_gt (Z.of_nat (length data)) (m - 23) ltac:(lia)) as Hgt. unfold Z.succ in Hgt. lia. }
  destruct (output_complete m Hm (S (Z.to_nat (Z.of_nat (length data) / (m - 23)))) co) as (fs & Hout & Hfs & Hcat & Hsz & Hlfs); [done|lia| | |lia|].
  { fold data. nia. }
  { lia. }
  rewrite Hf in Hfs. exists fs. split; [done|]. split; [done|]. split.
  - intros Hid Hlen Hb Hmax. assert (Forall frame_ok fs) as Hok.
    { apply Forall_lookup_2. intros i f Hi. apply lookup_lt_Some in Hi as Hlt. destruct (proj2 Hfs i f Hi) as (Hfid & Hfn & _).
      split; [by rewrite Hfid|by rewrite Hfid|rewrite Hfn; unfold is_u16; lia| |pose proof (Forall_lookup_1 _ _ _ _ Hsz Hi); simpl in *; lia].
      unfold data in Hb. rewrite <-Hcat in Hb. apply list_elem_of_lookup_2, list_elem_of_split in Hi as (l1 & l2 & ->).
      rewrite fmap_app, fmap_cons, concat_app in Hb. cbn [concat] in Hb. by apply Forall_app in Hb as [_ [Hb _]%Forall_app]. }
    unfold ParseFrames. change (negb (DerivationVersion0 =? DerivationVersion0)) with false. cbn iota.
    rewrite concat_join, parse_loop_frames by done. simpl. by destruct fs, Hfs.
  - intros ordered open arrival Harr Hord. unfold data. rewrite <-Hcat. apply reassembly_correct; [|done|done]. by apply frames_from_complete.
Qed.

(** C2: what the batcher writes to a span channel the verifier reads from it.
    Blocks are added until one is refused because the channel is full (or all
    are taken), and the channel is closed.  Then, for every compression, every
    target size and every limit of blocks per span batch: frames of any size of
    which fewer than 65536 are enough carry the channel, in any order of arrival
    to a channel bank that does not require order and in order to one that does;
    and the channel reader hands out span batches of exactly the blocks that were
    taken, in order, with their first parent and last origin checks, and then
    asks for the next channel, whenever Delta is active at the L1 block of the
    channel (and Fjord, unless the compression is zlib) and that block is not
    older than the blocks. *)
Theorem span_channel_roundtrip cfg chainID tgt algo maxBlocks id co0 blocks co acc r : L2ChainID cfg = Some chainID ->
  NewSpanChannelOut tgt algo (NewChainSpec cfg) maxBlocks (Ok id) = Ok co0 ->
  add_all co0 blocks = (co, acc, r) -> r = Ok tt \/ (exists e, r = Err e /\ full_error e) ->
  Forall (fun s => Forall (tx_ok chainID) (sb_Transactions s)) blocks.*1 ->
  Z.of_nat (length (concat (sb_Transactions <$> blocks.*1))) < two64 ->
  (acc <> [] -> span_ok (BlockTime cfg) acc) -> span_small acc ->
  exists co', co_Close co = (co', Ok tt) /\ co_id co' = id /\
    (forall m, 23 < m < two64 -> lenZ (compressed (compressor co')) / (m - 23) < two16 -> framed co' m) /\
    (forall (p p' : P), NextRawChannel p = (p', Ok (compressed (compressor co'))) ->
       IsDelta cfg (l1_Time (raw_Origin p')) = true -> (algo <> Zlib -> IsFjord cfg (l1_Time (raw_Origin p')) = true) ->
       Forall (fun s => sb_Timestamp s <= l1_Time (raw_Origin p')) acc ->
       exists gs (sbs : list (SpanBatch T)), concat gs = acc /\ Forall2 span_of gs sbs /\
         read_all (S (length gs)) (NewChannelInReader cfg p) = (Span <$> sbs, Err NotEnoughData)).
Proof.
  intros Hid Hnew Hadd Hr Htx Hsz Hok Hsm.
  destruct (New_inv (holds := holds) (L2Time (cfg_Genesis cfg)) chainID tgt algo _ maxBlocks id co0 Hnew eq_refl Hid)
    as (Hi & Hset & Hcl & Hw & Hcid & Hfr & Hspec & Hbr).
  destruct (add_all_spec _ _ blocks co0 [] [] co acc r Hi Hset Hcl Hw Htx Hsz Hadd Hr) as (Hwr & Hs1 & Hcl1 & Hw1).
  destruct (Close_spec _ _ co _ Hwr Hcl1) as (co' & Hclose & Hcl' & Hs2 & rlp & gs & Hrlp & Hca & Hcat & Hne & Hsp).
  simpl in Hcat, Hw1. destruct Hs1 as (Hid1 & Hfr1 & Hspec1 & Hbr1), Hs2 as (Hid2 & Hfr2 & _ & _).
  exists co'. split; [done|]. split; [congruence|]. split; [intros m; apply closed_framed; [done|congruence]|].
  intros p p' Hp Hdelta Hfjord Hts. rewrite <-Hcat in Hok, Hsm. exists gs. set (t := l1_Time (raw_Origin p')) in *.
  set (cr := cr_with (NewChannelInReader cfg p) (Some {| bf_stream := {| rd_data := rlp; rd_end := EOF |};
    bf_limit := MaxRLPBytesPerChannel (NewChainSpec cfg) t |}) p').
  destruct (read_spans (holds := holds) cfg chainID gs Hid cr rlp (MaxRLPBytesPerChannel (NewChainSpec cfg) t)) as (sbs & Hread & Hall); try done.
  { by apply groups_ok. }
  { rewrite Hrlp, <-Hspec, <-Hspec1. by apply Hw1. }
  exists sbs. split; [done|]. split; [done|]. rewrite <-Hread. cbn [read_all].
  assert (cr_NextBatch (NewChannelInReader cfg p) = cr_NextBatch cr) as ->; [|done].
  unfold cr_NextBatch. assert (ensure_channel (NewChannelInReader cfg p) = ensure_channel cr) as ->; [|done].
  unfold ensure_channel. cbn [nextBatchFn NewChannelInReader cr_prev cr cr_with]. rewrite Hp. unfold WriteChannel.
  cbn [cr_Origin cr_prev cr_with cr_spec cr_cfg NewChannelInReader]. fold t. rewrite Hbr1, Hbr in Hca.
  rewrite (BatchReader_carries _ _ _ _ _ Hca); [done|]. intros Hz. apply Hfjord. intros ->. by rewrite bool_decide_eq_true_2 in Hz.
Qed.
End roundtrip.

(** ** Force-closing *)

(** The number of the first closing frame. *)
Fixpoint first_close (frames : list Frame) : option Z :=
  match frames with
  | [] => None
  | f :: frames' => if IsLast f then Some (FrameNumber f) else first_close frames'
  end.

Abbreviation numbers_of frames := (list_to_set (FrameNumber <$> frames) : gset Z).

Lemma close_scan_spec id frames : Forall (fun f => ID f = id) frames -> forall numbers c closed,
  close_scan id frames numbers c closed = Ok (numbers_of frames ∪ numbers,
    (if closed then c else default c (first_close frames)), closed || bool_decide (is_Some (first_close frames))).
Proof.
  induction 1 as [|f frames Hf _ IH]; intros numbers c closed; cbn [close_scan first_close].
  { rewrite orb_false_r. destruct closed; f_equal; f_equal; f_equal; simpl; set_solver. }
  rewrite bool_decide_eq_true_2 by done. simpl negb. cbn iota. rewrite IH.
  assert (numbers_of (f :: frames) ∪ numbers = numbers_of frames ∪ ({[FrameNumber f]} ∪ numbers)) as -> by (simpl; set_solver).
  by destruct closed, (IsLast f).
Qed.

(** The empty frames for the numbers from [i] to [c] that are not there. *)
Definition fillers (id : ChannelID) (numbers : gset Z) (i c : Z) : list Frame :=
  (fun n => {| ID := id; FrameNumber := n; Data := []; IsLast := false |}) <$> filter (.∉ numbers) (seqZ i (c + 1 - i)).

Lemma close_loop_spec id numbers c : c + 1 < two16 -> forall fuel i out, 0 <= i <= c + 1 -> c + 1 - i < Z.of_nat fuel ->
  close_loop fuel id numbers c i out = Some (out ++ concat (MarshalBinary <$> fillers id numbers i c)).
Proof.
  intros Hc. induction fuel as [|fuel IH]; intros i out Hi Hf; [lia|]. cbn [close_loop]. destruct (Z.ltb_spec c i).
  { unfold fillers. replace (c + 1 - i) with 0 by lia. simpl. by rewrite app_nil_r. }
  rewrite u16_small by (unfold is_u16; lia). rewrite IH by lia. unfold fillers. rewrite (seqZ_cons i (c + 1 - i)) by lia.
  replace (Z.succ i) with (i + 1) by lia. replace (Z.pred (c + 1 - i)) with (c + 1 - (i + 1)) by lia. case_decide as Hin.
  - by rewrite (filter_cons_False (.∉ numbers)) by (intros Hn; by apply Hn).
  - rewrite (filter_cons_True (.∉ numbers)) by done. rewrite !fmap_cons. cbn [concat]. by rewrite <-app_assoc.
Qed.

Lemma close_loop_spins fuel id numbers i out : 0 <= i < two16 -> close_loop fuel id numbers (two16 - 1) i out = None.
Proof.
  revert i out. induction fuel as [|fuel IH]; intros i out Hi; [done|]. cbn [close_loop].
  destruct (Z.ltb_spec (two16 - 1) i); [lia|]. apply IH. unfold u16. by apply Z.mod_pos_bound.
Qed.

(** [ForceCloseTxData] of the frames of a channel: without a closing frame the
    data closes the channel at frame 0; otherwise it fills exactly the numbers
    up to the first closing frame that are missing, and when that frame has
    the last number of all it never returns. *)
Theorem ForceCloseTxData_spec id frames : frames <> [] -> Forall (fun f => ID f = id) frames ->
  match first_close frames with
  | None => forall fuel, ForceCloseTxData fuel frames =
      Some (Ok (DerivationVersion0 :: MarshalBinary {| ID := id; FrameNumber := 0; Data := []; IsLast := true |}))
  | Some c =>
      (0 <= c < two16 - 1 -> forall fuel, c + 1 < Z.of_nat fuel ->
       ForceCloseTxData fuel frames = Some (Ok (DerivationVersion0 :: concat (MarshalBinary <$> fillers id (numbers_of frames) 0 c)))) /\
      (c = two16 - 1 -> forall fuel, ForceCloseTxData fuel frames = None)
  end.
Proof.
  intros Hne Hid. destruct frames as [|f frames]; [done|]. set (fs := f :: frames) in *.
  assert (forall fuel, ForceCloseTxData fuel fs = match close_scan id fs ∅ 0 false with
    | Err e => Some (Err e) | Panic => Some Panic
    | Ok (numbers, closeNumber, closed) => if negb closed then
            Some (Ok ([DerivationVersion0] ++ MarshalBinary {| ID := id; FrameNumber := 0; Data := []; IsLast := true |}))
          else Ok <$> close_loop fuel id numbers closeNumber 0 [DerivationVersion0] end) as Heq.
  { intros fuel. apply Forall_cons_1 in Hid as [<- _]. done. }
  rewrite (close_scan_spec id fs Hid) in Heq. replace (numbers_of fs ∪ ∅) with (numbers_of fs) in Heq by set_solver.
  destruct (first_close fs) as [c|]; [split|].
  - intros Hr fuel Hf. rewrite Heq. cbn [orb]. change (default 0 (Some _)) with c. by rewrite close_loop_spec by lia.
  - intros Hc fuel. rewrite Heq. cbn [orb]. change (default 0 (Some c)) with c. rewrite Hc. by rewrite close_loop_spins by done.
  - intros fuel. by rewrite Heq.
Qed.

(** ** Examples *)

Module ChannelExamples.
Section examples.
#[local] Existing Instances ex_lib ex_laws.

(** Stored data: a header byte for zlib, nothing for brotli. *)
#[local] Instance stored : Compression (bool * bool) := {
  zlib_NewWriter := Ok (false, false);
  brotli_NewWriter _ := (true, false);
  cw_Write w d := ((w.1, true), (if w.1 || w.2 then [] else [0x78]) ++ d, Ok tt);
  cw_Flush w := (w, [], Ok tt);
  cw_Close w := (w, [], Ok tt);
  cw_Reset w := (w.1, false) }.
#[local] Instance unstored : Decompression := {
  zlib_NewReader d := Ok {| rd_data := tail d; rd_end := EOF |};
  brotli_NewReader d := {| rd_data := d; rd_end := EOF |} }.

#[local] Instance stored_laws : CompressionLaws (bool * bool) fst.
Proof.
  split; try done.
  - by intros w [= <-].
  - intros [[] h] d; do 4 eexists; (split; [reflexivity|]; split; [reflexivity|]); simpl.
    + by rewrite app_nil_r.
    + exists 0x78, d. by rewrite app_nil_r.
Qed.

(** Strings with their length in unary. *)
Definition unary (v : bytes) : bytes := replicate (length v) 1 ++ 0 :: v.
Fixpoint ones (d : bytes) : nat := match d with 1 :: d' => S (ones d') | _ => O end.
#[local] Instance unary_rlp : RLPBytes := {
  rlp_EncodeBytes := unary;
  rlp_Bytes s limit :=
    match rd_data s with
    | [] => Err (rd_end s)
    | d => let n := ones d in
           if limit <? 2 * Z.of_nat n + 1 then Err (Msg "value too large")
           else Ok (take n (drop (S n) d), {| rd_data := drop (2 * n + 1) d; rd_end := rd_end s |}, limit - (2 * Z.of_nat n + 1))
    end }.

Lemma ones_unary v rest : ones (unary v ++ rest) = length v.
Proof. unfold unary. induction (length v) as [|n IH]; [done|]. simpl. by f_equal. Qed.

#[local] Instance unary_laws : RLPBytesLaws.
Proof.
  split; [|done]. intros v rest e limit. unfold lenZ. cbn [rlp_Bytes unary_rlp rd_data rd_end rlp_EncodeBytes]. assert (length (unary v) = 2 * length v + 1)%nat as Hl.
  { unfold unary. rewrite length_app, length_replicate. simpl. lia. }
  rewrite Hl. intros Hlim. destruct (unary v ++ rest) as [|x l] eqn:Heq; [by destruct v|]. rewrite <-Heq, ones_unary.
  destruct (Z.ltb_spec limit (2 * Z.of_nat (length v) + 1)); [lia|]. f_equal. f_equal; [|lia]. f_equal.
  - unfold unary. rewrite <-app_assoc. cbn [app]. change (0 :: v ++ rest) with ([0] ++ (v ++ rest)). rewrite app_assoc.
    rewrite drop_app_length'; [by rewrite take_app_length|rewrite length_app, length_replicate; simpl; lia].
  - f_equal. apply drop_app_length'. lia.
Qed.

#[local] Instance no_singular : SingularRLP := {| rlp_encode_singular _ := []; rlp_decode_singular _ := Err EOF |}.

(** A stage that has one channel. *)
#[local] Instance one_channel : RawChannelProvider (option bytes) := {
  NextRawChannel p := match p with Some d => (None, Ok d) | None => (None, Err EOF) end;
  raw_Origin _ := {| l1_Hash := 1; l1_Number := 1; l1_ParentHash := 0; l1_Time := 200 |};
  raw_Reset p := (p, Err EOF);
  raw_FlushChannel p := Ok None }.

Definition config : Config :=
  {| cfg_Genesis := {| L2 := {| bid_Hash := 17; bid_Number := 0 |}; L2Time := 50; gen_SystemConfig := gen_SystemConfig (cfg_Genesis example_config) |};
     BlockTime := 2; cfg_MaxSequencerDrift := 600; SeqWindowSize := 3600; ChannelTimeoutBedrock := 300; L2ChainID := Some 7;
     RegolithTime := Some 0; CanyonTime := Some 0; DeltaTime := Some 0; EcotoneTime := Some 110; FjordTime := Some 120;
     GraniteTime := Some 120; HoloceneTime := Some 130; IsthmusTime := None; JovianTime := None; InteropTime := None;
     PectraBlobScheduleTime := None |}.

Definition id : ChannelID := replicate 16 9.

(** Two blocks per span batch and a target of 1000 bytes: the third block is
    refused. *)
Definition new_out : result (SpanChannelOut spanBatchTxs (bool * bool)) := NewSpanChannelOut 1000 Brotli (NewChainSpec config) 2 (Ok id).
Definition co0 : SpanChannelOut spanBatchTxs (bool * bool) :=
  ltac:(let r := eval vm_compute in new_out in match r with Ok ?co => exact co end).
Definition run := add_all co0 ex_span_input.
Definition taken : list SingularBatch := take 2 ex_span_input.*1.

Lemma span_channel_roundtrip_witness : run.2 = Err ErrCompressorFull /\
  exists co' gs sbs, co_Close run.1.1 = (co', Ok tt) /\ framed co' 100 /\
    read_all (S (length gs)) (NewChannelInReader config (Some (compressed (compressor co')))) = (Span <$> sbs, Err NotEnoughData) /\
    concat gs = taken /\ Forall2 (span_of (T := spanBatchTxs)) gs sbs.
Proof.
  assert (Hr : run.2 = Err ErrCompressorFull) by (vm_compute; reflexivity). split; [exact Hr|].
  assert (Hnew : NewSpanChannelOut 1000 Brotli (NewChainSpec config) 2 (Ok id) = Ok co0) by (vm_compute; reflexivity).
  assert (Hadd : add_all co0 ex_span_input = (run.1.1, taken, run.2)).
  { assert (Ht : run.1.2 = taken) by (vm_compute; reflexivity). rewrite <-Ht. unfold run. by destruct (add_all co0 ex_span_input) as [[? ?] ?]. }
  assert (Hfull : run.2 = Ok tt \/ exists e, run.2 = Err e /\ full_error e).
  { right. exists ErrCompressorFull. split; [exact Hr|left; reflexivity]. }
  assert (Htx : Forall (fun s => Forall (tx_ok 7) (sb_Transactions s)) ex_span_input.*1) by (apply Forall_true; intros s; apply ex_txs_ok).
  assert (Hok : taken <> [] -> span_ok (BlockTime config) taken).
  { intros _. exact (span_ok_segment 2 [] taken (drop 2 ex_span_input.*1) ex_span_ok ltac:(discriminate)). }
  assert (Hsm : span_small taken) by (split; vm_compute; congruence).
  assert (Hsz : Z.of_nat (length (concat (sb_Transactions <$> ex_span_input.*1))) < two64) by (vm_compute; reflexivity).
  destruct (span_channel_roundtrip (holds := txs_holds) (P := option bytes) config 7 1000 Brotli 2 id co0 ex_span_input run.1.1 taken run.2
    eq_refl Hnew Hadd Hfull Htx Hsz Hok Hsm) as (co' & Hclose & _ & Hframes & Hread).
  assert (Hco : co' = (co_Close run.1.1).1) by (by rewrite Hclose).
  destruct (Hread (Some (compressed (compressor co'))) None eq_refl) as (gs & sbs & Hcat & Hall & Hreads).
  - vm_compute. reflexivity.
  - intros _. vm_compute. reflexivity.
  - unfold taken, ex_span_input. cbn [fmap list_fmap fst take]. repeat (apply Forall_cons_2; [vm_compute; congruence|]). apply Forall_nil_2.
  - exists co', gs, sbs. split; [exact Hclose|]. split; [|split; [exact Hreads|split; [exact Hcat|exact Hall]]].
    apply Hframes; [vm_compute; split; reflexivity|]. rewrite Hco. vm_compute. reflexivity.
Defined.

(** Closing a channel that has its first frame fails: the closing frame is
    taken for a duplicate. *)
Lemma force_close_refused :
  let f := mk_frame 0 [3] false in
  let ch := NewChannel (ID f) zeroL1BlockRef false in
  exists ch1 close, AddFrame ch f zeroL1BlockRef = Ok ch1 /\
    ForceCloseTxData 10 [f] = Some (Ok (DerivationVersion0 :: MarshalBinary close)) /\ IsLast close = true /\
    AddFrame ch1 close zeroL1BlockRef = Err DuplicateErr.
Proof. do 2 eexists. split; [reflexivity|]. split; [reflexivity|]. split; reflexivity. Qed.

(** After 65536 frames the numbers start again. *)
Lemma frame_numbers_wrap : FrameNumber (createEmptyFrame id 65536 1 true 24) = 0.
Proof. reflexivity. Qed.
End examples.
End ChannelExamples.
