(* ===== verification/Blob.v ===== *)
(** * The blob encoding of batcher data

    Models [rhs-service/eth/blob.go]: [FromData], which packs up to 130044
    bytes into the 4096 field elements of a blob, leaving the two top bits of
    every element clear, and [ToData], which unpacks them.  A [Blob] is the
    list of its 131072 bytes; the local closures of [FromData] are functions
    on the record of the variables they share.  The main results are the
    round trip, and that [ToData] accepts exactly the encodings, up to two
    bits of the first byte. *)

From S2P Require Import Prelude EthTypes.

Definition BlobSize : Z := 4096 * 32.
Definition MaxBlobDataSize : Z := (4 * 31 + 3) * 1024 - 4.
Definition EncodingVersion : Z := 0.
Definition VersionOffset : Z := 1.
Definition Rounds : Z := 1024.

Definition ErrBlobInvalidFieldElement : error := Msg "invalid field element".
Definition ErrBlobInvalidEncodingVersion : error := Msg "invalid encoding version".
Definition ErrBlobInvalidLength : error := Msg "invalid length for blob".
Definition ErrBlobInputTooLarge : error := Msg "too much data to encode in one blob".
Definition ErrBlobExtraneousData : error :=
  Msg "non-zero data encountered where blob should be empty".
Definition ErrBlobExtraneousDataFieldElement : error :=
  Msg "non-zero data encountered where field element should be empty".

(** [b[i]] *)
Definition byte_at (b : bytes) (i : Z) : result Z :=
  match b !! Z.to_nat i with
  | Some v => if i <? 0 then Panic else Ok v
  | None => Panic
  end.

(** [b[i] = v] *)
Definition set_byte (b : bytes) (i v : Z) : result bytes :=
  if (i <? 0) || (len b <=? i) then Panic else Ok (<[Z.to_nat i := v]> b).

(** ** Encoding *)

Record enc_state : Type := {
  es_b : bytes;
  es_readOffset : Z;
  es_writeOffset : Z;
  es_buf31 : bytes }.

Definition zero31 : bytes := replicate 31 0.

Definition read1 (data : bytes) (s : enc_state) : enc_state * Z :=
  if len data <=? es_readOffset s then (s, 0)
  else ({| es_b := es_b s; es_readOffset := es_readOffset s + 1;
           es_writeOffset := es_writeOffset s; es_buf31 := es_buf31 s |},
        nth (Z.to_nat (es_readOffset s)) data 0).

Definition read31 (data : bytes) (s : enc_state) : enc_state :=
  if len data <=? es_readOffset s then
    {| es_b := es_b s; es_readOffset := es_readOffset s; es_writeOffset := es_writeOffset s;
       es_buf31 := copy_at 0 zero31 (es_buf31 s) |}
  else
    let n := Z.min 31 (len data - es_readOffset s) in
    let buf := copy_at 0 (drop (Z.to_nat (es_readOffset s)) data) (es_buf31 s) in
    {| es_b := es_b s; es_readOffset := es_readOffset s + n; es_writeOffset := es_writeOffset s;
       es_buf31 := copy_at n zero31 buf |}.

Definition write1 (v : Z) (s : enc_state) : result enc_state :=
  if negb (es_writeOffset s mod 32 =? 0) then Panic
  else if negb (Z.land v 0xC0 =? 0) then Panic
  else
    let* b := set_byte (es_b s) (es_writeOffset s) v in
    Ok {| es_b := b; es_readOffset := es_readOffset s; es_writeOffset := es_writeOffset s + 1;
          es_buf31 := es_buf31 s |}.

Definition write31 (s : enc_state) : result enc_state :=
  if negb (es_writeOffset s mod 32 =? 1) then Panic
  else if len (es_b s) <? es_writeOffset s then Panic
  else Ok {| es_b := copy_at (es_writeOffset s) (es_buf31 s) (es_b s);
             es_readOffset := es_readOffset s; es_writeOffset := es_writeOffset s + 31;
             es_buf31 := es_buf31 s |}.

(** The version and the length take the place of the first four bytes. *)
Definition read_header (data : bytes) (s : enc_state) : enc_state :=
  let ilen := u32 (len data) in
  let buf := copy_at 0 [EncodingVersion; u8 (Z.shiftr ilen 16); u8 (Z.shiftr ilen 8); u8 ilen]
               (es_buf31 s) in
  {| es_b := es_b s; es_readOffset := es_readOffset s + Z.min 27 (len data);
     es_writeOffset := es_writeOffset s; es_buf31 := copy_at 4 data buf |}.

Definition encode_round (data : bytes) (round : Z) (s : enc_state) : result enc_state :=
  let s := if round =? 0 then read_header data s else read31 data s in
  let '(s, x) := read1 data s in
  let* s := write1 (Z.land x 0x3F) s in
  let* s := write31 s in
  let s := read31 data s in
  let '(s, y) := read1 data s in
  let* s := write1 (Z.lor (Z.land y 0x0F) (Z.shiftr (Z.land x 0xC0) 2)) s in
  let* s := write31 s in
  let s := read31 data s in
  let '(s, z) := read1 data s in
  let* s := write1 (Z.land z 0x3F) s in
  let* s := write31 s in
  let s := read31 data s in
  let* s := write1 (Z.lor (Z.shiftr (Z.land z 0xC0) 2) (Z.shiftr (Z.land y 0xF0) 4)) s in
  write31 s.

Fixpoint encode_rounds (n : nat) (data : bytes) (round : Z) (s : enc_state) : result enc_state :=
  match n with
  | O => Ok s
  | S n =>
      if es_readOffset s <? len data then
        let* s := encode_round data round s in
        encode_rounds n data (round + 1) s
      else Ok s
  end.

Definition Clear : bytes := replicate (Z.to_nat BlobSize) 0.

(** The blob after the call; with an error it is unchanged. *)
Definition FromData (data : bytes) : result bytes :=
  if MaxBlobDataSize <? len data then Err (Wrap "len" ErrBlobInputTooLarge)
  else
    let* s := encode_rounds (Z.to_nat Rounds) data 0
      {| es_b := Clear; es_readOffset := 0; es_writeOffset := 0; es_buf31 := zero31 |} in
    if es_readOffset s <? len data then Panic else Ok (es_b s).

(** ** Decoding *)

(** The first byte of the element, the two positions after it and the output
    buffer. *)
Definition decodeFieldElement (b : bytes) (opos ipos : Z) (output : bytes)
    : result (Z * Z * Z * bytes) :=
  let* first := byte_at b ipos in
  if negb (Z.land first 0xC0 =? 0) then Err (Wrap "field element" ErrBlobInvalidFieldElement)
  else if (len output <? opos) || (len b <? ipos + 32) then Panic
  else Ok (first, opos + 32, ipos + 32,
           copy_at opos (take 31 (drop (Z.to_nat (ipos + 1)) b)) output).

Definition reassembleBytes (opos : Z) (e0 e1 e2 e3 : Z) (output : bytes) : result (Z * bytes) :=
  let opos := opos - 1 in
  let x := Z.lor (Z.land e0 0x3F) (u8 (Z.shiftl (Z.land e1 0x30) 2)) in
  let y := Z.lor (Z.land e1 0x0F) (u8 (Z.shiftl (Z.land e3 0x0F) 4)) in
  let z := Z.lor (Z.land e2 0x3F) (u8 (Z.shiftl (Z.land e3 0x30) 2)) in
  let* output := set_byte output (opos - 32) z in
  let* output := set_byte output (opos - 32 * 2) y in
  let* output := set_byte output (opos - 32 * 3) x in
  Ok (opos, output).

(** The last three elements of a round, and the bytes reassembled. *)
Definition decode_tail (b : bytes) (e0 opos ipos : Z) (output : bytes)
    : result (Z * Z * bytes) :=
  let* r := decodeFieldElement b opos ipos output in
  let '(e1, opos, ipos, output) := r in
  let* r := decodeFieldElement b opos ipos output in
  let '(e2, opos, ipos, output) := r in
  let* r := decodeFieldElement b opos ipos output in
  let '(e3, opos, ipos, output) := r in
  let* (opos, output) := reassembleBytes opos e0 e1 e2 e3 output in
  Ok (opos, ipos, output).

Definition decode_round (b : bytes) (opos ipos : Z) (output : bytes) : result (Z * Z * bytes) :=
  let* r := decodeFieldElement b opos ipos output in
  let '(e0, opos, ipos, output) := r in
  decode_tail b e0 opos ipos output.

Fixpoint decode_rounds (n : nat) (b : bytes) (outputLen opos ipos : Z) (output : bytes)
    : result (Z * Z * bytes) :=
  match n with
  | O => Ok (opos, ipos, output)
  | S n =>
      if opos <? outputLen then
        let* r := decode_round b opos ipos output in
        let '(opos, ipos, output) := r in
        decode_rounds n b outputLen opos ipos output
      else Ok (opos, ipos, output)
  end.

Definition all_zero (l : bytes) : bool := forallb (Z.eqb 0) l.

Definition ToData (b : bytes) : result bytes :=
  let* version := byte_at b VersionOffset in
  if negb (version =? EncodingVersion) then Err (Wrap "expected version" ErrBlobInvalidEncodingVersion)
  else
    let* b2 := byte_at b 2 in
    let* b3 := byte_at b 3 in
    let* b4 := byte_at b 4 in
    let outputLen := Z.lor (Z.lor (Z.shiftl b2 16) (Z.shiftl b3 8)) b4 in
    if MaxBlobDataSize <? outputLen then Err (Wrap "got" ErrBlobInvalidLength)
    else
      let output := replicate (Z.to_nat MaxBlobDataSize) 0 in
      let output := copy_at 0 (take 27 (drop 5 b)) output in
      let* e0 := byte_at b 0 in
      let* r := decode_tail b e0 28 32 output in
      let '(opos, ipos, output) := r in
      let* r := decode_rounds (Z.to_nat (Rounds - 1)) b outputLen opos ipos output in
      let '(opos, ipos, output) := r in
      if negb (all_zero (drop (Z.to_nat outputLen) output)) then
        Err (Wrap "fe" ErrBlobExtraneousDataFieldElement)
      else if negb (all_zero (drop (Z.to_nat ipos) b)) then
        Err (Wrap "pos" ErrBlobExtraneousData)
      else Ok (take (Z.to_nat outputLen) output).

(** ** The encoding as a function of chunks

    127 bytes become 4 elements of 32 bytes: 31 bytes of each are copied and
    the other three are spread over the first bytes. *)

Definition six_A (x : Z) : Z := Z.land x 0x3F.
Definition six_B (x y : Z) : Z := Z.lor (Z.land y 0x0F) (Z.shiftr (Z.land x 0xC0) 2).
Definition six_D (y z : Z) : Z :=
  Z.lor (Z.shiftr (Z.land z 0xC0) 2) (Z.shiftr (Z.land y 0xF0) 4).

Definition pack7 (s1 : bytes) (x : Z) (s2 : bytes) (y : Z) (s3 : bytes) (z : Z) (s4 : bytes) : bytes :=
  six_A x :: s1 ++ six_B x y :: s2 ++ six_A z :: s3 ++ six_D y z :: s4.

Definition eight_x (e0 e1 : Z) : Z := Z.lor (Z.land e0 0x3F) (u8 (Z.shiftl (Z.land e1 0x30) 2)).
Definition eight_y (e1 e3 : Z) : Z := Z.lor (Z.land e1 0x0F) (u8 (Z.shiftl (Z.land e3 0x0F) 4)).

Definition unpack7 (e0 : Z) (s1 : bytes) (e1 : Z) (s2 : bytes) (e2 : Z) (s3 : bytes) (e3 : Z)
    (s4 : bytes) : bytes :=
  s1 ++ eight_x e0 e1 :: s2 ++ eight_y e1 e3 :: s3 ++ eight_x e2 e3 :: s4.

Definition pack_chunk (c : bytes) : bytes :=
  let r1 := drop 31 c in
  let r2 := drop 32 r1 in
  let r3 := drop 32 r2 in
  pack7 (take 31 c) (hd 0 r1) (take 31 (tail r1)) (hd 0 r2) (take 31 (tail r2)) (hd 0 r3)
    (take 31 (tail r3)).

Definition unpack_chunk (c : bytes) : bytes :=
  let r1 := drop 32 c in
  let r2 := drop 32 r1 in
  let r3 := drop 32 r2 in
  unpack7 (hd 0 c) (take 31 (tail c)) (hd 0 r1) (take 31 (tail r1)) (hd 0 r2) (take 31 (tail r2))
    (hd 0 r3) (take 31 (tail r3)).

Fixpoint pack (n : nat) (l : bytes) : bytes :=
  match n with
  | O => []
  | S n => pack_chunk (take 127 l) ++ pack n (drop 127 l)
  end.

Fixpoint unpack (n : nat) (l : bytes) : bytes :=
  match n with
  | O => []
  | S n => unpack_chunk (take 128 l) ++ unpack n (drop 128 l)
  end.

(** The first byte of an element has its two top bits clear. *)
Definition clear2 (e : Z) : bool := Z.land e 0xC0 =? 0.

Definition clean_chunk (c : bytes) : bool :=
  let r1 := drop 32 c in
  let r2 := drop 32 r1 in
  let r3 := drop 32 r2 in
  clear2 (hd 0 c) && clear2 (hd 0 r1) && clear2 (hd 0 r2) && clear2 (hd 0 r3).

Fixpoint clean (n : nat) (l : bytes) : bool :=
  match n with
  | O => true
  | S n => clean_chunk (take 128 l) && clean n (drop 128 l)
  end.

(** *** Bits *)

Lemma byte_brute2 (P : Z -> Z -> bool) :
  forallb (fun a => forallb (P a) (seqZ 0 256)) (seqZ 0 256) = true ->
  forall a b, is_byte a -> is_byte b -> P a b = true.
Proof.
  intros H a b Ha Hb. assert (forall c, is_byte c -> In c (seqZ 0 256)) as Hin.
  { intros c Hc. apply list_elem_of_In, elem_of_seqZ. unfold is_byte in Hc. lia. }
  rewrite forallb_forall in H. specialize (H a (Hin a Ha)). rewrite forallb_forall in H.
  exact (H b (Hin b Hb)).
Qed.

Lemma six_clear x y : is_byte x -> is_byte y ->
  clear2 (six_A x) && clear2 (six_B x y) && clear2 (six_D x y) = true.
Proof.
  revert x y. apply (byte_brute2 (fun x y => clear2 (six_A x) && clear2 (six_B x y) && clear2 (six_D x y))).
  vm_compute. reflexivity.
Qed.

Lemma six_byte x y : is_byte x -> is_byte y ->
  is_byte (six_A x) /\ is_byte (six_B x y) /\ is_byte (six_D x y).
Proof.
  intros Hx Hy.
  pose proof (byte_brute2 (fun x y => (six_A x <? 256) && (six_B x y <? 256) && (six_D x y <? 256)
    && (0 <=? six_A x) && (0 <=? six_B x y) && (0 <=? six_D x y)) ltac:(vm_compute; reflexivity) x y Hx Hy) as H.
  cbv beta in H. unfold is_byte. lia.
Qed.

(** One check over all pairs of bytes. *)
Definition bits_ok (a b : Z) : bool :=
  (eight_x (six_A a) (six_B a b) =? a)
  && (eight_x (six_A b) (six_D a b) =? b)
  && (Z.land (six_B a b) 0x0F =? Z.land b 0x0F)
  && (Z.land (six_D a b) 0x0F =? Z.shiftr a 4)
  && (Z.lor (Z.land a 0x0F) (u8 (Z.shiftl (Z.shiftr a 4) 4)) =? a)
  && (six_A (eight_x a b) =? Z.land a 0x3F)
  && (Z.land (eight_y a b) 0x0F =? Z.land a 0x0F)
  && (Z.shiftr (Z.land (eight_x a b) 0xC0) 2 =? Z.land b 0x30)
  && (Z.shiftr (Z.land (eight_y a b) 0xF0) 4 =? Z.land b 0x0F)
  && (eight_x a b <? 256) && (eight_y a b <? 256) && (0 <=? eight_x a b) && (0 <=? eight_y a b)
  && (Z.lor (Z.land a 0x0F) (Z.land a 0x30) =? Z.land a 0x3F)
  && (Z.lor (Z.land a 0x30) (Z.land a 0x0F) =? Z.land a 0x3F)
  && (negb (clear2 a) || (Z.land a 0x3F =? a))
  && clear2 (Z.land a 0x3F) && (Z.land a 0x3F <? 256) && (0 <=? Z.land a 0x3F).

Lemma bits_all a b : is_byte a -> is_byte b -> bits_ok a b = true.
Proof. revert a b. apply byte_brute2. vm_compute. reflexivity. Qed.

Lemma unpack7_pack7 s1 x s2 y s3 z s4 : is_byte x -> is_byte y -> is_byte z ->
  unpack7 (six_A x) s1 (six_B x y) s2 (six_A z) s3 (six_D y z) s4
  = s1 ++ x :: s2 ++ y :: s3 ++ z :: s4.
Proof.
  intros Hx Hy Hz. pose proof (bits_all x y Hx Hy) as H1. pose proof (bits_all y z Hy Hz) as H2.
  unfold bits_ok in H1, H2. repeat rewrite andb_true_iff in H1, H2. rewrite !Z.eqb_eq in H1, H2.
  unfold unpack7. assert (eight_x (six_A x) (six_B x y) = x) as -> by tauto.
  assert (eight_x (six_A z) (six_D y z) = z) as -> by tauto. do 4 f_equal. unfold eight_y.
  assert (Z.land (six_B x y) 0x0F = Z.land y 0x0F) as -> by tauto.
  assert (Z.land (six_D y z) 0x0F = Z.shiftr y 4) as -> by tauto. tauto.
Qed.

Lemma pack7_unpack7 e0 s1 e1 s2 e2 s3 e3 s4 :
  is_byte e0 -> is_byte e1 -> is_byte e2 -> is_byte e3 ->
  clear2 e1 = true -> clear2 e2 = true -> clear2 e3 = true ->
  pack7 s1 (eight_x e0 e1) s2 (eight_y e1 e3) s3 (eight_x e2 e3) s4
  = Z.land e0 0x3F :: s1 ++ e1 :: s2 ++ e2 :: s3 ++ e3 :: s4.
Proof.
  intros H0 H1 H2 H3 C1 C2 C3. pose proof (bits_all e0 e1 H0 H1) as B01.
  pose proof (bits_all e1 e3 H1 H3) as B13. pose proof (bits_all e2 e3 H2 H3) as B23.
  pose proof (bits_all e3 e3 H3 H3) as B33.
  unfold bits_ok in *. repeat rewrite andb_true_iff in *. rewrite !Z.eqb_eq, C1, C2, C3 in *.
  simpl in B13, B23, B33. rewrite !Z.eqb_eq in *.
  unfold pack7, six_B, six_D. f_equal; [tauto|]. f_equal. f_equal.
  { transitivity (Z.land e1 0x3F); [|tauto]. transitivity (Z.lor (Z.land e1 0x0F) (Z.land e1 0x30)); [|tauto].
    f_equal; tauto. }
  f_equal. f_equal; [transitivity (Z.land e2 0x3F); tauto|]. f_equal. f_equal.
  transitivity (Z.land e3 0x3F); [|tauto]. transitivity (Z.lor (Z.land e3 0x30) (Z.land e3 0x0F)); [|tauto].
  f_equal; tauto.
Qed.

(** *** Chunks *)

Definition zeros (n : nat) : bytes := replicate n 0.

Lemma chunk_split (c : bytes) : length c = 127%nat -> exists s1 x s2 y s3 z s4,
  c = s1 ++ x :: s2 ++ y :: s3 ++ z :: s4
  /\ length s1 = 31%nat /\ length s2 = 31%nat /\ length s3 = 31%nat /\ length s4 = 31%nat.
Proof.
  intros Hc. assert (forall (l : bytes) n, (31 < n)%nat -> length l = n ->
    exists s x r, l = s ++ x :: r /\ length s = 31%nat /\ length r = (n - 32)%nat) as Hs.
  { intros l n Hn Hl. exists (take 31 l). destruct (drop 31 l) as [|x r] eqn:E.
    - apply (f_equal length) in E. rewrite length_drop in E. cbn [length] in E. lia.
    - exists x, r. split_and!; [by rewrite <- E, take_drop|rewrite length_take; lia|].
      apply (f_equal length) in E. rewrite length_drop in E. cbn [length] in E. lia. }
  destruct (Hs c 127%nat ltac:(lia) Hc) as (s1 & x & r1 & -> & H1 & Hr1).
  destruct (Hs r1 95%nat ltac:(lia) Hr1) as (s2 & y & r2 & -> & H2 & Hr2).
  destruct (Hs r2 63%nat ltac:(lia) Hr2) as (s3 & z & r3 & -> & H3 & Hr3).
  exists s1, x, s2, y, s3, z, r3. done.
Qed.

Lemma element_split (c : bytes) n : (32 <= n)%nat -> length c = n -> exists e s r,
  c = e :: s ++ r /\ length s = 31%nat /\ length r = (n - 32)%nat.
Proof.
  intros Hn Hc. destruct c as [|e c]; [simpl in Hc; lia|]. exists e, (take 31 c), (drop 31 c).
  simpl in Hc. rewrite take_drop, length_take, length_drop. split_and!; [done|lia|lia].
Qed.

Lemma block_split (c : bytes) : length c = 128%nat -> exists e0 s1 e1 s2 e2 s3 e3 s4,
  c = e0 :: s1 ++ e1 :: s2 ++ e2 :: s3 ++ e3 :: s4
  /\ length s1 = 31%nat /\ length s2 = 31%nat /\ length s3 = 31%nat /\ length s4 = 31%nat.
Proof.
  intros Hc. destruct (element_split c 128 ltac:(lia) Hc) as (e0 & s1 & r1 & -> & H1 & Hr1).
  destruct (element_split r1 96 ltac:(lia) Hr1) as (e1 & s2 & r2 & -> & H2 & Hr2).
  destruct (element_split r2 64 ltac:(lia) Hr2) as (e2 & s3 & r3 & -> & H3 & Hr3).
  destruct (element_split r3 32 ltac:(lia) Hr3) as (e3 & s4 & r4 & -> & H4 & Hr4).
  destruct r4; [|simpl in Hr4; lia]. exists e0, s1, e1, s2, e2, s3, e3, s4. by rewrite app_nil_r.
Qed.

Lemma pack_chunk_eq s1 x s2 y s3 z s4 :
  length s1 = 31%nat -> length s2 = 31%nat -> length s3 = 31%nat -> length s4 = 31%nat ->
  pack_chunk (s1 ++ x :: s2 ++ y :: s3 ++ z :: s4) = pack7 s1 x s2 y s3 z s4.
Proof.
  intros H1 H2 H3 H4. unfold pack_chunk. rewrite (drop_app_length' s1) by done. cbn [drop hd tail].
  rewrite (drop_app_length' s2) by done. cbn [drop hd tail].
  rewrite (drop_app_length' s3) by done. cbn [drop hd tail].
  by rewrite !take_app_length', take_ge by (done || lia).
Qed.

Lemma unpack_chunk_eq e0 s1 e1 s2 e2 s3 e3 s4 :
  length s1 = 31%nat -> length s2 = 31%nat -> length s3 = 31%nat -> length s4 = 31%nat ->
  unpack_chunk (e0 :: s1 ++ e1 :: s2 ++ e2 :: s3 ++ e3 :: s4) = unpack7 e0 s1 e1 s2 e2 s3 e3 s4.
Proof.
  intros H1 H2 H3 H4. unfold unpack_chunk. cbn [drop hd tail].
  rewrite (drop_app_length' s1) by done. cbn [drop hd tail].
  rewrite (drop_app_length' s2) by done. cbn [drop hd tail].
  rewrite (drop_app_length' s3) by done. cbn [drop hd tail].
  by rewrite !take_app_length', take_ge by (done || lia).
Qed.

Lemma clean_chunk_eq e0 s1 e1 s2 e2 s3 e3 s4 :
  length s1 = 31%nat -> length s2 = 31%nat -> length s3 = 31%nat ->
  clean_chunk (e0 :: s1 ++ e1 :: s2 ++ e2 :: s3 ++ e3 :: s4)
  = clear2 e0 && clear2 e1 && clear2 e2 && clear2 e3.
Proof.
  intros H1 H2 H3. unfold clean_chunk. cbn [drop hd].
  rewrite (drop_app_length' s1) by done. cbn [drop hd].
  rewrite (drop_app_length' s2) by done. cbn [drop hd].
  by rewrite (drop_app_length' s3) by done.
Qed.

Lemma length_pack_chunk c : length c = 127%nat -> length (pack_chunk c) = 128%nat.
Proof.
  intros Hc. destruct (chunk_split c Hc) as (s1 & x & s2 & y & s3 & z & s4 & -> & H1 & H2 & H3 & H4).
  rewrite pack_chunk_eq by done. unfold pack7. cbn [length]. rewrite !length_app. cbn [length].
  rewrite !length_app. cbn [length]. rewrite !length_app. cbn [length]. lia.
Qed.

Lemma length_unpack_chunk c : length c = 128%nat -> length (unpack_chunk c) = 127%nat.
Proof.
  intros Hc. destruct (block_split c Hc) as (e0 & s1 & e1 & s2 & e2 & s3 & e3 & s4 & -> & H1 & H2 & H3 & H4).
  rewrite unpack_chunk_eq by done. unfold unpack7. rewrite !length_app. cbn [length].
  rewrite !length_app. cbn [length]. rewrite !length_app. cbn [length]. lia.
Qed.

(** The bytes of a concatenation. *)
Ltac split_bytes H :=
  repeat match type of H with
         | is_bytes (_ ++ _) => apply Forall_app in H as [? H]
         | is_bytes (_ :: _) => apply Forall_cons in H as [? H]
         | Forall is_byte (_ ++ _) => apply Forall_app in H as [? H]
         | Forall is_byte (_ :: _) => apply Forall_cons in H as [? H]
         end.

Lemma pack_chunk_ok c : length c = 127%nat -> is_bytes c ->
  unpack_chunk (pack_chunk c) = c /\ clean_chunk (pack_chunk c) = true /\ is_bytes (pack_chunk c).
Proof.
  intros Hc Hb. destruct (chunk_split c Hc) as (s1 & x & s2 & y & s3 & z & s4 & -> & H1 & H2 & H3 & H4).
  split_bytes Hb. rewrite pack_chunk_eq by done. unfold pack7.
  rewrite unpack_chunk_eq, clean_chunk_eq, unpack7_pack7 by done.
  pose proof (six_clear x y ltac:(done) ltac:(done)). pose proof (six_clear y z ltac:(done) ltac:(done)).
  pose proof (six_clear z z ltac:(done) ltac:(done)). rewrite !andb_true_iff in *.
  destruct (six_byte x y) as (? & ? & _); [done|done|]. destruct (six_byte y z) as (_ & _ & ?); [done|done|].
  destruct (six_byte z z) as (? & _ & _); [done|done|].
  split_and!; [done|tauto..|]. repeat first [apply Forall_app; split | apply Forall_cons; split]; done.
Qed.

Lemma unpack_chunk_ok c : length c = 128%nat -> is_bytes c ->
  is_bytes (unpack_chunk c)
  /\ (clean_chunk (<[0%nat := Z.land (hd 0 c) 0x3F]> c) = true ->
      pack_chunk (unpack_chunk c) = <[0%nat := Z.land (hd 0 c) 0x3F]> c).
Proof.
  intros Hc Hb. destruct (block_split c Hc) as (e0 & s1 & e1 & s2 & e2 & s3 & e3 & s4 & -> & H1 & H2 & H3 & H4).
  split_bytes Hb. rewrite unpack_chunk_eq by done. unfold unpack7. split.
  - pose proof (bits_all e0 e1 ltac:(done) ltac:(done)) as B01.
    pose proof (bits_all e1 e3 ltac:(done) ltac:(done)) as B13.
    pose proof (bits_all e2 e3 ltac:(done) ltac:(done)) as B23.
    unfold bits_ok in *. rewrite !andb_true_iff in *. rewrite !Z.ltb_lt, !Z.leb_le in *.
    repeat first [apply Forall_app; split | apply Forall_cons; split]; try done; unfold is_byte; tauto.
  - simpl (<[0%nat := _]> _). cbn [hd]. rewrite clean_chunk_eq, !andb_true_iff by done.
    intros [[[? ?] ?] ?]. rewrite pack_chunk_eq by done. by rewrite pack7_unpack7.
Qed.

Lemma insert_hd_id (c : bytes) : length c = 128%nat -> is_bytes c -> clean_chunk c = true ->
  <[0%nat := Z.land (hd 0 c) 0x3F]> c = c.
Proof.
  intros Hc Hb. destruct c as [|e c]; [done|]. apply Forall_cons in Hb as [He _].
  unfold clean_chunk. cbn [hd]. rewrite !andb_true_iff. intros [[[Hcl _] _] _]. simpl. f_equal.
  pose proof (bits_all e e He He) as B. unfold bits_ok in B. rewrite !andb_true_iff, Hcl in B.
  simpl in B. rewrite !Z.eqb_eq in B. tauto.
Qed.

Lemma pack_unpack_chunk c : length c = 128%nat -> is_bytes c -> clean_chunk c = true ->
  pack_chunk (unpack_chunk c) = c.
Proof.
  intros Hc Hb Hcl. destruct (unpack_chunk_ok c Hc Hb) as [_ H]. rewrite insert_hd_id in H by done.
  by apply H.
Qed.

Lemma pack_ok n l : length l = (127 * n)%nat -> is_bytes l ->
  length (pack n l) = (128 * n)%nat /\ is_bytes (pack n l)
  /\ unpack n (pack n l) = l /\ clean n (pack n l) = true.
Proof.
  revert l. induction n as [|n IH]; intros l Hl Hb.
  - destruct l; [|simpl in Hl; lia]. repeat split; constructor.
  - cbn [pack unpack clean].
    assert (length (take 127 l) = 127%nat) as Ht by (rewrite length_take; lia).
    pose proof (length_pack_chunk _ Ht) as Hp.
    destruct (pack_chunk_ok _ Ht ltac:(auto with rollup)) as (Hu & Hc & Hb').
    destruct (IH (drop 127 l)) as (Hlen & Hby & Hun & Hcl); [rewrite length_drop; lia|auto with rollup|].
    rewrite take_app_length', drop_app_length' by done. split_and!.
    + rewrite length_app. lia.
    + by apply Forall_app.
    + by rewrite Hu, Hun, take_drop.
    + by rewrite Hc, Hcl.
Qed.

Lemma unpack_ok n l : length l = (128 * n)%nat -> is_bytes l ->
  length (unpack n l) = (127 * n)%nat /\ is_bytes (unpack n l)
  /\ (clean n l = true -> pack n (unpack n l) = l).
Proof.
  revert l. induction n as [|n IH]; intros l Hl Hb.
  - destruct l; [|simpl in Hl; lia]. repeat split; constructor.
  - cbn [pack unpack clean].
    assert (length (take 128 l) = 128%nat) as Ht by (rewrite length_take; lia).
    pose proof (length_unpack_chunk _ Ht) as Hu.
    destruct (unpack_chunk_ok _ Ht ltac:(auto with rollup)) as (Hb' & _).
    destruct (IH (drop 128 l)) as (Hlen & Hby & Hpa); [rewrite length_drop; lia|auto with rollup|]. split_and!.
    + rewrite length_app. lia.
    + by apply Forall_app.
    + rewrite andb_true_iff. intros [Hc Hcl]. rewrite take_app_length', drop_app_length' by done.
      rewrite Hpa, pack_unpack_chunk by auto with rollup. apply take_drop.
Qed.

Lemma pack_zeros n : pack n (zeros (127 * n)) = zeros (128 * n).
Proof.
  induction n as [|n IH]; [done|]. unfold zeros in *. cbn [pack].
  rewrite take_replicate, drop_replicate.
  replace (127 `min` (127 * S n))%nat with 127%nat by lia.
  replace (127 * S n - 127)%nat with (127 * n)%nat by lia. rewrite IH.
  replace (128 * S n)%nat with (128 + 128 * n)%nat by lia. by rewrite replicate_add.
Qed.

Lemma unpack_zeros n : unpack n (zeros (128 * n)) = zeros (127 * n) /\ clean n (zeros (128 * n)) = true.
Proof.
  rewrite <- pack_zeros. destruct (pack_ok n (zeros (127 * n))) as (_ & _ & H1 & H2); [|apply is_bytes_zeros|done].
  by unfold zeros; rewrite length_replicate.
Qed.

(** The blob with the two unchecked bits cleared. *)
Definition mask_first (b : bytes) : bytes := <[0%nat := Z.land (hd 0 b) 0x3F]> b.

Lemma mask_first_ok n b : length b = (128 * S n)%nat -> is_bytes b ->
  length (mask_first b) = (128 * S n)%nat /\ is_bytes (mask_first b)
  /\ unpack (S n) (mask_first b) = unpack (S n) b
  /\ mask_first (mask_first b) = mask_first b
  /\ drop 1 (mask_first b) = drop 1 b.
Proof.
  intros Hl Hb. unfold mask_first. rewrite length_insert.
  destruct b as [|e b]; [simpl in Hl; lia|]. simpl (<[0%nat := _]> _). cbn [hd].
  apply Forall_cons in Hb as [He Hb]. pose proof (bits_all e e He He) as B.
  unfold bits_ok in B. rewrite !andb_true_iff, !Z.ltb_lt, !Z.leb_le in B.
  assert (Z.land (Z.land e 0x3F) 0x3F = Z.land e 0x3F) as Hi by by rewrite <- Z.land_assoc.
  split_and!; [done| | |simpl; by rewrite Hi|done].
  - apply Forall_cons. split; [unfold is_byte; tauto|done].
  - cbn [unpack]. change (take 128 (?a :: b)) with (a :: take 127 b).
    f_equal. unfold unpack_chunk, unpack7, eight_x. cbn [hd tail drop]. by rewrite Hi.
Qed.
