(* ===== verification/BlobCodec.v ===== *)
(** * The blob codec is correct

    [FromData] packs the version, the length and the data chunk by chunk
    ([pack] of [Blob]); [ToData] inverts it and rejects everything else.  The
    loops stop early when the data ends, which changes nothing: zeros pack to
    zeros. *)

From S2P Require Import Prelude EthTypes Blob.

(** ** [FromData] packs the header and the data *)

Lemma copy_at_zeros P s m : copy_at (len P) s (P ++ zeros (length s + m)) = P ++ s ++ zeros m.
Proof.
  unfold zeros. rewrite replicate_add. apply copy_at_mid. apply length_replicate.
Qed.

Lemma copy_at_all s Q : length Q = length s -> copy_at 0 s Q = s.
Proof.
  intros HQ. pose proof (copy_at_mid [] s Q [] HQ) as H. by rewrite !app_nil_r in H.
Qed.

(** [n] bytes of an input that continues with zeros. *)
Definition pad (n : nat) (r : bytes) : bytes := take n (r ++ zeros n).

Lemma length_pad n r : length (pad n r) = n.
Proof. unfold pad, zeros. rewrite length_take, length_app, length_replicate. lia. Qed.

Lemma is_bytes_pad n r : is_bytes r -> is_bytes (pad n r).
Proof. intros Hr. apply is_bytes_take, Forall_app. split; [done|apply is_bytes_zeros]. Qed.

Lemma pad_alt n r : pad n r = take n r ++ zeros (n - length r).
Proof.
  unfold pad. rewrite take_app. f_equal. unfold zeros. rewrite take_replicate. f_equal. lia.
Qed.

Lemma pad_add a b r : pad (a + b) r = pad a r ++ pad b (drop a r).
Proof.
  rewrite !pad_alt, length_drop. destruct (decide (a <= length r)%nat) as [H|H].
  - replace (a - length r)%nat with 0%nat by lia. change (zeros 0) with (@nil Z).
    rewrite app_nil_r, app_assoc, take_take_drop. do 2 f_equal. lia.
  - rewrite (take_ge r), (take_ge r), drop_ge, take_nil by lia. cbn [app].
    rewrite <- app_assoc. unfold zeros. rewrite <- replicate_add. do 2 f_equal. lia.
Qed.

Lemma pad_nil n : pad n [] = zeros n.
Proof. rewrite pad_alt, take_nil. cbn [app length]. f_equal. lia. Qed.

Definition enc_at (P : bytes) (m : nat) (ro : Z) (buf : bytes) : enc_state :=
  {| es_b := P ++ zeros m; es_readOffset := ro; es_writeOffset := len P; es_buf31 := buf |}.

(** Reading is reading the padded rest of the data. *)
Definition after (data : bytes) (ro n : Z) : Z := Z.min (len data) (ro + n).

Definition rest (data : bytes) (ro : Z) : bytes := drop (Z.to_nat ro) data.

Lemma rest_after data ro n : 0 <= ro <= len data -> 0 <= n ->
  0 <= after data ro n <= len data /\ rest data (after data ro n) = drop (Z.to_nat n) (rest data ro).
Proof.
  intros Hro Hn. unfold after, rest, len in *. split; [lia|]. rewrite drop_drop.
  destruct (decide (ro + n <= Z.of_nat (length data))).
  - f_equal. lia.
  - rewrite !drop_ge by lia. done.
Qed.

Lemma read31_spec data P m ro buf : 0 <= ro <= len data -> length buf = 31%nat ->
  read31 data (enc_at P m ro buf) = enc_at P m (after data ro 31) (pad 31 (rest data ro)).
Proof.
  intros Hro Hb. unfold read31, enc_at, after, rest. cbn [es_readOffset es_b es_writeOffset es_buf31].
  destruct (Z.leb_spec (len data) ro) as [H|H].
  - rewrite drop_ge, pad_nil by (unfold len in *; lia). f_equal; [lia|].
    apply (copy_at_all zero31 buf). by rewrite Hb.
  - f_equal; [lia|]. set (r := drop (Z.to_nat ro) data).
    assert (len r = len data - ro) as Hr by (unfold r, len in *; rewrite length_drop; lia).
    rewrite <- Hr, pad_alt. unfold copy_at at 2. cbn [Z.to_nat]. rewrite take_0, Hb. cbn [app Nat.sub].
    unfold len in *. destruct (decide (length r <= 31)%nat) as [Hs|Hs].
    + rewrite !(take_ge r) by lia. replace (Z.min 31 (Z.of_nat (length r))) with (len r) by (unfold len; lia).
      unfold copy_at. rewrite to_nat_len, take_app_length, length_app, length_drop, Hb.
      change (length zero31) with 31%nat. rewrite drop_ge by (rewrite length_app, length_drop; lia).
      rewrite app_nil_r. f_equal. unfold zero31, zeros. rewrite take_replicate. f_equal. lia.
    + rewrite (drop_ge buf) by lia. rewrite app_nil_r. replace (Z.min 31 (Z.of_nat (length r))) with 31 by lia.
      replace (31 - length r)%nat with 0%nat by lia. change (take (31 - Z.to_nat 0) r) with (take 31 r).
      assert (length (take 31 r) = 31%nat) as Hl by (rewrite length_take; lia).
      unfold copy_at. rewrite Hl. by rewrite (take_ge (take 31 r)), (drop_ge (take 31 r)) by lia.
Qed.

Lemma read1_spec data P m ro buf : 0 <= ro <= len data ->
  exists x, read1 data (enc_at P m ro buf) = (enc_at P m (after data ro 1) buf, x)
    /\ pad 1 (rest data ro) = [x].
Proof.
  intros Hro. unfold read1, enc_at, after, rest. cbn [es_readOffset es_b es_writeOffset es_buf31].
  unfold len in *. destruct (Z.leb_spec (Z.of_nat (length data)) ro) as [H|H].
  - exists 0. rewrite drop_ge, pad_nil by lia. split; [|done]. do 2 f_equal. lia.
  - exists (nth (Z.to_nat ro) data 0). rewrite Z.min_r by lia. split; [done|].
    destruct (drop (Z.to_nat ro) data) as [|x r] eqn:E.
    + apply (f_equal length) in E. rewrite length_drop in E. cbn [length] in E. lia.
    + unfold pad. simpl. f_equal. rewrite <- (Nat.add_0_r (Z.to_nat ro)), <- nth_skipn.
      change skipn with (@drop Z). by rewrite E.
Qed.

Lemma rbind_assoc {A B C} (r : result A) (f : A -> result B) (g : B -> result C) :
  rbind r (fun a => rbind (f a) g) = rbind (rbind r f) g.
Proof. by destruct r. Qed.

(** Writing one field element. *)
Lemma write_element v P m ro buf : len P mod 32 = 0 -> clear2 v = true -> length buf = 31%nat ->
  rbind (write1 v (enc_at P (32 + m) ro buf)) write31 = Ok (enc_at (P ++ v :: buf) m ro buf).
Proof.
  intros HP Hv Hb. unfold write1, enc_at. cbn [es_writeOffset es_b es_readOffset es_buf31].
  unfold clear2 in Hv. rewrite HP, Hv. cbn [negb Z.eqb]. unfold set_byte.
  rewrite len_app. assert (0 <= len P) by (unfold len; lia).
  assert (len (zeros (32 + m)) = 32 + Z.of_nat m) as Hz
    by (unfold len, zeros; rewrite length_replicate; lia).
  rewrite Hz, (proj2 (Z.ltb_ge _ _)), (proj2 (Z.leb_gt _ _)) by lia. cbn [orb rbind].
  rewrite to_nat_len. change (zeros (32 + m)) with (0 :: zeros (31 + m)).
  replace (length P) with (length P + 0)%nat by lia. rewrite insert_app_r. cbn [insert list_insert].
  unfold write31. cbn [es_writeOffset es_b es_readOffset es_buf31].
  assert ((len P + 1) mod 32 = 1) as ->.
  { rewrite Z.add_mod, HP by lia. done. }
  cbn [negb Z.eqb Pos.eqb]. rewrite len_app, len_cons.
  rewrite (proj2 (Z.ltb_ge _ _)) by (unfold len; lia).
  f_equal. replace (len P + 1) with (len (P ++ [v])) by (rewrite len_app; unfold len; simpl; lia).
  rewrite (cons_middle v P (zeros (31 + m))), app_assoc. rewrite <- Hb at 1. rewrite (copy_at_zeros (P ++ [v]) buf m).
  f_equal; [by rewrite <- !app_assoc|]. rewrite !len_app, !len_cons. unfold len. rewrite Hb. simpl. lia.
Qed.

Lemma mod32_element P v (buf : bytes) : len P mod 32 = 0 -> length buf = 31%nat ->
  len (P ++ v :: buf) mod 32 = 0.
Proof.
  intros HP Hb. rewrite len_app, len_cons. unfold len at 2. rewrite Hb.
  change (Z.of_nat 31 + 1) with 32. rewrite Z.add_mod, HP by lia. done.
Qed.

Definition blob_header (data : bytes) : bytes :=
  [EncodingVersion; u8 (Z.shiftr (u32 (len data)) 16); u8 (Z.shiftr (u32 (len data)) 8);
   u8 (u32 (len data))].

Lemma read_header_spec data P m :
  read_header data (enc_at P m 0 zero31)
  = enc_at P m (after data 0 27) (pad 31 (blob_header data ++ data)).
Proof.
  unfold read_header, enc_at, after. cbn [es_readOffset es_b es_writeOffset es_buf31].
  f_equal; [lia|]. fold (blob_header data). set (h := blob_header data).
  pose proof (copy_at_zeros [] h 27) as H. cbn [app] in H. change (len []) with 0 in H.
  change (zeros (length h + 27)) with zero31 in H. rewrite H.
  change 4 with (len h). unfold copy_at. rewrite to_nat_len, take_app_length.
  rewrite pad_alt, take_app, length_app. change (length h) with 4%nat.
  change (take 31 h) with h. rewrite <- app_assoc. f_equal. change (31 - 4)%nat with 27%nat.
  change (length (h ++ zeros 27) - 4)%nat with 27%nat. f_equal.
  rewrite <- drop_drop. change (drop 4 (h ++ zeros 27)) with (zeros 27).
  unfold zeros. by rewrite drop_replicate.
Qed.

Lemma pad_127 R : exists x y z,
  let R1 := drop 31 R in let R2 := drop 1 R1 in let R3 := drop 31 R2 in let R4 := drop 1 R3 in
  let R5 := drop 31 R4 in let R6 := drop 1 R5 in
  pad 1 R1 = [x] /\ pad 1 R3 = [y] /\ pad 1 R5 = [z]
  /\ pad 127 R = pad 31 R ++ x :: pad 31 R2 ++ y :: pad 31 R4 ++ z :: pad 31 R6
  /\ drop 31 R6 = drop 127 R.
Proof.
  assert (forall r, exists x, pad 1 r = [x]) as Hp.
  { intros [|x r]; [by exists 0|]. by exists x. }
  intros. destruct (Hp (drop 31 R)) as [x Hx].
  destruct (Hp (drop 31 (drop 1 (drop 31 R)))) as [y Hy].
  destruct (Hp (drop 31 (drop 1 (drop 31 (drop 1 (drop 31 R)))))) as [z Hz].
  exists x, y, z. cbv zeta. split_and!; [done..| |by rewrite !drop_drop].
  rewrite (pad_add 31 96), (pad_add 1 95), (pad_add 31 64), (pad_add 1 63), (pad_add 31 32), (pad_add 1 31).
  by rewrite Hx, Hy, Hz.
Qed.

Lemma read_byte data P m ro buf x : 0 <= ro <= len data -> pad 1 (rest data ro) = [x] ->
  exists ro', read1 data (enc_at P m ro buf) = (enc_at P m ro' buf, x)
    /\ 0 <= ro' <= len data /\ rest data ro' = drop 1 (rest data ro).
Proof.
  intros Hro Hx. destruct (read1_spec data P m ro buf Hro) as (x' & Hr & Hx').
  destruct (rest_after data ro 1 Hro ltac:(lia)) as [Ho Hr'].
  exists (after data ro 1). split_and!; [|apply Ho..|done]. rewrite Hr. congruence.
Qed.

(** 31 bytes and one more. *)
Lemma read_field data P m ro buf x : 0 <= ro <= len data -> length buf = 31%nat ->
  pad 1 (drop 31 (rest data ro)) = [x] ->
  exists ro', read1 data (read31 data (enc_at P m ro buf)) = (enc_at P m ro' (pad 31 (rest data ro)), x)
    /\ 0 <= ro' <= len data /\ rest data ro' = drop 1 (drop 31 (rest data ro))
    /\ length (pad 31 (rest data ro)) = 31%nat.
Proof.
  intros Hro Hb Hx. rewrite read31_spec by done.
  destruct (rest_after data ro 31 Hro ltac:(lia)) as [Ho Hr]. change (Z.to_nat 31) with 31%nat in Hr.
  rewrite <- Hr in *. destruct (read_byte data P m _ (pad 31 (rest data ro)) x Ho Hx) as (ro' & H1 & H2 & H3).
  exists ro'. split_and!; [done|apply H2..|done|apply length_pad].
Qed.

Lemma encode_round_spec data round P m ro buf R ro1 :
  is_bytes data -> is_bytes R -> len P mod 32 = 0 ->
  (if round =? 0 then read_header data (enc_at P (128 + m) ro buf)
   else read31 data (enc_at P (128 + m) ro buf)) = enc_at P (128 + m) ro1 (pad 31 R) ->
  0 <= ro1 <= len data -> rest data ro1 = drop 31 R ->
  exists ro' buf', encode_round data round (enc_at P (128 + m) ro buf)
      = Ok (enc_at (P ++ pack_chunk (pad 127 R)) m ro' buf')
    /\ length buf' = 31%nat /\ 0 <= ro' <= len data /\ rest data ro' = drop 127 R.
Proof.
  intros Hd HR HP Hfirst Hro1 Hr1. unfold encode_round. rewrite Hfirst.
  destruct (pad_127 R) as (x & y & z & Hx & Hy & Hz & Hpad & Hdrop). cbv zeta in *.
  assert (is_byte x /\ is_byte y /\ is_byte z) as (Bx & By & Bz).
  { pose proof (is_bytes_pad 127 R HR) as Hb. rewrite Hpad in Hb. split_bytes Hb. done. }
  pose proof (six_clear x y Bx By) as C1. pose proof (six_clear y z By Bz) as C2.
  pose proof (six_clear z z Bz Bz) as C3. rewrite !andb_true_iff in C1, C2, C3.
  destruct C1 as [[Cx Cxy] _], C2 as [_ Cyz], C3 as [[Cz _] _].
  set (b1 := pad 31 R) in *. assert (length b1 = 31%nat) as Hb1 by apply length_pad. rewrite <- Hr1 in *.
  destruct (read_byte data P (128 + m) ro1 b1 x Hro1 Hx) as (ro2 & -> & Ho2 & Hr2).
  change (Z.land x 0x3F) with (six_A x). change (Z.land z 0x3F) with (six_A z).
  rewrite rbind_assoc. change (128 + m)%nat with (32 + (96 + m))%nat.
  rewrite write_element by done. cbn [rbind]. apply (mod32_element P (six_A x) b1) in HP as HP1; [|done].
  set (P1 := P ++ six_A x :: b1) in *.
  rewrite <- Hr2 in *. destruct (read_field data P1 (96 + m) ro2 b1 y Ho2 Hb1 Hy) as (ro3 & -> & Ho3 & Hr3 & Hb2).
  set (b2 := pad 31 (rest data ro2)) in *.
  change (Z.lor (Z.land y 0x0F) (Z.shiftr (Z.land x 0xC0) 2)) with (six_B x y).
  rewrite rbind_assoc. change (96 + m)%nat with (32 + (64 + m))%nat.
  rewrite write_element by done. cbn [rbind]. apply (mod32_element P1 (six_B x y) b2) in HP1 as HP2; [|done].
  set (P2 := P1 ++ six_B x y :: b2) in *.
  rewrite <- Hr3 in *. destruct (read_field data P2 (64 + m) ro3 b2 z Ho3 Hb2 Hz) as (ro4 & -> & Ho4 & Hr4 & Hb3).
  set (b3 := pad 31 (rest data ro3)) in *.
  rewrite rbind_assoc. change (64 + m)%nat with (32 + (32 + m))%nat.
  rewrite write_element by done. cbn [rbind]. apply (mod32_element P2 (six_A z) b3) in HP2 as HP3; [|done].
  rewrite <- Hr4 in *. rewrite read31_spec by done. set (b4 := pad 31 (rest data ro4)) in *.
  assert (length b4 = 31%nat) as Hb4 by apply length_pad.
  change (Z.lor (Z.shiftr (Z.land z 0xC0) 2) (Z.shiftr (Z.land y 0xF0) 4)) with (six_D y z).
  rewrite write_element by done.
  destruct (rest_after data ro4 31 Ho4 ltac:(lia)) as [Ho5 Hr5].
  eexists _, _. split; [|split; [exact Hb4|split; [exact Ho5|]]].
  - do 2 f_equal. rewrite Hpad, pack_chunk_eq by done. unfold pack7, P2, P1. by rewrite <- !app_assoc.
  - rewrite Hr5. exact Hdrop.
Qed.

Lemma is_bytes_rest data ro : is_bytes data -> is_bytes (rest data ro).
Proof. apply is_bytes_drop. Qed.

Lemma pack_pad_S n R :
  pack (S n) (pad (127 * S n) R) = pack_chunk (pad 127 R) ++ pack n (pad (127 * n) (drop 127 R)).
Proof.
  replace (127 * S n)%nat with (127 + 127 * n)%nat by lia. rewrite pad_add. cbn [pack].
  by rewrite take_app_length', drop_app_length' by (by rewrite length_pad).
Qed.

Lemma mod32_chunk P R : len P mod 32 = 0 -> len (P ++ pack_chunk (pad 127 R)) mod 32 = 0.
Proof.
  intros HP. rewrite len_app. unfold len at 2. rewrite length_pack_chunk by apply length_pad.
  rewrite Z.add_mod, HP by lia. done.
Qed.

Lemma encode_rounds_spec n data round P ro buf :
  is_bytes data -> 0 < round -> len P mod 32 = 0 -> length buf = 31%nat ->
  0 <= ro <= len data -> (length (rest data ro) <= 127 * n)%nat ->
  exists s, encode_rounds n data round (enc_at P (128 * n) ro buf) = Ok s
    /\ es_b s = P ++ pack n (pad (127 * n) (rest data ro)) /\ len data <= es_readOffset s.
Proof.
  intros Hd. revert round P ro buf. induction n as [|n IH]; intros round P ro buf Hr HP Hb Hro Hl.
  - eexists. split; [done|]. split; [done|]. unfold rest, len in *. rewrite length_drop in Hl. simpl. lia.
  - cbn [encode_rounds]. cbn [enc_at es_readOffset].
    destruct (Z.ltb_spec ro (len data)) as [H|H].
    + replace (128 * S n)%nat with (128 + 128 * n)%nat by lia.
      destruct (rest_after data ro 31 Hro ltac:(lia)) as [Ho1 Hr1].
      destruct (encode_round_spec data round P (128 * n) ro buf (rest data ro) (after data ro 31))
        as (ro' & buf' & -> & Hb' & Ho' & Hr'); try done.
      { by apply is_bytes_rest. }
      { rewrite (proj2 (Z.eqb_neq round 0)) by lia. by apply read31_spec. }
      cbn [rbind]. destruct (IH (round + 1) (P ++ pack_chunk (pad 127 (rest data ro))) ro' buf')
        as (s & -> & Hs & Hro'); [lia|by apply mod32_chunk|done|done|rewrite Hr', length_drop; lia|].
      exists s. split_and!; [done| |done]. by rewrite Hs, pack_pad_S, Hr', <- app_assoc.
    + eexists. split; [reflexivity|]. split; [|done]. cbn [enc_at es_b].
      assert (rest data ro = []) as -> by (unfold rest; apply drop_ge; unfold len in H; lia).
      by rewrite pad_nil, pack_zeros.
Qed.

Definition all_rounds : nat := Z.to_nat Rounds.

Lemma all_rounds_eq : all_rounds = S (Z.to_nat (Rounds - 1)).
Proof. unfold all_rounds, Rounds. lia. Qed.

(** The stream that is packed: version, length, data and zeros. *)
Definition stream (data : bytes) : bytes := pad (127 * all_rounds) (blob_header data ++ data).

Lemma FromData_spec data : is_bytes data -> len data <= MaxBlobDataSize ->
  FromData data = Ok (pack all_rounds (stream data)).
Proof.
  intros Hd Hl. unfold FromData. rewrite (proj2 (Z.ltb_ge _ _)) by lia. fold all_rounds.
  unfold stream. rewrite all_rounds_eq.
  assert (Z.to_nat BlobSize = 128 + 128 * Z.to_nat (Rounds - 1))%nat as HB by (unfold BlobSize, Rounds; lia).
  assert (len data + 4 <= 127 * Z.of_nat (Z.to_nat (Rounds - 1)) + 127) as Hn
    by (unfold MaxBlobDataSize, Rounds in *; lia).
  unfold Clear. rewrite HB. clear HB Hl. generalize dependent (Z.to_nat (Rounds - 1)). intros n Hl.
  change (replicate (128 + 128 * n) 0) with ([] ++ zeros (128 + 128 * n)).
  change {| es_b := [] ++ zeros (128 + 128 * n); es_readOffset := 0; es_writeOffset := 0;
            es_buf31 := zero31 |} with (enc_at [] (128 + 128 * n) 0 zero31).
  cbn [encode_rounds]. change (es_readOffset (enc_at [] (128 + 128 * n) 0 zero31)) with 0.
  destruct data as [|d0 data'].
  { change (0 <? len []) with false. cbn [rbind]. change (es_readOffset _ <? len []) with false.
    cbv iota. change (blob_header [] ++ []) with (zeros 4). f_equal. cbn [enc_at es_b app].
    transitivity (pack (S n) (zeros (127 * S n))); [rewrite pack_zeros; f_equal; lia|].
    f_equal. rewrite pad_alt. unfold zeros. rewrite length_replicate, take_replicate, <- replicate_add.
    f_equal. lia. }
  set (data := d0 :: data') in *.
  rewrite (proj2 (Z.ltb_lt 0 (len data))) by (unfold len, data; simpl; lia).
  destruct (rest_after data 0 27 ltac:(unfold len; lia) ltac:(lia)) as [Ho1 Hr1].
  destruct (encode_round_spec data 0 [] (128 * n) 0 zero31 (blob_header data ++ data) (after data 0 27))
    as (ro' & buf' & -> & Hb' & Ho' & Hr'); try done.
  { apply Forall_app. split; [|done]. repeat constructor; try done; apply Z.mod_pos_bound; lia. }
  { apply read_header_spec. }
  cbn [rbind]. destruct (encode_rounds_spec n data (0 + 1) ([] ++ pack_chunk (pad 127 (blob_header data ++ data))) ro' buf')
    as (s & -> & Hs & Hro'); [done|lia|by apply mod32_chunk|done|done| |].
  { rewrite Hr', length_drop, length_app. unfold len in *. change (length (blob_header data)) with 4%nat. lia. }
  cbn [rbind]. rewrite (proj2 (Z.ltb_ge _ _)) by lia. by rewrite Hs, pack_pad_S, Hr'.
Qed.

(** ** [ToData] unpacks *)

Lemma decodeFieldElement_spec Q e s r opos output :
  length s = 31%nat -> opos <= len output ->
  decodeFieldElement (Q ++ e :: s ++ r) opos (len Q) output
  = if clear2 e then Ok (e, opos + 32, len Q + 32, copy_at opos s output)
    else Err (Wrap "field element" ErrBlobInvalidFieldElement).
Proof.
  intros Hs Ho. unfold decodeFieldElement, byte_at. rewrite to_nat_len, list_lookup_middle by done.
  assert (0 <= len Q) by (unfold len; lia). rewrite (proj2 (Z.ltb_ge (len Q) 0)) by done. cbn [rbind].
  unfold clear2. destruct (Z.land e 0xC0 =? 0); [|done]. cbn [negb].
  assert (len Q + 32 <= len (Q ++ e :: s ++ r)) as Hl
    by (rewrite len_app, len_cons, len_app; unfold len; rewrite Hs; lia).
  rewrite !(proj2 (Z.ltb_ge _ _)) by done. cbn [orb]. do 3 f_equal.
  replace (Z.to_nat (len Q + 1)) with (length (Q ++ [e])) by (rewrite length_app; unfold len; simpl; lia).
  rewrite (cons_middle e Q (s ++ r)), app_assoc, drop_app_length. by rewrite take_app_length'.
Qed.

Lemma copy_gap P s m : copy_at (len P + 1) s (P ++ zeros (S (length s) + m)) = P ++ 0 :: s ++ zeros m.
Proof.
  pose proof (copy_at_zeros (P ++ [0]) s m) as H. rewrite len_app in H.
  change (len [0]) with 1 in H. rewrite <- !app_assoc in H. exact H.
Qed.

Lemma set_byte_mid P a R v : set_byte (P ++ a :: R) (len P) v = Ok (P ++ v :: R).
Proof.
  unfold set_byte. rewrite len_app, len_cons. assert (0 <= len P /\ 0 <= len R) by (unfold len; lia).
  rewrite (proj2 (Z.ltb_ge _ _)), (proj2 (Z.leb_gt _ _)) by lia. cbn [orb]. f_equal.
  rewrite to_nat_len. replace (length P) with (length P + 0)%nat by lia. by rewrite insert_app_r.
Qed.

Lemma reassembleBytes_spec O s2 s3 s4 R e0 e1 e2 e3 :
  length s2 = 31%nat -> length s3 = 31%nat -> length s4 = 31%nat ->
  reassembleBytes (len O + 97) e0 e1 e2 e3 (O ++ 0 :: s2 ++ 0 :: s3 ++ 0 :: s4 ++ R)
  = Ok (len O + 96, O ++ eight_x e0 e1 :: s2 ++ eight_y e1 e3 :: s3 ++ eight_x e2 e3 :: s4 ++ R).
Proof.
  intros H2 H3 H4. unfold reassembleBytes. fold (eight_x e0 e1) (eight_y e1 e3) (eight_x e2 e3).
  pose proof (set_byte_mid (O ++ 0 :: s2 ++ 0 :: s3) 0 (s4 ++ R) (eight_x e2 e3)) as Ez.
  pose proof (set_byte_mid (O ++ 0 :: s2) 0 (s3 ++ eight_x e2 e3 :: s4 ++ R) (eight_y e1 e3)) as Ey.
  pose proof (set_byte_mid O 0 (s2 ++ eight_y e1 e3 :: s3 ++ eight_x e2 e3 :: s4 ++ R) (eight_x e0 e1)) as Ex.
  rewrite !len_app, !len_cons, !len_app, !len_cons in *.
  assert (len s2 = 31 /\ len s3 = 31) as [L2 L3] by (unfold len; lia). rewrite ?L2, ?L3 in *.
  repeat (rewrite <- app_assoc in Ez; cbn [app] in Ez). repeat (rewrite <- app_assoc in Ey; cbn [app] in Ey).
  replace (len O + 97 - 1 - 32) with (len O + (31 + (31 + 1) + 1)) by lia. rewrite Ez. cbn [rbind].
  replace (len O + 97 - 1 - 32 * 2) with (len O + (31 + 1)) by lia. rewrite Ey. cbn [rbind].
  replace (len O + 97 - 1 - 32 * 3) with (len O) by lia. rewrite Ex. cbn [rbind].
  do 2 f_equal. lia.
Qed.

Lemma len_zeros n : len (zeros n) = Z.of_nat n.
Proof. unfold len, zeros. by rewrite length_replicate. Qed.

Lemma app_cons_assoc (Q : bytes) e s r : (Q ++ e :: s) ++ r = Q ++ e :: s ++ r.
Proof. by rewrite <- app_assoc. Qed.

Lemma len_element Q e (s : bytes) : length s = 31%nat -> len (Q ++ e :: s) = len Q + 32.
Proof. intros Hs. rewrite len_app, len_cons. unfold len. lia. Qed.

(** One element, put after a gap of one byte. *)
Lemma decode_gap Q e s r O m : length s = 31%nat ->
  decodeFieldElement (Q ++ e :: s ++ r) (len O + 1) (len Q) (O ++ zeros (32 + m))
  = if clear2 e then Ok (e, len (O ++ 0 :: s) + 1, len (Q ++ e :: s), (O ++ 0 :: s) ++ zeros m)
    else Err (Wrap "field element" ErrBlobInvalidFieldElement).
Proof.
  intros Hs. rewrite decodeFieldElement_spec by (rewrite ?len_app, ?len_zeros; done || lia).
  destruct (clear2 e); [|done]. pose proof (copy_gap O s m) as H. rewrite Hs in H.
  change (S 31 + m)%nat with (32 + m)%nat in H. rewrite H, !len_element by done.
  rewrite app_cons_assoc. do 4 f_equal. lia.
Qed.

(** The last three elements of a round, when the first one is in the output. *)
Lemma decode_tail_spec Q O e0 e1 s2 e2 s3 e3 s4 r m :
  length s2 = 31%nat -> length s3 = 31%nat -> length s4 = 31%nat ->
  let res := decode_tail (Q ++ e1 :: s2 ++ e2 :: s3 ++ e3 :: s4 ++ r) e0 (len O + 1) (len Q)
               (O ++ zeros (96 + m)) in
  if clear2 e1 && clear2 e2 && clear2 e3 then
    res = Ok (len O + 96, len Q + 96,
              O ++ eight_x e0 e1 :: s2 ++ eight_y e1 e3 :: s3 ++ eight_x e2 e3 :: s4 ++ zeros m)
  else exists e, res = Err e.
Proof.
  intros H2 H3 H4. cbv zeta. unfold decode_tail.
  change (96 + m)%nat with (32 + (64 + m))%nat. rewrite decode_gap by done.
  destruct (clear2 e1); cbn [andb rbind]; [|by eexists].
  rewrite <- (app_cons_assoc Q). change (64 + m)%nat with (32 + (32 + m))%nat. rewrite decode_gap by done.
  destruct (clear2 e2); cbn [andb rbind]; [|by eexists].
  rewrite <- (app_cons_assoc (Q ++ _)). rewrite decode_gap by done.
  destruct (clear2 e3); cbn [andb rbind]; [|by eexists].
  replace (len _ + 1) with (len O + 97) by (rewrite !len_element by done; lia).
  rewrite !app_cons_assoc, reassembleBytes_spec by done. cbn [rbind]. do 3 f_equal.
  rewrite <- !app_cons_assoc, !len_element by done. lia.
Qed.

Lemma decode_round_spec Q P blk r m : length blk = 128%nat ->
  let res := decode_round (Q ++ blk ++ r) (len P) (len Q) (P ++ zeros (127 + m)) in
  if clean_chunk blk then
    res = Ok (len (P ++ unpack_chunk blk), len (Q ++ blk), (P ++ unpack_chunk blk) ++ zeros m)
  else exists e, res = Err e.
Proof.
  intros Hblk. cbv zeta.
  assert (len (P ++ unpack_chunk blk) = len P + 127 /\ len (Q ++ blk) = len Q + 128) as [-> ->].
  { rewrite !len_app. unfold len. rewrite length_unpack_chunk by done. lia. }
  destruct (block_split blk Hblk) as (e0 & s1 & e1 & s2 & e2 & s3 & e3 & s4 & -> & H1 & H2 & H3 & H4).
  rewrite clean_chunk_eq, unpack_chunk_eq by done. unfold decode_round.
  replace ((e0 :: s1 ++ e1 :: s2 ++ e2 :: s3 ++ e3 :: s4) ++ r)
    with (e0 :: s1 ++ e1 :: s2 ++ e2 :: s3 ++ e3 :: s4 ++ r)
    by (repeat (cbn [app]; rewrite <- ?app_assoc); done).
  rewrite decodeFieldElement_spec by (rewrite ?len_app, ?len_zeros; done || lia).
  destruct (clear2 e0); cbn [andb rbind]; [|by eexists].
  pose proof (copy_at_zeros P s1 (96 + m)) as Hc. rewrite H1 in Hc.
  change (31 + (96 + m))%nat with (127 + m)%nat in Hc. rewrite Hc.
  pose proof (decode_tail_spec (Q ++ e0 :: s1) (P ++ s1) e0 e1 s2 e2 s3 e3 s4 r m H2 H3 H4) as Ht.
  cbv zeta in Ht. rewrite len_element, app_cons_assoc, <- app_assoc in Ht by done.
  assert (len (P ++ s1) = len P + 31) as Hp by (rewrite len_app; unfold len; lia). rewrite Hp in Ht.
  replace (len P + 31 + 1) with (len P + 32) in Ht by lia.
  destruct (clear2 e1 && clear2 e2 && clear2 e3); [|exact Ht]. rewrite Ht. do 2 f_equal.
  - f_equal; lia.
  - unfold unpack7. repeat (cbn [app]; rewrite <- ?app_assoc). done.
Qed.

Lemma all_zero_iff l : all_zero l = true <-> l = zeros (length l).
Proof.
  unfold all_zero, zeros. induction l as [|a l IH]; [done|]. cbn [forallb length replicate].
  rewrite andb_true_iff, Z.eqb_eq, IH. split; [intros [<- <-]; done|]. by intros [= -> E].
Qed.

Lemma all_zero_app l r : all_zero (l ++ r) = all_zero l && all_zero r.
Proof. apply forallb_app. Qed.

Lemma all_zero_zeros n : all_zero (zeros n) = true.
Proof. apply all_zero_iff. by unfold zeros; rewrite length_replicate. Qed.

Lemma drop_app_short (n : Z) (P R : bytes) : n <= len P -> drop (Z.to_nat n) (P ++ R) = drop (Z.to_nat n) P ++ R.
Proof. intros Hn. apply drop_app_le. unfold len in Hn. lia. Qed.

Lemma block_first n (B : bytes) : length B = (128 * S n)%nat -> exists blk B',
  B = blk ++ B' /\ length blk = 128%nat /\ length B' = (128 * n)%nat.
Proof.
  intros HB. exists (take 128 B), (drop 128 B). rewrite take_drop, length_take, length_drop.
  split_and!; [done|lia|lia].
Qed.

(** The loop stops when the length is reached; together with the checks that
    the rest is zero this is decoding every chunk. *)
Lemma decode_rounds_spec n B Q P L o : length B = (128 * n)%nat -> is_bytes B ->
  (exists op ip, decode_rounds n (Q ++ B) L (len P) (len Q) (P ++ zeros (127 * n)) = Ok (op, ip, o)
     /\ all_zero (drop (Z.to_nat L) o) = true /\ all_zero (drop (Z.to_nat ip) (Q ++ B)) = true)
  <-> clean n B = true /\ o = P ++ unpack n B /\ all_zero (drop (Z.to_nat L) o) = true.
Proof.
  revert B Q P. induction n as [|n IH]; intros B Q P HB Hby.
  { destruct B; [|simpl in HB; lia]. cbn [decode_rounds clean unpack Nat.mul zeros replicate].
    rewrite !app_nil_r. split.
    - intros (op & ip & Hd & Hz & _). apply Ok_inj in Hd. by simplify_eq.
    - intros (_ & -> & Hz). exists (len P), (len Q). split_and!; [done|done|].
      rewrite to_nat_len, drop_all. done. }
  cbn [decode_rounds]. destruct (Z.ltb_spec (len P) L) as [HL|HL].
  - destruct (block_first n B HB) as (blk & B' & -> & Hblk & HB'). apply Forall_app in Hby as [_ Hby].
    cbn [clean unpack]. rewrite take_app_length', drop_app_length' by done. replace (127 * S n)%nat with (127 + 127 * n)%nat by lia.
    pose proof (decode_round_spec Q P blk B' (127 * n) Hblk) as Hr. cbv zeta in Hr.
    destruct (clean_chunk blk); cbn [andb].
    + rewrite Hr. cbn [rbind]. rewrite (app_assoc Q), (app_assoc P). by apply IH.
    + destruct Hr as [e ->]. cbn [rbind]. split; [by intros (? & ? & ? & _)|by intros [? _]].
  - destruct (unpack_ok (S n) B HB Hby) as (Hu & _ & Hp). split.
    + intros (op & ip & Hd & Hz & Hb). apply Ok_inj in Hd. simplify_eq.
      rewrite to_nat_len, drop_app_length, all_zero_iff, HB in Hb. subst B.
      destruct (unpack_zeros (S n)) as [-> ->]. done.
    + intros (Hc & -> & Hz). rewrite drop_app_short, all_zero_app, andb_true_iff in Hz by done.
      destruct Hz as [Hz1 Hz2%all_zero_iff]. rewrite Hu in Hz2. rewrite Hz2.
      exists (len P), (len Q). split_and!; [done| |].
      * by rewrite drop_app_short, all_zero_app, Hz1, all_zero_zeros.
      * rewrite to_nat_len, drop_app_length, <- (Hp Hc), Hz2, pack_zeros. apply all_zero_zeros.
Qed.

Lemma decode_rounds_no_panic n B Q P L : length B = (128 * n)%nat ->
  decode_rounds n (Q ++ B) L (len P) (len Q) (P ++ zeros (127 * n)) <> Panic.
Proof.
  revert B Q P. induction n as [|n IH]; intros B Q P HB; [done|].
  cbn [decode_rounds]. destruct (len P <? L); [|done].
  destruct (block_first n B HB) as (blk & B' & -> & Hblk & HB').
  replace (127 * S n)%nat with (127 + 127 * n)%nat by lia.
  pose proof (decode_round_spec Q P blk B' (127 * n) Hblk) as Hr. cbv zeta in Hr.
  destruct (clean_chunk blk); [|by destruct Hr as [e ->]].
  rewrite Hr. cbn [rbind]. rewrite (app_assoc Q). by apply IH.
Qed.

Definition be24 (b2 b3 b4 : Z) : Z := Z.lor (Z.lor (Z.shiftl b2 16) (Z.shiftl b3 8)) b4.

Lemma be24_eq b2 b3 b4 : is_byte b2 -> is_byte b3 -> is_byte b4 ->
  be24 b2 b3 b4 = b2 * 65536 + b3 * 256 + b4.
Proof.
  intros H2 H3 H4. unfold be24. rewrite !Z.shiftl_mul_pow2 by lia. unfold is_byte in *.
  rewrite <- Z.lor_assoc, (Z.lor_comm (b3 * 2 ^ 8)), (lor_disjoint_add b4 b3 8), Z.lor_comm by lia.
  rewrite (lor_disjoint_add _ b2 16) by lia. lia.
Qed.

Lemma header_be24 b2 b3 b4 data : is_byte b2 -> is_byte b3 -> is_byte b4 ->
  len data <= MaxBlobDataSize ->
  blob_header data = [0; b2; b3; b4] <-> be24 b2 b3 b4 = len data.
Proof.
  intros H2 H3 H4 Hl. rewrite be24_eq by done. unfold blob_header, EncodingVersion, u8, u32.
  assert (0 <= len data) by (unfold len; lia). unfold MaxBlobDataSize, is_byte in *.
  rewrite (Z.mod_small (len data)) by (unfold two32; lia).
  rewrite !Z.shiftr_div_pow2 by lia. change (2 ^ 16) with 65536. change (2 ^ 8) with 256. split.
  - intros [= <- <- <-]. pose proof (Z.div_mod (len data) 65536). pose proof (Z.div_mod (len data) 256).
    rewrite <- (Z.div_div _ 256 256) by lia. pose proof (Z.div_mod (len data / 256) 256).
    assert (len data / 256 / 256 < 256) by (apply Z.div_lt_upper_bound; [lia|]; apply Z.div_lt_upper_bound; lia).
    assert (0 <= len data / 256 / 256) by (apply Z.div_pos; [apply Z.div_pos|]; lia).
    rewrite (Z.mod_small (_ / 256 / 256)) by lia. lia.
  - intros <-. do 2 f_equal; [|f_equal; [|f_equal]].
    + replace (b2 * 65536 + b3 * 256 + b4) with (b3 * 256 + b4 + b2 * 65536) by lia.
      rewrite Z.div_add, Z.div_small, Z.mod_small by lia. lia.
    + replace (b2 * 65536 + b3 * 256 + b4) with (b4 + (b3 + b2 * 256) * 256) by lia.
      rewrite Z.div_add, Z.div_small, Z.add_0_l, Z.mod_add, Z.mod_small by lia. lia.
    + replace (b2 * 65536 + b3 * 256 + b4) with (b4 + (b3 + b2 * 256) * 256) by lia.
      rewrite Z.mod_add, Z.mod_small by lia. lia.
Qed.

(** The checks after decoding. *)
Definition finish (b : bytes) (L : Z) (r : Z * Z * bytes) : result bytes :=
  let '(opos, ipos, output) := r in
  if negb (all_zero (drop (Z.to_nat L) output)) then Err (Wrap "fe" ErrBlobExtraneousDataFieldElement)
  else if negb (all_zero (drop (Z.to_nat ipos) b)) then Err (Wrap "pos" ErrBlobExtraneousData)
  else Ok (take (Z.to_nat L) output).

Lemma blob_split (b : bytes) : length b = (128 * all_rounds)%nat ->
  exists e0 v b2 b3 b4 s1 e1 s2 e2 s3 e3 s4 B,
    b = (e0 :: (v :: b2 :: b3 :: b4 :: s1) ++ e1 :: s2 ++ e2 :: s3 ++ e3 :: s4) ++ B
    /\ length s1 = 27%nat /\ length s2 = 31%nat /\ length s3 = 31%nat /\ length s4 = 31%nat
    /\ length B = (128 * Z.to_nat (Rounds - 1))%nat.
Proof.
  rewrite all_rounds_eq. intros Hl. destruct (block_first _ b Hl) as (blk & B & -> & Hblk & HB).
  destruct (block_split blk Hblk) as (e0 & s1 & e1 & s2 & e2 & s3 & e3 & s4 & -> & H1 & H2 & H3 & H4).
  destruct s1 as [|v [|b2 [|b3 [|b4 s1]]]]; try done.
  exists e0, v, b2, b3, b4, s1, e1, s2, e2, s3, e3, s4, B. split_and!; try done. by injection H1.
Qed.

(** [ToData] with its first round carried out. *)
Lemma ToData_unfold e0 v b2 b3 b4 (s1 : bytes) e1 (s2 : bytes) e2 (s3 : bytes) e3 (s4 B : bytes) :
  length s1 = 27%nat -> length s2 = 31%nat -> length s3 = 31%nat -> length s4 = 31%nat ->
  let blk := e0 :: (v :: b2 :: b3 :: b4 :: s1) ++ e1 :: s2 ++ e2 :: s3 ++ e3 :: s4 in
  let body := s1 ++ eight_x e0 e1 :: s2 ++ eight_y e1 e3 :: s3 ++ eight_x e2 e3 :: s4 in
  let L := be24 b2 b3 b4 in let n := Z.to_nat (Rounds - 1) in
  exists err, ToData (blk ++ B)
    = if negb (v =? 0) then Err (Wrap "expected version" ErrBlobInvalidEncodingVersion)
      else if MaxBlobDataSize <? L then Err (Wrap "got" ErrBlobInvalidLength)
      else if clear2 e1 && clear2 e2 && clear2 e3 then
        rbind (decode_rounds n (blk ++ B) L (len body) (len blk) (body ++ zeros (127 * n)))
          (finish (blk ++ B) L)
      else Err err.
Proof.
  intros H1 H2 H3 H4 blk body L n.
  pose proof (decode_tail_spec (e0 :: v :: b2 :: b3 :: b4 :: s1) s1 e0 e1 s2 e2 s3 e3 s4 B
    (127 * n) H2 H3 H4) as Ht. cbv zeta in Ht.
  assert ((e0 :: v :: b2 :: b3 :: b4 :: s1) ++ e1 :: s2 ++ e2 :: s3 ++ e3 :: s4 ++ B = blk ++ B) as Eb.
  { unfold blk. repeat (cbn [app]; rewrite <- ?app_assoc). done. }
  assert (len (e0 :: v :: b2 :: b3 :: b4 :: s1) = 32 /\ len s1 = 27) as [E32 E27]
    by (rewrite !len_cons; unfold len; rewrite H1; done).
  rewrite Eb, E32, E27 in Ht. change (27 + 1) with 28 in Ht. unfold ToData. set (b := blk ++ B) in *.
  change (byte_at b VersionOffset) with (Ok v). change (byte_at b 2) with (Ok b2).
  change (byte_at b 3) with (Ok b3). change (byte_at b 4) with (Ok b4). change (byte_at b 0) with (Ok e0).
  cbn [rbind]. fold (be24 b2 b3 b4). fold L. change EncodingVersion with 0.
  destruct (negb (v =? 0)); [by exists EOF|]. destruct (MaxBlobDataSize <? L); [by exists EOF|].
  assert (copy_at 0 (take 27 (drop 5 b)) (replicate (Z.to_nat MaxBlobDataSize) 0)
          = s1 ++ zeros (96 + 127 * n)) as ->.
  { assert (take 27 (drop 5 b) = s1) as -> by (rewrite <- Eb; apply take_app_length'; done).
    replace (Z.to_nat MaxBlobDataSize) with (length s1 + (96 + 127 * n))%nat
      by (rewrite H1; unfold n, MaxBlobDataSize, Rounds; lia).
    exact (copy_at_zeros [] s1 _). }
  destruct (clear2 e1 && clear2 e2 && clear2 e3).
  - exists EOF. rewrite Ht. cbn [rbind]. unfold finish. f_equal.
    assert (len body = 123 /\ len blk = 128) as [-> ->].
    { unfold body, blk, len. cbn [app length]. rewrite !length_app. cbn [length]. rewrite !length_app.
      cbn [length]. rewrite ?length_app. cbn [length]. lia. }
    f_equal. unfold body. repeat (cbn [app]; rewrite <- ?app_assoc). done.
  - destruct Ht as [err ->]. by exists err.
Qed.

Lemma header_inj (v a b c v' a' b' c' : Z) (l l' : bytes) :
  v :: a :: b :: c :: l = v' :: a' :: b' :: c' :: l' -> v = v' /\ a = a' /\ b = b' /\ c = c' /\ l = l'.
Proof. by intros [= -> -> -> -> ->]. Qed.

Lemma clear2_mask e : clear2 (Z.land e 0x3F) = true.
Proof. unfold clear2. rewrite <- Z.land_assoc. change (Z.land 0x3F 0xC0) with 0. by rewrite Z.land_0_r. Qed.

(** The blob is accepted when the unpacked stream has version 0, an allowed
    length and zeros after the data. *)
Lemma ToData_spec b d : length b = (128 * all_rounds)%nat -> is_bytes b ->
  ToData b = Ok d
  <-> exists b2 b3 b4 body, unpack all_rounds b = 0 :: b2 :: b3 :: b4 :: body
      /\ clean all_rounds (mask_first b) = true /\ be24 b2 b3 b4 <= MaxBlobDataSize
      /\ all_zero (drop (Z.to_nat (be24 b2 b3 b4)) body) = true
      /\ d = take (Z.to_nat (be24 b2 b3 b4)) body.
Proof.
  intros Hl Hb. destruct (blob_split b Hl)
    as (e0 & v & b2 & b3 & b4 & s1 & e1 & s2 & e2 & s3 & e3 & s4 & B & -> & H1 & H2 & H3 & H4 & HB).
  destruct (ToData_unfold e0 v b2 b3 b4 s1 e1 s2 e2 s3 e3 s4 B H1 H2 H3 H4) as [err ->].
  set (blk := e0 :: _) in *. set (body := s1 ++ _). set (L := be24 b2 b3 b4).
  assert (length blk = 128%nat) as Hblk
    by (rewrite length_app, all_rounds_eq in Hl; lia).
  assert (length (v :: b2 :: b3 :: b4 :: s1) = 31%nat) as H31 by (cbn [length]; lia).
  assert (unpack_chunk blk = v :: b2 :: b3 :: b4 :: body) as Hu by (unfold blk; by rewrite unpack_chunk_eq).
  assert (clean all_rounds (mask_first (blk ++ B))
          = clear2 e1 && clear2 e2 && clear2 e3 && clean (Z.to_nat (Rounds - 1)) B) as ->.
  { rewrite all_rounds_eq. cbn [clean]. unfold mask_first. rewrite insert_app_l by lia.
    rewrite take_app_length', drop_app_length' by (by rewrite length_insert). f_equal.
    unfold blk. simpl (<[0%nat := _]> _). cbn [app hd].
    change (?a :: v :: b2 :: b3 :: b4 :: s1 ++ ?t) with (a :: (v :: b2 :: b3 :: b4 :: s1) ++ t).
    by rewrite clean_chunk_eq, clear2_mask by done. }
  assert (unpack all_rounds (blk ++ B) = (v :: b2 :: b3 :: b4 :: body) ++ unpack (Z.to_nat (Rounds - 1)) B) as ->.
  { rewrite all_rounds_eq. cbn [unpack]. by rewrite take_app_length', drop_app_length', Hu. }
  apply Forall_app in Hb as [_ Hb].
  pose proof (fun o => decode_rounds_spec (Z.to_nat (Rounds - 1)) B blk body L o HB Hb) as Hr. split.
  - destruct (Z.eqb_spec v 0) as [->|]; [|done]. destruct (Z.ltb_spec MaxBlobDataSize L) as [|HL]; [done|].
    cbn [negb]. destruct (clear2 e1 && clear2 e2 && clear2 e3); [|done].
    intros ([[op ip] o] & Hd & Hf)%rbind_Ok. unfold finish in Hf.
    destruct (all_zero (drop (Z.to_nat L) o)) eqn:E1; [|done].
    destruct (all_zero (drop (Z.to_nat ip) (blk ++ B))) eqn:E2; [|done]. apply Ok_inj in Hf as <-.
    destruct (proj1 (Hr o)) as (Hc & -> & Hz); [by exists op, ip|].
    exists b2, b3, b4, (body ++ unpack (Z.to_nat (Rounds - 1)) B). by rewrite Hc.
  - intros (c2 & c3 & c4 & body' & Heq & Hc & HL & Hz & ->). cbn [app] in Heq.
    apply header_inj in Heq as (-> & <- & <- & <- & <-). cbn [negb Z.eqb]. fold L in HL, Hz |- *.
    rewrite (proj2 (Z.ltb_ge _ _)) by done. apply andb_true_iff in Hc as [-> Hc].
    destruct (proj2 (Hr (body ++ unpack (Z.to_nat (Rounds - 1)) B))) as (op & ip & -> & Hz1 & Hz2); [by split_and!|].
    cbn [rbind finish]. by rewrite Hz1, Hz2.
Qed.

Lemma stream_eq data : len data <= MaxBlobDataSize ->
  stream data = blob_header data ++ data ++ zeros (Z.to_nat (MaxBlobDataSize - len data)).
Proof.
  intros Hl. unfold stream. rewrite pad_alt, length_app. change (length (blob_header data)) with 4%nat.
  unfold MaxBlobDataSize, len, all_rounds, Rounds in *.
  rewrite take_ge by (rewrite length_app; change (length (blob_header data)) with 4%nat; lia).
  rewrite <- app_assoc. do 3 f_equal. lia.
Qed.

Lemma is_bytes_stream data : is_bytes data -> is_bytes (stream data).
Proof.
  intros Hd. apply is_bytes_pad, Forall_app. split; [|done].
  repeat constructor; try done; apply Z.mod_pos_bound; lia.
Qed.

Lemma ToData_iff b data : length b = (128 * all_rounds)%nat -> is_bytes b ->
  ToData b = Ok data
  <-> is_bytes data /\ len data <= MaxBlobDataSize /\ FromData data = Ok (mask_first b).
Proof.
  intros Hl Hb. rewrite ToData_spec by done.
  destruct (mask_first_ok (Z.to_nat (Rounds - 1)) b) as (Hl' & Hb' & Hu & _ & _); [by rewrite <- all_rounds_eq|done|].
  rewrite <- all_rounds_eq in *.
  destruct (unpack_ok all_rounds (mask_first b) Hl' Hb') as (HlU & HbU & HpU). rewrite Hu in HlU, HbU, HpU. split.
  - intros (b2 & b3 & b4 & body & HU & Hc & HL & Hz & ->). rewrite HU in HlU, HbU, HpU.
    split_bytes HbU. set (L := be24 b2 b3 b4) in *.
    assert (0 <= L) as HL0 by (unfold L; rewrite be24_eq by done; unfold is_byte in *; lia).
    assert (length body = Z.to_nat MaxBlobDataSize) as Hbody
      by (cbn [length] in HlU; unfold MaxBlobDataSize, all_rounds, Rounds in *; lia).
    assert (len (take (Z.to_nat L) body) = L) as Hlen by (unfold len; rewrite length_take; lia).
    assert (is_bytes (take (Z.to_nat L) body)) as Hd by auto with rollup.
    split_and!; [done|lia|]. rewrite FromData_spec by (done || lia). f_equal. rewrite <- HpU by done.
    f_equal. rewrite stream_eq by lia.
    assert (blob_header (take (Z.to_nat L) body) = [0; b2; b3; b4]) as -> by (apply header_be24; done || lia).
    cbn [app]. do 4 f_equal. rewrite Hlen. rewrite <- (take_drop (Z.to_nat L) body) at 2. f_equal.
    apply all_zero_iff in Hz. rewrite Hz. f_equal. rewrite length_drop. lia.
  - intros (Hd & Hlen & HF). rewrite FromData_spec in HF by done. apply Ok_inj in HF.
    destruct (pack_ok all_rounds (stream data)) as (_ & _ & Hup & Hcl);
      [apply length_pad|by apply is_bytes_stream|].
    rewrite HF in Hup, Hcl. rewrite Hu in Hup. rewrite Hup, Hcl, stream_eq by done.
    assert (is_bytes (blob_header data)) as Hh by (repeat constructor; try done; apply Z.mod_pos_bound; lia).
    unfold blob_header in Hh |- *. set (h2 := u8 (Z.shiftr _ 16)) in *. set (h3 := u8 (Z.shiftr _ 8)) in *.
    set (h4 := u8 (u32 (len data))) in *. change EncodingVersion with 0 in *. split_bytes Hh.
    assert (be24 h2 h3 h4 = len data) as HL by (apply (header_be24 h2 h3 h4); done || reflexivity).
    exists h2, h3, h4, (data ++ zeros (Z.to_nat (MaxBlobDataSize - len data))).
    rewrite HL, to_nat_len, drop_app_length, take_app_length.
    split_and!; [done|done|done|apply all_zero_zeros|done].
Qed.

Lemma mask_first_id b : clean all_rounds b = true -> length b = (128 * all_rounds)%nat -> is_bytes b ->
  mask_first b = b.
Proof.
  intros Hc Hl Hb. rewrite all_rounds_eq in Hl, Hc.
  destruct (block_first _ b Hl) as (blk & B & -> & Hblk & HB). apply Forall_app in Hb as [Hb _].
  cbn [clean] in Hc. rewrite take_app_length' in Hc by done. apply andb_true_iff in Hc as [Hc _].
  unfold mask_first. rewrite insert_app_l by lia.
  rewrite <- (insert_hd_id blk Hblk Hb Hc) at 3. by destruct blk.
Qed.

Lemma blob_length b : len b = BlobSize <-> length b = (128 * all_rounds)%nat.
Proof. unfold len, BlobSize, all_rounds, Rounds. lia. Qed.

Lemma ToData_no_panic b : length b = (128 * all_rounds)%nat -> ToData b <> Panic.
Proof.
  intros Hl. destruct (blob_split b Hl)
    as (e0 & v & b2 & b3 & b4 & s1 & e1 & s2 & e2 & s3 & e3 & s4 & B & -> & H1 & H2 & H3 & H4 & HB).
  destruct (ToData_unfold e0 v b2 b3 b4 s1 e1 s2 e2 s3 e3 s4 B H1 H2 H3 H4) as [err ->].
  destruct (negb (v =? 0)); [done|]. destruct (MaxBlobDataSize <? _); [done|].
  destruct (clear2 e1 && clear2 e2 && clear2 e3); [|done].
  match goal with |- rbind ?r _ <> _ => assert (r <> Panic) as Hn end; [by apply decode_rounds_no_panic|].
  destruct (decode_rounds _ _ _ _ _ _) as [[[op ip] o]|e|]; [|done|done].
  cbn [rbind finish]. destruct (negb _); [done|]. by destruct (negb _).
Qed.

(** C39: blobs carry data: [FromData] encodes every input of at most 130044
    bytes without hitting one of its panics, into a blob of 131072 bytes whose
    field elements all have their two top bits clear, and [ToData] of the blob
    is the input; a longer input is refused. *)
Theorem blob_roundtrip data : is_bytes data ->
  if MaxBlobDataSize <? len data then FromData data = Err (Wrap "len" ErrBlobInputTooLarge)
  else exists b, FromData data = Ok b /\ len b = BlobSize /\ is_bytes b
    /\ clean all_rounds b = true /\ ToData b = Ok data.
Proof.
  intros Hd. destruct (Z.ltb_spec MaxBlobDataSize (len data)) as [H|H].
  - unfold FromData. by rewrite (proj2 (Z.ltb_lt _ _)).
  - destruct (pack_ok all_rounds (stream data)) as (Hl & Hb & _ & Hc);
      [apply length_pad|by apply is_bytes_stream|].
    exists (pack all_rounds (stream data)). split_and!; [by apply FromData_spec|by apply blob_length|done|done|].
    apply ToData_iff; [done|done|]. split_and!; [done|done|]. by rewrite mask_first_id, FromData_spec.
Qed.

(** [ToData] accepts only encodings: a blob decodes to [data] exactly when
    [FromData data] is this blob, except that the two top bits of its very
    first byte are not looked at; every other blob is an error, and none is a
    panic.  So of two different accepted blobs of the same data, one has these
    bits set. *)
Theorem ToData_canonical b : len b = BlobSize -> is_bytes b ->
  ToData b <> Panic
  /\ forall data, ToData b = Ok data
     <-> is_bytes data /\ len data <= MaxBlobDataSize /\ FromData data = Ok (mask_first b).
Proof.
  intros Hl%blob_length Hb. split; [by apply ToData_no_panic|]. intros data. by apply ToData_iff.
Qed.

(** ** Witnesses *)

Lemma blob_roundtrip_witness :
  exists b, FromData [1; 200; 255] = Ok b /\ ToData b = Ok [1; 200; 255].
Proof.
  pose proof (blob_roundtrip [1; 200; 255] ltac:(apply is_bytes_check; reflexivity)) as H.
  change (MaxBlobDataSize <? len [1; 200; 255]) with false in H. cbv iota in H.
  destruct H as (b & H1 & _ & _ & _ & H2). exists b. split; [exact H1|exact H2].
Defined.

Lemma Clear_cons : exists t, Clear = 0 :: t.
Proof.
  exists (replicate (Z.to_nat (BlobSize - 1)) 0). unfold Clear.
  replace (Z.to_nat BlobSize) with (S (Z.to_nat (BlobSize - 1))) by (unfold BlobSize; lia). done.
Qed.

(** A blob with the two bits set still decodes, to the empty input. *)
Lemma ToData_canonical_witness :
  ToData (<[0%nat := 192]> Clear) = Ok [] /\ FromData [] = Ok Clear.
Proof.
  assert (is_bytes (<[0%nat := 192]> Clear)) as Hb.
  { apply Forall_insert; [apply is_bytes_zeros|split; [discriminate|reflexivity]]. }
  assert (len (<[0%nat := 192]> Clear) = BlobSize) as Hl.
  { unfold len, Clear. rewrite length_insert, length_replicate. apply Z2Nat.id. discriminate. }
  assert (FromData [] = Ok Clear) as Hf by reflexivity.
  split; [|exact Hf]. apply (proj2 (ToData_canonical _ Hl Hb)). split; [constructor|].
  split; [discriminate|]. destruct Clear_cons as [t Ht]. rewrite Hf, Ht. reflexivity.
Defined.
