(* ===== verification/DataSources.v ===== *)
(** * The L1 data sources

    Models [rhs-node/rollup/derive/data_source.go], [calldata_source.go] and
    [blob_data_source.go]: the batcher transactions of an L1 block, their call
    data and their blobs.  The L1 node is the record [L1Source] of the calls
    that are made to it; every operation takes the node as it answers at that
    call, so that a call may fail and its repetition succeed.  The signer of
    the configuration is an interface and may be nil. *)

From S2P Require Import Prelude EthTypes RollupConfig L1Logs Blob BlobCodec.

(** [types.Transaction], the methods that are called. *)
Record L1Tx : Type := {
  tx_Type : Z;
  tx_To : option Z;
  tx_Data : bytes;
  tx_BlobHashes : list Hash }.

Definition BlobTxType : Z := 3.
Definition L1DepositTxType : Z := 126.

(** [eth.IndexedBlobHash] *)
Record IndexedBlobHash : Type := {
  ibh_Index : Z;
  ibh_Hash : Hash }.

(** The answers of the L1 node: [L1BlockRefByNumber], [FetchReceipts],
    [InfoAndTxsByHash] and [GetBlobs]. *)
Record L1Source : Type := {
  L1BlockRefByNumber : Z -> result L1BlockRef;
  FetchReceipts : Hash -> result (list Receipt);
  InfoAndTxsByHash : Hash -> result (list L1Tx);
  GetBlobs : L1BlockRef -> list IndexedBlobHash -> result (list (option bytes)) }.

Record DataSourceConfig : Type := {
  l1Signer : option (L1Tx -> result Z);
  batchInboxAddress : Z }.

(** ** Batcher transactions *)

Definition isValidBatchTx (tx : L1Tx) (signer : option (L1Tx -> result Z))
    (batchInboxAddr batcherAddr : Z) : result bool :=
  if (BlobTxType <? tx_Type tx) && negb (tx_Type tx =? L1DepositTxType) then Ok false
  else
    match tx_To tx with
    | None => Ok false
    | Some to =>
        if negb (to =? batchInboxAddr) then Ok false
        else
          match signer with
          | None => Panic
          | Some sender =>
              match sender tx with
              | Ok seqDataSubmitter => Ok (seqDataSubmitter =? batcherAddr)
              | Err _ => Ok false
              | Panic => Panic
              end
          end
    end.

Section Sources.
Context (dsCfg : DataSourceConfig) (batcherAddr : Z).

Definition is_batch_tx (tx : L1Tx) : result bool :=
  isValidBatchTx tx (l1Signer dsCfg) (batchInboxAddress dsCfg) batcherAddr.

Fixpoint DataFromEVMTransactions (txs : list L1Tx) : result (list bytes) :=
  match txs with
  | [] => Ok []
  | tx :: txs =>
      let* valid := is_batch_tx tx in
      let* out := DataFromEVMTransactions txs in
      Ok (if valid then tx_Data tx :: out else out)
  end.

(** ** Call data *)

Record CalldataSource : Type := {
  cs_open : bool;
  cs_data : list bytes;
  cs_ref : L1BlockRef }.

(** After an error the transactions are fetched again by [Next]. *)
Definition NewCalldataSource (l1 : L1Source) (ref : L1BlockRef) : result CalldataSource :=
  match InfoAndTxsByHash l1 (l1_Hash ref) with
  | Ok txs =>
      let* data := DataFromEVMTransactions txs in
      Ok {| cs_open := true; cs_data := data; cs_ref := zeroL1BlockRef |}
  | Err _ => Ok {| cs_open := false; cs_data := []; cs_ref := ref |}
  | Panic => Panic
  end.

Definition pop_calldata (ds : CalldataSource) : CalldataSource * result bytes :=
  match cs_data ds with
  | [] => (ds, Err EOF)
  | data :: rest => ({| cs_open := cs_open ds; cs_data := rest; cs_ref := cs_ref ds |}, Ok data)
  end.

(** The error of a failed fetch. *)
Definition fetch_error (msg : string) (err : error) : error :=
  Leveled (if errors_Is err NotFound then LevelReset else LevelTemporary) (Wrap msg err).

Definition CalldataSource_Next (l1 : L1Source) (ds : CalldataSource) : CalldataSource * result bytes :=
  if negb (cs_open ds) then
    match InfoAndTxsByHash l1 (l1_Hash (cs_ref ds)) with
    | Ok txs =>
        match DataFromEVMTransactions txs with
        | Ok data => pop_calldata {| cs_open := true; cs_data := data; cs_ref := cs_ref ds |}
        | Err err => (ds, Err err)
        | Panic => (ds, Panic)
        end
    | Err err => (ds, Err (fetch_error "failed to open calldata source" err))
    | Panic => (ds, Panic)
    end
  else pop_calldata ds.

(** ** Blobs *)

Record blobOrCalldata : Type := {
  boc_blob : option bytes;
  boc_calldata : option bytes }.

#[global] Instance blobOrCalldata_eq_dec : EqDecision blobOrCalldata.
Proof. solve_decision. Defined.

(** [None] is the nil slice, which has yet to be fetched. *)
Record BlobDataSource : Type := {
  bs_data : option (list blobOrCalldata);
  bs_ref : L1BlockRef }.

Definition NewBlobDataSource (ref : L1BlockRef) : BlobDataSource :=
  {| bs_data := None; bs_ref := ref |}.

(** The hashes of one transaction, with the index of each blob. *)
Fixpoint indexed_hashes (blobIndex : Z) (hashes : list Hash) : list IndexedBlobHash :=
  match hashes with
  | [] => []
  | h :: hashes => {| ibh_Index := u64 blobIndex; ibh_Hash := h |} :: indexed_hashes (blobIndex + 1) hashes
  end.

Definition placeholder : blobOrCalldata := {| boc_blob := None; boc_calldata := None |}.

Fixpoint dataAndHashesFromTxs (blobIndex : Z) (txs : list L1Tx)
    : result (list blobOrCalldata * list IndexedBlobHash) :=
  match txs with
  | [] => Ok ([], [])
  | tx :: txs =>
      let n := Z.of_nat (length (tx_BlobHashes tx)) in
      let* valid := is_batch_tx tx in
      if negb valid then dataAndHashesFromTxs (blobIndex + n) txs
      else if negb (tx_Type tx =? BlobTxType) then
        let* (data, hashes) := dataAndHashesFromTxs blobIndex txs in
        Ok ({| boc_blob := None; boc_calldata := Some (tx_Data tx) |} :: data, hashes)
      else
        let* (data, hashes) := dataAndHashesFromTxs (blobIndex + n) txs in
        Ok (replicate (length (tx_BlobHashes tx)) placeholder ++ data,
            indexed_hashes blobIndex (tx_BlobHashes tx) ++ hashes)
  end.

Fixpoint fillBlobPointers (data : list blobOrCalldata) (blobs : list (option bytes))
    : result (list blobOrCalldata) :=
  match data with
  | [] => match blobs with [] => Ok [] | _ => Err (Msg "got too many blobs") end
  | d :: data =>
      match boc_calldata d with
      | Some _ => let* data := fillBlobPointers data blobs in Ok (d :: data)
      | None =>
          match blobs with
          | [] => Err (Msg "didn't get enough blobs")
          | None :: _ => Err (Msg "found a nil blob")
          | Some b :: blobs =>
              let* data := fillBlobPointers data blobs in
              Ok ({| boc_blob := Some b; boc_calldata := None |} :: data)
          end
      end
  end.

Definition BlobDataSource_open (l1 : L1Source) (ref : L1BlockRef) : result (list blobOrCalldata) :=
  let* txs := map_err (fetch_error "failed to open blob data source")
                (InfoAndTxsByHash l1 (l1_Hash ref)) in
  let* (data, hashes) := dataAndHashesFromTxs 0 txs in
  match hashes with
  | [] => Ok data
  | _ =>
      let* blobs := map_err (fetch_error "failed to fetch blobs") (GetBlobs l1 ref hashes) in
      map_err (fun err => Leveled LevelReset (Wrap "failed to fill blob pointers" err))
        (fillBlobPointers data blobs)
  end.

(** The next piece; a blob that does not decode is skipped. *)
Fixpoint next_piece (data : list blobOrCalldata) : list blobOrCalldata * result bytes :=
  match data with
  | [] => ([], Err EOF)
  | next :: data =>
      match boc_calldata next with
      | Some calldata => (data, Ok calldata)
      | None =>
          match boc_blob next with
          | None => (data, Panic)
          | Some blob =>
              match ToData blob with
              | Ok d => (data, Ok d)
              | Err _ => next_piece data
              | Panic => (data, Panic)
              end
          end
      end
  end.

Definition BlobDataSource_Next (l1 : L1Source) (ds : BlobDataSource) : BlobDataSource * result bytes :=
  let opened := match bs_data ds with
                | Some data => Ok data
                | None => BlobDataSource_open l1 (bs_ref ds)
                end in
  match opened with
  | Ok data => let '(data, r) := next_piece data in ({| bs_data := Some data; bs_ref := bs_ref ds |}, r)
  | Err err => (ds, Err err)
  | Panic => (ds, Panic)
  end.
End Sources.

(** ** The factory *)

Inductive DataIter : Type :=
  | CalldataIter (ds : CalldataSource)
  | BlobIter (ds : BlobDataSource).

Record DataSourceFactory : Type := {
  dsf_dsCfg : DataSourceConfig;
  dsf_fetcher : bool;      (** whether [fetcher] is set *)
  dsf_blobsFetcher : bool; (** whether [blobsFetcher] is set *)
  dsf_ecotoneTime : option Z }.

Definition NewDataSourceFactory (cfg : Config) : DataSourceFactory :=
  {| dsf_dsCfg := {| l1Signer := None; batchInboxAddress := 0 |};
     dsf_fetcher := false; dsf_blobsFetcher := false; dsf_ecotoneTime := EcotoneTime cfg |}.

Definition uses_blobs (ds : DataSourceFactory) (ref : L1BlockRef) : bool :=
  match dsf_ecotoneTime ds with
  | Some t => t <=? l1_Time ref
  | None => false
  end.

(** A call through a nil fetcher panics; the blob source makes it in [Next]. *)
Definition OpenData (l1 : L1Source) (ds : DataSourceFactory) (ref : L1BlockRef) (batcherAddr : Z)
    : result DataIter :=
  if uses_blobs ds ref then
    if negb (dsf_blobsFetcher ds) then
      Err (Msg "ecotone upgrade active but beacon endpoint not configured")
    else Ok (BlobIter (NewBlobDataSource ref))
  else if negb (dsf_fetcher ds) then Panic
  else
    let* src := NewCalldataSource (dsf_dsCfg ds) batcherAddr l1 ref in
    Ok (CalldataIter src).

Definition DataIter_Next (l1 : L1Source) (ds : DataSourceFactory) (batcherAddr : Z) (it : DataIter)
    : DataIter * result bytes :=
  match it with
  | CalldataIter src =>
      let '(src, r) := CalldataSource_Next (dsf_dsCfg ds) batcherAddr l1 src in (CalldataIter src, r)
  | BlobIter src =>
      if negb (dsf_fetcher ds) && bool_decide (bs_data src = None) then (it, Panic)
      else let '(src, r) := BlobDataSource_Next (dsf_dsCfg ds) batcherAddr l1 src in (BlobIter src, r)
  end.

(** ** What a block's data is

    The content of the L1 chain, by hash: the transactions of a block and the
    blob behind an indexed hash. *)

Record L1Content : Type := {
  ct_txs : Hash -> list L1Tx;
  ct_blob : L1BlockRef -> IndexedBlobHash -> bytes }.

Record tx_ok (tx : L1Tx) : Prop := {
  to_Data : is_bytes (tx_Data tx);
  to_BlobHashes : tx_Type tx <> BlobTxType -> tx_BlobHashes tx = [] }.

Record content_ok (ct : L1Content) : Prop := {
  co_txs : forall h, Forall tx_ok (ct_txs ct h);
  co_blob : forall ref h, len (ct_blob ct ref h) = BlobSize /\ is_bytes (ct_blob ct ref h) }.

(** A node that, when it answers, answers from the content, and does not
    panic; blobs come in the order of the hashes that were asked for. *)
Record honest (ct : L1Content) (l1 : L1Source) : Prop := {
  hn_txs : forall h txs, InfoAndTxsByHash l1 h = Ok txs -> txs = ct_txs ct h;
  hn_txs_total : forall h, InfoAndTxsByHash l1 h <> Panic;
  hn_blobs : forall ref hs bs, GetBlobs l1 ref hs = Ok bs -> bs = Some ∘ ct_blob ct ref <$> hs;
  hn_blobs_total : forall ref hs, GetBlobs l1 ref hs <> Panic }.

Section Spec.
Context (sender : L1Tx -> result Z) (inbox batcherAddr : Z) (Hsender : forall tx, sender tx <> Panic).

Definition the_cfg : DataSourceConfig := {| l1Signer := Some sender; batchInboxAddress := inbox |}.

(** A transaction of an allowed type, to the inbox, signed by the batcher. *)
Definition valid_tx (tx : L1Tx) : Prop :=
  (tx_Type tx <= BlobTxType \/ tx_Type tx = L1DepositTxType)
  /\ tx_To tx = Some inbox /\ sender tx = Ok batcherAddr.

#[global] Instance valid_tx_dec tx : Decision (valid_tx tx).
Proof. apply _. Defined.

Lemma is_batch_tx_spec tx : is_batch_tx the_cfg batcherAddr tx = Ok (bool_decide (valid_tx tx)).
Proof.
  assert (exists v, is_batch_tx the_cfg batcherAddr tx = Ok v /\ (v = true <-> valid_tx tx)) as (v & -> & Hv).
  { unfold is_batch_tx, isValidBatchTx, valid_tx. cbn [l1Signer batchInboxAddress the_cfg].
    destruct ((BlobTxType <? tx_Type tx) && negb (tx_Type tx =? L1DepositTxType)) eqn:Ht.
    { eexists. split; [done|]. split; [done|]. intros [? _]. lia. }
    assert (tx_Type tx <= BlobTxType \/ tx_Type tx = L1DepositTxType) as Hty by lia.
    destruct (tx_To tx) as [to|]; [|exists false; naive_solver].
    destruct (Z.eqb_spec to inbox) as [->|]; cbn [negb]; [|exists false; naive_solver].
    pose proof (Hsender tx). destruct (sender tx) as [a|e|]; [|exists false; naive_solver|done].
    exists (a =? batcherAddr). split; [done|]. rewrite Z.eqb_eq. naive_solver. }
  f_equal. destruct v; symmetry; [apply bool_decide_eq_true_2|apply bool_decide_eq_false_2]; naive_solver.
Qed.

(** Before Ecotone: the call data of the batcher transactions. *)
Definition calldata_of (txs : list L1Tx) : list bytes := tx_Data <$> filter valid_tx txs.

Lemma DataFromEVMTransactions_spec txs :
  DataFromEVMTransactions the_cfg batcherAddr txs = Ok (calldata_of txs).
Proof.
  unfold calldata_of. induction txs as [|tx txs IH]; [done|]. cbn [DataFromEVMTransactions].
  rewrite is_batch_tx_spec. cbn [rbind]. rewrite IH. cbn [rbind].
  case_bool_decide; [by rewrite filter_cons_True|by rewrite filter_cons_False].
Qed.

(** Since Ecotone: the call data of the batcher transactions that are not
    blob transactions, and the blobs of the others; a blob's index counts the
    blobs of all transactions before it. *)
Inductive piece : Type :=
  | PData (d : bytes)
  | PBlob (h : IndexedBlobHash).

Definition tx_pieces (blobIndex : Z) (tx : L1Tx) : list piece :=
  if bool_decide (valid_tx tx) then
    if bool_decide (tx_Type tx = BlobTxType)
    then PBlob <$> imap (fun i h => {| ibh_Index := u64 (blobIndex + Z.of_nat i); ibh_Hash := h |}) (tx_BlobHashes tx)
    else [PData (tx_Data tx)]
  else [].

Fixpoint pieces (blobIndex : Z) (txs : list L1Tx) : list piece :=
  match txs with
  | [] => []
  | tx :: txs =>
      tx_pieces blobIndex tx ++ pieces (blobIndex + Z.of_nat (length (tx_BlobHashes tx))) txs
  end.

Definition read_piece (blob : IndexedBlobHash -> bytes) (p : piece) : option bytes :=
  match p with
  | PData d => Some d
  | PBlob h => match ToData (blob h) with Ok d => Some d | _ => None end
  end.

Lemma indexed_hashes_imap k hs :
  indexed_hashes k hs = imap (fun i h => {| ibh_Index := u64 (k + Z.of_nat i); ibh_Hash := h |}) hs.
Proof.
  revert k. induction hs as [|h hs IH]; intros k; [done|]. cbn [indexed_hashes imap]. rewrite IH. f_equal.
  { by rewrite Z.add_0_r. }
  apply imap_ext. intros i x _. simpl. do 2 f_equal. lia.
Qed.

Definition placed_piece (p : piece) : blobOrCalldata :=
  match p with
  | PData d => {| boc_blob := None; boc_calldata := Some d |}
  | PBlob _ => placeholder
  end.

Definition piece_hash (p : piece) : option IndexedBlobHash :=
  match p with PData _ => None | PBlob h => Some h end.

Lemma placed_blobs (l : list IndexedBlobHash) : placed_piece <$> (PBlob <$> l) = replicate (length l) placeholder.
Proof. induction l as [|h l IH]; [done|]. simpl. by f_equal. Qed.

Lemma blob_hashes (l : list IndexedBlobHash) : omap piece_hash (PBlob <$> l) = l.
Proof. induction l as [|h l IH]; [done|]. simpl. by f_equal. Qed.

Lemma dataAndHashes_spec k txs : Forall tx_ok txs ->
  dataAndHashesFromTxs the_cfg batcherAddr k txs
  = Ok (placed_piece <$> pieces k txs, omap piece_hash (pieces k txs)).
Proof.
  intros Hok. revert k. induction Hok as [|tx txs [_ Hb] _ IH]; intros k; [done|].
  cbn [dataAndHashesFromTxs pieces]. rewrite is_batch_tx_spec. cbn [rbind].
  rewrite fmap_app, omap_app. unfold tx_pieces. case_bool_decide as Hv; cbn [negb]; [|apply IH].
  destruct (Z.eqb_spec (tx_Type tx) BlobTxType) as [Ht|Ht].
  - rewrite bool_decide_eq_true_2 by done. cbn [negb]. rewrite IH. cbn [rbind].
    rewrite indexed_hashes_imap. do 2 f_equal.
    + by rewrite placed_blobs, length_imap.
    + by rewrite blob_hashes.
  - rewrite bool_decide_eq_false_2 by done. cbn [negb]. rewrite (Hb Ht). cbn [length Z.of_nat].
    rewrite Z.add_0_r, IH. done.
Qed.

Definition filled (blob : IndexedBlobHash -> bytes) (p : piece) : blobOrCalldata :=
  match p with
  | PData d => {| boc_blob := None; boc_calldata := Some d |}
  | PBlob h => {| boc_blob := Some (blob h); boc_calldata := None |}
  end.

Lemma fillBlobPointers_spec blob (ps : list piece) :
  fillBlobPointers (placed_piece <$> ps) (Some ∘ blob <$> omap piece_hash ps) = Ok (filled blob <$> ps).
Proof. induction ps as [|[d|h] ps IH]; [done|..]; csimpl; by rewrite IH. Qed.

Lemma no_blobs blob (ps : list piece) : omap piece_hash ps = [] -> placed_piece <$> ps = filled blob <$> ps.
Proof. induction ps as [|[d|h] ps IH]; csimpl; [done| |done]. intros H. by rewrite IH. Qed.

(** The error of a node that failed. *)
Definition node_error (err : error) : Prop :=
  exists l msg err', err = Leveled l (Wrap msg err') /\ l <> LevelCritical.

Lemma fetch_error_ok msg err : node_error (fetch_error msg err).
Proof. unfold fetch_error. exists (if errors_Is err NotFound then LevelReset else LevelTemporary), msg, err.
  split; [done|]. by destruct (errors_Is err NotFound). Qed.

Section Content.
Context (ct : L1Content) (Hct : content_ok ct).

Definition blob_pieces (ref : L1BlockRef) : list piece := pieces 0 (ct_txs ct (l1_Hash ref)).

Lemma BlobDataSource_open_spec l1 ref : honest ct l1 ->
  BlobDataSource_open the_cfg batcherAddr l1 ref = Ok (filled (ct_blob ct ref) <$> blob_pieces ref)
  \/ exists err, BlobDataSource_open the_cfg batcherAddr l1 ref = Err err /\ node_error err.
Proof.
  intros [Ht Htp Hb Hbp]. unfold BlobDataSource_open.
  specialize (Ht (l1_Hash ref)). specialize (Htp (l1_Hash ref)).
  destruct (InfoAndTxsByHash l1 (l1_Hash ref)) as [txs|e|]; [|right|done].
  2: { eexists. split; [done|]. apply fetch_error_ok. }
  rewrite (Ht txs eq_refl). cbn [map_err rbind]. rewrite dataAndHashes_spec by apply Hct. cbn [rbind].
  fold (blob_pieces ref). destruct (omap piece_hash (blob_pieces ref)) as [|h hs] eqn:Eh.
  { left. f_equal. by apply no_blobs. }
  specialize (Hb ref (h :: hs)). specialize (Hbp ref (h :: hs)).
  destruct (GetBlobs l1 ref (h :: hs)) as [bs|e|]; [left|right|done].
  - rewrite (Hb bs eq_refl). cbn [map_err rbind]. rewrite <- Eh, fillBlobPointers_spec. done.
  - eexists. split; [done|]. apply fetch_error_ok.
Qed.

Lemma next_piece_spec ref ps :
  exists ps', let '(data, r) := next_piece (filled (ct_blob ct ref) <$> ps) in
    data = filled (ct_blob ct ref) <$> ps'
    /\ match omap (read_piece (ct_blob ct ref)) ps with
       | [] => r = Err EOF /\ omap (read_piece (ct_blob ct ref)) ps' = []
       | d :: out => r = Ok d /\ omap (read_piece (ct_blob ct ref)) ps' = out
       end.
Proof.
  induction ps as [|[d|h] ps IH]; [by exists []|by exists ps|]. csimpl.
  destruct (co_blob ct Hct ref h) as [Hl Hb]. pose proof (ToData_no_panic _ (proj1 (blob_length _) Hl)) as Hp.
  destruct (ToData (ct_blob ct ref h)); [by exists ps|exact IH|done].
Qed.

(** The data of a block, and what an open iterator has left of it. *)
Definition block_data (ds : DataSourceFactory) (ref : L1BlockRef) : list bytes :=
  if uses_blobs ds ref then omap (read_piece (ct_blob ct ref)) (blob_pieces ref)
  else calldata_of (ct_txs ct (l1_Hash ref)).

Inductive iter_left : DataIter -> list bytes -> Prop :=
  | il_calldata ref out : iter_left (CalldataIter {| cs_open := true; cs_data := out; cs_ref := ref |}) out
  | il_calldata_closed ref :
      iter_left (CalldataIter {| cs_open := false; cs_data := []; cs_ref := ref |})
        (calldata_of (ct_txs ct (l1_Hash ref)))
  | il_blob ref ps :
      iter_left (BlobIter {| bs_data := Some (filled (ct_blob ct ref) <$> ps); bs_ref := ref |})
        (omap (read_piece (ct_blob ct ref)) ps)
  | il_blob_closed ref :
      iter_left (BlobIter {| bs_data := None; bs_ref := ref |})
        (omap (read_piece (ct_blob ct ref)) (blob_pieces ref)).

Record configured (ds : DataSourceFactory) : Prop := {
  cf_cfg : dsf_dsCfg ds = the_cfg;
  cf_fetcher : dsf_fetcher ds = true;
  cf_blobsFetcher : dsf_blobsFetcher ds = true }.

Lemma OpenData_spec l1 ds ref : honest ct l1 -> configured ds ->
  exists it, OpenData l1 ds ref batcherAddr = Ok it /\ iter_left it (block_data ds ref).
Proof.
  intros Hh [Hc Hf Hb]. unfold OpenData, block_data. rewrite Hb, Hf. cbn [negb].
  destruct (uses_blobs ds ref).
  - eexists. split; [done|]. apply il_blob_closed.
  - unfold NewCalldataSource. rewrite Hc.
    pose proof (hn_txs _ _ Hh (l1_Hash ref)) as Ht. pose proof (hn_txs_total _ _ Hh (l1_Hash ref)).
    destruct (InfoAndTxsByHash l1 (l1_Hash ref)) as [txs|e|]; [|eexists; split; [done|constructor]|done].
    rewrite DataFromEVMTransactions_spec. cbn [rbind]. eexists. split; [done|].
    rewrite (Ht txs eq_refl). constructor.
Qed.

(** [Next] gives the next piece of what is left, or EOF when nothing is; when
    the node fails, nothing is lost. *)
Lemma DataIter_Next_spec l1 ds it out : honest ct l1 -> configured ds -> iter_left it out ->
  let '(it', r) := DataIter_Next l1 ds batcherAddr it in
  match r with
  | Ok d => exists out', out = d :: out' /\ iter_left it' out'
  | Err err => (err = EOF /\ out = []) \/ (node_error err /\ iter_left it' out)
  | Panic => False
  end.
Proof.
  intros Hh [Hc Hf Hb] Hi. unfold DataIter_Next. rewrite Hc, Hf. cbn [negb andb].
  destruct Hi as [ref out|ref|ref ps|ref].
  - cbn. destruct out as [|d out]; [by left|]. exists out. split; [done|]. constructor.
  - unfold CalldataSource_Next. cbn [cs_open negb cs_ref].
    pose proof (hn_txs _ _ Hh (l1_Hash ref)) as Ht. pose proof (hn_txs_total _ _ Hh (l1_Hash ref)).
    destruct (InfoAndTxsByHash l1 (l1_Hash ref)) as [txs|e|]; [|right; split; [apply fetch_error_ok|constructor]|done].
    rewrite (Ht txs eq_refl), DataFromEVMTransactions_spec. unfold pop_calldata. cbn [cs_data cs_open cs_ref].
    destruct (calldata_of _) as [|d out]; [by left|]. exists out. split; [done|]. constructor.
  - unfold BlobDataSource_Next. cbn [bs_data bs_ref]. destruct (next_piece_spec ref ps) as (ps' & Hn).
    destruct (next_piece _) as [data r]. destruct Hn as [-> Hn].
    destruct (omap (read_piece (ct_blob ct ref)) ps) as [|d out]; destruct Hn as [-> Hn]; [by left|].
    exists out. split; [done|]. rewrite <- Hn. constructor.
  - unfold BlobDataSource_Next. cbn [bs_data bs_ref].
    destruct (BlobDataSource_open_spec l1 ref Hh) as [->|(err & -> & He)]; [|right; split; [done|constructor]].
    destruct (next_piece_spec ref (blob_pieces ref)) as (ps' & Hn).
    destruct (next_piece _) as [data r]. destruct Hn as [-> Hn].
    destruct (omap (read_piece (ct_blob ct ref)) (blob_pieces ref)) as [|d out]; destruct Hn as [-> Hn]; [by left|].
    exists out. split; [done|]. rewrite <- Hn. constructor.
Qed.
End Content.
End Spec.
