(* ===== verification/L1Traversal.v ===== *)
(** * Walking the L1 chain

    Models [rhs-node/rollup/derive/l1_traversal.go],
    [l1_traversal_managed.go] and [l1_retrieval.go]: the stage that walks from
    L1 block to L1 block, in its own drive or driven by [ProvideNextL1], and
    the stage that reads the data of each block.  The two meet at the
    interface [NextBlockProvider], and the retrieval stage is a
    [NextDataProvider] for the frame queue.  A call to the L1 node takes the
    node's answers at that moment, so that the theorems hold while the node
    fails, recovers and reorganises. *)

From S2P Require Import Prelude EthTypes RollupConfig Frames FrameQueue L1Info L1Logs Blob BlobCodec DataSources.

(** What a walk has in either drive. *)
Record L1Traversal : Type := {
  lt_block : L1BlockRef;
  lt_done : bool;
  lt_sysCfg : SystemConfig }.

Definition with_done (l1t : L1Traversal) (done : bool) : L1Traversal :=
  {| lt_block := lt_block l1t; lt_done := done; lt_sysCfg := lt_sysCfg l1t |}.

Definition NewL1Traversal : L1Traversal :=
  {| lt_block := zeroL1BlockRef; lt_done := false; lt_sysCfg := zeroSystemConfig |}.

Definition L1Traversal_NextL1Block (l1t : L1Traversal) : L1Traversal * result L1BlockRef :=
  if negb (lt_done l1t) then (with_done l1t true, Ok (lt_block l1t)) else (l1t, Err EOF).

Definition L1Traversal_Reset (l1t : L1Traversal) (cfg : SystemConfig) : L1Traversal * result unit :=
  ({| lt_block := lt_block l1t; lt_done := false; lt_sysCfg := cfg |}, Err EOF).

Section Traversal.
Context {KC : Keccak}.

(** Receipts, configuration and block of the next L1 block.  The
    configuration is updated in place, also by the logs before a malformed
    one; the errors are merged into one. *)
Definition enter_block (l1 : L1Source) (l1t : L1Traversal) (next : L1BlockRef)
    : L1Traversal * result unit :=
  match FetchReceipts l1 (l1_Hash next) with
  | Err err => (l1t, Err (Leveled LevelTemporary (Wrap "failed to fetch receipts of L1 block" err)))
  | Panic => (l1t, Panic)
  | Ok receipts =>
      match UpdateSystemConfigWithL1Receipts (lt_sysCfg l1t) receipts with
      | (sysCfg, []) => ({| lt_block := next; lt_done := false; lt_sysCfg := sysCfg |}, Ok ())
      | (sysCfg, _) =>
          ({| lt_block := lt_block l1t; lt_done := lt_done l1t; lt_sysCfg := sysCfg |},
           Err (critical "failed to update L1 sysCfg with receipts from block"))
      end
  end.

Definition AdvanceL1Block (l1 : L1Source) (l1t : L1Traversal) : L1Traversal * result unit :=
  match L1BlockRefByNumber l1 (l1_Number (lt_block l1t) +u 1) with
  | Err err =>
      (l1t, Err (if errors_Is err NotFound then EOF
                 else Leveled LevelTemporary (Wrap "failed to find L1 block info by number" err)))
  | Panic => (l1t, Panic)
  | Ok nextL1Origin =>
      if negb (l1_Hash (lt_block l1t) =? l1_ParentHash nextL1Origin) then
        (l1t, Err (Leveled LevelReset (Msg "detected L1 reorg with conflicting parent")))
      else enter_block l1 l1t nextL1Origin
  end.

(** ** The managed walk *)

Definition Managed_AdvanceL1Block (l1t : L1Traversal) : L1Traversal * result unit :=
  (l1t, if negb (lt_done l1t) then Ok () else Err EOF).

Definition Managed_Reset (l1t : L1Traversal) (cfg : SystemConfig) : L1Traversal * result unit :=
  ({| lt_block := lt_block l1t; lt_done := true; lt_sysCfg := cfg |}, Err EOF).

Definition ProvideNextL1 (l1 : L1Source) (l1t : L1Traversal) (nextL1 : L1BlockRef)
    : L1Traversal * result unit :=
  if negb (lt_done l1t) then (l1t, Ok ())
  else if negb (l1_Number (lt_block l1t) +u 1 =? l1_Number nextL1) then (l1t, Ok ())
  else if negb (l1_Hash (lt_block l1t) =? l1_ParentHash nextL1) then
    (l1t, Err (Leveled LevelReset (Msg "provided next L1 block does not build on last processed L1 block")))
  else enter_block l1 l1t nextL1.
End Traversal.

(** ** Retrieval *)

Class NextBlockProvider (P : Type) := {
  NextL1Block : P -> P * result L1BlockRef;
  block_Origin : P -> L1BlockRef }.

#[global] Instance L1Traversal_provider : NextBlockProvider L1Traversal := {
  NextL1Block := L1Traversal_NextL1Block;
  block_Origin := lt_block }.

Section Retrieval.
Context {P : Type} `{!NextBlockProvider P}.

Record L1Retrieval : Type := {
  lr_dataSrc : DataSourceFactory;
  lr_prev : P;
  lr_datas : option DataIter }.

Definition NewL1Retrieval (dataSrc : DataSourceFactory) (prev : P) : L1Retrieval :=
  {| lr_dataSrc := dataSrc; lr_prev := prev; lr_datas := None |}.

Definition lr_with (l1r : L1Retrieval) (prev : P) (datas : option DataIter) : L1Retrieval :=
  {| lr_dataSrc := lr_dataSrc l1r; lr_prev := prev; lr_datas := datas |}.

Definition L1Retrieval_Origin (l1r : L1Retrieval) : L1BlockRef := block_Origin (lr_prev l1r).

(** The batcher's address that is passed on is the zero address. *)
Definition next_of (l1 : L1Source) (l1r : L1Retrieval) (datas : DataIter) : L1Retrieval * result bytes :=
  let '(datas, r) := DataIter_Next l1 (lr_dataSrc l1r) 0 datas in
  match r with
  | Err EOF => (lr_with l1r (lr_prev l1r) None, Err EOF)
  | _ => (lr_with l1r (lr_prev l1r) (Some datas), r)
  end.

Definition L1Retrieval_NextData (l1 : L1Source) (l1r : L1Retrieval) : L1Retrieval * result bytes :=
  match lr_datas l1r with
  | Some datas => next_of l1 l1r datas
  | None =>
      let '(prev, next) := NextL1Block (lr_prev l1r) in
      let l1r := lr_with l1r prev None in
      match next with
      | Err err => (l1r, Err err)
      | Panic => (l1r, Panic)
      | Ok next =>
          match OpenData l1 (lr_dataSrc l1r) next 0 with
          | Ok datas => next_of l1 l1r datas
          | Err err => (l1r, Err (Wrap "failed to open data source" err))
          | Panic => (l1r, Panic)
          end
      end
  end.

Definition L1Retrieval_Reset (l1 : L1Source) (l1r : L1Retrieval) : L1Retrieval * result unit :=
  match OpenData l1 (lr_dataSrc l1r) zeroL1BlockRef 0 with
  | Ok datas => (lr_with l1r (lr_prev l1r) (Some datas), Err EOF)
  | Err err => (lr_with l1r (lr_prev l1r) None, Err (Wrap "failed to open data source" err))
  | Panic => (l1r, Panic)
  end.
End Retrieval.
Arguments L1Retrieval P : clear implicits.

(** ** The walk delivers the data of a chain

    A walk is the retrieval stage on top of the traversal.  It makes three
    kinds of steps: it reads data, it advances when the current block has been
    handed out, and it is provided with the next block. *)

Section Walk.
Context {KC : Keccak}.
Context (sender : L1Tx -> result Z) (inbox : Z) (Hsender : forall tx, sender tx <> Panic).
Context (ct : L1Content) (Hct : content_ok ct).

Abbreviation walk := (L1Retrieval L1Traversal).
Abbreviation data_of := (block_data sender inbox 0 ct).
Abbreviation left_in := (iter_left sender inbox 0 ct).

Definition emitted (r : result bytes) : list bytes :=
  match r with Ok d => [d] | _ => [] end.

Definition entered (l1t l1t' : L1Traversal) : list L1BlockRef :=
  if lt_done l1t && negb (lt_done l1t') then [lt_block l1t'] else [].

Definition with_prev (st : walk) (l1t : L1Traversal) : walk := lr_with st l1t (lr_datas st).

(** A step, the data that it hands out and the block that it enters. *)
Inductive l1_step (st : walk) : list bytes -> list L1BlockRef -> walk -> Prop :=
  | ws_data l1 st' r : honest ct l1 -> L1Retrieval_NextData l1 st = (st', r) ->
      l1_step st (emitted r) [] st'
  | ws_advance l1 l1t' r : lt_done (lr_prev st) = true -> AdvanceL1Block l1 (lr_prev st) = (l1t', r) ->
      l1_step st [] (entered (lr_prev st) l1t') (with_prev st l1t')
  | ws_provide l1 next l1t' r : ProvideNextL1 l1 (lr_prev st) next = (l1t', r) ->
      l1_step st [] (entered (lr_prev st) l1t') (with_prev st l1t').

Inductive l1_run (st0 : walk) : list bytes -> list L1BlockRef -> walk -> Prop :=
  | wr_start : l1_run st0 [] [] st0
  | wr_step out bs st o b st' : l1_run st0 out bs st -> l1_step st o b st' ->
      l1_run st0 (out ++ o) (bs ++ b) st'.

(** What a walk has yet to hand out of the blocks it has entered. *)
Definition walk_left (st : walk) (left : list bytes) : Prop :=
  exists l, match lr_datas st with None => l = [] | Some it => left_in it l end
    /\ left = l ++ (if lt_done (lr_prev st) then [] else data_of (lr_dataSrc st) (lt_block (lr_prev st))).

Lemma enter_block_spec l1 l1t next l1t' r : enter_block l1 l1t next = (l1t', r) -> lt_done l1t = true ->
  (l1t' = {| lt_block := next; lt_done := false; lt_sysCfg := lt_sysCfg l1t' |} /\ r = Ok ())
  \/ (lt_block l1t' = lt_block l1t /\ lt_done l1t' = true /\ r <> Ok ()).
Proof.
  intros He Hd. unfold enter_block in He. destruct (FetchReceipts l1 (l1_Hash next)) as [rs|e|].
  - destruct (UpdateSystemConfigWithL1Receipts _ rs) as [cfg [|e es]]; simplify_eq; simpl; auto.
  - simplify_eq. auto.
  - simplify_eq. auto.
Qed.

(** Both drives enter a block only if it builds on the current one. *)
Definition builds_on (a b : L1BlockRef) : Prop := l1_Hash a = l1_ParentHash b.

Lemma moves l1t l1t' : lt_done l1t = true ->
  (exists l1 r, AdvanceL1Block l1 l1t = (l1t', r)) \/ (exists l1 next r, ProvideNextL1 l1 l1t next = (l1t', r)) ->
  (lt_done l1t' = true /\ lt_block l1t' = lt_block l1t) \/ (lt_done l1t' = false /\ builds_on (lt_block l1t) (lt_block l1t')).
Proof.
  intros Hd [(l1 & r & Ha)|(l1 & next & r & Ha)].
  - unfold AdvanceL1Block in Ha. destruct (L1BlockRefByNumber l1 _) as [next|e|]; [|by simplify_eq; left..].
    destruct (Z.eqb_spec (l1_Hash (lt_block l1t)) (l1_ParentHash next)); cbn [negb] in Ha; [|by simplify_eq; left].
    destruct (enter_block_spec _ _ _ _ _ Ha Hd) as [[-> _]|(? & ? & _)]; [by right|by left].
  - unfold ProvideNextL1 in Ha. rewrite Hd in Ha. cbn [negb] in Ha.
    destruct (negb _); [by simplify_eq; left|].
    destruct (Z.eqb_spec (l1_Hash (lt_block l1t)) (l1_ParentHash next)); cbn [negb] in Ha; [|by simplify_eq; left].
    destruct (enter_block_spec _ _ _ _ _ Ha Hd) as [[-> _]|(? & ? & _)]; [by right|by left].
Qed.

Lemma ProvideNextL1_not_done l1 l1t next : lt_done l1t = false -> ProvideNextL1 l1 l1t next = (l1t, Ok ()).
Proof. intros Hd. unfold ProvideNextL1. by rewrite Hd. Qed.

(** Reading: the next piece of what is left. *)
Lemma next_of_spec l1 (st : walk) it l : honest ct l1 -> configured sender inbox (lr_dataSrc st) -> left_in it l ->
  let '(st', r) := next_of l1 st it in
  lr_dataSrc st' = lr_dataSrc st /\ lr_prev st' = lr_prev st
  /\ exists l', match lr_datas st' with None => l' = [] | Some it => left_in it l' end
     /\ l = emitted r ++ l' /\ (r = Err EOF -> l = [] /\ lr_datas st' = None) /\ r <> Panic.
Proof.
  intros Hh Hc Hi. unfold next_of.
  pose proof (DataIter_Next_spec sender inbox 0 Hsender ct Hct l1 (lr_dataSrc st) it l Hh Hc Hi) as Hn.
  destruct (DataIter_Next l1 (lr_dataSrc st) 0 it) as [it' r]. destruct r as [d|e|]; [| |done].
  - destruct Hn as (l' & -> & Hl). simpl. split_and!; [done|done|]. by exists l'.
  - destruct Hn as [[-> ->]|[(lv & m & e' & -> & _) Hl]]; simpl; (split_and!; [done|done|]).
    + by exists [].
    + by exists l.
Qed.

Lemma NextData_spec l1 (st : walk) left : honest ct l1 -> configured sender inbox (lr_dataSrc st) ->
  walk_left st left ->
  let '(st', r) := L1Retrieval_NextData l1 st in
  lr_dataSrc st' = lr_dataSrc st /\ lt_block (lr_prev st') = lt_block (lr_prev st) /\ r <> Panic
  /\ exists left', walk_left st' left' /\ left = emitted r ++ left'
     /\ (r = Err EOF -> lr_datas st' = None).
Proof.
  intros Hh Hc (l & Hl & ->). unfold L1Retrieval_NextData. destruct (lr_datas st) as [it|] eqn:Ed.
  - pose proof (next_of_spec l1 st it l Hh Hc Hl) as Hn. destruct (next_of l1 st it) as [st' r].
    destruct Hn as (Hs & Hp & l' & Hl' & -> & Heof & Hnp). rewrite Hp. split_and!; [done|done|done|].
    eexists. split; [|split; [by rewrite <- app_assoc|by intros [_ ?]%Heof]].
    exists l'. split; [done|]. by rewrite Hp, Hs.
  - subst l. cbn [NextL1Block L1Traversal_provider]. unfold L1Traversal_NextL1Block.
    destruct (lt_done (lr_prev st)) eqn:Edone; cbn [negb].
    + split_and!; [done|done|done|]. exists []. split; [|done]. exists []. simpl. by rewrite Edone.
    + set (st1 := lr_with st _ None). cbn [app].
      destruct (OpenData_spec sender inbox 0 Hsender ct l1 (lr_dataSrc st1) (lt_block (lr_prev st)) Hh Hc)
        as (it & -> & Hit).
      pose proof (next_of_spec l1 st1 it _ Hh Hc Hit) as Hn. destruct (next_of l1 st1 it) as [st' r].
      destruct Hn as (Hs & Hp & l' & Hl' & Heq & Heof & Hnp). rewrite Hp, Hs.
      split_and!; [done|done|done|]. exists l'. split; [|split; [exact Heq|by intros [_ ?]%Heof]].
      exists l'. split; [done|]. rewrite Hp. simpl. by rewrite app_nil_r.
Qed.

(** The invariant of a run that started at [b0]. *)
Record walk_inv (dataSrc : DataSourceFactory) (b0 : L1BlockRef) (out : list bytes)
    (bs : list L1BlockRef) (st : walk) : Prop := {
  wi_src : lr_dataSrc st = dataSrc;
  wi_chain : adjacent builds_on (b0 :: bs);
  wi_block : last (b0 :: bs) = Some (lt_block (lr_prev st));
  wi_data : exists left, walk_left st left /\ out ++ left = mjoin (data_of dataSrc <$> (b0 :: bs)) }.

Lemma adjacent_snoc {A} (R : A -> A -> Prop) l a b : adjacent R l -> last l = Some a -> R a b ->
  adjacent R (l ++ [b]).
Proof.
  intros Hl Ha Hb. apply last_Some in Ha as [l' ->]. rewrite <- app_assoc. simpl.
  induction l' as [|x l' IH]; [done|]. destruct l' as [|y l']; simpl in *; [naive_solver|].
  destruct Hl as [Hx Hl]. split; [done|]. by apply IH.
Qed.

Lemma move_inv dataSrc b0 out bs st l1t' : walk_inv dataSrc b0 out bs st -> lt_done (lr_prev st) = true ->
  (lt_done l1t' = true /\ lt_block l1t' = lt_block (lr_prev st))
  \/ (lt_done l1t' = false /\ builds_on (lt_block (lr_prev st)) (lt_block l1t')) ->
  walk_inv dataSrc b0 (out ++ []) (bs ++ entered (lr_prev st) l1t') (with_prev st l1t').
Proof.
  intros [Hs Hc Hb (left & (l & Hl & ->) & Hd)] Hdone Hm. rewrite Hdone, app_nil_r in Hd.
  rewrite app_nil_r. unfold entered. rewrite Hdone. cbn [andb].
  destruct Hm as [[E Hblk]|[E Hblk]]; rewrite E; cbn [negb].
  - rewrite app_nil_r. split; [done|done|by rewrite Hb; simpl; rewrite Hblk|].
    exists l. split; [|done]. exists l. simpl. by rewrite E, app_nil_r.
  - split; [done| | |].
    + exact (adjacent_snoc builds_on (b0 :: bs) _ _ Hc Hb Hblk).
    + change (b0 :: bs ++ [lt_block l1t']) with ((b0 :: bs) ++ [lt_block l1t']). by rewrite last_snoc.
    + exists (l ++ data_of dataSrc (lt_block l1t')). split.
      * exists l. simpl. by rewrite E, Hs.
      * rewrite app_assoc, Hd. change (b0 :: bs ++ [lt_block l1t']) with ((b0 :: bs) ++ [lt_block l1t']).
        rewrite fmap_app, join_app. simpl. by rewrite app_nil_r.
Qed.

Lemma step_inv dataSrc b0 out bs st o b st' : configured sender inbox dataSrc ->
  walk_inv dataSrc b0 out bs st -> l1_step st o b st' -> walk_inv dataSrc b0 (out ++ o) (bs ++ b) st'.
Proof.
  intros Hcf Hi. destruct 1 as [l1 st' r Hh Hn|l1 l1t' r Hd Ha|l1 next l1t' r Ha].
  - destruct Hi as [Hs Hc Hb (left & Hl & Hd)]. rewrite <- Hs in Hcf.
    pose proof (NextData_spec l1 st left Hh Hcf Hl) as Hnd. rewrite Hn in Hnd.
    destruct Hnd as (Hs' & Hp & _ & left' & Hl' & -> & _). rewrite app_nil_r.
    split; [congruence|done|by rewrite Hp|]. exists left'. split; [done|]. by rewrite <- app_assoc.
  - apply move_inv; [done|done|]. apply moves; [done|]. left. by exists l1, r.
  - destruct (lt_done (lr_prev st)) eqn:Hd.
    + apply move_inv; [done|done|]. apply moves; [done|]. right. by exists l1, next, r.
    + rewrite ProvideNextL1_not_done in Ha by done. simplify_eq. unfold entered. rewrite Hd. cbn [andb].
      rewrite !app_nil_r. by destruct st.
Qed.

Lemma run_inv dataSrc l1t out bs st : configured sender inbox dataSrc -> lt_done l1t = false ->
  l1_run (NewL1Retrieval dataSrc l1t) out bs st -> walk_inv dataSrc (lt_block l1t) out bs st.
Proof.
  intros Hcf Hd. induction 1 as [|out bs st o b st' Hr IH Hs]; [|by eapply step_inv].
  split; [done|done|done|]. eexists. split; [exists []; simpl; by rewrite Hd|]. simpl. by rewrite app_nil_r.
Qed.

(** The walk over L1 delivers the data of a chain, with a data source that
    has its fetcher and its signer: from a block that has not been read, under
    any interleaving of reading, of advancing once the block is done and of being
    provided with blocks, with a node that fails at any call, the blocks that
    are entered form a chain of parent hashes, and the data handed out is a
    prefix of their data in order: nothing is lost, repeated or reordered,
    also when a fetch fails and is repeated.  When reading ends with EOF and
    the last block has been handed out, all data has been. *)
Theorem retrieval_in_order dataSrc l1t out bs st :
  configured sender inbox dataSrc -> lt_done l1t = false ->
  l1_run (NewL1Retrieval dataSrc l1t) out bs st ->
  adjacent builds_on (lt_block l1t :: bs)
  /\ last (lt_block l1t :: bs) = Some (lt_block (lr_prev st))
  /\ (exists left, out ++ left = mjoin (data_of dataSrc <$> (lt_block l1t :: bs)))
  /\ forall l1 st' r, honest ct l1 -> L1Retrieval_NextData l1 st = (st', r) ->
       r <> Panic
       /\ (r = Err EOF -> lt_done (lr_prev st') = true ->
           out = mjoin (data_of dataSrc <$> (lt_block l1t :: bs))).
Proof.
  intros Hcf Hd Hr. destruct (run_inv dataSrc l1t out bs st Hcf Hd Hr) as [Hs Hc Hb (left & Hl & Heq)].
  split_and!; [done|done|by exists left|]. intros l1 st' r Hh Hn. rewrite <- Hs in Hcf.
  pose proof (NextData_spec l1 st left Hh Hcf Hl) as Hnd. rewrite Hn in Hnd.
  destruct Hnd as (_ & _ & Hnp & left' & (l & Hl' & ->) & -> & Heof). split; [done|].
  intros -> Hdone. rewrite (Heof eq_refl) in Hl'. subst l. rewrite Hdone in Heq. simpl in Heq.
  by rewrite app_nil_r in Heq.
Qed.
End Walk.

(** ** A batcher update stops the walk *)

Section Halt.
Context {KC : Keccak}.

Lemma apply_update_errs acc log : acc.2 <> [] -> (apply_update acc log).2 <> [].
Proof.
  intros Ha. unfold apply_update. destruct (ProcessSystemConfigUpdateLogEvent acc.1 log); simpl; [done| |done].
  by destruct acc.2.
Qed.

(** One malformed log makes the whole update fail. *)
Lemma malformed_log_fails cfg receipts log :
  log ∈ mjoin (config_logs <$> receipts) ->
  (forall s, exists err, ProcessSystemConfigUpdateLogEvent s log = Err err) ->
  (UpdateSystemConfigWithL1Receipts cfg receipts).2 <> [].
Proof.
  intros Hin Hbad. unfold UpdateSystemConfigWithL1Receipts.
  apply list_elem_of_split in Hin as (l1 & l2 & ->). rewrite foldl_app. simpl.
  set (acc := foldl apply_update (cfg, []) l1).
  assert ((apply_update acc log).2 <> []) as Ha.
  { unfold apply_update. destruct (Hbad acc.1) as [err ->]. simpl. by destruct acc.2. }
  revert Ha. generalize (apply_update acc log). induction l2 as [|x l2 IH]; intros a Ha; [done|].
  simpl. by apply IH, apply_update_errs.
Qed.

(** The data of a batcher update as the contract emits it: the ABI encoding
    of the bytes that encode the address. *)
Definition batcher_update (addr : Z) : bytes := header 32 ++ WriteAddress addr.

Lemma is_bytes_header n : is_bytes (header n).
Proof.
  unfold header, WriteUint64.
  repeat (apply Forall_app; split); try apply is_bytes_zeros; apply is_bytes_be_encode.
Qed.

Lemma batcher_update_rejected s ev addr :
  lg_Topics ev = [ConfigUpdateEventABIHash; ConfigUpdateEventVersion0; SystemConfigUpdateBatcher] ->
  lg_Data ev = batcher_update addr ->
  ProcessSystemConfigUpdateLogEvent s ev = Err (critical "too many bytes").
Proof.
  intros Ht Hd. unfold ProcessSystemConfigUpdateLogEvent. rewrite Ht, Hd, !Z.eqb_refl. cbn [negb].
  unfold update_config. rewrite Z.eqb_refl.
  assert (update_header 32 (batcher_update addr) = Ok (WriteAddress addr)) as ->.
  { apply update_header_Ok; [split; done| |by unfold batcher_update, header; rewrite <- app_assoc].
    apply Forall_app. split; [apply is_bytes_header|]. unfold WriteAddress.
    apply Forall_app. split; [apply is_bytes_zeros|apply is_bytes_be_encode]. }
  done.
Qed.

(** An L1 block that holds a batcher update in the encoding of the system
    config contract cannot be entered: its log is malformed for this code,
    whatever the configuration, so [AdvanceL1Block] fails critically, stays at
    its block, and does so again at every later attempt. *)
Theorem batcher_update_halts l1 l1t next receipts rec log addr :
  L1BlockRefByNumber l1 (l1_Number (lt_block l1t) +u 1) = Ok next ->
  builds_on (lt_block l1t) next -> FetchReceipts l1 (l1_Hash next) = Ok receipts ->
  rec ∈ receipts -> rc_Status rec = ReceiptStatusSuccessful -> log ∈ rc_Logs rec ->
  lg_Topics log = [ConfigUpdateEventABIHash; ConfigUpdateEventVersion0; SystemConfigUpdateBatcher] ->
  lg_Data log = batcher_update addr ->
  exists l1t', AdvanceL1Block l1 l1t
      = (l1t', Err (critical "failed to update L1 sysCfg with receipts from block"))
    /\ lt_block l1t' = lt_block l1t /\ lt_done l1t' = lt_done l1t
    /\ (AdvanceL1Block l1 l1t').2 = (AdvanceL1Block l1 l1t).2.
Proof.
  intros Hn Hb Hr Hrec Hs Hlog Ht Hd.
  assert (forall t, lt_block t = lt_block l1t -> exists t', AdvanceL1Block l1 t
      = (t', Err (critical "failed to update L1 sysCfg with receipts from block"))
    /\ lt_block t' = lt_block t /\ lt_done t' = lt_done t) as Hall.
  { intros t Eb. unfold AdvanceL1Block. rewrite Eb, Hn, (proj2 (Z.eqb_eq _ _) Hb). cbn [negb].
    unfold enter_block. rewrite Hr.
    assert ((UpdateSystemConfigWithL1Receipts (lt_sysCfg t) receipts).2 <> []) as He.
    { apply (malformed_log_fails _ _ log); [|by eexists; eapply batcher_update_rejected].
      apply list_elem_of_join. exists (config_logs rec). split; [|by apply list_elem_of_fmap_2].
      unfold config_logs. rewrite Hs. apply list_elem_of_In, filter_In. split; [by apply list_elem_of_In|].
      rewrite Ht. apply Z.eqb_refl. }
    destruct (UpdateSystemConfigWithL1Receipts (lt_sysCfg t) receipts) as [cfg [|e es]]; [done|]. by eexists. }
  destruct (Hall l1t eq_refl) as (l1t' & H1 & H2 & H3). exists l1t'. split_and!; [done|done|done|].
  destruct (Hall l1t' H2) as (t'' & H4 & _). by rewrite H1, H4.
Qed.
End Halt.

(** ** A factory without fetchers *)

(** [NewDataSourceFactory] sets neither fetcher, so no block can be opened:
    before Ecotone the call panics, since Ecotone it fails. *)
Lemma NewDataSourceFactory_opens_nothing l1 cfg ref addr it :
  OpenData l1 (NewDataSourceFactory cfg) ref addr <> Ok it.
Proof. unfold OpenData. by destruct (uses_blobs (NewDataSourceFactory cfg) ref). Qed.

(** An open that fails loses its block: it has been taken from the traversal
    and the next call sees EOF. *)
Lemma failed_open_loses_block l1 (st : L1Retrieval L1Traversal) err :
  lr_datas st = None -> lt_done (lr_prev st) = false ->
  OpenData l1 (lr_dataSrc st) (lt_block (lr_prev st)) 0 = Err err ->
  exists st', L1Retrieval_NextData l1 st = (st', Err (Wrap "failed to open data source" err))
    /\ forall l1', (L1Retrieval_NextData l1' st').2 = Err EOF.
Proof.
  intros Hd Hdone Ho. unfold L1Retrieval_NextData. rewrite Hd.
  cbn [NextL1Block L1Traversal_provider]. unfold L1Traversal_NextL1Block. rewrite Hdone. cbn [negb].
  cbn [lr_dataSrc lr_with]. rewrite Ho. eexists. split; [reflexivity|]. done.
Qed.

(** ** The retrieval stage feeds the frame queue

    The stage with the answers that its node will give, one per call. *)

Record Feed : Type := {
  fd_node : nat -> L1Source;
  fd_clock : nat;
  fd_stage : L1Retrieval L1Traversal }.

#[global] Instance Feed_provider : NextDataProvider Feed := {
  NextData s :=
    let '(st, r) := L1Retrieval_NextData (fd_node s (fd_clock s)) (fd_stage s) in
    ({| fd_node := fd_node s; fd_clock := S (fd_clock s); fd_stage := st |}, r);
  data_Origin s := L1Retrieval_Origin (fd_stage s) }.

Record feed_ok (sender : L1Tx -> result Z) (inbox : Z) (ct : L1Content) (s : Feed) : Prop := {
  fo_node : forall n, honest ct (fd_node s n);
  fo_src : configured sender inbox (lr_dataSrc (fd_stage s));
  fo_left : exists left, walk_left sender inbox ct (fd_stage s) left /\ Forall is_bytes left }.

Lemma Feed_laws sender inbox ct : (forall tx, sender tx <> Panic) -> content_ok ct ->
  NextDataLaws Feed (feed_ok sender inbox ct).
Proof.
  intros Hs Hct.
  assert (forall s, feed_ok sender inbox ct s -> let '(s', r) := NextData s in
    feed_ok sender inbox ct s' /\ data_Origin s' = data_Origin s /\ r <> Panic
    /\ forall d, r = Ok d -> is_bytes d) as Hstep.
  { intros [node n st] [Hn Hc (left & Hl & Hb)]. cbn in *.
    pose proof (NextData_spec sender inbox Hs ct Hct (node n) st left (Hn n) Hc Hl) as Hd.
    destruct (L1Retrieval_NextData (node n) st) as [st' r].
    destruct Hd as (Hsrc & Hblk & Hp & left' & Hl' & -> & _). apply Forall_app in Hb as [Hb1 Hb2].
    split_and!; [|exact Hblk|done|].
    - split; cbn; [done|by rewrite Hsrc|by exists left'].
    - intros d ->. by apply Forall_cons in Hb1 as [? _]. }
  split; intros s.
  3: intros d. all: intros Hi; specialize (Hstep s Hi); destruct (NextData s) as [s' r]; cbn [fst snd];
    destruct Hstep as (H1 & H2 & H3 & H4); auto.
Qed.

(** ** Witnesses *)

(** A chain of two blocks, 1 and 2; block 1 has one batcher transaction and
    one from someone else, and the node fails its first call. *)
Definition ex_tx (data : bytes) (to : Z) : L1Tx :=
  {| tx_Type := 2; tx_To := Some to; tx_Data := data; tx_BlobHashes := [] |}.

Definition ex_content : L1Content :=
  {| ct_txs h := if h =? 1 then [ex_tx [7] 5; ex_tx [8] 6] else if h =? 2 then [ex_tx [9] 5] else [];
     ct_blob _ _ := Clear |}.

Definition ex_block (n : Z) : L1BlockRef :=
  {| l1_Hash := n; l1_Number := n; l1_ParentHash := n - 1; l1_Time := 12 * n |}.

Definition ex_node (up : bool) : L1Source :=
  {| L1BlockRefByNumber n := if up then Ok (ex_block n) else Err (Msg "timeout");
     FetchReceipts _ := Ok [];
     InfoAndTxsByHash h := if up then Ok (ct_txs ex_content h) else Err (Msg "timeout");
     GetBlobs _ hs := if up then Ok (Some ∘ ct_blob ex_content zeroL1BlockRef <$> hs) else Err (Msg "timeout") |}.

Definition ex_sender (_ : L1Tx) : result Z := Ok 0.

Definition ex_source : DataSourceFactory :=
  {| dsf_dsCfg := the_cfg ex_sender 5; dsf_fetcher := true; dsf_blobsFetcher := true;
     dsf_ecotoneTime := None |}.

Lemma ex_content_ok : content_ok ex_content.
Proof.
  split.
  - intros h. cbn. destruct (h =? 1); [|destruct (h =? 2)]; repeat constructor; try done.
  - intros ref h. cbn [ct_blob ex_content]. split; [|apply is_bytes_zeros]. unfold len, Clear. rewrite length_replicate.
    apply Z2Nat.id. discriminate.
Qed.

Lemma ex_node_honest up : honest ex_content (ex_node up).
Proof.
  split; cbn; destruct up; try done.
  - intros h txs H. by apply Ok_inj in H.
  - intros ref hs bs H. by apply Ok_inj in H.
Qed.

Definition ex_start : L1Traversal :=
  {| lt_block := ex_block 1; lt_done := false; lt_sysCfg := zeroSystemConfig |}.

(** Fail, read block 1 to its end, advance, read block 2. *)
Lemma retrieval_in_order_witness :
  exists st, l1_run (KC := ex_keccak) ex_content (NewL1Retrieval ex_source ex_start) [[7]; [9]] [ex_block 2] st
    /\ adjacent builds_on [ex_block 1; ex_block 2]
    /\ exists left, [[7]; [9]] ++ left
         = mjoin (block_data ex_sender 5 0 ex_content ex_source <$> [ex_block 1; ex_block 2]).
Proof.
  pose proof (wr_start (KC := ex_keccak) ex_content (NewL1Retrieval ex_source ex_start)) as R.
  assert (forall up, honest ex_content (ex_node up)) as Hh by exact ex_node_honest.
  eapply wr_step in R; [|eapply (ws_data _ _ (ex_node false)); [apply Hh|reflexivity]].
  eapply wr_step in R; [|eapply (ws_data _ _ (ex_node true)); [apply Hh|reflexivity]].
  eapply wr_step in R; [|eapply (ws_data _ _ (ex_node true)); [apply Hh|reflexivity]].
  eapply wr_step in R; [|eapply (ws_advance _ _ (ex_node true)); reflexivity].
  eapply wr_step in R; [|eapply (ws_data _ _ (ex_node true)); [apply Hh|reflexivity]].
  eexists. split; [exact R|].
  destruct (retrieval_in_order (KC := ex_keccak) ex_sender 5 ltac:(discriminate) ex_content ex_content_ok
    ex_source ex_start _ _ _ ltac:(split; reflexivity) eq_refl R) as (H1 & _ & H2 & _).
  split; [exact H1|exact H2].
Defined.

Definition ex_batcher_log : Log :=
  {| lg_Address := 0;
     lg_Topics := [ConfigUpdateEventABIHash (KC := ex_keccak); ConfigUpdateEventVersion0; SystemConfigUpdateBatcher];
     lg_Data := batcher_update 0xaa; lg_BlockHash := 2; lg_Index := 0 |}.

Definition ex_batcher_node : L1Source :=
  {| L1BlockRefByNumber n := Ok (ex_block n);
     FetchReceipts _ := Ok [{| rc_Status := 1; rc_Logs := [ex_batcher_log] |}];
     InfoAndTxsByHash h := Ok (ct_txs ex_content h);
     GetBlobs _ hs := Ok [] |}.

Lemma batcher_update_halts_witness :
  (AdvanceL1Block (KC := ex_keccak) ex_batcher_node ex_start).2
    = Err (critical "failed to update L1 sysCfg with receipts from block")
  /\ lt_block (AdvanceL1Block (KC := ex_keccak) ex_batcher_node ex_start).1 = ex_block 1.
Proof.
  destruct (batcher_update_halts (KC := ex_keccak) ex_batcher_node ex_start (ex_block 2)
    [{| rc_Status := 1; rc_Logs := [ex_batcher_log] |}] {| rc_Status := 1; rc_Logs := [ex_batcher_log] |}
    ex_batcher_log 0xaa) as (t & -> & Hb & _ & _); try reflexivity.
  - apply list_elem_of_singleton. reflexivity.
  - apply list_elem_of_singleton. reflexivity.
  - split; [reflexivity|exact Hb].
Defined.
