(* ===== verification/Ssz.v ===== *)
(** * SSZ encoding of execution payloads

    Models [rhs-service/eth/ssz.go]: the encoding of payloads and of their
    envelopes for the gossip network, and the decoder, which reads bytes from
    the network.  The encoder writes into a buffer of a pool that holds what
    an earlier call left there; a slice expression out of range panics (the
    capacity of a buffer beyond its length matters only to payloads of more
    than 4 GiB).  Offsets and sizes are [uint32] and wrap around. *)

From S2P Require Import Prelude EthTypes.

Inductive BlockVersion : Type := BlockV1 | BlockV2 | BlockV3 | BlockV4.

#[global] Instance BlockVersion_eq_dec : EqDecision BlockVersion.
Proof. solve_decision. Defined.

Definition ErrExtraDataTooLarge : error := Msg "extra data too large".
Definition ErrBadWithdrawalsOffset : error :=
  Msg "withdrawals offset is smaller than transaction offset, aborting".
Definition ErrScopeTooSmall : error := Msg "scope too small to decode execution payload".
Definition ErrMissingData : error := Msg "execution payload envelope is missing data".

Definition blockV1FixedPart : Z := 32 + 20 + 32 + 32 + 256 + 32 + 8 + 8 + 8 + 8 + 4 + 32 + 32 + 4.
Definition blockV2FixedPart : Z := blockV1FixedPart + 4.
Definition blockV3FixedPart : Z := blockV2FixedPart + 8 + 8.
Definition blockV4FixedPart : Z := blockV3FixedPart + 32.
Definition withdrawal_size : Z := 8 + 8 + 20 + 8.
Definition maxTransactionsPerPayload : Z := 1048576.
Definition maxWithdrawalsPerPayload : Z := 16.

Definition HasBlobProperties (v : BlockVersion) : bool :=
  match v with BlockV3 | BlockV4 => true | _ => false end.

Definition HasWithdrawals (v : BlockVersion) : bool :=
  match v with BlockV2 | BlockV3 | BlockV4 => true | BlockV1 => false end.

Definition HasParentBeaconBlockRoot (v : BlockVersion) : bool :=
  match v with BlockV3 | BlockV4 => true | _ => false end.

Definition HasWithdrawalsRoot (v : BlockVersion) : bool :=
  match v with BlockV4 => true | _ => false end.

Definition executionPayloadFixedPart (version : BlockVersion) : Z :=
  match version with
  | BlockV4 => blockV4FixedPart
  | BlockV3 => blockV3FixedPart
  | BlockV2 => blockV2FixedPart
  | BlockV1 => blockV1FixedPart
  end.

Definition inferVersion (payload : ExecutionPayload) : BlockVersion :=
  if match ep_WithdrawalsRoot payload with
     | Some root => negb (root =? EmptyWithdrawalsHash)
     | None => false
     end then BlockV4
  else if bool_decide (is_Some (ep_ExcessBlobGas payload)) && bool_decide (is_Some (ep_BlobGasUsed payload))
  then BlockV3
  else if bool_decide (is_Some (ep_Withdrawals payload)) then BlockV2
  else BlockV1.

(** ** Sizes *)

Definition withdrawalSize (payload : ExecutionPayload) : Z :=
  match ep_Withdrawals payload with
  | None => 0
  | Some ws => u32 (Z.of_nat (length ws) * withdrawal_size)
  end.

Definition transactionSize (payload : ExecutionPayload) : Z :=
  foldl (fun size tx => u32 (size + u32 (len tx)))
    (u32 (u32 (Z.of_nat (length (ep_Transactions payload))) * 4)) (ep_Transactions payload).

Definition SizeSSZ (payload : ExecutionPayload) : Z :=
  u32 (executionPayloadFixedPart (inferVersion payload) + u32 (len (ep_ExtraData payload))
       + transactionSize payload + withdrawalSize payload).

(** ** Encoding *)

(** The four words of a 256-bit integer, the least significant first. *)
Definition marshalBytes32LE (z : Z) : bytes :=
  le_encode 8 z ++ le_encode 8 (Z.shiftr z 64) ++ le_encode 8 (Z.shiftr z 128)
  ++ le_encode 8 (Z.shiftr z 192).

Definition unmarshalBytes32LE (b : bytes) : Z :=
  le_decode (slice 0 8 b) + Z.shiftl (le_decode (slice 8 16 b)) 64
  + Z.shiftl (le_decode (slice 16 24 b)) 128 + Z.shiftl (le_decode (slice 24 32 b)) 192.

(** [copy(buf[offset:offset+n], src); offset += n] *)
Definition put (n : Z) (src : bytes) (s : bytes * Z) : result (bytes * Z) :=
  let '(buf, offset) := s in
  if len buf <? offset + n then Panic
  else Ok (copy_at offset (take (Z.to_nat n) src) buf, offset + n).

Fixpoint put_all (fields : list (Z * bytes)) (s : bytes * Z) : result (bytes * Z) :=
  match fields with
  | [] => Ok s
  | (n, src) :: fields => let* s := put n src s in put_all fields s
  end.

Definition withdrawal_fields (w : Withdrawal) : list (Z * bytes) :=
  [(8, le_encode 8 (wd_Index w)); (8, le_encode 8 (wd_Validator w));
   (20, be_encode 20 (wd_Address w)); (8, le_encode 8 (wd_Amount w))].

Definition marshalWithdrawals (out : bytes) (withdrawals : list Withdrawal) : result bytes :=
  let* (out, _) := put_all (mjoin (withdrawal_fields <$> withdrawals)) (out, 0) in Ok out.

(** The table of offsets and the transactions are written at two cursors. *)
Fixpoint marshalTransactions_loop (out : bytes) (offset txOffset : Z) (txs : list bytes) : result bytes :=
  match txs with
  | [] => Ok out
  | tx :: txs =>
      let* (out, offset) := put 4 (le_encode 4 txOffset) (out, offset) in
      let nextTxOffset := u32 (txOffset + u32 (len tx)) in
      if (nextTxOffset <? txOffset) || (len out <? nextTxOffset) then Panic
      else
        let out := copy_at txOffset (take (Z.to_nat (nextTxOffset - txOffset)) tx) out in
        marshalTransactions_loop out (u32 offset) nextTxOffset txs
  end.

Definition marshalTransactions (out : bytes) (txs : list bytes) : result bytes :=
  marshalTransactions_loop out 0 (u32 (u32 (Z.of_nat (length txs)) * 4)) txs.

(** The fields up to the offset of the transactions. *)
Definition head_fields (payload : ExecutionPayload) (fixedSize extraDataSize : Z) : list (Z * bytes) :=
  [(32, hash_bytes (ep_ParentHash payload)); (20, be_encode 20 (ep_FeeRecipient payload));
   (32, hash_bytes (ep_StateRoot payload)); (32, hash_bytes (ep_ReceiptsRoot payload));
   (256, ep_LogsBloom payload); (32, ep_PrevRandao payload);
   (8, le_encode 8 (ep_BlockNumber payload)); (8, le_encode 8 (ep_GasLimit payload));
   (8, le_encode 8 (ep_GasUsed payload)); (8, le_encode 8 (ep_Timestamp payload));
   (4, le_encode 4 fixedSize); (32, marshalBytes32LE (ep_BaseFeePerGas payload));
   (32, hash_bytes (ep_BlockHash payload)); (4, le_encode 4 (u32 (fixedSize + extraDataSize)))].

Definition take_buffer (pool : bytes) (scope : Z) : bytes :=
  if len pool <? scope then replicate (Z.to_nat scope) 0 else take (Z.to_nat scope) pool.

Definition MarshalSSZ (pool : bytes) (payload : ExecutionPayload) : result bytes :=
  let payloadVersion := inferVersion payload in
  let fixedSize := executionPayloadFixedPart payloadVersion in
  let transactionSize := transactionSize payload in
  let extraDataSize := u32 (len (ep_ExtraData payload)) in
  if two32 - 1 - fixedSize <? extraDataSize then Err ErrExtraDataTooLarge
  else
    let scope := SizeSSZ payload in
    let buf := take_buffer pool scope in
    let* (buf, offset) := put_all (head_fields payload fixedSize extraDataSize) (buf, 0) in
    let noWithdrawals := bool_decide (ep_Withdrawals payload = None) in
    if noWithdrawals && negb (offset =? fixedSize) then Panic
    else
      let* (buf, offset) :=
        if noWithdrawals then Ok (buf, offset)
        else put 4 (le_encode 4 (u32 (fixedSize + extraDataSize + transactionSize))) (buf, offset) in
      let* (buf, offset) :=
        if HasBlobProperties payloadVersion then
          match ep_BlobGasUsed payload, ep_ExcessBlobGas payload with
          | Some used, Some excess =>
              put_all [(8, le_encode 8 used); (8, le_encode 8 excess)] (buf, offset)
          | _, _ => Err (Msg "cannot encode ecotone payload without dencun header attributes")
          end
        else Ok (buf, offset) in
      let* (buf, offset) :=
        if HasWithdrawalsRoot payloadVersion then
          match ep_WithdrawalsRoot payload with
          | Some root => put 32 (hash_bytes root) (buf, offset)
          | None => Err (Msg "cannot encode Isthmus payload without withdrawals root")
          end
        else Ok (buf, offset) in
      let* (buf, offset) := put extraDataSize (ep_ExtraData payload) (buf, offset) in
      if len buf <? offset + transactionSize then Panic
      else
        let* out := marshalTransactions
          (slice (Z.to_nat offset) (Z.to_nat (offset + transactionSize)) buf) (ep_Transactions payload) in
        let buf := copy_at offset out buf in
        let offset := offset + transactionSize in
        match ep_Withdrawals payload with
        | None => Ok buf
        | Some ws =>
            let* out := marshalWithdrawals (drop (Z.to_nat offset) buf) ws in
            Ok (copy_at offset out buf)
        end.

(** ** Decoding *)

Definition cut (n : nat) (r : bytes) : bytes * bytes := (take n r, drop n r).

Fixpoint read_withdrawals (n : nat) (r : bytes) : list Withdrawal :=
  match n with
  | O => []
  | S n =>
      let '(index, r) := cut 8 r in
      let '(validator, r) := cut 8 r in
      let '(address, r) := cut 20 r in
      let '(amount, r) := cut 8 r in
      {| wd_Index := le_decode index; wd_Validator := le_decode validator;
         wd_Address := be_decode address; wd_Amount := le_decode amount |} :: read_withdrawals n r
  end.

Definition unmarshalWithdrawals (input : bytes) : result (list Withdrawal) :=
  if negb (len input mod withdrawal_size =? 0) then Err (Msg "invalid withdrawals data")
  else
    let withdrawalCount := len input / withdrawal_size in
    if maxWithdrawalsPerPayload <? withdrawalCount then Err (Msg "too many withdrawals")
    else Ok (read_withdrawals (Z.to_nat withdrawalCount) input).

(** [todo] transactions are still to be read. *)
Fixpoint unmarshalTransactions_loop (todo : nat) (input : bytes) (scope offset currentTxOffset : Z)
    : result (list bytes) :=
  match todo with
  | O => Ok []
  | S todo =>
      let '(nextTxOffset, offset) :=
        match todo with
        | O => (scope, offset)
        | S _ => (le_decode (slice (Z.to_nat offset) (Z.to_nat (offset + 4)) input), offset + 4)
        end in
      if (nextTxOffset <? currentTxOffset) || (scope <? nextTxOffset) then
        Err (Msg "tx has bad next offset")
      else
        let* txs := unmarshalTransactions_loop todo input scope offset nextTxOffset in
        Ok (slice (Z.to_nat currentTxOffset) (Z.to_nat nextTxOffset) input :: txs)
  end.

Definition unmarshalTransactions (input : bytes) : result (list bytes) :=
  let scope := u32 (len input) in
  if scope =? 0 then Ok []
  else if scope <? 4 then Err (Msg "not enough scope to read first tx offset")
  else
    let firstTxOffset := le_decode (take 4 input) in
    if negb (firstTxOffset mod 4 =? 0) then
      Err (Msg "invalid first tx offset, not a multiple of offset size")
    else if scope <? firstTxOffset then Err (Msg "invalid first tx offset, out of scope")
    else
      let txCount := firstTxOffset / 4 in
      if txCount =? 0 then Err (Msg "invalid first tx offset, no transactions in scope")
      else if maxTransactionsPerPayload <? txCount then Err (Msg "too many transactions")
      else unmarshalTransactions_loop (Z.to_nat txCount) input scope 4 firstTxOffset.

(** The payload and the unread bytes.  [BytesMax32] is not checked here; a
    negative size of the extra data wraps around, and slicing it panics. *)
Definition UnmarshalSSZ (version : BlockVersion) (scope : Z) (r : bytes)
    : result (ExecutionPayload * bytes) :=
  let fixedSize := executionPayloadFixedPart version in
  if scope <? fixedSize then Err (Msg "scope too small to decode execution payload")
  else
    let* (buf, rest) := map_err (Wrap "failed to read fixed-size part of ExecutionPayload")
                          (ReadFull (Z.to_nat scope) r) in
    let '(parentHash, b) := cut 32 buf in
    let '(feeRecipient, b) := cut 20 b in
    let '(stateRoot, b) := cut 32 b in
    let '(receiptsRoot, b) := cut 32 b in
    let '(logsBloom, b) := cut 256 b in
    let '(prevRandao, b) := cut 32 b in
    let '(blockNumber, b) := cut 8 b in
    let '(gasLimit, b) := cut 8 b in
    let '(gasUsed, b) := cut 8 b in
    let '(timestamp, b) := cut 8 b in
    let '(extraOffset, b) := cut 4 b in
    let '(baseFee, b) := cut 32 b in
    let '(blockHash, b) := cut 32 b in
    let '(txsOffset, b) := cut 4 b in
    let extraDataOffset := le_decode extraOffset in
    let transactionsOffset := le_decode txsOffset in
    if bool_decide (version = BlockV1) && negb (blockV1FixedPart =? fixedSize) then Panic
    else
      let* (withdrawalsOffset, b) :=
        if HasWithdrawals version then
          let '(wsOffset, b) := cut 4 b in
          let withdrawalsOffset := le_decode wsOffset in
          if withdrawalsOffset <? transactionsOffset then Err ErrBadWithdrawalsOffset
          else if scope <? withdrawalsOffset then Err (Msg "withdrawals offset is too large")
          else Ok (withdrawalsOffset, b)
        else Ok (scope, b) in
      let '(blobs, b) :=
        if HasBlobProperties version then
          let '(used, b) := cut 8 b in
          let '(excess, b) := cut 8 b in
          ((Some (le_decode used), Some (le_decode excess)), b)
        else ((None, None), b) in
      let root := if HasWithdrawalsRoot version then Some (be_decode (take 32 b)) else None in
      if (u32 (extraDataOffset + 32) <? transactionsOffset) || (scope <? transactionsOffset) then
        Err (Msg "extra-data is too large")
      else if transactionsOffset <? extraDataOffset then Panic
      else
        let extraData := slice (Z.to_nat extraDataOffset) (Z.to_nat transactionsOffset) buf in
        let* txs := map_err (Wrap "failed to unmarshal transactions list")
          (unmarshalTransactions (slice (Z.to_nat transactionsOffset) (Z.to_nat withdrawalsOffset) buf)) in
        let* withdrawals :=
          if HasWithdrawals version then
            let* ws := map_err (Wrap "failed to unmarshal withdrawals list")
              (unmarshalWithdrawals (drop (Z.to_nat withdrawalsOffset) buf)) in
            Ok (Some ws)
          else Ok None in
        Ok ({| ep_ParentHash := be_decode parentHash; ep_FeeRecipient := be_decode feeRecipient;
               ep_StateRoot := be_decode stateRoot; ep_ReceiptsRoot := be_decode receiptsRoot;
               ep_LogsBloom := logsBloom; ep_PrevRandao := prevRandao;
               ep_BlockNumber := le_decode blockNumber; ep_GasLimit := le_decode gasLimit;
               ep_GasUsed := le_decode gasUsed; ep_Timestamp := le_decode timestamp;
               ep_ExtraData := extraData; ep_BaseFeePerGas := unmarshalBytes32LE baseFee;
               ep_BlockHash := be_decode blockHash; ep_Transactions := txs;
               ep_Withdrawals := withdrawals; ep_BlobGasUsed := blobs.1;
               ep_ExcessBlobGas := blobs.2; ep_WithdrawalsRoot := root |}, rest).

(** ** Envelopes *)

(** The fields that the decoder sets; [None] is a nil pointer. *)
Record DecodedEnvelope : Type := {
  de_ParentBeaconBlockRoot : option Hash;
  de_ExecutionPayload : option ExecutionPayload }.

(** [r.Read] gives what is there, and io.EOF only when there is nothing. *)
Definition Envelope_UnmarshalSSZ (version : BlockVersion) (scope : Z) (r : bytes)
    : result (DecodedEnvelope * bytes) :=
  if scope <? 32 then Err (Wrap "scope" ErrScopeTooSmall)
  else
    let '(data, r') := cut 32 r in
    match r with
    | [] => Err EOF
    | _ =>
        if negb (length data =? 32)%nat then
          Ok ({| de_ParentBeaconBlockRoot := None; de_ExecutionPayload := None |}, r')
        else
          let* (payload, r') := UnmarshalSSZ version (u32 (scope - 32)) r' in
          Ok ({| de_ParentBeaconBlockRoot := Some (be_decode data);
                 de_ExecutionPayload := Some payload |}, r')
    end.

Definition Envelope_MarshalSSZ (pool : bytes) (envelope : DecodedEnvelope) : result bytes :=
  match de_ExecutionPayload envelope, de_ParentBeaconBlockRoot envelope with
  | Some payload, Some root =>
      let* out := MarshalSSZ pool payload in Ok (hash_bytes root ++ out)
  | _, _ => Err ErrMissingData
  end.
