(* ===== verification/SszCodec.v ===== *)
(** * The SSZ codec is correct

    The encoder fills its buffer with exactly the encoding of the payload,
    whatever the buffer held, and the decoder gives the payload back.  The
    decoder panics on exactly one kind of input. *)

From S2P Require Import Prelude EthTypes Ssz.

(** ** Writing fields *)

Lemma mjoin_cons {A} (x : list A) (l : list (list A)) : mjoin (x :: l) = x ++ mjoin l.
Proof. done. Qed.

Definition fields_ok (fs : list (Z * bytes)) : Prop := Forall (fun f => len f.2 = f.1) fs.

Definition written (fs : list (Z * bytes)) : bytes := mjoin (snd <$> fs).

Lemma written_cons n src fs : written ((n, src) :: fs) = src ++ written fs.
Proof. done. Qed.

Lemma written_app fs gs : written (fs ++ gs) = written fs ++ written gs.
Proof. unfold written. by rewrite fmap_app, join_app. Qed.

Lemma put_ok n src P Q : len src = n -> n <= len Q ->
  put n src (P ++ Q, len P) = Ok ((P ++ src) ++ drop (length src) Q, len (P ++ src)).
Proof.
  intros Hn HQ. unfold put. rewrite len_app, (proj2 (Z.ltb_ge _ _)) by lia. f_equal.
  rewrite len_app, Hn. f_equal. rewrite take_ge by (unfold len in Hn; lia).
  rewrite <- (take_drop (length src) Q) at 1. rewrite copy_at_mid; [by rewrite app_assoc|].
  unfold len in *. rewrite length_take. lia.
Qed.

Lemma put_all_ok fs P Q : fields_ok fs -> (length (written fs) <= length Q)%nat ->
  put_all fs (P ++ Q, len P) = Ok ((P ++ written fs) ++ drop (length (written fs)) Q, len (P ++ written fs)).
Proof.
  intros Hf. revert P Q. induction Hf as [|[n src] fs Hn Hf IH]; intros P Q HQ.
  - unfold written. simpl. by rewrite !app_nil_r, drop_0.
  - rewrite written_cons, length_app in *. cbn [put_all snd fst] in *.
    rewrite put_ok by (unfold len in *; lia). cbn [rbind].
    rewrite IH by (rewrite length_drop; lia). by rewrite <- !app_assoc, drop_drop.
Qed.

Lemma len_le_encode n z : len (le_encode n z) = Z.of_nat n.
Proof. unfold len. by rewrite length_le_encode. Qed.

Lemma len_be_encode n z : len (be_encode n z) = Z.of_nat n.
Proof. unfold len. by rewrite length_be_encode. Qed.

Lemma len_marshalBytes32LE z : len (marshalBytes32LE z) = 32.
Proof. unfold marshalBytes32LE. by rewrite !len_app, !len_le_encode. Qed.

Lemma len_hash_bytes h : len (hash_bytes h) = 32.
Proof. apply len_be_encode. Qed.

Lemma le4_range z : 0 <= z < two32 -> le_decode (le_encode 4 z) = z.
Proof. intros Hz. apply le_decode_encode. exact Hz. Qed.

Lemma u32_small z : 0 <= z < two32 -> u32 z = z.
Proof. intros. by apply Z.mod_small. Qed.

(** ** Transactions *)

Definition txs_len (txs : list bytes) : Z := len (mjoin txs).

Lemma txs_len_cons tx txs : txs_len (tx :: txs) = len tx + txs_len txs.
Proof. unfold txs_len. simpl. by rewrite len_app. Qed.

(** The table of offsets. *)
Fixpoint offsets (txOffset : Z) (txs : list bytes) : bytes :=
  match txs with
  | [] => []
  | tx :: txs => le_encode 4 txOffset ++ offsets (txOffset + len tx) txs
  end.

Lemma length_offsets o txs : length (offsets o txs) = (4 * length txs)%nat.
Proof.
  revert o. induction txs as [|tx txs IH]; intros o; [done|]. cbn [offsets length].
  rewrite length_app, length_le_encode, IH. lia.
Qed.

Definition tx_list (txs : list bytes) : bytes :=
  offsets (4 * Z.of_nat (length txs)) txs ++ mjoin txs.

Lemma len_nonneg (l : bytes) : 0 <= len l.
Proof. unfold len. lia. Qed.

Lemma marshalTransactions_loop_ok txs T X D Y :
  length X = (4 * length txs)%nat -> len Y = txs_len txs ->
  len T + len X + len D + txs_len txs < two32 ->
  marshalTransactions_loop (T ++ X ++ D ++ Y) (len T) (len T + len X + len D) txs
  = Ok (T ++ offsets (len T + len X + len D) txs ++ D ++ mjoin txs).
Proof.
  revert T X D Y. induction txs as [|tx txs IH]; intros T X D Y HX HY Hs.
  - destruct X; [|done]. destruct Y; [|done]. done.
  - rewrite txs_len_cons in HY, Hs. pose proof (len_nonneg T). pose proof (len_nonneg X).
    pose proof (len_nonneg D). pose proof (len_nonneg tx). pose proof (len_nonneg (mjoin txs)) as Hm.
    fold (txs_len txs) in Hm. cbn [marshalTransactions_loop offsets mjoin list_join].
    set (o := len T + len X + len D) in *.
    rewrite put_ok by (rewrite ?len_le_encode, ?len_app; unfold len in *; simpl in *; lia).
    cbn [rbind]. rewrite length_le_encode.
    rewrite (drop_app_le X) by (simpl in HX; lia). set (X' := drop 4 X).
    assert (length X' = (4 * length txs)%nat) as HX' by (unfold X'; rewrite length_drop; simpl in HX; lia).
    assert (len X = 4 + len X') as HXX by (unfold len in *; simpl in HX; lia).
    rewrite (u32_small (len tx)) by lia. rewrite (u32_small (o + len tx)) by lia.
    set (T' := T ++ le_encode 4 o). assert (len T' = len T + 4) as HT' by (unfold T'; by rewrite len_app, len_le_encode).
    rewrite (proj2 (Z.ltb_ge (o + len tx) o)) by lia.
    rewrite (proj2 (Z.ltb_ge _ (o + len tx))) by (rewrite !len_app, HT', HY; lia). cbn [orb].
    rewrite <- (take_drop (length tx) Y). set (Y' := drop (length tx) Y).
    assert (length (take (length tx) Y) = length tx) as Hty by (rewrite length_take; unfold len in *; lia).
    assert (len Y' = txs_len txs) as HY' by (unfold Y', len in *; rewrite length_drop; lia).
    replace (T' ++ X' ++ D ++ take (length tx) Y ++ Y') with ((T' ++ X' ++ D) ++ take (length tx) Y ++ Y')
      by (by rewrite <- !app_assoc).
    rewrite take_ge by (unfold len in *; lia).
    assert (o = len (T' ++ X' ++ D)) as Ho by (unfold o; rewrite !len_app; lia).
    rewrite Ho at 1. rewrite copy_at_mid by done.
    assert (len T' <= o) by (pose proof (len_nonneg X'); rewrite Ho, !len_app; lia).
    rewrite (u32_small (len T')) by lia.
    replace ((T' ++ X' ++ D) ++ tx ++ Y') with (T' ++ X' ++ (D ++ tx) ++ Y') by (by rewrite <- !app_assoc).
    replace (o + len tx) with (len T' + len X' + len (D ++ tx)) by (rewrite Ho, !len_app; lia).
    rewrite IH by (rewrite ?len_app; done || lia). unfold T'. by rewrite <- !app_assoc.
Qed.

Lemma slice_mid P l Q a b : len P = a -> len P + len l = b ->
  slice (Z.to_nat a) (Z.to_nat b) (P ++ l ++ Q) = l.
Proof. intros <- <-. apply slice_app_mid; unfold len; lia. Qed.

Lemma txs_step k input scope offset cur :
  unmarshalTransactions_loop (S (S k)) input scope offset cur
  = let next := le_decode (slice (Z.to_nat offset) (Z.to_nat (offset + 4)) input) in
    if (next <? cur) || (scope <? next) then Err (Msg "tx has bad next offset")
    else let* txs := unmarshalTransactions_loop (S k) input scope (offset + 4) next in
         Ok (slice (Z.to_nat cur) (Z.to_nat next) input :: txs).
Proof. done. Qed.

Lemma unmarshalTransactions_loop_ok rest tx T D cur input :
  input = T ++ offsets (cur + len tx) rest ++ D ++ tx ++ mjoin rest ->
  len T + len (offsets (cur + len tx) rest) + len D = cur -> len input < two32 ->
  unmarshalTransactions_loop (S (length rest)) input (len input) (len T) cur = Ok (tx :: rest).
Proof.
  revert tx T D cur. induction rest as [|tx2 rest IH]; intros tx T D cur -> Hc Hs.
  - cbn [unmarshalTransactions_loop length offsets mjoin list_join app] in *.
    set (input := T ++ D ++ tx ++ []) in *. change (len []) with 0 in Hc.
    assert (len input = cur + len tx) as -> by (unfold input; rewrite app_nil_r, !len_app; lia).
    pose proof (len_nonneg tx). rewrite !(proj2 (Z.ltb_ge _ _)) by lia. cbn [orb rbind]. do 2 f_equal.
    unfold input. rewrite app_assoc. apply slice_mid; rewrite len_app; lia.
  - cbn [length]. rewrite txs_step. cbv zeta. cbn [offsets] in Hc |- *. rewrite len_app, len_le_encode in Hc.
    cbn [offsets] in Hs. set (next := cur + len tx) in *.
    set (input := T ++ (le_encode 4 next ++ offsets (next + len tx2) rest) ++ D ++ tx ++ mjoin (tx2 :: rest)) in *.
    assert (len input = next + len (mjoin (tx2 :: rest))) as Hl.
    { unfold input. rewrite !len_app, len_le_encode. lia. }
    pose proof (len_nonneg tx). pose proof (len_nonneg T). pose proof (len_nonneg D).
    pose proof (len_nonneg (offsets (next + len tx2) rest)). pose proof (len_nonneg (mjoin (tx2 :: rest))).
    assert (le_decode (slice (Z.to_nat (len T)) (Z.to_nat (len T + 4)) input) = next) as ->.
    { unfold input. rewrite <- !app_assoc, slice_mid by (rewrite ?len_le_encode; done). apply le4_range. lia. }
    rewrite !(proj2 (Z.ltb_ge _ _)) by lia. cbn [orb].
    replace (len T + 4) with (len (T ++ le_encode 4 next)) by (by rewrite len_app, len_le_encode).
    rewrite (IH tx2 (T ++ le_encode 4 next) (D ++ tx)); [|unfold input; by rewrite <- !app_assoc| |done].
    2: { rewrite !len_app, len_le_encode. lia. }
    cbn [rbind]. do 2 f_equal. unfold input.
    replace (T ++ (le_encode 4 next ++ offsets (next + len tx2) rest) ++ D ++ tx ++ mjoin (tx2 :: rest))
      with ((T ++ le_encode 4 next ++ offsets (next + len tx2) rest ++ D) ++ tx ++ mjoin (tx2 :: rest))
      by (by rewrite <- !app_assoc).
    apply slice_mid; rewrite !len_app, len_le_encode; lia.
Qed.

Lemma unmarshalTransactions_ok txs :
  Z.of_nat (length txs) <= maxTransactionsPerPayload -> len (tx_list txs) < two32 ->
  unmarshalTransactions (tx_list txs) = Ok txs.
Proof.
  intros Hn Hs. unfold unmarshalTransactions. rewrite u32_small by (pose proof (len_nonneg (tx_list txs)); lia).
  destruct txs as [|tx rest]; [done|].
  assert (len (tx_list (tx :: rest)) = 4 * Z.of_nat (length (tx :: rest)) + txs_len (tx :: rest)) as Hl.
  { unfold tx_list, txs_len. rewrite len_app. unfold len at 1. rewrite length_offsets. lia. }
  set (n := Z.of_nat (length (tx :: rest))) in *. assert (1 <= n) by (unfold n; cbn [length]; lia).
  pose proof (len_nonneg (mjoin (tx :: rest))) as Hm. fold (txs_len (tx :: rest)) in Hm.
  rewrite (proj2 (Z.eqb_neq _ _)), (proj2 (Z.ltb_ge _ _)) by lia.
  assert (le_decode (take 4 (tx_list (tx :: rest))) = 4 * n) as ->.
  { unfold tx_list. cbn [offsets]. rewrite <- app_assoc, take_app_length' by (by rewrite length_le_encode).
    apply le4_range. fold n. lia. }
  rewrite (Z.mul_comm 4 n), Z.mod_mul, Z.div_mul by lia. cbn [Z.eqb negb].
  rewrite !(proj2 (Z.ltb_ge _ _)), (proj2 (Z.eqb_neq n 0)) by lia.
  unfold n. rewrite Nat2Z.id. cbn [length].
  change 4 with (len (le_encode 4 (4 * n))) at 1. 
  rewrite (unmarshalTransactions_loop_ok rest tx (le_encode 4 (4 * n)) [] (n * 4)); [done| | |done].
  - unfold tx_list. cbn [offsets mjoin list_join app]. fold n. rewrite <- app_assoc. do 3 f_equal. f_equal. lia.
  - rewrite len_le_encode. unfold len at 1. rewrite length_offsets. change (len []) with 0.
    unfold n. cbn [length]. lia.
Qed.

(** ** Withdrawals *)

Record wd_ok (w : Withdrawal) : Prop := {
  wo_Index : is_u64 (wd_Index w);
  wo_Validator : is_u64 (wd_Validator w);
  wo_Address : 0 <= wd_Address w < 2 ^ 160;
  wo_Amount : is_u64 (wd_Amount w) }.

Definition wd_bytes (w : Withdrawal) : bytes := written (withdrawal_fields w).

Lemma withdrawal_fields_ok w : fields_ok (withdrawal_fields w).
Proof. repeat constructor; cbn [fst snd]; (apply len_le_encode || apply len_be_encode). Qed.

Lemma wd_bytes_eq w :
  wd_bytes w = le_encode 8 (wd_Index w) ++ le_encode 8 (wd_Validator w)
               ++ be_encode 20 (wd_Address w) ++ le_encode 8 (wd_Amount w).
Proof. unfold wd_bytes, withdrawal_fields. rewrite !written_cons. unfold written. by rewrite app_nil_r. Qed.

Lemma length_wd_bytes w : length (wd_bytes w) = 44%nat.
Proof.
  by rewrite wd_bytes_eq, !length_app, !length_le_encode, length_be_encode.
Qed.

Lemma written_withdrawals ws : written (mjoin (withdrawal_fields <$> ws)) = mjoin (wd_bytes <$> ws).
Proof. induction ws as [|w ws IH]; [done|]. rewrite !fmap_cons, !mjoin_cons. by rewrite written_app, IH. Qed.

Lemma length_withdrawals ws : length (mjoin (wd_bytes <$> ws)) = (44 * length ws)%nat.
Proof.
  induction ws as [|w ws IH]; [done|]. rewrite fmap_cons, mjoin_cons, length_app, length_wd_bytes, IH. cbn [length]. lia.
Qed.

Lemma le8 z : is_u64 z -> le_decode (le_encode 8 z) = z.
Proof. intros Hz. apply le_decode_encode. exact Hz. Qed.

Lemma cut_app n l r : length l = n -> cut n (l ++ r) = (l, r).
Proof. intros <-. unfold cut. by rewrite take_app_length, drop_app_length. Qed.

Lemma be_fixed n z : 0 <= z < 256 ^ Z.of_nat n -> be_decode (be_encode n z) = z.
Proof. intros Hz. rewrite be_decode_encode. by apply Z.mod_small. Qed.

Lemma read_withdrawals_ok ws rest : Forall wd_ok ws ->
  read_withdrawals (length ws) (mjoin (wd_bytes <$> ws) ++ rest) = ws.
Proof.
  induction 1 as [|w ws [H1 H2 H3 H4] _ IH]; [done|]. cbn [length read_withdrawals].
  rewrite fmap_cons, mjoin_cons, wd_bytes_eq, <- !app_assoc. rewrite !cut_app by (by rewrite ?length_le_encode, ?length_be_encode).
  rewrite IH, !le8, be_fixed by done. by destruct w.
Qed.

Lemma unmarshalWithdrawals_ok ws : Forall wd_ok ws -> Z.of_nat (length ws) <= maxWithdrawalsPerPayload ->
  unmarshalWithdrawals (mjoin (wd_bytes <$> ws)) = Ok ws.
Proof.
  intros Hw Hn. unfold unmarshalWithdrawals, withdrawal_size.
  assert (len (mjoin (wd_bytes <$> ws)) = Z.of_nat (length ws) * (8 + 8 + 20 + 8)) as ->
    by (unfold len; rewrite length_withdrawals; lia).
  rewrite Z.mod_mul, Z.div_mul by lia. cbn [Z.eqb negb]. rewrite (proj2 (Z.ltb_ge _ _)) by lia.
  rewrite Nat2Z.id. rewrite <- (app_nil_r (mjoin _)). by rewrite read_withdrawals_ok.
Qed.

Lemma marshalWithdrawals_ok ws Q : length Q = (44 * length ws)%nat ->
  marshalWithdrawals Q ws = Ok (mjoin (wd_bytes <$> ws)).
Proof.
  intros HQ. unfold marshalWithdrawals.
  assert (fields_ok (mjoin (withdrawal_fields <$> ws))) as Hf.
  { clear HQ. unfold fields_ok. induction ws as [|w ws IH]; [constructor|]. rewrite fmap_cons, mjoin_cons.
    apply Forall_app. split; [apply withdrawal_fields_ok|done]. }
  pose proof (put_all_ok _ [] Q Hf) as Hp. rewrite written_withdrawals, length_withdrawals in Hp.
  change (len []) with 0 in Hp. cbn [app] in Hp. rewrite Hp by lia. cbn [rbind].
  by rewrite drop_ge, app_nil_r by lia.
Qed.

Lemma bytes32LE_roundtrip z : 0 <= z < 2 ^ 256 -> unmarshalBytes32LE (marshalBytes32LE z) = z.
Proof.
  intros Hz. unfold unmarshalBytes32LE, marshalBytes32LE.
  set (w0 := le_encode 8 z). set (w1 := le_encode 8 (Z.shiftr z 64)).
  set (w2 := le_encode 8 (Z.shiftr z 128)). set (w3 := le_encode 8 (Z.shiftr z 192)).
  assert (slice 0 8 (w0 ++ w1 ++ w2 ++ w3) = w0) as -> by (apply (slice_app_mid []); by rewrite ?length_le_encode).
  assert (slice 8 16 (w0 ++ w1 ++ w2 ++ w3) = w1) as -> by (apply slice_app_mid; by rewrite ?length_le_encode).
  assert (slice 16 24 (w0 ++ w1 ++ w2 ++ w3) = w2) as ->.
  { rewrite (app_assoc w0). apply slice_app_mid; by rewrite ?length_app, ?length_le_encode. }
  assert (slice 24 32 (w0 ++ w1 ++ w2 ++ w3) = w3) as ->.
  { rewrite <- (app_nil_r w3), (app_assoc w1), (app_assoc w0).
    apply slice_app_mid; by rewrite ?length_app, ?length_le_encode. }
  assert (forall x, le_decode (le_encode 8 x) = x mod 2 ^ 64) as Hd.
  { intros x. unfold le_decode, le_encode. rewrite reverse_involutive. apply be_decode_encode. }
  unfold w0, w1, w2, w3. rewrite !Hd, !Z.shiftr_div_pow2, !Z.shiftl_mul_pow2 by lia.
  change (2 ^ 128) with (2 ^ 64 * 2 ^ 64). change (2 ^ 192) with (2 ^ 64 * 2 ^ 64 * 2 ^ 64).
  rewrite <- !Z.div_div by lia. set (B := 2 ^ 64) in *.
  assert (0 < B) by (unfold B; lia).
  pose proof (Z.div_mod z B ltac:(lia)). pose proof (Z.div_mod (z / B) B ltac:(lia)).
  pose proof (Z.div_mod (z / B / B) B ltac:(lia)).
  assert (z / B / B / B < B).
  { rewrite !Z.div_div by lia. apply Z.div_lt_upper_bound; [lia|].
    change (B * B * B * B) with (2 ^ 256). lia. }
  assert (0 <= z / B / B / B) by (repeat apply Z.div_pos; lia).
  rewrite (Z.mod_small (z / B / B / B)) by lia. nia.
Qed.

(** ** Payloads *)

Definition wd_count (payload : ExecutionPayload) : Z :=
  Z.of_nat (length (default [] (ep_Withdrawals payload))).

(** The optional fields fit the version that is inferred from them: a root of
    empty withdrawals is not encoded, and a single blob-gas field neither. *)
Definition shape_ok (payload : ExecutionPayload) : Prop :=
  match inferVersion payload with
  | BlockV1 => ep_Withdrawals payload = None /\ ep_BlobGasUsed payload = None
               /\ ep_ExcessBlobGas payload = None /\ ep_WithdrawalsRoot payload = None
  | BlockV2 => is_Some (ep_Withdrawals payload) /\ ep_BlobGasUsed payload = None
               /\ ep_ExcessBlobGas payload = None /\ ep_WithdrawalsRoot payload = None
  | BlockV3 => is_Some (ep_Withdrawals payload) /\ is_Some (ep_BlobGasUsed payload)
               /\ is_Some (ep_ExcessBlobGas payload) /\ ep_WithdrawalsRoot payload = None
  | BlockV4 => is_Some (ep_Withdrawals payload) /\ is_Some (ep_BlobGasUsed payload)
               /\ is_Some (ep_ExcessBlobGas payload) /\ is_Some (ep_WithdrawalsRoot payload)
  end.

Definition full_size (payload : ExecutionPayload) : Z :=
  executionPayloadFixedPart (inferVersion payload) + len (ep_ExtraData payload)
  + len (tx_list (ep_Transactions payload)) + 44 * wd_count payload.

Record payload_ok (payload : ExecutionPayload) : Prop := {
  po_ParentHash : 0 <= ep_ParentHash payload < 2 ^ 256;
  po_FeeRecipient : 0 <= ep_FeeRecipient payload < 2 ^ 160;
  po_StateRoot : 0 <= ep_StateRoot payload < 2 ^ 256;
  po_ReceiptsRoot : 0 <= ep_ReceiptsRoot payload < 2 ^ 256;
  po_LogsBloom : length (ep_LogsBloom payload) = 256%nat;
  po_PrevRandao : length (ep_PrevRandao payload) = 32%nat;
  po_BlockNumber : is_u64 (ep_BlockNumber payload);
  po_GasLimit : is_u64 (ep_GasLimit payload);
  po_GasUsed : is_u64 (ep_GasUsed payload);
  po_Timestamp : is_u64 (ep_Timestamp payload);
  po_ExtraData : len (ep_ExtraData payload) <= 32;
  po_BaseFee : 0 <= ep_BaseFeePerGas payload < 2 ^ 256;
  po_BlockHash : 0 <= ep_BlockHash payload < 2 ^ 256;
  po_Transactions : Z.of_nat (length (ep_Transactions payload)) <= maxTransactionsPerPayload;
  po_Withdrawals : Forall wd_ok (default [] (ep_Withdrawals payload))
                   /\ wd_count payload <= maxWithdrawalsPerPayload;
  po_BlobGasUsed : is_u64 (default 0 (ep_BlobGasUsed payload));
  po_ExcessBlobGas : is_u64 (default 0 (ep_ExcessBlobGas payload));
  po_Root : 0 <= default 0 (ep_WithdrawalsRoot payload) < 2 ^ 256;
  po_shape : shape_ok payload;
  po_size : full_size payload < two32 }.

Lemma len_tx_list txs : len (tx_list txs) = 4 * Z.of_nat (length txs) + txs_len txs.
Proof. unfold tx_list, txs_len. rewrite len_app. unfold len at 1. rewrite length_offsets. lia. Qed.

Lemma transactionSize_ok payload : len (tx_list (ep_Transactions payload)) < two32 ->
  transactionSize payload = len (tx_list (ep_Transactions payload)).
Proof.
  rewrite len_tx_list. unfold transactionSize. set (txs := ep_Transactions payload). intros Hs.
  pose proof (len_nonneg (mjoin txs)) as Hm. fold (txs_len txs) in Hm.
  rewrite (u32_small (Z.of_nat _)), (u32_small (_ * 4)) by lia.
  assert (forall a l, 0 <= a -> a + txs_len l < two32 ->
    foldl (fun size tx => u32 (size + u32 (len tx))) a l = a + txs_len l) as Hf.
  { intros a l. revert a. induction l as [|tx l IH]; intros a Ha Hl; [unfold txs_len, len; simpl; lia|].
    rewrite txs_len_cons in *. pose proof (len_nonneg tx). pose proof (len_nonneg (mjoin l)) as Hml.
    fold (txs_len l) in Hml. simpl. rewrite (u32_small (len tx)), u32_small, IH by lia. lia. }
  rewrite Hf by lia. lia.
Qed.

Section Payload.
Context (payload : ExecutionPayload) (Hok : payload_ok payload).

Definition the_fixed : Z := executionPayloadFixedPart (inferVersion payload).

Definition tail_fields : list (Z * bytes) :=
  match ep_Withdrawals payload with
  | None => []
  | Some _ => [(4, le_encode 4 (the_fixed + len (ep_ExtraData payload)
                                + len (tx_list (ep_Transactions payload))))]
  end
  ++ (if HasBlobProperties (inferVersion payload)
      then [(8, le_encode 8 (default 0 (ep_BlobGasUsed payload)));
            (8, le_encode 8 (default 0 (ep_ExcessBlobGas payload)))] else [])
  ++ (if HasWithdrawalsRoot (inferVersion payload)
      then [(32, hash_bytes (default 0 (ep_WithdrawalsRoot payload)))] else []).

Definition fixed_bytes : bytes :=
  written (head_fields payload the_fixed (len (ep_ExtraData payload)) ++ tail_fields).

Definition wd_part : bytes := mjoin (wd_bytes <$> default [] (ep_Withdrawals payload)).

(** The encoding, piece by piece. *)
Definition encoding : bytes :=
  fixed_bytes ++ ep_ExtraData payload ++ tx_list (ep_Transactions payload) ++ wd_part.

Lemma head_fields_ok f e : fields_ok (head_fields payload f e).
Proof.
  destruct Hok. repeat constructor; cbn [fst snd];
    first [apply len_hash_bytes | apply len_be_encode | apply len_le_encode | apply len_marshalBytes32LE
          | unfold len; lia].
Qed.

Lemma tail_fields_ok : fields_ok tail_fields.
Proof.
  unfold tail_fields. destruct (ep_Withdrawals payload), (HasBlobProperties _), (HasWithdrawalsRoot _);
    repeat constructor; cbn [fst snd]; (apply len_le_encode || apply len_hash_bytes).
Qed.

Lemma written_len fs : fields_ok fs -> len (written fs) = foldr (fun f n => f.1 + n) 0 fs.
Proof.
  induction 1 as [|[n src] fs Hn _ IH]; [done|]. rewrite written_cons, len_app, IH. simpl in *. lia.
Qed.

Lemma len_head f e : len (written (head_fields payload f e)) = blockV1FixedPart.
Proof. by rewrite written_len by apply head_fields_ok. Qed.

Lemma len_fixed : len fixed_bytes = the_fixed.
Proof.
  unfold fixed_bytes, the_fixed. rewrite written_app, len_app, len_head.
  rewrite written_len by apply tail_fields_ok. unfold tail_fields.
  pose proof (po_shape _ Hok) as Hs. unfold shape_ok in Hs.
  destruct (inferVersion payload); destruct Hs as (Hw & _);
    [rewrite Hw|destruct Hw as [ws ->]|destruct Hw as [ws ->]|destruct Hw as [ws ->]]; done.
Qed.

Lemma len_encoding : len encoding = full_size payload.
Proof.
  unfold encoding, full_size. rewrite !len_app, len_fixed. unfold the_fixed, wd_part, wd_count.
  unfold len at 3. rewrite length_withdrawals. lia.
Qed.

Lemma withdrawalSize_ok : withdrawalSize payload = 44 * wd_count payload.
Proof.
  unfold withdrawalSize, wd_count. destruct (ep_Withdrawals payload) as [ws|] eqn:Ew; [|done].
  pose proof (po_Withdrawals _ Hok) as [_ Hn]. unfold wd_count in Hn. rewrite Ew in Hn.
  change (default [] (Some ws)) with ws in *.
  unfold withdrawal_size, maxWithdrawalsPerPayload in *. rewrite u32_small by (unfold two32; lia). lia.
Qed.

Lemma sizes_ok : u32 (len (ep_ExtraData payload)) = len (ep_ExtraData payload)
  /\ transactionSize payload = len (tx_list (ep_Transactions payload))
  /\ SizeSSZ payload = full_size payload.
Proof.
  pose proof (po_size _ Hok) as Hs. unfold full_size in Hs.
  pose proof (len_nonneg (ep_ExtraData payload)). pose proof (len_nonneg (tx_list (ep_Transactions payload))).
  assert (0 < executionPayloadFixedPart (inferVersion payload)) by (by destruct (inferVersion payload)).
  assert (0 <= wd_count payload) by (unfold wd_count; lia).
  assert (u32 (len (ep_ExtraData payload)) = len (ep_ExtraData payload)) as He by (apply u32_small; lia).
  split_and!; [done|apply transactionSize_ok; lia|].
  unfold SizeSSZ. rewrite He, transactionSize_ok, withdrawalSize_ok by lia.
  unfold full_size. apply u32_small. lia.
Qed.

Lemma put_all_app fs gs s : put_all (fs ++ gs) s = let* s := put_all fs s in put_all gs s.
Proof.
  revert s. induction fs as [|[n src] fs IH]; intros s; [done|]. cbn [app put_all].
  destruct (put n src s); [apply IH|done|done].
Qed.

(** The three conditional writes are the fields of the version. *)
Lemma tail_writes (s : bytes * Z) (k : bytes * Z -> result bytes) :
  (let* (buf, offset) :=
     if bool_decide (ep_Withdrawals payload = None) then Ok s
     else put 4 (le_encode 4 (u32 (the_fixed + len (ep_ExtraData payload)
                                   + len (tx_list (ep_Transactions payload))))) s in
   let* (buf, offset) :=
     if HasBlobProperties (inferVersion payload) then
       match ep_BlobGasUsed payload, ep_ExcessBlobGas payload with
       | Some used, Some excess =>
           put_all [(8, le_encode 8 used); (8, le_encode 8 excess)] (buf, offset)
       | _, _ => Err (Msg "cannot encode ecotone payload without dencun header attributes")
       end
     else Ok (buf, offset) in
   let* (buf, offset) :=
     if HasWithdrawalsRoot (inferVersion payload) then
       match ep_WithdrawalsRoot payload with
       | Some root => put 32 (hash_bytes root) (buf, offset)
       | None => Err (Msg "cannot encode Isthmus payload without withdrawals root")
       end
     else Ok (buf, offset) in k (buf, offset))
  = rbind (put_all tail_fields s) k.
Proof.
  pose proof (po_shape _ Hok) as Hs. unfold shape_ok in Hs.
  pose proof (po_size _ Hok) as Hsz. unfold full_size in Hsz. fold the_fixed in Hsz.
  assert (0 < the_fixed) by (unfold the_fixed; by destruct (inferVersion payload)).
  assert (0 <= wd_count payload) by (unfold wd_count; lia).
  pose proof (len_nonneg (ep_ExtraData payload)). pose proof (len_nonneg (tx_list (ep_Transactions payload))).
  rewrite u32_small by lia. unfold tail_fields.
  destruct (inferVersion payload); destruct Hs as (Hw & Hu & He & Hr).
  - rewrite Hw. by destruct s.
  - destruct Hw as [ws ->]. cbn -[put le_encode hash_bytes tx_list]. destruct (put 4 _ s) as [[b o]| |]; done.
  - destruct Hw as [ws ->], Hu as [u ->], He as [e ->]. cbn -[put le_encode hash_bytes tx_list].
    destruct (put 4 _ s) as [[b o]| |]; [|done|done]. cbn -[put le_encode hash_bytes tx_list].
    destruct (put 8 _ _) as [[b1 o1]| |]; [|done|done]. cbn -[put le_encode hash_bytes tx_list].
    by destruct (put 8 _ _) as [[b2 o2]| |].
  - destruct Hw as [ws ->], Hu as [u ->], He as [e ->], Hr as [r ->]. cbn -[put le_encode hash_bytes tx_list].
    destruct (put 4 _ s) as [[b o]| |]; [|done|done]. cbn -[put le_encode hash_bytes tx_list].
    destruct (put 8 _ _) as [[b1 o1]| |]; [|done|done]. cbn -[put le_encode hash_bytes tx_list].
    destruct (put 8 _ _) as [[b2 o2]| |]; [|done|done]. cbn -[put le_encode hash_bytes tx_list].
    by destruct (put 32 _ _) as [[b3 o3]| |].
Qed.

Lemma marshalTransactions_ok txs Q : len Q = len (tx_list txs) -> len (tx_list txs) < two32 ->
  marshalTransactions Q txs = Ok (tx_list txs).
Proof.
  intros HQ Hs. rewrite len_tx_list in *. unfold marshalTransactions.
  pose proof (len_nonneg (mjoin txs)) as Hm. fold (txs_len txs) in Hm.
  rewrite (u32_small (Z.of_nat _)), u32_small by lia.
  rewrite <- (take_drop (4 * length txs) Q). set (X := take _ Q). set (Y := drop _ Q).
  assert (length X = (4 * length txs)%nat) as HX by (unfold X; rewrite length_take; unfold len in HQ; lia).
  assert (len Y = txs_len txs) as HY by (unfold Y, len in *; rewrite length_drop; lia).
  pose proof (marshalTransactions_loop_ok txs [] X [] Y HX HY) as Hl. cbn [app] in Hl.
  change (len []) with 0 in Hl.
  assert (len X = 4 * Z.of_nat (length txs)) as HXl by (unfold len; lia).
  rewrite HXl in Hl. replace (Z.of_nat (length txs) * 4) with (0 + 4 * Z.of_nat (length txs) + 0) by lia.
  rewrite Hl by lia. unfold tx_list. do 2 f_equal. f_equal. lia.
Qed.

Lemma length_take_buffer pool scope : 0 <= scope -> length (take_buffer pool scope) = Z.to_nat scope.
Proof.
  intros Hs. unfold take_buffer. destruct (Z.ltb_spec (len pool) scope).
  - apply length_replicate.
  - rewrite length_take. unfold len in *. lia.
Qed.

(** The lists behind the fixed part. *)
Definition write_lists (s : bytes * Z) : result bytes :=
  let '(buf, offset) := s in
  let* (buf, offset) := put (len (ep_ExtraData payload)) (ep_ExtraData payload) (buf, offset) in
  if len buf <? offset + len (tx_list (ep_Transactions payload)) then Panic
  else
    let* out := marshalTransactions
      (slice (Z.to_nat offset) (Z.to_nat (offset + len (tx_list (ep_Transactions payload)))) buf)
      (ep_Transactions payload) in
    let buf := copy_at offset out buf in
    let offset := offset + len (tx_list (ep_Transactions payload)) in
    match ep_Withdrawals payload with
    | None => Ok buf
    | Some ws => let* out := marshalWithdrawals (drop (Z.to_nat offset) buf) ws in Ok (copy_at offset out buf)
    end.

Lemma write_lists_ok F Q : len (tx_list (ep_Transactions payload)) < two32 ->
  length Q = (length (ep_ExtraData payload) + length (tx_list (ep_Transactions payload)) + length wd_part)%nat ->
  write_lists (F ++ Q, len F)
  = Ok (F ++ ep_ExtraData payload ++ tx_list (ep_Transactions payload) ++ wd_part).
Proof.
  intros Hs HQ. unfold write_lists. rewrite put_ok by (done || (unfold len; lia)). cbn [rbind].
  set (E := F ++ ep_ExtraData payload). set (Q' := drop _ Q).
  assert (length Q' = length (tx_list (ep_Transactions payload)) + length wd_part)%nat as HQ'
    by (unfold Q'; rewrite length_drop; lia).
  rewrite (proj2 (Z.ltb_ge _ _)) by (rewrite len_app; unfold len; lia).
  rewrite <- (take_drop (length (tx_list (ep_Transactions payload))) Q').
  set (Q1 := take _ Q'). set (Q2 := drop _ Q').
  assert (length Q1 = length (tx_list (ep_Transactions payload))) as HQ1 by (unfold Q1; rewrite length_take; lia).
  assert (length Q2 = length wd_part) as HQ2 by (unfold Q2; rewrite length_drop; lia).
  rewrite slice_mid by (unfold len; lia). rewrite marshalTransactions_ok; [|unfold len; lia|done].
  cbn [rbind]. rewrite copy_at_mid by done. rewrite (app_assoc F). fold E.
  unfold wd_part in *. destruct (ep_Withdrawals payload) as [ws|]; [|by destruct Q2].
  change (default [] (Some ws)) with ws in *. rewrite length_withdrawals in HQ2.
  replace (len E + len (tx_list (ep_Transactions payload)))
    with (len (E ++ tx_list (ep_Transactions payload))) by (by rewrite len_app).
  rewrite app_assoc, to_nat_len, drop_app_length, marshalWithdrawals_ok by done. cbn [rbind].
  rewrite <- (app_nil_r Q2), copy_at_mid by (by rewrite length_withdrawals).
  by rewrite app_nil_r, <- app_assoc.
Qed.

Lemma MarshalSSZ_spec pool : MarshalSSZ pool payload = Ok encoding.
Proof.
  destruct sizes_ok as (He & Ht & Hsz). unfold MarshalSSZ. cbv zeta. rewrite He, Ht, Hsz. fold the_fixed.
  pose proof (po_size _ Hok) as Hs. pose proof len_encoding as Hl.
  pose proof (po_ExtraData _ Hok) as Hx. pose proof (len_nonneg (ep_ExtraData payload)).
  assert (508 <= the_fixed <= 560) as Hf by (unfold the_fixed; destruct (inferVersion payload); done).
  rewrite (proj2 (Z.ltb_ge _ _)) by (unfold two32; lia).
  set (buf := take_buffer pool (full_size payload)).
  assert (length buf = length encoding) as Hb.
  { unfold buf. rewrite length_take_buffer by (rewrite <- Hl; apply len_nonneg). unfold len in Hl. lia. }
  set (hf := head_fields payload the_fixed (len (ep_ExtraData payload))).
  assert (length encoding = length (written hf) + length (written tail_fields) + length (ep_ExtraData payload)
    + length (tx_list (ep_Transactions payload)) + length wd_part)%nat as Hel.
  { unfold encoding, fixed_bytes. rewrite written_app, !length_app. fold hf. lia. }
  pose proof (put_all_ok hf [] buf (head_fields_ok _ _) ltac:(lia)) as Hp. change (len []) with 0 in Hp.
  cbn [app] in Hp. rewrite Hp. cbn [rbind].
  assert (len (written hf) = blockV1FixedPart) as Hh by apply len_head. rewrite Hh.
  assert (bool_decide (ep_Withdrawals payload = None) && negb (blockV1FixedPart =? the_fixed) = false) as ->.
  { pose proof (po_shape _ Hok) as Hsh. unfold shape_ok in Hsh. unfold the_fixed.
    destruct (inferVersion payload); destruct Hsh as (Hw & _); [by rewrite andb_false_r|..];
      destruct Hw as [ws ->]; done. }
  rewrite <- Hh. rewrite (tail_writes _ write_lists).
  rewrite put_all_ok by (apply tail_fields_ok || (rewrite length_drop; lia)). cbn [rbind].
  rewrite <- written_app. fold hf. change (written (hf ++ tail_fields)) with fixed_bytes. rewrite drop_drop.
  apply write_lists_ok; [rewrite <- Hl in Hs; unfold len in *; lia|rewrite length_drop; lia].
Qed.

Lemma length_marshalBytes32LE z : length (marshalBytes32LE z) = 32%nat.
Proof. unfold marshalBytes32LE. by rewrite !length_app, !length_le_encode. Qed.

Lemma head_bytes f e : written (head_fields payload f e)
  = hash_bytes (ep_ParentHash payload) ++ be_encode 20 (ep_FeeRecipient payload)
    ++ hash_bytes (ep_StateRoot payload) ++ hash_bytes (ep_ReceiptsRoot payload)
    ++ ep_LogsBloom payload ++ ep_PrevRandao payload
    ++ le_encode 8 (ep_BlockNumber payload) ++ le_encode 8 (ep_GasLimit payload)
    ++ le_encode 8 (ep_GasUsed payload) ++ le_encode 8 (ep_Timestamp payload)
    ++ le_encode 4 f ++ marshalBytes32LE (ep_BaseFeePerGas payload)
    ++ hash_bytes (ep_BlockHash payload) ++ le_encode 4 (u32 (f + e)).
Proof. unfold head_fields. rewrite !written_cons. unfold written. by rewrite app_nil_r. Qed.

Ltac field_length :=
  rewrite ?length_be_encode, ?length_le_encode, ?length_marshalBytes32LE;
  first [done | apply length_be_encode | apply (po_LogsBloom _ Hok) | apply (po_PrevRandao _ Hok)].

Lemma tail_bytes : written tail_fields
  = match ep_Withdrawals payload with
    | None => []
    | Some _ => le_encode 4 (the_fixed + len (ep_ExtraData payload) + len (tx_list (ep_Transactions payload)))
    end
    ++ (if HasBlobProperties (inferVersion payload)
        then le_encode 8 (default 0 (ep_BlobGasUsed payload)) ++ le_encode 8 (default 0 (ep_ExcessBlobGas payload))
        else [])
    ++ (if HasWithdrawalsRoot (inferVersion payload)
        then hash_bytes (default 0 (ep_WithdrawalsRoot payload)) else []).
Proof.
  unfold tail_fields. rewrite !written_app.
  destruct (ep_Withdrawals payload), (HasBlobProperties _), (HasWithdrawalsRoot _);
    rewrite ?written_cons; unfold written; cbn [fmap list_fmap mjoin list_join]; by rewrite ?app_nil_r.
Qed.

Lemma hash_roundtrip h : 0 <= h < 2 ^ 256 -> be_decode (hash_bytes h) = h.
Proof. intros Hh. apply (be_fixed 32). exact Hh. Qed.

Lemma UnmarshalSSZ_spec rest :
  UnmarshalSSZ (inferVersion payload) (full_size payload) (encoding ++ rest) = Ok (payload, rest).
Proof.
  pose proof (po_size _ Hok) as Hs. pose proof len_encoding as Hl. pose proof len_fixed as Hlf.
  pose proof (po_ExtraData _ Hok) as Hx. pose proof (len_nonneg (ep_ExtraData payload)) as Hx0.
  pose proof (len_nonneg (tx_list (ep_Transactions payload))) as Ht0.
  assert (508 <= the_fixed <= 560) as Hf by (unfold the_fixed; destruct (inferVersion payload); done).
  assert (0 <= 44 * wd_count payload) as Hw0 by (unfold wd_count; lia).
  assert (full_size payload = the_fixed + len (ep_ExtraData payload) + len (tx_list (ep_Transactions payload))
    + 44 * wd_count payload) as Hfs by done.
  unfold UnmarshalSSZ. fold the_fixed. rewrite (proj2 (Z.ltb_ge _ _)) by lia.
  rewrite ReadFull_app by (unfold len in Hl; lia). cbn [map_err rbind].
  set (D := ep_ExtraData payload ++ tx_list (ep_Transactions payload) ++ wd_part).
  assert (encoding = fixed_bytes ++ D) as Hed by done.
  assert (fixed_bytes ++ D = written (head_fields payload the_fixed (len (ep_ExtraData payload)))
    ++ written tail_fields ++ D) as Hfd by (unfold fixed_bytes; by rewrite written_app, <- app_assoc).
  rewrite head_bytes, <- !app_assoc in Hfd. rewrite <- Hed in Hfd.
  match type of Hfd with _ = ?h ++ ?X => assert (cut 32 encoding = (h, X)) as -> by
    (rewrite Hfd; apply cut_app; field_length) end.
  do 13 (rewrite cut_app by field_length).
  rewrite (le4_range the_fixed) by (unfold two32; lia).
  rewrite (u32_small (the_fixed + _)), (le4_range (the_fixed + _)) by (unfold two32 in *; lia).
  set (to := the_fixed + len (ep_ExtraData payload)).
  set (wo := to + len (tx_list (ep_Transactions payload))). set (eo := the_fixed).
  assert (slice (Z.to_nat eo) (Z.to_nat to) encoding = ep_ExtraData payload) as Hse.
  { rewrite Hed. unfold D, eo, to. apply slice_mid; lia. }
  assert (slice (Z.to_nat to) (Z.to_nat wo) encoding = tx_list (ep_Transactions payload)) as Hst.
  { rewrite Hed. unfold D. rewrite (app_assoc fixed_bytes). unfold wo, to. apply slice_mid; rewrite len_app; lia. }
  assert (drop (Z.to_nat wo) encoding = wd_part) as Hsw.
  { rewrite Hed. unfold D. rewrite !app_assoc. apply drop_app_length'.
    rewrite !length_app. unfold wo, to, len in *. lia. }
  assert (bool_decide (inferVersion payload = BlockV1) && negb (blockV1FixedPart =? eo) = false) as ->.
  { unfold eo, the_fixed. by destruct (inferVersion payload). }
  pose proof (unmarshalTransactions_ok _ (po_Transactions _ Hok) ltac:(lia)) as Htx.
  destruct (po_Withdrawals _ Hok) as [Hwd Hwn]. unfold wd_count in Hwn.
  pose proof (unmarshalWithdrawals_ok _ Hwd Hwn) as Hwx. fold wd_part in Hwx.
  assert (u32 (eo + 32) = eo + 32) as Heo by (apply u32_small; unfold eo, two32; lia).
  assert (le_decode (le_encode 4 wo) = wo) as Hwo by (apply le4_range; unfold wo, to; lia).
  assert ((wo <? to) = false) as L1 by (apply Z.ltb_ge; unfold wo; lia).
  assert ((full_size payload <? wo) = false) as L2 by (apply Z.ltb_ge; unfold wo, to; lia).
  assert ((eo + 32 <? to) = false) as L3 by (apply Z.ltb_ge; unfold eo, to; lia).
  assert ((full_size payload <? to) = false) as L4 by (apply Z.ltb_ge; unfold to; lia).
  assert ((to <? eo) = false) as L5 by (apply Z.ltb_ge; unfold eo, to; lia).
  pose proof (le8 _ (po_BlobGasUsed _ Hok)) as Hu8. pose proof (le8 _ (po_ExcessBlobGas _ Hok)) as He8.
  pose proof (hash_roundtrip _ (po_Root _ Hok)) as Hro.
  pose proof (po_shape _ Hok) as Hsh. unfold shape_ok in Hsh. rewrite tail_bytes. fold to. fold wo.
  rewrite !hash_roundtrip, be_fixed, !le8, bytes32LE_roundtrip by apply Hok.
  destruct (inferVersion payload); destruct Hsh as (Hw & Hu & He & Hr);
    cbn [HasWithdrawals HasBlobProperties HasWithdrawalsRoot]. 
  - cbn [rbind]. rewrite Heo, L3, L4, L5. cbn [orb].
    assert (full_size payload = wo) as -> by (unfold wo, to; rewrite Hfs; unfold wd_count; rewrite Hw; simpl; lia).
    rewrite Hse, Hst, Htx. cbn [map_err rbind].
    destruct payload. cbn in Hw, Hu, He, Hr |- *. by subst.
  - destruct Hw as [ws Hw]. rewrite Hw. cbn [app]. rewrite app_nil_r, cut_app by field_length.
    rewrite Hwo, L1, L2. cbn [rbind]. rewrite Heo, L3, L4, L5. cbn [orb].
    rewrite Hse, Hst, Hsw, Htx, Hwx. cbn [map_err rbind]. rewrite Hw.
    destruct payload. cbn in Hw, Hu, He, Hr |- *. by subst.
  - destruct Hw as [ws Hw], Hu as [u Hu], He as [e He]. rewrite Hw, Hu, He in *.
    rewrite app_nil_r, <- !app_assoc. rewrite cut_app by field_length.
    rewrite Hwo, L1, L2. cbn [rbind]. rewrite !cut_app by field_length.
    rewrite Heo, L3, L4, L5. cbn [orb].
    rewrite Hse, Hst, Hsw, Htx, Hwx. cbn [map_err rbind fst snd]. rewrite Hu8, He8.
    destruct payload. cbn in Hw, Hu, He, Hr |- *. by subst.
  - destruct Hw as [ws Hw], Hu as [u Hu], He as [e He], Hr as [rt Hr]. rewrite Hw, Hu, He, Hr in *.
    rewrite <- !app_assoc. rewrite cut_app by field_length.
    rewrite Hwo, L1, L2. cbn [rbind]. rewrite !cut_app by field_length.
    rewrite take_app_length' by field_length.
    rewrite Heo, L3, L4, L5. cbn [orb].
    rewrite Hse, Hst, Hsw, Htx, Hwx. cbn [map_err rbind fst snd]. rewrite Hu8, He8, Hro.
    destruct payload. cbn in Hw, Hu, He, Hr |- *. by subst.
Qed.
End Payload.

(** C9: payloads survive gossip: for every payload with fields of their width,
    at most 32 bytes of extra data and the optional fields of one version, the
    encoder succeeds whatever its pooled buffer held, writes [SizeSSZ] bytes,
    and the decoder, given the version and that size, gives the payload back
    and leaves what follows unread; so does the envelope with its beacon
    root. *)
Theorem ssz_roundtrip pool payload root : payload_ok payload -> 0 <= root < 2 ^ 256 ->
  exists out, MarshalSSZ pool payload = Ok out /\ len out = SizeSSZ payload
    /\ (forall rest, UnmarshalSSZ (inferVersion payload) (SizeSSZ payload) (out ++ rest) = Ok (payload, rest))
    /\ let env := {| de_ParentBeaconBlockRoot := Some root; de_ExecutionPayload := Some payload |} in
       Envelope_MarshalSSZ pool env = Ok (hash_bytes root ++ out)
       /\ (SizeSSZ payload + 32 < two32 -> forall rest,
           Envelope_UnmarshalSSZ (inferVersion payload) (SizeSSZ payload + 32)
             ((hash_bytes root ++ out) ++ rest) = Ok (env, rest)).
Proof.
  intros Hok Hr. pose proof (MarshalSSZ_spec payload Hok pool) as Hm.
  destruct (sizes_ok payload Hok) as (_ & _ & Hsz). pose proof (len_encoding payload Hok) as Hl.
  rewrite Hsz. exists (encoding payload). split_and!; [done|done|by apply UnmarshalSSZ_spec|].
  cbv zeta. split; [unfold Envelope_MarshalSSZ; cbn; by rewrite Hm|]. intros Hs rest.
  pose proof (len_nonneg (encoding payload)) as Hn. rewrite Hl in Hn.
  unfold Envelope_UnmarshalSSZ. rewrite (proj2 (Z.ltb_ge _ _)) by lia.
  rewrite <- app_assoc, cut_app by apply length_be_encode.
  destruct (hash_bytes root ++ encoding payload ++ rest) eqn:E.
  { apply (f_equal length) in E. rewrite length_app in E. unfold hash_bytes in E.
    rewrite length_be_encode in E. simpl in E. lia. }
  unfold hash_bytes. rewrite length_be_encode. cbn [negb Nat.eqb].
  rewrite u32_small by lia. replace (full_size payload + 32 - 32) with (full_size payload) by lia.
  rewrite UnmarshalSSZ_spec by done. cbn [rbind]. rewrite be_fixed by exact Hr. done.
Qed.

(** ** When the decoder panics *)

(** The offset at a position of the fixed part. *)
Definition offset_at (pos : nat) (buf : bytes) : Z := le_decode (slice pos (pos + 4) buf).

Lemma unmarshalTransactions_no_panic input : unmarshalTransactions input <> Panic.
Proof.
  assert (forall k scope off cur, unmarshalTransactions_loop k input scope off cur <> Panic) as Hl.
  { induction k as [|k IH]; intros scope off cur; [done|]. cbn [unmarshalTransactions_loop].
    destruct (match k with O => (scope, off) | S _ => _ end) as [next off']. destruct (_ || _); [done|].
    specialize (IH scope off' next). by destruct (unmarshalTransactions_loop k _ _ _ _). }
  unfold unmarshalTransactions. repeat (destruct (_ : bool); [done|]). apply Hl.
Qed.

Lemma unmarshalWithdrawals_no_panic input : unmarshalWithdrawals input <> Panic.
Proof. unfold unmarshalWithdrawals. repeat (destruct (_ : bool); [done|]). done. Qed.

(** The checks that the offsets must pass before the extra data is copied. *)
Definition offsets_pass (version : BlockVersion) (scope : Z) (buf : bytes) : Prop :=
  (HasWithdrawals version = true -> offset_at 504 buf <= offset_at 508 buf <= scope)
  /\ offset_at 504 buf <= u32 (offset_at 436 buf + 32) /\ offset_at 504 buf <= scope.

(** The decoder panics on a message exactly when the fixed part is
    complete, the offsets pass its checks and the transactions start before
    the extra data, so that the size of the extra data wraps around: nothing
    checks the order of these two offsets.  Every other message is decoded or
    rejected. *)
Theorem UnmarshalSSZ_panics_iff version scope r :
  UnmarshalSSZ version scope r = Panic
  <-> executionPayloadFixedPart version <= scope <= len r
      /\ let buf := take (Z.to_nat scope) r in
         offsets_pass version scope buf /\ offset_at 504 buf < offset_at 436 buf.
Proof.
  unfold UnmarshalSSZ. set (fixed := executionPayloadFixedPart version).
  assert (508 <= fixed) as Hf by (unfold fixed; by destruct version).
  destruct (Z.ltb_spec scope fixed) as [|Hsf]; [split; [done|lia]|].
  destruct (ReadFull (Z.to_nat scope) r) as [[buf rest]|e|] eqn:Er.
  2: { split; [done|]. intros [[_ Hl] _]. rewrite <- (take_drop (Z.to_nat scope) r) in Er.
       rewrite ReadFull_app in Er by (rewrite length_take; unfold len in Hl; lia). done. }
  2: { exfalso. revert Er. unfold ReadFull. repeat case_match; done. }
  apply ReadFull_Ok in Er as [-> Hl]. cbn [map_err rbind].
  rewrite take_app_length' by done. unfold cut. cbv beta iota zeta.
  match goal with |- context [u32 (le_decode (take 4 ?X) + 32)] =>
    replace (take 4 X) with (slice 436 440 buf) by (unfold slice; by rewrite !drop_drop) end.
  change (le_decode (slice 436 440 buf)) with (offset_at 436 buf).
  match goal with |- context [scope <? le_decode (take 4 ?X)] =>
    replace (take 4 X) with (slice 504 508 buf) by (unfold slice; by rewrite !drop_drop) end.
  change (le_decode (slice 504 508 buf)) with (offset_at 504 buf).
  assert (len (buf ++ rest) = scope + len rest) as -> by (rewrite len_app; unfold len; lia).
  unfold offsets_pass. pose proof (len_nonneg rest).
  assert (bool_decide (version = BlockV1) && negb (blockV1FixedPart =? fixed) = false) as ->
    by (unfold fixed; by destruct version).
  set (eo := offset_at 436 buf). set (to := offset_at 504 buf).
  destruct (HasWithdrawals version) eqn:Ew.
  - match goal with |- context [le_decode (take 4 ?X) <? to] =>
      replace (take 4 X) with (slice 508 512 buf) by (unfold slice; by rewrite !drop_drop) end.
    change (le_decode (slice 508 512 buf)) with (offset_at 508 buf). set (wo := offset_at 508 buf).
    destruct (Z.ltb_spec wo to); [split; [done|lia]|].
    destruct (Z.ltb_spec scope wo); [split; [done|lia]|]. cbn [rbind].
    destruct (if HasBlobProperties version then _ else _) as [blobs b'].
    destruct (Z.ltb_spec (u32 (eo + 32)) to); [split; [done|lia]|].
    destruct (Z.ltb_spec scope to); [split; [done|lia]|]. cbn [orb].
    destruct (Z.ltb_spec to eo); [split; [intros _; split_and!; lia|done]|].
    split; [|lia]. intros Hp. exfalso. revert Hp.
    pose proof (unmarshalTransactions_no_panic (slice (Z.to_nat to) (Z.to_nat wo) buf)).
    destruct (unmarshalTransactions _); [|done|done]. cbn [map_err rbind].
    pose proof (unmarshalWithdrawals_no_panic (drop (Z.to_nat wo) buf)).
    by destruct (unmarshalWithdrawals _).
  - cbn [rbind]. destruct (if HasBlobProperties version then _ else _) as [blobs b'].
    destruct (Z.ltb_spec (u32 (eo + 32)) to); [split; [done|lia]|].
    destruct (Z.ltb_spec scope to); [split; [done|lia]|]. cbn [orb].
    destruct (Z.ltb_spec to eo); [split; [intros _; split_and!; [lia|lia|done|lia..]|done]|].
    split; [|lia]. intros Hp. exfalso. revert Hp.
    pose proof (unmarshalTransactions_no_panic (slice (Z.to_nat to) (Z.to_nat scope) buf)).
    by destruct (unmarshalTransactions _).
Qed.

(** A message of 508 bytes whose transactions start one byte before the extra
    data. *)
Definition bad_message : bytes :=
  replicate 436 0 ++ le_encode 4 509 ++ replicate 64 0 ++ le_encode 4 508.

Example bad_message_panics : UnmarshalSSZ BlockV1 508 bad_message = Panic.
Proof. vm_compute. reflexivity. Qed.

(** A message too short for the beacon root is accepted as an envelope without
    a payload. *)
Lemma envelope_short_read version scope r : 32 <= scope -> r <> [] -> len r < 32 ->
  Envelope_UnmarshalSSZ version scope r
  = Ok ({| de_ParentBeaconBlockRoot := None; de_ExecutionPayload := None |}, []).
Proof.
  intros Hs Hr Hl. unfold Envelope_UnmarshalSSZ. rewrite (proj2 (Z.ltb_ge _ _)) by lia.
  unfold cut, len in *. rewrite take_ge, drop_ge by lia. destruct r as [|a r]; [done|].
  destruct (Nat.eqb_spec (length (a :: r)) 32); [lia|]. done.
Qed.

(** A root of no withdrawals is lost: such a payload is encoded as version 3. *)
Lemma empty_root_lost payload : ep_WithdrawalsRoot payload = Some EmptyWithdrawalsHash ->
  inferVersion payload <> BlockV4.
Proof. intros Hr. unfold inferVersion. rewrite Hr, Z.eqb_refl. cbn [negb]. by repeat destruct (_ : bool). Qed.

(** ** Witnesses *)

Definition ex_payload : ExecutionPayload :=
  {| ep_ParentHash := 1; ep_FeeRecipient := 2; ep_StateRoot := 3; ep_ReceiptsRoot := 4;
     ep_LogsBloom := replicate 256 0; ep_PrevRandao := replicate 32 7; ep_BlockNumber := 8;
     ep_GasLimit := 30000000; ep_GasUsed := 21000; ep_Timestamp := 1700000000;
     ep_ExtraData := [9; 9]; ep_BaseFeePerGas := 2 ^ 200; ep_BlockHash := 10;
     ep_Transactions := [[1; 2; 3]; []; [4]];
     ep_Withdrawals := Some [{| wd_Index := 1; wd_Validator := 2; wd_Address := 3; wd_Amount := 4 |}];
     ep_BlobGasUsed := Some 5; ep_ExcessBlobGas := Some 6; ep_WithdrawalsRoot := None |}.

Lemma range_check lo hi z : (lo <=? z) && (z <? hi) = true -> lo <= z < hi.
Proof. lia. Qed.

Lemma ex_payload_ok : payload_ok ex_payload.
Proof.
  constructor; try (apply range_check; vm_compute; reflexivity); try reflexivity;
    try (apply Zle_bool_imp_le; vm_compute; reflexivity).
  - split; [|apply Zle_bool_imp_le; vm_compute; reflexivity]. repeat constructor;
      try (apply Zle_bool_imp_le; reflexivity); reflexivity.
  - split_and!; try (eexists; reflexivity).
Qed.

Lemma ssz_roundtrip_witness : exists out, MarshalSSZ [1; 2; 3] ex_payload = Ok out
  /\ UnmarshalSSZ BlockV3 (SizeSSZ ex_payload) (out ++ []) = Ok (ex_payload, []).
Proof.
  destruct (ssz_roundtrip [1; 2; 3] ex_payload 5 ex_payload_ok
    ltac:(apply range_check; reflexivity)) as (out & H1 & _ & H2 & _).
  exists out. split; [exact H1|exact (H2 [])].
Defined.

(** ** What the decoder gives

    The payloads that the decoder accepts from the network have fields of their
    width, lists within their limits and the optional fields of the version that
    was asked for. *)

Lemma is_bytes_slice a b l : is_bytes l -> is_bytes (slice a b l).
Proof. intros Hl. by apply is_bytes_take, is_bytes_drop. Qed.

#[local] Hint Resolve is_bytes_slice : rollup.

Lemma be_take_bound n l : is_bytes l -> 0 <= be_decode (take n l) < 256 ^ Z.of_nat n.
Proof.
  intros Hl. pose proof (be_decode_bound (take n l) (is_bytes_take n l Hl)) as [H1 H2]. split; [done|].
  eapply Z.lt_le_trans; [exact H2|]. apply Z.pow_le_mono_r; [done|]. rewrite length_take. lia.
Qed.

Lemma le_take_bound n l : is_bytes l -> 0 <= le_decode (take n l) < 256 ^ Z.of_nat n.
Proof.
  intros Hl. unfold le_decode.
  assert (is_bytes (reverse (take n l))) as Hr by (apply Forall_reverse; by apply is_bytes_take).
  pose proof (be_decode_bound _ Hr) as [H1 H2]. split; [done|].
  eapply Z.lt_le_trans; [exact H2|]. apply Z.pow_le_mono_r; [done|]. rewrite length_reverse, length_take. lia.
Qed.

Lemma bytes32LE_bound l : is_bytes l -> 0 <= unmarshalBytes32LE l < 2 ^ 256.
Proof.
  intros Hl. unfold unmarshalBytes32LE, slice.
  pose proof (le_take_bound 8 (drop 0 l) (is_bytes_drop _ _ Hl)) as B0.
  pose proof (le_take_bound 8 (drop 8 l) (is_bytes_drop _ _ Hl)) as B1.
  pose proof (le_take_bound 8 (drop 16 l) (is_bytes_drop _ _ Hl)) as B2.
  pose proof (le_take_bound 8 (drop 24 l) (is_bytes_drop _ _ Hl)) as B3.
  change (8 - 0)%nat with 8%nat. change (16 - 8)%nat with 8%nat. change (24 - 16)%nat with 8%nat.
  change (32 - 24)%nat with 8%nat. rewrite !Z.shiftl_mul_pow2 by lia.
  change (256 ^ Z.of_nat 8) with (2 ^ 64) in *. set (w0 := le_decode _) in *.
  set (w1 := le_decode (take 8 (drop 8 l))) in *. set (w2 := le_decode (take 8 (drop 16 l))) in *.
  set (w3 := le_decode (take 8 (drop 24 l))) in *.
  change (2 ^ 256) with (2 ^ 64 * 2 ^ 192). change (2 ^ 192) with (2 ^ 64 * 2 ^ 128).
  change (2 ^ 128) with (2 ^ 64 * 2 ^ 64). set (B := 2 ^ 64) in *. nia.
Qed.

Lemma read_withdrawals_typed n l : is_bytes l -> Forall wd_ok (read_withdrawals n l) /\ length (read_withdrawals n l) = n.
Proof.
  revert l. induction n as [|n IH]; intros l Hl; simpl; [by split|].
  destruct (IH (drop 8 (drop 20 (drop 8 (drop 8 l))))) as [Hf Hn]; [auto with rollup|].
  split; [|by rewrite Hn]. constructor; [|done].
  pose proof (le_take_bound 8 l Hl). pose proof (le_take_bound 8 (drop 8 l) ltac:(auto with rollup)).
  pose proof (be_take_bound 20 (drop 8 (drop 8 l)) ltac:(auto with rollup)).
  pose proof (le_take_bound 8 (drop 20 (drop 8 (drop 8 l))) ltac:(auto with rollup)).
  split; cbn [wd_Index wd_Validator wd_Address wd_Amount]; done.
Qed.

Lemma unmarshalTransactions_typed input txs : is_bytes input -> unmarshalTransactions input = Ok txs ->
  Forall is_bytes txs /\ Z.of_nat (length txs) <= maxTransactionsPerPayload.
Proof.
  intros Hi. assert (forall k scope off cur l, unmarshalTransactions_loop k input scope off cur = Ok l ->
    Forall is_bytes l /\ length l = k) as Hloop.
  { induction k as [|k IH]; intros scope off cur l; [by intros [= <-]|]. cbn [unmarshalTransactions_loop].
    destruct (match k with O => (scope, off) | S _ => _ end) as [next off']. destruct (_ || _); [done|].
    destruct (unmarshalTransactions_loop k input scope off' next) as [l'|e|] eqn:E; cbn [rbind]; [|done..].
    intros [= <-]. apply IH in E as [E1 E2]. split; [constructor; auto with rollup|by simpl; rewrite E2]. }
  unfold unmarshalTransactions. destruct (_ =? 0); [intros [= <-]; by split|]. destruct (_ <? 4); [done|].
  destruct (negb _); [done|]. destruct (_ <? _); [done|]. destruct (_ =? 0); [done|].
  destruct (Z.ltb_spec maxTransactionsPerPayload (le_decode (take 4 input) / 4)); [done|].
  intros [E1 E2]%Hloop. split; [done|]. pose proof (le_take_bound 4 input Hi). rewrite E2, Z2Nat.id; [done|].
  apply Z.div_pos; lia.
Qed.

(** The optional fields of a version. *)
Definition version_fields (version : BlockVersion) (payload : ExecutionPayload) : Prop :=
  (is_Some (ep_Withdrawals payload) <-> HasWithdrawals version = true)
  /\ (is_Some (ep_BlobGasUsed payload) <-> HasBlobProperties version = true)
  /\ (is_Some (ep_ExcessBlobGas payload) <-> HasBlobProperties version = true)
  /\ (is_Some (ep_WithdrawalsRoot payload) <-> HasWithdrawalsRoot version = true).

Record payload_typed (version : BlockVersion) (payload : ExecutionPayload) : Prop := {
  pt_hashes : Forall (fun h => 0 <= h < 2 ^ 256)
    [ep_ParentHash payload; ep_StateRoot payload; ep_ReceiptsRoot payload; ep_BlockHash payload;
     ep_BaseFeePerGas payload; default 0 (ep_WithdrawalsRoot payload)];
  pt_FeeRecipient : 0 <= ep_FeeRecipient payload < 2 ^ 160;
  pt_words : Forall is_u64
    [ep_BlockNumber payload; ep_GasLimit payload; ep_GasUsed payload; ep_Timestamp payload;
     default 0 (ep_BlobGasUsed payload); default 0 (ep_ExcessBlobGas payload)];
  pt_LogsBloom : length (ep_LogsBloom payload) = 256%nat;
  pt_PrevRandao : length (ep_PrevRandao payload) = 32%nat;
  pt_ExtraData : len (ep_ExtraData payload) <= 32;
  pt_Transactions : Z.of_nat (length (ep_Transactions payload)) <= maxTransactionsPerPayload;
  pt_Withdrawals : Forall wd_ok (default [] (ep_Withdrawals payload))
                   /\ wd_count payload <= maxWithdrawalsPerPayload;
  pt_bytes : Forall is_bytes (ep_LogsBloom payload :: ep_PrevRandao payload :: ep_ExtraData payload
                              :: ep_Transactions payload);
  pt_fields : version_fields version payload }.

Lemma unmarshalWithdrawals_typed input ws : is_bytes input -> unmarshalWithdrawals input = Ok ws ->
  Forall wd_ok ws /\ Z.of_nat (length ws) <= maxWithdrawalsPerPayload.
Proof.
  intros Hi. unfold unmarshalWithdrawals. destruct (negb _); [done|].
  destruct (Z.ltb_spec maxWithdrawalsPerPayload (len input / withdrawal_size)); [done|]. intros [= <-].
  destruct (read_withdrawals_typed (Z.to_nat (len input / withdrawal_size)) input Hi) as [Hf Hn]. split; [done|].
  rewrite Hn. unfold maxWithdrawalsPerPayload in *. lia.
Qed.

(** The size of the extra data between the two offsets. *)
Lemma extra_data_bound eo to : 0 <= eo < two32 -> to <= u32 (eo + 32) -> eo <= to -> to - eo <= 32.
Proof.
  intros He Ht Hle. unfold u32 in Ht. destruct (decide (eo + 32 < two32)) as [Hs|Hs].
  - rewrite Z.mod_small in Ht by lia. lia.
  - replace (eo + 32) with (eo + 32 - two32 + 1 * two32) in Ht by lia.
    rewrite Z.mod_add, Z.mod_small in Ht by (unfold two32 in *; lia). unfold two32 in *. lia.
Qed.

(** C38: whatever bytes the network sends, a payload that the decoder accepts is
    well typed: every field has its width, the bloom and the randomness their
    size, there are at most 32 bytes of extra data, 16 withdrawals and 2^20
    transactions, and the optional fields are those of the version asked for. *)
Theorem UnmarshalSSZ_typed version scope r payload rest : is_bytes r ->
  UnmarshalSSZ version scope r = Ok (payload, rest) -> payload_typed version payload.
Proof.
  intros Hr. unfold UnmarshalSSZ.
  destruct (Z.ltb_spec scope (executionPayloadFixedPart version)) as [|Hs]; [done|].
  destruct (ReadFull (Z.to_nat scope) r) as [[buf rest']|e|] eqn:Er; cbn [map_err rbind]; [|done..].
  apply ReadFull_Ok in Er as [-> Hl]. apply Forall_app in Hr as [Hb _]. fold (is_bytes buf) in Hb.
  unfold cut. cbv beta iota zeta. destruct (_ && _); [done|].
  match goal with |- context [u32 (?a + 32)] => set (eo := a) end.
  match goal with |- context [u32 (eo + 32) <? ?t] => set (to := t) end.
  assert (0 <= eo < two32) as Heo by (apply (le_take_bound 4); auto 20 with rollup).
  assert (508 <= length buf)%nat as Hlen.
  { assert (508 <= executionPayloadFixedPart version) by by destruct version. lia. }
  match goal with |- rbind ?w _ = _ -> _ => destruct w as [[wo b]|e|] eqn:Ew; cbn [rbind]; [|done..] end.
  assert (is_bytes b) as Hbb.
  { revert Ew. destruct (HasWithdrawals version); [|intros [= _ <-]; auto 20 with rollup].
    destruct (_ <? _); [done|]. destruct (_ <? _); [done|]. intros [= _ <-]. auto 20 with rollup. }
  clear Ew.
  destruct (if HasBlobProperties version then _ else _) as [blobs b'] eqn:Eb.
  destruct (Z.ltb_spec (u32 (eo + 32)) to) as [|Hx]; cbn [orb]; [done|]. destruct (scope <? to); [done|].
  destruct (Z.ltb_spec to eo) as [|Hte]; [done|].
  destruct (unmarshalTransactions _) as [txs|e|] eqn:Et; cbn [map_err rbind]; [|done..].
  apply unmarshalTransactions_typed in Et as [Ht1 Ht2]; [|auto with rollup].
  match goal with |- rbind ?w _ = _ -> _ => destruct w as [ws|e|] eqn:Ew; cbn [rbind]; [|done..] end.
  assert ((is_Some ws <-> HasWithdrawals version = true) /\ Forall wd_ok (default [] ws)
    /\ Z.of_nat (length (default [] ws)) <= maxWithdrawalsPerPayload) as (Hw1 & Hw2 & Hw3).
  { revert Ew. destruct (HasWithdrawals version).
    - destruct (unmarshalWithdrawals _) as [l|e|] eqn:E; cbn [map_err rbind]; [|done..]. intros [= <-].
      apply unmarshalWithdrawals_typed in E as [E1 E2]; [|auto with rollup]. split_and!; [split; [done|by eexists]|done|done].
    - intros [= <-]. split_and!; [split; [by intros [? ?]|done]|constructor|unfold maxWithdrawalsPerPayload; simpl; lia]. }
  assert ((is_Some blobs.1 <-> HasBlobProperties version = true) /\ (is_Some blobs.2 <-> HasBlobProperties version = true)
    /\ is_u64 (default 0 blobs.1) /\ is_u64 (default 0 blobs.2) /\ is_bytes b') as (Hb1 & Hb2 & Hu1 & Hu2 & Hb').
  { revert Eb. destruct (HasBlobProperties version); intros [= <- <-]; cbn [fst snd default id].
    - split_and!; [split; [done|by eexists]..|apply (le_take_bound 8); auto with rollup|apply (le_take_bound 8); auto with rollup|auto with rollup].
    - split_and!; [split; [by intros [? ?]|done]..|done|done|done]. }
  intros [= <- _].
  split; cbn [ep_ParentHash ep_FeeRecipient ep_StateRoot ep_ReceiptsRoot ep_LogsBloom ep_PrevRandao ep_BlockNumber
    ep_GasLimit ep_GasUsed ep_Timestamp ep_ExtraData ep_BaseFeePerGas ep_BlockHash ep_Transactions ep_Withdrawals
    ep_BlobGasUsed ep_ExcessBlobGas ep_WithdrawalsRoot].
  - repeat (apply Forall_cons; split; [|]); [apply (be_take_bound 32); auto 20 with rollup..| | |constructor].
    + apply bytes32LE_bound. auto 20 with rollup.
    + destruct (HasWithdrawalsRoot version); cbn [default]; [apply (be_take_bound 32); auto with rollup|done].
  - apply (be_take_bound 20). auto with rollup.
  - repeat (apply Forall_cons; split; [|]); [apply (le_take_bound 8); auto 20 with rollup..|done|done|constructor].
  - rewrite length_take, !length_drop. lia.
  - rewrite length_take, !length_drop. lia.
  - pose proof (extra_data_bound eo to Heo Hx Hte). unfold len, slice. rewrite length_take. lia.
  - done.
  - done.
  - repeat (apply Forall_cons; split; [auto 20 with rollup|]). done.
  - split_and!; [done|done|done|]. cbn [ep_WithdrawalsRoot].
    destruct (HasWithdrawalsRoot version); [split; [done|by eexists]|split; [by intros [? ?]|done]].
Qed.

Lemma UnmarshalSSZ_typed_witness : payload_typed BlockV3 ex_payload.
Proof.
  apply (UnmarshalSSZ_typed BlockV3 (full_size ex_payload) (encoding ex_payload ++ []) ex_payload []).
  - apply is_bytes_check. vm_compute. reflexivity.
  - exact (UnmarshalSSZ_spec ex_payload ex_payload_ok []).
Defined.
