(* ===== verification/PayloadsQueue.v ===== *)
(** * The queue of unsafe payloads

    Models [rhs-node/rollup/clsync/payloads_queue.go] on top of Go's
    [container/heap], which is translated with its loops: [up], [down],
    [heap_Push] and [heap_Pop] on a slice.  The queue is shown to refine an
    abstract priority queue, a collection of payloads from which a lowest
    block number is taken. *)

From S2P Require Import Prelude EthTypes.

(** ** [container/heap] *)

Section Heap.
Context {A : Type} (key : A -> Z).
Implicit Types l : list A.

(** The key at an index; the heap only looks at indices of the slice. *)
Definition kat l (i : nat) : Z := match l !! i with Some a => key a | None => 0 end.

Definition heap_Less l (i j : nat) : bool := kat l i <? kat l j.

Definition heap_Swap l (i j : nat) : list A :=
  match l !! i, l !! j with
  | Some a, Some b => <[i := b]> (<[j := a]> l)
  | _, _ => l
  end.

(** The loops move along a path of the tree, so the length is fuel enough. *)
Fixpoint up (fuel : nat) l (j : nat) : list A :=
  match fuel with
  | O => l
  | S f =>
      let i := ((j - 1) / 2)%nat in
      if bool_decide (i = j) || negb (heap_Less l j i) then l
      else up f (heap_Swap l i j) i
  end.

Fixpoint down (fuel : nat) l (i n : nat) : list A :=
  match fuel with
  | O => l
  | S f =>
      let j1 := (2 * i + 1)%nat in
      if (n <=? j1)%nat then l
      else
        let j2 := (j1 + 1)%nat in
        let j := if (j2 <? n)%nat && heap_Less l j2 j1 then j2 else j1 in
        if negb (heap_Less l j i) then l else down f (heap_Swap l i j) j n
  end.

Definition heap_Push l (x : A) : list A :=
  let l := l ++ [x] in up (length l) l (length l - 1).

(** Popping an empty heap panics in [Swap]. *)
Definition heap_Pop l : result (A * list A) :=
  match l with
  | [] => Panic
  | _ =>
      let n := (length l - 1)%nat in
      let l := down n (heap_Swap l 0 n) 0 n in
      match last l with
      | Some x => Ok (x, take n l)
      | None => Panic
      end
  end.

(** *** The heap order *)

Definition child (p c : nat) : Prop := c = (2 * p + 1)%nat \/ c = (2 * p + 2)%nat.

(** The first [n] elements are in heap order. *)
Definition heap_upto (n : nat) l : Prop :=
  forall p c, child p c -> (c < n)%nat -> kat l p <= kat l c.
Definition is_heap l : Prop := heap_upto (length l) l.

Lemma parent_child j : (0 < j)%nat -> child ((j - 1) / 2)%nat j.
Proof.
  intros Hj. unfold child. pose proof (Nat.div_mod_eq (j - 1) 2).
  pose proof (Nat.mod_upper_bound (j - 1) 2). lia.
Qed.

Lemma heap_min n l i : heap_upto n l -> (i < n)%nat -> kat l 0 <= kat l i.
Proof.
  intros Hh. induction i as [i IH] using lt_wf_ind. intros Hi.
  destruct (decide (i = 0)%nat) as [->|]; [lia|].
  pose proof (parent_child i ltac:(lia)) as Hc. unfold child in Hc.
  etrans; [apply (IH ((i - 1) / 2)%nat); lia|]. by apply Hh; [apply parent_child; lia|].
Qed.

Lemma kat_Swap l i j k : (i < length l)%nat -> (j < length l)%nat ->
  kat (heap_Swap l i j) k
  = if decide (k = i) then kat l j else if decide (k = j) then kat l i else kat l k.
Proof.
  intros [a Ha]%lookup_lt_is_Some_2 [b Hb]%lookup_lt_is_Some_2.
  pose proof (lookup_lt_Some _ _ _ Ha). pose proof (lookup_lt_Some _ _ _ Hb).
  unfold heap_Swap. rewrite Ha, Hb. unfold kat.
  destruct (decide (k = i)) as [->|]; [by rewrite list_lookup_insert_eq, Hb by (rewrite length_insert; lia)|].
  rewrite list_lookup_insert_ne by congruence.
  destruct (decide (k = j)) as [->|]; [by rewrite list_lookup_insert_eq, Ha by lia|].
  by rewrite list_lookup_insert_ne by congruence.
Qed.

Lemma length_Swap l i j : length (heap_Swap l i j) = length l.
Proof. unfold heap_Swap. by repeat case_match; rewrite ?length_insert. Qed.

Lemma insert_Permutation_cons l i a b : l !! i = Some a -> a :: <[i := b]> l ≡ₚ b :: l.
Proof.
  revert i. induction l as [|x l IH]; intros [|i] Hi; simplify_eq/=; [constructor|].
  rewrite Permutation_swap, (IH i Hi). constructor.
Qed.

Lemma Swap_Permutation l i j : heap_Swap l i j ≡ₚ l.
Proof.
  unfold heap_Swap. destruct (l !! i) as [a|] eqn:Ha; [|done].
  destruct (l !! j) as [b|] eqn:Hb; [|done].
  apply (Permutation_cons_inv (a := a)).
  rewrite insert_Permutation_cons; [by apply insert_Permutation_cons|].
  destruct (decide (i = j)) as [->|].
  - apply list_lookup_insert_eq. by apply lookup_lt_Some in Ha.
  - by rewrite list_lookup_insert_ne by congruence.
Qed.

(** *** Sifting *)

(** Heap order but for the path from [j] to its parent. *)
Definition up_inv l (j : nat) : Prop :=
  (forall p c, child p c -> (c < length l)%nat -> c <> j -> kat l p <= kat l c)
  /\ (forall p c, child p j -> child j c -> (c < length l)%nat -> kat l p <= kat l c).

Lemma up_heap fuel l j : (j < fuel)%nat -> (j < length l)%nat -> up_inv l j ->
  is_heap (up fuel l j) /\ up fuel l j ≡ₚ l /\ length (up fuel l j) = length l.
Proof.
  revert l j. induction fuel as [|f IH]; intros l j Hf Hj [H1 H2]; [lia|]. cbn [up].
  destruct (decide (j = 0)%nat) as [->|Hj0].
  { rewrite bool_decide_eq_true_2 by done. simpl. split_and!; [|done|done].
    intros p c Hc Hl. apply H1; [done|done|]. unfold child in Hc. lia. }
  pose proof (parent_child j ltac:(lia)) as Hp. set (i := ((j - 1) / 2)%nat) in *.
  assert (i < j)%nat by (unfold child in Hp; lia).
  rewrite bool_decide_eq_false_2 by lia. simpl. unfold heap_Less.
  destruct (Z.ltb_spec (kat l j) (kat l i)) as [Hlt|Hge]; simpl.
  2:{ split_and!; [|done|done]. intros p c Hc Hl. destruct (decide (c = j)) as [->|].
      - assert (p = i) as -> by (unfold child in Hc, Hp; lia). done.
      - by apply H1. }
  destruct (IH (heap_Swap l i j) i) as (Hh & Hperm & Hlen); [lia|rewrite length_Swap; lia| |].
  { split.
    - intros p c Hc Hl Hne. rewrite length_Swap in Hl. rewrite !kat_Swap by lia.
      repeat case_decide; subst; try lia; try (unfold child in *; lia).
      + transitivity (kat l i); [lia|]. apply H1; [done|done|done].
      + by apply (H2 i c).
      + by apply H1.
    - intros p c Hc1 Hc2 Hl. rewrite length_Swap in Hl. rewrite !kat_Swap by lia.
      assert (kat l p <= kat l i) by (apply H1; [done|lia|unfold child in *; lia]).
      repeat case_decide; subst; try lia; try (unfold child in *; lia).
      transitivity (kat l i); [done|]. apply H1; [done|done|done]. }
  split_and!; [done|by rewrite Hperm, Swap_Permutation|by rewrite Hlen, length_Swap].
Qed.

(** Heap order of the first [n] elements but below [i]. *)
Definition down_inv (n : nat) l (i : nat) : Prop :=
  (forall p c, child p c -> (c < n)%nat -> p <> i -> kat l p <= kat l c)
  /\ (forall p c, child p i -> child i c -> (c < n)%nat -> kat l p <= kat l c).

Lemma down_heap fuel l i n : (n <= i + fuel)%nat -> (n <= length l)%nat -> down_inv n l i ->
  heap_upto n (down fuel l i n) /\ down fuel l i n ≡ₚ l
  /\ length (down fuel l i n) = length l
  /\ forall k, (n <= k)%nat -> down fuel l i n !! k = l !! k.
Proof.
  revert l i. induction fuel as [|f IH]; intros l i Hf Hn [H1 H2]; cbn [down].
  { split_and!; [|done|done|done]. intros p c Hc Hl. apply H1; [done|done|].
    unfold child in Hc. lia. }
  destruct (Nat.leb_spec n (2 * i + 1)) as [Hle|Hlt].
  { split_and!; [|done|done|done]. intros p c Hc Hl. apply H1; [done|done|].
    unfold child in Hc. lia. }
  set (j := if _ && _ then _ else _).
  assert (child i j /\ (j < n)%nat /\ forall c, child i c -> (c < n)%nat -> kat l j <= kat l c)
    as (Hj & Hjn & Hmin).
  { unfold j, heap_Less. replace (2 * i + 1 + 1)%nat with (2 * i + 2)%nat by lia.
    destruct (Nat.ltb_spec (2 * i + 2) n); cbn [andb].
    - destruct (Z.ltb_spec (kat l (2 * i + 2)) (kat l (2 * i + 1)));
        (split_and!; [unfold child; lia|lia|]); intros c [-> | ->] _; lia.
    - split_and!; [unfold child; lia|lia|]. intros c [-> | ->] Hc; lia. }
  clearbody j. unfold heap_Less.
  destruct (Z.ltb_spec (kat l j) (kat l i)) as [Hlti|Hge]; simpl.
  2:{ split_and!; [|done|done|done]. intros p c Hc Hl. destruct (decide (p = i)) as [->|].
      - etrans; [exact Hge|]. by apply Hmin.
      - by apply H1. }
  assert (i < j)%nat by (unfold child in Hj; lia).
  destruct (IH (heap_Swap l i j) j) as (Hh & Hperm & Hlen & Hk);
    [lia|rewrite length_Swap; lia| |].
  { split.
    - intros p c Hc Hl Hne. rewrite !kat_Swap by lia.
      repeat case_decide; subst; try lia; try (unfold child in *; lia).
      + by apply Hmin.
      + by apply (H2 p j).
      + by apply H1.
    - intros p c Hc1 Hc2 Hl. rewrite !kat_Swap by lia.
      assert (p = i) as -> by (unfold child in *; lia).
      repeat case_decide; subst; try lia; try (unfold child in *; lia).
      apply H1; [done|done|lia]. }
  split_and!; [done|by rewrite Hperm, Swap_Permutation|by rewrite Hlen, length_Swap|].
  intros k Hkn. rewrite Hk by done. unfold heap_Swap. repeat case_match; [|done|done].
  rewrite !list_lookup_insert_ne by lia. done.
Qed.

(** *** Pushing and popping *)

Lemma kat_app_l l r i : (i < length l)%nat -> kat (l ++ r) i = kat l i.
Proof. intros. unfold kat. by rewrite lookup_app_l. Qed.

Lemma heap_Push_spec l x : is_heap l ->
  is_heap (heap_Push l x) /\ heap_Push l x ≡ₚ x :: l.
Proof.
  intros Hh. unfold heap_Push. rewrite length_app. simpl.
  destruct (up_heap (length l + 1) (l ++ [x]) (length l + 1 - 1)) as (H1 & H2 & _).
  - lia.
  - rewrite length_app. simpl. lia.
  - replace (length l + 1 - 1)%nat with (length l) by lia. split.
    + intros p c Hc Hl Hne. rewrite length_app in Hl. simpl in Hl.
      rewrite !kat_app_l by (unfold child in Hc; lia). apply Hh; [done|lia].
    + intros p c _ Hc Hl. rewrite length_app in Hl. simpl in Hl. unfold child in Hc. lia.
  - split; [done|]. rewrite H2. symmetry. apply Permutation_cons_append.
Qed.

Lemma heap_Pop_spec l : is_heap l -> l <> [] ->
  exists x l', heap_Pop l = Ok (x, l') /\ is_heap l' /\ l ≡ₚ x :: l'
    /\ l !! 0%nat = Some x /\ forall y, y ∈ l -> key x <= key y.
Proof.
  intros Hh Hne. assert (0 < length l)%nat by (destruct l; simpl; [done|lia]).
  unfold heap_Pop. destruct l as [|x0 t] eqn:El; [done|]. rewrite <- El in *. clear Hne.
  set (n := (length l - 1)%nat).
  destruct (down_heap n (heap_Swap l 0 n) 0 n) as (H1 & H2 & H3 & H4).
  - lia.
  - rewrite length_Swap. lia.
  - split.
    + intros p c Hc Hl Hp. rewrite !kat_Swap by lia.
      repeat case_decide; subst; try lia; try (unfold child in *; lia).
      apply Hh; [done|lia].
    + intros p c Hc _ _. unfold child in Hc. lia.
  - set (d := down _ _ _ _) in *. rewrite length_Swap in H3.
    assert (d !! n = Some x0) as Hd.
    { rewrite H4 by done. destruct (lookup_lt_is_Some_2 l n ltac:(lia)) as [b Hb].
      unfold heap_Swap. rewrite Hb, El. cbn [lookup list_lookup]. rewrite <- El.
      destruct (decide (n = 0)%nat) as [E|E].
      - rewrite E in *. rewrite El in Hb. injection Hb as <-.
        apply list_lookup_insert_eq. rewrite length_insert. lia.
      - rewrite list_lookup_insert_ne by done. apply list_lookup_insert_eq. lia. }
    assert (d = take n d ++ [x0]) as Ed.
    { rewrite <- (take_drop n d) at 1. f_equal. rewrite (drop_S d x0 n Hd), drop_ge by lia. done. }
    exists x0, (take n d). rewrite Ed at 1. rewrite last_snoc.
    assert (length (take n d) = n) as Hn by (rewrite length_take; lia).
    assert (l ≡ₚ x0 :: take n d) as Hp.
    { rewrite <- (Swap_Permutation l 0 n), <- H2, Ed at 1. symmetry. apply Permutation_cons_append. }
    split_and!; [done| |done|by rewrite El|].
    + unfold is_heap. rewrite Hn. intros p c Hc Hl. specialize (H1 p c Hc Hl).
      rewrite Ed in H1. rewrite !kat_app_l in H1 by (unfold child in Hc; lia). done.
    + intros y [i Hi]%list_elem_of_lookup. pose proof (lookup_lt_Some _ _ _ Hi).
      pose proof (heap_min (length l) l i Hh ltac:(done)) as Hm. unfold kat in Hm.
      rewrite Hi, El in Hm. done.
Qed.

End Heap.

(** ** The queue *)

Record payloadAndSize : Type := {
  ps_envelope : ExecutionPayloadEnvelope;
  ps_size : Z }.

Definition env_number (e : ExecutionPayloadEnvelope) : Z := ep_BlockNumber (env_ExecutionPayload e).
Definition env_hash (e : ExecutionPayloadEnvelope) : Hash := ep_BlockHash (env_ExecutionPayload e).

(** [payloadsByNumber.Less] compares by this key. *)
Definition ps_number (p : payloadAndSize) : Z := env_number (ps_envelope p).
Definition ps_hash (p : payloadAndSize) : Hash := env_hash (ps_envelope p).

Definition payloadMemFixedCost : Z := 1000.
Definition payloadTxMemOverhead : Z := 24.

Definition payloadMemSize (p : ExecutionPayloadEnvelope) : Z :=
  foldl (fun out tx => out +u (Z.of_nat (length tx) +u payloadTxMemOverhead))
    payloadMemFixedCost (ep_Transactions (env_ExecutionPayload p)).

Record PayloadsQueue : Type := {
  pq : list payloadAndSize;
  currentSize : Z;
  MaxSize : Z;
  blockHashes : gset Hash;
  SizeFn : ExecutionPayloadEnvelope -> Z }.

Definition NewPayloadsQueue (maxSize : Z) (sizeFn : ExecutionPayloadEnvelope -> Z)
    : PayloadsQueue :=
  {| pq := []; currentSize := 0; MaxSize := maxSize; blockHashes := ∅; SizeFn := sizeFn |}.

Definition Len (upq : PayloadsQueue) : nat := length (pq upq).
Definition MemSize (upq : PayloadsQueue) : Z := currentSize upq.

Definition Peek (upq : PayloadsQueue) : option ExecutionPayloadEnvelope :=
  ps_envelope <$> head (pq upq).

(** [Ok None] is nil. *)
Definition Pop (upq : PayloadsQueue)
    : PayloadsQueue * result (option ExecutionPayloadEnvelope) :=
  match pq upq with
  | [] => (upq, Ok None)
  | _ =>
      match heap_Pop ps_number (pq upq) with
      | Ok (ps, l) =>
          ({| pq := l; currentSize := currentSize upq -u ps_size ps; MaxSize := MaxSize upq;
              blockHashes := blockHashes upq ∖ {[ps_hash ps]}; SizeFn := SizeFn upq |},
           Ok (Some (ps_envelope ps)))
      | Err e => (upq, Err e)
      | Panic => (upq, Panic)
      end
  end.

(** The loop of [Push] that drops payloads; a nil payload is dereferenced by
    its log line.  The number of payloads is fuel enough. *)
Fixpoint drop_loop (fuel : nat) (upq : PayloadsQueue) : PayloadsQueue * result unit :=
  if MaxSize upq <? currentSize upq then
    match fuel with
    | O => (upq, Panic)
    | S f => match Pop upq with
             | (upq', Ok (Some _)) => drop_loop f upq'
             | (upq', _) => (upq', Panic)
             end
    end
  else (upq, Ok ()).

(** [None] is a nil envelope, or one without a payload. *)
Definition Push (upq : PayloadsQueue) (e : option ExecutionPayloadEnvelope)
    : PayloadsQueue * result unit :=
  match e with
  | None => (upq, Err (Msg "cannot add nil payload"))
  | Some e =>
      if bool_decide (env_hash e ∈ blockHashes upq) then
        (upq, Err (Msg "cannot add duplicate payload"))
      else
        let size := SizeFn upq e in
        if MaxSize upq <? size then
          (upq, Err (Msg "payload mem size is larger than max queue size"))
        else
          let l := heap_Push ps_number (pq upq) {| ps_envelope := e; ps_size := size |} in
          let upq := {| pq := l; currentSize := currentSize upq +u size; MaxSize := MaxSize upq;
                        blockHashes := blockHashes upq; SizeFn := SizeFn upq |} in
          match drop_loop (length l) upq with
          | (upq, Ok _) =>
              ({| pq := pq upq; currentSize := currentSize upq; MaxSize := MaxSize upq;
                  blockHashes := {[env_hash e]} ∪ blockHashes upq; SizeFn := SizeFn upq |}, Ok ())
          | failed => failed
          end
  end.

(** ** The abstract queue

    A collection of payloads, as a list up to order. *)

Abbreviation payloads := (list ExecutionPayloadEnvelope).

Definition contents (upq : PayloadsQueue) : payloads := ps_envelope <$> pq upq.

Definition total (size : ExecutionPayloadEnvelope -> Z) (m : payloads) : Z :=
  foldr (fun e s => size e + s) 0 m.

(** Taking a payload with a lowest block number. *)
Definition take_lowest (m : payloads) (x : ExecutionPayloadEnvelope) (m' : payloads) : Prop :=
  m ≡ₚ x :: m' /\ forall y, y ∈ m -> env_number x <= env_number y.

(** Taking lowest payloads until the rest fits: [evict size max m m' d] drops
    the payloads [d], in this order, and keeps [m']. *)
Inductive evict (size : ExecutionPayloadEnvelope -> Z) (max : Z)
    : payloads -> payloads -> payloads -> Prop :=
  | evict_fits m m' : m ≡ₚ m' -> total size m <= max -> evict size max m m' []
  | evict_drop m x m1 m' d : max < total size m -> take_lowest m x m1 ->
      evict size max m1 m' d -> evict size max m m' (x :: d).

Lemma total_cons size e m : total size (e :: m) = size e + total size m.
Proof. done. Qed.

Lemma total_nonneg size m : (forall e, 0 <= size e) -> 0 <= total size m.
Proof. intros Hs. unfold total. induction m as [|e m IH]; simpl; [lia|]. specialize (Hs e). lia. Qed.

Lemma total_Permutation size m m' : m ≡ₚ m' -> total size m = total size m'.
Proof. induction 1; simpl; lia. Qed.

(** ** Invariant *)

(** [loose E]: the invariant without the size bound, where the payloads with
    a hash of [E] need not be registered. *)
Record loose (E : gset Hash) (upq : PayloadsQueue) : Prop := {
  lo_heap : is_heap ps_number (pq upq);
  lo_size : Forall (fun p => ps_size p = SizeFn upq (ps_envelope p)) (pq upq);
  lo_total : currentSize upq = total (SizeFn upq) (contents upq);
  lo_range : 0 <= currentSize upq < two64;
  lo_max : 0 <= MaxSize upq < 2 ^ 63;
  lo_nonneg : forall e, 0 <= SizeFn upq e;
  lo_nodup : NoDup (ps_hash <$> pq upq);
  lo_hashes : forall p, p ∈ pq upq -> ps_hash p ∈ E ∪ blockHashes upq }.

Definition queue_inv (upq : PayloadsQueue) : Prop :=
  loose ∅ upq /\ currentSize upq <= MaxSize upq.

Lemma queue_inv_new max size : 0 <= max < 2 ^ 63 -> (forall e, 0 <= size e) ->
  queue_inv (NewPayloadsQueue max size).
Proof.
  intros Hm Hs. split; [|simpl; lia].
  constructor; simpl; try done; try constructor; try (intros p; by rewrite elem_of_nil).
Qed.

Lemma Pop_spec E upq : loose E upq -> pq upq <> [] ->
  exists x upq', Pop upq = (upq', Ok (Some x)) /\ head (contents upq) = Some x
    /\ take_lowest (contents upq) x (contents upq') /\ loose E upq'
    /\ length (pq upq) = S (length (pq upq'))
    /\ MaxSize upq' = MaxSize upq /\ SizeFn upq' = SizeFn upq
    /\ currentSize upq' = currentSize upq - SizeFn upq x
    /\ blockHashes upq' = blockHashes upq ∖ {[env_hash x]}.
Proof.
  intros [Hh Hs Ht Hr Hm Hn Hd Hb] Hne.
  destruct (heap_Pop_spec ps_number (pq upq) Hh Hne) as (p & l & Hp & Hl & Hperm & Hhd & Hmin).
  unfold Pop. rewrite Hp. destruct (pq upq) as [|p0 t] eqn:Epq; [done|].
  injection Hhd as ->. clear Hne. eexists (ps_envelope p), _. split; [reflexivity|].
  assert (contents upq ≡ₚ ps_envelope p :: (ps_envelope <$> l)) as Hc.
  { unfold contents. rewrite Epq, Hperm. done. }
  assert (ps_size p = SizeFn upq (ps_envelope p) /\
    Forall (fun q => ps_size q = SizeFn upq (ps_envelope q)) l) as [Hsp Hsl].
  { rewrite Hperm in Hs. by apply Forall_cons in Hs. }
  assert (currentSize upq = SizeFn upq (ps_envelope p) + total (SizeFn upq) (ps_envelope <$> l))
    as Hcur by (rewrite Ht, (total_Permutation _ _ _ Hc); done).
  pose proof (total_nonneg (SizeFn upq) (ps_envelope <$> l) Hn).
  pose proof (Hn (ps_envelope p)).
  assert (currentSize upq -u ps_size p = currentSize upq - SizeFn upq (ps_envelope p)) as Hsub.
  { rewrite Hsp. apply u64_small. unfold is_u64. lia. }
  split_and!; simpl; [unfold contents; by rewrite Epq|split; [done|]| | |done|done|done|done].
  - intros y Hy. unfold contents in Hy. rewrite Epq in Hy.
    apply list_elem_of_fmap in Hy as (q & -> & Hq). by apply Hmin.
  - rewrite Hperm in Hd. rewrite fmap_cons in Hd. apply NoDup_cons in Hd as [Hni Hd].
    constructor; simpl; [done|done|rewrite Hsub; unfold contents; simpl; lia|lia|done|done|done|].
    intros q Hq. specialize (Hb q). rewrite Hperm in Hb.
    assert (ps_hash q ≠ ps_hash p).
    { intros E'. apply Hni. rewrite <- E'. by apply list_elem_of_fmap_2. }
    set_solver.
  - by apply Permutation_length in Hperm.
Qed.

(** ** Refinement *)

Definition hashes (d : payloads) : gset Hash := list_to_set (env_hash <$> d).

Lemma drop_loop_spec E fuel upq : loose E upq -> (length (pq upq) <= fuel)%nat ->
  exists upq' d, drop_loop fuel upq = (upq', Ok ())
    /\ evict (SizeFn upq) (MaxSize upq) (contents upq) (contents upq') d
    /\ loose E upq' /\ currentSize upq' <= MaxSize upq'
    /\ MaxSize upq' = MaxSize upq /\ SizeFn upq' = SizeFn upq
    /\ blockHashes upq' = blockHashes upq ∖ hashes d.
Proof.
  revert upq. induction fuel as [|f IH]; intros upq Hl Hf; simpl;
    pose proof (lo_total _ _ Hl) as Ht; pose proof (lo_max _ _ Hl) as Hm.
  - destruct (pq upq) eqn:Ep; [|simpl in Hf; lia].
    unfold contents in Ht. rewrite Ep in Ht. simpl in Ht.
    rewrite (proj2 (Z.ltb_ge _ _)) by lia. exists upq, [].
    split_and!; [done| |done|lia|done|done|set_solver].
    constructor; [done|]. unfold contents. rewrite Ep. simpl. lia.
  - destruct (Z.ltb_spec (MaxSize upq) (currentSize upq)) as [Hlt|Hge].
    2:{ exists upq, []. split_and!; [done| |done|lia|done|done|set_solver].
        constructor; [done|lia]. }
    destruct (Pop_spec E upq Hl) as (x & q1 & HP & _ & Htake & Hl1 & Hlen & HM & HS & Hc & Hb).
    { intros Ep. unfold contents in Ht. rewrite Ep in Ht. simpl in Ht. lia. }
    rewrite HP. destruct (IH q1 Hl1) as (q2 & d & Hd & Hev & Hl2 & Hle & HM2 & HS2 & Hb2); [lia|].
    exists q2, (x :: d). rewrite HM, HS in Hev.
    split_and!; [done| |done|done|congruence|congruence|].
    + apply (evict_drop _ _ _ x (contents q1)); [lia|done|done].
    + rewrite Hb2, Hb. unfold hashes. set_solver.
Qed.

Lemma Push_spec upq e : queue_inv upq -> env_hash e ∉ blockHashes upq ->
  SizeFn upq e <= MaxSize upq ->
  exists upq' d, Push upq (Some e) = (upq', Ok ()) /\ queue_inv upq'
    /\ evict (SizeFn upq) (MaxSize upq) (e :: contents upq) (contents upq') d
    /\ MaxSize upq' = MaxSize upq /\ SizeFn upq' = SizeFn upq
    /\ blockHashes upq' = {[env_hash e]} ∪ (blockHashes upq ∖ hashes d).
Proof.
  intros [[Hh Hs Ht Hr Hm Hn Hd Hb] Hle] Hnew Hsz. unfold Push.
  assert (forall p, p ∈ pq upq -> ps_hash p ∈ blockHashes upq) as Hb'.
  { intros p Hp. specialize (Hb p Hp). set_solver. }
  rewrite bool_decide_eq_false_2 by done. rewrite (proj2 (Z.ltb_ge _ _)) by done.
  set (p := {| ps_envelope := e; ps_size := SizeFn upq e |}).
  destruct (heap_Push_spec ps_number (pq upq) p Hh) as [Hh' Hperm].
  set (q1 := {| pq := heap_Push ps_number (pq upq) p; |}).
  assert (contents q1 ≡ₚ e :: contents upq) as Hc.
  { unfold contents, q1. simpl. by rewrite Hperm. }
  pose proof (Hn e).
  assert (currentSize upq +u SizeFn upq e = SizeFn upq e + currentSize upq) as Hadd.
  { rewrite Z.add_comm. apply u64_small. unfold is_u64. change two64 with (2 ^ 64). lia. }
  assert (loose {[env_hash e]} q1) as Hl1.
  { constructor; simpl; [done| | | |done|done| |].
    - rewrite Hperm. by constructor.
    - rewrite Hadd, Ht, (total_Permutation _ _ _ Hc). done.
    - rewrite Hadd. change two64 with (2 ^ 64). lia.
    - rewrite Hperm, fmap_cons. constructor; [|done].
      intros (q & Eq & Hq)%list_elem_of_fmap. apply Hnew.
      change (env_hash e) with (ps_hash p). rewrite Eq. by apply Hb'.
    - intros q. rewrite Hperm, elem_of_cons. intros [->|Hq].
      + by apply elem_of_union_l, elem_of_singleton.
      + by apply elem_of_union_r, Hb'. }
  destruct (drop_loop_spec _ (length (pq q1)) q1 Hl1 (le_n _))
    as (q2 & d & Hdl & Hev & [? ? ? ? ? ? ? Hb2] & Hle2 & HM & HS & Hbh).
  simpl pq in Hdl. rewrite Hdl. simpl in *. eexists _, d. split; [reflexivity|]. simpl.
  split_and!; [|  |done|done|by rewrite Hbh].
  - split; [|done]. constructor; simpl; try done. intros q Hq. specialize (Hb2 q Hq).
    clear -Hb2. set_solver.
  - inversion Hev as [m m' Hm1 Ht1|m x m1 m' d' Hlt1 [Htk1 Htk2] Hev1]; subst.
    + constructor; [by rewrite <- Hc|]. rewrite <- (total_Permutation _ _ _ Hc). done.
    + econstructor; [|split|exact Hev1].
      * by rewrite <- (total_Permutation _ _ _ Hc).
      * by rewrite <- Hc.
      * intros y Hy. apply Htk2. by rewrite Hc.
Qed.

(** An eviction never empties the queue: a single payload fits. *)
Lemma evict_nonempty size max m m' d : evict size max m m' d -> m <> [] ->
  (forall x, x ∈ m -> size x <= max) -> m' <> [].
Proof.
  induction 1 as [m m' Hp _|m x m1 m' d Hlt [Hp _] _ IH]; intros Hne Hfit.
  { intros ->. by apply Permutation_nil_r in Hp. }
  apply IH.
  - intros ->. rewrite (total_Permutation _ _ _ Hp), total_cons in Hlt. simpl in Hlt.
    specialize (Hfit x). rewrite Hp in Hfit. specialize (Hfit ltac:(by left)). lia.
  - intros y Hy. apply Hfit. rewrite Hp. by right.
Qed.

Lemma total_elem size m x : (forall e, 0 <= size e) -> x ∈ m -> size x <= total size m.
Proof.
  intros Hs Hx. apply elem_of_Permutation in Hx as [m' Hm].
  rewrite (total_Permutation _ _ _ Hm), total_cons. pose proof (total_nonneg size m' Hs). lia.
Qed.

Lemma Push_nonempty upq e upq' : queue_inv upq -> Push upq (Some e) = (upq', Ok ()) ->
  Peek upq' <> None.
Proof.
  intros Hinv HP. assert (Hni := HP). unfold Push in Hni.
  case_bool_decide as Hh; [done|]. destruct (Z.ltb_spec (MaxSize upq) (SizeFn upq e)) as [|Hsz]; [done|].
  clear Hni. destruct (Push_spec upq e Hinv Hh Hsz) as (q' & d & HP' & _ & Hev & _).
  rewrite HP in HP'. injection HP' as <-. destruct Hinv as [Hl Hle].
  apply evict_nonempty in Hev; [|done|].
  - unfold Peek, contents in *. by destruct (pq upq').
  - intros x [->|Hx]%elem_of_cons; [done|].
    pose proof (total_elem _ _ _ (lo_nonneg _ _ Hl) Hx). rewrite <- (lo_total _ _ Hl) in *. lia.
Qed.

(** The two outcomes of pushing a payload. *)
Lemma PayloadsQueue_push upq e : queue_inv upq ->
  (exists upq', Push upq (Some e) = (upq', Ok ()) /\ queue_inv upq'
     /\ env_hash e ∈ blockHashes upq' /\ Peek upq' <> None)
  \/ exists err, Push upq (Some e) = (upq, Err err).
Proof.
  intros Hinv. destruct (decide (env_hash e ∈ blockHashes upq)) as [Hin|Hni].
  { right. unfold Push. rewrite bool_decide_eq_true_2 by done. by eexists. }
  destruct (Z.lt_ge_cases (MaxSize upq) (SizeFn upq e)) as [Hlt|Hge].
  { right. unfold Push. rewrite bool_decide_eq_false_2, (proj2 (Z.ltb_lt _ _)) by done. by eexists. }
  left. destruct (Push_spec upq e Hinv Hni Hge) as (q' & d & HP & Hq & _ & _ & _ & Hb).
  exists q'. split_and!; [done|done|rewrite Hb; set_solver|by apply (Push_nonempty upq e)].
Qed.

(** C5: the payloads queue refines the abstract priority queue and keeps its
    invariant (heap order, sizes adding up to at most the limit, distinct and
    registered hashes): a push is refused, without effect, exactly for a known
    hash or a payload larger than the limit, and otherwise adds the payload
    and drops lowest payloads until the rest fits; a pop takes a payload of
    lowest number, the one [Peek] shows; nothing ever panics. *)
Theorem PayloadsQueue_refines upq : queue_inv upq ->
  (forall e, match Push upq (Some e) with
             | (upq', Ok _) =>
                 (env_hash e ∉ blockHashes upq) /\ SizeFn upq e <= MaxSize upq /\ queue_inv upq'
                 /\ exists d, evict (SizeFn upq) (MaxSize upq) (e :: contents upq) (contents upq') d
                    /\ blockHashes upq' = {[env_hash e]} ∪ (blockHashes upq ∖ hashes d)
             | (upq', Err _) =>
                 upq' = upq /\ (env_hash e ∈ blockHashes upq \/ MaxSize upq < SizeFn upq e)
             | (_, Panic) => False
             end)
  /\ match Pop upq with
     | (upq', Ok (Some x)) =>
         queue_inv upq' /\ Peek upq = Some x /\ take_lowest (contents upq) x (contents upq')
         /\ blockHashes upq' = blockHashes upq ∖ {[env_hash x]}
     | (upq', Ok None) => upq' = upq /\ contents upq = [] /\ Peek upq = None
     | _ => False
     end.
Proof.
  intros Hinv. split.
  - intros e. destruct (decide (env_hash e ∈ blockHashes upq)) as [Hin|Hni].
    { unfold Push. rewrite bool_decide_eq_true_2 by done. auto. }
    destruct (Z.lt_ge_cases (MaxSize upq) (SizeFn upq e)) as [Hlt|Hge].
    { unfold Push. rewrite bool_decide_eq_false_2, (proj2 (Z.ltb_lt _ _)) by done. auto. }
    destruct (Push_spec upq e Hinv Hni Hge) as (q' & d & -> & Hq & Hev & _ & _ & Hb).
    split_and!; [done|done|done|]. by exists d.
  - destruct Hinv as [Hl Hle]. destruct (decide (pq upq = [])) as [E|Hne].
    { unfold Pop, contents, Peek. by rewrite E. }
    destruct (Pop_spec ∅ upq Hl Hne) as (x & q' & -> & Hx & Ht & Hl' & _ & HM & _ & Hc & Hb).
    split_and!; [|by unfold Peek; rewrite <- Hx; unfold contents; destruct (pq upq)|done|done].
    split; [done|]. pose proof (lo_nonneg _ _ Hl x). lia.
Qed.

(** A payload that the push itself drops again, because its number is the
    lowest and the queue is full, is remembered as known: the queue is
    unchanged but refuses the payload as a duplicate from then on. *)
Theorem dropped_payload_refused upq e :
  queue_inv upq -> env_hash e ∉ blockHashes upq -> SizeFn upq e <= MaxSize upq ->
  MaxSize upq < SizeFn upq e + currentSize upq ->
  (forall y, y ∈ contents upq -> env_number e < env_number y) ->
  exists upq', Push upq (Some e) = (upq', Ok ()) /\ contents upq' ≡ₚ contents upq
    /\ Push upq' (Some e) = (upq', Err (Msg "cannot add duplicate payload")).
Proof.
  intros Hinv Hni Hsz Hfull Hlow.
  destruct (Push_spec upq e Hinv Hni Hsz) as (q' & d & HP & _ & Hev & _ & _ & Hb).
  exists q'. destruct Hinv as [Hl Hle]. pose proof (lo_total _ _ Hl) as Ht.
  split_and!; [done| |unfold Push; rewrite bool_decide_eq_true_2; [done|rewrite Hb; set_solver]].
  inversion Hev as [m m' Hp Hfit|m x m1 m' d' Hlt [Hp Hmin] Hev1]; subst.
  { rewrite total_cons in Hfit. lia. }
  assert (x = e) as ->.
  { assert (x ∈ e :: contents upq) as Hx by (rewrite Hp; by left).
    apply elem_of_cons in Hx as [->|Hx]; [done|]. apply Hlow in Hx.
    specialize (Hmin e ltac:(by left)). lia. }
  apply Permutation_cons_inv in Hp.
  inversion Hev1 as [m m' Hp1 Hfit|m x m2 m' d2 Hlt1]; subst; [by rewrite Hp, Hp1|].
  rewrite <- (total_Permutation _ _ _ Hp) in Hlt1. lia.
Qed.

(** ** Witnesses *)

Definition ex_payload (parent hash number : Z) (txs : list bytes) : ExecutionPayload :=
  {| ep_ParentHash := parent; ep_FeeRecipient := 0; ep_StateRoot := 0; ep_ReceiptsRoot := 0;
     ep_LogsBloom := []; ep_PrevRandao := []; ep_BlockNumber := number; ep_GasLimit := 0;
     ep_GasUsed := 0; ep_Timestamp := 2 * number; ep_ExtraData := []; ep_BaseFeePerGas := 0;
     ep_BlockHash := hash; ep_Transactions := txs; ep_Withdrawals := None;
     ep_BlobGasUsed := None; ep_ExcessBlobGas := None; ep_WithdrawalsRoot := None |}.

Definition ex_envelope (parent hash number : Z) : ExecutionPayloadEnvelope :=
  {| ParentBeaconBlockRoot := None;
     env_ExecutionPayload := ex_payload parent hash number [[1; 2; 3]] |}.

Lemma payloadMemSize_nonneg e : 0 <= payloadMemSize e.
Proof.
  unfold payloadMemSize. assert (0 <= payloadMemFixedCost) as H0 by (unfold payloadMemFixedCost; lia).
  revert H0. generalize payloadMemFixedCost.
  induction (ep_Transactions (env_ExecutionPayload e)) as [|tx l IH]; intros z Hz; simpl; [done|].
  apply IH. apply u64_range.
Qed.

(** Payloads 12, 10 and 11 were pushed in this order. *)
Definition ex_queue3 (max : Z) : PayloadsQueue :=
  (Push (Push (Push (NewPayloadsQueue max payloadMemSize) (Some (ex_envelope 101 102 12))).1
           (Some (ex_envelope 99 100 10))).1 (Some (ex_envelope 100 101 11))).1.

Lemma ex_queue3_inv max : 4000 <= max < 2 ^ 63 -> queue_inv (ex_queue3 max).
Proof.
  intros Hm. unfold ex_queue3.
  pose proof (queue_inv_new max payloadMemSize ltac:(lia) payloadMemSize_nonneg) as H0.
  assert (forall p h n, payloadMemSize (ex_envelope p h n) = 1027) as Hsz by done.
  destruct (Push_spec _ (ex_envelope 101 102 12) H0) as (q1 & d1 & -> & H1 & Ev1 & M1 & S1 & B1);
    [set_solver|simpl; rewrite Hsz; lia|]. cbn [fst].
  destruct (Push_spec _ (ex_envelope 99 100 10) H1) as (q2 & d2 & -> & H2 & Ev2 & M2 & S2 & B2);
    [rewrite B1; set_solver|rewrite S1, M1; simpl; rewrite Hsz; lia|]. cbn [fst].
  destruct (Push_spec _ (ex_envelope 100 101 11) H2) as (q3 & d3 & -> & H3 & _);
    [rewrite B2, B1; set_solver|rewrite S2, S1, M2, M1; simpl; rewrite Hsz; lia|]. done.
Qed.

Lemma PayloadsQueue_refines_witness :
  exists q', Pop (ex_queue3 5000) = (q', Ok (Some (ex_envelope 99 100 10))) /\ queue_inv q'
    /\ take_lowest (contents (ex_queue3 5000)) (ex_envelope 99 100 10) (contents q').
Proof.
  destruct (PayloadsQueue_refines (ex_queue3 5000)) as [_ HP]; [apply ex_queue3_inv; lia|].
  assert ((Pop (ex_queue3 5000)).2 = Ok (Some (ex_envelope 99 100 10))) as E
    by (vm_compute; reflexivity).
  destruct (Pop (ex_queue3 5000)) as [q' r]. cbn [snd] in E. subst r.
  exists q'. by destruct HP as (H1 & _ & H2 & _).
Defined.

Lemma dropped_payload_refused_witness :
  exists q', Push (ex_queue3 4000) (Some (ex_envelope 8 9 9)) = (q', Ok ())
    /\ contents q' ≡ₚ contents (ex_queue3 4000)
    /\ Push q' (Some (ex_envelope 8 9 9)) = (q', Err (Msg "cannot add duplicate payload")).
Proof.
  apply dropped_payload_refused.
  - apply ex_queue3_inv. lia.
  - apply (bool_decide_eq_false_1 (env_hash (ex_envelope 8 9 9)
             ∈ blockHashes (ex_queue3 4000))). vm_compute. reflexivity.
  - apply Z.leb_le. vm_compute. reflexivity.
  - vm_compute. reflexivity.
  - intros y Hy. vm_compute in Hy.
    repeat (apply elem_of_cons in Hy as [->|Hy]; [vm_compute; reflexivity|]).
    by apply elem_of_nil in Hy.
Defined.
