(* ===== verification/NodeEvents.v ===== *)
(** * The events of the node

    The event types of the derivation deriver ([derive/deriver.go]), the
    finalizer, CL sync, the status tracker, the sequencer and the driver
    ([driver/steps.go], [engine/engine_reset.go], [rollup/event.go]), around
    the engine's events of [Engine].  A handler returns the new state and the
    emitted events in order; it is [None] for an event it ignores (the source
    returns false) and [Some None] when it panics. *)

From S2P Require Import Prelude EthTypes RollupConfig Pipeline Engine.

Inductive NodeEvent : Type :=
  (** the engine's events, with those of rollup/event.go it handles *)
  | Eng (ev : Event)
  | L1TemporaryErrorEvent (Err : error)
  | ResetEngineRequestEvent
  (** derive/deriver.go *)
  | DeriverIdleEvent (Origin : L1BlockRef)
  | ExhaustedL1Event (L1Ref : L1BlockRef) (LastL2 : L2BlockRef)
  | ProvideL1Traversal (NextL1 : L1BlockRef)
  | DeriverL1StatusEvent (Origin : L1BlockRef) (LastL2 : L2BlockRef)
  | DeriverMoreEvent
  | ConfirmReceivedAttributesEvent
  | ConfirmPipelineResetEvent
  | DerivedAttributesEvent (Attrs : AttributesWithParent)
  | PipelineStepEvent (PendingSafe : L2BlockRef)
  | DepositsOnlyPayloadAttributesRequestEvent (Parent : BlockID) (DerivedFrom : L1BlockRef)
  (** finality/finalizer.go *)
  | FinalizeL1Event (FinalizedL1 : L1BlockRef)
  | TryFinalizeEvent
  (** clsync/clsync.go; the envelope is a pointer *)
  | ReceivedUnsafePayloadEvent (Envelope : option ExecutionPayloadEnvelope)
  (** status/status.go *)
  | L1UnsafeEvent (L1Unsafe : L1BlockRef)
  | L1SafeEvent (L1Safe : L1BlockRef)
  (** sequencing/sequencer.go *)
  | SequencerActionEvent
  (** driver/steps.go *)
  | ResetStepBackoffEvent
  | StepDelayedReqEvent (Delay : Z)
  | StepReqEvent (ResetBackoff : bool)
  | StepAttemptEvent
  | StepEvent.

(** What a handler that does not panic returns. *)
Abbreviation outcome S := (option (S * list NodeEvent)).
