(* ===== verification/CLSync.v ===== *)
(** * CL sync

    Models [rhs-node/rollup/clsync/clsync.go]: the unsafe payloads received
    from the network wait in the payloads queue and are applied on top of the
    unsafe head when the engine announces its forkchoice. *)

From S2P Require Import Prelude EthTypes RollupConfig SpanBatch Batches Pipeline Engine.
From S2P Require Import NodeEvents PayloadsQueue.

Definition maxUnsafePayloadsMemory : Z := 500 * 1024 * 1024.

(** The state is the queue; the configuration is shared. *)
Record CLSync : Type := {
  cl_cfg : Config;
  unsafePayloads : PayloadsQueue }.

Definition NewCLSync (cfg : Config) : CLSync :=
  {| cl_cfg := cfg; unsafePayloads := NewPayloadsQueue maxUnsafePayloadsMemory payloadMemSize |}.

Definition with_queue (eq : CLSync) (q : PayloadsQueue) : CLSync :=
  {| cl_cfg := cl_cfg eq; unsafePayloads := q |}.

Definition LowestQueuedUnsafeBlock (eq : CLSync) : CLSync * result L2BlockRef :=
  match Peek (unsafePayloads eq) with
  | None => (eq, Ok zeroL2BlockRef)
  | Some payload =>
      let (cfg, ref) := PayloadToBlockRef (cl_cfg eq) (env_ExecutionPayload payload) in
      ({| cl_cfg := cfg; unsafePayloads := unsafePayloads eq |},
       match ref with
       | Ok ref => Ok ref
       | Err _ => Ok zeroL2BlockRef
       | Panic => Panic
       end)
  end.

(** The pop of a queue, which may panic. *)
Definition pop_queue (eq : CLSync) : option CLSync :=
  match Pop (unsafePayloads eq) with
  | (q, Ok _) => Some (with_queue eq q)
  | _ => None
  end.

Definition onInvalidPayload (eq : CLSync) (envelope : ExecutionPayloadEnvelope)
    : outcome CLSync :=
  match Peek (unsafePayloads eq) with
  | Some peek =>
      if bool_decide (env_hash envelope = env_hash peek)
      then eq' ← pop_queue eq; Some (eq', [])
      else Some (eq, [])
  | None => Some (eq, [])
  end.

(** The forkchoice update's heads are [unsafe] and [safe]; the result is
    [(pop, abort)], or [None] for the panic on a missing first payload. *)
Definition fromQueue (eq : CLSync) (unsafe safe : L2BlockRef) : option (bool * bool) :=
  if bool_decide (Len (unsafePayloads eq) = 0%nat) then Some (false, true)
  else
    match Peek (unsafePayloads eq) with
    | None => None
    | Some firstEnvelope =>
        let first := env_ExecutionPayload firstEnvelope in
        Some (if ep_BlockHash first =? l2_Hash unsafe then (true, false)
              else if ep_BlockNumber first <=? l2_Number safe then (true, false)
              else if ep_BlockNumber first <=? l2_Number unsafe then (true, false)
              else if negb (ep_ParentHash first =? l2_Hash unsafe) then
                if ep_BlockNumber first =? l2_Number unsafe +u 1 then (true, false)
                else (false, true)
              else (false, false))
    end.

(** The loop of [onForkchoiceUpdate]: whether it ends with a payload to
    process, or aborts.  Every round pops a payload, so the length of the
    queue is fuel enough. *)
Fixpoint forkchoice_loop (fuel : nat) (eq : CLSync) (unsafe safe : L2BlockRef)
    : option (CLSync * bool) :=
  '(pop, abort) ← fromQueue eq unsafe safe;
  if abort : bool then Some (eq, false)
  else if pop : bool then
    match fuel with
    | O => None
    | S f => eq' ← pop_queue eq; forkchoice_loop f eq' unsafe safe
    end
  else Some (eq, true).

(** The emitted envelope is the peeked pointer, which is not nil here. *)
Definition onForkchoiceUpdate (eq : CLSync) (unsafe safe : L2BlockRef) : outcome CLSync :=
  '(eq', go) ← forkchoice_loop (Len (unsafePayloads eq)) eq unsafe safe;
  if go : bool then
    firstEnvelope ← Peek (unsafePayloads eq');
    Some (eq', [Eng (ProcessUnsafePayloadEvent firstEnvelope)])
  else Some (eq', []).

(** The first log line dereferences the envelope, before the nil check; after
    a push the metrics dereference the first payload. *)
Definition onUnsafePayload (eq : CLSync) (envelope : option ExecutionPayloadEnvelope)
    : outcome CLSync :=
  envelope ← envelope;
  match Push (unsafePayloads eq) (Some envelope) with
  | (q, Err _) => Some (with_queue eq q, [])
  | (_, Panic) => None
  | (q, Ok _) =>
      _ ← Peek q;
      Some (with_queue eq q, [Eng ForkchoiceRequestEvent])
  end.

Definition CLSync_OnEvent (eq : CLSync) (ev : NodeEvent) : option (outcome CLSync) :=
  match ev with
  | Eng (PayloadInvalidEvent envelope _) => Some (onInvalidPayload eq envelope)
  | Eng (ForkchoiceUpdateEvent unsafe safe _) => Some (onForkchoiceUpdate eq unsafe safe)
  | ReceivedUnsafePayloadEvent envelope => Some (onUnsafePayload eq envelope)
  | _ => None
  end.

(** ** Properties *)

Definition cl_inv (eq : CLSync) : Prop := queue_inv (unsafePayloads eq).
Definition queued (eq : CLSync) : payloads := contents (unsafePayloads eq).

(** A payload that cannot extend the unsafe head any more. *)
Definition stale (unsafe safe : L2BlockRef) (e : ExecutionPayloadEnvelope) : Prop :=
  env_hash e = l2_Hash unsafe \/ env_number e <= l2_Number safe
  \/ env_number e <= l2_Number unsafe
  \/ env_number e = l2_Number unsafe + 1
     /\ ep_ParentHash (env_ExecutionPayload e) <> l2_Hash unsafe.

(** A payload that builds on the unsafe head. *)
Record extends (unsafe safe : L2BlockRef) (e : ExecutionPayloadEnvelope) : Prop := {
  ext_parent : ep_ParentHash (env_ExecutionPayload e) = l2_Hash unsafe;
  ext_hash : env_hash e <> l2_Hash unsafe;
  ext_safe : l2_Number safe < env_number e;
  ext_unsafe : l2_Number unsafe < env_number e }.

Lemma cl_inv_new cfg : cl_inv (NewCLSync cfg).
Proof.
  apply queue_inv_new; [unfold maxUnsafePayloadsMemory; lia|apply payloadMemSize_nonneg].
Qed.

Lemma Peek_Some q e : Peek q = Some e -> e ∈ contents q.
Proof. unfold Peek, contents. destruct (pq q); [done|]. intros [= <-]. by left. Qed.

Lemma Peek_None q : Peek q = None <-> contents q = [].
Proof. unfold Peek, contents. by destruct (pq q). Qed.

Lemma Peek_lowest q e y : queue_inv q -> Peek q = Some e -> y ∈ contents q ->
  env_number e <= env_number y.
Proof.
  intros [Hl _] Hp Hy.
  destruct (Pop_spec ∅ q Hl) as (x & q' & _ & Hx & [_ Hmin] & _).
  { intros E. unfold contents in Hy. rewrite E in Hy. by apply elem_of_nil in Hy. }
  assert (x = e) as <-; [|by apply Hmin].
  unfold Peek, contents in *. destruct (pq q); simplify_eq/=. done.
Qed.

(** Popping a non-empty queue. *)
Lemma pop_queue_spec eq e : cl_inv eq -> Peek (unsafePayloads eq) = Some e ->
  exists eq', pop_queue eq = Some eq' /\ cl_inv eq' /\ cl_cfg eq' = cl_cfg eq
    /\ queued eq ≡ₚ e :: queued eq'
    /\ Len (unsafePayloads eq) = S (Len (unsafePayloads eq')).
Proof.
  intros [Hl Hle] Hp.
  destruct (Pop_spec ∅ _ Hl) as (x & q' & HP & Hx & [Hperm _] & Hl' & Hlen & HM & _ & Hc & _).
  { unfold Peek in Hp. by destruct (pq (unsafePayloads eq)). }
  assert (x = e) as ->.
  { unfold Peek, contents in *. destruct (pq (unsafePayloads eq)); simplify_eq/=. done. }
  unfold pop_queue. rewrite HP. eexists. split; [reflexivity|]. split_and!; [|done|done|done].
  split; [done|]. simpl. pose proof (lo_nonneg _ _ Hl e). lia.
Qed.

(** What one look at the queue decides. *)
Lemma fromQueue_spec eq unsafe safe : is_u64 (l2_Number unsafe + 1) -> cl_inv eq ->
  match Peek (unsafePayloads eq) with
  | None => fromQueue eq unsafe safe = Some (false, true)
  | Some e => (fromQueue eq unsafe safe = Some (true, false) /\ stale unsafe safe e)
      \/ (fromQueue eq unsafe safe = Some (false, false) /\ extends unsafe safe e)
      \/ (fromQueue eq unsafe safe = Some (false, true) /\ l2_Number unsafe + 1 < env_number e)
  end.
Proof.
  intros Hu _. unfold fromQueue, Len. destruct (Peek (unsafePayloads eq)) as [e|] eqn:Ep.
  2:{ unfold Peek in Ep. by destruct (pq (unsafePayloads eq)). }
  rewrite bool_decide_eq_false_2 by (unfold Peek in Ep; by destruct (pq (unsafePayloads eq))).
  rewrite u64_small by done. unfold stale, env_number, env_hash.
  set (p := env_ExecutionPayload e) in *.
  destruct (Z.eqb_spec (ep_BlockHash p) (l2_Hash unsafe)); [auto|].
  destruct (Z.leb_spec (ep_BlockNumber p) (l2_Number safe)); [left; split; [done|]; auto|].
  destruct (Z.leb_spec (ep_BlockNumber p) (l2_Number unsafe)); [left; split; [done|]; auto|].
  destruct (Z.eqb_spec (ep_ParentHash p) (l2_Hash unsafe)); cbn [negb].
  - right; left. split; [done|]. by constructor.
  - destruct (Z.eqb_spec (ep_BlockNumber p) (l2_Number unsafe + 1)).
    + left. split; [done|]. right; right; right. done.
    + right; right. split; [done|lia].
Qed.

Lemma forkchoice_loop_spec fuel eq unsafe safe : is_u64 (l2_Number unsafe + 1) -> cl_inv eq ->
  (Len (unsafePayloads eq) <= fuel)%nat ->
  exists eq' go d, forkchoice_loop fuel eq unsafe safe = Some (eq', go) /\ cl_inv eq'
    /\ queued eq ≡ₚ d ++ queued eq' /\ Forall (stale unsafe safe) d
    /\ match Peek (unsafePayloads eq') with
       | None => go = false
       | Some e => if go then extends unsafe safe e else l2_Number unsafe + 1 < env_number e
       end.
Proof.
  intros Hu. revert eq. induction fuel as [|f IH]; intros eq Hinv Hf;
    pose proof (fromQueue_spec eq unsafe safe Hu Hinv) as Hq;
    destruct (Peek (unsafePayloads eq)) as [e|] eqn:Ep; cbn [forkchoice_loop].
  - exfalso. unfold Len, Peek in *. destruct (pq (unsafePayloads eq)); [done|simpl in Hf; lia].
  - rewrite Hq. exists eq, false, []. simpl. rewrite Ep. by split_and!.
  - destruct Hq as [[-> Hs]|[[-> Hx]|[-> Hn]]]; simpl.
    + destruct (pop_queue_spec eq e Hinv Ep) as (eq1 & -> & Hi1 & _ & Hp1 & Hl1). simpl.
      destruct (IH eq1 Hi1) as (eq' & go & d & Hr & Hi' & Hp & Hd & Hend); [lia|].
      exists eq', go, (e :: d). split_and!; [done|done| |by constructor|done].
      rewrite Hp1, Hp. done.
    + exists eq, true, []. rewrite Ep. by split_and!.
    + exists eq, false, []. rewrite Ep. by split_and!.
  - rewrite Hq. exists eq, false, []. simpl. rewrite Ep. by split_and!.
Qed.

Lemma onForkchoiceUpdate_inv eq unsafe safe : cl_inv eq -> is_u64 (l2_Number unsafe + 1) ->
  exists eq' evs, onForkchoiceUpdate eq unsafe safe = Some (eq', evs) /\ cl_inv eq'.
Proof.
  intros Hinv Hu. unfold onForkchoiceUpdate.
  destruct (forkchoice_loop_spec _ eq unsafe safe Hu Hinv (le_n _))
    as (eq' & go & d & -> & Hi' & _ & _ & Hend). simpl.
  destruct go; [|by eexists eq', []].
  destruct (Peek (unsafePayloads eq')); [|done]. by eexists eq', _.
Qed.

(** On a forkchoice update CL sync always returns: it drops stale payloads
    only, and then either emits one payload of lowest number for processing,
    which builds on the unsafe head and is kept in the queue, or emits
    nothing, and then every queued payload leaves a gap to the unsafe head.
    In particular a queued child of the unsafe head that is not behind the
    safe head always leads to a payload being processed. *)
Theorem onForkchoiceUpdate_spec eq unsafe safe :
  cl_inv eq -> is_u64 (l2_Number unsafe + 1) ->
  exists eq' evs d, onForkchoiceUpdate eq unsafe safe = Some (eq', evs) /\ cl_inv eq'
    /\ queued eq ≡ₚ d ++ queued eq' /\ Forall (stale unsafe safe) d
    /\ ((evs = [] /\ forall y, y ∈ queued eq' -> l2_Number unsafe + 1 < env_number y)
        \/ exists e, evs = [Eng (ProcessUnsafePayloadEvent e)] /\ e ∈ queued eq'
             /\ extends unsafe safe e
             /\ forall y, y ∈ queued eq' -> env_number e <= env_number y)
    /\ forall e, e ∈ queued eq -> extends unsafe safe e -> env_number e = l2_Number unsafe + 1 ->
         evs <> [].
Proof.
  intros Hinv Hu. unfold onForkchoiceUpdate.
  destruct (forkchoice_loop_spec _ eq unsafe safe Hu Hinv (le_n _))
    as (eq' & go & d & -> & Hi' & Hp & Hd & Hend). simpl.
  destruct (Peek (unsafePayloads eq')) as [e|] eqn:Ep; [destruct go|subst go; simpl].
  - simpl. eexists eq', _, d. split; [reflexivity|]. split_and!; [done|done|done| |done].
    right. exists e. split_and!; [done|by apply Peek_Some|done|].
    intros y. by apply Peek_lowest.
  - eexists eq', [], d. split; [reflexivity|].
    assert (forall y, y ∈ queued eq' -> l2_Number unsafe + 1 < env_number y) as Hgap.
    { intros y Hy. pose proof (Peek_lowest _ e y Hi' Ep Hy). lia. }
    split_and!; [done|done|done|by left|].
    intros x Hx [H1 H2 H3 H4] Hn. rewrite Hp in Hx. apply elem_of_app in Hx as [Hx|Hx].
    + eapply Forall_forall in Hd; [|exact Hx]. destruct Hd as [?|[?|[?|[_ ?]]]]; [done|lia|lia|done].
    + specialize (Hgap x Hx). lia.
  - eexists eq', [], d. apply Peek_None in Ep. split; [reflexivity|].
    split_and!; [done|done|done| |].
    + left. split; [done|]. unfold queued. rewrite Ep. intros y Hy. by apply elem_of_nil in Hy.
    + intros x Hx [H1 H2 H3 H4] Hn. unfold queued in Hp. rewrite Ep, app_nil_r in Hp.
      unfold queued in Hx. rewrite Hp in Hx. eapply Forall_forall in Hd; [|exact Hx].
      destruct Hd as [?|[?|[?|[_ ?]]]]; [done|lia|lia|done].
Qed.

(** The unsafe head's number has a successor. *)
Definition event_ok (ev : NodeEvent) : Prop :=
  match ev with
  | Eng (ForkchoiceUpdateEvent unsafe _ _) => is_u64 (l2_Number unsafe + 1)
  | _ => True
  end.

(** CL sync keeps its queue's invariant through every event and panics on
    one event only, the reception of a nil envelope, which its nil check is
    too late to catch; a received payload leads to a forkchoice request
    exactly when the queue takes it. *)
Theorem CLSync_total eq ev : cl_inv eq -> event_ok ev ->
  match CLSync_OnEvent eq ev with
  | Some (Some (eq', evs)) =>
      cl_inv eq'
      /\ (forall e, ev = ReceivedUnsafePayloadEvent (Some e) ->
          evs = [Eng ForkchoiceRequestEvent] /\ env_hash e ∈ blockHashes (unsafePayloads eq')
          \/ evs = [] /\ eq' = eq)
  | Some None => ev = ReceivedUnsafePayloadEvent None
  | None => True
  end.
Proof.
  intros Hinv Hok. destruct ev as [x| | | | | | | | | | | | | | |env| | | | | | | |]; try done.
  - destruct x; try done; cbn [CLSync_OnEvent].
    + destruct (onForkchoiceUpdate_inv eq UnsafeL2Head SafeL2Head Hinv Hok)
        as (eq' & evs & -> & Hi). by split.
    + unfold onInvalidPayload. destruct (Peek (unsafePayloads eq)) as [e|] eqn:Ep; [|done].
      case_bool_decide; [|done].
      by destruct (pop_queue_spec eq e Hinv Ep) as (eq' & -> & Hi & _).
  - cbn [CLSync_OnEvent]. destruct env as [e|]; [|done]. unfold onUnsafePayload. cbn [mbind option_bind].
    destruct (PayloadsQueue_push _ e Hinv) as [(q' & HP & Hi & Hh & Hpeek)|(err & HP)]; rewrite HP.
    + destruct (Peek q') as [first|]; [|done]. simpl. split; [done|].
      intros e' [= <-]. left. done.
    + split; [done|]. intros e' [= <-]. right. split; [done|]. by destruct eq.
Qed.

(** ** Witnesses *)

Definition ex_head (hash number : Z) : L2BlockRef :=
  {| l2_Hash := hash; l2_Number := number; l2_ParentHash := hash - 1; l2_Time := 2 * number;
     l2_L1Origin := zeroBlockID; l2_SequenceNumber := 0 |}.

(** Payloads 10, 11 and 12 are queued and the unsafe head is block 10. *)
Definition ex_clsync : CLSync := {| cl_cfg := example_config; unsafePayloads := ex_queue3 5000 |}.

Lemma onForkchoiceUpdate_spec_witness :
  exists eq', onForkchoiceUpdate ex_clsync (ex_head 100 10) (ex_head 99 9)
    = Some (eq', [Eng (ProcessUnsafePayloadEvent (ex_envelope 100 101 11))]) /\ cl_inv eq'.
Proof.
  destruct (onForkchoiceUpdate_spec ex_clsync (ex_head 100 10) (ex_head 99 9))
    as (eq' & evs & d & H & Hi & _).
  - apply ex_queue3_inv. lia.
  - unfold is_u64, two64. simpl. lia.
  - assert (snd <$> onForkchoiceUpdate ex_clsync (ex_head 100 10) (ex_head 99 9)
            = Some [Eng (ProcessUnsafePayloadEvent (ex_envelope 100 101 11))]) as E
      by (vm_compute; reflexivity).
    rewrite H in E. simpl in E. injection E as ->. exists eq'. exact (conj H Hi).
Defined.

Lemma CLSync_total_witness :
  match CLSync_OnEvent ex_clsync (ReceivedUnsafePayloadEvent (Some (ex_envelope 102 103 13))) with
  | Some (Some (eq', _)) => cl_inv eq'
  | _ => False
  end.
Proof.
  pose proof (CLSync_total ex_clsync (ReceivedUnsafePayloadEvent (Some (ex_envelope 102 103 13)))
    (ex_queue3_inv 5000 ltac:(lia)) I) as H.
  cbn [CLSync_OnEvent] in *.
  destruct (onUnsafePayload _ _) as [[eq' evs]|]; [apply H|done].
Defined.
