(* ===== verification/Finalizer.v ===== *)
(** * The finalizer

    Models [rhs-node/rollup/finality/finalizer.go]: which safe blocks were
    derived lately, and the promotion of one of them to finalized.  The
    finalizer is shown to refine an abstract one that remembers two blocks. *)

From S2P Require Import Prelude EthTypes RollupConfig Pipeline Engine NodeEvents.

Definition defaultFinalityLookback : Z := 4 * 32 + 1.
Definition finalityDelay : Z := 64.

Definition calcFinalityLookback (cfg : Config) : Z := defaultFinalityLookback.

(** [FinalityData] holds the block only. *)
Record Finalizer : Type := {
  fi_cfg : Config;
  finalizedL1 : L1BlockRef;
  lastFinalizedL2 : L2BlockRef;
  triedFinalizeAt : Z;
  finalityData : list L2BlockRef;
  finalityLookback : Z }.

Definition NewFinalizer (cfg : Config) : Finalizer :=
  {| fi_cfg := cfg; finalizedL1 := zeroL1BlockRef; lastFinalizedL2 := zeroL2BlockRef;
     triedFinalizeAt := 0; finalityData := []; finalityLookback := calcFinalityLookback cfg |}.

Definition with_data (fi : Finalizer) (data : list L2BlockRef) : Finalizer :=
  {| fi_cfg := fi_cfg fi; finalizedL1 := finalizedL1 fi; lastFinalizedL2 := lastFinalizedL2 fi;
     triedFinalizeAt := triedFinalizeAt fi; finalityData := data;
     finalityLookback := finalityLookback fi |}.

Definition with_tried (fi : Finalizer) (n : Z) : Finalizer :=
  {| fi_cfg := fi_cfg fi; finalizedL1 := finalizedL1 fi; lastFinalizedL2 := lastFinalizedL2 fi;
     triedFinalizeAt := n; finalityData := finalityData fi;
     finalityLookback := finalityLookback fi |}.

Definition with_lastFinalized (fi : Finalizer) (ref : L2BlockRef) : Finalizer :=
  {| fi_cfg := fi_cfg fi; finalizedL1 := finalizedL1 fi; lastFinalizedL2 := ref;
     triedFinalizeAt := triedFinalizeAt fi; finalityData := finalityData fi;
     finalityLookback := finalityLookback fi |}.

(** [onL1Finalized] takes no argument: the signal's block is not recorded. *)
Definition onL1Finalized (fi : Finalizer) : outcome Finalizer := Some (fi, [TryFinalizeEvent]).

Definition onDerivationIdle (fi : Finalizer) (derivedFrom : L1BlockRef) : outcome Finalizer :=
  if bool_decide (finalizedL1 fi = zeroL1BlockRef) then Some (fi, [])
  else if negb (triedFinalizeAt fi =? 0)
          && (l1_Number derivedFrom <=? triedFinalizeAt fi +u finalityDelay)
  then Some (fi, [])
  else Some (with_tried fi (l1_Number derivedFrom), [TryFinalizeEvent]).

Definition finalize_loop (data : list L2BlockRef) (finalizedL2 : L2BlockRef) : L2BlockRef :=
  fold_left (fun finalizedL2 fd => if l2_Number finalizedL2 <? l2_Number fd then fd else finalizedL2)
    data finalizedL2.

Definition tryFinalize (fi : Finalizer) : outcome Finalizer :=
  Some (fi, [Eng (PromoteFinalizedEvent (finalize_loop (finalityData fi) (lastFinalizedL2 fi)))]).

(** The slice [finalityData[1:finalityLookback]] of the pruning; the bounds
    are out of range when the list is empty. *)
Definition onDerivedSafeBlock (fi : Finalizer) (l2Safe : L2BlockRef) : outcome Finalizer :=
  if IsInterop (fi_cfg fi) (l2_Time l2Safe) then Some (fi, [])
  else
    match rev (finalityData fi) with
    | [] =>
        if finalityLookback fi <=? Z.of_nat (length (finalityData fi)) then None
        else Some (with_data fi (finalityData fi ++ [l2Safe]), [])
    | last :: before =>
        if bool_decide (last = l2Safe) then Some (fi, [])
        else Some (with_data fi (rev before ++ [l2Safe]), [])
    end.

Definition onReset (fi : Finalizer) : outcome Finalizer :=
  Some (with_tried (with_data fi []) 0, []).

Definition Finalizer_OnEvent (fi : Finalizer) (ev : NodeEvent) : option (outcome Finalizer) :=
  match ev with
  | FinalizeL1Event _ => Some (onL1Finalized fi)
  | Eng (SafeDerivedEvent safe) => Some (onDerivedSafeBlock fi safe)
  | DeriverIdleEvent origin => Some (onDerivationIdle fi origin)
  | Eng (ResetEvent _) => Some (onReset fi)
  | TryFinalizeEvent => Some (tryFinalize fi)
  | Eng (ForkchoiceUpdateEvent _ _ finalized) => Some (Some (with_lastFinalized fi finalized, []))
  | _ => None
  end.

(** ** The abstract finalizer

    It remembers the safe block derived last since the last reset, and the
    finalized head announced last. *)

Record abstract_finalizer : Type := {
  lastSafe : option L2BlockRef;
  lastFinalized : L2BlockRef }.

Definition abstract_init : abstract_finalizer :=
  {| lastSafe := None; lastFinalized := zeroL2BlockRef |}.

(** The block a finality signal promotes. *)
Definition promoted (a : abstract_finalizer) : L2BlockRef :=
  match lastSafe a with
  | Some s => if l2_Number (lastFinalized a) <? l2_Number s then s else lastFinalized a
  | None => lastFinalized a
  end.

Definition abstract_step (cfg : Config) (a : abstract_finalizer) (ev : NodeEvent)
    : abstract_finalizer * list NodeEvent :=
  match ev with
  | FinalizeL1Event _ => (a, [TryFinalizeEvent])
  | TryFinalizeEvent => (a, [Eng (PromoteFinalizedEvent (promoted a))])
  | Eng (SafeDerivedEvent s) =>
      if IsInterop cfg (l2_Time s) then (a, [])
      else ({| lastSafe := Some s; lastFinalized := lastFinalized a |}, [])
  | Eng (ResetEvent _) => ({| lastSafe := None; lastFinalized := lastFinalized a |}, [])
  | Eng (ForkchoiceUpdateEvent _ _ f) => ({| lastSafe := lastSafe a; lastFinalized := f |}, [])
  | _ => (a, [])
  end.

(** ** Runs *)

(** The state and everything emitted after a list of events. *)
Fixpoint finalizer_run (fi : Finalizer) (evs : list NodeEvent)
    : option (Finalizer * list NodeEvent) :=
  match evs with
  | [] => Some (fi, [])
  | ev :: rest =>
      match Finalizer_OnEvent fi ev with
      | None => finalizer_run fi rest
      | Some None => None
      | Some (Some (fi', out)) =>
          '(fi'', outs) ← finalizer_run fi' rest; Some (fi'', out ++ outs)
      end
  end.

Fixpoint abstract_run (cfg : Config) (a : abstract_finalizer) (evs : list NodeEvent)
    : abstract_finalizer * list NodeEvent :=
  match evs with
  | [] => (a, [])
  | ev :: rest =>
      let (a', out) := abstract_step cfg a ev in
      let (a'', outs) := abstract_run cfg a' rest in (a'', out ++ outs)
  end.

(** ** Refinement *)

(** The simulation relation. *)
Record fi_sim (cfg : Config) (fi : Finalizer) (a : abstract_finalizer) : Prop := {
  fs_cfg : fi_cfg fi = cfg;
  fs_l1 : finalizedL1 fi = zeroL1BlockRef;
  fs_tried : triedFinalizeAt fi = 0;
  fs_lookback : finalityLookback fi = defaultFinalityLookback;
  fs_data : finalityData fi = option_list (lastSafe a);
  fs_last : lastFinalizedL2 fi = lastFinalized a }.

Lemma fi_sim_new cfg : fi_sim cfg (NewFinalizer cfg) abstract_init.
Proof. by constructor. Qed.

Lemma fi_sim_step cfg fi a ev : fi_sim cfg fi a ->
  match Finalizer_OnEvent fi ev with
  | None => abstract_step cfg a ev = (a, [])
  | Some None => False
  | Some (Some (fi', out)) =>
      exists a', abstract_step cfg a ev = (a', out) /\ fi_sim cfg fi' a'
  end.
Proof.
  intros Hsim. pose proof Hsim as [H1 H2 H3 H4 H5 H6].
  destruct ev as [x| | | | | | | | | | | | | | | | | | | | | | |]; try done.
  - destruct x; try done; simpl.
    + eexists. split; [reflexivity|]. by constructor.
    + unfold onDerivedSafeBlock. rewrite H1.
      destruct (IsInterop cfg (l2_Time Safe)); [by eexists|]. rewrite H4, H5.
      destruct (lastSafe a) as [s|] eqn:Es; simpl.
      * case_bool_decide as E.
        -- eexists. split; [reflexivity|]. constructor; simpl; try done. by rewrite H5, E.
        -- eexists. split; [reflexivity|]. by constructor.
      * eexists. split; [reflexivity|]. by constructor.
    + eexists. split; [reflexivity|]. by constructor.
  - simpl. unfold onDerivationIdle. rewrite bool_decide_eq_true_2 by done. by eexists.
  - simpl. by eexists.
  - simpl. eexists. split; [|done]. do 4 f_equal. unfold promoted. rewrite H5, H6.
    by destruct (lastSafe a).
Qed.

(** Over every sequence of events the finalizer behaves as the abstract
    one, and never panics: a finality signal promotes the safe block derived
    last since the last reset, if it is ahead of the finalized head, and
    otherwise the finalized head again.  The L1 block of the signal plays no
    role, and an idle derivation never tries to finalize: a block is
    finalized as soon as it is safe, whatever L1 has finalized. *)
Theorem Finalizer_refines cfg evs :
  exists fi, finalizer_run (NewFinalizer cfg) evs
             = Some (fi, (abstract_run cfg abstract_init evs).2)
    /\ fi_sim cfg fi (abstract_run cfg abstract_init evs).1.
Proof.
  pose proof (fi_sim_new cfg) as Hsim. revert Hsim.
  generalize (NewFinalizer cfg), abstract_init.
  induction evs as [|ev evs IH]; intros fi a Hsim; [by exists fi|].
  cbn [finalizer_run abstract_run]. pose proof (fi_sim_step cfg fi a ev Hsim) as Hstep.
  destruct (Finalizer_OnEvent fi ev) as [[[fi' out]|]|]; [|done|].
  - destruct Hstep as (a' & -> & Hsim'). destruct (IH fi' a' Hsim') as (fi'' & -> & Hs).
    destruct (abstract_run cfg a' evs) as [a'' outs]. by exists fi''.
  - rewrite Hstep. destruct (IH fi a Hsim) as (fi'' & -> & Hs).
    destruct (abstract_run cfg a evs) as [a'' outs]. by exists fi''.
Qed.

(** The promoted block never falls behind the finalized head. *)
Lemma promoted_monotone a : l2_Number (lastFinalized a) <= l2_Number (promoted a).
Proof.
  unfold promoted. destruct (lastSafe a) as [s|]; [|lia].
  destruct (Z.ltb_spec (l2_Number (lastFinalized a)) (l2_Number s)); lia.
Qed.

(** A run on a concrete trace: block 7 is promoted on an empty L1 signal. *)
Example finalizer_trace :
  let ref n := {| l2_Hash := n; l2_Number := n; l2_ParentHash := n - 1; l2_Time := n;
                  l2_L1Origin := zeroBlockID; l2_SequenceNumber := 0 |} in
  snd <$> finalizer_run (NewFinalizer example_config)
    [Eng (SafeDerivedEvent (ref 6)); Eng (SafeDerivedEvent (ref 7));
     FinalizeL1Event zeroL1BlockRef; TryFinalizeEvent]
  = Some [TryFinalizeEvent; Eng (PromoteFinalizedEvent (ref 7))].
Proof. vm_compute. reflexivity. Qed.
