(* ===== verification/AttributesHandler.v ===== *)
(** * The attributes handler

    Models [rhs-node/rollup/attributes/attributes.go] (which applies derived
    attributes on top of the pending-safe head, or consolidates them with the
    unsafe block that is already there) and the comparison of attributes with
    a block in [engine_consolidate.go].  The logging helpers of that file are
    left out: they only read.  The EIP-1559 codec is the library's. *)

From S2P Require Import Prelude EthTypes RollupConfig SpanBatch Batches Pipeline Engine.
From S2P Require Import NodeEvents.

(** The functions of the codec that the attributes need besides [EIP1559]. *)
Class EIP1559Attributes := {
  ValidateHolocene1559Params : bytes -> result unit;
  DecodeHolocene1559Params : bytes -> Z * Z }.

(** [params.OptimismConfig] as far as it is read, behind the pointer
    [Config.ChainOpConfig]. *)
Record OptimismConfig : Type := {
  EIP1559Elasticity : Z;
  EIP1559DenominatorCanyon : option Z }.

Definition ErrCanyonMustHaveWithdrawals : error :=
  Msg "canyon: expected withdrawals in block to be non-nil and empty".
Definition ErrCanyonWithdrawalsRoot : error :=
  Msg "canyon: expected withdrawalsRoot in block to be default".
Definition ErrBedrockMustHaveEmptyWithdrawals : error :=
  Msg "bedrock: expected withdrawals in attributes to be nil".
Definition ErrIsthmusMustHaveWithdrawalsRoot : error :=
  Msg "isthmus: expected withdrawalsRoot in block to be non-nil".

(** ** Comparing attributes with a block *)

Definition checkWithdrawals (cfg : Config) (attrs : PayloadAttributes) (block : ExecutionPayload)
    : result unit :=
  let isCanyon := IsCanyon cfg (ep_Timestamp block) in
  let isIsthmus := IsIsthmus cfg (ep_Timestamp block) in
  let* _ :=
    if isCanyon then
      if negb (bool_decide (ep_Withdrawals block = Some [])) then
        Err (Wrap "block" ErrCanyonMustHaveWithdrawals)
      else if negb (bool_decide (pa_Withdrawals attrs = Some [])) then
        Err (Wrap "attributes" ErrCanyonMustHaveWithdrawals)
      else if negb isIsthmus then
        match ep_WithdrawalsRoot block with
        | Some root => if negb (root =? EmptyWithdrawalsHash)
                       then Err (Wrap "got" ErrCanyonWithdrawalsRoot) else Ok ()
        | None => Ok ()
        end
      else Ok ()
    else
      match pa_Withdrawals attrs with
      | Some _ => Err (Wrap "got" ErrBedrockMustHaveEmptyWithdrawals)
      | None => Ok ()
      end in
  if isIsthmus && bool_decide (ep_WithdrawalsRoot block = None)
  then Err ErrIsthmusMustHaveWithdrawalsRoot else Ok ().

(** It has no caller. *)
Definition checkParentBeaconBlockRootMatch (attrRoot blockRoot : option Hash) : result unit :=
  match blockRoot, attrRoot with
  | None, None => Ok ()
  | None, Some _ => Err (Msg "expected non-nil parent beacon block root but got nil")
  | Some _, None => Err (Msg "expected nil parent beacon block root but got non-nil")
  | Some b, Some a => if negb (b =? a) then Err (Msg "parent beacon block root does not match")
                      else Ok ()
  end.

Section Handler.
Context {EP : EIP1559} {EA : EIP1559Attributes}.

(** A nil configuration or a nil denominator is dereferenced. *)
Definition checkEIP1559ParamsMatch (opCfg : option OptimismConfig) (attrParams : option bytes)
    (blockExtraData : bytes) : result unit :=
  match attrParams with
  | Some params =>
      let* _ := map_err (Wrap "invalid attributes EIP1559 parameters")
                  (ValidateHolocene1559Params params) in
      let* _ := map_err (Wrap "invalid block extraData")
                  (ValidateHoloceneExtraData blockExtraData) in
      let (ad, ae) := DecodeHolocene1559Params params in
      let* (ad, ae) :=
        if ad =? 0 then
          match opCfg with
          | Some op => match EIP1559DenominatorCanyon op with
                       | Some d => Ok (d, EIP1559Elasticity op)
                       | None => Panic
                       end
          | None => Panic
          end
        else Ok (ad, ae) in
      let (bd, be) := DecodeHoloceneExtraData blockExtraData in
      if negb (ad =? bd) || negb (ae =? be)
      then Err (Msg "eip1559 parameters do not match") else Ok ()
  | None =>
      match blockExtraData with
      | [] => Ok ()
      | _ => Err (Msg "nil EIP1559Params in attributes but non-nil extraData in block")
      end
  end.

Definition AttributesMatchBlock (cfg : Config) (opCfg : option OptimismConfig)
    (attrs : PayloadAttributes) (parentHash : Hash) (envelope : ExecutionPayloadEnvelope)
    : result unit :=
  let block := env_ExecutionPayload envelope in
  if negb (parentHash =? ep_ParentHash block) then Err (Msg "parent hash field does not match")
  else if negb (pa_Timestamp attrs =? ep_Timestamp block) then
    Err (Msg "timestamp field does not match")
  else if negb (bool_decide (pa_PrevRandao attrs = ep_PrevRandao block)) then
    Err (Msg "random field does not match")
  else
    match pa_GasLimit attrs with
    | None => Err (Msg "expected gaslimit in attributes to not be nil")
    | Some gasLimit =>
        if negb (gasLimit =? ep_GasLimit block) then Err (Msg "gas limit does not match")
        else
          let* _ := checkWithdrawals cfg attrs block in
          if negb (pa_SuggestedFeeRecipient attrs =? ep_FeeRecipient block) then
            Err (Msg "fee recipient data does not match")
          else checkEIP1559ParamsMatch opCfg (pa_EIP1559Params attrs) (ep_ExtraData block)
    end.

(** ** The handler *)

Record AttributesHandler : Type := {
  ah_cfg : Config;
  ah_opCfg : option OptimismConfig;
  attributes : option AttributesWithParent;
  sentAttributes : bool }.

Definition NewAttributesHandler (cfg : Config) (opCfg : option OptimismConfig)
    : AttributesHandler :=
  {| ah_cfg := cfg; ah_opCfg := opCfg; attributes := None; sentAttributes := false |}.

Definition with_attributes (eq : AttributesHandler) (a : option AttributesWithParent)
    (sent : bool) : AttributesHandler :=
  {| ah_cfg := ah_cfg eq; ah_opCfg := ah_opCfg eq; attributes := a; sentAttributes := sent |}.

(** [payloadByNumber] is the execution client's [PayloadByNumber]. *)
Definition consolidateNextSafeAttributes (payloadByNumber : Z -> result ExecutionPayloadEnvelope)
    (eq : AttributesHandler) (a : AttributesWithParent) (onto : L2BlockRef)
    : outcome AttributesHandler :=
  match payloadByNumber (l2_Number (Parent a) +u 1) with
  | Panic => None
  | Err err =>
      if errors_Is err NotFound then
        Some (eq, [Eng (ResetEvent
          (Wrap "expected engine was synced and had unsafe block to reconcile, but cannot find the block" err))])
      else Some (eq, [Eng (EngineTemporaryErrorEvent (Some
        (Wrap "failed to get existing unsafe payload to compare against derived attributes from L1" err)))])
  | Ok envelope =>
      match AttributesMatchBlock (ah_cfg eq) (ah_opCfg eq) (Attributes a) (l2_Hash onto) envelope with
      | Panic => None
      | Err _ => Some (with_attributes eq (attributes eq) true, [Eng (BuildStartEvent a)])
      | Ok _ =>
          let (cfg, r) := PayloadToBlockRef (ah_cfg eq) (env_ExecutionPayload envelope) in
          let eq := {| ah_cfg := cfg; ah_opCfg := ah_opCfg eq; attributes := attributes eq;
                       sentAttributes := sentAttributes eq |} in
          match r with
          | Panic => None
          | Err _ => Some (eq, [])
          | Ok ref => Some (eq, [Eng (PromotePendingSafeEvent ref (Concluding a))])
          end
      end
  end.

Definition onPendingSafeUpdate (payloadByNumber : Z -> result ExecutionPayloadEnvelope)
    (eq : AttributesHandler) (pendingSafe unsafe : L2BlockRef) : outcome AttributesHandler :=
  if l2_Number unsafe <? l2_Number pendingSafe then
    Some (eq, [Eng (ResetEvent
      (Msg "pending-safe label may not be ahead of unsafe head label"))])
  else
    match attributes eq with
    | None => Some (with_attributes eq None false, [PipelineStepEvent pendingSafe])
    | Some a =>
        if negb (l2_Number (Parent a) =? l2_Number pendingSafe) then
          Some (with_attributes eq None false, [PipelineStepEvent pendingSafe])
        else if sentAttributes eq then Some (eq, [])
        else if negb (bool_decide (Parent a = pendingSafe)) then
          Some (eq, [Eng (ResetEvent
            (Msg "pending safe head changed, conflicting with queued safe attributes"))])
        else if l2_Number pendingSafe <? l2_Number unsafe then
          consolidateNextSafeAttributes payloadByNumber eq a pendingSafe
        else Some (with_attributes eq (Some a) true, [Eng (BuildStartEvent a)])
    end.

Definition AttributesHandler_OnEvent (payloadByNumber : Z -> result ExecutionPayloadEnvelope)
    (eq : AttributesHandler) (ev : NodeEvent) : option (outcome AttributesHandler) :=
  match ev with
  | Eng (PendingSafeUpdateEvent pendingSafe unsafe) =>
      Some (onPendingSafeUpdate payloadByNumber eq pendingSafe unsafe)
  | DerivedAttributesEvent a =>
      Some (Some (with_attributes eq (Some a) false,
                  [ConfirmReceivedAttributesEvent; Eng PendingSafeRequestEvent]))
  | Eng (ResetEvent _) | Eng (ForceResetEvent _) => Some (Some (with_attributes eq None false, []))
  | Eng (EngineTemporaryErrorEvent _) =>
      Some (Some (with_attributes eq (attributes eq) false, []))
  | Eng (InvalidPayloadAttributesEvent _ _) =>
      Some (Some (with_attributes eq None false, [Eng PendingSafeRequestEvent]))
  | Eng (PayloadSealExpiredErrorEvent _ _ _) =>
      Some (Some (with_attributes eq (attributes eq) false, []))
  | Eng (PayloadSealInvalidEvent _ _ _) =>
      Some (Some (with_attributes eq None false, [Eng PendingSafeRequestEvent]))
  | _ => None
  end.

(** ** What a match means *)

(** The declarative rules of a block that matches its attributes. *)
Record withdrawals_match (cfg : Config) (attrs : PayloadAttributes) (block : ExecutionPayload)
    : Prop := {
  wm_canyon : IsCanyon cfg (ep_Timestamp block) = true ->
    ep_Withdrawals block = Some [] /\ pa_Withdrawals attrs = Some [];
  wm_root : IsCanyon cfg (ep_Timestamp block) = true ->
    IsIsthmus cfg (ep_Timestamp block) = false ->
    forall root, ep_WithdrawalsRoot block = Some root -> root = EmptyWithdrawalsHash;
  wm_bedrock : IsCanyon cfg (ep_Timestamp block) = false -> pa_Withdrawals attrs = None;
  wm_isthmus : IsIsthmus cfg (ep_Timestamp block) = true -> ep_WithdrawalsRoot block <> None }.

Lemma checkWithdrawals_Ok cfg attrs block :
  checkWithdrawals cfg attrs block = Ok () <-> withdrawals_match cfg attrs block.
Proof.
  unfold checkWithdrawals. split.
  - intros ([] & H & H2)%rbind_Ok.
    destruct (IsCanyon _ _) eqn:Ec, (IsIsthmus _ _) eqn:Ei; simpl in *;
      repeat case_bool_decide; simpl in *; try done;
      constructor; rewrite ?Ec, ?Ei; intros; try done; repeat case_match; simplify_eq/=; try done.
    by apply Z.eqb_eq, negb_false_iff.
  - intros [H1 H2 H3 H4]. destruct (IsCanyon _ _) eqn:Ec, (IsIsthmus _ _) eqn:Ei; simpl.
    + destruct H1 as [-> ->]; [done|]. rewrite !bool_decide_eq_true_2 by done. simpl.
      by rewrite bool_decide_eq_false_2 by auto.
    + destruct H1 as [-> ->]; [done|]. rewrite !bool_decide_eq_true_2 by done. simpl.
      destruct (ep_WithdrawalsRoot block) as [root|]; simpl; [|done].
      rewrite (H2 eq_refl eq_refl root eq_refl). by rewrite Z.eqb_refl.
    + rewrite H3 by done. simpl. by rewrite bool_decide_eq_false_2 by auto.
    + by rewrite H3.
Qed.

(** The parameters the execution layer uses for decoded attributes: zero
    stands for the constants of the chain. *)
Definition effective (opCfg : option OptimismConfig) (p : Z * Z) : option (Z * Z) :=
  if p.1 =? 0 then op ← opCfg; d ← EIP1559DenominatorCanyon op; Some (d, EIP1559Elasticity op)
  else Some p.

Definition eip1559_match (opCfg : option OptimismConfig) (params : option bytes) (extra : bytes)
    : Prop :=
  match params with
  | None => extra = []
  | Some p => ValidateHolocene1559Params p = Ok () /\ ValidateHoloceneExtraData extra = Ok ()
      /\ effective opCfg (DecodeHolocene1559Params p) = Some (DecodeHoloceneExtraData extra)
  end.

Lemma checkEIP1559_Ok opCfg params extra :
  checkEIP1559ParamsMatch opCfg params extra = Ok () <-> eip1559_match opCfg params extra.
Proof.
  unfold checkEIP1559ParamsMatch, eip1559_match, effective.
  destruct params as [p|]; [|by destruct extra].
  destruct (ValidateHolocene1559Params p) as [[]| |]; [|naive_solver..].
  destruct (ValidateHoloceneExtraData extra) as [[]| |]; [|naive_solver..]. cbn [map_err rbind].
  destruct (DecodeHolocene1559Params p) as [ad ae], (DecodeHoloceneExtraData extra) as [bd be].
  cbn [fst]. destruct (ad =? 0).
  - destruct opCfg as [op|]; simpl; [|naive_solver].
    destruct (EIP1559DenominatorCanyon op) as [d|]; simpl; [|naive_solver].
    destruct (Z.eqb_spec d bd), (Z.eqb_spec (EIP1559Elasticity op) be); simpl; naive_solver.
  - cbn [rbind]. destruct (Z.eqb_spec ad bd), (Z.eqb_spec ae be); simpl; naive_solver.
Qed.

(** [AttributesMatchBlock] accepts a block exactly when its parent hash,
    timestamp, randao value, gas limit and fee recipient are those of the
    attributes, the withdrawals follow the rules of the active forks, and the
    block's EIP-1559 parameters are the effective ones of the attributes.
    Transactions are not compared, nor is the parent beacon block root. *)
Theorem AttributesMatchBlock_spec cfg opCfg attrs parentHash envelope :
  let block := env_ExecutionPayload envelope in
  AttributesMatchBlock cfg opCfg attrs parentHash envelope = Ok ()
  <-> ep_ParentHash block = parentHash /\ ep_Timestamp block = pa_Timestamp attrs
      /\ ep_PrevRandao block = pa_PrevRandao attrs
      /\ pa_GasLimit attrs = Some (ep_GasLimit block)
      /\ ep_FeeRecipient block = pa_SuggestedFeeRecipient attrs
      /\ withdrawals_match cfg attrs block
      /\ eip1559_match opCfg (pa_EIP1559Params attrs) (ep_ExtraData block).
Proof.
  cbv zeta. unfold AttributesMatchBlock.
  destruct (Z.eqb_spec parentHash (ep_ParentHash (env_ExecutionPayload envelope)));
    cbn [negb]; [|naive_solver].
  destruct (Z.eqb_spec (pa_Timestamp attrs) (ep_Timestamp (env_ExecutionPayload envelope)));
    cbn [negb]; [|naive_solver].
  case_bool_decide; cbn [negb]; [|naive_solver].
  destruct (pa_GasLimit attrs) as [gl|]; [|naive_solver].
  destruct (Z.eqb_spec gl (ep_GasLimit (env_ExecutionPayload envelope)));
    cbn [negb]; [subst gl|naive_solver].
  rewrite rbind_Ok. rewrite <- checkWithdrawals_Ok, <- checkEIP1559_Ok.
  destruct (Z.eqb_spec (pa_SuggestedFeeRecipient attrs)
              (ep_FeeRecipient (env_ExecutionPayload envelope))); cbn [negb].
  - split; [intros ([] & H1 & H2); naive_solver|]. intros (? & ? & ? & ? & ? & ? & ?). by exists ().
  - split; [by intros (? & ? & ?)|naive_solver].
Qed.

(** ** The handler's decisions *)

Lemma AttributesMatchBlock_match cfg opCfg attrs parentHash envelope :
  AttributesMatchBlock cfg opCfg attrs parentHash envelope = Ok () ->
  AttributesMatchBlock cfg opCfg attrs parentHash envelope = Ok ()
  /\ ep_ParentHash (env_ExecutionPayload envelope) = parentHash.
Proof.
  intros H. split; [done|]. unfold AttributesMatchBlock in H.
  by destruct (Z.eqb_spec parentHash (ep_ParentHash (env_ExecutionPayload envelope))).
Qed.

(** On a pending-safe update the handler emits at most one event; it starts
    building only stored attributes that were not sent yet and whose parent is
    the pending-safe head, and marks them as sent; it promotes only the block
    that the engine has on top of the pending-safe head, when it matches the
    stored attributes; and it asks the pipeline for attributes only when it
    keeps none. *)
Theorem onPendingSafeUpdate_safety pbn eq ps un eq' evs :
  onPendingSafeUpdate pbn eq ps un = Some (eq', evs) ->
  (length evs <= 1)%nat
  /\ (forall a, Eng (BuildStartEvent a) ∈ evs ->
       attributes eq = Some a /\ sentAttributes eq = false /\ Parent a = ps
       /\ l2_Number ps <= l2_Number un /\ attributes eq' = Some a /\ sentAttributes eq' = true)
  /\ (forall ref c, Eng (PromotePendingSafeEvent ref c) ∈ evs ->
       exists a env, attributes eq = Some a /\ sentAttributes eq = false /\ Parent a = ps
         /\ l2_Number ps < l2_Number un /\ pbn (l2_Number ps +u 1) = Ok env
         /\ AttributesMatchBlock (ah_cfg eq) (ah_opCfg eq) (Attributes a) (l2_Hash ps) env = Ok ()
         /\ l2_Hash ref = ep_BlockHash (env_ExecutionPayload env)
         /\ l2_ParentHash ref = l2_Hash ps /\ c = Concluding a)
  /\ (forall h, PipelineStepEvent h ∈ evs -> h = ps /\ attributes eq' = None).
Proof.
  unfold onPendingSafeUpdate, consolidateNextSafeAttributes.
  destruct (Z.ltb_spec (l2_Number un) (l2_Number ps)); [intros [= <- <-]; set_solver|].
  destruct (attributes eq) as [a|] eqn:Ea; [|intros [= <- <-]; set_solver].
  destruct (Z.eqb_spec (l2_Number (Parent a)) (l2_Number ps)) as [En|]; cbn [negb];
    [|intros [= <- <-]; set_solver].
  destruct (sentAttributes eq) eqn:Es; [intros [= <- <-]; set_solver|].
  case_bool_decide as Ep; cbn [negb]; [|intros [= <- <-]; set_solver].
  destruct (Z.ltb_spec (l2_Number ps) (l2_Number un)) as [Hlt|];
    [|intros [= <- <-]; split_and!; [done|..]; intros; set_solver].
  rewrite En. destruct (pbn (l2_Number ps +u 1)) as [env|err|] eqn:Epb; [| |done].
  2:{ by destruct (errors_Is err NotFound); intros [= <- <-]; set_solver. }
  destruct (AttributesMatchBlock _ _ _ _ _) as [[]|err|] eqn:Em; [| |done].
  2:{ intros [= <- <-]. split_and!; [done|..]; intros; set_solver. }
  unfold PayloadToBlockRef. intros [= <- <-].
  split_and!; [done|set_solver| |set_solver].
  intros ref c [= -> ->]%list_elem_of_singleton. exists a, env.
  apply AttributesMatchBlock_match in Em as [Em Hpar]. by split_and!.
Qed.

(** The attributes with other transactions and another beacon root. *)
Definition with_payload (a : AttributesWithParent) (txs : list bytes) (root : option Hash)
    : AttributesWithParent :=
  {| Attributes := {| pa_Timestamp := pa_Timestamp (Attributes a);
                      pa_PrevRandao := pa_PrevRandao (Attributes a);
                      pa_SuggestedFeeRecipient := pa_SuggestedFeeRecipient (Attributes a);
                      pa_Withdrawals := pa_Withdrawals (Attributes a);
                      pa_ParentBeaconBlockRoot := root; pa_Transactions := txs;
                      pa_NoTxPool := pa_NoTxPool (Attributes a);
                      pa_GasLimit := pa_GasLimit (Attributes a);
                      pa_EIP1559Params := pa_EIP1559Params (Attributes a) |};
     Parent := Parent a; Concluding := Concluding a |}.

(** Consolidation does not look at transactions: when the unsafe block on
    top of the pending-safe head matches the stored attributes, it is promoted
    to pending-safe also if the attributes demand any other transactions or
    parent beacon block root than the block has. *)
Theorem consolidation_ignores_transactions pbn eq a ps un env txs root :
  attributes eq = Some a -> sentAttributes eq = false -> Parent a = ps ->
  l2_Number ps < l2_Number un -> pbn (l2_Number ps +u 1) = Ok env ->
  AttributesMatchBlock (ah_cfg eq) (ah_opCfg eq) (Attributes a) (l2_Hash ps) env = Ok () ->
  exists eq' ref,
    onPendingSafeUpdate pbn (with_attributes eq (Some (with_payload a txs root)) false) ps un
    = Some (eq', [Eng (PromotePendingSafeEvent ref (Concluding a))])
    /\ l2_Hash ref = ep_BlockHash (env_ExecutionPayload env).
Proof.
  intros Ha Hs <- Hlt Hp Hm. unfold onPendingSafeUpdate, consolidateNextSafeAttributes. simpl.
  rewrite (proj2 (Z.ltb_ge _ _)) by lia. rewrite Z.eqb_refl. cbn [negb].
  rewrite bool_decide_eq_true_2 by done. cbn [negb]. rewrite (proj2 (Z.ltb_lt _ _)) by done.
  rewrite Hp.
  match goal with |- context [AttributesMatchBlock ?c ?o ?x ?h ?e] =>
    change (AttributesMatchBlock c o x h e)
      with (AttributesMatchBlock (ah_cfg eq) (ah_opCfg eq) (Attributes a) (l2_Hash (Parent a)) env)
  end.
  rewrite Hm. unfold PayloadToBlockRef. eexists _, _. split; [reflexivity|done].
Qed.

(** ** At most one build per attributes *)

(** The events that allow a build: new attributes, or a temporary failure of
    the engine. *)
Definition enables (ev : NodeEvent) : bool :=
  match ev with
  | DerivedAttributesEvent _ | Eng (EngineTemporaryErrorEvent _)
  | Eng (PayloadSealExpiredErrorEvent _ _ _) => true
  | _ => false
  end.

Definition is_build (ev : NodeEvent) : bool :=
  match ev with Eng (BuildStartEvent _) => true | _ => false end.

(** The execution client's answers may change from event to event. *)
Fixpoint handler_run (eq : AttributesHandler)
    (evs : list ((Z -> result ExecutionPayloadEnvelope) * NodeEvent))
    : outcome AttributesHandler :=
  match evs with
  | [] => Some (eq, [])
  | (pbn, ev) :: rest =>
      match AttributesHandler_OnEvent pbn eq ev with
      | None => handler_run eq rest
      | Some None => None
      | Some (Some (eq', out)) => '(eq'', outs) ← handler_run eq' rest; Some (eq'', out ++ outs)
      end
  end.

(** Attributes that wait to be sent. *)
Definition waiting (eq : AttributesHandler) : nat :=
  match attributes eq with Some _ => if sentAttributes eq then 0 else 1 | None => 0 end.

Lemma handler_potential pbn eq ev eq' out :
  AttributesHandler_OnEvent pbn eq ev = Some (Some (eq', out)) ->
  (count is_build out + waiting eq' <= waiting eq + Nat.b2n (enables ev))%nat.
Proof.
  destruct ev as [x| | | | | | | | | | | | | | | | | | | | | | |]; try done.
  - destruct x; try done; cbn [AttributesHandler_OnEvent];
      try (intros [= <- <-]; unfold waiting; simpl; destruct (attributes eq); simpl; lia).
    unfold onPendingSafeUpdate, consolidateNextSafeAttributes, waiting. intros H.
    destruct (attributes eq) as [a|] eqn:Ea, (sentAttributes eq) eqn:Es;
      repeat (case_match; simplify_eq/=); rewrite ?Ea, ?Es; simpl in *; simplify_eq/=; lia.
  - cbn [AttributesHandler_OnEvent]. intros [= <- <-]. unfold waiting. simpl. lia.
Qed.

(** Whatever events the handler sees and whatever the engine answers, it
    starts at most one build for every set of attributes it receives and
    every temporary engine failure. *)
Theorem builds_bounded cfg opCfg evs eq out :
  handler_run (NewAttributesHandler cfg opCfg) evs = Some (eq, out) ->
  (count is_build out <= count enables evs.*2)%nat.
Proof.
  assert (forall eq0, handler_run eq0 evs = Some (eq, out) ->
    count is_build out + waiting eq <= waiting eq0 + count enables evs.*2)%nat as Hgen.
  { revert out. induction evs as [|[pbn ev] evs IH]; intros out eq0 H.
    { injection H as <- <-. simpl. lia. }
    cbn [handler_run] in H. rewrite fmap_cons. cbn [snd].
    change (ev :: evs.*2) with ([ev] ++ evs.*2). rewrite count_app.
    assert (count enables [ev] = Nat.b2n (enables ev)) as ->
      by (unfold count; simpl; by destruct (enables ev)).
    destruct (AttributesHandler_OnEvent pbn eq0 ev) as [[[eq1 out1]|]|] eqn:E; [|done|].
    - destruct (handler_run eq1 evs) as [[eq2 outs]|] eqn:Er; [|done]. simpl in H.
      injection H as <- <-. apply IH in Er. apply handler_potential in E. rewrite count_app. lia.
    - apply IH in H. lia. }
  intros H. apply Hgen in H. unfold waiting in H at 2. simpl in H. lia.
Qed.

End Handler.

(** ** Witnesses *)

(** A codec of two 4-byte numbers. *)
Definition ex_eip : EIP1559 :=
  {| ValidateHoloceneExtraData e := if decide (length e = 9%nat) then Ok () else Err EOF;
     DecodeHoloceneExtraData e := (be_decode (slice 1 5 e), be_decode (slice 5 9 e));
     EncodeHolocene1559Params d e := be_encode 4 d ++ be_encode 4 e |}.

Definition ex_eip_attrs : EIP1559Attributes :=
  {| ValidateHolocene1559Params p := if decide (length p = 8%nat) then Ok () else Err EOF;
     DecodeHolocene1559Params p := (be_decode (slice 0 4 p), be_decode (slice 4 8 p)) |}.

Definition ex_op : OptimismConfig :=
  {| EIP1559Elasticity := 6; EIP1559DenominatorCanyon := Some 250 |}.

(** Attributes on block 1 of time 138, after Holocene, and a matching block
    with other transactions. *)
Definition ex_attributes : AttributesWithParent :=
  {| Attributes := {| pa_Timestamp := 140; pa_PrevRandao := replicate 32 0;
                      pa_SuggestedFeeRecipient := 7; pa_Withdrawals := Some [];
                      pa_ParentBeaconBlockRoot := None; pa_Transactions := [[126; 1]];
                      pa_NoTxPool := true; pa_GasLimit := Some 30000000;
                      pa_EIP1559Params := Some (replicate 8 0) |};
     Parent := example_block 138; Concluding := true |}.

Definition ex_block2 : ExecutionPayloadEnvelope :=
  {| ParentBeaconBlockRoot := None;
     env_ExecutionPayload :=
       {| ep_ParentHash := 5; ep_FeeRecipient := 7; ep_StateRoot := 0; ep_ReceiptsRoot := 0;
          ep_LogsBloom := []; ep_PrevRandao := replicate 32 0; ep_BlockNumber := 2;
          ep_GasLimit := 30000000; ep_GasUsed := 0; ep_Timestamp := 140;
          ep_ExtraData := 0 :: be_encode 4 250 ++ be_encode 4 6; ep_BaseFeePerGas := 0;
          ep_BlockHash := 6; ep_Transactions := [[2; 9]]; ep_Withdrawals := Some [];
          ep_BlobGasUsed := None; ep_ExcessBlobGas := None; ep_WithdrawalsRoot := None |} |}.

Definition ex_handler : AttributesHandler :=
  with_attributes (NewAttributesHandler example_config (Some ex_op)) (Some ex_attributes) false.

Definition ex_unsafe2 : L2BlockRef :=
  {| l2_Hash := 6; l2_Number := 2; l2_ParentHash := 5; l2_Time := 140;
     l2_L1Origin := zeroBlockID; l2_SequenceNumber := 0 |}.

Lemma onPendingSafeUpdate_safety_witness :
  exists eq' ref, @onPendingSafeUpdate ex_eip ex_eip_attrs (fun _ => Ok ex_block2) ex_handler
                    (example_block 138) ex_unsafe2
                  = Some (eq', [Eng (PromotePendingSafeEvent ref true)])
    /\ l2_ParentHash ref = l2_Hash (example_block 138).
Proof.
  eexists _, _. split; [vm_compute; reflexivity|].
  edestruct (@onPendingSafeUpdate_safety ex_eip ex_eip_attrs (fun _ => Ok ex_block2) ex_handler
    (example_block 138) ex_unsafe2) as (_ & _ & H & _).
  - vm_compute. reflexivity.
  - edestruct (H) as (a & env & _ & _ & _ & _ & _ & _ & _ & Hp & _); [by left|exact Hp].
Defined.

Lemma consolidation_ignores_transactions_witness :
  exists eq' ref,
    @onPendingSafeUpdate ex_eip ex_eip_attrs (fun _ => Ok ex_block2)
      (with_attributes ex_handler (Some (with_payload ex_attributes [[126; 1]; [2; 2]] (Some 4))) false)
      (example_block 138) ex_unsafe2
    = Some (eq', [Eng (PromotePendingSafeEvent ref true)]) /\ l2_Hash ref = 6.
Proof.
  apply (@consolidation_ignores_transactions ex_eip ex_eip_attrs (fun _ => Ok ex_block2) ex_handler
    ex_attributes (example_block 138) ex_unsafe2 ex_block2); vm_compute; reflexivity.
Defined.

Lemma builds_bounded_witness :
  exists eq out, @handler_run ex_eip ex_eip_attrs
      (NewAttributesHandler example_config (Some ex_op))
      [(fun _ => Err NotFound, DerivedAttributesEvent ex_attributes);
       (fun _ => Err NotFound, Eng (PendingSafeUpdateEvent (example_block 138) (example_block 138)));
       (fun _ => Err NotFound, Eng (PendingSafeUpdateEvent (example_block 138) (example_block 138)))]
    = Some (eq, out) /\ count is_build out = 1%nat /\ (count is_build out <= 1)%nat.
Proof.
  eexists _, _. split; [vm_compute; reflexivity|]. split; [reflexivity|].
  refine (@builds_bounded ex_eip ex_eip_attrs example_config (Some ex_op)
    [(fun _ => Err NotFound, DerivedAttributesEvent ex_attributes);
     (fun _ => Err NotFound, Eng (PendingSafeUpdateEvent (example_block 138) (example_block 138)));
     (fun _ => Err NotFound, Eng (PendingSafeUpdateEvent (example_block 138) (example_block 138)))]
    _ _ _). vm_compute. reflexivity.
Defined.
