(* ===== verification/PipelineDeriver.v ===== *)
(** * The derivation deriver

    Models [rhs-node/rollup/derive/deriver.go]: the event handler around the
    derivation pipeline, with the handshake that keeps at most one set of
    attributes in flight and the classification of the pipeline's errors. *)

From S2P Require Import Prelude EthTypes RollupConfig Pipeline Engine NodeEvents.

(** What a step reads: the execution client, the upgrade transactions and the
    clock. *)
Record StepInputs : Type := {
  in_l2 : L2Source;
  in_up : UpgradeTxs;
  in_clock : Clock }.

Record PipelineDeriver : Type := {
  pipeline : DerivationPipeline;
  needAttributesConfirmation : bool }.

Definition NewPipelineDeriver (dp : DerivationPipeline) : PipelineDeriver :=
  {| pipeline := dp; needAttributesConfirmation := false |}.

Definition with_pipeline (d : PipelineDeriver) (dp : DerivationPipeline) : PipelineDeriver :=
  {| pipeline := dp; needAttributesConfirmation := needAttributesConfirmation d |}.

Definition emitDerivedAttributesEvent (d : PipelineDeriver) (a : AttributesWithParent)
    : PipelineDeriver * list NodeEvent :=
  ({| pipeline := pipeline d; needAttributesConfirmation := true |}, [DerivedAttributesEvent a]).

(** The events for an error of a step, in the order of the tests. *)
Definition step_error_events (d : PipelineDeriver) (pendingSafe : L2BlockRef) (err : error)
    : list NodeEvent :=
  if bool_decide (err = EOF) then
    [DeriverIdleEvent (dp_origin (pipeline d)); ExhaustedL1Event (dp_origin (pipeline d)) pendingSafe]
  else if errors_Is err EngineELSyncing then [DeriverIdleEvent (dp_origin (pipeline d))]
  else if Error_Is err LevelReset then [Eng (ResetEvent err)]
  else if Error_Is err LevelTemporary then [Eng (EngineTemporaryErrorEvent (Some err))]
  else if Error_Is err LevelCritical then [Eng (CriticalErrorEvent err)]
  else if errors_Is err NotEnoughData then [DeriverMoreEvent]
  else [Eng (EngineTemporaryErrorEvent (Some err))].

Definition onPipelineStep (inp : StepInputs) (d : PipelineDeriver) (pendingSafe : L2BlockRef)
    : outcome PipelineDeriver :=
  if needAttributesConfirmation d then Some (d, [])
  else
    let preOrigin := dp_origin (pipeline d) in
    let (dp, r) := Step (in_l2 inp) (in_up inp) (in_clock inp) (pipeline d) pendingSafe in
    let d := with_pipeline d dp in
    let postOrigin := dp_origin dp in
    let status := if bool_decide (preOrigin <> postOrigin)
                  then [DeriverL1StatusEvent postOrigin pendingSafe] else [] in
    match r with
    | Panic => None
    | Err err => Some (d, status ++ step_error_events d pendingSafe err)
    | Ok (Some a) =>
        let (d, evs) := emitDerivedAttributesEvent d a in Some (d, status ++ evs)
    | Ok None => Some (d, status ++ [DeriverMoreEvent])
    end.

Definition PipelineDeriver_OnEvent (inp : StepInputs) (d : PipelineDeriver) (ev : NodeEvent)
    : option (outcome PipelineDeriver) :=
  match ev with
  | Eng (ForceResetEvent _) => Some (Some (with_pipeline d (Pipeline_Reset (pipeline d)), []))
  | PipelineStepEvent pendingSafe => Some (onPipelineStep inp d pendingSafe)
  | ConfirmPipelineResetEvent =>
      Some (Some (with_pipeline d (ConfirmEngineReset (pipeline d)), []))
  | ConfirmReceivedAttributesEvent =>
      Some (Some ({| pipeline := pipeline d; needAttributesConfirmation := false |}, []))
  | DepositsOnlyPayloadAttributesRequestEvent parent _ =>
      Some (let (dp, r) := Pipeline_DepositsOnlyAttributes (pipeline d) parent in
            let d := with_pipeline d dp in
            match r with
            | Panic => None
            | Err err =>
                Some (d, [Eng (CriticalErrorEvent (Wrap "deriving deposits-only attributes" err))])
            | Ok a => Some (emitDerivedAttributesEvent d a)
            end)
  | ProvideL1Traversal _ => Some (Some (d, []))
  | _ => None
  end.

(** ** Runs *)

Fixpoint deriver_run (d : PipelineDeriver) (evs : list (StepInputs * NodeEvent))
    : outcome PipelineDeriver :=
  match evs with
  | [] => Some (d, [])
  | (inp, ev) :: rest =>
      match PipelineDeriver_OnEvent inp d ev with
      | None => deriver_run d rest
      | Some None => None
      | Some (Some (d', out)) => '(d'', outs) ← deriver_run d' rest; Some (d'', out ++ outs)
      end
  end.

(** The pipeline of the deriver went through its own operations. *)
Definition deriver_ok (cfg : Config) (d : PipelineDeriver) : Prop := reachable cfg (pipeline d).

(** The events of a chain without L1: the pipeline is never idle and has no L1
    origin that moves, no L1 block is signalled, and nothing resets the
    backoff. *)
Definition quiet (ev : NodeEvent) : Prop :=
  match ev with
  | DeriverIdleEvent _ | ExhaustedL1Event _ _ | DeriverL1StatusEvent _ _ => False
  | ResetStepBackoffEvent => False
  | StepReqEvent resetBackoff => resetBackoff = false
  | L1UnsafeEvent r | L1SafeEvent r | FinalizeL1Event r => r = zeroL1BlockRef
  | _ => True
  end.

Lemma Step_origin l2 up clock dp head : dp_origin (Step l2 up clock dp head).1 = dp_origin dp.
Proof.
  unfold Step. destruct (resetting dp <? num_stages); [destruct (engineIsReset dp); [|done]|].
  - simpl. case_decide as Hd; [|done]. unfold initialReset, map_err, rbind.
    by repeat (case_match; simplify_eq/=).
  - by destruct (NextAttributes _ _ _ _ _ _) as [aq []].
Qed.

(** The errors of a step carry a level; none is an end of input or a syncing
    engine, if the execution client reports none. *)
Definition client_ok (l2 : L2Source) : Prop :=
  (forall h err, SystemConfigByL2Hash l2 h = Err err -> errors_Is err EngineELSyncing = false)
  /\ forall h err, src_L2BlockRefByHash l2 h = Err err -> errors_Is err EngineELSyncing = false.

Definition upgrades_ok (up : UpgradeTxs) : Prop :=
  forall err, EcotoneNetworkUpgradeTransactions up = Err err
    \/ FjordNetworkUpgradeTransactions up = Err err
    \/ IsthmusNetworkUpgradeTransactions up = Err err -> errors_Is err EngineELSyncing = false.

Definition inputs_ok (inp : StepInputs) : Prop := client_ok (in_l2 inp) /\ upgrades_ok (in_up inp).

Lemma errors_Is_Wrap s e : errors_Is (Wrap s e) EngineELSyncing = errors_Is e EngineELSyncing.
Proof. done. Qed.
Lemma errors_Is_Leveled l e :
  errors_Is (Leveled l e) EngineELSyncing = errors_Is e EngineELSyncing.
Proof. done. Qed.

Lemma Prepare_not_syncing cfg l2 up clock parent err : client_ok l2 -> upgrades_ok up ->
  PreparePayloadAttributes cfg l2 up clock parent = Err err ->
  errors_Is err EngineELSyncing = false.
Proof.
  intros [Hc _] Hu. unfold PreparePayloadAttributes, append_upgrade, rbind, map_err. intros H.
  specialize (Hc (l2_Hash parent)).
  repeat (case_match; simplify_eq/=);
    rewrite ?errors_Is_Leveled, ?errors_Is_Wrap; try (by apply Hc); apply Hu; auto.
Qed.

Lemma initialReset_not_syncing l2 dp safe err : client_ok l2 ->
  initialReset l2 dp safe = Err err ->
  errors_Is err EngineELSyncing = false /\ err <> EOF.
Proof.
  intros [Hc _]. unfold initialReset, map_err, rbind. intros H.
  repeat (case_match; simplify_eq/=); (split; [|done]);
    [by eapply Hc|done].
Qed.

Lemma Step_not_syncing inp dp head err : inputs_ok inp ->
  (Step (in_l2 inp) (in_up inp) (in_clock inp) dp head).2 = Err err ->
  errors_Is err EngineELSyncing = false /\ err <> EOF.
Proof.
  intros [Hc Hu]. unfold Step. destruct (resetting dp <? num_stages).
  - destruct (engineIsReset dp); simpl; [|intros [= <-]; done].
    case_decide; simpl; [|done].
    destruct (initialReset _ _ _) as [dp'|e|] eqn:E; simpl; [done| |done].
    intros [= <-]. apply initialReset_not_syncing in E as [E ?]; [|done].
    by rewrite errors_Is_Wrap.
  - unfold NextAttributes, createNextAttributes.
    destruct (PreparePayloadAttributes _ _ _ _ _) as [a|e|] eqn:E; simpl; [done| |done].
    pose proof (Prepare_not_syncing _ _ _ _ _ _ Hc Hu E) as Hn.
    apply Prepare_err in E as (lvl & e' & ->). rewrite Hn. case_decide; [done|].
    intros [= <-]. by rewrite errors_Is_Wrap.
Qed.

Lemma step_error_quiet d p err : errors_Is err EngineELSyncing = false -> err <> EOF ->
  Forall quiet (step_error_events d p err).
Proof.
  intros Hs He. unfold step_error_events. rewrite bool_decide_eq_false_2, Hs by done.
  repeat case_match; by repeat constructor.
Qed.

(** ** The handshake *)

Definition is_derived (ev : NodeEvent) : bool :=
  match ev with DerivedAttributesEvent _ => true | _ => false end.
Definition is_confirm (ev : NodeEvent) : bool :=
  match ev with ConfirmReceivedAttributesEvent => true | _ => false end.
Definition waiting (d : PipelineDeriver) : nat := Nat.b2n (needAttributesConfirmation d).

Lemma step_error_not_derived d p err : count is_derived (step_error_events d p err) = 0%nat.
Proof. unfold step_error_events. by repeat case_match. Qed.

Lemma onPipelineStep_step inp d head d' out :
  dp_inv (pipeline d) -> inputs_ok inp -> onPipelineStep inp d head = Some (d', out) ->
  dp_inv (pipeline d') /\ Forall quiet out
  /\ (count is_derived out + waiting d <= waiting d')%nat.
Proof.
  intros Hinv Hin. unfold onPipelineStep, waiting.
  destruct (needAttributesConfirmation d) eqn:Ew.
  { intros [= <- <-]. rewrite Ew. simpl. split_and!; [done|by constructor|lia]. }
  pose proof (Step_origin (in_l2 inp) (in_up inp) (in_clock inp) (pipeline d) head) as Ho.
  pose proof (Step_inv (in_l2 inp) (in_up inp) (in_clock inp) (pipeline d) head Hinv) as Hi.
  pose proof (fun err => Step_not_syncing inp (pipeline d) head err Hin) as He.
  destruct (Step _ _ _ _ _) as [dp r]. simpl in Ho, Hi, He.
  rewrite Ho, bool_decide_eq_false_2 by (intros Hne; by apply Hne). simpl.
  destruct r as [[a|]|err|]; simpl; intros [= <- <-]; simpl; rewrite ?Ew; simpl.
  - split_and!; [done|by repeat constructor|done].
  - split_and!; [done|by repeat constructor|done].
  - destruct (He err eq_refl) as [Hs Hf]. rewrite step_error_not_derived.
    split_and!; [done|by apply step_error_quiet|done].
Qed.

Lemma DepositsOnly_inv dp parent : dp_inv dp ->
  dp_inv (Pipeline_DepositsOnlyAttributes dp parent).1
  /\ forall a, (Pipeline_DepositsOnlyAttributes dp parent).2 <> Ok a.
Proof.
  intros [Hr He Hp]. unfold Pipeline_DepositsOnlyAttributes, DepositsOnlyAttributes. rewrite Hp.
  split; [|intros a]; repeat (case_match; simplify_eq/=); first [done|by constructor].
Qed.

(** One handled event: what it emits is quiet, and a new set of attributes is
    only emitted by a deriver that did not wait and waits afterwards. *)
Lemma OnEvent_step inp d ev d' out :
  dp_inv (pipeline d) -> inputs_ok inp ->
  PipelineDeriver_OnEvent inp d ev = Some (Some (d', out)) ->
  dp_inv (pipeline d') /\ Forall quiet out
  /\ (count is_derived out + waiting d <= count is_confirm [ev] + waiting d')%nat.
Proof.
  intros Hinv Hin.
  destruct ev as [[]| | | | | | | | | | | |parent from| | | | | | | | | | | ]; try done; simpl.
  - intros [= <- <-]. split_and!; [|by constructor|done]. destruct Hinv. by constructor.
  - intros [= <- <-]. by split_and!; [|constructor|].
  - intros [= <- <-]. unfold waiting; simpl. split_and!; [done|by constructor|].
    unfold count; simpl. destruct (needAttributesConfirmation d); simpl; lia.
  - intros [= <- <-]. split_and!; [|by constructor|done]. destruct Hinv. by constructor.
  - intros [= H]. by apply onPipelineStep_step in H.
  - destruct (DepositsOnly_inv (pipeline d) parent Hinv) as [Hi Hno].
    destruct (Pipeline_DepositsOnlyAttributes _ _) as [dp [a|err|]]; simpl in *; [by destruct (Hno a)| |done].
    intros [= <- <-]. split_and!; [done|by repeat constructor|done].
Qed.

(** Over any sequence of events, in any order, the derivation deriver hands
    out a new set of attributes only after the previous one was confirmed:
    the sets emitted are at most one more than the confirmations received,
    and exactly that many only when it waits at the end.  It never
    reports to be idle, to have exhausted L1 or a move of the L1 origin, when
    the execution client does not report to be syncing. *)
Theorem deriver_handshake cfg evs d out :
  Forall (fun p => inputs_ok p.1) evs ->
  deriver_run (NewPipelineDeriver (NewDerivationPipeline cfg)) evs = Some (d, out) ->
  (count is_derived out <= count is_confirm evs.*2 + waiting d)%nat /\ Forall quiet out.
Proof.
  assert (forall d0, dp_inv (pipeline d0) -> Forall (fun p => inputs_ok p.1) evs ->
    deriver_run d0 evs = Some (d, out) ->
    (count is_derived out + waiting d0 <= count is_confirm evs.*2 + waiting d)%nat
    /\ Forall quiet out) as Hgen; [|intros Hin Hrun; apply Hgen in Hrun; [|by constructor|done];
      unfold waiting at 1 in Hrun; simpl in Hrun; by rewrite Nat.add_0_r in Hrun].
  revert out. induction evs as [|[inp ev] evs IH]; intros out d0 Hinv Hin.
  { intros [= <- <-]. by split; [|constructor]. }
  inversion_clear Hin as [|? ? Hi Hrest].
  pose proof (count_app is_confirm [ev] evs.*2) as Hcount.
  change ([ev] ++ evs.*2) with (((inp, ev) :: evs).*2) in Hcount.
  cbn [deriver_run].
  destruct (PipelineDeriver_OnEvent inp d0 ev) as [[[d1 o]|]|] eqn:E; [|done|].
  - apply OnEvent_step in E as (Hd1 & Hq & Hc); [|done|done].
    destruct (deriver_run d1 evs) as [[d2 o2]|] eqn:E2; [|done]. cbn [mbind option_bind]. intros [= -> <-].
    destruct (IH o2 d1 Hd1 Hrest E2) as [Hc2 Hq2]. rewrite count_app.
    split; [|by apply Forall_app]. rewrite Hcount. lia.
  - intros Hrun. destruct (IH out d0 Hinv Hrest Hrun). split; [|done]. rewrite Hcount. lia.
Qed.

(** ** Witness *)

Definition ex_inputs : StepInputs :=
  {| in_l2 := ex_source; in_up := ex_upgrades; in_clock := ex_clock 110 |}.

Lemma ex_inputs_ok : inputs_ok ex_inputs.
Proof.
  split; [by split|]. by intros err [H|[H|H]].
Qed.

(** Two sets of attributes, with one confirmation between them: the last step
    before the confirmation gives nothing. *)
Definition ex_deriver_events : list NodeEvent :=
  [ConfirmPipelineResetEvent; PipelineStepEvent (example_block 108);
   PipelineStepEvent (example_block 108); PipelineStepEvent (example_block 108);
   ConfirmReceivedAttributesEvent; PipelineStepEvent (example_block 108)].

Lemma deriver_handshake_witness :
  exists d out,
    deriver_run (NewPipelineDeriver (NewDerivationPipeline example_config))
      ((fun ev => (ex_inputs, ev)) <$> ex_deriver_events) = Some (d, out)
    /\ count is_derived out = 2%nat /\ waiting d = 1%nat
    /\ (count is_derived out <= 1 + waiting d)%nat /\ Forall quiet out.
Proof.
  destruct (deriver_run _ _) as [[d out]|] eqn:E; [|vm_compute in E; discriminate E].
  exists d, out. split; [reflexivity|].
  assert (count is_derived out = 2%nat /\ waiting d = 1%nat) as [-> ->].
  { assert (option_map (fun p => (count is_derived p.2, waiting p.1)) (Some (d, out))
            = Some (2, 1)%nat) as [= -> ->]; [rewrite <- E; vm_compute; reflexivity|done]. }
  split; [reflexivity|]. split; [reflexivity|].
  destruct (deriver_handshake example_config ((fun ev => (ex_inputs, ev)) <$> ex_deriver_events)
    d out) as [Hc Hq]; [|exact E|].
  - apply Forall_fmap, Forall_forall. intros ev _. exact ex_inputs_ok.
  - split; [lia|exact Hq].
Defined.
