(* ===== verification/StatusTracker.v ===== *)
(** * Status tracking and the L1 head cache

    Models [rhs-node/rollup/status]: the ring buffer (ringbuffer.go), the
    reorg-aware cache of L1 heads on top of it (l1_head_buffer.go), the L1
    tracker that answers from the cache (l1_tracker.go) and the tracker of the
    published sync status (status.go, [rhs-service/eth/sync_status.go]). *)

From S2P Require Import Prelude EthTypes RollupConfig Pipeline Engine NodeEvents.

(** ** The ring buffer

    An index outside the slice panics, and so does the remainder by the length
    of an empty slice: [n mod 0] is [n] here, which is outside an empty list. *)

Record ringbuffer (T : Type) : Type := {
  rb_contents : list T;
  rb_start : nat;
  rb_size : nat }.
Arguments rb_contents {_}.
Arguments rb_start {_}.
Arguments rb_size {_}.

Section RingBuffer.
  Context {T : Type}.
  Implicit Type rb : ringbuffer T.

Definition newRingBuffer (zero : T) (size : nat) : ringbuffer T :=
  {| rb_contents := replicate size zero; rb_start := 0; rb_size := 0 |}.

Definition rb_Len rb : nat := rb_size rb.

(** [rb.contents[i]]; [Ok None] is the pair of the zero value and false. *)
Definition rb_at rb (i : nat) : result (option T) :=
  match rb_contents rb !! i with Some x => Ok (Some x) | None => Panic end.

Definition rb_Get rb (idx : Z) : result (option T) :=
  if (idx <? 0) || (Z.of_nat (rb_size rb) <=? idx) then Ok None
  else rb_at rb ((rb_start rb + Z.to_nat idx) mod length (rb_contents rb)).

Definition rb_Start rb : result (option T) :=
  if (rb_size rb =? 0)%nat then Ok None else rb_at rb (rb_start rb).

Definition rb_End rb : result (option T) :=
  if (rb_size rb =? 0)%nat then Ok None
  else rb_at rb ((rb_start rb + rb_size rb + length (rb_contents rb) - 1)
                 mod length (rb_contents rb)).

Definition rb_Push rb (val : T) : result (ringbuffer T) :=
  let n := length (rb_contents rb) in
  let i := ((rb_start rb + rb_size rb) mod n)%nat in
  if (i <? n)%nat then
    let contents := <[i := val]> (rb_contents rb) in
    Ok (if (rb_size rb =? n)%nat then
          {| rb_contents := contents; rb_start := ((rb_start rb + 1) mod n)%nat;
             rb_size := rb_size rb |}
        else
          {| rb_contents := contents; rb_start := rb_start rb; rb_size := rb_size rb + 1 |})
  else Panic.

Definition rb_Pop rb : result (ringbuffer T * option T) :=
  let* e := rb_End rb in
  Ok (match e with
      | Some _ => {| rb_contents := rb_contents rb; rb_start := rb_start rb;
                     rb_size := rb_size rb - 1 |}
      | None => rb
      end, e).

Definition rb_Reset rb : ringbuffer T :=
  {| rb_contents := rb_contents rb; rb_start := 0; rb_size := 0 |}.

(** ** The ring buffer as a bounded list *)

(** [rb] of capacity [c] holds the list [l], oldest first. *)
Record holds (c : nat) rb (l : list T) : Prop := {
  h_cap : length (rb_contents rb) = c;
  h_start : (rb_start rb < c)%nat;
  h_size : rb_size rb = length l;
  h_bound : (length l <= c)%nat;
  h_at : forall i x, l !! i = Some x -> rb_contents rb !! ((rb_start rb + i) mod c)%nat = Some x }.

(** The newest [c] elements. *)
Definition newest (c : nat) (l : list T) : list T := drop (length l - c) l.

Lemma holds_new c zero : (0 < c)%nat -> holds c (newRingBuffer zero c) [].
Proof. intros Hc. constructor; simpl; rewrite ?length_replicate; [lia..|]. by intros i x. Qed.

Lemma holds_Get c rb l idx : holds c rb l ->
  rb_Get rb idx = Ok (if idx <? 0 then None else l !! Z.to_nat idx).
Proof.
  intros [Hc Hs Hn Hb Hat]. unfold rb_Get. rewrite Hn, Hc.
  destruct (Z.ltb_spec idx 0); [done|]. simpl.
  destruct (Z.leb_spec (Z.of_nat (length l)) idx).
  - by rewrite lookup_ge_None_2 by lia.
  - destruct (lookup_lt_is_Some_2 l (Z.to_nat idx)) as [x Hx]; [lia|].
    unfold rb_at. rewrite (Hat _ _ Hx). by rewrite Hx.
Qed.

Lemma holds_Start c rb l : holds c rb l -> rb_Start rb = Ok (head l).
Proof.
  intros [Hc Hs Hn Hb Hat]. unfold rb_Start. rewrite Hn. destruct l as [|x l]; [done|].
  simpl. unfold rb_at. specialize (Hat 0%nat x eq_refl).
  rewrite Nat.add_0_r, Nat.mod_small in Hat by done. by rewrite Hat.
Qed.

Lemma holds_End c rb l : holds c rb l -> rb_End rb = Ok (last l).
Proof.
  intros [Hc Hs Hn Hb Hat]. unfold rb_End. rewrite Hn, Hc. destruct l as [|x l] using rev_ind; [done|].
  rewrite length_app in *. simpl in *.
  rewrite (proj2 (Nat.eqb_neq _ _)) by lia. rewrite last_snoc. unfold rb_at.
  replace (rb_start rb + (length l + 1) + c - 1)%nat with (rb_start rb + length l + 1 * c)%nat by lia.
  rewrite Nat.Div0.mod_add. by rewrite (Hat (length l) x) by (rewrite lookup_app_r, Nat.sub_diag by done; done).
Qed.

Lemma holds_Reset c rb l : holds c rb l -> holds c (rb_Reset rb) [].
Proof. intros [Hc Hs Hn Hb Hat]. constructor; simpl; [done|lia..|]. by intros i x. Qed.

Lemma holds_Pop c rb l : holds c rb l ->
  exists rb', rb_Pop rb = Ok (rb', last l) /\ holds c rb' (take (length l - 1) l).
Proof.
  intros H. pose proof H as [Hc Hs Hn Hb Hat]. unfold rb_Pop. rewrite (holds_End c rb l H). simpl.
  destruct (last l) as [x|] eqn:El.
  - eexists. split; [done|]. constructor; simpl; [done|done| | |].
    + rewrite Hn, length_take. lia.
    + rewrite length_take. lia.
    + intros i y Hi. apply lookup_take_Some in Hi as [Hi _]. by apply Hat.
  - apply last_None in El as ->. eexists. split; [done|]. done.
Qed.

Lemma mod_inj (c s a b : nat) : (a <= b < a + c)%nat ->
  ((s + a) mod c = (s + b) mod c)%nat -> a = b.
Proof.
  intros [Hle Hlt] He.
  pose proof (Nat.div_mod_eq (s + a) c) as Ha. pose proof (Nat.div_mod_eq (s + b) c) as Hb.
  rewrite He in Ha.
  assert ((s + b) / c = (s + a) / c)%nat; [|nia].
  assert (c * ((s + b) / c) = c * ((s + a) / c) + (b - a))%nat by lia. nia.
Qed.

(** Writing the slot after the last element keeps the others. *)
Lemma slot_keeps c rb l x i y : holds c rb l -> (length l - i < c)%nat -> l !! i = Some y ->
  <[((rb_start rb + length l) mod c)%nat := x]> (rb_contents rb) !! ((rb_start rb + i) mod c)%nat
  = Some y.
Proof.
  intros [Hc Hs Hn Hb Hat] Hd Hy. rewrite list_lookup_insert_ne; [by apply Hat|].
  apply lookup_lt_Some in Hy. intros He. symmetry in He. apply mod_inj in He; lia.
Qed.

Lemma holds_Push c rb l x : holds c rb l ->
  exists rb', rb_Push rb x = Ok rb' /\ holds c rb' (newest c (l ++ [x])).
Proof.
  intros H. pose proof H as [Hc Hs Hn Hb Hat]. unfold rb_Push, newest. rewrite Hn, Hc, length_app. simpl.
  set (i := ((rb_start rb + length l) mod c)%nat).
  assert (i < c)%nat as Hi by (apply Nat.mod_upper_bound; lia).
  assert (<[i:=x]> (rb_contents rb) !! i = Some x) as Hx by (apply list_lookup_insert_eq; lia).
  rewrite (proj2 (Nat.ltb_lt _ _)) by done. eexists. split; [done|].
  destruct (Nat.eqb_spec (length l) c) as [Hf|Hf].
  - replace (length l + 1 - c)%nat with 1%nat by lia.
    constructor; simpl; rewrite ?length_insert; [done|apply Nat.mod_upper_bound; lia| | |].
    1,2: rewrite length_drop, length_app; simpl; lia.
    intros j y. rewrite lookup_drop, Nat.Div0.add_mod_idemp_l.
    replace (rb_start rb + 1 + j)%nat with (rb_start rb + (1 + j))%nat by lia.
    intros [Hy|[Hj Hy]]%lookup_app_Some.
    + eapply slot_keeps; [done|lia|done].
    + apply lookup_lt_Some in Hy as Hlt. simpl in Hlt.
      replace (1 + j - length l)%nat with 0%nat in Hy by lia. injection Hy as <-.
      replace (rb_start rb + (1 + j))%nat with (rb_start rb + length l)%nat by lia. exact Hx.
  - replace (length l + 1 - c)%nat with 0%nat by lia. rewrite drop_0.
    constructor; simpl; rewrite ?length_insert, ?length_app; simpl; [done|done|lia|lia|].
    intros j y [Hy|[Hj Hy]]%lookup_app_Some.
    + eapply slot_keeps; [done| |done]. apply lookup_lt_Some in Hy. lia.
    + apply lookup_lt_Some in Hy as Hlt. simpl in Hlt.
      replace (j - length l)%nat with 0%nat in Hy by lia. injection Hy as <-.
      replace j with (length l) by lia. exact Hx.
Qed.

(** ** Runs of operations *)

Inductive rb_op : Type :=
  | OpGet (idx : Z)
  | OpStart
  | OpEnd
  | OpPush (x : T)
  | OpPop
  | OpReset
  | OpLen.

(** One operation on the buffer and on the list: the new state and the
    element it returns. *)
Definition rb_apply rb (op : rb_op) : result (ringbuffer T * (nat + option T)) :=
  match op with
  | OpGet idx => let* r := rb_Get rb idx in Ok (rb, inr r)
  | OpStart => let* r := rb_Start rb in Ok (rb, inr r)
  | OpEnd => let* r := rb_End rb in Ok (rb, inr r)
  | OpPush x => let* rb := rb_Push rb x in Ok (rb, inr None)
  | OpPop => let* r := rb_Pop rb in Ok (r.1, inr r.2)
  | OpReset => Ok (rb_Reset rb, inr None)
  | OpLen => Ok (rb, inl (rb_Len rb))
  end.

Definition list_apply (c : nat) (l : list T) (op : rb_op) : list T * (nat + option T) :=
  match op with
  | OpGet idx => (l, inr (if idx <? 0 then None else l !! Z.to_nat idx))
  | OpStart => (l, inr (head l))
  | OpEnd => (l, inr (last l))
  | OpPush x => (newest c (l ++ [x]), inr None)
  | OpPop => (take (length l - 1) l, inr (last l))
  | OpReset => ([], inr None)
  | OpLen => (l, inl (length l))
  end.

Fixpoint rb_run rb (ops : list rb_op) : result (list (nat + option T)) :=
  match ops with
  | [] => Ok []
  | op :: ops => let* r := rb_apply rb op in let* rs := rb_run r.1 ops in Ok (r.2 :: rs)
  end.

Fixpoint list_run (c : nat) (l : list T) (ops : list rb_op) : list (nat + option T) :=
  match ops with
  | [] => []
  | op :: ops => let (l, r) := list_apply c l op in r :: list_run c l ops
  end.

Lemma rb_apply_sim c rb l op : holds c rb l ->
  exists rb', rb_apply rb op = Ok (rb', (list_apply c l op).2)
    /\ holds c rb' (list_apply c l op).1.
Proof.
  intros H. destruct op; simpl.
  - rewrite (holds_Get c rb l idx H). by exists rb.
  - rewrite (holds_Start c rb l H). by exists rb.
  - rewrite (holds_End c rb l H). by exists rb.
  - destruct (holds_Push c rb l x H) as (rb' & -> & H'). by exists rb'.
  - destruct (holds_Pop c rb l H) as (rb' & -> & H'). by exists rb'.
  - eexists. split; [done|]. by eapply holds_Reset.
  - exists rb. unfold rb_Len. by rewrite (h_size _ _ _ H).
Qed.

(** The ring buffer refines a list of its newest elements: any sequence of
    operations on a fresh buffer of positive capacity [c] returns, without
    panicking, exactly what the same operations return on a list that is cut
    to its newest [c] elements at each push. *)
Theorem ringbuffer_refines zero c ops : (0 < c)%nat ->
  rb_run (newRingBuffer zero c) ops = Ok (list_run c [] ops).
Proof.
  intros Hc. pose proof (holds_new c zero Hc) as H.
  revert H. generalize (newRingBuffer zero c) as rb, (@nil T) as l.
  induction ops as [|op ops IH]; intros rb l H; simpl; [done|].
  destruct (rb_apply_sim c rb l op H) as (rb' & -> & H'). simpl.
  destruct (list_apply c l op) as [l' r]. by rewrite (IH rb' l' H').
Qed.
End RingBuffer.

(** ** The cache of L1 heads *)

Record l1HeadBuffer : Type := {
  lhb_rb : ringbuffer L1BlockRef;
  minBlockNumber : Z }.

Definition newL1HeadBuffer (size : nat) : l1HeadBuffer :=
  {| lhb_rb := newRingBuffer zeroL1BlockRef size; minBlockNumber := 0 |}.

Definition lhb_get (lhb : l1HeadBuffer) (num : Z) : result (option L1BlockRef) :=
  rb_Get (lhb_rb lhb) (int_of (num -u minBlockNumber lhb)).

(** [for ref, ok = Pop(); ok && ref.Number > n; ref, ok = Pop() {}] *)
Fixpoint pop_loop (fuel : nat) (rb : ringbuffer L1BlockRef) (n : Z)
    : result (ringbuffer L1BlockRef) :=
  match rb_Pop rb with
  | Panic => Panic
  | Err e => Err e
  | Ok (rb, None) => Ok rb
  | Ok (rb, Some ref) =>
      if n <? l1_Number ref then
        match fuel with O => Panic | S f => pop_loop f rb n end
      else Ok rb
  end.

(** The loop pops at most the elements there are. *)
Definition lhb_Insert (lhb : l1HeadBuffer) (l1Head : L1BlockRef) : result l1HeadBuffer :=
  let* parent := lhb_get lhb (l1_Number l1Head -u 1) in
  let* rb :=
    match parent with
    | Some ref =>
        if l1_Hash ref =? l1_ParentHash l1Head then
          let* e := rb_End (lhb_rb lhb) in
          match e with
          | Some ref => if l1_Number l1Head <=? l1_Number ref
                        then pop_loop (rb_Len (lhb_rb lhb)) (lhb_rb lhb) (l1_Number l1Head)
                        else Ok (lhb_rb lhb)
          | None => Ok (lhb_rb lhb)
          end
        else Ok (rb_Reset (lhb_rb lhb))
    | None => Ok (rb_Reset (lhb_rb lhb))
    end in
  let* rb := rb_Push rb l1Head in
  let* start := rb_Start rb in
  Ok {| lhb_rb := rb; minBlockNumber := l1_Number (default zeroL1BlockRef start) |}.

(** ** The L1 tracker *)

Definition NewL1Tracker : l1HeadBuffer := newL1HeadBuffer (Z.to_nat 1000).

(** [None] is an event the tracker does not handle. *)
Definition L1Tracker_OnEvent (st : l1HeadBuffer) (ev : NodeEvent) : option (result l1HeadBuffer) :=
  match ev with
  | L1UnsafeEvent l1Unsafe => Some (lhb_Insert st l1Unsafe)
  | _ => None
  end.

(** [fetch] is the embedded [L1Fetcher]. *)
Definition L1BlockRefByNumber (fetch : Z -> result L1BlockRef) (l : l1HeadBuffer) (num : Z)
    : result L1BlockRef :=
  let* r := lhb_get l num in
  match r with Some ref => Ok ref | None => fetch num end.

(** ** The cache as a chain *)

(** [b] is the child of [a]. *)
Definition child (a b : L1BlockRef) : Prop :=
  l1_Number b = l1_Number a + 1 /\ l1_ParentHash b = l1_Hash a.

(** Block numbers fit an [int], and so do their differences. *)
Definition number_ok (r : L1BlockRef) : Prop := 0 <= l1_Number r < two63.

(** What the cache should hold: the chain up to the new head, if its parent
    is in it, or the head alone; of that, the newest [c] blocks. *)
Definition insert_head (c : nat) (l : list L1BlockRef) (head : L1BlockRef) : list L1BlockRef :=
  match list_find (fun r => child r head) l with
  | Some (i, _) => newest c (take (S i) l ++ [head])
  | None => [head]
  end.

Record cache_inv (c : nat) (lhb : l1HeadBuffer) (l : list L1BlockRef) : Prop := {
  ci_holds : holds c (lhb_rb lhb) l;
  ci_chain : adjacent child l;
  ci_numbers : Forall number_ok l;
  ci_min : forall r, head l = Some r -> minBlockNumber lhb = l1_Number r }.

Lemma chain_number l r i x : adjacent child l -> head l = Some r -> l !! i = Some x ->
  l1_Number x = l1_Number r + Z.of_nat i.
Proof.
  revert r i. induction l as [|a l IH]; intros r i Hc Hh Hi; [done|].
  injection Hh as ->. destruct i as [|i]; [injection Hi as ->; lia|].
  apply adjacent_cons in Hc as [Hl Hc]. destruct l as [|b l]; [done|].
  rewrite (IH b i Hc eq_refl Hi). destruct (Hl b eq_refl) as [-> _]. lia.
Qed.

Lemma adjacent_take {A} (R : A -> A -> Prop) n l : adjacent R l -> adjacent R (take n l).
Proof.
  revert n. induction l as [|a l IH]; intros [|n]; try done. rewrite firstn_cons, !adjacent_cons.
  intros [Ha Hl]. split; [|by apply IH]. intros b. destruct n, l; simpl; try done. apply Ha.
Qed.

Lemma adjacent_drop {A} (R : A -> A -> Prop) n l : adjacent R l -> adjacent R (drop n l).
Proof.
  revert n. induction l as [|a l IH]; intros [|n]; try done. rewrite adjacent_cons.
  intros [_ Hl]. by apply IH.
Qed.

Lemma cache_get c lhb l num : cache_inv c lhb l -> number_ok {| l1_Hash := 0; l1_Number := num;
    l1_ParentHash := 0; l1_Time := 0 |} \/ num = two64 - 1 ->
  exists o, lhb_get lhb num = Ok o /\ forall r, o = Some r <-> r ∈ l /\ l1_Number r = num.
Proof.
  intros [Hh Hc Hn Hm] Hnum. unfold lhb_get. rewrite (holds_Get c _ l _ Hh).
  eexists. split; [done|]. destruct l as [|a l].
  { intros r. rewrite lookup_nil. destruct (_ <? 0); split; [done| |done|];
      intros [?%elem_of_nil _]; done. }
  pose proof (Forall_inv Hn) as Ha. unfold number_ok in *. simpl in Hnum.
  rewrite (Hm a eq_refl). set (m := l1_Number a) in *.
  assert (int_of (num -u m) = if decide (num = two64 - 1) then -1 - m else num - m) as ->.
  { unfold int_of. u64_unfold. unfold two63 in *. case_decide.
    - subst. rewrite (Z.mod_small _ 18446744073709551616) by lia.
      destruct (Z.ltb_spec (18446744073709551616 - 1 - m) 9223372036854775808); lia.
    - destruct (Z.leb_spec m num).
      + rewrite (Z.mod_small _ 18446744073709551616) by lia.
        destruct (Z.ltb_spec (num - m) 9223372036854775808); lia.
      + rewrite <- (Z.mod_add _ 1) by lia. rewrite Z.mod_small by lia.
        destruct (Z.ltb_spec (num - m + 1 * 18446744073709551616) 9223372036854775808); lia. }
  intros r.
  assert (forall i, (a :: l) !! i = Some r -> l1_Number r = m + Z.of_nat i) as Hi
    by (intros i; by apply chain_number).
  assert (r ∈ a :: l -> l1_Number r < two63) as Hlt.
  { intros Hr. by eapply Forall_forall in Hn as [_ ?]. }
  case_decide as Hd.
  - destruct (Z.ltb_spec (-1 - m) 0); [|lia]. split; [done|].
    intros [Hr He]. specialize (Hlt Hr). unfold two63, two64 in *. lia.
  - destruct (Z.ltb_spec (num - m) 0).
    + split; [done|]. intros [[i Hr]%list_elem_of_lookup He]. specialize (Hi i Hr). lia.
    + split.
      * intros Hr. split; [by eapply list_elem_of_lookup_2|]. rewrite (Hi _ Hr). lia.
      * intros [[i Hr]%list_elem_of_lookup He]. specialize (Hi i Hr).
        by replace (Z.to_nat (num - m)) with i by lia.
Qed.

(** Popping until a popped block is not above [n] cuts the chain before
    block [n]. *)
Lemma pop_loop_spec fuel c rb l r n k : holds c rb l -> adjacent child l -> head l = Some r ->
  n = l1_Number r + Z.of_nat k -> (k < length l)%nat -> (length l <= k + 1 + fuel)%nat ->
  exists rb', pop_loop fuel rb n = Ok rb' /\ holds c rb' (take k l).
Proof.
  revert rb l. induction fuel as [|f IH]; intros rb l Hh Hc Hr Hn Hk Hf;
    destruct (holds_Pop c rb l Hh) as (rb' & HP & Hh');
    destruct (last l) as [x|] eqn:El; try (apply last_None in El as ->; simpl in Hk; lia);
    cbn [pop_loop]; rewrite HP;
    pose proof (chain_number l r (pred (length l)) x Hc Hr ltac:(by rewrite <- last_lookup)) as Hx.
  - rewrite (proj2 (Z.ltb_ge _ _)) by lia. exists rb'. split; [done|].
    by replace k with (length l - 1)%nat by lia.
  - destruct (Z.ltb_spec n (l1_Number x)).
    + destruct (IH rb' (take (length l - 1) l)) as (rb2 & -> & H2).
      * done.
      * by apply adjacent_take.
      * destruct l as [|y l]; [done|]. simpl. destruct (length l - 0)%nat eqn:E; [simpl in *; lia|]. done.
      * done.
      * rewrite length_take. lia.
      * rewrite length_take. lia.
      * exists rb2. split; [done|]. rewrite take_take in H2.
        by replace k with (k `min` (length l - 1))%nat by lia.
    + exists rb'. split; [done|]. by replace k with (length l - 1)%nat by lia.
Qed.

Lemma newest_snoc {A} (c : nat) (l : list A) x : (0 < c)%nat ->
  exists l', newest c (l ++ [x]) = l' ++ [x] /\ exists n, l' = drop n l.
Proof.
  intros Hc. unfold newest. rewrite length_app. simpl.
  rewrite drop_app_le by lia. eauto.
Qed.

Lemma child_unique l i j a b head : adjacent child l -> l !! i = Some a -> l !! j = Some b ->
  child a head -> child b head -> i = j.
Proof.
  intros Hc Hi Hj [Ha _] [Hb _]. destruct l as [|r l]; [done|].
  pose proof (chain_number _ r i a Hc eq_refl Hi). pose proof (chain_number _ r j b Hc eq_refl Hj).
  lia.
Qed.

(** The part of an insertion before the push: the buffer is cut to the chain
    of the head's parent. *)
Definition cut (l : list L1BlockRef) (head : L1BlockRef) : list L1BlockRef :=
  match list_find (fun r => child r head) l with Some (i, _) => take (S i) l | None => [] end.

Lemma cut_chain l head : adjacent child l -> adjacent child (cut l head ++ [head]).
Proof.
  intros Hc. unfold cut. destruct (list_find _ l) as [[i x]|] eqn:E; [|done].
  apply list_find_Some in E as (Hx & Hch & _).
  apply adjacent_app. split_and!; [by apply adjacent_take|done|].
  intros a b Ha [= <-]. rewrite (take_S_r _ _ _ Hx), last_snoc in Ha. by injection Ha as <-.
Qed.

Lemma insert_cut c lhb l head : cache_inv c lhb l -> (0 < c)%nat -> number_ok head ->
  exists rb, holds c rb (cut l head)
    /\ lhb_Insert lhb head
       = let* rb := rb_Push rb head in
         let* start := rb_Start rb in
         Ok {| lhb_rb := rb; minBlockNumber := l1_Number (default zeroL1BlockRef start) |}.
Proof.
  intros Hinv Hc Hok. pose proof Hinv as [Hh Hch Hn Hm]. unfold lhb_Insert.
  destruct (cache_get c lhb l (l1_Number head -u 1) Hinv) as (o & -> & Ho).
  { unfold number_ok in *. simpl. unfold two63 in *. u64_unfold.
    destruct (decide (l1_Number head = 0)) as [->|]; [right; done|left].
    rewrite Z.mod_small; lia. }
  assert (forall r, r ∈ l -> child r head <-> o = Some r /\ l1_Hash r = l1_ParentHash head) as Hchild.
  { intros r Hr. rewrite Ho. unfold child. eapply Forall_forall in Hn; [|exact Hr].
    unfold number_ok, two63 in *. u64_unfold. split.
    - intros [-> ->]. split_and!; [done| |done]. rewrite Z.mod_small; lia.
    - intros [[_ He] ->]. split; [|done]. clear - He Hn Hok.
      destruct (decide (l1_Number head = 0)) as [E|].
      + rewrite E in He. change (l1_Number r = 18446744073709551615) in He. lia.
      + rewrite Z.mod_small in He; lia. }
  cbn [rbind]. unfold cut. destruct (list_find _ l) as [[i x]|] eqn:E.
  - apply list_find_Some in E as (Hx & Hxc & _).
    assert (x ∈ l) as Hxl by (by eapply list_elem_of_lookup_2).
    apply (Hchild x Hxl) in Hxc as Hox. destruct Hox as [-> Hhash].
    rewrite (proj2 (Z.eqb_eq _ _)) by done. rewrite (holds_End c _ l Hh). cbn [rbind].
    destruct l as [|r l']; [done|]. set (l := r :: l') in *.
    destruct (last l) as [e|] eqn:El; [|by apply last_None in El].
    pose proof (chain_number l r (pred (length l)) e Hch eq_refl ltac:(by rewrite <- last_lookup)) as He.
    pose proof (chain_number l r i x Hch eq_refl Hx) as Hxn. destruct Hxc as [Hxn' _].
    apply lookup_lt_Some in Hx as Hlt.
    destruct (Z.leb_spec (l1_Number head) (l1_Number e)).
    + destruct (pop_loop_spec (rb_Len (lhb_rb lhb)) c (lhb_rb lhb) l r (l1_Number head) (S i))
        as (rb & -> & Hrb); [done|done|done|lia|lia| |].
      { unfold rb_Len. rewrite (h_size _ _ _ Hh). lia. }
      exists rb. by split.
    + exists (lhb_rb lhb). split; [|done]. by rewrite take_ge by lia.
  - assert (forall r, r ∈ l -> ~ child r head) as Hno.
    { apply list_find_None in E. intros r Hr. eapply Forall_forall in E; [|exact Hr]. done. }
    exists (rb_Reset (lhb_rb lhb)). split; [by eapply holds_Reset|].
    destruct o as [ref|]; [|done]. destruct (Z.eqb_spec (l1_Hash ref) (l1_ParentHash head)); [|done].
    exfalso. assert (ref ∈ l) as Hr by (by apply Ho). apply (Hno ref Hr). by apply Hchild.
Qed.

(** One insertion: it does not panic and does what the chain specification
    says. *)
Lemma Insert_sim c lhb l head : cache_inv c lhb l -> (0 < c)%nat -> number_ok head ->
  exists lhb', lhb_Insert lhb head = Ok lhb' /\ cache_inv c lhb' (insert_head c l head).
Proof.
  intros Hinv Hc Hok. destruct (insert_cut c lhb l head Hinv Hc Hok) as (rb & Hrb & ->).
  destruct (holds_Push c rb _ head Hrb) as (rb' & -> & Hrb'). cbn [rbind].
  rewrite (holds_Start c rb' _ Hrb'). cbn [rbind]. eexists. split; [done|].
  assert (insert_head c l head = newest c (cut l head ++ [head])) as ->.
  { unfold insert_head, cut. destruct (list_find _ l) as [[i x]|]; [done|].
    unfold newest. simpl. by replace (1 - c)%nat with 0%nat by lia. }
  pose proof (cut_chain l head (ci_chain _ _ _ Hinv)) as Hch.
  constructor; simpl; [done|by apply adjacent_drop| |].
  - apply Forall_drop, Forall_app. split; [|by apply Forall_singleton].
    unfold cut. destruct (list_find _ l) as [[i x]|]; [|done]. apply Forall_take, Hinv.
  - intros r Hr. by rewrite Hr.
Qed.

Lemma cache_inv_new c : (0 < c)%nat -> cache_inv c (newL1HeadBuffer c) [].
Proof. intros Hc. constructor; [by apply holds_new|done|done|done]. Qed.

(** The cache after a sequence of head signals. *)
Fixpoint Insert_all (lhb : l1HeadBuffer) (heads : list L1BlockRef) : result l1HeadBuffer :=
  match heads with
  | [] => Ok lhb
  | h :: t => let* lhb := lhb_Insert lhb h in Insert_all lhb t
  end.

(** C34: Whatever heads are signalled, in whatever order, reorgs included, the
    cache of L1 heads never panics and holds exactly the chain of the last
    head as far as its parents are known, at most [c] blocks; its content is a
    chain of parent hashes with consecutive numbers, and looking up a number
    answers with the block of that number in this chain, and asks the fetcher
    exactly when the chain has none. *)
Theorem l1HeadBuffer_refines c heads fetch num : (0 < c)%nat -> Forall number_ok heads ->
  0 <= num < two63 ->
  let chain := foldl (insert_head c) [] heads in
  adjacent child chain /\ (length chain <= c)%nat /\ (last heads = last chain)
  /\ exists lhb, Insert_all (newL1HeadBuffer c) heads = Ok lhb
       /\ (forall r, r ∈ chain -> l1_Number r = num -> L1BlockRefByNumber fetch lhb num = Ok r)
       /\ ((forall r, r ∈ chain -> l1_Number r <> num) ->
           L1BlockRefByNumber fetch lhb num = fetch num).
Proof.
  intros Hc Hok Hnum. cbv zeta.
  assert (forall heads lhb l, cache_inv c lhb l -> Forall number_ok heads ->
    exists lhb', Insert_all lhb heads = Ok lhb' /\ cache_inv c lhb' (foldl (insert_head c) l heads))
    as Hrun.
  { clear. intros heads. induction heads as [|h heads IH]; intros lhb l Hinv Hok; simpl; [by exists lhb|].
    apply Forall_cons in Hok as [Hh Hok].
    assert (0 < c)%nat as Hc by (destruct Hinv as [[] _ _ _]; lia).
    destruct (Insert_sim c lhb l h Hinv Hc Hh) as (lhb1 & -> & H1). by apply IH. }
  destruct (Hrun heads (newL1HeadBuffer c) [] (cache_inv_new c Hc) Hok) as (lhb & Hrun' & Hinv).
  split; [apply Hinv|]. split; [apply (h_bound _ _ _ (ci_holds _ _ _ Hinv))|]. split.
  { destruct heads as [|h heads] using rev_ind; [done|]. rewrite last_snoc, foldl_app. cbn [foldl].
    generalize (foldl (insert_head c) [] heads) as l. intros l.
    unfold insert_head. destruct (list_find _ _) as [[i x]|]; [|done].
    by destruct (newest_snoc c (take (S i) l) h Hc) as (l' & -> & _); rewrite last_snoc. }
  exists lhb. split; [done|]. unfold L1BlockRefByNumber.
  destruct (cache_get c lhb _ num Hinv) as (o & -> & Ho); [by left|]. cbn [rbind]. split.
  - intros r Hr Hn. by rewrite (proj2 (Ho r) (conj Hr Hn)).
  - intros Hno. destruct o as [r|]; [|done]. destruct (proj1 (Ho r) eq_refl) as [Hr Hn].
    by destruct (Hno r Hr).
Qed.

(** ** The sync status *)

Record SyncStatus : Type := {
  CurrentL1 : L1BlockRef;
  CurrentL1Finalized : L1BlockRef;
  HeadL1 : L1BlockRef;
  SafeL1 : L1BlockRef;
  FinalizedL1 : L1BlockRef;
  UnsafeL2 : L2BlockRef;
  SafeL2 : L2BlockRef;
  FinalizedL2 : L2BlockRef;
  PendingSafeL2 : L2BlockRef;
  CrossUnsafeL2 : L2BlockRef;
  LocalSafeL2 : L2BlockRef }.

#[global] Instance SyncStatus_eq_dec : EqDecision SyncStatus.
Proof. solve_decision. Defined.

Definition zeroSyncStatus : SyncStatus :=
  {| CurrentL1 := zeroL1BlockRef; CurrentL1Finalized := zeroL1BlockRef; HeadL1 := zeroL1BlockRef;
     SafeL1 := zeroL1BlockRef; FinalizedL1 := zeroL1BlockRef; UnsafeL2 := zeroL2BlockRef;
     SafeL2 := zeroL2BlockRef; FinalizedL2 := zeroL2BlockRef; PendingSafeL2 := zeroL2BlockRef;
     CrossUnsafeL2 := zeroL2BlockRef; LocalSafeL2 := zeroL2BlockRef |}.

(** The fields an event does not name are kept. *)
Definition set_L2 (s : SyncStatus) (unsafe safe finalized pending crossUnsafe localSafe : L2BlockRef)
    : SyncStatus :=
  {| CurrentL1 := CurrentL1 s; CurrentL1Finalized := CurrentL1Finalized s; HeadL1 := HeadL1 s;
     SafeL1 := SafeL1 s; FinalizedL1 := FinalizedL1 s; UnsafeL2 := unsafe; SafeL2 := safe;
     FinalizedL2 := finalized; PendingSafeL2 := pending; CrossUnsafeL2 := crossUnsafe;
     LocalSafeL2 := localSafe |}.

Definition set_L1 (s : SyncStatus) (current currentFinalized head safe finalized : L1BlockRef)
    : SyncStatus :=
  {| CurrentL1 := current; CurrentL1Finalized := currentFinalized; HeadL1 := head;
     SafeL1 := safe; FinalizedL1 := finalized; UnsafeL2 := UnsafeL2 s; SafeL2 := SafeL2 s;
     FinalizedL2 := FinalizedL2 s; PendingSafeL2 := PendingSafeL2 s;
     CrossUnsafeL2 := CrossUnsafeL2 s; LocalSafeL2 := LocalSafeL2 s |}.

Record StatusTracker : Type := { data : SyncStatus; published : SyncStatus }.

Definition NewStatusTracker : StatusTracker :=
  {| data := zeroSyncStatus; published := zeroSyncStatus |}.

(** The switch over the event; [None] is the default case.  The branches of
    the L1 head signal only differ in what they log. *)
Definition status_update (d : SyncStatus) (ev : NodeEvent) : option SyncStatus :=
  match ev with
  | Eng (ForkchoiceUpdateEvent unsafe safe finalized) =>
      Some (set_L2 d unsafe safe finalized (PendingSafeL2 d) (CrossUnsafeL2 d) (LocalSafeL2 d))
  | Eng (PendingSafeUpdateEvent pendingSafe unsafe) =>
      Some (set_L2 d unsafe (SafeL2 d) (FinalizedL2 d) pendingSafe (CrossUnsafeL2 d) (LocalSafeL2 d))
  | Eng (CrossUnsafeUpdateEvent crossUnsafe localUnsafe) =>
      Some (set_L2 d localUnsafe (SafeL2 d) (FinalizedL2 d) (PendingSafeL2 d) crossUnsafe
              (LocalSafeL2 d))
  | Eng (LocalSafeUpdateEvent ref) =>
      Some (set_L2 d (UnsafeL2 d) (SafeL2 d) (FinalizedL2 d) (PendingSafeL2 d) (CrossUnsafeL2 d) ref)
  | Eng (CrossSafeUpdateEvent crossSafe localSafe) =>
      Some (set_L2 d (UnsafeL2 d) crossSafe (FinalizedL2 d) (PendingSafeL2 d) (CrossUnsafeL2 d)
              localSafe)
  | DeriverL1StatusEvent origin _ =>
      Some (set_L1 d origin (CurrentL1Finalized d) (HeadL1 d) (SafeL1 d) (FinalizedL1 d))
  | L1UnsafeEvent l1Unsafe =>
      Some (set_L1 d (CurrentL1 d) (CurrentL1Finalized d) l1Unsafe (SafeL1 d) (FinalizedL1 d))
  | L1SafeEvent l1Safe =>
      Some (set_L1 d (CurrentL1 d) (CurrentL1Finalized d) (HeadL1 d) l1Safe (FinalizedL1 d))
  | FinalizeL1Event finalizedL1 =>
      Some (set_L1 d (CurrentL1 d) finalizedL1 (HeadL1 d) (SafeL1 d) finalizedL1)
  | Eng (ResetEvent _) =>
      let d := set_L2 d zeroL2BlockRef zeroL2BlockRef (FinalizedL2 d) (PendingSafeL2 d)
                 (CrossUnsafeL2 d) (LocalSafeL2 d) in
      Some (set_L1 d zeroL1BlockRef (CurrentL1Finalized d) (HeadL1 d) (SafeL1 d) (FinalizedL1 d))
  | Eng (EngineResetConfirmedEvent localUnsafe crossUnsafe localSafe crossSafe finalized) =>
      Some (set_L2 d localUnsafe crossSafe finalized (PendingSafeL2 d) crossUnsafe localSafe)
  | _ => None
  end.

Definition StatusTracker_OnEvent (st : StatusTracker) (ev : NodeEvent)
    : option (outcome StatusTracker) :=
  match status_update (data st) ev with
  | None => None
  | Some d =>
      Some (Some ({| data := d;
                     published := if bool_decide (d <> published st) then d else published st |}, []))
  end.

Definition SyncStatus_of (st : StatusTracker) : SyncStatus := published st.
Definition L1Head (st : StatusTracker) : L1BlockRef := HeadL1 (SyncStatus_of st).

Fixpoint status_run (st : StatusTracker) (evs : list NodeEvent) : StatusTracker :=
  match evs with
  | [] => st
  | ev :: evs =>
      status_run (match StatusTracker_OnEvent st ev with Some (Some (st', _)) => st' | _ => st end) evs
  end.

(** ** What the status says *)

(** The heads as last reported by the events, from a start: the reference the
    published status is compared with. *)
Definition reported_finalized (start : L2BlockRef) (evs : list NodeEvent) : L2BlockRef :=
  foldl (fun f ev =>
    match ev with
    | Eng (ForkchoiceUpdateEvent _ _ finalized) => finalized
    | Eng (EngineResetConfirmedEvent _ _ _ _ finalized) => finalized
    | _ => f
    end) start evs.

Definition reported_safe (start : L2BlockRef) (evs : list NodeEvent) : L2BlockRef :=
  foldl (fun s ev =>
    match ev with
    | Eng (ForkchoiceUpdateEvent _ safe _) => safe
    | Eng (CrossSafeUpdateEvent safe _) => safe
    | Eng (EngineResetConfirmedEvent _ _ _ safe _) => safe
    | Eng (ResetEvent _) => zeroL2BlockRef
    | _ => s
    end) start evs.

Definition reported_unsafe (start : L2BlockRef) (evs : list NodeEvent) : L2BlockRef :=
  foldl (fun u ev =>
    match ev with
    | Eng (ForkchoiceUpdateEvent unsafe _ _) => unsafe
    | Eng (PendingSafeUpdateEvent _ unsafe) => unsafe
    | Eng (CrossUnsafeUpdateEvent _ unsafe) => unsafe
    | Eng (EngineResetConfirmedEvent unsafe _ _ _ _) => unsafe
    | Eng (ResetEvent _) => zeroL2BlockRef
    | _ => u
    end) start evs.

(** An event that moves an L1 field of the status away from the zero value:
    an L1 signal, or the derivation's own L1 status. *)
Definition moves_l1 (ev : NodeEvent) : bool :=
  match ev with
  | L1UnsafeEvent r | L1SafeEvent r | FinalizeL1Event r | DeriverL1StatusEvent r _ =>
      bool_decide (r <> zeroL1BlockRef)
  | _ => false
  end.

Lemma status_step st ev : published st = data st ->
  let st' := match StatusTracker_OnEvent st ev with Some (Some (st', _)) => st' | _ => st end in
  data st' = default (data st) (status_update (data st) ev) /\ published st' = data st'.
Proof.
  intros Hp. unfold StatusTracker_OnEvent. destruct (status_update (data st) ev) as [d|]; [|done].
  simpl. split; [done|]. by case_bool_decide.
Qed.

Lemma status_run_data st evs : published st = data st ->
  data (status_run st evs) = foldl (fun d ev => default d (status_update d ev)) (data st) evs
  /\ published (status_run st evs) = data (status_run st evs).
Proof.
  revert st. induction evs as [|ev evs IH]; intros st Hp; simpl; [done|].
  destruct (status_step st ev Hp) as [Hd Hp']. rewrite <- Hd. by apply IH.
Qed.

(** After any sequence of events the published status is the tracked one,
    its unsafe, safe and finalized heads are those of the last event that
    reported them (a reset clears the first two), and while no event brings a
    non-zero L1 block, all its L1 fields are zero. *)
Theorem status_spec evs :
  let s := SyncStatus_of (status_run NewStatusTracker evs) in
  UnsafeL2 s = reported_unsafe zeroL2BlockRef evs /\ SafeL2 s = reported_safe zeroL2BlockRef evs
  /\ FinalizedL2 s = reported_finalized zeroL2BlockRef evs
  /\ (forallb (fun ev => negb (moves_l1 ev)) evs = true ->
      L1Head (status_run NewStatusTracker evs) = zeroL1BlockRef
      /\ CurrentL1 s = zeroL1BlockRef /\ SafeL1 s = zeroL1BlockRef
      /\ FinalizedL1 s = zeroL1BlockRef).
Proof.
  unfold L1Head, SyncStatus_of. destruct (status_run_data NewStatusTracker evs eq_refl) as [Hd ->].
  rewrite Hd. clear Hd. cbn [data NewStatusTracker].
  unfold reported_unsafe, reported_safe, reported_finalized.
  induction evs as [|ev evs IH] using rev_ind; [done|].
  rewrite !foldl_app, forallb_app. cbn [foldl forallb].
  destruct IH as (Hu & Hs & Hf & Hl). revert Hu Hs Hf Hl.
  generalize (foldl (fun d ev => default d (status_update d ev)) zeroSyncStatus evs) as d.
  intros d <- <- <- Hl. rewrite andb_true_r.
  destruct ev as [[]| | | | | | | | | | | | | | | | | | | | | | | ]; simpl;
    rewrite ?andb_true_r; split_and!; try done;
    try (intros [Hb Hz]%andb_true_iff; case_bool_decide; [done|]);
    try (intros Hb); destruct (Hl Hb) as (? & ? & ? & ?); split_and!; try done;
    by apply dec_stable.
Qed.

(** ** Witnesses *)

Lemma ringbuffer_refines_witness :
  rb_run (newRingBuffer 0 2) [OpPush 1; OpPush 2; OpPush 3; OpStart; OpPop; OpGet 0; OpGet 1; OpLen]
  = Ok [inr None; inr None; inr None; inr (Some 2); inr (Some 3); inr (Some 2); inr None; inl 1%nat].
Proof. exact (ringbuffer_refines 0 2 _ ltac:(lia)). Defined.

(** Block [n] of branch [b]. *)
Definition ex_l1 (b n : Z) : L1BlockRef :=
  {| l1_Hash := b * 1000 + n; l1_Number := n; l1_ParentHash := b * 1000 + n - 1; l1_Time := 12 * n |}.

(** Blocks 1 to 4, then a reorg at block 3. *)
Definition ex_reorg : L1BlockRef :=
  {| l1_Hash := 2003; l1_Number := 3; l1_ParentHash := 1002; l1_Time := 37 |}.

Lemma l1HeadBuffer_refines_witness :
  exists lhb, Insert_all (newL1HeadBuffer 3) [ex_l1 1 1; ex_l1 1 2; ex_l1 1 3; ex_l1 1 4; ex_reorg]
    = Ok lhb /\ L1BlockRefByNumber (fun _ => Panic) lhb 3 = Ok ex_reorg.
Proof.
  destruct (l1HeadBuffer_refines 3 [ex_l1 1 1; ex_l1 1 2; ex_l1 1 3; ex_l1 1 4; ex_reorg]
    (fun _ => Panic) 3) as (_ & _ & _ & lhb & Hr & Hget & _).
  - lia.
  - repeat constructor; vm_compute; discriminate.
  - unfold two63; lia.
  - exists lhb. split; [exact Hr|]. apply Hget; [|reflexivity].
    change (ex_reorg ∈ [ex_l1 1 2; ex_reorg]). right. left.
Defined.
