(* ===== verification/EventSystem.v ===== *)
(** * The event system

    Models [rhs-node/rollup/event]: the registry of named derivers and the
    emission of events with the abort flag (system.go), and the synchronous
    executor with its bounded queue, [Drain] and [DrainUntil]
    (executor_global.go).  A deriver's handler is a program ([act]) that reads
    and writes the state shared by the derivers, emits events and may drain the
    queue itself.  The rate limiter only delays an emission (limiter.go) and
    tracers only observe: neither is part of the model. *)

From S2P Require Import Prelude.

(** How a run ends: with a value, by a panic, or out of fuel. *)
Inductive run (A : Type) : Type :=
  | Fin (a : A)
  | Panicked
  | OutOfFuel.
Arguments Fin {_}.
Arguments Panicked {_}.
Arguments OutOfFuel {_}.

Definition run_bind {A B} (r : run A) (k : A -> run B) : run B :=
  match r with Fin a => k a | Panicked => Panicked | OutOfFuel => OutOfFuel end.

(** [const sanityEventLimit = 10_000] *)
Definition queue_limit : Z := 10000.

Section System.
  (** The events, the state the derivers share, and [Is[CriticalErrorEvent]]. *)
  Context {E N : Type} (critical : E -> bool).

(** What a handler does: [Access f k] replaces the shared state [n] by [f n]
    and goes on with [k n]; [Drained k] calls [Drain] and goes on with its
    error. *)
Inductive act : Type :=
  | Return
  | Panics
  | Emit (ev : E) (k : act)
  | Access (f : N -> N) (k : N -> act)
  | Drained (k : option error -> act).

(** The system with its executor: the names taken, the handles in the order
    they were added, the queue, the abort flag, the error of the executor's
    context, and the derivers' state. *)
Record Sys : Type := {
  regs : list string;
  handles : list (string * (E -> act));
  events : list E;
  abort : bool;
  ctx_err : option error;
  node : N }.

Definition NewSystem (n : N) : Sys :=
  {| regs := []; handles := []; events := []; abort := false; ctx_err := None; node := n |}.

Definition with_events (s : Sys) (evs : list E) : Sys :=
  {| regs := regs s; handles := handles s; events := evs; abort := abort s; ctx_err := ctx_err s;
     node := node s |}.

Definition with_node (s : Sys) (n : N) : Sys :=
  {| regs := regs s; handles := handles s; events := events s; abort := abort s;
     ctx_err := ctx_err s; node := n |}.

(** [None] is the panic on a name that is taken; a nil deriver is only an
    emitter. *)
Definition Register (s : Sys) (name : string) (deriver : option (E -> act)) : option Sys :=
  if bool_decide (name ∈ regs s) then None
  else Some {| regs := regs s ++ [name];
               handles := match deriver with
                          | Some d => handles s ++ [(name, d)]
                          | None => handles s
                          end;
               events := events s; abort := abort s; ctx_err := ctx_err s; node := node s |}.

Definition Unregister (s : Sys) (name : string) : Sys :=
  {| regs := List.filter (fun n => negb (bool_decide (n = name))) (regs s);
     handles := List.filter (fun h => negb (bool_decide (h.1 = name))) (handles s);
     events := events s; abort := abort s; ctx_err := ctx_err s; node := node s |}.

Definition Stop (s : Sys) : Sys := foldl Unregister s (regs s).

(** A full queue drops the event. *)
Definition sys_Enqueue (s : Sys) (ev : E) : Sys :=
  if queue_limit <=? Z.of_nat (length (events s)) then s else with_events s (events s ++ [ev]).

Definition emit (s : Sys) (ev : E) : Sys :=
  let s := if critical ev then
             {| regs := regs s; handles := handles s; events := events s; abort := true;
                ctx_err := ctx_err s; node := node s |}
           else s in
  sys_Enqueue s ev.

(** A handler's program, given [Drain]. *)
Fixpoint perform (drain : Sys -> run (Sys * option error)) (a : act) (s : Sys) : run Sys :=
  match a with
  | Return => Fin s
  | Panics => Panicked
  | Emit ev k => perform drain k (emit s ev)
  | Access f k => perform drain (k (node s)) (with_node s (f (node s)))
  | Drained k => run_bind (drain s) (fun r => perform drain (k r.2) r.1)
  end.

Definition RunEvent (drain : Sys -> run (Sys * option error)) (h : E -> act) (ev : E) (s : Sys)
    : run Sys :=
  if abort s && negb (critical ev) then Fin s else perform drain (h ev) s.

Fixpoint run_handles (drain : Sys -> run (Sys * option error)) (hs : list (string * (E -> act)))
    (ev : E) (s : Sys) : run Sys :=
  match hs with
  | [] => Fin s
  | h :: hs => run_bind (RunEvent drain h.2 ev s) (run_handles drain hs ev)
  end.

Definition sys_processEvent (drain : Sys -> run (Sys * option error)) (ev : E) (s : Sys) : run Sys :=
  run_handles drain (handles s) ev s.

Fixpoint sys_Drain (fuel : nat) (s : Sys) : run (Sys * option error) :=
  match ctx_err s with
  | Some e => Fin (s, Some e)
  | None =>
      match events s with
      | [] => Fin (s, None)
      | ev :: rest =>
          match fuel with
          | O => OutOfFuel
          | S f => run_bind (sys_processEvent (sys_Drain f) ev (with_events s rest)) (sys_Drain f)
          end
      end
  end.

(** With [excl] the matching event stays in the queue. *)
Fixpoint DrainUntil (fuel : nat) (fn : E -> bool) (excl : bool) (s : Sys)
    : run (Sys * option error) :=
  match ctx_err s with
  | Some e => Fin (s, Some e)
  | None =>
      match events s with
      | [] => Fin (s, Some EOF)
      | ev :: rest =>
          if excl && fn ev then Fin (s, None)
          else
            match fuel with
            | O => OutOfFuel
            | S f => run_bind (sys_processEvent (sys_Drain f) ev (with_events s rest))
                       (fun s => if fn ev then Fin (s, None) else DrainUntil f fn excl s)
            end
      end
  end.

(** ** Fuel *)

(** [r'] agrees with [r] wherever [r] did not run out of fuel. *)
Definition refines_run {A} (r r' : run A) : Prop := r = OutOfFuel \/ r' = r.

Lemma refines_bind {A B} (r r' : run A) (k k' : A -> run B) :
  refines_run r r' -> (forall a, refines_run (k a) (k' a)) ->
  refines_run (run_bind r k) (run_bind r' k').
Proof. intros [->| ->] Hk; [by left|]. destruct r; simpl; [apply Hk|by right|by left]. Qed.

Definition refines_drain (d d' : Sys -> run (Sys * option error)) : Prop :=
  forall s, refines_run (d s) (d' s).

Lemma perform_mono d d' a s : refines_drain d d' -> refines_run (perform d a s) (perform d' a s).
Proof.
  intros Hd. revert s. induction a; intros s; simpl; try by right.
  - apply IHa.
  - apply H.
  - apply refines_bind; [apply Hd|]. intros [s' e]. apply H.
Qed.

Lemma processEvent_mono d d' ev s : refines_drain d d' ->
  refines_run (sys_processEvent d ev s) (sys_processEvent d' ev s).
Proof.
  intros Hd. unfold sys_processEvent. generalize (handles s) as hs. intros hs.
  revert s. induction hs as [|h hs IH]; intros s; simpl; [by right|].
  apply refines_bind; [|done]. unfold RunEvent. destruct (_ && _); [by right|].
  by apply perform_mono.
Qed.

(** More fuel never changes a result. *)
Lemma Drain_mono f k : refines_drain (sys_Drain f) (sys_Drain (f + k)).
Proof.
  induction f as [|f IH]; intros s.
  - destruct k as [|k]; [by right|]. simpl.
    destruct (ctx_err s); [by right|]. destruct (events s); [by right|by left].
  - simpl. destruct (ctx_err s); [by right|]. destruct (events s) as [|ev rest]; [by right|].
    apply refines_bind; [by apply processEvent_mono|]. apply IH.
Qed.

Lemma Drain_enough f f' s r : (f <= f')%nat -> sys_Drain f s = Fin r -> sys_Drain f' s = Fin r.
Proof.
  intros Hle H. destruct (Drain_mono f (f' - f) s) as [E1|E1]; [congruence|].
  replace (f + (f' - f))%nat with f' in E1 by lia. congruence.
Qed.

(** ** Reasoning about handlers

    [wp I Q P a n]: run from [n], the program [a] only panics if [P], emits only
    events of [Q], has the invariant [I] of the shared state whenever it drains
    the queue, relies on [I] alone after a drain, and ends with [I]. *)

Section Invariant.
  Context (I : N -> Prop) (Q : E -> Prop) (P : Prop).

Fixpoint wp (a : act) (n : N) : Prop :=
  match a with
  | Return => I n
  | Panics => P
  | Emit ev k => Q ev /\ wp k n
  | Access f k => wp (k n) (f n)
  | Drained k => I n /\ forall n' e, I n' -> wp (k e) n'
  end.

Definition handles_ok (s : Sys) : Prop :=
  Forall (fun h => forall ev n, Q ev -> I n -> wp (h.2 ev) n) (handles s).

(** The system between two handlers. *)
Record sys_inv (s : Sys) : Prop := {
  si_handles : handles_ok s;
  si_node : I (node s);
  si_events : Forall Q (events s) }.

Definition run_inv (r : run Sys) : Prop :=
  match r with Fin s => sys_inv s | Panicked => P | OutOfFuel => True end.

Definition drain_ok (drain : Sys -> run (Sys * option error)) : Prop :=
  forall s, sys_inv s ->
    match drain s with Fin (s', _) => sys_inv s' | Panicked => P | OutOfFuel => True end.

Lemma emit_fields s ev : handles (emit s ev) = handles s /\ node (emit s ev) = node s
  /\ ctx_err (emit s ev) = ctx_err s /\ regs (emit s ev) = regs s
  /\ (abort s = true -> abort (emit s ev) = true)
  /\ (events (emit s ev) = events s \/ events (emit s ev) = events s ++ [ev]).
Proof.
  unfold emit, sys_Enqueue. destruct (critical ev); simpl;
    destruct (Z.leb _ _); simpl; split_and!; auto.
Qed.

Lemma emit_events s ev : Q ev -> Forall Q (events s) -> Forall Q (events (emit s ev)).
Proof.
  intros Hq Hs. destruct (emit_fields s ev) as (_ & _ & _ & _ & _ & [-> | ->]); [done|].
  apply Forall_app. by split; [|apply Forall_singleton].
Qed.

Lemma perform_inv drain a s : drain_ok drain -> handles_ok s -> Forall Q (events s) ->
  wp a (node s) -> run_inv (perform drain a s).
Proof.
  intros Hd. revert s. induction a as [| |ev k IH|f k IH|k IH]; intros s Hh Hq Hwp; simpl in *.
  - by constructor.
  - done.
  - destruct Hwp as [He Hwp]. destruct (emit_fields s ev) as (E1 & E2 & _).
    apply IH; [unfold handles_ok; by rewrite E1|by apply emit_events|by rewrite E2].
  - by apply IH.
  - destruct Hwp as [Hn Hk]. pose proof (Hd s (Build_sys_inv s Hh Hn Hq)) as Hs.
    destruct (drain s) as [[s' e]| |]; simpl; [|done|done]. destruct Hs as [Hh' Hn' Hq'].
    apply IH; [done|done|]. by apply Hk.
Qed.

Lemma processEvent_inv drain ev s : drain_ok drain -> Q ev -> sys_inv s ->
  run_inv (sys_processEvent drain ev s).
Proof.
  intros Hd Hq [Hh Hn He]. unfold sys_processEvent.
  assert (Forall (fun h => forall ev n, Q ev -> I n -> wp (h.2 ev) n) (handles s)) as Hhs by done.
  revert Hhs. assert (sys_inv s) as Hs by done. clear Hh Hn He. revert Hs.
  generalize (handles s) as hs. intros hs. revert s.
  induction hs as [|h hs IH]; intros s Hs Hhs; simpl; [done|].
  apply Forall_cons in Hhs as [Hh Hhs].
  assert (run_inv (RunEvent drain h.2 ev s)) as Hr.
  { unfold RunEvent. destruct (_ && _); [done|]. destruct Hs as [H1 H2 H3].
    apply perform_inv; [done|done|done|by apply Hh]. }
  destruct (RunEvent drain h.2 ev s) as [s'| |]; simpl; [by apply IH|done|done].
Qed.

Lemma Drain_inv f : drain_ok (sys_Drain f).
Proof.
  induction f as [|f IH]; intros s Hs; simpl; destruct (ctx_err s); try done;
    destruct (events s) as [|ev rest] eqn:Ee; try done.
  destruct Hs as [Hh Hn Hq]. rewrite Ee in Hq. apply Forall_cons in Hq as [Hev Hrest].
  pose proof (processEvent_inv (sys_Drain f) ev (with_events s rest) IH Hev
    (Build_sys_inv (with_events s rest) Hh Hn Hrest)) as Hp.
  destruct (sys_processEvent _ _ _) as [s'| |]; simpl; [|done|done]. by apply IH.
Qed.

(** An invariant of the shared state that every handler keeps, together
    with a class of events that handlers emit only in answer to events of the
    class, survives any drain of the queue, nested drains included: if each
    handler is safe by itself ([wp]), draining panics only if a handler may
    ([P]), and it ends with the invariant and only events of the class left;
    when it ends without an error the queue is empty. *)
Theorem Drain_sound f s : sys_inv s ->
  (sys_Drain f s = Panicked -> P)
  /\ forall s' e, sys_Drain f s = Fin (s', e) ->
       I (node s') /\ Forall Q (events s') /\ (e = None -> events s' = []).
Proof.
  intros Hs. pose proof (Drain_inv f s Hs) as Hd. split; [intros E1; by rewrite E1 in Hd|].
  intros s' e E1. rewrite E1 in Hd. split_and!; [apply Hd|apply Hd|]. intros ->. clear Hs Hd.
  revert s E1. induction f as [|f IH]; intros s; simpl; destruct (ctx_err s); try done;
    destruct (events s) eqn:Ee; try done; try (intros [= <-]; done).
  destruct (sys_processEvent _ _ _) as [s1| |]; simpl; [|done|done]. apply IH.
Qed.
End Invariant.

(** Handlers cannot register or leave while the queue is drained. *)
Lemma perform_handles drain a s s' :
  (forall s r, drain s = Fin r -> handles r.1 = handles s) ->
  perform drain a s = Fin s' -> handles s' = handles s.
Proof.
  intros Hd. revert s. induction a as [| |ev k IH|f k IH|k IH]; intros s; simpl; try done.
  - by intros [= ->].
  - intros H%IH. rewrite H. by destruct (emit_fields s ev).
  - intros H%IH. done.
  - destruct (drain s) as [[s1 e]| |] eqn:E1; [|done|done]. simpl. intros H%IH.
    rewrite H. exact (Hd _ _ E1).
Qed.

Lemma Drain_handles f s r : sys_Drain f s = Fin r -> handles r.1 = handles s.
Proof.
  revert s r. induction f as [|f IH]; intros s r; simpl; destruct (ctx_err s);
    try (by intros [= <-]); destruct (events s) as [|ev rest]; try (by intros [= <-]); try done.
  assert (forall hs s s', run_handles (sys_Drain f) hs ev s = Fin s' -> handles s' = handles s) as Hh.
  { intros hs. induction hs as [|h hs IHh]; intros s1 s'; simpl; [by intros [= ->]|].
    destruct (RunEvent _ _ _ _) as [s2| |] eqn:E1; [|done|done]. simpl. intros H%IHh. rewrite H.
    unfold RunEvent in E1. destruct (_ && _); [by injection E1 as ->|].
    by eapply perform_handles. }
  unfold sys_processEvent. destruct (run_handles _ _ _ _) as [s1| |] eqn:E1; [|done|done].
  simpl. intros H%IH. rewrite H. by apply Hh in E1.
Qed.

(** ** Aborting *)

(** Handlers of a critical event that leave the shared state alone, as all
    derivers of the node but the node itself do. *)
Definition ignores_critical (h : E -> act) : Prop := forall ev, critical ev = true -> h ev = Return.

Lemma aborted_handles drain hs ev s : abort s = true -> Forall (fun h => ignores_critical h.2) hs ->
  run_handles drain hs ev s = Fin s.
Proof.
  intros Ha. induction hs as [|h hs IH]; [done|]. intros [Hh Hhs]%Forall_cons. simpl.
  unfold RunEvent. rewrite Ha. destruct (critical ev) eqn:Ec; simpl; [|by apply IH].
  rewrite (Hh ev Ec). simpl. by apply IH.
Qed.

Lemma aborted_Drain s : abort s = true -> ctx_err s = None ->
  Forall (fun h => ignores_critical h.2) (handles s) ->
  forall evs, sys_Drain (length evs) (with_events s evs) = Fin (with_events s [], None).
Proof.
  intros Ha Hc Hh evs. induction evs as [|ev evs IH]; simpl; rewrite Hc; [done|].
  unfold sys_processEvent. rewrite (aborted_handles _ _ _ (with_events s evs)) by done. apply IH.
Qed.

(** Once a critical error is emitted nothing else happens: draining the
    queue discards all its events, in as many steps as there are, and no
    deriver's state changes, whatever is queued and whatever else the handlers
    would do. *)
Theorem abort_freezes s ev : critical ev = true -> ctx_err s = None ->
  Forall (fun h => ignores_critical h.2) (handles s) ->
  exists s', sys_Drain (S (length (events s))) (emit s ev) = Fin (s', None)
    /\ node s' = node s /\ events s' = [] /\ abort s' = true.
Proof.
  intros Hcr Hc Hh. destruct (emit_fields s ev) as (E1 & E2 & E3 & _ & _ & He).
  assert (abort (emit s ev) = true) as Ha.
  { unfold emit, sys_Enqueue. rewrite Hcr. by destruct (Z.leb _ _). }
  exists (with_events (emit s ev) []). split_and!; [|done|done|done].
  apply (Drain_enough (length (events (emit s ev)))).
  - destruct He as [-> | ->]; rewrite ?length_app; simpl; lia.
  - rewrite <- (aborted_Drain (emit s ev)) with (evs := events (emit s ev)); [|done|congruence|].
    + by destruct (emit s ev).
    + by rewrite E1.
Qed.

Lemma aborted_skip drain hs ev s : abort s = true -> critical ev = false ->
  run_handles drain hs ev s = Fin s.
Proof.
  intros Ha Hc. induction hs as [|h hs IH]; [done|]. simpl. unfold RunEvent. by rewrite Ha, Hc.
Qed.

(** A critical error emitted while the queue is full is lost: the flag is
    set but the event itself is dropped, so the deriver that would end the
    process never sees it, whatever it does with critical errors; draining
    discards the queue without running any handler, and the node stays up
    doing nothing. *)
Theorem critical_lost s ev : critical ev = true -> ctx_err s = None ->
  Z.of_nat (length (events s)) = queue_limit -> Forall (fun ev => critical ev = false) (events s) ->
  exists s', sys_Drain (length (events s)) (emit s ev) = Fin (s', None)
    /\ node s' = node s /\ ctx_err s' = None /\ events s' = [] /\ abort s' = true.
Proof.
  intros Hcr Hc Hl Hev. unfold emit, sys_Enqueue. rewrite Hcr. cbn [events].
  rewrite (proj2 (Z.leb_le _ _)) by lia.
  set (s1 := {| regs := regs s |}). exists (with_events s1 []). split_and!; [|done..].
  assert (forall evs, Forall (fun ev => critical ev = false) evs ->
    sys_Drain (length evs) (with_events s1 evs) = Fin (with_events s1 [], None)) as Hd;
    [|exact (Hd (events s) Hev)].
  intros evs. induction evs as [|e evs IH]; intros Hf; simpl; rewrite Hc; [done|].
  apply Forall_cons in Hf as [He Hf]. unfold sys_processEvent.
  rewrite aborted_skip by done. by apply IH.
Qed.
End System.

(** ** Witnesses

    Events are numbers, 0 is critical; one deriver counts down and counts its
    steps, another drains the queue from within its handler. *)

Definition ex_critical (ev : nat) : bool := (ev =? 0)%nat.

Definition ex_count (ev : nat) : act (E := nat) (N := nat) :=
  match ev with
  | O => Return
  | S O => Access S (fun _ => Return)
  | S (S n) => Access S (fun _ => Emit (S n) Return)
  end.

Definition ex_nested (ev : nat) : act (E := nat) (N := nat) :=
  match ev with 3%nat => Drained (fun _ => Return) | _ => Return end.

Definition ex_system (evs : list nat) : Sys (E := nat) (N := nat) :=
  {| regs := ["count"; "nested"]; handles := [("count", ex_count); ("nested", ex_nested)];
     events := evs; abort := false; ctx_err := None; node := 0%nat |}.

Lemma Drain_sound_witness :
  exists s', sys_Drain ex_critical 10 (ex_system [3%nat; 2%nat]) = Fin (s', None)
    /\ node s' = 5%nat /\ events s' = [].
Proof.
  destruct (Drain_sound ex_critical (fun _ => True) (fun _ => True) False 10 (ex_system [3%nat; 2%nat]))
    as [_ Hf].
  { constructor; [|done|by repeat constructor].
    repeat constructor; intros [|[|[|[|ev]]]] n; simpl; auto. }
  destruct (sys_Drain _ _ _) as [[s' e]| |] eqn:E1; [|vm_compute in E1; discriminate E1..].
  exists s'. assert (e = None /\ node s' = 5%nat) as [-> Hn].
  { assert (run_bind (sys_Drain ex_critical 10 (ex_system [3%nat; 2%nat]))
      (fun r => Fin (r.2, node r.1)) = Fin (None, 5%nat)) as E2 by (vm_compute; reflexivity).
    rewrite E1 in E2. simpl in E2. by injection E2. }
  destruct (Hf s' None eq_refl) as (_ & _ & He). auto.
Defined.

Lemma abort_freezes_witness :
  exists s', sys_Drain ex_critical 3 (emit ex_critical (ex_system [3%nat; 2%nat]) 0%nat) = Fin (s', None)
    /\ node s' = 0%nat.
Proof.
  destruct (abort_freezes ex_critical (ex_system [3%nat; 2%nat]) 0%nat) as (s' & H & Hn & _);
    [reflexivity|reflexivity| |exists s'; exact (conj H Hn)].
  repeat constructor; intros [|ev]; done.
Defined.

Lemma critical_lost_witness :
  let s := ex_system (replicate (Z.to_nat 10000) 3%nat) in
  exists s', sys_Drain ex_critical (length (events s)) (emit ex_critical s 0%nat) = Fin (s', None)
    /\ node s' = 0%nat /\ abort s' = true.
Proof.
  cbv zeta.
  destruct (critical_lost ex_critical (ex_system (replicate (Z.to_nat 10000) 3%nat)) 0%nat)
    as (s' & H & Hn & _ & _ & Ha); [reflexivity|reflexivity| | |exists s'; exact (conj H (conj Hn Ha))].
  - cbn [events ex_system]. rewrite length_replicate. reflexivity.
  - apply Forall_replicate. reflexivity.
Defined.
