(* ===== verification/Driver.v ===== *)
(** * The driver

    Models [rhs-node/rollup/driver]: the step scheduler (steps.go) with the
    backoff strategy of [rhs-service/retry/strategies.go], the sync deriver
    (state.go: [SyncDeriver]), and the checks of the event loop for missing
    unsafe blocks (state.go: [checkForGapInUnsafeQueue], [clamp],
    [syncUnsafeBlocks], [checkSyncUnsafeBlocks]).  Durations are nanoseconds.

    The event loop itself, with the derivers it drives, is in [Node]. *)

From S2P Require Import Prelude EthTypes RollupConfig SpanBatch Batches Pipeline Engine.
From S2P Require Import NodeEvents EventSystem.

(** ** Backoff *)

Definition second : Z := 1000000000.
Definition millisecond : Z := 1000000.

Record ExponentialStrategy : Type := { es_Min : Z; es_Max : Z; es_MaxJitter : Z }.

(** [rand] is the random number below [MaxJitter].  The source computes in
    floating point; the powers below the maximum of the strategies in use are
    exact there, and larger ones, infinity included, give the maximum. *)
Definition Exponential_Duration (e : ExponentialStrategy) (rand : Z) (attempt : Z) : Z :=
  let jitter := if 0 <? es_MaxJitter e then rand else 0 in
  if attempt <? 0 then es_Min e + jitter
  else
    let dur := es_Min e + 2 ^ attempt * second in
    (if es_Max e <? dur then es_Max e else dur) + jitter.

(** [retry.Exponential()] *)
Definition Exponential : ExponentialStrategy :=
  {| es_Min := 0; es_Max := 10 * second; es_MaxJitter := 250 * millisecond |}.

Definition FixedStrategy_Duration (dur : Z) (_attempt : Z) : Z := dur.

(** ** The step scheduler

    [delayedStepReq] is the pending timer with its delay; [stepReqCh] is the
    buffered channel of capacity one. *)

Record StepSchedulingDeriver : Type := {
  stepAttempts : Z;
  delayedStepReq : option Z;
  stepReqCh : bool }.

Definition NewStepSchedulingDeriver : StepSchedulingDeriver :=
  {| stepAttempts := 0; delayedStepReq := None; stepReqCh := false |}.

(** [rand] is the jitter the strategy draws, if it is asked. *)
Definition StepScheduling_OnEvent (rand : Z) (s : StepSchedulingDeriver) (ev : NodeEvent)
    : option (outcome StepSchedulingDeriver) :=
  match ev with
  | StepDelayedReqEvent delay =>
      Some (Some ({| stepAttempts := stepAttempts s;
                     delayedStepReq := match delayedStepReq s with
                                       | None => Some delay
                                       | d => d
                                       end;
                     stepReqCh := stepReqCh s |}, []))
  | StepReqEvent resetBackoff =>
      let attempts := if resetBackoff then 0 else stepAttempts s in
      Some (Some (
        if 0 <? attempts then
          {| stepAttempts := attempts;
             delayedStepReq := match delayedStepReq s with
                               | None => Some (Exponential_Duration Exponential rand attempts)
                               | d => d
                               end;
             stepReqCh := stepReqCh s |}
        else {| stepAttempts := attempts; delayedStepReq := None; stepReqCh := true |}, []))
  | StepAttemptEvent =>
      Some (Some ({| stepAttempts := stepAttempts s + 1; delayedStepReq := None;
                     stepReqCh := stepReqCh s |}, [StepEvent]))
  | ResetStepBackoffEvent =>
      Some (Some ({| stepAttempts := 0; delayedStepReq := delayedStepReq s;
                     stepReqCh := stepReqCh s |}, []))
  | _ => None
  end.

(** The event loop receives from [NextStep]. *)
Definition recv_step (s : StepSchedulingDeriver) : StepSchedulingDeriver :=
  {| stepAttempts := stepAttempts s; delayedStepReq := delayedStepReq s; stepReqCh := false |}.

(** ** The sync deriver

    The listener for safe heads is not under the rollup package; [None] is a
    nil error. *)

Record SafeHeadListener : Type := {
  Enabled : bool;
  SafeHeadUpdated : L2BlockRef -> option error;
  SafeHeadReset : L2BlockRef -> option error }.

Record SyncDeriver : Type := {
  sd_Config : Config;
  SafeHeadNotifs : option SafeHeadListener;
  ManagedMode : bool }.

Definition onSafeDerivedBlock (s : SyncDeriver) (safe : L2BlockRef) : list NodeEvent :=
  match SafeHeadNotifs s with
  | Some l =>
      if Enabled l then
        match SafeHeadUpdated l safe with
        | Some err => [Eng (ResetEvent (Wrap "safe head notifications failed" err))]
        | None => []
        end
      else []
  | None => []
  end.

Definition onEngineConfirmedReset (s : SyncDeriver) (crossSafe : L2BlockRef) : list NodeEvent :=
  match SafeHeadNotifs s with
  | None => [ConfirmPipelineResetEvent]
  | Some l =>
      match SafeHeadReset l crossSafe with
      | Some _ => []
      | None =>
          if Enabled l && bool_decide (L2BlockRef_ID crossSafe = L2 (cfg_Genesis (sd_Config s))) then
            match SafeHeadUpdated l crossSafe with
            | Some _ => []
            | None => [ConfirmPipelineResetEvent]
            end
          else [ConfirmPipelineResetEvent]
      end
  end.

Definition onResetEvent (s : SyncDeriver) : list NodeEvent :=
  if ManagedMode s then [] else [StepReqEvent false; ResetEngineRequestEvent].

(** [context.Canceled], the error of a drain whose context is done. *)
Definition Canceled : error := Msg "context canceled".

Section Sync.
  (** The derivers' shared state, of which the sync deriver reads the engine
      controller. *)
  Context {N : Type} (engine_of : N -> EngineController).
  Abbreviation program := (act (E := NodeEvent) (N := N)).

Fixpoint emit_all (evs : list NodeEvent) (k : program) : program :=
  match evs with [] => k | ev :: evs => Emit ev (emit_all evs k) end.

(** [if !drain() { return }] *)
Definition drain_or_return (k : program) : program :=
  Drained (fun err =>
    match err with
    | None => k
    | Some e =>
        if errors_Is e Canceled then Return
        else Emit (Eng (CriticalErrorEvent (Wrap "unexpected error on SyncStep event Drain" e))) Return
    end).

Definition SyncStep (s : SyncDeriver) : program :=
  drain_or_return (
  Emit (Eng TryBackupUnsafeReorgEvent) (
  drain_or_return (
  Emit (Eng (TryUpdateEngineEvent None)) (
  drain_or_return (
  Access id (fun n =>
    if IsEngineSyncing (engine_of n) then Emit ResetStepBackoffEvent Return
    else
      Emit (Eng PendingSafeRequestEvent)
        (match InteropTime (sd_Config s) with
         | Some _ => if ManagedMode s then Return
                     else Emit (Eng (CrossUpdateRequestEvent false false)) Return
         | None => Return
         end))))))).

Definition SyncDeriver_OnEvent (s : SyncDeriver) (ev : NodeEvent) : option program :=
  match ev with
  | StepEvent => Some (SyncStep s)
  | Eng (ResetEvent _) => Some (emit_all (onResetEvent s) Return)
  | L1TemporaryErrorEvent _ | Eng (EngineTemporaryErrorEvent _) =>
      Some (Emit (StepReqEvent false) Return)
  | Eng (EngineResetConfirmedEvent _ _ _ crossSafe _) =>
      Some (emit_all (onEngineConfirmedReset s crossSafe) Return)
  | DeriverIdleEvent _ => Some (Emit ResetStepBackoffEvent Return)
  | DeriverMoreEvent => Some Return
  | Eng (SafeDerivedEvent safe) => Some (emit_all (onSafeDerivedBlock s safe) Return)
  | ProvideL1Traversal _ => Some (Emit (StepReqEvent false) Return)
  | _ => None
  end.
End Sync.

(** ** Missing unsafe blocks *)

(** The range to request from alt-sync, exclusive on both ends, if any;
    [start] is the unsafe head and [end_] the lowest queued block. *)
Definition checkForGapInUnsafeQueue (start end_ : L2BlockRef) : option (L2BlockRef * L2BlockRef) :=
  if bool_decide (end_ = zeroL2BlockRef) then Some (start, zeroL2BlockRef)
  else if l2_Number start +u 1 <? l2_Number end_ then Some (start, end_)
  else None.

(** [Uint64] of a negative big integer is that of its absolute value. *)
Definition clamp (start end_ size : Z) : Z :=
  let count := u64 (Z.abs (end_ - start)) +u 1 in
  if count <=? size then end_ else start + int_of (size -u 1).

(** [GetLatestBlock]: the block's number, if a block is returned, and the
    error, if any. *)
Abbreviation latest := (option Z * option error)%type.

Definition not_found (l : latest) : bool :=
  match l.2 with Some err => errors_Is err NotFound | None => false end.

(** The payloads of a range, inserted one by one: an error of an insertion is
    logged by [syncUnsafeBlocks] and ends [checkSyncUnsafeBlocks]. *)
Fixpoint insert_range (stop : bool) (eng : ExecEngine) (e : EngineController)
    (payloads : list ExecutionPayloadEnvelope) : EngineController * list Event * result unit :=
  match payloads with
  | [] => (e, [], Ok ())
  | payload :: rest =>
      let (cfg, r) := PayloadToBlockRef (rollupCfg e) (env_ExecutionPayload payload) in
      let e := set_rollupCfg e cfg in
      match r with
      | Panic => (e, [], Panic)
      | Err err => if stop then (e, [], Err err) else insert_range stop eng e rest
      | Ok ref =>
          match InsertUnsafePayload eng e payload ref with
          | (e, evs, Panic) => (e, evs, Panic)
          | (e, evs, Err err) =>
              if stop then (e, evs, Err err)
              else let '(e, evs', r) := insert_range stop eng e rest in (e, evs ++ evs', r)
          | (e, evs, Ok _) =>
              let '(e, evs', r) := insert_range stop eng e rest in (e, evs ++ evs', r)
          end
      end
  end.

(** [PayloadsByRange] of the other execution client. *)
Abbreviation payload_range := (Z -> Z -> result (list ExecutionPayloadEnvelope)).

(** One tick of [syncUnsafeBlocks]: [Ok true] when the loop returns. *)
Definition syncUnsafeBlocks_tick (eng : ExecEngine) (e : EngineController) (l2 el : latest)
    (byRange : payload_range) (maxBatchSize : Z) : EngineController * list Event * result bool :=
  if not_found l2 || not_found el then (e, [], Ok false)
  else
    match l2.1, el.1 with
    | Some startBlock, Some endBlock =>
        let startHeight := int_of (startBlock +u 1) in
        let endHeight := clamp startHeight (int_of endBlock) maxBatchSize in
        if endHeight <=? startHeight then (e, [], Ok true)
        else
          match byRange startHeight endHeight with
          | Panic => (e, [], Panic)
          | Err _ => (e, [], Ok false)
          | Ok payloads =>
              let '(e, evs, r) := insert_range false eng e payloads in
              (e, evs, let* _ := r in Ok false)
          end
    | _, _ => (e, [], Ok false)
    end.

Definition checkSyncUnsafeBlocks (eng : ExecEngine) (e : EngineController) (l2 el : latest)
    (byRange : payload_range) (maxBatchSize : Z) : EngineController * list Event * result unit :=
  if not_found l2 then (e, [], Err (default EOF l2.2))
  else if not_found el then (e, [], Err (default EOF el.2))
  else
    match l2.1, el.1 with
    | Some startBlock, Some endBlock =>
        if startBlock <? endBlock -u 5 then
          let startHeight := int_of (startBlock +u 1) in
          let endHeight := clamp startHeight (int_of endBlock) maxBatchSize in
          match byRange startHeight endHeight with
          | Panic => (e, [], Panic)
          | Err err => (e, [], Err err)
          | Ok payloads => insert_range true eng e payloads
          end
        else (e, [], Ok ())
    | _, _ => (e, [], Ok ())
    end.

(** ** Properties *)

Definition resets_backoff (ev : NodeEvent) : bool :=
  match ev with ResetStepBackoffEvent | StepReqEvent true => true | _ => false end.
Definition is_attempt (ev : NodeEvent) : bool :=
  match ev with StepAttemptEvent => true | _ => false end.

(** The scheduler over a sequence of events, each with a jitter. *)
Fixpoint scheduler_run (s : StepSchedulingDeriver) (evs : list (Z * NodeEvent))
    : StepSchedulingDeriver * list NodeEvent :=
  match evs with
  | [] => (s, [])
  | (rand, ev) :: rest =>
      match StepScheduling_OnEvent rand s ev with
      | Some (Some (s, out)) => let (s', outs) := scheduler_run s rest in (s', out ++ outs)
      | _ => scheduler_run s rest
      end
  end.

Definition attempts (evs : list (Z * NodeEvent)) : nat :=
  length (List.filter (fun p => is_attempt p.2) evs).

Definition pending (s : StepSchedulingDeriver) : Prop :=
  stepReqCh s = true \/ delayedStepReq s <> None.

Lemma Duration_bounds rand k : 0 <= rand < 250 * millisecond -> 0 < k ->
  Z.min (2 ^ k) 10 * second <= Exponential_Duration Exponential rand k
    < Z.min (2 ^ k) 10 * second + 250 * millisecond.
Proof.
  intros Hr Hk. unfold Exponential_Duration, Exponential. simpl.
  destruct (Z.ltb_spec k 0); [lia|].
  destruct (Z.ltb_spec (10 * second) (0 + 2 ^ k * second)); unfold second in *; lia.
Qed.

Lemma scheduler_run_attempts evs s s' out :
  forallb (fun p => negb (resets_backoff p.2)) evs = true ->
  scheduler_run s evs = (s', out) ->
  stepAttempts s' = stepAttempts s + Z.of_nat (attempts evs)
  /\ out = replicate (attempts evs) StepEvent.
Proof.
  revert s out. induction evs as [|[rand ev] evs IH]; intros s out Hb; simpl.
  { intros [= <- <-]. split; [unfold attempts; simpl; lia|done]. }
  simpl in Hb. apply andb_true_iff in Hb as [Hev Hb].
  assert (forall s1, stepAttempts s1 = stepAttempts s -> is_attempt ev = false ->
    (let (s2, outs) := scheduler_run s1 evs in (s2, [] ++ outs)) = (s', out) ->
    stepAttempts s' = stepAttempts s + Z.of_nat (attempts ((rand, ev) :: evs))
    /\ out = replicate (attempts ((rand, ev) :: evs)) StepEvent) as Hplain.
  { intros s1 Hs1 Ha. unfold attempts. simpl. rewrite Ha.
    destruct (scheduler_run s1 evs) as [s2 o2] eqn:E2. intros [= -> <-].
    destruct (IH s1 o2 Hb E2) as [-> ->]. by rewrite Hs1. }
  assert (is_attempt ev = false -> scheduler_run s evs = (s', out) ->
    stepAttempts s' = stepAttempts s + Z.of_nat (attempts ((rand, ev) :: evs))
    /\ out = replicate (attempts ((rand, ev) :: evs)) StepEvent) as Hskip.
  { intros Ha E2. unfold attempts. simpl. rewrite Ha. by apply IH. }
  destruct ev; simpl; try (by apply Hskip); try (by apply Hplain); simpl in Hev; try done.
  - destruct ResetBackoff; [done|]. apply Hplain; [|done]. by destruct (0 <? stepAttempts s).
  - clear Hplain Hskip. destruct (scheduler_run _ evs) as [s2 o2] eqn:E2. intros [= -> <-].
    destruct (IH _ o2 Hb E2) as [-> ->]. unfold attempts. simpl. split; [lia|done].
Qed.

(** The scheduler turns each attempt into exactly one step and never
    loses a request: after a step request a step is always pending, either on
    the channel or on the timer.  While nothing resets the backoff, the [k]-th
    re-attempt waits [min(2^k, 10)] seconds plus less than a quarter second
    of jitter, and no request after the first attempt runs at once. *)
Theorem scheduler_backoff evs rand s out :
  forallb (fun p => negb (resets_backoff p.2)) evs = true ->
  0 <= rand < 250 * millisecond ->
  scheduler_run NewStepSchedulingDeriver evs = (s, out) ->
  let k := Z.of_nat (attempts evs) in
  out = replicate (attempts evs) StepEvent
  /\ exists s', StepScheduling_OnEvent rand s (StepReqEvent false) = Some (Some (s', []))
       /\ pending s' /\ stepAttempts s' = k
       /\ (0 < k -> stepReqCh s' = stepReqCh s
           /\ (delayedStepReq s = None -> exists delay, delayedStepReq s' = Some delay
                /\ Z.min (2 ^ k) 10 * second <= delay
                   < Z.min (2 ^ k) 10 * second + 250 * millisecond)).
Proof.
  intros Hb Hr Hrun. destruct (scheduler_run_attempts evs _ s out Hb Hrun) as [Ha Ho].
  cbv zeta. split; [done|]. simpl in Ha. rewrite Z.add_0_l in Ha. simpl. rewrite Ha. eexists. split; [reflexivity|].
  unfold pending. destruct (Z.ltb_spec 0 (Z.of_nat (attempts evs))); simpl.
  - split_and!; [|done|].
    + right. by destruct (delayedStepReq s).
    + intros _. split; [done|]. intros ->. eexists. split; [done|]. by apply Duration_bounds.
  - split_and!; [by left|done|lia].
Qed.

Lemma clamp_min start end_ size : start <= end_ -> end_ - start < two64 - 1 ->
  0 < size <= two63 -> clamp start end_ size = Z.min end_ (start + size - 1).
Proof.
  intros Hle Hlt Hs. unfold clamp. unfold two63 in *.
  rewrite (u64_small (Z.abs _)) by (unfold is_u64; lia).
  rewrite (u64_small (_ + 1)) by (unfold is_u64; lia).
  rewrite (u64_small (size - 1)) by (unfold is_u64, two64; lia).
  rewrite int_of_small by (unfold two63; lia).
  destruct (Z.leb_spec (Z.abs (end_ - start) + 1) size); lia.
Qed.

(** The range asked for is never longer than the batch size and always
    starts with the next block: with a positive batch size and a head ahead of
    the start, [clamp] ends it at the head or after a full batch, whichever
    comes first. *)
Theorem clamp_spec start end_ size : start <= end_ -> end_ - start < two64 - 1 ->
  0 < size <= two63 ->
  clamp start end_ size = Z.min end_ (start + size - 1)
  /\ 1 <= clamp start end_ size - start + 1 <= size.
Proof. intros Hle Hlt Hs. rewrite clamp_min by done. lia. Qed.

(** The initial synchronisation reports that all blocks are there while
    blocks are missing: its loop returns when one block is missing, and with a
    batch size of one it returns however far the node is behind. *)
Theorem syncUnsafeBlocks_stops_short eng e byRange local remote size :
  0 <= local < remote -> remote < two63 -> 0 < size <= two63 ->
  (syncUnsafeBlocks_tick eng e (Some local, None) (Some remote, None) byRange size
   = (e, [], Ok true)) <-> remote = local + 1 \/ size = 1.
Proof.
  intros Hl Hr Hs. unfold syncUnsafeBlocks_tick, not_found. simpl.
  assert (two63 < two64) as H6 by done.
  rewrite (u64_small (local + 1)) by (unfold is_u64; lia).
  rewrite !int_of_small by lia.
  rewrite clamp_min by lia.
  destruct (Z.leb_spec (Z.min remote (local + 1 + size - 1)) (local + 1)).
  - split; [lia|done].
  - split; [|lia]. destruct (byRange _ _) as [payloads|err|]; [|done|done].
    destruct (insert_range false eng e payloads) as [[e' evs] [[]|err|]]; done.
Qed.

(** Close to genesis the check for a lagging node wraps around: when the
    other client's head is below block 5 the unsigned difference is huge, so a
    node that is level with it or ahead asks for a range of blocks that ends
    before it starts. *)
Theorem checkSyncUnsafeBlocks_wraps eng e byRange local remote size :
  0 <= remote < 5 -> remote <= local -> local < two63 - 1 -> local - remote + 1 < size <= two63 ->
  checkSyncUnsafeBlocks eng e (Some local, None) (Some remote, None) byRange size
  = match byRange (local + 1) remote with
    | Ok payloads => insert_range true eng e payloads
    | Err err => (e, [], Err err)
    | Panic => (e, [], Panic)
    end.
Proof.
  intros Hr Hl H63 Hs. unfold checkSyncUnsafeBlocks, not_found. simpl.
  assert (two63 < two64) as H6 by done.
  assert (u64 (remote - 5) = remote - 5 + two64) as ->.
  { unfold u64. rewrite <- (Z.mod_add _ 1) by done. rewrite Z.mod_small; lia || (unfold two64; lia). }
  rewrite (proj2 (Z.ltb_lt _ _)) by (unfold two63, two64 in *; lia).
  rewrite (u64_small (local + 1)) by (unfold is_u64; lia). rewrite !int_of_small by lia.
  unfold clamp. rewrite (u64_small (Z.abs _)) by (unfold is_u64; lia).
  rewrite (u64_small (_ + 1)) by (unfold is_u64; lia).
  rewrite (proj2 (Z.leb_le _ _)) by lia. done.
Qed.

(** ** Witnesses *)

Lemma scheduler_backoff_witness :
  let evs := [(0, StepReqEvent false); (0, StepAttemptEvent); (0, StepReqEvent false);
              (0, StepAttemptEvent)] in
  exists s out s' delay, scheduler_run NewStepSchedulingDeriver evs = (s, out)
    /\ StepScheduling_OnEvent 7 s (StepReqEvent false) = Some (Some (s', []))
    /\ delayedStepReq s' = Some delay /\ 4 * second <= delay.
Proof.
  cbv zeta.
  destruct (scheduler_backoff [(0, StepReqEvent false); (0, StepAttemptEvent);
    (0, StepReqEvent false); (0, StepAttemptEvent)] 7 {| stepAttempts := 2;
    delayedStepReq := None; stepReqCh := true |} [StepEvent; StepEvent])
    as (_ & s' & H1 & _ & _ & H2).
  - reflexivity.
  - unfold millisecond; lia.
  - reflexivity.
  - destruct (H2 eq_refl) as [_ H3]. destruct (H3 eq_refl) as (delay & H4 & H5 & _).
    eexists _, _, s', delay. split; [reflexivity|]. split; [exact H1|]. split; [exact H4|exact H5].
Defined.

Lemma clamp_spec_witness : clamp 100 1000 20 = 119.
Proof. apply (clamp_spec 100 1000 20); vm_compute; intuition congruence. Defined.

(** A remote client with nothing to offer. *)
Definition ex_range : payload_range := fun _ _ => Ok [].

Lemma syncUnsafeBlocks_stops_short_witness :
  syncUnsafeBlocks_tick (ex_engine ex_labels) ex_controller (Some 10, None) (Some 5000, None) ex_range 1
  = (ex_controller, [], Ok true).
Proof.
  apply (syncUnsafeBlocks_stops_short (ex_engine ex_labels) ex_controller ex_range 10 5000 1);
    [vm_compute; intuition congruence..|right; reflexivity].
Defined.

Lemma checkSyncUnsafeBlocks_wraps_witness :
  checkSyncUnsafeBlocks (ex_engine ex_labels) ex_controller (Some 3, None) (Some 3, None)
    (fun start end_ => Err (if end_ <? start then Msg "inverted range" else EOF)) 20
  = (ex_controller, [], Err (Msg "inverted range")).
Proof.
  exact (checkSyncUnsafeBlocks_wraps (ex_engine ex_labels) ex_controller
    (fun start end_ => Err (if end_ <? start then Msg "inverted range" else EOF)) 3 3 20
    ltac:(lia) ltac:(lia) ltac:(unfold two63; lia) ltac:(unfold two63; lia)).
Defined.
