(* ===== verification/Sequencer.v ===== *)
(** * The sequencer

    Models [rhs-node/rollup/sequencing]: the sequencer's event handlers and
    its start, stop and initialisation (sequencer.go), the disabled sequencer
    (disabled.go), the origin selector (origin_selector.go) and the
    asynchronous gossiper ([rhs-node/rollup/async/asyncgossiper.go]).

    Times are nanoseconds since the epoch.  A call of the gossiper blocks for
    ever when its loop does not run; a handler's [None] is such a call or a
    panic.  The building state has no start time: it is only passed on for
    metrics, and set together with the job's identifier. *)

From S2P Require Import Prelude EthTypes RollupConfig SpanBatch Batches Pipeline Engine.
From S2P Require Import EngineDeriver NodeEvents Driver.

(** ** The asynchronous gossiper *)

Record AsyncGossiper : Type := {
  running : bool;
  currentPayload : option ExecutionPayloadEnvelope }.

Definition NewAsyncGossiper : AsyncGossiper := {| running := false; currentPayload := None |}.

(** The handlers of the gossiping loop; [publish] is the network, a nil error
    is [None]. *)
Definition gossip (publish : ExecutionPayloadEnvelope -> option error) (p : AsyncGossiper)
    (payload : ExecutionPayloadEnvelope) : AsyncGossiper :=
  match publish payload with
  | None => {| running := running p; currentPayload := Some payload |}
  | Some _ => p
  end.

Definition getPayload (p : AsyncGossiper) : option ExecutionPayloadEnvelope := currentPayload p.

Definition clearPayload (p : AsyncGossiper) : AsyncGossiper :=
  {| running := running p; currentPayload := None |}.

(** The synchronous calls wait for the loop to take the request. *)
Definition gossiper_call {A} (p : AsyncGossiper) (r : A) : option A :=
  if running p then Some r else None.

Definition Gossip (publish : ExecutionPayloadEnvelope -> option error) (p : AsyncGossiper)
    (payload : ExecutionPayloadEnvelope) : option AsyncGossiper :=
  gossiper_call p (gossip publish p payload).

Definition gossip_Get (p : AsyncGossiper) : option (option ExecutionPayloadEnvelope) :=
  gossiper_call p (getPayload p).

Definition gossip_Clear (p : AsyncGossiper) : option AsyncGossiper :=
  gossiper_call p (clearPayload p).

Definition gossip_Start (p : AsyncGossiper) : AsyncGossiper :=
  {| running := true; currentPayload := currentPayload p |}.

Definition gossip_Stop (p : AsyncGossiper) : AsyncGossiper :=
  {| running := false; currentPayload := currentPayload p |}.

(** ** State *)

Definition sealingDuration : Z := 50 * millisecond.

Definition zeroPayloadInfo : PayloadInfo := {| pi_ID := 0; pi_Timestamp := 0 |}.

#[global] Instance PayloadInfo_eq_dec : EqDecision PayloadInfo.
Proof. solve_decision. Defined.

Record BuildingState : Type := {
  Onto : L2BlockRef;
  Info : PayloadInfo;
  Ref : L2BlockRef }.

#[global] Instance BuildingState_eq_dec : EqDecision BuildingState.
Proof. solve_decision. Defined.

Definition zeroBuildingState : BuildingState :=
  {| Onto := zeroL2BlockRef; Info := zeroPayloadInfo; Ref := zeroL2BlockRef |}.

(** [latestHeadSet] is whether a stop request waits for the head. *)
Record Sequencer : Type := {
  seq_cfg : Config;
  maxSafeLag : Z;
  recoverMode : bool;
  active : bool;
  asyncGossip : AsyncGossiper;
  nextAction : Z;
  nextActionOK : bool;
  latest : BuildingState;
  latestSealed : L2BlockRef;
  latestHead : L2BlockRef;
  latestHeadSet : bool }.

Definition NewSequencer (cfg : Config) : Sequencer :=
  {| seq_cfg := cfg; maxSafeLag := 0; recoverMode := false; active := false;
     asyncGossip := NewAsyncGossiper; nextAction := 0; nextActionOK := false;
     latest := zeroBuildingState; latestSealed := zeroL2BlockRef; latestHead := zeroL2BlockRef;
     latestHeadSet := false |}.

(** What the handlers read: the clock, the network, and what the attributes
    builder reads.  [in_unix] is [time.Now().Unix()] after the attributes are
    prepared. *)
Record SeqInputs : Type := {
  sq_now : Z;
  sq_publish : ExecutionPayloadEnvelope -> option error;
  sq_l2 : L2Source;
  sq_up : UpgradeTxs;
  sq_clock : Clock;
  sq_unix : Z }.

(** [time.Duration(bt) * time.Second] and [time.Unix(int64(t), 0)] *)
Definition seconds (bt : Z) : Z := int_of (u64 (bt * second)).
Definition unix_time (t : Z) : Z := int_of t * second.

Definition with_action (d : Sequencer) (t : Z) (ok : bool) : Sequencer :=
  {| seq_cfg := seq_cfg d; maxSafeLag := maxSafeLag d; recoverMode := recoverMode d;
     active := active d; asyncGossip := asyncGossip d; nextAction := t; nextActionOK := ok;
     latest := latest d; latestSealed := latestSealed d; latestHead := latestHead d;
     latestHeadSet := latestHeadSet d |}.

Definition with_latest (d : Sequencer) (b : BuildingState) : Sequencer :=
  {| seq_cfg := seq_cfg d; maxSafeLag := maxSafeLag d; recoverMode := recoverMode d;
     active := active d; asyncGossip := asyncGossip d; nextAction := nextAction d;
     nextActionOK := nextActionOK d; latest := b; latestSealed := latestSealed d;
     latestHead := latestHead d; latestHeadSet := latestHeadSet d |}.

Definition with_gossip (d : Sequencer) (g : AsyncGossiper) : Sequencer :=
  {| seq_cfg := seq_cfg d; maxSafeLag := maxSafeLag d; recoverMode := recoverMode d;
     active := active d; asyncGossip := g; nextAction := nextAction d;
     nextActionOK := nextActionOK d; latest := latest d; latestSealed := latestSealed d;
     latestHead := latestHead d; latestHeadSet := latestHeadSet d |}.

Definition with_sealed (d : Sequencer) (r : L2BlockRef) : Sequencer :=
  {| seq_cfg := seq_cfg d; maxSafeLag := maxSafeLag d; recoverMode := recoverMode d;
     active := active d; asyncGossip := asyncGossip d; nextAction := nextAction d;
     nextActionOK := nextActionOK d; latest := latest d; latestSealed := r;
     latestHead := latestHead d; latestHeadSet := latestHeadSet d |}.

Definition with_cfg (d : Sequencer) (cfg : Config) : Sequencer :=
  {| seq_cfg := cfg; maxSafeLag := maxSafeLag d; recoverMode := recoverMode d;
     active := active d; asyncGossip := asyncGossip d; nextAction := nextAction d;
     nextActionOK := nextActionOK d; latest := latest d; latestSealed := latestSealed d;
     latestHead := latestHead d; latestHeadSet := latestHeadSet d |}.

Definition with_active (d : Sequencer) (b : bool) : Sequencer :=
  {| seq_cfg := seq_cfg d; maxSafeLag := maxSafeLag d; recoverMode := recoverMode d;
     active := b; asyncGossip := asyncGossip d; nextAction := nextAction d;
     nextActionOK := nextActionOK d; latest := latest d; latestSealed := latestSealed d;
     latestHead := latestHead d; latestHeadSet := latestHeadSet d |}.

Definition setLatestHead (d : Sequencer) (head : L2BlockRef) : Sequencer :=
  {| seq_cfg := seq_cfg d; maxSafeLag := maxSafeLag d; recoverMode := recoverMode d;
     active := active d; asyncGossip := asyncGossip d; nextAction := nextAction d;
     nextActionOK := nextActionOK d; latest := latest d; latestSealed := latestSealed d;
     latestHead := head; latestHeadSet := false |}.

(** ** Handlers *)

Definition handleInvalid (now : Z) (d : Sequencer) : option Sequencer :=
  g ← gossip_Clear (asyncGossip d);
  let d := with_gossip (with_latest d zeroBuildingState) g in
  Some (with_action d (now + seconds (BlockTime (seq_cfg d))) (active d)).

Definition invalidated (r : option Sequencer) : outcome Sequencer := d ← r; Some (d, []).

Definition seq_onBuildStarted (now : Z) (d : Sequencer) (info : PayloadInfo) (parent : L2BlockRef)
    : outcome Sequencer :=
  if bool_decide (Onto (latest d) <> parent) then
    d ← handleInvalid now d; Some (d, [Eng (BuildCancelEvent info true)])
  else
    let d := with_latest d {| Onto := Onto (latest d); Info := info; Ref := Ref (latest d) |} in
    let payloadTime := unix_time (l2_Time parent +u BlockTime (seq_cfg d)) in
    let remainingTime := payloadTime - now in
    Some (with_action d (if remainingTime <? sealingDuration then now
                         else payloadTime - sealingDuration) (active d), []).

Definition seq_onBuildSealed (publish : ExecutionPayloadEnvelope -> option error) (d : Sequencer)
    (concluding : bool) (info : PayloadInfo) (envelope : ExecutionPayloadEnvelope)
    (ref : L2BlockRef) : outcome Sequencer :=
  if bool_decide (Info (latest d) <> info) then Some (d, [])
  else
    g ← Gossip publish (asyncGossip d) envelope;
    let d := with_gossip d g in
    let d := with_latest d {| Onto := Onto (latest d); Info := Info (latest d); Ref := ref |} in
    Some (with_sealed d ref, [Eng (PayloadProcessEvent concluding envelope ref)]).

(** [onPayloadSealInvalid] and [onPayloadSealExpiredError] *)
Definition seq_onSealError (now : Z) (d : Sequencer) (info : PayloadInfo) : outcome Sequencer :=
  if bool_decide (Info (latest d) <> info) then Some (d, []) else invalidated (handleInvalid now d).

Definition seq_onPayloadInvalid (now : Z) (d : Sequencer) (envelope : ExecutionPayloadEnvelope)
    : outcome Sequencer :=
  if bool_decide (l2_Hash (Ref (latest d)) <> ep_BlockHash (env_ExecutionPayload envelope))
  then Some (d, []) else invalidated (handleInvalid now d).

Definition seq_onPayloadSuccess (d : Sequencer) (envelope : ExecutionPayloadEnvelope)
    : outcome Sequencer :=
  if bool_decide (Ref (latest d) <> zeroL2BlockRef)
     && bool_decide (l2_Hash (Ref (latest d)) <> ep_BlockHash (env_ExecutionPayload envelope))
  then Some (d, [])
  else
    g ← gossip_Clear (asyncGossip d);
    Some (with_gossip (with_latest d zeroBuildingState) g, []).

(** The error of the attributes builder, classified. *)
Definition attributes_error_event (err : error) : Event :=
  if Error_Is err LevelTemporary then EngineTemporaryErrorEvent (Some err)
  else if Error_Is err LevelReset then ResetEvent err
  else if Error_Is err LevelCritical then CriticalErrorEvent err
  else CriticalErrorEvent (Wrap "unexpected attributes-preparation error" err).

(** Whether the sequencer leaves the transaction pool out of the block. *)
Definition no_tx_pool (cfg : Config) (recover : bool) (timestamp now : Z) : bool :=
  (u64 now <? timestamp)
  || IsEcotoneActivationBlock cfg timestamp || IsFjordActivationBlock cfg timestamp
  || IsIsthmusActivationBlock cfg timestamp || IsInteropActivationBlock cfg timestamp
  || recover.

Definition set_NoTxPool (a : PayloadAttributes) (b : bool) : PayloadAttributes :=
  {| pa_Timestamp := pa_Timestamp a; pa_PrevRandao := pa_PrevRandao a;
     pa_SuggestedFeeRecipient := pa_SuggestedFeeRecipient a;
     pa_Withdrawals := pa_Withdrawals a;
     pa_ParentBeaconBlockRoot := pa_ParentBeaconBlockRoot a;
     pa_Transactions := pa_Transactions a; pa_NoTxPool := b; pa_GasLimit := pa_GasLimit a;
     pa_EIP1559Params := pa_EIP1559Params a |}.

Definition startBuildingBlock (inp : SeqInputs) (d : Sequencer) : outcome Sequencer :=
  let l2Head := latestHead d in
  if bool_decide (l2Head = zeroL2BlockRef) then Some (d, [Eng ForkchoiceRequestEvent])
  else if bool_decide (Onto (latest d) = l2Head) then Some (d, [])
  else
    match PreparePayloadAttributes (seq_cfg d) (sq_l2 inp) (sq_up inp) (sq_clock inp) l2Head with
    | Panic => None
    | Err err => Some (d, [Eng (attributes_error_event err)])
    | Ok attrs =>
        let attrs := set_NoTxPool attrs
                       (no_tx_pool (seq_cfg d) (recoverMode d) (pa_Timestamp attrs) (sq_unix inp)) in
        let withParent := {| Attributes := attrs; Parent := l2Head; Concluding := true |} in
        let d := with_action d (nextAction d) false in
        let d := with_latest d {| Onto := l2Head; Info := zeroPayloadInfo; Ref := zeroL2BlockRef |} in
        Some (d, [Eng (BuildStartEvent withParent)])
    end.

Definition onSequencerAction (inp : SeqInputs) (d : Sequencer) : outcome Sequencer :=
  payload ← gossip_Get (asyncGossip d);
  match payload with
  | Some payload =>
      let (cfg, r) := PayloadToBlockRef (seq_cfg d) (env_ExecutionPayload payload) in
      let d := with_cfg d cfg in
      match r with
      | Panic => None
      | Err _ => g ← gossip_Clear (asyncGossip d); Some (with_gossip d g, [])
      | Ok ref =>
          Some (with_latest d {| Onto := Onto (latest d); Info := Info (latest d); Ref := ref |},
                [Eng (PayloadProcessEvent false payload ref)])
      end
  | None =>
      if bool_decide (Info (latest d) <> zeroPayloadInfo) then
        Some (with_action d (nextAction d) false, [Eng (BuildSealEvent (Info (latest d)) true)])
      else if bool_decide (latest d = zeroBuildingState) then startBuildingBlock inp d
      else Some (d, [])
  end.

Definition seq_onEngineTemporaryError (now : Z) (d : Sequencer) (err : option error)
    : outcome Sequencer :=
  let syncing := match err with Some err => errors_Is err ErrEngineSyncing | None => false end in
  let d := with_action d (now + (if syncing then 30 * second else second)) (active d) in
  Some (if bool_decide (Info (latest d) = zeroPayloadInfo) then with_latest d zeroBuildingState else d,
        []).

Definition seq_onReset (d : Sequencer) : outcome Sequencer :=
  let cancel := if bool_decide (Info (latest d) <> zeroPayloadInfo)
                then [Eng (BuildCancelEvent (Info (latest d)) false)] else [] in
  let d := with_latest d zeroBuildingState in
  Some (with_action d (nextAction d) false, cancel).

Definition seq_onEngineResetConfirmed (now : Z) (d : Sequencer) : outcome Sequencer :=
  Some (with_action d (now + seconds (BlockTime (seq_cfg d))) (active d), []).

Definition seq_onForkchoiceUpdate (now : Z) (d : Sequencer) (unsafe safe : L2BlockRef)
    : outcome Sequencer :=
  if negb (active d) then Some (setLatestHead d unsafe, [])
  else
    let d := if (0 <? maxSafeLag d) && (l2_Number safe +u maxSafeLag d <=? l2_Number unsafe)
             then with_action d (nextAction d) false else d in
    let d := if bool_decide (latest d <> zeroBuildingState)
                && (l2_Number (Onto (latest d)) <? l2_Number unsafe)
             then with_latest d zeroBuildingState else d in
    let d := if l2_Number (latestHead d) <? l2_Number unsafe then
               let blockTime := seconds (BlockTime (seq_cfg d)) in
               let payloadTime := unix_time (l2_Time unsafe +u BlockTime (seq_cfg d)) in
               with_action d (if blockTime <? payloadTime - now then payloadTime - blockTime else now)
                 true
             else d in
    Some (setLatestHead d unsafe, []).

Definition Sequencer_OnEvent (inp : SeqInputs) (d : Sequencer) (ev : NodeEvent)
    : option (outcome Sequencer) :=
  match ev with
  | Eng (BuildStartedEvent info parent _) => Some (seq_onBuildStarted (sq_now inp) d info parent)
  | Eng (InvalidPayloadAttributesEvent _ _) => Some (invalidated (handleInvalid (sq_now inp) d))
  | Eng (BuildSealedEvent concluding info envelope ref) =>
      Some (seq_onBuildSealed (sq_publish inp) d concluding info envelope ref)
  | Eng (PayloadSealInvalidEvent info _ _) => Some (seq_onSealError (sq_now inp) d info)
  | Eng (PayloadSealExpiredErrorEvent info _ _) => Some (seq_onSealError (sq_now inp) d info)
  | Eng (PayloadInvalidEvent envelope _) => Some (seq_onPayloadInvalid (sq_now inp) d envelope)
  | Eng (PayloadSuccessEvent _ envelope _) => Some (seq_onPayloadSuccess d envelope)
  | SequencerActionEvent => Some (onSequencerAction inp d)
  | Eng (EngineTemporaryErrorEvent err) => Some (seq_onEngineTemporaryError (sq_now inp) d err)
  | Eng (ResetEvent _) => Some (seq_onReset d)
  | Eng (EngineResetConfirmedEvent _ _ _ _ _) => Some (seq_onEngineResetConfirmed (sq_now inp) d)
  | Eng (ForkchoiceUpdateEvent unsafe safe _) =>
      Some (seq_onForkchoiceUpdate (sq_now inp) d unsafe safe)
  | _ => None
  end.

(** ** Control *)

(** The listener for the sequencer's state; [None] is a nil error. *)
Record SequencerStateListener : Type := {
  SequencerStarted : option error;
  SequencerStopped : option error }.

Definition ErrSequencerAlreadyStarted : error := Msg "sequencer already running".
Definition ErrSequencerAlreadyStopped : error := Msg "sequencer not running".
Definition ErrSequencerNotEnabled : error := Msg "sequencer is not enabled".

Definition NextAction (d : Sequencer) : Z * bool := (nextAction d, nextActionOK d).
Definition Active (d : Sequencer) : bool := active d.

Definition forceStart (lis : SequencerStateListener) (now : Z) (d : Sequencer)
    : option (Sequencer * result unit) :=
  d ← (if bool_decide (latestHead d = zeroL2BlockRef) then
         g ← gossip_Clear (asyncGossip d); Some (with_gossip d g)
       else
         payload ← gossip_Get (asyncGossip d);
         match payload with
         | Some payload =>
             if bool_decide (ep_BlockHash (env_ExecutionPayload payload) <> l2_Hash (latestHead d))
             then g ← gossip_Clear (asyncGossip d); Some (with_gossip d g)
             else Some d
         | None => Some d
         end);
  match SequencerStarted lis with
  | Some err =>
      Some (d, Err (Wrap "failed to notify sequencer-state listener of start" err))
  | None =>
      let d := with_latest d zeroBuildingState in
      Some (with_active (with_action d now true) true, Ok ())
  end.

Definition Sequencer_Start (lis : SequencerStateListener) (now : Z) (d : Sequencer) (head : Hash)
    : option (Sequencer * result unit) :=
  if active d then Some (d, Err ErrSequencerAlreadyStarted)
  else if bool_decide (latestHead d = zeroL2BlockRef) then
    Some (d, Err (Msg "no prestate, cannot determine if sequencer start is safe"))
  else if bool_decide (head <> l2_Hash (latestHead d)) then
    Some (d, Err (Msg "block hash does not match"))
  else forceStart lis now d.

(** The forkchoice request is emitted before the start. *)
Definition Sequencer_Init (lis : SequencerStateListener) (now : Z) (d : Sequencer) (act : bool)
    : option (Sequencer * list NodeEvent * result unit) :=
  let d := with_gossip d (gossip_Start (asyncGossip d)) in
  let evs := [Eng ForkchoiceRequestEvent] in
  if act then '(d, r) ← forceStart lis now d; Some (d, evs, r)
  else Some (d, evs,
    match SequencerStopped lis with
    | Some err =>
        Err (Wrap "failed to notify sequencer-state listener of initial stopped state" err)
    | None => Ok ()
    end).

(** One round of [Stop] under the lock; [None] as result: it released the lock
    to wait for the head and tries again when the head is set. *)
Definition Sequencer_Stop (lis : SequencerStateListener) (d : Sequencer)
    : Sequencer * option (result Hash) :=
  if negb (active d) then (d, Some (Err ErrSequencerAlreadyStopped))
  else if bool_decide (l2_Hash (latestHead d) <> l2_Hash (latestSealed d)) then
    ({| seq_cfg := seq_cfg d; maxSafeLag := maxSafeLag d; recoverMode := recoverMode d;
        active := active d; asyncGossip := asyncGossip d; nextAction := nextAction d;
        nextActionOK := nextActionOK d; latest := latest d; latestSealed := latestSealed d;
        latestHead := latestHead d; latestHeadSet := true |}, None)
  else
    match SequencerStopped lis with
    | Some err =>
        (d, Some (Err (Wrap "failed to notify sequencer-state listener of stop" err)))
    | None =>
        let d := with_latest d zeroBuildingState in
        (with_active (with_action d (nextAction d) false) false, Some (Ok (l2_Hash (latestHead d))))
    end.

Definition SetMaxSafeLag (d : Sequencer) (v : Z) : Sequencer :=
  {| seq_cfg := seq_cfg d; maxSafeLag := v; recoverMode := recoverMode d;
     active := active d; asyncGossip := asyncGossip d; nextAction := nextAction d;
     nextActionOK := nextActionOK d; latest := latest d; latestSealed := latestSealed d;
     latestHead := latestHead d; latestHeadSet := latestHeadSet d |}.

Definition SetRecoverMode (d : Sequencer) (mode : bool) : Sequencer :=
  {| seq_cfg := seq_cfg d; maxSafeLag := maxSafeLag d; recoverMode := mode;
     active := active d; asyncGossip := asyncGossip d; nextAction := nextAction d;
     nextActionOK := nextActionOK d; latest := latest d; latestSealed := latestSealed d;
     latestHead := latestHead d; latestHeadSet := latestHeadSet d |}.

Definition Sequencer_Close (d : Sequencer) : Sequencer :=
  with_gossip d (gossip_Stop (asyncGossip d)).

(** ** The state machine *)

(** The operations, events and calls, with their inputs. *)
Inductive seq_op : Type :=
  | SeqEvent (inp : SeqInputs) (ev : NodeEvent)
  | SeqStart (lis : SequencerStateListener) (now : Z) (head : Hash)
  | SeqStop (lis : SequencerStateListener)
  | SeqSetMaxSafeLag (v : Z)
  | SeqSetRecoverMode (mode : bool).

(** [None] is a panic or a call that never returns. *)
Definition seq_step (d : Sequencer) (op : seq_op) : outcome Sequencer :=
  match op with
  | SeqEvent inp ev => match Sequencer_OnEvent inp d ev with None => Some (d, []) | Some r => r end
  | SeqStart lis now head => '(d, _) ← Sequencer_Start lis now d head; Some (d, [])
  | SeqStop lis => Some ((Sequencer_Stop lis d).1, [])
  | SeqSetMaxSafeLag v => Some (SetMaxSafeLag d v, [])
  | SeqSetRecoverMode mode => Some (SetRecoverMode d mode, [])
  end.

Inductive seq_reachable (cfg : Config) : Sequencer -> Prop :=
  | seq_reach_init lis now act d evs r :
      Sequencer_Init lis now (NewSequencer cfg) act = Some (d, evs, r) -> seq_reachable cfg d
  | seq_reach_step d op d' evs :
      seq_reachable cfg d -> seq_step d op = Some (d', evs) -> seq_reachable cfg d'.

Record seq_inv (d : Sequencer) : Prop := {
  sv_gossip : running (asyncGossip d) = true;
  sv_idle : active d = false -> nextActionOK d = false }.

Lemma call_running {A} p (r : A) : running p = true -> gossiper_call p r = Some r.
Proof. intros H. unfold gossiper_call. by rewrite H. Qed.

Lemma gossip_running publish p env : running (gossip publish p env) = running p.
Proof. unfold gossip. by destruct (publish env). Qed.

Lemma handleInvalid_inv now d : seq_inv d ->
  exists d', handleInvalid now d = Some d' /\ seq_inv d' /\ latest d' = zeroBuildingState.
Proof.
  intros [Hg Hi]. unfold handleInvalid, gossip_Clear. rewrite call_running by done. simpl.
  eexists. split; [reflexivity|]. by split; [constructor|].
Qed.

Lemma with_latest_inv d b : seq_inv d -> seq_inv (with_latest d b).
Proof. intros [Hg Hi]. by constructor. Qed.

Lemma setLatestHead_inv d h : seq_inv d -> seq_inv (setLatestHead d h).
Proof. intros [Hg Hi]. by constructor. Qed.

Lemma with_action_inv d t ok : seq_inv d -> (active d = false -> ok = false) ->
  seq_inv (with_action d t ok).
Proof. intros [Hg Hi] Hok. by constructor. Qed.

#[export] Hint Resolve with_latest_inv with_action_inv setLatestHead_inv : rollup.

Lemma forkchoice_inv now d unsafe safe : seq_inv d ->
  exists d', seq_onForkchoiceUpdate now d unsafe safe = Some (d', []) /\ seq_inv d'
    /\ latestHead d' = unsafe.
Proof.
  intros Hinv. unfold seq_onForkchoiceUpdate. destruct (active d) eqn:Ea; simpl.
  2:{ eexists. split; [reflexivity|]. split; [by apply setLatestHead_inv|done]. }
  eexists. split; [reflexivity|]. split; [|done]. apply setLatestHead_inv.
  assert (forall d1, seq_inv d1 -> active d1 = true -> forall t b,
    seq_inv (if b : bool then with_action d1 t true else d1)) as H3.
  { intros d1 H1 Ha t [|]; [|done]. apply with_action_inv; [done|congruence]. }
  assert (forall d1, seq_inv d1 -> active d1 = true -> forall b : bool,
    seq_inv (if b then with_latest d1 zeroBuildingState else d1)
    /\ active (if b then with_latest d1 zeroBuildingState else d1) = true) as H2.
  { intros d1 H1 Ha []; auto with rollup. }
  assert (forall b : bool, seq_inv (if b then with_action d (nextAction d) false else d)
    /\ active (if b then with_action d (nextAction d) false else d) = true) as H1.
  { intros []; auto with rollup. }
  set (lag := (0 <? maxSafeLag d) && (l2_Number safe +u maxSafeLag d <=? l2_Number unsafe)).
  destruct (H1 lag) as [Hd1 Ha1].
  set (d1 := if lag then with_action d (nextAction d) false else d) in *.
  destruct (H2 d1 Hd1 Ha1 (bool_decide (latest d1 <> zeroBuildingState)
    && (l2_Number (Onto (latest d1)) <? l2_Number unsafe))) as [Hd2 Ha2].
  by apply H3.
Qed.

Lemma startBuilding_inv inp d d' evs : seq_inv d -> startBuildingBlock inp d = Some (d', evs) ->
  seq_inv d'.
Proof.
  intros Hinv. unfold startBuildingBlock.
  repeat case_match; intros; simplify_eq; auto 10 with rollup.
Qed.

Lemma OnEvent_inv inp d ev d' evs : seq_inv d ->
  Sequencer_OnEvent inp d ev = Some (Some (d', evs)) -> seq_inv d'.
Proof.
  intros Hinv. pose proof (handleInvalid_inv (sq_now inp) d Hinv) as (di & Hdi & Hinvi & _).
  destruct ev as [ev| | | | | | | | | | | | | | | | | |  | | | | | ]; try done.
  2:{ cbn [Sequencer_OnEvent]. unfold onSequencerAction, gossip_Get.
      rewrite call_running by apply Hinv. cbn [mbind option_bind].
      destruct (getPayload _) as [payload|].
      - cbn. intros [= <- <-]. destruct Hinv. by constructor.
      - case_bool_decide; [intros [= <- <-]; auto with rollup|].
        case_bool_decide; [|by intros [= <- <-]]. intros [= H2].
        exact (startBuilding_inv inp d d' evs Hinv H2). }
  destruct ev; try done; cbn [Sequencer_OnEvent];
    unfold seq_onBuildStarted, seq_onSealError, seq_onPayloadInvalid, invalidated, seq_onReset,
      seq_onEngineTemporaryError, seq_onEngineResetConfirmed.
  all: try (repeat case_bool_decide; rewrite ?Hdi; cbn [mbind option_bind]; intros [= <- <-];
    by auto with rollup).
  - intros [= H2]. destruct (forkchoice_inv (sq_now inp) d UnsafeL2Head SafeL2Head Hinv)
      as (d2 & E2 & Hd2 & _). congruence.
  - unfold seq_onBuildSealed, Gossip. rewrite call_running by apply Hinv.
    case_bool_decide; [by intros [= <- <-]|]. intros [= <- <-]. destruct Hinv as [Hg Hi].
    constructor; [by simpl; rewrite gossip_running|done].
  - unfold seq_onPayloadSuccess, gossip_Clear. rewrite call_running by apply Hinv.
    destruct (_ && _); [by intros [= <- <-]|]. intros [= <- <-]. destruct Hinv. by constructor.
Qed.

(** The gossip buffer of a start holds the head's block or nothing. *)
Lemma forceStart_spec lis now d : running (asyncGossip d) = true ->
  exists d0 r, forceStart lis now d = Some (match r with Ok _ =>
      with_active (with_action (with_latest d0 zeroBuildingState) now true) true
    | _ => d0 end, r)
    /\ running (asyncGossip d0) = true /\ active d0 = active d /\ nextActionOK d0 = nextActionOK d
    /\ latestHead d0 = latestHead d
    /\ (SequencerStarted lis = None -> r = Ok ())
    /\ (forall payload, currentPayload (asyncGossip d0) = Some payload ->
         ep_BlockHash (env_ExecutionPayload payload) = l2_Hash (latestHead d)).
Proof.
  intros Hg. unfold forceStart, gossip_Clear, gossip_Get, getPayload. rewrite !call_running by done.
  cbn [mbind option_bind].
  set (d0 := if bool_decide (latestHead d = zeroL2BlockRef) then with_gossip d (clearPayload (asyncGossip d))
             else match currentPayload (asyncGossip d) with
                  | Some payload =>
                      if bool_decide (ep_BlockHash (env_ExecutionPayload payload) <> l2_Hash (latestHead d))
                      then with_gossip d (clearPayload (asyncGossip d)) else d
                  | None => d
                  end).
  exists d0. assert (running (asyncGossip d0) = true /\ active d0 = active d
    /\ nextActionOK d0 = nextActionOK d /\ latestHead d0 = latestHead d
    /\ forall payload, currentPayload (asyncGossip d0) = Some payload ->
         ep_BlockHash (env_ExecutionPayload payload) = l2_Hash (latestHead d)) as (H1 & H2 & H3 & H4 & H5).
  { unfold d0. repeat case_bool_decide; [done|].
    destruct (currentPayload (asyncGossip d)) as [p|] eqn:Ep; [|by split_and!; [..|rewrite Ep]].
    case_bool_decide as Hb; [done|]. split_and!; [done..|]. intros p'. rewrite Ep. intros [= <-].
    done. }
  exists (match SequencerStarted lis with
          | Some err => Err (Wrap "failed to notify sequencer-state listener of start" err)
          | None => Ok () end).
  split; [|by split_and!; [..|intros ->|]].
  unfold d0. repeat case_match; try done.
Qed.

(** In every reachable state the gossiper runs, and an inactive sequencer has
    no action scheduled. *)
Lemma seq_reachable_inv cfg d : seq_reachable cfg d -> seq_inv d.
Proof.
  induction 1 as [lis now act d evs r H|d op d' evs _ IH H].
  - unfold Sequencer_Init, forceStart in H. simpl in H.
    destruct act; [|injection H as <- <- <-; by constructor].
    destruct (SequencerStarted lis); simpl in H; injection H as <- <- <-; by constructor.
  - destruct op as [inp ev|lis now head|lis|v|mode]; simpl in H.
    + destruct (Sequencer_OnEvent inp d ev) as [[[d1 o1]|]|] eqn:E; simplify_eq; [|done].
      by eapply OnEvent_inv.
    + unfold Sequencer_Start in H. destruct (active d) eqn:Ea; [by injection H as <- <-|].
      do 2 (case_bool_decide as Hb; [by injection H as <- <-|clear Hb]).
      destruct IH as [Hg Hi].
      destruct (forceStart_spec lis now d Hg) as (d0 & r & E & H1 & H2 & H3 & _).
      rewrite E in H. simpl in H. injection H as <- <-.
      destruct r; (constructor; [done|]); simpl; rewrite ?H2, ?H3; auto; done.
    + injection H as <- <-. unfold Sequencer_Stop. destruct (active d) eqn:Ea; [|done]. simpl.
      destruct IH as [Hg Hi]. case_bool_decide; [by constructor|].
      destruct (SequencerStopped lis); by constructor.
    + injection H as <- <-. destruct IH. by constructor.
    + injection H as <- <-. destruct IH. by constructor.
Qed.

(** ** Properties *)

Lemma startBuilding_emits inp d d' evs a : startBuildingBlock inp d = Some (d', evs) ->
  Eng (BuildStartEvent a) ∈ evs ->
  latestHead d <> zeroL2BlockRef /\ Parent a = latestHead d
  /\ d' = with_latest (with_action d (nextAction d) false)
            {| Onto := latestHead d; Info := zeroPayloadInfo; Ref := zeroL2BlockRef |}
  /\ pa_NoTxPool (Attributes a)
     = no_tx_pool (seq_cfg d) (recoverMode d) (pa_Timestamp (Attributes a)) (sq_unix inp).
Proof.
  unfold startBuildingBlock. case_bool_decide; [intros [= <- <-] Ha; by apply list_elem_of_singleton in Ha|].
  case_bool_decide; [intros [= <- <-] Ha; by apply elem_of_nil in Ha|].
  destruct (PreparePayloadAttributes _ _ _ _ _) as [attrs|err|]; [| |done]; intros [= <- <-] Ha;
    apply list_elem_of_singleton in Ha.
  - injection Ha as ->. by split_and!.
  - injection Ha as Ha. unfold attributes_error_event in Ha. by repeat case_match.
Qed.

(** The event is none of those listed. *)
Ltac not_emitted H := repeat (apply elem_of_cons in H as [H|H]; [done|]); by apply elem_of_nil in H.

(** A block-building job is only started, in any reachable state, by a
    sequencer action while no job is open and no gossiped payload waits; it
    builds on the latest known head, leaves the transaction pool out in the
    activation block of Ecotone, Fjord, Isthmus and Interop, in recover mode
    and when the block lies in the future, and afterwards the job is
    remembered and no further action is scheduled, so the next action cannot
    start a second one. *)
Theorem BuildStart_only_when_idle cfg d inp ev d' evs a :
  seq_reachable cfg d -> Sequencer_OnEvent inp d ev = Some (Some (d', evs)) ->
  Eng (BuildStartEvent a) ∈ evs ->
  ev = SequencerActionEvent /\ latest d = zeroBuildingState
  /\ currentPayload (asyncGossip d) = None
  /\ latestHead d <> zeroL2BlockRef /\ Parent a = latestHead d
  /\ pa_NoTxPool (Attributes a)
     = no_tx_pool (seq_cfg d) (recoverMode d) (pa_Timestamp (Attributes a)) (sq_unix inp)
  /\ Onto (latest d') = latestHead d /\ NextAction d' = (nextAction d, false)
  /\ forall inp', Sequencer_OnEvent inp' d' SequencerActionEvent = Some (Some (d', [])).
Proof.
  intros Hr%seq_reachable_inv Hev Hin. pose proof (sv_gossip _ Hr) as Hg.
  pose proof (handleInvalid_inv (sq_now inp) d Hr) as (di & Hdi & _).
  assert (ev = SequencerActionEvent) as ->.
  { destruct ev as [ev| | | | | | | | | | | | | | | | | |  | | | | | ]; try done.
    exfalso. revert Hev. destruct ev; try done; cbn [Sequencer_OnEvent];
      unfold seq_onBuildStarted, seq_onSealError, seq_onPayloadInvalid, invalidated, seq_onReset,
        seq_onEngineTemporaryError, seq_onEngineResetConfirmed, seq_onBuildSealed,
        seq_onPayloadSuccess, seq_onForkchoiceUpdate, Gossip, gossip_Clear;
      rewrite ?(call_running (asyncGossip d)) by done;
      repeat case_match; rewrite ?Hdi; cbn [mbind option_bind]; intros [= <- <-];
      not_emitted Hin. }
  revert Hev. cbn [Sequencer_OnEvent]. unfold onSequencerAction, gossip_Get, getPayload.
  rewrite call_running by done. cbn [mbind option_bind].
  destruct (currentPayload (asyncGossip d)) as [p|] eqn:Ep.
  { cbn. intros [= <- <-]. by apply list_elem_of_singleton in Hin. }
  case_bool_decide; [intros [= <- <-]; by apply list_elem_of_singleton in Hin|].
  case_bool_decide as Hl; [|intros [= <- <-]; by apply elem_of_nil in Hin].
  intros [= Hb]. destruct (startBuilding_emits inp d d' evs a Hb Hin) as (H1 & H2 & -> & H4).
  split_and!; try done. intros inp'. simpl. rewrite call_running by done. cbn [mbind option_bind].
  rewrite Ep.
  rewrite bool_decide_eq_false_2; [done|]. intros [= E]. by apply H1.
Qed.

(** In every reachable state a sequencer that is not active has no action
    scheduled, and every event is handled without a panic and without waiting
    for a gossiper that does not run, if preparing attributes does not
    panic. *)
Theorem sequencer_invariant cfg d inp ev : seq_reachable cfg d ->
  (forall cfg head, PreparePayloadAttributes cfg (sq_l2 inp) (sq_up inp) (sq_clock inp) head <> Panic) ->
  (Active d = false -> (NextAction d).2 = false) /\ Sequencer_OnEvent inp d ev <> Some None.
Proof.
  intros Hr%seq_reachable_inv Hp. split; [apply Hr|]. pose proof (sv_gossip _ Hr) as Hg.
  pose proof (handleInvalid_inv (sq_now inp) d Hr) as (di & Hdi & _).
  destruct ev as [ev| | | | | | | | | | | | | | | | | |  | | | | | ]; try done.
  - destruct ev; try done; cbn [Sequencer_OnEvent];
      unfold seq_onBuildStarted, seq_onSealError, seq_onPayloadInvalid, invalidated, seq_onReset,
        seq_onEngineTemporaryError, seq_onEngineResetConfirmed, seq_onBuildSealed,
        seq_onPayloadSuccess, seq_onForkchoiceUpdate, Gossip, gossip_Clear;
      rewrite ?(call_running (asyncGossip d)) by done;
      repeat case_match; rewrite ?Hdi; done.
  - cbn [Sequencer_OnEvent]. unfold onSequencerAction, gossip_Get. rewrite call_running by done.
    cbn [mbind option_bind]. destruct (getPayload _); [done|].
    case_bool_decide; [done|]. case_bool_decide; [|done]. unfold startBuildingBlock.
    case_bool_decide; [done|]. case_bool_decide; [done|].
    specialize (Hp (seq_cfg d) (latestHead d)). by destruct (PreparePayloadAttributes _ _ _ _ _).
Qed.

(** An active sequencer on [head] with the building state [b] and the gossiped
    payload [p]; it is idle when it has neither. *)
Record seq_at (d : Sequencer) (head : L2BlockRef) (b : BuildingState)
    (p : option ExecutionPayloadEnvelope) : Prop := {
  at_gossip : asyncGossip d = {| running := true; currentPayload := p |};
  at_active : active d = true;
  at_latest : latest d = b;
  at_head : latestHead d = head;
  at_known : head <> zeroL2BlockRef }.

Definition seq_idle (d : Sequencer) (head : L2BlockRef) : Prop :=
  seq_at d head zeroBuildingState None.

(** What the gossiper keeps of an envelope it was told to gossip: the envelope,
    if the network took it. *)
Definition gossiped (inp : SeqInputs) (envelope : ExecutionPayloadEnvelope) : option ExecutionPayloadEnvelope :=
  match sq_publish inp envelope with None => Some envelope | Some _ => None end.

Definition job (head : L2BlockRef) (info : PayloadInfo) (ref : L2BlockRef) : BuildingState :=
  {| Onto := head; Info := info; Ref := ref |}.

Section Round.
  Context (inp : SeqInputs) (head ref : L2BlockRef) (info : PayloadInfo)
          (envelope : ExecutionPayloadEnvelope).
  Context (Hinfo : info <> zeroPayloadInfo).

Lemma round_start d attrs : seq_idle d head ->
  PreparePayloadAttributes (seq_cfg d) (sq_l2 inp) (sq_up inp) (sq_clock inp) head = Ok attrs ->
  exists d' a, seq_step d (SeqEvent inp SequencerActionEvent) = Some (d', [Eng (BuildStartEvent a)])
    /\ Parent a = head /\ seq_at d' head (job head zeroPayloadInfo zeroL2BlockRef) None.
Proof.
  intros [Hg Ha Hl Hh Hk] Hattrs. cbn [seq_step Sequencer_OnEvent].
  unfold onSequencerAction, gossip_Get, gossiper_call, getPayload, startBuildingBlock.
  rewrite Hg, Hl, Hh. cbn [running currentPayload mbind option_bind Info zeroBuildingState Onto].
  rewrite (bool_decide_eq_false_2 (zeroPayloadInfo <> _)) by (intros E; by apply E).
  rewrite bool_decide_eq_true_2 by done. rewrite (bool_decide_eq_false_2 (head = _)) by done.
  rewrite bool_decide_eq_false_2 by (intros E; by apply Hk). rewrite Hattrs.
  eexists _, _. split; [reflexivity|]. split; [done|]. by constructor.
Qed.

Lemma round_started d c : seq_at d head (job head zeroPayloadInfo zeroL2BlockRef) None ->
  exists d', seq_step d (SeqEvent inp (Eng (BuildStartedEvent info head c))) = Some (d', [])
    /\ seq_at d' head (job head info zeroL2BlockRef) None.
Proof.
  intros [Hg Ha Hl Hh Hk]. cbn [seq_step Sequencer_OnEvent]. unfold seq_onBuildStarted.
  rewrite Hl. rewrite bool_decide_eq_false_2 by (intros E; by apply E).
  eexists. split; [reflexivity|]. by constructor.
Qed.

Lemma round_seal d : seq_at d head (job head info zeroL2BlockRef) None ->
  exists d', seq_step d (SeqEvent inp SequencerActionEvent)
      = Some (d', [Eng (BuildSealEvent info true)])
    /\ seq_at d' head (job head info zeroL2BlockRef) None.
Proof.
  intros [Hg Ha Hl Hh Hk]. cbn [seq_step Sequencer_OnEvent].
  unfold onSequencerAction, gossip_Get, gossiper_call, getPayload. rewrite Hg, Hl.
  cbn [running currentPayload mbind option_bind Info job]. rewrite bool_decide_eq_true_2 by done.
  eexists. split; [reflexivity|]. by constructor.
Qed.

Lemma round_sealed d : seq_at d head (job head info zeroL2BlockRef) None ->
  exists d', seq_step d (SeqEvent inp (Eng (BuildSealedEvent true info envelope ref)))
      = Some (d', [Eng (PayloadProcessEvent true envelope ref)])
    /\ seq_at d' head (job head info ref) (gossiped inp envelope) /\ latestSealed d' = ref.
Proof.
  intros [Hg Ha Hl Hh Hk]. cbn [seq_step Sequencer_OnEvent]. unfold seq_onBuildSealed.
  rewrite Hl. rewrite bool_decide_eq_false_2 by (intros E; by apply E).
  unfold Gossip, gossiper_call, gossip, gossiped. rewrite Hg. cbn [running].
  destruct (sq_publish inp envelope); cbn [mbind option_bind];
    (eexists; split; [reflexivity|]; split; [|done]; constructor; try done; simpl; by rewrite Hl).
Qed.

Lemma round_success d c p : seq_at d head (job head info ref) p ->
  l2_Hash ref = ep_BlockHash (env_ExecutionPayload envelope) ->
  exists d', seq_step d (SeqEvent inp (Eng (PayloadSuccessEvent c envelope ref))) = Some (d', [])
    /\ seq_idle d' head /\ latestSealed d' = latestSealed d.
Proof.
  intros [Hg Ha Hl Hh Hk] Hhash. cbn [seq_step Sequencer_OnEvent]. unfold seq_onPayloadSuccess.
  rewrite Hl. cbn [Ref job].
  rewrite (bool_decide_eq_false_2 (l2_Hash ref <> _)), andb_false_r by (intros E; by apply E).
  unfold gossip_Clear, gossiper_call. rewrite Hg. cbn [running mbind option_bind].
  eexists. split; [reflexivity|]. split; [|done]. by constructor.
Qed.

Lemma round_head d safe fin : seq_idle d head -> l2_Number head < l2_Number ref ->
  ref <> zeroL2BlockRef ->
  exists d', seq_step d (SeqEvent inp (Eng (ForkchoiceUpdateEvent ref safe fin))) = Some (d', [])
    /\ seq_idle d' ref /\ (NextAction d').2 = true /\ latestSealed d' = latestSealed d.
Proof.
  intros [Hg Ha Hl Hh Hk] Hn Hr. cbn [seq_step Sequencer_OnEvent]. unfold seq_onForkchoiceUpdate.
  rewrite Ha. cbn [negb]. eexists. split; [reflexivity|].
  destruct ((0 <? maxSafeLag d) && _); cbn [latest with_action latestHead];
    rewrite Hl, (bool_decide_eq_false_2 (zeroBuildingState <> _)) by (intros E; by apply E);
    cbn [andb with_action latestHead]; rewrite Hh, (proj2 (Z.ltb_lt (l2_Number head) _) Hn);
    (split; [by constructor|done]).
Qed.
End Round.

(** Feeds the events to the sequencer and collects what it emits, per event. *)
Fixpoint seq_run (d : Sequencer) (evs : list (SeqInputs * NodeEvent))
    : option (Sequencer * list (list NodeEvent)) :=
  match evs with
  | [] => Some (d, [])
  | (inp, ev) :: evs =>
      '(d, out) ← seq_step d (SeqEvent inp ev);
      '(d, outs) ← seq_run d evs; Some (d, out :: outs)
  end.


(** The limit on the lag of the safe head does not stop the sequencer: a
    forkchoice update that moves the head forward schedules the next action
    even when the safe head is too far behind, because the check of the lag
    comes first and is overridden. *)
Theorem max_safe_lag_overridden now d unsafe safe :
  active d = true -> 0 < maxSafeLag d -> l2_Number safe +u maxSafeLag d <= l2_Number unsafe ->
  l2_Number (latestHead d) < l2_Number unsafe ->
  exists d', seq_onForkchoiceUpdate now d unsafe safe = Some (d', []) /\ (NextAction d').2 = true.
Proof.
  intros Ha Hm Hlag Hn. unfold seq_onForkchoiceUpdate. rewrite Ha. simpl.
  eexists. split; [reflexivity|].
  destruct d as [cfg lag rec act g next ok lat sealed hd set]. simpl in *.
  repeat case_match; simplify_eq/=; try done; lia.
Qed.

(** Stopping does not hold back an action that is already queued: after a
    successful stop on a known head, a sequencer action still starts a
    block-building job, since the handler does not look at the active flag. *)
Theorem action_after_stop lis d d' h inp attrs :
  Sequencer_Stop lis d = (d', Some (Ok h)) ->
  asyncGossip d = {| running := true; currentPayload := None |} ->
  latestHead d <> zeroL2BlockRef ->
  PreparePayloadAttributes (seq_cfg d) (sq_l2 inp) (sq_up inp) (sq_clock inp) (latestHead d)
    = Ok attrs ->
  Active d' = false /\ exists d'' a,
    Sequencer_OnEvent inp d' SequencerActionEvent = Some (Some (d'', [Eng (BuildStartEvent a)])).
Proof.
  intros Hs Hg Hh Hattrs. unfold Sequencer_Stop in Hs.
  destruct (active d) eqn:Ea; [|done]. simpl in Hs. case_bool_decide; [done|].
  destruct (SequencerStopped lis); [done|]. injection Hs as <- <-. split; [done|].
  simpl. unfold onSequencerAction, gossip_Get, gossiper_call. simpl. rewrite Hg. simpl.
  unfold startBuildingBlock. simpl. rewrite bool_decide_eq_false_2 by done.
  rewrite bool_decide_eq_false_2 by (intros E; by apply Hh). rewrite Hattrs. by eexists _, _.
Qed.

(** ** Witnesses *)

Definition ex_seq_inputs : SeqInputs :=
  {| sq_now := 110 * second; sq_publish := fun _ => None; sq_l2 := ex_source; sq_up := ex_upgrades;
     sq_clock := ex_clock 110; sq_unix := 110 |}.

Definition ex_listener : SequencerStateListener :=
  {| SequencerStarted := None; SequencerStopped := None |}.

(** A sequencer that was started and has heard of the head. *)
Definition ex_sequencer (lag : Z) (head : L2BlockRef) : Sequencer :=
  {| seq_cfg := example_config; maxSafeLag := lag; recoverMode := false; active := true;
     asyncGossip := {| running := true; currentPayload := None |}; nextAction := 110 * second;
     nextActionOK := true; latest := zeroBuildingState; latestSealed := zeroL2BlockRef;
     latestHead := head; latestHeadSet := false |}.

(** Started while the head is unknown, then told the head by the engine. *)
Lemma ex_sequencer_reachable : exists d, seq_reachable example_config d
  /\ latestHead d = example_block 108 /\ latest d = zeroBuildingState
  /\ currentPayload (asyncGossip d) = None /\ active d = true.
Proof.
  destruct (Sequencer_Init ex_listener 0 (NewSequencer example_config) true) as [[[d0 evs] r]|] eqn:E;
    [|vm_compute in E; discriminate E].
  assert (seq_reachable example_config d0) as H0 by (by eapply seq_reach_init).
  destruct (seq_step d0 (SeqEvent ex_seq_inputs (Eng (ForkchoiceUpdateEvent (example_block 108)
    (example_block 100) (example_block 100))))) as [[d1 evs1]|] eqn:E1.
  - exists d1. split; [by eapply seq_reach_step|]. vm_compute in E. injection E as <- <- <-.
    vm_compute in E1. injection E1 as <- <-. auto.
  - vm_compute in E. injection E as <- <- <-. vm_compute in E1. discriminate E1.
Defined.

Lemma BuildStart_only_when_idle_witness :
  exists d d' a, Sequencer_OnEvent ex_seq_inputs d SequencerActionEvent
      = Some (Some (d', [Eng (BuildStartEvent a)]))
    /\ Parent a = example_block 108 /\ (NextAction d').2 = false.
Proof.
  destruct ex_sequencer_reachable as (d & Hr & Hh & Hl & Hg & _).
  pose proof (seq_reachable_inv _ _ Hr) as [Hrun _].
  assert (exists d' a, Sequencer_OnEvent ex_seq_inputs d SequencerActionEvent
    = Some (Some (d', [Eng (BuildStartEvent a)]))) as (d' & a & E).
  { cbn [Sequencer_OnEvent]. unfold onSequencerAction, gossip_Get, getPayload.
    rewrite call_running, Hg, Hl by exact Hrun. cbn [mbind option_bind].
    rewrite (bool_decide_eq_false_2 (Info _ <> _)) by (intros E; by apply E).
    rewrite bool_decide_eq_true_2 by reflexivity. unfold startBuildingBlock. rewrite Hh, Hl.
    rewrite bool_decide_eq_false_2 by discriminate.
    rewrite bool_decide_eq_false_2 by discriminate.
    rewrite (Prepare_Ok (seq_cfg d) (sq_l2 ex_seq_inputs) (sq_up ex_seq_inputs)
      (sq_clock ex_seq_inputs) (example_block 108)
      (gen_SystemConfig (cfg_Genesis example_config)) [[126; 1]] [[126; 2]] [[126; 3]] eq_refl eq_refl).
    eexists _, _. reflexivity. }
  destruct (BuildStart_only_when_idle example_config d ex_seq_inputs SequencerActionEvent d' _ a Hr E)
    as (_ & _ & _ & _ & Hp & _ & _ & Hn & _); [left|].
  exists d, d', a. split; [exact E|]. rewrite Hp, Hn. split; [exact Hh|reflexivity].
Defined.

Lemma sequencer_invariant_witness :
  exists d, Sequencer_OnEvent ex_seq_inputs d SequencerActionEvent <> Some None.
Proof.
  destruct ex_sequencer_reachable as (d & Hr & _). exists d.
  apply (sequencer_invariant example_config d ex_seq_inputs SequencerActionEvent Hr).
  intros cfg head.
  rewrite (Prepare_Ok cfg (sq_l2 ex_seq_inputs) (sq_up ex_seq_inputs) (sq_clock ex_seq_inputs) head
    (gen_SystemConfig (cfg_Genesis example_config)) [[126; 1]] [[126; 2]] [[126; 3]] eq_refl eq_refl).
  discriminate.
Defined.

Definition ex_sealed : ExecutionPayloadEnvelope :=
  {| ParentBeaconBlockRoot := None; env_ExecutionPayload := payload_at 109 |}.


Lemma max_safe_lag_overridden_witness :
  exists d', seq_onForkchoiceUpdate 0 (ex_sequencer 5 (example_block 108)) (ref_at 109) (ref_at 3)
    = Some (d', []) /\ (NextAction d').2 = true.
Proof. apply (max_safe_lag_overridden 0 (ex_sequencer 5 (example_block 108))); done. Defined.

(** The head is the block the sequencer sealed. *)
Lemma action_after_stop_witness :
  exists d' d'' a,
    Sequencer_Stop ex_listener (with_sealed (ex_sequencer 0 (example_block 108)) (example_block 108))
      = (d', Some (Ok (l2_Hash (example_block 108))))
    /\ Sequencer_OnEvent ex_seq_inputs d' SequencerActionEvent
       = Some (Some (d'', [Eng (BuildStartEvent a)])).
Proof.
  eexists. destruct (action_after_stop ex_listener
    (with_sealed (ex_sequencer 0 (example_block 108)) (example_block 108)) _
    (l2_Hash (example_block 108)) ex_seq_inputs _ eq_refl eq_refl ltac:(discriminate)
    (Prepare_Ok example_config ex_source ex_upgrades (ex_clock 110) (example_block 108)
      (gen_SystemConfig (cfg_Genesis example_config)) [[126; 1]] [[126; 2]] [[126; 3]] eq_refl eq_refl))
    as (_ & d'' & a & H). exists d'', a. split; [reflexivity|exact H].
Defined.
