(* ===== verification/OriginSelector.v ===== *)
(** * Choosing an L1 origin

    Models [rhs-node/rollup/sequencing/origin_selector.go], the selector of the
    L1 origin of the next block with its cache of the current and the next
    origin, and [rhs-node/rollup/confdepth/conf_depth.go], the L1 fetcher that
    hides blocks with too few confirmations.  The L1 client is an argument. *)

From S2P Require Import Prelude EthTypes RollupConfig Pipeline Engine NodeEvents.

Record L1Blocks : Type := {
  L1BlockRefByHash : Hash -> result L1BlockRef;
  L1BlockRefByNumber : Z -> result L1BlockRef }.

(** ** Confirmation depth *)

Definition confDepth_L1BlockRefByNumber (l1 : L1Blocks) (l1Head : L1BlockRef) (depth num : Z)
    : result L1BlockRef :=
  if bool_decide (l1Head = zeroL1BlockRef) then L1BlockRefByNumber l1 num
  else if (num =? 0) || (depth =? 0) || (num +u depth <=? l1_Number l1Head) then
    L1BlockRefByNumber l1 num
  else Err NotFound.

(** Everything fetched by hash is passed on. *)
Definition NewConfDepth (depth : Z) (l1Head : L1BlockRef) (l1 : L1Blocks) : L1Blocks :=
  {| L1BlockRefByHash := L1BlockRefByHash l1;
     L1BlockRefByNumber := confDepth_L1BlockRefByNumber l1 l1Head depth |}.

(** ** The selector *)

Record L1OriginSelector : Type := {
  los_cfg : Config;
  los_recoverMode : bool;
  currentOrigin : L1BlockRef;
  nextOrigin : L1BlockRef }.

Definition NewL1OriginSelector (cfg : Config) : L1OriginSelector :=
  {| los_cfg := cfg; los_recoverMode := false; currentOrigin := zeroL1BlockRef;
     nextOrigin := zeroL1BlockRef |}.

Definition los_SetRecoverMode (los : L1OriginSelector) (enabled : bool) : L1OriginSelector :=
  {| los_cfg := los_cfg los; los_recoverMode := enabled; currentOrigin := currentOrigin los;
     nextOrigin := nextOrigin los |}.

Definition with_origins (los : L1OriginSelector) (current next : L1BlockRef) : L1OriginSelector :=
  {| los_cfg := los_cfg los; los_recoverMode := los_recoverMode los; currentOrigin := current;
     nextOrigin := next |}.

(** In recover mode the current origin is stored before the next one is
    fetched. *)
Definition CurrentAndNextOrigin (l1 : L1Blocks) (los : L1OriginSelector) (l2Head : L2BlockRef)
    : L1OriginSelector * result (L1BlockRef * L1BlockRef) :=
  if los_recoverMode los then
    match L1BlockRefByHash l1 (bid_Hash (l2_L1Origin l2Head)) with
    | Panic => (los, Panic)
    | Err err => (los, Err (NewTemporaryError (Wrap "failed to fetch current L1 origin" err)))
    | Ok current =>
        let los := with_origins los current (nextOrigin los) in
        match L1BlockRefByNumber l1 (l1_Number current +u 1) with
        | Panic => (los, Panic)
        | Err err => (los, Err (NewTemporaryError (Wrap "failed to fetch next L1 origin" err)))
        | Ok next => (with_origins los current next, Ok (current, next))
        end
    end
  else if bool_decide (l2_L1Origin l2Head = L1BlockRef_ID (currentOrigin los)) then
    (los, Ok (currentOrigin los, nextOrigin los))
  else if bool_decide (l2_L1Origin l2Head = L1BlockRef_ID (nextOrigin los)) then
    (with_origins los (nextOrigin los) zeroL1BlockRef, Ok (nextOrigin los, zeroL1BlockRef))
  else
    match L1BlockRefByHash l1 (bid_Hash (l2_L1Origin l2Head)) with
    | Panic => (los, Panic)
    | Err err => (los, Err err)
    | Ok current => (with_origins los current zeroL1BlockRef, Ok (current, zeroL1BlockRef))
    end.

Definition maybeSetNextOrigin (los : L1OriginSelector) (next : L1BlockRef) : L1OriginSelector :=
  if l1_ParentHash next =? l1_Hash (currentOrigin los) then
    with_origins los (currentOrigin los) next
  else los.

Definition los_fetch (l1 : L1Blocks) (los : L1OriginSelector) (number : Z)
    : L1OriginSelector * result L1BlockRef :=
  match L1BlockRefByNumber l1 number with
  | Ok next => (maybeSetNextOrigin los next, Ok next)
  | r => (los, r)
  end.

Definition tryFetchNextOrigin (l1 : L1Blocks) (los : L1OriginSelector) (current next : L1BlockRef)
    : L1OriginSelector :=
  if bool_decide (next <> zeroL1BlockRef) then los
  else if bool_decide (current = zeroL1BlockRef) then los
  else (los_fetch l1 los (l1_Number current +u 1)).1.

Definition los_onForkchoiceUpdate (l1 : L1Blocks) (los : L1OriginSelector) (unsafe : L2BlockRef)
    : L1OriginSelector :=
  match CurrentAndNextOrigin l1 los unsafe with
  | (los, Ok (current, next)) => tryFetchNextOrigin l1 los current next
  | (los, _) => los
  end.

Definition los_reset (los : L1OriginSelector) : L1OriginSelector :=
  with_origins los zeroL1BlockRef zeroL1BlockRef.

Definition L1OriginSelector_OnEvent (l1 : L1Blocks) (los : L1OriginSelector) (ev : NodeEvent)
    : option L1OriginSelector :=
  match ev with
  | Eng (ForkchoiceUpdateEvent unsafe _ _) => Some (los_onForkchoiceUpdate l1 los unsafe)
  | Eng (ResetEvent _) | Eng (ForceResetEvent _) => Some (los_reset los)
  | _ => None
  end.

Definition FindL1Origin (l1 : L1Blocks) (los : L1OriginSelector) (l2Head : L2BlockRef)
    : L1OriginSelector * result L1BlockRef :=
  match CurrentAndNextOrigin l1 los l2Head with
  | (los, Panic) => (los, Panic)
  | (los, Err err) => (los, Err err)
  | (los, Ok (current, next)) =>
      let nextL2Time := l2_Time l2Head +u BlockTime (los_cfg los) in
      if bool_decide (next <> zeroL1BlockRef) && (l1_Time next <=? nextL2Time) then (los, Ok next)
      else
        let msd := MaxSequencerDrift (NewChainSpec (los_cfg los)) (l1_Time current) in
        let pastSeqDrift := msd <? nextL2Time -u l1_Time current in
        if negb pastSeqDrift then (los, Ok current)
        else
          let (los, r) := if bool_decide (next = zeroL1BlockRef)
                          then los_fetch l1 los (l1_Number current +u 1) else (los, Ok next) in
          match r with
          | Panic => (los, Panic)
          | Err err =>
              (los, Err (Wrap "cannot build next core block past current L1 origin by more than sequencer time drift, and failed to find next L1 origin" err))
          | Ok next =>
              if nextL2Time <? l1_Time next then (los, Ok current) else (los, Ok next)
          end
  end.

(** ** Properties *)

(** The L1 client answers a request by hash with the block of that hash. *)
Definition honest (l1 : L1Blocks) : Prop :=
  forall h r, L1BlockRefByHash l1 h = Ok r -> l1_Hash r = h.

(** The cached next origin is a child of the current one. *)
Definition los_inv (los : L1OriginSelector) : Prop :=
  nextOrigin los = zeroL1BlockRef \/ l1_ParentHash (nextOrigin los) = l1_Hash (currentOrigin los).

Lemma maybeSet_inv los next : los_inv los ->
  los_inv (maybeSetNextOrigin los next)
  /\ currentOrigin (maybeSetNextOrigin los next) = currentOrigin los
  /\ los_cfg (maybeSetNextOrigin los next) = los_cfg los.
Proof.
  intros Hi. unfold maybeSetNextOrigin. destruct (Z.eqb_spec (l1_ParentHash next) (l1_Hash (currentOrigin los)));
    [|done]. split; [by right|done].
Qed.

Lemma fetch_inv l1 los n : los_inv los ->
  los_inv (los_fetch l1 los n).1 /\ currentOrigin (los_fetch l1 los n).1 = currentOrigin los
  /\ los_cfg (los_fetch l1 los n).1 = los_cfg los.
Proof.
  intros Hi. unfold los_fetch. destruct (L1BlockRefByNumber l1 n); [|done|done].
  by apply maybeSet_inv.
Qed.

(** Outside recover mode the cached origins belong to the head. *)
Lemma CurrentAndNext_spec l1 los head los' r : honest l1 -> los_inv los ->
  los_recoverMode los = false -> CurrentAndNextOrigin l1 los head = (los', r) ->
  los_inv los' /\ los_cfg los' = los_cfg los /\ los_recoverMode los' = false
  /\ forall current next, r = Ok (current, next) ->
       current = currentOrigin los' /\ next = nextOrigin los'
       /\ l1_Hash current = bid_Hash (l2_L1Origin head).
Proof.
  intros Hh Hi Hrec. unfold CurrentAndNextOrigin. rewrite Hrec.
  case_bool_decide as E1; [|case_bool_decide as E2].
  - intros [= <- <-]. split_and!; [done..|]. intros c n [= <- <-]. by rewrite E1.
  - intros [= <- <-]. split_and!; [by left|done..|]. intros c n [= <- <-]. by rewrite E2.
  - destruct (L1BlockRefByHash l1 _) as [c|e|] eqn:E; intros [= <- <-]; split_and!; try done.
    + by left.
    + intros c' n [= <- <-]. split_and!; [done|done|]. by apply Hh.
Qed.

(** The origin selector never chooses an origin from the future: whatever
    it has cached, the origin of the next block is either the origin of the
    head itself, and then the block is within the sequencer drift or the next
    L1 block is later than the new block, or an L1 block that is not later
    than the new block; the cached next origin always stays a child of the
    cached current one. *)
Theorem FindL1Origin_spec l1 los head los' o : honest l1 -> los_inv los ->
  los_recoverMode los = false -> FindL1Origin l1 los head = (los', Ok o) ->
  let nextTime := l2_Time head +u BlockTime (los_cfg los) in
  los_inv los'
  /\ (l1_Hash o = bid_Hash (l2_L1Origin head) /\ o = currentOrigin los'
      /\ (nextTime -u l1_Time o <= MaxSequencerDrift (NewChainSpec (los_cfg los)) (l1_Time o)
          \/ exists next, nextTime < l1_Time next
               /\ (next = nextOrigin los' \/ L1BlockRefByNumber l1 (l1_Number o +u 1) = Ok next))
      \/ l1_Time o <= nextTime).
Proof.
  intros Hh Hi Hrec. unfold FindL1Origin.
  destruct (CurrentAndNextOrigin l1 los head) as [los1 r] eqn:E.
  destruct (CurrentAndNext_spec l1 los head los1 r Hh Hi Hrec E) as (Hi1 & Hc1 & _ & Hr).
  destruct r as [[current next]|err|]; [|done|done].
  destruct (Hr current next eq_refl) as (-> & -> & Hhash). rewrite Hc1. cbv zeta.
  set (nt := l2_Time head +u BlockTime (los_cfg los)).
  destruct (bool_decide (nextOrigin los1 <> zeroL1BlockRef) && (l1_Time (nextOrigin los1) <=? nt)) eqn:En.
  { intros [= <- <-]. split; [done|]. right. apply andb_true_iff in En as [_ En]. lia. }
  destruct (Z.ltb_spec (MaxSequencerDrift (NewChainSpec (los_cfg los)) (l1_Time (currentOrigin los1)))
    (nt -u l1_Time (currentOrigin los1))) as [Hd|Hd]; cbn [negb].
  2:{ intros [= <- <-]. split; [done|]. left. split_and!; [done|done|by left]. }
  destruct (decide (nextOrigin los1 = zeroL1BlockRef)) as [Hz|Hz].
  - rewrite (bool_decide_eq_true_2 (nextOrigin los1 = _)) by done.
    destruct (fetch_inv l1 los1 (l1_Number (currentOrigin los1) +u 1) Hi1) as (Hi2 & Hc2 & _).
    unfold los_fetch in *. destruct (L1BlockRefByNumber l1 _) as [n|e|] eqn:Ef; [|done|done].
    cbn [fst] in *. destruct (Z.ltb_spec nt (l1_Time n)); intros [= <- <-]; (split; [done|]).
    + left. split_and!; [done|by rewrite Hc2|]. right. exists n. split; [done|]. by right.
    + right. lia.
  - rewrite (bool_decide_eq_false_2 (nextOrigin los1 = _)) by done.
    rewrite bool_decide_eq_true_2 in En by done. cbn [andb] in En.
    destruct (Z.ltb_spec nt (l1_Time (nextOrigin los1))); [|lia].
    intros [= <- <-]. split; [done|]. left. split_and!; [done|done|]. right. eexists. split; [done|].
    by left.
Qed.

(** ** Witness *)

(** A chain with a block every 12 seconds whose hash is its number. *)
Definition ex_l1_block (n : Z) : L1BlockRef :=
  {| l1_Hash := n; l1_Number := n; l1_ParentHash := n - 1; l1_Time := 12 * n |}.

Definition ex_l1_source : L1Blocks :=
  {| L1BlockRefByHash h := Ok (ex_l1_block h);
     L1BlockRefByNumber n := if n <=? 20 then Ok (ex_l1_block n) else Err NotFound |}.

Definition ex_on_origin (n t : Z) : L2BlockRef :=
  {| l2_Hash := 5000 + t; l2_Number := t; l2_ParentHash := 5000 + t - 1; l2_Time := t;
     l2_L1Origin := {| bid_Hash := n; bid_Number := n |}; l2_SequenceNumber := 0 |}.

(** The head is on origin 9 and the next block is at the time of block 10. *)
Lemma FindL1Origin_spec_witness :
  exists los', FindL1Origin ex_l1_source
      (los_onForkchoiceUpdate ex_l1_source (NewL1OriginSelector example_config) (ex_on_origin 9 118))
      (ex_on_origin 9 118) = (los', Ok (ex_l1_block 10))
    /\ l1_Time (ex_l1_block 10) <= 118 + 2 /\ los_inv los'.
Proof.
  destruct (FindL1Origin _ _ (ex_on_origin 9 118)) as [los' r] eqn:E. exists los'.
  assert (r = Ok (ex_l1_block 10)) as ->.
  { change r with (los', r).2. rewrite <- E. vm_compute. reflexivity. }
  split; [reflexivity|]. split; [vm_compute; discriminate|].
  refine (proj1 (FindL1Origin_spec ex_l1_source _ (ex_on_origin 9 118) los' (ex_l1_block 10) _ _ _ E)).
  - intros h r [= <-]. reflexivity.
  - right. vm_compute. reflexivity.
  - vm_compute. reflexivity.
Defined.
