(* ===== verification/Node.v ===== *)
(** * The node: the derivers on the event system

    Composes the components the way [NewDriver] (rhs-node/rollup/driver/
    driver.go) registers them: status, engine reset, CL sync, finalizer,
    attributes handler, pipeline, sync deriver, engine deriver, step scheduler
    and, if enabled, the sequencer, on the executor of [EventSystem]; and
    models the event loop of the driver (state.go: [eventLoop]).

    The components share the rollup configuration by pointer: the node keeps
    it once, gives it to a component when its handler runs and takes it back,
    since some handlers write to it.  What the handlers read from outside (the
    execution client, clocks, the network) is an oracle [world], read anew by
    each handler call. *)

From S2P Require Import Prelude EthTypes RollupConfig SpanBatch Batches Pipeline Engine.
From S2P Require Import EngineDeriver SyncStart NodeEvents EventSystem PayloadsQueue CLSync.
From S2P Require Import Finalizer AttributesHandler PipelineDeriver StatusTracker Driver Sequencer.

(** What one handler call may read; [w_walk] is fuel for the walk back of the
    reset. *)
Record World : Type := {
  w_engine : ExecEngine;
  w_chain : L2Chain;
  w_walk : nat;
  w_skip : bool;
  w_step : StepInputs;
  w_payloads : Z -> result ExecutionPayloadEnvelope;
  w_rand : Z;
  w_seq : SeqInputs }.

Record Node : Type := {
  n_cfg : Config;
  n_status : StatusTracker;
  n_clsync : CLSync;
  n_finalizer : Finalizer;
  n_attributes : AttributesHandler;
  n_pipeline : PipelineDeriver;
  n_sync : SyncDeriver;
  n_engine : EngineController;
  n_sched : StepSchedulingDeriver;
  n_seq : Sequencer;
  n_tick : nat }.

(** ** The engine keeps the sync mode *)

(** The sync mode never changes, and a controller in CL sync stays there. *)
Definition cl_kept (e e' : EngineController) : Prop :=
  SyncMode e' = SyncMode e /\ (syncStatus e = syncStatusCL -> syncStatus e' = syncStatusCL).

#[global] Instance cl_kept_preorder : PreOrder cl_kept.
Proof.
  split; [by intros e|]. intros e1 e2 e3 [H1 H2] [H3 H4]. split; [congruence|auto].
Qed.

Lemma initializeUnknowns_kept eng e : cl_kept e (initializeUnknowns eng e).1.
Proof.
  unfold initializeUnknowns. repeat (case_match; simplify_eq/=); done.
Qed.

Lemma TryUpdateEngine_kept eng e : cl_kept e (TryUpdateEngine eng e).1.1.
Proof.
  unfold TryUpdateEngine. destruct (negb _); [done|].
  pose proof (initializeUnknowns_kept eng e) as H.
  destruct (initializeUnknowns eng e) as [e1 [[]|err|]]; simpl in *; [|done|done].
  destruct (_ <? _); [done|]. destruct (ForkchoiceUpdate _ _ _) as [[st id]|err|]; [|done|done].
  simpl. destruct (_ && _); by destruct H.
Qed.

Lemma check_kept e st : cl_kept e (checkNewPayloadStatus e st).1
  /\ cl_kept e (checkForkchoiceUpdatedStatus e st).1.
Proof.
  unfold checkNewPayloadStatus, checkForkchoiceUpdatedStatus, cl_kept.
  repeat (case_match; simplify_eq/=); split_and!; try done; intros Hs;
    rewrite Hs in *; by rewrite ?andb_false_r in *.
Qed.

Lemma insert_payload_kept eng e env ref st : cl_kept e (insert_payload eng e env ref st).1.1.
Proof.
  unfold insert_payload.
  destruct (check_kept e st) as [Hn _]. destruct (checkNewPayloadStatus e st) as [e1 ok].
  simpl in Hn. destruct (negb ok); [done|].
  set (e2 := if bool_decide _ then SetFinalizedHead _ _ else e1).
  assert (cl_kept e e2) as H2 by (subst e2; case_bool_decide; by destruct Hn).
  destruct (ForkchoiceUpdate _ _ _) as [[fs id]|err|]; [|done|done].
  destruct (check_kept e2 fs) as [_ Hf]. destruct (checkForkchoiceUpdatedStatus e2 fs) as [e3 ok3].
  simpl in Hf. assert (cl_kept e e3) as H3 by (by transitivity e2).
  destruct (negb ok3); [done|].
  assert (forall e4, syncStatus e4 = syncStatus e3 -> SyncMode e4 = SyncMode e3 ->
    cl_kept e (if decide (syncStatus e4 = syncStatusFinishedELButNotFinalized)
               then set_syncStatus e4 syncStatusFinishedEL else e4)) as H4.
  { intros e4 E1 E2. destruct H3 as [H3a H3b]. split; [by case_decide; simpl; congruence|].
    intros Hs. rewrite decide_False; rewrite E1, (H3b Hs); done. }
  destruct (_ || _); cbn [fst].
  - destruct (H4 (set_needFCUCall (SetUnsafeHead e3 ref) false)) as [Ha Hb]; [done|done|].
    by split.
  - by apply (H4 (set_needFCUCall (SetUnsafeHead e3 ref) false)).
Qed.

Lemma InsertUnsafePayload_kept eng e env ref : cl_kept e (InsertUnsafePayload eng e env ref).1.1.
Proof.
  unfold InsertUnsafePayload.
  assert (cl_kept e (start_el_sync eng e).1) as H.
  { unfold start_el_sync. case_decide as Hd; [|done].
    repeat (case_match; simplify_eq/=); (split; [done|]); intros; congruence. }
  destruct (start_el_sync eng e) as [e1 [[]|err|]]; simpl in H; [|done|done|done].
  destruct (NewPayload _ _ _); [|done|done]. etransitivity; [exact H|]. apply insert_payload_kept.
Qed.

Lemma TryBackup_kept eng e : cl_kept e (TryBackupUnsafeReorg eng e).1.1.
Proof.
  unfold TryBackupUnsafeReorg, shouldTryBackupUnsafeReorg, set_needBackup.
  repeat (case_match; simplify_eq/=); done.
Qed.

Lemma OnEvent_kept eng e x e' evs : OnEvent eng e x = Some (Some (e', evs)) -> cl_kept e e'.
Proof.
  pose proof (TryUpdateEngine_kept eng e) as Hu. pose proof (TryBackup_kept eng e) as Hb.
  destruct x; cbn [OnEvent]; try done;
    lazymatch goal with
    | |- context [InsertUnsafePayload] =>
        destruct (PayloadToBlockRef _ _) as [cfg [ref|err|]]; [|by intros [= <- <-]|done];
        case_decide; [by intros [= <- <-]|];
        pose proof (InsertUnsafePayload_kept eng (set_rollupCfg e cfg) Envelope ref) as Hi;
        destruct (InsertUnsafePayload _ _ _ _) as [[e1 evs1] [[]|err|]]; [| |done];
        by intros [= <- <-]
    | |- context [TryBackupUnsafeReorg] =>
        destruct (TryBackupUnsafeReorg eng e) as [[e1 evs1] [[] [[]|err|]]]; try done;
        by intros [= <- <-]
    | |- context [TryUpdateEngine _ _] =>
        destruct (TryUpdateEngine eng e) as [[e1 evs1] [[]|err|]]; [| |done]; by intros [= <- <-]
    | |- _ => clear Hu Hb
    end.
  all: unfold onBuildStart, onBuildSeal, onBuildInvalid, onBuildCancel, onPayloadProcess,
    ForceEngineReset, onBuildStarted, onBuildSealed, onPayloadSuccess, onPayloadInvalid;
    repeat case_match; intros; simplify_eq; done.
Qed.

Section NodeSystem.
  Context {EP : EIP1559} {EA : EIP1559Attributes} (world : nat -> World).
  Abbreviation program := (act (E := NodeEvent) (N := Node)).
  Abbreviation system := (Sys (E := NodeEvent) (N := Node)).

(** ** A component's handler on the node *)

(** Reads the component, runs its handler in the world of this tick, writes
    the component back and emits its events. *)
Definition run_on {S} (get : Node -> S) (put : Node -> S -> Node)
    (handler : World -> S -> NodeEvent -> option (outcome S)) (ev : NodeEvent) : program :=
  Access
    (fun n => match handler (world (n_tick n)) (get n) ev with
              | Some (Some (s, _)) => put n s
              | _ => n
              end)
    (fun n => match handler (world (n_tick n)) (get n) ev with
              | Some (Some (_, evs)) => emit_all evs Return
              | Some None => Panics
              | None => Return
              end).

Definition put_status (n : Node) (s : StatusTracker) : Node :=
  {| n_cfg := n_cfg n; n_status := s; n_clsync := n_clsync n; n_finalizer := n_finalizer n;
     n_attributes := n_attributes n; n_pipeline := n_pipeline n; n_sync := n_sync n;
     n_engine := n_engine n; n_sched := n_sched n; n_seq := n_seq n; n_tick := S (n_tick n) |}.

Definition get_clsync (n : Node) : CLSync :=
  {| cl_cfg := n_cfg n; unsafePayloads := unsafePayloads (n_clsync n) |}.
Definition put_clsync (n : Node) (s : CLSync) : Node :=
  {| n_cfg := cl_cfg s; n_status := n_status n; n_clsync := s; n_finalizer := n_finalizer n;
     n_attributes := n_attributes n; n_pipeline := n_pipeline n; n_sync := n_sync n;
     n_engine := n_engine n; n_sched := n_sched n; n_seq := n_seq n; n_tick := S (n_tick n) |}.

Definition get_finalizer (n : Node) : Finalizer :=
  {| fi_cfg := n_cfg n; finalizedL1 := finalizedL1 (n_finalizer n);
     lastFinalizedL2 := lastFinalizedL2 (n_finalizer n);
     triedFinalizeAt := triedFinalizeAt (n_finalizer n);
     finalityData := finalityData (n_finalizer n);
     finalityLookback := finalityLookback (n_finalizer n) |}.
Definition put_finalizer (n : Node) (s : Finalizer) : Node :=
  {| n_cfg := fi_cfg s; n_status := n_status n; n_clsync := n_clsync n; n_finalizer := s;
     n_attributes := n_attributes n; n_pipeline := n_pipeline n; n_sync := n_sync n;
     n_engine := n_engine n; n_sched := n_sched n; n_seq := n_seq n; n_tick := S (n_tick n) |}.

Definition get_attributes (n : Node) : AttributesHandler :=
  {| ah_cfg := n_cfg n; ah_opCfg := ah_opCfg (n_attributes n);
     attributes := attributes (n_attributes n);
     sentAttributes := sentAttributes (n_attributes n) |}.
Definition put_attributes (n : Node) (s : AttributesHandler) : Node :=
  {| n_cfg := ah_cfg s; n_status := n_status n; n_clsync := n_clsync n;
     n_finalizer := n_finalizer n; n_attributes := s; n_pipeline := n_pipeline n;
     n_sync := n_sync n; n_engine := n_engine n; n_sched := n_sched n; n_seq := n_seq n;
     n_tick := S (n_tick n) |}.

Definition with_dp_cfg (dp : DerivationPipeline) (cfg : Config) : DerivationPipeline :=
  {| dp_cfg := cfg; resetting := resetting dp; attrib := attrib dp; dp_origin := dp_origin dp;
     resetL2Safe := resetL2Safe dp; resetSysConfig := resetSysConfig dp;
     engineIsReset := engineIsReset dp |}.
Definition get_pipeline (n : Node) : PipelineDeriver :=
  with_pipeline (n_pipeline n) (with_dp_cfg (pipeline (n_pipeline n)) (n_cfg n)).
Definition put_pipeline (n : Node) (s : PipelineDeriver) : Node :=
  {| n_cfg := n_cfg n; n_status := n_status n; n_clsync := n_clsync n;
     n_finalizer := n_finalizer n; n_attributes := n_attributes n; n_pipeline := s;
     n_sync := n_sync n; n_engine := n_engine n; n_sched := n_sched n; n_seq := n_seq n;
     n_tick := S (n_tick n) |}.

Definition get_sync (n : Node) : SyncDeriver :=
  {| sd_Config := n_cfg n; SafeHeadNotifs := SafeHeadNotifs (n_sync n);
     ManagedMode := ManagedMode (n_sync n) |}.

Definition get_engine (n : Node) : EngineController := set_rollupCfg (n_engine n) (n_cfg n).
Definition put_engine (n : Node) (s : EngineController) : Node :=
  {| n_cfg := rollupCfg s; n_status := n_status n; n_clsync := n_clsync n;
     n_finalizer := n_finalizer n; n_attributes := n_attributes n; n_pipeline := n_pipeline n;
     n_sync := n_sync n; n_engine := s; n_sched := n_sched n; n_seq := n_seq n;
     n_tick := S (n_tick n) |}.

Definition put_sched (n : Node) (s : StepSchedulingDeriver) : Node :=
  {| n_cfg := n_cfg n; n_status := n_status n; n_clsync := n_clsync n;
     n_finalizer := n_finalizer n; n_attributes := n_attributes n; n_pipeline := n_pipeline n;
     n_sync := n_sync n; n_engine := n_engine n; n_sched := s; n_seq := n_seq n;
     n_tick := S (n_tick n) |}.

Definition get_seq (n : Node) : Sequencer := with_cfg (n_seq n) (n_cfg n).
Definition put_seq (n : Node) (s : Sequencer) : Node :=
  {| n_cfg := seq_cfg s; n_status := n_status n; n_clsync := n_clsync n;
     n_finalizer := n_finalizer n; n_attributes := n_attributes n; n_pipeline := n_pipeline n;
     n_sync := n_sync n; n_engine := n_engine n; n_sched := n_sched n; n_seq := s;
     n_tick := S (n_tick n) |}.

(** ** The derivers *)

Definition status_deriver : NodeEvent -> program :=
  run_on n_status put_status (fun _ s ev => StatusTracker_OnEvent s ev).

(** The walk back to the heads is given enough fuel by the world; running out
    of it counts as a panic. *)
Definition reset_deriver : NodeEvent -> program :=
  run_on n_cfg (fun n _ => put_sched n (n_sched n)) (fun w cfg ev =>
    match ev with
    | ResetEngineRequestEvent =>
        Some (match EngineResetDeriver_OnEvent (w_walk w) cfg (w_chain w) (w_skip w) with
              | Some (Ok ev) => Some (cfg, [Eng ev])
              | _ => None
              end)
    | _ => None
    end).

Definition clsync_deriver : NodeEvent -> program :=
  run_on get_clsync put_clsync (fun _ s ev => CLSync_OnEvent s ev).

Definition finalizer_deriver : NodeEvent -> program :=
  run_on get_finalizer put_finalizer (fun _ s ev => Finalizer_OnEvent s ev).

Definition attributes_deriver : NodeEvent -> program :=
  run_on get_attributes put_attributes (fun w s ev => AttributesHandler_OnEvent (w_payloads w) s ev).

Definition pipeline_deriver : NodeEvent -> program :=
  run_on get_pipeline put_pipeline (fun w s ev => PipelineDeriver_OnEvent (w_step w) s ev).

(** The sync deriver's program reads the configuration when it runs. *)
Definition sync_deriver (ev : NodeEvent) : program :=
  Access id (fun n =>
    match SyncDeriver_OnEvent n_engine (get_sync n) ev with Some a => a | None => Return end).

Definition engine_deriver : NodeEvent -> program :=
  run_on get_engine put_engine (fun w s ev =>
    match ev with
    | Eng x =>
        match OnEvent (w_engine w) s x with
        | None => None
        | Some None => Some None
        | Some (Some (s, evs)) => Some (Some (s, Eng <$> evs))
        end
    | _ => None
    end).

Definition sched_deriver : NodeEvent -> program :=
  run_on n_sched put_sched (fun w s ev => StepScheduling_OnEvent (w_rand w) s ev).

Definition seq_deriver : NodeEvent -> program :=
  run_on get_seq put_seq (fun w s ev => Sequencer_OnEvent (w_seq w) s ev).

Definition is_critical (ev : NodeEvent) : bool :=
  match ev with Eng (CriticalErrorEvent _) => true | _ => false end.

(** ** The driver *)

Definition NewNode (cfg : Config) (mode : Mode) (elsync : bool) (op : option OptimismConfig)
    (notifs : option SafeHeadListener) (managed : bool) : Node :=
  {| n_cfg := cfg; n_status := NewStatusTracker; n_clsync := NewCLSync cfg;
     n_finalizer := NewFinalizer cfg; n_attributes := NewAttributesHandler cfg op;
     n_pipeline := NewPipelineDeriver (NewDerivationPipeline cfg);
     n_sync := {| sd_Config := cfg; SafeHeadNotifs := notifs; ManagedMode := managed |};
     n_engine := NewEngineController cfg mode elsync; n_sched := NewStepSchedulingDeriver;
     n_seq := NewSequencer cfg; n_tick := 0 |}.

(** The registrations in order; the engine controller and the driver only
    emit.  The names are distinct, so registering does not panic. *)
Definition registrations (sequencerEnabled : bool) : list (string * option (NodeEvent -> program)) :=
  [("status", Some status_deriver); ("engine-controller", None);
   ("engine-reset", Some reset_deriver); ("cl-sync", Some clsync_deriver);
   ("finalizer", Some finalizer_deriver); ("attributes-handler", Some attributes_deriver);
   ("pipeline", Some pipeline_deriver); ("sync", Some sync_deriver);
   ("engine", Some engine_deriver); ("step-scheduler", Some sched_deriver)]
  ++ (if sequencerEnabled then [("sequencer", Some seq_deriver)] else [])
  ++ [("driver", None)].

Fixpoint register_all (s : system) (rs : list (string * option (NodeEvent -> program)))
    : option system :=
  match rs with
  | [] => Some s
  | (name, d) :: rs => s ← Register s name d; register_all s rs
  end.

Definition NewDriver (n : Node) (sequencerEnabled : bool) : option system :=
  register_all (NewSystem n) (registrations sequencerEnabled).

(** ** The event loop *)

(** The ready case of the select; a case that is not ready cannot be picked. *)
Inductive loop_input : Type :=
  | LoopSequencer
  | LoopAltSync (l2 el : Driver.latest) (byRange : payload_range) (maxBatchSize : Z)
  | LoopPayload (envelope : option ExecutionPayloadEnvelope)
  | LoopDelayedStep
  | LoopStep
  | LoopStateReq
  | LoopForceReset.

Definition emits (s : system) (evs : list NodeEvent) : system := foldl (emit is_critical) s evs.

(** A call of the engine controller outside the derivers. *)
Definition engine_call (s : system) (r : EngineController * list Event * result unit) : run system :=
  match r with
  | (_, _, Panic) => Panicked
  | (e, evs, _) => Fin (emits (with_node s (put_engine (node s) e)) (Eng <$> evs))
  end.

Definition loop_ready (n : Node) (sequencerEnabled : bool) (input : loop_input) : bool :=
  match input with
  | LoopSequencer => sequencerEnabled && (NextAction (n_seq n)).2
  | LoopDelayedStep => bool_decide (delayedStepReq (n_sched n) <> None)
  | LoopStep => stepReqCh (n_sched n)
  | _ => true
  end.

(** The cases of the select; what alt-sync is asked for is not part of the
    node's state. *)
Definition loop_select (s : system) (input : loop_input) : run system :=
  let n := node s in
  let w := world (n_tick n) in
  let clMode := bool_decide (SyncMode (n_engine n) = Engine.CLSync) in
  match input with
  | LoopSequencer => Fin (emits s [SequencerActionEvent])
  | LoopAltSync l2 el byRange maxBatchSize =>
      if clMode then
        match LowestQueuedUnsafeBlock (get_clsync n) with
        | (_, Panic) => Panicked
        | (cl, _) => Fin (with_node s (put_clsync n cl))
        end
      else
        engine_call s (checkSyncUnsafeBlocks (w_engine w) (get_engine n) l2 el byRange maxBatchSize)
  | LoopPayload None => Panicked
  | LoopPayload (Some envelope) =>
      if clMode || negb (IsEngineSyncing (n_engine n)) then
        Fin (emits s [ReceivedUnsafePayloadEvent (Some envelope); StepReqEvent false])
      else
        let (cfg, r) := PayloadToBlockRef (n_cfg n) (env_ExecutionPayload envelope) in
        let e := set_rollupCfg (n_engine n) cfg in
        match r with
        | Panic => Panicked
        | Err _ => engine_call s (e, [], Ok ())
        | Ok ref =>
            if l2_Number ref <=? l2_Number (unsafeHead e) then engine_call s (e, [], Ok ())
            else engine_call s (InsertUnsafePayload (w_engine w) e envelope ref)
        end
  | LoopDelayedStep => Fin (emits s [StepAttemptEvent])
  | LoopStep =>
      Fin (emits (with_node s (put_sched n (recv_step (n_sched n)))) [StepAttemptEvent])
  | LoopStateReq => Fin s
  | LoopForceReset =>
      Fin (with_node s (put_pipeline n
             (with_pipeline (n_pipeline n) (Pipeline_Reset (pipeline (n_pipeline n))))))
  end.

(** One iteration: drain, in CL sync announce finality and request a step,
    then one case of the select.  [None] is an input that is not ready. *)
Definition loop_iteration (fuel : nat) (sequencerEnabled : bool) (s : system) (input : loop_input)
    : option (run system) :=
  match sys_Drain is_critical fuel s with
  | Panicked => Some Panicked
  | OutOfFuel => Some OutOfFuel
  | Fin (s, _) =>
      let s := if bool_decide (SyncMode (n_engine (node s)) = Engine.CLSync)
               then emits s [FinalizeL1Event zeroL1BlockRef; StepReqEvent false] else s in
      if loop_ready (node s) sequencerEnabled input then Some (loop_select s input) else None
  end.

(** The loop from a driver, on ready inputs: it starts with a step request. *)
Inductive loop_reaches (fuel : nat) (sequencerEnabled : bool) (n : Node) : system -> Prop :=
  | loop_start s :
      NewDriver n sequencerEnabled = Some s ->
      loop_reaches fuel sequencerEnabled n (emits s [StepReqEvent false])
  | loop_next s input s' :
      loop_reaches fuel sequencerEnabled n s ->
      loop_iteration fuel sequencerEnabled s input = Some (Fin s') ->
      loop_reaches fuel sequencerEnabled n s'.

(** ** Invariants of the node *)

Lemma wp_emit_all (I : Node -> Prop) Q P evs n :
  Forall Q evs -> I n -> wp I Q P (emit_all evs Return) n.
Proof. induction 1; intros; simpl; auto. Qed.

Lemma wp_run_on {S} (I : Node -> Prop) Q (get : Node -> S) put handler ev n :
  (forall s evs, handler (world (n_tick n)) (get n) ev = Some (Some (s, evs)) ->
     I (put n s) /\ Forall Q evs) ->
  I n -> wp I Q True (run_on get put handler ev) n.
Proof.
  intros Hh Hn. simpl.
  destruct (handler (world (n_tick n)) (get n) ev) as [[[s evs]|]|]; simpl; [|done|done].
  destruct (Hh s evs eq_refl). by apply wp_emit_all.
Qed.

(** No L1 block was ever seen. *)
Definition no_l1 (s : SyncStatus) : Prop :=
  HeadL1 s = zeroL1BlockRef /\ CurrentL1 s = zeroL1BlockRef /\ SafeL1 s = zeroL1BlockRef
  /\ FinalizedL1 s = zeroL1BlockRef.

(** The CL-sync node after at least [k] step attempts. *)
Record node_inv (k : Z) (n : Node) : Prop := {
  ni_mode : SyncMode (n_engine n) = Engine.CLSync;
  ni_cl : syncStatus (n_engine n) = syncStatusCL;
  ni_attempts : k <= stepAttempts (n_sched n);
  ni_pipeline : dp_inv (pipeline (n_pipeline n));
  ni_data : no_l1 (data (n_status n));
  ni_published : no_l1 (published (n_status n)) }.

Lemma node_inv_status k n s : node_inv k n -> no_l1 (data s) -> no_l1 (published s) ->
  node_inv k (put_status n s).
Proof. intros [] ??. by constructor. Qed.

Lemma status_quiet s ev : quiet ev -> no_l1 (data s) -> no_l1 (published s) ->
  forall s' evs, StatusTracker_OnEvent s ev = Some (Some (s', evs)) ->
  no_l1 (data s') /\ no_l1 (published s') /\ evs = [].
Proof.
  intros Hq Hd Hp s' evs. unfold StatusTracker_OnEvent.
  assert (forall d, status_update (data s) ev = Some d -> no_l1 d) as Hu.
  { destruct Hd as (H1 & H2 & H3 & H4). intros d.
    destruct ev as [[]| | | | | | | | | | | | | | | | | | | | | | | ]; try done; simpl in *;
      subst; intros [= <-]; by split_and!. }
  destruct (status_update (data s) ev) as [d|]; [|done]. specialize (Hu d eq_refl).
  intros [= <- <-]. simpl. split; [done|]. split; [by case_bool_decide|done].
Qed.

(** A literal list of quiet events. *)
Ltac quiet_list := repeat (apply Forall_cons_2; [done|]); apply Forall_nil_2.

Lemma quiet_Eng evs : Forall quiet (Eng <$> evs).
Proof. induction evs; simpl; by constructor. Qed.

Lemma onUnsafePayload_quiet s env s' evs : onUnsafePayload s env = Some (s', evs) ->
  Forall quiet evs.
Proof.
  unfold onUnsafePayload. destruct env as [e|]; [|done]. cbn [mbind option_bind].
  destruct (Push (unsafePayloads s) (Some e)) as [q [[]|err|]]; [| |done].
  - destruct (Peek q); [|done]. intros [= <- <-]. quiet_list.
  - intros [= <- <-]. quiet_list.
Qed.

Lemma clsync_quiet s ev s' evs : CLSync_OnEvent s ev = Some (Some (s', evs)) -> Forall quiet evs.
Proof.
  destruct ev as [[]| | | | | | | | | | | | | | | | | | | | | | | ]; try done; cbn [CLSync_OnEvent];
    intros H; injection H as H; [| |by eapply onUnsafePayload_quiet].
  - unfold onForkchoiceUpdate in H.
    destruct (forkchoice_loop _ _ _ _) as [[s1 []]|]; simpl in H; [|by simplify_eq|done].
    destruct (Peek _); simplify_eq/=. quiet_list.
  - unfold onInvalidPayload in H.
    destruct (Peek _); [case_bool_decide; [destruct (pop_queue s)|]|]; simplify_eq/=; quiet_list.
Qed.

Lemma finalizer_quiet s ev s' evs : quiet ev ->
  Finalizer_OnEvent s ev = Some (Some (s', evs)) -> Forall quiet evs.
Proof.
  intros Hq. destruct ev as [[]| | | | | | | | | | | | | | | | | | | | | | | ]; try done; simpl;
    unfold onDerivedSafeBlock, onReset, tryFinalize, onL1Finalized; repeat case_match; intros; simplify_eq; quiet_list.
Qed.

Lemma attributes_quiet w s ev s' evs :
  AttributesHandler_OnEvent w s ev = Some (Some (s', evs)) -> Forall quiet evs.
Proof.
  destruct ev as [[]| | | | | | | | | | | | | | | | | | | | | | | ]; try done; simpl;
    unfold onPendingSafeUpdate, consolidateNextSafeAttributes;
    repeat case_match; intros; simplify_eq; quiet_list.
Qed.

Lemma sched_quiet k r s ev s' evs : quiet ev -> k <= stepAttempts s ->
  StepScheduling_OnEvent r s ev = Some (Some (s', evs)) ->
  k <= stepAttempts s' /\ Forall quiet evs.
Proof.
  intros Hq Hk. destruct ev; try done; simpl in *; subst; intros [= <- <-]; simpl;
    repeat case_match; simpl; split; try lia; quiet_list.
Qed.

Lemma sequencer_quiet inp s ev s' evs :
  Sequencer_OnEvent inp s ev = Some (Some (s', evs)) -> Forall quiet evs.
Proof.
  destruct ev as [[]| | | | | | | | | | | | | | | | | | | | | | | ]; try done; simpl;
    unfold seq_onBuildStarted, seq_onSealError, seq_onPayloadInvalid, invalidated, seq_onReset,
      seq_onEngineTemporaryError, seq_onEngineResetConfirmed, seq_onBuildSealed,
      seq_onPayloadSuccess, seq_onForkchoiceUpdate, onSequencerAction, startBuildingBlock,
      handleInvalid, Gossip, gossip_Clear, gossip_Get, gossiper_call; intros [= H];
    repeat (case_match; simplify_eq/=); simplify_eq/=; quiet_list.
Qed.

Section Quiet.
  Context (k : Z) (Hworld : forall t, inputs_ok (w_step (world t))).
  Abbreviation safe h := (forall ev n, quiet ev -> node_inv k n -> wp (node_inv k) quiet True (h ev) n).

Lemma status_safe : safe status_deriver.
Proof.
  intros ev n Hq Hn. apply wp_run_on; [|done]. intros s evs H.
  apply status_quiet in H as (H1 & H2 & ->); [|done|apply Hn..].
  split; [by apply node_inv_status|constructor].
Qed.

Lemma reset_safe : safe reset_deriver.
Proof.
  intros ev n Hq Hn. apply wp_run_on; [|done]. intros s evs.
  destruct ev; try done. destruct (EngineResetDeriver_OnEvent _ _ _ _) as [[x|err|]|]; try done.
  intros [= <- <-]. split; [destruct Hn; by constructor|quiet_list].
Qed.

Lemma clsync_safe : safe clsync_deriver.
Proof.
  intros ev n Hq Hn. apply wp_run_on; [|done]. intros s evs H.
  split; [destruct Hn; by constructor|by eapply clsync_quiet].
Qed.

Lemma finalizer_safe : safe finalizer_deriver.
Proof.
  intros ev n Hq Hn. apply wp_run_on; [|done]. intros s evs H.
  split; [destruct Hn; by constructor|by eapply finalizer_quiet].
Qed.

Lemma attributes_safe : safe attributes_deriver.
Proof.
  intros ev n Hq Hn. apply wp_run_on; [|done]. intros s evs H.
  split; [destruct Hn; by constructor|by eapply attributes_quiet].
Qed.

Lemma pipeline_safe : safe pipeline_deriver.
Proof.
  intros ev n Hq Hn. apply wp_run_on; [|done]. intros s evs H.
  apply OnEvent_step in H as (H1 & H2 & _); [|by destruct (ni_pipeline _ _ Hn); constructor|apply Hworld].
  split; [destruct Hn; by constructor|done].
Qed.

Lemma sched_safe : safe sched_deriver.
Proof.
  intros ev n Hq Hn. apply wp_run_on; [|done]. intros s evs H.
  apply (sched_quiet k) in H as [H1 H2]; [|done|apply Hn]. split; [destruct Hn; by constructor|done].
Qed.

Lemma seq_safe : safe seq_deriver.
Proof.
  intros ev n Hq Hn. apply wp_run_on; [|done]. intros s evs H.
  split; [destruct Hn; by constructor|by eapply sequencer_quiet].
Qed.

Lemma engine_safe : safe engine_deriver.
Proof.
  intros ev n Hq Hn. apply wp_run_on; [|done]. intros s evs. destruct ev as [x| | | | | | | | | | | | | | | | | | | | | | | ]; try done.
  destruct (OnEvent _ _ x) as [[[e evs']|]|] eqn:E; try done. intros [= <- <-].
  apply OnEvent_kept in E as [Hm Hs]. split; [|apply quiet_Eng].
  destruct Hn. constructor; simpl; [by rewrite Hm|by apply Hs|done..].
Qed.

Lemma wp_drain (a : program) n : node_inv k n ->
  (forall n', node_inv k n' -> wp (node_inv k) quiet True a n') ->
  wp (node_inv k) quiet True (drain_or_return a) n.
Proof.
  intros Hn Ha. split; [done|]. intros n' [e|] Hn'; [|by apply Ha].
  by destruct (errors_Is e Canceled).
Qed.

Lemma sync_safe : safe sync_deriver.
Proof.
  intros ev n Hq Hn. unfold sync_deriver. cbn [wp].
  destruct ev as [[]| | | | | | | | | | | | | | | | | | | | | | | ]; try done;
    try (by split; [|done]).
  4:{ apply wp_drain; [done|]. intros n1 H1. split; [done|].
      apply wp_drain; [done|]. intros n2 H2. split; [done|].
      apply wp_drain; [done|]. intros n3 H3. cbn [wp]. unfold IsEngineSyncing.
      rewrite (ni_cl _ _ H3). split; [done|]. by repeat case_match. }
  all: apply wp_emit_all; [|done].
  - unfold onSafeDerivedBlock. repeat case_match; quiet_list.
  - unfold onEngineConfirmedReset. repeat case_match; quiet_list.
  - unfold onResetEvent. repeat case_match; quiet_list.
Qed.

Definition registered (r : string * option (NodeEvent -> program)) : Prop :=
  forall d, r.2 = Some d -> safe d.

Lemma register_all_ok rs s s' : Forall registered rs -> register_all s rs = Some s' ->
  handles_ok (node_inv k) quiet True s ->
  handles_ok (node_inv k) quiet True s' /\ node s' = node s /\ events s' = events s.
Proof.
  revert s. induction rs as [|[name d] rs IH]; intros s Hr; cbn [register_all].
  { intros [= <-] Hs. done. }
  apply Forall_cons in Hr as [Hd Hr]. unfold Register. case_bool_decide; [done|].
  cbn [mbind option_bind]. intros H1 Hs. apply IH in H1; [exact H1|done|].
  unfold handles_ok. cbn [handles]. destruct d as [d|]; [|done].
  apply Forall_app. split; [done|]. apply Forall_singleton. cbn [snd]. by apply Hd.
Qed.

Lemma registered_deriver name d : safe d -> registered (name, Some d).
Proof. intros Hd d' [= <-]. exact Hd. Qed.

Lemma registered_emitter name : registered (name, None).
Proof. by intros d. Qed.

Lemma registrations_safe seq : Forall registered (registrations seq).
Proof.
  unfold registrations. apply Forall_app. split.
  - refine (Forall_cons_2 _ _ _ (registered_deriver _ _ status_safe) _).
    refine (Forall_cons_2 _ _ _ (registered_emitter _) _).
    refine (Forall_cons_2 _ _ _ (registered_deriver _ _ reset_safe) _).
    refine (Forall_cons_2 _ _ _ (registered_deriver _ _ clsync_safe) _).
    refine (Forall_cons_2 _ _ _ (registered_deriver _ _ finalizer_safe) _).
    refine (Forall_cons_2 _ _ _ (registered_deriver _ _ attributes_safe) _).
    refine (Forall_cons_2 _ _ _ (registered_deriver _ _ pipeline_safe) _).
    refine (Forall_cons_2 _ _ _ (registered_deriver _ _ sync_safe) _).
    refine (Forall_cons_2 _ _ _ (registered_deriver _ _ engine_safe) _).
    refine (Forall_cons_2 _ _ _ (registered_deriver _ _ sched_safe) _).
    apply Forall_nil_2.
  - apply Forall_app. split; [|exact (Forall_cons_2 _ _ _ (registered_emitter _) (Forall_nil_2 _))].
    destruct seq; [|apply Forall_nil_2].
    exact (Forall_cons_2 _ _ _ (registered_deriver _ _ seq_safe) (Forall_nil_2 _)).
Qed.

(** Conversion unfolds the driver before it registers anything. *)
#[local] Strategy expand [NewDriver].
#[local] Strategy 1000 [register_all].

Lemma driver_ok n seq s : NewDriver n seq = Some s ->
  handles_ok (node_inv k) quiet True s /\ node s = n /\ events s = [].
Proof.
  intros Hd. unfold NewDriver in Hd.
  apply register_all_ok in Hd as (Hh & E1 & E2); [|apply registrations_safe|apply Forall_nil_2].
  done.
Qed.

Lemma driver_inv n seq s : node_inv k n -> NewDriver n seq = Some s ->
  sys_inv (node_inv k) quiet True s.
Proof.
  intros Hn (Hh & E1 & E2)%driver_ok.
  constructor; [done|by rewrite E1|rewrite E2; apply Forall_nil_2].
Qed.

Lemma emits_inv s evs : sys_inv (node_inv k) quiet True s -> Forall quiet evs ->
  sys_inv (node_inv k) quiet True (emits s evs).
Proof.
  intros Hs Hq. revert s Hs. induction Hq as [|ev evs Hev Hq IH]; intros s Hs; [done|].
  apply IH. destruct Hs as [Hh Hn He]. destruct (emit_fields is_critical s ev) as (E1 & E2 & _).
  constructor; [unfold handles_ok; by rewrite E1|by rewrite E2|by apply emit_events].
Qed.

Lemma with_node_inv s n : sys_inv (node_inv k) quiet True s -> node_inv k n ->
  sys_inv (node_inv k) quiet True (with_node s n).
Proof. intros [Hh Hn He] H. by constructor. Qed.

Lemma Fin_inj {A} (a b : A) : Fin a = Fin b -> a = b.
Proof. by intros [= ->]. Qed.

(** One case of the select keeps the invariant: in CL sync only the branches
    of CL sync are taken. *)
Lemma select_inv s input s' : sys_inv (node_inv k) quiet True s ->
  loop_select s input = Fin s' -> sys_inv (node_inv k) quiet True s'.
Proof.
  intros Hs. pose proof (si_node _ _ _ _ Hs) as Hn. unfold loop_select.
  rewrite (bool_decide_eq_true_2 _ (ni_mode _ _ Hn)). cbn [orb].
  destruct input as [|l2 el byRange size|[env|]| | | |]; intros H; try done.
  - apply Fin_inj in H as <-. apply emits_inv; [done|quiet_list].
  - destruct (LowestQueuedUnsafeBlock _) as [cl []]; try done; apply Fin_inj in H as <-;
      apply with_node_inv; (done || (destruct Hn; by constructor)).
  - apply Fin_inj in H as <-. apply emits_inv; [done|quiet_list].
  - apply Fin_inj in H as <-. apply emits_inv; [done|quiet_list].
  - apply Fin_inj in H as <-. apply emits_inv; [|quiet_list]. apply with_node_inv; [done|].
    destruct Hn; by constructor.
  - by apply Fin_inj in H as <-.
  - apply Fin_inj in H as <-. apply with_node_inv; [done|]. destruct Hn as [? ? ? [] ? ?]. by constructor.
Qed.

Lemma iteration_inv fuel seq s input s' : sys_inv (node_inv k) quiet True s ->
  loop_iteration fuel seq s input = Some (Fin s') -> sys_inv (node_inv k) quiet True s'.
Proof.
  intros Hs. unfold loop_iteration. pose proof (Drain_inv is_critical _ _ _ fuel s Hs) as Hd.
  destruct (sys_Drain is_critical fuel s) as [[s1 e]| |]; [|done|done].
  rewrite (bool_decide_eq_true_2 _ (ni_mode _ _ (si_node _ _ _ _ Hd))).
  destruct (loop_ready _ _ _); [|done]. intros H%Some_inj. eapply select_inv; [|exact H].
  apply emits_inv; [done|quiet_list].
Qed.
End Quiet.

Lemma emits_handles s evs : handles (emits s evs) = handles s.
Proof.
  revert s. induction evs as [|ev evs IH]; intros s; [done|].
  change (emits s (ev :: evs)) with (emits (emit is_critical s ev) evs). rewrite IH.
  by destruct (emit_fields is_critical s ev).
Qed.

Lemma iteration_handles fuel seq s input s' :
  loop_iteration fuel seq s input = Some (Fin s') -> handles s' = handles s.
Proof.
  unfold loop_iteration. destruct (sys_Drain is_critical fuel s) as [[s1 e]| |] eqn:E; [|done|done].
  apply Drain_handles in E. cbn [fst] in E. rewrite <- E.
  set (s2 := if bool_decide _ then emits s1 _ else s1).
  assert (handles s2 = handles s1) as <- by (subst s2; case_bool_decide; [apply emits_handles|done]).
  destruct (loop_ready _ _ _); [|done]. intros H%Some_inj. revert H. generalize s2. clear. intros s.
  assert (forall r s', engine_call s r = Fin s' -> handles s' = handles s) as Hc.
  { intros [[e evs] [[]|err|]] s1; cbn [engine_call]; intros H; try done;
      apply Fin_inj in H as <-; by rewrite emits_handles. }
  unfold loop_select. destruct input as [|l2 el byRange size|[env|]| | | |]; try done.
  all: repeat case_match; intros Hr; first [exact (Hc _ _ Hr) | done | apply Fin_inj in Hr as <-];
    rewrite ?emits_handles; done.
Qed.

Lemma NewNode_inv cfg elsync op notifs managed :
  node_inv 0 (NewNode cfg Engine.CLSync elsync op notifs managed).
Proof. by constructor; repeat constructor. Qed.

(** The invariant with any number of attempts, as far as the derivers are
    concerned. *)
Lemma loop_inv fuel seq cfg elsync op notifs managed s :
  (forall t, inputs_ok (w_step (world t))) ->
  loop_reaches fuel seq (NewNode cfg Engine.CLSync elsync op notifs managed) s ->
  sys_inv (node_inv 0) quiet True s /\ forall k, handles_ok (node_inv k) quiet True s.
Proof.
  intros Hw. induction 1 as [s Hd|s input s' _ [IH IHk] H].
  - split.
    + apply emits_inv; [|quiet_list]. eapply driver_inv; [done| |exact Hd]. apply NewNode_inv.
    + intros k. unfold handles_ok. rewrite emits_handles. exact (proj1 (driver_ok k Hw _ _ _ Hd)).
  - split; [by eapply iteration_inv|]. intros k. unfold handles_ok.
    rewrite (iteration_handles _ _ _ _ _ H). apply IHk.
Qed.

(** A node in CL sync never resets the backoff of its steps and never
    reports an L1 block: in any run of the driver's event loop, whatever the
    execution client, the network and the clocks do, whatever arrives and in
    whatever order the cases of the select fire, as long as the client does not
    report to be syncing to the pipeline, the number of step attempts never
    decreases and the L1 fields of the published sync status are zero. *)
Theorem node_never_idle fuel seq cfg elsync op notifs managed s :
  (forall t, inputs_ok (w_step (world t))) ->
  loop_reaches fuel seq (NewNode cfg Engine.CLSync elsync op notifs managed) s ->
  no_l1 (SyncStatus_of (n_status (node s)))
  /\ forall input s', loop_iteration fuel seq s input = Some (Fin s') ->
       stepAttempts (n_sched (node s)) <= stepAttempts (n_sched (node s')).
Proof.
  intros Hw Hr. destruct (loop_inv _ _ _ _ _ _ _ _ Hw Hr) as [[Hh [] He] Hk].
  split; [done|]. intros input s' Hi. set (k := stepAttempts (n_sched (node s))).
  eapply (iteration_inv k) in Hi; [apply (ni_attempts _ _ (si_node _ _ _ _ Hi))|].
  constructor; [apply Hk|by constructor|done].
Qed.
End NodeSystem.

(** ** Witness *)

(** The same answers at every tick. *)
Definition ex_world : nat -> World := fun _ =>
  {| w_engine := ex_engine ex_labels; w_chain := ex_chain; w_walk := 10; w_skip := true;
     w_step := ex_inputs; w_payloads := fun _ => Ok (ex_envelope 0 5 1); w_rand := 0;
     w_seq := ex_seq_inputs |}.

Definition ex_node : Node := NewNode example_config Engine.CLSync false (Some ex_op) None false.

Abbreviation ex_driver := (NewDriver (EP := ex_eip) (EA := ex_eip_attrs) ex_world ex_node false).

Lemma node_never_idle_witness :
  exists s, loop_reaches (EP := ex_eip) (EA := ex_eip_attrs) ex_world 100 false ex_node s
    /\ stepAttempts (n_sched (node s)) = 0
    /\ no_l1 (SyncStatus_of (n_status (node s)))
    /\ forall input s',
         loop_iteration ex_world 100 false s input = Some (Fin s') ->
         0 <= stepAttempts (n_sched (node s')).
Proof.
  destruct ex_driver as [s0|] eqn:E.
  2: { assert (match ex_driver with Some _ => true | None => false end = true) as H
      by (vm_compute; reflexivity).
    rewrite E in H. discriminate H. }
  assert (stepAttempts (n_sched (node s0)) = 0) as H0.
  { assert (option_map (fun s => stepAttempts (n_sched (node s))) (Some s0) = Some 0) as [= ->];
      [rewrite <- E; vm_compute; reflexivity|done]. }
  assert (stepAttempts (n_sched (node (emits s0 [StepReqEvent false]))) = 0) as H1.
  { destruct (emit_fields is_critical s0 (StepReqEvent false)) as (_ & Hn & _).
    unfold emits. cbn [foldl]. rewrite Hn. exact H0. }
  exists (emits s0 [StepReqEvent false]). split; [apply loop_start; exact E|]. split; [exact H1|].
  destruct (node_never_idle (EP := ex_eip) (EA := ex_eip_attrs) ex_world 100 false example_config false
    (Some ex_op) None false (emits s0 [StepReqEvent false])) as [Hl Hk].
  - intros t. exact ex_inputs_ok.
  - apply loop_start. exact E.
  - split; [exact Hl|]. rewrite H1 in Hk. exact Hk.
Defined.
