(* ===== verification/NodeFlow.v ===== *)
(** * A payload's way through the node

    Events that no deriver answers with a drain are handled by a pure function
    on the node; with it, the way of a gossiped payload from the network through
    CL sync and the engine to the heads is followed to its end. *)

From S2P Require Import Prelude EthTypes RollupConfig SpanBatch Batches Pipeline Engine.
From S2P Require Import EngineDeriver SyncStart NodeEvents EventSystem PayloadsQueue CLSync.
From S2P Require Import Finalizer AttributesHandler PipelineDeriver StatusTracker Driver Sequencer.
From S2P Require Import Node.

Section Flow.
  Context {EP : EIP1559} {EA : EIP1559Attributes} (world : nat -> World).
  Abbreviation program := (act (E := NodeEvent) (N := Node)).
  Abbreviation system := (Sys (E := NodeEvent) (N := Node)).

(** ** Events that no deriver answers with a drain

    For these the handlers run one after the other on the node, and their
    events are appended in order. *)

Abbreviation light := (Node -> NodeEvent -> option (Node * list NodeEvent)).

Definition light_of {S} (get : Node -> S) (put : Node -> S -> Node)
    (handler : World -> S -> NodeEvent -> option (outcome S)) : light := fun n ev =>
  match handler (world (n_tick n)) (get n) ev with
  | None => Some (n, [])
  | Some None => None
  | Some (Some (s, evs)) => Some (put n s, evs)
  end.

(** A deriver does on the system what [l] does on the node. *)
Definition realizes (h : NodeEvent -> program) (l : light) (ev : NodeEvent) : Prop :=
  forall drain s n' evs, l (node s) ev = Some (n', evs) ->
    perform is_critical drain (h ev) s = Fin (emits (with_node s n') evs).

Lemma with_node_id (s : system) : with_node s (node s) = s.
Proof. by destruct s. Qed.

Lemma perform_emit_all drain evs (s : system) :
  perform is_critical drain (emit_all evs Return) s = Fin (emits s evs).
Proof. revert s. induction evs as [|ev evs IH]; intros s; [done|]. simpl. by rewrite IH. Qed.

Lemma run_on_realizes {S} (get : Node -> S) put handler ev :
  realizes (run_on world get put handler) (light_of get put handler) ev.
Proof.
  intros drain s n' evs. unfold light_of. simpl.
  destruct (handler (world (n_tick (node s))) (get (node s)) ev) as [[[c out]|]|]; [|done|].
  - intros [= <- <-]. apply perform_emit_all.
  - intros [= <- <-]. by rewrite with_node_id.
Qed.

(** The sync deriver, but for a step. *)
Definition light_sync : light := fun n ev =>
  match ev with
  | StepEvent => None
  | Eng (ResetEvent _) => Some (n, onResetEvent (get_sync n))
  | L1TemporaryErrorEvent _ | Eng (EngineTemporaryErrorEvent _) | ProvideL1Traversal _ =>
      Some (n, [StepReqEvent false])
  | Eng (EngineResetConfirmedEvent _ _ _ crossSafe _) =>
      Some (n, onEngineConfirmedReset (get_sync n) crossSafe)
  | DeriverIdleEvent _ => Some (n, [ResetStepBackoffEvent])
  | Eng (SafeDerivedEvent safe) => Some (n, onSafeDerivedBlock (get_sync n) safe)
  | _ => Some (n, [])
  end.

Lemma sync_realizes ev : realizes sync_deriver light_sync ev.
Proof.
  intros drain s n' evs. unfold sync_deriver. cbn [perform]. unfold id. rewrite with_node_id.
  destruct ev as [[]| | | | | | | | | | | | | | | | | | | | | | | ]; try done;
    intros [= <- <-]; rewrite with_node_id; try done; apply perform_emit_all.
Qed.

Definition derivers : list (string * (NodeEvent -> program)) :=
  [("status", status_deriver world); ("engine-reset", reset_deriver world); ("cl-sync", clsync_deriver world);
   ("finalizer", finalizer_deriver world); ("attributes-handler", attributes_deriver world);
   ("pipeline", pipeline_deriver world); ("sync", sync_deriver); ("engine", engine_deriver world);
   ("step-scheduler", sched_deriver world)].

Definition lights : list light :=
  [light_of n_status put_status (fun _ s ev => StatusTracker_OnEvent s ev);
   light_of n_cfg (fun n _ => put_sched n (n_sched n)) (fun w cfg ev =>
     match ev with
     | ResetEngineRequestEvent =>
         Some (match EngineResetDeriver_OnEvent (w_walk w) cfg (w_chain w) (w_skip w) with
               | Some (Ok ev) => Some (cfg, [Eng ev])
               | _ => None
               end)
     | _ => None
     end);
   light_of get_clsync put_clsync (fun _ s ev => CLSync_OnEvent s ev);
   light_of get_finalizer put_finalizer (fun _ s ev => Finalizer_OnEvent s ev);
   light_of get_attributes put_attributes (fun w s ev => AttributesHandler_OnEvent (w_payloads w) s ev);
   light_of get_pipeline put_pipeline (fun w s ev => PipelineDeriver_OnEvent (w_step w) s ev);
   light_sync;
   light_of get_engine put_engine (fun w s ev =>
     match ev with
     | Eng x =>
         match OnEvent (w_engine w) s x with
         | None => None
         | Some None => Some None
         | Some (Some (s, evs)) => Some (Some (s, Eng <$> evs))
         end
     | _ => None
     end);
   light_of n_sched put_sched (fun w s ev => StepScheduling_OnEvent (w_rand w) s ev)].

Fixpoint run_lights (ls : list light) (n : Node) (ev : NodeEvent) : option (Node * list NodeEvent) :=
  match ls with
  | [] => Some (n, [])
  | l :: ls =>
      '(n, evs) ← l n ev;
      '(n, evs') ← run_lights ls n ev; Some (n, evs ++ evs')
  end.

(** What the derivers of a node without sequencer do with one event. *)
Definition node_step (n : Node) (ev : NodeEvent) : option (Node * list NodeEvent) :=
  run_lights lights n ev.

Lemma derivers_realize ev : Forall2 (fun h l => realizes h.2 l ev) derivers lights.
Proof.
  repeat (apply Forall2_cons; split; [first [apply run_on_realizes|apply sync_realizes]|]).
  apply Forall2_nil_2.
Qed.

(** A running system of these derivers with the queue [L]. *)
Record live (s : system) (L : list NodeEvent) : Prop := {
  lv_handles : handles s = derivers;
  lv_events : events s = L;
  lv_abort : abort s = false;
  lv_ctx : ctx_err s = None }.

Definition fine (L : list NodeEvent) : Prop :=
  Z.of_nat (length L) < queue_limit /\ Forall (fun ev => is_critical ev = false) L.

#[export] Instance fine_dec L : Decision (fine L).
Proof. unfold fine. apply _. Defined.

Lemma emits_live (s : system) L evs : live s L -> fine (L ++ evs) ->
  live (emits s evs) (L ++ evs) /\ node (emits s evs) = node s.
Proof.
  revert s L. induction evs as [|ev evs IH]; intros s L [H1 H2 H3 H4] Hf.
  { rewrite app_nil_r. by split; [constructor|]. }
  change (emits s (ev :: evs)) with (emits (emit is_critical s ev) evs).
  destruct (emit_fields is_critical s ev) as (E1 & E2 & E3 & _).
  destruct Hf as [Hl Hc]. rewrite length_app in Hl. simpl in Hl.
  assert (is_critical ev = false) as Hev.
  { eapply Forall_forall in Hc; [exact Hc|]. apply elem_of_app. right. left. }
  assert (live (emit is_critical s ev) (L ++ [ev])) as Hs.
  { unfold emit, sys_Enqueue. rewrite Hev, H2. rewrite (proj2 (Z.leb_gt _ _)) by lia. by constructor. }
  replace (L ++ ev :: evs) with ((L ++ [ev]) ++ evs) by (by rewrite <- app_assoc).
  rewrite <- E2. apply IH; [done|]. split; [rewrite !length_app; simpl; lia|].
  by rewrite <- app_assoc.
Qed.

Lemma run_lights_live drain ev hs ls (s : system) L n' evs :
  Forall2 (fun h l => realizes h.2 l ev) hs ls ->
  run_lights ls (node s) ev = Some (n', evs) -> live s L -> fine (L ++ evs) ->
  exists s', run_handles is_critical drain hs ev s = Fin s' /\ node s' = n' /\ live s' (L ++ evs).
Proof.
  intros Hr. revert s L evs. induction Hr as [|h l hs ls Hh Hr IH]; intros s L evs Hl Hs Hf.
  { injection Hl as <- <-. rewrite app_nil_r. by exists s. }
  cbn [run_lights] in Hl. destruct (l (node s) ev) as [[n1 evs1]|] eqn:E1; [|done].
  cbn [mbind option_bind] in Hl.
  destruct (run_lights ls n1 ev) as [[n2 evs2]|] eqn:E2; [|done]. injection Hl as <- <-.
  cbn [run_handles]. unfold RunEvent. rewrite (lv_abort _ _ Hs). cbn [andb].
  rewrite (Hh drain s n1 evs1 E1). cbn [run_bind].
  rewrite app_assoc in Hf |- *.
  assert (fine (L ++ evs1)) as Hf1.
  { destruct Hf as [Hf1 Hf2]. apply Forall_app in Hf2 as [Hf2 _]. split; [|done].
    rewrite length_app in Hf1. lia. }
  destruct (emits_live (with_node s n1) L evs1) as [Hs1 Hn1]; [by destruct Hs; constructor|done|].
  apply (IH (emits (with_node s n1) evs1)); [by rewrite Hn1|done|done].
Qed.

(** One step of a drain. *)
Lemma drain_node_step f s ev L n' evs :
  live s (ev :: L) -> node_step (node s) ev = Some (n', evs) -> fine (L ++ evs) ->
  exists s', sys_Drain is_critical (S f) s = sys_Drain is_critical f s'
    /\ node s' = n' /\ live s' (L ++ evs).
Proof.
  intros [H1 H2 H3 H4] Hn Hf. cbn [sys_Drain]. rewrite H4, H2. unfold sys_processEvent.
  cbn [with_events handles]. rewrite H1.
  destruct (run_lights_live (sys_Drain is_critical f) ev derivers lights (with_events s L) L n' evs)
    as (s' & -> & Hs'); [apply derivers_realize|done|by constructor|done|].
  exists s'. by split.
Qed.

(** A whole drain, as the fold of the steps. *)
Fixpoint node_drain (f : nat) (n : Node) (L : list NodeEvent) : option Node :=
  match L with
  | [] => Some n
  | ev :: L =>
      match f with
      | O => None
      | S f => '(n, evs) ← node_step n ev; if decide (fine (L ++ evs)) then node_drain f n (L ++ evs) else None
      end
  end.

Lemma Drain_node_drain f s L n' : live s L -> node_drain f (node s) L = Some n' ->
  exists s', sys_Drain is_critical f s = Fin (s', None) /\ node s' = n' /\ events s' = [].
Proof.
  revert s L. induction f as [|f IH]; intros s [|ev L] Hs Hd.
  1,3: destruct Hs as [H1 H2 H3 H4]; injection Hd as <-; exists s; cbn [sys_Drain]; by rewrite H4, H2.
  { done. }
  cbn [node_drain] in Hd. destruct (node_step (node s) ev) as [[n1 evs]|] eqn:E; [|done].
  cbn [mbind option_bind] in Hd. case_decide as Hf; [|done].
  destruct (drain_node_step f s ev L n1 evs Hs E Hf) as (s1 & -> & <- & Hs1).
  by apply (IH s1 (L ++ evs)).
Qed.

(** ** CL sync with one payload *)

Lemma queue_single q e : contents q = [e] -> Peek q = Some e /\ Len q = 1%nat.
Proof.
  unfold contents, Peek, Len. destruct (pq q) as [|p [|p' l]]; simpl; intros; simplify_eq. done.
Qed.

Lemma cl_push cl env : cl_inv cl -> queued cl = [] ->
  env_hash env ∉ blockHashes (unsafePayloads cl) ->
  SizeFn (unsafePayloads cl) env <= MaxSize (unsafePayloads cl) ->
  exists cl', CLSync_OnEvent cl (ReceivedUnsafePayloadEvent (Some env))
      = Some (Some (cl', [Eng ForkchoiceRequestEvent]))
    /\ cl_inv cl' /\ queued cl' = [env] /\ cl_cfg cl' = cl_cfg cl.
Proof.
  intros Hi Hq Hh Hs. cbn [CLSync_OnEvent]. unfold onUnsafePayload. cbn [mbind option_bind].
  destruct (Push_spec _ env Hi Hh Hs) as (q' & d & HP & Hi' & Hev & _). rewrite HP.
  assert (contents q' = [env]) as Hc.
  { unfold queued in Hq. rewrite Hq in Hev. inversion Hev as [m m' Hp _|m x m1 m' d' Hlt]; subst.
    - symmetry in Hp. by apply Permutation_singleton_r in Hp.
    - unfold total in Hlt. simpl in Hlt. lia. }
  destruct (queue_single q' env Hc) as [-> _]. eexists. split; [reflexivity|]. by split_and!.
Qed.

Lemma cl_next cl env u s f : queued cl = [env] -> is_u64 (l2_Number u + 1) ->
  env_number env = l2_Number u + 1 -> ep_ParentHash (env_ExecutionPayload env) = l2_Hash u ->
  env_hash env <> l2_Hash u -> l2_Number s <= l2_Number u ->
  CLSync_OnEvent cl (Eng (ForkchoiceUpdateEvent u s f))
  = Some (Some (cl, [Eng (ProcessUnsafePayloadEvent env)])).
Proof.
  intros Hq Hu Hn Hp Hh Hs. cbn [CLSync_OnEvent]. unfold onForkchoiceUpdate.
  destruct (queue_single _ env Hq) as [Hpeek Hlen]. rewrite Hlen. cbn [forkchoice_loop].
  unfold fromQueue. rewrite Hpeek, Hlen. rewrite bool_decide_eq_false_2 by done.
  unfold env_number, env_hash in *.
  rewrite (proj2 (Z.eqb_neq _ _) Hh), !(proj2 (Z.leb_gt _ _)) by lia.
  rewrite (proj2 (Z.eqb_eq _ _) Hp). cbn [negb mbind option_bind]. by rewrite Hpeek.
Qed.

Lemma cl_none cl u s f : queued cl = [] ->
  CLSync_OnEvent cl (Eng (ForkchoiceUpdateEvent u s f)) = Some (Some (cl, [])).
Proof.
  intros Hq. cbn [CLSync_OnEvent]. unfold onForkchoiceUpdate.
  assert (Len (unsafePayloads cl) = 0%nat) as Hl.
  { unfold queued, contents, Len in *. by destruct (pq (unsafePayloads cl)). }
  rewrite Hl. cbn [forkchoice_loop]. unfold fromQueue. rewrite Hl.
  by rewrite bool_decide_eq_true_2 by done.
Qed.

Lemma cl_pop cl env u s f : cl_inv cl -> queued cl = [env] -> env_hash env = l2_Hash u ->
  exists cl', CLSync_OnEvent cl (Eng (ForkchoiceUpdateEvent u s f)) = Some (Some (cl', []))
    /\ cl_inv cl' /\ queued cl' = [] /\ cl_cfg cl' = cl_cfg cl.
Proof.
  intros Hi Hq Hh. cbn [CLSync_OnEvent]. unfold onForkchoiceUpdate.
  destruct (queue_single _ env Hq) as [Hpeek Hlen].
  destruct (pop_queue_spec cl env Hi Hpeek) as (cl' & HP & Hi' & Hc & Hperm & Hl).
  assert (queued cl' = []) as Hq'.
  { rewrite Hq in Hperm. apply (Permutation_cons_inv (l := [])) in Hperm.
    by apply Permutation_nil in Hperm. }
  assert (fromQueue cl u s = Some (true, false)) as H1.
  { unfold fromQueue. rewrite Hpeek, Hlen. rewrite bool_decide_eq_false_2 by done.
    unfold env_hash in Hh. by rewrite (proj2 (Z.eqb_eq _ _) Hh). }
  assert (fromQueue cl' u s = Some (false, true)) as H2.
  { unfold fromQueue. by rewrite bool_decide_eq_true_2 by lia. }
  rewrite Hlen. cbn [forkchoice_loop]. rewrite H1. cbn [mbind option_bind].
  rewrite HP. cbn [mbind option_bind]. rewrite H2. cbn [mbind option_bind].
  exists cl'. by split_and!.
Qed.

(** ** Steps of the node *)

Lemma run_skip {S} (get : Node -> S) put handler ls n ev R :
  handler (world (n_tick n)) (get n) ev = None -> run_lights ls n ev = R ->
  run_lights (light_of get put handler :: ls) n ev = R.
Proof.
  intros H1 <-. cbn [run_lights]. unfold light_of. rewrite H1. cbn [mbind option_bind].
  by destruct (run_lights ls n ev) as [[n' evs]|].
Qed.

Lemma run_silent {S} (get : Node -> S) put handler ls n ev s R :
  handler (world (n_tick n)) (get n) ev = Some (Some (s, [])) ->
  run_lights ls (put n s) ev = R ->
  run_lights (light_of get put handler :: ls) n ev = R.
Proof.
  intros H1 <-. cbn [run_lights]. unfold light_of. rewrite H1. cbn [mbind option_bind].
  by destruct (run_lights ls (put n s) ev) as [[n' evs]|].
Qed.

(** A deriver that emits, with silent ones after it. *)
Lemma run_emits {S} (get : Node -> S) put handler ls n ev s evs n' :
  handler (world (n_tick n)) (get n) ev = Some (Some (s, evs)) ->
  run_lights ls (put n s) ev = Some (n', []) ->
  run_lights (light_of get put handler :: ls) n ev = Some (n', evs).
Proof.
  intros H1 H2. cbn [run_lights]. unfold light_of. rewrite H1. cbn [mbind option_bind].
  rewrite H2. cbn [mbind option_bind]. by rewrite app_nil_r.
Qed.

Lemma run_sync ls n ev R : light_sync n ev = Some (n, []) -> run_lights ls n ev = R ->
  run_lights (light_sync :: ls) n ev = R.
Proof.
  intros H1 <-. cbn [run_lights]. rewrite H1. cbn [mbind option_bind].
  by destruct (run_lights ls n ev) as [[n' evs]|].
Qed.

(** Events that only the engine handles. *)
Definition only_engine (x : Event) : bool :=
  match x with
  | ForkchoiceRequestEvent | ProcessUnsafePayloadEvent _ | UnsafeUpdateEvent _
  | PromoteCrossUnsafeEvent _ | TryUpdateEngineEvent _ => true
  | _ => false
  end.

Lemma step_engine n x e' evs : only_engine x = true ->
  OnEvent (w_engine (world (n_tick n))) (get_engine n) x = Some (Some (e', evs)) ->
  node_step n (Eng x) = Some (put_engine n e', Eng <$> evs).
Proof.
  intros Hx He. unfold node_step, lights.
  do 6 (apply run_skip; [by destruct x|]). apply run_sync; [by destruct x|].
  eapply run_emits; [by rewrite He|].
  apply run_skip; [by destruct x|]. done.
Qed.

(** The heads the status tracker publishes. *)
Definition shows (n : Node) (u s f : L2BlockRef) : Prop :=
  let st := SyncStatus_of (n_status n) in UnsafeL2 st = u /\ SafeL2 st = s /\ FinalizedL2 st = f.

(** The node with the engine controller [e] and the queued payloads [q]. *)
Record flow (n : Node) (e : EngineController) (q : list ExecutionPayloadEnvelope) : Prop := {
  fl_engine : get_engine n = e;
  fl_cl : cl_inv (get_clsync n);
  fl_queue : queued (get_clsync n) = q }.

Lemma status_hit s ev d : status_update (data s) ev = Some d ->
  StatusTracker_OnEvent s ev = Some (Some ({| data := d; published := d |}, [])).
Proof.
  intros H. unfold StatusTracker_OnEvent. rewrite H. case_bool_decide as Hd; [done|]. by rewrite <- Hd.
Qed.

Lemma step_forkchoice n e q u s f cl' evs : flow n e q ->
  CLSync_OnEvent (get_clsync n) (Eng (ForkchoiceUpdateEvent u s f)) = Some (Some (cl', evs)) ->
  cl_inv cl' -> cl_cfg cl' = n_cfg n ->
  exists n', node_step n (Eng (ForkchoiceUpdateEvent u s f)) = Some (n', evs)
    /\ flow n' e (queued cl') /\ shows n' u s f.
Proof.
  intros [He Hi Hq] Hcl Hi' Hc. eexists. split.
  - unfold node_step, lights. eapply run_silent; [by apply status_hit|].
    apply run_skip; [done|]. eapply run_emits; [exact Hcl|]. eapply run_silent; [reflexivity|].
    do 2 (apply run_skip; [done|]). apply run_sync; [done|]. do 2 (apply run_skip; [done|]). done.
  - split; [|done]. constructor; simpl.
    + unfold get_engine in *. simpl. by rewrite Hc.
    + done.
    + done.
Qed.

Lemma step_crossUnsafe n e q r u : flow n e q ->
  exists n', node_step n (Eng (CrossUnsafeUpdateEvent r u)) = Some (n', []) /\ flow n' e q.
Proof.
  intros [He Hi Hq]. eexists. split.
  - unfold node_step, lights. eapply run_silent; [by apply status_hit|].
    do 5 (apply run_skip; [done|]). apply run_sync; [done|]. do 2 (apply run_skip; [done|]). done.
  - by constructor.
Qed.

Lemma step_received n e env : flow n e [] ->
  env_hash env ∉ blockHashes (unsafePayloads (n_clsync n)) ->
  SizeFn (unsafePayloads (n_clsync n)) env <= MaxSize (unsafePayloads (n_clsync n)) ->
  exists n', node_step n (ReceivedUnsafePayloadEvent (Some env))
      = Some (n', [Eng ForkchoiceRequestEvent]) /\ flow n' e [env].
Proof.
  intros [He Hi Hq] Hh Hs.
  destruct (cl_push (get_clsync n) env Hi Hq Hh Hs) as (cl' & Hcl & Hi' & Hq' & Hc).
  eexists. split.
  - unfold node_step, lights. do 2 (apply run_skip; [done|]).
    eapply run_emits; [exact Hcl|].
    do 3 (apply run_skip; [done|]). apply run_sync; [done|]. do 2 (apply run_skip; [done|]). done.
  - constructor; simpl; [|done|done]. unfold get_engine in *. simpl. by rewrite Hc.
Qed.

Lemma flow_engine n e q e' : flow n e q -> flow (put_engine n e') e' q.
Proof. intros [He Hi Hq]. constructor; [by destruct e'|done|done]. Qed.

(** ** The engine with a willing execution client *)

Definition payload_ref (env : ExecutionPayloadEnvelope) : L2BlockRef :=
  let p := env_ExecutionPayload env in
  {| l2_Hash := ep_BlockHash p; l2_Number := ep_BlockNumber p; l2_ParentHash := ep_ParentHash p;
     l2_Time := ep_Timestamp p; l2_L1Origin := zeroBlockID; l2_SequenceNumber := 0 |}.

(** It finds every payload valid and accepts every forkchoice. *)
Record willing (eng : ExecEngine) : Prop := {
  wi_payload : forall p r, NewPayload eng p r = Ok ExecutionValid;
  wi_forkchoice : forall fc, exists id, ForkchoiceUpdate eng fc None = Ok (ExecutionValid, id) }.

(** The unsafe, safe and finalized heads are all [ref]. *)
Definition heads_at (e : EngineController) (ref : L2BlockRef) : Prop :=
  unsafeHead e = ref /\ safeHead e = ref /\ finalizedHead e = ref.

Lemma check_valid e : syncStatus e = syncStatusCL ->
  checkNewPayloadStatus e ExecutionValid = (e, true)
  /\ checkForkchoiceUpdatedStatus e ExecutionValid = (e, true).
Proof.
  intros Hs. unfold checkNewPayloadStatus, checkForkchoiceUpdatedStatus. rewrite Hs.
  by destruct (SyncMode e).
Qed.

Lemma insert_willing eng e env ref : willing eng -> syncStatus e = syncStatusCL ->
  exists e', InsertUnsafePayload eng e env ref
      = (e', [UnsafeUpdateEvent ref; ForkchoiceUpdateEvent ref ref ref], Ok ())
    /\ heads_at e' ref /\ needFCUCall e' = true /\ rollupCfg e' = rollupCfg e
    /\ syncStatus e' = syncStatusCL.
Proof.
  intros [Hp Hf] Hs. unfold InsertUnsafePayload, start_el_sync. rewrite Hs.
  rewrite decide_False by done. rewrite Hp. unfold insert_payload.
  rewrite decide_False by done. rewrite (proj1 (check_valid e Hs)), Hs.
  rewrite (bool_decide_eq_false_2 (syncStatusCL = _)) by done. cbn [negb app].
  match goal with |- context [ForkchoiceUpdate eng ?fc None] => destruct (Hf fc) as [id ->] end.
  rewrite (proj2 (check_valid e Hs)). cbn [negb]. rewrite decide_False by (cbn; by rewrite Hs).
  rewrite bool_decide_eq_true_2 by done. cbn [orb app].
  eexists. split; [reflexivity|]. by split_and!.
Qed.

Lemma engine_process eng e env : willing eng -> syncStatus e = syncStatusCL ->
  env_hash env <> l2_Hash (unsafeHead e) ->
  exists e', OnEvent eng e (ProcessUnsafePayloadEvent env)
      = Some (Some (e', [UnsafeUpdateEvent (payload_ref env);
          ForkchoiceUpdateEvent (payload_ref env) (payload_ref env) (payload_ref env)]))
    /\ heads_at e' (payload_ref env) /\ needFCUCall e' = true
    /\ InteropTime (rollupCfg e') = InteropTime (rollupCfg e).
Proof.
  intros Hw Hs Hh. cbn [OnEvent]. unfold PayloadToBlockRef.
  set (cfg := if _ && _ then _ else _). change {| l2_Hash := _ |} with (payload_ref env).
  assert (InteropTime cfg = InteropTime (rollupCfg e)) as Hi by (subst cfg; by destruct (_ && _)).
  rewrite decide_False by (intros [= E _]; by apply Hh).
  destruct (insert_willing eng (set_rollupCfg e cfg) env (payload_ref env) Hw Hs)
    as (e' & -> & He & Hn & Hc & _).
  exists e'. split_and!; [done|done|done|]. by rewrite Hc.
Qed.

Lemma engine_unsafe_update eng e ref : InteropTime (rollupCfg e) = None ->
  OnEvent eng e (UnsafeUpdateEvent ref)
  = Some (Some (e, [PromoteCrossUnsafeEvent ref; TryUpdateEngineEvent None])).
Proof. intros Hi. cbn [OnEvent]. unfold IsInterop, fork_active. by rewrite Hi. Qed.

Lemma engine_update eng e ref : willing eng -> heads_at e ref -> crossUnsafeHead e = ref ->
  ref <> zeroL2BlockRef -> needFCUCall e = true ->
  exists e', OnEvent eng e (TryUpdateEngineEvent None)
      = Some (Some (e', [ForkchoiceUpdateEvent ref ref ref])) /\ heads_at e' ref.
Proof.
  intros [_ Hf] (Hu & Hs & Hfin) Hc Hz Hn. cbn [OnEvent]. unfold TryUpdateEngine. rewrite Hn.
  cbn [negb]. unfold initializeUnknowns, is_zero. rewrite Hu, (bool_decide_eq_false_2 (ref = _)) by done.
  rewrite Hfin, (bool_decide_eq_false_2 (ref = _)) by done.
  rewrite Hs, (bool_decide_eq_false_2 (ref = _)) by done.
  rewrite Hc, (bool_decide_eq_false_2 (ref = _)) by done.
  set (e1 := if bool_decide (localSafeHead e = _) then _ else e).
  assert (heads_at e1 ref) as H1 by (subst e1; case_bool_decide; by split_and!).
  destruct H1 as (Hu1 & Hs1 & Hf1). rewrite Hu1, Hf1, Z.ltb_irrefl.
  destruct (Hf (forkchoice e1)) as [id ->]. rewrite Hs1. eexists. split; [reflexivity|].
  destruct (_ && _); by split_and!.
Qed.

(** ** The way of a gossiped payload *)

Lemma drain_on f n ev L n1 evs R : node_step n ev = Some (n1, evs) -> fine (L ++ evs) ->
  node_drain f n1 (L ++ evs) = R -> node_drain (S f) n (ev :: L) = R.
Proof.
  intros H1 H2 <-. cbn [node_drain]. rewrite H1. cbn [mbind option_bind]. by rewrite decide_True.
Qed.

Lemma flow_step n e q x e' evs : flow n e q ->
  OnEvent (w_engine (world (n_tick n))) e x = Some (Some (e', evs)) -> only_engine x = true ->
  exists n', node_step n (Eng x) = Some (n', Eng <$> evs) /\ flow n' e' q.
Proof.
  intros Hf He Hx. exists (put_engine n e'). split; [|by eapply flow_engine].
  apply step_engine; [done|]. by rewrite (fl_engine _ _ _ Hf).
Qed.

Ltac few := split; [vm_compute; done|repeat constructor].

(** The payload is announced to the engine and processed. *)
Lemma flow_arrives f n e env : flow n e [] ->
  env_hash env ∉ blockHashes (unsafePayloads (n_clsync n)) ->
  SizeFn (unsafePayloads (n_clsync n)) env <= MaxSize (unsafePayloads (n_clsync n)) ->
  is_u64 (l2_Number (unsafeHead e) + 1) -> env_number env = l2_Number (unsafeHead e) + 1 ->
  ep_ParentHash (env_ExecutionPayload env) = l2_Hash (unsafeHead e) ->
  env_hash env <> l2_Hash (unsafeHead e) -> l2_Number (safeHead e) <= l2_Number (unsafeHead e) ->
  exists n', flow n' e [env] /\ node_drain (3 + f) n [ReceivedUnsafePayloadEvent (Some env)]
    = node_drain f n' [Eng (ProcessUnsafePayloadEvent env)].
Proof.
  intros Hfl Hh Hs Hu Hn Hp Hne Hsu.
  destruct (step_received n e env Hfl Hh Hs) as (n1 & E1 & F1).
  destruct (flow_step n1 e [env] ForkchoiceRequestEvent e
    [ForkchoiceUpdateEvent (unsafeHead e) (safeHead e) (finalizedHead e)] F1) as (n2 & E2 & F2); [done|done|].
  destruct (step_forkchoice n2 e [env] _ _ (finalizedHead e) _ _ F2
    (cl_next _ env _ _ _ (fl_queue _ _ _ F2) Hu Hn Hp Hne Hsu) (fl_cl _ _ _ F2) eq_refl) as (n3 & E3 & F3 & _).
  rewrite (fl_queue _ _ _ F2) in F3. exists n3. split; [done|].
  eapply drain_on; [exact E1|few|]. eapply drain_on; [exact E2|few|].
  eapply drain_on; [exact E3|few|]. done.
Qed.

(** The processed payload becomes every head. *)
Lemma flow_settles f n e env : flow n e [env] -> (forall t, willing (w_engine (world t))) ->
  syncStatus e = syncStatusCL -> InteropTime (rollupCfg e) = None ->
  env_hash env <> l2_Hash (unsafeHead e) -> 0 < env_number env ->
  exists n' e', node_drain (7 + f) n [Eng (ProcessUnsafePayloadEvent env)] = Some n'
    /\ flow n' e' [] /\ heads_at e' (payload_ref env)
    /\ shows n' (payload_ref env) (payload_ref env) (payload_ref env).
Proof.
  intros F0 Hw Hs Hi Hh Hn. set (ref := payload_ref env).
  assert (ref <> zeroL2BlockRef) as Hz.
  { intros Hz. apply (f_equal l2_Number) in Hz. unfold env_number in Hn. simpl in Hz. lia. }
  destruct (engine_process _ e env (Hw (n_tick n)) Hs Hh) as (e1 & E1 & H1 & N1 & I1).
  destruct (flow_step _ _ _ _ _ _ F0 E1 eq_refl) as (n1 & D1 & F1). rewrite Hi in I1.
  destruct (flow_step _ _ _ _ _ _ F1 (engine_unsafe_update _ e1 ref I1) eq_refl) as (n2 & D2 & F2).
  destruct (cl_pop _ env ref ref ref (fl_cl _ _ _ F2) (fl_queue _ _ _ F2) eq_refl)
    as (cl & C3 & Hi3 & Hq3 & Hc3).
  destruct (step_forkchoice _ _ _ _ _ _ _ _ F2 C3 Hi3 Hc3) as (n3 & D3 & F3 & _). rewrite Hq3 in F3.
  destruct (flow_step n3 e1 [] (PromoteCrossUnsafeEvent ref) (SetCrossUnsafeHead e1 ref)
    [CrossUnsafeUpdateEvent ref (unsafeHead e1)] F3) as (n4 & D4 & F4); [done|done|].
  destruct (engine_update (w_engine (world (n_tick n4))) (SetCrossUnsafeHead e1 ref) ref)
    as (e5 & E5 & H5); [apply Hw|done|done|done|done|].
  destruct (flow_step _ _ _ _ _ _ F4 E5 eq_refl) as (n5 & D5 & F5).
  destruct (step_crossUnsafe n5 e5 [] ref (unsafeHead e1) F5) as (n6 & D6 & F6).
  destruct (step_forkchoice _ _ _ ref ref ref _ _ F6
    (cl_none _ ref ref ref (fl_queue _ _ _ F6)) (fl_cl _ _ _ F6) eq_refl) as (n7 & D7 & F7 & S7).
  rewrite (fl_queue _ _ _ F6) in F7. exists n7, e5. split; [|done].
  eapply drain_on; [exact D1|few|]. eapply drain_on; [exact D2|few|].
  eapply drain_on; [exact D3|few|]. eapply drain_on; [exact D4|few|].
  eapply drain_on; [exact D5|few|]. eapply drain_on; [exact D6|few|].
  eapply drain_on; [exact D7|few|]. by destruct f.
Qed.

(** The way of a gossiped payload.  In a node without sequencer that is
    not syncing the execution layer, whose execution client finds every payload
    valid, a payload from the network that extends the unsafe head is, by the
    drain that follows its arrival, made the unsafe, the safe and the finalized
    head; it leaves the queue of CL sync, no event is left over, and the status
    tracker publishes the payload as all three heads. *)
Theorem gossiped_payload_finalized f (s : system) e env :
  live s [ReceivedUnsafePayloadEvent (Some env)] -> flow (node s) e [] ->
  (forall t, willing (w_engine (world t))) ->
  syncStatus e = syncStatusCL -> InteropTime (rollupCfg e) = None ->
  env_hash env ∉ blockHashes (unsafePayloads (n_clsync (node s))) ->
  SizeFn (unsafePayloads (n_clsync (node s))) env <= MaxSize (unsafePayloads (n_clsync (node s))) ->
  is_u64 (l2_Number (unsafeHead e)) -> is_u64 (l2_Number (unsafeHead e) + 1) ->
  env_number env = l2_Number (unsafeHead e) + 1 ->
  ep_ParentHash (env_ExecutionPayload env) = l2_Hash (unsafeHead e) ->
  env_hash env <> l2_Hash (unsafeHead e) -> l2_Number (safeHead e) <= l2_Number (unsafeHead e) ->
  exists s', sys_Drain is_critical (10 + f) s = Fin (s', None) /\ events s' = []
    /\ heads_at (get_engine (node s')) (payload_ref env)
    /\ queued (get_clsync (node s')) = []
    /\ shows (node s') (payload_ref env) (payload_ref env) (payload_ref env).
Proof.
  intros Hl F0 Hw Hs Hi Hh Hsz Hu Hu1 Hn Hp Hne Hsu.
  destruct (flow_arrives (7 + f) (node s) e env F0 Hh Hsz Hu1 Hn Hp Hne Hsu) as (n3 & F3 & E3).
  destruct (flow_settles f n3 e env F3 Hw Hs Hi Hne) as (n' & e' & Hd & F & He & Hsh).
  { destruct Hu; lia. }
  rewrite <- E3 in Hd.
  destruct (Drain_node_drain _ _ _ _ Hl Hd) as (s' & E & <- & Hev).
  exists s'. split_and!; [done|done|by rewrite (fl_engine _ _ _ F)|by apply F|done].
Qed.
End Flow.

(** ** Witness *)

(** A fresh driver of a node whose heads are the zero block, with a payload
    of number one that has just arrived. *)
Definition ex_arrival : ExecutionPayloadEnvelope := ex_envelope 0 5 1.

Definition ex_live : Sys (E := NodeEvent) (N := Node) :=
  {| regs := []; handles := derivers (EP := ex_eip) (EA := ex_eip_attrs) ex_world;
     events := [ReceivedUnsafePayloadEvent (Some ex_arrival)]; abort := false; ctx_err := None;
     node := ex_node |}.

Lemma ex_willing t : willing (w_engine (ex_world t)).
Proof. split; [done|]. intros fc. by exists None. Qed.

Lemma ex_flow : flow ex_node (get_engine ex_node) [].
Proof.
  constructor; [done| |done]. unfold cl_inv. cbn.
  apply queue_inv_new; [unfold maxUnsafePayloadsMemory; lia|apply payloadMemSize_nonneg].
Qed.

Lemma ex_driver_derivers :
  handles <$> NewDriver (EP := ex_eip) (EA := ex_eip_attrs) ex_world ex_node false
  = Some (derivers (EP := ex_eip) (EA := ex_eip_attrs) ex_world).
Proof. reflexivity. Qed.

Lemma gossiped_payload_finalized_witness :
  exists s', sys_Drain is_critical 10 ex_live = Fin (s', None) /\ events s' = []
    /\ heads_at (get_engine (node s')) (payload_ref ex_arrival)
    /\ queued (get_clsync (node s')) = []
    /\ shows (node s') (payload_ref ex_arrival) (payload_ref ex_arrival) (payload_ref ex_arrival).
Proof.
  apply (gossiped_payload_finalized (EP := ex_eip) (EA := ex_eip_attrs) ex_world 0 ex_live
    (get_engine ex_node) ex_arrival).
  - constructor; reflexivity.
  - exact ex_flow.
  - exact ex_willing.
  - reflexivity.
  - reflexivity.
  - apply not_elem_of_empty.
  - vm_compute. discriminate.
  - split; vm_compute; [discriminate|reflexivity].
  - split; vm_compute; [discriminate|reflexivity].
  - reflexivity.
  - reflexivity.
  - discriminate.
  - vm_compute. discriminate.
Defined.
