(* ===== verification/TxFees.v ===== *)
(** The transaction manager, [src/rhs-service/txmgr]: the publication state of
    a transaction (send_state.go), its configuration (cli.go), the fee rules
    and the crafting, signing and bumping of transactions (txmgr.go,
    estimator.go), with their specifications.  The loop that sends a
    transaction is modelled in [TxManager]. *)

From S2P Require Import Prelude.

(** ** Errors of the transaction pool

    go-ethereum's messages; the manager looks for them inside the messages
    the backend answers. *)
Class PoolErrors : Type := {
  ErrNonceTooLow : string;
  ErrAlreadyReserved : string;
  ErrAlreadyKnown : string;
  ErrReplaceUnderpriced : string;
  ErrUnderpriced : string;
}.

Definition Canceled : string := "context canceled".
Definition ErrMempoolDeadlineExpired : error := Msg "failed to get tx into the mempool".
Definition ErrClosed : error := Msg "transaction manager is closed".
Definition ErrBlobFeeLimit : error := Msg "blob fee limit reached".

Definition strings_Contains (s substr : string) : bool :=
  match String.index 0 substr s with Some _ => true | None => false end.

(** An error is the message of a non-nil error. *)
Definition errStringMatch (err target : option string) : bool :=
  match err, target with
  | None, None => true
  | Some e, Some t => strings_Contains e t
  | _, _ => false
  end.

Definition errStringContainsAny (err : option string) (targets : list string) : bool :=
  match err with
  | None => false
  | Some e => existsb (strings_Contains e) targets
  end.

(** ** The publication state *)
Record SendState : Type := {
  minedTxs : gset Z;
  nonceTooLowCount : Z;
  txInMempoolDeadline : Z;
  successFullPublishCount : Z;
  safeAbortNonceTooLowCount : Z;
  alreadyReserved : bool;
  bumpFees : bool;
  bumpCount : Z;
}.

Definition NewSendState (safeAbort unableToSendTimeout now : Z) : result SendState :=
  if safeAbort =? 0 then Panic
  else Ok {| minedTxs := ∅; nonceTooLowCount := 0;
             txInMempoolDeadline := now + unableToSendTimeout;
             successFullPublishCount := 0; safeAbortNonceTooLowCount := safeAbort;
             alreadyReserved := false; bumpFees := false; bumpCount := 0 |}.

Definition with_counts (s : SendState) (mined : gset Z) (low published : Z) (reserved : bool) : SendState :=
  {| minedTxs := mined; nonceTooLowCount := low;
     txInMempoolDeadline := txInMempoolDeadline s;
     successFullPublishCount := published;
     safeAbortNonceTooLowCount := safeAbortNonceTooLowCount s;
     alreadyReserved := reserved; bumpFees := bumpFees s; bumpCount := bumpCount s |}.

Definition with_bump (s : SendState) (bump : bool) (n : Z) : SendState :=
  {| minedTxs := minedTxs s; nonceTooLowCount := nonceTooLowCount s;
     txInMempoolDeadline := txInMempoolDeadline s;
     successFullPublishCount := successFullPublishCount s;
     safeAbortNonceTooLowCount := safeAbortNonceTooLowCount s;
     alreadyReserved := alreadyReserved s; bumpFees := bump; bumpCount := n |}.

Section SendState.
Context {PE : PoolErrors}.

Definition ProcessSendError (err : option string) (s : SendState) : SendState :=
  match err with
  | None =>
      with_counts s (minedTxs s) (nonceTooLowCount s) (successFullPublishCount s +u 1) (alreadyReserved s)
  | Some _ =>
      if errStringMatch err (Some ErrNonceTooLow) then
        with_counts s (minedTxs s) (nonceTooLowCount s +u 1) (successFullPublishCount s) (alreadyReserved s)
      else if errStringMatch err (Some ErrAlreadyReserved) then
        with_counts s (minedTxs s) (nonceTooLowCount s) (successFullPublishCount s) true
      else s
  end.

Definition TxMined (txHash : Z) (s : SendState) : SendState :=
  with_counts s ({[txHash]} ∪ minedTxs s) (nonceTooLowCount s) (successFullPublishCount s) (alreadyReserved s).

Definition TxNotMined (txHash : Z) (s : SendState) : SendState :=
  let wasMined := bool_decide (txHash ∈ minedTxs s) in
  let mined := minedTxs s ∖ {[txHash]} in
  let low := if bool_decide (mined = ∅) && wasMined then 0 else nonceTooLowCount s in
  with_counts s mined low (successFullPublishCount s) (alreadyReserved s).

Definition IsWaitingForConfirmation (s : SendState) : bool := negb (bool_decide (minedTxs s = ∅)).

Definition CriticalError (now : Z) (s : SendState) : option error :=
  if IsWaitingForConfirmation s then None
  else if safeAbortNonceTooLowCount s <=? nonceTooLowCount s then Some (Msg ErrNonceTooLow)
  else if (successFullPublishCount s =? 0) && (0 <? nonceTooLowCount s) then Some (Msg ErrNonceTooLow)
  else if (successFullPublishCount s =? 0) && (txInMempoolDeadline s <? now) then
    Some ErrMempoolDeadlineExpired
  else if alreadyReserved s then Some (Msg ErrAlreadyReserved)
  else None.

(** The calls that change the counts. *)
Inductive SendOp : Type :=
  | OpSent (err : option string)
  | OpMined (h : Z)
  | OpNotMined (h : Z).

Definition apply_op (s : SendState) (o : SendOp) : SendState :=
  match o with
  | OpSent err => ProcessSendError err s
  | OpMined h => TxMined h s
  | OpNotMined h => TxNotMined h s
  end.

(** *** The same in terms of the history, the oldest call first. *)

(** [h] was last reported as mined. *)
Definition mined_in (ops : list SendOp) (h : Z) : Prop :=
  exists before after, ops = before ++ OpMined h :: after /\ OpNotMined h ∉ after.

(** [ops] end with the report that the only mined transaction is gone. *)
Definition reorged_out (ops : list SendOp) : Prop :=
  exists before h, ops = before ++ [OpNotMined h] /\
    mined_in before h /\ forall h', mined_in before h' -> h' = h.

Definition is_low (o : SendOp) : bool :=
  match o with OpSent (Some e) => strings_Contains e ErrNonceTooLow | _ => false end.
Definition is_sent (o : SendOp) : bool :=
  match o with OpSent None => true | _ => false end.
Definition is_reserved (o : SendOp) : bool :=
  match o with
  | OpSent (Some e) => negb (strings_Contains e ErrNonceTooLow) && strings_Contains e ErrAlreadyReserved
  | _ => false
  end.

(** The nonce-too-low errors since the start or the last such report. *)
Definition low_since (ops : list SendOp) (n : nat) : Prop :=
  exists before after, ops = before ++ after /\ (before = [] \/ reorged_out before) /\
    (forall p q, after = p ++ q -> p <> [] -> ~ reorged_out (before ++ p)) /\
    n = count is_low after.

End SendState.

(** ** Configuration *)

(** The atomic fields hold the value of their last store; [cf_Backend] and
    [cf_Signer] say whether the field is set. *)
Record TxConfig : Type := {
  cf_Backend : bool;
  cf_ResubmissionTimeout : Z;
  cf_FeeLimitMultiplier : Z;
  cf_FeeLimitThreshold : option Z;
  cf_MinBaseFee : option Z;
  cf_MaxBaseFee : option Z;
  cf_MinTipCap : option Z;
  cf_MaxTipCap : option Z;
  cf_MinBlobTxFee : option Z;
  cf_ChainID : option Z;
  cf_TxSendTimeout : Z;
  cf_TxNotInMempoolTimeout : Z;
  cf_NetworkTimeout : Z;
  cf_ReceiptQueryInterval : Z;
  cf_NumConfirmations : Z;
  cf_SafeAbortNonceTooLowCount : Z;
  cf_Signer : bool;
  cf_From : Z;
  cf_AlreadyPublishedCustomErrs : list string;
}.

Definition TxConfig_Check (m : TxConfig) : result unit :=
  if negb (cf_Backend m) then Err (Msg "must provide the Backend")
  else if cf_NumConfirmations m =? 0 then Err (Msg "NumConfirmations must not be 0")
  else if cf_NetworkTimeout m =? 0 then Err (Msg "must provide NetworkTimeout")
  else if cf_FeeLimitMultiplier m =? 0 then Err (Msg "must provide FeeLimitMultiplier")
  else if match cf_MinBaseFee m, cf_MinTipCap m with
          | Some base, Some tip => base <? tip
          | _, _ => false
          end then Err (Msg "minBaseFee smaller than minTipCap")
  else if cf_ResubmissionTimeout m =? 0 then Err (Msg "must provide ResubmissionTimeout")
  else if cf_ReceiptQueryInterval m =? 0 then Err (Msg "must provide ReceiptQueryInterval")
  else if cf_TxNotInMempoolTimeout m =? 0 then Err (Msg "must provide TxNotInMempoolTimeout")
  else if cf_SafeAbortNonceTooLowCount m =? 0 then
    Err (Msg "SafeAbortNonceTooLowCount must not be 0")
  else if negb (cf_Signer m) then Err (Msg "must provide the Signer")
  else match cf_ChainID m with
       | None => Err (Msg "must provide the ChainID")
       | Some _ => Ok tt
       end.

Record SimpleTxManager : Type := {
  mg_cfg : TxConfig;
  mg_chainID : Z;
  mg_nonce : option Z;
  mg_pending : Z;
  mg_closed : bool;
}.

Definition NewSimpleTxManagerFromConfig (conf : TxConfig) : result SimpleTxManager :=
  let* _ := map_err (Wrap "invalid config") (TxConfig_Check conf) in
  Ok {| mg_cfg := conf; mg_chainID := default 0 (cf_ChainID conf); mg_nonce := None;
        mg_pending := 0; mg_closed := false |}.

Definition with_cfg (m : SimpleTxManager) (c : TxConfig) : SimpleTxManager :=
  {| mg_cfg := c; mg_chainID := mg_chainID m; mg_nonce := mg_nonce m;
     mg_pending := mg_pending m; mg_closed := mg_closed m |}.
Definition with_nonce (m : SimpleTxManager) (n : option Z) : SimpleTxManager :=
  {| mg_cfg := mg_cfg m; mg_chainID := mg_chainID m; mg_nonce := n;
     mg_pending := mg_pending m; mg_closed := mg_closed m |}.
Definition with_pending (m : SimpleTxManager) (n : Z) : SimpleTxManager :=
  {| mg_cfg := mg_cfg m; mg_chainID := mg_chainID m; mg_nonce := mg_nonce m;
     mg_pending := n; mg_closed := mg_closed m |}.

Definition mgr_Close (m : SimpleTxManager) : SimpleTxManager :=
  {| mg_cfg := mg_cfg m; mg_chainID := mg_chainID m; mg_nonce := mg_nonce m;
     mg_pending := mg_pending m; mg_closed := true |}.

(** The setters of the RPC interface. *)
Inductive ConfigOp : Type :=
  | SetMinBaseFee (val : option Z)
  | SetMinPriorityFee (val : option Z)
  | SetMinBlobFee (val : option Z)
  | SetFeeLimitMultiplier (val : Z)
  | SetFeeThreshold (val : option Z)
  | SetBumpFeeRetryTime (val : Z).

Definition apply_config (o : ConfigOp) (c : TxConfig) : TxConfig :=
  {| cf_Backend := cf_Backend c;
     cf_ResubmissionTimeout :=
       match o with SetBumpFeeRetryTime v => v | _ => cf_ResubmissionTimeout c end;
     cf_FeeLimitMultiplier :=
       match o with SetFeeLimitMultiplier v => v | _ => cf_FeeLimitMultiplier c end;
     cf_FeeLimitThreshold :=
       match o with SetFeeThreshold v => v | _ => cf_FeeLimitThreshold c end;
     cf_MinBaseFee := match o with SetMinBaseFee v => v | _ => cf_MinBaseFee c end;
     cf_MaxBaseFee := cf_MaxBaseFee c;
     cf_MinTipCap := match o with SetMinPriorityFee v => v | _ => cf_MinTipCap c end;
     cf_MaxTipCap := cf_MaxTipCap c;
     cf_MinBlobTxFee := match o with SetMinBlobFee v => v | _ => cf_MinBlobTxFee c end;
     cf_ChainID := cf_ChainID c;
     cf_TxSendTimeout := cf_TxSendTimeout c;
     cf_TxNotInMempoolTimeout := cf_TxNotInMempoolTimeout c;
     cf_NetworkTimeout := cf_NetworkTimeout c;
     cf_ReceiptQueryInterval := cf_ReceiptQueryInterval c;
     cf_NumConfirmations := cf_NumConfirmations c;
     cf_SafeAbortNonceTooLowCount := cf_SafeAbortNonceTooLowCount c;
     cf_Signer := cf_Signer c; cf_From := cf_From c;
     cf_AlreadyPublishedCustomErrs := cf_AlreadyPublishedCustomErrs c |}.

(** ** Fees *)

Definition priceBump : Z := 10.
Definition blobPriceBump : Z := 100.

(** The numbers are non-negative, where [Div] of [big.Int] is [Z.div]. *)
Definition calcThresholdValue (x : Z) (isBlobTx : bool) : Z :=
  let threshold := if isBlobTx then 100 + blobPriceBump else 100 + priceBump in
  (threshold * x + 99) / 100.

Definition calcGasFeeCap (baseFee gasTipCap : Z) : Z := gasTipCap + baseFee * 2.

Definition updateFees (oldTip oldFeeCap newTip newBaseFee : Z) (isBlobTx : bool) : Z * Z :=
  let newFeeCap := calcGasFeeCap newBaseFee newTip in
  let thresholdTip := calcThresholdValue oldTip isBlobTx in
  let thresholdFeeCap := calcThresholdValue oldFeeCap isBlobTx in
  if (thresholdTip <=? newTip) && (thresholdFeeCap <=? newFeeCap) then (newTip, newFeeCap)
  else if (thresholdTip <=? newTip) && (newFeeCap <? thresholdFeeCap) then (newTip, thresholdFeeCap)
  else if (newTip <? thresholdTip) && (thresholdFeeCap <=? newFeeCap) then
    (thresholdTip, calcGasFeeCap newBaseFee thresholdTip)
  else (thresholdTip, thresholdFeeCap).

(** [None] is a nil limit, on which [Cmp] panics. *)
Definition calcBlobFeeCap (cfg : TxConfig) (blobBaseFee : Z) : result Z :=
  match cf_MinBlobTxFee cfg with
  | None => Panic
  | Some minBlobTxFee =>
      let cap := blobBaseFee * 2 in
      Ok (if cap <? minBlobTxFee then minBlobTxFee else cap)
  end.

(** The header fields the manager reads. *)
Record TxHeader : Type := {
  hd_Number : Z;
  hd_BaseFee : option Z;
  hd_BlobFee : option Z;   (* [eth.CalcBlobFeeDefault], when ExcessBlobGas is set *)
}.

(** The suggested tip, base fee and blob base fee. *)
Record GasPrices : Type := { gp_tip : Z; gp_baseFee : Z; gp_blobFee : option Z }.

Definition DefaultGasPriceEstimatorFn (SuggestGasTipCap : result Z) (head : result TxHeader) : result GasPrices :=
  let* tip := SuggestGasTipCap in
  let* h := head in
  match hd_BaseFee h with
  | None => Err (Msg "txmgr does not support pre-london blocks that do not have a base fee")
  | Some baseFee => Ok {| gp_tip := tip; gp_baseFee := baseFee; gp_blobFee := hd_BlobFee h |}
  end.

Definition at_least (min : option Z) (v : Z) : Z :=
  match min with Some m => if v <? m then m else v | None => v end.
Definition too_high (max : option Z) (v : Z) : bool :=
  match max with Some m => m <? v | None => false end.

Definition SuggestGasPriceCaps (cfg : TxConfig) (estimate : result GasPrices) : result GasPrices :=
  let* e := map_err (Wrap "failed to get gas price estimates") estimate in
  let tip := at_least (cf_MinTipCap cfg) (gp_tip e) in
  if too_high (cf_MaxTipCap cfg) tip then Err (Msg "tip is too high")
  else
    let baseFee := at_least (cf_MinBaseFee cfg) (gp_baseFee e) in
    if too_high (cf_MaxBaseFee cfg) baseFee then Err (Msg "baseFee is too high")
    else Ok {| gp_tip := tip; gp_baseFee := baseFee; gp_blobFee := gp_blobFee e |}.

(** [check] of [checkLimits]: the value is over its limit. *)
Definition over_limit (cfg : TxConfig) (v max : Z) : bool :=
  match cf_FeeLimitThreshold cfg with
  | Some threshold => if v <? threshold then false else max <? v
  | None => max <? v
  end.

Definition max_tip (cfg : TxConfig) (tip : Z) : Z := tip * int_of (cf_FeeLimitMultiplier cfg).
Definition max_fee (cfg : TxConfig) (tip baseFee : Z) : Z :=
  calcGasFeeCap (baseFee * int_of (cf_FeeLimitMultiplier cfg)) (max_tip cfg tip).

Definition checkLimits (cfg : TxConfig) (tip baseFee bumpedTip bumpedFee : Z) : result unit :=
  match over_limit cfg bumpedTip (max_tip cfg tip), over_limit cfg bumpedFee (max_fee cfg tip baseFee) with
  | false, false => Ok tt
  | true, false => Err (Msg "bumped tip cap is over the multiple of the suggested value")
  | false, true => Err (Msg "bumped fee cap is over the multiple of the suggested value")
  | true, true => Err (Msg "bumped tip and fee caps are over the multiple of the suggested value")
  end.

Definition checkBlobFeeLimits (cfg : TxConfig) (blobBaseFee bumpedBlobFee : Z) : result unit :=
  if match cf_FeeLimitThreshold cfg with Some t => bumpedBlobFee <? t | None => false end then Ok tt
  else
    let* cap := calcBlobFeeCap cfg blobBaseFee in
    if cap * int_of (cf_FeeLimitMultiplier cfg) <? bumpedBlobFee then
      Err (Wrap "bumped blob fee is over the multiple of the suggested value" ErrBlobFeeLimit)
    else Ok tt.

(** ** Transactions *)

(** [types.BlobTxSidecar]. *)
Record Sidecar : Type := { sc_Blobs : list bytes; sc_Commitments : list Z; sc_Proofs : list Z }.

Record BlobPart : Type := { bp_FeeCap : Z; bp_Hashes : list Z; bp_Sidecar : Sidecar }.

(** A dynamic-fee transaction, or a blob transaction when [tx_Blob] is set;
    [tx_Sig] is its signature. *)
Record Tx : Type := {
  tx_ChainId : Z;
  tx_Nonce : Z;
  tx_To : option Z;
  tx_GasTipCap : Z;
  tx_GasFeeCap : Z;
  tx_Value : Z;
  tx_Data : bytes;
  tx_Gas : Z;
  tx_Blob : option BlobPart;
  tx_Sig : option Z;
}.

Definition set_nonce (tx : Tx) (n : Z) : Tx :=
  {| tx_ChainId := tx_ChainId tx; tx_Nonce := n; tx_To := tx_To tx;
     tx_GasTipCap := tx_GasTipCap tx; tx_GasFeeCap := tx_GasFeeCap tx;
     tx_Value := tx_Value tx; tx_Data := tx_Data tx; tx_Gas := tx_Gas tx;
     tx_Blob := tx_Blob tx; tx_Sig := tx_Sig tx |}.
Definition set_sig (tx : Tx) (s : option Z) : Tx :=
  {| tx_ChainId := tx_ChainId tx; tx_Nonce := tx_Nonce tx; tx_To := tx_To tx;
     tx_GasTipCap := tx_GasTipCap tx; tx_GasFeeCap := tx_GasFeeCap tx;
     tx_Value := tx_Value tx; tx_Data := tx_Data tx; tx_Gas := tx_Gas tx;
     tx_Blob := tx_Blob tx; tx_Sig := s |}.

(** [ethereum.CallMsg]. *)
Record CallMsg : Type := {
  cm_From : Z;
  cm_To : option Z;
  cm_Gas : Z;
  cm_GasTipCap : Z;
  cm_GasFeeCap : Z;
  cm_Value : option Z;
  cm_Data : bytes;
  cm_BlobGasFeeCap : option Z;
  cm_BlobHashes : list Z;
}.

(** [uint256.FromBig] on a non-nil number: the number and whether it
    overflows. *)
Class Uint256 : Type := FromBig : Z -> Z * bool.

(** Its documented behaviour on non-negative numbers. *)
Class Uint256Laws (U : Uint256) : Prop := {
  FromBig_fits : forall x, 0 <= x < 2 ^ 256 -> FromBig x = (x, false);
  FromBig_overflows : forall x, 2 ^ 256 <= x -> snd (FromBig x) = true;
}.

(** [crypto/kzg4844] and the hash of a commitment. *)
Class Kzg : Type := {
  BlobToCommitment : bytes -> result Z;
  ComputeBlobProof : bytes -> Z -> result Z;
  KZGToVersionedHash : Z -> Z;
}.

Section Crafting.
Context {U : Uint256} {K : Kzg}.

(** [uint256.FromBig] with the overflow turned into an error. *)
Definition from_big (name : string) (z : Z) : result Z :=
  let (v, o) := FromBig z in
  if (o : bool) then Err (Msg (String.append name " overflow")) else Ok v.

(** The message with its numbers; [message] brings the other fields. *)
Definition finishBlobTx (message : Tx) (b : BlobPart) (chainID tip fee blobFee : Z) (value : option Z) : result Tx :=
  let* chainID := from_big "ChainID" chainID in
  let* tip := from_big "GasTipCap" tip in
  let* fee := from_big "GasFeeCap" fee in
  let* blobFee := from_big "BlobFeeCap" blobFee in
  let* value := match value with None => Ok 0 | Some v => from_big "Value" v end in
  Ok {| tx_ChainId := chainID; tx_Nonce := tx_Nonce message; tx_To := tx_To message;
        tx_GasTipCap := tip; tx_GasFeeCap := fee; tx_Value := value;
        tx_Data := tx_Data message; tx_Gas := tx_Gas message;
        tx_Blob := Some {| bp_FeeCap := blobFee; bp_Hashes := bp_Hashes b; bp_Sidecar := bp_Sidecar b |};
        tx_Sig := None |}.

Fixpoint MakeSidecar (blobs : list bytes) : result (Sidecar * list Z) :=
  match blobs with
  | [] => Ok ({| sc_Blobs := []; sc_Commitments := []; sc_Proofs := [] |}, [])
  | blob :: rest =>
      let* commitment := map_err (Wrap "cannot compute KZG commitment of blob") (BlobToCommitment blob) in
      let* proof := map_err (Wrap "cannot compute KZG proof of blob") (ComputeBlobProof blob commitment) in
      let* (sc, hashes) := MakeSidecar rest in
      Ok ({| sc_Blobs := blob :: sc_Blobs sc; sc_Commitments := commitment :: sc_Commitments sc;
             sc_Proofs := proof :: sc_Proofs sc |}, KZGToVersionedHash commitment :: hashes)
  end.

Record TxCandidate : Type := {
  cd_TxData : bytes;
  cd_Blobs : list bytes;
  cd_To : option Z;
  cd_GasLimit : Z;
  cd_Value : option Z;
}.

(** What the backend, the estimator and the signer answer to one attempt. *)
Record Answers : Type := {
  an_estimate : result GasPrices;
  an_EstimateGas : CallMsg -> result Z;
  an_CallContract : CallMsg -> result bytes;
  an_NonceAt : result Z;
  an_Signer : Tx -> result Tx;
}.

Definition signWithNextNonce (m : SimpleTxManager) (a : Answers) (txMessage : Tx) : SimpleTxManager * result Tx :=
  match (match mg_nonce m with
         | None => map_err (Wrap "failed to get nonce") (an_NonceAt a)
         | Some n => Ok (n +u 1)
         end) with
  | Ok nonce =>
      match an_Signer a (set_nonce txMessage nonce) with
      | Ok tx => (with_nonce m (Some nonce), Ok tx)
      | Err e => (with_nonce m (Some (nonce -u 1)), Err e)
      | Panic => (with_nonce m (Some nonce), Panic)
      end
  | Err e => (m, Err e)
  | Panic => (m, Panic)
  end.

Definition resetNonce (m : SimpleTxManager) : SimpleTxManager := with_nonce m None.

(** The sidecar of a candidate with blobs. *)
Definition candidate_sidecar (candidate : TxCandidate) : result (option (Sidecar * list Z)) :=
  match cd_Blobs candidate, cd_To candidate with
  | [], _ => Ok None
  | _ :: _, None => Err (Msg "blob txs cannot deploy contracts")
  | blobs, Some _ =>
      let* s := map_err (Wrap "failed to make sidecar") (MakeSidecar blobs) in Ok (Some s)
  end.

(** The gas limit: estimated, or the given one after a trial call. *)
Definition candidate_gas (a : Answers) (candidate : TxCandidate) (callMsg : CallMsg) : result Z :=
  if cd_GasLimit candidate =? 0 then
    map_err (Wrap "failed to estimate gas") (an_EstimateGas a callMsg)
  else
    let* _ := map_err (Wrap "failed to call")
      (an_CallContract a
         {| cm_From := cm_From callMsg; cm_To := cm_To callMsg; cm_Gas := cd_GasLimit candidate;
            cm_GasTipCap := cm_GasTipCap callMsg; cm_GasFeeCap := cm_GasFeeCap callMsg;
            cm_Value := cm_Value callMsg; cm_Data := cm_Data callMsg;
            cm_BlobGasFeeCap := cm_BlobGasFeeCap callMsg; cm_BlobHashes := cm_BlobHashes callMsg |}) in
    Ok (cd_GasLimit candidate).

(** [craftTx] up to the nonce and the signature. *)
Definition craft_message (m : SimpleTxManager) (a : Answers) (candidate : TxCandidate) : result Tx :=
  let* p := map_err (Wrap "failed to get gas price info or it's too high")
              (SuggestGasPriceCaps (mg_cfg m) (an_estimate a)) in
  let gasFeeCap := calcGasFeeCap (gp_baseFee p) (gp_tip p) in
  let* sidecar := candidate_sidecar candidate in
  let hashes := match sidecar with Some (_, h) => h | None => [] end in
  let* gasLimit := candidate_gas a candidate
    {| cm_From := cf_From (mg_cfg m); cm_To := cd_To candidate; cm_Gas := 0;
       cm_GasTipCap := gp_tip p; cm_GasFeeCap := gasFeeCap; cm_Value := cd_Value candidate;
       cm_Data := cd_TxData candidate;
       cm_BlobGasFeeCap := match hashes with [] => None | _ => gp_blobFee p end;
       cm_BlobHashes := hashes |} in
  let message :=
    {| tx_ChainId := mg_chainID m; tx_Nonce := 0; tx_To := cd_To candidate;
       tx_GasTipCap := gp_tip p; tx_GasFeeCap := gasFeeCap;
       tx_Value := default 0 (cd_Value candidate); tx_Data := cd_TxData candidate;
       tx_Gas := gasLimit; tx_Blob := None; tx_Sig := None |} in
  match sidecar with
  | None => Ok message
  | Some (sc, hashes) =>
      match gp_blobFee p with
      | None => Err (Msg "expected non-nil blobBaseFee")
      | Some blobBaseFee =>
          let* blobFeeCap := calcBlobFeeCap (mg_cfg m) blobBaseFee in
          map_err (Wrap "failed to create blob transaction")
            (finishBlobTx message {| bp_FeeCap := 0; bp_Hashes := hashes; bp_Sidecar := sc |}
               (mg_chainID m) (gp_tip p) gasFeeCap blobFeeCap (cd_Value candidate))
      end
  end.

Definition craftTx (m : SimpleTxManager) (a : Answers) (candidate : TxCandidate) : SimpleTxManager * result Tx :=
  match craft_message m a candidate with
  | Ok message => signWithNextNonce m a message
  | Err e => (m, Err e)
  | Panic => (m, Panic)
  end.

(** One attempt of [prepare]: the context is done, or the answers with the
    closed flag of the moment. *)
Inductive Attempt : Type :=
  | CtxDone (e : error)
  | Try (closed : bool) (a : Answers).

(** [retry.Do] around [craftTx]: one element of [attempts] per round, and
    [last] is the error of the round before. *)
Fixpoint prepare_loop (m : SimpleTxManager) (candidate : TxCandidate) (left_ : nat) (last : error)
    (attempts : list Attempt) : SimpleTxManager * result Tx :=
  match left_, attempts with
  | S k, CtxDone e :: _ => (m, Err e)
  | S k, Try true _ :: rest => prepare_loop m candidate k ErrClosed rest
  | S k, Try false a :: rest =>
      match craftTx m a candidate with
      | (m', Ok tx) => (m', Ok tx)
      | (m', Err e) => prepare_loop m' candidate k e rest
      | (m', Panic) => (m', Panic)
      end
  | _, _ => (m, Err (Wrap "operation failed permanently" last))
  end.

Definition prepare (m : SimpleTxManager) (candidate : TxCandidate) (attempts : list Attempt) : SimpleTxManager * result Tx :=
  let '(m', r) := prepare_loop m candidate 30 EOF attempts in
  (m', map_err (Wrap "failed to create the tx") r).

(** [Send] and [SendAsync] up to the call of [sendTx].  The deferred
    [m.pending.Add(-1)] of [Send] is an argument of the deferred call and runs
    at once. *)
Definition Send_begin (m : SimpleTxManager) (candidate : TxCandidate) (attempts : list Attempt) : SimpleTxManager * result Tx :=
  if mg_closed m then (m, Err ErrClosed)
  else
    let m := with_pending m (mg_pending m + 1) in
    let m := with_pending m (mg_pending m - 1) in
    match prepare m candidate attempts with
    | (m', Ok tx) => (m', Ok tx)
    | (m', Err e) => (resetNonce m', Err e)
    | (m', Panic) => (m', Panic)
    end.

Definition SendAsync_begin (cap : Z) (m : SimpleTxManager) (candidate : TxCandidate) (attempts : list Attempt) : SimpleTxManager * result Tx :=
  if cap =? 0 then (m, Panic)
  else if mg_closed m then (m, Err ErrClosed)
  else
    match prepare m candidate attempts with
    | (m', Ok tx) => (with_pending m' (mg_pending m' + 1), Ok tx)
    | (m', Err e) => (resetNonce m', Err e)
    | (m', Panic) => (m', Panic)
    end.

(** After [sendTx]: an error resets the nonce. *)
Definition Send_end {A} (m : SimpleTxManager) (r : result A) : SimpleTxManager :=
  match r with Err _ => resetNonce m | _ => m end.

Definition SendAsync_end {A} (m : SimpleTxManager) (r : result A) : SimpleTxManager :=
  let m := with_pending m (mg_pending m - 1) in
  match r with Err _ => resetNonce m | _ => m end.

(** The bumped blob fee of a blob transaction.  A nil blob base fee panics. *)
Definition bump_blob_fee (cfg : TxConfig) (b : BlobPart) (blobBaseFee : option Z) : result Z :=
  match blobBaseFee with
  | None => Panic
  | Some base =>
      let threshold := calcThresholdValue (bp_FeeCap b) true in
      let bumped := if threshold <? base then base else threshold in
      let* _ := checkBlobFeeLimits cfg base bumped in
      Ok bumped
  end.

Definition increaseGasPrice (cfg : TxConfig) (a : Answers) (tx : Tx) : result Tx :=
  let* p := SuggestGasPriceCaps cfg (an_estimate a) in
  let '(bumpedTip, bumpedFee) :=
    updateFees (tx_GasTipCap tx) (tx_GasFeeCap tx) (gp_tip p) (gp_baseFee p) (bool_decide (is_Some (tx_Blob tx))) in
  let* _ := checkLimits cfg (gp_tip p) (gp_baseFee p) bumpedTip bumpedFee in
  let* blobFee := match tx_Blob tx with
                  | None => Ok None
                  | Some b => let* f := bump_blob_fee cfg b (gp_blobFee p) in Ok (Some f)
                  end in
  let* estimate := an_EstimateGas a
    {| cm_From := cf_From cfg; cm_To := tx_To tx; cm_Gas := 0; cm_GasTipCap := bumpedTip;
       cm_GasFeeCap := bumpedFee; cm_Value := Some (tx_Value tx); cm_Data := tx_Data tx;
       cm_BlobGasFeeCap := blobFee;
       cm_BlobHashes := match tx_Blob tx with Some b => bp_Hashes b | None => [] end |} in
  let gas := if estimate <? tx_Gas tx then tx_Gas tx else estimate in
  let message :=
    {| tx_ChainId := tx_ChainId tx; tx_Nonce := tx_Nonce tx; tx_To := tx_To tx;
       tx_GasTipCap := bumpedTip; tx_GasFeeCap := bumpedFee; tx_Value := tx_Value tx;
       tx_Data := tx_Data tx; tx_Gas := gas; tx_Blob := None; tx_Sig := None |} in
  let* newTx := match tx_Blob tx, blobFee with
                | Some b, Some f =>
                    finishBlobTx message b (tx_ChainId tx) bumpedTip bumpedFee f (Some (tx_Value tx))
                | _, _ => Ok message
                end in
  match an_Signer a newTx with
  | Ok signedTx => Ok signedTx
  | Err _ => Ok tx
  | Panic => Panic
  end.

End Crafting.

(** ** The publication state and its history *)

Section SendStateFacts.
Context {PE : PoolErrors}.

Lemma mined_in_nil h : ~ mined_in [] h.
Proof. by intros ([|] & after & He & _). Qed.

(** What a last call changes. *)
Lemma mined_in_snoc ops o h :
  mined_in (ops ++ [o]) h <-> o = OpMined h \/ (mined_in ops h /\ o <> OpNotMined h).
Proof.
  split.
  - intros (before & after & He & Hn).
    destruct after as [|x after _] using rev_ind.
    + apply app_inj_tail in He as [_ ->]. by left.
    + rewrite app_comm_cons, app_assoc in He. apply app_inj_tail in He as [-> ->].
      right. apply not_elem_of_app in Hn as [Hn Hx]. split; [by exists before, after|].
      intros ->. apply Hx. by apply list_elem_of_singleton.
  - intros [-> | [(before & after & -> & Hn) Ho]].
    + exists ops, []. split; [done|]. by apply not_elem_of_nil.
    + exists before, (after ++ [o]). split; [by rewrite <- app_assoc|].
      rewrite not_elem_of_app, list_elem_of_singleton. naive_solver.
Qed.

Lemma reorged_out_snoc ops o :
  reorged_out (ops ++ [o]) <->
  exists h, o = OpNotMined h /\ mined_in ops h /\ forall h', mined_in ops h' -> h' = h.
Proof.
  split.
  - intros (before & h & He & H). apply app_inj_tail in He as [-> ->]. by exists h.
  - intros (h & -> & H). by exists ops, h.
Qed.

(** The counts of the state as functions of the history. *)
Record tracks (s0 : SendState) (ops : list SendOp) (s : SendState) : Prop := {
  tr_mined : forall h, h ∈ minedTxs s <-> mined_in ops h;
  tr_low : low_since ops (Z.to_nat (nonceTooLowCount s)) /\ 0 <= nonceTooLowCount s;
  tr_sent : successFullPublishCount s = Z.of_nat (count is_sent ops);
  tr_reserved : alreadyReserved s = existsb is_reserved ops;
  tr_config : txInMempoolDeadline s = txInMempoolDeadline s0 /\
    safeAbortNonceTooLowCount s = safeAbortNonceTooLowCount s0;
}.

Lemma low_since_nil : low_since [] 0.
Proof.
  exists [], []. split; [done|]. split; [by left|]. split; [|done].
  intros p q He Hp. by destruct p.
Qed.

Lemma low_since_snoc ops o n : low_since ops n -> ~ reorged_out (ops ++ [o]) ->
  low_since (ops ++ [o]) (n + count is_low [o]).
Proof.
  intros (before & after & -> & Hb & Hno & ->) Ho.
  exists before, (after ++ [o]). rewrite <- app_assoc. split; [done|]. split; [done|]. split; [|by rewrite count_app].
  intros p q He Hp Hr. destruct q as [|x q _] using rev_ind.
  - rewrite app_nil_r in He. subst p. by rewrite <- app_assoc in Ho.
  - rewrite app_assoc in He. apply app_inj_tail in He as [-> _]. by apply (Hno p q).
Qed.

Lemma low_since_reorg ops : reorged_out ops -> low_since ops 0.
Proof.
  intros H. exists ops, []. rewrite app_nil_r. split; [done|]. split; [by right|]. split; [|done].
  intros p q He Hp. by destruct p.
Qed.

Lemma existsb_snoc {A} (f : A -> bool) l x : existsb f (l ++ [x]) = existsb f l || f x.
Proof. rewrite existsb_app. simpl. by rewrite orb_false_r. Qed.

Lemma mined_empty s ops : (forall h, h ∈ minedTxs s <-> mined_in ops h) ->
  minedTxs s = ∅ <-> forall h, ~ mined_in ops h.
Proof. intros H. setoid_rewrite <- H. set_solver. Qed.

Lemma count_le_length {A} (f : A -> bool) l : (count f l <= length l)%nat.
Proof. unfold count. induction l as [|x l IH]; simpl; [lia|]. destruct (f x); simpl; lia. Qed.

Lemma low_since_le ops n : low_since ops n -> (n <= length ops)%nat.
Proof.
  intros (b & a & -> & _ & _ & ->). rewrite length_app. pose proof (count_le_length is_low a). lia.
Qed.

Lemma low_since_unique ops n m : low_since ops n -> low_since ops m -> n = m.
Proof.
  intros (b & a & -> & Hb & Hno & ->) (b' & a' & He & Hb' & Hno' & ->).
  apply app_eq_inv in He as [(k & -> & ->) | (k & -> & ->)].
  - destruct k as [|x k]; [by rewrite app_nil_l|]. destruct Hb as [Hb|Hb]; [by destruct b'|].
    by destruct (Hno' (x :: k) a eq_refl).
  - destruct k as [|x k]; [by rewrite app_nil_l|]. destruct Hb' as [Hb'|Hb']; [by destruct b|].
    by destruct (Hno (x :: k) a' eq_refl).
Qed.

Lemma not_reorged ops o : (forall h, o <> OpNotMined h) -> ~ reorged_out (ops ++ [o]).
Proof. intros H Hre. apply reorged_out_snoc in Hre as (h & -> & _). by apply (H h). Qed.

Lemma sent_not_reorged ops err : ~ reorged_out (ops ++ [OpSent err]).
Proof. by apply not_reorged. Qed.

Lemma mined_not_reorged ops h : ~ reorged_out (ops ++ [OpMined h]).
Proof. by apply not_reorged. Qed.

Lemma count_one {A} (f : A -> bool) x : count f [x] = if f x then 1%nat else 0%nat.
Proof. unfold count. simpl. by destruct (f x). Qed.

Lemma count_zero {A} (f : A -> bool) l : existsb f l = negb (Z.of_nat (count f l) =? 0).
Proof. unfold count. induction l as [|x l IH]; simpl; [done|]. destruct (f x); simpl; [lia|done]. Qed.

Lemma tracks_sent s0 ops s err : Z.of_nat (length ops) + 1 < two64 -> tracks s0 ops s ->
  tracks s0 (ops ++ [OpSent err]) (ProcessSendError err s).
Proof.
  intros Hlen [Hm [Hl Hl0] Hs Hr Hc].
  pose proof (low_since_le _ _ Hl) as Hle. pose proof (count_le_length is_sent ops) as Hle'.
  assert (Hm' : forall h, h ∈ minedTxs s <-> mined_in (ops ++ [OpSent err]) h).
  { intros h. rewrite mined_in_snoc, Hm. naive_solver. }
  pose proof (low_since_snoc ops (OpSent err) _ Hl (sent_not_reorged ops err)) as Hl'.
  assert (Hkeep : is_low (OpSent err) = false ->
    low_since (ops ++ [OpSent err]) (Z.to_nat (nonceTooLowCount s))).
  { intros He. rewrite count_one, He, Nat.add_0_r in Hl'. done. }
  unfold ProcessSendError. destruct err as [e|].
  2: { split; simpl; [done | by split; [apply Hkeep|] | | | done].
       - rewrite count_app, count_one, u64_small, Hs; [simpl; lia | unfold is_u64; lia].
       - by rewrite existsb_snoc, Hr, orb_false_r. }
  unfold errStringMatch.
  assert (Hsent : Z.of_nat (count is_sent (ops ++ [OpSent (Some e)])) = successFullPublishCount s).
  { rewrite count_app, count_one. simpl. lia. }
  destruct (strings_Contains e ErrNonceTooLow) eqn:He.
  - split; simpl; [done | | done | | done].
    + rewrite u64_small by (unfold is_u64; lia). split; [|lia].
      rewrite count_one in Hl'. simpl in Hl'. rewrite He in Hl'. by rewrite Z2Nat.inj_add by lia.
    + rewrite existsb_snoc, Hr. simpl. by rewrite He, orb_false_r.
  - pose proof (Hkeep He) as Hk.
    destruct (strings_Contains e ErrAlreadyReserved) eqn:He'; split; simpl; try done;
      rewrite existsb_snoc, ?Hr; simpl; rewrite He, He'; by rewrite ?orb_true_r, ?orb_false_r.
Qed.

Lemma tracks_mined s0 ops s h : tracks s0 ops s ->
  tracks s0 (ops ++ [OpMined h]) (TxMined h s).
Proof.
  intros [Hm [Hl Hl0] Hs Hr Hc]. split; simpl; [| | | |done].
  - intros x. rewrite mined_in_snoc, elem_of_union, elem_of_singleton, Hm. naive_solver.
  - split; [|done]. pose proof (low_since_snoc _ _ _ Hl (mined_not_reorged ops h)) as H.
    by rewrite Nat.add_0_r in H.
  - rewrite count_app, count_one. simpl. lia.
  - by rewrite existsb_snoc, orb_false_r.
Qed.

Lemma tracks_not_mined s0 ops s h : tracks s0 ops s ->
  tracks s0 (ops ++ [OpNotMined h]) (TxNotMined h s).
Proof.
  intros [Hm [Hl Hl0] Hs Hr Hc].
  assert (Hre : reorged_out (ops ++ [OpNotMined h]) <->
    minedTxs s ∖ {[h]} = ∅ /\ h ∈ minedTxs s).
  { rewrite reorged_out_snoc. split.
    - intros (h' & [= <-] & H1 & H2). rewrite <- Hm in H1. split; [|done].
      apply set_eq. intros x. rewrite elem_of_difference, elem_of_singleton, Hm.
      split; [intros [Hx Hn]; by apply H2 in Hx | by intros ?%not_elem_of_empty].
    - intros [H1 H2]. exists h. rewrite <- Hm. split; [done|]. split; [done|]. intros x. rewrite <- Hm. intros Hx.
      destruct (decide (x = h)) as [|Hn]; [done|]. exfalso. apply (not_elem_of_empty (C := gset Z) x).
      rewrite <- H1. by rewrite elem_of_difference, elem_of_singleton. }
  split; simpl; [| | | |done].
  - intros x. rewrite mined_in_snoc, elem_of_difference, elem_of_singleton, Hm. naive_solver.
  - destruct (bool_decide_reflect (minedTxs s ∖ {[h]} = ∅)) as [H1|H1]; simpl.
    1: destruct (bool_decide_reflect (h ∈ minedTxs s)) as [H2|H2]; simpl.
    1: { split; [|lia]. by apply low_since_reorg, Hre. }
    all: split; [|done]; rewrite <- (Nat.add_0_r (Z.to_nat _)); apply (low_since_snoc _ (OpNotMined h)); [done|];
      rewrite Hre; naive_solver.
  - rewrite count_app, count_one. simpl. lia.
  - by rewrite existsb_snoc, orb_false_r.
Qed.

(** Every sequence of calls keeps the correspondence, as long as no counter
    reaches 2^64. *)
Lemma tracks_ops s0 ops : Z.of_nat (length ops) < two64 -> tracks s0 [] s0 ->
  tracks s0 ops (foldl apply_op s0 ops).
Proof.
  intros Hlen H0. induction ops as [|o ops IH] using rev_ind; [done|].
  rewrite length_app in Hlen. simpl in Hlen. specialize (IH ltac:(lia)).
  rewrite foldl_snoc. destruct o; simpl.
  - apply tracks_sent; [lia|done].
  - by apply tracks_mined.
  - by apply tracks_not_mined.
Qed.

Lemma tracks_new safeAbort timeout now s0 : NewSendState safeAbort timeout now = Ok s0 ->
  tracks s0 [] s0 /\ safeAbortNonceTooLowCount s0 = safeAbort /\
  txInMempoolDeadline s0 = now + timeout.
Proof.
  unfold NewSendState. destruct (safeAbort =? 0); [done|]. intros [= <-]. split; [|done].
  split; simpl; [ | | done | done | done].
  - intros h. split; [set_solver|]. intros H. by apply mined_in_nil in H.
  - split; [apply low_since_nil | lia].
Qed.

(** The publication state refines its history.  After any calls (fewer
    than 2^64) on a new state, the manager waits for a confirmation exactly if
    some transaction was last reported as mined; it never gives up while it
    does, and otherwise it gives up for the nonce exactly if the nonce was
    too low often enough since the last reorg that left nothing mined, or at
    all before any publication succeeded; for the deadline if it passed with
    no successful publication; and for a reserved address. *)
Theorem SendState_refines safeAbort timeout now0 now s0 ops n :
  NewSendState safeAbort timeout now0 = Ok s0 ->
  Z.of_nat (length ops) < two64 -> low_since ops n ->
  let s := foldl apply_op s0 ops in
  let published := existsb is_sent ops in
  (IsWaitingForConfirmation s = true <-> exists h, mined_in ops h) /\
  ((exists h, mined_in ops h) -> CriticalError now s = None) /\
  ((forall h, ~ mined_in ops h) ->
   CriticalError now s =
     if (safeAbort <=? Z.of_nat n) || (negb published && (0 <? Z.of_nat n)) then Some (Msg ErrNonceTooLow)
     else if negb published && (now0 + timeout <? now) then Some ErrMempoolDeadlineExpired
     else if existsb is_reserved ops then Some (Msg ErrAlreadyReserved)
     else None).
Proof.
  intros Hnew Hlen Hn. cbv zeta.
  destruct (tracks_new _ _ _ _ Hnew) as (H0 & Ha & Hd).
  pose proof (tracks_ops s0 ops Hlen H0) as [Hm [Hl Hl0] Hs Hr [Hc1 Hc2]].
  rewrite (low_since_unique _ _ _ Hn Hl), Z2Nat.id by done.
  unfold CriticalError. rewrite Hc1, Hc2, Ha, Hd, Hs, Hr.
  rewrite (count_zero is_sent), negb_involutive. pose proof (mined_empty _ _ Hm) as Hempty.
  unfold IsWaitingForConfirmation.
  destruct (bool_decide_reflect (minedTxs (foldl apply_op s0 ops) = ∅)) as [He|He]; simpl.
  - rewrite Hempty in He. split; [naive_solver|]. split; [naive_solver|]. intros _.
    by repeat case_match.
  - assert (Hex : exists h, mined_in ops h).
    { apply set_choose_L in He as [h Hh]. exists h. by apply Hm. }
    split; [done|]. split; [done|]. destruct Hex. naive_solver.
Qed.

End SendStateFacts.

(** The messages of go-ethereum. *)
Definition gethErrors : PoolErrors := {|
  ErrNonceTooLow := "nonce too low";
  ErrAlreadyReserved := "address already reserved";
  ErrAlreadyKnown := "already known";
  ErrReplaceUnderpriced := "replacement transaction underpriced";
  ErrUnderpriced := "transaction underpriced";
|}.

(** Published, mined, reorged out, and then a nonce too low: one more chance. *)
Definition ex_ops : list SendOp :=
  [OpSent None; OpMined 7; OpNotMined 7; OpSent (Some "rpc: nonce too low"%string)].

Lemma SendState_refines_witness : let PE := gethErrors in
  exists s0, NewSendState 3 100 0 = Ok s0 /\ low_since ex_ops 1 /\
    CriticalError 500 (foldl apply_op s0 ex_ops) = None.
Proof.
  intros PE. eexists. split; [reflexivity|].
  assert (Hm : mined_in [OpSent None; OpMined 7] 7).
  { exists [OpSent None], []. split; [done|]. apply not_elem_of_nil. }
  assert (Hl : low_since ex_ops 1).
  { assert (Hc : count is_low [OpSent (Some "rpc: nonce too low"%string)] = 1%nat) by reflexivity.
    change 1%nat with (0 + 1)%nat. rewrite <- Hc.
    apply (low_since_snoc [OpSent None; OpMined 7; OpNotMined 7] (OpSent (Some "rpc: nonce too low"%string)) 0).
    - apply low_since_reorg, (reorged_out_snoc [OpSent None; OpMined 7]). exists 7. split; [done|]. split; [done|].
      intros h' H. apply (mined_in_snoc [OpSent None]) in H as [[= ->]|[H _]]; [done|].
      apply (mined_in_snoc []) in H as [?|[H _]]; [done|]. by apply mined_in_nil in H.
    - apply sent_not_reorged. }
  split; [done|].
  refine (eq_trans (proj2 (proj2 (SendState_refines 3 100 0 500 _ ex_ops 1 eq_refl eq_refl Hl)) _) eq_refl).
  intros h H. apply (mined_in_snoc [OpSent None; OpMined 7; OpNotMined 7]) in H as [?|[H _]]; [done|].
  apply (mined_in_snoc [OpSent None; OpMined 7]) in H as [?|[H Hn]]; [done|].
  apply (mined_in_snoc [OpSent None]) in H as [[= <-]|[H _]]; [done|].
  apply (mined_in_snoc []) in H as [?|[H _]]; [done|]. by apply mined_in_nil in H.
Defined.

(** ** The fee rules *)

Definition bump_percent (isBlobTx : bool) : Z := if isBlobTx then 200 else 110.

(** The threshold is the ceiling. *)
Lemma calcThresholdValue_ceil x b :
  bump_percent b * x <= 100 * calcThresholdValue x b < bump_percent b * x + 100.
Proof.
  unfold calcThresholdValue, blobPriceBump, priceBump, bump_percent.
  destruct b; Z.to_euclidean_division_equations; lia.
Qed.

Lemma calcThresholdValue_mono x y b : x <= y -> calcThresholdValue x b <= calcThresholdValue y b.
Proof.
  intros H. unfold calcThresholdValue. apply Z.div_le_mono; [lia|].
  unfold blobPriceBump, priceBump. destruct b; lia.
Qed.

(** A positive fee is raised by at least 1; zero stays zero. *)
Lemma calcThresholdValue_grows x b : 1 <= x -> x + 1 <= calcThresholdValue x b.
Proof. intros H. pose proof (calcThresholdValue_ceil x b). unfold bump_percent in *. destruct b; lia. Qed.

Lemma calcThresholdValue_zero b : calcThresholdValue 0 b = 0.
Proof. by destruct b. Qed.

Lemma calcThresholdValue_ge x b : 0 <= x -> x <= calcThresholdValue x b.
Proof. intros H. pose proof (calcThresholdValue_ceil x b). unfold bump_percent in *. destruct b; lia. Qed.

(** The promises (a), (b) and (c) of [updateFees], and a fee cap that covers
    the tip. *)
Theorem updateFees_spec oldTip oldFeeCap newTip newBaseFee isBlobTx tip fee :
  0 <= newBaseFee -> oldTip <= oldFeeCap ->
  updateFees oldTip oldFeeCap newTip newBaseFee isBlobTx = (tip, fee) ->
  tip = Z.max newTip (calcThresholdValue oldTip isBlobTx) /\
  calcThresholdValue oldFeeCap isBlobTx <= fee /\
  calcGasFeeCap newBaseFee newTip <= fee /\
  tip <= fee.
Proof.
  intros Hb Ho. pose proof (calcThresholdValue_mono _ _ isBlobTx Ho) as Hm.
  unfold updateFees, calcGasFeeCap. cbv zeta.
  repeat case_match; intros [= <- <-];
    rewrite ?andb_true_iff, ?andb_false_iff, ?Z.leb_le, ?Z.leb_gt, ?Z.ltb_lt, ?Z.ltb_ge in *; lia.
Qed.

(** ** What a bumped transaction keeps and changes *)

(** The parts that make it the same logical transaction. *)
Record same_job (tx tx' : Tx) : Prop := {
  sj_chain : tx_ChainId tx' = tx_ChainId tx;
  sj_nonce : tx_Nonce tx' = tx_Nonce tx;
  sj_to : tx_To tx' = tx_To tx;
  sj_value : tx_Value tx' = tx_Value tx;
  sj_data : tx_Data tx' = tx_Data tx;
  sj_hashes : bp_Hashes <$> tx_Blob tx' = bp_Hashes <$> tx_Blob tx;
  sj_sidecar : bp_Sidecar <$> tx_Blob tx' = bp_Sidecar <$> tx_Blob tx;
}.

#[global] Instance same_job_preorder : PreOrder same_job.
Proof.
  split; [by intros tx; split|]. intros x y z [] []. split; congruence.
Qed.

(** The replacement rules of the pool. *)
Definition is_blob (tx : Tx) : bool := bool_decide (is_Some (tx_Blob tx)).
Definition blob_fee (tx : Tx) : Z := match tx_Blob tx with Some b => bp_FeeCap b | None => 0 end.

Record replaces (tx tx' : Tx) : Prop := {
  rp_tip : bump_percent (is_blob tx) * tx_GasTipCap tx <= 100 * tx_GasTipCap tx';
  rp_fee : bump_percent (is_blob tx) * tx_GasFeeCap tx <= 100 * tx_GasFeeCap tx';
  rp_blob : 2 * blob_fee tx <= blob_fee tx';
  rp_gas : tx_Gas tx <= tx_Gas tx';
}.

Record tx_ok (tx : Tx) : Prop := {
  ok_chain : 0 <= tx_ChainId tx;
  ok_value : 0 <= tx_Value tx;
  ok_tip : 0 <= tx_GasTipCap tx;
  ok_fee : tx_GasTipCap tx <= tx_GasFeeCap tx;
  ok_blob : 0 <= blob_fee tx;
}.

(** The limits of the configuration on a fee, given the suggested prices. *)
Definition within (cfg : TxConfig) (v max : Z) : Prop :=
  v <= max \/ exists t, cf_FeeLimitThreshold cfg = Some t /\ v < t.

Record within_limits (cfg : TxConfig) (p : GasPrices) (tx : Tx) : Prop := {
  wl_tip : within cfg (tx_GasTipCap tx) (max_tip cfg (gp_tip p));
  wl_fee : within cfg (tx_GasFeeCap tx) (max_fee cfg (gp_tip p) (gp_baseFee p));
}.

(** Signing adds the signature. *)
Definition signs (sign : Tx -> result Tx) : Prop :=
  forall tx s, sign tx = Ok s -> exists sg, s = set_sig tx sg.

(** The estimator suggests non-negative prices. *)
Definition estimate_ok (e : result GasPrices) : Prop :=
  forall p, e = Ok p -> 0 <= gp_tip p /\ 0 <= gp_baseFee p.

Section CraftingFacts.
Context {U : Uint256} {UL : Uint256Laws U} {K : Kzg}.

Lemma from_big_Ok name z v : 0 <= z -> from_big name z = Ok v -> v = z.
Proof.
  intros Hz. unfold from_big. destruct (decide (z < 2 ^ 256)) as [Hlt|Hge].
  - rewrite FromBig_fits by lia. by intros [= <-].
  - pose proof (FromBig_overflows z ltac:(lia)) as Ho. destruct (FromBig z) as [w o]. simpl in Ho.
    by rewrite Ho.
Qed.

(** Numbers that do not overflow are kept. *)
Lemma finishBlobTx_Ok message b chainID tip fee blobFee value tx :
  0 <= chainID -> 0 <= tip -> 0 <= fee -> 0 <= blobFee -> 0 <= value ->
  finishBlobTx message b chainID tip fee blobFee (Some value) = Ok tx ->
  tx = {| tx_ChainId := chainID; tx_Nonce := tx_Nonce message; tx_To := tx_To message;
          tx_GasTipCap := tip; tx_GasFeeCap := fee; tx_Value := value;
          tx_Data := tx_Data message; tx_Gas := tx_Gas message;
          tx_Blob := Some {| bp_FeeCap := blobFee; bp_Hashes := bp_Hashes b; bp_Sidecar := bp_Sidecar b |};
          tx_Sig := None |}.
Proof.
  intros H1 H2 H3 H4 H5. unfold finishBlobTx.
  rewrite rbind_Ok. intros (v1 & ->%from_big_Ok & H); [|done]. revert H.
  rewrite rbind_Ok. intros (v2 & ->%from_big_Ok & H); [|done]. revert H.
  rewrite rbind_Ok. intros (v3 & ->%from_big_Ok & H); [|done]. revert H.
  rewrite rbind_Ok. intros (v4 & ->%from_big_Ok & H); [|done]. revert H.
  rewrite rbind_Ok. intros (v5 & ->%from_big_Ok & H); [|done]. by injection H.
Qed.

Lemma SuggestGasPriceCaps_Ok cfg e p : SuggestGasPriceCaps cfg e = Ok p -> exists p0, e = Ok p0 /\
  gp_tip p = at_least (cf_MinTipCap cfg) (gp_tip p0) /\
  gp_baseFee p = at_least (cf_MinBaseFee cfg) (gp_baseFee p0) /\ gp_blobFee p = gp_blobFee p0 /\
  too_high (cf_MaxTipCap cfg) (gp_tip p) = false /\ too_high (cf_MaxBaseFee cfg) (gp_baseFee p) = false.
Proof.
  unfold SuggestGasPriceCaps. rewrite rbind_Ok. intros (p0 & Hp0%map_err_Ok & H). exists p0.
  split; [done|]. repeat case_match; by simplify_eq/=.
Qed.

(** Suggested prices are non-negative. *)
Lemma suggestion_ok cfg e p : estimate_ok e -> SuggestGasPriceCaps cfg e = Ok p ->
  0 <= gp_tip p /\ 0 <= gp_baseFee p.
Proof.
  intros He (p0 & -> & Ht & Hb & _)%SuggestGasPriceCaps_Ok. destruct (He p0 eq_refl).
  rewrite Ht, Hb. unfold at_least. repeat case_match; split; lia.
Qed.

Lemma over_limit_within cfg v max : over_limit cfg v max = false -> within cfg v max.
Proof.
  unfold over_limit, within. repeat case_match; intros Hv; try lia.
  right. eexists. split; [done|]. lia.
Qed.

Lemma checkLimits_Ok cfg tip baseFee t f : checkLimits cfg tip baseFee t f = Ok tt ->
  within cfg t (max_tip cfg tip) /\ within cfg f (max_fee cfg tip baseFee).
Proof.
  unfold checkLimits. repeat case_match; try done. intros _. split; by apply over_limit_within.
Qed.

Lemma bump_blob_fee_Ok cfg b base f : bump_blob_fee cfg b base = Ok f -> 2 * bp_FeeCap b <= f.
Proof.
  unfold bump_blob_fee. destruct base as [base|]; [|done]. cbv zeta. rewrite rbind_Ok.
  intros (? & _ & Hf). apply Ok_inj in Hf as <-.
  pose proof (calcThresholdValue_ceil (bp_FeeCap b) true) as Hc. unfold bump_percent in Hc.
  case_match; lia.
Qed.

(** What a bumped transaction is to the old one. *)
Record bumped (cfg : TxConfig) (p : GasPrices) (tx tx' : Tx) : Prop := {
  bd_job : same_job tx tx';
  bd_replaces : replaces tx tx';
  bd_ok : tx_ok tx';
  bd_limits : within_limits cfg p tx';
}.

Lemma bumped_sig cfg p tx tx' sg : bumped cfg p tx tx' -> bumped cfg p tx (set_sig tx' sg).
Proof. intros [[] [] [] []]. by split; split. Qed.

Lemma bumped_fees (p : GasPrices) tx tip fee :
  tx_ok tx -> 0 <= gp_baseFee p ->
  updateFees (tx_GasTipCap tx) (tx_GasFeeCap tx) (gp_tip p) (gp_baseFee p) (is_blob tx) = (tip, fee) ->
  bump_percent (is_blob tx) * tx_GasTipCap tx <= 100 * tip /\
  bump_percent (is_blob tx) * tx_GasFeeCap tx <= 100 * fee /\ 0 <= tip <= fee.
Proof.
  intros [_ _ Ht Hf _] Hb (Htip & Hfee & _ & Hle)%updateFees_spec; [|done..].
  pose proof (calcThresholdValue_ceil (tx_GasTipCap tx) (is_blob tx)).
  pose proof (calcThresholdValue_ceil (tx_GasFeeCap tx) (is_blob tx)).
  pose proof (calcThresholdValue_ge (tx_GasTipCap tx) (is_blob tx) Ht). lia.
Qed.

(** The result of a bump: the old transaction when signing failed, or a
    bumped one. *)
Lemma increaseGasPrice_Ok cfg a tx tx' :
  signs (an_Signer a) -> estimate_ok (an_estimate a) -> tx_ok tx ->
  increaseGasPrice cfg a tx = Ok tx' ->
  (tx' = tx /\ exists message e, an_Signer a message = Err e) \/
  exists p, SuggestGasPriceCaps cfg (an_estimate a) = Ok p /\ bumped cfg p tx tx'.
Proof.
  intros Hsign Hest Hok. unfold increaseGasPrice. rewrite rbind_Ok. intros (p & Hp & H).
  destruct (suggestion_ok _ _ _ Hest Hp) as [Hp1 Hp2].
  destruct (updateFees _ _ _ _ _) as [tip fee] eqn:Hu.
  destruct (bumped_fees p tx tip fee Hok Hp2 Hu) as (Htip & Hfee & H0).
  apply rbind_Ok in H as ([] & [Hl1 Hl2]%checkLimits_Ok & H).
  apply rbind_Ok in H as (blobFee & Hblob & H). apply rbind_Ok in H as (gas & _ & H).
  apply rbind_Ok in H as (message & Hmsg & H).
  enough (Hm : bumped cfg p tx message).
  { destruct (an_Signer a message) as [s|e|] eqn:Hs; simplify_eq.
    - right. exists p. split; [done|]. destruct (Hsign _ _ Hs) as [sg ->]. by apply bumped_sig.
    - left. eauto. }
  clear H Hu. destruct Hok as [Hc Hv _ _ Hb]. unfold blob_fee in Hb.
  assert (Hgas : tx_Gas tx <= if gas <? tx_Gas tx then tx_Gas tx else gas) by (destruct (Z.ltb_spec gas (tx_Gas tx)); lia).
  destruct (tx_Blob tx) as [b|] eqn:Htx.
  - apply rbind_Ok in Hblob as (f & Hf%bump_blob_fee_Ok & [= <-]).
    apply finishBlobTx_Ok in Hmsg as ->; [|lia..].
    split; split; simpl; rewrite ?Htx; try done; unfold blob_fee; simpl; rewrite ?Htx; lia.
  - simplify_eq. split; split; simpl; rewrite ?Htx; try done; unfold blob_fee; simpl; rewrite ?Htx; lia.
Qed.

(** *** Nonces *)

(** Requests to sign, in order; the signed transactions. *)
Fixpoint sign_all (m : SimpleTxManager) (reqs : list (Answers * Tx)) : SimpleTxManager * list Tx :=
  match reqs with
  | [] => (m, [])
  | (a, message) :: reqs =>
      let '(m', r) := signWithNextNonce m a message in
      let '(m'', txs) := sign_all m' reqs in
      (m'', match r with Ok tx => tx :: txs | _ => txs end)
  end.

(** One request takes the next nonce if it is signed and leaves it otherwise. *)
Lemma signWithNextNonce_known m a message k : signs (an_Signer a) -> is_u64 k ->
  (forall tx, an_Signer a tx <> Panic) ->
  mg_nonce m = Some k ->
  (exists tx, signWithNextNonce m a message = (with_nonce m (Some (k +u 1)), Ok tx) /\ tx_Nonce tx = k +u 1) \/
  (exists e, signWithNextNonce m a message = (with_nonce m (Some k), Err e)).
Proof.
  intros Hs Hk Hnp Hn. unfold signWithNextNonce. rewrite Hn.
  destruct (an_Signer a (set_nonce message (k +u 1))) as [tx|e|] eqn:Hsig.
  - left. exists tx. split; [done|]. by destruct (Hs _ _ Hsig) as [sg ->].
  - right. exists e. assert (He : k +u 1 -u 1 = k) by u64_solve. by rewrite He.
  - by apply Hnp in Hsig.
Qed.

(** Signed transactions have consecutive nonces, whatever requests failed in
    between, until the nonce is reset. *)
Theorem nonces_consecutive m reqs k : is_u64 k -> mg_nonce m = Some k ->
  Forall (fun r => signs (an_Signer r.1) /\ forall tx, an_Signer r.1 tx <> Panic) reqs ->
  let txs := (sign_all m reqs).2 in
  map tx_Nonce txs = map (fun i => u64 (k + 1 + Z.of_nat i)) (seq 0 (length txs)).
Proof.
  revert m k. induction reqs as [|[a message] reqs IH]; intros m k Hk Hn Hall; [done|].
  apply Forall_cons in Hall as [[Hs Hnp] Hall]. cbn [sign_all fst] in *.
  destruct (signWithNextNonce_known m a message k Hs Hk Hnp Hn) as [(tx & -> & Ht)|[e ->]].
  - specialize (IH (with_nonce m (Some (k +u 1))) (k +u 1) (u64_range _) eq_refl Hall).
    destruct (sign_all _ reqs) as [m' txs]. cbn [snd map length seq] in *. f_equal; [rewrite Ht; f_equal; lia|].
    rewrite IH, <- seq_shift, map_map. apply map_ext. intros i. rewrite Nat2Z.inj_succ. u64_solve.
  - specialize (IH (with_nonce m (Some k)) k Hk eq_refl Hall).
    by destruct (sign_all _ reqs) as [m' txs].
Qed.

(** After a reset the nonce is asked for again: a transaction that is still
    pending loses its nonce to the next one, whose version the pool takes as
    a replacement. *)
Lemma reset_reuses_nonce m a message n tx : mg_nonce m = Some n ->
  an_NonceAt a = Ok n -> signs (an_Signer a) ->
  (signWithNextNonce (resetNonce m) a message).2 = Ok tx -> tx_Nonce tx = n.
Proof.
  intros Hm Hn Hs. unfold signWithNextNonce. simpl. rewrite Hn. simpl.
  destruct (an_Signer a _) as [t|e|] eqn:Hsig; simpl; try done. intros Ht. apply Ok_inj in Ht as <-.
  by destruct (Hs _ _ Hsig) as [sg ->].
Qed.

(** Crafting leaves everything but the nonce alone. *)
Lemma craftTx_keeps m a candidate : exists n, (craftTx m a candidate).1 = with_nonce m n.
Proof.
  assert (Hm : m = with_nonce m (mg_nonce m)) by (by destruct m).
  unfold craftTx, signWithNextNonce. repeat case_match; simpl; eauto.
Qed.

Lemma prepare_keeps m candidate attempts : exists n, (prepare m candidate attempts).1 = with_nonce m n.
Proof.
  unfold prepare. generalize 30%nat EOF. intros k.
  enough (H : forall e, exists n, (prepare_loop m candidate k e attempts).1 = with_nonce m n).
  { intros e. destruct (H e) as [n Hn]. exists n. by destruct (prepare_loop _ _ _ _ _). }
  assert (Hm : forall x, x = with_nonce x (mg_nonce x)) by (by intros []).
  revert m attempts. induction k as [|k IH]; intros m [|[e'|[] a] attempts] e; simpl; eauto.
  destruct (craftTx_keeps m a candidate) as [n Hn]. destruct (craftTx m a candidate) as [m' [tx|e'|]]; simpl in *.
  - by exists n.
  - subst m'. apply (IH (with_nonce m n)).
  - by exists n.
Qed.

(** [Send] does not count itself as pending: the argument of its deferred call
    is evaluated when [defer] runs. *)
Lemma Send_never_pending m candidate attempts :
  mg_pending (Send_begin m candidate attempts).1 = mg_pending m.
Proof.
  unfold Send_begin. destruct (mg_closed m); [done|]. cbv zeta.
  destruct (prepare_keeps (with_pending (with_pending m (mg_pending m + 1))
    (mg_pending (with_pending m (mg_pending m + 1)) - 1)) candidate attempts) as [n Hn].
  destruct (prepare _ candidate attempts) as [m' r]. simpl in Hn. subst m'. destruct r; simpl; lia.
Qed.

End CraftingFacts.
