(* ===== verification/TxManager.v ===== *)
(** Sending a transaction, [sendTx] of [src/rhs-service/txmgr/txmgr.go]: the
    main loop that publishes and bumps, and the goroutines that poll for
    receipts, as one machine.  A step is one uninterrupted piece of a
    goroutine, from one answer of the outside world to the next, so that all
    interleavings on the shared publication state are runs of the machine. *)

From S2P Require Import Prelude TxFees.

(** [types.Receipt]. *)
Record Receipt : Type := { rc_TxHash : Z; rc_BlockNumber : Z }.

(** [tx.Hash()]. *)
Class TxHasher : Type := TxHash : Tx -> Z.

Section Machine.
Context {PE : PoolErrors} {U : Uint256} {K : Kzg} {TH : TxHasher}.

(** ** Publishing *)

(** Where the main goroutine is: at the head of the loop of [sendTx], inside
    [publishTx] (at the head of its loop, after [increaseGasPrice], before
    [SendTransaction]), before [CriticalError], in the select, or done. *)
Inductive PC : Type :=
  | Top
  | Publish (tx : Tx)
  | Bumped (tx newTx : Tx)
  | Sending (tx : Tx)
  | Critical
  | Select
  | Done (r : result Receipt).

(** How a part of [publishTx] ends. *)
Inductive PublishResult : Type :=
  | Go (pc : PC)
  | Return (tx : Tx) (published : bool).

Definition publish_bump (cfg : TxConfig) (a : Answers) (tx : Tx) (s : SendState) : PublishResult :=
  if bumpFees s then
    match increaseGasPrice cfg a tx with
    | Ok newTx => Go (Bumped tx newTx)
    | Err _ => Go (Sending tx)
    | Panic => Go (Done Panic)
    end
  else Go (Sending tx).

Definition publish_bumped (tx newTx : Tx) (s : SendState) : SendState * PublishResult :=
  if IsWaitingForConfirmation s then (s, Return tx false)
  else (with_bump s false (bumpCount s + 1), Go (Sending newTx)).

Definition retry_with_bump (tx : Tx) (s : SendState) : SendState * PublishResult :=
  if negb (bumpFees s) then (with_bump s true (bumpCount s), Go (Publish tx)) else (s, Return tx false).

Definition publish_sent (cfg : TxConfig) (tx : Tx) (err : option string) (s : SendState) : SendState * PublishResult :=
  let s := ProcessSendError err s in
  if bool_decide (err = None) || errStringContainsAny err (cf_AlreadyPublishedCustomErrs cfg) then
    (with_bump s true (bumpCount s), Return tx true)
  else if errStringMatch err (Some ErrAlreadyReserved) then (s, Return tx false)
  else if errStringMatch err (Some ErrNonceTooLow) then (s, Return tx false)
  else if errStringMatch err (Some Canceled) then (s, Return tx false)
  else if errStringMatch err (Some ErrAlreadyKnown) then (s, Return tx false)
  else if errStringMatch err (Some ErrReplaceUnderpriced) then retry_with_bump tx s
  else if errStringMatch err (Some ErrUnderpriced) then retry_with_bump tx s
  else (s, Return tx false).

(** ** Waiting for the receipt *)

(** A goroutine in [waitMined]: waiting for the next poll, or in
    [queryReceipt] between its two queries. *)
Inductive Waiter : Type :=
  | Polling (tx : Tx)
  | Mined (tx : Tx) (receipt : Receipt).

(** [queryReceipt] after [TransactionReceipt]; [None] is a nil receipt. *)
Definition query_receipt (tx : Tx) (ans : result (option Receipt)) (s : SendState) : SendState * Waiter :=
  match ans with
  | Err e => (if errors_Is e NotFound then TxNotMined (TxHash tx) s else s, Polling tx)
  | Ok None => (s, Polling tx)
  | Ok (Some receipt) => (TxMined (TxHash tx) s, Mined tx receipt)
  | Panic => (s, Polling tx)
  end.

(** [queryReceipt] after [HeaderByNumber]: is the receipt confirmed? *)
Definition query_tip (cfg : TxConfig) (receipt : Receipt) (ans : result TxHeader) : bool :=
  match ans with
  | Ok tip => rc_BlockNumber receipt +u cf_NumConfirmations cfg <=? hd_Number tip +u 1
  | _ => false
  end.

(** ** The machine *)

Record SendTx : Type := {
  sn_mgr : SimpleTxManager;
  sn_tx : Tx;                  (* the variable [tx] of [sendTx] *)
  sn_state : SendState;
  sn_spawned : nat;            (* goroutines that have not read [tx] yet *)
  sn_waiters : list Waiter;
  sn_chan : option Receipt;    (* [receiptChan], of capacity 1 *)
  sn_ctxDone : bool;
  sn_pc : PC;
}.

Definition sn_with (s : SendTx) (st : SendState) (p : PC) : SendTx :=
  {| sn_mgr := sn_mgr s; sn_tx := sn_tx s; sn_state := st; sn_spawned := sn_spawned s;
     sn_waiters := sn_waiters s; sn_chan := sn_chan s; sn_ctxDone := sn_ctxDone s; sn_pc := p |}.

(** [sendTx] returns: the deferred [cancel] runs. *)
Definition finish (s : SendTx) (r : result Receipt) : SendTx :=
  {| sn_mgr := sn_mgr s; sn_tx := sn_tx s; sn_state := sn_state s; sn_spawned := sn_spawned s;
     sn_waiters := sn_waiters s; sn_chan := sn_chan s; sn_ctxDone := true; sn_pc := Done r |}.

(** [publishTx] returns to [sendTx], which starts a goroutine for a published
    transaction; the goroutine reads the shared variable [tx] when it runs. *)
Definition publish_return (s : SendTx) (st : SendState) (tx : Tx) (published : bool) : SendTx :=
  {| sn_mgr := sn_mgr s; sn_tx := tx; sn_state := st;
     sn_spawned := (sn_spawned s + if published then 1 else 0)%nat;
     sn_waiters := sn_waiters s; sn_chan := sn_chan s; sn_ctxDone := sn_ctxDone s; sn_pc := Critical |}.

Definition after_publish (s : SendTx) (r : SendState * PublishResult) : SendTx :=
  match r with
  | (st, Go (Done x)) => finish (sn_with s st Top) x
  | (st, Go p) => sn_with s st p
  | (st, Return tx published) => publish_return s st tx published
  end.

Definition set_waiters (s : SendTx) (st : SendState) (n : nat) (ws : list Waiter) (ch : option Receipt) : SendTx :=
  {| sn_mgr := sn_mgr s; sn_tx := sn_tx s; sn_state := st; sn_spawned := n; sn_waiters := ws;
     sn_chan := ch; sn_ctxDone := sn_ctxDone s; sn_pc := sn_pc s |}.

Definition set_env (s : SendTx) (m : SimpleTxManager) (done_ : bool) : SendTx :=
  {| sn_mgr := m; sn_tx := sn_tx s; sn_state := sn_state s; sn_spawned := sn_spawned s;
     sn_waiters := sn_waiters s; sn_chan := sn_chan s; sn_ctxDone := done_; sn_pc := sn_pc s |}.

(** Up to the loop: a ticker needs a positive interval. *)
Definition sendTx_begin (m : SimpleTxManager) (tx : Tx) (now : Z) : result SendTx :=
  let* st := NewSendState (cf_SafeAbortNonceTooLowCount (mg_cfg m)) (cf_TxNotInMempoolTimeout (mg_cfg m)) now in
  if cf_ResubmissionTimeout (mg_cfg m) <=? 0 then Panic
  else Ok {| sn_mgr := m; sn_tx := tx; sn_state := st; sn_spawned := 0; sn_waiters := [];
             sn_chan := None; sn_ctxDone := false; sn_pc := Top |}.

(** What may happen next: a piece of the main goroutine with the answers it
    reads, a piece of the [i]-th waiting goroutine, or the outside world. *)
Inductive Input : Type :=
  | IStep
  | IBump (a : Answers)
  | ISend (err : option string)
  | ICritical (now : Z)
  | ITick
  | ICtxDone (e : error)
  | IReceive
  | IStart
  | IReceipt (i : nat) (ans : result (option Receipt))
  | ITip (i : nat) (ans : result TxHeader)
  | IStop (i : nat)
  | ICancel
  | IClose
  | IConfig (o : ConfigOp).

Definition is_main (i : Input) : bool :=
  match i with
  | IStep | IBump _ | ISend _ | ICritical _ | ITick | ICtxDone _ | IReceive => true
  | _ => false
  end.

(** The main goroutine. *)
Definition step_main (i : Input) (s : SendTx) : option SendTx :=
  let cfg := mg_cfg (sn_mgr s) in
  match sn_pc s, i with
  | Top, IStep =>
      if negb (IsWaitingForConfirmation (sn_state s)) then
        if mg_closed (sn_mgr s) then Some (finish s (Err ErrClosed))
        else Some (sn_with s (sn_state s) (Publish (sn_tx s)))
      else Some (sn_with s (sn_state s) Critical)
  | Publish tx, IBump a => Some (after_publish s (sn_state s, publish_bump cfg a tx (sn_state s)))
  | Bumped tx newTx, IStep => Some (after_publish s (publish_bumped tx newTx (sn_state s)))
  | Sending tx, ISend err => Some (after_publish s (publish_sent cfg tx err (sn_state s)))
  | Critical, ICritical now =>
      match CriticalError now (sn_state s) with
      | Some e => Some (finish s (Err (Wrap "aborted tx send due to critical error" e)))
      | None => Some (sn_with s (sn_state s) Select)
      end
  | Select, ITick => Some (sn_with s (sn_state s) Top)
  | Select, ICtxDone e => if sn_ctxDone s then Some (finish s (Err e)) else None
  | Select, IReceive =>
      match sn_chan s with
      | Some r => Some (finish (set_waiters s (sn_state s) (sn_spawned s) (sn_waiters s) None) (Ok r))
      | None => None
      end
  | _, _ => None
  end.

(** The waiting goroutines and the outside world.  The send on the full
    channel is dropped. *)
Definition step_other (i : Input) (s : SendTx) : option SendTx :=
  match i with
  | IStart =>
      match sn_spawned s with
      | S n => Some (set_waiters s (sn_state s) n (sn_waiters s ++ [Polling (sn_tx s)]) (sn_chan s))
      | O => None
      end
  | IReceipt i ans =>
      match sn_waiters s !! i with
      | Some (Polling tx) =>
          let '(st, w) := query_receipt tx ans (sn_state s) in
          Some (set_waiters s st (sn_spawned s) (<[i := w]> (sn_waiters s)) (sn_chan s))
      | _ => None
      end
  | ITip i ans =>
      match sn_waiters s !! i with
      | Some (Mined tx r) =>
          if query_tip (mg_cfg (sn_mgr s)) r ans then
            Some (set_waiters s (sn_state s) (sn_spawned s) (delete i (sn_waiters s))
                    (match sn_chan s with None => Some r | Some r' => Some r' end))
          else Some (set_waiters s (sn_state s) (sn_spawned s) (<[i := Polling tx]> (sn_waiters s)) (sn_chan s))
      | _ => None
      end
  | IStop i =>
      match sn_waiters s !! i with
      | Some (Polling tx) =>
          if sn_ctxDone s then Some (set_waiters s (sn_state s) (sn_spawned s) (delete i (sn_waiters s)) (sn_chan s))
          else None
      | _ => None
      end
  | ICancel => Some (set_env s (sn_mgr s) true)
  | IClose => Some (set_env s (mgr_Close (sn_mgr s)) (sn_ctxDone s))
  | IConfig o => Some (set_env s (with_cfg (sn_mgr s) (apply_config o (mg_cfg (sn_mgr s)))) (sn_ctxDone s))
  | _ => None
  end.

Definition step (i : Input) (s : SendTx) : option SendTx :=
  if is_main i then step_main i s else step_other i s.

Fixpoint run (ins : list Input) (s : SendTx) : option SendTx :=
  match ins with
  | [] => Some s
  | i :: ins => match step i s with Some s' => run ins s' | None => None end
  end.

(** The calls of the backend a run makes, with their answers. *)
Inductive Call : Type :=
  | SendTransaction (tx : Tx) (err : option string)
  | TransactionReceipt (h : Z) (ans : result (option Receipt))
  | HeaderByNumber (ans : result TxHeader).

Definition call_of (i : Input) (s : SendTx) : list Call :=
  match i, sn_pc s with
  | ISend err, Sending tx => [SendTransaction tx err]
  | IReceipt i ans, _ =>
      match sn_waiters s !! i with
      | Some (Polling tx) => [TransactionReceipt (TxHash tx) ans]
      | _ => []
      end
  | ITip _ ans, _ => [HeaderByNumber ans]
  | _, _ => []
  end.

Fixpoint calls (ins : list Input) (s : SendTx) : list Call :=
  match ins with
  | [] => []
  | i :: ins => call_of i s ++ match step i s with Some s' => calls ins s' | None => [] end
  end.


(** ** Runs *)

Lemma run_snoc ins i s s' : run (ins ++ [i]) s = Some s' <->
  exists t, run ins s = Some t /\ step i t = Some s'.
Proof.
  revert s. induction ins as [|j ins IH]; intros s; simpl.
  - destruct (step i s) eqn:H; naive_solver.
  - destruct (step j s) as [t|]; [apply IH | naive_solver].
Qed.

Lemma calls_snoc ins i s t : run ins s = Some t ->
  calls (ins ++ [i]) s = calls ins s ++ call_of i t.
Proof.
  revert s. induction ins as [|j ins IH]; intros s; simpl.
  - intros [= ->]. destruct (step i t); by rewrite app_nil_r.
  - destruct (step j s) as [u|]; [|done]. intros H. by rewrite (IH u H), app_assoc.
Qed.

(** ** The invariant of sending [tx0] *)

(** The signer only adds a signature; the estimator suggests non-negative
    prices. *)
Definition input_ok (i : Input) : Prop :=
  match i with
  | IBump a => signs (an_Signer a) /\ estimate_ok (an_estimate a)
  | _ => True
  end.

(** The next published transaction: the same again or a replacement. *)
Definition link (tx tx' : Tx) : Prop := tx' = tx \/ (same_job tx tx' /\ replaces tx tx').

(** The transactions given to [SendTransaction]. *)
Definition sent (cs : list Call) : list Tx :=
  omap (fun c => match c with SendTransaction tx _ => Some tx | _ => None end) cs.

Section Invariant.
Context (tx0 : Tx) (confs : Z).

Definition good (tx : Tx) : Prop := same_job tx0 tx /\ tx_ok tx.

(** The receipt was answered for a version of [tx0], and after that a tip at
    the confirmation depth. *)
Definition confirmed (cs : list Call) (r : Receipt) : Prop :=
  exists tx tip pre mid post, same_job tx0 tx /\
    cs = pre ++ TransactionReceipt (TxHash tx) (Ok (Some r)) :: mid ++ HeaderByNumber (Ok tip) :: post /\
    rc_BlockNumber r +u confs <= hd_Number tip +u 1.

Definition waiter_ok (cs : list Call) (w : Waiter) : Prop :=
  match w with
  | Polling tx => good tx
  | Mined tx r => good tx /\ TransactionReceipt (TxHash tx) (Ok (Some r)) ∈ cs
  end.

(** The transaction the main goroutine holds, against the last one sent. *)
Definition pc_ok (cs : list Call) (tx : Tx) (p : PC) : Prop :=
  match p with
  | Publish tx | Bumped tx _ => good tx /\ forall t, last (sent cs) = Some t -> t = tx
  | Sending tx => good tx /\ forall t, last (sent cs) = Some t -> link t tx
  | Done _ => True
  | _ => forall t, last (sent cs) = Some t -> t = tx
  end /\
  match p with
  | Bumped tx newTx => link tx newTx /\ good newTx
  | Done (Ok r) => confirmed cs r
  | _ => True
  end.

Record inv (cs : list Call) (s : SendTx) : Prop := {
  iv_confs : cf_NumConfirmations (mg_cfg (sn_mgr s)) = confs;
  iv_tx : good (sn_tx s);
  iv_pc : pc_ok cs (sn_tx s) (sn_pc s);
  iv_waiters : Forall (waiter_ok cs) (sn_waiters s);
  iv_chan : forall r, sn_chan s = Some r -> confirmed cs r;
  iv_sent : adjacent link (sent cs) /\ Forall good (sent cs);
}.

Lemma good_replaced tx tx' : good tx -> link tx tx' -> tx_ok tx' -> good tx'.
Proof. intros [H1 H2] [->|[H3 _]] Hok; [done|]. split; [by etrans | done]. Qed.

Lemma confirmed_app cs l r : confirmed cs r -> confirmed (cs ++ l) r.
Proof.
  intros (tx & tip & pre & mid & post & Hj & -> & H). exists tx, tip, pre, mid, (post ++ l).
  split; [done|]. split; [|done]. by rewrite <- app_assoc, <- !app_comm_cons, <- app_assoc.
Qed.

Lemma waiter_ok_app cs l w : waiter_ok cs w -> waiter_ok (cs ++ l) w.
Proof. destruct w; simpl; [done|]. rewrite elem_of_app. naive_solver. Qed.

Lemma sent_app cs l : sent (cs ++ l) = sent cs ++ sent l.
Proof. apply omap_app. Qed.

(** A call that is no publication leaves the main goroutine's part alone. *)
Lemma pc_ok_app cs l tx p : sent l = [] -> pc_ok cs tx p -> pc_ok (cs ++ l) tx p.
Proof.
  intros Hl [H1 H2]. unfold pc_ok. rewrite sent_app, Hl, app_nil_r. split; [done|].
  destruct p as [| | | | | |[]]; try done. by apply confirmed_app.
Qed.

(** Steps of the waiting goroutines. *)
Lemma inv_waiters cs s l st n ws ch :
  inv cs s -> sent l = [] -> Forall (waiter_ok (cs ++ l)) ws ->
  (forall r, ch = Some r -> confirmed (cs ++ l) r) ->
  inv (cs ++ l) (set_waiters s st n ws ch).
Proof.
  intros [Hc Ht Hp Hw Hch Hs] Hl Hws Hch'.
  split; simpl; try done; [by apply pc_ok_app | by rewrite sent_app, Hl, app_nil_r].
Qed.

(** Steps of the outside world. *)
Lemma inv_env cs s m d : inv cs s -> cf_NumConfirmations (mg_cfg m) = confs ->
  inv (cs ++ []) (set_env s m d).
Proof. intros [] Hm. rewrite app_nil_r. by split. Qed.

Lemma inv_step_other cs s i s' : inv cs s -> is_main i = false -> step_other i s = Some s' ->
  inv (cs ++ call_of i s) s'.
Proof.
  intros Hi Hmain. pose proof (iv_waiters _ _ Hi) as Hw.
  assert (Hws : forall l, Forall (waiter_ok (cs ++ l)) (sn_waiters s)).
  { intros l. eapply Forall_impl; [exact Hw|]. intros w. apply waiter_ok_app. }
  assert (Hch : forall l r, sn_chan s = Some r -> confirmed (cs ++ l) r).
  { intros l r Hr. by eapply confirmed_app, iv_chan. }
  pose proof (iv_confs _ _ Hi) as Hconf.
  destruct i as [| | | | | | | |k ans|k ans|k| | |o]; try done; simpl.
  - destruct (sn_spawned s) as [|n]; [done|]. intros [= <-].
    apply inv_waiters; [done | done | | by apply Hch].
    apply Forall_app. split; [by apply Hws|]. constructor; [|done]. by apply (iv_tx _ _ Hi).
  - destruct (sn_waiters s !! k) as [[tx|]|] eqn:Hk; [|done..].
    pose proof (Forall_lookup_1 _ _ _ _ Hw Hk) as Hgood. simpl in Hgood.
    destruct (query_receipt tx ans (sn_state s)) as [st w] eqn:Hq. intros [= <-].
    apply inv_waiters; [done | done | | by apply Hch].
    apply Forall_insert; [done|]. unfold query_receipt in Hq.
    destruct ans as [[r|]|e|]; simplify_eq; try done. split; [done|].
    apply elem_of_app. right. by apply list_elem_of_singleton.
  - destruct (sn_waiters s !! k) as [[|tx r]|] eqn:Hk; [done| |done].
    pose proof (Forall_lookup_1 _ _ _ _ Hw Hk) as [Hgood Hr].
    destruct (query_tip _ r ans) eqn:Hq; intros [= <-].
    + apply inv_waiters; [done | done | by apply Forall_delete |].
      destruct (sn_chan s) as [r'|] eqn:Hr'; [by apply Hch|]. intros ? [= <-].
      destruct ans as [tip| |]; [|done..]. simpl in Hq.
      apply list_elem_of_split in Hr as (pre & mid & ->).
      exists tx, tip, pre, mid, []. split; [by apply Hgood|]. split; [by rewrite <- app_assoc|].
      rewrite Hconf in Hq. lia.
    + apply inv_waiters; [done | done | by apply Forall_insert | by apply Hch].
  - destruct (sn_waiters s !! k) as [[tx|]|]; [|done..]. destruct (sn_ctxDone s); [|done]. intros [= <-].
    apply inv_waiters; [done | done | by apply Forall_delete | by apply Hch].
  - intros [= <-]. by apply inv_env.
  - intros [= <-]. by apply inv_env.
  - intros [= <-]. by apply inv_env.
Qed.

(** Steps of the main goroutine that make no call. *)
Lemma inv_main cs s tx st n ch d p : inv cs s -> good tx -> pc_ok cs tx p ->
  (ch = sn_chan s \/ ch = None) ->
  inv cs {| sn_mgr := sn_mgr s; sn_tx := tx; sn_state := st; sn_spawned := n;
            sn_waiters := sn_waiters s; sn_chan := ch; sn_ctxDone := d; sn_pc := p |}.
Proof.
  intros [] Hg Hp Hch. split; simpl; try done. destruct Hch as [->| ->]; [done|naive_solver].
Qed.

Lemma pc_ok_idle cs tx p q : pc_ok cs tx p ->
  match p with Top | Critical | Select => True | _ => False end ->
  match q with Top | Critical | Select => True | _ => False end -> pc_ok cs tx q.
Proof. intros [H1 H2]. unfold pc_ok. by destruct p, q. Qed.

Lemma pc_ok_failed cs tx r : match r with Ok _ => False | _ => True end -> pc_ok cs tx (Done r).
Proof. by destruct r. Qed.

(** [increaseGasPrice] gives the main goroutine a next version. *)
Lemma bump_link cfg a tx newTx (UL : Uint256Laws U) : signs (an_Signer a) -> estimate_ok (an_estimate a) ->
  good tx -> increaseGasPrice cfg a tx = Ok newTx -> link tx newTx /\ good newTx.
Proof.
  intros Hs He Hg H. apply increaseGasPrice_Ok in H as [[-> _]|(p & _ & [Hj Hr Hok _])]; [| |done..|apply Hg].
  - split; [by left | done].
  - assert (Hl : link tx newTx) by (by right). split; [done|]. by apply (good_replaced tx).
Qed.

(** The transaction just sent is the next link. *)
Lemma sent_snoc cs tx err : good tx -> (forall t, last (sent cs) = Some t -> link t tx) ->
  adjacent link (sent cs) /\ Forall good (sent cs) ->
  let cs' := cs ++ [SendTransaction tx err] in
  (adjacent link (sent cs') /\ Forall good (sent cs')) /\ last (sent cs') = Some tx.
Proof.
  intros Hg Hl [H1 H2]. cbv zeta. rewrite sent_app. simpl. rewrite last_snoc. split; [|done].
  split; [|by apply Forall_app; auto]. apply adjacent_app. split; [done|]. split; [done|].
  intros t b Ht [= <-]. by apply Hl.
Qed.

Lemma publish_sent_cases cfg tx err st : exists st',
  publish_sent cfg tx err st = (st', Go (Publish tx)) \/
  exists published, publish_sent cfg tx err st = (st', Return tx published).
Proof.
  unfold publish_sent, retry_with_bump. repeat case_match; eauto.
Qed.

(** The publication is logged; the main goroutine holds what it sent. *)
Lemma inv_log cs s tx err : inv cs s -> sn_pc s = Sending tx ->
  inv (cs ++ [SendTransaction tx err]) (sn_with s (sn_state s) (Publish tx)) /\ good tx /\
  last (sent (cs ++ [SendTransaction tx err])) = Some tx.
Proof.
  intros Hi Hpc. pose proof (iv_pc _ _ Hi) as [Hp _]. rewrite Hpc in Hp. destruct Hp as [Hg Hl].
  destruct (sent_snoc cs tx err Hg Hl (iv_sent _ _ Hi)) as [Hs Hlast].
  split; [|done]. destruct Hi as [Hc Ht _ Hw Hch _]. split; simpl; try done.
  - split; [|done]. split; [done|]. intros t. rewrite Hlast. by intros [= ->].
  - eapply Forall_impl; [exact Hw|]. intros w. apply waiter_ok_app.
  - intros r Hr. by apply confirmed_app, Hch.
Qed.

Lemma inv_sent cs s tx err : inv cs s -> sn_pc s = Sending tx ->
  inv (cs ++ [SendTransaction tx err]) (after_publish s (publish_sent (mg_cfg (sn_mgr s)) tx err (sn_state s))).
Proof.
  intros Hi Hpc. destruct (inv_log cs s tx err Hi Hpc) as (Hlog & Hg & Hlast).
  destruct (publish_sent_cases (mg_cfg (sn_mgr s)) tx err (sn_state s)) as (st & [->|[b ->]]); simpl.
  - apply (inv_main _ (sn_with s (sn_state s) (Publish tx))); [done | apply (iv_tx _ _ Hi) | | by left].
    by apply (iv_pc _ _ Hlog).
  - apply (inv_main _ (sn_with s (sn_state s) (Publish tx))); [done | done | | by left].
    split; [|done]. intros t. rewrite Hlast. by intros [= ->].
Qed.

Lemma inv_step_main cs s i s' (UL : Uint256Laws U) : inv cs s -> input_ok i -> step_main i s = Some s' ->
  inv (cs ++ call_of i s) s'.
Proof.
  intros Hi Hok. pose proof (iv_pc _ _ Hi) as Hp. pose proof (iv_tx _ _ Hi) as Hg. unfold step_main.
  destruct (sn_pc s) as [|tx|tx newTx|tx| | |r] eqn:Hpc, i; try done; simpl; rewrite ?Hpc, ?app_nil_r.
  - destruct Hp as [Hp _]. repeat case_match; intros [= <-];
      (apply (inv_main _ s); [done | done | | by left]); try done; by split.
  - destruct Hp as [[Hgt Hl] _], Hok as [Hs He]. intros [= <-]. unfold publish_bump.
    destruct (bumpFees (sn_state s)).
    1: destruct (increaseGasPrice _ a tx) as [newTx|e|] eqn:Hn.
    all: apply (inv_main _ s); [done | done | | by left]; try done.
    + split; [done|]. by apply (bump_link (mg_cfg (sn_mgr s)) a).
    + split; [|done]. split; [done|]. intros t Ht. left. by rewrite (Hl t Ht).
    + split; [|done]. split; [done|]. intros t Ht. left. by rewrite (Hl t Ht).
  - destruct Hp as [[Hgt Hl] [Hlink Hgn]]. intros [= <-]. unfold publish_bumped.
    destruct (IsWaitingForConfirmation (sn_state s)); (apply (inv_main _ s); [done | done | | by left]).
    + by split.
    + split; [|done]. split; [done|]. intros t Ht. by rewrite (Hl t Ht).
  - intros [= <-]. by apply inv_sent.
  - case_match; intros [= <-]; (apply (inv_main _ s); [done | done | | by left]); [done|].
    by apply (pc_ok_idle _ _ Critical).
  - intros [= <-]. apply (inv_main _ s); [done | done | | by left]. by apply (pc_ok_idle _ _ Select).
  - case_match; [|done]. intros [= <-]. by apply (inv_main _ s); [..|left].
  - destruct (sn_chan s) as [r|] eqn:Hr; [|done]. intros [= <-].
    apply (inv_main _ s); [done | done | | by right]. split; [done|]. by apply (iv_chan _ _ Hi).
Qed.

Lemma inv_step cs s i s' (UL : Uint256Laws U) : inv cs s -> input_ok i -> step i s = Some s' ->
  inv (cs ++ call_of i s) s'.
Proof.
  intros Hi Hok. unfold step. destruct (is_main i) eqn:Hm.
  - by apply inv_step_main.
  - by apply inv_step_other.
Qed.

End Invariant.

Lemma inv_begin m tx0 now s0 : sendTx_begin m tx0 now = Ok s0 -> tx_ok tx0 ->
  inv tx0 (cf_NumConfirmations (mg_cfg m)) [] s0.
Proof.
  intros H Hok. apply rbind_Ok in H as (st & _ & H). case_match; [done|]. apply Ok_inj in H as <-.
  split; simpl; try done; by split.
Qed.

Lemma inv_run m tx0 now s0 ins s (UL : Uint256Laws U) :
  sendTx_begin m tx0 now = Ok s0 -> tx_ok tx0 -> Forall input_ok ins -> run ins s0 = Some s ->
  inv tx0 (cf_NumConfirmations (mg_cfg m)) (calls ins s0) s.
Proof.
  intros Hb Hok. revert s. induction ins as [|i ins IH] using rev_ind; intros s Hins Hrun.
  - simpl in Hrun. apply (inj Some) in Hrun as <-. by eapply inv_begin.
  - apply Forall_app in Hins as [Hins Hi]. apply run_snoc in Hrun as (t & Ht & Hs).
    rewrite (calls_snoc _ _ _ _ Ht). eapply inv_step; [done | by apply IH | by inversion Hi | done].
Qed.

(** C14: sending a transaction.  In every interleaving of the sending loop with
    its receipt pollers, whatever the backend answers and however the
    configuration changes: a receipt that [sendTx] returns was answered by the
    backend for a version of the transaction (same nonce, recipient, value,
    data and blobs), and after that a tip at the confirmation depth; and the
    transactions it publishes are all versions of it, each the previous one
    again or a replacement with the fees the pool demands. *)
Theorem sendTx_safe m tx0 now s0 ins s (UL : Uint256Laws U) :
  sendTx_begin m tx0 now = Ok s0 -> tx_ok tx0 -> Forall input_ok ins -> run ins s0 = Some s ->
  let cs := calls ins s0 in
  (forall r, sn_pc s = Done (Ok r) -> confirmed tx0 (cf_NumConfirmations (mg_cfg m)) cs r) /\
  adjacent link (sent cs) /\ Forall (same_job tx0) (sent cs).
Proof.
  intros Hb Hok Hins Hrun cs.
  destruct (inv_run _ _ _ _ _ _ UL Hb Hok Hins Hrun) as [_ _ [_ Hp] _ _ [Hadj Hall]].
  split; [|split; [done|]].
  - intros r Hr. by rewrite Hr in Hp.
  - eapply Forall_impl; [exact Hall|]. by intros tx [Hj _].
Qed.

(** The sending loop gives up (returns an error) only when the manager is
    closed or the publication state is critical, both with no transaction of
    it mined, or when its context is done; so it never abandons a transaction
    that was last seen mined while its context lives. *)
Theorem sendTx_gives_up i s s' e : step i s = Some s' -> sn_pc s' = Done (Err e) -> sn_pc s <> sn_pc s' ->
  (IsWaitingForConfirmation (sn_state s) = false /\
     ((e = ErrClosed /\ mg_closed (sn_mgr s) = true) \/
      exists now c, CriticalError now (sn_state s) = Some c /\
        e = Wrap "aborted tx send due to critical error" c)) \/
  sn_ctxDone s = true.
Proof.
  unfold step. destruct (is_main i) eqn:Hm.
  - unfold step_main. destruct (sn_pc s) eqn:Hpc, i; try done.
    + destruct (IsWaitingForConfirmation (sn_state s)); simpl; [naive_solver|].
      destruct (mg_closed (sn_mgr s)); intros [= <-]; simpl; [|done]. intros [= <-] _. left. auto.
    + intros [= <-]. unfold publish_bump. repeat case_match; simpl; try done; naive_solver.
    + intros [= <-]. unfold publish_bumped. repeat case_match; simpl; done.
    + intros [= <-]. destruct (publish_sent_cases (mg_cfg (sn_mgr s)) tx err (sn_state s)) as (st & [->|[b ->]]); done.
    + destruct (CriticalError now (sn_state s)) as [c|] eqn:Hc; intros [= <-]; simpl; [|done].
      intros [= <-] _. left. split; [|eauto]. unfold CriticalError in Hc.
      by destruct (IsWaitingForConfirmation (sn_state s)).
    + naive_solver.
    + destruct (sn_ctxDone s); [auto|done].
    + destruct (sn_chan s); naive_solver.
  - intros Hs He Hn. exfalso. apply Hn. clear He Hn. unfold step_other in Hs.
    repeat case_match; by simplify_eq/=.
Qed.

(** ** [publishTx] ends *)

Definition publishing (p : PC) : bool :=
  match p with Publish _ | Bumped _ _ | Sending _ => true | _ => false end.

(** The run never leaves [publishTx]. *)
Fixpoint stays (ins : list Input) (s : SendTx) : Prop :=
  publishing (sn_pc s) = true /\
  match ins with
  | [] => True
  | i :: ins => exists s', step i s = Some s' /\ stays ins s'
  end.

Definition changes_config (i : Input) : bool := match i with IConfig _ => true | _ => false end.

(** The signer never fails. *)
Definition never_fails (i : Input) : Prop :=
  match i with IBump a => forall tx e, an_Signer a tx <> Err e | _ => True end.

(** The largest fee cap the limits allow, when the suggested prices are capped
    too. *)
Definition fee_limit (cfg : TxConfig) (maxTip maxBaseFee : Z) : Z :=
  Z.max (default 0 (cf_FeeLimitThreshold cfg)) (max_fee cfg maxTip maxBaseFee).

Section Termination.
Context (cfg : TxConfig) (maxTip maxBaseFee : Z).
Context (Htip : cf_MaxTipCap cfg = Some maxTip) (Hbase : cf_MaxBaseFee cfg = Some maxBaseFee).
Context (Hmult : 0 <= int_of (cf_FeeLimitMultiplier cfg)).

Definition room (tx : Tx) : Z := Z.max 0 (fee_limit cfg maxTip maxBaseFee - tx_GasFeeCap tx).

(** What remains to do in [publishTx]. *)
Definition rank (bump : bool) (p : PC) : Z :=
  match p with
  | Publish tx => 4 * room tx + if bump then 2 else 4
  | Bumped _ newTx => 4 * room newTx + 4
  | Sending tx => if bump then 1 else 4 * room tx + 3
  | _ => 0
  end.

Definition paying (p : PC) : Prop :=
  match p with
  | Publish tx | Sending tx => tx_ok tx /\ 1 <= tx_GasFeeCap tx
  | Bumped _ newTx => tx_ok newTx /\ 1 <= tx_GasFeeCap newTx
  | _ => True
  end.

(** A fee cap under the limits is at most [fee_limit]. *)
Lemma within_fee_limit p tx : within_limits cfg p tx ->
  gp_tip p <= maxTip -> gp_baseFee p <= maxBaseFee ->
  tx_GasFeeCap tx <= fee_limit cfg maxTip maxBaseFee.
Proof.
  intros [_ [H|(t & Ht & H)]] H1 H2; unfold fee_limit; [|rewrite Ht; simpl; lia].
  etrans; [exact H|]. unfold max_fee, max_tip, calcGasFeeCap. nia.
Qed.

(** Each bump takes room. *)
Lemma bump_rank a tx newTx (UL : Uint256Laws U) : signs (an_Signer a) -> estimate_ok (an_estimate a) ->
  (forall m e, an_Signer a m <> Err e) -> tx_ok tx -> 1 <= tx_GasFeeCap tx ->
  increaseGasPrice cfg a tx = Ok newTx ->
  tx_ok newTx /\ 1 <= tx_GasFeeCap newTx /\ room newTx + 1 <= room tx.
Proof.
  intros Hs He Hf Hok H1 H.
  apply increaseGasPrice_Ok in H as [[_ (m & e & Hm)]|(p & Hp & [_ [_ Hfee _ _] Hok' Hlim])]; [by apply Hf in Hm| |done..].
  split; [done|]. apply SuggestGasPriceCaps_Ok in Hp as (p0 & _ & _ & _ & _ & Ht & Hb).
  rewrite Htip in Ht. rewrite Hbase in Hb. simpl in Ht, Hb.
  pose proof (within_fee_limit p newTx Hlim ltac:(lia) ltac:(lia)). unfold room, bump_percent in *.
  destruct (is_blob tx); lia.
Qed.

(** The other goroutines do not touch what [publishTx] looks at. *)
Lemma step_other_keeps i s s' : step_other i s = Some s' -> changes_config i = false ->
  mg_cfg (sn_mgr s') = mg_cfg (sn_mgr s) /\ sn_pc s' = sn_pc s /\
  bumpFees (sn_state s') = bumpFees (sn_state s).
Proof.
  unfold step_other, query_receipt. intros Hs Hc. repeat case_match; by simplify_eq/=.
Qed.

Lemma rank_main i s s' (UL : Uint256Laws U) : mg_cfg (sn_mgr s) = cfg -> paying (sn_pc s) ->
  input_ok i -> never_fails i ->
  publishing (sn_pc s) = true -> publishing (sn_pc s') = true -> step_main i s = Some s' ->
  mg_cfg (sn_mgr s') = cfg /\ paying (sn_pc s') /\
  rank (bumpFees (sn_state s')) (sn_pc s') + 1 <= rank (bumpFees (sn_state s)) (sn_pc s).
Proof.
  intros Hcfg Hpay Hok Hnf Hp Hp'. unfold step_main. cbv zeta. rewrite Hcfg.
  destruct (sn_pc s) as [|tx|tx newTx|tx| | |r] eqn:Hpc, i; try done; intros [= <-].
  - destruct Hpay as [Htx H1], Hok as [Hs He]. revert Hp'. unfold publish_bump.
    destruct (bumpFees (sn_state s)) eqn:Hb; simpl.
    2: { rewrite ?Hb. intros _. split; [done|]. split; [done|lia]. }
    destruct (increaseGasPrice cfg a tx) as [newTx|e|] eqn:Hn; simpl; [| |done]; rewrite ?Hb; intros _.
    + destruct (bump_rank a tx newTx UL Hs He Hnf Htx H1 Hn) as (Hok' & H1' & Hr).
      split; [done|]. split; [done|lia].
    + split; [done|]. split; [done|]. unfold room. lia.
  - revert Hp'. unfold publish_bumped. destruct (IsWaitingForConfirmation _); simpl; [done|].
    intros _. split; [done|]. split; [done|lia].
  - revert Hp'. unfold publish_sent.
    assert (Hkeep : bumpFees (ProcessSendError err (sn_state s)) = bumpFees (sn_state s)).
    { unfold ProcessSendError. by repeat case_match. }
    set (st := ProcessSendError err (sn_state s)) in *. unfold retry_with_bump. rewrite Hkeep.
    destruct (bumpFees (sn_state s)); repeat case_match; simpl; try done; intros _;
      (split; [done|]); (split; [done|lia]).
Qed.

Lemma rank_step i s s' (UL : Uint256Laws U) : mg_cfg (sn_mgr s) = cfg -> paying (sn_pc s) ->
  input_ok i -> never_fails i -> changes_config i = false ->
  publishing (sn_pc s) = true -> publishing (sn_pc s') = true -> step i s = Some s' ->
  mg_cfg (sn_mgr s') = cfg /\ paying (sn_pc s') /\
  rank (bumpFees (sn_state s')) (sn_pc s') + (if is_main i then 1 else 0) <=
  rank (bumpFees (sn_state s)) (sn_pc s).
Proof.
  intros Hcfg Hpay Hok Hnf Hcc Hp Hp' Hs. unfold step in Hs. destruct (is_main i) eqn:Hm.
  - by eapply rank_main.
  - destruct (step_other_keeps _ _ _ Hs Hcc) as (H1 & H2 & H3). rewrite H1, H2, H3.
    split; [done|]. split; [done|lia].
Qed.

Lemma rank_nonneg bump p : 0 <= rank bump p.
Proof. unfold rank, room. destruct p; repeat case_match; lia. Qed.

Lemma stays_bound ins s (UL : Uint256Laws U) : mg_cfg (sn_mgr s) = cfg -> paying (sn_pc s) ->
  Forall (fun i => input_ok i /\ never_fails i /\ changes_config i = false) ins -> stays ins s ->
  Z.of_nat (count is_main ins) <= rank (bumpFees (sn_state s)) (sn_pc s).
Proof.
  revert s. induction ins as [|i ins IH]; intros s Hcfg Hpay Hins [Hp Hst].
  - unfold count. simpl. apply rank_nonneg.
  - apply Forall_cons in Hins as [(Hok & Hnf & Hcc) Hins]. destruct Hst as (s' & Hs & Hst).
    assert (Hp' : publishing (sn_pc s') = true) by (by destruct ins, Hst).
    destruct (rank_step i s s' UL Hcfg Hpay Hok Hnf Hcc Hp Hp' Hs) as (Hcfg' & Hpay' & Hr).
    specialize (IH s' Hcfg' Hpay' Hins Hst). unfold count in *. simpl.
    destruct (is_main i); simpl; lia.
Qed.

End Termination.

(** C40: [publishTx] ends.  It retries at once, with higher fees, as long as the
    pool answers that the transaction is underpriced; but with a signer that
    works and caps on the suggested prices, a transaction that pays at least 1
    reaches the fee limits: whatever the pool and the other goroutines do, the
    main goroutine takes at most [4 * room + 4] steps before it leaves
    [publishTx], where [room] is what the fee cap is short of the limit. *)
Theorem publish_terminates cfg maxTip maxBaseFee ins s tx (UL : Uint256Laws U) :
  cf_MaxTipCap cfg = Some maxTip -> cf_MaxBaseFee cfg = Some maxBaseFee ->
  0 <= int_of (cf_FeeLimitMultiplier cfg) ->
  mg_cfg (sn_mgr s) = cfg -> sn_pc s = Publish tx -> tx_ok tx -> 1 <= tx_GasFeeCap tx ->
  Forall (fun i => input_ok i /\ never_fails i /\ changes_config i = false) ins ->
  stays ins s ->
  Z.of_nat (count is_main ins) <= 4 * room cfg maxTip maxBaseFee tx + 4.
Proof.
  intros Ht Hb Hm Hcfg Hpc Hok H1 Hins Hst.
  assert (Hpay : paying (sn_pc s)) by (by rewrite Hpc).
  pose proof (stays_bound cfg maxTip maxBaseFee Ht Hb Hm ins s UL Hcfg Hpay Hins Hst) as H.
  rewrite Hpc in H. simpl in H. destruct (bumpFees _); lia.
Qed.

End Machine.

(** ** Concrete runs *)

Module Examples.

#[export] Instance pool : PoolErrors := gethErrors.
#[export] Instance wide : Uint256 := fun z => (z mod 2 ^ 256, 2 ^ 256 <=? z).
#[export] Instance wide_laws : Uint256Laws wide.
Proof.
  split; unfold FromBig, wide.
  - intros x Hx. rewrite Z.mod_small by done. f_equal. apply Z.leb_gt. lia.
  - intros x Hx. simpl. by apply Z.leb_le.
Qed.
#[export] Instance kzg : Kzg := {|
  BlobToCommitment := fun b => Ok (len b);
  ComputeBlobProof := fun b c => Ok (len b + c);
  KZGToVersionedHash := fun c => c + 1;
|}.
#[export] Instance hasher : TxHasher := fun tx => tx_GasFeeCap tx.

Definition cfg : TxConfig := {|
  cf_Backend := true; cf_ResubmissionTimeout := 48; cf_FeeLimitMultiplier := 5;
  cf_FeeLimitThreshold := Some 100; cf_MinBaseFee := None; cf_MaxBaseFee := Some 1000;
  cf_MinTipCap := None; cf_MaxTipCap := Some 50; cf_MinBlobTxFee := Some 1; cf_ChainID := Some 1;
  cf_TxSendTimeout := 0; cf_TxNotInMempoolTimeout := 120; cf_NetworkTimeout := 10;
  cf_ReceiptQueryInterval := 12; cf_NumConfirmations := 10; cf_SafeAbortNonceTooLowCount := 3;
  cf_Signer := true; cf_From := 7; cf_AlreadyPublishedCustomErrs := [] |}.

Definition mgr : SimpleTxManager :=
  {| mg_cfg := cfg; mg_chainID := 1; mg_nonce := None; mg_pending := 0; mg_closed := false |}.

Definition tx : Tx :=
  {| tx_ChainId := 1; tx_Nonce := 4; tx_To := Some 9; tx_GasTipCap := 10; tx_GasFeeCap := 30;
     tx_Value := 0; tx_Data := [1; 2]; tx_Gas := 21000; tx_Blob := None; tx_Sig := Some 5 |}.

Lemma tx_is_ok : tx_ok tx.
Proof. by split. Qed.

Definition answers (sign : Tx -> result Tx) : Answers := {|
  an_estimate := Ok {| gp_tip := 10; gp_baseFee := 10; gp_blobFee := None |};
  an_EstimateGas := fun _ => Ok 21000;
  an_CallContract := fun _ => Ok [];
  an_NonceAt := Ok 4;
  an_Signer := sign |}.

Definition signer (tx : Tx) : result Tx := Ok (set_sig tx (Some 6)).
Definition broken (tx : Tx) : result Tx := Err (Msg "no key").

Lemma answers_ok sign : signs sign -> input_ok (IBump (answers sign)).
Proof. intros H. split; [done|]. intros p Hp. apply Ok_inj in Hp as <-. simpl. lia. Qed.

Lemma signer_signs : signs signer.
Proof. intros t s Hs. apply Ok_inj in Hs as <-. by eexists. Qed.

(** Underpriced, bumped, published; mined in block 100, confirmed at tip 109. *)
Definition receipt : Receipt := {| rc_TxHash := 33; rc_BlockNumber := 100 |}.
Definition tip : TxHeader := {| hd_Number := 109; hd_BaseFee := Some 10; hd_BlobFee := None |}.

Definition bump_run : list Input :=
  [IBump (answers signer); ISend (Some "transaction underpriced"%string); IBump (answers signer); IStep].

Definition full_run : list Input :=
  [IStep] ++ bump_run ++
  [ISend None; IStart; ICritical 20; IReceipt 0 (Ok (Some receipt)); ITip 0 (Ok tip); IReceive].

Lemma full_run_ok : Forall input_ok full_run.
Proof.
  repeat (apply Forall_cons_2; [first [exact I | apply (answers_ok signer signer_signs)] |]).
  apply Forall_nil_2.
Qed.

Definition started : SendTx :=
  {| sn_mgr := mgr; sn_tx := tx;
     sn_state := {| minedTxs := ∅; nonceTooLowCount := 0; txInMempoolDeadline := 120;
                    successFullPublishCount := 0; safeAbortNonceTooLowCount := 3;
                    alreadyReserved := false; bumpFees := false; bumpCount := 0 |};
     sn_spawned := 0; sn_waiters := []; sn_chan := None; sn_ctxDone := false; sn_pc := Top |}.

Definition finished : SendTx := default started (run full_run started).

Lemma sendTx_safe_witness : sendTx_begin mgr tx 0 = Ok started /\
  run full_run started = Some finished /\ sn_pc finished = Done (Ok receipt) /\
  confirmed tx 10 (calls full_run started) receipt.
Proof.
  assert (Hrun : run full_run started = Some finished) by (vm_compute; reflexivity).
  assert (Hdone : sn_pc finished = Done (Ok receipt)) by (vm_compute; reflexivity).
  split; [reflexivity|]. split; [exact Hrun|]. split; [exact Hdone|].
  exact (proj1 (sendTx_safe mgr tx 0 started full_run finished wide_laws eq_refl tx_is_ok full_run_ok Hrun) receipt Hdone).
Defined.

Lemma sendTx_gives_up_witness :
  let s := sn_with started (with_counts (sn_state started) ∅ 3 0 false) Critical in
  exists s', step (ICritical 5) s = Some s' /\ IsWaitingForConfirmation (sn_state s) = false.
Proof.
  intros s. eexists. split; [reflexivity|].
  edestruct (sendTx_gives_up (ICritical 5) s) as [[H _]|H]; [reflexivity | reflexivity | done | exact H | done].
Defined.

Lemma publish_terminates_witness :
  let s := sn_with started (sn_state started) (Publish tx) in
  stays bump_run s /\ 4 <= 4 * room cfg 50 1000 tx + 4.
Proof.
  intros s. assert (Hst : stays bump_run s).
  { repeat (split; [reflexivity|]; eexists; split; [reflexivity|]). by split. }
  split; [exact Hst|].
  apply (publish_terminates cfg 50 1000 bump_run s tx wide_laws eq_refl eq_refl ltac:(done) eq_refl eq_refl tx_is_ok ltac:(done)); [|exact Hst].
  repeat (apply Forall_cons_2; [split; [first [exact I | apply (answers_ok signer signer_signs)] | done] |]).
  apply Forall_nil_2.
Defined.

(** A signer that fails makes [increaseGasPrice] return the old transaction
    without an error; while the pool calls it underpriced [publishTx] goes
    round for ever with the same transaction. *)
Definition spin_round : list Input :=
  [IBump (answers broken); IStep; ISend (Some "transaction underpriced"%string)].

Definition spinning (n : Z) : SendTx :=
  sn_with started (with_bump (sn_state started) true n) (Publish tx).

Lemma stays_app ins ins' s s' : stays ins s -> run ins s = Some s' -> stays ins' s' -> stays (ins ++ ins') s.
Proof.
  revert s. induction ins as [|i ins IH]; intros s Hst Hrun Hst'; simpl in *.
  - by simplify_eq.
  - destruct Hst as [Hp (t & Ht & Hst)]. split; [done|]. exists t. split; [done|].
    rewrite Ht in Hrun. by apply IH.
Qed.

Lemma spins_for_ever n k : stays (concat (replicate n spin_round)) (spinning k).
Proof.
  revert k. induction n as [|n IH]; intros k; [by split|]. simpl concat.
  apply (stays_app spin_round _ _ (spinning (k + 1))); [|reflexivity|apply IH].
  repeat (split; [reflexivity|]; eexists; split; [reflexivity|]). by split.
Qed.

(** The goroutines of two publications, when both run only after the second:
    both poll for the second version, none for the first. *)
Definition late_run : list Input :=
  [IStep; IBump (answers signer); ISend None; ICritical 20; ITick;
   IStep; IBump (answers signer); IStep; ISend None; IStart; IStart].

Lemma late_goroutine_polls_replacement :
  exists s tx', run late_run started = Some s /\ sent (calls late_run started) = [tx; tx'] /\
    sn_waiters s = [Polling tx'; Polling tx'] /\ tx_GasFeeCap tx' <> tx_GasFeeCap tx.
Proof. do 2 eexists. split; [vm_compute; reflexivity|]. repeat split; by vm_compute. Qed.

End Examples.
