(* ===== verification/EntryDB.v ===== *)
(** The entry database of the supervisor,
    [src/rhs-supervisor/supervisor/backend/db/entrydb]: fixed-size entries in
    an append-only file, with the roll-back of failed writes, and the
    interface [EntryStore] it implements for the databases on top of it. *)

From S2P Require Import Prelude.

(** ** The interface *)

(** [EntryStore]: an entry is an array of bytes; an operation that fails
    answers an error. *)
Class EntryStore (S : Type) : Type := {
  st_Size : S -> Z;
  st_LastEntryIdx : S -> Z;
  st_Read : S -> Z -> result bytes;
  st_Append : S -> list bytes -> S * result unit;
  st_Truncate : S -> Z -> S * result unit;
}.

(** What a store promises: it is a list of entries, in states that satisfy
    [st_ok]; what fails changes nothing; reading may fail, but never answers
    a wrong entry. *)
Class EntryStoreLaws (S : Type) (sz : nat) {ES : EntryStore S} : Type := {
  st_ok : S -> Prop;
  st_view : S -> list bytes;
  st_Size_spec : forall s, st_ok s -> st_Size s = Z.of_nat (length (st_view s));
  st_Last_spec : forall s, st_ok s -> st_LastEntryIdx s = Z.of_nat (length (st_view s)) - 1;
  st_Read_Ok : forall s i e, st_ok s -> 0 <= i -> st_Read s i = Ok e ->
    st_view s !! Z.to_nat i = Some e;
  st_Read_end : forall s i, st_ok s -> Z.of_nat (length (st_view s)) <= i -> st_Read s i = Err EOF;
  st_Read_total : forall s i, st_ok s -> 0 <= i -> st_Read s i <> Panic;
  st_Append_spec : forall s es, st_ok s -> Forall (fun e => length e = sz) es ->
    st_ok (st_Append s es).1 /\
    match (st_Append s es).2 with
    | Ok _ => st_view (st_Append s es).1 = st_view s ++ es
    | Err _ => st_view (st_Append s es).1 = st_view s
    | Panic => False
    end;
  st_Truncate_spec : forall s i, st_ok s -> -1 <= i < Z.of_nat (length (st_view s)) ->
    st_ok (st_Truncate s i).1 /\
    match (st_Truncate s i).2 with
    | Ok _ => st_view (st_Truncate s i).1 = take (Z.to_nat (i + 1)) (st_view s)
    | Err _ => st_view (st_Truncate s i).1 = st_view s
    | Panic => False
    end;
}.

(** ** Files *)

(** [dataAccess]: reading [n] bytes at an offset, writing at the end (the
    file is opened with O_APPEND), which returns the number of bytes written
    and an error, and truncating. *)
Class DataAccess (F : Type) : Type := {
  f_content : F -> bytes;
  f_ReadAt : F -> nat -> Z -> result bytes;
  f_Write : F -> bytes -> F * (nat * option error);
  f_Truncate : F -> Z -> F * option error;
}.

(** The documented behaviour of a file: a read answers the bytes or an error;
    a failed write may have written a part; a failed truncation changes
    nothing. *)
Class DataAccessLaws (F : Type) {D : DataAccess F} : Prop := {
  f_ReadAt_Ok : forall f n off b, f_ReadAt f n off = Ok b -> 0 <= off ->
    (Z.to_nat off + n <= length (f_content f))%nat -> b = take n (drop (Z.to_nat off) (f_content f));
  f_ReadAt_total : forall f n off, f_ReadAt f n off <> Panic;
  f_Write_spec : forall f b, let '(f', (n, err)) := f_Write f b in
    (n <= length b)%nat /\ f_content f' = f_content f ++ take n b /\ (err = None -> n = length b);
  f_Truncate_spec : forall f size, 0 <= size <= Z.of_nat (length (f_content f)) ->
    let '(f', err) := f_Truncate f size in
    f_content f' = match err with None => take (Z.to_nat size) (f_content f) | Some _ => f_content f end;
}.

(** ** The database *)

Section EntryDB.
Context {F : Type} {D : DataAccess F} (sz : nat).

Record EntryDB : Type := {
  db_data : F;
  db_lastEntryIdx : Z;
  db_cleanupFailedWrite : bool;
}.

Definition db_Size (e : EntryDB) : Z := db_lastEntryIdx e + 1.
Definition db_LastEntryIdx (e : EntryDB) : Z := db_lastEntryIdx e.

Definition db_Read (e : EntryDB) (idx : Z) : result bytes :=
  if db_lastEntryIdx e <? idx then Err EOF
  else map_err (Wrap "failed to read entry") (f_ReadAt (db_data e) sz (idx * Z.of_nat sz)).

Definition db_Truncate (e : EntryDB) (idx : Z) : EntryDB * result unit :=
  match f_Truncate (db_data e) ((idx + 1) * Z.of_nat sz) with
  | (f, Some err) =>
      ({| db_data := f; db_lastEntryIdx := db_lastEntryIdx e; db_cleanupFailedWrite := db_cleanupFailedWrite e |},
       Err (Wrap "failed to truncate to entry" err))
  | (f, None) => ({| db_data := f; db_lastEntryIdx := idx; db_cleanupFailedWrite := false |}, Ok tt)
  end.

(** [Append] from the write on. *)
Definition append_write (e : EntryDB) (entries : list bytes) : EntryDB * result unit :=
  match f_Write (db_data e) (concat entries) with
  | (f, (n, Some err)) =>
      let e := {| db_data := f; db_lastEntryIdx := db_lastEntryIdx e; db_cleanupFailedWrite := db_cleanupFailedWrite e |} in
      if (n =? 0)%nat then (e, Err err)
      else
        match db_Truncate e (db_lastEntryIdx e) with
        | (e, Err truncateErr) =>
            ({| db_data := db_data e; db_lastEntryIdx := db_lastEntryIdx e; db_cleanupFailedWrite := true |}, Err err)
        | (e, _) => (e, Err err)
        end
  | (f, (_, None)) =>
      ({| db_data := f; db_lastEntryIdx := db_lastEntryIdx e + Z.of_nat (length entries);
          db_cleanupFailedWrite := db_cleanupFailedWrite e |}, Ok tt)
  end.

Definition db_Append (e : EntryDB) (entries : list bytes) : EntryDB * result unit :=
  if db_cleanupFailedWrite e then
    match db_Truncate e (db_lastEntryIdx e) with
    | (e, Ok _) => append_write e entries
    | (e, r) => (e, map_err (Wrap "failed to recover from previous write error") r)
    end
  else append_write e entries.

(** Opening a file: a trailing partial entry is cut off. *)
Definition recover (e : EntryDB) : EntryDB * result unit :=
  match f_Truncate (db_data e) (db_Size e * Z.of_nat sz) with
  | (f, Some err) =>
      ({| db_data := f; db_lastEntryIdx := db_lastEntryIdx e; db_cleanupFailedWrite := db_cleanupFailedWrite e |},
       Err (Wrap "failed to truncate trailing partial entries" err))
  | (f, None) =>
      ({| db_data := f; db_lastEntryIdx := db_lastEntryIdx e; db_cleanupFailedWrite := db_cleanupFailedWrite e |}, Ok tt)
  end.

Definition NewEntryDB (file : F) : result EntryDB :=
  let fileSize := Z.of_nat (length (f_content file)) in
  let size := fileSize / Z.of_nat sz in
  let db := {| db_data := file; db_lastEntryIdx := size - 1; db_cleanupFailedWrite := false |} in
  if negb (size * Z.of_nat sz =? fileSize) then
    let '(db, r) := recover db in
    let* _ := map_err (Wrap "failed to recover database") r in Ok db
  else Ok db.

#[export] Instance EntryDB_store : EntryStore EntryDB := {|
  st_Size := db_Size; st_LastEntryIdx := db_LastEntryIdx; st_Read := db_Read;
  st_Append := db_Append; st_Truncate := db_Truncate |}.

End EntryDB.
Arguments EntryDB F : clear implicits.

(** ** The in-memory store

    [MemEntryStore]: a slice.  Slicing out of range panics. *)
Module Mem.
Definition Size (s : list bytes) : Z := Z.of_nat (length s).
Definition mem_Truncate (s : list bytes) (idx : Z) : result (list bytes) :=
  let n := Z.min (Size s - 1) (idx + 1) in
  if n <? 0 then Panic else Ok (take (Z.to_nat n) s).
Definition mem_Append (s : list bytes) (entries : list bytes) : list bytes := s ++ entries.
Definition mem_Read (s : list bytes) (idx : Z) : result bytes :=
  if idx <? Size s then
    if idx <? 0 then Panic else match s !! Z.to_nat idx with Some e => Ok e | None => Panic end
  else Err EOF.

(** Truncating to the last entry drops it, and truncating an empty store
    panics, unlike the file. *)
Lemma mem_Truncate_last s : s <> [] ->
  mem_Truncate s (Size s - 1) = Ok (take (length s - 1) s).
Proof.
  intros Hs. unfold mem_Truncate, Size. destruct s as [|x s]; [done|]. simpl length.
  destruct (Z.ltb_spec (Z.min (Z.of_nat (S (length s)) - 1) (Z.of_nat (S (length s)) - 1 + 1)) 0); [lia|].
  do 2 f_equal. lia.
Qed.

Lemma mem_Truncate_empty idx : mem_Truncate [] idx = Panic.
Proof.
  unfold mem_Truncate. cbv zeta. destruct (Z.ltb_spec (Z.min (Size [] - 1) (idx + 1)) 0); [done|].
  unfold Size in *. simpl in *. lia.
Qed.
End Mem.

(** ** The database is a store *)

Local Open Scope nat_scope.

(** The first [n] entries of a file. *)
Fixpoint entries_of (sz n : nat) (c : bytes) : list bytes :=
  match n with
  | O => []
  | S n => take sz c :: entries_of sz n (drop sz c)
  end.

Lemma length_entries_of sz n c : length (entries_of sz n c) = n.
Proof. revert c. induction n as [|n IH]; intros c; simpl; [done|]. by rewrite IH. Qed.

Lemma entries_of_lookup sz n c i : i < n ->
  entries_of sz n c !! i = Some (take sz (drop (i * sz) c)).
Proof.
  revert c i. induction n as [|n IH]; intros c [|i] Hi; simpl; try lia; [done|].
  rewrite IH by lia. by rewrite drop_drop.
Qed.

Lemma entries_of_app sz n c d : n * sz <= length c -> entries_of sz n (c ++ d) = entries_of sz n c.
Proof.
  revert c. induction n as [|n IH]; intros c Hc; simpl in *; [done|].
  rewrite take_app_le, drop_app_le by lia. f_equal. apply IH. rewrite length_drop. lia.
Qed.

Lemma entries_of_concat sz n c es : length c = n * sz -> Forall (fun e => length e = sz) es ->
  entries_of sz (n + length es) (c ++ concat es) = entries_of sz n c ++ es.
Proof.
  revert c. induction n as [|n IH]; intros c Hc Hes; simpl in *.
  - apply nil_length_inv in Hc as ->. simpl. induction Hes as [|e es He _ IH]; simpl; [done|].
    by rewrite take_app_length', drop_app_length', IH.
  - rewrite take_app_le, drop_app_le by lia. f_equal. apply IH; [|done]. rewrite length_drop. lia.
Qed.

Lemma entries_of_take sz k n c : k <= n ->
  entries_of sz k (take (k * sz) c) = take k (entries_of sz n c).
Proof.
  revert n c. induction k as [|k IH]; intros n c Hk; [done|].
  destruct n as [|n]; [lia|]. simpl. rewrite take_take. f_equal; [f_equal; lia|].
  rewrite skipn_firstn_comm. replace (sz + k * sz - sz) with (k * sz) by lia. apply IH. lia.
Qed.

Lemma length_concat_sz sz (es : list bytes) : Forall (fun e => length e = sz) es ->
  length (concat es) = length es * sz.
Proof. induction 1 as [|e es He _ IH]; simpl; [done|]. rewrite length_app. lia. Qed.

Section EntryDBFacts.
Context {F : Type} {D : DataAccess F} {DL : DataAccessLaws F} (sz : nat) (Hsz : 0 < sz).

Definition db_count (e : EntryDB F) : nat := Z.to_nat (db_Size e).

(** The file holds the entries, and nothing more unless a roll-back is due. *)
Record db_ok (e : EntryDB F) : Prop := {
  ok_last : (-1 <= db_lastEntryIdx e)%Z;
  ok_room : db_count e * sz <= length (f_content (db_data e));
  ok_clean : db_cleanupFailedWrite e = false -> length (f_content (db_data e)) = db_count e * sz;
}.

Definition db_view (e : EntryDB F) : list bytes := entries_of sz (db_count e) (f_content (db_data e)).

Lemma length_db_view e : length (db_view e) = db_count e.
Proof. apply length_entries_of. Qed.

(** A truncation needs no clean file. *)
Lemma db_Truncate_cases e i : (-1 <= db_lastEntryIdx e)%Z ->
  db_count e * sz <= length (f_content (db_data e)) -> (-1 <= i < Z.of_nat (db_count e))%Z ->
  (exists x, db_Truncate sz e i = (x, Ok tt) /\ db_ok x /\ db_cleanupFailedWrite x = false /\
     db_view x = take (Z.to_nat (i + 1)) (db_view e)) \/
  (exists f err, f_content f = f_content (db_data e) /\
     db_Truncate sz e i =
       ({| db_data := f; db_lastEntryIdx := db_lastEntryIdx e; db_cleanupFailedWrite := db_cleanupFailedWrite e |}, Err err)).
Proof.
  intros Hl Hr Hi. unfold db_Truncate.
  assert (Hbound : (0 <= (i + 1) * Z.of_nat sz <= Z.of_nat (length (f_content (db_data e))))%Z) by nia.
  pose proof (f_Truncate_spec (db_data e) _ Hbound) as Hf.
  destruct (f_Truncate (db_data e) ((i + 1) * Z.of_nat sz)) as [f [err|]]; simpl.
  { right. eauto. }
  left. eexists. split; [done|].
  assert (Hn : Z.to_nat ((i + 1) * Z.of_nat sz) = Z.to_nat (i + 1) * sz) by nia.
  rewrite Hn in Hf.
  assert (Hlen : length (f_content f) = Z.to_nat (i + 1) * sz).
  { rewrite Hf, length_take. unfold db_count, db_Size in *. nia. }
  split; [|split; [done|]].
  - split; unfold db_count, db_Size; simpl; [lia | lia | done].
  - unfold db_view, db_count at 1, db_Size at 1. simpl. rewrite Hf. apply entries_of_take. lia.
Qed.

(** The same file content under the same index. *)
Lemma db_view_same f e b : f_content f = f_content (db_data e) ->
  db_view {| db_data := f; db_lastEntryIdx := db_lastEntryIdx e; db_cleanupFailedWrite := b |} = db_view e.
Proof. intros H. unfold db_view, db_count, db_Size. simpl. by rewrite H. Qed.

Lemma append_write_ok e es : db_ok e -> db_cleanupFailedWrite e = false ->
  Forall (fun e => length e = sz) es ->
  db_ok (append_write sz e es).1 /\
  match (append_write sz e es).2 with
  | Ok _ => db_view (append_write sz e es).1 = db_view e ++ es
  | Err _ => db_view (append_write sz e es).1 = db_view e
  | Panic => False
  end.
Proof.
  intros [Hl Hr Hc] Hclean Hes. specialize (Hc Hclean). unfold append_write.
  pose proof (f_Write_spec (db_data e) (concat es)) as Hw.
  destruct (f_Write (db_data e) (concat es)) as [f [n [err|]]]; destruct Hw as (Hn & Hf & Hok).
  - set (e1 := {| db_data := f; db_lastEntryIdx := db_lastEntryIdx e; db_cleanupFailedWrite := _ |}).
    assert (Hcount : db_count e1 = db_count e) by done.
    assert (Hlen : db_count e1 * sz <= length (f_content f)) by (rewrite Hf, length_app; lia).
    assert (Hv1 : db_view e1 = db_view e).
    { unfold db_view. rewrite Hcount. simpl. rewrite Hf. by apply entries_of_app. }
    destruct (Nat.eqb_spec n 0) as [->|Hn0]; simpl.
    { split; [|done]. rewrite take_0, app_nil_r in Hf. split; [done | done |]. intros _. by rewrite Hcount; simpl; rewrite Hf. }
    assert (Hi : (-1 <= db_lastEntryIdx e1 < Z.of_nat (db_count e1))%Z).
    { rewrite Hcount. unfold db_count, db_Size. simpl. lia. }
    destruct (db_Truncate_cases e1 (db_lastEntryIdx e1) Hl Hlen Hi) as [(x & Ht & Hx & _ & Hv)|(f' & err' & Hf' & Ht)];
      change (db_lastEntryIdx e) with (db_lastEntryIdx e1); rewrite Ht; simpl.
    + split; [done|]. rewrite Hv, Hv1. apply take_ge. rewrite length_db_view.
      change (db_lastEntryIdx e1) with (db_lastEntryIdx e). unfold db_count, db_Size. lia.
    + split; [by split; simpl; rewrite ?Hf'|]. rewrite <- Hv1. by apply (db_view_same f' e1).
  - specialize (Hok eq_refl). subst n. rewrite take_ge in Hf by lia. simpl.
    pose proof (length_concat_sz sz es Hes) as Hlen.
    assert (Hn' : Z.to_nat (db_lastEntryIdx e + Z.of_nat (length es) + 1) = db_count e + length es).
    { unfold db_count, db_Size. lia. }
    split.
    + split; unfold db_count, db_Size; simpl; rewrite ?Hn'; [lia | |intros _]; rewrite Hf, length_app; lia.
    + unfold db_view at 1, db_count at 1, db_Size at 1. simpl. rewrite Hn', Hf. by apply entries_of_concat.
Qed.

(** A failed [Append] changes nothing, whatever part of it was written and
    whether or not the roll-back succeeded. *)
Lemma db_Append_ok e es : db_ok e -> Forall (fun e => length e = sz) es ->
  db_ok (db_Append sz e es).1 /\
  match (db_Append sz e es).2 with
  | Ok _ => db_view (db_Append sz e es).1 = db_view e ++ es
  | Err _ => db_view (db_Append sz e es).1 = db_view e
  | Panic => False
  end.
Proof.
  intros Hok Hes. unfold db_Append. destruct (db_cleanupFailedWrite e) eqn:Hclean; [|by apply append_write_ok].
  pose proof Hok as [Hl Hr _].
  assert (Hi : (-1 <= db_lastEntryIdx e < Z.of_nat (db_count e))%Z) by (unfold db_count, db_Size; lia).
  destruct (db_Truncate_cases e (db_lastEntryIdx e) Hl Hr Hi) as [(x & -> & Hx & Hc & Hv)|(f & err & Hf & ->)]; simpl.
  - rewrite take_ge in Hv by (rewrite length_db_view; unfold db_count, db_Size; lia).
    rewrite <- Hv. by apply append_write_ok.
  - split; [|by apply db_view_same]. split; simpl; rewrite ?Hf, ?Hclean; try done.
Qed.

Lemma db_Read_Ok e i b : db_ok e -> (0 <= i)%Z -> db_Read sz e i = Ok b ->
  db_view e !! Z.to_nat i = Some b.
Proof.
  intros [Hl Hr _] Hi. unfold db_Read. destruct (Z.ltb_spec (db_lastEntryIdx e) i) as [|Hlt]; [done|].
  intros Hb%map_err_Ok. unfold db_view.
  assert (Hn : Z.to_nat i < db_count e) by (unfold db_count, db_Size; lia).
  rewrite entries_of_lookup by done. apply f_ReadAt_Ok in Hb as ->; [|lia|].
  - do 3 f_equal. lia.
  - nia.
Qed.

Lemma db_Read_end e i : db_ok e -> (Z.of_nat (length (db_view e)) <= i)%Z -> db_Read sz e i = Err EOF.
Proof.
  intros [Hl _ _] Hi. rewrite length_db_view in Hi. unfold db_Read, db_count, db_Size in *.
  destruct (Z.ltb_spec (db_lastEntryIdx e) i); [done|lia].
Qed.

Lemma db_Truncate_ok e i : db_ok e -> (-1 <= i < Z.of_nat (length (db_view e)))%Z ->
  db_ok (db_Truncate sz e i).1 /\
  match (db_Truncate sz e i).2 with
  | Ok _ => db_view (db_Truncate sz e i).1 = take (Z.to_nat (i + 1)) (db_view e)
  | Err _ => db_view (db_Truncate sz e i).1 = db_view e
  | Panic => False
  end.
Proof.
  intros Hok Hi. rewrite length_db_view in Hi. pose proof Hok as [Hl Hr Hc].
  destruct (db_Truncate_cases e i Hl Hr Hi) as [(x & -> & Hx & _ & Hv)|(f & err & Hf & ->)]; simpl; [done|].
  split; [|by apply db_view_same]. split; simpl; rewrite ?Hf; done.
Qed.

Lemma db_Size_view e : db_ok e -> db_Size e = Z.of_nat (length (db_view e)).
Proof. intros [Hl _ _]. rewrite length_db_view. unfold db_count, db_Size in *. lia. Qed.

(** Opening a file again. *)
Lemma entries_of_prefix n m c : n <= m -> entries_of sz n c = take n (entries_of sz m c).
Proof.
  revert m c. induction n as [|n IH]; intros m c Hn; [done|]. destruct m as [|m]; [lia|].
  simpl. f_equal. apply IH. lia.
Qed.

Lemma NewEntryDB_ok f e : NewEntryDB sz f = Ok e ->
  db_ok e /\ db_view e = entries_of sz (length (f_content f) / sz) (f_content f).
Proof.
  unfold NewEntryDB. cbv zeta. set (c := f_content f).
  assert (Hdiv : (Z.of_nat (length c) / Z.of_nat sz = Z.of_nat (length c / sz))%Z) by (by rewrite Nat2Z.inj_div).
  rewrite Hdiv. set (n := length c / sz).
  assert (Hn : n * sz <= length c) by (pose proof (Nat.Div0.mul_div_le (length c) sz); unfold n; lia).
  assert (Hcount : Z.to_nat (Z.of_nat n - 1 + 1) = n) by lia.
  destruct (Z.eqb_spec (Z.of_nat n * Z.of_nat sz) (Z.of_nat (length c))) as [He|He]; simpl.
  - intros Hi. apply Ok_inj in Hi as <-. unfold db_view, db_count, db_Size. simpl. rewrite Hcount.
    split; [|done]. split; unfold db_count, db_Size; simpl; rewrite ?Hcount; fold c; lia.
  - unfold recover, db_Size. simpl. replace (Z.of_nat n - 1 + 1)%Z with (Z.of_nat n) by lia.
    pose proof (f_Truncate_spec f (Z.of_nat n * Z.of_nat sz)) as Hf. fold c in Hf.
    destruct (f_Truncate f (Z.of_nat n * Z.of_nat sz)) as [f' [err|]]; simpl; [done|].
    specialize (Hf ltac:(lia)). replace (Z.to_nat (Z.of_nat n * Z.of_nat sz)) with (n * sz) in Hf by lia.
    intros Hi. apply Ok_inj in Hi as <-. unfold db_view, db_count, db_Size. simpl. rewrite Hcount, Hf.
    split; [|by rewrite (entries_of_take sz n n), take_ge by (rewrite ?length_entries_of; lia)].
    split; unfold db_count, db_Size; simpl; rewrite ?Hcount, ?Hf, ?length_take; lia.
Qed.

Lemma reopen_ok e e' : db_ok e -> NewEntryDB sz (db_data e) = Ok e' ->
  db_ok e' /\ db_view e `prefix_of` db_view e' /\
  (db_cleanupFailedWrite e = false -> db_view e' = db_view e).
Proof.
  intros [Hl Hr Hc] [Hok' ->]%NewEntryDB_ok. split; [done|].
  assert (Hn : db_count e <= length (f_content (db_data e)) / sz) by (apply Nat.div_le_lower_bound; lia).
  unfold db_view. split.
  - rewrite (entries_of_prefix _ _ _ Hn). apply prefix_take.
  - intros Hclean. f_equal. rewrite (Hc Hclean). by rewrite Nat.div_mul by lia.
Qed.

#[export] Instance EntryDB_laws : EntryStoreLaws (EntryDB F) sz (ES := EntryDB_store sz).
Proof.
  refine (Build_EntryStoreLaws _ _ _ db_ok db_view _ _ _ _ _ _ _).
  - intros e He. by apply db_Size_view.
  - intros e He. simpl. pose proof (db_Size_view e He) as H. unfold db_Size, db_LastEntryIdx in *. lia.
  - intros e i b. apply db_Read_Ok.
  - intros e i. apply db_Read_end.
  - intros e i _ _. simpl. unfold db_Read. destruct (db_lastEntryIdx e <? i)%Z; [done|].
    pose proof (f_ReadAt_total (db_data e) sz (i * Z.of_nat sz)) as H. by destruct (f_ReadAt _ _ _).
  - intros e es. apply db_Append_ok.
  - intros e i. apply db_Truncate_ok.
Defined.

(** C28: a file of entries is a store.  Whatever writes, truncations and reads
    fail, and however much a failed write has written, the database behaves as
    a list: [Append] adds all its entries or none, [Truncate] keeps exactly the
    prefix or everything, [Read] answers the entry of the list or an error and
    io.EOF past the end, and opening the file again
    finds the list, or the list with some entries of an [Append] whose
    roll-back had failed. *)
Theorem EntryDB_refines : forall e : EntryDB F, db_ok e ->
  db_Size e = Z.of_nat (length (db_view e)) /\
  (forall i b, (0 <= i)%Z -> db_Read sz e i = Ok b -> db_view e !! Z.to_nat i = Some b) /\
  (forall i, (Z.of_nat (length (db_view e)) <= i)%Z -> db_Read sz e i = Err EOF) /\
  (forall es, Forall (fun b => length b = sz) es ->
    let '(e', r) := db_Append sz e es in db_ok e' /\
    match r with Ok _ => db_view e' = db_view e ++ es | Err _ => db_view e' = db_view e | Panic => False end) /\
  (forall i, (-1 <= i < Z.of_nat (length (db_view e)))%Z ->
    let '(e', r) := db_Truncate sz e i in db_ok e' /\
    match r with
    | Ok _ => db_view e' = take (Z.to_nat (i + 1)) (db_view e)
    | Err _ => db_view e' = db_view e
    | Panic => False
    end) /\
  (forall e', NewEntryDB sz (db_data e) = Ok e' -> db_ok e' /\ db_view e `prefix_of` db_view e' /\
    (db_cleanupFailedWrite e = false -> db_view e' = db_view e)).
Proof.
  intros e He. split; [by apply db_Size_view|]. split; [by intros i b; apply db_Read_Ok|].
  split; [by intros i; apply db_Read_end|]. split; [|split].
  - intros es Hes. pose proof (db_Append_ok e es He Hes) as H. by destruct (db_Append sz e es) as [e' r].
  - intros i Hi. pose proof (db_Truncate_ok e i He Hi) as H. by destruct (db_Truncate sz e i) as [e' r].
  - intros e'. by apply reopen_ok.
Qed.

End EntryDBFacts.

(** ** A file with faults

    Each write or truncation takes the next outcome: [None] succeeds, [Some n]
    fails, a write after [n] bytes. *)
Record FaultyFile : Type := { ff_content : bytes; ff_faults : list (option nat) }.

#[export] Instance FaultyFile_access : DataAccess FaultyFile := {|
  f_content := ff_content;
  f_ReadAt f n off :=
    let b := take n (drop (Z.to_nat off) (ff_content f)) in
    if (length b <? n)%nat then Err EOF else Ok b;
  f_Write f b :=
    match ff_faults f with
    | Some n :: rest =>
        let n := Nat.min n (length b) in
        ({| ff_content := ff_content f ++ take n b; ff_faults := rest |}, (n, Some (Msg "disk full")))
    | rest => ({| ff_content := ff_content f ++ b; ff_faults := tail rest |}, (length b, None))
    end;
  f_Truncate f size :=
    match ff_faults f with
    | Some _ :: rest => ({| ff_content := ff_content f; ff_faults := rest |}, Some (Msg "read-only"))
    | rest => ({| ff_content := take (Z.to_nat size) (ff_content f); ff_faults := tail rest |}, None)
    end;
|}.

#[export] Instance FaultyFile_laws : DataAccessLaws FaultyFile.
Proof.
  split; simpl.
  - intros f n off b. case_match; [done|]. intros Hb _ _. by apply Ok_inj in Hb as <-.
  - intros f n off. by case_match.
  - intros f b. destruct (ff_faults f) as [|[n|] rest]; simpl.
    + split; [lia|]. split; [|done]. by rewrite take_ge by lia.
    + split; [lia|]. split; [done|by intros ?].
    + split; [lia|]. split; [|done]. by rewrite take_ge by lia.
  - intros f size _. destruct (ff_faults f) as [|[n|] rest]; done.
Qed.

(** The second append fails after three bytes, its roll-back fails too; the
    third append first rolls back. *)
Definition ex_file : FaultyFile := {| ff_content := []; ff_faults := [None; Some 3; Some 0; None; None] |}.

Definition ex_db : EntryDB FaultyFile :=
  {| db_data := ex_file; db_lastEntryIdx := -1; db_cleanupFailedWrite := false |}.

Definition ex_db1 := (db_Append 2 ex_db [[1; 1]%Z; [2; 2]%Z]).1.
Definition ex_db2 := (db_Append 2 ex_db1 [[3; 3]%Z; [4; 4]%Z]).1.

Lemma EntryDB_refines_witness : db_ok 2 ex_db2 /\ db_cleanupFailedWrite ex_db2 = true /\
  (db_Append 2 ex_db2 [[5; 5]%Z]).2 = Ok tt /\
  db_view 2 (db_Append 2 ex_db2 [[5; 5]%Z]).1 = [[1; 1]; [2; 2]; [5; 5]]%Z.
Proof.
  assert (Hok : db_ok 2 ex_db2) by (split; vm_compute; [done | lia | done]).
  split; [exact Hok|]. split; [reflexivity|]. split; [reflexivity|].
  destruct (EntryDB_refines 2 ltac:(lia) ex_db2 Hok) as (_ & _ & _ & H & _).
  assert (Hes : Forall (fun b : bytes => length b = 2%nat) [[5; 5]%Z]) by (repeat constructor).
  destruct (H [[5; 5]%Z] Hes) as [_ Hv]. exact Hv.
Defined.
