(* ===== verification/FromDA.v ===== *)
(** The derivation database of the supervisor,
    [src/rhs-supervisor/supervisor/backend/db/fromda]: links from L1 blocks to
    the blocks derived from them, appended in order, searched by bisection,
    rewound and invalidated.  The store is the interface [EntryStore]. *)

From S2P Require Import Prelude EthTypes EntryDB.

(** ** Types of the supervisor, [supervisor/types] *)

Definition ErrOutOfOrder : error := Msg "data out of order".
Definition ErrDataCorruption : error := Msg "data corruption".
Definition ErrNotExact : error := Msg "missed data".
Definition ErrSkipped : error := Msg "skipped data".
Definition ErrFuture : error := Msg "future data".
Definition ErrIneffective : error := Msg "ineffective data".
Definition ErrConflict : error := Msg "conflicting data".
Definition ErrAwaitReplacementBlock : error := Msg "awaiting replacement block".
Definition ErrOutOfScope : error := Msg "out of scope".
Definition ErrPreviousToFirst : error := Msg "cannot get parent of first block in the database".

Definition RevisionAny : Z := two64 - 1.
Definition rev_Any (r : Z) : bool := r =? RevisionAny.
Definition rev_Number (r : Z) : Z := r mod two63.

(** [cmp.Compare]. *)
Definition cmp_Compare (a b : Z) : Z := if a <? b then -1 else if a =? b then 0 else 1.

Definition rev_Cmp (r blockNum : Z) : Z :=
  if rev_Any r then 0
  else if blockNum <? rev_Number r then 1
  else if rev_Number r =? blockNum then 0
  else -1.

Record BlockSeal : Type := { bs_Hash : Z; bs_Number : Z; bs_Timestamp : Z }.

Definition zeroSeal : BlockSeal := {| bs_Hash := 0; bs_Number := 0; bs_Timestamp := 0 |}.

#[global] Instance BlockSeal_eq_dec : EqDecision BlockSeal.
Proof. solve_decision. Defined.

Definition BlockSeal_ID (s : BlockSeal) : BlockID := {| bid_Hash := bs_Hash s; bid_Number := bs_Number s |}.

Definition ForceWithParent (s : BlockSeal) (parent : BlockID) : L1BlockRef :=
  {| l1_Hash := bs_Hash s; l1_Number := bs_Number s; l1_ParentHash := bid_Hash parent;
     l1_Time := bs_Timestamp s |}.

Definition WithParent (s : BlockSeal) (parent : BlockID) : result L1BlockRef :=
  if negb (bs_Number s =? bid_Number parent +u 1) && negb (bs_Number s =? 0) then
    Err (Msg "invalid parent block")
  else Ok (ForceWithParent s parent).

Definition MustWithParent (s : BlockSeal) (parent : BlockID) : result L1BlockRef :=
  match WithParent s parent with Ok ref => Ok ref | _ => Panic end.

Definition BlockSealFromRef (ref : L1BlockRef) : BlockSeal :=
  {| bs_Hash := l1_Hash ref; bs_Number := l1_Number ref; bs_Timestamp := l1_Time ref |}.

Record SealPair : Type := { sp_Source : BlockSeal; sp_Derived : BlockSeal }.
Record RefPair : Type := { rp_Source : L1BlockRef; rp_Derived : L1BlockRef }.

(** ** Entries *)

Definition FirstRevision : Z := 0.
Definition EntrySize : nat := 128.
Definition SourceV0 : Z := 0.
Definition InvalidatedFromV0 : Z := 1.

Record LinkEntry : Type := {
  le_source : BlockSeal;
  le_derived : BlockSeal;
  le_revision : Z;
  le_invalidated : bool;
}.

Definition zeroLink : LinkEntry :=
  {| le_source := zeroSeal; le_derived := zeroSeal; le_revision := 0; le_invalidated := false |}.

Definition field (off n : nat) (e : bytes) : Z := be_decode (take n (drop off e)).

Definition le_decode_entry (e : bytes) : result LinkEntry :=
  let t := field 0 1 e in
  if negb (t =? SourceV0) && negb (t =? InvalidatedFromV0) then
    Err (Wrap "unexpected entry type" ErrDataCorruption)
  else if negb (bool_decide (take 3 (drop 1 e) = [0; 0; 0])) then
    Err (Wrap "expected empty data" ErrDataCorruption)
  else if two63 <=? field 20 8 e then
    Err (Wrap "upper bit of revision may not be set" ErrDataCorruption)
  else
    Ok {| le_source := {| bs_Hash := field 44 32 e; bs_Number := field 4 8 e; bs_Timestamp := field 12 8 e |};
          le_derived := {| bs_Hash := field 76 32 e; bs_Number := field 28 8 e; bs_Timestamp := field 36 8 e |};
          le_revision := field 20 8 e;
          le_invalidated := t =? InvalidatedFromV0 |}.

Definition le_encode_entry (d : LinkEntry) : result bytes :=
  if two63 <=? le_revision d then Panic
  else
    Ok ([if le_invalidated d then InvalidatedFromV0 else SourceV0; 0; 0; 0] ++
        be_encode 8 (bs_Number (le_source d)) ++ be_encode 8 (bs_Timestamp (le_source d)) ++
        be_encode 8 (le_revision d) ++
        be_encode 8 (bs_Number (le_derived d)) ++ be_encode 8 (bs_Timestamp (le_derived d)) ++
        be_encode 32 (bs_Hash (le_source d)) ++ be_encode 32 (bs_Hash (le_derived d)) ++
        replicate 20 0).

Definition sealOrErr (d : LinkEntry) : result SealPair :=
  if le_invalidated d then Err ErrAwaitReplacementBlock
  else Ok {| sp_Source := le_source d; sp_Derived := le_derived d |}.

(** ** Search *)

(** [sort.Search] with a function that may fail: an error is remembered, the
    last one wins, and counts as false. *)
Fixpoint search_loop (fuel : nat) (f : Z -> result bool) (i j : Z) (err : option error) : result (Z * option error) :=
  match fuel with
  | O => Ok (i, err)
  | S fuel =>
      if i <? j then
        let h := (i + j) / 2 in
        match f h with
        | Ok true => search_loop fuel f i h err
        | Ok false => search_loop fuel f (h + 1) j err
        | Err e => search_loop fuel f (h + 1) j (Some e)
        | Panic => Panic
        end
      else Ok (i, err)
  end.

Definition sort_Search (n : Z) (f : Z -> result bool) : result (Z * option error) :=
  search_loop (Z.to_nat n) f 0 n None.

Section DB.
Context {St : Type} {ES : EntryStore St}.

Definition readAt (db : St) (i : Z) : result LinkEntry :=
  match st_Read db i with
  | Ok e => le_decode_entry e
  | Err EOF => Err ErrFuture
  | Err e => Err e
  | Panic => Panic
  end.

Definition find (db : St) (reverse acceptClosest : bool) (cmpFn : LinkEntry -> Z) : result (Z * LinkEntry) :=
  let n := st_Size db in
  if n =? 0 then Err ErrFuture
  else
    let at_ := fun i => if reverse then n - 1 - i else i in
    let* (res, searchErr) :=
      sort_Search n (fun i => let* entry := readAt db (at_ i) in Ok (0 <=? cmpFn entry)) in
    match searchErr with
    | Some e => Err (Wrap "failed to search" e)
    | None =>
        if res =? n then
          if reverse then Err (Wrap "no entry found" ErrSkipped) else Err (Wrap "no entry found" ErrFuture)
        else
          let firstTry := res =? 0 in
          let result_ := at_ res in
          let* link := map_err (Wrap "failed to read final result entry") (readAt db result_) in
          if negb (cmpFn link =? 0) then
            if firstTry then
              if reverse then Err (Wrap "query is past last entry" ErrFuture)
              else Err (Wrap "query is before first entry" ErrSkipped)
            else if negb acceptClosest then
              Err (Wrap "traversed data, no exact match found" ErrNotExact)
            else Ok (result_, link)
          else Ok (result_, link)
    end.

Definition cmp_derived_first (revision derivedNum : Z) (link : LinkEntry) : Z :=
  let res := - rev_Cmp revision (rev_Number (le_revision link)) in
  if res =? 0 then cmp_Compare (bs_Number (le_derived link)) derivedNum else res.
Definition derivedNumToFirstSource (db : St) (derivedNum revision : Z) : result (Z * LinkEntry) :=
  find db false false (cmp_derived_first revision derivedNum).

Definition cmp_derived_last (revision derivedNum : Z) (link : LinkEntry) : Z :=
  let res := rev_Cmp revision (rev_Number (le_revision link)) in
  if res =? 0 then cmp_Compare derivedNum (bs_Number (le_derived link)) else res.
Definition derivedNumToLastSource (db : St) (derivedNum revision : Z) : result (Z * LinkEntry) :=
  find db true false (cmp_derived_last revision derivedNum).

Definition sourceNumToFirstDerived (db : St) (sourceNum : Z) : result (Z * LinkEntry) :=
  find db false false (fun link => cmp_Compare (bs_Number (le_source link)) sourceNum).

Definition sourceNumToLastDerived (db : St) (sourceNum : Z) : result (Z * LinkEntry) :=
  find db true false (fun link => cmp_Compare sourceNum (bs_Number (le_source link))).

Definition lookup_ (db : St) (source derived : Z) : result (Z * LinkEntry) :=
  find db true false (fun link =>
    let res := cmp_Compare source (bs_Number (le_source link)) in
    if res =? 0 then cmp_Compare derived (bs_Number (le_derived link)) else res).

Definition lookupOrAfter (db : St) (source derived : Z) : result (Z * LinkEntry) :=
  find db false true (fun link =>
    let res := cmp_Compare (bs_Number (le_source link)) source in
    if res =? 0 then cmp_Compare (bs_Number (le_derived link)) derived else res).

(** ** Queries *)

Definition latest_link (db : St) : result LinkEntry :=
  let lastIndex := st_LastEntryIdx db in
  if lastIndex <? 0 then Err ErrFuture
  else map_err (Wrap "failed to read last derivation data") (readAt db lastIndex).

Definition First (db : St) : result SealPair :=
  if st_LastEntryIdx db <? 0 then Err ErrFuture
  else
    let* first := map_err (Wrap "failed to read first derivation data") (readAt db 0) in
    sealOrErr first.

Definition Last (db : St) : result SealPair := let* link := latest_link db in sealOrErr link.

Definition LastRevision (db : St) : result Z := let* link := latest_link db in Ok (le_revision link).

Definition Invalidated (db : St) : result SealPair :=
  let* link := latest_link db in
  if negb (le_invalidated link) then Err (Wrap "last entry is not invalidated" ErrConflict)
  else Ok {| sp_Source := le_source link; sp_Derived := le_derived link |}.

Definition id_eqb (a b : BlockID) : bool := bool_decide (a = b).

Definition PreviousDerived (db : St) (derived : BlockID) (revision : Z) : result BlockSeal :=
  let* (_, lastCanonical) := map_err (Wrap "failed to find last derived")
    (derivedNumToLastSource db (bid_Number derived) revision) in
  let* (selfIndex, self) := map_err (Wrap "failed to find first derived")
    (derivedNumToFirstSource db (bid_Number derived) revision) in
  if negb (id_eqb (BlockSeal_ID (le_derived lastCanonical)) derived) then
    Err (Wrap "found another block" ErrConflict)
  else if selfIndex =? 0 then Ok zeroSeal
  else
    let* prev := map_err (Wrap "cannot find previous derived") (readAt db (selfIndex - 1)) in
    Ok (le_derived prev).

Definition SourceToLastDerived (db : St) (source : BlockID) : result BlockSeal :=
  let* (_, link) := sourceNumToLastDerived db (bid_Number source) in
  if negb (id_eqb (BlockSeal_ID (le_source link)) source) then
    Err (Wrap "searched for last derived-from but found another" ErrConflict)
  else if le_invalidated link then Err ErrAwaitReplacementBlock
  else Ok (le_derived link).

Definition NextDerived (db : St) (derived : BlockID) (revision : Z) : result SealPair :=
  let* (selfIndex, self) := map_err (Wrap "failed to find derived")
    (derivedNumToLastSource db (bid_Number derived) revision) in
  if negb (id_eqb (BlockSeal_ID (le_derived self)) derived) then Err (Wrap "found another block" ErrConflict)
  else
    let* next := map_err (Wrap "cannot find next derived") (readAt db (selfIndex + 1)) in
    sealOrErr next.

Definition previousSource (db : St) (source : BlockID) : result BlockSeal :=
  let* (selfIndex, self) := map_err (Wrap "failed to find derived")
    (sourceNumToFirstDerived db (bid_Number source)) in
  if negb (id_eqb (BlockSeal_ID (le_source self)) source) then Err (Wrap "found another block" ErrConflict)
  else if selfIndex =? 0 then
    if bs_Number (le_source self) =? 0 then Ok zeroSeal
    else Err (Wrap "cannot find previous derived before start of database" ErrPreviousToFirst)
  else
    let* prev := map_err (Wrap "cannot find previous derived") (readAt db (selfIndex - 1)) in
    Ok (le_source prev).

Definition NextSource (db : St) (source : BlockID) : result BlockSeal :=
  let* (selfIndex, self) := map_err (Wrap "failed to find derived-from")
    (sourceNumToLastDerived db (bid_Number source)) in
  if negb (id_eqb (BlockSeal_ID (le_source self)) source) then Err (Wrap "found another block" ErrConflict)
  else
    let* next := map_err (Wrap "cannot find next derived-from") (readAt db (selfIndex + 1)) in
    Ok (le_source next).

Definition Next (db : St) (source derived : BlockID) : result SealPair :=
  let* (selfIndex, selfLink) := lookup_ db (bid_Number source) (bid_Number derived) in
  if negb (id_eqb (BlockSeal_ID (le_source selfLink)) source) then
    Err (Wrap "DB has another derived-from" ErrConflict)
  else if negb (id_eqb (BlockSeal_ID (le_derived selfLink)) derived) then
    Err (Wrap "DB has another derived" ErrConflict)
  else let* next := readAt db (selfIndex + 1) in sealOrErr next.

Definition DerivedToRevision (db : St) (derived : BlockID) : result Z :=
  let* (_, link) := map_err (Wrap "failed to get link entry")
    (derivedNumToLastSource db (bid_Number derived) RevisionAny) in
  if negb (id_eqb (BlockSeal_ID (le_derived link)) derived) then
    Err (Wrap "cannot determine revision" ErrConflict)
  else Ok (le_revision link).

Definition SourceToRevision (db : St) (source : BlockID) : result Z :=
  if st_Size db =? 0 then Ok FirstRevision
  else
    let* (_, link) := sourceNumToLastDerived db (bid_Number source) in
    if negb (id_eqb (BlockSeal_ID (le_source link)) source) then Err (Wrap "expected another" ErrConflict)
    else Ok (le_revision link).

Definition ContainsDerived (db : St) (derived : BlockID) (revision : Z) : result unit :=
  let* (_, link) := derivedNumToLastSource db (bid_Number derived) revision in
  if negb (id_eqb (BlockSeal_ID (le_derived link)) derived) then
    Err (Wrap "searched if derived but found another" ErrConflict)
  else if le_invalidated link then Err (Wrap "derived, but invalidated it" ErrAwaitReplacementBlock)
  else Ok tt.

Definition DerivedToFirstSource (db : St) (derived : BlockID) (revision : Z) : result BlockSeal :=
  let* (_, link) := derivedNumToFirstSource db (bid_Number derived) revision in
  if negb (id_eqb (BlockSeal_ID (le_derived link)) derived) then
    Err (Wrap "searched for first derived but found another" ErrConflict)
  else Ok (le_source link).

(** [Candidate]: the pair and the error, which may come together.  Only
    [ErrNotExact] of the first search is looked at; the link of any other
    failed search is the zero link. *)
Definition Candidate (db : St) (maxSource afterDerived : BlockID) (revision : Z) : result RefPair * option RefPair :=
  match
    (let* (_, lastOffered) := map_err (Wrap "failed to get last derived block")
       (sourceNumToLastDerived db (bid_Number maxSource)) in
     if negb (id_eqb (BlockSeal_ID (le_source lastOffered)) maxSource) then
       Err (Wrap "expected source" ErrConflict)
     else
       let seal := le_source lastOffered in
       let* sourceRef :=
         match previousSource db maxSource with
         | Ok parentSource => MustWithParent seal (BlockSeal_ID parentSource)
         | Err e =>
             if errors_Is e ErrPreviousToFirst then Ok (ForceWithParent seal {| bid_Hash := 0; bid_Number := 0 |})
             else Err (Wrap "failed to find parent-block of derived-from" e)
         | Panic => Panic
         end in
       Ok (lastOffered, sourceRef)) with
  | Ok (lastOffered, sourceRef) =>
      if bid_Number afterDerived <? bs_Number (le_derived lastOffered) then
        let next := bid_Number afterDerived +u 1 in
        (let* link :=
           match derivedNumToLastSource db next revision with
           | Ok (_, link) => Ok link
           | Err e =>
               if errors_Is e ErrNotExact then
                 match derivedNumToLastSource db next next with
                 | Ok (_, link) => Ok link
                 | Err _ => Err (Wrap "cannot find derived block" ErrDataCorruption)
                 | Panic => Panic
                 end
               else Ok zeroLink
           | Panic => Panic
           end in
         let* derivedRef := WithParent (le_derived link) afterDerived in
         Ok {| rp_Source := sourceRef; rp_Derived := derivedRef |}, None)
      else
        (Err ErrOutOfScope,
         Some {| rp_Source := sourceRef;
                 rp_Derived := {| l1_Hash := 0; l1_Number := 0; l1_ParentHash := 0; l1_Time := 0 |} |})
  | Err e => (Err e, None)
  | Panic => (Panic, None)
  end.

(** ** Updates *)

Definition append_link (db : St) (link : LinkEntry) : St * result unit :=
  match le_encode_entry link with
  | Ok e => st_Append db [e]
  | Err e => (db, Err e)
  | Panic => (db, Panic)
  end.

(** The revision of the new link after [last]. *)
Definition link_revision (last : LinkEntry) (derived : L1BlockRef) (invalidated revision : Z) : result Z :=
  if rev_Any revision then Ok (le_revision last)
  else if invalidated =? 0 then
    if negb (le_revision last =? revision) && negb (l1_Number derived =? rev_Number revision) then
      Err (Wrap "cannot insert entry with revision" ErrDataCorruption)
    else Ok revision
  else if l1_Hash derived =? invalidated then
    if le_revision last =? revision then Err (Wrap "invalidated link should change revision" ErrConflict)
    else if negb (l1_Number derived =? rev_Number revision) then
      Err (Wrap "expecting invalidated/replaced entry to match revision" ErrDataCorruption)
    else Ok revision
  else Ok revision.

(** The derived relation of the new link. *)
Definition check_derived_link (db : St) (last : LinkEntry) (derived : L1BlockRef) (invalidated : Z) : result unit :=
  let lastDerived := le_derived last in
  if bs_Number lastDerived =? l1_Number derived then
    if negb (invalidated =? 0) then
      if negb (bs_Hash lastDerived =? invalidated) then
        Err (Wrap "inserting block that invalidates another" ErrConflict)
      else Ok tt
    else if negb (bs_Hash lastDerived =? l1_Hash derived) then
      Err (Wrap "derived block conflicts with known derived block at same height" ErrConflict)
    else Ok tt
  else if bs_Number lastDerived +u 1 =? l1_Number derived then
    if negb (bs_Hash lastDerived =? l1_ParentHash derived) then
      Err (Wrap "derived block does not build on the last" ErrConflict)
    else Ok tt
  else if bs_Number lastDerived +u 1 <? l1_Number derived then
    Err (Wrap "last block is too far behind" ErrFuture)
  else if negb (invalidated =? 0) then
    let* (_, v) := map_err (Wrap "failed to check if older invalidated derived block was known")
      (derivedNumToLastSource db (l1_Number derived) (le_revision last)) in
    if negb (bs_Hash (le_derived v) =? invalidated) then Err (Msg "cannot invalidate mismatching block")
    else Ok tt
  else Err (Wrap "derived block is older than current derived block" ErrOutOfOrder).

(** The source relation of the new link. *)
Definition check_source_link (db : St) (last : LinkEntry) (source derived : L1BlockRef) : result unit :=
  let lastSource := le_source last in
  if bs_Number lastSource =? l1_Number source then
    if negb (bs_Hash lastSource =? l1_Hash source) then
      Err (Wrap "cannot add block as derived from another block at this height" ErrConflict)
    else Ok tt
  else if bs_Number lastSource +u 1 =? l1_Number source then
    if negb (bs_Hash lastSource =? l1_ParentHash source) then
      Err (Wrap "source does not build on the last" ErrConflict)
    else Ok tt
  else if bs_Number lastSource +u 1 <? l1_Number source then
    Err (Wrap "last block is too far behind" ErrFuture)
  else if bs_Hash (le_derived last) =? l1_Hash derived then
    let* (_, got) := map_err (Wrap "failed to check if block was derived from canonical source chain")
      (lookup_ db (l1_Number source) (l1_Number derived)) in
    if negb (bs_Hash (le_source got) =? l1_Hash source) then
      Err (Wrap "derived from non-canonical source" ErrConflict)
    else Err (Wrap "received latest block, derived from known old source" ErrIneffective)
  else Err (Wrap "deriving already at a later source" ErrOutOfOrder).

Definition link_of (source derived : L1BlockRef) (invalidated revision : Z) : LinkEntry :=
  {| le_source := BlockSealFromRef source; le_derived := BlockSealFromRef derived;
     le_revision := revision;
     le_invalidated := negb (invalidated =? 0) && (l1_Hash derived =? invalidated) |}.

(** The link to add after [last]; [None] when it is known already. *)
Definition next_link (db : St) (last : LinkEntry) (source derived : L1BlockRef) (invalidated revision : Z) : result (option LinkEntry) :=
  if le_invalidated last then Err (Wrap "cannot build on top of invalidated entry" ErrAwaitReplacementBlock)
  else
    let* r := link_revision last derived invalidated revision in
    if (bs_Number (le_source last) +u 1 =? l1_Number source) &&
       (bs_Number (le_derived last) +u 1 =? l1_Number derived) then
      Err (Wrap "must increment source or derived, not both" ErrOutOfOrder)
    else if id_eqb (BlockSeal_ID (le_derived last)) (L1BlockRef_ID derived) &&
            id_eqb (BlockSeal_ID (le_source last)) (L1BlockRef_ID source) then Ok None
    else
      let* _ := check_derived_link db last derived invalidated in
      let* _ := check_source_link db last source derived in
      Ok (Some (link_of source derived invalidated r)).

Definition addLink (db : St) (source derived : L1BlockRef) (invalidated revision : Z) : St * result unit :=
  let link := link_of source derived invalidated revision in
  if st_Size db =? 0 then
    if le_invalidated link then (db, Err (Wrap "first DB entry cannot be an invalidated entry" ErrConflict))
    else append_link db (link_of source derived invalidated (if rev_Any revision then FirstRevision else revision))
  else
    match (let* last := latest_link db in next_link db last source derived invalidated revision) with
    | Ok (Some link) => append_link db link
    | Ok None => (db, Ok tt)
    | Err e => (db, Err e)
    | Panic => (db, Panic)
    end.

Definition AddDerived (db : St) (source derived : L1BlockRef) (revision : Z) : St * result unit :=
  addLink db source derived 0 revision.

(** What [ReplaceInvalidatedBlock] checks first: the placeholder and the
    parent of its source. *)
Definition replace_target (db : St) (invalidated : Z) : result (LinkEntry * BlockSeal) :=
  let lastIndex := st_LastEntryIdx db in
  if lastIndex <? 0 then Err ErrFuture
  else
    let* last := map_err (Wrap "failed to read last derivation data") (readAt db lastIndex) in
    if negb (le_invalidated last) then Err (Wrap "cannot replace block that was not invalidated" ErrConflict)
    else if negb (bs_Hash (le_derived last) =? invalidated) then
      Err (Wrap "cannot replace invalidated, DB contains another" ErrConflict)
    else
      let* prevSource := previousSource db (BlockSeal_ID (le_source last)) in
      Ok (last, prevSource).

Definition ReplaceInvalidatedBlock (db : St) (replacementDerived : L1BlockRef) (invalidated : Z) : St * result RefPair :=
  match replace_target db invalidated with
  | Ok (last, prevSource) =>
      match st_Truncate db (st_LastEntryIdx db - 1) with
      | (db, Ok _) =>
          let source := ForceWithParent (le_source last) (BlockSeal_ID prevSource) in
          match addLink db source replacementDerived invalidated (le_revision last) with
          | (db, Ok _) => (db, Ok {| rp_Source := source; rp_Derived := replacementDerived |})
          | (db, Err e) => (db, Err (Wrap "failed to add replacement" e))
          | (db, Panic) => (db, Panic)
          end
      | (db, Err e) => (db, Err e)
      | (db, Panic) => (db, Panic)
      end
  | Err e => (db, Err e)
  | Panic => (db, Panic)
  end.

(** The entry from which [RewindAndInvalidate] rewinds. *)
Definition invalidate_target (db : St) (invalidated : RefPair) : result Z :=
  let source := BlockSealFromRef (rp_Source invalidated) in
  let derived := BlockSealFromRef (rp_Derived invalidated) in
  let* (i, link) := lookupOrAfter db (bs_Number source) (bs_Number derived) in
  if le_invalidated link then
    Err (Wrap "cannot invalidate already invalidated block" ErrAwaitReplacementBlock)
  else if negb (bs_Hash (le_source link) =? bs_Hash source) then Err (Wrap "found another derived-from" ErrConflict)
  else if negb (bs_Hash (le_derived link) =? bs_Hash derived) &&
          (bs_Number (le_derived link) <=? bs_Number derived) then
    Err (Wrap "found another derived" ErrConflict)
  else Ok i.

Definition RewindAndInvalidate (db : St) (invalidated : RefPair) : St * result unit :=
  match invalidate_target db invalidated with
  | Ok i =>
      match st_Truncate db (i - 1) with
      | (db, Ok _) =>
          let d := rp_Derived invalidated in
          let '(db, r) := addLink db (rp_Source invalidated) d (l1_Hash d) (l1_Number d) in
          (db, map_err (Wrap "failed to add invalidation entry") r)
      | (db, r) => (db, map_err (Wrap "failed to rewind upon block invalidation") r)
      end
  | Err e => (db, Err e)
  | Panic => (db, Panic)
  end.

Definition rewind_target (db : St) (t : SealPair) (including : bool) : result Z :=
  let* (i, link) := lookup_ db (bs_Number (sp_Source t)) (bs_Number (sp_Derived t)) in
  if negb (bs_Hash (le_source link) =? bs_Hash (sp_Source t)) then Err (Wrap "found another derived-from" ErrConflict)
  else if negb (bs_Hash (le_derived link) =? bs_Hash (sp_Derived t)) then Err (Wrap "found another derived" ErrConflict)
  else Ok (if including then i - 1 else i).

Definition rewindLocked (db : St) (t : SealPair) (including : bool) : St * result unit :=
  match rewind_target db t including with
  | Ok target =>
      let '(db, r) := st_Truncate db target in
      (db, map_err (Wrap "failed to rewind upon block invalidation") r)
  | Err e => (db, Err e)
  | Panic => (db, Panic)
  end.

Definition Rewind (db : St) (target : SealPair) (including : bool) : St * result unit :=
  rewindLocked db target including.

Definition RewindToScope (db : St) (scope : BlockID) : St * result unit :=
  match (let* (_, link) := map_err (Wrap "failed to find last derived")
           (sourceNumToLastDerived db (bid_Number scope)) in
         if negb (id_eqb (BlockSeal_ID (le_source link)) scope) then
           Err (Wrap "found another derived-from" ErrConflict)
         else Ok link) with
  | Ok link => rewindLocked db {| sp_Source := le_source link; sp_Derived := le_derived link |} false
  | Err e => (db, Err e)
  | Panic => (db, Panic)
  end.

Definition RewindToFirstDerived (db : St) (v : BlockID) (revision : Z) : St * result unit :=
  match (let* (_, link) := map_err (Wrap "failed to find when it was first derived")
           (derivedNumToFirstSource db (bid_Number v) revision) in
         if negb (id_eqb (BlockSeal_ID (le_derived link)) v) then
           Err (Wrap "found another derived" ErrConflict)
         else Ok link) with
  | Ok link => rewindLocked db {| sp_Source := le_source link; sp_Derived := le_derived link |} false
  | Err e => (db, Err e)
  | Panic => (db, Panic)
  end.

End DB.
