(* ===== verification/FromDASearch.v ===== *)
(** The derivation database: its entries read back, and its bisection finds
    what a scan of the links finds, or reports a failed read. *)

From S2P Require Import Prelude EthTypes EntryDB FromDA.

(** ** Entries *)

Record seal_wf (s : BlockSeal) : Prop := {
  sw_number : is_u64 (bs_Number s);
  sw_time : is_u64 (bs_Timestamp s);
  sw_hash : 0 <= bs_Hash s < 2 ^ 256;
}.

Record link_wf (l : LinkEntry) : Prop := {
  lw_source : seal_wf (le_source l);
  lw_derived : seal_wf (le_derived l);
  lw_revision : 0 <= le_revision l < two63;
}.

(** The bytes of an entry. *)
Definition link_bytes (d : LinkEntry) : bytes :=
  [if le_invalidated d then InvalidatedFromV0 else SourceV0; 0; 0; 0] ++
  be_encode 8 (bs_Number (le_source d)) ++ be_encode 8 (bs_Timestamp (le_source d)) ++
  be_encode 8 (le_revision d) ++
  be_encode 8 (bs_Number (le_derived d)) ++ be_encode 8 (bs_Timestamp (le_derived d)) ++
  be_encode 32 (bs_Hash (le_source d)) ++ be_encode 32 (bs_Hash (le_derived d)) ++
  replicate 20 0.

Lemma le_encode_Ok l : link_wf l -> le_encode_entry l = Ok (link_bytes l).
Proof.
  intros [_ _ Hr]. unfold le_encode_entry. destruct (Z.leb_spec two63 (le_revision l)); [lia|done].
Qed.

Lemma length_link_bytes l : length (link_bytes l) = EntrySize.
Proof. unfold link_bytes. by rewrite !length_app, !length_be_encode, length_replicate. Qed.

(** Fields of a concatenation. *)
Lemma field_skip k off n p r : length p = k -> field (k + off) n (p ++ r) = field off n r.
Proof.
  intros <-. unfold field. by rewrite drop_app_add.
Qed.

Lemma field_here n z r : 0 <= z < 256 ^ Z.of_nat n -> field 0 n (be_encode n z ++ r) = z.
Proof.
  intros Hz. unfold field. rewrite drop_0, take_app_length' by (by rewrite length_be_encode).
  rewrite be_decode_encode. by apply Z.mod_small.
Qed.

Lemma field_next k off n z r : field (k + off) n (be_encode k z ++ r) = field off n r.
Proof. apply field_skip, length_be_encode. Qed.

Lemma decode_link_bytes l : link_wf l -> le_decode_entry (link_bytes l) = Ok l.
Proof.
  intros [[Hn1 Ht1 Hh1] [Hn2 Ht2 Hh2] Hr]. unfold le_decode_entry. cbv zeta.
  assert (F0 : field 0 1 (link_bytes l) = if le_invalidated l then InvalidatedFromV0 else SourceV0).
  { unfold link_bytes. by destruct (le_invalidated l). }
  assert (Fp : take 3 (drop 1 (link_bytes l)) = [0; 0; 0]) by done.
  unfold two63, is_u64, two64 in *.
  assert (F4 : field 4 8 (link_bytes l) = bs_Number (le_source l)).
  { unfold link_bytes. rewrite (field_skip 4 0) by done. by apply field_here. }
  assert (F12 : field 12 8 (link_bytes l) = bs_Timestamp (le_source l)).
  { unfold link_bytes. rewrite (field_skip 4 8) by done. rewrite (field_next 8 0). by apply field_here. }
  assert (F20 : field 20 8 (link_bytes l) = le_revision l).
  { unfold link_bytes. rewrite (field_skip 4 16) by done. rewrite (field_next 8 8), (field_next 8 0).
    apply field_here. simpl. lia. }
  assert (F28 : field 28 8 (link_bytes l) = bs_Number (le_derived l)).
  { unfold link_bytes. rewrite (field_skip 4 24) by done.
    rewrite (field_next 8 16), (field_next 8 8), (field_next 8 0). by apply field_here. }
  assert (F36 : field 36 8 (link_bytes l) = bs_Timestamp (le_derived l)).
  { unfold link_bytes. rewrite (field_skip 4 32) by done.
    rewrite (field_next 8 24), (field_next 8 16), (field_next 8 8), (field_next 8 0). by apply field_here. }
  assert (F44 : field 44 32 (link_bytes l) = bs_Hash (le_source l)).
  { unfold link_bytes. rewrite (field_skip 4 40) by done.
    rewrite (field_next 8 32), (field_next 8 24), (field_next 8 16), (field_next 8 8), (field_next 8 0).
    by apply field_here. }
  assert (F76 : field 76 32 (link_bytes l) = bs_Hash (le_derived l)).
  { unfold link_bytes. rewrite (field_skip 4 72) by done.
    rewrite (field_next 8 64), (field_next 8 56), (field_next 8 48), (field_next 8 40), (field_next 8 32),
      (field_next 32 0). by apply field_here. }
  rewrite F0, Fp, F4, F12, F20, F28, F36, F44, F76. rewrite bool_decide_eq_true_2 by done.
  destruct l as [[] [] r []]; simpl in *;
    (destruct (Z.leb_spec 9223372036854775808 r); [lia|done]).
Qed.

(** Entries of the derivation database read back: a well-formed link is
    encoded, without panic, in an entry of the entry size, and decoding the
    entry gives the link. *)
Theorem link_entry_roundtrip l : link_wf l ->
  exists e, le_encode_entry l = Ok e /\ length e = EntrySize /\ le_decode_entry e = Ok l.
Proof.
  intros Hl. exists (link_bytes l). split; [by apply le_encode_Ok|].
  split; [apply length_link_bytes | by apply decode_link_bytes].
Qed.

(** ** Bisection *)

(** [f] answers [g] or fails. *)
Definition answers_or_fails (n : Z) (f : Z -> result bool) (g : Z -> bool) : Prop :=
  forall h, 0 <= h < n -> f h = Ok (g h) \/ exists e, f h = Err e.

Definition upward (n : Z) (g : Z -> bool) : Prop :=
  forall i j, 0 <= i <= j -> j < n -> g i = true -> g j = true.

(** [k] is the first index of [0, n) where [g] holds, or [n]. *)
Definition first_true (n : Z) (g : Z -> bool) (k : Z) : Prop :=
  0 <= k <= n /\ (forall i, 0 <= i < k -> g i = false) /\ (k < n -> g k = true).

Lemma first_true_unique n g k k' : first_true n g k -> first_true n g k' -> k = k'.
Proof.
  intros (H1 & H2 & H3) (H1' & H2' & H3').
  destruct (Z.lt_trichotomy k k') as [H|[H|H]]; [|done|].
  - rewrite H2' in H3 by lia. naive_solver lia.
  - rewrite H2 in H3' by lia. naive_solver lia.
Qed.

(** The loop finds the first index, unless a read failed, which it reports. *)
Lemma search_loop_spec n f g fuel i j err : answers_or_fails n f g -> upward n g ->
  0 <= i -> i <= j <= n -> (Z.to_nat (j - i) <= fuel)%nat ->
  match err with
  | None => (forall x, 0 <= x < i -> g x = false) /\ (j < n -> g j = true)
  | Some e => exists h, 0 <= h < n /\ f h = Err e
  end ->
  exists k err', search_loop fuel f i j err = Ok (k, err') /\
    match err' with
    | None => err = None /\ first_true n g k
    | Some e => exists h, 0 <= h < n /\ f h = Err e
    end.
Proof.
  intros Hf Hg. revert i j err. induction fuel as [|fuel IH]; intros i j err Hi Hj Hfuel Herr; simpl.
  - exists i, err. split; [done|]. destruct err; [done|]. split; [done|].
    replace j with i in * by lia. split; [lia|]. naive_solver.
  - destruct (Z.ltb_spec i j) as [Hlt|Hge].
    2: { exists i, err. split; [done|]. destruct err; [done|]. split; [done|].
         replace j with i in * by lia. split; [lia|]. naive_solver. }
    set (h := (i + j) / 2). assert (Hh : i <= h < j) by (unfold h; Z.div_mod_to_equations; lia).
    destruct (Hf h ltac:(lia)) as [Hfh|[e Hfh]]; rewrite Hfh.
    + destruct (g h) eqn:Hgh.
      * apply IH; [lia | lia | lia |]. destruct err; [done|]. split; [naive_solver|done].
      * apply IH; [lia | lia | lia |]. destruct err; [done|]. split; [|naive_solver].
        intros x Hx. destruct (g x) eqn:Hgx; [|done]. by rewrite (Hg x h) in Hgh by (done || lia).
    + destruct (IH (h + 1) j (Some e)) as (k & err' & Hk & He); [lia | lia | lia | exists h; split; [lia|done] |].
      exists k, err'. split; [done|]. destruct err'; [done|]. by destruct He.
Qed.

Lemma sort_Search_spec n f g : 0 <= n -> answers_or_fails n f g -> upward n g ->
  exists k err, sort_Search n f = Ok (k, err) /\
    match err with
    | None => first_true n g k
    | Some e => exists h, 0 <= h < n /\ f h = Err e
    end.
Proof.
  intros Hn Hf Hg. destruct (search_loop_spec n f g (Z.to_nat n) 0 n None) as (k & err & Hk & He); try done;
    try lia; [split; [lia|lia]|].
  exists k, err. split; [done|]. destruct err; [done|]. by destruct He.
Qed.

(** ** The database as a list of links *)

Section Find.
Context {St : Type} {ES : EntryStore St} {L : EntryStoreLaws St EntrySize}.

Record rep (db : St) (ls : list LinkEntry) : Prop := {
  rep_ok : st_ok db;
  rep_view : st_view db = link_bytes <$> ls;
  rep_wf : Forall link_wf ls;
}.

Lemma rep_Size db ls : rep db ls -> st_Size db = Z.of_nat (length ls).
Proof. intros [Hok Hv _]. by rewrite (st_Size_spec db Hok), Hv, length_fmap. Qed.

Lemma rep_Last db ls : rep db ls -> st_LastEntryIdx db = Z.of_nat (length ls) - 1.
Proof. intros [Hok Hv _]. by rewrite (st_Last_spec db Hok), Hv, length_fmap. Qed.

(** Reading gives the link or fails. *)
Lemma readAt_rep db ls i : rep db ls -> 0 <= i ->
  (exists l, readAt db i = Ok l /\ ls !! Z.to_nat i = Some l) \/ (exists e, readAt db i = Err e).
Proof.
  intros [Hok Hv Hwf] Hi. unfold readAt. pose proof (st_Read_total db i Hok Hi) as Hp.
  destruct (st_Read db i) as [b|e|] eqn:Hr; [|by destruct e; eauto|done].
  left. pose proof (st_Read_Ok db i b Hok Hi Hr) as Hb. rewrite Hv, list_lookup_fmap in Hb.
  destruct (ls !! Z.to_nat i) as [l|] eqn:Hl; [|done]. simpl in Hb. injection Hb as <-.
  exists l. split; [|done]. apply decode_link_bytes. by eapply Forall_lookup_1.
Qed.

Lemma readAt_Ok db ls i l : rep db ls -> 0 <= i -> readAt db i = Ok l -> ls !! Z.to_nat i = Some l.
Proof. intros Hr Hi H. destruct (readAt_rep db ls i Hr Hi) as [(l' & Hl & ?)|[e He]]; congruence. Qed.

(** The links in the order of the search. *)
Definition at_index (reverse : bool) (n i : Z) : Z := if reverse then n - 1 - i else i.

(** Once a link is not before the needle, no later one is. *)
Definition monotone (reverse : bool) (cmpFn : LinkEntry -> Z) (ls : list LinkEntry) : Prop :=
  forall i j a b, (i <= j)%nat -> ls !! i = Some a -> ls !! j = Some b ->
    if reverse then 0 <= cmpFn b -> 0 <= cmpFn a else 0 <= cmpFn a -> 0 <= cmpFn b.

(** The reference: the first link, in the order of the search, that is not
    before the needle. *)
Fixpoint scan (cmpFn : LinkEntry -> Z) (k : Z) (ls : list LinkEntry) : option (Z * LinkEntry) :=
  match ls with
  | [] => None
  | l :: ls => if 0 <=? cmpFn l then Some (k, l) else scan cmpFn (k + 1) ls
  end.

Definition find_ref (reverse acceptClosest : bool) (cmpFn : LinkEntry -> Z) (ls : list LinkEntry) : result (Z * LinkEntry) :=
  match ls with
  | [] => Err ErrFuture
  | _ =>
      match scan cmpFn 0 (if reverse then rev ls else ls) with
      | None => Err (Wrap "no entry found" (if reverse then ErrSkipped else ErrFuture))
      | Some (k, l) =>
          let i := at_index reverse (Z.of_nat (length ls)) k in
          if cmpFn l =? 0 then Ok (i, l)
          else if k =? 0 then
            if reverse then Err (Wrap "query is past last entry" ErrFuture)
            else Err (Wrap "query is before first entry" ErrSkipped)
          else if acceptClosest then Ok (i, l)
          else Err (Wrap "traversed data, no exact match found" ErrNotExact)
      end
  end.

Lemma scan_spec cmpFn k ls :
  match scan cmpFn k ls with
  | Some (r, l) => k <= r /\ ls !! Z.to_nat (r - k) = Some l /\ 0 <= cmpFn l /\
      forall j a, (j < Z.to_nat (r - k))%nat -> ls !! j = Some a -> cmpFn a < 0
  | None => forall j a, ls !! j = Some a -> cmpFn a < 0
  end.
Proof.
  revert k. induction ls as [|l ls IH]; intros k; simpl; [done|].
  destruct (Z.leb_spec 0 (cmpFn l)) as [Hl|Hl].
  - rewrite Z.sub_diag. split; [lia|]. split; [done|]. split; [done|]. simpl. lia.
  - specialize (IH (k + 1)). destruct (scan cmpFn (k + 1) ls) as [[r x]|].
    + destruct IH as (H1 & H2 & H3 & H4). replace (Z.to_nat (r - k)) with (S (Z.to_nat (r - (k + 1)))) by lia.
      split; [lia|]. split; [done|]. split; [done|]. intros [|j] a Hj; simpl; [naive_solver lia|]. apply H4. lia.
    + intros [|j] a; simpl; [naive_solver lia|apply IH].
Qed.

(** The links in the order of the search. *)
Definition in_order (reverse : bool) (ls : list LinkEntry) : list LinkEntry := if reverse then rev ls else ls.

Lemma in_order_lookup reverse ls i : 0 <= i < Z.of_nat (length ls) ->
  in_order reverse ls !! Z.to_nat i = ls !! Z.to_nat (at_index reverse (Z.of_nat (length ls)) i).
Proof.
  intros Hi. destruct reverse; simpl; [|done].
  rewrite rev_reverse, reverse_lookup by lia. f_equal. lia.
Qed.

Lemma length_in_order reverse ls : length (in_order reverse ls) = length ls.
Proof. destruct reverse; [apply length_rev|done]. Qed.

(** The scan is the first index where the comparison is not negative. *)
Lemma scan_first_true cmpFn os k g :
  (forall i, 0 <= i < Z.of_nat (length os) -> exists l, os !! Z.to_nat i = Some l /\ g i = (0 <=? cmpFn l)) ->
  first_true (Z.of_nat (length os)) g k ->
  match scan cmpFn 0 os with
  | None => k = Z.of_nat (length os)
  | Some (r, l) => k = r /\ r < Z.of_nat (length os) /\ os !! Z.to_nat r = Some l
  end.
Proof.
  intros Hg Hk. pose proof (scan_spec cmpFn 0 os) as Hs. destruct (scan cmpFn 0 os) as [[r l]|].
  - destruct Hs as (H1 & H2 & H3 & H4). rewrite Z.sub_0_r in H2, H4.
    pose proof (lookup_lt_Some _ _ _ H2) as Hlt. split; [|split; [lia|done]].
    apply (first_true_unique _ g k r Hk). split; [lia|]. split.
    + intros i Hi. destruct (Hg i ltac:(lia)) as (a & Ha & ->). specialize (H4 (Z.to_nat i) a ltac:(lia) Ha). lia.
    + intros _. destruct (Hg r ltac:(lia)) as (a & Ha & ->). assert (a = l) as -> by congruence. lia.
  - apply (first_true_unique _ g k _ Hk). split; [lia|]. split; [|lia].
    intros i Hi. destruct (Hg i Hi) as (a & Ha & ->). specialize (Hs _ _ Ha). lia.
Qed.

Section Bisect.
Context (db : St) (ls : list LinkEntry) (reverse : bool) (cmpFn : LinkEntry -> Z).
Context (Hrep : rep db ls) (Hmono : monotone reverse cmpFn ls).

Let n := Z.of_nat (length ls).
Let os := in_order reverse ls.
Let g := fun i => match os !! Z.to_nat i with Some l => 0 <=? cmpFn l | None => true end.
Let f := fun i => let* entry := readAt db (at_index reverse n i) in Ok (0 <=? cmpFn entry).

Lemma at_index_range i : 0 <= i < n -> 0 <= at_index reverse n i < n.
Proof. unfold at_index. destruct reverse; lia. Qed.

Lemma order_some i : 0 <= i < n -> exists l, os !! Z.to_nat i = Some l /\ g i = (0 <=? cmpFn l).
Proof.
  intros Hi. destruct (lookup_lt_is_Some_2 os (Z.to_nat i)) as [l Hl].
  { unfold os. rewrite length_in_order. unfold n in Hi. lia. }
  exists l. unfold g. by rewrite Hl.
Qed.

Lemma probes_answer : answers_or_fails n f g.
Proof.
  intros i Hi. unfold f.
  destruct (readAt_rep db ls (at_index reverse n i) Hrep) as [(l & -> & Hl)|[e ->]].
  - by apply at_index_range.
  - left. simpl. unfold g, os. rewrite (in_order_lookup reverse ls i Hi). fold n. by rewrite Hl.
  - right. by exists e.
Qed.

Lemma probes_upward : upward n g.
Proof.
  intros i j Hij Hj Hgi.
  destruct (order_some i ltac:(lia)) as (a & Ha & Hga), (order_some j ltac:(lia)) as (b & Hb & ->).
  unfold os in Ha, Hb. rewrite in_order_lookup in Ha, Hb by (unfold n in *; lia).
  rewrite Hga in Hgi. apply Z.leb_le in Hgi. apply Z.leb_le. unfold at_index, n, monotone in *.
  destruct reverse.
  - eapply (Hmono _ _ b a); [|exact Hb|exact Ha|exact Hgi]. lia.
  - eapply (Hmono _ _ a b); [|exact Ha|exact Hb|exact Hgi]. lia.
Qed.

(** The bisection gives what the scan gives, or reports a failed read. *)
Lemma bisect : exists k err, sort_Search n f = Ok (k, err) /\
  match err with
  | Some e => exists i, 0 <= i < n /\ readAt db i = Err e
  | None =>
      match scan cmpFn 0 os with
      | None => k = n
      | Some (r, l) => k = r /\ 0 <= r < n /\ ls !! Z.to_nat (at_index reverse n r) = Some l
      end
  end.
Proof.
  destruct (sort_Search_spec n f g ltac:(unfold n; lia) probes_answer probes_upward) as (k & err & Hk & Herr).
  exists k, err. split; [done|]. destruct err as [e|].
  - destruct Herr as (h & Hh & He). exists (at_index reverse n h). split; [by apply at_index_range|].
    unfold f in He. destruct (readAt db (at_index reverse n h)); simpl in He; congruence.
  - assert (Hlen : Z.of_nat (length os) = n) by (unfold os; by rewrite length_in_order).
    rewrite <- Hlen in Herr. apply (scan_first_true cmpFn) in Herr; [|rewrite Hlen; apply order_some].
    rewrite Hlen in Herr. pose proof (scan_spec cmpFn 0 os) as Hs.
    destruct (scan cmpFn 0 os) as [[r l]|]; [|done]. destruct Herr as (-> & Hr & Hl), Hs as [H0 _].
    split; [done|]. split; [lia|]. unfold os in Hl. by rewrite in_order_lookup in Hl by (unfold n in *; lia).
Qed.

End Bisect.

Lemma find_scan db ls reverse acceptClosest cmpFn : rep db ls -> monotone reverse cmpFn ls ->
  find db reverse acceptClosest cmpFn = find_ref reverse acceptClosest cmpFn ls \/
  exists w i e, find db reverse acceptClosest cmpFn = Err (Wrap w e) /\
    0 <= i < Z.of_nat (length ls) /\ readAt db i = Err e.
Proof.
  intros Hrep Hmono. unfold find. rewrite (rep_Size db ls Hrep). set (n := Z.of_nat (length ls)).
  destruct (Z.eqb_spec n 0) as [Hn|Hn]. { left. unfold n in Hn. by destruct ls. }
  destruct (bisect db ls reverse cmpFn Hrep Hmono) as (k & err & Hk & Herr). fold n in Hk, Herr.
  unfold at_index in Hk. rewrite Hk. cbn [rbind]. destruct err as [e|].
  { destruct Herr as (i & Hi & He). right. by exists "failed to search"%string, i, e. }
  assert (Hfr : find_ref reverse acceptClosest cmpFn ls =
    match scan cmpFn 0 (in_order reverse ls) with
    | None => Err (Wrap "no entry found" (if reverse then ErrSkipped else ErrFuture))
    | Some (k, l) =>
        let i := at_index reverse n k in
        if cmpFn l =? 0 then Ok (i, l)
        else if k =? 0 then
          if reverse then Err (Wrap "query is past last entry" ErrFuture)
          else Err (Wrap "query is before first entry" ErrSkipped)
        else if acceptClosest then Ok (i, l)
        else Err (Wrap "traversed data, no exact match found" ErrNotExact)
    end) by (by destruct ls).
  rewrite Hfr. destruct (scan cmpFn 0 (in_order reverse ls)) as [[r l]|].
  - destruct Herr as (-> & Hr & Hl). destruct (Z.eqb_spec r n); [lia|]. cbv zeta. unfold at_index in *.
    destruct (readAt_rep db ls (if reverse then n - 1 - r else r) Hrep) as [(l' & Hl' & Hll)|[e He]].
    { destruct reverse; lia. }
    + left. rewrite Hl'. simpl. assert (l' = l) as -> by congruence. by destruct (cmpFn l =? 0), (r =? 0), acceptClosest.
    + right. exists "failed to read final result entry"%string, (if reverse then n - 1 - r else r), e.
      rewrite He. simpl. split; [done|]. split; [destruct reverse; lia|done].
  - left. subst k. rewrite Z.eqb_refl. by destruct reverse.
Qed.

End Find.
