(* ===== verification/FromDALinks.v ===== *)
(** The derivation database: the invariant of its links, that every update
    keeps it whatever the store fails to do, and what the queries answer. *)

From S2P Require Import Prelude EthTypes EntryDB FromDA FromDASearch.

Abbreviation src l := (bs_Number (le_source l)).
Abbreviation der l := (bs_Number (le_derived l)).

(** ** The invariant *)

(** From one link to the next: the source stays or advances by one, and stays
    the same block if it stays; under one source the derived blocks increase;
    in one revision the derived block stays or advances by one; a new revision
    is higher, starts at its own block and may go back; nothing is built on an
    invalidated link. *)
Record link_step (a b : LinkEntry) : Prop := {
  ls_source : src b = src a \/ src b = src a + 1;
  ls_same_source : src b = src a -> bs_Hash (le_source b) = bs_Hash (le_source a);
  ls_inner : src b = src a -> der a < der b;
  ls_derived : (le_revision b = le_revision a /\ le_invalidated b = false /\
                 ((der b = der a /\ bs_Hash (le_derived b) = bs_Hash (le_derived a)) \/ der b = der a + 1)) \/
               (le_revision a < le_revision b /\ le_revision b = der b /\ der b <= der a + 1);
  ls_valid : le_invalidated a = false;
}.

Record links_ok (ls : list LinkEntry) : Prop := {
  lo_steps : adjacent link_step ls;
  lo_revisions : Forall (fun l => le_revision l <= der l) ls;
  lo_first : forall l, head ls = Some l -> le_invalidated l = false;
  lo_small : Forall (fun l => src l < two63 - 1 /\ der l < two63 - 1) ls;
}.

Lemma links_ok_nil : links_ok [].
Proof. by split. Qed.

Lemma links_ok_take n ls : links_ok ls -> links_ok (take n ls).
Proof.
  intros [H1 H2 H3 H4]. rewrite <- (take_drop n ls) in H1. apply adjacent_app in H1 as [H1 _].
  split; [done | by apply Forall_take | | by apply Forall_take].
  intros l. destruct n, ls; simpl; try done. apply H3.
Qed.

Lemma links_ok_snoc ls l : links_ok ls -> le_revision l <= der l ->
  src l < two63 - 1 -> der l < two63 - 1 ->
  match last ls with Some a => link_step a l | None => le_invalidated l = false end ->
  links_ok (ls ++ [l]).
Proof.
  intros [H1 H2 H3 H4] Hr Hs Hd Hl. split.
  - apply adjacent_app. split; [done|]. split; [done|]. intros a b Ha [= <-]. by rewrite Ha in Hl.
  - by apply Forall_app; auto.
  - intros x. destruct ls; simpl in *; [naive_solver|]. intros [= <-]. by apply H3.
  - by apply Forall_app; auto.
Qed.

(** *** The orders the searches rely on *)

(** The source number never decreases. *)
Definition source_le (a b : LinkEntry) : Prop := src a <= src b.
(** Source and derived number, in this order, increase. *)
Definition pair_le (a b : LinkEntry) : Prop := src a < src b \/ (src a = src b /\ der a <= der b).
(** Revision and derived number, in this order, never decrease. *)
Definition revision_le (a b : LinkEntry) : Prop :=
  le_revision a < le_revision b \/ (le_revision a = le_revision b /\ der a <= der b).

#[local] Instance source_le_preorder : PreOrder source_le.
Proof. split; red; unfold source_le; lia. Qed.
#[local] Instance pair_le_preorder : PreOrder pair_le.
Proof. split; red; unfold pair_le; lia. Qed.
#[local] Instance revision_le_preorder : PreOrder revision_le.
Proof. split; red; unfold revision_le; lia. Qed.

Lemma adjacent_impl {A} (R Q : A -> A -> Prop) l : (forall a b, R a b -> Q a b) -> adjacent R l -> adjacent Q l.
Proof.
  intros H. induction l as [|a l IH]; [done|]. destruct l as [|b l]; [done|]. simpl. naive_solver.
Qed.

Lemma links_ordered (Q : LinkEntry -> LinkEntry -> Prop) `{!PreOrder Q} ls i j a b :
  (forall a b, link_step a b -> Q a b) -> links_ok ls -> (i <= j)%nat ->
  ls !! i = Some a -> ls !! j = Some b -> Q a b.
Proof.
  intros HQ [Hs _ _ _] Hij Ha Hb. apply (adjacent_impl _ Q _ HQ) in Hs. by apply (adjacent_lookup Q ls i j).
Qed.

Lemma step_source_le a b : link_step a b -> source_le a b.
Proof. intros []. unfold source_le. lia. Qed.
Lemma step_pair_le a b : link_step a b -> pair_le a b.
Proof. intros []. unfold pair_le. lia. Qed.
Lemma step_revision_le a b : link_step a b -> revision_le a b.
Proof. intros []. unfold revision_le. lia. Qed.

Lemma adjacent_at {A} (R : A -> A -> Prop) l i a b : adjacent R l ->
  l !! i = Some a -> l !! S i = Some b -> R a b.
Proof.
  revert i. induction l as [|x l IH]; intros i Hl Ha Hb; [done|]. apply adjacent_cons in Hl as [Hx Hl].
  destruct i as [|i]; simpl in *; [|by apply (IH i)].
  destruct l as [|y l]; [done|]. simpl in Hb. simplify_eq. by apply Hx.
Qed.

(** A pair of numbers occurs once. *)
Lemma pair_lt ls i j a b : links_ok ls -> ls !! i = Some a -> ls !! j = Some b -> (i < j)%nat ->
  src a < src b \/ (src a = src b /\ der a < der b).
Proof.
  intros Hok Ha Hb Hij. destruct (lookup_lt_is_Some_2 ls (S i)) as [c Hc].
  { apply lookup_lt_Some in Hb. lia. }
  pose proof (adjacent_at _ _ _ _ _ (lo_steps _ Hok) Ha Hc) as [H1 _ H3 _ _].
  pose proof (links_ordered pair_le ls (S i) j c b step_pair_le Hok ltac:(lia) Hc Hb) as Hp.
  unfold pair_le in Hp. lia.
Qed.

Lemma pair_unique ls i j a b : links_ok ls -> ls !! i = Some a -> ls !! j = Some b ->
  src a = src b -> der a = der b -> i = j.
Proof.
  intros Hok Ha Hb Hs Hd. destruct (Nat.lt_trichotomy i j) as [H|[H|H]]; [|done|].
  - pose proof (pair_lt ls i j a b Hok Ha Hb H). lia.
  - pose proof (pair_lt ls j i b a Hok Hb Ha H). lia.
Qed.

#[export] Hint Resolve step_source_le step_pair_le step_revision_le : rollup.

(** ** Searches *)

Section DB.
Context {St : Type} {ES : EntryStore St} {L : EntryStoreLaws St EntrySize}.

Lemma cmp_Compare_nonneg a b : 0 <= cmp_Compare a b <-> b <= a.
Proof. unfold cmp_Compare. repeat case_match; lia. Qed.
Lemma cmp_Compare_zero a b : cmp_Compare a b = 0 <-> a = b.
Proof. unfold cmp_Compare. repeat case_match; lia. Qed.

(** [cmpFn] orders by a first and then by a second key. *)
Definition cmp_pair (a1 b1 a2 b2 : Z) : Z :=
  let res := cmp_Compare a1 b1 in if res =? 0 then cmp_Compare a2 b2 else res.

Lemma cmp_pair_nonneg a1 b1 a2 b2 : 0 <= cmp_pair a1 b1 a2 b2 <-> b1 < a1 \/ (b1 = a1 /\ b2 <= a2).
Proof.
  unfold cmp_pair. cbv zeta. destruct (Z.eqb_spec (cmp_Compare a1 b1) 0) as [H|H].
  - rewrite cmp_Compare_zero in H. subst. rewrite (cmp_Compare_nonneg a2 b2). lia.
  - rewrite (cmp_Compare_nonneg a1 b1). rewrite cmp_Compare_zero in H. lia.
Qed.

Lemma cmp_pair_zero a1 b1 a2 b2 : cmp_pair a1 b1 a2 b2 = 0 <-> a1 = b1 /\ a2 = b2.
Proof.
  unfold cmp_pair. cbv zeta. destruct (Z.eqb_spec (cmp_Compare a1 b1) 0) as [H|H].
  - rewrite cmp_Compare_zero in H. rewrite (cmp_Compare_zero a2 b2). lia.
  - rewrite cmp_Compare_zero in H. unfold cmp_Compare. repeat case_match; lia.
Qed.

(** With a revision of a link the derived searches order by pairs. *)
Lemma rev_Number_small r : 0 <= r < two63 -> rev_Number r = r.
Proof. apply Z.mod_small. Qed.

Lemma rev_Cmp_compare r n : 0 <= r < two63 -> rev_Cmp r n = cmp_Compare r n.
Proof.
  intros Hr. unfold rev_Cmp, rev_Any, RevisionAny, cmp_Compare. rewrite rev_Number_small by done.
  unfold two63, two64 in *. repeat case_match; lia.
Qed.

Lemma cmp_derived_last_pair r d l : 0 <= r < two63 -> 0 <= le_revision l < two63 ->
  cmp_derived_last r d l = cmp_pair r (le_revision l) d (der l).
Proof.
  intros Hr Hl. unfold cmp_derived_last, cmp_pair. by rewrite (rev_Number_small (le_revision l)), rev_Cmp_compare.
Qed.

Lemma cmp_Compare_opp a b : - cmp_Compare a b = cmp_Compare b a.
Proof. unfold cmp_Compare. repeat case_match; lia. Qed.

Lemma cmp_derived_first_pair r d l : 0 <= r < two63 -> 0 <= le_revision l < two63 ->
  cmp_derived_first r d l = cmp_pair (le_revision l) r (der l) d.
Proof.
  intros Hr Hl. unfold cmp_derived_first, cmp_pair.
  by rewrite (rev_Number_small (le_revision l)), rev_Cmp_compare, cmp_Compare_opp.
Qed.

(** What an answer of [find] is. *)
Record found (ls : list LinkEntry) (reverse acceptClosest : bool) (cmpFn : LinkEntry -> Z) (i : Z) (l : LinkEntry) : Prop := {
  fd_index : 0 <= i;
  fd_link : ls !! Z.to_nat i = Some l;
  fd_cmp : cmpFn l = 0 \/ (acceptClosest = true /\ 0 <= cmpFn l);
  fd_before : forall j a, ls !! j = Some a ->
    (if reverse then Z.to_nat i < j else j < Z.to_nat i)%nat -> cmpFn a < 0;
}.

Lemma find_ref_found ls reverse acceptClosest cmpFn i l :
  find_ref reverse acceptClosest cmpFn ls = Ok (i, l) -> found ls reverse acceptClosest cmpFn i l.
Proof.
  intros H. assert (Hs : exists k, scan cmpFn 0 (in_order reverse ls) = Some (k, l) /\
    i = at_index reverse (Z.of_nat (length ls)) k /\
    (cmpFn l = 0 \/ (acceptClosest = true /\ k <> 0))).
  { destruct ls as [|x ls']; [done|]. unfold find_ref in H. fold (in_order reverse (x :: ls')) in H.
    destruct (scan cmpFn 0 (in_order reverse (x :: ls'))) as [[k l']|]; [|done]. cbv zeta in H.
    exists k. repeat case_match; simplify_eq; split; [done| |done|]; (split; [done|]); lia. }
  clear H. destruct Hs as (k & Hs & Hi & Hc). pose proof (scan_spec cmpFn 0 (in_order reverse ls)) as Hsp.
  rewrite Hs in Hsp. destruct Hsp as (H0 & Hk & Hn & Hb). rewrite Z.sub_0_r in Hk, Hb.
  pose proof (lookup_lt_Some _ _ _ Hk) as Hlt. rewrite length_in_order in Hlt.
  rewrite in_order_lookup in Hk by lia. rewrite <- Hi in Hk.
  assert (Hir : 0 <= i) by (unfold at_index in Hi; destruct reverse; lia).
  split; [done | done | naive_solver |].
  intros j a Ha Hj. pose proof (lookup_lt_Some _ _ _ Ha) as Hjl.
  apply (Hb (Z.to_nat (at_index reverse (Z.of_nat (length ls)) (Z.of_nat j)))).
  { unfold at_index in *. destruct reverse; lia. }
  rewrite in_order_lookup by (unfold at_index; destruct reverse; lia).
  replace (Z.to_nat (at_index reverse (Z.of_nat (length ls)) (at_index reverse (Z.of_nat (length ls)) (Z.of_nat j)))) with j;
    [done|]. unfold at_index. destruct reverse; lia.
Qed.

Lemma find_found db ls reverse acceptClosest cmpFn i l : rep db ls -> monotone reverse cmpFn ls ->
  find db reverse acceptClosest cmpFn = Ok (i, l) -> found ls reverse acceptClosest cmpFn i l.
Proof.
  intros Hrep Hm H. destruct (find_scan db ls reverse acceptClosest cmpFn Hrep Hm) as [He|(w & x & e & He & _)].
  - apply find_ref_found. by rewrite <- He.
  - by rewrite He in H.
Qed.

Lemma find_no_panic db ls reverse acceptClosest cmpFn : rep db ls -> monotone reverse cmpFn ls ->
  find db reverse acceptClosest cmpFn <> Panic.
Proof.
  intros Hrep Hm. destruct (find_scan db ls reverse acceptClosest cmpFn Hrep Hm) as [->|(w & x & e & -> & _)]; [|done].
  unfold find_ref. repeat case_match; try done; cbv zeta; repeat case_match; done.
Qed.

(** The searches are monotone on the links of the database. *)
Lemma mono_source_last ls n : links_ok ls -> monotone true (fun l => cmp_Compare n (src l)) ls.
Proof.
  intros Hok i j a b Hij Ha Hb. rewrite !cmp_Compare_nonneg.
  pose proof (links_ordered source_le ls i j a b step_source_le Hok Hij Ha Hb). unfold source_le in *. lia.
Qed.

Lemma mono_source_first ls n : links_ok ls -> monotone false (fun l => cmp_Compare (src l) n) ls.
Proof.
  intros Hok i j a b Hij Ha Hb. rewrite !cmp_Compare_nonneg.
  pose proof (links_ordered source_le ls i j a b step_source_le Hok Hij Ha Hb). unfold source_le in *. lia.
Qed.

Lemma mono_lookup ls s d : links_ok ls -> monotone true (fun l => cmp_pair s (src l) d (der l)) ls.
Proof.
  intros Hok i j a b Hij Ha Hb. rewrite !cmp_pair_nonneg.
  pose proof (links_ordered pair_le ls i j a b step_pair_le Hok Hij Ha Hb). unfold pair_le in *. lia.
Qed.

Lemma mono_after ls s d : links_ok ls -> monotone false (fun l => cmp_pair (src l) s (der l) d) ls.
Proof.
  intros Hok i j a b Hij Ha Hb. rewrite !cmp_pair_nonneg.
  pose proof (links_ordered pair_le ls i j a b step_pair_le Hok Hij Ha Hb). unfold pair_le in *. lia.
Qed.

Lemma mono_derived_last ls r d : links_ok ls -> Forall link_wf ls -> 0 <= r < two63 ->
  monotone true (cmp_derived_last r d) ls.
Proof.
  intros Hok Hwf Hr i j a b Hij Ha Hb.
  pose proof (lw_revision _ (Forall_lookup_1 _ _ _ _ Hwf Ha)) as Hra.
  pose proof (lw_revision _ (Forall_lookup_1 _ _ _ _ Hwf Hb)) as Hrb.
  rewrite !cmp_derived_last_pair, !cmp_pair_nonneg by done.
  pose proof (links_ordered revision_le ls i j a b step_revision_le Hok Hij Ha Hb). unfold revision_le in *. lia.
Qed.

Lemma mono_derived_first ls r d : links_ok ls -> Forall link_wf ls -> 0 <= r < two63 ->
  monotone false (cmp_derived_first r d) ls.
Proof.
  intros Hok Hwf Hr i j a b Hij Ha Hb.
  pose proof (lw_revision _ (Forall_lookup_1 _ _ _ _ Hwf Ha)) as Hra.
  pose proof (lw_revision _ (Forall_lookup_1 _ _ _ _ Hwf Hb)) as Hrb.
  rewrite !cmp_derived_first_pair, !cmp_pair_nonneg by done.
  pose proof (links_ordered revision_le ls i j a b step_revision_le Hok Hij Ha Hb). unfold revision_le in *. lia.
Qed.

(** ** Updates *)

(** A database with its links. *)
Definition holds (db : St) (ls : list LinkEntry) : Prop := rep db ls /\ links_ok ls.

Lemma latest_link_rep db ls : rep db ls ->
  (exists l, latest_link db = Ok l /\ last ls = Some l) \/ (exists e, latest_link db = Err e).
Proof.
  intros Hrep. unfold latest_link. rewrite (rep_Last db ls Hrep).
  destruct (Z.ltb_spec (Z.of_nat (length ls) - 1) 0) as [H|H]; [eauto|].
  destruct (readAt_rep db ls (Z.of_nat (length ls) - 1) Hrep ltac:(lia)) as [(l & -> & Hl)|[e ->]]; [|simpl; eauto].
  left. exists l. split; [done|]. rewrite last_lookup. rewrite <- Hl. f_equal. lia.
Qed.

Lemma append_link_rep db ls l : rep db ls -> link_wf l ->
  rep (append_link db l).1 (match (append_link db l).2 with Ok _ => ls ++ [l] | _ => ls end) /\
  (append_link db l).2 <> Panic.
Proof.
  intros [Hok Hv Hwf] Hl. unfold append_link. rewrite le_encode_Ok by done.
  destruct (st_Append_spec db [link_bytes l] Hok) as [Hok' Hr].
  { constructor; [apply length_link_bytes|done]. }
  destruct (st_Append db [link_bytes l]) as [db' [[]|e|]]; simpl in *; [| |done].
  - split; [|done]. split; [done | | by apply Forall_app; auto]. rewrite Hr, Hv. by rewrite fmap_app.
  - split; [|done]. split; [done | by rewrite Hr | done].
Qed.

Lemma truncate_rep db ls i : rep db ls -> -1 <= i < Z.of_nat (length ls) ->
  rep (st_Truncate db i).1 (match (st_Truncate db i).2 with Ok _ => take (Z.to_nat (i + 1)) ls | _ => ls end) /\
  (st_Truncate db i).2 <> Panic.
Proof.
  intros [Hok Hv Hwf] Hi. destruct (st_Truncate_spec db i Hok) as [Hok' Hr].
  { by rewrite Hv, length_fmap. }
  destruct (st_Truncate db i) as [db' [[]|e|]]; simpl in *; [| |done].
  - split; [|done]. split; [done | by rewrite Hr, Hv, fmap_take | by apply Forall_take].
  - split; [|done]. split; [done | by rewrite Hr | done].
Qed.

(** Block references the node may send: in range, with room for the next
    number and for the reserved bit of revisions. *)
Record ref_wf (r : L1BlockRef) : Prop := {
  rw_number : 0 <= l1_Number r < two63 - 1;
  rw_time : is_u64 (l1_Time r);
  rw_hash : 0 <= l1_Hash r < 2 ^ 256;
}.

(** How [addLink] may be called after [a]: a plain addition with a revision
    that is not above the block, or an invalidation or replacement, whose
    block lies beyond [a] under the same source and starts its revision. *)
Definition call_ok (a : option LinkEntry) (source derived : L1BlockRef) (invalidated revision : Z) : Prop :=
  if invalidated =? 0 then rev_Any revision = true \/ 0 <= revision <= l1_Number derived
  else revision = l1_Number derived /\
    match a with
    | Some a => (l1_Number source = src a -> der a < l1_Number derived) /\
        (l1_Hash derived = invalidated \/ le_revision a < revision)
    | None => l1_Hash derived = invalidated
    end.

Lemma link_of_wf source derived invalidated r : ref_wf source -> ref_wf derived ->
  0 <= r <= l1_Number derived -> link_wf (link_of source derived invalidated r).
Proof.
  intros [Hn1 Ht1 Hh1] [Hn2 Ht2 Hh2] Hr. unfold two63 in *.
  split; simpl; [split; simpl; try done; unfold is_u64, two64; lia.. | unfold two63; lia].
Qed.

Lemma holds_last db ls a : holds db ls -> last ls = Some a ->
  link_wf a /\ le_revision a <= der a /\ 0 <= src a < two63 - 1 /\ 0 <= der a < two63 - 1.
Proof.
  intros [[_ _ Hwf] [_ Hr _ Hsm]] Ha. rewrite last_lookup in Ha.
  pose proof (Forall_lookup_1 _ _ _ _ Hwf Ha) as Hw.
  pose proof (Forall_lookup_1 _ _ _ _ Hr Ha) as Hl. pose proof (Forall_lookup_1 _ _ _ _ Hsm Ha) as [H1 H2].
  destruct (sw_number _ (lw_source _ Hw)), (sw_number _ (lw_derived _ Hw)). done.
Qed.

Lemma check_source_Ok db a source derived : 0 <= src a < two63 - 1 ->
  check_source_link db a source derived = Ok tt ->
  (l1_Number source = src a /\ l1_Hash source = bs_Hash (le_source a)) \/ l1_Number source = src a + 1.
Proof.
  intros Ha. unfold check_source_link. cbv zeta. rewrite u64_small by (unfold is_u64, two63, two64 in *; lia).
  destruct (Z.eqb_spec (src a) (l1_Number source)) as [He|He].
  { destruct (Z.eqb_spec (bs_Hash (le_source a)) (l1_Hash source)); [auto|done]. }
  destruct (Z.eqb_spec (src a + 1) (l1_Number source)); [auto|].
  destruct (_ <? _); [done|]. destruct (_ =? _); [|done].
  intros H. apply rbind_Ok in H as ([i v] & _ & H). by destruct (negb _).
Qed.

(** The derived block stays, advances, or, when something is invalidated, is
    an older block of the last revision. *)
Lemma check_derived_Ok db ls a derived invalidated : holds db ls -> last ls = Some a ->
  check_derived_link db a derived invalidated = Ok tt ->
  (l1_Number derived = der a /\ (invalidated = 0 -> l1_Hash derived = bs_Hash (le_derived a))) \/
  l1_Number derived = der a + 1 \/
  (invalidated <> 0 /\ l1_Number derived <= der a /\ le_revision a <= l1_Number derived).
Proof.
  intros Hh Ha. destruct (holds_last db ls a Hh Ha) as (Hwf & Hr & Hs & Hd).
  unfold check_derived_link. cbv zeta. rewrite u64_small by (unfold is_u64, two63, two64 in *; lia).
  destruct (Z.eqb_spec (der a) (l1_Number derived)) as [He|He].
  { destruct (Z.eqb_spec invalidated 0) as [Hi|Hi]; simpl.
    - destruct (Z.eqb_spec (bs_Hash (le_derived a)) (l1_Hash derived)); [auto|done].
    - intros _. left. done. }
  destruct (Z.eqb_spec (der a + 1) (l1_Number derived)); [auto|].
  destruct (Z.ltb_spec (der a + 1) (l1_Number derived)); [done|].
  destruct (Z.eqb_spec invalidated 0) as [Hi|Hi]; simpl; [done|]. intros H'.
  right. right. split; [done|]. split; [lia|].
  apply rbind_Ok in H' as ([i v] & Hv%map_err_Ok & _). destruct Hh as [Hrep Hok].
  pose proof (lw_revision _ Hwf) as Hra.
  apply (find_found db ls) in Hv as [_ Hl Hc _]; [|done|apply mono_derived_last; [done | apply Hrep | done]].
  pose proof (Forall_lookup_1 _ _ _ _ (rep_wf _ _ Hrep) Hl) as Hwv.
  pose proof (Forall_lookup_1 _ _ _ _ (lo_revisions _ Hok) Hl) as Hrv. simpl in Hrv.
  destruct Hc as [Hc|[]]; [|done]. rewrite cmp_derived_last_pair, cmp_pair_zero in Hc by (done || apply Hwv). lia.
Qed.

(** The revision of the new link. *)
Lemma link_revision_Ok a source derived invalidated revision r : ref_wf derived ->
  0 <= le_revision a < two63 -> call_ok (Some a) source derived invalidated revision ->
  link_revision a derived invalidated revision = Ok r ->
  (invalidated = 0 /\ (r = le_revision a \/ r = l1_Number derived)) \/
  (invalidated <> 0 /\ r = l1_Number derived /\ r <> le_revision a).
Proof.
  intros [Hn _ _] Ha Hc. unfold call_ok in Hc. unfold link_revision.
  destruct (rev_Any revision) eqn:Hany.
  - intros Hr. apply Ok_inj in Hr as <-. destruct (Z.eqb_spec invalidated 0); [auto|].
    destruct Hc as [-> _]. unfold rev_Any, RevisionAny, two63, two64 in *. lia.
  - destruct (Z.eqb_spec invalidated 0) as [Hi|Hi].
    + destruct Hc as [Hc|Hc]; [congruence|]. rewrite rev_Number_small by (unfold two63 in *; lia).
      case_match eqn:Hcond; [done|]. intros Hr. apply Ok_inj in Hr as <-. left. split; [done|].
      apply andb_false_iff in Hcond. rewrite !negb_false_iff, !Z.eqb_eq in Hcond. naive_solver.
    + destruct Hc as [-> [_ Hc]]. intros Hr. right. split; [done|].
      destruct (Z.eqb_spec (l1_Hash derived) invalidated) as [He|He].
      * destruct (Z.eqb_spec (le_revision a) (l1_Number derived)); [done|].
        destruct (negb _); [done|]. apply Ok_inj in Hr as <-. auto.
      * apply Ok_inj in Hr as <-. destruct Hc; [done|]. split; [done|lia].
Qed.

Lemma next_link_step db ls a source derived invalidated revision b :
  holds db ls -> last ls = Some a -> ref_wf source -> ref_wf derived ->
  call_ok (Some a) source derived invalidated revision ->
  next_link db a source derived invalidated revision = Ok (Some b) ->
  link_step a b /\ le_revision b <= der b /\ link_wf b /\ src b < two63 - 1 /\ der b < two63 - 1.
Proof.
  intros Hh Ha Hs Hd Hc. destruct (holds_last db ls a Hh Ha) as (Hwf & Hra & Hsa & Hda).
  pose proof (lw_revision _ Hwf) as Hrr. pose proof (rw_number _ Hd) as Hdn. pose proof (rw_number _ Hs) as Hsn.
  unfold next_link. destruct (le_invalidated a) eqn:Hinv; [done|].
  intros H. apply rbind_Ok in H as (r & Hr & H).
  pose proof (link_revision_Ok _ _ _ _ _ _ Hd Hrr Hc Hr) as Hrev.
  case_match; [done|]. case_match eqn:Hid; [done|].
  apply rbind_Ok in H as ([] & Hcd & H). apply rbind_Ok in H as ([] & Hcs & H). apply Ok_inj in H. injection H as <-.
  apply (check_source_Ok _ _ _ _ Hsa) in Hcs. apply (check_derived_Ok _ _ _ _ _ Hh Ha) in Hcd.
  assert (Hle : le_revision a <= l1_Number derived) by lia.
  assert (Hrb : 0 <= r <= l1_Number derived) by lia.
  split; [|split; [simpl; lia|]; split; [by apply link_of_wf|simpl; lia]].
  split; simpl; [lia | | | | done].
  - intros He. destruct Hcs as [[_ Hcs]|Hcs]; [done|lia].
  - intros He. unfold call_ok in Hc. destruct (Z.eqb_spec invalidated 0) as [Hi|Hi].
    + destruct Hcd as [[Hn Hcd]|[Hcd|[]]]; [|lia|done]. exfalso.
      destruct Hcs as [[_ Hcs]|Hcs]; [|lia]. apply andb_false_iff in Hid. unfold id_eqb in Hid.
      rewrite !bool_decide_eq_false in Hid. unfold BlockSeal_ID, L1BlockRef_ID in Hid.
      rewrite <- Hcs, <- He, <- Hn, (Hcd Hi) in Hid. naive_solver.
    + destruct Hc as (_ & Hc & _). by apply Hc.
  - destruct Hrev as [(Hi & Hrev)|(Hi & -> & Hrev)].
    + destruct (Z.eqb_spec invalidated 0); [|done]. simpl.
      destruct (decide (r = le_revision a)) as [->|Hne].
      * left. split; [done|]. split; [done|]. naive_solver.
      * right. lia.
    + right. lia.
Qed.

(** No check panics. *)
Lemma rbind_run_no_panic {A B} (r : result A) (k : A -> result B) :
  r <> Panic -> (forall x, r = Ok x -> k x <> Panic) -> rbind r k <> Panic.
Proof. destruct r; simpl; naive_solver. Qed.

Lemma latest_link_no_panic db ls : rep db ls -> latest_link db <> Panic.
Proof. intros Hr. by destruct (latest_link_rep db ls Hr) as [(l & -> & _)|[e ->]]. Qed.

Lemma next_link_no_panic db ls a source derived invalidated revision : holds db ls -> last ls = Some a ->
  next_link db a source derived invalidated revision <> Panic.
Proof.
  intros Hh Ha. destruct (holds_last db ls a Hh Ha) as (Hwf & _). destruct Hh as [Hrep Hok].
  unfold next_link. destruct (le_invalidated a); [done|]. apply rbind_run_no_panic.
  { unfold link_revision. by repeat case_match. }
  intros r _. case_match; [done|]. case_match; [done|]. apply rbind_run_no_panic.
  - unfold check_derived_link. repeat case_match; try done. apply rbind_run_no_panic.
    + apply map_err_no_panic, (find_no_panic db ls _ _ _ Hrep).
      apply mono_derived_last; [done | apply Hrep | apply Hwf].
    + intros [i v] _. by case_match.
  - intros _ _. apply rbind_run_no_panic; [|done]. unfold check_source_link. repeat case_match; try done.
    apply rbind_run_no_panic.
    + apply map_err_no_panic, (find_no_panic db ls _ _ _ Hrep). by apply mono_lookup.
    + intros [i v] _. by case_match.
Qed.

(** The links afterwards: those up to some entry, and at most one more. *)
Definition extends (ls ls' : list LinkEntry) : Prop :=
  exists k tail, ls' = take k ls ++ tail /\ (length tail <= 1)%nat.

Lemma extends_refl ls : extends ls ls.
Proof. exists (length ls), []. split; [by rewrite firstn_all, app_nil_r | simpl; lia]. Qed.

Lemma extends_snoc ls l : extends ls (ls ++ [l]).
Proof. exists (length ls), [l]. split; [by rewrite firstn_all | simpl; lia]. Qed.

Lemma extends_take ls k ls' : extends (take k ls) ls' -> extends ls ls'.
Proof.
  intros (j & tail & -> & Hl). exists (Nat.min j k), tail. split; [|done]. by rewrite take_take.
Qed.

(** What an update leaves behind. *)
Definition kept (ls : list LinkEntry) {A} (r : St * result A) : Prop :=
  exists ls', holds r.1 ls' /\ extends ls ls' /\ r.2 <> Panic.

Lemma kept_same ls {A} db (r : result A) : holds db ls -> r <> Panic -> kept ls (db, r).
Proof. intros Hh Hr. exists ls. split; [done|]. split; [apply extends_refl | done]. Qed.

Lemma append_link_holds db ls l : holds db ls -> link_wf l -> links_ok (ls ++ [l]) ->
  kept ls (append_link db l).
Proof.
  intros [Hrep Hok] Hl Hok'. destruct (append_link_rep db ls l Hrep Hl) as [Hr Hp].
  destruct (append_link db l) as [db' [u|e|]]; simpl in *; [| |done].
  - exists (ls ++ [l]). split; [done|]. split; [apply extends_snoc | done].
  - by apply kept_same.
Qed.

Lemma addLink_holds db ls source derived invalidated revision :
  holds db ls -> ref_wf source -> ref_wf derived -> call_ok (last ls) source derived invalidated revision ->
  kept ls (addLink db source derived invalidated revision).
Proof.
  intros Hh Hs Hd Hc. pose proof Hh as [Hrep Hok]. unfold addLink. cbv zeta. rewrite (rep_Size db ls Hrep).
  destruct (Z.eqb_spec (Z.of_nat (length ls)) 0) as [Hn|Hn].
  - assert (ls = []) as -> by (by destruct ls). destruct (le_invalidated _) eqn:Hi; [by apply kept_same|].
    set (r := if rev_Any revision then FirstRevision else revision).
    assert (Hr : 0 <= r <= l1_Number derived).
    { destruct Hd as [Hd _ _]. unfold call_ok in Hc. simpl in *. unfold r, FirstRevision. destruct (rev_Any revision) eqn:Hany; [lia|].
      destruct (Z.eqb_spec invalidated 0); [destruct Hc; [congruence|done]|]. destruct Hc as [_ Hc].
      rewrite Hc, Z.eqb_refl, andb_true_r in Hi. lia. }
    apply append_link_holds; [done | by apply link_of_wf |].
    apply (links_ok_snoc []); [done | simpl; lia | apply Hs | apply Hd | done].
  - destruct (latest_link_rep db ls Hrep) as [(a & -> & Ha)|[e ->]]; simpl; [|by apply kept_same].
    rewrite Ha in Hc. pose proof (next_link_no_panic db ls a source derived invalidated revision Hh Ha) as Hnp.
    destruct (next_link db a source derived invalidated revision) as [[b|]|e|] eqn:Hb;
      [|by apply kept_same|by apply kept_same|done].
    destruct (next_link_step _ _ _ _ _ _ _ _ Hh Ha Hs Hd Hc Hb) as (Hstep & Hr & Hwf & Hs' & Hd').
    apply append_link_holds; [done | done |]. apply links_ok_snoc; [done..|]. by rewrite Ha.
Qed.

(** Truncating to the entry before the [i]-th. *)
Lemma truncate_holds db ls i : holds db ls -> -1 <= i < Z.of_nat (length ls) ->
  match st_Truncate db i with
  | (db', Ok _) => holds db' (take (Z.to_nat (i + 1)) ls)
  | (db', Err _) => holds db' ls
  | (_, Panic) => False
  end.
Proof.
  intros [Hrep Hok] Hi. destruct (truncate_rep db ls i Hrep Hi) as [Hr Hp].
  destruct (st_Truncate db i) as [db' [u|e|]]; simpl in *; [|done..]. split; [done|]. by apply links_ok_take.
Qed.

Lemma truncate_kept db ls i : holds db ls -> -1 <= i < Z.of_nat (length ls) ->
  kept ls (let '(db, r) := st_Truncate db i in (db, map_err (Wrap "failed to rewind upon block invalidation") r)).
Proof.
  intros Hh Hi. pose proof (truncate_holds db ls i Hh Hi) as H. destruct (st_Truncate db i) as [db' [u|e|]]; [| |done].
  - eexists. split; [exact H|]. split; [|done]. eapply extends_take, extends_refl.
  - by apply kept_same.
Qed.

(** *** The updates *)

(** A search answers an index of the list. *)
Lemma found_range ls reverse acceptClosest cmpFn i l : found ls reverse acceptClosest cmpFn i l ->
  0 <= i < Z.of_nat (length ls).
Proof. intros [Hi Hl _ _]. apply lookup_lt_Some in Hl. lia. Qed.

Lemma lookup_found db ls s d i l : holds db ls -> lookup_ db s d = Ok (i, l) ->
  found ls true false (fun l => cmp_pair s (src l) d (der l)) i l.
Proof. intros [Hrep Hok] H. apply (find_found db); [done | by apply mono_lookup | done]. Qed.

Lemma lookupOrAfter_found db ls s d i l : holds db ls -> lookupOrAfter db s d = Ok (i, l) ->
  found ls false true (fun l => cmp_pair (src l) s (der l) d) i l.
Proof. intros [Hrep Hok] H. apply (find_found db); [done | by apply mono_after | done]. Qed.

Lemma rewindLocked_kept db ls t including : holds db ls -> kept ls (rewindLocked db t including).
Proof.
  intros Hh. unfold rewindLocked. assert (Hnp : rewind_target db t including <> Panic).
  { unfold rewind_target. apply rbind_run_no_panic.
    - apply (find_no_panic db ls); [apply Hh | apply mono_lookup, Hh].
    - intros [i l] _. by repeat case_match. }
  destruct (rewind_target db t including) as [i|e|] eqn:Ht; [|by apply kept_same|done].
  apply truncate_kept; [done|]. unfold rewind_target in Ht. apply rbind_Ok in Ht as ([j l] & Hl & Ht).
  apply (lookup_found db ls) in Hl; [|done]. apply found_range in Hl.
  repeat case_match; simplify_eq; lia.
Qed.

Lemma RewindToScope_kept db ls scope : holds db ls -> kept ls (RewindToScope db scope).
Proof.
  intros Hh. unfold RewindToScope. case_match eqn:Hm; [by apply rewindLocked_kept | by apply kept_same |].
  exfalso. revert Hm. apply rbind_run_no_panic.
  - apply map_err_no_panic, (find_no_panic db ls); [apply Hh | apply mono_source_last, Hh].
  - intros [i l] _. by case_match.
Qed.

Lemma RewindToFirstDerived_kept db ls v revision : holds db ls -> 0 <= revision < two63 ->
  kept ls (RewindToFirstDerived db v revision).
Proof.
  intros Hh Hr. unfold RewindToFirstDerived. case_match eqn:Hm; [by apply rewindLocked_kept | by apply kept_same |].
  exfalso. revert Hm. apply rbind_run_no_panic.
  - apply map_err_no_panic, (find_no_panic db ls); [apply Hh|]. destruct Hh as [Hrep Hok].
    apply mono_derived_first; [done | apply Hrep | done].
  - intros [i l] _. by case_match.
Qed.

(** All links before the one that [RewindAndInvalidate] finds lie before the
    invalidated pair. *)
Lemma RewindAndInvalidate_kept db ls pair : holds db ls ->
  ref_wf (rp_Source pair) -> ref_wf (rp_Derived pair) -> kept ls (RewindAndInvalidate db pair).
Proof.
  intros Hh Hs Hd. unfold RewindAndInvalidate. assert (Hnp : invalidate_target db pair <> Panic).
  { unfold invalidate_target. apply rbind_run_no_panic.
    - apply (find_no_panic db ls); [apply Hh | apply mono_after, Hh].
    - intros [i l] _. by repeat case_match. }
  destruct (invalidate_target db pair) as [i|e|] eqn:Ht; [|by apply kept_same|done].
  unfold invalidate_target in Ht. apply rbind_Ok in Ht as ([j l] & Hl & Ht).
  assert (j = i) as -> by (repeat case_match; simplify_eq; done). clear Ht.
  apply (lookupOrAfter_found db ls) in Hl; [|done]. pose proof (found_range _ _ _ _ _ _ Hl) as Hi.
  pose proof (truncate_holds db ls (i - 1) Hh ltac:(lia)) as Htr.
  destruct (st_Truncate db (i - 1)) as [db' [u|e|]]; [| |done]; [|by apply kept_same].
  replace (i - 1 + 1) with i in Htr by lia.
  assert (Hc : call_ok (last (take (Z.to_nat i) ls)) (rp_Source pair) (rp_Derived pair)
    (l1_Hash (rp_Derived pair)) (l1_Number (rp_Derived pair))).
  { unfold call_ok. destruct (Z.eqb_spec (l1_Hash (rp_Derived pair)) 0).
    - right. destruct Hd as [Hd _ _]. lia.
    - split; [done|]. destruct (last _) as [a|] eqn:Ha; [|done]. split; [|by left].
      assert (Hpos : 0 < i) by (destruct (decide (i = 0)) as [->|]; [done|lia]).
      rewrite last_lookup, length_take, lookup_take_lt in Ha by lia.
      intros He. destruct Hl as [_ _ _ Hb].
      specialize (Hb _ _ Ha). assert (cmp_pair (src a) (bs_Number (BlockSealFromRef (rp_Source pair))) (der a)
        (bs_Number (BlockSealFromRef (rp_Derived pair))) < 0) as Hlt by (apply Hb; lia).
      pose proof (cmp_pair_nonneg (src a) (l1_Number (rp_Source pair)) (der a) (l1_Number (rp_Derived pair))) as Hnn.
      simpl in Hlt. lia. }
  destruct (addLink_holds db' _ _ _ _ _ Htr Hs Hd Hc) as (ls' & Hh' & He & Hp).
  destruct (addLink db' _ _ _ _) as [db'' r]. simpl in *.
  exists ls'. split; [done|]. split; [by eapply extends_take|]. by apply map_err_no_panic.
Qed.

Lemma readAt_no_panic db ls i : rep db ls -> 0 <= i -> readAt db i <> Panic.
Proof. intros Hr Hi. by destruct (readAt_rep db ls i Hr Hi) as [(l & -> & _)|[e ->]]. Qed.

Lemma previousSource_no_panic db ls source : holds db ls -> previousSource db source <> Panic.
Proof.
  intros Hh. unfold previousSource. apply rbind_run_no_panic.
  - apply map_err_no_panic, (find_no_panic db ls); [apply Hh | apply mono_source_first, Hh].
  - intros [i l] Hl%map_err_Ok. apply (find_found db ls) in Hl; [|apply Hh | apply mono_source_first, Hh].
    pose proof (found_range _ _ _ _ _ _ Hl). case_match; [done|]. destruct (Z.eqb_spec i 0); [by case_match|].
    apply rbind_run_no_panic; [|done]. apply map_err_no_panic, (readAt_no_panic db ls); [apply Hh | lia].
Qed.

(** The placeholder and the link before it. *)
Lemma placeholder ls p : links_ok ls -> last ls = Some p -> le_invalidated p = true ->
  exists a, last (take (length ls - 1) ls) = Some a /\ link_step a p /\
    le_revision a < le_revision p /\ le_revision p = der p.
Proof.
  intros Hok Hp Hi. pose proof Hp as Hl. rewrite last_lookup in Hl.
  destruct (decide (length ls = 1%nat)) as [H1|H1].
  { rewrite (lo_first _ Hok p) in Hi; [done|]. by destruct ls as [|x [|y ls]]. }
  assert (H2 : (2 <= length ls)%nat) by (apply lookup_lt_Some in Hl; lia).
  destruct (lookup_lt_is_Some_2 ls (length ls - 2)) as [a Ha]; [lia|]. exists a.
  assert (Hstep : link_step a p).
  { apply (adjacent_at _ ls (length ls - 2)); [apply Hok | done |]. rewrite <- Hl. f_equal. lia. }
  split; [|split; [done|]].
  - rewrite last_lookup, length_take, lookup_take_lt by lia. rewrite <- Ha. f_equal. lia.
  - destruct (ls_derived _ _ Hstep) as [(_ & Hf & _)|(? & ? & _)]; [congruence|done].
Qed.

Lemma replace_target_Ok db ls invalidated p s : holds db ls -> replace_target db invalidated = Ok (p, s) ->
  last ls = Some p /\ le_invalidated p = true /\ bs_Hash (le_derived p) = invalidated.
Proof.
  intros [Hrep Hok]. unfold replace_target. rewrite (rep_Last db ls Hrep).
  destruct (Z.ltb_spec (Z.of_nat (length ls) - 1) 0); [done|]. intros H'.
  apply rbind_Ok in H' as (l & Hl%map_err_Ok & H'). apply (readAt_Ok db ls) in Hl; [|done|lia].
  destruct (le_invalidated l) eqn:Hi; simpl in H'; [|done].
  destruct (Z.eqb_spec (bs_Hash (le_derived l)) invalidated); simpl in H'; [|done].
  apply rbind_Ok in H' as (s' & _ & H'). simplify_eq. split; [|done].
  rewrite last_lookup, <- Hl. f_equal. lia.
Qed.

Lemma ReplaceInvalidatedBlock_kept db ls repl invalidated : holds db ls -> ref_wf repl ->
  (forall p, last ls = Some p -> l1_Number repl = der p) ->
  kept ls (ReplaceInvalidatedBlock db repl invalidated).
Proof.
  intros Hh Hr Hn. unfold ReplaceInvalidatedBlock. assert (Hnp : replace_target db invalidated <> Panic).
  { unfold replace_target. rewrite (rep_Last db ls) by apply Hh. case_match; [done|].
    apply rbind_run_no_panic; [apply map_err_no_panic, (readAt_no_panic db ls); [apply Hh|lia]|].
    intros l _. case_match; [done|]. case_match; [done|].
    apply rbind_run_no_panic; [by apply (previousSource_no_panic db ls)|done]. }
  destruct (replace_target db invalidated) as [[p s]|e|] eqn:Ht; [|by apply kept_same|done].
  destruct (replace_target_Ok db ls _ _ _ Hh Ht) as (Hp & Hi & Hhash).
  destruct (placeholder ls p (proj2 Hh) Hp Hi) as (a & Ha & [_ _ Hin _ _] & Hra & Hrp).
  destruct (holds_last db ls p Hh Hp) as ([[Hpn Hpt Hph] _ Hprev] & _ & Hps & _).
  rewrite (rep_Last db ls) by apply Hh.
  pose proof (truncate_holds db ls (Z.of_nat (length ls) - 1 - 1) Hh) as Htr.
  rewrite last_lookup in Hp. pose proof (lookup_lt_Some _ _ _ Hp) as Hlen. specialize (Htr ltac:(lia)).
  destruct (st_Truncate db _) as [db' [u|e|]]; [| |done]; [|by apply kept_same].
  replace (Z.to_nat (Z.of_nat (length ls) - 1 - 1 + 1)) with (length ls - 1)%nat in Htr by lia.
  set (source := ForceWithParent (le_source p) (BlockSeal_ID s)).
  assert (Hs : ref_wf source) by (by split).
  assert (Hc : call_ok (last (take (length ls - 1) ls)) source repl invalidated (le_revision p)).
  { rewrite Ha. rewrite <- last_lookup in Hp. specialize (Hn p Hp). unfold call_ok.
    destruct (invalidated =? 0); [right; lia|]. split; [lia|]. split; [simpl; lia|by right]. }
  destruct (addLink_holds db' _ _ _ _ _ Htr Hs Hr Hc) as (ls' & Hh' & He & Hpan).
  destruct (addLink db' source repl invalidated (le_revision p)) as [db'' [[]|e|]]; simpl in *; [| |done];
    (exists ls'; split; [done|]; split; [by eapply extends_take|done]).
Qed.

(** ** Every database the updates reach *)

Inductive DBOp : Type :=
  | OpAddDerived (source derived : L1BlockRef) (revision : Z)
  | OpReplace (replacement : L1BlockRef) (invalidated : Z)
  | OpInvalidate (pair : RefPair)
  | OpRewind (target : SealPair) (including : bool)
  | OpRewindToScope (scope : BlockID)
  | OpRewindToFirstDerived (v : BlockID) (revision : Z).

Definition update (db : St) (o : DBOp) : St * result unit :=
  match o with
  | OpAddDerived source derived revision => AddDerived db source derived revision
  | OpReplace replacement invalidated =>
      let '(db, r) := ReplaceInvalidatedBlock db replacement invalidated in
      (db, let* _ := r in Ok tt)
  | OpInvalidate refs => RewindAndInvalidate db refs
  | OpRewind target including => Rewind db target including
  | OpRewindToScope scope => RewindToScope db scope
  | OpRewindToFirstDerived v revision => RewindToFirstDerived db v revision
  end.

(** What callers keep to: references in range, a revision that is not above
    the block, a replacement at the height of the replaced block. *)
Definition op_ok (ls : list LinkEntry) (o : DBOp) : Prop :=
  match o with
  | OpAddDerived source derived revision => ref_wf source /\ ref_wf derived /\
      (rev_Any revision = true \/ 0 <= revision <= l1_Number derived)
  | OpReplace replacement _ => ref_wf replacement /\
      forall p, last ls = Some p -> l1_Number replacement = der p
  | OpInvalidate refs => ref_wf (rp_Source refs) /\ ref_wf (rp_Derived refs)
  | OpRewind _ _ | OpRewindToScope _ => True
  | OpRewindToFirstDerived _ revision => 0 <= revision < two63
  end.

Lemma update_kept db ls o : holds db ls -> op_ok ls o -> kept ls (update db o).
Proof.
  intros Hh Ho. destruct o as [source derived revision|repl inv|refs|target incl|scope|v revision]; simpl in *.
  - destruct Ho as (Hs & Hd & Hr). by apply addLink_holds.
  - destruct Ho as [Hr Hn]. destruct (ReplaceInvalidatedBlock_kept db ls repl inv Hh Hr Hn) as (ls' & H1 & H2 & H3).
    destruct (ReplaceInvalidatedBlock db repl inv) as [db' r]. exists ls'. split; [done|]. split; [done|].
    by destruct r.
  - destruct Ho. by apply RewindAndInvalidate_kept.
  - by apply rewindLocked_kept.
  - by apply RewindToScope_kept.
  - by apply RewindToFirstDerived_kept.
Qed.

(** The databases that updates make of an empty store. *)
Inductive reached : St -> Prop :=
  | reached_empty db : st_ok db -> st_view db = [] -> reached db
  | reached_update db o : reached db -> (forall ls, holds db ls -> op_ok ls o) -> reached (update db o).1.

(** C27: the derivation database keeps its order.  Whatever updates are made and
    whichever reads, writes and truncations of the store fail, the entries are
    links that follow each other: sources without gaps, one block per source
    number, derived blocks increasing under a source and without gaps in a
    revision, revisions increasing, and only the last link invalidated; and no
    update panics. *)
Theorem fromda_invariant db : reached db ->
  exists ls, rep db ls /\ links_ok ls /\
    forall o, op_ok ls o -> (update db o).2 <> Panic /\
      exists ls', rep (update db o).1 ls' /\ links_ok ls' /\ extends ls ls'.
Proof.
  intros Hr. assert (H : exists ls, holds db ls).
  { induction Hr as [db Hok Hv|db o Hr [ls IH] Ho].
    - exists []. split; [by split | apply links_ok_nil].
    - destruct (update_kept db ls o IH (Ho ls IH)) as (ls' & H & _). by exists ls'. }
  destruct H as (ls & Hh). exists ls. split; [apply Hh|]. split; [apply Hh|].
  intros o Ho. destruct (update_kept db ls o Hh Ho) as (ls' & [H1 H2] & He & Hp).
  split; [done|]. by exists ls'.
Qed.

(** ** What the searches answer *)

(** If some link is the needle, the scan finds one. *)
Lemma find_ref_complete (ls : list LinkEntry) (reverse acceptClosest : bool) (cmpFn : LinkEntry -> Z) j a :
  (forall i j a b, (i <= j)%nat -> ls !! i = Some a -> ls !! j = Some b ->
     if reverse then cmpFn a = 0 -> 0 <= cmpFn b -> cmpFn b = 0
     else cmpFn b = 0 -> 0 <= cmpFn a -> cmpFn a = 0) ->
  ls !! j = Some a -> cmpFn a = 0 ->
  exists i l, find_ref reverse acceptClosest cmpFn ls = Ok (i, l).
Proof.
  intros Hmono Ha Hc. pose proof (lookup_lt_Some _ _ _ Ha) as Hj.
  assert (Hfr : exists k l, scan cmpFn 0 (in_order reverse ls) = Some (k, l) /\ cmpFn l = 0).
  { pose proof (scan_spec cmpFn 0 (in_order reverse ls)) as Hs.
    set (j' := Z.to_nat (at_index reverse (Z.of_nat (length ls)) (Z.of_nat j))).
    assert (Ha' : in_order reverse ls !! j' = Some a).
    { unfold j'. rewrite in_order_lookup by (unfold at_index; destruct reverse; lia). rewrite <- Ha. f_equal.
      unfold at_index. destruct reverse; lia. }
    destruct (scan cmpFn 0 (in_order reverse ls)) as [[k l]|]; [|specialize (Hs _ _ Ha'); lia].
    destruct Hs as (Hk & Hl & Hn & Hb). rewrite Z.sub_0_r in Hl, Hb. exists k, l. split; [done|].
    assert (Hkj : (Z.to_nat k <= j')%nat).
    { destruct (decide (Z.to_nat k <= j')%nat) as [|Hgt]; [done|]. specialize (Hb j' a ltac:(lia) Ha'). lia. }
    pose proof (lookup_lt_Some _ _ _ Hl) as Hlt. rewrite length_in_order in Hlt.
    rewrite in_order_lookup in Hl by lia. clear Ha' Hb. unfold at_index in *. destruct reverse; cbn in *.
    - apply (Hmono j (Z.to_nat (Z.of_nat (length ls) - 1 - k)) a l); [lia | done..].
    - apply (Hmono (Z.to_nat k) j l a); [lia | done..]. }
  destruct Hfr as (k & l & Hs & Hl). exists (at_index reverse (Z.of_nat (length ls)) k), l.
  destruct ls as [|x ls']; [done|]. unfold find_ref. unfold in_order in Hs. rewrite Hs. cbv zeta. by rewrite Hl.
Qed.

(** No read fails. *)
Definition reads_ok (db : St) (ls : list LinkEntry) : Prop :=
  forall i e, 0 <= i < Z.of_nat (length ls) -> readAt db i <> Err e.

(** A search on a database whose reads succeed finds the needle if it is there. *)
Lemma find_complete db ls reverse cmpFn j a : rep db ls -> monotone reverse cmpFn ls -> reads_ok db ls ->
  (forall i j a b, (i <= j)%nat -> ls !! i = Some a -> ls !! j = Some b ->
     if reverse then cmpFn a = 0 -> 0 <= cmpFn b -> cmpFn b = 0
     else cmpFn b = 0 -> 0 <= cmpFn a -> cmpFn a = 0) ->
  ls !! j = Some a -> cmpFn a = 0 ->
  exists i l, find db reverse false cmpFn = Ok (i, l).
Proof.
  intros Hrep Hm Hreads Hz Ha Hc.
  destruct (find_scan db ls reverse false cmpFn Hrep Hm) as [->|(w & i & e & _ & Hi & He)].
  - by eapply find_ref_complete.
  - by apply Hreads in He.
Qed.

Section Searches.
Context (db : St) (ls : list LinkEntry) (Hrep : rep db ls) (Hok : links_ok ls).

Lemma revision_range j a : ls !! j = Some a -> 0 <= le_revision a < two63.
Proof. intros Ha. by apply (Forall_lookup_1 _ _ _ _ (rep_wf _ _ Hrep) Ha). Qed.

Lemma source_last_sound n i l : sourceNumToLastDerived db n = Ok (i, l) -> ls !! Z.to_nat i = Some l /\ src l = n /\
  forall j a, (Z.to_nat i < j)%nat -> ls !! j = Some a -> n < src a.
Proof.
  intros H. apply (find_found db ls) in H as [_ Hl Hc Hb]; [|done|by apply mono_source_last].
  split; [done|]. split; [destruct Hc as [Hc|[]]; [by rewrite cmp_Compare_zero in Hc|done]|].
  intros j a Hj Ha. specialize (Hb j a Ha Hj). pose proof (cmp_Compare_nonneg n (src a)). lia.
Qed.

Lemma source_first_sound n i l : sourceNumToFirstDerived db n = Ok (i, l) -> ls !! Z.to_nat i = Some l /\ src l = n /\
  forall j a, (j < Z.to_nat i)%nat -> ls !! j = Some a -> src a < n.
Proof.
  intros H. apply (find_found db ls) in H as [_ Hl Hc Hb]; [|done|by apply mono_source_first].
  split; [done|]. split; [destruct Hc as [Hc|[]]; [by rewrite cmp_Compare_zero in Hc|done]|].
  intros j a Hj Ha. specialize (Hb j a Ha Hj). pose proof (cmp_Compare_nonneg (src a) n). lia.
Qed.

Lemma lookup_sound s d i l : lookup_ db s d = Ok (i, l) -> ls !! Z.to_nat i = Some l /\ src l = s /\ der l = d /\
  forall j a, ls !! j = Some a -> src a = s -> der a = d -> j = Z.to_nat i.
Proof.
  intros H. apply (lookup_found db ls) in H as [_ Hl Hc _]; [|done].
  destruct Hc as [Hc|[]]; [|done]. rewrite cmp_pair_zero in Hc. destruct Hc as [-> ->]. split; [done|].
  split; [done|]. split; [done|]. intros j a Ha Hs Hd. by apply (pair_unique ls j (Z.to_nat i) a l).
Qed.

Lemma derived_last_sound d r i l : 0 <= r < two63 -> derivedNumToLastSource db d r = Ok (i, l) ->
  ls !! Z.to_nat i = Some l /\ le_revision l = r /\ der l = d /\
  forall j a, (Z.to_nat i < j)%nat -> ls !! j = Some a -> r < le_revision a \/ (r = le_revision a /\ d < der a).
Proof.
  intros Hr H. apply (find_found db ls) in H as [_ Hl Hc Hb]; [|done|by apply mono_derived_last; [|apply Hrep|]].
  pose proof (revision_range _ _ Hl) as Hrl. destruct Hc as [Hc|[]]; [|done].
  rewrite cmp_derived_last_pair, cmp_pair_zero in Hc by done.
  split; [done|]. split; [lia|]. split; [lia|]. intros j a Hj Ha. specialize (Hb j a Ha Hj).
  pose proof (revision_range _ _ Ha) as Hra. rewrite cmp_derived_last_pair in Hb by done.
  pose proof (cmp_pair_nonneg r (le_revision a) d (der a)). lia.
Qed.

Lemma derived_first_sound d r i l : 0 <= r < two63 -> derivedNumToFirstSource db d r = Ok (i, l) ->
  ls !! Z.to_nat i = Some l /\ le_revision l = r /\ der l = d /\
  forall j a, (j < Z.to_nat i)%nat -> ls !! j = Some a -> le_revision a < r \/ (le_revision a = r /\ der a < d).
Proof.
  intros Hr H. apply (find_found db ls) in H as [_ Hl Hc Hb]; [|done|by apply mono_derived_first; [|apply Hrep|]].
  pose proof (revision_range _ _ Hl) as Hrl. destruct Hc as [Hc|[]]; [|done].
  rewrite cmp_derived_first_pair, cmp_pair_zero in Hc by done.
  split; [done|]. split; [lia|]. split; [lia|]. intros j a Hj Ha. specialize (Hb j a Ha Hj).
  pose proof (revision_range _ _ Ha) as Hra. rewrite cmp_derived_first_pair in Hb by done.
  pose proof (cmp_pair_nonneg (le_revision a) r (der a) d). lia.
Qed.

Lemma sources_complete j a : reads_ok db ls -> ls !! j = Some a ->
  (exists x, sourceNumToLastDerived db (src a) = Ok x) /\ (exists x, sourceNumToFirstDerived db (src a) = Ok x).
Proof.
  intros Hreads Ha. split.
  - edestruct (find_complete db ls true) as (i & l & H); [done | by apply mono_source_last | done | | exact Ha | |].
    2: by apply cmp_Compare_zero. 2: by eexists.
    intros x y b c Hxy Hb Hc. rewrite !cmp_Compare_zero, cmp_Compare_nonneg.
    pose proof (links_ordered source_le ls x y b c step_source_le Hok Hxy Hb Hc). unfold source_le in *. lia.
  - edestruct (find_complete db ls false) as (i & l & H); [done | by apply mono_source_first | done | | exact Ha | |].
    2: by apply cmp_Compare_zero. 2: by eexists.
    intros x y b c Hxy Hb Hc. rewrite !cmp_Compare_zero, cmp_Compare_nonneg.
    pose proof (links_ordered source_le ls x y b c step_source_le Hok Hxy Hb Hc). unfold source_le in *. lia.
Qed.

Lemma lookup_complete j a : reads_ok db ls -> ls !! j = Some a -> exists x, lookup_ db (src a) (der a) = Ok x.
Proof.
  intros Hreads Ha.
  edestruct (find_complete db ls true) as (i & l & H); [done | by apply mono_lookup | done | | exact Ha | |].
  2: by apply cmp_pair_zero. 2: by eexists.
  intros x y b c Hxy Hb Hc. rewrite !cmp_pair_zero, cmp_pair_nonneg.
  pose proof (links_ordered pair_le ls x y b c step_pair_le Hok Hxy Hb Hc). unfold pair_le in *. lia.
Qed.

Lemma derived_complete j a : reads_ok db ls -> ls !! j = Some a ->
  (exists x, derivedNumToLastSource db (der a) (le_revision a) = Ok x) /\
  (exists x, derivedNumToFirstSource db (der a) (le_revision a) = Ok x).
Proof.
  intros Hreads Ha. pose proof (revision_range _ _ Ha) as Hra. pose proof (rep_wf _ _ Hrep) as Hwf. split.
  - edestruct (find_complete db ls true) as (i & l & H); [done | by apply mono_derived_last | done | | exact Ha | |].
    2: by rewrite cmp_derived_last_pair, cmp_pair_zero. 2: by eexists.
    intros x y b c Hxy Hb Hc. pose proof (revision_range _ _ Hb). pose proof (revision_range _ _ Hc).
    rewrite !cmp_derived_last_pair, !cmp_pair_zero, cmp_pair_nonneg by done.
    pose proof (links_ordered revision_le ls x y b c step_revision_le Hok Hxy Hb Hc). unfold revision_le in *. lia.
  - edestruct (find_complete db ls false) as (i & l & H); [done | by apply mono_derived_first | done | | exact Ha | |].
    2: by rewrite cmp_derived_first_pair, cmp_pair_zero. 2: by eexists.
    intros x y b c Hxy Hb Hc. pose proof (revision_range _ _ Hb). pose proof (revision_range _ _ Hc).
    rewrite !cmp_derived_first_pair, !cmp_pair_zero, cmp_pair_nonneg by done.
    pose proof (links_ordered revision_le ls x y b c step_revision_le Hok Hxy Hb Hc). unfold revision_le in *. lia.
Qed.

End Searches.


End DB.

(** ** A concrete database *)

Module Examples.

#[export] Instance store : EntryStore (EntryDB FaultyFile) := EntryDB_store EntrySize.
#[export] Instance laws : EntryStoreLaws (EntryDB FaultyFile) EntrySize :=
  EntryDB_laws EntrySize (Nat.lt_0_succ _).

Definition empty : EntryDB FaultyFile :=
  {| db_data := {| ff_content := []; ff_faults := [] |}; db_lastEntryIdx := -1; db_cleanupFailedWrite := false |}.

Definition block (n h p : Z) : L1BlockRef :=
  {| l1_Hash := h; l1_Number := n; l1_ParentHash := p; l1_Time := n * 12 |}.

Definition S5 := block 5 105 104.
Definition S6 := block 6 106 105.
Definition D10 := block 10 210 209.
Definition D11 := block 11 211 210.
Definition D12 := block 12 212 211.

Definition steps : list DBOp :=
  [OpAddDerived S5 D10 RevisionAny; OpAddDerived S5 D11 RevisionAny; OpAddDerived S6 D11 RevisionAny;
   OpAddDerived S6 D12 RevisionAny].

Definition run_ops (db : EntryDB FaultyFile) (ops : list DBOp) : EntryDB FaultyFile :=
  foldl (fun db o => (update db o).1) db ops.

Definition filled := run_ops empty steps.
Definition marked := run_ops filled [OpInvalidate {| rp_Source := S6; rp_Derived := D11 |}].

Lemma empty_ok : st_ok empty.
Proof. split; vm_compute; [done | lia | done]. Qed.

Lemma reached_filled : reached filled.
Proof.
  do 4 (apply (reached_update _ (OpAddDerived _ _ _)); [|intros ls _; repeat split; try (vm_compute; (done || split; congruence)); by left]).
  apply reached_empty; [apply empty_ok | reflexivity].
Qed.

Lemma fromda_invariant_witness : exists ls, rep marked ls /\ links_ok ls /\ (last ls ≫= fun l => Some (le_invalidated l)) = Some true.
Proof.
  assert (Hr : reached marked).
  { apply (reached_update filled (OpInvalidate _)); [exact reached_filled|].
    intros ls _. repeat split; vm_compute; (done || split; congruence). }
  destruct (fromda_invariant marked Hr) as (ls & Hrep & Hok & _). exists ls. split; [exact Hrep|]. split; [exact Hok|].
  destruct (latest_link_rep marked ls Hrep) as [(l & Hl & ->)|[e He]]; [|by vm_compute in He].
  assert (Hx : latest_link marked = Ok (link_of S6 D11 211 11)) by (vm_compute; reflexivity).
  rewrite Hx in Hl. apply Ok_inj in Hl as <-. reflexivity.
Defined.

Definition filled_links : list LinkEntry :=
  [link_of S5 D10 0 0; link_of S5 D11 0 0; link_of S6 D11 0 0; link_of S6 D12 0 0].

Lemma filled_rep : rep filled filled_links.
Proof.
  split; [split; vm_compute; [done | lia | done] | vm_compute; reflexivity |].
  repeat (apply Forall_cons_2; [split; [split|split|]; vm_compute; (done || split; congruence)|]). apply Forall_nil_2.
Qed.

Lemma filled_links_ok : links_ok filled_links.
Proof.
  split.
  - repeat split; simpl; (done || lia || auto with lia).
  - repeat constructor; vm_compute; congruence.
  - by intros l [= <-].
  - repeat constructor.
Qed.


Lemma link_entry_roundtrip_witness : exists e,
  le_encode_entry (link_of S6 D11 211 11) = Ok e /\ length e = EntrySize /\ le_decode_entry e = Ok (link_of S6 D11 211 11).
Proof.
  apply (link_entry_roundtrip (link_of S6 D11 211 11)).
  split; [split|split|]; vm_compute; (done || split; congruence).
Defined.

(** Invalidating the first entry fails, after the database has been emptied. *)
Definition single := run_ops empty [OpAddDerived S5 D10 RevisionAny].

Lemma invalidate_first_empties :
  (exists e, (RewindAndInvalidate single {| rp_Source := S5; rp_Derived := D10 |}).2 = Err e) /\
  st_Size (RewindAndInvalidate single {| rp_Source := S5; rp_Derived := D10 |}).1 = 0.
Proof. split; [eexists|]; vm_compute; reflexivity. Qed.

(** A replacement that does not fit fails, but the placeholder is gone: the
    database is no longer invalidated, and takes the invalid block again. *)
Definition misfit := block 13 313 312.

Lemma failed_replacement_loses_placeholder :
  let db := (ReplaceInvalidatedBlock marked misfit 211).1 in
  (exists e, (ReplaceInvalidatedBlock marked misfit 211).2 = Err e) /\
  (exists e, Invalidated db = Err e) /\ (AddDerived db S6 D11 RevisionAny).2 = Ok tt.
Proof. split; [eexists|split; [eexists|]]; vm_compute; reflexivity. Qed.

(** [Candidate] with a revision the database does not have: the zero block is
    offered, as a child of the last cross-safe block. *)
Lemma candidate_zero_block :
  Candidate (run_ops empty (take 2 steps)) (L1BlockRef_ID S5) (L1BlockRef_ID D10) 50 =
    (Ok {| rp_Source := block 5 105 0;
           rp_Derived := {| l1_Hash := 0; l1_Number := 0; l1_ParentHash := 210; l1_Time := 0 |} |}, None).
Proof. vm_compute. reflexivity. Qed.

End Examples.
