(* ===== verification/DepSet.v ===== *)
(** * Interop dependency set

    The data the supervisor's cross-chain checks share
    ([rhs-supervisor/supervisor/types/types.go]) and the statically
    configured dependency set
    ([rhs-supervisor/supervisor/backend/depset/static.go]).

    A Go map is iterated in an unspecified order, which may differ every
    time the same map is iterated.  [MapOrder] is that choice: [range t m]
    is the order in which the entries of [m] come in the iteration that
    happens at moment [t].  Theorems quantify over every [MapOrder], so over
    every order the run time may choose. *)

From stdpp Require Import base gmap sets list sorting.
From S2P Require Import Prelude EthTypes EntryDB FromDA.

Definition ErrUnknownChain : error := Msg "unknown chain".

Class MapOrder : Type := {
  range {V} (t : Z) (m : gmap Z V) : list (Z * V);
  range_perm {V} t (m : gmap Z V) : range t m ≡ₚ map_to_list m }.

(** An order that exists: the one of the tree that represents the map. *)
#[refine] Definition tree_order : MapOrder := {| range V t m := map_to_list m |}.
Proof. done. Defined.

Section range.
Context `{MapOrder}.

Lemma elem_of_range {V} t (m : gmap Z V) k v : (k, v) ∈ range t m <-> m !! k = Some v.
Proof. by rewrite range_perm, elem_of_map_to_list. Qed.

Lemma NoDup_range {V} t (m : gmap Z V) : NoDup (range t m).*1.
Proof. rewrite range_perm. apply NoDup_fst_map_to_list. Qed.
End range.

(** ** Messages *)

Record ExecutingMessage : Type := {
  em_Chain : Z;
  em_BlockNum : Z;
  em_LogIdx : Z;
  em_Timestamp : Z;
  em_Hash : Z }.

#[global] Instance ExecutingMessage_eq_dec : EqDecision ExecutingMessage.
Proof. solve_decision. Defined.

Record ContainsQuery : Type := {
  cq_Timestamp : Z;
  cq_BlockNum : Z;
  cq_LogIdx : Z;
  cq_Checksum : bytes }.

Record ChecksumArgs : Type := {
  ca_BlockNumber : Z;
  ca_LogIndex : Z;
  ca_Timestamp : Z;
  ca_ChainID : Z;
  ca_LogHash : Z }.

(** [crypto.Keccak256Hash] of the concatenated arguments is a parameter. *)
Class Keccak : Type := keccak256 : bytes -> bytes.

Definition idPacked (args : ChecksumArgs) : bytes :=
  replicate 12 0 ++ be_encode 8 (ca_BlockNumber args) ++ be_encode 8 (ca_Timestamp args)
    ++ be_encode 4 (ca_LogIndex args).

Definition Checksum `{Keccak} (args : ChecksumArgs) : bytes :=
  let idLogHash := keccak256 (hash_bytes (ca_LogHash args) ++ idPacked args) in
  let out := keccak256 (idLogHash ++ hash_bytes (ca_ChainID args)) in
  <[0%nat := 3]> out.

Definition Query `{Keccak} (args : ChecksumArgs) : ContainsQuery :=
  {| cq_BlockNum := ca_BlockNumber args; cq_Timestamp := ca_Timestamp args;
     cq_LogIdx := ca_LogIndex args; cq_Checksum := Checksum args |}.

(** ** The dependency set interface

    The methods of [depset.DependencySet] that the cross-chain checks call. *)
Class DependencySet : Type := {
  CanExecuteAt (chainID execTimestamp : Z) : result bool;
  CanInitiateAt (chainID initTimestamp : Z) : result bool;
  ChainIDFromIndex (index : Z) : result Z;
  ChainIndexFromID (id : Z) : result Z;
  Chains : list Z;
  HasChain (chainID : Z) : bool;
  MessageExpiryWindow : Z }.

(** What a dependency set promises: chain indices and chain identifiers
    translate one to one, and only finitely many indices exist. *)
Class DependencySetLaws `(DependencySet) : Prop := {
  ds_index_id id index : ChainIndexFromID id = Ok index <-> ChainIDFromIndex index = Ok id;
  ds_has_chain id : HasChain id = true <-> id ∈ Chains;
  ds_known id : id ∈ Chains <-> exists index, ChainIndexFromID id = Ok index;
  ds_chains : NoDup Chains }.

(** ** The static dependency set *)

Record StaticConfigDependency : Type := {
  ChainIndex : Z;
  ActivationTime : Z;
  HistoryMinTime : Z }.

Record StaticConfigDependencySet : Type := {
  dependencies : gmap Z StaticConfigDependency;
  indexToID : gmap Z Z;
  chainIDs : list Z;
  overrideMessageExpiryWindow : Z }.

Definition MessageExpiryTimeSecondsInterop : Z := 15552000.

Fixpoint hydrate_loop (entries : list (Z * StaticConfigDependency)) (index : gmap Z Z) (ids : list Z)
  : result (gmap Z Z * list Z) :=
  match entries with
  | [] => Ok (index, ids)
  | (id, dep) :: entries' =>
      match index !! ChainIndex dep with
      | Some _ => Err (Msg "chain cannot have the same index as chain")
      | None => hydrate_loop entries' (<[ChainIndex dep := id]> index) (ids ++ [id])
      end
  end.

Definition hydrate `{MapOrder} (deps : gmap Z StaticConfigDependency) (override : Z)
  : result StaticConfigDependencySet :=
  let* (index, ids) := hydrate_loop (range 0 deps) ∅ [] in
  Ok {| dependencies := deps; indexToID := index; chainIDs := merge_sort Z.le ids;
        overrideMessageExpiryWindow := override |}.

Definition NewStaticConfigDependencySet `{MapOrder} (deps : gmap Z StaticConfigDependency)
  : result StaticConfigDependencySet := hydrate deps 0.

Definition NewStaticConfigDependencySetWithMessageExpiryOverride `{MapOrder}
  (deps : gmap Z StaticConfigDependency) (override : Z) : result StaticConfigDependencySet :=
  hydrate deps override.

Section methods.
Variable ds : StaticConfigDependencySet.

Definition sd_CanExecuteAt (chainID execTimestamp : Z) : result bool :=
  match dependencies ds !! chainID with
  | None => Ok false
  | Some dep => Ok (ActivationTime dep <=? execTimestamp)
  end.

Definition sd_CanInitiateAt (chainID initTimestamp : Z) : result bool :=
  match dependencies ds !! chainID with
  | None => Ok false
  | Some dep => Ok (HistoryMinTime dep <=? initTimestamp)
  end.

Definition sd_HasChain (chainID : Z) : bool :=
  match dependencies ds !! chainID with Some _ => true | None => false end.

Definition sd_ChainIndexFromID (id : Z) : result Z :=
  match dependencies ds !! id with
  | None => Err (Wrap "failed to translate chain ID to chain index" ErrUnknownChain)
  | Some dep => Ok (ChainIndex dep)
  end.

Definition sd_ChainIDFromIndex (index : Z) : result Z :=
  match indexToID ds !! index with
  | None => Err (Wrap "failed to translate chain index to chain ID" ErrUnknownChain)
  | Some id => Ok id
  end.

Definition sd_MessageExpiryWindow : Z :=
  if overrideMessageExpiryWindow ds =? 0 then MessageExpiryTimeSecondsInterop
  else overrideMessageExpiryWindow ds.

Definition static_depset : DependencySet :=
  {| CanExecuteAt := sd_CanExecuteAt; CanInitiateAt := sd_CanInitiateAt;
     ChainIDFromIndex := sd_ChainIDFromIndex; ChainIndexFromID := sd_ChainIndexFromID;
     Chains := chainIDs ds; HasChain := sd_HasChain;
     MessageExpiryWindow := sd_MessageExpiryWindow |}.
End methods.

(** ** The hydrated caches agree with the configuration *)

Definition index_clash (deps : gmap Z StaticConfigDependency) : Prop :=
  exists id id' dep dep', id <> id' /\ deps !! id = Some dep /\ deps !! id' = Some dep' /\
    ChainIndex dep = ChainIndex dep'.

(** The loop, on the entries still to come: it succeeds when their indices
    are distinct from one another and from those it has seen. *)
Abbreviation entry_index := (fun e : Z * StaticConfigDependency => ChainIndex e.2).
Abbreviation entry_pair := (fun e : Z * StaticConfigDependency => (ChainIndex e.2, e.1)).

Lemma hydrate_loop_ok entries index ids :
  NoDup (entry_index <$> entries) -> (forall e, e ∈ entries -> index !! entry_index e = None) ->
  exists index', hydrate_loop entries index ids = Ok (index', ids ++ entries.*1) /\
    forall ix id, index' !! ix = Some id <-> index !! ix = Some id \/ (ix, id) ∈ entry_pair <$> entries.
Proof.
  revert index ids. induction entries as [|[id dep] entries IH]; intros index ids Hnd Hfree; simpl.
  { exists index. rewrite app_nil_r. split; [done|]. intros. rewrite elem_of_nil. tauto. }
  apply NoDup_cons in Hnd as [Hni Hnd]. pose proof (Hfree (id, dep) (list_elem_of_here _ _)) as Hnone. simpl in Hnone. rewrite Hnone.
  destruct (IH (<[ChainIndex dep := id]> index) (ids ++ [id]) Hnd) as (index' & -> & Hin).
  { intros e He. rewrite lookup_insert_ne; [by apply Hfree; right|]. intros Heq. apply Hni.
    apply list_elem_of_fmap. by exists e. }
  exists index'. split; [by rewrite <-app_assoc|]. intros ix id'. rewrite Hin, elem_of_cons. simpl.
  destruct (decide (ix = ChainIndex dep)) as [->|Hne].
  - rewrite lookup_insert_eq, Hnone. split; [intros [[= ->]|]; auto|].
    intros [?|[[= ->]|?]]; [done|by left|by right].
  - rewrite lookup_insert_ne by done. naive_solver.
Qed.

Lemma hydrate_loop_err entries index ids :
  ~ NoDup (entry_index <$> entries) \/ (exists e, e ∈ entries /\ is_Some (index !! entry_index e)) ->
  exists e, hydrate_loop entries index ids = Err e.
Proof.
  revert index ids. induction entries as [|[id dep] entries IH]; intros index ids Hbad; simpl.
  { destruct Hbad as [[]|(e & He & _)]; [constructor | by apply elem_of_nil in He]. }
  destruct (index !! ChainIndex dep) eqn:Hix; [by eexists|]. apply IH.
  destruct Hbad as [Hnd|(e & He & Hs)].
  - destruct (decide (ChainIndex dep ∈ entry_index <$> entries)) as [Hin|Hni].
    + right. apply list_elem_of_fmap in Hin as (e & Heq & He). exists e. split; [done|].
      rewrite <-Heq, lookup_insert_eq. eauto.
    + left. contradict Hnd. by constructor.
  - right. apply elem_of_cons in He as [->|He]; [simpl in Hs; rewrite Hix in Hs; by destruct Hs|].
    exists e. split; [done|]. apply lookup_insert_is_Some. destruct (decide (ChainIndex dep = ChainIndex e.2)); auto.
Qed.

Section hydrate.
Context `{MapOrder}.
Variable deps : gmap Z StaticConfigDependency.

Lemma clash_dup t : index_clash deps <-> ~ NoDup (entry_index <$> range t deps).
Proof.
  split.
  - intros (id & id' & dep & dep' & Hne & Hd & Hd' & Heq) Hnd. apply Hne.
    apply elem_of_range with (t := t) in Hd, Hd'.
    apply list_elem_of_lookup in Hd as [i Hi], Hd' as [j Hj].
    assert (i = j) as ->; [|congruence].
    apply (NoDup_lookup _ i j (ChainIndex dep) Hnd);
      rewrite list_lookup_fmap; [rewrite Hi | rewrite Hj, Heq]; done.
  - intros Hnd. pose proof (NoDup_range t deps) as Hk.
    assert (forall e, e ∈ range t deps -> deps !! e.1 = Some e.2) as Hin.
    { intros [k v] He. by apply elem_of_range in He. }
    revert Hnd Hk Hin. generalize (range t deps) as l. induction l as [|e l IH]; intros Hnd Hk Hin.
    { destruct Hnd. constructor. }
    apply NoDup_cons in Hk as [Hke Hk].
    destruct (decide (entry_index e ∈ entry_index <$> l)) as [Hc|Hc].
    + apply list_elem_of_fmap in Hc as (e' & Heq & He').
      exists e.1, e'.1, e.2, e'.2. split.
      { intros Hee. apply Hke. rewrite Hee. apply list_elem_of_fmap. eauto. }
      split; [apply Hin; by left|]. split; [apply Hin; by right|]. done.
    + apply IH; [|done|intros; apply Hin; by right]. contradict Hnd. by constructor.
Qed.

(** The constructor refuses exactly the configurations in which two chains
    share an index, in whatever order the map is iterated. *)
Lemma hydrate_err_iff override : (exists e, hydrate deps override = Err e) <-> index_clash deps.
Proof.
  rewrite (clash_dup 0). unfold hydrate. split.
  - intros [e He] Hnd. destruct (hydrate_loop_ok (range 0 deps) ∅ [] Hnd) as (index & Heq & _);
      [intros; apply lookup_empty|]. by rewrite Heq in He.
  - intros Hc. destruct (hydrate_loop_err (range 0 deps) ∅ []) as [e ->]; eauto.
Qed.

Lemma hydrate_ok override ds : hydrate deps override = Ok ds ->
  dependencies ds = deps /\ overrideMessageExpiryWindow ds = override /\
  chainIDs ds ≡ₚ (map_to_list deps).*1 /\ Sorted Z.le (chainIDs ds) /\
  forall ix id, indexToID ds !! ix = Some id <-> exists dep, deps !! id = Some dep /\ ChainIndex dep = ix.
Proof.
  unfold hydrate. intros Hh.
  destruct (decide (NoDup (entry_index <$> range 0 deps))) as [Hnd|Hd].
  2: { destruct (hydrate_loop_err (range 0 deps) ∅ []) as [e He]; [by left|]. by rewrite He in Hh. }
  destruct (hydrate_loop_ok (range 0 deps) ∅ [] Hnd) as (index & Heq & Hin); [intros; apply lookup_empty|].
  rewrite Heq in Hh. injection Hh as <-. cbn [dependencies overrideMessageExpiryWindow chainIDs indexToID].
  repeat split; try done.
  - by rewrite merge_sort_Permutation, range_perm.
  - apply (Sorted_merge_sort Z.le).
  - rewrite Hin, lookup_empty. intros [?|He]; [done|]. apply list_elem_of_fmap in He as ([i d] & [= -> ->] & He).
    apply elem_of_range in He. eauto.
  - rewrite Hin. intros (dep & Hd & <-). right. apply list_elem_of_fmap. exists (id, dep).
    split; [done|]. by apply elem_of_range.
Qed.
End hydrate.

(** A dependency set that hydrates keeps the interface's promises. *)
Lemma static_depset_laws `{MapOrder} deps override ds : hydrate deps override = Ok ds ->
  DependencySetLaws (static_depset ds).
Proof.
  intros Hh. destruct (hydrate_ok deps override ds Hh) as (Hd & _ & Hids & _ & Hix).
  assert (forall id, id ∈ chainIDs ds <-> is_Some (dependencies ds !! id)) as Hin.
  { intros id. rewrite Hids, Hd, list_elem_of_fmap. split.
    - intros ([i d] & -> & He). apply elem_of_map_to_list in He. eauto.
    - intros [d He]. exists (id, d). split; [done|]. by apply elem_of_map_to_list. }
  split; simpl; unfold sd_ChainIndexFromID, sd_ChainIDFromIndex, sd_HasChain.
  - intros id index. rewrite Hd. specialize (Hix index id). split; intros Heq.
    + destruct (deps !! id) as [dep|] eqn:He; [|done]. injection Heq as <-.
      rewrite (proj2 Hix); [done|]. eauto.
    + destruct (indexToID ds !! index) as [id'|] eqn:He; [|done]. injection Heq as ->.
      destruct (proj1 Hix eq_refl) as (dep & -> & <-). done.
  - intros id. rewrite Hin. by destruct (dependencies ds !! id).
  - intros id. rewrite Hin. destruct (dependencies ds !! id) eqn:He; [naive_solver|].
    split; [by intros []|]. by intros [].
  - rewrite Hids. apply NoDup_fst_map_to_list.
Qed.
