(* ===== verification/SupervisorTypes.v ===== *)
(** * The data of the supervisor's queries

    Access lists of executing messages ([supervisor/types/types.go]): [Access],
    [ParseAccess], [EncodeAccessList] and [ExecutingDescriptor.AccessCheck].
    Output roots and super roots ([src/rhs-service/eth/output.go] and
    super_root.go): the output of one chain and the super root of all of them,
    their encodings for hashing and the parsers of those encodings. *)

From stdpp Require Import base list sorting.
From S2P Require Import Prelude EthTypes EntryDB FromDA DepSet.

(** ** Access lists

    An entry of an access list is a [common.Hash], here its 32 bytes.  A
    message takes two entries, a lookup and a checksum, and a third between
    them when its chain identifier needs more than 64 bits. *)

Definition PrefixLookup : Z := 1.
Definition PrefixChainIDExtension : Z := 2.
Definition PrefixChecksum : Z := 3.

Definition errExpectedEntry : error := Msg "expected entry".
Definition errMalformedEntry : error := Msg "malformed entry".
Definition errUnexpectedEntryType : error := Msg "unexpected entry type".

(** [eth.ChainID] is a 256-bit integer. *)
Definition ChainIDFromBytes32 (b : bytes) : Z := be_decode b.
Definition ChainID_Bytes32 (id : Z) : bytes := be_encode 32 id.
Definition ChainID_IsUint64 (id : Z) : bool := id <? two64.

Record Access : Type := {
  acc_BlockNumber : Z;
  acc_Timestamp : Z;
  acc_LogIndex : Z;
  acc_ChainID : Z;
  acc_Checksum : bytes }.

#[global] Instance Access_eq_dec : EqDecision Access.
Proof. solve_decision. Defined.

Definition lookupEntry (acc : Access) : bytes :=
  [PrefixLookup; 0; 0; 0] ++ be_encode 8 (u64 (acc_ChainID acc)) ++ be_encode 8 (acc_BlockNumber acc)
    ++ be_encode 8 (acc_Timestamp acc) ++ be_encode 4 (acc_LogIndex acc).

Definition chainIDExtensionEntry (acc : Access) : bytes :=
  (PrefixChainIDExtension :: replicate 7 0) ++ take 24 (ChainID_Bytes32 (acc_ChainID acc)).

(** The first entry of a list, or the error of a list that ends too early. *)
Definition next_entry (entries : list bytes) : result (bytes * list bytes) :=
  match entries with [] => Err errExpectedEntry | entry :: entries => Ok (entry, entries) end.

Definition entry_type (entry : bytes) : Z := nth 0 entry 0.

(** The identifier whose lower 8 bytes are [low]'s and whose upper 24 bytes the
    extension entry has. *)
Definition extend_chain_id (low : Z) (entry : bytes) : Z :=
  ChainIDFromBytes32 (slice 8 32 entry ++ drop 24 (ChainID_Bytes32 low)).

Definition ParseAccess (entries : list bytes) : result (list bytes * Access) :=
  let* (entry, entries) := next_entry entries in
  if negb (entry_type entry =? PrefixLookup) then Err (Wrap "expected lookup" errUnexpectedEntryType)
  else if negb (bool_decide (slice 1 4 entry = replicate 3 0)) then Err (Wrap "expected zero bytes" errMalformedEntry)
  else
    let access chainID checksum :=
      {| acc_ChainID := chainID; acc_BlockNumber := be_decode (slice 12 20 entry);
         acc_Timestamp := be_decode (slice 20 28 entry); acc_LogIndex := be_decode (slice 28 32 entry);
         acc_Checksum := checksum |} in
    let low := be_decode (slice 4 12 entry) in
    let checksum entry entries chainID :=
      if negb (entry_type entry =? PrefixChecksum) then Err (Wrap "expected checksum" errUnexpectedEntryType)
      else Ok (entries, access chainID entry) in
    let* (entry, entries) := next_entry entries in
    if entry_type entry =? PrefixChainIDExtension then
      if negb (bool_decide (slice 1 8 entry = replicate 7 0)) then Err (Msg "expected zero bytes")
      else
        let chainID := extend_chain_id low entry in
        let* (entry, entries) := next_entry entries in
        checksum entry entries chainID
    else checksum entry entries low.

(** One message of the list. *)
Definition access_entries (acc : Access) : result (list bytes) :=
  let extension := if ChainID_IsUint64 (acc_ChainID acc) then [] else [chainIDExtensionEntry acc] in
  if negb (entry_type (acc_Checksum acc) =? PrefixChecksum) then Panic
  else Ok (lookupEntry acc :: extension ++ [acc_Checksum acc]).

Fixpoint EncodeAccessList (accesses : list Access) : result (list bytes) :=
  match accesses with
  | [] => Ok []
  | acc :: accesses =>
      let* entries := access_entries acc in
      let* rest := EncodeAccessList accesses in
      Ok (entries ++ rest)
  end.

(** ** When a message may execute *)

Record ExecutingDescriptor : Type := {
  ed_Timestamp : Z;
  ed_Timeout : Z }.

Definition AccessCheck (ed : ExecutingDescriptor) (expiryWindow initMsgTimestamp : Z) : result unit :=
  if ed_Timestamp ed <? initMsgTimestamp then Err (Wrap "message broke timestamp invariant" ErrConflict)
  else if ed_Timestamp ed =? initMsgTimestamp then Err (Wrap "access-list check does not allow intra-timestamp" ErrConflict)
  else
    let expiryAt := u64 (initMsgTimestamp + expiryWindow) in
    if expiryAt <? initMsgTimestamp then Err (Wrap "message timestamp too high, overflows" ErrConflict)
    else if expiryAt <? ed_Timestamp ed then Err (Wrap "cannot message execute, message expired" ErrConflict)
    else if ed_Timeout ed =? 0 then Ok tt
    else if u64 (ed_Timestamp ed + ed_Timeout ed) <? ed_Timestamp ed then Err (Wrap "message timeout too high, overflows" ErrConflict)
    else if expiryAt <? u64 (ed_Timestamp ed + ed_Timeout ed) then Err (Wrap "cannot execute message at timeout" ErrConflict)
    else Ok tt.

(** The rule in unbounded arithmetic: the message was initiated before it
    executes and has not expired at the end of the executing span. *)
Definition timely (ed : ExecutingDescriptor) (window init : Z) : Prop :=
  init < ed_Timestamp ed /\ ed_Timestamp ed + ed_Timeout ed <= init + window /\ init + window < two64.

Lemma u64_wraps z : two64 <= z < 2 * two64 -> u64 z = z - two64.
Proof.
  intros Hz. unfold u64. replace z with (z - two64 + 1 * two64) at 1 by lia. rewrite Z.mod_add by (by vm_compute).
  apply Z.mod_small. lia.
Qed.

Lemma AccessCheck_timely ed window init : is_u64 (ed_Timestamp ed) -> is_u64 (ed_Timeout ed) -> is_u64 window -> is_u64 init ->
  AccessCheck ed window init = Ok tt <-> timely ed window init.
Proof.
  unfold is_u64, timely, AccessCheck. intros Ht Ho Hw Hi.
  destruct (Z.ltb_spec (ed_Timestamp ed) init); [split; [done|lia]|].
  destruct (Z.eqb_spec (ed_Timestamp ed) init); [split; [done|lia]|].
  destruct (decide (init + window < two64)) as [Hlt|Hge]; cycle 1.
  { rewrite (u64_wraps (init + window)) by (unfold is_u64; lia). destruct (Z.ltb_spec (init + window - two64) init); [split; [done|lia]|lia]. }
  rewrite (u64_small (init + window)) by (unfold is_u64; lia). destruct (Z.ltb_spec (init + window) init); [lia|].
  destruct (Z.ltb_spec (init + window) (ed_Timestamp ed)); [split; [done|lia]|].
  destruct (Z.eqb_spec (ed_Timeout ed) 0); [split; [lia|done]|].
  destruct (decide (ed_Timestamp ed + ed_Timeout ed < two64)) as [Hs|Hs]; cycle 1.
  { rewrite (u64_wraps (ed_Timestamp ed + ed_Timeout ed)) by lia.
    destruct (Z.ltb_spec (ed_Timestamp ed + ed_Timeout ed - two64) (ed_Timestamp ed)); [split; [done|lia]|lia]. }
  rewrite (u64_small (ed_Timestamp ed + ed_Timeout ed)) by (unfold is_u64; lia). destruct (Z.ltb_spec (ed_Timestamp ed + ed_Timeout ed) (ed_Timestamp ed)); [lia|].
  destruct (Z.ltb_spec (init + window) (ed_Timestamp ed + ed_Timeout ed)); split; done || lia.
Qed.

(** ** The round trip *)

Record access_ok (acc : Access) : Prop := {
  ao_BlockNumber : is_u64 (acc_BlockNumber acc);
  ao_Timestamp : is_u64 (acc_Timestamp acc);
  ao_LogIndex : is_u32 (acc_LogIndex acc);
  ao_ChainID : 0 <= acc_ChainID acc < 256 ^ 32;
  ao_Checksum : entry_type (acc_Checksum acc) = PrefixChecksum }.

(** The encoding of an integer splits into the encodings of its upper and its
    lower bytes. *)
Lemma drop_be_encode k n z : drop k (be_encode (k + n) z) = be_encode n z.
Proof. by induction k as [|k IH]. Qed.

Lemma be_encode_split k n z : be_encode (k + n) z = take k (be_encode (k + n) z) ++ be_encode n z.
Proof. rewrite <-(drop_be_encode k n z). symmetry. apply take_drop. Qed.

Lemma lookup_fields acc : access_ok acc ->
  entry_type (lookupEntry acc) = PrefixLookup /\ slice 1 4 (lookupEntry acc) = replicate 3 0 /\
  be_decode (slice 4 12 (lookupEntry acc)) = u64 (acc_ChainID acc) /\
  be_decode (slice 12 20 (lookupEntry acc)) = acc_BlockNumber acc /\
  be_decode (slice 20 28 (lookupEntry acc)) = acc_Timestamp acc /\
  be_decode (slice 28 32 (lookupEntry acc)) = acc_LogIndex acc.
Proof.
  intros [Hb Ht Hl Hc _]. unfold lookupEntry. split_and!; [done|done|..].
  - rewrite (slice_app_mid [PrefixLookup; 0; 0; 0] (be_encode 8 _)) by (rewrite ?length_be_encode; done).
    rewrite be_decode_u64; [done|]. by apply Z.mod_pos_bound.
  - rewrite app_assoc, slice_app_mid by (rewrite ?length_app, ?length_be_encode; done). by apply be_decode_u64.
  - rewrite 2!app_assoc, slice_app_mid by (rewrite ?length_app, ?length_be_encode; done). by apply be_decode_u64.
  - rewrite 3!app_assoc, <-(app_nil_r (be_encode 4 _)), slice_app_mid by (rewrite ?length_app, ?length_be_encode; done). by apply be_decode_u32.
Qed.

Lemma extend_chain_id_entry acc : access_ok acc ->
  extend_chain_id (u64 (acc_ChainID acc)) (chainIDExtensionEntry acc) = acc_ChainID acc.
Proof.
  intros [_ _ _ Hc _]. unfold extend_chain_id, chainIDExtensionEntry, ChainIDFromBytes32, ChainID_Bytes32.
  rewrite <-(app_nil_r (take 24 _)), slice_app_mid by (rewrite ?length_take, ?length_be_encode; done).
  rewrite (drop_be_encode 24 8). change two64 with (256 ^ Z.of_nat 8). unfold u64.
  change two64 with (256 ^ Z.of_nat 8). rewrite be_encode_mod by done. rewrite <-(be_encode_split 24 8).
  rewrite be_decode_encode. by apply Z.mod_small.
Qed.

Lemma ParseAccess_entries acc entries rest : access_ok acc -> access_entries acc = Ok entries ->
  ParseAccess (entries ++ rest) = Ok (rest, acc).
Proof.
  intros Hok He. destruct (lookup_fields acc Hok) as (H0 & H1 & H2 & H3 & H4 & H5).
  unfold access_entries in He. rewrite (ao_Checksum _ Hok), Z.eqb_refl in He. cbn [negb] in He. apply Ok_inj in He as <-.
  unfold ParseAccess. cbn [app next_entry rbind]. rewrite H0, H1, H2, H3, H4, H5, Z.eqb_refl, bool_decide_true by done. cbn [negb].
  unfold ChainID_IsUint64. destruct (Z.ltb_spec (acc_ChainID acc) two64) as [Hlt|Hge]; cbn [app next_entry rbind].
  - rewrite (ao_Checksum _ Hok). cbn [negb]. change (PrefixChecksum =? PrefixChainIDExtension) with false. cbn iota.
    rewrite Z.eqb_refl. cbn [negb]. rewrite u64_small by (split; [apply (ao_ChainID _ Hok)|done]). by destruct acc.
  - change (entry_type (chainIDExtensionEntry acc)) with PrefixChainIDExtension. rewrite Z.eqb_refl.
    rewrite bool_decide_true by done. cbn [negb]. rewrite (ao_Checksum _ Hok), Z.eqb_refl. cbn [negb].
    rewrite extend_chain_id_entry by done. by destruct acc.
Qed.

(** [parses entries accs]: the list is the entries of the messages [accs], one
    after the other. *)
Inductive parses : list bytes -> list Access -> Prop :=
  | parses_nil : parses [] []
  | parses_cons entries rest acc accs :
      entries <> [] -> ParseAccess entries = Ok (rest, acc) -> parses rest accs -> parses entries (acc :: accs).

Lemma parses_unique entries accs accs' : parses entries accs -> parses entries accs' -> accs = accs'.
Proof.
  intros Hp. revert accs'. induction Hp as [|entries rest acc accs Hne Ha Hp IH]; intros accs' Hp'; inversion Hp'; subst; [done..|].
  match goal with E : ParseAccess entries = Ok (?r, ?a) |- _ => rewrite Ha in E; apply Ok_inj in E; injection E as <- <- end.
  f_equal. by apply IH.
Qed.

(** C33: an access list reads back.  The entries of messages with fields of their
    width and a checksum of the right kind are produced without a panic and
    parse into exactly those messages, chain identifiers of more than 64 bits
    included, and into no others. *)
Theorem access_list_roundtrip accs : Forall access_ok accs ->
  exists entries, EncodeAccessList accs = Ok entries /\ forall accs', parses entries accs' <-> accs' = accs.
Proof.
  intros Hok. assert (exists entries, EncodeAccessList accs = Ok entries /\ parses entries accs) as (entries & He & Hp).
  { induction Hok as [|acc accs Ha Hok (rest & Hr & Hp)]; [by exists []; split; [|constructor]|].
    assert (exists es, access_entries acc = Ok es /\ es <> []) as (es & He & Hne).
    { unfold access_entries. rewrite (ao_Checksum _ Ha). by eexists. }
    exists (es ++ rest). simpl. rewrite He, Hr. split; [done|].
    apply parses_cons with rest; [by destruct es|by apply ParseAccess_entries|done]. }
  exists entries. split; [done|]. intros accs'. split; [intros Hp'; by eapply parses_unique|by intros ->].
Qed.

(** What a parsed message takes from the list, so that parsing ends. *)
Lemma ParseAccess_shorter entries rest acc : ParseAccess entries = Ok (rest, acc) -> (length rest < length entries)%nat.
Proof.
  unfold ParseAccess. destruct entries as [|e [|e' [|e'' l]]]; cbn [next_entry rbind]; repeat (case_match; try done);
    cbn [next_entry rbind]; repeat (case_match; try done); intros [= <- _]; simpl; lia.
Qed.

Lemma ParseAccess_no_panic entries : ParseAccess entries <> Panic.
Proof.
  unfold ParseAccess. destruct entries as [|e [|e' [|e'' l]]]; cbn [next_entry rbind];
    repeat (first [done|case_match|progress cbn [next_entry rbind]]).
Qed.

(** ** Output roots and super roots

    A slice expression may reach beyond the length of a slice, up to its
    capacity.  The parser of super roots does, so its input is the data and
    what lies behind it in the same array. *)

(** ** Outputs *)

Definition ErrInvalidOutput : error := Msg "invalid output".
Definition ErrInvalidOutputVersion : error := Msg "invalid output version".
Definition OutputVersionV0 : bytes := replicate 32 0.

Record OutputV0 : Type := {
  ov_StateRoot : bytes;
  ov_MessagePasserStorageRoot : bytes;
  ov_BlockHash : bytes }.

Definition OutputV0_Marshal (o : OutputV0) : bytes :=
  OutputVersionV0 ++ ov_StateRoot o ++ ov_MessagePasserStorageRoot o ++ ov_BlockHash o.

Definition OutputRoot `{Keccak} (o : OutputV0) : bytes := keccak256 (OutputV0_Marshal o).

Definition unmarshalOutputV0 (data : bytes) : result OutputV0 :=
  if negb (length data =? 128)%nat then Err ErrInvalidOutput
  else Ok {| ov_StateRoot := slice 32 64 data; ov_MessagePasserStorageRoot := slice 64 96 data; ov_BlockHash := slice 96 128 data |}.

Definition UnmarshalOutput (data : bytes) : result OutputV0 :=
  if (length data <? 32)%nat then Err ErrInvalidOutput
  else if bool_decide (take 32 data = OutputVersionV0) then unmarshalOutputV0 data
  else Err ErrInvalidOutputVersion.

(** Arrays of 32 bytes. *)
Definition output_ok (o : OutputV0) : Prop :=
  length (ov_StateRoot o) = 32%nat /\ length (ov_MessagePasserStorageRoot o) = 32%nat /\ length (ov_BlockHash o) = 32%nat.

(** ** Super roots *)

Definition ErrInvalidSuperRoot : error := Msg "invalid super root".
Definition ErrInvalidSuperRootVersion : error := Msg "invalid super root version".
Definition SuperRootVersionV1 : Z := 1.
Definition SuperRootVersionV1MinLen : nat := 1 + 8 + 32.

Record ChainIDAndOutput : Type := {
  co_ChainID : Z;
  co_Output : bytes }.

Definition ChainIDAndOutput_Marshal (c : ChainIDAndOutput) : bytes := ChainID_Bytes32 (co_ChainID c) ++ co_Output c.

Record SuperV1 : Type := {
  sv_Timestamp : Z;
  sv_Chains : list ChainIDAndOutput }.

(** The order of [slices.SortFunc] of chains with distinct identifiers. *)
Definition chain_le (a b : ChainIDAndOutput) : Prop := co_ChainID a <= co_ChainID b.

#[global] Instance chain_le_dec : RelDecision chain_le.
Proof. intros a b. unfold chain_le. apply _. Defined.

Definition NewSuperV1 (timestamp : Z) (chains : list ChainIDAndOutput) : SuperV1 :=
  {| sv_Timestamp := timestamp; sv_Chains := merge_sort chain_le chains |}.

Definition SuperV1_Marshal (s : SuperV1) : bytes :=
  SuperRootVersionV1 :: be_encode 8 (sv_Timestamp s) ++ concat (ChainIDAndOutput_Marshal <$> sv_Chains s).

Definition SuperRoot `{Keccak} (s : SuperV1) : bytes := keccak256 (SuperV1_Marshal s).

(** The loop over the chains, from offset [i] of data of length [n] in an array
    that holds [array]. *)
Fixpoint read_outputs (fuel n i : nat) (array : bytes) : result (list ChainIDAndOutput) :=
  match fuel with
  | O => Ok []
  | S fuel =>
      if (n <=? i)%nat then Ok []
      else if (length array <? i + 64)%nat then Panic
      else
        let chainOutput := {| co_ChainID := ChainIDFromBytes32 (slice i (i + 32) array); co_Output := slice (i + 32) (i + 64) array |} in
        let* rest := read_outputs fuel n (i + 64) array in
        Ok (chainOutput :: rest)
  end.

Definition unmarshalSuperRootV1 (data spare : bytes) : result SuperV1 :=
  if (length data <? SuperRootVersionV1MinLen)%nat then Err ErrInvalidSuperRoot
  else if negb ((length data - 9) mod 32 =? 0)%nat then Err ErrInvalidSuperRoot
  else
    let* chains := read_outputs (length data) (length data) 9 (data ++ spare) in
    Ok {| sv_Timestamp := be_decode (slice 1 9 data); sv_Chains := chains |}.

Definition UnmarshalSuperRoot (data spare : bytes) : result SuperV1 :=
  match data with
  | [] => Err ErrInvalidSuperRoot
  | ver :: _ => if ver =? SuperRootVersionV1 then unmarshalSuperRootV1 data spare else Err ErrInvalidSuperRootVersion
  end.

Record ChainRootInfo : Type := {
  cri_ChainID : Z;
  cri_Canonical : bytes;
  cri_Pending : bytes }.

Record SuperRootResponse : Type := {
  sr_CrossSafeDerivedFrom : BlockID;
  sr_Timestamp : Z;
  sr_SuperRoot : bytes;
  sr_Version : Z;
  sr_Chains : list ChainRootInfo }.

Definition info_output (c : ChainRootInfo) : ChainIDAndOutput := {| co_ChainID := cri_ChainID c; co_Output := cri_Canonical c |}.

Definition ToSuper (s : SuperRootResponse) : result SuperV1 :=
  if negb (sr_Version s =? SuperRootVersionV1) then Err (Wrap "version" ErrInvalidSuperRootVersion)
  else Ok (NewSuperV1 (sr_Timestamp s) (info_output <$> sr_Chains s)).

(** ** Outputs read back *)

Lemma take_32_cases (l : bytes) : length l = 128%nat ->
  l = take 32 l ++ slice 32 64 l ++ slice 64 96 l ++ slice 96 128 l.
Proof.
  intros Hl. unfold slice. simpl. rewrite <-(take_drop 32 l) at 1. f_equal.
  rewrite <-(take_drop 32 (drop 32 l)) at 1. f_equal. rewrite drop_drop.
  rewrite <-(take_drop 32 (drop _ l)) at 1. f_equal. rewrite drop_drop. symmetry. apply take_ge. rewrite length_drop. lia.
Qed.

(** The parser of outputs accepts exactly the encodings of outputs, each as what
    was encoded. *)
Lemma UnmarshalOutput_spec data o : UnmarshalOutput data = Ok o <-> data = OutputV0_Marshal o /\ output_ok o.
Proof.
  unfold UnmarshalOutput, unmarshalOutputV0, OutputV0_Marshal, output_ok. split.
  - destruct (Nat.ltb_spec (length data) 32); [done|]. case_bool_decide as Hv; [|done].
    destruct (Nat.eqb_spec (length data) 128) as [Hl|]; [|done]. cbn [negb]. intros [= <-]. cbn [ov_StateRoot ov_MessagePasserStorageRoot ov_BlockHash].
    split; [rewrite <-Hv; by apply take_32_cases|]. unfold slice. rewrite !length_take, !length_drop. split_and!; lia.
  - intros (-> & Hs & Hm & Hb). rewrite !length_app, Hs, Hm, Hb. change (length OutputVersionV0) with 32%nat. cbn [Nat.add Nat.ltb Nat.leb].
    rewrite take_app_length' by done. rewrite bool_decide_true by done. cbn [Nat.eqb negb]. f_equal.
    destruct o as [sr mp bh]. cbn [ov_StateRoot ov_MessagePasserStorageRoot ov_BlockHash] in *. f_equal.
    + by apply slice_app_mid.
    + rewrite app_assoc. apply slice_app_mid; [by rewrite length_app, Hs|exact Hm].
    + rewrite 2!app_assoc, <-(app_nil_r bh), slice_app_mid; [by rewrite app_nil_r|by rewrite !length_app, Hs, Hm|exact Hb].
Qed.

(** ** Super roots read back *)

Record chain_output_ok (c : ChainIDAndOutput) : Prop := {
  cok_ChainID : 0 <= co_ChainID c < 256 ^ 32;
  cok_Output : length (co_Output c) = 32%nat }.

Definition super_ok (s : SuperV1) : Prop :=
  is_u64 (sv_Timestamp s) /\ sv_Chains s <> [] /\ Forall chain_output_ok (sv_Chains s).

Lemma length_chain_Marshal c : chain_output_ok c -> length (ChainIDAndOutput_Marshal c) = 64%nat.
Proof. intros [_ Ho]. unfold ChainIDAndOutput_Marshal, ChainID_Bytes32. by rewrite length_app, length_be_encode, Ho. Qed.

Lemma length_chains_Marshal cs : Forall chain_output_ok cs -> length (concat (ChainIDAndOutput_Marshal <$> cs)) = (64 * length cs)%nat.
Proof.
  induction 1 as [|c cs Hc Hcs IH]; [done|]. rewrite fmap_cons. cbn [concat]. rewrite length_app, length_chain_Marshal, IH by done.
  simpl length. lia.
Qed.

Lemma read_outputs_ok spare cs : Forall chain_output_ok cs -> forall fuel pre n,
  n = (length pre + 64 * length cs)%nat -> (length cs <= fuel)%nat ->
  read_outputs fuel n (length pre) (pre ++ concat (ChainIDAndOutput_Marshal <$> cs) ++ spare) = Ok cs.
Proof.
  induction 1 as [|c cs Hc Hcs IH]; intros fuel pre n Hn Hf.
  - destruct fuel as [|fuel]; [done|]. simpl in *. by rewrite (proj2 (Nat.leb_le n (length pre))) by lia.
  - destruct fuel as [|fuel]; [simpl in Hf; lia|]. cbn [read_outputs length] in *.
    rewrite (proj2 (Nat.leb_gt n (length pre))) by lia. rewrite fmap_cons. cbn [concat].
    pose proof (length_chain_Marshal c Hc) as Hl. rewrite <-app_assoc.
    rewrite (proj2 (Nat.ltb_ge _ _)) by (rewrite !length_app; lia).
    specialize (IH fuel (pre ++ ChainIDAndOutput_Marshal c) n).
    rewrite length_app, Hl, <-app_assoc in IH. rewrite IH by lia. cbn [rbind]. f_equal. f_equal. destruct c as [id out]. f_equal.
    + destruct Hc as [Hid Ho]. unfold ChainIDAndOutput_Marshal, ChainIDFromBytes32, ChainID_Bytes32. simpl co_ChainID in *. simpl co_Output.
      rewrite <-app_assoc. rewrite slice_app_mid by (rewrite ?length_be_encode; lia).
      rewrite be_decode_encode. by apply Z.mod_small.
    + destruct Hc as [Hid Ho]. unfold ChainIDAndOutput_Marshal, ChainID_Bytes32. simpl co_ChainID in *. simpl co_Output in *.
      rewrite <-app_assoc, app_assoc. apply slice_app_mid; rewrite ?length_app, ?length_be_encode; lia.
Qed.

(** A super root's preimage reads back: the encoding of a super root of at
    least one chain parses into what was encoded, whatever lies behind it. *)
Theorem super_root_roundtrip s spare : super_ok s -> UnmarshalSuperRoot (SuperV1_Marshal s) spare = Ok s.
Proof.
  intros (Ht & Hne & Hcs). pose proof (length_chains_Marshal _ Hcs) as Hl.
  assert (Hlen : length (SuperV1_Marshal s) = (9 + 64 * length (sv_Chains s))%nat).
  { unfold SuperV1_Marshal. cbn [length]. rewrite length_app, length_be_encode, Hl. lia. }
  assert (0 < length (sv_Chains s))%nat as Hpos by (destruct (sv_Chains s); [done|simpl; lia]).
  unfold UnmarshalSuperRoot. unfold SuperV1_Marshal at 1. rewrite Z.eqb_refl. unfold unmarshalSuperRootV1. rewrite Hlen.
  rewrite (proj2 (Nat.ltb_ge _ _)) by (unfold SuperRootVersionV1MinLen; lia).
  replace (9 + 64 * length (sv_Chains s) - 9)%nat with (2 * length (sv_Chains s) * 32)%nat by lia. rewrite Nat.Div0.mod_mul. cbn [Nat.eqb negb].
  assert (SuperV1_Marshal s ++ spare = (SuperRootVersionV1 :: be_encode 8 (sv_Timestamp s)) ++
            concat (ChainIDAndOutput_Marshal <$> sv_Chains s) ++ spare) as ->.
  { unfold SuperV1_Marshal. cbn [app]. by rewrite <-app_assoc. }
  pose proof (read_outputs_ok spare _ Hcs (9 + 64 * length (sv_Chains s)) (SuperRootVersionV1 :: be_encode 8 (sv_Timestamp s))
                (9 + 64 * length (sv_Chains s))) as Hr.
  assert (length (SuperRootVersionV1 :: be_encode 8 (sv_Timestamp s)) = 9%nat) as Hp by (cbn [length]; by rewrite length_be_encode).
  rewrite Hp in Hr. rewrite Hr by lia. cbn [rbind]. f_equal. destruct s as [t cs]. f_equal.
  unfold SuperV1_Marshal. cbn [sv_Timestamp sv_Chains].
  match goal with |- be_decode (slice 1 9 (?v :: ?l)) = _ => change (v :: l) with ([v] ++ l) end. rewrite (slice_app_mid [SuperRootVersionV1] (be_encode 8 t)) by (rewrite ?length_be_encode; done).
  by apply be_decode_u64.
Qed.

(** The length check takes half a chain for a chain: data that ends after a
    chain identifier makes the parser panic, unless there are more bytes behind
    it in the same array, which then become the output root. *)
Lemma read_outputs_half k : forall fuel n i array, (0 < fuel)%nat -> (length array = i + 64 * k + 32)%nat -> n = length array -> (k < fuel)%nat ->
  read_outputs fuel n i array = Panic.
Proof.
  induction k as [|k IH]; intros fuel n i array Hf Hl -> Hk; (destruct fuel as [|fuel]; [lia|]); cbn [read_outputs];
    rewrite (proj2 (Nat.leb_gt _ _)) by lia.
  - by rewrite (proj2 (Nat.ltb_lt _ _)) by lia.
  - rewrite (proj2 (Nat.ltb_ge _ _)) by lia. by rewrite (IH fuel _ (i + 64)%nat) by lia.
Qed.

Lemma half_chain_panics data k : head data = Some SuperRootVersionV1 -> (length data = 9 + 64 * k + 32)%nat -> UnmarshalSuperRoot data [] = Panic.
Proof.
  intros Hv Hl. destruct data as [|v data]; [done|]. injection Hv as ->. unfold UnmarshalSuperRoot. rewrite Z.eqb_refl.
  unfold unmarshalSuperRootV1. rewrite (proj2 (Nat.ltb_ge _ _)) by (unfold SuperRootVersionV1MinLen; lia).
  replace (length (SuperRootVersionV1 :: data) - 9)%nat with ((2 * k + 1) * 32)%nat by lia. rewrite Nat.Div0.mod_mul. cbn [Nat.eqb negb].
  rewrite app_nil_r, (read_outputs_half k); [done|lia..].
Qed.

Lemma half_chain_reads_beyond :
  let data := SuperV1_Marshal {| sv_Timestamp := 5; sv_Chains := [] |} ++ ChainID_Bytes32 901 in
  UnmarshalSuperRoot data (replicate 32 7) = Ok {| sv_Timestamp := 5; sv_Chains := [{| co_ChainID := 901; co_Output := replicate 32 7 |}] |}.
Proof. vm_compute. reflexivity. Qed.

(** The response of chains in ascending order stands for its own super root. *)
Lemma ToSuper_sorted r : sr_Version r = SuperRootVersionV1 -> StronglySorted Z.lt (cri_ChainID <$> sr_Chains r) ->
  ToSuper r = Ok {| sv_Timestamp := sr_Timestamp r; sv_Chains := info_output <$> sr_Chains r |}.
Proof.
  intros Hv Hs. unfold ToSuper. rewrite Hv, Z.eqb_refl. cbn [negb]. unfold NewSuperV1. do 2 f_equal.
  remember (info_output <$> sr_Chains r) as l eqn:Hl. assert (StronglySorted (fun a b => co_ChainID a < co_ChainID b) l) as Hs'.
  { subst l. clear Hv. induction (sr_Chains r) as [|c cs IH]; [constructor|]. rewrite fmap_cons in *. inversion Hs as [|? ? Hs1 Hf]; subst.
    constructor; [by apply IH|]. apply Forall_fmap. change (list_fmap _ _ cri_ChainID cs) with (cri_ChainID <$> cs) in Hf. rewrite Forall_fmap in Hf. eapply Forall_impl; [exact Hf|done]. }
  clear Hl Hs Hv r. apply (StronglySorted_unique_strong chain_le).
  - intros x1 x2 H1 H2 Hle Hle'. unfold chain_le in *. assert (co_ChainID x1 = co_ChainID x2) as Heq by lia.
    rewrite merge_sort_Permutation in H1. clear Hle Hle'.
    induction Hs' as [|a l Hs' IH Hf]; [by apply elem_of_nil in H1|]. rewrite Forall_forall in Hf.
    apply elem_of_cons in H1 as [->|H1]; apply elem_of_cons in H2 as [->|H2]; [done| | |by apply IH].
    + specialize (Hf _ H2). lia.
    + specialize (Hf _ H1). simpl in Hf. lia.
  - apply StronglySorted_merge_sort; [intros a b d; unfold chain_le; lia|intros a b; unfold chain_le; lia].
  - clear -Hs'. induction Hs' as [|a l Hs IH Hf]; constructor; [done|]. eapply Forall_impl; [exact Hf|]. unfold chain_le. simpl. lia.
  - apply merge_sort_Permutation.
Qed.
