(* ===== verification/CrossGraph.v ===== *)
(** * Cycle check of intra-timestamp messages

    [rhs-supervisor/supervisor/backend/cross/cycle.go]: the logs of the
    hazard blocks become the nodes of a dependency graph, and Kahn's
    algorithm decides whether the graph has a cycle.

    [HazardSet] entries are a map from chain index to block seal; the
    databases behind [OpenBlock] are a parameter.  The order of every map
    iteration is chosen by a [MapOrder]; [NodeOrder] is the choice of the
    next node without incoming edges in [checkGraph], whose inner [range]
    visits, and whose outer loop revisits, the set while the body changes
    it: any node of the set may come next. *)

From stdpp Require Import base gmap sets list relations.
From S2P Require Import Prelude EthTypes EntryDB FromDA DepSet.

Definition ErrCycle : error := Msg "cycle detected".
Definition ErrExecMsgHasInvalidIndex : error := Msg "executing message has invalid log index".
Definition ErrExecMsgUnknownChain : error := Msg "executing message references unknown chain".

Record node : Type := Node { n_chainIndex : Z; n_logIndex : Z }.

#[global] Instance node_eq_dec : EqDecision node.
Proof. solve_decision. Defined.
#[global] Instance node_countable : Countable node.
Proof.
  apply (inj_countable' (fun n => (n_chainIndex n, n_logIndex n)) (fun p => Node p.1 p.2)).
  by intros [].
Defined.

Record graph : Type := {
  inDegree0 : gset node;
  inDegreeNon0 : gmap node Z;
  outgoingEdges : gmap node (list node) }.

Definition empty_graph : graph :=
  {| inDegree0 := ∅; inDegreeNon0 := ∅; outgoingEdges := ∅ |}.

Definition addEdge (g : graph) (from to : node) : graph :=
  {| inDegree0 := inDegree0 g ∖ {[to]};
     inDegreeNon0 := <[to := u32 (default 0 (inDegreeNon0 g !! to) + 1)]> (inDegreeNon0 g);
     outgoingEdges := <[from := default [] (outgoingEdges g !! from) ++ [to]]> (outgoingEdges g) |}.

Definition blockSealMatchesRef (seal : BlockSeal) (ref : BlockRef) : bool :=
  (bs_Number seal =? l1_Number ref) && (bs_Hash seal =? l1_Hash ref).

(** What [OpenBlock] returns. *)
Record OpenedBlock : Type := {
  ob_ref : BlockRef;
  ob_logCount : Z;
  ob_execMsgs : gmap Z ExecutingMessage }.

Class NodeOrder : Type := {
  pick (t : nat) (s : gset node) : option node;
  pick_elem t s n : pick t s = Some n -> n ∈ s;
  pick_none t s : pick t s = None -> s = ∅ }.

#[refine] Definition first_node : NodeOrder := {| pick t s := head (elements s) |}.
Proof.
  - intros _ s n Hn. apply elem_of_elements. destruct (elements s); [done|]. injection Hn as ->. left.
  - intros _ s Hn. apply leibniz_equiv, elements_empty_inv. by destruct (elements s).
Defined.

Section cycle.
Context `{MapOrder} `{NodeOrder}.
Variable chainID_of : Z -> result Z.
Variable OpenBlock : Z -> Z -> result OpenedBlock.

Definition Logs : Type := gmap Z Z * gmap Z (gmap Z ExecutingMessage).

(** The validation loop over the executing messages. *)
Fixpoint check_indices (logCount : Z) (msgs : list (Z * ExecutingMessage)) : result unit :=
  match msgs with
  | [] => Ok tt
  | (logIdx, _) :: msgs' =>
      if logCount <=? logIdx then Err (Wrap "log index" ErrExecMsgHasInvalidIndex)
      else check_indices logCount msgs'
  end.

(** The loop that stores the messages of the timestamp. *)
Fixpoint store_msgs (inTimestamp : Z) (chain : Z) (msgs : list (Z * ExecutingMessage))
  (execMsgs : gmap Z (gmap Z ExecutingMessage)) : result (gmap Z (gmap Z ExecutingMessage)) :=
  match msgs with
  | [] => Ok execMsgs
  | (logIdx, msg) :: msgs' =>
      if em_Timestamp msg =? inTimestamp then
        match execMsgs !! chain with
        | None => Panic   (* assignment to an entry of a nil map *)
        | Some m => store_msgs inTimestamp chain msgs' (<[chain := <[logIdx := msg]> m]> execMsgs)
        end
      else store_msgs inTimestamp chain msgs' execMsgs
  end.

Definition gather_one (inTimestamp : Z) (chain : Z) (hazardBlock : BlockSeal) (logs : Logs) : result Logs :=
  let '(logCounts, execMsgs) := logs in
  let* hazardChainID := chainID_of chain in
  let* bl := map_err (Wrap "failed to open block") (OpenBlock hazardChainID (bs_Number hazardBlock)) in
  if negb (blockSealMatchesRef hazardBlock (ob_ref bl)) then
    Err (Msg "tried to open block, but got different block than expected, use a reorg lock for consistency")
  else
    let* _ := check_indices (ob_logCount bl) (range (3 * chain + 1) (ob_execMsgs bl)) in
    let logCounts := <[chain := ob_logCount bl]> logCounts in
    let execMsgs :=
      if decide (ob_execMsgs bl = ∅) then execMsgs
      else match execMsgs !! chain with Some _ => execMsgs | None => <[chain := ∅]> execMsgs end in
    let* execMsgs := store_msgs inTimestamp chain (range (3 * chain + 2) (ob_execMsgs bl)) execMsgs in
    Ok (logCounts, execMsgs).

Fixpoint gather_loop (inTimestamp : Z) (hazards : list (Z * BlockSeal)) (logs : Logs) : result Logs :=
  match hazards with
  | [] => Ok logs
  | (chain, hazardBlock) :: hazards' =>
      let* logs := gather_one inTimestamp chain hazardBlock logs in
      gather_loop inTimestamp hazards' logs
  end.

Definition gatherLogs (inTimestamp : Z) (hazards : gmap Z BlockSeal) : result Logs :=
  gather_loop inTimestamp (range 0 hazards) (∅, ∅).

(** The nodes and the edges between sequential logs of one chain. *)
Definition add_log (chain : Z) (g : graph) (i : Z) : graph :=
  let k := Node chain i in
  if i =? 0 then
    {| inDegree0 := inDegree0 g ∪ {[k]}; inDegreeNon0 := inDegreeNon0 g; outgoingEdges := outgoingEdges g |}
  else addEdge g (Node chain (i - 1)) k.

Definition add_chain (g : graph) (e : Z * Z) : graph :=
  foldl (add_log e.1) g (seqZ 0 e.2).

(** The edge of one executing message. *)
Definition add_msg (hazards : gmap Z BlockSeal) (logs : Logs) (chain : Z) (g : graph) (execLogIdx : Z)
  (m : ExecutingMessage) : result graph :=
  match hazards !! em_Chain m with
  | None => Err ErrExecMsgUnknownChain
  | Some _ =>
      match snd logs !! em_Chain m with
      | None => Ok g
      | Some initChainMsgs =>
          match initChainMsgs !! em_LogIdx m with
          | None => Ok g
          | Some _ =>
              let inBounds := match fst logs !! em_Chain m with
                              | Some logCount => negb (logCount <=? em_LogIdx m)
                              | None => false
                              end in
              if negb inBounds then Err (Wrap "initiating message log index out of bounds" ErrConflict)
              else
                let initKey := Node (em_Chain m) (em_LogIdx m) in
                let execKey := Node chain execLogIdx in
                if bool_decide (initKey = execKey) then Err (Wrap "self referencial message" ErrConflict)
                else Ok (addEdge g initKey execKey)
          end
      end
  end.

Fixpoint add_msgs hazards logs (chain : Z) (msgs : list (Z * ExecutingMessage)) (g : graph) : result graph :=
  match msgs with
  | [] => Ok g
  | (execLogIdx, m) :: msgs' =>
      let* g := add_msg hazards logs chain g execLogIdx m in
      add_msgs hazards logs chain msgs' g
  end.

Fixpoint add_all_msgs hazards logs (chains : list (Z * gmap Z ExecutingMessage)) (g : graph) : result graph :=
  match chains with
  | [] => Ok g
  | (chain, msgs) :: chains' =>
      let* g := add_msgs hazards logs chain (range (3 * chain + 3) msgs) g in
      add_all_msgs hazards logs chains' g
  end.

Definition buildGraph (inTimestamp : Z) (hazards : gmap Z BlockSeal) : result graph :=
  let* logs := gatherLogs inTimestamp hazards in
  let g := foldl add_chain empty_graph (range (-1) (fst logs)) in
  add_all_msgs hazards logs (range (-2) (snd logs)) g.

(** One visited node: its outgoing edges go, and targets whose last
    incoming edge this was become free. *)
Definition free_edge (st : gset node * gmap node Z) (out : node) : gset node * gmap node Z :=
  let c := u32 (default 0 (st.2 !! out) - 1) in
  if c =? 0 then (st.1 ∪ {[out]}, delete out st.2) else (st.1, <[out := c]> st.2).

Definition visit (g : graph) (k : node) : graph :=
  let '(free, degrees) := foldl free_edge (inDegree0 g, inDegreeNon0 g) (default [] (outgoingEdges g !! k)) in
  {| inDegree0 := free ∖ {[k]}; inDegreeNon0 := degrees; outgoingEdges := delete k (outgoingEdges g) |}.

Fixpoint check_loop (fuel : nat) (g : graph) : result unit :=
  match fuel with
  | O => Err (Msg "out of fuel")
  | S fuel =>
      match pick fuel (inDegree0 g) with
      | Some k => check_loop fuel (visit g k)
      | None => if decide (inDegreeNon0 g = ∅) then Ok tt else Err ErrCycle
      end
  end.

Definition checkGraph (g : graph) : result unit :=
  check_loop (S (size (inDegree0 g) + size (inDegreeNon0 g))) g.

Definition HazardCycleChecks (inTimestamp : Z) (hazards : gmap Z BlockSeal) : result unit :=
  let* g := buildGraph inTimestamp hazards in checkGraph g.
End cycle.

(** ** Acyclicity *)

Abbreviation edge := (node * node)%type.

Definition edge_rel (E : list edge) (a b : node) : Prop := (a, b) ∈ E.

Definition acyclic {A} (R : relation A) : Prop := forall n, ~ tc R n n.

Lemma acyclic_ext {A} (R S : relation A) : (forall a b, R a b <-> S a b) -> acyclic R <-> acyclic S.
Proof.
  intros Heq. unfold acyclic. split; intros Ha n Hc; apply (Ha n);
    (eapply (tc_congruence id); [|exact Hc]; intros; by apply Heq).
Qed.

Lemma acyclic_sub {A} (R S : relation A) : (forall a b, R a b -> S a b) -> acyclic S -> acyclic R.
Proof. intros Hs Ha n Hc. apply (Ha n). eapply (tc_congruence id); [|exact Hc]. auto. Qed.

(** A finite non-empty set in which every element has a predecessor in the
    set holds a cycle: walk backwards until an element repeats. *)
Lemma tc_chain {A} (R : relation A) (h x : A) (l : list A) :
  (forall i a b, (h :: l) !! i = Some a -> (h :: l) !! S i = Some b -> R a b) -> x ∈ l -> tc R h x.
Proof.
  revert h. induction l as [|y l IH]; intros h Hc Hx; [by apply elem_of_nil in Hx|].
  assert (R h y) as Hhy by by apply (Hc 0%nat).
  apply elem_of_cons in Hx as [->|Hx]; [by constructor|].
  eapply tc_l; [exact Hhy|]. apply IH; [|done]. intros i a b Ha Hb. by apply (Hc (S i)).
Qed.

Lemma walk_back {A} `{Countable A} (R : relation A) (N : gset A) fuel h (l : list A) :
  (forall n, n ∈ N -> exists m, m ∈ N /\ R m n) -> h ∈ N -> NoDup (h :: l) -> (forall x, x ∈ l -> x ∈ N) ->
  (forall i a b, (h :: l) !! i = Some a -> (h :: l) !! S i = Some b -> R a b) ->
  (size N < fuel + length (h :: l))%nat -> exists n, tc R n n.
Proof.
  intros Hpred. revert h l. induction fuel as [|fuel IH]; intros h l Hh Hnd Hl Hc Hf.
  - exfalso. assert (list_to_set (h :: l) ⊆ N) as Hsub.
    { intros x Hx. apply elem_of_list_to_set, elem_of_cons in Hx as [->|?]; auto. }
    apply subseteq_size in Hsub. rewrite size_list_to_set in Hsub by done. simpl in *. lia.
  - destruct (Hpred h Hh) as (m & Hm & HR).
    assert (forall i a b, (m :: h :: l) !! i = Some a -> (m :: h :: l) !! S i = Some b -> R a b) as Hc'.
    { intros [|i] a b Ha Hb; [by simplify_eq/=|]. by apply (Hc i). }
    destruct (decide (m ∈ h :: l)) as [Hin|Hni].
    + exists m. by apply (tc_chain R m m (h :: l)).
    + apply (IH m (h :: l)); [done|by constructor| |done|simpl in *; lia].
      intros x Hx. apply elem_of_cons in Hx as [->|?]; auto.
Qed.

Lemma no_source_cycle {A} `{Countable A} (R : relation A) (N : gset A) :
  N <> ∅ -> (forall n, n ∈ N -> exists m, m ∈ N /\ R m n) -> ~ acyclic R.
Proof.
  intros Hne Hp Ha. apply set_choose_L in Hne as [h Hh].
  destruct (walk_back R N (size N) h [] Hp Hh) as [n Hn]; [| | |simpl; lia|by apply (Ha n)].
  - apply NoDup_singleton.
  - intros x Hx. by apply elem_of_nil in Hx.
  - intros [|i] a b Ha' Hb; by rewrite ?lookup_nil in Hb.
Qed.

(** Removing a node without incoming edges neither adds nor removes cycles. *)
Lemma remove_source E k : (forall a, (a, k) ∉ E) ->
  acyclic (edge_rel E) <-> acyclic (edge_rel (filter (fun e => e.1 <> k) E)).
Proof.
  intros Hk. split.
  - apply acyclic_sub. unfold edge_rel. intros a b Hab. by apply list_elem_of_filter in Hab as [_ ?].
  - intros Ha n Hn. apply (Ha n).
    assert (forall a b, tc (edge_rel E) a b -> a <> k -> tc (edge_rel (filter (fun e => e.1 <> k) E)) a b) as Hkeep.
    { intros a b Hab. induction Hab as [a b Hab|a y b Hay Hyb IH]; intros Hne.
      - constructor. by apply list_elem_of_filter.
      - eapply tc_l; [by apply list_elem_of_filter; split; [|exact Hay]|]. apply IH. intros ->. by apply (Hk a). }
    apply Hkeep; [done|]. intros ->. clear Ha Hkeep.
    assert (forall a b, tc (edge_rel E) a b -> b <> k) as Hend.
    { intros a b Hab. induction Hab as [a b Hab|]; [|done]. intros ->. by apply (Hk a). }
    by apply (Hend k k Hn).
Qed.

(** ** The graph as a list of edges

    [represents g N E]: the three maps of [g] describe the nodes [N] and the
    edges [E]. *)

Definition out_of (E : list edge) (k : node) : list node := (filter (fun e => e.1 = k) E).*2.
Definition indegree (E : list edge) (n : node) : Z := Z.of_nat (length (filter (fun e => e.2 = n) E)).
Definition occurrences (n : node) (l : list node) : Z := Z.of_nat (length (filter (fun m => m = n) l)).

Definition deg_ok (free : gset node) (degrees : gmap node Z) (f : node -> Z) (N : gset node) : Prop :=
  (forall n, default 0 (degrees !! n) = f n) /\ (forall n, degrees !! n <> Some 0) /\
  (forall n, n ∈ free -> f n = 0) /\ (forall n, n ∈ N <-> n ∈ free \/ is_Some (degrees !! n)).

Record represents (g : graph) (N : gset node) (E : list edge) : Prop := {
  rep_out k : default [] (outgoingEdges g !! k) = out_of E k;
  rep_deg : deg_ok (inDegree0 g) (inDegreeNon0 g) (indegree E) N;
  rep_src a b : (a, b) ∈ E -> a ∈ N;
  rep_bound n : indegree E n < two32 }.

Lemma indegree_pos E a b : (a, b) ∈ E -> 0 < indegree E b.
Proof.
  intros Hin. unfold indegree. assert ((a, b) ∈ filter (fun e => e.2 = b) E) as He
    by by apply list_elem_of_filter.
  destruct (filter _ E); [by apply elem_of_nil in He|]. simpl. lia.
Qed.

Lemma indegree_source E n : 0 < indegree E n -> exists a, (a, n) ∈ E.
Proof.
  unfold indegree. intros Hp. destruct (filter (fun e => e.2 = n) E) as [|[a b] l] eqn:Hf; [simpl in Hp; lia|].
  assert ((a, b) ∈ filter (fun e => e.2 = n) E) as Hin by (rewrite Hf; left).
  apply list_elem_of_filter in Hin as [Heq Hin]. simpl in Heq. subst. by exists a.
Qed.

Lemma indegree_nonneg E n : 0 <= indegree E n.
Proof. unfold indegree. lia. Qed.

Lemma indegree_app E F n : indegree (E ++ F) n = indegree E n + indegree F n.
Proof. unfold indegree. rewrite filter_app, length_app. lia. Qed.

Lemma indegree_split E k n :
  indegree (filter (fun e => e.1 <> k) E) n = indegree E n - occurrences n (out_of E k).
Proof.
  unfold indegree, out_of, occurrences. induction E as [|[a b] E IH]; [done|].
  rewrite !filter_cons. cbn [fst snd].
  destruct (decide (a = k)) as [->|Hak].
  - rewrite (decide_False (P := ~ k = k)) by tauto. rewrite fmap_cons, filter_cons. cbn [fst snd].
    destruct (decide (b = n)); cbn [length]; lia.
  - rewrite (decide_True (P := ~ a = k)) by done. rewrite filter_cons. cbn [fst snd].
    destruct (decide (b = n)); cbn [length]; lia.
Qed.

Lemma out_of_remove E k j : out_of (filter (fun e => e.1 <> k) E) j = if decide (j = k) then [] else out_of E j.
Proof.
  unfold out_of. induction E as [|[a b] E IH]; [by destruct (decide _)|].
  rewrite !filter_cons. simpl. destruct (decide (a = k)) as [->|Hak].
  - rewrite (decide_False (P := ~ k = k)) by tauto. rewrite IH. destruct (decide (j = k)) as [|Hjk]; [done|].
    by rewrite decide_False by done.
  - rewrite (decide_True (P := ~ a = k)) by done. rewrite filter_cons. simpl.
    destruct (decide (a = j)) as [->|].
    + rewrite fmap_cons, IH. by rewrite !decide_False by done.
    + done.
Qed.

Lemma free_edge_ok free degrees f N out :
  deg_ok free degrees f N -> 0 < f out < two32 ->
  deg_ok (free_edge (free, degrees) out).1 (free_edge (free, degrees) out).2
    (fun n => f n - occurrences n [out]) N.
Proof.
  intros (Hd & Hp & Hf & HN) Hout. unfold free_edge. simpl.
  rewrite Hd. assert (u32 (f out - 1) = f out - 1) as ->.
  { unfold u32. apply Z.mod_small. lia. }
  assert (is_Some (degrees !! out)) as Hs.
  { specialize (Hd out). destruct (degrees !! out); [eauto|simpl in Hd; lia]. }
  assert (forall n, occurrences n [out] = if decide (n = out) then 1 else 0) as Hocc.
  { intros n. unfold occurrences. rewrite filter_cons, filter_nil.
    destruct (decide (out = n)), (decide (n = out)); subst; done. }
  destruct (Z.eqb_spec (f out - 1) 0) as [Hz|Hnz]; simpl; repeat split.
  - intros n. rewrite Hocc. destruct (decide (n = out)) as [->|Hne].
    + rewrite lookup_delete_eq. simpl. lia.
    + rewrite lookup_delete_ne, Hd by done. lia.
  - intros n. destruct (decide (n = out)) as [->|Hne]; [by rewrite lookup_delete_eq|].
    rewrite lookup_delete_ne by done. apply Hp.
  - intros n Hn. rewrite Hocc. apply elem_of_union in Hn as [Hn|Hn%elem_of_singleton].
    + specialize (Hf n Hn). destruct (decide (n = out)); subst; lia.
    + subst. rewrite decide_True by done. lia.
  - intros [Hn|Hn]%HN; [left; by apply elem_of_union_l|]. destruct (decide (n = out)) as [->|Hne].
    + left. by apply elem_of_union_r, elem_of_singleton.
    + right. by rewrite lookup_delete_ne.
  - intros [[Hn|Hn%elem_of_singleton]%elem_of_union|Hn]; apply HN; [by left|subst; by right|].
    right. apply lookup_delete_is_Some in Hn. tauto.
  - intros n. rewrite Hocc. destruct (decide (n = out)) as [->|Hne].
    + by rewrite lookup_insert_eq.
    + rewrite lookup_insert_ne, Hd by done. lia.
  - intros n. destruct (decide (n = out)) as [->|Hne].
    + rewrite lookup_insert_eq. intros [= ?]. lia.
    + rewrite lookup_insert_ne by done. apply Hp.
  - intros n Hn. rewrite Hocc. specialize (Hf n Hn). destruct (decide (n = out)); subst; lia.
  - intros [Hn|Hn]%HN; [by left|]. right. apply lookup_insert_is_Some. destruct (decide (out = n)); auto.
  - intros [Hn|Hn]; apply HN; [by left|]. right. apply lookup_insert_is_Some in Hn as [<-|[_ ?]]; done.
Qed.

Lemma occurrences_cons n m l : occurrences n (m :: l) = occurrences n [m] + occurrences n l.
Proof. unfold occurrences. rewrite !filter_cons, filter_nil. destruct (decide (m = n)); simpl; lia. Qed.

Lemma deg_ok_ext free degrees f f' N : (forall n, f n = f' n) -> deg_ok free degrees f N -> deg_ok free degrees f' N.
Proof.
  intros Heq (Hd & Hp & Hf & HN). repeat split; try done; try apply HN.
  - intros n. by rewrite <-Heq.
  - intros n Hn. rewrite <-Heq. auto.
Qed.

Lemma free_edges_ok outs free degrees f N :
  deg_ok free degrees f N -> (forall n, occurrences n outs <= f n < two32) ->
  deg_ok (foldl free_edge (free, degrees) outs).1 (foldl free_edge (free, degrees) outs).2
    (fun n => f n - occurrences n outs) N.
Proof.
  revert free degrees f. induction outs as [|out outs IH]; intros free degrees f Hok Hb; simpl.
  { eapply deg_ok_ext; [|exact Hok]. intros n. unfold occurrences. simpl. lia. }
  assert (occurrences out [out] = 1) as H1.
  { unfold occurrences. rewrite filter_cons, filter_nil. by rewrite decide_True. }
  assert (forall n, 0 <= occurrences n outs) as Hnn by (intros; unfold occurrences; lia).
  assert (0 < f out < two32) as Hout.
  { specialize (Hb out). specialize (Hnn out). rewrite occurrences_cons, H1 in Hb. lia. }
  pose proof (free_edge_ok free degrees f N out Hok Hout) as Hok1.
  destruct (free_edge (free, degrees) out) as [free1 degrees1]. simpl in Hok1.
  eapply deg_ok_ext; [|apply (IH _ _ _ Hok1)].
  - intros n. cbn beta. rewrite (occurrences_cons n out outs). lia.
  - intros n. specialize (Hb n). rewrite (occurrences_cons n out outs) in Hb.
    assert (0 <= occurrences n [out]) by (unfold occurrences; lia). lia.
Qed.

Lemma visit_represents g N E k : represents g N E -> k ∈ inDegree0 g ->
  represents (visit g k) (N ∖ {[k]}) (filter (fun e => e.1 <> k) E).
Proof.
  intros [Hout Hdeg Hsrc Hb] Hk. pose proof Hdeg as (_ & _ & Hf & _).
  assert (forall n, occurrences n (out_of E k) <= indegree E n) as Hocc.
  { intros n. pose proof (indegree_split E k n). pose proof (indegree_nonneg (filter (fun e => e.1 <> k) E) n). lia. }
  pose proof (free_edges_ok (out_of E k) _ _ _ _ Hdeg (fun n => conj (Hocc n) (Hb n))) as Hdeg'.
  unfold visit. rewrite Hout. destruct (foldl free_edge _ _) as [free degrees]. simpl in Hdeg'.
  assert (deg_ok free degrees (indegree (filter (fun e => e.1 <> k) E)) N) as (Hd & Hp & Hf' & HN).
  { eapply deg_ok_ext; [|exact Hdeg']. intros n. by rewrite indegree_split. }
  assert (degrees !! k = None) as Hnone.
  { specialize (Hd k). specialize (Hp k). rewrite indegree_split, (Hf k Hk) in Hd.
    pose proof (Hocc k) as Ho. rewrite (Hf k Hk) in Ho.
    assert (0 <= occurrences k (out_of E k)) by (unfold occurrences; lia).
    destruct (degrees !! k) as [c|]; [|done]. simpl in Hd. destruct Hp. by replace c with 0 by lia. }
  split; cbn [inDegree0 inDegreeNon0 outgoingEdges].
  - intros j. rewrite out_of_remove. destruct (decide (j = k)) as [->|Hne].
    + by rewrite lookup_delete_eq.
    + by rewrite lookup_delete_ne.
  - repeat split; try done.
    + intros n Hn. apply Hf'. by apply elem_of_difference in Hn as [? _].
    + intros [Hn Hne]%elem_of_difference. apply HN in Hn as [Hn|Hn]; [left|by right].
      by apply elem_of_difference.
    + intros [[Hn Hne]%elem_of_difference|Hn]; apply elem_of_difference; (split; [apply HN; auto|]); [done|].
      intros ->%elem_of_singleton. rewrite Hnone in Hn. by destruct Hn.
  - intros a b Hab. apply list_elem_of_filter in Hab as [Hne Hab]. apply elem_of_difference.
    split; [by eapply Hsrc|]. by rewrite elem_of_singleton.
  - intros n. rewrite indegree_split. specialize (Hb n).
    assert (0 <= occurrences n (out_of E k)) by (unfold occurrences; lia). lia.
Qed.

(** Kahn's algorithm, in whatever order the free nodes are visited: it ends
    after as many visits as there are nodes and decides acyclicity. *)
Lemma check_loop_spec `{NodeOrder} fuel g N E : represents g N E -> (size N < fuel)%nat ->
  (check_loop fuel g = Ok tt /\ acyclic (edge_rel E)) \/
  (check_loop fuel g = Err ErrCycle /\ ~ acyclic (edge_rel E)).
Proof.
  revert g N E. induction fuel as [|fuel IH]; intros g N E Hr Hsz; [lia|]. simpl.
  pose proof Hr as [Hout (Hd & Hp & Hf & HN) Hsrc Hb].
  destruct (pick fuel (inDegree0 g)) as [k|] eqn:Hpick.
  - apply pick_elem in Hpick.
    assert (k ∈ N) as HkN by (apply HN; by left).
    assert (size (N ∖ {[k]}) < fuel)%nat as Hsz'.
    { rewrite size_difference, size_singleton; [|intros x Hx; by apply elem_of_singleton in Hx as ->].
      assert (size N <> 0)%nat; [|lia]. intros Hz. apply size_empty_inv in Hz. by apply Hz, elem_of_empty in HkN. }
    rewrite (remove_source E k).
    + apply (IH _ _ _ (visit_represents g N E k Hr Hpick) Hsz').
    + intros a Ha. apply indegree_pos in Ha. rewrite (Hf k Hpick) in Ha. lia.
  - apply pick_none in Hpick. destruct (decide (inDegreeNon0 g = ∅)) as [He|Hne].
    + left. split; [done|]. intros n Hn.
      assert (exists b, (n, b) ∈ E) as [b Hnb] by (inversion Hn; eexists; eassumption).
      apply Hsrc, HN in Hnb. rewrite Hpick, He, lookup_empty in Hnb.
      destruct Hnb as [Hnb|[? ?]]; [by apply elem_of_empty in Hnb|done].
    + right. split; [done|]. apply (no_source_cycle _ N).
      * apply map_choose in Hne as (n & c & Hn). intros ->.
        apply (not_elem_of_empty (C := gset node) n), HN. right. eauto.
      * intros n Hn. apply HN in Hn as [Hn|[c Hc]]; [by rewrite Hpick in Hn; apply elem_of_empty in Hn|].
        specialize (Hd n). specialize (Hp n). rewrite Hc in Hd, Hp. simpl in Hd.
        destruct (indegree_source E n) as [a Ha].
        { pose proof (indegree_nonneg E n). destruct (Z.eq_dec c 0); [congruence|lia]. }
        exists a. split; [by eapply Hsrc|done].
Qed.

Lemma represents_size g N E : represents g N E -> size N = (size (inDegree0 g) + size (inDegreeNon0 g))%nat.
Proof.
  intros [_ (Hd & Hp & Hf & HN) _ _].
  assert (N = inDegree0 g ∪ dom (inDegreeNon0 g)) as ->.
  { apply leibniz_equiv. intros n. rewrite HN, elem_of_union, elem_of_dom. done. }
  rewrite size_union, size_dom; [done|]. intros n Hn Hn'. apply elem_of_dom in Hn' as [c Hc].
  specialize (Hf n Hn). specialize (Hd n). specialize (Hp n). rewrite Hc in Hd, Hp. simpl in Hd. congruence.
Qed.

Lemma checkGraph_spec `{NodeOrder} g N E : represents g N E ->
  (checkGraph g = Ok tt /\ acyclic (edge_rel E)) \/
  (checkGraph g = Err ErrCycle /\ ~ acyclic (edge_rel E)).
Proof.
  intros Hr. unfold checkGraph. apply (check_loop_spec _ g N E Hr). rewrite (represents_size g N E Hr). lia.
Qed.

(** ** Building the graph

    [built g P R D]: [g] has the nodes [P], the edges [R], and at most [D n]
    edges into [n]. *)

Definition built (g : graph) (P : node -> Prop) (R : relation node) (D : node -> Z) : Prop :=
  exists N E, represents g N E /\ (forall n, n ∈ N <-> P n) /\ (forall a b, (a, b) ∈ E <-> R a b) /\
    forall n, indegree E n <= D n.

Lemma built_empty : built empty_graph (fun _ => False) (fun _ _ => False) (fun _ => 1).
Proof.
  exists ∅, []. split.
  { split; [done| |intros a b Hab; by apply elem_of_nil in Hab|done].
    split; [done|]. split; [done|]. split; [intros n Hn; by apply elem_of_empty in Hn|].
    intros n. simpl. rewrite lookup_empty. split; [by left|]. intros [?|[? ?]]; done. }
  split; [intros n; by rewrite elem_of_empty|]. split; [intros a b; by rewrite elem_of_nil|done].
Qed.

Lemma built_ext g P P' R R' D D' : built g P R D -> (forall n, P n <-> P' n) -> (forall a b, R a b <-> R' a b) ->
  (forall n, D n <= D' n) -> built g P' R' D'.
Proof.
  intros (N & E & Hr & HP & HR & HD) HP' HR' HD'. exists N, E. split; [done|]. split; [|split].
  - intros n. by rewrite HP.
  - intros a b. by rewrite HR.
  - intros n. specialize (HD n). specialize (HD' n). lia.
Qed.

Lemma built_free g P R D n : built g P R D -> ~ P n ->
  built {| inDegree0 := inDegree0 g ∪ {[n]}; inDegreeNon0 := inDegreeNon0 g; outgoingEdges := outgoingEdges g |}
    (fun m => P m \/ m = n) R D.
Proof.
  intros (N & E & [Hout (Hd & Hp & Hf & HN) Hsrc Hb] & HP & HR & HD) Hn. exists (N ∪ {[n]}), E.
  split; [|split; [|done]].
  - split; cbn [inDegree0 inDegreeNon0 outgoingEdges]; [done| |intros a b Hab; apply elem_of_union_l; eauto|done].
    repeat split; try done.
    + intros m [Hm|Hm%elem_of_singleton]%elem_of_union; [auto|]. subst. rewrite <-Hd.
      destruct (inDegreeNon0 g !! n) eqn:Hl; [|done]. destruct Hn. apply HP, HN. right. eauto.
    + rewrite !elem_of_union, HN. tauto.
    + rewrite !elem_of_union, HN. tauto.
  - intros m. by rewrite elem_of_union, elem_of_singleton, HP.
Qed.

Lemma out_of_snoc E a b j : out_of (E ++ [(a, b)]) j = out_of E j ++ if decide (a = j) then [b] else [].
Proof.
  unfold out_of. rewrite filter_app, filter_cons, filter_nil, fmap_app. cbn [fst]. by destruct (decide (a = j)).
Qed.

Lemma indegree_snoc E a b n : indegree (E ++ [(a, b)]) n = indegree E n + if decide (b = n) then 1 else 0.
Proof.
  rewrite indegree_app. unfold indegree. rewrite filter_cons, filter_nil. cbn [snd]. by destruct (decide (b = n)).
Qed.

Lemma built_edge g P R D from to : built g P R D -> P from -> D to + 1 < two32 ->
  (forall n, D n < two32) ->
  built (addEdge g from to) (fun n => P n \/ n = to) (fun a b => R a b \/ (a = from /\ b = to))
    (fun n => D n + if decide (to = n) then 1 else 0).
Proof.
  intros (N & E & [Hout (Hd & Hp & Hf & HN) Hsrc Hb] & HP & HR & HD) Hfrom Hto HDb.
  exists (N ∪ {[to]}), (E ++ [(from, to)]).
  assert (u32 (indegree E to + 1) = indegree E to + 1) as Hu.
  { unfold u32. apply Z.mod_small. pose proof (indegree_nonneg E to). specialize (HD to). lia. }
  split; [|split; [|split]].
  - unfold addEdge. split; cbn [inDegree0 inDegreeNon0 outgoingEdges].
    + intros k. rewrite out_of_snoc. destruct (decide (from = k)) as [->|Hne].
      * by rewrite lookup_insert_eq, <-Hout.
      * by rewrite lookup_insert_ne, app_nil_r, <-Hout.
    + rewrite Hd, Hu. repeat split.
      * intros n. rewrite indegree_snoc. destruct (decide (to = n)) as [->|Hne].
        -- by rewrite lookup_insert_eq.
        -- rewrite lookup_insert_ne, Hd by done. lia.
      * intros n. destruct (decide (to = n)) as [->|Hne].
        -- rewrite lookup_insert_eq. intros [= Hz]. pose proof (indegree_nonneg E n). lia.
        -- rewrite lookup_insert_ne by done. apply Hp.
      * intros n [Hn Hne]%elem_of_difference. rewrite elem_of_singleton in Hne. rewrite indegree_snoc.
        rewrite decide_False by congruence. specialize (Hf n Hn). lia.
      * intros [Hn|Hn%elem_of_singleton]%elem_of_union.
        -- destruct (decide (n = to)) as [->|Hne]; [right; rewrite lookup_insert_eq; eauto|].
           apply HN in Hn as [Hn|Hn]; [left|right; by rewrite lookup_insert_ne].
           apply elem_of_difference. by rewrite elem_of_singleton.
        -- subst. right. rewrite lookup_insert_eq. eauto.
      * intros [[Hn _]%elem_of_difference|Hn]; [apply elem_of_union_l, HN; by left|].
        apply lookup_insert_is_Some in Hn as [<-|[_ Hn]].
        -- by apply elem_of_union_r, elem_of_singleton.
        -- apply elem_of_union_l, HN. by right.
    + intros a b [Hab|Hab%list_elem_of_singleton]%elem_of_app; apply elem_of_union_l; [eauto|].
      injection Hab as -> ->. by apply HP.
    + intros n. rewrite indegree_snoc. specialize (Hb n). specialize (HD n). specialize (HDb n).
      destruct (decide (to = n)) as [->|]; lia.
  - intros n. by rewrite elem_of_union, elem_of_singleton, HP.
  - intros a b. rewrite elem_of_app, list_elem_of_singleton, HR. naive_solver.
  - intros n. rewrite indegree_snoc. specialize (HD n). lia.
Qed.

(** A node that is not there yet has no incoming edge, so the bound of one
    edge per node survives. *)
Lemma built_edge_new g P R from to : built g P R (fun _ => 1) -> P from -> ~ P to ->
  built (addEdge g from to) (fun n => P n \/ n = to) (fun a b => R a b \/ (a = from /\ b = to)) (fun _ => 1).
Proof.
  intros (N & E & Hr & HP & HR & HD) Hfrom Hto.
  assert (indegree E to = 0) as Hz.
  { destruct Hr as [_ (Hd & _ & _ & HN) _ _]. rewrite <-Hd. destruct (inDegreeNon0 g !! to) eqn:Hl; [|done].
    destruct Hto. apply HP, HN. right. eauto. }
  assert (built g P R (indegree E)) as Hb by (exists N, E; auto with lia).
  assert (forall n, indegree E n < two32) as Hlt by (intros n; specialize (HD n); unfold two32; lia).
  eapply built_ext; [apply (built_edge g P R (indegree E) from to Hb Hfrom); [by rewrite Hz|done]|done|done|].
  - intros n. cbn beta. specialize (HD n). destruct (decide (to = n)) as [<-|]; lia.
Qed.

(** *** The nodes and sequential edges *)

Definition seq_edge (lt : Z -> Z -> Prop) (a b : node) : Prop :=
  n_chainIndex a = n_chainIndex b /\ n_logIndex b = n_logIndex a + 1 /\ 0 <= n_logIndex a /\
  lt (n_chainIndex b) (n_logIndex b).

Lemma add_logs_built g P R c n : 0 <= n -> built g P R (fun _ => 1) -> (forall i, ~ P (Node c i)) ->
  built (foldl (add_log c) g (seqZ 0 n)) (fun m => P m \/ (n_chainIndex m = c /\ 0 <= n_logIndex m < n))
    (fun a b => R a b \/ seq_edge (fun c' i => c' = c /\ i < n) a b) (fun _ => 1).
Proof.
  intros Hn Hb Hc. revert n Hn. apply natlike_ind.
  { simpl. eapply built_ext; [exact Hb| | |done]; unfold seq_edge.
    - intros m. split; [by left|]. intros [?|[_ ?]]; [done|lia].
    - intros a b. split; [by left|]. intros [?|(_ & ? & ? & _ & ?)]; [done|lia]. }
  intros n Hn IH. replace (Z.succ n) with (n + 1) by lia.
  rewrite (seqZ_app 0 n 1), foldl_app by lia. replace (seqZ (0 + n) 1) with [n] by (by rewrite Z.add_0_l).
  simpl. unfold add_log. destruct (Z.eqb_spec n 0) as [->|Hnz].
  - eapply built_ext; [eapply built_free; [exact IH|]| | |done]; unfold seq_edge.
    + intros [?|[_ ?]]; [by eapply Hc|simpl in *; lia].
    + intros [c' i]. simpl. split; [intros [[?|?]|[= -> ->]]|]; [by left|lia|right; lia|].
      intros [?|[-> ?]]; [by left; left|]. right. f_equal. lia.
    + intros a b. split; (intros [?|(? & ? & ? & ? & ?)]; [by left|lia]).
  - eapply built_ext; [eapply built_edge_new; [exact IH| |]| | |done]; unfold seq_edge.
    + right. simpl. lia.
    + intros [?|[_ ?]]; [by eapply Hc|simpl in *; lia].
    + intros [c' i]. simpl. split; [intros [[?|?]|[= -> ->]]|]; [by left|right; lia|right; lia|].
      intros [?|[-> ?]]; [by left; left|]. destruct (decide (i = n)) as [->|]; [by right|left; right; lia].
    + intros [ca ia] [cb ib]. simpl. split.
      * intros [[?|?]|[[= -> ->] [= -> ->]]]; [by left|right; lia|right; lia].
      * intros [?|(-> & -> & ? & -> & ?)]; [by left; left|].
        destruct (decide (ia + 1 = n)) as [<-|]; [right|left; right; lia].
        split; f_equal; lia.
Qed.

Lemma add_chains_built (l : list (Z * Z)) g P R : built g P R (fun _ => 1) -> NoDup l.*1 ->
  (forall c n i, (c, n) ∈ l -> ~ P (Node c i)) -> (forall c n, (c, n) ∈ l -> 0 <= n) ->
  built (foldl add_chain g l) (fun m => P m \/ exists n, (n_chainIndex m, n) ∈ l /\ 0 <= n_logIndex m < n)
    (fun a b => R a b \/ seq_edge (fun c i => exists n, (c, n) ∈ l /\ i < n) a b) (fun _ => 1).
Proof.
  revert g P R. induction l as [|[c n] l IH]; intros g P R Hb Hnd Hp Hn; simpl.
  { eapply built_ext; [exact Hb| | |done]; unfold seq_edge.
    - intros m. split; [by left|]. intros [?|(n & Hin & _)]; [done|by apply elem_of_nil in Hin].
    - intros a b. split; [by left|]. intros [?|(_ & _ & _ & n & Hin & _)]; [done|by apply elem_of_nil in Hin]. }
  apply NoDup_cons in Hnd as [Hni Hnd].
  assert (0 <= n) as Hn0 by (apply (Hn c); by left).
  eapply built_ext; [eapply IH; [eapply (add_logs_built g P R c n Hn0 Hb)|done| |]| | |done].
  - intros i. apply (Hp c n). by left.
  - intros c' n' i Hin [HP|[Hc _]]; [by apply (Hp c' n' i); [by right|]|]. simpl in Hc. subst.
    apply Hni, list_elem_of_fmap. by exists (c, n').
  - intros c' n' Hin. apply (Hn c'). by right.
  - intros [c' i]. simpl. setoid_rewrite elem_of_cons. split.
    + intros [[?|[-> ?]]|(n' & ? & ?)]; [by left|right; exists n; naive_solver|right; naive_solver].
    + intros [?|(n' & [[= -> ->]|?] & ?)]; [by left; left|left; right; lia|right; eauto].
  - intros [ca ia] [cb ib]. unfold seq_edge. cbn [n_chainIndex n_logIndex]. setoid_rewrite elem_of_cons. split.
    + intros [[?|(-> & ? & ? & -> & ?)]|(-> & ? & ? & n' & ? & ?)]; [by left|right|right].
      * split_and!; [done..|]. exists n. split; [by left|done].
      * split_and!; [done..|]. exists n'. split; [by right|done].
    + intros [?|(-> & ? & ? & n' & [[= -> ->]|?] & ?)]; [by left; left|left; right|right]; split_and!; eauto.
Qed.
