(* ===== verification/CrossCycle.v ===== *)
(** * What the cycle check decides

    [HazardCycleChecks] accepts exactly when every hazard block can be
    opened, no executing message of the timestamp points outside the hazard
    set or at itself, and the dependency relation the code builds is
    acyclic, for every order of every map iteration.  The relation the
    comment above the function describes has more edges; [missed_cycle] is
    a cycle of it that the check accepts. *)

From stdpp Require Import base gmap sets list relations.
From S2P Require Import Prelude EthTypes EntryDB FromDA DepSet CrossGraph.

Section spec.
Context `{MapOrder} `{NodeOrder}.
Variable chainID_of : Z -> result Z.
Variable OpenBlock : Z -> Z -> result OpenedBlock.
Variable inTimestamp : Z.
Variable hazards : gmap Z BlockSeal.

(** Log indices and counts are unsigned. *)
Hypothesis opened_u32 : forall id num bl, OpenBlock id num = Ok bl ->
  is_u32 (ob_logCount bl) /\ forall i m, ob_execMsgs bl !! i = Some m -> is_u32 i.

(** The hazard block of chain [c] opens as [bl]. *)
Definition opens (c : Z) (bl : OpenedBlock) : Prop :=
  exists seal id, hazards !! c = Some seal /\ chainID_of c = Ok id /\
    OpenBlock id (bs_Number seal) = Ok bl /\ blockSealMatchesRef seal (ob_ref bl) = true /\
    forall i m, ob_execMsgs bl !! i = Some m -> i < ob_logCount bl.

(** [n] is a log of a hazard block. *)
Definition is_log (n : node) : Prop :=
  exists bl, opens (n_chainIndex n) bl /\ 0 <= n_logIndex n < ob_logCount bl.

(** Log [n] executes the message [m] of the timestamp. *)
Definition executes (n : node) (m : ExecutingMessage) : Prop :=
  exists bl, opens (n_chainIndex n) bl /\ ob_execMsgs bl !! n_logIndex n = Some m /\
    em_Timestamp m = inTimestamp.

Definition initiating (m : ExecutingMessage) : node := Node (em_Chain m) (em_LogIdx m).

(** Sequential logs of a block. *)
Definition follows (a b : node) : Prop :=
  n_chainIndex a = n_chainIndex b /\ n_logIndex b = n_logIndex a + 1 /\ 0 <= n_logIndex a /\ is_log b.

(** The edges the code adds: an executing message depends on its
    initiating message when that log itself executes a message of the
    timestamp. *)
Definition dependency (a b : node) : Prop :=
  follows a b \/ exists m m', executes b m /\ a = initiating m /\ executes a m'.

(** The edges of the comment: every executing message depends on its
    initiating message. *)
Definition documented (a b : node) : Prop :=
  follows a b \/ exists m, executes b m /\ a = initiating m.

Definition consistent : Prop :=
  (forall c seal, hazards !! c = Some seal -> exists bl, opens c bl) /\
  (forall n m, executes n m -> is_Some (hazards !! em_Chain m)) /\
  (forall n m, executes n m -> initiating m <> n).

(** ** Gathering *)

Lemma check_indices_spec n msgs :
  check_indices n msgs = Ok tt <-> forall i m, (i, m) ∈ msgs -> i < n.
Proof.
  induction msgs as [|[i m] msgs IH]; simpl.
  - split; [intros _ i m Hin; by apply elem_of_nil in Hin|done].
  - destruct (Z.leb_spec n i) as [Hle|Hlt].
    + split; [done|]. intros Hall. specialize (Hall i m (list_elem_of_here _ _)). lia.
    + rewrite IH. split.
      * intros Hall j m' [[= -> ->]|Hin]%elem_of_cons; [done|eauto].
      * intros Hall j m' Hin. apply (Hall j m'). by right.
Qed.

Lemma store_msgs_ok c (msgs : list (Z * ExecutingMessage)) em m0 :
  NoDup msgs.*1 -> em !! c = Some m0 -> (forall i, i ∈ msgs.*1 -> m0 !! i = None) ->
  exists m1, store_msgs inTimestamp c msgs em = Ok (<[c := m1]> em) /\
    forall i m, m1 !! i = Some m <-> m0 !! i = Some m \/ ((i, m) ∈ msgs /\ em_Timestamp m = inTimestamp).
Proof.
  revert em m0. induction msgs as [|[i m] msgs IH]; intros em m0 Hnd Hc Hfree; simpl.
  { exists m0. rewrite insert_id by done. split; [done|]. intros. rewrite elem_of_nil. tauto. }
  apply NoDup_cons in Hnd as [Hni Hnd].
  destruct (Z.eqb_spec (em_Timestamp m) inTimestamp) as [Ht|Ht].
  - rewrite Hc. destruct (IH (<[c := <[i := m]> m0]> em) (<[i := m]> m0)) as (m1 & -> & Hm1); [done| | |].
    + by rewrite lookup_insert_eq.
    + intros j Hj. rewrite lookup_insert_ne; [apply Hfree; by right|]. intros ->. done.
    + exists m1. rewrite insert_insert_eq. split; [done|]. intros j m'. rewrite Hm1, elem_of_cons.
      destruct (decide (j = i)) as [->|Hne].
      * rewrite lookup_insert_eq, (Hfree i) by left. naive_solver.
      * rewrite lookup_insert_ne by done. naive_solver.
  - destruct (IH em m0 Hnd Hc) as (m1 & -> & Hm1); [intros; apply Hfree; by right|].
    exists m1. split; [done|]. intros j m'. rewrite Hm1, elem_of_cons. naive_solver.
Qed.

(** What the maps hold once the chains of [cs] are gathered. *)
Definition gathered (cs : list Z) (logs : Logs) : Prop :=
  (forall c n, fst logs !! c = Some n <-> c ∈ cs /\ exists bl, opens c bl /\ ob_logCount bl = n) /\
  (forall c ms, snd logs !! c = Some ms -> c ∈ cs) /\
  (forall c i m, (exists ms, snd logs !! c = Some ms /\ ms !! i = Some m) <-> c ∈ cs /\ executes (Node c i) m).

Lemma opens_fun c bl bl' : opens c bl -> opens c bl' -> bl = bl'.
Proof. intros (s & id & ? & ? & ? & _) (s' & id' & ? & ? & ? & _). congruence. Qed.

Lemma gather_one_inv c seal logs logs' : hazards !! c = Some seal ->
  gather_one chainID_of OpenBlock inTimestamp c seal logs = Ok logs' -> exists bl, opens c bl.
Proof.
  intros Hc. unfold gather_one. destruct logs as [lc em]. intros Hg.
  apply rbind_Ok in Hg as (id & Hid & Hg). apply rbind_Ok in Hg as (bl & Hbl & Hg).
  rewrite map_err_Ok in Hbl. destruct (blockSealMatchesRef seal (ob_ref bl)) eqn:Hm; [|done]. simpl in Hg.
  apply rbind_Ok in Hg as ([] & Hci & _). rewrite check_indices_spec in Hci.
  exists bl, seal, id. split_and!; try done. intros i m Him. apply (Hci i m). by apply elem_of_range.
Qed.

Lemma gather_one_ok c seal logs cs bl : hazards !! c = Some seal -> gathered cs logs -> c ∉ cs -> opens c bl ->
  exists logs', gather_one chainID_of OpenBlock inTimestamp c seal logs = Ok logs' /\ gathered (c :: cs) logs'.
Proof.
  intros Hc (Hlc & Hdom & Hex) Hni Hop. pose proof Hop as (seal' & id & Hc' & Hid & Hob & Hm & Hidx).
  rewrite Hc in Hc'. injection Hc' as <-. destruct logs as [lc em]. unfold gather_one. simpl in *.
  rewrite Hid. cbn [rbind]. rewrite Hob. cbn [map_err rbind]. rewrite Hm. cbn [negb].
  rewrite (proj2 (check_indices_spec (ob_logCount bl) _));
    [|intros i m Hin; apply elem_of_range in Hin; eauto]. cbn [rbind].
  assert (em !! c = None) as Hnone by (destruct (em !! c) eqn:He; [by apply Hdom in He|done]).
  assert (forall em', (forall c', c' <> c -> em' !! c' = em !! c') ->
    (forall ms, em' !! c = Some ms -> forall i m, ms !! i = Some m <->
        ob_execMsgs bl !! i = Some m /\ em_Timestamp m = inTimestamp) ->
    (em' !! c = None -> ob_execMsgs bl = ∅) ->
    gathered (c :: cs) (<[c := ob_logCount bl]> lc, em')) as Hdone.
  { intros em' Hother Hms Hnil. unfold gathered. cbn [fst snd]. split_and!.
    - intros c' n. rewrite elem_of_cons. destruct (decide (c' = c)) as [->|Hne].
      + rewrite lookup_insert_eq. split; [intros [= <-]; naive_solver|].
        intros (_ & bl' & Hop' & <-). by rewrite (opens_fun c bl' bl).
      + rewrite lookup_insert_ne, Hlc by done. naive_solver.
    - intros c' ms Hc'. apply elem_of_cons. destruct (decide (c' = c)) as [|Hne]; [by left|].
      rewrite Hother in Hc' by done. right. eauto.
    - intros c' i m. rewrite elem_of_cons. destruct (decide (c' = c)) as [->|Hne].
      + split.
        * intros (ms & Hs & Hi). apply (Hms ms Hs) in Hi as [? ?]. split; [by left|]. by exists bl.
        * intros (_ & bl' & Hop' & Hi & Ht). rewrite (opens_fun c bl' bl) in Hi by done. simpl in Hi.
          destruct (em' !! c) as [ms|] eqn:Hs.
          -- exists ms. split; [done|]. by apply (Hms ms).
          -- rewrite Hnil in Hi by done. by rewrite lookup_empty in Hi.
      + rewrite Hother, Hex by done. naive_solver. }
  destruct (decide (ob_execMsgs bl = ∅)) as [He|Hne].
  - rewrite He. pose proof (range_perm (3 * c + 2) (∅ : gmap Z ExecutingMessage)) as Hr.
    rewrite map_to_list_empty in Hr. symmetry in Hr. apply Permutation_nil in Hr.
    rewrite Hr. cbn [store_msgs rbind]. eexists. split; [done|]. apply Hdone; [done| |done].
    intros ms Hs. by rewrite Hnone in Hs.
  - rewrite Hnone. destruct (store_msgs_ok c (range (3 * c + 2) (ob_execMsgs bl)) (<[c := ∅]> em) ∅)
      as (m1 & -> & Hm1); [apply NoDup_range|by rewrite lookup_insert_eq|done|].
    cbn [rbind]. eexists. split; [done|]. rewrite insert_insert_eq. apply Hdone.
    + intros c' Hne'. by rewrite lookup_insert_ne.
    + rewrite lookup_insert_eq. intros ms [= <-] i m. rewrite Hm1, lookup_empty, elem_of_range. naive_solver.
    + by rewrite lookup_insert_eq.
Qed.

Lemma gather_loop_spec (l : list (Z * BlockSeal)) logs cs : gathered cs logs -> NoDup l.*1 ->
  (forall c s, (c, s) ∈ l -> (c ∉ cs) /\ hazards !! c = Some s) ->
  ((forall c s, (c, s) ∈ l -> exists bl, opens c bl) ->
     exists logs' cs', gather_loop chainID_of OpenBlock inTimestamp l logs = Ok logs' /\ gathered cs' logs' /\
       forall c, c ∈ cs' <-> c ∈ cs \/ c ∈ l.*1) /\
  (forall logs', gather_loop chainID_of OpenBlock inTimestamp l logs = Ok logs' ->
     forall c s, (c, s) ∈ l -> exists bl, opens c bl).
Proof.
  revert logs cs. induction l as [|[c s] l IH]; intros logs cs Hg Hnd Hl; simpl.
  { split; [|intros logs' _ c s Hin; by apply elem_of_nil in Hin].
    intros _. exists logs, cs. split_and!; [done|done|]. intros c. rewrite elem_of_nil. tauto. }
  apply NoDup_cons in Hnd as [Hni Hnd]. destruct (Hl c s (list_elem_of_here _ _)) as [Hcs Hhc].
  assert (forall bl, opens c bl -> exists logs1, gather_one chainID_of OpenBlock inTimestamp c s logs = Ok logs1 /\
    gathered (c :: cs) logs1) as Hone by (intros bl; by apply gather_one_ok).
  assert (forall c' s', (c', s') ∈ l -> (c' ∉ (c :: cs)) /\ hazards !! c' = Some s') as Hl'.
  { intros c' s' Hin. destruct (Hl c' s') as [? ?]; [by right|]. split; [|done].
    intros [->|?]%elem_of_cons; [|done]. apply Hni, list_elem_of_fmap. by exists (c, s'). }
  split.
  - intros Hall. destruct (Hall c s (list_elem_of_here _ _)) as [bl Hbl].
    destruct (Hone bl Hbl) as (logs1 & -> & Hg1). cbn [rbind].
    destruct (IH logs1 (c :: cs) Hg1 Hnd Hl') as [Hok _].
    destruct Hok as (logs' & cs' & Heq & Hg' & Hin); [intros; apply (Hall _ s0); by right|].
    exists logs', cs'. split_and!; [done|done|]. intros c'. rewrite Hin, !elem_of_cons. tauto.
  - intros logs' Hgl. apply rbind_Ok in Hgl as (logs1 & Ho & Hgl).
    destruct (gather_one_inv c s logs logs1 Hhc Ho) as [bl Hbl].
    destruct (Hone bl Hbl) as (logs1' & Heq & Hg1). rewrite Heq in Ho. injection Ho as ->.
    intros c' s' [[= -> ->]|Hin]%elem_of_cons; [by exists bl|].
    destruct (IH logs1 (c :: cs) Hg1 Hnd Hl') as [_ Hinv]. by eapply Hinv.
Qed.

(** [gatherLogs] succeeds exactly when every hazard block opens, and then
    holds the logs of all of them. *)
Lemma gatherLogs_spec :
  ((forall c seal, hazards !! c = Some seal -> exists bl, opens c bl) ->
     exists logs cs, gatherLogs chainID_of OpenBlock inTimestamp hazards = Ok logs /\ gathered cs logs /\
       forall c, c ∈ cs <-> is_Some (hazards !! c)) /\
  (forall logs, gatherLogs chainID_of OpenBlock inTimestamp hazards = Ok logs ->
     forall c seal, hazards !! c = Some seal -> exists bl, opens c bl).
Proof.
  destruct (gather_loop_spec (range 0 hazards) (∅, ∅) []) as [Hok Hinv].
  - unfold gathered. cbn [fst snd]. split_and!.
    + intros c n. rewrite lookup_empty, elem_of_nil. naive_solver.
    + intros c ms. by rewrite lookup_empty.
    + intros c i m. rewrite elem_of_nil. setoid_rewrite lookup_empty. naive_solver.
  - apply NoDup_range.
  - intros c s Hin. apply elem_of_range in Hin. rewrite elem_of_nil. auto.
  - split.
    + intros Hall. destruct Hok as (logs & cs & Heq & Hg & Hin).
      { intros c s Hin. apply elem_of_range in Hin. eauto. }
      exists logs, cs. split_and!; [done|done|]. intros c. rewrite Hin, elem_of_nil, list_elem_of_fmap. split.
      * intros [[]|([c' s] & -> & He)]. apply elem_of_range in He. eauto.
      * intros [s Hs]. right. exists (c, s). split; [done|]. by apply elem_of_range.
    + intros logs Heq c seal Hc. apply (Hinv logs Heq c seal). by apply elem_of_range.
Qed.

(** ** The message edges *)

Definition triples (chains : list (Z * gmap Z ExecutingMessage)) : list (node * ExecutingMessage) :=
  chains ≫= (fun cm => (fun im => (Node cm.1 im.1, im.2)) <$> range (3 * cm.1 + 3) cm.2).

Fixpoint add_list (logs : Logs) (l : list (node * ExecutingMessage)) (g : graph) : result graph :=
  match l with
  | [] => Ok g
  | (n, m) :: l' =>
      let* g := add_msg hazards logs (n_chainIndex n) g (n_logIndex n) m in add_list logs l' g
  end.

Lemma add_list_app logs l l' g : add_list logs (l ++ l') g = (let* g := add_list logs l g in add_list logs l' g).
Proof.
  revert g. induction l as [|[n m] l IH]; intros g; simpl; [done|].
  destruct (add_msg _ _ _ _ _ _); simpl; [apply IH|done|done].
Qed.

Lemma add_all_msgs_list logs chains g : add_all_msgs hazards logs chains g = add_list logs (triples chains) g.
Proof.
  revert g. induction chains as [|[c ms] chains IH]; intros g; simpl; [done|]. rewrite add_list_app.
  assert (forall l g, add_msgs hazards logs c l g = add_list logs ((fun im => (Node c im.1, im.2)) <$> l) g) as Hin.
  { intros l. induction l as [|[i m] l IHl]; intros g'; simpl; [done|].
    destruct (add_msg _ _ _ _ _ _); simpl; [apply IHl|done|done]. }
  rewrite Hin. destruct (add_list _ _ _); simpl; [apply IH|done|done].
Qed.

Section edges.
Variable logs : Logs.
Variable cs : list Z.
Hypothesis Hg : gathered cs logs.
Hypothesis Hcs : forall c, c ∈ cs <-> is_Some (hazards !! c).

Lemma executes_hazard n m : executes n m -> n_chainIndex n ∈ cs.
Proof. intros (bl & (s & id & Hs & _) & _). apply Hcs. eauto. Qed.

Lemma executes_log n m : executes n m -> is_log n.
Proof.
  intros (bl & Hop & Hm & _). exists bl. split; [done|].
  destruct Hop as (s & id & _ & _ & Hob & _ & Hidx). split; [|eauto].
  destruct (opened_u32 _ _ _ Hob) as [_ Hu]. specialize (Hu _ _ Hm). unfold is_u32 in Hu. lia.
Qed.

(** One message: an error, an edge, or nothing. *)
Lemma add_msg_spec n m g : executes n m ->
  let r := add_msg hazards logs (n_chainIndex n) g (n_logIndex n) m in
  (hazards !! em_Chain m = None /\ (exists e, r = Err e)) \/
  (initiating m = n /\ exists e, r = Err e) \/
  (is_Some (hazards !! em_Chain m) /\ initiating m <> n /\ (exists m', executes (initiating m) m') /\
     r = Ok (addEdge g (initiating m) n)) \/
  (is_Some (hazards !! em_Chain m) /\ initiating m <> n /\ (~ exists m', executes (initiating m) m') /\ r = Ok g).
Proof.
  intros Hx. pose proof Hg as (Hlc & _ & Hex). unfold add_msg.
  destruct (hazards !! em_Chain m) as [s|] eqn:Hh; [right|left; eauto].
  assert (forall m', executes (initiating m) m' <->
    exists ms, snd logs !! em_Chain m = Some ms /\ ms !! em_LogIdx m = Some m') as Hiff.
  { intros m'. rewrite Hex. unfold initiating. split; [|tauto]. split; [|done]. apply Hcs. rewrite Hh. eauto. }
  assert ((~ exists m', executes (initiating m) m') -> initiating m <> n) as Hne by naive_solver.
  destruct (snd logs !! em_Chain m) as [ms|] eqn:Hs;
    [destruct (ms !! em_LogIdx m) as [m'|] eqn:Hm|].
  - assert (executes (initiating m) m') as Hx' by (apply Hiff; eauto).
    destruct (executes_log _ _ Hx') as (bl & Hop & Hb). unfold initiating in Hop, Hb. simpl in Hop, Hb.
    rewrite (proj2 (Hlc (em_Chain m) (ob_logCount bl))) by (split; [apply Hcs; eauto|by exists bl]).
    destruct (Z.leb_spec (ob_logCount bl) (em_LogIdx m)); [lia|]. cbn [negb].
    replace (Node (n_chainIndex n) (n_logIndex n)) with n by by destruct n.
    fold (initiating m). case_bool_decide as Heq; [left; eauto|]. right. left. eauto 6.
  - right. right. assert (~ exists m', executes (initiating m) m') as Hno.
    { intros [m' Hm']. apply Hiff in Hm' as (ms' & [= <-] & Hm''). congruence. }
    eauto 6.
  - right. right. assert (~ exists m', executes (initiating m) m') as Hno.
    { intros [m' Hm']. by apply Hiff in Hm' as (ms' & ? & _). }
    eauto 6.
Qed.

Definition msg_edge (l : list (node * ExecutingMessage)) (a b : node) : Prop :=
  exists m m', (b, m) ∈ l /\ a = initiating m /\ executes a m'.

Lemma add_list_spec (l : list (node * ExecutingMessage)) (seen : list node) g P R :
  (forall n, is_log n -> P n) -> built g P R (fun n => 1 + occurrences n seen) ->
  (forall n, occurrences n seen <= 1) -> NoDup l.*1 -> (forall n, n ∈ l.*1 -> n ∉ seen) ->
  (forall n m, (n, m) ∈ l -> executes n m) ->
  ((forall n m, (n, m) ∈ l -> is_Some (hazards !! em_Chain m) /\ initiating m <> n) /\
    exists g' D, add_list logs l g = Ok g' /\ built g' P (fun a b => R a b \/ msg_edge l a b) D) \/
  ((exists n m, (n, m) ∈ l /\ (hazards !! em_Chain m = None \/ initiating m = n)) /\
    exists e, add_list logs l g = Err e).
Proof.
  intros HP. revert seen g R. induction l as [|[n m] l IH]; intros seen g R Hb Hocc Hnd Hseen Hex.
  { left. split; [intros n m Hin; by apply elem_of_nil in Hin|]. do 2 eexists. split; [done|].
    eapply built_ext; [exact Hb|done| |intros; reflexivity]. intros a b. split; [by left|].
    intros [?|(m & m' & Hin & _)]; [done|by apply elem_of_nil in Hin]. }
  apply NoDup_cons in Hnd as [Hni Hnd]. pose proof (Hex n m (list_elem_of_here _ _)) as Hx.
  pose proof (add_msg_spec n m g Hx) as Hcase. cbn [add_list].
  destruct Hcase as [[Hh [e He]]|[[Heq [e He]]|[(Hh & Hne & [m' Hm'] & Hok)|(Hh & Hne & Hno & Hok)]]].
  1,2: right; split; [exists n, m; split; [by left|auto]|]; exists e; by rewrite He.
  all: rewrite Hok; cbn [rbind].
  - assert (occurrences n seen = 0) as Hz.
    { unfold occurrences. destruct (filter _ seen) as [|x xs] eqn:Hf; [done|]. exfalso.
      apply (Hseen n); [by left|]. assert (x ∈ filter (fun y => y = n) seen) as Hin by (rewrite Hf; left).
      apply list_elem_of_filter in Hin as [-> ?]. done. }
    assert (forall k, occurrences k (n :: seen) = occurrences k seen + if decide (n = k) then 1 else 0) as Hcons.
    { intros k. rewrite occurrences_cons. unfold occurrences at 1. rewrite filter_cons, filter_nil.
      destruct (decide (n = k)); simpl; lia. }
    destruct (IH (n :: seen) (addEdge g (initiating m) n) (fun a b => R a b \/ (a = initiating m /\ b = n)))
      as [[Hall (g' & D & Heq & Hb')]|[(n' & m2 & Hin & Hbad) Herr]].
    + eapply built_ext; [apply (built_edge g P R (fun k => 1 + occurrences k seen) (initiating m) n Hb)| |done|].
      * by apply HP, (executes_log _ m').
      * rewrite Hz. done.
      * intros k. specialize (Hocc k). unfold two32. lia.
      * intros k. split; [intros [? | -> ]; [done|by apply HP, (executes_log _ m)]|by left].
      * intros k. cbn beta. rewrite Hcons. lia.
    + intros k. rewrite Hcons. specialize (Hocc k). destruct (decide (n = k)) as [<-|]; lia.
    + done.
    + intros k Hk [->|?]%elem_of_cons; [done|]. apply (Hseen k); [by right|done].
    + intros k mk Hk. apply Hex. by right.
    + left. split; [intros k mk Hk; apply elem_of_cons in Hk as [Hk|Hk]; [by injection Hk as -> ->|eauto]|]. exists g', D. split; [done|].
      eapply built_ext; [exact Hb'|done| |intros; reflexivity]. intros a b. unfold msg_edge.
      setoid_rewrite elem_of_cons. naive_solver.
    + right. split; [|done]. exists n', m2. split; [by right|done].
  - destruct (IH seen g R) as [[Hall (g' & D & Heq & Hb')]|[(n' & m2 & Hin & Hbad) Herr]]; try done.
    + intros k Hk. apply Hseen. by right.
    + intros k mk Hk. apply Hex. by right.
    + left. split; [intros k mk Hk; apply elem_of_cons in Hk as [Hk|Hk]; [by injection Hk as -> ->|eauto]|]. exists g', D. split; [done|].
      eapply built_ext; [exact Hb'|done| |intros; reflexivity]. intros a b. unfold msg_edge.
      setoid_rewrite elem_of_cons. naive_solver.
    + right. split; [|done]. exists n', m2. split; [by right|done].
Qed.
Lemma triples_executes t n m : (n, m) ∈ triples (range t (snd logs)) <-> executes n m.
Proof.
  destruct Hg as (_ & _ & Hex). specialize (Hex (n_chainIndex n) (n_logIndex n) m).
  replace (Node (n_chainIndex n) (n_logIndex n)) with n in Hex by by destruct n.
  unfold triples. rewrite list_elem_of_bind. split.
  - intros ([c ms] & Hin & Hc). apply elem_of_range in Hc. simpl in Hin.
    apply list_elem_of_fmap in Hin as ([i m'] & [= -> ->] & Hi). apply elem_of_range in Hi.
    apply Hex. simpl. eauto.
  - intros Hx. pose proof (executes_hazard n m Hx) as Hc.
    destruct (proj2 Hex (conj Hc Hx)) as (ms & Hs & Hm). exists (n_chainIndex n, ms). simpl. split.
    + apply list_elem_of_fmap. exists (n_logIndex n, m). split; [by destruct n|]. by apply elem_of_range.
    + by apply elem_of_range.
Qed.

Lemma NoDup_triples (chains : list (Z * gmap Z ExecutingMessage)) : NoDup chains.*1 -> NoDup (triples chains).*1.
Proof.
  induction chains as [|[c ms] chains IH]; intros Hnd; [constructor|]. apply NoDup_cons in Hnd as [Hni Hnd].
  unfold triples in *. rewrite bind_cons, fmap_app. apply NoDup_app. split_and!; [| |auto].
  - assert (NoDup (Node c <$> (range (3 * c + 3) ms).*1)) as Hn.
    { apply NoDup_fmap_2; [by intros ? ? [= ?]|apply NoDup_range]. }
    rewrite <-(list_fmap_compose fst (Node c)) in Hn. rewrite <-list_fmap_compose. exact Hn.
  - intros n Hn Hn'. apply list_elem_of_fmap in Hn as ([? m] & -> & Hn), Hn' as ([n' m'] & Heq & Hn').
    simpl in Heq. subst. apply list_elem_of_fmap in Hn as ([i m1] & [= -> ->] & _).
    apply list_elem_of_bind in Hn' as ([c' ms'] & Hn' & Hc'). simpl in Hn'.
    apply list_elem_of_fmap in Hn' as ([i' m2] & [= -> -> ->] & _). apply Hni, list_elem_of_fmap.
    by exists (c', ms').
Qed.

Lemma chains_built : built (foldl add_chain empty_graph (range (-1) (fst logs))) is_log follows (fun _ => 1).
Proof.
  destruct Hg as (Hlc & _ & _).
  assert (forall c n, (c, n) ∈ range (-1) (fst logs) <-> exists bl, opens c bl /\ ob_logCount bl = n) as Hin.
  { intros c n. rewrite elem_of_range, Hlc. split; [tauto|]. intros (bl & Hop & Hn). split; [|eauto].
    destruct Hop as (s & id & Hs & _). apply Hcs. eauto. }
  eapply built_ext; [apply (add_chains_built (range (-1) (fst logs)) _ _ _ built_empty)| | |done].
  - apply NoDup_range.
  - auto.
  - intros c n Hc. apply Hin in Hc as (bl & (s & id & _ & _ & Hob & _) & <-).
    destruct (opened_u32 _ _ _ Hob) as [Hu _]. unfold is_u32 in Hu. lia.
  - intros n. unfold is_log. setoid_rewrite Hin. naive_solver.
  - intros a b. unfold follows, seq_edge, is_log. setoid_rewrite Hin. split.
    + intros [[]|(? & ? & ? & n & (bl & ? & <-) & ?)]. split_and!; try done. exists bl. split; [done|lia].
    + intros (? & ? & ? & bl & ? & ?). right. split_and!; try done. exists (ob_logCount bl). split; [eauto|lia].
Qed.
End edges.

(** The graph is built exactly when the hazards are consistent, and then it
    is the dependency relation. *)
Lemma buildGraph_spec :
  (consistent /\ exists g D, buildGraph chainID_of OpenBlock inTimestamp hazards = Ok g /\
     built g is_log dependency D) \/
  (~ consistent /\ forall g, buildGraph chainID_of OpenBlock inTimestamp hazards <> Ok g).
Proof.
  unfold buildGraph. destruct gatherLogs_spec as [Hok Hinv].
  destruct (gatherLogs chainID_of OpenBlock inTimestamp hazards) as [logs| |] eqn:Hgl; cbn [rbind].
  2,3: right; split; [|done]; intros [Hall _]; destruct (Hok Hall) as (? & ? & ? & _); done.
  pose proof (Hinv logs eq_refl) as Hall. destruct (Hok Hall) as (logs' & cs & [= <-] & Hg & Hcs).
  rewrite add_all_msgs_list.
  destruct (add_list_spec logs cs Hg Hcs (triples (range (-2) (snd logs))) []
    (foldl add_chain empty_graph (range (-1) (fst logs))) is_log follows)
    as [[Hgood (g & D & -> & Hb)]|[(n & m & Hin & Hbad) [e ->]]].
  - done.
  - eapply built_ext; [by apply (chains_built logs cs)|done|done|]. intros n. by unfold occurrences.
  - intros n. by unfold occurrences.
  - apply NoDup_triples, NoDup_range.
  - intros n _ Hn. by apply elem_of_nil in Hn.
  - intros n m. apply (triples_executes logs cs Hg Hcs).
  - left. split; [|exists g, D; split; [done|]].
    + split; [done|]. split; intros n m Hx; apply (triples_executes logs cs Hg Hcs (-2)), Hgood in Hx; tauto.
    + eapply built_ext; [exact Hb|done| |intros; reflexivity]. intros a b. unfold dependency, msg_edge.
      setoid_rewrite (triples_executes logs cs Hg Hcs (-2)). done.
  - right. apply (triples_executes logs cs Hg Hcs) in Hin. split; [|done].
    intros (_ & Hh & Hself). destruct Hbad as [Hnone|Heq].
    + destruct (Hh n m Hin) as [s Hs]. by rewrite Hnone in Hs.
    + by apply (Hself n m).
Qed.
End spec.

(** What acceptance says, for the promotion rules. *)
Lemma HazardCycleChecks_ok `{MapOrder} `{NodeOrder} chainID_of OpenBlock inTimestamp hazards :
  (forall id num bl, OpenBlock id num = Ok bl ->
     is_u32 (ob_logCount bl) /\ forall i m, ob_execMsgs bl !! i = Some m -> is_u32 i) ->
  HazardCycleChecks chainID_of OpenBlock inTimestamp hazards = Ok tt ->
  consistent chainID_of OpenBlock inTimestamp hazards /\ acyclic (dependency chainID_of OpenBlock inTimestamp hazards).
Proof.
  intros Hu Hr. unfold HazardCycleChecks in Hr. apply rbind_Ok in Hr as (g & Hg & Hr).
  destruct (buildGraph_spec chainID_of OpenBlock inTimestamp hazards Hu)
    as [[Hok (g' & D & Heq & N & E & Hrep & _ & HE & _)]|[_ Hne]]; [|by apply Hne in Hg].
  rewrite Heq in Hg. injection Hg as ->. split; [done|].
  destruct (checkGraph_spec g N E Hrep) as [[_ Ha]|[Hc _]]; [|congruence].
  eapply acyclic_ext; [|exact Ha]. intros a b. symmetry. apply HE.
Qed.

(** A set that is acyclic in the documented sense is acyclic in the graph. *)
Lemma documented_acyclic_accepted `{MapOrder} `{NodeOrder} chainID_of OpenBlock inTimestamp hazards :
  acyclic (documented chainID_of OpenBlock inTimestamp hazards) ->
  acyclic (dependency chainID_of OpenBlock inTimestamp hazards).
Proof. apply acyclic_sub. intros a b [?|(m & m' & ? & ? & _)]; [by left|right; eauto]. Qed.

(** The verdict over the edges of the graph that the code builds. *)
Lemma HazardCycleChecks_iff `{MapOrder} `{NodeOrder} chainID_of OpenBlock inTimestamp hazards :
  (forall id num bl, OpenBlock id num = Ok bl ->
     is_u32 (ob_logCount bl) /\ forall i m, ob_execMsgs bl !! i = Some m -> is_u32 i) ->
  let r := HazardCycleChecks chainID_of OpenBlock inTimestamp hazards in
  let ok := consistent chainID_of OpenBlock inTimestamp hazards in
  let dep := dependency chainID_of OpenBlock inTimestamp hazards in
  (r = Ok tt <-> ok /\ acyclic dep) /\ (ok -> ~ acyclic dep -> r = Err ErrCycle).
Proof.
  intros Hu r ok dep. unfold r, HazardCycleChecks.
  destruct (buildGraph_spec chainID_of OpenBlock inTimestamp hazards Hu)
    as [[Hok (g & D & -> & N & E & Hr & _ & HE & _)]|[Hno Hne]].
  - cbn [rbind]. assert (acyclic (edge_rel E) <-> acyclic dep) as Hac by by apply acyclic_ext.
    destruct (checkGraph_spec g N E Hr) as [[-> Ha]|[-> Ha]]; rewrite Hac in Ha; split.
    + tauto.
    + done.
    + split; [done|]. tauto.
    + done.
  - split; [|done]. split; [|by intros [? _]]. intros Heq.
    apply rbind_Ok in Heq as (g & Hg & _). by apply Hne in Hg.
Qed.

(** C15: what the cycle check accepts and refuses.  Call a hazard set consistent
    when every hazard block opens as the expected block and no executing message
    of the timestamp refers to a chain outside the set or to itself.  A set that
    is not consistent is refused.  A consistent set is accepted when the relation
    of the documentation (the order of the logs and an edge from every
    initiating message to the message that executes it) is acyclic, and refused
    with [ErrCycle] when there is a cycle of the order of the logs and of those
    messages whose initiating log executes a message itself; when all initiating
    logs do, it is accepted exactly when the relation of the documentation is
    acyclic.  The order in which maps are iterated and free nodes are visited
    does not matter, and the check always ends.  (The code leaves out the other
    messages; [CycleExamples.missed_cycle] is a cycle through them.) *)
Theorem cycle_check_correct `{MapOrder} `{NodeOrder} chainID_of OpenBlock inTimestamp hazards :
  (forall id num bl, OpenBlock id num = Ok bl ->
     is_u32 (ob_logCount bl) /\ forall i m, ob_execMsgs bl !! i = Some m -> is_u32 i) ->
  let r := HazardCycleChecks chainID_of OpenBlock inTimestamp hazards in
  let ok := consistent chainID_of OpenBlock inTimestamp hazards in
  let dep := dependency chainID_of OpenBlock inTimestamp hazards in
  let doc := documented chainID_of OpenBlock inTimestamp hazards in
  (~ ok -> r <> Ok tt)
  /\ (ok -> acyclic doc -> r = Ok tt)
  /\ (ok -> ~ acyclic dep -> r = Err ErrCycle)
  /\ ((forall n m, executes chainID_of OpenBlock inTimestamp hazards n m ->
        exists m', executes chainID_of OpenBlock inTimestamp hazards (initiating m) m') ->
      (r = Ok tt <-> ok /\ acyclic doc) /\ (ok -> ~ acyclic doc -> r = Err ErrCycle)).
Proof.
  intros Hu r ok dep doc. destruct (HazardCycleChecks_iff chainID_of OpenBlock inTimestamp hazards Hu) as [Hiff Hcyc].
  split; [intros Hno Hr; by apply Hiff in Hr as [? _]|].
  split; [intros Hok Ha; apply Hiff; split; [done|by apply documented_acyclic_accepted]|]. split; [done|]. intros Hall.
  assert (acyclic dep <-> acyclic doc) as Heq.
  { split; [|by apply documented_acyclic_accepted]. apply acyclic_sub. intros a b [?|(m & Hm & ->)]; [by left|].
    right. destruct (Hall _ _ Hm) as [m' Hm']. eauto. }
  unfold r, ok, doc, dep in *. rewrite <-Heq. done.
Qed.

Module CycleExamples.
(** Two chains with one block each at timestamp 100.  The first log of each
    executes the second log of the other, and the second logs execute
    nothing. *)
Definition msg (chain logIdx : Z) : ExecutingMessage :=
  {| em_Chain := chain; em_BlockNum := 1; em_LogIdx := logIdx; em_Timestamp := 100; em_Hash := 7 |}.

Definition block (msgs : gmap Z ExecutingMessage) : OpenedBlock :=
  {| ob_ref := {| l1_Hash := 11; l1_Number := 1; l1_ParentHash := 10; l1_Time := 100 |};
     ob_logCount := 2; ob_execMsgs := msgs |}.

Definition ids (index : Z) : result Z := if (index =? 1) || (index =? 2) then Ok (900 + index) else Err ErrUnknownChain.

Definition seal : BlockSeal := {| bs_Hash := 11; bs_Number := 1; bs_Timestamp := 100 |}.

Definition hazards : gmap Z BlockSeal := {[1 := seal; 2 := seal]}.

(** [m1] and [m2]: the executing messages of the two blocks. *)
Definition open (m1 m2 : gmap Z ExecutingMessage) (id num : Z) : result OpenedBlock :=
  if id =? 901 then Ok (block m1) else if id =? 902 then Ok (block m2) else Err ErrUnknownChain.

Definition crossed : Z -> Z -> result OpenedBlock := open {[0 := msg 2 1]} {[0 := msg 1 1]}.

(** The same with the second logs executing too: log 1 of chain 1 executes
    log 0 of chain 2. *)
Definition crossed_exec : Z -> Z -> result OpenedBlock := open {[1 := msg 2 0]} {[0 := msg 1 1]}.

Lemma crossed_opens : opens ids crossed hazards 1 (block {[0 := msg 2 1]}) /\
  opens ids crossed hazards 2 (block {[0 := msg 1 1]}).
Proof.
  split; (exists seal; eexists; split_and!; try reflexivity;
    intros i m Hm; unfold block in Hm; cbn [ob_execMsgs] in Hm; apply lookup_singleton_Some in Hm as [<- _]; reflexivity).
Qed.

(** A cycle the check accepts: the logs (2,1), (1,0), (1,1), (2,0) depend on
    one another in a ring, yet neither initiating log executes a message, so
    neither message edge is in the graph. *)
Lemma missed_cycle :
  HazardCycleChecks (H := tree_order) (H0 := first_node) ids crossed 100 hazards = Ok tt /\
  ~ acyclic (documented ids crossed 100 hazards).
Proof.
  split; [vm_compute; reflexivity|]. intros Ha. destruct crossed_opens as [H1 H2].
  assert (forall c i bl, opens ids crossed hazards c bl -> ob_logCount bl = 2 -> i = 1 ->
    documented ids crossed 100 hazards (Node c 0) (Node c i)) as Hseq.
  { intros c i bl Hop Hn ->. left. split_and!; simpl; try done. exists bl. simpl. split; [done|lia]. }
  assert (documented ids crossed 100 hazards (Node 2 1) (Node 1 0)) as E1.
  { right. exists (msg 2 1). split; [|done]. exists (block {[0 := msg 2 1]}). done. }
  assert (documented ids crossed 100 hazards (Node 1 1) (Node 2 0)) as E2.
  { right. exists (msg 1 1). split; [|done]. exists (block {[0 := msg 1 1]}). done. }
  apply (Ha (Node 2 1)). eapply tc_l; [exact E1|]. eapply tc_l; [by eapply Hseq|].
  eapply tc_l; [exact E2|]. constructor. by eapply Hseq.
Qed.

(** A cycle it finds, and an acyclic set it accepts. *)
Lemma found_cycle :
  HazardCycleChecks (H := tree_order) (H0 := first_node) ids crossed_exec 100 hazards = Err ErrCycle.
Proof. vm_compute. reflexivity. Qed.

End CycleExamples.

Lemma cycle_check_correct_witness :
  let hz := CycleExamples.hazards in let open := CycleExamples.crossed_exec in
  HazardCycleChecks (H := tree_order) (H0 := first_node) CycleExamples.ids open 100 hz = Err ErrCycle /\
  (consistent CycleExamples.ids open 100 hz -> ~ acyclic (dependency CycleExamples.ids open 100 hz) ->
   HazardCycleChecks (H := tree_order) (H0 := first_node) CycleExamples.ids open 100 hz = Err ErrCycle).
Proof.
  split; [vm_compute; reflexivity|].
  apply (cycle_check_correct (H := tree_order) (H0 := first_node)).
  intros id num bl. unfold CycleExamples.crossed_exec, CycleExamples.open.
  repeat case_match; intros [= <-]; simpl; (split; [done|]); intros i m Hm;
    unfold CycleExamples.block in Hm; cbn [ob_execMsgs] in Hm; apply lookup_singleton_Some in Hm as [<- _]; done.
Defined.
