(* ===== verification/HazardSet.v ===== *)
(** * Hazard sets

    [rhs-supervisor/supervisor/backend/cross/hazard_set.go]: before a block
    is promoted, the blocks it depends on at its own timestamp are collected,
    transitively, and every executing message of each is checked.

    [HazardDeps] is the interface of the same name; the databases behind it
    are a parameter.  The stack is a list whose head is its top.  The loop
    runs on fuel; [build_fuel] shows that the bound [build] uses is never
    reached. *)

From stdpp Require Import base gmap sets list relations.
From S2P Require Import Prelude EthTypes EntryDB FromDA DepSet CrossGraph.

Class HazardDeps : Type := {
  hd_Contains (chain : Z) (query : ContainsQuery) : result BlockSeal;
  hd_DependencySet : DependencySet;
  IsCrossValidBlock (chainID : Z) (block : BlockID) : result unit;
  hd_OpenBlock (chainID blockNum : Z) : result OpenedBlock }.

#[local] Existing Instance hd_DependencySet.

Abbreviation Entries := (gmap Z BlockSeal).
Definition potentialHazard : Type := Z * BlockSeal.

Section hazards.
Context `{MapOrder} `{Keccak} `{HazardDeps}.

Definition checkChainCanExecute (chainID : Z) (block : BlockSeal) (execMsgs : gmap Z ExecutingMessage)
  : result unit :=
  if decide (execMsgs = ∅) then Ok tt
  else
    let* ok := map_err (Wrap "cannot check message execution of block") (CanExecuteAt chainID (bs_Timestamp block)) in
    if negb ok then Err (Wrap "cannot execute messages in block" ErrConflict) else Ok tt.

Definition checkChainCanInitiate (initChainID : Z) (msg : ExecutingMessage) : result unit :=
  let* ok := map_err (Wrap "cannot check message initiation of msg") (CanInitiateAt initChainID (em_Timestamp msg)) in
  if negb ok then Err (Wrap "cannot allow initiating message" ErrConflict) else Ok tt.

Definition checkMessageWithOlderTimestamp (msg : ExecutingMessage) (initChainID : Z) (includedIn : BlockSeal)
  (candidateTimestamp : Z) : result unit :=
  let* _ := map_err (Wrap "msg included in non-cross-safe block")
              (IsCrossValidBlock initChainID (BlockSeal_ID includedIn)) in
  let expiresAt := em_Timestamp msg +u MessageExpiryWindow in
  if expiresAt <? candidateTimestamp then Err (Wrap "timestamp of message has expired" ErrConflict) else Ok tt.

Definition checkMessageWithCurrentTimestamp (entries : Entries) (msg : ExecutingMessage) (includedIn : BlockSeal)
  : result bool :=
  match entries !! em_Chain msg with
  | Some existing =>
      if negb (id_eqb (BlockSeal_ID existing) (BlockSeal_ID includedIn)) then
        Err (Msg "found dependency, but already depend on another block")
      else Ok true
  | None => Ok false
  end.

Definition msg_args (srcChainID : Z) (msg : ExecutingMessage) : ChecksumArgs :=
  {| ca_BlockNumber := em_BlockNum msg; ca_LogIndex := em_LogIdx msg; ca_Timestamp := em_Timestamp msg;
     ca_ChainID := srcChainID; ca_LogHash := em_Hash msg |}.

(** The body of the loop over the executing messages of [candidate]. *)
Definition build_msg (candidate : BlockSeal) (msg : ExecutingMessage) (st : Entries * list potentialHazard)
  : result (Entries * list potentialHazard) :=
  let '(entries, stack) := st in
  let* srcChainID := map_err (fun err => if errors_Is err ErrUnknownChain
                                         then Wrap "msg may not execute from unknown chain" ErrConflict else err)
                       (ChainIDFromIndex (em_Chain msg)) in
  let* _ := checkChainCanInitiate srcChainID msg in
  let* includedIn := map_err (Wrap "executing msg failed inclusion check")
                       (hd_Contains srcChainID (Query (msg_args srcChainID msg))) in
  if em_Timestamp msg <? bs_Timestamp candidate then
    let* _ := checkMessageWithOlderTimestamp msg srcChainID includedIn (bs_Timestamp candidate) in
    Ok (entries, stack)
  else if em_Timestamp msg =? bs_Timestamp candidate then
    let* exists_ := checkMessageWithCurrentTimestamp entries msg includedIn in
    if exists_ then Ok (entries, stack)
    else Ok (<[em_Chain msg := includedIn]> entries, (srcChainID, includedIn) :: stack)
  else Err (Wrap "executing message breaks timestamp invariant" ErrConflict).

Fixpoint build_msgs (candidate : BlockSeal) (msgs : list (Z * ExecutingMessage))
  (st : Entries * list potentialHazard) : result (Entries * list potentialHazard) :=
  match msgs with
  | [] => Ok st
  | (_, msg) :: msgs' => let* st := build_msg candidate msg st in build_msgs candidate msgs' st
  end.

(** One popped block; [t] is the moment of the iteration. *)
Definition build_block (t : Z) (next : potentialHazard) (st : Entries * list potentialHazard)
  : result (Entries * list potentialHazard) :=
  let '(destChainID, candidate) := next in
  let* opened := map_err (Wrap "failed to open block") (hd_OpenBlock destChainID (bs_Number candidate)) in
  if negb (id_eqb (L1BlockRef_ID (ob_ref opened)) (BlockSeal_ID candidate)) then
    Err (Wrap "unsafe core DB has another block than the candidate cross-safe" ErrConflict)
  else
    let* _ := checkChainCanExecute destChainID candidate (ob_execMsgs opened) in
    build_msgs candidate (range t (ob_execMsgs opened)) st.

(** [t] counts the iterations. *)
Fixpoint build_loop (fuel : nat) (t : Z) (st : Entries * list potentialHazard) : result Entries :=
  match fuel with
  | O => Err (Msg "out of fuel")
  | S fuel =>
      match snd st with
      | [] => Ok (fst st)
      | next :: stack =>
          let* st := build_block t next (fst st, stack) in
          build_loop fuel (t + 1) st
      end
  end.

Definition build_bound : nat := S (S (length Chains)).

Definition build (chainID : Z) (block : BlockSeal) : result Entries :=
  build_loop build_bound 0 (∅, [(chainID, block)]).

Definition NewHazardSet (chainID : Z) (block : BlockSeal) : result Entries :=
  map_err (Wrap "failed to build hazard set") (build chainID block).

(** ** What the set means *)

(** The message [msg] of a block at time [ts] is in order, given the
    hazard blocks [entries]. *)
Definition message_ok (entries : Entries) (ts : Z) (msg : ExecutingMessage) : Prop :=
  exists src includedIn, ChainIDFromIndex (em_Chain msg) = Ok src /\
    CanInitiateAt src (em_Timestamp msg) = Ok true /\
    hd_Contains src (Query (msg_args src msg)) = Ok includedIn /\
    ((em_Timestamp msg < ts /\ IsCrossValidBlock src (BlockSeal_ID includedIn) = Ok tt /\
        ts <= em_Timestamp msg +u MessageExpiryWindow) \/
     (em_Timestamp msg = ts /\ exists e, entries !! em_Chain msg = Some e /\
        BlockSeal_ID e = BlockSeal_ID includedIn)).

Definition block_ok (entries : Entries) (p : potentialHazard) : Prop :=
  exists opened, hd_OpenBlock p.1 (bs_Number p.2) = Ok opened /\
    L1BlockRef_ID (ob_ref opened) = BlockSeal_ID p.2 /\
    (ob_execMsgs opened <> ∅ -> CanExecuteAt p.1 (bs_Timestamp p.2) = Ok true) /\
    forall i msg, ob_execMsgs opened !! i = Some msg -> message_ok entries (bs_Timestamp p.2) msg.

(** The blocks the candidate depends on at its timestamp, with the index
    of their chain ([None] for the candidate itself). *)
Inductive hazard (chainID : Z) (block : BlockSeal) : option Z -> potentialHazard -> Prop :=
  | hazard_start : hazard chainID block None (chainID, block)
  | hazard_step ix p opened i msg src includedIn :
      hazard chainID block ix p ->
      hd_OpenBlock p.1 (bs_Number p.2) = Ok opened -> ob_execMsgs opened !! i = Some msg ->
      em_Timestamp msg = bs_Timestamp p.2 -> ChainIDFromIndex (em_Chain msg) = Ok src ->
      hd_Contains src (Query (msg_args src msg)) = Ok includedIn ->
      hazard chainID block (Some (em_Chain msg)) (src, includedIn).

(** *** One message *)

(** A message either leaves the state as it is or adds one hazard block of
    a chain that has none. *)
Lemma build_msg_ok candidate msg entries stack st' :
  build_msg candidate msg (entries, stack) = Ok st' <->
  exists src includedIn, ChainIDFromIndex (em_Chain msg) = Ok src /\
    CanInitiateAt src (em_Timestamp msg) = Ok true /\
    hd_Contains src (Query (msg_args src msg)) = Ok includedIn /\
    ((em_Timestamp msg < bs_Timestamp candidate /\ IsCrossValidBlock src (BlockSeal_ID includedIn) = Ok tt /\
        bs_Timestamp candidate <= em_Timestamp msg +u MessageExpiryWindow /\ st' = (entries, stack)) \/
     (em_Timestamp msg = bs_Timestamp candidate /\
        ((exists e, entries !! em_Chain msg = Some e /\ BlockSeal_ID e = BlockSeal_ID includedIn /\
            st' = (entries, stack)) \/
         (entries !! em_Chain msg = None /\
            st' = (<[em_Chain msg := includedIn]> entries, (src, includedIn) :: stack))))).
Proof.
  unfold build_msg. rewrite rbind_Ok. setoid_rewrite map_err_Ok.
  split.
  - intros (src & Hsrc & Hb). apply rbind_Ok in Hb as ([] & Hci & Hb). apply rbind_Ok in Hb as (inc & Hinc & Hb).
    rewrite map_err_Ok in Hinc. unfold checkChainCanInitiate in Hci. apply rbind_Ok in Hci as (ok & Hok & Hci).
    rewrite map_err_Ok in Hok. destruct ok; [|done]. exists src, inc. split_and!; [done..|].
    destruct (Z.ltb_spec (em_Timestamp msg) (bs_Timestamp candidate)) as [Hlt|Hge].
    + left. apply rbind_Ok in Hb as ([] & Hold & [= <-]). unfold checkMessageWithOlderTimestamp in Hold.
      apply rbind_Ok in Hold as ([] & Hv & Hexp). rewrite map_err_Ok in Hv.
      destruct (Z.ltb_spec (em_Timestamp msg +u MessageExpiryWindow) (bs_Timestamp candidate)); done.
    + right. destruct (Z.eqb_spec (em_Timestamp msg) (bs_Timestamp candidate)) as [Heq|]; [|done]. split; [done|].
      apply rbind_Ok in Hb as (ex & Hcur & Hb). unfold checkMessageWithCurrentTimestamp in Hcur.
      destruct (entries !! em_Chain msg) as [e|] eqn:He.
      * left. exists e. unfold id_eqb in Hcur. case_bool_decide; [|done]. injection Hcur as <-.
        injection Hb as <-. done.
      * right. injection Hcur as <-. by injection Hb as <-.
  - intros (src & inc & Hsrc & Hci & Hinc & Hcase). exists src. split; [done|].
    unfold checkChainCanInitiate. rewrite Hci. cbn [map_err rbind negb]. rewrite Hinc. cbn [map_err rbind].
    destruct Hcase as [(Hlt & Hv & Hexp & ->)|[Heq Hcase]].
    + rewrite (proj2 (Z.ltb_lt _ _) Hlt). unfold checkMessageWithOlderTimestamp. rewrite Hv. cbn [map_err rbind].
      by rewrite (proj2 (Z.ltb_ge _ _) Hexp).
    + rewrite Heq, Z.ltb_irrefl, Z.eqb_refl. unfold checkMessageWithCurrentTimestamp, id_eqb.
      destruct Hcase as [(e & -> & Hid & ->)|[-> ->]]; [|done]. by rewrite bool_decide_true.
Qed.

Lemma message_ok_mono entries entries' ts msg : entries ⊆ entries' -> message_ok entries ts msg ->
  message_ok entries' ts msg.
Proof.
  intros Hsub (src & inc & ? & ? & ? & [?|(? & e & He & ?)]); exists src, inc; split_and!; try done; [by left|].
  right. split; [done|]. exists e. split; [by eapply lookup_weaken|done].
Qed.

Lemma block_ok_mono entries entries' p : entries ⊆ entries' -> block_ok entries p -> block_ok entries' p.
Proof.
  intros Hsub (op & ? & ? & ? & Hm). exists op. split_and!; try done. intros i msg Hi.
  eapply message_ok_mono; eauto.
Qed.

(** *** All messages of a block *)

(** What the loop over the messages keeps: the set grows, every block it
    adds is pushed, and everything added is a dependency ([Q]). *)
Record grows (Q : Z -> potentialHazard -> Prop) (st st' : Entries * list potentialHazard) : Prop := {
  gr_sub : st.1 ⊆ st'.1;
  gr_stack : exists pushed, st'.2 = pushed ++ st.2 /\ (length pushed + size st.1 = size st'.1)%nat;
  gr_new c b : st'.1 !! c = Some b -> st.1 !! c = Some b \/
    exists src, ChainIDFromIndex c = Ok src /\ (src, b) ∈ st'.2 /\ Q c (src, b);
  gr_pushed p : p ∈ st'.2 -> p ∈ st.2 \/ exists c, Q c p }.

Lemma grows_refl Q st : grows Q st st.
Proof. split; [done|by exists []|auto|auto]. Qed.

Lemma grows_trans Q st1 st2 st3 : grows Q st1 st2 -> grows Q st2 st3 -> grows Q st1 st3.
Proof.
  intros [Hs1 (p1 & Hp1 & Hl1) Hn1 Hq1] [Hs2 (p2 & Hp2 & Hl2) Hn2 Hq2]. split.
  - by etrans.
  - exists (p2 ++ p1). rewrite Hp2, Hp1, app_assoc, length_app. split; [done|lia].
  - intros c b Hb. apply Hn2 in Hb as [Hb|?]; [|by right]. apply Hn1 in Hb as [Hb|(src & ? & Hin & ?)]; [by left|].
    right. exists src. split_and!; try done. rewrite Hp2. apply elem_of_app. by right.
  - intros p Hp. apply Hq2 in Hp as [Hp|?]; [|by right]. by apply Hq1.
Qed.

Lemma build_msg_grows candidate msg st st' (Q : Z -> potentialHazard -> Prop) :
  build_msg candidate msg st = Ok st' ->
  (forall src inc, em_Timestamp msg = bs_Timestamp candidate -> ChainIDFromIndex (em_Chain msg) = Ok src ->
     hd_Contains src (Query (msg_args src msg)) = Ok inc -> Q (em_Chain msg) (src, inc)) ->
  grows Q st st' /\ message_ok st'.1 (bs_Timestamp candidate) msg.
Proof.
  destruct st as [entries stack]. intros Hb HQ.
  apply build_msg_ok in Hb as (src & inc & Hsrc & Hci & Hinc & [(? & ? & ? & ->)|(Heq & [(e & ? & ? & ->)|(Hnone & ->)])]).
  - split; [apply grows_refl|]. exists src, inc. auto 8.
  - split; [apply grows_refl|]. exists src, inc. split_and!; try done. right. eauto.
  - specialize (HQ src inc Heq Hsrc Hinc). split.
    + split; cbn [fst snd].
      * by apply insert_subseteq.
      * exists [(src, inc)]. split; [done|]. rewrite map_size_insert_None by done. simpl. lia.
      * intros c b Hc. apply lookup_insert_Some in Hc as [[<- <-]|[_ ?]]; [right|by left].
        exists src. split_and!; try done. left.
      * intros p Hp. apply elem_of_cons in Hp as [->|?]; [right; eauto|by left].
    + exists src, inc. split_and!; try done. right. split; [done|]. exists inc. split; [apply lookup_insert_eq|done].
Qed.

Lemma build_msgs_grows candidate (msgs : list (Z * ExecutingMessage)) st st' (Q : Z -> potentialHazard -> Prop) :
  build_msgs candidate msgs st = Ok st' ->
  (forall i msg src inc, (i, msg) ∈ msgs -> em_Timestamp msg = bs_Timestamp candidate ->
     ChainIDFromIndex (em_Chain msg) = Ok src ->
     hd_Contains src (Query (msg_args src msg)) = Ok inc -> Q (em_Chain msg) (src, inc)) ->
  grows Q st st' /\ forall i msg, (i, msg) ∈ msgs -> message_ok st'.1 (bs_Timestamp candidate) msg.
Proof.
  revert st. induction msgs as [|[i msg] msgs IH]; intros st Hb HQ; simpl in Hb.
  { injection Hb as ->. split; [apply grows_refl|]. intros i msg Hin. by apply elem_of_nil in Hin. }
  apply rbind_Ok in Hb as (st1 & Hfirst & Hb).
  destruct (build_msg_grows candidate msg st st1 Q Hfirst) as [Hg1 Hm1]; [intros; eapply HQ; eauto; left|].
  destruct (IH st1 Hb) as [Hg2 Hm2]; [intros; eapply HQ; eauto; by right|].
  split; [by eapply grows_trans|]. intros j m [[= -> ->]|Hin]%elem_of_cons; [|eauto].
  eapply message_ok_mono; [apply Hg2|done].
Qed.

Lemma build_block_grows t next st st' (Q : Z -> potentialHazard -> Prop) :
  build_block t next st = Ok st' ->
  (forall opened i msg src inc, hd_OpenBlock next.1 (bs_Number next.2) = Ok opened ->
     ob_execMsgs opened !! i = Some msg -> em_Timestamp msg = bs_Timestamp next.2 ->
     ChainIDFromIndex (em_Chain msg) = Ok src ->
     hd_Contains src (Query (msg_args src msg)) = Ok inc -> Q (em_Chain msg) (src, inc)) ->
  grows Q st st' /\ block_ok st'.1 next.
Proof.
  destruct next as [dest candidate]. intros Hb HQ. unfold build_block in Hb.
  apply rbind_Ok in Hb as (opened & Hop & Hb). rewrite map_err_Ok in Hop.
  unfold id_eqb in Hb. case_bool_decide as Hid; [|done]. cbn [negb] in Hb.
  apply rbind_Ok in Hb as ([] & Hcan & Hb).
  destruct (build_msgs_grows _ _ _ _ Q Hb) as [Hg Hm].
  { intros i msg src inc Hin. apply elem_of_range in Hin. by apply (HQ opened i). }
  split; [done|]. exists opened. split_and!; try done.
  - intros Hne. unfold checkChainCanExecute in Hcan. rewrite decide_False in Hcan by done.
    apply rbind_Ok in Hcan as (ok & Hok & Hcan). rewrite map_err_Ok in Hok. by destruct ok.
  - intros i msg Hi. apply (Hm i). by apply elem_of_range.
Qed.

(** *** The loop *)

Section loop.
Variables (chainID : Z) (block : BlockSeal).

Record build_inv (st : Entries * list potentialHazard) : Prop := {
  bi_entry c b : st.1 !! c = Some b -> exists id, ChainIDFromIndex c = Ok id /\
    hazard chainID block (Some c) (id, b) /\ ((id, b) ∈ st.2 \/ block_ok st.1 (id, b));
  bi_stack p : p ∈ st.2 -> exists ix, hazard chainID block ix p;
  bi_start : (chainID, block) ∈ st.2 \/ block_ok st.1 (chainID, block) }.

Lemma build_inv_init : build_inv (∅, [(chainID, block)]).
Proof.
  split; cbn [fst snd].
  - intros c b Hc. by rewrite lookup_empty in Hc.
  - intros p Hp%list_elem_of_singleton. subst. exists None. constructor.
  - left. left.
Qed.

Lemma build_block_inv t entries next stack st' : build_inv (entries, next :: stack) ->
  build_block t next (entries, stack) = Ok st' ->
  build_inv st' /\ grows (fun c => hazard chainID block (Some c)) (entries, stack) st'.
Proof.
  intros [He Hs Hstart] Hb. cbn [fst snd] in *.
  destruct (Hs next) as [ix Hnext]; [by left|].
  destruct (build_block_grows t next (entries, stack) st' (fun c => hazard chainID block (Some c)) Hb) as [Hg Hok].
  { intros opened i msg src inc Hop Hi Ht Hsrc Hinc. by eapply hazard_step. }
  split; [|done]. destruct Hg as [Hsub (pushed & Hp & _) Hnew Hpushed]. cbn [fst snd] in *.
  assert (forall p, p ∈ next :: stack \/ block_ok entries p -> p ∈ st'.2 \/ block_ok st'.1 p) as Hmove.
  { intros p [[->|Hin]%elem_of_cons|Hp']; [by right| |right; by eapply block_ok_mono].
    left. rewrite Hp. apply elem_of_app. by right. }
  split.
  - intros c b Hc. apply Hnew in Hc as [Hc|(src & ? & ? & ?)]; [|by exists src; auto].
    destruct (He c b Hc) as (id & ? & ? & Hw). exists id. split_and!; try done. by apply Hmove.
  - intros p Hin. apply Hpushed in Hin as [Hin|[c ?]]; [|by eexists]. apply Hs. by right.
  - by apply Hmove.
Qed.

Definition closed (h : Entries) : Prop :=
  block_ok h (chainID, block) /\
  forall c b, h !! c = Some b -> exists id, ChainIDFromIndex c = Ok id /\
    hazard chainID block (Some c) (id, b) /\ block_ok h (id, b).

Lemma build_loop_closed fuel t st h : build_inv st -> build_loop fuel t st = Ok h -> closed h.
Proof.
  revert t st. induction fuel as [|fuel IH]; intros t [entries stack] Hi Hb; [done|].
  simpl in Hb. destruct stack as [|next stack].
  - injection Hb as <-. destruct Hi as [He _ Hstart]. cbn [fst snd] in *. split.
    + destruct Hstart as [Hin|?]; [by apply elem_of_nil in Hin|done].
    + intros c b Hc. destruct (He c b Hc) as (id & ? & ? & [Hin|?]); [by apply elem_of_nil in Hin|eauto].
  - apply rbind_Ok in Hb as (st' & Hblk & Hb). eapply IH; [|exact Hb].
    by eapply build_block_inv.
Qed.

(** Termination: each iteration pops one block, and a block is pushed only
    with a chain index that had no entry. *)
Context {Hlaws : DependencySetLaws hd_DependencySet}.

Definition remaining (st : Entries * list potentialHazard) : nat :=
  length st.2 + (length Chains - size st.1).

Lemma entries_bound st : build_inv st -> (size st.1 <= length Chains)%nat.
Proof.
  intros [He _ _]. rewrite <-length_map_to_list.
  set (name := fun p : Z * BlockSeal => match ChainIDFromIndex p.1 with Ok id => id | _ => 0 end).
  rewrite <-(length_fmap name). apply submseteq_length, NoDup_submseteq.
  - apply NoDup_fmap_2_strong; [|apply NoDup_map_to_list]. intros [c b] [c' b'] Hin Hin'.
    apply elem_of_map_to_list in Hin, Hin'. unfold name. cbn [fst].
    destruct (He c b Hin) as (id & Hid & _), (He c' b' Hin') as (id' & Hid' & _). rewrite Hid, Hid'. intros ->.
    apply ds_index_id in Hid, Hid'. rewrite Hid in Hid'. injection Hid' as <-. congruence.
  - intros x Hx. apply list_elem_of_fmap in Hx as ([c b] & -> & Hin). apply elem_of_map_to_list in Hin.
    destruct (He c b Hin) as (id & Hid & _). unfold name. cbn [fst]. rewrite Hid.
    apply ds_known. exists c. by apply ds_index_id.
Qed.

Lemma remaining_step t entries next stack st' : build_inv (entries, next :: stack) ->
  build_block t next (entries, stack) = Ok st' -> (remaining st' < remaining (entries, next :: stack))%nat.
Proof.
  intros Hi Hb. destruct (build_block_inv t entries next stack st' Hi Hb) as [Hi' [_ (pushed & Hp & Hsz) _ _]].
  pose proof (entries_bound st' Hi') as Hle. unfold remaining. cbn [fst snd] in *.
  rewrite Hp, length_app. simpl. lia.
Qed.

Lemma build_loop_fuel fuel fuel' t st : build_inv st -> (remaining st < fuel)%nat -> (remaining st < fuel')%nat ->
  build_loop fuel t st = build_loop fuel' t st.
Proof.
  revert fuel' t st. induction fuel as [|fuel IH]; intros fuel' t [entries stack] Hi Hf Hf'; [lia|].
  destruct fuel' as [|fuel']; [lia|]. simpl. destruct stack as [|next stack]; [done|].
  destruct (build_block t next (entries, stack)) as [st'| |] eqn:Hb; [|done|done]. simpl.
  pose proof (remaining_step t entries next stack st' Hi Hb).
  apply IH; [by eapply build_block_inv|lia|lia].
Qed.

(** The bound is enough: more fuel changes nothing. *)
Lemma build_fuel extra : build_loop (build_bound + extra) 0 (∅, [(chainID, block)]) = build chainID block.
Proof.
  apply build_loop_fuel; [apply build_inv_init| |];
    unfold remaining, build_bound; cbn [fst snd]; rewrite map_size_empty; simpl; lia.
Qed.

(** *** Completeness *)

Definition message_valid (ts : Z) (msg : ExecutingMessage) : Prop :=
  exists src includedIn, ChainIDFromIndex (em_Chain msg) = Ok src /\
    CanInitiateAt src (em_Timestamp msg) = Ok true /\
    hd_Contains src (Query (msg_args src msg)) = Ok includedIn /\
    ((em_Timestamp msg < ts /\ IsCrossValidBlock src (BlockSeal_ID includedIn) = Ok tt /\
        ts <= em_Timestamp msg +u MessageExpiryWindow) \/ em_Timestamp msg = ts).

Definition block_valid (p : potentialHazard) : Prop :=
  exists opened, hd_OpenBlock p.1 (bs_Number p.2) = Ok opened /\
    L1BlockRef_ID (ob_ref opened) = BlockSeal_ID p.2 /\
    (ob_execMsgs opened <> ∅ -> CanExecuteAt p.1 (bs_Timestamp p.2) = Ok true) /\
    forall i msg, ob_execMsgs opened !! i = Some msg -> message_valid (bs_Timestamp p.2) msg.

(** Every block the candidate depends on is in order, and no chain
    contributes two different blocks. *)
Definition hazards_valid : Prop :=
  (forall ix p, hazard chainID block ix p -> block_valid p) /\
  (forall c p q, hazard chainID block (Some c) p -> hazard chainID block (Some c) q ->
     BlockSeal_ID p.2 = BlockSeal_ID q.2).

Lemma build_msgs_complete (Hvalid : hazards_valid) ix next opened (msgs : list (Z * ExecutingMessage)) st :
  hazard chainID block ix next -> hd_OpenBlock next.1 (bs_Number next.2) = Ok opened ->
  (forall i msg, (i, msg) ∈ msgs -> ob_execMsgs opened !! i = Some msg) ->
  (forall c b, st.1 !! c = Some b -> exists id, hazard chainID block (Some c) (id, b)) ->
  exists st', build_msgs next.2 msgs st = Ok st'.
Proof.
  intros Hnext Hop. destruct Hvalid as [Hblk Huniq].
  destruct (Hblk ix next Hnext) as (op' & Hop' & _ & _ & Hm). rewrite Hop in Hop'. injection Hop' as <-.
  revert st. induction msgs as [|[i msg] msgs IH]; intros [entries stack] Hin He; [by eexists|]. cbn [build_msgs].
  pose proof (Hin i msg (list_elem_of_here _ _)) as Hi.
  destruct (Hm i msg Hi) as (src & inc & Hsrc & Hci & Hinc & Hcase).
  assert (em_Timestamp msg = bs_Timestamp next.2 -> hazard chainID block (Some (em_Chain msg)) (src, inc)) as Hhz
    by (intros; by eapply hazard_step).
  assert (exists st1, build_msg next.2 msg (entries, stack) = Ok st1) as [st1 Hst1].
  { setoid_rewrite build_msg_ok. destruct Hcase as [(? & ? & ?)|Heq].
    - exists (entries, stack), src, inc. auto 8.
    - specialize (Hhz Heq). destruct (entries !! em_Chain msg) as [e|] eqn:Hent.
      + destruct (He _ _ Hent) as [id Hid]. exists (entries, stack), src, inc. split_and!; try done. right.
        split; [done|]. left. exists e. split_and!; try done. apply (Huniq _ _ _ Hid Hhz).
      + eexists _, src, inc. split_and!; try done. right. split; [done|]. right. done. }
  rewrite Hst1. cbn [rbind]. apply IH; [intros j m Hj; apply Hin; by right|].
  destruct (build_msg_grows next.2 msg (entries, stack) st1 (fun c => hazard chainID block (Some c)) Hst1) as [Hg _].
  { intros src' inc' Ht Hsrc' Hinc'. by eapply hazard_step. }
  intros c b Hc. apply (gr_new _ _ _ Hg) in Hc as [Hc|(src' & _ & _ & ?)]; eauto.
Qed.

Lemma build_block_complete t entries next stack (Hvalid : hazards_valid) : build_inv (entries, next :: stack) ->
  exists st', build_block t next (entries, stack) = Ok st'.
Proof.
  intros [He Hs _]. destruct (Hs next) as [ix Hnext]; [by left|].
  destruct (proj1 Hvalid ix next Hnext) as (op & Hop & Hid & Hcan & _).
  destruct next as [dest cand]. cbn [fst snd] in *. unfold build_block. rewrite Hop. cbn [map_err rbind].
  unfold id_eqb. rewrite bool_decide_true by done. cbn [negb].
  assert (checkChainCanExecute dest cand (ob_execMsgs op) = Ok tt) as ->.
  { unfold checkChainCanExecute. destruct (decide (ob_execMsgs op = ∅)) as [|Hne]; [done|]. by rewrite Hcan. }
  cbn [rbind]. eapply (build_msgs_complete Hvalid ix (dest, cand) op); [done|done| |].
  - intros i msg Hin. by apply elem_of_range in Hin.
  - intros c b Hc. destruct (He c b Hc) as (id & _ & ? & _). eauto.
Qed.

Lemma build_complete fuel t st (Hvalid : hazards_valid) : build_inv st -> (remaining st < fuel)%nat ->
  exists h, build_loop fuel t st = Ok h.
Proof.
  revert t st. induction fuel as [|fuel IH]; intros t [entries stack] Hi Hf; [lia|]. simpl.
  destruct stack as [|next stack]; [by eexists|].
  destruct (build_block_complete t entries next stack Hvalid Hi) as [st' Hb]. rewrite Hb. simpl.
  pose proof (remaining_step t entries next stack st' Hi Hb).
  apply IH; [by eapply build_block_inv|lia].
Qed.
End loop.
End hazards.

(** C16: hazard sets are built correctly.  With a dependency set that keeps
    its promises, in every map order: the set a successful build returns is
    closed (the candidate and every block of the set open as expected, may
    execute, and each of their messages is in order, its initiating block
    being in the set when it has the same timestamp) and holds only blocks
    the candidate depends on; the build succeeds whenever all blocks the
    candidate depends on are in order and agree per chain; and the bound on
    the number of iterations is never what ends it. *)
Theorem hazard_set_correct `{MapOrder} `{Keccak} `{HazardDeps} chainID block :
  DependencySetLaws hd_DependencySet ->
  (forall h, NewHazardSet chainID block = Ok h -> closed chainID block h) /\
  (hazards_valid chainID block -> exists h, NewHazardSet chainID block = Ok h) /\
  (forall extra, build_loop (build_bound + extra) 0 (∅, [(chainID, block)]) = build chainID block).
Proof.
  intros Hlaws. unfold NewHazardSet. split; [|split].
  - intros h Hh. rewrite map_err_Ok in Hh. eapply build_loop_closed; [apply build_inv_init|exact Hh].
  - intros Hv. destruct (build_complete chainID block build_bound 0 (∅, [(chainID, block)]) Hv) as [h Hh].
    + apply build_inv_init.
    + unfold remaining, build_bound. cbn [fst snd]. rewrite map_size_empty. simpl. lia.
    + exists h. unfold build. by rewrite Hh.
  - intros extra. exact (build_fuel chainID block extra).
Qed.

Module HazardExamples.
(** Two chains, 901 and 902, with chain indices 1 and 2.  Block 1 of chain
    901 at time 100 executes, in its second log, the first log of block 1 of
    chain 902; block 0 of both is cross-unsafe and cross-safe. *)
Definition dep (index : Z) : StaticConfigDependency :=
  {| ChainIndex := index; ActivationTime := 50; HistoryMinTime := 40 |}.

Definition static : StaticConfigDependencySet :=
  match NewStaticConfigDependencySet (H := tree_order) {[901 := dep 1; 902 := dep 2]} with
  | Ok ds => ds
  | _ => {| dependencies := ∅; indexToID := ∅; chainIDs := []; overrideMessageExpiryWindow := 0 |}
  end.

#[export] Instance order : MapOrder := tree_order.
#[export] Instance hash : Keccak := fun b => replicate 32 (be_decode b mod 251).

Definition block (chainID num : Z) : BlockRef :=
  {| l1_Hash := 1000 * chainID + num; l1_Number := num; l1_ParentHash := 1000 * chainID + num - 1; l1_Time := 90 + 10 * num |}.

Definition m : ExecutingMessage :=
  {| em_Chain := 2; em_BlockNum := 1; em_LogIdx := 0; em_Timestamp := 100; em_Hash := 7 |}.

Definition OpenBlock (chainID num : Z) : result OpenedBlock :=
  if bool_decide (chainID ∈ [901; 902]) && (num <=? 1) then
    Ok {| ob_ref := block chainID num; ob_logCount := 2;
          ob_execMsgs := if (chainID =? 901) && (num =? 1) then {[1 := m]} else ∅ |}
  else Err ErrFuture.

Definition Contains (chainID : Z) (q : ContainsQuery) : result BlockSeal :=
  if (chainID =? 902) && (cq_BlockNum q =? 1) && (cq_LogIdx q <? 2) && (cq_Timestamp q =? 100) then
    Ok (BlockSealFromRef (block 902 1))
  else Err ErrFuture.

Lemma static_ok : hydrate (H := tree_order) {[901 := dep 1; 902 := dep 2]} 0 = Ok static.
Proof. vm_compute. reflexivity. Qed.

Lemma open_u32 id num bl : OpenBlock id num = Ok bl ->
  is_u32 (ob_logCount bl) /\ forall i m, ob_execMsgs bl !! i = Some m -> is_u32 i.
Proof.
  unfold OpenBlock. destruct (_ && _); [|done]. intros [= <-]. split; [done|]. cbn [ob_execMsgs].
  destruct (_ && _); intros i m' Hm; [|by rewrite lookup_empty in Hm].
  apply lookup_singleton_Some in Hm as [<- _]. done.
Qed.

#[export] Instance deps : HazardDeps :=
  {| hd_Contains := Contains; hd_DependencySet := static_depset static;
     IsCrossValidBlock chainID b := if bid_Number b <=? 0 then Ok tt else Err ErrFuture;
     hd_OpenBlock := OpenBlock |}.

End HazardExamples.

Lemma hazard_set_correct_witness :
  let candidate := BlockSealFromRef (HazardExamples.block 901 1) in
  exists h, @NewHazardSet HazardExamples.order HazardExamples.hash HazardExamples.deps 901 candidate = Ok h /\
    h !! 2 = Some (BlockSealFromRef (HazardExamples.block 902 1)) /\
    @closed HazardExamples.hash HazardExamples.deps 901 candidate h.
Proof.
  intros candidate. eexists. split; [vm_compute; reflexivity|]. split; [vm_compute; reflexivity|].
  apply (@hazard_set_correct HazardExamples.order HazardExamples.hash HazardExamples.deps 901 candidate).
  - exact (@static_depset_laws tree_order _ _ _ HazardExamples.static_ok).
  - vm_compute. reflexivity.
Defined.
