(* ===== verification/CrossUpdate.v ===== *)
(** * Promotion to cross-unsafe and cross-safe

    [rhs-supervisor/supervisor/backend/cross/]: [unsafe_start.go],
    [unsafe_frontier.go], [unsafe_update.go], [safe_start.go],
    [safe_frontier.go], [safe_update.go].  A worker takes the next candidate
    block of a chain, builds its hazard set, checks the frontier and the
    cycles, and promotes the block.

    The database is a parameter: [CrossUnsafeDeps] and [CrossSafeDeps] are
    the interfaces of the same names over a state type [DB]; queries read
    the state and updates return a new one.  All queries of one update see
    the same state. *)

From stdpp Require Import base gmap sets list relations.
From S2P Require Import Prelude EthTypes EntryDB FromDA DepSet CrossGraph CrossCycle HazardSet.

(** The checks run over the entries of a hazard set in map order. *)
Fixpoint for_entries (check : Z -> BlockSeal -> result unit) (l : list (Z * BlockSeal)) : result unit :=
  match l with
  | [] => Ok tt
  | (c, b) :: l' => let* _ := check c b in for_entries check l'
  end.

Lemma for_entries_ok check l : for_entries check l = Ok tt <-> forall c b, (c, b) ∈ l -> check c b = Ok tt.
Proof.
  induction l as [|[c b] l IH]; simpl.
  - split; [intros _ c b Hin; by apply elem_of_nil in Hin|done].
  - rewrite rbind_Ok. split.
    + intros ([] & Hc & Hl) c' b' [[= -> ->]|Hin]%elem_of_cons; [done|]. by apply IH.
    + intros Hall. exists tt. split; [apply Hall; left|]. apply IH. intros c' b' Hin. apply Hall. by right.
Qed.

(** [ChainIDFromIndex], with the error both frontier checks turn into a
    conflict. *)
Definition frontier_chain `{DependencySet} (hazardChainIndex : Z) : result Z :=
  map_err (fun err => if errors_Is err ErrUnknownChain
                      then Wrap "cannot cross-safe verify block of unknown chain index" ErrConflict else err)
    (ChainIDFromIndex hazardChainIndex).

(** ** Cross-unsafe *)

Class CrossUnsafeDeps (DB : Type) : Type := {
  cu_CrossUnsafe (db : DB) (chainID : Z) : result BlockSeal;
  cu_Contains (db : DB) (chain : Z) (query : ContainsQuery) : result BlockSeal;
  cu_IsCrossUnsafe (db : DB) (chainID : Z) (block : BlockID) : result unit;
  cu_IsLocalUnsafe (db : DB) (chainID : Z) (block : BlockID) : result unit;
  cu_FindBlockID (db : DB) (chainID blockNum : Z) : result BlockID;
  cu_OpenBlock (db : DB) (chainID blockNum : Z) : result OpenedBlock;
  cu_DependencySet : DependencySet;
  cu_UpdateCrossUnsafe (db : DB) (chain : Z) (crossUnsafe : BlockSeal) : DB * result unit }.

Section unsafe.
Context `{MapOrder} `{NodeOrder} `{Keccak} {DB : Type} `{!CrossUnsafeDeps DB}.

(** [UnsafeHazardDeps] *)
Definition UnsafeHazardDeps (db : DB) : HazardDeps :=
  {| hd_Contains := cu_Contains db; hd_DependencySet := cu_DependencySet;
     IsCrossValidBlock chainID block :=
       map_err (Wrap "block is not cross-unsafe") (cu_IsCrossUnsafe db chainID block);
     hd_OpenBlock := cu_OpenBlock db |}.

Definition CrossUnsafeHazards (db : DB) (chainID : Z) (candidate : BlockSeal) : result Entries :=
  NewHazardSet (H1 := UnsafeHazardDeps db) chainID candidate.

Definition unsafe_frontier_check (db : DB) (hazardChainIndex : Z) (hazardBlock : BlockSeal) : result unit :=
  let* hazardChainID := frontier_chain (H := cu_DependencySet) hazardChainIndex in
  match cu_IsCrossUnsafe db hazardChainID (BlockSeal_ID hazardBlock) with
  | Ok _ => Ok tt
  | Err err =>
      if errors_Is err ErrFuture then
        let* _ := map_err (Wrap "hazard block is not local-unsafe")
                    (cu_IsLocalUnsafe db hazardChainID (BlockSeal_ID hazardBlock)) in
        if 0 <? bs_Number hazardBlock then
          let* parent := map_err (Wrap "failed to retrieve parent-block of hazard block")
                           (cu_FindBlockID db hazardChainID (bs_Number hazardBlock -u 1)) in
          map_err (Wrap "cannot rely on hazard-block, parent block is not cross-unsafe")
            (cu_IsCrossUnsafe db hazardChainID parent)
        else Ok tt
      else Err (Wrap "failed to determine cross-derived of hazard block" err)
  | Panic => Panic
  end.

Definition HazardUnsafeFrontierChecks (db : DB) (hazards : Entries) : result unit :=
  for_entries (unsafe_frontier_check db) (range (-3) hazards).

(** The checks of [CrossUnsafeUpdate] before the promotion. *)
Definition unsafe_candidate (db : DB) (chainID : Z) (crossUnsafe : BlockSeal) : result BlockSeal :=
  let* bl := map_err (Wrap "failed to open block") (cu_OpenBlock db chainID (bs_Number crossUnsafe +u 1)) in
  if negb (l1_ParentHash (ob_ref bl) =? bs_Hash crossUnsafe) then
    Err (Wrap "cannot use block, it does not build on cross-unsafe block" ErrConflict)
  else Ok (BlockSealFromRef (ob_ref bl)).

Definition unsafe_checks (db : DB) (chainID : Z) (candidate : BlockSeal) : result unit :=
  let* hazards := map_err (Wrap "failed to check for cross-chain hazards") (CrossUnsafeHazards db chainID candidate) in
  let* _ := map_err (Wrap "failed to verify block in cross-unsafe frontier") (HazardUnsafeFrontierChecks db hazards) in
  map_err (Wrap "failed to verify block in cross-unsafe check for cycle hazards")
    (HazardCycleChecks (@ChainIDFromIndex cu_DependencySet) (cu_OpenBlock db) (bs_Timestamp candidate) hazards).

Definition CrossUnsafeUpdate (db : DB) (chainID : Z) : DB * result unit :=
  match cu_CrossUnsafe db chainID with
  | Err err => (db, if errors_Is err ErrFuture then Ok tt else Err err)
  | Panic => (db, Panic)
  | Ok crossUnsafe =>
      match (let* candidate := unsafe_candidate db chainID crossUnsafe in
             let* _ := unsafe_checks db chainID candidate in Ok candidate) with
      | Err err => (db, Err err)
      | Panic => (db, Panic)
      | Ok candidate =>
          let '(db', r) := cu_UpdateCrossUnsafe db chainID candidate in
          (db', map_err (Wrap "failed to update cross-unsafe head") r)
      end
  end.

(** [CrossUnsafeWorker.OnEvent] on an [UpdateCrossUnsafeRequestEvent]; the
    errors are only logged, a panic is not caught. *)
Definition CrossUnsafeWorker_OnEvent (db : DB) (chainID : Z) : DB * result bool :=
  let '(db', r) := CrossUnsafeUpdate db chainID in
  (db', match r with Panic => Panic | _ => Ok true end).
End unsafe.

(** ** Cross-safe *)

Definition zeroRefPair : RefPair := {| rp_Source := zeroL1BlockRef; rp_Derived := zeroL1BlockRef |}.

(** [CandidateCrossSafe] may return a pair together with its error: the
    second component is that pair, [None] when it is the zero pair. *)
Class CrossSafeDeps (DB : Type) : Type := {
  cs_CrossSafe (db : DB) (chainID : Z) : result SealPair;
  cs_CandidateCrossSafe (db : DB) (chain : Z) : result RefPair * option RefPair;
  cs_CrossDerivedToSource (db : DB) (chainID : Z) (derived : BlockID) : result BlockSeal;
  cs_NextSource (db : DB) (chain : Z) (source : BlockID) : result BlockRef;
  cs_PreviousCrossDerived (db : DB) (chain : Z) (derived : BlockID) : result BlockSeal;
  cs_Contains (db : DB) (chain : Z) (query : ContainsQuery) : result BlockSeal;
  cs_OpenBlock (db : DB) (chainID blockNum : Z) : result OpenedBlock;
  cs_DependencySet : DependencySet;
  cs_UpdateCrossSafe (db : DB) (chain : Z) (l1View lastCrossDerived : BlockRef) : DB * result unit;
  cs_InvalidateLocalSafe (db : DB) (chainID : Z) (candidate : RefPair) : DB * result unit }.

Section safe.
Context `{MapOrder} `{NodeOrder} `{Keccak} {DB : Type} `{!CrossSafeDeps DB}.

(** [SafeHazardDeps.IsCrossValidBlock] *)
Definition safe_IsCrossValidBlock (db : DB) (inL1Source : BlockID) (chainID : Z) (derived : BlockID) : result unit :=
  let* initSource := map_err (Wrap "non-cross-safe block") (cs_CrossDerivedToSource db chainID derived) in
  if bid_Number inL1Source <? bs_Number initSource then
    Err (Wrap "block derived from a block which is not in cross-safe scope" ErrOutOfScope)
  else Ok tt.

Definition SafeHazardDeps (db : DB) (inL1Source : BlockID) : HazardDeps :=
  {| hd_Contains := cs_Contains db; hd_DependencySet := cs_DependencySet;
     IsCrossValidBlock := safe_IsCrossValidBlock db inL1Source; hd_OpenBlock := cs_OpenBlock db |}.

Definition CrossSafeHazards (db : DB) (chainID : Z) (inL1Source : BlockID) (candidate : BlockSeal) : result Entries :=
  NewHazardSet (H1 := SafeHazardDeps db inL1Source) chainID candidate.

Definition safe_frontier_check (db : DB) (inL1Source : BlockID) (hazardChainIndex : Z) (hazardBlock : BlockSeal)
  : result unit :=
  let* hazardChainID := frontier_chain (H := cs_DependencySet) hazardChainIndex in
  match cs_CrossDerivedToSource db hazardChainID (BlockSeal_ID hazardBlock) with
  | Ok initSource =>
      if bid_Number inL1Source <? bs_Number initSource then
        Err (Wrap "cross-safe hazard block derived from L1 block after scope" ErrOutOfScope)
      else Ok tt
  | Err err =>
      if errors_Is err ErrFuture then
        let* candidate := map_err (Wrap "failed to determine cross-safe candidate block of hazard dependency")
                            (fst (cs_CandidateCrossSafe db hazardChainID)) in
        if (l1_Number (rp_Derived candidate) =? bs_Number hazardBlock) &&
           negb (id_eqb (L1BlockRef_ID (rp_Derived candidate)) (BlockSeal_ID hazardBlock)) then
          Err (Wrap "expected block does not match candidate local-safe block" ErrConflict)
        else if bid_Number inL1Source <? l1_Number (rp_Source candidate) then
          Err (Wrap "local-safe hazard block derived from L1 block is after scope" ErrOutOfScope)
        else Ok tt
      else Err (Wrap "failed to determine cross-derived of hazard block" err)
  | Panic => Panic
  end.

Definition HazardSafeFrontierChecks (db : DB) (inL1Source : BlockID) (hazards : Entries) : result unit :=
  for_entries (safe_frontier_check db inL1Source) (range (-3) hazards).

(** The checks of [scopedCrossSafeUpdate]. *)
Definition safe_checks (db : DB) (chainID : Z) (candidate : RefPair) : result unit :=
  let scope := L1BlockRef_ID (rp_Source candidate) in
  let* hazards := map_err (Wrap "failed to determine dependencies of cross-safe candidate")
                    (CrossSafeHazards db chainID scope (BlockSealFromRef (rp_Derived candidate))) in
  let* _ := map_err (Wrap "failed to verify block in cross-safe frontier")
              (HazardSafeFrontierChecks db scope hazards) in
  map_err (Wrap "failed to verify block in cross-safe check for cycle hazards")
    (HazardCycleChecks (@ChainIDFromIndex cs_DependencySet) (cs_OpenBlock db) (l1_Time (rp_Derived candidate)) hazards).

(** The pair is the returned candidate, also when there is an error. *)
Definition scopedCrossSafeUpdate (db : DB) (chainID : Z) : DB * (RefPair * result unit) :=
  match cs_CandidateCrossSafe db chainID with
  | (Err err, given) =>
      (db, (default zeroRefPair given, Err (Wrap "failed to determine candidate block for cross-safe" err)))
  | (Panic, given) => (db, (default zeroRefPair given, Panic))
  | (Ok candidate, _) =>
      match safe_checks db chainID candidate with
      | Ok _ =>
          let '(db', r) := cs_UpdateCrossSafe db chainID (rp_Source candidate) (rp_Derived candidate) in
          (db', (candidate, map_err (Wrap "failed to update cross-safe head") r))
      | r => (db, (candidate, r))
      end
  end.

(** The scope bump at the end of [CrossSafeUpdate]: the current cross-safe
    block again, with the next L1 source. *)
Definition bump_target (db : DB) (chainID : Z) (candidate : RefPair) : result (BlockRef * BlockRef) :=
  let* newScope := map_err (Wrap "failed to identify new L1 scope to expand to")
                     (cs_NextSource db chainID (L1BlockRef_ID (rp_Source candidate))) in
  let* currentCrossSafe := map_err (Wrap "failed to identify cross-safe scope to repeat") (cs_CrossSafe db chainID) in
  let* parent := map_err (Wrap "cannot find parent-block of cross-safe")
                   (cs_PreviousCrossDerived db chainID (BlockSeal_ID (sp_Derived currentCrossSafe))) in
  let* crossSafeRef := MustWithParent (sp_Derived currentCrossSafe) (BlockSeal_ID parent) in
  Ok (newScope, crossSafeRef).

Definition CrossSafeUpdate (db : DB) (chainID : Z) : DB * result unit :=
  let '(db, (candidate, r)) := scopedCrossSafeUpdate db chainID in
  match r with
  | Ok _ => (db, Ok tt)
  | Panic => (db, Panic)
  | Err err =>
      if errors_Is err ErrAwaitReplacementBlock then (db, Err err)
      else if errors_Is err ErrConflict then cs_InvalidateLocalSafe db chainID candidate
      else if negb (errors_Is err ErrOutOfScope) then
        (db, Err (Wrap "failed to determine cross-safe update scope of chain" err))
      else if bool_decide (rp_Source candidate = zeroL1BlockRef) then
        (db, Err (Wrap "expected L1 scope to be defined with ErrOutOfScope" err))
      else
        match bump_target db chainID candidate with
        | Ok (newScope, crossSafeRef) =>
            let '(db', r) := cs_UpdateCrossSafe db chainID newScope crossSafeRef in
            (db', map_err (Wrap "failed to update cross-safe head with L1 scope increment") r)
        | Err err => (db, Err err)
        | Panic => (db, Panic)
        end
  end.

Definition CrossSafeWorker_OnEvent (db : DB) (chainID : Z) : DB * result bool :=
  let '(db', r) := CrossSafeUpdate db chainID in
  (db', match r with Panic => Panic | _ => Ok true end).
End safe.

(** ** What is promoted *)

Section unsafe_safety.
Context `{MapOrder} `{NodeOrder} `{Keccak} {DB : Type} `{!CrossUnsafeDeps DB}.
Variables (db : DB) (chainID : Z).

(** A hazard block that is cross-unsafe, or the first block after the
    cross-unsafe part of its local-unsafe chain. *)
Definition unsafe_frontier_ok (c : Z) (b : BlockSeal) : Prop :=
  exists id, @ChainIDFromIndex cu_DependencySet c = Ok id /\
    (cu_IsCrossUnsafe db id (BlockSeal_ID b) = Ok tt \/
     (cu_IsLocalUnsafe db id (BlockSeal_ID b) = Ok tt /\
        (bs_Number b <= 0 \/ exists parent, cu_FindBlockID db id (bs_Number b -u 1) = Ok parent /\
           cu_IsCrossUnsafe db id parent = Ok tt))).

Lemma unsafe_frontier_check_ok c b : unsafe_frontier_check db c b = Ok tt -> unsafe_frontier_ok c b.
Proof.
  unfold unsafe_frontier_check, frontier_chain. rewrite rbind_Ok. intros (id & Hid & Hc).
  rewrite map_err_Ok in Hid. exists id. split; [done|].
  destruct (cu_IsCrossUnsafe db id (BlockSeal_ID b)) as [[]|e|] eqn:Hx; [by left| |done].
  right. destruct (errors_Is e ErrFuture); [|done]. apply rbind_Ok in Hc as ([] & Hl & Hc).
  rewrite map_err_Ok in Hl. split; [done|]. destruct (Z.ltb_spec 0 (bs_Number b)); [right|left; lia].
  apply rbind_Ok in Hc as (parent & Hp & Hc). rewrite map_err_Ok in Hp. rewrite map_err_Ok in Hc. eauto.
Qed.

(** A block that may become cross-unsafe. *)
Definition unsafe_promotable (candidate : BlockSeal) : Prop :=
  exists crossUnsafe bl h,
    cu_CrossUnsafe db chainID = Ok crossUnsafe /\
    cu_OpenBlock db chainID (bs_Number crossUnsafe +u 1) = Ok bl /\
    l1_ParentHash (ob_ref bl) = bs_Hash crossUnsafe /\ candidate = BlockSealFromRef (ob_ref bl) /\
    closed (H1 := UnsafeHazardDeps db) chainID candidate h /\
    (forall c b, h !! c = Some b -> unsafe_frontier_ok c b) /\
    consistent (@ChainIDFromIndex cu_DependencySet) (cu_OpenBlock db) (bs_Timestamp candidate) h /\
    acyclic (dependency (@ChainIDFromIndex cu_DependencySet) (cu_OpenBlock db) (bs_Timestamp candidate) h).

Hypothesis opened_u32 : forall id num bl, cu_OpenBlock db id num = Ok bl ->
  is_u32 (ob_logCount bl) /\ forall i m, ob_execMsgs bl !! i = Some m -> is_u32 i.

Lemma unsafe_checks_ok crossUnsafe candidate : cu_CrossUnsafe db chainID = Ok crossUnsafe ->
  unsafe_candidate db chainID crossUnsafe = Ok candidate -> unsafe_checks db chainID candidate = Ok tt ->
  unsafe_promotable candidate.
Proof.
  intros Hcu Hcand Hck. unfold unsafe_candidate in Hcand. apply rbind_Ok in Hcand as (bl & Hbl & Hcand).
  rewrite map_err_Ok in Hbl. destruct (Z.eqb_spec (l1_ParentHash (ob_ref bl)) (bs_Hash crossUnsafe)); [|done].
  apply Ok_inj in Hcand as <-. apply rbind_Ok in Hck as (h & Hh & Hck).
  rewrite map_err_Ok in Hh. unfold CrossUnsafeHazards, NewHazardSet in Hh. rewrite map_err_Ok in Hh.
  apply rbind_Ok in Hck as ([] & Hf & Hcy). rewrite map_err_Ok in Hf. rewrite map_err_Ok in Hcy.
  apply HazardCycleChecks_ok in Hcy as [? ?]; [|done]. exists crossUnsafe, bl, h. split_and!; try done.
  - eapply build_loop_closed; [apply build_inv_init|exact Hh].
  - unfold HazardUnsafeFrontierChecks in Hf. rewrite for_entries_ok in Hf. intros c b Hc.
    apply unsafe_frontier_check_ok, Hf. by apply elem_of_range.
Qed.
End unsafe_safety.

(** C17: only a block that passes every check becomes cross-unsafe.  An update
    either leaves the database alone, reporting success only when there is
    no cross-unsafe starting point yet, or it writes exactly one block: the
    child of the current cross-unsafe block, whose hazard set is closed under
    same-timestamp messages, at the cross-unsafe frontier, and free of
    dependency cycles. *)
Theorem cross_unsafe_safe `{MapOrder} `{NodeOrder} `{Keccak} {DB} `{!CrossUnsafeDeps DB} (db : DB) chainID :
  (forall id num bl, cu_OpenBlock db id num = Ok bl ->
     is_u32 (ob_logCount bl) /\ forall i m, ob_execMsgs bl !! i = Some m -> is_u32 i) ->
  let '(db', r) := CrossUnsafeUpdate db chainID in
  (db' = db /\ (r = Ok tt -> exists e, cu_CrossUnsafe db chainID = Err e /\ errors_Is e ErrFuture = true)) \/
  (exists candidate, unsafe_promotable db chainID candidate /\
     db' = fst (cu_UpdateCrossUnsafe db chainID candidate) /\
     (r = Ok tt <-> snd (cu_UpdateCrossUnsafe db chainID candidate) = Ok tt)).
Proof.
  intros Hu. unfold CrossUnsafeUpdate. destruct (cu_CrossUnsafe db chainID) as [cu|e|] eqn:Hcu.
  - destruct (let* candidate := unsafe_candidate db chainID cu in _) as [candidate|e|] eqn:Hck; [|by left; split; [|done]..].
    apply rbind_Ok in Hck as (c & Hc & Hck). apply rbind_Ok in Hck as ([] & Hck & [= ->]).
    destruct (cu_UpdateCrossUnsafe db chainID candidate) as [db' r] eqn:Hup. right. exists candidate.
    split; [by eapply unsafe_checks_ok|]. rewrite Hup. split; [done|]. apply map_err_Ok.
  - left. split; [done|]. destruct (errors_Is e ErrFuture) eqn:He; [|done]. eauto.
  - left. by split.
Qed.

Section safe_safety.
Context `{MapOrder} `{NodeOrder} `{Keccak} {DB : Type} `{!CrossSafeDeps DB}.
Variable chainID : Z.

(** What the frontier check establishes of a hazard block: it is cross-safe
    within the scope, or it is beyond the cross-safe blocks of its chain,
    whose candidate is in scope and is the same block when the numbers
    agree. *)
Definition safe_frontier_ok (db : DB) (inL1Source : BlockID) (c : Z) (b : BlockSeal) : Prop :=
  exists id, @ChainIDFromIndex cs_DependencySet c = Ok id /\
    ((exists source, cs_CrossDerivedToSource db id (BlockSeal_ID b) = Ok source /\
        bs_Number source <= bid_Number inL1Source) \/
     (exists e candidate, cs_CrossDerivedToSource db id (BlockSeal_ID b) = Err e /\ errors_Is e ErrFuture = true /\
        fst (cs_CandidateCrossSafe db id) = Ok candidate /\
        l1_Number (rp_Source candidate) <= bid_Number inL1Source /\
        (l1_Number (rp_Derived candidate) = bs_Number b -> L1BlockRef_ID (rp_Derived candidate) = BlockSeal_ID b))).

Lemma safe_frontier_check_ok db scope c b : safe_frontier_check db scope c b = Ok tt -> safe_frontier_ok db scope c b.
Proof.
  unfold safe_frontier_check, frontier_chain. rewrite rbind_Ok. intros (id & Hid & Hc).
  rewrite map_err_Ok in Hid. exists id. split; [done|].
  destruct (cs_CrossDerivedToSource db id (BlockSeal_ID b)) as [source|e|] eqn:Hx; [| |done].
  - left. exists source. destruct (Z.ltb_spec (bid_Number scope) (bs_Number source)); done.
  - right. destruct (errors_Is e ErrFuture) eqn:He; [|done]. apply rbind_Ok in Hc as (cand & Hcand & Hc).
    rewrite map_err_Ok in Hcand. exists e, cand. split_and!; try done.
    + repeat case_match; try done. by apply Z.ltb_ge.
    + intros Hn. rewrite Hn, Z.eqb_refl in Hc. unfold id_eqb in Hc. by case_bool_decide.
Qed.

(** A pair that may become cross-safe. *)
Definition safe_promotable (db : DB) (candidate : RefPair) : Prop :=
  let seal := BlockSealFromRef (rp_Derived candidate) in
  let scope := L1BlockRef_ID (rp_Source candidate) in
  fst (cs_CandidateCrossSafe db chainID) = Ok candidate /\
  exists h, closed (H1 := SafeHazardDeps db scope) chainID seal h /\
    (forall c b, h !! c = Some b -> safe_frontier_ok db scope c b) /\
    consistent (@ChainIDFromIndex cs_DependencySet) (cs_OpenBlock db) (bs_Timestamp seal) h /\
    acyclic (dependency (@ChainIDFromIndex cs_DependencySet) (cs_OpenBlock db) (bs_Timestamp seal) h).

(** The attempt to promote a candidate, from [db0], leaves [db] and ends in the
    error [e]: there is no candidate, a check refuses it, or a candidate that
    passed every check could not be written. *)
Inductive attempt_fails (db0 : DB) : DB -> RefPair -> error -> Prop :=
  | af_candidate e given :
      cs_CandidateCrossSafe db0 chainID = (Err e, given) ->
      attempt_fails db0 db0 (default zeroRefPair given) (Wrap "failed to determine candidate block for cross-safe" e)
  | af_checks candidate given e :
      cs_CandidateCrossSafe db0 chainID = (Ok candidate, given) -> safe_checks db0 chainID candidate = Err e ->
      attempt_fails db0 db0 candidate e
  | af_write candidate db e :
      safe_promotable db0 candidate ->
      cs_UpdateCrossSafe db0 chainID (rp_Source candidate) (rp_Derived candidate) = (db, Err e) ->
      attempt_fails db0 db candidate (Wrap "failed to update cross-safe head" e).

(** What follows a failed attempt that left [db]: a conflicting candidate is
    invalidated; when the L1 scope of the candidate was too small, the current
    cross-safe block is written again with the L1 block after that scope;
    otherwise, or when that block is not known, nothing is written and there is
    an error. *)
Inductive after_failure (db : DB) (candidate : RefPair) (e : error) : DB -> result unit -> Prop :=
  | af_invalidate db' r :
      errors_Is e ErrAwaitReplacementBlock = false -> errors_Is e ErrConflict = true ->
      cs_InvalidateLocalSafe db chainID candidate = (db', r) -> after_failure db candidate e db' r
  | af_repeat newScope current ref db' r :
      errors_Is e ErrAwaitReplacementBlock = false -> errors_Is e ErrConflict = false ->
      errors_Is e ErrOutOfScope = true -> rp_Source candidate <> zeroL1BlockRef ->
      cs_NextSource db chainID (L1BlockRef_ID (rp_Source candidate)) = Ok newScope ->
      cs_CrossSafe db chainID = Ok current ->
      L1BlockRef_ID ref = BlockSeal_ID (sp_Derived current) -> l1_Time ref = bs_Timestamp (sp_Derived current) ->
      cs_UpdateCrossSafe db chainID newScope ref = (db', r) ->
      after_failure db candidate e db' (map_err (Wrap "failed to update cross-safe head with L1 scope increment") r)
  | af_stop r :
      r <> Ok tt ->
      errors_Is e ErrAwaitReplacementBlock = true \/
      (errors_Is e ErrConflict = false /\
       (errors_Is e ErrOutOfScope = false \/ rp_Source candidate = zeroL1BlockRef \/
        forall target, bump_target db chainID candidate <> Ok target)) ->
      after_failure db candidate e db r.

(** The outcome of an update: the candidate is promoted, or what follows a
    failed attempt; a panic of a dependency of the checks leaves the database
    alone, one of the write leaves what it wrote. *)
Inductive safe_outcome (db : DB) : DB -> result unit -> Prop :=
  | so_promoted candidate db' :
      safe_promotable db candidate ->
      cs_UpdateCrossSafe db chainID (rp_Source candidate) (rp_Derived candidate) = (db', Ok tt) -> safe_outcome db db' (Ok tt)
  | so_failed candidate e db1 db' r :
      attempt_fails db db1 candidate e -> after_failure db1 candidate e db' r -> safe_outcome db db' r
  | so_panic :
      fst (cs_CandidateCrossSafe db chainID) = Panic \/
      (exists candidate, fst (cs_CandidateCrossSafe db chainID) = Ok candidate /\ safe_checks db chainID candidate = Panic) ->
      safe_outcome db db Panic
  | so_write_panic candidate db' :
      safe_promotable db candidate ->
      cs_UpdateCrossSafe db chainID (rp_Source candidate) (rp_Derived candidate) = (db', Panic) -> safe_outcome db db' Panic.

Lemma bump_target_ok db candidate newScope ref : bump_target db chainID candidate = Ok (newScope, ref) ->
  cs_NextSource db chainID (L1BlockRef_ID (rp_Source candidate)) = Ok newScope /\
  exists current, cs_CrossSafe db chainID = Ok current /\
    L1BlockRef_ID ref = BlockSeal_ID (sp_Derived current) /\ l1_Time ref = bs_Timestamp (sp_Derived current).
Proof.
  unfold bump_target. rewrite rbind_Ok. intros (scope & Hs & Hb). rewrite map_err_Ok in Hs.
  apply rbind_Ok in Hb as (cur & Hcur & Hb). rewrite map_err_Ok in Hcur.
  apply rbind_Ok in Hb as (parent & _ & Hb). apply rbind_Ok in Hb as (r & Hr & [= -> ->]).
  split; [done|]. exists cur. split; [done|]. unfold MustWithParent, WithParent, ForceWithParent in Hr;
    repeat case_match; simplify_eq/=; done.
Qed.

(** The second half of [CrossSafeUpdate]. *)
Lemma after_failure_ok db candidate e :
  let '(db', r) :=
    if errors_Is e ErrAwaitReplacementBlock then (db, Err e)
    else if errors_Is e ErrConflict then cs_InvalidateLocalSafe db chainID candidate
    else if negb (errors_Is e ErrOutOfScope) then
      (db, Err (Wrap "failed to determine cross-safe update scope of chain" e))
    else if bool_decide (rp_Source candidate = zeroL1BlockRef) then
      (db, Err (Wrap "expected L1 scope to be defined with ErrOutOfScope" e))
    else
      match bump_target db chainID candidate with
      | Ok (newScope, crossSafeRef) =>
          let '(db', r) := cs_UpdateCrossSafe db chainID newScope crossSafeRef in
          (db', map_err (Wrap "failed to update cross-safe head with L1 scope increment") r)
      | Err err => (db, Err err)
      | Panic => (db, Panic)
      end in
  after_failure db candidate e db' r.
Proof.
  destruct (errors_Is e ErrAwaitReplacementBlock) eqn:Haw; [apply af_stop; [done|by left]|].
  destruct (errors_Is e ErrConflict) eqn:Hcf.
  { destruct (cs_InvalidateLocalSafe db chainID candidate) as [db' r] eqn:Hinv. by apply af_invalidate. }
  destruct (errors_Is e ErrOutOfScope) eqn:Hsc; cbn [negb]; [|apply af_stop; [done|right; auto]].
  case_bool_decide as Hz; [apply af_stop; [done|right; auto]|].
  destruct (bump_target db chainID candidate) as [[newScope ref]|e'|] eqn:Hb.
  - destruct (bump_target_ok _ _ _ _ Hb) as (Hn & cur & Hcur & Hid & Ht).
    destruct (cs_UpdateCrossSafe db chainID newScope ref) as [db' r] eqn:Hup. by eapply af_repeat.
  - apply af_stop; [done|]. right. split; [done|]. right. right. intros t Ht. congruence.
  - apply af_stop; [done|]. right. split; [done|]. right. right. intros t Ht. congruence.
Qed.

Section db.
Variable db : DB.
Hypothesis opened_u32 : forall id num bl, cs_OpenBlock db id num = Ok bl ->
  is_u32 (ob_logCount bl) /\ forall i m, ob_execMsgs bl !! i = Some m -> is_u32 i.

Lemma safe_checks_ok candidate : fst (cs_CandidateCrossSafe db chainID) = Ok candidate ->
  safe_checks db chainID candidate = Ok tt -> safe_promotable db candidate.
Proof.
  intros Hcand Hck. split; [done|]. unfold safe_checks in Hck. apply rbind_Ok in Hck as (h & Hh & Hck).
  rewrite map_err_Ok in Hh. unfold CrossSafeHazards, NewHazardSet in Hh. rewrite map_err_Ok in Hh.
  apply rbind_Ok in Hck as ([] & Hf & Hcy). rewrite map_err_Ok in Hf. rewrite map_err_Ok in Hcy.
  apply HazardCycleChecks_ok in Hcy as [? ?]; [|done]. exists h. split_and!; try done.
  - eapply build_loop_closed; [apply build_inv_init|exact Hh].
  - unfold HazardSafeFrontierChecks in Hf. rewrite for_entries_ok in Hf. intros c b Hc.
    apply safe_frontier_check_ok, Hf. by apply elem_of_range.
Qed.

(** The scoped update promotes only a candidate that passed, and otherwise is a
    failed attempt. *)
Lemma scoped_outcome db1 candidate r : scopedCrossSafeUpdate db chainID = (db1, (candidate, r)) ->
  match r with
  | Ok _ => safe_promotable db candidate /\
      cs_UpdateCrossSafe db chainID (rp_Source candidate) (rp_Derived candidate) = (db1, Ok tt)
  | Err e => attempt_fails db db1 candidate e
  | Panic => safe_outcome db db1 Panic
  end.
Proof.
  unfold scopedCrossSafeUpdate. destruct (cs_CandidateCrossSafe db chainID) as [[cand|e|] given] eqn:Hcand.
  - destruct (safe_checks db chainID cand) as [[]|e|] eqn:Hck.
    + assert (safe_promotable db cand) as Hp by (apply safe_checks_ok; [by rewrite Hcand|done]).
      destruct (cs_UpdateCrossSafe db chainID (rp_Source cand) (rp_Derived cand)) as [db' [[]|e|]] eqn:Hup; intros [= <- <- <-]; simpl.
      * done.
      * by apply af_write.
      * by eapply so_write_panic.
    + intros [= <- <- <-]. by eapply af_checks.
    + intros [= <- <- <-]. apply so_panic. right. exists cand. by rewrite Hcand.
  - intros [= <- <- <-]. by apply af_candidate.
  - intros [= <- <- <-]. apply so_panic. left. by rewrite Hcand.
Qed.
End db.
End safe_safety.


Module CrossExamples.
Export HazardExamples.

#[export] Instance nodes : NodeOrder := first_node.

(** The state is the number of the cross-unsafe (cross-safe) head of each
    chain. *)
#[export] Instance unsafe_db : CrossUnsafeDeps (Z * Z) :=
  let head (db : Z * Z) (chainID : Z) := if chainID =? 901 then db.1 else db.2 in
  {| cu_CrossUnsafe db chainID := Ok (BlockSealFromRef (block chainID (head db chainID)));
     cu_Contains db := Contains;
     cu_IsCrossUnsafe db chainID b := if bid_Number b <=? head db chainID then Ok tt else Err ErrFuture;
     cu_IsLocalUnsafe db chainID b := if bid_Number b <=? 1 then Ok tt else Err ErrFuture;
     cu_FindBlockID db chainID num := Ok (L1BlockRef_ID (block chainID num));
     cu_OpenBlock db := OpenBlock;
     cu_DependencySet := static_depset static;
     cu_UpdateCrossUnsafe db chainID b :=
       (if chainID =? 901 then (bs_Number b, db.2) else (db.1, bs_Number b), Ok tt) |}.

#[export] Instance safe_db : CrossSafeDeps (Z * Z) :=
  let head (db : Z * Z) (chainID : Z) := if chainID =? 901 then db.1 else db.2 in
  {| cs_CrossSafe db chainID :=
       Ok {| sp_Source := BlockSealFromRef (block 1 8); sp_Derived := BlockSealFromRef (block chainID (head db chainID)) |};
     cs_CandidateCrossSafe db chainID :=
       (Ok {| rp_Source := block 1 9; rp_Derived := block chainID (head db chainID + 1) |}, None);
     cs_CrossDerivedToSource db chainID b :=
       if bid_Number b <=? head db chainID then Ok (BlockSealFromRef (block 1 8)) else Err ErrFuture;
     cs_NextSource db chainID source := Ok (block 1 (bid_Number source + 1));
     cs_PreviousCrossDerived db chainID b := Ok (BlockSealFromRef (block chainID (bid_Number b - 1)));
     cs_Contains db := Contains;
     cs_OpenBlock db := OpenBlock;
     cs_DependencySet := static_depset static;
     cs_UpdateCrossSafe db chainID scope b :=
       (if chainID =? 901 then (l1_Number b, db.2) else (db.1, l1_Number b), Ok tt);
     cs_InvalidateLocalSafe db chainID pair := (db, Ok tt) |}.

(** The frontier check of cross-safety accepts a hazard block that is two
    blocks after the cross-safe head of its chain: the candidate it finds,
    block 1, has another number, and only a candidate of the same number is
    compared. *)
Lemma frontier_skips :
  let b := BlockSealFromRef (block 902 2) in
  cs_CrossDerivedToSource (0, 0) 902 (BlockSeal_ID b) = Err ErrFuture /\
  (exists c, fst (cs_CandidateCrossSafe (0, 0) 902) = Ok c /\ l1_Number (rp_Derived c) = 1) /\
  safe_frontier_check (0, 0) (L1BlockRef_ID (block 1 9)) 2 b = Ok tt.
Proof. vm_compute. split; [reflexivity|]. split; [eexists; split; reflexivity|reflexivity]. Qed.

End CrossExamples.

Lemma cross_unsafe_safe_witness :
  @CrossUnsafeUpdate HazardExamples.order CrossExamples.nodes HazardExamples.hash _ CrossExamples.unsafe_db (0, 0) 901
    = ((1, 0), Ok tt) /\
  exists candidate, @unsafe_promotable HazardExamples.hash _ CrossExamples.unsafe_db (0, 0) 901 candidate.
Proof.
  assert (Hr : @CrossUnsafeUpdate HazardExamples.order CrossExamples.nodes HazardExamples.hash _
    CrossExamples.unsafe_db (0, 0) 901 = ((1, 0), Ok tt)) by (vm_compute; reflexivity).
  split; [exact Hr|].
  pose proof (@cross_unsafe_safe HazardExamples.order CrossExamples.nodes HazardExamples.hash _
    CrossExamples.unsafe_db (0, 0) 901 HazardExamples.open_u32) as Hs.
  rewrite Hr in Hs. destruct Hs as [[Hs _]|(c & Hc & _)]; [discriminate Hs|exists c; exact Hc].
Defined.

