(* ===== verification/LogDB.v ===== *)
(** * The log database of the supervisor

    [rhs-supervisor/supervisor/backend/db/logs]: entry.go, entries.go,
    state.go, iterator.go, db.go.  An append-only list of 34-byte entries
    that records the logs and block seals of one chain, with a checkpoint at
    every 256th entry for the search.

    The definitions, on the interface [EntryStore].  A method that changes
    its receiver returns it.  The iterator reads the entries of a store that
    does not change while it is used (the database holds its lock).  Loops
    over the entries run on one unit of fuel per entry of the store and one
    more; the read that ends them is within it. *)

From stdpp Require Import base gmap sets list.
From S2P Require Import Prelude EthTypes EntryDB FromDA DepSet CrossGraph.

Definition ErrStop : error := Msg "iter stop".

(** ** Entries *)

Definition logs_EntrySize : nat := 34.

(** [EntryType] *)
Definition TypeSearchCheckpoint : Z := 0.
Definition TypeCanonicalHash : Z := 1.
Definition TypeInitiatingEvent : Z := 2.
Definition TypeExecutingLink : Z := 3.
Definition TypeExecutingCheck : Z := 4.
Definition TypePadding : Z := 5.

Definition entry_Type (e : bytes) : Z := match e with [] => 0 | b :: _ => b end.

(** [EntryTypeFlag] *)
Definition FlagSearchCheckpoint : Z := 1.
Definition FlagCanonicalHash : Z := 2.
Definition FlagInitiatingEvent : Z := 4.
Definition FlagExecutingLink : Z := 8.
Definition FlagExecutingCheck : Z := 16.
Definition FlagPadding : Z := 32.
Definition FlagPadding2 : Z := 64.

Definition flag_Any (x v : Z) : bool := negb (Z.land x v =? 0).
Definition flag_Add (x v : Z) : Z := Z.lor x v.
Definition flag_Remove (x v : Z) : Z := Z.ldiff x v.

Record searchCheckpoint : Type := { sc_blockNum : Z; sc_logsSince : Z; sc_timestamp : Z }.
Record initiatingEvent : Type := { ie_hasExecMsg : bool; ie_logHash : Z }.
Record executingLink : Type := { xl_chain : Z; xl_blockNum : Z; xl_logIdx : Z; xl_timestamp : Z }.

Definition eventFlagHasExecutingMessage : Z := 1.

(** The implementations of [EntryObj] and their [encode]. *)
Inductive EntryObj : Type :=
  | OCheckpoint (s : searchCheckpoint)
  | OCanonicalHash (hash : Z)
  | OInitiatingEvent (i : initiatingEvent)
  | OExecutingLink (e : executingLink)
  | OExecutingCheck (hash : Z)
  | OPadding.

Definition checkpoint_encode (s : searchCheckpoint) : bytes :=
  TypeSearchCheckpoint :: le_encode 8 (sc_blockNum s) ++ le_encode 4 (sc_logsSince s)
    ++ le_encode 8 (sc_timestamp s) ++ replicate 13 0.

Definition canonicalHash_encode (hash : Z) : bytes := TypeCanonicalHash :: be_encode 32 hash ++ replicate 1 0.

Definition initiatingEvent_encode (i : initiatingEvent) : bytes :=
  TypeInitiatingEvent :: (if ie_hasExecMsg i then Z.lor 0 eventFlagHasExecutingMessage else 0)
    :: be_encode 32 (ie_logHash i).

Definition executingLink_encode (e : executingLink) : bytes :=
  TypeExecutingLink :: le_encode 4 (xl_chain e) ++ le_encode 8 (xl_blockNum e)
    ++ le_encode 3 (xl_logIdx e) ++ le_encode 8 (xl_timestamp e) ++ replicate 10 0.

Definition executingCheck_encode (hash : Z) : bytes := TypeExecutingCheck :: be_encode 32 hash ++ replicate 1 0.

Definition padding_encode : bytes := TypePadding :: replicate 33 0.

Definition encode (obj : EntryObj) : bytes :=
  match obj with
  | OCheckpoint s => checkpoint_encode s
  | OCanonicalHash hash => canonicalHash_encode hash
  | OInitiatingEvent i => initiatingEvent_encode i
  | OExecutingLink e => executingLink_encode e
  | OExecutingCheck hash => executingCheck_encode hash
  | OPadding => padding_encode
  end.

(** [data[lo:hi]] of an entry. *)
Abbreviation part := slice.

Definition newSearchCheckpointFromEntry (data : bytes) : result searchCheckpoint :=
  if negb (entry_Type data =? TypeSearchCheckpoint) then
    Err (Wrap "attempting to decode search checkpoint but was another type" ErrDataCorruption)
  else Ok {| sc_blockNum := le_decode (part 1 9 data); sc_logsSince := le_decode (part 9 13 data);
             sc_timestamp := le_decode (part 13 21 data) |}.

Definition newCanonicalHashFromEntry (data : bytes) : result Z :=
  if negb (entry_Type data =? TypeCanonicalHash) then
    Err (Wrap "attempting to decode canonical hash but was another type" ErrDataCorruption)
  else Ok (be_decode (part 1 33 data)).

Definition newInitiatingEventFromEntry (data : bytes) : result initiatingEvent :=
  if negb (entry_Type data =? TypeInitiatingEvent) then
    Err (Wrap "attempting to decode initiating event but was another type" ErrDataCorruption)
  else Ok {| ie_hasExecMsg := negb (Z.land (nth 1 data 0) eventFlagHasExecutingMessage =? 0);
             ie_logHash := be_decode (part 2 34 data) |}.

Definition newExecutingLink (msg : ExecutingMessage) : result executingLink :=
  if Z.shiftl 1 24 <? em_LogIdx msg then Err (Msg "log idx is too large")
  else Ok {| xl_chain := em_Chain msg; xl_blockNum := em_BlockNum msg; xl_logIdx := em_LogIdx msg;
             xl_timestamp := em_Timestamp msg |}.

Definition newExecutingLinkFromEntry (data : bytes) : result executingLink :=
  if negb (entry_Type data =? TypeExecutingLink) then
    Err (Wrap "attempting to decode executing link but was another type" ErrDataCorruption)
  else Ok {| xl_chain := le_decode (part 1 5 data); xl_blockNum := le_decode (part 5 13 data);
             xl_logIdx := le_decode (part 13 16 data); xl_timestamp := le_decode (part 16 24 data) |}.

Definition newExecutingCheckFromEntry (data : bytes) : result Z :=
  if negb (entry_Type data =? TypeExecutingCheck) then
    Err (Wrap "attempting to decode executing check but was another type" ErrDataCorruption)
  else Ok (be_decode (part 1 33 data)).

(** ** The log context *)

Definition searchCheckpointFrequency : Z := 256.

Record logContext : Type := {
  nextEntryIndex : Z;
  lc_blockHash : Z;
  lc_blockNum : Z;
  lc_timestamp : Z;
  lc_logsSince : Z;
  lc_logHash : Z;
  lc_execMsg : option ExecutingMessage;
  lc_need : Z;
  lc_out : list bytes }.

Definition lc_new (index : Z) : logContext :=
  {| nextEntryIndex := index; lc_blockHash := 0; lc_blockNum := 0; lc_timestamp := 0; lc_logsSince := 0;
     lc_logHash := 0; lc_execMsg := None; lc_need := 0; lc_out := [] |}.

Definition set_need (l : logContext) (need : Z) : logContext :=
  {| nextEntryIndex := nextEntryIndex l; lc_blockHash := lc_blockHash l; lc_blockNum := lc_blockNum l;
     lc_timestamp := lc_timestamp l; lc_logsSince := lc_logsSince l; lc_logHash := lc_logHash l;
     lc_execMsg := lc_execMsg l; lc_need := need; lc_out := lc_out l |}.

Definition need_add (l : logContext) (v : Z) : logContext := set_need l (flag_Add (lc_need l) v).
Definition need_remove (l : logContext) (v : Z) : logContext := set_need l (flag_Remove (lc_need l) v).

Definition set_block (l : logContext) (hash num timestamp logsSince : Z) : logContext :=
  {| nextEntryIndex := nextEntryIndex l; lc_blockHash := hash; lc_blockNum := num;
     lc_timestamp := timestamp; lc_logsSince := logsSince; lc_logHash := lc_logHash l;
     lc_execMsg := lc_execMsg l; lc_need := lc_need l; lc_out := lc_out l |}.

Definition set_log (l : logContext) (hash : Z) (execMsg : option ExecutingMessage) : logContext :=
  {| nextEntryIndex := nextEntryIndex l; lc_blockHash := lc_blockHash l; lc_blockNum := lc_blockNum l;
     lc_timestamp := lc_timestamp l; lc_logsSince := lc_logsSince l; lc_logHash := hash;
     lc_execMsg := execMsg; lc_need := lc_need l; lc_out := lc_out l |}.

(** [l.logsSince += 1] *)
Definition count_log (l : logContext) : logContext :=
  set_block l (lc_blockHash l) (lc_blockNum l) (lc_timestamp l) (u32 (lc_logsSince l + 1)).

Definition set_index (l : logContext) (index : Z) (out : list bytes) : logContext :=
  {| nextEntryIndex := index; lc_blockHash := lc_blockHash l; lc_blockNum := lc_blockNum l;
     lc_timestamp := lc_timestamp l; lc_logsSince := lc_logsSince l; lc_logHash := lc_logHash l;
     lc_execMsg := lc_execMsg l; lc_need := lc_need l; lc_out := out |}.

Definition hasCompleteBlock (l : logContext) : bool := negb (flag_Any (lc_need l) FlagCanonicalHash).

Definition hasIncompleteLog (l : logContext) : bool :=
  flag_Any (lc_need l) (Z.lor (Z.lor FlagInitiatingEvent FlagExecutingLink) FlagExecutingCheck).

Definition hasReadableLog (l : logContext) : bool := (0 <? lc_logsSince l) && negb (hasIncompleteLog l).

Definition SealedBlock (l : logContext) : option (Z * Z) :=
  if negb (hasCompleteBlock l) then None else Some (lc_blockHash l, lc_blockNum l).

Definition SealedTimestamp (l : logContext) : option Z :=
  if negb (hasCompleteBlock l) then None else Some (lc_timestamp l).

Definition InitMessage (l : logContext) : option (Z * Z) :=
  if negb (hasReadableLog l) then None else Some (lc_logHash l, lc_logsSince l - 1).

Definition ExecMessage (l : logContext) : option ExecutingMessage :=
  if hasCompleteBlock l && hasReadableLog l then lc_execMsg l else None.

(** *** Reading an entry *)

Definition processEntry (l : logContext) (entry : bytes) : result logContext :=
  if negb (bool_decide (lc_out l = [])) then Panic
  else
    let* l :=
      if entry_Type entry =? TypeSearchCheckpoint then
        let* current := newSearchCheckpointFromEntry entry in
        let l := set_block l 0 (sc_blockNum current) (sc_timestamp current) (sc_logsSince current) in
        let l := need_add l FlagCanonicalHash in
        Ok (if lc_logsSince l =? 0 then set_log l 0 None else l)
      else if entry_Type entry =? TypeCanonicalHash then
        if negb (flag_Any (lc_need l) FlagCanonicalHash) then
          Err (Msg "not ready for canonical hash entry, already sealed the last block")
        else
          let* canonHash := newCanonicalHashFromEntry entry in
          Ok (need_remove (set_block l canonHash (lc_blockNum l) (lc_timestamp l) (lc_logsSince l)) FlagCanonicalHash)
      else if entry_Type entry =? TypeInitiatingEvent then
        if negb (hasCompleteBlock l) then Err (Msg "did not complete block seal, cannot add log")
        else if hasIncompleteLog l then Err (Msg "cannot process log before last log completes")
        else
          let* evt := newInitiatingEventFromEntry entry in
          let l := set_log l (ie_logHash evt) None in
          let l := if ie_hasExecMsg evt then need_add l (Z.lor FlagExecutingLink FlagExecutingCheck)
                   else count_log l in
          Ok (need_remove l FlagInitiatingEvent)
      else if entry_Type entry =? TypeExecutingLink then
        if negb (flag_Any (lc_need l) FlagExecutingLink) then Err (Msg "unexpected executing-link")
        else
          let* link := newExecutingLinkFromEntry entry in
          let l := set_log l (lc_logHash l)
                     (Some {| em_Chain := xl_chain link; em_BlockNum := xl_blockNum link; em_LogIdx := xl_logIdx link;
                              em_Timestamp := xl_timestamp link; em_Hash := 0 |}) in
          Ok (need_add (need_remove l FlagExecutingLink) FlagExecutingCheck)
      else if entry_Type entry =? TypeExecutingCheck then
        if flag_Any (lc_need l) FlagExecutingLink then
          Err (Msg "need executing link to be applied before the check part")
        else if negb (flag_Any (lc_need l) FlagExecutingCheck) then Err (Msg "unexpected executing check")
        else
          let* hash := newExecutingCheckFromEntry entry in
          match lc_execMsg l with
          | None => Panic
          | Some m =>
              let l := set_log l (lc_logHash l)
                         (Some {| em_Chain := em_Chain m; em_BlockNum := em_BlockNum m; em_LogIdx := em_LogIdx m;
                                  em_Timestamp := em_Timestamp m; em_Hash := hash |}) in
              Ok (count_log (need_remove l FlagExecutingCheck))
          end
      else if entry_Type entry =? TypePadding then
        Ok (if flag_Any (lc_need l) FlagPadding then need_remove l FlagPadding else need_remove l FlagPadding2)
      else Err (Msg "unknown entry type") in
    Ok (set_index l (nextEntryIndex l + 1) (lc_out l)).

Definition ApplyEntry (l : logContext) (entry : bytes) : result logContext :=
  map_err (Wrap "failed to process entry") (processEntry l entry).

(** *** Writing *)

Definition appendEntry (l : logContext) (obj : EntryObj) : logContext :=
  set_index l (nextEntryIndex l + 1) (lc_out l ++ [encode obj]).

(** [infer]; [Err EOF] when there is nothing to infer. *)
Definition infer (l : logContext) : logContext * result unit :=
  let l := if Z.rem (nextEntryIndex l) searchCheckpointFrequency =? 0 then need_add l FlagSearchCheckpoint else l in
  if flag_Any (lc_need l) FlagSearchCheckpoint then
    let l := appendEntry l (OCheckpoint {| sc_blockNum := lc_blockNum l; sc_logsSince := lc_logsSince l;
                                           sc_timestamp := lc_timestamp l |}) in
    (need_remove (need_add l FlagCanonicalHash) FlagSearchCheckpoint, Ok tt)
  else if flag_Any (lc_need l) FlagCanonicalHash then
    (need_remove (appendEntry l (OCanonicalHash (lc_blockHash l))) FlagCanonicalHash, Ok tt)
  else if flag_Any (lc_need l) FlagPadding then
    (need_remove (appendEntry l OPadding) FlagPadding, Ok tt)
  else if flag_Any (lc_need l) FlagPadding2 then
    (need_remove (appendEntry l OPadding) FlagPadding2, Ok tt)
  else if flag_Any (lc_need l) FlagInitiatingEvent then
    let hasExec := match lc_execMsg l with Some _ => true | None => false end in
    let m := Z.rem (nextEntryIndex l) searchCheckpointFrequency in
    if hasExec && (m =? searchCheckpointFrequency - 1) then (need_add l FlagPadding, Ok tt)
    else if hasExec && (m =? searchCheckpointFrequency - 2) then
      (need_add l (Z.lor FlagPadding FlagPadding2), Ok tt)
    else
      let l := appendEntry l (OInitiatingEvent {| ie_hasExecMsg := hasExec; ie_logHash := lc_logHash l |}) in
      let l := need_remove l FlagInitiatingEvent in
      (if hasExec then l else count_log l, Ok tt)
  else if flag_Any (lc_need l) FlagExecutingLink then
    match lc_execMsg l with
    | None => (l, Panic)
    | Some msg =>
        match newExecutingLink msg with
        | Ok link => (need_remove (appendEntry l (OExecutingLink link)) FlagExecutingLink, Ok tt)
        | Err e => (l, Err (Wrap "failed to create executing link" e))
        | Panic => (l, Panic)
        end
    end
  else if flag_Any (lc_need l) FlagExecutingCheck then
    match lc_execMsg l with
    | None => (l, Panic)
    | Some msg =>
        (count_log (need_remove (appendEntry l (OExecutingCheck (em_Hash msg))) FlagExecutingCheck), Ok tt)
    end
  else (l, Err EOF).

Fixpoint infer_loop (n : nat) (l : logContext) : logContext * result unit :=
  match n with
  | O => (l, Panic)   (* hit sanity limit *)
  | S n =>
      match infer l with
      | (l, Ok _) => infer_loop n l
      | (l, Err EOF) => (l, Ok tt)
      | (l, r) => (l, r)
      end
  end.

Definition inferFull (l : logContext) : logContext * result unit := infer_loop 10 l.

Definition lc_SealBlock (l : logContext) (parent : Z) (upd : BlockID) (timestamp : Z) : logContext * result unit :=
  let '(l, r) :=
    if negb (nextEntryIndex l =? 0) then
      match inferFull l with
      | (l, Ok _) =>
          (l, if negb (lc_blockHash l =? parent) then
                Err (Wrap "cannot apply block on top of another parent" ErrConflict)
              else if negb (lc_blockHash l =? 0) && negb (lc_blockNum l +u 1 =? bid_Number upd) then
                Err (Wrap "cannot apply block on top of that number" ErrConflict)
              else if timestamp <? lc_timestamp l then
                Err (Wrap "block timestamp must be equal or larger than current timestamp" ErrConflict)
              else Ok tt)
      | (l, r) => (l, r)
      end
    else (l, Ok tt) in
  match r with
  | Ok _ =>
      let l := set_block l (bid_Hash upd) (bid_Number upd) timestamp 0 in
      inferFull (need_add (set_log l 0 None) FlagSearchCheckpoint)
  | r => (l, r)
  end.

Definition lc_ApplyLog (l : logContext) (parentBlock : BlockID) (logIdx logHash : Z) (execMsg : option ExecutingMessage)
  : logContext * result unit :=
  if id_eqb parentBlock zeroBlockID then (l, Err (Wrap "genesis does not have logs" ErrOutOfOrder))
  else
    match inferFull l with
    | (l, Ok _) =>
        if negb (hasCompleteBlock l) then
          (l, if lc_blockNum l =? 0 then Err (Wrap "should not have logs in block 0" ErrOutOfOrder)
              else Err (Msg "cannot append log before last known block is sealed"))
        else if negb (lc_blockHash l =? bid_Hash parentBlock) then
          (l, Err (Wrap "log builds on top of another block" ErrOutOfOrder))
        else if negb (lc_blockNum l =? bid_Number parentBlock) then
          (l, Err (Wrap "log builds on top of another block number" ErrOutOfOrder))
        else if negb (logIdx =? lc_logsSince l) then
          (l, Err (Wrap "expected another event index" ErrOutOfOrder))
        else
          let l := need_add (set_log l logHash execMsg) FlagInitiatingEvent in
          let l := match execMsg with
                   | Some _ => need_add l (Z.lor FlagExecutingLink FlagExecutingCheck)
                   | None => l
                   end in
          inferFull l
    | (l, r) => (l, r)
    end.

(** [forceBlock] *)
Definition lc_forceBlock (l : logContext) (upd : BlockID) (timestamp : Z) : logContext * result unit :=
  if negb (nextEntryIndex l =? 0) then (l, Err (Msg "can only bootstrap on top of an empty state"))
  else
    let l := set_need (set_log (set_block l (bid_Hash upd) (bid_Number upd) timestamp 0) 0 None) 0 in
    inferFull (set_index l (nextEntryIndex l) []).

(** ** The iterator *)

Section iterator.
Context {St : Type} {ES : EntryStore St}.
Variable store : St.

(** [iterator.next]: the entry type and the new state. *)
Definition it_next (l : logContext) : result (Z * logContext) :=
  match st_Read store (nextEntryIndex l) with
  | Err e => if errors_Is e EOF then Err ErrFuture else Err (Wrap "failed to read entry" e)
  | Panic => Panic
  | Ok entry =>
      let* l := map_err (Wrap "failed to apply entry to iterator state") (ApplyEntry l entry) in
      Ok (entry_Type entry, l)
  end.

Definition it_fuel : nat := S (Z.to_nat (st_Size store)).

Fixpoint End_loop (fuel : nat) (l : logContext) : result logContext :=
  match fuel with
  | O => Err (Msg "out of fuel")
  | S fuel =>
      match it_next l with
      | Ok (_, l) => End_loop fuel l
      | Err e => if errors_Is e ErrFuture then Ok l else Err e
      | Panic => Panic
      end
  end.

Definition it_End (l : logContext) : result logContext := End_loop it_fuel l.

Fixpoint NextInitMsg_loop (fuel : nat) (seenLog : bool) (l : logContext) : result logContext :=
  match fuel with
  | O => Err (Msg "out of fuel")
  | S fuel =>
      let* (typ, l) := it_next l in
      let seenLog := seenLog || (typ =? TypeInitiatingEvent) in
      if negb (hasCompleteBlock l) then NextInitMsg_loop fuel seenLog l
      else if hasIncompleteLog l then NextInitMsg_loop fuel seenLog l
      else if seenLog then Ok l
      else NextInitMsg_loop fuel seenLog l
  end.

Definition NextInitMsg (l : logContext) : result logContext := NextInitMsg_loop it_fuel false l.

Fixpoint NextExecMsg_loop (fuel : nat) (l : logContext) : result logContext :=
  match fuel with
  | O => Err (Msg "out of fuel")
  | S fuel =>
      let* l := NextInitMsg l in
      match lc_execMsg l with Some _ => Ok l | None => NextExecMsg_loop fuel l end
  end.

Definition NextExecMsg (l : logContext) : result logContext := NextExecMsg_loop it_fuel l.

Fixpoint NextBlock_loop (fuel : nat) (seenBlock : bool) (l : logContext) : result logContext :=
  match fuel with
  | O => Err (Msg "out of fuel")
  | S fuel =>
      let* (typ, l) := it_next l in
      let seenBlock := seenBlock || (typ =? TypeSearchCheckpoint) in
      if negb (hasCompleteBlock l) then NextBlock_loop fuel seenBlock l
      else if seenBlock then Ok l
      else NextBlock_loop fuel seenBlock l
  end.

Definition NextBlock (l : logContext) : result logContext := NextBlock_loop it_fuel false l.

(** [TraverseConditional]: [fn] updates what its closure captures; the
    answer is the captured value, the iterator state and the error, which is
    never nil. *)
Fixpoint Traverse_loop {A} (fuel : nat) (fn : A -> logContext -> A * option error) (a : A) (l : logContext)
  : A * logContext * result unit :=
  match fuel with
  | O => (a, l, Err (Msg "out of fuel"))
  | S fuel =>
      match it_next l with
      | Err e => (a, l, Err e)
      | Panic => (a, l, Panic)
      | Ok (_, l') =>
          if negb (lc_need l' =? 0) then Traverse_loop fuel fn a l'
          else
            match fn a l' with
            | (a, Some e) => (a, if errors_Is e ErrStop then l' else l, Err e)
            | (a, None) => Traverse_loop fuel fn a l'
            end
      end
  end.

Definition TraverseConditional {A} (fn : A -> logContext -> A * option error) (a : A) (l : logContext)
  : A * logContext * result unit := Traverse_loop it_fuel fn a l.

(** ** Search *)

Definition readSearchCheckpoint (entryIdx : Z) : result searchCheckpoint :=
  let* data := map_err (Wrap "failed to read entry") (st_Read store entryIdx) in
  newSearchCheckpointFromEntry data.

Fixpoint searchCheckpoint_loop (fuel : nat) (sealedBlockNum logsSince i j : Z) : result Z :=
  match fuel with
  | O => Err (Msg "out of fuel")
  | S fuel =>
      if i + 1 <? j then
        let h := Z.shiftr (i + j) 1 in
        let* checkpoint := map_err (Wrap "failed to read entry") (readSearchCheckpoint (h * searchCheckpointFrequency)) in
        if (sc_blockNum checkpoint <? sealedBlockNum) ||
           ((sc_blockNum checkpoint =? sealedBlockNum) && (sc_logsSince checkpoint <? logsSince))
        then searchCheckpoint_loop fuel sealedBlockNum logsSince h j
        else searchCheckpoint_loop fuel sealedBlockNum logsSince i h
      else if negb (i + 1 =? j) then Panic
      else Ok i
  end.

(** [lastIndex] is the next index of the last entry's context. *)
Definition db_searchCheckpoint (lastIndex : Z) (sealedBlockNum logsSince : Z) : result Z :=
  if lastIndex =? 0 then Err ErrFuture
  else
    let n := Z.quot (st_LastEntryIdx store) searchCheckpointFrequency + 1 in
    let* i := searchCheckpoint_loop (S (Z.to_nat n)) sealedBlockNum logsSince 0 n in
    let res := i * searchCheckpointFrequency in
    let* checkpoint := map_err (Wrap "failed to read final search checkpoint result") (readSearchCheckpoint res) in
    if (sealedBlockNum <? sc_blockNum checkpoint) ||
       ((sc_blockNum checkpoint =? sealedBlockNum) && (logsSince <? sc_logsSince checkpoint))
    then Err (Wrap "missing data, earliest search checkpoint is later" ErrSkipped)
    else Ok res.

(** The walk to the seal of [blockNum]. *)
Fixpoint walk_blocks (fuel : nat) (blockNum : Z) (l : logContext) : result logContext :=
  match fuel with
  | O => Err (Msg "out of fuel")
  | S fuel =>
      if match SealedBlock l with Some (_, n) => n =? blockNum | None => false end then Ok l
      else
        match NextBlock l with
        | Err e => if errors_Is e ErrFuture then Err ErrFuture else Err e
        | Panic => Panic
        | Ok l =>
            match SealedBlock l with
            | None => Panic
            | Some (_, num) =>
                if num <? blockNum then walk_blocks fuel blockNum l
                else if negb (num =? blockNum) then Err (Wrap "looking for a block, but already past it" ErrConflict)
                else Ok l
            end
        end
  end.

(** The walk past [logIndex] logs. *)
Fixpoint walk_logs (fuel : nat) (blockNum logIndex : Z) (l : logContext) : result logContext :=
  match fuel with
  | O => Err (Msg "out of fuel")
  | S fuel =>
      if negb (lc_logsSince l <? logIndex) then Ok l
      else
        match NextInitMsg l with
        | Err EOF => Err ErrFuture
        | Err e => Err e
        | Panic => Panic
        | Ok l =>
            match SealedBlock l with
            | None => Panic
            | Some (_, num) =>
                if blockNum <? num then Err ErrConflict
                else
                  match InitMessage l with
                  | None => Panic
                  | Some (_, idx) =>
                      if u32 (idx + 1) <? logIndex then walk_logs fuel blockNum logIndex l
                      else if u32 (idx + 1) =? logIndex then Ok l
                      else Err (Msg "unexpected log-skip")
                  end
            end
        end
  end.

Definition newIteratorAt (lastIndex : Z) (blockNum logIndex : Z) : result logContext :=
  match db_searchCheckpoint lastIndex blockNum logIndex with
  | Err e => if errors_Is e EOF then Err ErrFuture else Err e
  | Panic => Panic
  | Ok index =>
      let* l := walk_blocks it_fuel blockNum (need_add (lc_new index) FlagCanonicalHash) in
      walk_logs it_fuel blockNum logIndex l
  end.
End iterator.

(** ** The database *)

Section DB.
Context {St : Type} {ES : EntryStore St} `{Keccak}.

Record LogsDB : Type := {
  ld_store : St;
  ld_chainID : Z;
  lastEntryContext : logContext }.

Definition set_context (db : LogsDB) (l : logContext) : LogsDB :=
  {| ld_store := ld_store db; ld_chainID := ld_chainID db; lastEntryContext := l |}.

Definition set_store (db : LogsDB) (s : St) : LogsDB :=
  {| ld_store := s; ld_chainID := ld_chainID db; lastEntryContext := lastEntryContext db |}.

Definition iter_at (db : LogsDB) (blockNum logIndex : Z) : result logContext :=
  newIteratorAt (ld_store db) (nextEntryIndex (lastEntryContext db)) blockNum logIndex.

(** The last index at or before [i] that holds a canonical hash, or -1. *)
Fixpoint trim_loop (s : St) (fuel : nat) (i : Z) : result Z :=
  match fuel with
  | O => Ok i
  | S fuel =>
      if i <? 0 then Ok i
      else
        let* entry := map_err (Wrap "failed to read to check for trailing entries") (st_Read s i) in
        if entry_Type entry =? TypeCanonicalHash then Ok i else trim_loop s fuel (i - 1)
  end.

Definition trimToLastSealed (s : St) : St * result unit :=
  match trim_loop s (S (Z.to_nat (st_Size s))) (st_LastEntryIdx s) with
  | Ok i => if i <? st_LastEntryIdx s then st_Truncate s i else (s, Ok tt)
  | Err e => (s, Err e)
  | Panic => (s, Panic)
  end.

(** The context of the last entry, read from the last checkpoint on. *)
Definition init_context (s : St) : result logContext :=
  if st_LastEntryIdx s <? 0 then Ok (lc_new 0)
  else
    let lastCheckpoint := Z.quot (st_LastEntryIdx s) searchCheckpointFrequency * searchCheckpointFrequency in
    map_err (Wrap "failed to init from remaining trailing data")
      (it_End s (need_add (lc_new lastCheckpoint) FlagCanonicalHash)).

Definition db_init (db : LogsDB) (trim : bool) : LogsDB * result unit :=
  let '(db, r) :=
    if trim then
      let '(s, r) := trimToLastSealed (ld_store db) in
      (set_store db s, map_err (Wrap "failed to trim invalid trailing entries") r)
    else (db, Ok tt) in
  match r with
  | Ok _ =>
      match init_context (ld_store db) with
      | Ok l => (set_context db l, Ok tt)
      | Err e => (db, Err e)
      | Panic => (db, Panic)
      end
  | r => (db, r)
  end.

Definition NewFromEntryStore (s : St) (chainID : Z) (trim : bool) : result LogsDB :=
  let '(db, r) := db_init {| ld_store := s; ld_chainID := chainID; lastEntryContext := lc_new 0 |} trim in
  let* _ := map_err (Wrap "failed to init database") r in
  Ok db.

Definition FindSealedBlock (db : LogsDB) (number : Z) : result BlockSeal :=
  match iter_at db number 0 with
  | Err e => if errors_Is e ErrFuture then Err (Wrap "block is not known yet" ErrFuture)
             else Err (Wrap "failed to find sealed block" e)
  | Panic => Panic
  | Ok l =>
      match SealedBlock l, SealedTimestamp l with
      | Some (h, n), Some t =>
          if negb (n =? number) then Panic
          else Ok {| bs_Hash := h; bs_Number := n; bs_Timestamp := t |}
      | _, _ => Panic
      end
  end.

Definition StartingBlock (db : LogsDB) : result BlockSeal :=
  let* l := NextBlock (ld_store db) (lc_new 0) in
  let '(h, n) := default (0, 0) (SealedBlock l) in
  Ok {| bs_Hash := h; bs_Number := n; bs_Timestamp := default 0 (SealedTimestamp l) |}.

(** What the traversal of [OpenBlock] gathers. *)
Definition open_fn (blockNum : Z) (bl : OpenedBlock) (state : logContext) : OpenedBlock * option error :=
  let '(logIndex, bl) :=
    match InitMessage state with
    | Some (_, i) =>
        (i, {| ob_ref := ob_ref bl; ob_logCount := u32 (i + 1); ob_execMsgs := ob_execMsgs bl |})
    | None => (0, bl)
    end in
  let bl := match ExecMessage state with
            | Some m => {| ob_ref := ob_ref bl; ob_logCount := ob_logCount bl;
                           ob_execMsgs := <[logIndex := m]> (ob_execMsgs bl) |}
            | None => bl
            end in
  match SealedBlock state with
  | None => (bl, None)
  | Some (h, n) =>
      if n =? blockNum then
        ({| ob_ref := {| l1_Hash := h; l1_Number := n; l1_ParentHash := l1_ParentHash (ob_ref bl);
                         l1_Time := default 0 (SealedTimestamp state) |};
            ob_logCount := ob_logCount bl; ob_execMsgs := ob_execMsgs bl |}, Some ErrStop)
      else if blockNum <? n then
        (bl, Some (Wrap "expected to run into block, but did not find it" ErrDataCorruption))
      else (bl, None)
  end.

Definition logs_OpenBlock (db : LogsDB) (blockNum : Z) : result OpenedBlock :=
  if blockNum =? 0 then
    let* seal := StartingBlock db in
    Ok {| ob_ref := {| l1_Hash := bs_Hash seal; l1_Number := bs_Number seal; l1_ParentHash := 0;
                       l1_Time := bs_Timestamp seal |};
          ob_logCount := 0; ob_execMsgs := ∅ |}
  else
    let* l := iter_at db (blockNum -u 1) 0 in
    let parentHash := match SealedBlock l with Some (h, _) => h | None => 0 end in
    let bl := {| ob_ref := {| l1_Hash := 0; l1_Number := 0; l1_ParentHash := parentHash; l1_Time := 0 |};
                 ob_logCount := 0; ob_execMsgs := ∅ |} in
    match TraverseConditional (ld_store db) (open_fn blockNum) bl l with
    | (bl, _, Err e) => if errors_Is e ErrStop then Ok bl else Err e
    | (bl, _, Ok _) => Ok bl
    | (_, _, Panic) => Panic
    end.

Definition LatestSealedBlock (db : LogsDB) : option BlockID :=
  if nextEntryIndex (lastEntryContext db) =? 0 then None
  else Some {| bid_Hash := lc_blockHash (lastEntryContext db); bid_Number := lc_blockNum (lastEntryContext db) |}.

Definition findLogInfo (db : LogsDB) (blockNum logIdx : Z) : result (Z * logContext) :=
  if blockNum =? 0 then Err ErrConflict
  else
    let* l := iter_at db (blockNum -u 1) logIdx in
    let* l := map_err (Wrap "failed to read initiating message") (NextInitMsg (ld_store db) l) in
    match SealedBlock l with
    | None => Panic
    | Some (_, x) =>
        if x <? blockNum -u 1 then Panic
        else if blockNum -u 1 <? x then Err (Wrap "log does not exist, found next block already" ErrConflict)
        else
          match InitMessage l with
          | None => Panic
          | Some (logHash, x) => if negb (x =? logIdx) then Panic else Ok (logHash, l)
          end
    end.

Definition contains_fn (blockNum : Z) (_ : unit) (state : logContext) : unit * option error :=
  match SealedBlock state with
  | None => (tt, None)
  | Some (_, n) =>
      if n =? blockNum then (tt, Some ErrStop)
      else if blockNum <? n then (tt, Some ErrDataCorruption)
      else (tt, None)
  end.

Definition logs_Contains (db : LogsDB) (query : ContainsQuery) : result BlockSeal :=
  let last := lastEntryContext db in
  if hasCompleteBlock last && (lc_blockNum last <? cq_BlockNum query) then
    if cq_Timestamp query <? lc_timestamp last then Err ErrConflict else Err ErrFuture
  else
    match findLogInfo db (cq_BlockNum query) (cq_LogIdx query) with
    | Err e => if errors_Is e ErrFuture && hasCompleteBlock last then Err ErrConflict else Err e
    | Panic => Panic
    | Ok (entryLogHash, l) =>
        match TraverseConditional (ld_store db) (contains_fn (cq_BlockNum query)) tt l with
        | (_, _, Ok _) => Panic
        | (_, _, Panic) => Panic
        | (_, l, Err e) =>
            if errors_Is e ErrStop then
              match SealedBlock l with
              | None => Err (Msg "iterator stopped but no sealed block found")
              | Some (h, n) =>
                  let t := default 0 (SealedTimestamp l) in
                  if negb (t =? cq_Timestamp query) then Err (Wrap "timestamp mismatch" ErrConflict)
                  else
                    let entryChecksum :=
                      Checksum {| ca_BlockNumber := n; ca_LogIndex := cq_LogIdx query; ca_Timestamp := t;
                                  ca_ChainID := ld_chainID db; ca_LogHash := entryLogHash |} in
                    if negb (bool_decide (entryChecksum = cq_Checksum query)) then
                      Err (Wrap "payload hash mismatch" ErrConflict)
                    else Ok {| bs_Hash := h; bs_Number := n; bs_Timestamp := t |}
              end
            else Err e
        end
    end.

Definition db_flush (db : LogsDB) : LogsDB * result unit :=
  let l := lastEntryContext db in
  match st_Append (ld_store db) (lc_out l) with
  | (s, Ok _) => (set_context (set_store db s) (set_index l (nextEntryIndex l) []), Ok tt)
  | (s, r) => (set_store db s, map_err (Wrap "failed to append entries") r)
  end.

Definition db_SealBlock (db : LogsDB) (parentHash : Z) (block : BlockID) (timestamp : Z) : LogsDB * result unit :=
  match lc_SealBlock (lastEntryContext db) parentHash block timestamp with
  | (l, Ok _) => db_flush (set_context db l)
  | (l, r) => (set_context db l, map_err (Wrap "failed to seal block") r)
  end.

Definition db_AddLog (db : LogsDB) (logHash : Z) (parentBlock : BlockID) (logIdx : Z) (execMsg : option ExecutingMessage)
  : LogsDB * result unit :=
  match lc_ApplyLog (lastEntryContext db) parentBlock logIdx logHash execMsg with
  | (l, Ok _) => db_flush (set_context db l)
  | (l, r) => (set_context db l, map_err (Wrap "failed to apply log") r)
  end.

Definition db_Rewind (db : LogsDB) (newHead : BlockID) : LogsDB * result unit :=
  match iter_at db (bid_Number newHead) 0 with
  | Err e => (db, Err e)
  | Panic => (db, Panic)
  | Ok l =>
      match SealedBlock l with
      | None => (db, Err (Wrap "expected sealed block for rewind reference-point" ErrDataCorruption))
      | Some (hash, _) =>
          if negb (hash =? bid_Hash newHead) then (db, Err (Wrap "cannot rewind to another block" ErrConflict))
          else
            match st_Truncate (ld_store db) (nextEntryIndex l - 1) with
            | (s, Ok _) =>
                let '(db, r) := db_init (set_store db s) true in
                (db, map_err (Wrap "failed to find new last entry context") r)
            | (s, r) => (set_store db s, map_err (Wrap "failed to truncate to block") r)
            end
      end
  end.
End DB.
Arguments LogsDB : clear implicits.
