(* ===== verification/LogCodec.v ===== *)
(** * Entries of the log database, and reading them

    Each entry decodes to what was encoded, and [processEntry] on an encoded
    entry is a step between contexts of four shapes: a complete one
    ([full]), one that awaits its canonical hash ([half]), and the two in the
    middle of an executing message ([mid1], [mid2]). *)

From stdpp Require Import base gmap sets list.
From S2P Require Import Prelude EthTypes EntryDB FromDA DepSet CrossGraph LogDB.

Definition is_hash (h : Z) : Prop := 0 <= h < 2 ^ 256.

Definition msg_ok (m : ExecutingMessage) : Prop :=
  is_u32 (em_Chain m) /\ is_u64 (em_BlockNum m) /\ 0 <= em_LogIdx m < 2 ^ 24 /\ is_u64 (em_Timestamp m) /\
  is_hash (em_Hash m).

(** Objects whose fields fit their width; a log index fits 24 bits. *)
Definition obj_ok (o : EntryObj) : Prop :=
  match o with
  | OCheckpoint s => is_u64 (sc_blockNum s) /\ is_u32 (sc_logsSince s) /\ is_u64 (sc_timestamp s)
  | OCanonicalHash h => is_hash h
  | OInitiatingEvent i => is_hash (ie_logHash i)
  | OExecutingLink e =>
      is_u32 (xl_chain e) /\ is_u64 (xl_blockNum e) /\ 0 <= xl_logIdx e < 2 ^ 24 /\ is_u64 (xl_timestamp e)
  | OExecutingCheck h => is_hash h
  | OPadding => True
  end.

(** What the readers make of an entry. *)
Definition decode (data : bytes) : result EntryObj :=
  if entry_Type data =? TypeSearchCheckpoint then
    let* s := newSearchCheckpointFromEntry data in Ok (OCheckpoint s)
  else if entry_Type data =? TypeCanonicalHash then let* h := newCanonicalHashFromEntry data in Ok (OCanonicalHash h)
  else if entry_Type data =? TypeInitiatingEvent then
    let* i := newInitiatingEventFromEntry data in Ok (OInitiatingEvent i)
  else if entry_Type data =? TypeExecutingLink then
    let* e := newExecutingLinkFromEntry data in Ok (OExecutingLink e)
  else if entry_Type data =? TypeExecutingCheck then
    let* h := newExecutingCheckFromEntry data in Ok (OExecutingCheck h)
  else if entry_Type data =? TypePadding then Ok OPadding
  else Err (Msg "unknown entry type").

Lemma encode_length o : length (encode o) = logs_EntrySize.
Proof.
  destruct o; unfold encode, checkpoint_encode, canonicalHash_encode, initiatingEvent_encode, executingLink_encode,
    executingCheck_encode, padding_encode, logs_EntrySize; cbn [length];
    rewrite ?length_app, ?length_le_encode, ?length_be_encode, ?length_replicate; reflexivity.
Qed.

(** The bytes of a field after a prefix of known length. *)
Lemma part_field (lo hi : nat) (l p f r : bytes) : l = p ++ f ++ r -> length p = lo -> (lo + length f)%nat = hi ->
  part lo hi l = f.
Proof.
  intros -> Hp Hf. unfold slice. rewrite <-Hp, drop_app_length.
  replace (hi - length p)%nat with (length f) by lia. apply take_app_length.
Qed.

Ltac field_length := rewrite ?length_app, ?length_cons, ?length_le_encode, ?length_be_encode; reflexivity.

Lemma be_hash h : is_hash h -> be_decode (be_encode 32 h) = h.
Proof. intros Hh. rewrite be_decode_encode. apply Z.mod_small. unfold is_hash in Hh. lia. Qed.

Lemma le_u64 z : is_u64 z -> le_decode (le_encode 8 z) = z.
Proof. intros Hz. apply le_decode_encode. unfold is_u64, two64 in Hz. lia. Qed.

Lemma le_u32 z : is_u32 z -> le_decode (le_encode 4 z) = z.
Proof. intros Hz. apply le_decode_encode. unfold is_u32, two32 in Hz. lia. Qed.

Lemma decode_checkpoint s : obj_ok (OCheckpoint s) -> newSearchCheckpointFromEntry (encode (OCheckpoint s)) = Ok s.
Proof.
  intros (H1 & H2 & H3). unfold newSearchCheckpointFromEntry, encode, checkpoint_encode. cbn [entry_Type]. simpl negb. cbv iota.
  destruct s as [b l t]. cbn [sc_blockNum sc_logsSince sc_timestamp] in *.
  erewrite (part_field 1 9 _ [_] (le_encode 8 b) _); [|reflexivity|field_length|field_length].
  erewrite (part_field 9 13 _ (_ :: le_encode 8 b) (le_encode 4 l) _); [|reflexivity|field_length|field_length].
  erewrite (part_field 13 21 _ (_ :: le_encode 8 b ++ le_encode 4 l) (le_encode 8 t) (replicate 13 0)); [|by rewrite <-!app_comm_cons, <-!app_assoc|field_length|field_length].
  by rewrite !le_u64, le_u32.
Qed.

Lemma decode_canonical h : is_hash h -> newCanonicalHashFromEntry (encode (OCanonicalHash h)) = Ok h.
Proof.
  intros Hh. unfold newCanonicalHashFromEntry, encode, canonicalHash_encode. cbn [entry_Type]. simpl negb. cbv iota.
  erewrite (part_field 1 33 _ [_] (be_encode 32 h) _); [|reflexivity|field_length|field_length]. by rewrite be_hash.
Qed.

Lemma decode_initiating i : is_hash (ie_logHash i) -> newInitiatingEventFromEntry (encode (OInitiatingEvent i)) = Ok i.
Proof.
  intros Hh. unfold newInitiatingEventFromEntry, encode, initiatingEvent_encode. cbn [entry_Type]. simpl negb. cbv iota.
  destruct i as [f h]. cbn [ie_hasExecMsg ie_logHash nth] in *.
  erewrite (part_field 2 34 _ [_; _] (be_encode 32 h) []); [|by rewrite app_nil_r|field_length|field_length].
  rewrite be_hash by done. by destruct f.
Qed.

Lemma decode_link e : obj_ok (OExecutingLink e) -> newExecutingLinkFromEntry (encode (OExecutingLink e)) = Ok e.
Proof.
  intros (H1 & H2 & H3 & H4). unfold newExecutingLinkFromEntry, encode, executingLink_encode. cbn [entry_Type]. simpl negb. cbv iota.
  destruct e as [c b i t]. cbn [xl_chain xl_blockNum xl_logIdx xl_timestamp] in *.
  erewrite (part_field 1 5 _ [_] (le_encode 4 c) _); [|reflexivity|field_length|field_length].
  erewrite (part_field 5 13 _ (_ :: le_encode 4 c) (le_encode 8 b) _); [|reflexivity|field_length|field_length].
  erewrite (part_field 13 16 _ (_ :: le_encode 4 c ++ le_encode 8 b) (le_encode 3 i)
    (le_encode 8 t ++ replicate 10 0)); [|by rewrite <-!app_comm_cons, <-!app_assoc|field_length|field_length].
  erewrite (part_field 16 24 _ (_ :: le_encode 4 c ++ le_encode 8 b ++ le_encode 3 i) (le_encode 8 t)
    (replicate 10 0)); [|by rewrite <-!app_comm_cons, <-!app_assoc|field_length|field_length].
  rewrite !le_u64, le_u32 by done. by rewrite le_decode_encode.
Qed.

Lemma decode_check h : is_hash h -> newExecutingCheckFromEntry (encode (OExecutingCheck h)) = Ok h.
Proof.
  intros Hh. unfold newExecutingCheckFromEntry, encode, executingCheck_encode. cbn [entry_Type]. simpl negb. cbv iota.
  erewrite (part_field 1 33 _ [_] (be_encode 32 h) _); [|reflexivity|field_length|field_length]. by rewrite be_hash.
Qed.

(** ** Contexts *)

(** A position in the log: the last sealed block and the number of logs
    since. *)
Record pos : Type := { p_hash : Z; p_num : Z; p_time : Z; p_since : Z }.

Abbreviation cur_log := (Z * option ExecutingMessage)%type.

Definition no_log : cur_log := (0, None).

Definition full (idx : Z) (p : pos) (c : cur_log) : logContext :=
  {| nextEntryIndex := idx; lc_blockHash := p_hash p; lc_blockNum := p_num p; lc_timestamp := p_time p;
     lc_logsSince := p_since p; lc_logHash := c.1; lc_execMsg := c.2; lc_need := 0; lc_out := [] |}.

Definition half (idx num time since : Z) (c : cur_log) : logContext :=
  {| nextEntryIndex := idx; lc_blockHash := 0; lc_blockNum := num; lc_timestamp := time;
     lc_logsSince := since; lc_logHash := c.1; lc_execMsg := c.2; lc_need := 2; lc_out := [] |}.

Definition mid (idx : Z) (p : pos) (c : cur_log) (need : Z) : logContext :=
  {| nextEntryIndex := idx; lc_blockHash := p_hash p; lc_blockNum := p_num p; lc_timestamp := p_time p;
     lc_logsSince := p_since p; lc_logHash := c.1; lc_execMsg := c.2; lc_need := need; lc_out := [] |}.

Definition with_since (p : pos) (n : Z) : pos :=
  {| p_hash := p_hash p; p_num := p_num p; p_time := p_time p; p_since := n |}.

Definition checkpoint (num since time : Z) : EntryObj :=
  OCheckpoint {| sc_blockNum := num; sc_logsSince := since; sc_timestamp := time |}.

Definition link_of_msg (m : ExecutingMessage) : executingLink :=
  {| xl_chain := em_Chain m; xl_blockNum := em_BlockNum m; xl_logIdx := em_LogIdx m; xl_timestamp := em_Timestamp m |}.

Definition without_hash (m : ExecutingMessage) : ExecutingMessage :=
  {| em_Chain := em_Chain m; em_BlockNum := em_BlockNum m; em_LogIdx := em_LogIdx m;
     em_Timestamp := em_Timestamp m; em_Hash := 0 |}.

(** ** Reading encoded entries *)

Lemma read_checkpoint l num since time : lc_out l = [] -> lc_need l = 0 \/ lc_need l = 2 ->
  obj_ok (checkpoint num since time) ->
  processEntry l (encode (checkpoint num since time)) =
    Ok (half (nextEntryIndex l + 1) num time since
          (if since =? 0 then no_log else (lc_logHash l, lc_execMsg l))).
Proof.
  intros Hout Hneed Hok. unfold processEntry. rewrite Hout. rewrite bool_decide_true by done. cbn [negb].
  change (entry_Type (encode (checkpoint num since time))) with 0. cbn [Z.eqb TypeSearchCheckpoint].
  unfold checkpoint in *. rewrite decode_checkpoint by done. cbn [rbind sc_blockNum sc_logsSince sc_timestamp].
  destruct l. cbn in Hout, Hneed. subst. unfold need_add, set_need, set_block. cbn.
  replace (flag_Add lc_need FlagCanonicalHash) with 2 by (by destruct Hneed as [-> | ->]).
  by destruct (since =? 0).
Qed.

Lemma read_canonical idx num time since c h : is_hash h ->
  processEntry (half idx num time since c) (encode (OCanonicalHash h)) =
    Ok (full (idx + 1) {| p_hash := h; p_num := num; p_time := time; p_since := since |} c).
Proof.
  intros Hh. unfold processEntry. change (entry_Type (encode (OCanonicalHash h))) with 1.
  cbn -[encode]. by rewrite decode_canonical.
Qed.

Lemma read_event idx p c h : is_hash h -> is_u32 (p_since p + 1) ->
  processEntry (full idx p c) (encode (OInitiatingEvent {| ie_hasExecMsg := false; ie_logHash := h |})) =
    Ok (full (idx + 1) (with_since p (p_since p + 1)) (h, None)).
Proof.
  intros Hh Hs. unfold processEntry.
  change (entry_Type (encode (OInitiatingEvent {| ie_hasExecMsg := false; ie_logHash := h |}))) with 2.
  cbn -[encode]. rewrite decode_initiating by done. cbn. unfold count_log, set_block, need_remove, set_need, full. cbn.
  unfold u32. rewrite Z.mod_small by (unfold is_u32 in Hs; lia). done.
Qed.

Lemma read_exec_event idx p c h : is_hash h ->
  processEntry (full idx p c) (encode (OInitiatingEvent {| ie_hasExecMsg := true; ie_logHash := h |})) =
    Ok (mid (idx + 1) p (h, None) 24).
Proof.
  intros Hh. unfold processEntry.
  change (entry_Type (encode (OInitiatingEvent {| ie_hasExecMsg := true; ie_logHash := h |}))) with 2.
  cbn -[encode]. by rewrite decode_initiating.
Qed.

Lemma read_link idx p c m : msg_ok m ->
  processEntry (mid idx p c 24) (encode (OExecutingLink (link_of_msg m))) =
    Ok (mid (idx + 1) p (c.1, Some (without_hash m)) 16).
Proof.
  intros (H1 & H2 & H3 & H4 & H5). unfold processEntry.
  change (entry_Type (encode (OExecutingLink (link_of_msg m)))) with 3.
  cbn -[encode]. rewrite decode_link by exact (conj H1 (conj H2 (conj H3 H4))). done.
Qed.

Lemma read_check idx p h m : msg_ok m -> is_u32 (p_since p + 1) ->
  processEntry (mid idx p (h, Some (without_hash m)) 16) (encode (OExecutingCheck (em_Hash m))) =
    Ok (full (idx + 1) (with_since p (p_since p + 1)) (h, Some m)).
Proof.
  intros (H1 & H2 & H3 & H4 & H5) Hs. unfold processEntry.
  change (entry_Type (encode (OExecutingCheck (em_Hash m)))) with 4.
  cbn -[encode]. rewrite decode_check by done. cbn. unfold count_log, set_block, need_remove, set_need, full. cbn.
  unfold u32. rewrite Z.mod_small by (unfold is_u32 in Hs; lia). by destruct m.
Qed.

Lemma read_padding idx p c : processEntry (full idx p c) (encode OPadding) = Ok (full (idx + 1) p c).
Proof. reflexivity. Qed.

(** What is decoded from an encoded entry is the entry. *)
Lemma entry_roundtrip o : obj_ok o -> decode (encode o) = Ok o.
Proof.
  intros Hok. unfold decode. destruct o as [s|h|i|e|h|].
  - change (entry_Type (encode (OCheckpoint s))) with 0. cbn -[encode]. by rewrite decode_checkpoint.
  - change (entry_Type (encode (OCanonicalHash h))) with 1. cbn -[encode]. by rewrite decode_canonical.
  - change (entry_Type (encode (OInitiatingEvent i))) with 2. cbn -[encode]. by rewrite decode_initiating.
  - change (entry_Type (encode (OExecutingLink e))) with 3. cbn -[encode]. by rewrite decode_link.
  - change (entry_Type (encode (OExecutingCheck h))) with 4. cbn -[encode]. by rewrite decode_check.
  - done.
Qed.

(** The bound of [newExecutingLink] is off by one: a log index of [2^24] is
    accepted and stored as 0. *)
Lemma link_index_truncated :
  let m := {| em_Chain := 1; em_BlockNum := 2; em_LogIdx := 2 ^ 24; em_Timestamp := 3; em_Hash := 4 |} in
  exists e e', newExecutingLink m = Ok e /\ newExecutingLinkFromEntry (encode (OExecutingLink e)) = Ok e' /\
    xl_logIdx e = 2 ^ 24 /\ xl_logIdx e' = 0.
Proof. do 2 eexists. split; [vm_compute; reflexivity|]. split; [vm_compute; reflexivity|done]. Qed.
