(* ===== verification/LogStream.v ===== *)
(** * The entries of a history

    A history of block seals and logs is written as a list of entries, with
    padding and repeated checkpoints in between ([stream]).  Reading such a
    list moves through the history: the loops of the iterator stop where the
    history says they should. *)

From stdpp Require Import base gmap sets list.
From S2P Require Import Prelude EthTypes EntryDB FromDA DepSet CrossGraph LogDB LogCodec.

(** ** Histories *)

Inductive event : Type :=
  | EvSeal (parent hash num time : Z)
  | EvLog (hash : Z) (m : option ExecutingMessage).

Definition seal_ev (e : event) : Prop := match e with EvSeal _ _ _ _ => True | EvLog _ _ => False end.
Definition log_ev (e : event) : Prop := match e with EvSeal _ _ _ _ => False | EvLog _ _ => True end.

Definition adv (p : pos) (e : event) : pos :=
  match e with
  | EvSeal _ h n t => {| p_hash := h; p_num := n; p_time := t; p_since := 0 |}
  | EvLog _ _ => with_since p (p_since p + 1)
  end.

Definition advs (p : pos) (evs : list event) : pos := foldl adv p evs.

(** The next event fits the position: blocks are linked, numbered one after
    the other and do not go back in time. *)
Definition ev_ok (p : pos) (e : event) : Prop :=
  match e with
  | EvSeal parent h n t =>
      parent = p_hash p /\ n = p_num p + 1 /\ p_time p <= t /\ is_hash h /\ h <> 0 /\ is_u64 n /\ is_u64 t
  | EvLog h m => is_hash h /\ is_u32 (p_since p + 1) /\ match m with Some m => msg_ok m | None => True end
  end.

Inductive chain : pos -> list event -> Prop :=
  | chain_nil p : chain p []
  | chain_cons p e evs : ev_ok p e -> chain (adv p e) evs -> chain p (e :: evs).

Definition pos_ok (p : pos) : Prop := is_hash (p_hash p) /\ is_u64 (p_num p) /\ is_u64 (p_time p) /\ is_u32 (p_since p).

Lemma pos_ok_adv p e : pos_ok p -> ev_ok p e -> pos_ok (adv p e).
Proof. destruct e; unfold pos_ok; simpl; [|tauto]. intros _ (_ & _ & _ & ? & _ & ? & ?). split_and!; done. Qed.

Lemma advs_app p a b : advs p (a ++ b) = advs (advs p a) b.
Proof. apply foldl_app. Qed.

Lemma chain_app p a b : chain p (a ++ b) <-> chain p a /\ chain (advs p a) b.
Proof.
  revert p. induction a as [|e a IH]; intros p; simpl.
  - split; [intros; split; [constructor|done]|tauto].
  - split.
    + intros Hc. inversion_clear Hc as [|? ? ? He Hc']. apply IH in Hc' as [? ?]. split; [by constructor|done].
    + intros [Hc Hb]. inversion_clear Hc as [|? ? ? He Hc']. constructor; [done|]. by apply IH.
Qed.

Lemma chain_pos_ok p evs : pos_ok p -> chain p evs -> pos_ok (advs p evs).
Proof.
  intros Hp Hc. revert Hp. induction Hc as [|p e evs He Hc IH]; intros Hp; [done|]. simpl.
  by apply IH, pos_ok_adv.
Qed.

(** Positions are ordered by block number, then by logs. *)
Definition before (p q : pos) : Prop := p_num p < p_num q \/ (p_num p = p_num q /\ p_since p < p_since q).

Lemma adv_before p e : ev_ok p e -> before p (adv p e).
Proof. destruct e; unfold before; simpl; lia. Qed.

Lemma chain_before p evs : chain p evs -> evs <> [] -> before p (advs p evs).
Proof.
  intros Hc. induction Hc as [|p e evs He Hc IH]; intros Hne; [done|]. simpl.
  pose proof (adv_before p e He) as Hb. destruct evs as [|e' evs]; [done|].
  assert (before (adv p e) (advs (adv p e) (e' :: evs))) as Hb' by by apply IH.
  unfold before in *. simpl in *. lia.
Qed.

(** Two prefixes that lead to the same block and log count are equal. *)
Lemma prefix_unique p a b a' b' : chain p (a ++ b) -> a ++ b = a' ++ b' ->
  p_num (advs p a) = p_num (advs p a') -> p_since (advs p a) = p_since (advs p a') -> a = a' /\ b = b'.
Proof.
  intros Hc Heq Hn Hs.
  assert (forall x y z, chain p (x ++ y ++ z) -> p_num (advs p x) = p_num (advs p (x ++ y)) ->
    p_since (advs p x) = p_since (advs p (x ++ y)) -> y = []) as Hz.
  { intros x y z Hxyz Hn' Hs'. destruct y as [|e y]; [done|]. exfalso.
    apply chain_app in Hxyz as [_ Hyz]. apply chain_app in Hyz as [Hy _].
    apply chain_before in Hy; [|done]. rewrite advs_app in Hn', Hs'. unfold before in Hy. lia. }
  apply app_eq_inv in Heq as [(k & -> & ->)|(k & -> & ->)].
  - rewrite <-app_assoc in Hc. assert (k = []) as ->; [|by rewrite !app_nil_r].
    symmetry in Hn, Hs. by apply (Hz a' k b).
  - assert (k = []) as ->; [|by rewrite !app_nil_r]. by apply (Hz a k b').
Qed.

Lemma chain_num p evs : chain p evs -> p_num p <= p_num (advs p evs).
Proof.
  intros Hc. destruct evs as [|e evs]; [done|]. apply chain_before in Hc; [|done]. unfold before in Hc. lia.
Qed.

Lemma logs_num p evs : Forall log_ev evs -> p_num (advs p evs) = p_num p.
Proof.
  revert p. induction evs as [|e evs IH]; intros p Hf; [done|]. apply Forall_cons_1 in Hf as [He Hf].
  destruct e; [done|]. simpl. by rewrite IH.
Qed.

(** No position of the history has block [b] and [l] logs. *)
Definition no_pos (p : pos) (evs : list event) (b l : Z) : Prop :=
  forall done evs', evs = done ++ evs' -> p_num (advs p done) = b -> p_since (advs p done) = l -> False.

Lemma no_pos_past p evs b l : chain p evs -> b < p_num p -> no_pos p evs b l.
Proof.
  intros Hc Hb done evs' -> Hn _. apply chain_app in Hc as [Hc _]. apply chain_num in Hc. lia.
Qed.

Lemma no_pos_cons p e evs b l : no_pos (adv p e) evs b l -> ~ (p_num p = b /\ p_since p = l) -> no_pos p (e :: evs) b l.
Proof.
  intros Hn Hp done evs' Heq H1 H2. destruct done as [|e' done]; [by apply Hp|].
  injection Heq as <- ->. by apply (Hn done evs').
Qed.

(** ** Streams *)

Definition seal_entries (h n t : Z) : list EntryObj := [checkpoint n 0 t; OCanonicalHash h].

Definition repeat_entries (p : pos) : list EntryObj :=
  [checkpoint (p_num p) (p_since p) (p_time p); OCanonicalHash (p_hash p)].

Definition log_entries (h : Z) (m : option ExecutingMessage) : list EntryObj :=
  match m with
  | None => [OInitiatingEvent {| ie_hasExecMsg := false; ie_logHash := h |}]
  | Some m => [OInitiatingEvent {| ie_hasExecMsg := true; ie_logHash := h |}; OExecutingLink (link_of_msg m);
               OExecutingCheck (em_Hash m)]
  end.

Inductive stream : pos -> list event -> list EntryObj -> Prop :=
  | st_nil p : stream p [] []
  | st_pad p evs es : stream p evs es -> stream p evs (OPadding :: es)
  | st_repeat p evs es : stream p evs es -> stream p evs (repeat_entries p ++ es)
  | st_seal p parent h n t evs es :
      stream (adv p (EvSeal parent h n t)) evs es ->
      stream p (EvSeal parent h n t :: evs) (seal_entries h n t ++ es)
  | st_seal2 p parent h n t evs es :
      stream (adv p (EvSeal parent h n t)) evs es ->
      stream p (EvSeal parent h n t :: evs) (checkpoint n 0 t :: seal_entries h n t ++ es)
  | st_log p h m evs es :
      stream (adv p (EvLog h m)) evs es -> stream p (EvLog h m :: evs) (log_entries h m ++ es).

Lemma stream_app p evs es evs' es' : stream p evs es -> stream (advs p evs) evs' es' ->
  stream p (evs ++ evs') (es ++ es').
Proof.
  intros Hs Hs'. induction Hs; simpl in *; [done|..].
  - constructor. auto.
  - apply (st_repeat p (evs ++ evs') (es ++ es')). auto.
  - apply (st_seal p parent h n t). auto.
  - apply (st_seal2 p parent h n t). auto.
  - rewrite <-app_assoc. apply (st_log p h m). auto.
Qed.

(** A move through the history: the events [done] are read by [mid]. *)
Record move (p : pos) (evs : list event) (es : list EntryObj) (done evs' : list event) (mid es' : list EntryObj)
  : Prop := {
  mv_evs : evs = done ++ evs';
  mv_es : es = mid ++ es';
  mv_done : stream p done mid;
  mv_rest : stream (advs p done) evs' es' }.

Lemma move_refl p evs es : stream p evs es -> move p evs es [] evs [] es.
Proof. intros Hs. split; [done|done|constructor|done]. Qed.

Lemma move_trans p evs es d1 evs1 m1 es1 d2 evs2 m2 es2 :
  move p evs es d1 evs1 m1 es1 -> move (advs p d1) evs1 es1 d2 evs2 m2 es2 ->
  move p evs es (d1 ++ d2) evs2 (m1 ++ m2) es2.
Proof.
  intros [-> -> Hd1 _] [-> -> Hd2 Hr2]. split; [by rewrite app_assoc|by rewrite app_assoc|by apply stream_app|].
  by rewrite advs_app.
Qed.

(** One constructor of a stream as a move. *)
Lemma move_step p d1 m1 evs1 es1 d2 evs2 m2 es2 : stream p d1 m1 ->
  move (advs p d1) evs1 es1 d2 evs2 m2 es2 ->
  move p (d1 ++ evs1) (m1 ++ es1) (d1 ++ d2) evs2 (m1 ++ m2) es2.
Proof.
  intros Hd Hm. eapply move_trans; [|exact Hm]. split; [done|done|done|].
  destruct Hm as [-> -> Hd2 Hr]. by apply stream_app.
Qed.

(** ** Reading a stream *)

(** A store whose entries are [es] and whose reads succeed. *)
Definition reads {St} `{EntryStore St} (store : St) (es : list EntryObj) : Prop :=
  st_Size store = Z.of_nat (length es) /\ st_LastEntryIdx store = Z.of_nat (length es) - 1 /\
  (forall i o, es !! i = Some o -> st_Read store (Z.of_nat i) = Ok (encode o)) /\
  (forall i, Z.of_nat (length es) <= i -> st_Read store i = Err EOF).

Section reading.
Context {St : Type} {ES : EntryStore St}.
Variable store : St.
Variable all : list EntryObj.
Hypothesis Hreads : reads store all.

Lemma next_entry (pre : list EntryObj) o rest l l' : all = pre ++ o :: rest -> nextEntryIndex l = Z.of_nat (length pre) ->
  processEntry l (encode o) = Ok l' -> it_next store l = Ok (entry_Type (encode o), l').
Proof.
  intros Hall Hidx Hp. destruct Hreads as (_ & _ & Hr & _). unfold it_next. rewrite Hidx, (Hr (length pre) o).
  - unfold ApplyEntry. by rewrite Hp.
  - rewrite Hall. by apply list_lookup_middle.
Qed.

Lemma next_end l : nextEntryIndex l = Z.of_nat (length all) -> it_next store l = Err ErrFuture.
Proof. intros Hidx. destruct Hreads as (_ & _ & _ & He). unfold it_next. by rewrite Hidx, (He _ (Z.le_refl _)). Qed.

Lemma fuel_enough (pre rest : list EntryObj) : all = pre ++ rest -> (length rest < it_fuel store)%nat.
Proof. intros Hall. destruct Hreads as (Hs & _). unfold it_fuel. rewrite Hs, Hall, length_app. lia. Qed.

(** The index after an entry. *)
Abbreviation at_ pre := (Z.of_nat (length pre)).

Lemma at_snoc (pre : list EntryObj) o : at_ (pre ++ [o]) = at_ pre + 1.
Proof. rewrite length_app. simpl. lia. Qed.

(** One read, for each kind of entry. *)
Lemma next_checkpoint pre rest l num since time : all = pre ++ checkpoint num since time :: rest ->
  nextEntryIndex l = at_ pre -> lc_out l = [] -> lc_need l = 0 \/ lc_need l = 2 ->
  is_u64 num -> is_u32 since -> is_u64 time ->
  it_next store l = Ok (0, half (at_ (pre ++ [checkpoint num since time])) num time since
                          (if since =? 0 then no_log else (lc_logHash l, lc_execMsg l))).
Proof.
  intros Hall Hidx Hout Hneed H1 H2 H3.
  rewrite (next_entry pre _ rest _ _ Hall Hidx
    (read_checkpoint l num since time Hout Hneed (conj H1 (conj H2 H3)))).
  by rewrite at_snoc, Hidx.
Qed.

Lemma next_canonical pre rest num time since c h : all = pre ++ OCanonicalHash h :: rest -> is_hash h ->
  it_next store (half (at_ pre) num time since c) =
    Ok (1, full (at_ (pre ++ [OCanonicalHash h])) {| p_hash := h; p_num := num; p_time := time; p_since := since |} c).
Proof.
  intros Hall Hh. erewrite (next_entry pre _ rest _ _ Hall); [|reflexivity|by apply read_canonical].
  by rewrite at_snoc.
Qed.

Lemma next_padding pre rest p c : all = pre ++ OPadding :: rest ->
  it_next store (full (at_ pre) p c) = Ok (5, full (at_ (pre ++ [OPadding])) p c).
Proof. intros Hall. erewrite (next_entry pre _ rest _ _ Hall); [|reflexivity|by apply read_padding]. by rewrite at_snoc. Qed.

Lemma next_event pre rest p c h :
  let o := OInitiatingEvent {| ie_hasExecMsg := false; ie_logHash := h |} in
  all = pre ++ o :: rest -> is_hash h -> is_u32 (p_since p + 1) ->
  it_next store (full (at_ pre) p c) = Ok (2, full (at_ (pre ++ [o])) (with_since p (p_since p + 1)) (h, None)).
Proof.
  intros o Hall Hh Hs. erewrite (next_entry pre _ rest _ _ Hall); [|reflexivity|by apply read_event]. by rewrite at_snoc.
Qed.

Lemma next_exec_event pre rest p c h :
  let o := OInitiatingEvent {| ie_hasExecMsg := true; ie_logHash := h |} in
  all = pre ++ o :: rest -> is_hash h ->
  it_next store (full (at_ pre) p c) = Ok (2, mid (at_ (pre ++ [o])) p (h, None) 24).
Proof. intros o Hall Hh. erewrite (next_entry pre _ rest _ _ Hall); [|reflexivity|by apply read_exec_event]. by rewrite at_snoc. Qed.

Lemma next_exec_link pre rest p h m : all = pre ++ OExecutingLink (link_of_msg m) :: rest -> msg_ok m ->
  it_next store (mid (at_ pre) p (h, None) 24) =
    Ok (3, mid (at_ (pre ++ [OExecutingLink (link_of_msg m)])) p (h, Some (without_hash m)) 16).
Proof. intros Hall Hm. erewrite (next_entry pre _ rest _ _ Hall); [|reflexivity|by apply read_link]. by rewrite at_snoc. Qed.

Lemma next_check pre rest p h m : all = pre ++ OExecutingCheck (em_Hash m) :: rest -> msg_ok m ->
  is_u32 (p_since p + 1) ->
  it_next store (mid (at_ pre) p (h, Some (without_hash m)) 16) =
    Ok (4, full (at_ (pre ++ [OExecutingCheck (em_Hash m)])) (with_since p (p_since p + 1)) (h, Some m)).
Proof. intros Hall Hm Hs. erewrite (next_entry pre _ rest _ _ Hall); [|reflexivity|by apply read_check]. by rewrite at_snoc. Qed.
End reading.

Create Rewrite HintDb logs.

Lemma full_complete idx p c : hasCompleteBlock (full idx p c) = true. Proof. done. Qed.
Lemma full_log idx p c : hasIncompleteLog (full idx p c) = false. Proof. done. Qed.
Lemma full_sealed idx p c : SealedBlock (full idx p c) = Some (p_hash p, p_num p). Proof. done. Qed.
Lemma full_time idx p c : SealedTimestamp (full idx p c) = Some (p_time p). Proof. done. Qed.
Lemma half_incomplete idx n t s c : hasCompleteBlock (half idx n t s c) = false. Proof. done. Qed.
Lemma mid24_log idx p c : hasIncompleteLog (mid idx p c 24) = true. Proof. done. Qed.
Lemma mid16_log idx p c : hasIncompleteLog (mid idx p c 16) = true. Proof. done. Qed.
Lemma mid24_complete idx p c : hasCompleteBlock (mid idx p c 24) = true. Proof. done. Qed.
Lemma mid16_complete idx p c : hasCompleteBlock (mid idx p c 16) = true. Proof. done. Qed.
#[export] Hint Rewrite full_complete full_log full_sealed full_time half_incomplete mid24_log mid16_log
  mid24_complete mid16_complete : logs.
