(* ===== verification/LogRead.v ===== *)
(** * Reading the log database

    The loops of the iterator on the entries of a history. *)

From stdpp Require Import base gmap sets list.
From S2P Require Import Prelude EthTypes EntryDB FromDA DepSet CrossGraph LogDB LogCodec LogStream.

(** [read lem Hall] runs one iteration of a loop with the lemma for the next
    entry; [Hall] says what the entries are. *)
Ltac solve_all Hall := rewrite Hall; unfold repeat_entries, seal_entries, log_entries; cbn [app]; by rewrite <-?app_assoc.

Ltac eval_type :=
  repeat match goal with
  | |- context [?a =? TypeInitiatingEvent] =>
      let v := eval vm_compute in (a =? TypeInitiatingEvent) in change (a =? TypeInitiatingEvent) with v
  | |- context [?a =? TypeSearchCheckpoint] =>
      let v := eval vm_compute in (a =? TypeSearchCheckpoint) in change (a =? TypeSearchCheckpoint) with v
  end.

Ltac read_with lem Hall :=
  erewrite lem by first [solve_all Hall | eassumption | reflexivity | by left | by right | done];
  cbn [rbind]; autorewrite with logs; eval_type; cbn [negb orb].

(** The entries a constructor of [stream] adds, as a stream of their own. *)
Lemma stream_pad p : stream p [] [OPadding].
Proof. constructor. constructor. Qed.
Lemma stream_repeat p : stream p [] (repeat_entries p).
Proof. apply (st_repeat p [] []). constructor. Qed.
Lemma stream_seal p par h n t : stream p [EvSeal par h n t] (seal_entries h n t).
Proof. apply (st_seal p par h n t [] []). constructor. Qed.
Lemma stream_seal2 p par h n t : stream p [EvSeal par h n t] (checkpoint n 0 t :: seal_entries h n t).
Proof. apply (st_seal2 p par h n t [] []). constructor. Qed.
Lemma stream_log p h m : stream p [EvLog h m] (log_entries h m).
Proof. rewrite <-(app_nil_r (log_entries h m)). apply (st_log p h m [] []). constructor. Qed.

Section loops.
Context {St : Type} {ES : EntryStore St}.
Variable store : St.
Variable all : list EntryObj.
Hypothesis Hreads : reads store all.

Abbreviation at_ pre := (Z.of_nat (length pre)).

(** The log of a context after a repeated checkpoint. *)
Definition kept (p : pos) (c : cur_log) : cur_log := if p_since p =? 0 then no_log else c.

Lemma pos_eta p : {| p_hash := p_hash p; p_num := p_num p; p_time := p_time p; p_since := p_since p |} = p.
Proof. by destruct p. Qed.

(** *** One constructor of the stream, for [NextInitMsg] *)

Lemma init_pad fuel pre rest p c : all = pre ++ OPadding :: rest ->
  NextInitMsg_loop store (S fuel) false (full (at_ pre) p c) =
  NextInitMsg_loop store fuel false (full (at_ (pre ++ [OPadding])) p c).
Proof. intros Hall. cbn [NextInitMsg_loop]. read_with (next_padding store all Hreads pre rest p c) Hall. done. Qed.

Lemma init_repeat fuel pre rest p c : all = pre ++ repeat_entries p ++ rest -> pos_ok p ->
  NextInitMsg_loop store (S (S fuel)) false (full (at_ pre) p c) =
  NextInitMsg_loop store fuel false (full (at_ (pre ++ repeat_entries p)) p (kept p c)).
Proof.
  intros Hall (Hh & Hn & Ht & Hs). cbn [NextInitMsg_loop].
  read_with (next_checkpoint store all Hreads pre (OCanonicalHash (p_hash p) :: rest)) Hall.
  set (chk := checkpoint (p_num p) (p_since p) (p_time p)).
  read_with (next_canonical store all Hreads (pre ++ [chk]) rest) Hall.
  rewrite pos_eta, <-app_assoc. by destruct c.
Qed.

Lemma init_seal fuel pre rest p par h n t c : all = pre ++ seal_entries h n t ++ rest -> ev_ok p (EvSeal par h n t) ->
  NextInitMsg_loop store (S (S fuel)) false (full (at_ pre) p c) =
  NextInitMsg_loop store fuel false (full (at_ (pre ++ seal_entries h n t)) (adv p (EvSeal par h n t)) no_log).
Proof.
  intros Hall (_ & _ & _ & Hh & _ & Hn & Ht). cbn [NextInitMsg_loop].
  read_with (next_checkpoint store all Hreads pre (OCanonicalHash h :: rest)) Hall.
  read_with (next_canonical store all Hreads (pre ++ [checkpoint n 0 t]) rest) Hall.
  by rewrite <-app_assoc.
Qed.

Lemma init_seal2 fuel pre rest p par h n t c : all = pre ++ checkpoint n 0 t :: seal_entries h n t ++ rest ->
  ev_ok p (EvSeal par h n t) ->
  NextInitMsg_loop store (S (S (S fuel))) false (full (at_ pre) p c) =
  NextInitMsg_loop store fuel false
    (full (at_ (pre ++ checkpoint n 0 t :: seal_entries h n t)) (adv p (EvSeal par h n t)) no_log).
Proof.
  intros Hall (_ & _ & _ & Hh & _ & Hn & Ht). cbn [NextInitMsg_loop].
  read_with (next_checkpoint store all Hreads pre (checkpoint n 0 t :: OCanonicalHash h :: rest)) Hall.
  read_with (next_checkpoint store all Hreads (pre ++ [checkpoint n 0 t]) (OCanonicalHash h :: rest)) Hall.
  read_with (next_canonical store all Hreads ((pre ++ [checkpoint n 0 t]) ++ [checkpoint n 0 t]) rest) Hall.
  by rewrite <-!app_assoc.
Qed.

Lemma init_log fuel pre rest p h m c : all = pre ++ log_entries h m ++ rest -> ev_ok p (EvLog h m) ->
  (3 <= fuel)%nat -> NextInitMsg_loop store fuel false (full (at_ pre) p c) =
    Ok (full (at_ (pre ++ log_entries h m)) (adv p (EvLog h m)) (h, m)).
Proof.
  intros Hall (Hh & Hs & Hm) Hf. destruct fuel as [|[|[|fuel]]]; [lia..|]. cbn [NextInitMsg_loop].
  destruct m as [m|]; unfold log_entries in *.
  - read_with (next_exec_event store all Hreads pre (OExecutingLink (link_of_msg m) :: OExecutingCheck (em_Hash m) :: rest)) Hall.
    set (o := OInitiatingEvent _) in *.
    read_with (next_exec_link store all Hreads (pre ++ [o]) (OExecutingCheck (em_Hash m) :: rest) p h m) Hall.
    read_with (next_check store all Hreads ((pre ++ [o]) ++ [OExecutingLink (link_of_msg m)]) rest) Hall.
    by rewrite <-!app_assoc.
  - read_with (next_event store all Hreads pre rest p c h) Hall. done.
Qed.

(** [NextInitMsg] passes seals and stops after the first log. *)
Lemma NextInitMsg_stream p evs rest : stream p evs rest -> chain p evs -> pos_ok p ->
  forall fuel (pre : list EntryObj) c, all = pre ++ rest -> (length rest + 2 < fuel)%nat ->
  (exists seals h m evs' mid rest', Forall seal_ev seals /\ move p evs rest (seals ++ [EvLog h m]) evs' mid rest' /\
     NextInitMsg_loop store fuel false (full (at_ pre) p c) =
       Ok (full (at_ (pre ++ mid)) (advs p (seals ++ [EvLog h m])) (h, m))) \/
  (Forall seal_ev evs /\ NextInitMsg_loop store fuel false (full (at_ pre) p c) = Err ErrFuture).
Proof.
  intros Hs. induction Hs as [p|p evs es Hs IH|p evs es Hs IH|p par h n t evs es Hs IH|p par h n t evs es Hs IH|p h m evs es Hs IH];
    intros Hc Hp fuel pre c Hall Hf; destruct fuel as [|[|[|fuel]]]; try (simpl in Hf; lia).
  - right. split; [constructor|]. cbn [NextInitMsg_loop]. rewrite (next_end store all Hreads); [done|].
    rewrite Hall, app_nil_r. done.
  - rewrite (init_pad (S (S fuel)) pre es p c Hall).
    destruct (IH Hc Hp (S (S fuel)) (pre ++ [OPadding]) c) as [(seals & h & m & evs' & mid & rest' & Hf1 & Hmv & Heq)|[Hf1 Heq]];
      [solve_all Hall|simpl in Hf; lia| |by right].
    left. exists seals, h, m, evs', (OPadding :: mid), rest'. split; [done|].
    split; [by apply (move_step p [] [OPadding] evs es _ _ _ _ (stream_pad p))|]. by rewrite Heq, <-app_assoc.
  - rewrite (init_repeat (S fuel) pre es p c Hall Hp).
    destruct (IH Hc Hp (S fuel) (pre ++ repeat_entries p) (kept p c)) as [(seals & h & m & evs' & mid & rest' & Hf1 & Hmv & Heq)|[Hf1 Heq]];
      [solve_all Hall|simpl in Hf; lia| |by right].
    left. exists seals, h, m, evs', (repeat_entries p ++ mid), rest'. split; [done|].
    split; [by apply (move_step p [] (repeat_entries p) evs es _ _ _ _ (stream_repeat p))|]. by rewrite Heq, <-app_assoc.
  - inversion_clear Hc as [|? ? ? He Hc']. rewrite (init_seal (S fuel) pre es p par h n t c Hall He).
    destruct (IH Hc' (pos_ok_adv _ _ Hp He) (S fuel) (pre ++ seal_entries h n t) no_log) as [(seals & h' & m & evs' & mid & rest' & Hf1 & Hmv & Heq)|[Hf1 Heq]];
      [solve_all Hall|simpl in Hf; lia| |right; by split; [constructor|]].
    left. exists (EvSeal par h n t :: seals), h', m, evs', (seal_entries h n t ++ mid), rest'. split; [by constructor|].
    split; [by apply (move_step p [EvSeal par h n t] (seal_entries h n t) evs es _ _ _ _ (stream_seal p par h n t))|].
    by rewrite Heq, <-app_assoc.
  - inversion_clear Hc as [|? ? ? He Hc']. rewrite (init_seal2 fuel pre es p par h n t c Hall He).
    destruct (IH Hc' (pos_ok_adv _ _ Hp He) fuel (pre ++ checkpoint n 0 t :: seal_entries h n t) no_log) as [(seals & h' & m & evs' & mid & rest' & Hf1 & Hmv & Heq)|[Hf1 Heq]];
      [solve_all Hall|simpl in Hf; lia| |right; by split; [constructor|]].
    left. exists (EvSeal par h n t :: seals), h', m, evs', ((checkpoint n 0 t :: seal_entries h n t) ++ mid), rest'. split; [by constructor|].
    split; [by apply (move_step p [EvSeal par h n t] (checkpoint n 0 t :: seal_entries h n t) evs es _ _ _ _ (stream_seal2 p par h n t))|].
    by rewrite Heq, <-app_assoc.
  - inversion_clear Hc as [|? ? ? He Hc']. rewrite (init_log (S (S (S fuel))) pre es p h m c Hall He) by lia.
    left. exists [], h, m, evs, (log_entries h m), es. split; [constructor|].
    split; [|done]. split; [done|done|apply stream_log|done].
Qed.

(** *** The same for [NextBlock] *)

Lemma block_pad fuel pre rest p c : all = pre ++ OPadding :: rest ->
  NextBlock_loop store (S fuel) false (full (at_ pre) p c) =
  NextBlock_loop store fuel false (full (at_ (pre ++ [OPadding])) p c).
Proof. intros Hall. cbn [NextBlock_loop]. read_with (next_padding store all Hreads pre rest p c) Hall. done. Qed.

Lemma block_log fuel pre rest p h m c : all = pre ++ log_entries h m ++ rest -> ev_ok p (EvLog h m) ->
  NextBlock_loop store (length (log_entries h m) + fuel) false (full (at_ pre) p c) =
  NextBlock_loop store fuel false (full (at_ (pre ++ log_entries h m)) (adv p (EvLog h m)) (h, m)).
Proof.
  intros Hall (Hh & Hs & Hm). destruct m as [m|]; unfold log_entries in *; cbn [NextBlock_loop length plus].
  - read_with (next_exec_event store all Hreads pre (OExecutingLink (link_of_msg m) :: OExecutingCheck (em_Hash m) :: rest)) Hall.
    set (o := OInitiatingEvent _) in *.
    read_with (next_exec_link store all Hreads (pre ++ [o]) (OExecutingCheck (em_Hash m) :: rest) p h m) Hall.
    read_with (next_check store all Hreads ((pre ++ [o]) ++ [OExecutingLink (link_of_msg m)]) rest) Hall.
    by rewrite <-!app_assoc.
  - read_with (next_event store all Hreads pre rest p c h) Hall. done.
Qed.

(** A checkpoint with its hash stops it; the context before matters only
    for the current log. *)
Lemma block_stop fuel pre rest l num since time h : all = pre ++ [checkpoint num since time; OCanonicalHash h] ++ rest ->
  nextEntryIndex l = at_ pre -> lc_out l = [] -> lc_need l = 0 \/ lc_need l = 2 ->
  is_u64 num -> is_u32 since -> is_u64 time -> is_hash h ->
  NextBlock_loop store (S (S fuel)) false l =
    Ok (full (at_ (pre ++ [checkpoint num since time; OCanonicalHash h]))
          {| p_hash := h; p_num := num; p_time := time; p_since := since |}
          (if since =? 0 then no_log else (lc_logHash l, lc_execMsg l))).
Proof.
  intros Hall Hidx Hout Hneed Hn Hs Ht Hh. cbn [NextBlock_loop].
  rewrite (next_checkpoint store all Hreads pre (OCanonicalHash h :: rest) l num since time) by done.
  cbn [rbind]. autorewrite with logs. eval_type. cbn [negb orb].
  read_with (next_canonical store all Hreads (pre ++ [checkpoint num since time]) rest) Hall.
  by rewrite <-app_assoc.
Qed.

Lemma block_stop2 fuel pre rest l num time h :
  all = pre ++ [checkpoint num 0 time; checkpoint num 0 time; OCanonicalHash h] ++ rest ->
  nextEntryIndex l = at_ pre -> lc_out l = [] -> lc_need l = 0 \/ lc_need l = 2 ->
  is_u64 num -> is_u64 time -> is_hash h ->
  NextBlock_loop store (S (S (S fuel))) false l =
    Ok (full (at_ (pre ++ [checkpoint num 0 time; checkpoint num 0 time; OCanonicalHash h]))
          {| p_hash := h; p_num := num; p_time := time; p_since := 0 |} no_log).
Proof.
  intros Hall Hidx Hout Hneed Hn Ht Hh. cbn [NextBlock_loop].
  rewrite (next_checkpoint store all Hreads pre (checkpoint num 0 time :: OCanonicalHash h :: rest) l num 0 time) by done.
  cbn [rbind]. autorewrite with logs. eval_type. cbn [negb orb].
  read_with (next_checkpoint store all Hreads (pre ++ [checkpoint num 0 time]) (OCanonicalHash h :: rest)) Hall.
  read_with (next_canonical store all Hreads ((pre ++ [checkpoint num 0 time]) ++ [checkpoint num 0 time]) rest) Hall.
  by rewrite <-!app_assoc.
Qed.

(** [NextBlock] passes logs and stops at a repeated checkpoint or after the
    next seal. *)
Definition block_shape (done : list event) : Prop :=
  exists logs, Forall log_ev logs /\ (done = logs \/ exists e, seal_ev e /\ done = logs ++ [e]).

Lemma block_shape_cons h m done : block_shape done -> block_shape (EvLog h m :: done).
Proof.
  intros (logs & Hl & [-> |(e & He & ->)]); exists (EvLog h m :: logs).
  - split; [by constructor|by left].
  - split; [by constructor|]. right. by exists e.
Qed.

Definition ends_hash (es : list EntryObj) : Prop := exists es0 h, es = es0 ++ [OCanonicalHash h].

Lemma ends_hash_app a b : ends_hash b -> ends_hash (a ++ b).
Proof. intros (es0 & h & ->). exists (a ++ es0), h. by rewrite app_assoc. Qed.

Lemma ends_hash_seal h n t : ends_hash (seal_entries h n t).
Proof. by exists [checkpoint n 0 t], h. Qed.

Lemma ends_hash_length es : ends_hash es -> (0 < length es)%nat.
Proof. intros (es0 & h & ->). rewrite length_app. simpl. lia. Qed.

Lemma NextBlock_stream p evs rest : stream p evs rest -> chain p evs -> pos_ok p ->
  forall fuel (pre : list EntryObj) c, all = pre ++ rest -> (length rest + 2 < fuel)%nat ->
  (exists done evs' mid rest' c', block_shape done /\ move p evs rest done evs' mid rest' /\ ends_hash mid /\
     NextBlock_loop store fuel false (full (at_ pre) p c) = Ok (full (at_ (pre ++ mid)) (advs p done) c')) \/
  (Forall log_ev evs /\ NextBlock_loop store fuel false (full (at_ pre) p c) = Err ErrFuture).
Proof.
  intros Hs. induction Hs as [p|p evs es Hs IH|p evs es Hs IH|p par h n t evs es Hs IH|p par h n t evs es Hs IH|p h m evs es Hs IH];
    intros Hc Hp fuel pre c Hall Hf.
  1-5: destruct fuel as [|[|[|fuel]]]; try (simpl in Hf; lia).
  - right. split; [constructor|]. cbn [NextBlock_loop]. rewrite (next_end store all Hreads); [done|].
    rewrite Hall, app_nil_r. done.
  - rewrite (block_pad (S (S fuel)) pre es p c Hall).
    destruct (IH Hc Hp (S (S fuel)) (pre ++ [OPadding]) c) as [(done & evs' & mid & rest' & c' & Hsh & Hmv & Hne & Heq)|[Hf1 Heq]];
      [solve_all Hall|simpl in Hf; lia| |by right].
    left. exists done, evs', (OPadding :: mid), rest', c'. split; [done|].
    split; [by apply (move_step p [] [OPadding] evs es _ _ _ _ (stream_pad p))|]. split; [by apply (ends_hash_app [OPadding])|]. by rewrite Heq, <-app_assoc.
  - left. exists [], evs, (repeat_entries p), es. eexists. split; [exists []; split; [constructor|by left]|].
    split; [split; [done|done|apply stream_repeat|done]|]. split; [by exists [checkpoint (p_num p) (p_since p) (p_time p)], (p_hash p)|]. destruct Hp as (Hh & Hn & Ht & Hsi).
    rewrite (block_stop (S fuel) pre es _ (p_num p) (p_since p) (p_time p) (p_hash p)) by (done || by left).
    rewrite pos_eta. done.
  - inversion_clear Hc as [|? ? ? He Hc']. destruct He as (_ & _ & _ & Hh & _ & Hn & Ht).
    left. exists [EvSeal par h n t], evs, (seal_entries h n t), es. eexists.
    split; [exists []; split; [apply Forall_nil_2|right; by exists (EvSeal par h n t)]|].
    split; [split; [done|done|apply stream_seal|done]|]. split; [apply ends_hash_seal|].
    rewrite (block_stop (S fuel) pre es _ n 0 t h) by (done || by left). done.
  - inversion_clear Hc as [|? ? ? He Hc']. destruct He as (_ & _ & _ & Hh & _ & Hn & Ht).
    left. exists [EvSeal par h n t], evs, (checkpoint n 0 t :: seal_entries h n t), es. eexists.
    split; [exists []; split; [apply Forall_nil_2|right; by exists (EvSeal par h n t)]|].
    split; [split; [done|done|apply stream_seal2|done]|]. split; [apply (ends_hash_app [_]), ends_hash_seal|].
    rewrite (block_stop2 fuel pre es _ n t h) by (done || by left). done.
  - inversion_clear Hc as [|? ? ? He Hc']. rewrite length_app in Hf.
    replace fuel with (length (log_entries h m) + (fuel - length (log_entries h m)))%nat by lia.
    rewrite (block_log _ pre es p h m c Hall He).
    destruct (IH Hc' (pos_ok_adv _ _ Hp He) (fuel - length (log_entries h m))%nat (pre ++ log_entries h m) (h, m))
      as [(done & evs' & mid & rest' & c' & Hsh & Hmv & Hne & Heq)|[Hf1 Heq]];
      [by rewrite <-app_assoc|lia| |right; by split; [constructor|]].
    left. exists (EvLog h m :: done), evs', (log_entries h m ++ mid), rest', c'. split; [by apply block_shape_cons|].
    split; [by apply (move_step p [EvLog h m] (log_entries h m) evs es _ _ _ _ (stream_log p h m))|].
    split; [by apply ends_hash_app|]. by rewrite Heq, <-app_assoc.
Qed.

(** ** Walking to a position *)

Section walk.
Variables (b l : Z).

Lemma walk_blocks_stream fuel : forall p evs rest (pre : list EntryObj) c,
  stream p evs rest -> chain p evs -> pos_ok p -> all = pre ++ rest -> (2 <= length pre)%nat ->
  (length rest < fuel)%nat -> p_num p <= b ->
  (exists done evs' mid rest' c', move p evs rest done evs' mid rest' /\ p_num (advs p done) = b /\
     (done = [] \/ p_since (advs p done) = 0) /\ (mid = [] \/ ends_hash mid) /\
     walk_blocks store fuel b (full (at_ pre) p c) = Ok (full (at_ (pre ++ mid)) (advs p done) c')) \/
  (p_num (advs p evs) < b /\ walk_blocks store fuel b (full (at_ pre) p c) = Err ErrFuture).
Proof.
  induction fuel as [|fuel IH]; intros p evs rest pre c Hs Hc Hp Hall Hpre Hf Hb; [lia|]. cbn [walk_blocks].
  autorewrite with logs. destruct (Z.eqb_spec (p_num p) b) as [Heq|Hne].
  { left. exists [], evs, [], rest, c. split; [by apply move_refl|]. split; [done|]. split; [by left|].
    split; [by left|]. by rewrite app_nil_r. }
  assert (length rest + 2 < it_fuel store)%nat as Hfu.
  { pose proof (fuel_enough store all Hreads pre rest Hall). destruct Hreads as (Hsz & _). unfold it_fuel in *.
    rewrite Hsz, Hall, length_app in *. lia. }
  unfold NextBlock.
  destruct (NextBlock_stream p evs rest Hs Hc Hp (it_fuel store) pre c Hall Hfu)
    as [(done & evs1 & mid1 & rest1 & c1 & Hsh & Hmv & Hne1 & ->)|[Hlog ->]].
  2: { right. split; [|done]. rewrite logs_num by done. lia. }
  autorewrite with logs. pose proof Hmv as [-> -> Hd Hr]. apply chain_app in Hc as [Hc1 Hc2].
  assert (pos_ok (advs p done)) as Hp1 by by apply chain_pos_ok.
  assert (p_num (advs p done) <= b /\ (p_num (advs p done) = b -> p_since (advs p done) = 0)) as [Hle Hz].
  { destruct Hsh as (logs & Hlogs & [-> |(e & He & ->)]); [rewrite logs_num by done; lia|].
    apply chain_app in Hc1 as [_ Hce]. inversion_clear Hce as [|? ? ? He1 _]. rewrite advs_app.
    destruct e as [par h n t|]; [|done]. destruct He1 as (_ & Hn & _). rewrite logs_num in Hn by done. simpl. lia. }
  destruct (Z.ltb_spec (p_num (advs p done)) b) as [Hlt|Hge].
  - destruct (IH (advs p done) evs1 rest1 (pre ++ mid1) c1) as [(d2 & evs2 & m2 & r2 & c2 & Hmv2 & Hn2 & Hs2 & He2 & ->)|[Hlt2 ->]]; try done.
    + by rewrite <-app_assoc.
    + rewrite length_app. lia.
    + rewrite length_app in Hf. apply ends_hash_length in Hne1. lia.
    + left. exists (done ++ d2), evs2, (mid1 ++ m2), r2, c2. split; [by eapply move_trans|].
      rewrite advs_app, app_assoc. split; [done|]. split; [|split; [|done]].
      * right. destruct Hs2 as [-> |Hs2]; [simpl in Hn2; lia|done].
      * right. destruct He2 as [-> |He2]; [by rewrite app_nil_r|by apply ends_hash_app].
    + right. rewrite advs_app. done.
  - left. exists done, evs1, mid1, rest1, c1. destruct (Z.eqb_spec (p_num (advs p done)) b) as [Heq|]; [|lia].
    split; [done|]. split; [done|]. split; [right; auto|]. split; [by right|done].
Qed.

Lemma walk_logs_stream fuel : forall p evs rest (pre : list EntryObj) c,
  stream p evs rest -> chain p evs -> pos_ok p -> all = pre ++ rest -> (2 <= length pre)%nat ->
  (length rest < fuel)%nat -> p_num p = b -> p_since p <= l ->
  (exists done evs' mid rest' c', move p evs rest done evs' mid rest' /\ p_num (advs p done) = b /\
     p_since (advs p done) = l /\
     walk_logs store fuel b l (full (at_ pre) p c) = Ok (full (at_ (pre ++ mid)) (advs p done) c')) \/
  (no_pos p evs b l /\ exists e, walk_logs store fuel b l (full (at_ pre) p c) = Err e).
Proof.
  induction fuel as [|fuel IH]; intros p evs rest pre c Hs Hc Hp Hall Hpre Hf Hb Hl; [lia|]. cbn [walk_logs].
  change (lc_logsSince (full (at_ pre) p c)) with (p_since p).
  destruct (Z.ltb_spec (p_since p) l) as [Hlt|Hge]; cbn [negb].
  2: { left. exists [], evs, [], rest, c. split; [by apply move_refl|]. split; [done|]. split; [simpl; lia|].
       by rewrite app_nil_r. }
  assert (length rest + 2 < it_fuel store)%nat as Hfu.
  { pose proof (fuel_enough store all Hreads pre rest Hall). destruct Hreads as (Hsz & _). unfold it_fuel in *.
    rewrite Hsz, Hall, length_app in *. lia. }
  unfold NextInitMsg.
  destruct (NextInitMsg_stream p evs rest Hs Hc Hp (it_fuel store) pre c Hall Hfu)
    as [(seals & h & m & evs1 & mid1 & rest1 & Hseals & Hmv & ->)|[Hseal ->]].
  2: { right. split; [|by eexists]. destruct evs as [|e evs].
       - intros done evs' Heq _ Hl'. symmetry in Heq. apply app_eq_nil in Heq as [-> ->]. simpl in Hl'. lia.
       - apply no_pos_cons; [|lia]. inversion_clear Hc as [|? ? ? He Hc']. apply no_pos_past; [done|].
         apply Forall_cons_1 in Hseal as [He' _]. destruct e; [|done]. destruct He as (_ & Hn & _). simpl. lia. }
  autorewrite with logs. pose proof Hmv as [-> -> Hd Hr]. destruct seals as [|e seals].
  - simpl app in *. cbn [advs foldl adv] in *. change (p_num (with_since p (p_since p + 1))) with (p_num p).
    rewrite Hb, Z.ltb_irrefl. inversion_clear Hc as [|? ? ? He Hc'].
    pose proof (pos_ok_adv _ _ Hp He) as Hp1. pose proof Hp1 as (_ & _ & _ & Hu). simpl in Hu.
    unfold InitMessage, hasReadableLog. autorewrite with logs.
    change (lc_logsSince (full _ (with_since p (p_since p + 1)) (h, m))) with (p_since p + 1).
    destruct Hp as (_ & _ & _ & Hu0). unfold is_u32 in Hu, Hu0.
    destruct (Z.ltb_spec 0 (p_since p + 1)); [|lia]. cbn [negb andb].
    assert (u32 (p_since p + 1 - 1 + 1) = p_since p + 1) as ->.
    { unfold u32. rewrite Z.mod_small; lia. }
    destruct (Z.ltb_spec (p_since p + 1) l) as [Hlt2|Hge2].
    + destruct (IH (adv p (EvLog h m)) evs1 rest1 (pre ++ mid1) (h, m)) as [(d2 & evs2 & m2 & r2 & c2 & Hmv2 & Hn2 & Hs2 & Heq)|[Hno [e Heq]]]; try done.
      * by rewrite <-app_assoc.
      * rewrite length_app. lia.
      * rewrite length_app in Hf. inversion Hd; subst; simpl in *; try lia.
        all: destruct m; simpl in *; lia.
      * simpl. lia.
      * left. exists (EvLog h m :: d2), evs2, (mid1 ++ m2), r2, c2.
        split; [by apply (move_trans _ _ _ [EvLog h m] evs1 mid1 rest1)|]. split; [done|]. split; [done|].
        cbn [advs foldl] in Heq. cbn [adv] in Heq. rewrite Heq, app_assoc. done.
      * right. split; [|exists e; done]. apply no_pos_cons; [done|lia].
    + left. exists [EvLog h m], evs1, mid1, rest1, (h, m). destruct (Z.eqb_spec (p_since p + 1) l); [|lia].
      split; [done|]. split; [done|]. split; done.
  - right. assert (b < p_num (advs p ((e :: seals) ++ [EvLog h m]))) as Hlt'.
    { apply chain_app in Hc as [Hc1 _]. inversion_clear Hc1 as [|? ? ? He Hc'].
      apply Forall_cons_1 in Hseals as [He' _]. destruct e; [|done]. destruct He as (_ & Hn & _).
      apply chain_num in Hc'. simpl in *. lia. }
    rewrite (proj2 (Z.ltb_lt _ _) Hlt'). split; [|by eexists].
    simpl app. apply no_pos_cons; [|lia]. simpl app in Hc. inversion_clear Hc as [|? ? ? He Hc']. apply no_pos_past; [done|].
    apply Forall_cons_1 in Hseals as [He' _]. destruct e; [|done]. destruct He as (_ & Hn & _). simpl. lia.
Qed.
End walk.
End loops.
