(* ===== verification/LogSearch.v ===== *)
(** * Searching the log database

    From the checkpoint that the bisection finds, [newIteratorAt] reaches the
    position of the history it was asked for, or fails when the history has
    no such position. *)

From stdpp Require Import base gmap sets list.
From S2P Require Import Prelude EthTypes EntryDB FromDA DepSet CrossGraph LogDB LogCodec LogStream LogRead.

(** Reading from a checkpoint on, wherever it is in the stream, leads to a
    position of the history. *)
Definition at_checkpoint (mid : list EntryObj) (i : nat) (num since time h : Z) : Prop :=
  (drop i mid = [checkpoint num since time; OCanonicalHash h] \/
   (since = 0 /\ drop i mid = [checkpoint num 0 time; checkpoint num 0 time; OCanonicalHash h])) /\ (i <= length mid)%nat.

Lemma checkpoint_shift p d1 m1 evs1 es1 dn evs' mid rest' i num since time h : stream p d1 m1 ->
  move (advs p d1) evs1 es1 dn evs' mid rest' -> at_checkpoint mid i num since time h ->
  move p (d1 ++ evs1) (m1 ++ es1) (d1 ++ dn) evs' (m1 ++ mid) rest' /\
  at_checkpoint (m1 ++ mid) (length m1 + i) num since time h.
Proof.
  intros Hd Hm [Hat Hle]. split; [by apply move_step|]. unfold at_checkpoint.
  rewrite drop_app_add, length_app. split; [done|lia].
Qed.

Lemma stream_checkpoint p evs es : stream p evs es -> forall i num since time,
  es !! i = Some (checkpoint num since time) ->
  exists done evs' mid rest' h, move p evs es done evs' mid rest' /\ at_checkpoint mid i num since time h /\
    advs p done = {| p_hash := h; p_num := num; p_time := time; p_since := since |}.
Proof.
  intros Hs. induction Hs as [p|p evs es Hs IH|p evs es Hs IH|p par h n t evs es Hs IH|p par h n t evs es Hs IH|p h m evs es Hs IH];
    intros i num since time Hi.
  - by rewrite lookup_nil in Hi.
  - destruct i as [|i]; [done|]. destruct (IH i num since time Hi) as (done & evs' & mid & rest' & h & Hmv & Hat & Had).
    destruct (checkpoint_shift p [] [OPadding] evs es done evs' mid rest' i num since time h (stream_pad p) Hmv Hat) as [Hmv' Hat'].
    by exists done, evs', (OPadding :: mid), rest', h.
  - destruct i as [|[|i]]; [|done|].
    + injection Hi as <- <- <-. exists [], evs, (repeat_entries p), es, (p_hash p).
      split; [split; [done|done|apply stream_repeat|done]|]. split; [split; [by left|simpl; lia]|]. by destruct p.
    + destruct (IH i num since time Hi) as (done & evs' & mid & rest' & h & Hmv & Hat & Had).
      destruct (checkpoint_shift p [] (repeat_entries p) evs es done evs' mid rest' i num since time h (stream_repeat p) Hmv Hat) as [Hmv' Hat'].
      by exists done, evs', (repeat_entries p ++ mid), rest', h.
  - destruct i as [|[|i]]; [|done|].
    + injection Hi as <- <- <-. exists [EvSeal par h n t], evs, (seal_entries h n t), es, h.
      split; [split; [done|done|apply stream_seal|done]|]. split; [split; [by left|simpl; lia]|]. done.
    + destruct (IH i num since time Hi) as (done & evs' & mid & rest' & h' & Hmv & Hat & Had).
      destruct (checkpoint_shift p [EvSeal par h n t] (seal_entries h n t) evs es done evs' mid rest' i num since time h' (stream_seal p par h n t) Hmv Hat) as [Hmv' Hat'].
      by exists (EvSeal par h n t :: done), evs', (seal_entries h n t ++ mid), rest', h'.
  - destruct i as [|[|[|i]]]; [| |done|].
    + injection Hi as <- <- <-. exists [EvSeal par h n t], evs, (checkpoint n 0 t :: seal_entries h n t), es, h.
      split; [split; [done|done|apply stream_seal2|done]|]. split; [split; [by right|simpl; lia]|]. done.
    + injection Hi as <- <- <-. exists [EvSeal par h n t], evs, (checkpoint n 0 t :: seal_entries h n t), es, h.
      split; [split; [done|done|apply stream_seal2|done]|]. split; [split; [by left|simpl; lia]|]. done.
    + destruct (IH i num since time Hi) as (done & evs' & mid & rest' & h' & Hmv & Hat & Had).
      destruct (checkpoint_shift p [EvSeal par h n t] (checkpoint n 0 t :: seal_entries h n t) evs es done evs' mid rest' i num since time h' (stream_seal2 p par h n t) Hmv Hat) as [Hmv' Hat'].
      by exists (EvSeal par h n t :: done), evs', ((checkpoint n 0 t :: seal_entries h n t) ++ mid), rest', h'.
  - destruct (decide (i < length (log_entries h m))%nat) as [Hlt|Hge].
    + rewrite lookup_app_l in Hi by done. destruct m; destruct i as [|[|[|i]]]; try done; simpl in Hlt; lia.
    + rewrite lookup_app_r in Hi by lia.
      destruct (IH _ num since time Hi) as (done & evs' & mid & rest' & h' & Hmv & Hat & Had).
      destruct (checkpoint_shift p [EvLog h m] (log_entries h m) evs es done evs' mid rest' _ num since time h' (stream_log p h m) Hmv Hat) as [Hmv' Hat'].
      replace (length (log_entries h m) + (i - length (log_entries h m)))%nat with i in Hat' by lia.
      by exists (EvLog h m :: done), evs', (log_entries h m ++ mid), rest', h'.
Qed.

(** ** A database that holds a history

    [p1] is the first sealed block; every 256th entry is a checkpoint. *)
Record holds_history (all : list EntryObj) (p1 : pos) (evs : list event) : Prop := {
  hh_stream : stream p1 evs all;
  hh_chain : chain p1 evs;
  hh_pos : pos_ok p1;
  hh_first : p_since p1 = 0;
  hh_head : exists h, all !! 0%nat = Some (checkpoint (p_num p1) 0 (p_time p1)) /\ all !! 1%nat = Some (OCanonicalHash h);
  hh_checkpoints i : (256 * i < length all)%nat -> exists num since time, all !! (256 * i)%nat = Some (checkpoint num since time) }.

Section search.
Context {St : Type} {ES : EntryStore St}.
Variable store : St.
Variable all : list EntryObj.
Hypothesis Hreads : reads store all.
Variables (p1 : pos) (evs : list event).
Hypothesis Hh : holds_history all p1 evs.

Abbreviation at_ pre := (Z.of_nat (length pre)).

Lemma checkpoint_ok i num since time : all !! i = Some (checkpoint num since time) ->
  is_u64 num /\ is_u32 since /\ is_u64 time.
Proof.
  intros Hi. destruct Hh as [Hs Hc Hp _ _ _].
  destruct (stream_checkpoint p1 evs all Hs i num since time Hi) as (done & evs' & mid & rest' & h & Hmv & _ & Had).
  destruct Hmv as [-> _ _ _]. apply chain_app in Hc as [Hc _]. pose proof (chain_pos_ok _ _ Hp Hc) as Hok.
  rewrite Had in Hok. by destruct Hok as (_ & ? & ? & ?).
Qed.

Lemma read_checkpoint_at i : (256 * i < length all)%nat -> exists num since time,
  all !! (256 * i)%nat = Some (checkpoint num since time) /\
  readSearchCheckpoint store (Z.of_nat i * searchCheckpointFrequency) =
    Ok {| sc_blockNum := num; sc_logsSince := since; sc_timestamp := time |}.
Proof.
  intros Hi. destruct (hh_checkpoints _ _ _ Hh i Hi) as (num & since & time & Hl). exists num, since, time.
  split; [done|]. unfold readSearchCheckpoint. destruct Hreads as (_ & _ & Hr & _).
  replace (Z.of_nat i * searchCheckpointFrequency) with (Z.of_nat (256 * i)) by (unfold searchCheckpointFrequency; lia).
  rewrite (Hr _ _ Hl). cbn [map_err rbind]. apply decode_checkpoint. by eapply checkpoint_ok.
Qed.

(** The checkpoint at index [i] is before the target. *)
Definition chk_before (i : nat) (b l : Z) : Prop := exists num since time,
  all !! (256 * i)%nat = Some (checkpoint num since time) /\ (num < b \/ (num = b /\ since < l)).

Lemma checkpoint_search fuel b l : forall i j : nat, (i < j)%nat -> (256 * (j - 1) < length all)%nat -> (j - i <= fuel)%nat ->
  (i = 0%nat \/ chk_before i b l) ->
  exists k : nat, searchCheckpoint_loop store (S fuel) b l (Z.of_nat i) (Z.of_nat j) = Ok (Z.of_nat k) /\
    (k < j)%nat /\ (k = 0%nat \/ chk_before k b l).
Proof.
  induction fuel as [|fuel IH]; intros i j Hij Hj Hf Hi; [lia|]. cbn [searchCheckpoint_loop].
  destruct (Z.ltb_spec (Z.of_nat i + 1) (Z.of_nat j)) as [Hlt|Hge].
  - set (h := ((i + j) / 2)%nat).
    assert (i < h < j)%nat as Hh'.
    { unfold h. split; [apply Nat.div_le_lower_bound; lia|apply Nat.Div0.div_lt_upper_bound; lia]. }
    replace (Z.shiftr (Z.of_nat i + Z.of_nat j) 1) with (Z.of_nat h).
    2: { rewrite Z.shiftr_div_pow2 by lia. unfold h. rewrite Nat2Z.inj_div, Nat2Z.inj_add. done. }
    destruct (read_checkpoint_at h) as (num & since & time & Hl & ->); [lia|]. cbn [map_err rbind sc_blockNum sc_logsSince].
    destruct ((num <? b) || (num =? b) && (since <? l)) eqn:Hcmp.
    + apply (IH h j); [lia|done|lia|]. right. exists num, since, time. split; [done|].
      apply orb_true_iff in Hcmp as [?|Hcmp]; [left; lia|]. apply andb_true_iff in Hcmp as [? ?]. right. lia.
    + destruct (IH i h) as (k & Heq & Hk & Hkb); [lia|lia|lia|done|]. exists k. split; [done|]. split; [lia|done].
  - assert (j = S i) as -> by lia. destruct (Z.eqb_spec (Z.of_nat i + 1) (Z.of_nat (S i))); [|lia].
    exists i. split; [done|]. split; [lia|done].
Qed.

Lemma searchCheckpoint_spec lastIndex b l : lastIndex <> 0 ->
  (exists (k : nat) num since time, db_searchCheckpoint store lastIndex b l = Ok (Z.of_nat (256 * k)) /\
     all !! (256 * k)%nat = Some (checkpoint num since time) /\ (num < b \/ (num = b /\ since <= l))) \/
  (exists e, db_searchCheckpoint store lastIndex b l = Err (Wrap e ErrSkipped) /\
     (b < p_num p1 \/ (b = p_num p1 /\ l < 0))).
Proof.
  intros Hne. unfold db_searchCheckpoint. destruct (Z.eqb_spec lastIndex 0) as [|_]; [done|].
  destruct Hreads as (Hsz & Hlast & _ & _). rewrite Hlast.
  destruct (hh_head _ _ _ Hh) as (h0 & Hhead & _).
  assert (0 < length all)%nat as Hlen by by apply lookup_lt_Some in Hhead.
  set (n := S ((length all - 1) / 256)%nat).
  assert (Z.quot (Z.of_nat (length all) - 1) searchCheckpointFrequency + 1 = Z.of_nat n) as ->.
  { unfold n, searchCheckpointFrequency. rewrite Z.quot_div_nonneg by lia.
    rewrite Nat2Z.inj_succ, Nat2Z.inj_div, Nat2Z.inj_sub by lia. simpl. lia. }
  assert (256 * (n - 1) < length all)%nat as Hn.
  { unfold n. rewrite Nat.sub_succ, Nat.sub_0_r. pose proof (Nat.Div0.mul_div_le (length all - 1) 256). lia. }
  rewrite Nat2Z.id.
  destruct (checkpoint_search n b l 0 n) as (k & Hk & Hkn & Hkb); [unfold n; lia|done|lia|by left|].
  change (Z.of_nat 0) with 0 in Hk. rewrite Hk. cbn [rbind].
  destruct (read_checkpoint_at k) as (num & since & time & Hl & ->); [lia|]. cbn [map_err rbind sc_blockNum sc_logsSince].
  replace (Z.of_nat k * searchCheckpointFrequency) with (Z.of_nat (256 * k)) by (unfold searchCheckpointFrequency; lia).
  destruct ((b <? num) || (num =? b) && (l <? since)) eqn:Hcmp.
  - right. eexists. split; [done|]. destruct Hkb as [-> |(num' & since' & time' & Hl' & Hlt)].
    + rewrite Nat.mul_0_r, Hhead in Hl. injection Hl as <- <- <-.
      apply orb_true_iff in Hcmp as [?|Hcmp]; [left; lia|]. apply andb_true_iff in Hcmp as [? ?]. right. lia.
    + rewrite Hl in Hl'. injection Hl' as <- <- <-. apply orb_true_iff in Hcmp as [?|Hcmp]; [lia|].
      apply andb_true_iff in Hcmp as [? ?]. lia.
  - left. exists k, num, since, time. split; [done|]. split; [done|]. apply orb_false_iff in Hcmp as [? Hcmp].
    apply andb_false_iff in Hcmp as [?|?]; [left|]; lia.
Qed.

(** ** Seeking *)

Lemma blank_step fuel k num since time : all !! k = Some (checkpoint num since time) -> (2 < fuel)%nat ->
  exists dn evs' mid rest' c, move p1 evs all dn evs' mid rest' /\
    advs p1 dn = {| p_hash := p_hash (advs p1 dn); p_num := num; p_time := time; p_since := since |} /\
    (2 <= length mid)%nat /\ ends_hash mid /\
    NextBlock_loop store fuel false (need_add (lc_new (Z.of_nat k)) FlagCanonicalHash) =
      Ok (full (at_ mid) (advs p1 dn) c).
Proof.
  intros Hk Hf. destruct fuel as [|[|[|fuel]]]; [lia..|]. destruct (checkpoint_ok k num since time Hk) as (Hn & Hs & Ht).
  destruct Hh as [Hst Hc Hp _ _ _].
  destruct (stream_checkpoint p1 evs all Hst k num since time Hk) as (dn & evs' & mid & rest' & h & Hmv & [Hat Hle] & Had).
  pose proof Hmv as [Hevs Hall Hd Hr]. rewrite Hevs in Hc. apply chain_app in Hc as [Hc _].
  pose proof (chain_pos_ok _ _ Hp Hc) as (Hhash & _). rewrite Had in Hhash. simpl in Hhash.
  assert (length (take k mid) = k) as Hlen by (rewrite length_take; lia).
  exists dn, evs', mid, rest'. destruct Hat as [Hat|[-> Hat]].
  - eexists. split; [done|]. split; [by rewrite Had|].
    split; [rewrite <-(take_drop k mid), Hat, length_app; simpl; lia|].
    split; [rewrite <-(take_drop k mid), Hat; by apply ends_hash_app; exists [checkpoint num since time], h|].
    rewrite (block_stop store all Hreads (S fuel) (take k mid) rest' _ num since time h); try done.
    + rewrite Had. rewrite <-Hat, take_drop. done.
    + by rewrite app_assoc, <-Hat, take_drop.
    + simpl. by rewrite Hlen.
    + by right.
  - eexists. split; [done|]. split; [by rewrite Had|].
    split; [rewrite <-(take_drop k mid), Hat, length_app; simpl; lia|].
    split; [rewrite <-(take_drop k mid), Hat; by apply ends_hash_app; exists [checkpoint num 0 time; checkpoint num 0 time], h|].
    rewrite (block_stop2 store all Hreads fuel (take k mid) rest' _ num time h); try done.
    + rewrite Had. rewrite <-Hat, take_drop. done.
    + by rewrite app_assoc, <-Hat, take_drop.
    + simpl. by rewrite Hlen.
    + by right.
Qed.

Lemma seek_block lastIndex b l : lastIndex <> 0 -> 0 <= l ->
  (exists dn evs' mid rest' c, move p1 evs all dn evs' mid rest' /\ p_num (advs p1 dn) = b /\
     p_since (advs p1 dn) <= l /\ (2 <= length mid)%nat /\ ends_hash mid /\
     newIteratorAt store lastIndex b l = walk_logs store (it_fuel store) b l (full (at_ mid) (advs p1 dn) c)) \/
  (p_num (advs p1 evs) < b /\ newIteratorAt store lastIndex b l = Err ErrFuture) \/
  (b < p_num p1 /\ exists e, newIteratorAt store lastIndex b l = Err (Wrap e ErrSkipped)).
Proof.
  intros Hne Hl. unfold newIteratorAt.
  destruct (searchCheckpoint_spec lastIndex b l Hne) as [(k & num & since & time & -> & Hk & Hle)|(e & -> & Hb)].
  2: { right. right. split; [lia|]. by exists e. }
  assert (3 <= it_fuel store)%nat as Hfu.
  { destruct (hh_head _ _ _ Hh) as (h0 & _ & H1). apply lookup_lt_Some in H1. destruct Hreads as (Hsz & _).
    unfold it_fuel. rewrite Hsz. lia. }
  destruct (blank_step (it_fuel store) (256 * k) num since time Hk) as (dn & evs' & mid & rest' & c & Hmv & Had & Hlen & Hends & Heq); [lia|].
  assert (chain (advs p1 dn) evs' /\ pos_ok (advs p1 dn)) as [Hc2 Hp2].
  { destruct Hh as [_ Hc Hp _ _ _]. rewrite (mv_evs _ _ _ _ _ _ _ Hmv) in Hc. apply chain_app in Hc as [Hc ?].
    split; [done|]. by apply chain_pos_ok. }
  assert (p_num (advs p1 dn) = num /\ p_since (advs p1 dn) = since) as [Hnum Hsince].
  { split; [exact (f_equal p_num Had)|exact (f_equal p_since Had)]. }
  assert (walk_blocks store (it_fuel store) b (need_add (lc_new (Z.of_nat (256 * k))) FlagCanonicalHash) =
    if num <? b then walk_blocks store (Z.to_nat (st_Size store)) b (full (at_ mid) (advs p1 dn) c)
    else if negb (num =? b) then Err (Wrap "looking for a block, but already past it" ErrConflict)
    else Ok (full (at_ mid) (advs p1 dn) c)) as ->.
  { unfold it_fuel at 1. cbn [walk_blocks].
    change (SealedBlock (need_add (lc_new (Z.of_nat (256 * k))) FlagCanonicalHash)) with (@None (Z * Z)). cbv iota.
    unfold NextBlock. rewrite Heq. autorewrite with logs. by rewrite Hnum. }
  destruct (Z.ltb_spec num b) as [Hlt|Hge].
  - destruct (walk_blocks_stream store all Hreads b (Z.to_nat (st_Size store)) (advs p1 dn) evs' rest' mid c
      (mv_rest _ _ _ _ _ _ _ Hmv) Hc2 Hp2 (mv_es _ _ _ _ _ _ _ Hmv) Hlen)
      as [(d2 & evs2 & m2 & r2 & c2 & Hmv2 & Hn2 & Hs2 & He2 & ->)|[Hlt2 ->]]; [| |left|right; left].
    + destruct Hreads as (Hsz & _). rewrite Hsz, (mv_es _ _ _ _ _ _ _ Hmv), length_app. lia.
    + lia.
    + exists (dn ++ d2), evs2, (mid ++ m2), r2, c2. rewrite advs_app. split; [by eapply move_trans|]. split; [done|].
      split; [|split; [rewrite length_app; lia|split; [|done]]].
      * destruct Hs2 as [-> |Hs2]; [simpl in Hn2; lia|lia].
      * destruct He2 as [-> |He2]; [by rewrite app_nil_r|by apply ends_hash_app].
    + split; [|done]. by rewrite (mv_evs _ _ _ _ _ _ _ Hmv), advs_app.
  - assert (num = b) as -> by lia. rewrite Z.eqb_refl. cbn [negb rbind]. left.
    exists dn, evs', mid, rest', c. split; [done|]. split; [done|]. split; [lia|]. done.
Qed.

(** The iterator at a block and log count: the position of the history, or
    an error when there is none. *)
Lemma iterator_spec lastIndex b l : lastIndex <> 0 -> 0 <= l ->
  (exists dn evs' mid rest' c, move p1 evs all dn evs' mid rest' /\ p_num (advs p1 dn) = b /\
     p_since (advs p1 dn) = l /\ (2 <= length mid)%nat /\
     newIteratorAt store lastIndex b l = Ok (full (at_ mid) (advs p1 dn) c)) \/
  (no_pos p1 evs b l /\ exists e, newIteratorAt store lastIndex b l = Err e).
Proof.
  intros Hne Hl. destruct Hh as [Hst Hc Hp _ _ _].
  destruct (seek_block lastIndex b l Hne Hl) as [(dn & evs' & mid & rest' & c & Hmv & Hn & Hs & Hlen & _ & ->)|[[Hlt ->]|[Hlt [e ->]]]].
  - pose proof Hmv as [Hevs Hall Hd Hr]. rewrite Hevs in Hc. apply chain_app in Hc as [Hc1 Hc2].
    assert (pos_ok (advs p1 dn)) as Hp2 by by apply chain_pos_ok.
    destruct (walk_logs_stream store all Hreads b l (it_fuel store) (advs p1 dn) evs' rest' mid c Hr Hc2 Hp2 Hall Hlen)
      as [(d2 & evs2 & m2 & r2 & c2 & Hmv2 & Hn2 & Hs2 & ->)|[Hno [e ->]]]; try done.
    + by apply (fuel_enough store all Hreads mid).
    + left. exists (dn ++ d2), evs2, (mid ++ m2), r2, c2. rewrite advs_app. split; [by eapply move_trans|].
      split_and!; [done|done|rewrite length_app; lia|done].
    + right. split; [|by exists e]. rewrite Hevs. intros done' ev' Heq Hn' Hs'.
      apply app_eq_inv in Heq as [(k & -> & ->)|(k & -> & ->)].
      * (* the position is before the one reached *)
        assert (k = []) as ->.
        { destruct k as [|e' k]; [done|]. exfalso. apply chain_app in Hc1 as [_ Hk]. apply chain_before in Hk; [|done].
          rewrite advs_app in Hn, Hs. unfold before in Hk. lia. }
        rewrite app_nil_r in *. apply (Hno [] evs'); [done|done|]. done.
      * rewrite advs_app in Hn', Hs'. by apply (Hno k ev').
  - right. split; [|by eexists]. intros done' ev' -> Hn' _. apply chain_app in Hc as [_ Hc].
    apply chain_num in Hc. rewrite advs_app in Hlt. lia.
  - right. split; [|by eexists]. by apply no_pos_past.
Qed.

(** The iterator at a block: its first seal, or an error that says on which
    side of the history the block is. *)
Lemma seek_seal lastIndex b : lastIndex <> 0 ->
  (exists dn evs' mid rest' c, move p1 evs all dn evs' mid rest' /\ p_num (advs p1 dn) = b /\
     p_since (advs p1 dn) = 0 /\ (2 <= length mid)%nat /\ ends_hash mid /\
     newIteratorAt store lastIndex b 0 = Ok (full (at_ mid) (advs p1 dn) c)) \/
  (p_num (advs p1 evs) < b /\ newIteratorAt store lastIndex b 0 = Err ErrFuture) \/
  (b < p_num p1 /\ exists e, newIteratorAt store lastIndex b 0 = Err (Wrap e ErrSkipped)).
Proof.
  intros Hne. destruct (seek_block lastIndex b 0 Hne (Z.le_refl 0)) as [(dn & evs' & mid & rest' & c & Hmv & Hn & Hs & Hlen & Hends & ->)|H];
    [left|by right].
  assert (p_since (advs p1 dn) = 0) as Hz.
  { destruct Hh as [_ Hc Hp _ _ _]. rewrite (mv_evs _ _ _ _ _ _ _ Hmv) in Hc. apply chain_app in Hc as [Hc _].
    pose proof (chain_pos_ok _ _ Hp Hc) as (_ & _ & _ & Hu). unfold is_u32 in Hu. lia. }
  exists dn, evs', mid, rest', c. do 5 (split; [done|]).
  unfold it_fuel. cbn [walk_logs]. change (lc_logsSince (full (at_ mid) (advs p1 dn) c)) with (p_since (advs p1 dn)).
  by rewrite Hz.
Qed.
End search.
