(* ===== verification/LogRecover.v ===== *)
(** * Scanning and recovering a log database

    The loops that read entry by entry, [End] and [TraverseConditional]: a
    stream is a sequence of visits, each a few entries after which the context
    is complete.  And opening: a list of entries of a history that is cut after
    a canonical hash is the entries of a shorter history; [init] cuts there and
    reads the context of the last entry. *)

From stdpp Require Import base gmap sets list.
From S2P Require Import Prelude EthTypes EntryDB FromDA DepSet CrossGraph LogDB LogCodec LogStream LogRead LogSearch.

(** ** Visits *)

Inductive log_visit (p : pos) (c : cur_log) : list event -> list EntryObj -> cur_log -> Prop :=
  | v_pad : log_visit p c [] [OPadding] c
  | v_repeat : log_visit p c [] (repeat_entries p) (kept p c)
  | v_seal par h n t : log_visit p c [EvSeal par h n t] (seal_entries h n t) no_log
  | v_seal2 par h n t : log_visit p c [EvSeal par h n t] (checkpoint n 0 t :: seal_entries h n t) no_log
  | v_log h m : log_visit p c [EvLog h m] (log_entries h m) (h, m).

Inductive visits : pos -> cur_log -> list event -> list EntryObj -> Prop :=
  | vs_nil p c : visits p c [] []
  | vs_cons p c d chunk c' evs es : log_visit p c d chunk c' -> visits (advs p d) c' evs es ->
      visits p c (d ++ evs) (chunk ++ es).

Lemma stream_visits p evs es : stream p evs es -> forall c, visits p c evs es.
Proof.
  intros Hs. induction Hs as [p|p evs es Hs IH|p evs es Hs IH|p par h n t evs es Hs IH|p par h n t evs es Hs IH|p h m evs es Hs IH]; intros c.
  - constructor.
  - apply (vs_cons p c [] [OPadding] c); [constructor|apply IH].
  - apply (vs_cons p c [] (repeat_entries p) (kept p c)); [constructor|apply IH].
  - apply (vs_cons p c [EvSeal par h n t] (seal_entries h n t) no_log); [constructor|apply IH].
  - apply (vs_cons p c [EvSeal par h n t] (checkpoint n 0 t :: seal_entries h n t) no_log); [constructor|apply IH].
  - apply (vs_cons p c [EvLog h m] (log_entries h m) (h, m)); [constructor|apply IH].
Qed.

Section quiet.
Context {St : Type} {ES : EntryStore St}.
Variable store : St.

(** [quiet n l l']: [n] reads lead from [l] to [l'], the first complete
    context on the way. *)
Inductive quiet : nat -> logContext -> logContext -> Prop :=
  | q_one typ l l' : it_next store l = Ok (typ, l') -> lc_need l' = 0 -> quiet 1 l l'
  | q_more typ n l l1 l' : it_next store l = Ok (typ, l1) -> lc_need l1 <> 0 -> quiet n l1 l' -> quiet (S n) l l'.

Lemma quiet_End n l l' fuel : quiet n l l' -> End_loop store (n + fuel) l = End_loop store fuel l'.
Proof. intros Hq. induction Hq as [typ l l' Hn Hz|typ n l l1 l' Hn Hz Hq IH]; simpl; rewrite Hn; [done|exact IH]. Qed.

Lemma quiet_Traverse {A} (fn : A -> logContext -> A * option error) n l l' fuel a a' : quiet n l l' -> fn a l' = (a', None) ->
  Traverse_loop store (n + fuel) fn a l = Traverse_loop store fuel fn a' l'.
Proof.
  intros Hq Hf. induction Hq as [typ l l' Hn Hz|typ n l l1 l' Hn Hz Hq IH]; simpl; rewrite Hn.
  - by rewrite Hz, Hf.
  - rewrite (proj2 (Z.eqb_neq _ _) Hz). auto.
Qed.

Lemma quiet_stop {A} (fn : A -> logContext -> A * option error) n l l' fuel a a' e : quiet n l l' ->
  fn a l' = (a', Some e) -> errors_Is e ErrStop = true -> Traverse_loop store (n + fuel) fn a l = (a', l', Err e).
Proof.
  intros Hq Hf He. induction Hq as [typ l l' Hn Hz|typ n l l1 l' Hn Hz Hq IH]; simpl; rewrite Hn.
  - by rewrite Hz, Hf, He.
  - rewrite (proj2 (Z.eqb_neq _ _) Hz). auto.
Qed.

End quiet.

(** One read with the lemma for its entry; the last one ends the visit. *)
Ltac q_side Hall := first [solve_all Hall | eassumption | reflexivity | by left | by right | done].
Ltac q_next lem Hall := eapply q_more; [eapply lem; q_side Hall|done|].
Ltac q_last lem Hall := eapply q_one; [erewrite lem by q_side Hall; rewrite ?pos_eta, <-?app_assoc; reflexivity|done].


Section scan.
Context {St : Type} {ES : EntryStore St}.
Variable store : St.
Variable all : list EntryObj.
Hypothesis Hreads : reads store all.

Abbreviation at_ pre := (Z.of_nat (length pre)).

Lemma quiet_visit pre rest p c d chunk c' : all = pre ++ chunk ++ rest -> log_visit p c d chunk c' -> pos_ok p -> chain p d ->
  quiet store (length chunk) (full (at_ pre) p c) (full (at_ (pre ++ chunk)) (advs p d) c').
Proof.
  intros Hall Hv Hp Hc. destruct Hv as [| |par h n t|par h n t|h m].
  - q_last (next_padding store all Hreads pre rest) Hall.
  - destruct Hp as (Hh & Hn & Ht & Hs). destruct c. q_next (next_checkpoint store all Hreads pre (OCanonicalHash (p_hash p) :: rest)) Hall.
    q_last (next_canonical store all Hreads (pre ++ [checkpoint (p_num p) (p_since p) (p_time p)]) rest) Hall.
  - inversion_clear Hc as [|? ? ? He _]. destruct He as (_ & _ & _ & Hh & _ & Hn & Ht).
    q_next (next_checkpoint store all Hreads pre (OCanonicalHash h :: rest)) Hall.
    q_last (next_canonical store all Hreads (pre ++ [checkpoint n 0 t]) rest) Hall.
  - inversion_clear Hc as [|? ? ? He _]. destruct He as (_ & _ & _ & Hh & _ & Hn & Ht).
    q_next (next_checkpoint store all Hreads pre (checkpoint n 0 t :: OCanonicalHash h :: rest)) Hall.
    q_next (next_checkpoint store all Hreads (pre ++ [checkpoint n 0 t]) (OCanonicalHash h :: rest)) Hall.
    q_last (next_canonical store all Hreads ((pre ++ [checkpoint n 0 t]) ++ [checkpoint n 0 t]) rest) Hall.
  - inversion_clear Hc as [|? ? ? He _]. destruct He as (Hh & Hs & Hm). destruct m as [m|]; unfold log_entries in *.
    + set (o := OInitiatingEvent _) in *.
      q_next (next_exec_event store all Hreads pre (OExecutingLink (link_of_msg m) :: OExecutingCheck (em_Hash m) :: rest)) Hall.
      q_next (next_exec_link store all Hreads (pre ++ [o]) (OExecutingCheck (em_Hash m) :: rest)) Hall.
      q_last (next_check store all Hreads ((pre ++ [o]) ++ [OExecutingLink (link_of_msg m)]) rest) Hall.
    + q_last (next_event store all Hreads pre rest) Hall.
Qed.

(** ** [End] *)

Lemma End_stream p c evs rest : visits p c evs rest -> chain p evs -> pos_ok p ->
  forall fuel (pre : list EntryObj), all = pre ++ rest -> (length rest < fuel)%nat ->
  exists c', End_loop store fuel (full (at_ pre) p c) = Ok (full (at_ all) (advs p evs) c').
Proof.
  intros Hv. induction Hv as [p c|p c d chunk c1 evs es Hv Hvs IH]; intros Hc Hp fuel pre Hall Hf.
  - exists c. destruct fuel; [simpl in Hf; lia|]. rewrite app_nil_r in Hall. subst pre. simpl.
    rewrite (next_end store all Hreads) by done. done.
  - apply chain_app in Hc as [Hc1 Hc2]. pose proof (quiet_visit pre es p c d chunk c1 Hall Hv Hp Hc1) as Hq.
    rewrite length_app in Hf. replace fuel with (length chunk + (fuel - length chunk))%nat by lia.
    rewrite (quiet_End store _ _ _ _ Hq), advs_app. apply IH; [done|by apply chain_pos_ok|by rewrite <-app_assoc|lia].
Qed.
End scan.

(** ** Cutting a stream *)

Lemma hash_shift p d1 m1 evs1 es1 dn evs' i : stream p d1 m1 ->
  move (advs p d1) evs1 es1 dn evs' (take (S i) es1) (drop (S i) es1) ->
  move p (d1 ++ evs1) (m1 ++ es1) (d1 ++ dn) evs' (take (S (length m1 + i)) (m1 ++ es1)) (drop (S (length m1 + i)) (m1 ++ es1)).
Proof.
  intros Hd Hm. rewrite take_app_ge, drop_app_ge by lia.
  replace (S (length m1 + i) - length m1)%nat with (S i) by lia. by apply move_step.
Qed.

(** The chunk of one event, cut at its hash. *)
Lemma move_chunk p d m evs es i : length m = S i -> stream p d m -> stream (advs p d) evs es ->
  move p (d ++ evs) (m ++ es) d evs (take (S i) (m ++ es)) (drop (S i) (m ++ es)).
Proof. intros <- Hd Hs. rewrite take_app_length, drop_app_length. by split. Qed.

Lemma stream_hash p evs es : stream p evs es -> forall i h, es !! i = Some (OCanonicalHash h) ->
  exists dn evs', move p evs es dn evs' (take (S i) es) (drop (S i) es).
Proof.
  intros Hs. induction Hs as [p|p evs es Hs IH|p evs es Hs IH|p par h n t evs es Hs IH|p par h n t evs es Hs IH|p h m evs es Hs IH];
    intros i h' Hi.
  - by rewrite lookup_nil in Hi.
  - destruct i as [|i]; [done|]. destruct (IH i h' Hi) as (dn & evs' & Hmv). exists dn, evs'.
    apply (hash_shift p [] [OPadding] evs es dn evs' i (stream_pad p) Hmv).
  - destruct i as [|[|i]]; [done| |].
    + exists [], evs.
      apply (move_chunk p []); [done|apply stream_repeat|done].
    + destruct (IH i h' Hi) as (dn & evs' & Hmv). exists dn, evs'.
      apply (hash_shift p [] (repeat_entries p) evs es dn evs' i (stream_repeat p) Hmv).
  - destruct i as [|[|i]]; [done| |].
    + exists [EvSeal par h n t], evs.
      apply (move_chunk p [EvSeal par h n t]); [done|apply stream_seal|done].
    + destruct (IH i h' Hi) as (dn & evs' & Hmv). exists (EvSeal par h n t :: dn), evs'.
      apply (hash_shift p [EvSeal par h n t] (seal_entries h n t) evs es dn evs' i (stream_seal p par h n t) Hmv).
  - set (ch := checkpoint n 0 t :: seal_entries h n t).
    change (checkpoint n 0 t :: seal_entries h n t ++ es) with (ch ++ es) in *.
    destruct i as [|[|[|i]]]; [done|done| |].
    + exists [EvSeal par h n t], evs.
      apply (move_chunk p [EvSeal par h n t]); [done|apply stream_seal2|done].
    + destruct (IH i h' Hi) as (dn & evs' & Hmv). exists (EvSeal par h n t :: dn), evs'.
      apply (hash_shift p [EvSeal par h n t] ch evs es dn evs' i (stream_seal2 p par h n t) Hmv).
  - destruct (decide (i < length (log_entries h m))%nat) as [Hlt|Hge].
    + rewrite lookup_app_l in Hi by done. destruct m; destruct i as [|[|[|i]]]; try done; simpl in Hlt; lia.
    + rewrite lookup_app_r in Hi by lia. destruct (IH _ h' Hi) as (dn & evs' & Hmv). exists (EvLog h m :: dn), evs'.
      pose proof (hash_shift p [EvLog h m] (log_entries h m) evs es dn evs' _ (stream_log p h m) Hmv) as Hmv'.
      by replace (length (log_entries h m) + (i - length (log_entries h m)))%nat with i in Hmv' by lia.
Qed.

(** What a move has read is a history of its own. *)
Lemma holds_move all p1 evs dn evs' mid rest : holds_history all p1 evs -> move p1 evs all dn evs' mid rest ->
  (2 <= length mid)%nat -> holds_history mid p1 dn.
Proof.
  intros [Hs Hc Hp Hf (h0 & H0 & H1) Hk] [Hevs Hall Hd Hr] Hlen. rewrite Hall in H0, H1.
  split; [done| |done|done| |].
  - rewrite Hevs in Hc. by apply chain_app in Hc as [? _].
  - exists h0. rewrite lookup_app_l in H0 by lia. rewrite lookup_app_l in H1 by lia. done.
  - intros k Hlt. destruct (Hk k) as (num & since & time & Hl); [rewrite Hall, length_app; lia|].
    exists num, since, time. by rewrite Hall, lookup_app_l in Hl.
Qed.

Lemma holds_prefix all p1 evs i h : holds_history all p1 evs -> all !! i = Some (OCanonicalHash h) ->
  exists dn evs', evs = dn ++ evs' /\ holds_history (take (S i) all) p1 dn.
Proof.
  intros Hh Hi. destruct (stream_hash p1 evs all (hh_stream _ _ _ Hh) i h Hi) as (dn & evs' & Hmv).
  exists dn, evs'. split; [apply Hmv|]. eapply holds_move; [done|exact Hmv|].
  destruct (hh_head _ _ _ Hh) as (h0 & H0 & _). destruct i as [|i]; [by rewrite H0 in Hi|].
  apply lookup_lt_Some in Hi. rewrite length_take. lia.
Qed.

Section recover.
Context {St : Type} {ES : EntryStore St}.
Variable store : St.
Variable all : list EntryObj.
Hypothesis Hreads : reads store all.

Abbreviation at_ pre := (Z.of_nat (length pre)).

(** ** The context of the last entry *)

Lemma blank_quiet p1 evs k num since time : holds_history all p1 evs -> all !! k = Some (checkpoint num since time) ->
  exists dn evs' mid rest' c n, move p1 evs all dn evs' mid rest' /\ (n <= length mid)%nat /\
    quiet store n (need_add (lc_new (Z.of_nat k)) FlagCanonicalHash) (full (at_ mid) (advs p1 dn) c).
Proof.
  intros Hh Hk. destruct (checkpoint_ok all p1 evs Hh k num since time Hk) as (Hn & Hs & Ht).
  destruct Hh as [Hst Hc Hp _ _ _].
  destruct (stream_checkpoint p1 evs all Hst k num since time Hk) as (dn & evs' & mid & rest' & h & Hmv & [Hat Hle] & Had).
  pose proof Hmv as [Hevs Hall Hd Hr]. rewrite Hevs in Hc. apply chain_app in Hc as [Hc _].
  pose proof (chain_pos_ok _ _ Hp Hc) as (Hhash & _). rewrite Had in Hhash. simpl in Hhash.
  assert (length (take k mid) = k) as Hlen by (rewrite length_take; lia).
  set (blank := need_add _ _). assert (nextEntryIndex blank = at_ (take k mid)) as Hidx by (simpl; by rewrite Hlen).
  rewrite <-(take_drop k mid) in Hall. destruct Hat as [Hat|[-> Hat]]; rewrite Hat in Hall.
  - exists dn, evs', mid, rest'. exists (if since =? 0 then no_log else no_log), 2%nat. split; [done|].
    split; [rewrite <-(take_drop k mid), Hat, length_app; simpl; lia|]. rewrite <-(take_drop k mid), Hat, Had.
    q_next (next_checkpoint store all Hreads (take k mid) (OCanonicalHash h :: rest') blank num since time) Hall.
    q_last (next_canonical store all Hreads (take k mid ++ [checkpoint num since time]) rest') Hall.
  - exists dn, evs', mid, rest'. exists no_log, 3%nat. split; [done|].
    split; [rewrite <-(take_drop k mid), Hat, length_app; simpl; lia|]. rewrite <-(take_drop k mid), Hat, Had.
    q_next (next_checkpoint store all Hreads (take k mid) (checkpoint num 0 time :: OCanonicalHash h :: rest') blank num 0 time) Hall.
    q_next (next_checkpoint store all Hreads (take k mid ++ [checkpoint num 0 time]) (OCanonicalHash h :: rest')) Hall.
    q_last (next_canonical store all Hreads ((take k mid ++ [checkpoint num 0 time]) ++ [checkpoint num 0 time]) rest') Hall.
Qed.

Lemma init_context_spec p1 evs : holds_history all p1 evs ->
  exists c, init_context store = Ok (full (at_ all) (advs p1 evs) c).
Proof.
  intros Hh. unfold init_context. pose proof Hreads as (Hsz & Hlast & _). rewrite Hlast.
  destruct (hh_head _ _ _ Hh) as (h0 & _ & H1). apply lookup_lt_Some in H1.
  destruct (Z.ltb_spec (at_ all - 1) 0) as [?|_]; [lia|].
  set (k := ((length all - 1) / 256)%nat).
  assert (256 * k < length all)%nat as Hk by (unfold k; pose proof (Nat.Div0.mul_div_le (length all - 1) 256); lia).
  replace (Z.quot (at_ all - 1) searchCheckpointFrequency * searchCheckpointFrequency) with (Z.of_nat (256 * k)).
  2: { unfold k, searchCheckpointFrequency. rewrite Z.quot_div_nonneg by lia.
       rewrite Nat2Z.inj_mul, Nat2Z.inj_div, Nat2Z.inj_sub by lia. simpl. lia. }
  destruct (hh_checkpoints _ _ _ Hh k Hk) as (num & since & time & Hl).
  destruct (blank_quiet p1 evs _ num since time Hh Hl) as (dn & evs' & mid & rest' & c & n & Hmv & Hn & Hq).
  unfold it_End. pose proof Hmv as [Hevs Hall Hd Hr].
  assert (n + length rest' < it_fuel store)%nat as Hf.
  { unfold it_fuel. rewrite Hsz, Hall, length_app. lia. }
  replace (it_fuel store) with (n + (it_fuel store - n))%nat by lia. rewrite (quiet_End store _ _ _ _ Hq).
  destruct Hh as [_ Hc Hp _ _ _]. rewrite Hevs in Hc. apply chain_app in Hc as [Hc1 Hc2].
  destruct (End_stream store all Hreads (advs p1 dn) c evs' rest' (stream_visits _ _ _ Hr c) Hc2
    (chain_pos_ok _ _ Hp Hc1) (it_fuel store - n) mid Hall) as [c' Heq]; [lia|].
  exists c'. by rewrite Heq, Hevs, advs_app.
Qed.

(** ** Trimming *)

Lemma entry_Type_hash o : (entry_Type (encode o) =? TypeCanonicalHash) = true <-> exists h, o = OCanonicalHash h.
Proof. destruct o; simpl; split; try done; try (by intros [? ?]). intros _. by eexists. Qed.

Definition no_hash (es : list EntryObj) : Prop := forall i h, es !! i = Some (OCanonicalHash h) -> False.

(** The loop stops at the last hash. *)
Lemma trim_loop_spec fuel (k : nat) : (k <= length all)%nat -> (k <= fuel)%nat ->
  exists j : nat, trim_loop store fuel (Z.of_nat k - 1) = Ok (Z.of_nat j - 1) /\ (j <= k)%nat /\
    (j = 0%nat \/ exists h, all !! (j - 1)%nat = Some (OCanonicalHash h)) /\
    forall i h, (j <= i < k)%nat -> all !! i = Some (OCanonicalHash h) -> False.
Proof.
  revert k. induction fuel as [|fuel IH]; intros k Hk Hf.
  { exists 0%nat. assert (k = 0%nat) as -> by lia. split; [done|]. split; [lia|]. split; [by left|lia]. }
  cbn [trim_loop]. destruct k as [|k].
  { exists 0%nat. split; [done|]. split; [lia|]. split; [by left|lia]. }
  replace (Z.of_nat (S k) - 1) with (Z.of_nat k) by lia. destruct (Z.ltb_spec (Z.of_nat k) 0); [lia|].
  destruct Hreads as (_ & _ & Hr & _). destruct (lookup_lt_is_Some_2 all k) as [o Ho]; [lia|].
  rewrite (Hr k o Ho). cbn [map_err rbind]. destruct (entry_Type (encode o) =? TypeCanonicalHash) eqn:Ht.
  - apply entry_Type_hash in Ht as [h ->]. exists (S k). split; [f_equal; lia|]. split; [lia|].
    split; [right; exists h; by rewrite Nat.sub_succ, Nat.sub_0_r|lia].
  - destruct (IH k) as (j & Hj & Hle & Hh & Hno); [lia|lia|]. exists j. split; [done|]. split; [lia|]. split; [done|].
    intros i h Hi Hl. destruct (decide (i = k)) as [->|]; [|apply (Hno i h); [lia|done]].
    rewrite Ho in Hl. injection Hl as ->. rewrite (proj2 (entry_Type_hash _)) in Ht; [done|by eexists].
Qed.
End recover.

(** Entries without a hash hold logs only. *)
Lemma stream_no_hash p evs es : stream p evs es -> no_hash es -> Forall log_ev evs.
Proof.
  intros Hs. induction Hs as [p|p evs es Hs IH|p evs es Hs IH|p par h n t evs es Hs IH|p par h n t evs es Hs IH|p h m evs es Hs IH]; intros Hn.
  - constructor.
  - apply IH. intros i h Hi. by apply (Hn (S i) h).
  - exfalso. by apply (Hn 1%nat (p_hash p)).
  - exfalso. by apply (Hn 1%nat h).
  - exfalso. by apply (Hn 2%nat h).
  - constructor; [done|]. apply IH. intros i h' Hi. apply (Hn (length (log_entries h m) + i)%nat h').
    by rewrite lookup_app_r, Nat.add_sub_swap, Nat.sub_diag by lia.
Qed.
