(* ===== verification/LogWrite.v ===== *)
(** * Writing the log database

    [inferFull] writes the entries of one event of a history, with the
    checkpoint that every 256th entry is, within its limit of ten steps. *)

From stdpp Require Import base gmap sets list.
From S2P Require Import Prelude EthTypes EntryDB FromDA DepSet CrossGraph LogDB LogCodec LogStream LogRead.

(** ** Contexts with pending entries *)

Definition wc (idx : Z) (p : pos) (c : cur_log) (need : Z) (out : list bytes) : logContext :=
  {| nextEntryIndex := idx; lc_blockHash := p_hash p; lc_blockNum := p_num p; lc_timestamp := p_time p;
     lc_logsSince := p_since p; lc_logHash := c.1; lc_execMsg := c.2; lc_need := need; lc_out := out |}.

Definition rem256 (idx : Z) : Z := Z.rem idx searchCheckpointFrequency.

Lemma rem256_range idx : 0 <= idx -> 0 <= rem256 idx < 256.
Proof. intros Hi. apply Z.rem_bound_pos; unfold searchCheckpointFrequency; lia. Qed.

Lemma rem256_succ idx : 0 <= idx -> rem256 (idx + 1) = if rem256 idx =? 255 then 0 else rem256 idx + 1.
Proof.
  intros Hi. pose proof (rem256_range idx Hi) as Hr. unfold rem256 in *.
  pose proof (Z.quot_rem' idx searchCheckpointFrequency) as Hq. unfold searchCheckpointFrequency in *.
  destruct (Z.eqb_spec (Z.rem idx 256) 255) as [Heq|Hne].
  - replace (idx + 1) with ((Z.quot idx 256 + 1) * 256) by lia. apply Z.rem_mul. lia.
  - symmetry. apply (Z.rem_unique _ _ (Z.quot idx 256)); [|lia|lia]. lia.
Qed.

(** Indices that are multiples of 256 hold checkpoints. *)
Definition is_checkpoint (o : EntryObj) : Prop := match o with OCheckpoint _ => True | _ => False end.

Fixpoint aligned (idx : Z) (es : list EntryObj) : Prop :=
  match es with
  | [] => True
  | o :: es => (rem256 idx = 0 -> is_checkpoint o) /\ aligned (idx + 1) es
  end.

Lemma aligned_app idx a b : aligned idx (a ++ b) <-> aligned idx a /\ aligned (idx + Z.of_nat (length a)) b.
Proof.
  revert idx. induction a as [|o a IH]; intros idx; simpl; [rewrite Z.add_0_r; tauto|].
  rewrite IH. replace (idx + 1 + Z.of_nat (length a)) with (idx + Z.pos (Pos.of_succ_nat (length a))) by lia. tauto.
Qed.

Lemma aligned_lookup idx es i o : aligned idx es -> es !! i = Some o -> rem256 (idx + Z.of_nat i) = 0 -> is_checkpoint o.
Proof.
  revert idx i. induction es as [|o' es IH]; intros idx i Ha Hl Hr; [done|]. destruct Ha as [Ha Hes].
  destruct i as [|i]; simpl in Hl.
  - injection Hl as ->. apply Ha. by rewrite Z.add_0_r in Hr.
  - apply (IH (idx + 1) i); [done|done|]. by replace (idx + 1 + Z.of_nat i) with (idx + Z.of_nat (S i)) by lia.
Qed.

(** ** Steps of [infer] *)

Lemma loop_step n l l' : infer l = (l', Ok tt) -> infer_loop (S n) l = infer_loop n l'.
Proof. intros Hi. simpl. by rewrite Hi. Qed.

Lemma loop_end n l : infer l = (l, Err EOF) -> infer_loop (S n) l = (l, Ok tt).
Proof. intros Hi. simpl. by rewrite Hi. Qed.

Section steps.
Variables (idx : Z) (p : pos) (c : cur_log) (out : list bytes).

(** A checkpoint is due at a multiple of 256, whatever else is. *)
Lemma infer_due need : rem256 idx = 0 -> need = 0 \/ need = 2 \/ need = 28 ->
  infer (wc idx p c need out) =
    (wc (idx + 1) p c (Z.lor need 2) (out ++ [encode (checkpoint (p_num p) (p_since p) (p_time p))]), Ok tt).
Proof.
  intros Hr Hn. unfold infer. change (Z.rem (nextEntryIndex (wc idx p c need out)) searchCheckpointFrequency) with (rem256 idx).
  rewrite Hr. by destruct Hn as [-> |[-> | ->]].
Qed.

Lemma infer_seal : infer (wc idx p c 1 out) =
  (wc (idx + 1) p c 2 (out ++ [encode (checkpoint (p_num p) (p_since p) (p_time p))]), Ok tt).
Proof.
  unfold infer. change (Z.rem (nextEntryIndex (wc idx p c 1 out)) searchCheckpointFrequency) with (rem256 idx).
  by destruct (rem256 idx =? 0).
Qed.

Hypothesis Hrem : rem256 idx <> 0.

Ltac start need :=
  unfold infer; change (Z.rem (nextEntryIndex (wc idx p c need out)) searchCheckpointFrequency) with (rem256 idx);
  rewrite (proj2 (Z.eqb_neq _ _) Hrem).

Lemma infer_none : infer (wc idx p c 0 out) = (wc idx p c 0 out, Err EOF).
Proof. by start 0. Qed.

Lemma infer_hash need : need = 2 \/ need = 30 -> infer (wc idx p c need out) =
  (wc (idx + 1) p c (need - 2) (out ++ [encode (OCanonicalHash (p_hash p))]), Ok tt).
Proof. intros Hn. start need. by destruct Hn as [-> | ->]. Qed.

Lemma infer_event h : infer (wc idx p (h, None) 4 out) =
  (wc (idx + 1) (with_since p (u32 (p_since p + 1))) (h, None) 0
     (out ++ [encode (OInitiatingEvent {| ie_hasExecMsg := false; ie_logHash := h |})]), Ok tt).
Proof.
  unfold infer. change (Z.rem (nextEntryIndex (wc idx p (h, None) 4 out)) searchCheckpointFrequency) with (rem256 idx).
  by rewrite (proj2 (Z.eqb_neq _ _) Hrem).
Qed.

Variables (h : Z) (m : ExecutingMessage).

Ltac fold_rem := change (Z.rem (nextEntryIndex (wc idx p (h, Some m) 28 out)) searchCheckpointFrequency) with (rem256 idx).

Ltac start' need :=
  unfold infer; change (Z.rem (nextEntryIndex (wc idx p (h, Some m) need out)) searchCheckpointFrequency) with (rem256 idx);
  rewrite (proj2 (Z.eqb_neq _ _) Hrem).

Lemma infer_room : rem256 idx <> 255 -> rem256 idx <> 254 -> infer (wc idx p (h, Some m) 28 out) =
  (wc (idx + 1) p (h, Some m) 24 (out ++ [encode (OInitiatingEvent {| ie_hasExecMsg := true; ie_logHash := h |})]), Ok tt).
Proof.
  intros H1 H2. start' 28. change (searchCheckpointFrequency - 1) with 255. change (searchCheckpointFrequency - 2) with 254.
  cbv zeta iota. fold_rem.
  rewrite (proj2 (Z.eqb_neq _ _) H1), (proj2 (Z.eqb_neq _ _) H2). done.
Qed.

Lemma infer_room1 : rem256 idx = 255 -> infer (wc idx p (h, Some m) 28 out) = (wc idx p (h, Some m) 60 out, Ok tt).
Proof. intros H1. start' 28. cbv zeta iota. fold_rem. by rewrite H1. Qed.

Lemma infer_room2 : rem256 idx = 254 -> infer (wc idx p (h, Some m) 28 out) = (wc idx p (h, Some m) 124 out, Ok tt).
Proof. intros H1. start' 28. cbv zeta iota. fold_rem. by rewrite H1. Qed.

Lemma infer_padding need : (need = 60 \/ need = 124) -> infer (wc idx p (h, Some m) need out) =
  (wc (idx + 1) p (h, Some m) (need - 32) (out ++ [encode OPadding]), Ok tt).
Proof. intros Hn. start' need. by destruct Hn as [-> | ->]. Qed.

Lemma infer_padding2 : infer (wc idx p (h, Some m) 92 out) =
  (wc (idx + 1) p (h, Some m) 28 (out ++ [encode OPadding]), Ok tt).
Proof. by start' 92. Qed.

Lemma infer_link : em_LogIdx m <= 2 ^ 24 -> infer (wc idx p (h, Some m) 24 out) =
  (wc (idx + 1) p (h, Some m) 16 (out ++ [encode (OExecutingLink (link_of_msg m))]), Ok tt).
Proof.
  intros Hm. start' 24. cbn -[encode newExecutingLink]. unfold newExecutingLink.
  change (Z.shiftl 1 24) with (2 ^ 24). rewrite (proj2 (Z.ltb_ge _ _) Hm). done.
Qed.

Lemma infer_link_large : 2 ^ 24 < em_LogIdx m -> infer (wc idx p (h, Some m) 24 out) =
  (wc idx p (h, Some m) 24 out, Err (Wrap "failed to create executing link" (Msg "log idx is too large"))).
Proof.
  intros Hm. start' 24. cbn -[encode newExecutingLink]. unfold newExecutingLink.
  change (Z.shiftl 1 24) with (2 ^ 24). rewrite (proj2 (Z.ltb_lt _ _) Hm). done.
Qed.

Lemma infer_check : infer (wc idx p (h, Some m) 16 out) =
  (wc (idx + 1) (with_since p (u32 (p_since p + 1))) (h, Some m) 0 (out ++ [encode (OExecutingCheck (em_Hash m))]), Ok tt).
Proof. by start' 16. Qed.
End steps.

(** ** Whole writes *)

(** [infer_loop n l] writes the entries [es] of the events [evs] and leaves
    nothing to infer. *)
Definition emits (n : nat) (l : logContext) (idx : Z) (out : list bytes) (p : pos) (evs : list event) (p' : pos) (c' : cur_log)
  : Prop := exists es, infer_loop n l = (wc (idx + Z.of_nat (length es)) p' c' 0 (out ++ (encode <$> es)), Ok tt) /\
    stream p evs es /\ aligned idx es /\ rem256 (idx + Z.of_nat (length es)) <> 0.

(** Entries written before the rest. *)
Lemma emits_prefix n k l l0 idx idx0 out out0 p d a evs p' c' : emits k l0 idx0 out0 (advs p d) evs p' c' ->
  infer_loop n l = infer_loop k l0 -> stream p d a -> aligned idx a -> idx0 = idx + Z.of_nat (length a) ->
  out0 = out ++ (encode <$> a) -> emits n l idx out p (d ++ evs) p' c'.
Proof.
  intros Hm Hl Hd Ha -> ->. destruct Hm as (es & Heq & Hst & Hal & Hr). exists (a ++ es).
  rewrite Hl, Heq, fmap_app, length_app, app_assoc, Nat2Z.inj_add, Z.add_assoc.
  split; [done|]. split; [by apply stream_app|]. split; [by apply aligned_app|done].
Qed.

(** Rewrites one step of the loop. *)
Ltac step lem := rewrite (loop_step _ _ _ lem).
Ltac out_eq := rewrite <-?app_assoc; reflexivity.

Lemma emits_idle n idx p c out : 0 <= idx -> (3 <= n)%nat \/ ((1 <= n)%nat /\ rem256 idx <> 0) -> emits n (wc idx p c 0 out) idx out p [] p c.
Proof.
  intros Hi Hn. destruct (decide (rem256 idx = 0)) as [Hr|Hr].
  - destruct n as [|[|[|n]]]; [lia..|]. pose proof (rem256_succ idx Hi) as H1. pose proof (rem256_succ (idx + 1)) as H2. rewrite Hr in H1. simpl in H1.
    rewrite H1 in H2. simpl in H2. exists (repeat_entries p).
    step (infer_due idx p c out 0 Hr (or_introl eq_refl)).
    step (infer_hash (idx + 1) p c (out ++ [encode (checkpoint (p_num p) (p_since p) (p_time p))]) ltac:(lia) 2 (or_introl eq_refl)).
    rewrite (loop_end _ _ (infer_none (idx + 1 + 1) p c _ ltac:(lia))).
    replace (idx + Z.of_nat (length (repeat_entries p))) with (idx + 1 + 1) by (simpl; lia).
    split; [f_equal; f_equal; out_eq|]. split; [apply stream_repeat|]. split; [|lia]. simpl. split_and!; [done|lia|done].
  - destruct n as [|n]; [lia|]. exists []. rewrite (loop_end _ _ (infer_none idx p c out Hr)). simpl. rewrite app_nil_r, Z.add_0_r.
    split; [done|]. split; [constructor|done].
Qed.

(** A seal: its checkpoint, again when that was the last entry before a
    multiple of 256, and its hash. *)
Lemma emits_seal idx p par h n t out : 0 <= idx -> rem256 idx <> 0 ->
  emits 10 (wc idx (adv p (EvSeal par h n t)) no_log 1 out) idx out p [EvSeal par h n t] (adv p (EvSeal par h n t)) no_log.
Proof.
  intros Hi Hr. set (q := adv p (EvSeal par h n t)). pose proof (rem256_succ idx Hi) as H1.
  pose proof (rem256_range idx Hi). pose proof (rem256_succ (idx + 1) ltac:(lia)) as H2.
  destruct (Z.eqb_spec (rem256 idx) 255) as [Heq|Hne].
  - rewrite H1 in H2. simpl in H2.
    eapply (emits_prefix _ 7 _ (wc (idx + 1 + 1 + 1) q no_log 0 (((out ++ [encode (checkpoint n 0 t)]) ++ [encode (checkpoint n 0 t)])
      ++ [encode (OCanonicalHash h)])) idx (idx + 1 + 1 + 1) out _ p [EvSeal par h n t] (checkpoint n 0 t :: seal_entries h n t) []); [apply emits_idle; lia|..].
    + step (infer_seal idx q no_log out). step (infer_due (idx + 1) q no_log (out ++ [encode (checkpoint n 0 t)]) 2 H1 ltac:(auto)).
      step (infer_hash (idx + 1 + 1) q no_log ((out ++ [encode (checkpoint n 0 t)]) ++ [encode (checkpoint n 0 t)]) ltac:(lia) 2 (or_introl eq_refl)).
      done.
    + apply stream_seal2.
    + simpl. split_and!; [done|done|lia|done].
    + simpl. lia.
    + out_eq.
  - eapply (emits_prefix _ 8 _ (wc (idx + 1 + 1) q no_log 0 ((out ++ [encode (checkpoint n 0 t)])
      ++ [encode (OCanonicalHash h)])) idx (idx + 1 + 1) out _ p [EvSeal par h n t] (seal_entries h n t) []); [apply emits_idle; lia|..].
    + step (infer_seal idx q no_log out).
      step (infer_hash (idx + 1) q no_log (out ++ [encode (checkpoint n 0 t)]) ltac:(lia) 2 (or_introl eq_refl)).
      done.
    + apply stream_seal.
    + simpl. split_and!; [done|lia|done].
    + simpl. lia.
    + out_eq.
Qed.

Lemma emits_plain_log idx p h out : 0 <= idx -> rem256 idx <> 0 -> is_u32 (p_since p + 1) ->
  emits 10 (wc idx p (h, None) 4 out) idx out p [EvLog h None] (adv p (EvLog h None)) (h, None).
Proof.
  intros Hi Hr Hu. set (q := adv p (EvLog h None)).
  set (o := OInitiatingEvent {| ie_hasExecMsg := false; ie_logHash := h |}).
  eapply (emits_prefix _ 9 _ (wc (idx + 1) q (h, None) 0 (out ++ [encode o])) idx (idx + 1) out _ p [EvLog h None] [o] []); [apply emits_idle; lia|..].
  - step (infer_event idx p out Hr h). do 2 f_equal. unfold q. simpl. f_equal. apply Z.mod_small. unfold is_u32 in Hu. lia.
  - apply stream_log.
  - simpl. split; [lia|done].
  - simpl. lia.
  - done.
Qed.

(** An executing log where its three entries fit. *)
Lemma emits_exec_fits n idx p h m out : 0 <= idx -> 0 < rem256 idx < 254 -> is_u32 (p_since p + 1) -> em_LogIdx m <= 2 ^ 24 ->
  (6 <= n)%nat \/ ((4 <= n)%nat /\ rem256 idx = 2) ->
  emits n (wc idx p (h, Some m) 28 out) idx out p [EvLog h (Some m)] (adv p (EvLog h (Some m))) (h, Some m).
Proof.
  intros Hi Hr Hu Hm Hn. set (q := adv p (EvLog h (Some m))). destruct n as [|[|[|n]]]; [lia..|].
  set (o := OInitiatingEvent {| ie_hasExecMsg := true; ie_logHash := h |}).
  pose proof (rem256_succ idx Hi) as H1. pose proof (rem256_succ (idx + 1) ltac:(lia)) as H2.
  destruct (Z.eqb_spec (rem256 idx) 255) as [?|_]; [lia|]. rewrite H1 in H2.
  destruct (Z.eqb_spec (rem256 idx + 1) 255) as [?|_]; [lia|].
  pose proof (rem256_succ (idx + 1 + 1) ltac:(lia)) as H3. rewrite H2 in H3.
  eapply (emits_prefix _ n _ (wc (idx + 1 + 1 + 1) q (h, Some m) 0 (((out ++ [encode o]) ++ [encode (OExecutingLink (link_of_msg m))])
    ++ [encode (OExecutingCheck (em_Hash m))])) idx (idx + 1 + 1 + 1) out _ p [EvLog h (Some m)] (log_entries h (Some m)) []);
    [apply emits_idle; [lia|]; destruct (Z.eqb_spec (rem256 idx + 1 + 1) 255); lia|..].
  - step (infer_room idx p out ltac:(lia) h m ltac:(lia) ltac:(lia)).
    step (infer_link (idx + 1) p (out ++ [encode o]) ltac:(lia) h m Hm).
    step (infer_check (idx + 1 + 1) p ((out ++ [encode o]) ++ [encode (OExecutingLink (link_of_msg m))]) ltac:(lia) h m).
    do 2 f_equal. unfold q. simpl. f_equal. apply Z.mod_small. unfold is_u32 in Hu. lia.
  - apply stream_log.
  - simpl. split_and!; [lia|lia|lia|done].
  - simpl. lia.
  - out_eq.
Qed.

(** Before an executing log whose entries would not fit, padding and a
    repeated checkpoint. *)
Lemma exec_room idx p h m out : 0 <= idx -> rem256 idx <> 0 ->
  exists es k, infer_loop 10 (wc idx p (h, Some m) 28 out) =
      infer_loop k (wc (idx + Z.of_nat (length es)) p (h, Some m) 28 (out ++ (encode <$> es))) /\
    stream p [] es /\ aligned idx es /\ 0 < rem256 (idx + Z.of_nat (length es)) < 254 /\
    ((6 <= k)%nat \/ ((4 <= k)%nat /\ rem256 (idx + Z.of_nat (length es)) = 2)).
Proof.
  intros Hi Hr. pose proof (rem256_range idx Hi) as Hb. pose proof (rem256_succ idx Hi) as H1.
  pose proof (rem256_succ (idx + 1) ltac:(lia)) as H2. pose proof (rem256_succ (idx + 1 + 1) ltac:(lia)) as H3.
  pose proof (rem256_succ (idx + 1 + 1 + 1) ltac:(lia)) as H4. set (ck := encode (checkpoint (p_num p) (p_since p) (p_time p))).
  destruct (decide (rem256 idx = 255)) as [Heq|Hne]; [|destruct (decide (rem256 idx = 254)) as [Heq|Hne']].
  - rewrite Heq in H1. simpl in H1. rewrite H1 in H2. simpl in H2. rewrite H2 in H3. simpl in H3.
    exists (OPadding :: repeat_entries p), 6%nat.
    step (infer_room1 idx p out Hr h m Heq). step (infer_padding idx p out Hr h m 60 (or_introl eq_refl)).
    step (infer_due (idx + 1) p (h, Some m) (out ++ [encode OPadding]) 28 H1 ltac:(auto)).
    step (infer_hash (idx + 1 + 1) p (h, Some m) ((out ++ [encode OPadding]) ++ [ck]) ltac:(lia) 30 (or_intror eq_refl)).
    replace (idx + Z.of_nat (length (OPadding :: repeat_entries p))) with (idx + 1 + 1 + 1) by (simpl; lia).
    split; [do 2 f_equal; out_eq|]. split; [apply st_pad, stream_repeat|].
    split; [simpl; split_and!; [lia|done|lia|done]|]. lia.
  - rewrite Heq in H1. simpl in H1. rewrite H1 in H2. simpl in H2. rewrite H2 in H3. simpl in H3. rewrite H3 in H4. simpl in H4.
    exists (OPadding :: OPadding :: repeat_entries p), 5%nat.
    step (infer_room2 idx p out Hr h m Heq). step (infer_padding idx p out Hr h m 124 (or_intror eq_refl)).
    step (infer_padding2 (idx + 1) p (out ++ [encode OPadding]) ltac:(lia) h m).
    step (infer_due (idx + 1 + 1) p (h, Some m) ((out ++ [encode OPadding]) ++ [encode OPadding]) 28 H2 ltac:(auto)).
    step (infer_hash (idx + 1 + 1 + 1) p (h, Some m) (((out ++ [encode OPadding]) ++ [encode OPadding]) ++ [ck]) ltac:(lia) 30 (or_intror eq_refl)).
    replace (idx + Z.of_nat (length (OPadding :: OPadding :: repeat_entries p))) with (idx + 1 + 1 + 1 + 1) by (simpl; lia).
    split; [do 2 f_equal; out_eq|]. split; [apply st_pad, st_pad, stream_repeat|].
    split; [simpl; split_and!; [lia|lia|done|lia|done]|]. lia.
  - exists [], 10%nat. simpl. rewrite app_nil_r, Z.add_0_r. split; [done|]. split; [constructor|]. split; [done|]. lia.
Qed.

Lemma emits_exec idx p h m out : 0 <= idx -> rem256 idx <> 0 -> is_u32 (p_since p + 1) -> em_LogIdx m <= 2 ^ 24 ->
  emits 10 (wc idx p (h, Some m) 28 out) idx out p [EvLog h (Some m)] (adv p (EvLog h (Some m))) (h, Some m).
Proof.
  intros Hi Hr Hu Hm. destruct (exec_room idx p h m out Hi Hr) as (es & k & Heq & Hst & Hal & Hb & Hk).
  eapply (emits_prefix _ k _ _ _ _ _ _ p [] es [EvLog h (Some m)]); [|exact Heq|done|done|done|done].
  apply emits_exec_fits; try done. lia.
Qed.

(** A log index over [2^24] stops [infer] half way, and for good. *)
Definition stuck (l : logContext) : Prop := exists idx p h m out, l = wc idx p (h, Some m) 24 out /\ rem256 idx <> 0 /\
  2 ^ 24 < em_LogIdx m.

Lemma stuck_infer l : stuck l -> exists e, inferFull l = (l, Err e).
Proof.
  intros (idx & p & h & m & out & -> & Hr & Hm). eexists. unfold inferFull. simpl. by rewrite (infer_link_large idx p out Hr h m Hm).
Qed.

Lemma stuck_index l : stuck l -> nextEntryIndex l <> 0.
Proof. intros (idx & p & h & m & out & -> & Hr & _) Heq. simpl in Heq. by subst idx. Qed.

Lemma exec_stuck idx p h m out : 0 <= idx -> rem256 idx <> 0 -> 2 ^ 24 < em_LogIdx m ->
  exists l e, infer_loop 10 (wc idx p (h, Some m) 28 out) = (l, Err e) /\ stuck l.
Proof.
  intros Hi Hr Hm. destruct (exec_room idx p h m out Hi Hr) as (es & k & -> & _ & _ & Hb & Hk).
  set (i := idx + Z.of_nat (length es)) in *. destruct k as [|[|k]]; [lia..|].
  pose proof (rem256_succ i ltac:(lia)) as H1. destruct (Z.eqb_spec (rem256 i) 255); [lia|].
  step (infer_room i p (out ++ (encode <$> es)) ltac:(lia) h m ltac:(lia) ltac:(lia)). simpl.
  rewrite (infer_link_large (i + 1) p _ ltac:(lia) h m Hm). do 2 eexists. split; [done|].
  exists (i + 1), p, h, m. eexists. split; [done|]. split; [lia|done].
Qed.

(** ** The operations of the context *)

(** What an operation leaves: the entries of [evs] in the buffer, and a
    complete context. *)
Definition left_with (r : logContext * result unit) (idx : Z) (out : list bytes) (p : pos) (evs : list event) (p' : pos)
  (ok : result unit -> Prop) : Prop :=
  exists es c', r.1 = wc (idx + Z.of_nat (length es)) p' c' 0 (out ++ (encode <$> es)) /\ ok r.2 /\
    stream p evs es /\ aligned idx es.

Definition is_ok (r : result unit) : Prop := r = Ok tt.
Definition is_err_of (e : error) (r : result unit) : Prop := exists s, r = Err (Wrap s e).

Lemma left_with_emits l idx out p evs p' c' : emits 10 l idx out p evs p' c' -> left_with (inferFull l) idx out p evs p' is_ok.
Proof.
  intros (es & Heq & Hst & Hal & _). exists es, c'. unfold inferFull. rewrite Heq. by split_and!.
Qed.

(** An operation after the entries [a]. *)
Lemma left_with_prefix r idx out p a evs p' ok :
  left_with r (idx + Z.of_nat (length a)) (out ++ (encode <$> a)) p evs p' ok -> stream p [] a -> aligned idx a ->
  left_with r idx out p evs p' ok.
Proof.
  intros (es & c' & H1 & H2 & H3 & H4) Ha Hal. exists (a ++ es), c'.
  rewrite fmap_app, length_app, app_assoc, Nat2Z.inj_add, Z.add_assoc. split; [done|]. split; [done|].
  split; [by apply (stream_app p [] a)|by apply aligned_app].
Qed.

(** The last block is not the last number a block can have. *)
Definition can_seal (p : pos) : Prop := 0 <= p_num p /\ p_num p + 1 < two64 /\ p_hash p <> 0.

Definition seal_fits (p : pos) (parent : Z) (upd : BlockID) (t : Z) : bool :=
  (parent =? p_hash p) && (bid_Number upd =? p_num p + 1) && (p_time p <=? t).

Lemma SealBlock_ctx idx p c out parent upd t : 0 < idx -> can_seal p ->
  let r := lc_SealBlock (wc idx p c 0 out) parent upd t in
  let e := EvSeal parent (bid_Hash upd) (bid_Number upd) t in
  if seal_fits p parent upd t then left_with r idx out p [e] (adv p e) is_ok
  else left_with r idx out p [] p (is_err_of ErrConflict).
Proof.
  intros Hi (Hn0 & Hn & Hh) r e. unfold r, lc_SealBlock. change (nextEntryIndex (wc idx p c 0 out)) with idx.
  destruct (Z.eqb_spec idx 0) as [?|_]; [lia|]. cbn [negb].
  destruct (emits_idle 10 idx p c out) as (a & Heq & Ha & Hal & Hr); [lia|lia|].
  change (infer_loop 10 (wc idx p c 0 out)) with (inferFull (wc idx p c 0 out)) in Heq. rewrite Heq. cbn [lc_blockHash lc_blockNum lc_timestamp wc].
  rewrite (proj2 (Z.eqb_neq _ _) Hh). unfold u64. rewrite Z.mod_small by lia. cbn [negb andb].
  unfold seal_fits. rewrite (Z.eqb_sym parent), (Z.eqb_sym (bid_Number upd)), Z.leb_antisym.
  destruct (p_hash p =? parent); cbn [negb andb].
  2: { exists a, c. cbn [fst snd]. split; [done|]. split; [by eexists|done]. }
  destruct (p_num p + 1 =? bid_Number upd); cbn [negb andb].
  2: { exists a, c. cbn [fst snd]. split; [done|]. split; [by eexists|done]. }
  destruct (t <? p_time p); cbn [negb].
  1: { exists a, c. cbn [fst snd]. split; [done|]. split; [by eexists|done]. }
  apply (left_with_prefix _ _ _ _ a); [|done|done]. eapply left_with_emits. apply (emits_seal (idx + Z.of_nat (length a)) p parent); [lia|done].
Qed.

Lemma SealBlock_first parent upd t :
  let p := {| p_hash := bid_Hash upd; p_num := bid_Number upd; p_time := t; p_since := 0 |} in
  lc_SealBlock (lc_new 0) parent upd t = (wc 2 p no_log 0 (encode <$> repeat_entries p), Ok tt).
Proof.
  intros p. change (lc_SealBlock (lc_new 0) parent upd t) with (infer_loop 10 (wc 0 p no_log 1 [])).
  step (infer_seal 0 p no_log []).
  step (infer_hash (0 + 1) p no_log [encode (checkpoint (p_num p) (p_since p) (p_time p))] ltac:(done) 2 (or_introl eq_refl)).
  by rewrite (loop_end _ _ (infer_none (0 + 1 + 1) p no_log _ ltac:(done))).
Qed.

Definition log_fits (p : pos) (parent : BlockID) (logIdx : Z) : bool :=
  negb (id_eqb parent zeroBlockID) && (bid_Hash parent =? p_hash p) && (bid_Number parent =? p_num p) && (logIdx =? p_since p).

Definition large_msg (m : option ExecutingMessage) : bool :=
  match m with Some m => 2 ^ 24 <? em_LogIdx m | None => false end.

Lemma ApplyLog_ctx idx p c out parent logIdx h m : 0 < idx -> is_u32 (logIdx + 1) ->
  let r := lc_ApplyLog (wc idx p c 0 out) parent logIdx h m in
  if log_fits p parent logIdx then
    if large_msg m then stuck r.1 /\ exists e, r.2 = Err e
    else left_with r idx out p [EvLog h m] (adv p (EvLog h m)) is_ok
  else left_with r idx out p [] p (is_err_of ErrOutOfOrder).
Proof.
  intros Hi Hu r. unfold r, lc_ApplyLog, log_fits. destruct (id_eqb parent zeroBlockID); cbn [negb andb].
  { exists [], c. cbn [fst snd]. rewrite app_nil_r, Z.add_0_r. split; [done|]. split; [by eexists|]. split; [constructor|done]. }
  destruct (emits_idle 10 idx p c out) as (a & Heq & Ha & Hal & Hr); [lia|lia|].
  change (infer_loop 10 (wc idx p c 0 out)) with (inferFull (wc idx p c 0 out)) in Heq. rewrite Heq. change (hasCompleteBlock (wc _ p c 0 _)) with true.
  cbn [lc_blockHash lc_blockNum lc_logsSince wc negb]. rewrite (Z.eqb_sym (p_hash p)), (Z.eqb_sym (p_num p)).
  destruct (bid_Hash parent =? p_hash p); cbn [negb andb].
  2: { exists a, c. cbn [fst snd]. split; [done|]. split; [by eexists|done]. }
  destruct (bid_Number parent =? p_num p); cbn [negb andb].
  2: { exists a, c. cbn [fst snd]. split; [done|]. split; [by eexists|done]. }
  destruct (Z.eqb_spec logIdx (p_since p)) as [->|]; cbn [negb].
  2: { exists a, c. cbn [fst snd]. split; [done|]. split; [by eexists|done]. }
  unfold large_msg. destruct m as [m|].
  - destruct (Z.ltb_spec (2 ^ 24) (em_LogIdx m)) as [Hlt|Hge].
    + destruct (exec_stuck (idx + Z.of_nat (length a)) p h m (out ++ (encode <$> a))) as (l & e & Hl & Hs); [lia|done|done|].
      unfold inferFull. change (infer_loop 10 _) with (infer_loop 10 (wc (idx + Z.of_nat (length a)) p (h, Some m) 28 (out ++ (encode <$> a)))).
      rewrite Hl. split; [done|by exists e].
    + apply (left_with_prefix _ _ _ _ a); [|done|done]. eapply left_with_emits. apply (emits_exec (idx + Z.of_nat (length a))); [lia|done|done|done].
  - apply (left_with_prefix _ _ _ _ a); [|done|done]. eapply left_with_emits. apply (emits_plain_log (idx + Z.of_nat (length a))); [lia|done|done].
Qed.

Lemma stuck_ops l : stuck l ->
  (forall parent upd t, exists e, lc_SealBlock l parent upd t = (l, Err e)) /\
  (forall parent i h m, exists e, lc_ApplyLog l parent i h m = (l, Err e)).
Proof.
  intros Hs. pose proof (stuck_index l Hs) as Hn. destruct (stuck_infer l Hs) as (e & He). split; intros.
  - unfold lc_SealBlock. rewrite (proj2 (Z.eqb_neq _ _) Hn), He. by eexists.
  - unfold lc_ApplyLog. destruct (id_eqb parent zeroBlockID); [by eexists|]. rewrite He. by eexists.
Qed.
