(* ===== verification/LogRefine.v ===== *)
(** * The log database refines a history

    The state of the database is a history of blocks and logs, of which a
    part is stored; sealing, adding logs, rewinding and reopening act on it
    as the rules of [alog_step] say, whatever writes of the store fail. *)

From stdpp Require Import base gmap sets list.
From S2P Require Import Prelude EthTypes EntryDB FromDA DepSet CrossGraph LogDB LogCodec LogStream LogRead LogSearch LogRecover LogWrite.

(** ** The abstract log *)

(** [ALog p1 stored evs]: the first block [p1] and the events after it; the
    events [stored] of them are in the store (none, when not even the first
    block is).  [AStuck]: a log with an executing message that cannot be
    encoded was added; only what is stored counts. *)
Inductive alog : Type :=
  | AEmpty
  | ALog (p1 : pos) (stored : option (list event)) (evs : list event)
  | AStuck (p1 : pos) (stored : option (list event)).

Inductive request : Type :=
  | RSeal (parent : Z) (block : BlockID) (timestamp : Z)
  | RLog (logHash : Z) (parent : BlockID) (logIdx : Z) (execMsg : option ExecutingMessage)
  | RRewind (newHead : BlockID).

Definition first_pos (block : BlockID) (t : Z) : pos :=
  {| p_hash := bid_Hash block; p_num := bid_Number block; p_time := t; p_since := 0 |}.

(** A rewind to a stored block: what is left of the events. *)
Definition rewinds_to (p1 : pos) (stored : list event) (head : BlockID) (evs : list event) : Prop :=
  exists evs', stored = evs ++ evs' /\ p_num (advs p1 evs) = bid_Number head /\ p_since (advs p1 evs) = 0 /\
    p_hash (advs p1 evs) = bid_Hash head.

Definition stored_of (a : alog) : option (pos * list event) :=
  match a with
  | ALog p1 (Some s) _ | AStuck p1 (Some s) => Some (p1, s)
  | _ => None
  end.

(** The answer is [true] for success. *)
Inductive alog_step : alog -> request -> alog -> bool -> Prop :=
  | as_first parent b t : alog_step AEmpty (RSeal parent b t) (ALog (first_pos b t) (Some []) []) true
  | as_first_unstored parent b t : alog_step AEmpty (RSeal parent b t) (ALog (first_pos b t) None []) false
  | as_seal p1 s evs parent b t : seal_fits (advs p1 evs) parent b t = true ->
      let evs' := evs ++ [EvSeal parent (bid_Hash b) (bid_Number b) t] in
      alog_step (ALog p1 s evs) (RSeal parent b t) (ALog p1 (Some evs') evs') true
  | as_seal_unstored p1 s evs parent b t : seal_fits (advs p1 evs) parent b t = true ->
      alog_step (ALog p1 s evs) (RSeal parent b t) (ALog p1 s (evs ++ [EvSeal parent (bid_Hash b) (bid_Number b) t])) false
  | as_seal_conflict p1 s evs parent b t : seal_fits (advs p1 evs) parent b t = false ->
      alog_step (ALog p1 s evs) (RSeal parent b t) (ALog p1 s evs) false
  | as_log p1 s evs h parent i m : log_fits (advs p1 evs) parent i = true -> large_msg m = false ->
      alog_step (ALog p1 s evs) (RLog h parent i m) (ALog p1 (Some (evs ++ [EvLog h m])) (evs ++ [EvLog h m])) true
  | as_log_unstored p1 s evs h parent i m : log_fits (advs p1 evs) parent i = true -> large_msg m = false ->
      alog_step (ALog p1 s evs) (RLog h parent i m) (ALog p1 s (evs ++ [EvLog h m])) false
  | as_log_conflict p1 s evs h parent i m : log_fits (advs p1 evs) parent i = false ->
      alog_step (ALog p1 s evs) (RLog h parent i m) (ALog p1 s evs) false
  | as_log_large p1 s evs h parent i m : log_fits (advs p1 evs) parent i = true -> large_msg m = true ->
      alog_step (ALog p1 s evs) (RLog h parent i m) (AStuck p1 s) false
  | as_stuck p1 s r : match r with RRewind _ => False | _ => True end -> alog_step (AStuck p1 s) r (AStuck p1 s) false
  | as_rewind a p1 s head evs : stored_of a = Some (p1, s) -> rewinds_to p1 s head evs ->
      alog_step a (RRewind head) (ALog p1 (Some evs) evs) true
  | as_rewind_refused a head : alog_step a (RRewind head) a false.

(** The requests that a log takes when its store works: the first block, a block
    or a log that fits the last one, and a rewind to a stored block. *)
Definition accepts (a : alog) (r : request) : Prop :=
  match r, a with
  | RSeal _ _ _, AEmpty => True
  | RSeal parent b t, ALog p1 _ evs => seal_fits (advs p1 evs) parent b t = true
  | RLog _ parent i m, ALog p1 _ evs => log_fits (advs p1 evs) parent i = true /\ large_msg m = false
  | RRewind head, _ => exists p1 s evs, stored_of a = Some (p1, s) /\ rewinds_to p1 s head evs
  | _, _ => False
  end.

(** Requests as the callers make them: sizes, no zero block hash, no last
    block number; a log index of [2^24] in an executing message would be
    stored as 0, and no logs come before the first block. *)
Definition exec_ok (m : ExecutingMessage) : Prop :=
  is_u32 (em_Chain m) /\ is_u64 (em_BlockNum m) /\ 0 <= em_LogIdx m /\ em_LogIdx m <> 2 ^ 24 /\ is_u64 (em_Timestamp m) /\
  is_hash (em_Hash m).

Definition request_ok (a : alog) (r : request) : Prop :=
  match r with
  | RSeal parent b t =>
      is_hash (bid_Hash b) /\ bid_Hash b <> 0 /\ 0 <= bid_Number b /\ bid_Number b + 1 < two64 /\ is_u64 t
  | RLog h parent i m => a <> AEmpty /\ is_hash h /\ is_u32 (i + 1) /\ match m with Some m => exec_ok m | None => True end
  | RRewind _ => True
  end.

Lemma checkpoints_app es new :
  (forall i, (256 * i < length es)%nat -> exists num since time, es !! (256 * i)%nat = Some (checkpoint num since time)) ->
  aligned (Z.of_nat (length es)) new ->
  forall i, (256 * i < length (es ++ new))%nat -> exists num since time, (es ++ new) !! (256 * i)%nat = Some (checkpoint num since time).
Proof.
  intros Hk Hal i Hi. destruct (decide (256 * i < length es)%nat) as [Hlt|Hge].
  - destruct (Hk i Hlt) as (num & since & time & Hl). exists num, since, time. by apply lookup_app_l_Some.
  - rewrite length_app in Hi. rewrite lookup_app_r by lia.
    destruct (lookup_lt_is_Some_2 new (256 * i - length es)) as [o Ho]; [lia|]. rewrite Ho.
    pose proof (aligned_lookup _ _ _ _ Hal Ho) as Hc. destruct o as [[num since time]| | | | |]; [by exists num, since, time|..].
    all: exfalso; apply Hc; rewrite <-Nat2Z.inj_add; replace (length es + (256 * i - length es))%nat with (i * 256)%nat by lia;
      rewrite Nat2Z.inj_mul; apply Z.rem_mul; done.
Qed.

Section refine.
Context {St : Type} {ES : EntryStore St} {L : EntryStoreLaws St logs_EntrySize}.

(** Reads of entries that are there succeed. *)
Hypothesis Hreliable : forall s i e, st_ok s -> st_view s !! i = Some e -> st_Read s (Z.of_nat i) = Ok e.

Lemma reads_view s es : st_ok s -> st_view s = encode <$> es -> reads s es.
Proof.
  intros Hok Hv. split_and!.
  - by rewrite st_Size_spec, Hv, length_fmap.
  - by rewrite st_Last_spec, Hv, length_fmap.
  - intros i o Hi. apply Hreliable; [done|]. by rewrite Hv, list_lookup_fmap, Hi.
  - intros i Hi. apply st_Read_end; [done|]. by rewrite Hv, length_fmap.
Qed.

(** The numbers of the blocks leave room for one more; hashes are not zero. *)
Definition bounded (p1 : pos) (evs : list event) : Prop := p_hash p1 <> 0 /\ p_num (advs p1 evs) + 1 < two64.

Definition stored_ok (es : list EntryObj) (p1 : pos) (s : option (list event)) : Prop :=
  match s with
  | None => es = []
  | Some sevs => holds_history es p1 sevs /\ bounded p1 sevs
  end.

Definition logs_inv (db : LogsDB St) (a : alog) : Prop :=
  st_ok (ld_store db) /\
  match a with
  | AEmpty => st_view (ld_store db) = [] /\ lastEntryContext db = lc_new 0
  | ALog p1 s evs =>
      exists es pend c, st_view (ld_store db) = encode <$> es /\ stored_ok es p1 s /\
        lastEntryContext db = wc (Z.of_nat (length (es ++ pend))) (advs p1 evs) c 0 (encode <$> pend) /\
        holds_history (es ++ pend) p1 evs /\ bounded p1 evs
  | AStuck p1 s =>
      exists es, st_view (ld_store db) = encode <$> es /\ stored_ok es p1 s /\
        stuck (lastEntryContext db)
  end.

Lemma chain_hash p evs : chain p evs -> p_hash p <> 0 -> p_hash (advs p evs) <> 0.
Proof.
  intros Hc. induction Hc as [|p e evs He Hc IH]; intros Hp; [done|]. simpl. apply IH. destruct e; [|done]. apply He.
Qed.

Lemma bounded_can_seal p1 evs : chain p1 evs -> pos_ok p1 -> bounded p1 evs -> can_seal (advs p1 evs).
Proof.
  intros Hc Hp [Hh Hn]. pose proof (chain_pos_ok _ _ Hp Hc) as (_ & (Hu & _) & _). split_and!; [done|done|by apply chain_hash].
Qed.

Lemma bounded_prefix p1 a b : chain p1 (a ++ b) -> bounded p1 (a ++ b) -> bounded p1 a.
Proof.
  intros Hc [Hh Hn]. apply chain_app in Hc as [_ Hc]. apply chain_num in Hc. rewrite advs_app in Hn. split; [done|lia].
Qed.

(** ** Flushing *)

(** One event more, with its entries. *)
Lemma holds_snoc es new p1 evs e : holds_history es p1 evs -> ev_ok (advs p1 evs) e -> stream (advs p1 evs) [e] new ->
  aligned (Z.of_nat (length es)) new -> holds_history (es ++ new) p1 (evs ++ [e]).
Proof.
  intros [Hs Hc Hp Hf (h0 & H0 & H1) Hk] He Hst Hal. split.
  - by apply stream_app.
  - apply chain_app. split; [done|]. constructor; [done|constructor].
  - done.
  - done.
  - exists h0. split; by apply lookup_app_l_Some.
  - by apply (checkpoints_app es new).
Qed.

Lemma holds_more es new p1 evs : holds_history es p1 evs -> stream (advs p1 evs) [] new ->
  aligned (Z.of_nat (length es)) new -> holds_history (es ++ new) p1 evs.
Proof.
  intros [Hs Hc Hp Hf (h0 & H0 & H1) Hk] Hst Hal. split; [|done|done|done| |].
  - rewrite <-(app_nil_r evs). by apply stream_app.
  - exists h0. split; by apply lookup_app_l_Some.
  - by apply (checkpoints_app es new).
Qed.

Lemma flush_cases db es pend idx p c : st_ok (ld_store db) -> st_view (ld_store db) = encode <$> es ->
  lastEntryContext db = wc idx p c 0 (encode <$> pend) ->
  let db' := (db_flush db).1 in
  st_ok (ld_store db') /\
  (((db_flush db).2 = Ok tt /\ st_view (ld_store db') = encode <$> (es ++ pend) /\ lastEntryContext db' = wc idx p c 0 []) \/
   ((exists e, (db_flush db).2 = Err e) /\ (exists e, (st_Append (ld_store db) (encode <$> pend)).2 = Err e) /\
    st_view (ld_store db') = encode <$> es /\ lastEntryContext db' = wc idx p c 0 (encode <$> pend))).
Proof.
  intros Hok Hv Hc. unfold db_flush. rewrite Hc. change (lc_out (wc idx p c 0 (encode <$> pend))) with (encode <$> pend).
  pose proof (st_Append_spec (ld_store db) (encode <$> pend) Hok) as [Hok' Hr].
  { apply Forall_fmap, Forall_forall. intros o _. apply encode_length. }
  destruct (st_Append (ld_store db) (encode <$> pend)) as [s [[]|e|]]; simpl in *; [| |done].
  - split; [done|]. left. split; [done|]. by rewrite Hr, Hv, fmap_app.
  - split; [done|]. right. split; [by eexists|]. split; [by exists e|]. split; [by rewrite Hr|done].
Qed.

(** What [SealBlock] and [AddLog] do once the context accepted the event. *)
Lemma flush_event db es pend p1 s evs e c new p' : st_ok (ld_store db) -> st_view (ld_store db) = encode <$> es ->
  stored_ok es p1 s -> holds_history (es ++ pend) p1 evs -> bounded p1 (evs ++ [e]) ->
  ev_ok (advs p1 evs) e -> stream (advs p1 evs) [e] new -> aligned (Z.of_nat (length (es ++ pend))) new -> p' = adv (advs p1 evs) e ->
  let l := wc (Z.of_nat (length (es ++ pend)) + Z.of_nat (length new)) p' c 0 ((encode <$> pend) ++ (encode <$> new)) in
  let '(db', r) := db_flush (set_context db l) in
  (r = Ok tt /\ logs_inv db' (ALog p1 (Some (evs ++ [e])) (evs ++ [e]))) \/
  ((exists x, r = Err x) /\ (exists out x, (st_Append (ld_store db) out).2 = Err x) /\ logs_inv db' (ALog p1 s (evs ++ [e]))).
Proof.
  intros Hok Hv Hs Hh Hb He Hst Hal -> l. pose proof (holds_snoc _ _ _ _ _ Hh He Hst Hal) as Hh'.
  assert (advs p1 (evs ++ [e]) = adv (advs p1 evs) e) as Had by (by rewrite advs_app).
  rewrite <-app_assoc in Hh'.
  destruct (flush_cases (set_context db l) es (pend ++ new) (Z.of_nat (length (es ++ pend ++ new))) (advs p1 (evs ++ [e])) c)
    as [Hok' Hr]; [done|done|unfold l; simpl; rewrite fmap_app, Had, app_assoc, (length_app (es ++ pend)), Nat2Z.inj_add; done|].
  destruct (db_flush (set_context db l)) as [db' r]. simpl in *. destruct Hr as [(-> & Hv' & Hc')|([x ->] & [x' Hx] & Hv' & Hc')].
  - left. split; [done|]. split; [done|]. exists (es ++ pend ++ new), [], c. split; [done|].
    rewrite !app_nil_r. by split_and!.
  - right. split; [by eexists|]. split; [by eexists _, x'|]. split; [done|]. exists es, (pend ++ new), c. by split_and!.
Qed.

Lemma idle_inv db es pend p1 s evs c new : st_ok (ld_store db) -> st_view (ld_store db) = encode <$> es ->
  stored_ok es p1 s -> holds_history (es ++ pend) p1 evs -> bounded p1 evs ->
  stream (advs p1 evs) [] new -> aligned (Z.of_nat (length (es ++ pend))) new ->
  logs_inv (set_context db (wc (Z.of_nat (length (es ++ pend)) + Z.of_nat (length new)) (advs p1 evs) c 0
    ((encode <$> pend) ++ (encode <$> new)))) (ALog p1 s evs).
Proof.
  intros Hok Hv Hs Hh Hb Hst Hal. split; [done|]. exists es, (pend ++ new), c. split; [done|]. split; [done|].
  rewrite app_assoc, (length_app (es ++ pend)), Nat2Z.inj_add, fmap_app. split; [done|]. split; [by apply holds_more|done].
Qed.

Lemma hist_len es p1 evs : holds_history es p1 evs -> 0 < Z.of_nat (length es).
Proof. intros Hh. destruct (hh_head _ _ _ Hh) as (h0 & _ & H1). apply lookup_lt_Some in H1. lia. Qed.

(** ** The operations *)

(** Runs a request. *)
Definition serve (db : LogsDB St) (r : request) : LogsDB St * result unit :=
  match r with
  | RSeal parent b t => db_SealBlock db parent b t
  | RLog h parent i m => db_AddLog db h parent i m
  | RRewind head => db_Rewind db head
  end.

(** The store fails what the request asks of it. *)
Definition store_fails (st : St) (r : request) : Prop :=
  match r with
  | RRewind _ => exists i e, (st_Truncate st i).2 = Err e
  | _ => exists out e, (st_Append st out).2 = Err e
  end.

Definition refines_step (db : LogsDB St) (a : alog) (r : request) : Prop :=
  let '(db', res) := serve db r in
  exists a' b, alog_step a r a' b /\ logs_inv db' a' /\
    match res with
    | Ok _ => b = true
    | Err _ => b = false /\ (accepts a r -> store_fails (ld_store db) r)
    | Panic => False
    end.

Lemma refine_first db parent b t : logs_inv db AEmpty -> request_ok AEmpty (RSeal parent b t) ->
  refines_step db AEmpty (RSeal parent b t).
Proof.
  intros (Hok & Hv & Hc) (Hh & Hnz & Hn & Hn1 & Ht). unfold refines_step, serve, db_SealBlock. rewrite Hc.
  rewrite SealBlock_first. set (p1 := first_pos b t). set (new := repeat_entries p1). set (l := wc 2 _ _ _ _).
  assert (holds_history new p1 []) as Hhist.
  { split; [apply stream_repeat|constructor|split_and!; done || (unfold is_u64; simpl; lia)|done|by exists (p_hash p1)|].
    intros [|i] Hi; [by do 3 eexists|simpl in Hi; lia]. }
  assert (bounded p1 []) as Hb by done.
  destruct (flush_cases (set_context db l) [] new 2 p1 no_log) as [Hok' Hr]; [done|done|done|].
  destruct (db_flush (set_context db l)) as [db' r]. simpl in *. destruct Hr as [(-> & Hv' & Hc')|([x ->] & [x' Hx] & Hv' & Hc')].
  - exists (ALog p1 (Some []) []), true. split; [constructor|]. split; [|done]. split; [done|]. exists new, [], no_log.
    rewrite app_nil_r. by split_and!.
  - exists (ALog p1 None []), false. split; [constructor|]. split; [|split; [done|by eexists _, x']].
    split; [done|]. exists [], new, no_log. by split_and!.
Qed.

Lemma refine_seal db p1 s evs parent b t : logs_inv db (ALog p1 s evs) -> request_ok (ALog p1 s evs) (RSeal parent b t) ->
  refines_step db (ALog p1 s evs) (RSeal parent b t).
Proof.
  intros (Hok & es & pend & c & Hv & Hs & Hc & Hh & Hb) (Hbh & Hnz & Hn & Hn1 & Ht).
  unfold refines_step, serve, db_SealBlock. rewrite Hc.
  pose proof (SealBlock_ctx _ (advs p1 evs) c (encode <$> pend) parent b t (hist_len _ _ _ Hh)
    (bounded_can_seal _ _ (hh_chain _ _ _ Hh) (hh_pos _ _ _ Hh) Hb)) as Hop. simpl in Hop.
  destruct (seal_fits (advs p1 evs) parent b t) eqn:Hfit; destruct Hop as (new & c' & H1 & H2 & Hst & Hal);
    destruct (lc_SealBlock _ parent b t) as [l r]; simpl in H1, H2; subst l.
  - unfold is_ok in H2. subst r. set (e := EvSeal parent (bid_Hash b) (bid_Number b) t) in *.
    pose proof Hfit as Hfit'. unfold seal_fits in Hfit'. rewrite !andb_true_iff, !Z.eqb_eq, Z.leb_le in Hfit'. destruct Hfit' as [[Hpar Hnum] Htime].
    assert (ev_ok (advs p1 evs) e) as He by (split_and!; try done; unfold is_u64; lia).
    assert (bounded p1 (evs ++ [e])) as Hb' by (split; [apply Hb|rewrite advs_app; done]).
    pose proof (flush_event db es pend p1 s evs e c' new (adv (advs p1 evs) e) Hok Hv Hs Hh Hb' He Hst Hal eq_refl) as Hf. cbv zeta in Hf.
    destruct (db_flush _) as [db' r]. destruct Hf as [[-> Hf]|([x ->] & Hx & Hf)].
    + do 2 eexists. split; [by apply as_seal|]. by split.
    + do 2 eexists. split; [by apply as_seal_unstored|]. by split_and!.
  - destruct H2 as [x ->]. exists (ALog p1 s evs), false. split; [by constructor|].
    split; [by eapply idle_inv|]. split; [done|]. simpl. by rewrite Hfit.
Qed.

Lemma refine_log db p1 s evs h parent i m : logs_inv db (ALog p1 s evs) -> request_ok (ALog p1 s evs) (RLog h parent i m) ->
  refines_step db (ALog p1 s evs) (RLog h parent i m).
Proof.
  intros (Hok & es & pend & c & Hv & Hs & Hc & Hh & Hb) (_ & Hhash & Hi & Hm).
  unfold refines_step, serve, db_AddLog. rewrite Hc.
  pose proof (ApplyLog_ctx _ (advs p1 evs) c (encode <$> pend) parent i h m (hist_len _ _ _ Hh) Hi) as Hop. simpl in Hop.
  destruct (log_fits (advs p1 evs) parent i) eqn:Hfit; [destruct (large_msg m) eqn:Hl|].
  - destruct Hop as [Hst [x Hx]]. destruct (lc_ApplyLog _ parent i h m) as [l r]. simpl in *. subst r.
    exists (AStuck p1 s), false. split; [by eapply as_log_large|].
    split; [split; [done|by exists es]|]. split; [done|]. simpl. rewrite Hl. by intros [_ ?].
  - destruct Hop as (new & c' & H1 & H2 & Hst & Hal). destruct (lc_ApplyLog _ parent i h m) as [l r]. simpl in H1, H2. subst l.
    unfold is_ok in H2. subst r. set (e := EvLog h m) in *.
    assert (i = p_since (advs p1 evs)) as ->.
    { unfold log_fits in Hfit. apply andb_true_iff in Hfit as [_ Hfit]. by apply Z.eqb_eq. }
    assert (ev_ok (advs p1 evs) e) as He.
    { split; [done|]. split; [done|]. destruct m as [m|]; [|done]. simpl in Hl. apply Z.ltb_ge in Hl.
      destruct Hm as (? & ? & ? & ? & ? & ?). split_and!; try done; lia. }
    assert (bounded p1 (evs ++ [e])) as Hb' by (split; [apply Hb|rewrite advs_app; apply Hb]).
    pose proof (flush_event db es pend p1 s evs e c' new (adv (advs p1 evs) e) Hok Hv Hs Hh Hb' He Hst Hal eq_refl) as Hf. cbv zeta in Hf.
    destruct (db_flush _) as [db' r]. destruct Hf as [[-> Hf]|([x ->] & Hx & Hf)].
    + do 2 eexists. split; [by apply as_log|]. by split.
    + do 2 eexists. split; [by apply as_log_unstored|]. by split_and!.
  - destruct Hop as (new & c' & H1 & H2 & Hst & Hal). destruct (lc_ApplyLog _ parent i h m) as [l r]. simpl in H1, H2. subst l.
    destruct H2 as [x ->]. exists (ALog p1 s evs), false. split; [by constructor|].
    split; [by eapply idle_inv|]. split; [done|]. simpl. rewrite Hfit. by intros [? _].
Qed.

Lemma refine_stuck db p1 s r : logs_inv db (AStuck p1 s) -> match r with RRewind _ => False | _ => True end ->
  refines_step db (AStuck p1 s) r.
Proof.
  intros Hinv Hr. pose proof Hinv as (Hok & es & Hv & Hs & Hst). destruct (stuck_ops _ Hst) as [Hseal Hlog].
  assert (set_context db (lastEntryContext db) = db) as Heta by (by destruct db).
  unfold refines_step, serve. destruct r as [parent b t|h parent i m|head]; [| |done].
  - unfold db_SealBlock. destruct (Hseal parent b t) as [e ->]. rewrite Heta. do 2 eexists. split; [by apply as_stuck|done].
  - unfold db_AddLog. destruct (Hlog parent i h m) as [e ->]. rewrite Heta. do 2 eexists. split; [by apply as_stuck|done].
Qed.

(** ** Rewinding *)

(** The store that ends with a hash needs no trimming. *)
Lemma trim_hash st es : st_ok st -> st_view st = encode <$> es -> ends_hash es -> trimToLastSealed st = (st, Ok tt).
Proof.
  intros Hok Hv (es0 & h & Hes). pose proof (reads_view st es Hok Hv) as (Hsz & Hlast & Hr & _).
  unfold trimToLastSealed. rewrite Hlast, Hes, length_app. cbn [trim_loop].
  replace (Z.of_nat (length es0 + length [OCanonicalHash h]) - 1) with (Z.of_nat (length es0)) by (simpl; lia).
  destruct (Z.ltb_spec (Z.of_nat (length es0)) 0); [lia|].
  rewrite (Hr (length es0) (OCanonicalHash h)) by (rewrite Hes; by apply list_lookup_middle).
  cbn [map_err rbind]. change (entry_Type (encode (OCanonicalHash h)) =? TypeCanonicalHash) with true. cbv iota.
  by rewrite Z.ltb_irrefl.
Qed.

Lemma init_trimmed db es p1 evs : st_ok (ld_store db) -> st_view (ld_store db) = encode <$> es -> ends_hash es ->
  holds_history es p1 evs -> bounded p1 evs ->
  exists db', db_init db true = (db', Ok tt) /\ logs_inv db' (ALog p1 (Some evs) evs) /\ ld_store db' = ld_store db.
Proof.
  intros Hok Hv He Hh Hb. unfold db_init. rewrite (trim_hash _ es Hok Hv He). cbn [map_err].
  destruct (init_context_spec _ es (reads_view _ es Hok Hv) p1 evs Hh) as [c Hc].
  cbn [ld_store set_store]. rewrite Hc. eexists. split; [done|]. split; [|done]. split; [done|].
  exists es, [], c. rewrite app_nil_r. by split_and!.
Qed.

Lemma inv_store db a st' : logs_inv db a -> st_ok st' -> st_view st' = st_view (ld_store db) -> logs_inv (set_store db st') a.
Proof. intros [Hok Hi] Hok' Hv. split; [done|]. simpl. by rewrite Hv. Qed.

Lemma refine_rewind_stored db a p1 s es head : logs_inv db a -> stored_of a = Some (p1, s) ->
  st_view (ld_store db) = encode <$> es -> holds_history es p1 s -> bounded p1 s ->
  nextEntryIndex (lastEntryContext db) <> 0 -> refines_step db a (RRewind head).
Proof.
  intros Hinv Ha Hv Hh Hb Hidx. pose proof Hinv as [Hok _]. unfold refines_step, serve, db_Rewind, iter_at.
  assert (forall e : error, ~ accepts a (RRewind head) -> exists a' b, alog_step a (RRewind head) a' b /\ logs_inv db a' /\
    b = false /\ (accepts a (RRewind head) -> store_fails (ld_store db) (RRewind head))) as Href.
  { intros _ Hn. exists a, false. split; [constructor|]. split_and!; done. }
  assert (accepts a (RRewind head) -> exists evs rest, s = evs ++ rest /\ p_num (advs p1 evs) = bid_Number head /\
    p_since (advs p1 evs) = 0 /\ p_hash (advs p1 evs) = bid_Hash head) as Hacc.
  { intros (q & s' & evs & Hq & rest & H1 & H2 & H3 & H4). rewrite Ha in Hq. injection Hq as <- <-. by exists evs, rest. }
  pose proof (hh_chain _ _ _ Hh) as Hch.
  destruct (seek_seal (ld_store db) es (reads_view _ es Hok Hv) p1 s Hh _ (bid_Number head) Hidx)
    as [(dn & evs' & mid & rest' & c & Hmv & Hn & Hz & Hlen & Hends & ->)|[[Hlt ->]|[Hlt [e ->]]]].
  2: { apply (Href EOF). intros (evs & rest & -> & Hn & _)%Hacc. apply chain_app in Hch as [_ Hch]. apply chain_num in Hch.
       rewrite advs_app in Hlt. lia. }
  2: { apply (Href EOF). intros (evs & rest & -> & Hn & _)%Hacc. apply chain_app in Hch as [Hch _]. apply chain_num in Hch. lia. }
  autorewrite with logs. destruct (Z.eqb_spec (p_hash (advs p1 dn)) (bid_Hash head)) as [Hhash|Hhash]; cbn [negb].
  2: { apply (Href EOF). intros (evs & rest & Hs & Hn' & Hz' & Hh')%Hacc. pose proof (mv_evs _ _ _ _ _ _ _ Hmv) as Hevs.
       rewrite Hs in Hch. rewrite Hs in Hevs. destruct (prefix_unique _ _ _ _ _ Hch Hevs) as [-> _]; [lia|lia|done]. }
  change (nextEntryIndex (full (Z.of_nat (length mid)) (advs p1 dn) c)) with (Z.of_nat (length mid)).
  pose proof (mv_es _ _ _ _ _ _ _ Hmv) as Hes. pose proof (mv_evs _ _ _ _ _ _ _ Hmv) as Hevs.
  pose proof (st_Truncate_spec (ld_store db) (Z.of_nat (length mid) - 1) Hok) as [Hok' Hr].
  { rewrite Hv, length_fmap, Hes, length_app. lia. }
  destruct (st_Truncate (ld_store db) (Z.of_nat (length mid) - 1)) as [st' [[]|e|]] eqn:Htr; simpl in Hok', Hr; [| |done].
  - assert (st_view st' = encode <$> mid) as Hv'.
    { rewrite Hr, Hv, Hes, fmap_app.
      replace (Z.to_nat (Z.of_nat (length mid) - 1 + 1)) with (length (encode <$> mid)) by (rewrite length_fmap; lia).
      apply take_app_length. }
    pose proof (hh_chain _ _ _ Hh) as Hc. rewrite Hevs in Hc, Hb.
    destruct (init_trimmed (set_store db st') mid p1 dn Hok' Hv' Hends (holds_move _ _ _ _ _ _ _ Hh Hmv Hlen)
      (bounded_prefix _ _ _ Hc Hb)) as (db' & -> & Hinv' & _).
    exists (ALog p1 (Some dn) dn), true. split; [|by split]. apply (as_rewind a p1 s); [done|]. by exists evs'.
  - exists a, false. split; [constructor|]. split; [by apply inv_store|]. split; [done|]. intros _.
    eexists _, e. by rewrite Htr.
Qed.

(** With nothing stored there is nothing to rewind to. *)
Lemma rewind_empty db head : st_ok (ld_store db) -> st_view (ld_store db) = [] -> serve db (RRewind head) = (db, Err ErrFuture).
Proof.
  intros Hok Hv. unfold serve, db_Rewind, iter_at, newIteratorAt, db_searchCheckpoint.
  destruct (nextEntryIndex (lastEntryContext db) =? 0); [done|].
  pose proof (st_Last_spec _ Hok) as Hl. rewrite Hv in Hl. simpl in Hl. rewrite Hl.
  change (Z.quot (-1) searchCheckpointFrequency + 1) with 1. cbn [Z.to_nat Pos.to_nat]. simpl searchCheckpoint_loop.
  cbn [rbind]. unfold readSearchCheckpoint. rewrite (st_Read_end _ (0 * searchCheckpointFrequency)); [done|done|]. by rewrite Hv.
Qed.

Lemma refine_rewind db a head : logs_inv db a -> refines_step db a (RRewind head).
Proof.
  intros Hinv. pose proof Hinv as [Hok Hi].
  assert (st_view (ld_store db) = [] -> stored_of a = None -> refines_step db a (RRewind head)) as Hempty.
  { intros Hv Hn. unfold refines_step. rewrite (rewind_empty db head Hok Hv). exists a, false. split; [constructor|].
    split_and!; [done|done|]. intros (p1 & s & evs & Hs & _). congruence. }
  destruct a as [|p1 [s|] evs|p1 [s|]].
  - by apply Hempty; [apply Hi|].
  - destruct Hi as (es & pend & c & Hv & [Hh Hb] & Hc & Hh' & _). apply (refine_rewind_stored db _ p1 s es); try done.
    rewrite Hc. simpl. pose proof (hist_len _ _ _ Hh'). lia.
  - destruct Hi as (es & pend & c & Hv & Hs & _). simpl in Hs. subst es. by apply Hempty.
  - destruct Hi as (es & Hv & [Hh Hb] & Hst). apply (refine_rewind_stored db _ p1 s es); try done. by apply stuck_index.
  - destruct Hi as (es & Hv & Hs & _). simpl in Hs. subst es. by apply Hempty.
Qed.

Lemma serve_refines db a r : logs_inv db a -> request_ok a r -> refines_step db a r.
Proof.
  intros Hinv Hr. destruct r as [parent b t|h parent i m|head]; [| |by apply refine_rewind].
  - destruct a as [|p1 s evs|p1 s]; [by apply refine_first|by apply refine_seal|by apply refine_stuck].
  - destruct a as [|p1 s evs|p1 s]; [by destruct Hr|by apply refine_log|by apply refine_stuck].
Qed.

(** ** Opening *)

(** Opening a store that holds the first [n] entries of a history, as a crash
    in the middle of a write can leave it. *)
Lemma trim_cases st es p1 evs n : st_ok st -> st_view st = encode <$> take n es -> holds_history es p1 evs ->
  let '(st', r) := trimToLastSealed st in
  (r = Ok tt /\ st_ok st' /\
    ((st_view st' = [] /\ (n < 2)%nat) \/
     exists dn evs' es', evs = dn ++ evs' /\ st_view st' = encode <$> es' /\ ends_hash es' /\ holds_history es' p1 dn /\
       ((length es <= n)%nat -> Forall log_ev evs'))) \/
  (exists i e, (st_Truncate st i).2 = Err e /\ r = Err e).
Proof.
  intros Hok Hv Hh. pose proof (reads_view st (take n es) Hok Hv) as Hreads. pose proof Hreads as (Hsz & Hlast & _).
  unfold trimToLastSealed. rewrite Hlast.
  destruct (trim_loop_spec st (take n es) Hreads (S (Z.to_nat (st_Size st))) (length (take n es))) as (j & -> & Hj & Hhash & Hno);
    [lia|lia|].
  assert (forall st', st_ok st' -> st_view st' = take j (st_view st) -> st_ok st' /\
    ((st_view st' = [] /\ (n < 2)%nat) \/
     exists dn evs' es', evs = dn ++ evs' /\ st_view st' = encode <$> es' /\ ends_hash es' /\ holds_history es' p1 dn /\
       ((length es <= n)%nat -> Forall log_ev evs'))) as Hgood.
  { intros st' Hok' Hv'. split; [done|]. rewrite Hv', Hv, <-fmap_take, take_take.
    destruct (hh_head _ _ _ Hh) as (h0 & H0 & H1).
    destruct (decide (n < 2)%nat) as [Hn|Hn].
    - left. split; [|done]. destruct Hhash as [-> |[h Hl]]; [done|].
      apply lookup_take_Some in Hl as [Hl Hlt]. destruct j as [|j]; [done|]. rewrite Nat.sub_succ, Nat.sub_0_r in *.
      assert (j = 0%nat) as -> by lia. by rewrite H0 in Hl.
    - right. destruct Hhash as [-> |[h Hl]].
      { exfalso. apply (Hno 1%nat h0); [rewrite length_take; apply lookup_lt_Some in H1; lia|]. by rewrite lookup_take_lt by lia. }
      apply lookup_take_Some in Hl as [Hl Hlt]. destruct j as [|j].
      { simpl in Hl. by rewrite H0 in Hl. }
      rewrite Nat.sub_succ, Nat.sub_0_r in *. rewrite Nat.min_l by lia.
      destruct (stream_hash p1 evs es (hh_stream _ _ _ Hh) j h Hl) as (dn & evs' & Hmv).
      assert (2 <= length (take (S j) es))%nat as Hlen.
      { destruct j as [|j]; [by rewrite H0 in Hl|]. apply lookup_lt_Some in Hl. rewrite length_take. lia. }
      exists dn, evs', (take (S j) es). split; [apply Hmv|]. split; [done|].
      split; [exists (take j es), h; by apply take_S_r|]. split; [by eapply holds_move|].
      intros Hall. apply (stream_no_hash _ _ _ (mv_rest _ _ _ _ _ _ _ Hmv)). intros i h' Hi. rewrite lookup_drop in Hi.
      apply (Hno (S j + i)%nat h'); [|by rewrite take_ge by lia]. apply lookup_lt_Some in Hi. rewrite length_take. lia. }
  destruct (Z.ltb_spec (Z.of_nat j - 1) (Z.of_nat (length (take n es)) - 1)) as [Hlt|Hge].
  - pose proof (st_Truncate_spec st (Z.of_nat j - 1) Hok) as [Hok' Hr]; [rewrite Hv, length_fmap; lia|].
    destruct (st_Truncate st (Z.of_nat j - 1)) as [st' [[]|e|]] eqn:Htr; simpl in Hok', Hr; [| |done].
    + left. split; [done|]. apply Hgood; [done|]. by replace (Z.to_nat (Z.of_nat j - 1 + 1)) with j in Hr by lia.
    + right. exists (Z.of_nat j - 1), e. by rewrite Htr.
  - left. split; [done|]. apply Hgood; [done|]. rewrite take_ge; [done|]. rewrite Hv, length_fmap. lia.
Qed.

Lemma open_spec st chainID es p1 evs n : st_ok st -> st_view st = encode <$> take n es -> holds_history es p1 evs -> bounded p1 evs ->
  match NewFromEntryStore st chainID true with
  | Ok db => (logs_inv db AEmpty /\ (n < 2)%nat) \/
      exists dn evs', evs = dn ++ evs' /\ logs_inv db (ALog p1 (Some dn) dn) /\ ((length es <= n)%nat -> Forall log_ev evs')
  | Err _ => exists i e, (st_Truncate st i).2 = Err e
  | Panic => False
  end.
Proof.
  intros Hok Hv Hh Hb. unfold NewFromEntryStore, db_init. cbn [ld_store].
  pose proof (trim_cases st es p1 evs n Hok Hv Hh) as Ht. destruct (trimToLastSealed st) as [st' r].
  destruct Ht as [(-> & Hok' & Hcase)|(i & e & He & ->)]; cbn [map_err rbind]; [|by exists i, e].
  destruct Hcase as [[Hv' Hn]|(dn & evs' & es' & -> & Hv' & Hends & Hh' & Hlogs)]; cbn [ld_store set_store].
  - unfold init_context. rewrite st_Last_spec, Hv' by done. cbn. left. split; [|done]. by split_and!.
  - destruct (init_context_spec _ es' (reads_view _ es' Hok' Hv') p1 dn Hh') as [c ->]. cbn [map_err rbind]. right.
    exists dn, evs'. split; [done|]. split; [|done]. split; [done|]. exists es', [], c. rewrite app_nil_r.
    pose proof (hh_chain _ _ _ Hh) as Hc. pose proof (bounded_prefix _ _ _ Hc Hb) as Hb'. by split_and!.
Qed.
End refine.
