(* ===== verification/LogQuery.v ===== *)
(** * Queries of the log database

    [FindSealedBlock], [OpenBlock] and [Contains] answer what the stored
    history says. *)

From stdpp Require Import base gmap sets list.
From S2P Require Import Prelude EthTypes EntryDB FromDA DepSet CrossGraph LogDB LogCodec LogStream LogRead LogSearch LogRecover LogWrite LogRefine.

(** ** Blocks of a history *)

(** Block [b] of the history: the events before its parent was sealed, its
    logs, its hash and time. *)
Definition block_in (p1 : pos) (evs : list event) (b : Z) (dn logs : list event) (h t : Z) : Prop :=
  exists par rest, evs = dn ++ logs ++ EvSeal par h b t :: rest /\
    p_num (advs p1 dn) = b - 1 /\ p_since (advs p1 dn) = 0 /\ Forall log_ev logs.

Definition seal_of (p : pos) : BlockSeal := {| bs_Hash := p_hash p; bs_Number := p_num p; bs_Timestamp := p_time p |}.

(** The executing messages of a list of logs, by log index. *)
Definition add_exec (a : Z * gmap Z ExecutingMessage) (e : event) : Z * gmap Z ExecutingMessage :=
  match e with
  | EvLog _ (Some m) => (a.1 + 1, <[a.1 := m]> a.2)
  | _ => (a.1 + 1, a.2)
  end.

Definition exec_map (logs : list event) : gmap Z ExecutingMessage := (foldl add_exec (0, ∅) logs).2.

Lemma exec_count logs : (foldl add_exec (0, ∅) logs).1 = Z.of_nat (length logs).
Proof.
  induction logs as [|e logs IH] using rev_ind; [done|]. rewrite foldl_snoc, length_app. simpl.
  destruct e as [|h [m|]]; simpl; rewrite IH; lia.
Qed.

Lemma exec_map_snoc logs h m : exec_map (logs ++ [EvLog h m]) =
  match m with Some m => <[Z.of_nat (length logs) := m]> (exec_map logs) | None => exec_map logs end.
Proof. unfold exec_map. rewrite foldl_snoc. destruct m as [m|]; simpl; [by rewrite exec_count|done]. Qed.

Lemma exec_map_lookup logs i m : Forall log_ev logs -> exec_map logs !! Z.of_nat i = Some m <-> exists h, logs !! i = Some (EvLog h (Some m)).
Proof.
  revert i m. induction logs as [|e logs IH] using rev_ind; intros i m Hl.
  { split; [done|]. intros [h Hh]. done. }
  apply Forall_app in Hl as [Hl He]. rewrite Forall_singleton in He. destruct e as [|h m']; [done|]. rewrite exec_map_snoc.
  destruct (decide (i = length logs)) as [->|Hne].
  - rewrite (list_lookup_middle logs [] _ _ eq_refl). destruct m' as [m'|].
    + rewrite lookup_insert_eq. split; [intros [= ->]; by exists h|]. by intros [h' [= _ ->]].
    + rewrite IH by done. rewrite lookup_ge_None_2 by lia. split; intros [h' Hh]; done.
  - assert (exec_map logs !! Z.of_nat i = Some m <-> exists h0, (logs ++ [EvLog h m']) !! i = Some (EvLog h0 (Some m))) as Hiff.
    { rewrite IH by done. destruct (decide (i < length logs)%nat).
      - by rewrite lookup_app_l.
      - rewrite lookup_ge_None_2, (lookup_ge_None_2 (logs ++ _)) by (rewrite ?length_app; simpl; lia). done. }
    destruct m' as [m'|]; [|done]. rewrite lookup_insert_ne by lia. done.
Qed.

(** The first seal after a position. *)
Lemma first_seal evs : Forall log_ev evs \/
  exists logs par h n t rest, Forall log_ev logs /\ evs = logs ++ EvSeal par h n t :: rest.
Proof.
  induction evs as [|[par h n t|h m] evs IH]; [by left| |].
  - right. exists [], par, h, n, t, evs. by split; [constructor|].
  - destruct IH as [Hl|(logs & par & h' & n & t & rest & Hl & ->)]; [left; by constructor|].
    right. exists (EvLog h m :: logs), par, h', n, t, rest. by split; [constructor|].
Qed.

Lemma first_seal_unique (logs logs' rest rest' : list event) s s' : Forall log_ev logs -> Forall log_ev logs' -> seal_ev s -> seal_ev s' ->
  logs ++ s :: rest = logs' ++ s' :: rest' -> logs = logs' /\ s = s' /\ rest = rest'.
Proof.
  revert logs'. induction logs as [|e logs IH]; intros logs' Hl Hl' Hs Hs' Heq; destruct logs' as [|e' logs']; simpl in Heq.
  - by injection Heq as -> ->.
  - injection Heq as -> _. apply Forall_cons_1 in Hl' as [He _]. by destruct e'.
  - injection Heq as <- _. apply Forall_cons_1 in Hl as [He _]. by destruct e.
  - injection Heq as -> Heq. apply Forall_cons_1 in Hl as [_ Hl]. apply Forall_cons_1 in Hl' as [_ Hl'].
    destruct (IH logs' Hl Hl' Hs Hs' Heq) as (-> & -> & ->). done.
Qed.

Lemma advs_logs p logs : Forall log_ev logs -> advs p logs = with_since p (p_since p + Z.of_nat (length logs)).
Proof.
  revert p. induction logs as [|e logs IH]; intros p Hl.
  - simpl. rewrite Z.add_0_r. by destruct p.
  - apply Forall_cons_1 in Hl as [He Hl]. destruct e; [done|]. simpl. rewrite IH by done. unfold with_since. simpl. f_equal. lia.
Qed.

(** A position is some logs after a seal. *)
Lemma pos_split p1 evs : p_since p1 = 0 -> exists dn logs, evs = dn ++ logs /\ Forall log_ev logs /\
  p_since (advs p1 dn) = 0 /\ p_num (advs p1 dn) = p_num (advs p1 evs) /\ p_since (advs p1 evs) = Z.of_nat (length logs).
Proof.
  intros H0. induction evs as [|e evs IH] using rev_ind; [by exists [], []|].
  destruct IH as (dn & logs & -> & Hl & Hz & Hn & Hs). destruct e as [par h n t|h m].
  - exists ((dn ++ logs) ++ [EvSeal par h n t]), []. rewrite app_nil_r, !advs_app. split_and!; try done.
  - exists dn, (logs ++ [EvLog h m]). rewrite app_assoc. split; [done|]. split; [apply Forall_app; split; [done|by repeat constructor]|].
    split; [done|]. rewrite !advs_app in *. simpl. split; [done|]. rewrite length_app. simpl. lia.
Qed.

Lemma block_in_unique p1 evs b dn logs h t dn' logs' h' t' : chain p1 evs ->
  block_in p1 evs b dn logs h t -> block_in p1 evs b dn' logs' h' t' -> dn = dn' /\ logs = logs' /\ h = h' /\ t = t'.
Proof.
  intros Hc (par & rest & He & Hn & Hs & Hl) (par' & rest' & He' & Hn' & Hs' & Hl'). rewrite He in Hc, He'.
  destruct (prefix_unique _ _ _ _ _ Hc He') as [-> Heq]; [lia|lia|]. split; [done|].
  apply first_seal_unique in Heq as (-> & Heq & _); try done. by injection Heq as _ -> ->.
Qed.

Section queries.
Context {St : Type} {ES : EntryStore St} `{Keccak}.
Variable db : LogsDB St.
Variable all : list EntryObj.
Hypothesis Hreads : reads (ld_store db) all.
Variables (p1 : pos) (evs : list event).
Hypothesis Hh : holds_history all p1 evs.
Hypothesis Hidx : nextEntryIndex (lastEntryContext db) <> 0.

Abbreviation at_ pre := (Z.of_nat (length pre)).

Lemma hist_pos dn evs' : evs = dn ++ evs' -> pos_ok (advs p1 dn) /\ chain (advs p1 dn) evs'.
Proof.
  intros He. destruct Hh as [_ Hc Hp _ _ _]. rewrite He in Hc. apply chain_app in Hc as [Hc1 Hc2].
  split; [by apply chain_pos_ok|done].
Qed.

(** ** [FindSealedBlock] *)

Lemma FindSealedBlock_cases number :
  (exists dn evs', evs = dn ++ evs' /\ p_num (advs p1 dn) = number /\ p_since (advs p1 dn) = 0 /\
     FindSealedBlock db number = Ok (seal_of (advs p1 dn))) \/
  (p_num (advs p1 evs) < number /\ exists e, FindSealedBlock db number = Err (Wrap e ErrFuture)) \/
  (number < p_num p1 /\ exists e e', FindSealedBlock db number = Err (Wrap e (Wrap e' ErrSkipped))).
Proof.
  unfold FindSealedBlock, iter_at.
  destruct (seek_seal (ld_store db) all Hreads p1 evs Hh _ number Hidx)
    as [(dn & evs' & mid & rest' & c & Hmv & Hn & Hz & _ & _ & ->)|[[Hlt ->]|[Hlt [e ->]]]].
  - left. exists dn, evs'. autorewrite with logs. rewrite Hn, Z.eqb_refl. cbn [negb].
    split; [apply Hmv|]. split; [done|]. split; [done|]. unfold seal_of. by rewrite Hn.
  - right. left. split; [done|]. by eexists.
  - right. right. split; [done|]. by do 2 eexists.
Qed.

(** ** [OpenBlock] *)

Definition opened (parentHash : Z) (logs : list event) : OpenedBlock :=
  {| ob_ref := {| l1_Hash := 0; l1_Number := 0; l1_ParentHash := parentHash; l1_Time := 0 |};
     ob_logCount := Z.of_nat (length logs); ob_execMsgs := exec_map logs |}.

Definition opened_block (parentHash h b t : Z) (logs : list event) : OpenedBlock :=
  {| ob_ref := {| l1_Hash := h; l1_Number := b; l1_ParentHash := parentHash; l1_Time := t |};
     ob_logCount := Z.of_nat (length logs); ob_execMsgs := exec_map logs |}.

(** The current log of a context after [logs]. *)
Definition current (logs : list event) (c : cur_log) : Prop :=
  match last logs with Some (EvLog h m) => c = (h, m) | _ => True end.

Lemma full_InitMessage idx p c : InitMessage (full idx p c) = if 0 <? p_since p then Some (c.1, p_since p - 1) else None.
Proof.
  unfold InitMessage, hasReadableLog. autorewrite with logs. cbn [negb]. rewrite andb_true_r.
  change (lc_logsSince (full idx p c)) with (p_since p). by destruct (0 <? p_since p).
Qed.

Lemma full_ExecMessage idx p c : ExecMessage (full idx p c) = if 0 <? p_since p then c.2 else None.
Proof. unfold ExecMessage, hasReadableLog. autorewrite with logs. cbn [negb andb]. by rewrite andb_true_r. Qed.

(** A context within the block leaves the gathered logs as they are when its
    log is among them. *)
Lemma open_again b ph pd logs c idx : Forall log_ev logs -> p_since pd = 0 -> p_num pd < b -> is_u32 (p_since (advs pd logs)) ->
  current logs c -> open_fn b (opened ph logs) (full idx (advs pd logs) c) = (opened ph logs, None).
Proof.
  intros Hl Hz Hb Hu Hc. unfold open_fn. rewrite full_InitMessage, full_ExecMessage. autorewrite with logs.
  rewrite logs_num by done. destruct (Z.eqb_spec (p_num pd) b); [lia|]. destruct (Z.ltb_spec b (p_num pd)); [lia|].
  rewrite advs_logs, Hz in * by done. cbn [p_since with_since] in *.
  induction logs as [|e logs _] using rev_ind; [done|]. unfold current in Hc. rewrite last_snoc in Hc.
  apply Forall_app in Hl as [Hl He]. rewrite Forall_singleton in He. destruct e as [|h m]; [done|]. subst c.
  rewrite length_app in *. cbn [length] in *. destruct (Z.ltb_spec 0 (0 + Z.of_nat (length logs + 1))); [|lia].
  unfold u32. rewrite Z.mod_small by (unfold is_u32 in Hu; lia). unfold opened. rewrite length_app, exec_map_snoc. cbn [length snd].
  replace (0 + Z.of_nat (length logs + 1) - 1 + 1) with (Z.of_nat (length logs + 1)) by lia.
  destruct m as [m|]; [|done]. cbn [ob_ref ob_logCount ob_execMsgs].
  replace (0 + Z.of_nat (length logs + 1) - 1) with (Z.of_nat (length logs)) by lia. by rewrite insert_insert_eq.
Qed.

Lemma open_log b ph pd logs h m idx : Forall log_ev logs -> p_since pd = 0 -> p_num pd < b ->
  is_u32 (p_since (advs pd (logs ++ [EvLog h m]))) ->
  open_fn b (opened ph logs) (full idx (advs pd (logs ++ [EvLog h m])) (h, m)) = (opened ph (logs ++ [EvLog h m]), None).
Proof.
  intros Hl Hz Hb Hu. assert (Forall log_ev (logs ++ [EvLog h m])) as Hl'.
  { apply Forall_app. split; [done|]. by repeat constructor. }
  unfold open_fn. rewrite full_InitMessage, full_ExecMessage. autorewrite with logs.
  rewrite logs_num by done. destruct (Z.eqb_spec (p_num pd) b); [lia|]. destruct (Z.ltb_spec b (p_num pd)); [lia|].
  rewrite advs_logs, Hz in * by done. cbn [p_since with_since] in *.
  rewrite length_app in *. cbn [length] in *. destruct (Z.ltb_spec 0 (0 + Z.of_nat (length logs + 1))); [|lia].
  unfold u32. rewrite Z.mod_small by (unfold is_u32 in Hu; lia). unfold opened. rewrite length_app, exec_map_snoc. cbn [length snd].
  replace (0 + Z.of_nat (length logs + 1) - 1 + 1) with (Z.of_nat (length logs + 1)) by lia.
  destruct m as [m|]; [|done]. cbn [ob_ref ob_logCount ob_execMsgs].
  by replace (0 + Z.of_nat (length logs + 1) - 1) with (Z.of_nat (length logs)) by lia.
Qed.

Lemma open_seal b ph par h t logs p idx : open_fn b (opened ph logs) (full idx (adv p (EvSeal par h b t)) no_log) =
  (opened_block ph h b t logs, Some ErrStop).
Proof.
  unfold open_fn. rewrite full_InitMessage, full_ExecMessage. autorewrite with logs. cbn [adv p_since p_num p_hash p_time Z.ltb Z.compare].
  by rewrite Z.eqb_refl.
Qed.

Lemma current_kept pd logs c : Forall log_ev logs -> p_since pd = 0 -> current logs c -> current logs (kept (advs pd logs) c).
Proof.
  intros Hl Hz Hc. unfold kept. rewrite advs_logs, Hz by done. cbn [p_since with_since].
  destruct (Z.eqb_spec (0 + Z.of_nat (length logs)) 0); [|done]. by destruct logs; [|simpl in *; lia].
Qed.

Section opening.
Variables (b ph : Z) (pd : pos).
Hypothesis Hpd0 : p_since pd = 0.
Hypothesis Hpdn : p_num pd = b - 1.

Lemma Traverse_open p c evs0 rest : visits p c evs0 rest -> forall logs fuel (pre : list EntryObj),
  p = advs pd logs -> Forall log_ev logs -> chain p evs0 -> pos_ok p -> current logs c ->
  all = pre ++ rest -> (length rest < fuel)%nat ->
  (exists logs2 par h t rest_evs l, evs0 = logs2 ++ EvSeal par h b t :: rest_evs /\ Forall log_ev logs2 /\
     Traverse_loop (ld_store db) fuel (open_fn b) (opened ph logs) (full (at_ pre) p c) =
       (opened_block ph h b t (logs ++ logs2), l, Err ErrStop)) \/
  (Forall log_ev evs0 /\ exists bl l,
     Traverse_loop (ld_store db) fuel (open_fn b) (opened ph logs) (full (at_ pre) p c) = (bl, l, Err ErrFuture)).
Proof.
  intros Hv. induction Hv as [p c|p c d chunk c1 evs0 es Hv Hvs IH]; intros logs fuel pre Hp Hl Hc Hpos Hcur Hall Hf.
  { right. split; [constructor|]. destruct fuel; [simpl in Hf; lia|]. rewrite app_nil_r in Hall.
    cbn [Traverse_loop]. rewrite (next_end (ld_store db) all Hreads) by (by rewrite Hall). by do 2 eexists. }
  apply chain_app in Hc as [Hc1 Hc2]. pose proof (chain_pos_ok _ _ Hpos Hc1) as Hpos1.
  pose proof (quiet_visit (ld_store db) all Hreads pre es p c d chunk c1 Hall Hv Hpos Hc1) as Hq.
  rewrite length_app in Hf. replace fuel with (length chunk + (fuel - length chunk))%nat by lia.
  assert (all = (pre ++ chunk) ++ es) as Hall' by (by rewrite <-app_assoc).
  assert (d = [] -> current logs c1 ->
    (exists logs2 par h t rest_evs l, d ++ evs0 = logs2 ++ EvSeal par h b t :: rest_evs /\ Forall log_ev logs2 /\
     Traverse_loop (ld_store db) (length chunk + (fuel - length chunk)) (open_fn b) (opened ph logs) (full (at_ pre) p c) =
       (opened_block ph h b t (logs ++ logs2), l, Err ErrStop)) \/
    (Forall log_ev (d ++ evs0) /\ exists bl l,
     Traverse_loop (ld_store db) (length chunk + (fuel - length chunk)) (open_fn b) (opened ph logs) (full (at_ pre) p c) =
       (bl, l, Err ErrFuture))) as Hskip.
  { intros -> Hcur1. simpl advs in *.
    rewrite (quiet_Traverse (ld_store db) (open_fn b) _ _ _ _ _ (opened ph logs) Hq).
    - apply IH; try done. lia.
    - subst p. apply open_again; try done; [lia|apply Hpos]. }
  destruct Hv as [| |par h n t|par h n t|h m].
  - by apply Hskip.
  - apply Hskip; [done|]. subst p. by apply current_kept.
  - left. inversion_clear Hc1 as [|? ? ? He _]. destruct He as (_ & Hn & _). rewrite Hp, logs_num in Hn by done.
    assert (n = b) as -> by lia. exists [], par, h, t, evs0. eexists. split; [done|]. split; [constructor|].
    rewrite app_nil_r. eapply quiet_stop; [exact Hq|apply open_seal|done].
  - left. inversion_clear Hc1 as [|? ? ? He _]. destruct He as (_ & Hn & _). rewrite Hp, logs_num in Hn by done.
    assert (n = b) as -> by lia. exists [], par, h, t, evs0. eexists. split; [done|]. split; [constructor|].
    rewrite app_nil_r. eapply quiet_stop; [exact Hq|apply open_seal|done].
  - assert (advs p [EvLog h m] = advs pd (logs ++ [EvLog h m])) as Hadv by (rewrite Hp; symmetry; apply advs_app).
    assert (Forall log_ev (logs ++ [EvLog h m])) as Hl' by (apply Forall_app; split; [done|by repeat constructor]).
    rewrite (quiet_Traverse (ld_store db) (open_fn b) _ _ _ _ _ (opened ph (logs ++ [EvLog h m])) Hq).
    2: { rewrite Hadv. apply open_log; try done; [lia|]. rewrite <-Hadv. apply Hpos1. }
    destruct (IH (logs ++ [EvLog h m]) (fuel - length (log_entries h m))%nat (pre ++ log_entries h m)) as
      [(logs2 & par & h' & t & rest_evs & l & -> & Hl2 & Heq)|[Hl2 Heq]]; try done.
    + unfold current. by rewrite last_snoc.
    + lia.
    + left. exists (EvLog h m :: logs2), par, h', t, rest_evs, l. split; [done|]. split; [by constructor|].
      rewrite <-app_assoc in Heq. exact Heq.
    + right. split; [by constructor|done].
Qed.
End opening.

Lemma OpenBlock_cases b : 0 < b < two64 ->
  (exists dn logs h t, block_in p1 evs b dn logs h t /\
     logs_OpenBlock db b = Ok (opened_block (p_hash (advs p1 dn)) h b t logs)) \/
  ((forall dn logs h t, ~ block_in p1 evs b dn logs h t) /\ exists e, logs_OpenBlock db b = Err e).
Proof.
  intros Hb. unfold logs_OpenBlock. destruct (Z.eqb_spec b 0); [lia|]. unfold iter_at, u64. rewrite Z.mod_small by lia.
  destruct (seek_seal (ld_store db) all Hreads p1 evs Hh _ (b - 1) Hidx)
    as [(dn & evs' & mid & rest' & c & Hmv & Hn & Hz & Hlen & _ & ->)|[[Hlt ->]|[Hlt [e ->]]]]; cbn [rbind].
  - autorewrite with logs. pose proof Hmv as [Hevs Hall Hd Hr]. destruct (hist_pos dn evs' Hevs) as [Hpos Hc].
    unfold TraverseConditional. set (bl0 := {| ob_ref := _ |}). change bl0 with (opened (p_hash (advs p1 dn)) []). clear bl0.
    destruct (Traverse_open b (p_hash (advs p1 dn)) (advs p1 dn) Hz Hn (advs p1 dn) c evs' rest' (stream_visits _ _ _ Hr c)
      [] (it_fuel (ld_store db)) mid) as [(logs & par & h & t & rest & l & He & Hl & Heq)|[Hl (bl & l & Heq)]]; try done.
    + by apply (fuel_enough (ld_store db) all Hreads mid).
    + left. exists dn, logs, h, t. split; [exists par, rest; by rewrite Hevs, He|]. by rewrite Heq.
    + right. split; [|rewrite Heq; by eexists].
      intros dn' logs' h' t' (par & rest & He & Hn' & Hz' & Hl'). pose proof (hh_chain _ _ _ Hh) as Hch.
      rewrite Hevs in Hch, He. destruct (prefix_unique _ _ _ _ _ Hch He) as [_ ->]; [lia|lia|].
      apply Forall_app in Hl as [_ Hl]. apply Forall_cons_1 in Hl as [[] _].
  - right. split; [|by eexists]. intros dn logs h t (par & rest & He & Hn & Hz & Hl). destruct (hist_pos dn _ He) as [_ Hc].
    apply chain_num in Hc. rewrite He, advs_app in Hlt. lia.
  - right. split; [|by eexists]. intros dn logs h t (par & rest & He & Hn & Hz & Hl). pose proof (hh_chain _ _ _ Hh) as Hc.
    rewrite He in Hc. apply chain_app in Hc as [Hc _]. apply chain_num in Hc. lia.
Qed.

(** ** [Contains] *)

Lemma contains_before b idx p c : p_num p < b -> contains_fn b tt (full idx p c) = (tt, None).
Proof.
  intros Hp. unfold contains_fn. autorewrite with logs. destruct (Z.eqb_spec (p_num p) b); [lia|].
  by destruct (Z.ltb_spec b (p_num p)); [lia|].
Qed.

Lemma contains_at b idx p c : p_num p = b -> contains_fn b tt (full idx p c) = (tt, Some ErrStop).
Proof. intros Hp. unfold contains_fn. autorewrite with logs. by rewrite Hp, Z.eqb_refl. Qed.

Lemma Traverse_contains b p c evs0 rest : visits p c evs0 rest -> forall fuel (pre : list EntryObj),
  p_num p = b - 1 -> chain p evs0 -> pos_ok p -> all = pre ++ rest -> (length rest < fuel)%nat ->
  (exists logs par h t rest_evs q idx, evs0 = logs ++ EvSeal par h b t :: rest_evs /\ Forall log_ev logs /\
     q = {| p_hash := h; p_num := b; p_time := t; p_since := 0 |} /\
     Traverse_loop (ld_store db) fuel (contains_fn b) tt (full (at_ pre) p c) = (tt, full idx q no_log, Err ErrStop)) \/
  (Forall log_ev evs0 /\ exists l,
     Traverse_loop (ld_store db) fuel (contains_fn b) tt (full (at_ pre) p c) = (tt, l, Err ErrFuture)).
Proof.
  intros Hv. induction Hv as [p c|p c d chunk c1 evs0 es Hv Hvs IH]; intros fuel pre Hp Hc Hpos Hall Hf.
  { right. split; [constructor|]. destruct fuel; [simpl in Hf; lia|]. rewrite app_nil_r in Hall.
    cbn [Traverse_loop]. rewrite (next_end (ld_store db) all Hreads) by (by rewrite Hall). by eexists. }
  apply chain_app in Hc as [Hc1 Hc2]. pose proof (chain_pos_ok _ _ Hpos Hc1) as Hpos1.
  pose proof (quiet_visit (ld_store db) all Hreads pre es p c d chunk c1 Hall Hv Hpos Hc1) as Hq.
  rewrite length_app in Hf. replace fuel with (length chunk + (fuel - length chunk))%nat by lia.
  assert (all = (pre ++ chunk) ++ es) as Hall' by (by rewrite <-app_assoc).
  assert (Forall log_ev d \/ exists par h n t, d = [EvSeal par h n t] /\ c1 = no_log) as [Hd|(par & h & n & t & -> & ->)].
  { destruct Hv; [left; constructor..|right; by do 4 eexists|right; by do 4 eexists|left; by repeat constructor]. }
  - rewrite (quiet_Traverse (ld_store db) (contains_fn b) _ _ _ _ _ tt Hq) by (apply contains_before; rewrite logs_num by done; lia).
    destruct (IH (fuel - length chunk)%nat (pre ++ chunk)) as
      [(logs & par & h & t & rest_evs & q & idx & -> & Hl & Hqe & Heq)|[Hl [l Heq]]]; try done.
    + by rewrite logs_num.
    + lia.
    + left. exists (d ++ logs), par, h, t, rest_evs, q, idx. split; [by rewrite app_assoc|]. split; [by apply Forall_app|done].
    + right. split; [by apply Forall_app|]. by exists l.
  - left. inversion_clear Hc1 as [|? ? ? He _]. destruct He as (_ & Hn & _). assert (n = b) as -> by lia.
    exists [], par, h, t, evs0. do 2 eexists. split; [done|]. split; [constructor|]. split; [done|].
    eapply quiet_stop; [exact Hq|by apply contains_at|done].
Qed.

(** What is checked of a log once its block is known. *)
Definition check_log (q : ContainsQuery) (logHash h b t : Z) : result BlockSeal :=
  if negb (t =? cq_Timestamp q) then Err (Wrap "timestamp mismatch" ErrConflict)
  else if negb (bool_decide (Checksum {| ca_BlockNumber := b; ca_LogIndex := cq_LogIdx q; ca_Timestamp := t;
                                         ca_ChainID := ld_chainID db; ca_LogHash := logHash |} = cq_Checksum q)) then
    Err (Wrap "payload hash mismatch" ErrConflict)
  else Ok {| bs_Hash := h; bs_Number := b; bs_Timestamp := t |}.

(** The log [i] of block [b]. *)
Definition log_in (b i logHash h t : Z) : Prop :=
  exists dn logs m, block_in p1 evs b dn logs h t /\ logs !! Z.to_nat i = Some (EvLog logHash m).

Lemma findLog_cases b i : 0 < b < two64 -> 0 <= i ->
  (exists dn lh m evs' mid rest' , move p1 evs all (dn ++ [EvLog lh m]) evs' mid rest' /\ p_num (advs p1 dn) = b - 1 /\
     p_since (advs p1 dn) = i /\ (2 <= length mid)%nat /\
     findLogInfo db b i = Ok (lh, full (at_ mid) (advs p1 (dn ++ [EvLog lh m])) (lh, m))) \/
  ((forall dn lh m evs', evs = dn ++ EvLog lh m :: evs' -> p_num (advs p1 dn) = b - 1 -> p_since (advs p1 dn) = i -> False) /\
   exists e, findLogInfo db b i = Err e).
Proof.
  intros Hb Hi. unfold findLogInfo. destruct (Z.eqb_spec b 0); [lia|]. unfold iter_at, u64. rewrite Z.mod_small by lia.
  destruct (iterator_spec (ld_store db) all Hreads p1 evs Hh _ (b - 1) i Hidx Hi)
    as [(dn & evs' & mid & rest' & c & Hmv & Hn & Hs & Hlen & ->)|[Hno [e ->]]]; cbn [rbind].
  2: { right. split; [|by eexists]. intros dn lh m evs' He Hn Hs. by apply (Hno dn (EvLog lh m :: evs')). }
  pose proof Hmv as [Hevs Hall Hd Hr]. destruct (hist_pos dn evs' Hevs) as [Hpos Hc]. unfold NextInitMsg.
  destruct (NextInitMsg_stream (ld_store db) all Hreads (advs p1 dn) evs' rest' Hr Hc Hpos (it_fuel (ld_store db)) mid c Hall)
    as [(seals & lh & m & evs2 & mid2 & rest2 & Hseal & Hmv2 & ->)|[Hseal ->]].
  { unfold it_fuel. destruct Hreads as (Hsz & _). rewrite Hsz, Hall, length_app. lia. }
  - cbn [map_err rbind]. autorewrite with logs. destruct seals as [|s seals].
    + simpl app in *. rewrite <-advs_app. assert (p_num (advs p1 (dn ++ [EvLog lh m])) = b - 1) as Hn' by (by rewrite advs_app).
      rewrite Hn', Z.ltb_irrefl. rewrite full_InitMessage.
      assert (p_since (advs p1 (dn ++ [EvLog lh m])) = i + 1) as -> by (rewrite advs_app; simpl; lia).
      destruct (Z.ltb_spec 0 (i + 1)); [|lia]. cbn [fst]. replace (i + 1 - 1) with i by lia. rewrite Z.eqb_refl. cbn [negb].
      left. exists dn, lh, m, evs2, (mid ++ mid2), rest2. split; [by eapply move_trans|].
      split; [done|]. split; [done|]. split; [rewrite length_app; lia|]. done.
    + right. destruct Hmv2 as [He2 _ _ _]. rewrite He2 in Hc. apply Forall_cons_1 in Hseal as [Hse _]. destruct s as [par h n' t|]; [|done].
      inversion_clear Hc as [|? ? ? Hev Hc']. destruct Hev as (_ & Hn' & _). apply chain_app in Hc' as [Hc' _].
      apply chain_app in Hc' as [Hc1 Hc2]. apply chain_num in Hc1. apply chain_num in Hc2. rewrite <-advs_app in Hc2. simpl in Hc1, Hc2.
      set (x := p_num (advs (advs p1 dn) ((EvSeal par h n' t :: seals) ++ [EvLog lh m]))).
      assert (b - 1 < x) as Hx by (unfold x; simpl; lia).
      destruct (Z.ltb_spec x (b - 1)); [lia|]. destruct (Z.ltb_spec (b - 1) x); [|lia]. split; [|by eexists].
      intros dn' lh' m' ev' He Hnn Hss. pose proof (hh_chain _ _ _ Hh) as Hch. rewrite Hevs in Hch, He.
      destruct (prefix_unique _ _ _ _ _ Hch He) as [_ Heq]; [lia|lia|]. rewrite He2 in Heq. done.
  - right. split; [|by eexists]. intros dn' lh' m' ev' He Hnn Hss. pose proof (hh_chain _ _ _ Hh) as Hch. rewrite Hevs in Hch, He.
    destruct (prefix_unique _ _ _ _ _ Hch He) as [_ ->]; [lia|lia|]. by apply Forall_cons_1 in Hseal as [[] _].
Qed.

(** A log of a sealed block, by its position in the history. *)
Lemma log_in_at b i lh h t : 0 <= i -> log_in b i lh h t ->
  exists dn m logs par rest, evs = dn ++ EvLog lh m :: logs ++ EvSeal par h b t :: rest /\ Forall log_ev logs /\
    p_num (advs p1 dn) = b - 1 /\ p_since (advs p1 dn) = i.
Proof.
  intros Hi (dn & logs & m & (par & rest & He & Hn & Hs & Hl) & Hlog).
  exists (dn ++ take (Z.to_nat i) logs), m, (drop (S (Z.to_nat i)) logs), par, rest.
  assert (logs = take (Z.to_nat i) logs ++ EvLog lh m :: drop (S (Z.to_nat i)) logs) as Hsplit by (symmetry; by apply take_drop_middle).
  split; [rewrite He; rewrite Hsplit at 1; rewrite <-!app_assoc; done|].
  split; [by apply Forall_drop|]. rewrite advs_app, advs_logs by (by apply Forall_take). cbn [p_num p_since with_since].
  split; [done|]. rewrite Hs, length_take. apply lookup_lt_Some in Hlog. lia.
Qed.

Lemma log_at_in b dn lh m logs par h t rest : evs = dn ++ EvLog lh m :: logs ++ EvSeal par h b t :: rest -> Forall log_ev logs ->
  p_num (advs p1 dn) = b - 1 -> log_in b (p_since (advs p1 dn)) lh h t.
Proof.
  intros He Hl Hn. destruct (pos_split p1 dn (hh_first _ _ _ Hh)) as (dn0 & logs0 & -> & Hl0 & Hz & Hn0 & Hs0).
  exists dn0, (logs0 ++ EvLog lh m :: logs), m. split.
  - exists par, rest. split; [rewrite He, <-!app_assoc; done|]. split; [lia|]. split; [done|]. apply Forall_app. split; [done|]. by constructor.
  - rewrite Hs0, Nat2Z.id. by apply list_lookup_middle.
Qed.

Lemma log_in_unique b i lh h t lh' h' t' : log_in b i lh h t -> log_in b i lh' h' t' -> lh = lh' /\ h = h' /\ t = t'.
Proof.
  intros (dn & logs & m & Hb & Hl) (dn' & logs' & m' & Hb' & Hl').
  destruct (block_in_unique _ _ _ _ _ _ _ _ _ _ _ (hh_chain _ _ _ Hh) Hb Hb') as (-> & -> & -> & ->).
  rewrite Hl in Hl'. by injection Hl' as -> _.
Qed.

Hypothesis Hlast : hasCompleteBlock (lastEntryContext db) = true /\ lc_blockNum (lastEntryContext db) = p_num (advs p1 evs).

Lemma Contains_cases q : is_u64 (cq_BlockNum q) -> 0 <= cq_LogIdx q ->
  (exists lh h t, log_in (cq_BlockNum q) (cq_LogIdx q) lh h t /\ logs_Contains db q = check_log q lh h (cq_BlockNum q) t) \/
  ((forall lh h t, ~ log_in (cq_BlockNum q) (cq_LogIdx q) lh h t) /\ exists e, logs_Contains db q = Err e).
Proof.
  intros Hb Hi. destruct Hlast as [Hcomp Hnum]. unfold logs_Contains. rewrite Hcomp, Hnum. cbn [andb].
  set (b := cq_BlockNum q) in *. set (i := cq_LogIdx q) in *.
  destruct (Z.ltb_spec (p_num (advs p1 evs)) b) as [Hlt|Hge].
  { right. split; [|destruct (_ <? _); by eexists]. intros lh h t (dn & logs & m & (par & rest & He & Hn & Hs & Hl) & _).
    rewrite He in Hlt. destruct (hist_pos dn _ He) as [_ Hc]. apply chain_app in Hc as [_ Hc]. inversion_clear Hc as [|? ? ? _ Hc'].
    apply chain_num in Hc'. rewrite !advs_app in Hlt. simpl in Hlt, Hc'. lia. }
  destruct (decide (b = 0)) as [Hb0|Hb0].
  { right. split; [|unfold findLogInfo; rewrite Hb0; by eexists]. intros lh h t (dn & logs & m & (par & rest & He & Hn & _) & _).
    destruct (hist_pos dn _ He) as [(_ & [? _] & _) _]. lia. }
  unfold is_u64 in Hb. destruct (findLog_cases b i) as [(dn & lh & m & evs' & mid & rest' & Hmv & Hn & Hs & Hlen & ->)|[Hno [e ->]]]; [lia|done| |].
  - pose proof Hmv as [Hevs Hall Hd Hr]. destruct (hist_pos _ evs' Hevs) as [Hpos Hc]. unfold TraverseConditional.
    destruct (Traverse_contains b (advs p1 (dn ++ [EvLog lh m])) (lh, m) evs' rest' (stream_visits _ _ _ Hr _) (it_fuel (ld_store db)) mid)
      as [(logs & par & h & t & rest & qq & idx & He & Hl & -> & ->)|[Hl [l ->]]]; try done.
    + by rewrite advs_app.
    + by apply (fuel_enough (ld_store db) all Hreads mid).
    + left. exists lh, h, t. split; [rewrite <-Hs; apply (log_at_in b dn lh m logs par h t rest); [|done|done]; rewrite Hevs, He, <-app_assoc; done|].
      done.
    + right. split; [|by eexists]. intros lh' h' t' Hlog. apply log_in_at in Hlog as (dn' & m' & logs' & par & rest & He & Hl' & Hn' & Hs'); [|done].
      rewrite <-app_assoc in Hevs. pose proof (hh_chain _ _ _ Hh) as Hch. rewrite Hevs in Hch, He.
      destruct (prefix_unique _ _ _ _ _ Hch He) as [_ Heq]; [lia|lia|]. injection Heq as _ _ ->.
      apply Forall_app in Hl as [_ Hl]. apply Forall_cons_1 in Hl as [[] _].
  - right. split; [|destruct (errors_Is e ErrFuture && true); by eexists].
    intros lh h t Hlog. apply log_in_at in Hlog as (dn & m & logs & par & rest & He & Hl & Hn & Hs); [|done]. by apply (Hno dn lh m _ He).
Qed.
End queries.
