(* ===== verification/LogTheorems.v ===== *)
(** * The log database: its theorems

    The refinement, the recovery and the queries of the log database, a
    database on a file with faults where they apply, and three runs that show
    where the code surprises its callers. *)

From stdpp Require Import base gmap sets list.
From S2P Require Import Prelude EthTypes EntryDB FromDA DepSet CrossGraph LogDB LogCodec LogStream LogRead LogSearch LogRecover LogWrite LogRefine LogQuery.

Definition is_success (r : result unit) : bool := match r with Ok _ => true | _ => false end.

Section theorems.
Context {St : Type} {ES : EntryStore St} {L : EntryStoreLaws St logs_EntrySize} {KC : Keccak}.

(** A request is served only when it fits. *)
Lemma step_accepts a r a' : alog_step a r a' true -> accepts a r.
Proof. intros Hs. inversion Hs; subst; simpl; try done. by eexists _, _, _. Qed.

(** The database reads its store without errors; writes may fail. *)
Hypothesis Hreliable : forall s i e, st_ok s -> st_view s !! i = Some e -> st_Read s (Z.of_nat i) = Ok e.

(** C19: the log database refines a history of sealed blocks and logs.  For
    requests with fields in range, and logs only after the first block, a request
    does what the rules of [alog_step] say and never panics, whatever appends and
    truncations fail: a block is sealed when its parent hash, number and time fit
    the last one, a log is added when its parent and index fit, and a rewind to a
    stored block keeps the events up to it and drops the rest.  A request that
    fits is refused only when the store fails its append or truncation; an event
    whose append failed stays pending and is stored with the next one.  A request
    that does not fit is refused and changes nothing, except a fitting log whose
    message has a log index above 2^24: it blocks the database until the next
    rewind.  The latest sealed block is the last of the history. *)
Theorem log_db_refines :
  (forall st chainID, st_ok st -> st_view st = [] ->
     logs_inv {| ld_store := st; ld_chainID := chainID; lastEntryContext := lc_new 0 |} AEmpty) /\
  (forall db a r, logs_inv db a -> request_ok a r ->
     (exists a', alog_step a r a' (is_success (serve db r).2) /\ logs_inv (serve db r).1 a' /\ (serve db r).2 <> Panic) /\
     ((serve db r).2 = Ok tt -> accepts a r) /\
     (accepts a r -> (serve db r).2 = Ok tt \/ store_fails (ld_store db) r)) /\
  (forall db p1 s evs, logs_inv db (ALog p1 s evs) ->
     LatestSealedBlock db = Some {| bid_Hash := p_hash (advs p1 evs); bid_Number := p_num (advs p1 evs) |}).
Proof.
  split; [by intros st chainID Hok Hv|]. split.
  - intros db a r Hinv Hr. pose proof (serve_refines Hreliable db a r Hinv Hr) as Hs. unfold refines_step in Hs.
    destruct (serve db r) as [db' res]. destruct Hs as (a' & b & Hstep & Hinv' & Hb). simpl.
    destruct res as [[]|e|]; [subst b|destruct Hb as [-> Hb]|done].
    + split; [exists a'; by split_and!|]. split; [intros _; by apply step_accepts in Hstep|by left].
    + split; [exists a'; by split_and!|]. split; [done|by right; apply Hb].
  - intros db p1 s evs (_ & es & pend & c & _ & _ & Hc & Hh & _). unfold LatestSealedBlock. rewrite Hc.
    pose proof (hist_len _ _ _ Hh) as Hlen. simpl. by destruct (Z.eqb_spec (Z.of_nat (length (es ++ pend))) 0); [lia|].
Qed.

(** C29: opening recovers a prefix of the history.  Of a store that holds the
    first [n] entries of a history, cut anywhere, opening makes the database of
    a prefix of the history, and of all of it but logs after the last
    checkpoint when nothing was cut; it is empty only when not even the first
    block was whole, and fails only when the store refuses to truncate. *)
Theorem log_recovery : forall st chainID es p1 evs n,
  st_ok st -> st_view st = encode <$> take n es -> holds_history es p1 evs -> bounded p1 evs ->
  match NewFromEntryStore st chainID true with
  | Ok db => (logs_inv db AEmpty /\ (n < 2)%nat) \/
      exists dn evs', evs = dn ++ evs' /\ logs_inv db (ALog p1 (Some dn) dn) /\ ((length es <= n)%nat -> Forall log_ev evs')
  | Err _ => exists i e, (st_Truncate st i).2 = Err e
  | Panic => False
  end.
Proof. intros st chainID es p1 evs n. by apply open_spec. Qed.

(** [Contains] answers the seal of the block that has the log. *)
Lemma logs_Contains_spec (db : LogsDB St) p1 evs q s : logs_inv db (ALog p1 (Some evs) evs) ->
  is_u64 (cq_BlockNum q) -> 0 <= cq_LogIdx q -> logs_Contains db q = Ok s <->
  exists dn logs h t lh m, block_in p1 evs (cq_BlockNum q) dn logs h t /\
    logs !! Z.to_nat (cq_LogIdx q) = Some (EvLog lh m) /\ t = cq_Timestamp q /\
    Checksum {| ca_BlockNumber := cq_BlockNum q; ca_LogIndex := cq_LogIdx q; ca_Timestamp := t;
                ca_ChainID := ld_chainID db; ca_LogHash := lh |} = cq_Checksum q /\
    s = {| bs_Hash := h; bs_Number := cq_BlockNum q; bs_Timestamp := t |}.
Proof.
  intros (Hok & es & pend & c & Hv & [Hh Hb] & Hc & Hh' & _) Hq Hi.
  pose proof (reads_view Hreliable _ es Hok Hv) as Hreads.
  assert (nextEntryIndex (lastEntryContext db) <> 0) as Hidx by (rewrite Hc; simpl; pose proof (hist_len _ _ _ Hh'); lia).
  assert (hasCompleteBlock (lastEntryContext db) = true /\ lc_blockNum (lastEntryContext db) = p_num (advs p1 evs)) as Hlast by (by rewrite Hc).
  destruct (Contains_cases db es Hreads p1 evs Hh Hidx Hlast q Hq Hi) as [(lh & h & t & Hin & ->)|[Hno [e ->]]].
  - unfold check_log. split.
    + destruct (Z.eqb_spec t (cq_Timestamp q)) as [Ht|]; cbn [negb]; [|done].
      case_bool_decide as Hsum; cbn [negb]; [|done]. intros [= <-].
      destruct Hin as (dn & logs & m & Hin & Hl). by exists dn, logs, h, t, lh, m.
    + intros (dn & logs & h' & t' & lh' & m & Hin' & Hl & Ht & Hsum & ->).
      destruct (log_in_unique es p1 evs Hh _ _ _ _ _ lh' h' t' Hin) as (-> & -> & ->); [by exists dn, logs, m|].
      rewrite Ht, Z.eqb_refl in *. cbn [negb]. by rewrite bool_decide_true.
  - split; [done|]. intros (dn & logs & h' & t' & lh' & m & Hin' & Hl & _). destruct (Hno lh' h' t'). by exists dn, logs, m.
Qed.

(** C20: the queries answer what the history says, when all of it is stored.
    FindSealedBlock answers a block exactly when the history seals it, and
    otherwise says whether it is after or before; OpenBlock answers a block above
    0 with its parent hash, its number of logs and its executing messages by log
    index exactly when it is sealed after the first one; Contains, asked about a
    number up to that of the last sealed block, answers the seal exactly when
    the block has that log, at that time and with that checksum. *)
Theorem log_queries_correct : forall (db : LogsDB St) p1 evs, logs_inv db (ALog p1 (Some evs) evs) ->
  (forall n s, FindSealedBlock db n = Ok s <->
     exists dn evs', evs = dn ++ evs' /\ p_num (advs p1 dn) = n /\ p_since (advs p1 dn) = 0 /\ s = seal_of (advs p1 dn)) /\
  (forall n, p_num (advs p1 evs) < n -> exists e, FindSealedBlock db n = Err (Wrap e ErrFuture)) /\
  (forall n, n < p_num p1 -> exists e e', FindSealedBlock db n = Err (Wrap e (Wrap e' ErrSkipped))) /\
  (forall b bl, 0 < b < two64 -> logs_OpenBlock db b = Ok bl <->
     exists dn logs h t, block_in p1 evs b dn logs h t /\ bl = opened_block (p_hash (advs p1 dn)) h b t logs) /\
  (forall q s, is_u64 (cq_BlockNum q) -> cq_BlockNum q <= p_num (advs p1 evs) -> 0 <= cq_LogIdx q -> logs_Contains db q = Ok s <->
     exists dn logs h t lh m, block_in p1 evs (cq_BlockNum q) dn logs h t /\
       logs !! Z.to_nat (cq_LogIdx q) = Some (EvLog lh m) /\ t = cq_Timestamp q /\
       Checksum {| ca_BlockNumber := cq_BlockNum q; ca_LogIndex := cq_LogIdx q; ca_Timestamp := t;
                   ca_ChainID := ld_chainID db; ca_LogHash := lh |} = cq_Checksum q /\
       s = {| bs_Hash := h; bs_Number := cq_BlockNum q; bs_Timestamp := t |}).
Proof.
  intros db p1 evs Hinv. pose proof Hinv as (Hok & es & pend & c & Hv & [Hh Hb] & Hc & Hh' & _).
  pose proof (reads_view Hreliable _ es Hok Hv) as Hreads.
  assert (nextEntryIndex (lastEntryContext db) <> 0) as Hidx by (rewrite Hc; simpl; pose proof (hist_len _ _ _ Hh'); lia).
  assert (hasCompleteBlock (lastEntryContext db) = true /\ lc_blockNum (lastEntryContext db) = p_num (advs p1 evs)) as Hlast by (by rewrite Hc).
  pose proof (hh_chain _ _ _ Hh) as Hchain.
  assert (forall dn evs', evs = dn ++ evs' -> p_num p1 <= p_num (advs p1 dn) <= p_num (advs p1 evs)) as Hrange.
  { intros dn evs' He. rewrite He in Hchain. apply chain_app in Hchain as [H1 H2]. apply chain_num in H1, H2.
    rewrite He, advs_app. lia. }
  split_and!.
  - intros n s. destruct (FindSealedBlock_cases db es Hreads p1 evs Hh Hidx n) as
      [(dn & evs' & He & Hn & Hz & ->)|[[Hlt [e ->]]|[Hlt (e & e' & ->)]]].
    + split; [intros [= <-]; by exists dn, evs'|]. intros (dn' & ev' & He' & Hn' & Hz' & ->). f_equal.
      rewrite He in Hchain, He'. destruct (prefix_unique _ _ _ _ _ Hchain He') as [-> _]; [lia|lia|done].
    + split; [done|]. intros (dn' & ev' & He' & Hn' & _). pose proof (Hrange _ _ He'). lia.
    + split; [done|]. intros (dn' & ev' & He' & Hn' & _). pose proof (Hrange _ _ He'). lia.
  - intros n Hn. destruct (FindSealedBlock_cases db es Hreads p1 evs Hh Hidx n) as
      [(dn & evs' & He & Hn' & _)|[[_ H]|[Hlt _]]]; [pose proof (Hrange _ _ He); lia|done|].
    pose proof (Hrange evs [] (eq_sym (app_nil_r evs))). lia.
  - intros n Hn. destruct (FindSealedBlock_cases db es Hreads p1 evs Hh Hidx n) as
      [(dn & evs' & He & Hn' & _)|[[Hlt _]|[_ H]]]; [pose proof (Hrange _ _ He); lia| |done].
    pose proof (Hrange evs [] (eq_sym (app_nil_r evs))). lia.
  - intros b bl Hbb. destruct (OpenBlock_cases db es Hreads p1 evs Hh Hidx b Hbb) as [(dn & logs & h & t & Hin & ->)|[Hno [e ->]]].
    + split; [intros [= <-]; by exists dn, logs, h, t|]. intros (dn' & logs' & h' & t' & Hin' & ->).
      by destruct (block_in_unique _ _ _ _ _ _ _ _ _ _ _ Hchain Hin Hin') as (-> & -> & -> & ->).
    + split; [done|]. intros (dn' & logs' & h' & t' & Hin' & _). by destruct (Hno dn' logs' h' t').
  - intros q s Hq _. by apply logs_Contains_spec.
Qed.
End theorems.

(** ** A database on a file with faults *)

Module LogExamples.
Section examples.

#[local] Instance ex_store : EntryStore (EntryDB FaultyFile) := EntryDB_store logs_EntrySize.
#[local] Instance ex_laws : EntryStoreLaws (EntryDB FaultyFile) logs_EntrySize := EntryDB_laws logs_EntrySize ltac:(unfold logs_EntrySize; lia).
#[local] Instance ex_keccak : Keccak := fun b => be_encode 32 (be_decode b).

Lemma ex_reliable (s : EntryDB FaultyFile) i e : st_ok s -> st_view s !! i = Some e -> st_Read s (Z.of_nat i) = Ok e.
Proof.
  intros [Hl Hr _] Hi. assert (i < db_count s)%nat as Hlt.
  { apply lookup_lt_Some in Hi. unfold st_view in Hi. simpl in Hi. by rewrite length_db_view in Hi. }
  unfold st_view in Hi. simpl in Hi. unfold db_view in Hi. rewrite entries_of_lookup in Hi by done. injection Hi as <-.
  unfold st_Read. simpl. unfold db_Read. unfold db_count, db_Size in Hlt, Hr.
  destruct (Z.ltb_spec (db_lastEntryIdx s) (Z.of_nat i)); [lia|]. simpl.
  replace (Z.to_nat (Z.of_nat i * Z.of_nat logs_EntrySize)) with (i * logs_EntrySize)%nat by lia.
  rewrite (proj2 (Nat.ltb_ge _ _)); [done|]. unfold f_content in Hr. simpl in Hr.
  rewrite length_take, length_drop. unfold logs_EntrySize in *. lia.
Qed.

Definition ex_msg : ExecutingMessage := {| em_Chain := 1; em_BlockNum := 2; em_LogIdx := 3; em_Timestamp := 4; em_Hash := 6 |}.
Definition ex_id (h n : Z) : BlockID := {| bid_Hash := h; bid_Number := n |}.

(** Four writes succeed, the fifth fails after five bytes. *)
Definition ex_db0 : LogsDB (EntryDB FaultyFile) :=
  {| ld_store := {| db_data := {| ff_content := []; ff_faults := [None; None; None; None; Some 5%nat] |};
                    db_lastEntryIdx := -1; db_cleanupFailedWrite := false |};
     ld_chainID := 901; lastEntryContext := lc_new 0 |}.

Definition ex_requests : list request :=
  [RSeal 3 (ex_id 7 10) 100; RLog 5 (ex_id 7 10) 0 (Some ex_msg); RLog 9 (ex_id 7 10) 1 None; RSeal 7 (ex_id 8 11) 102].

Definition ex_db : LogsDB (EntryDB FaultyFile) := foldl (fun db r => (serve db r).1) ex_db0 ex_requests.

Definition ex_first : pos := {| p_hash := 7; p_num := 10; p_time := 100; p_since := 0 |}.
Definition ex_events : list event := [EvLog 5 (Some ex_msg); EvLog 9 None; EvSeal 7 8 11 102].
Definition ex_entries : list EntryObj :=
  repeat_entries ex_first ++ log_entries 5 (Some ex_msg) ++ log_entries 9 None ++ seal_entries 8 11 102.

Lemma ex_history : holds_history ex_entries ex_first ex_events.
Proof.
  split.
  - apply (st_repeat ex_first). apply (st_log _ 5 (Some ex_msg)). apply (st_log _ 9 None). apply (st_seal _ 7 8 11 102 [] []). constructor.
  - repeat constructor; try done; unfold is_u64, is_u32, is_hash, two64, two32; simpl; lia.
  - split_and!; done.
  - done.
  - by exists 7.
  - intros [|i] Hi; [by do 3 eexists|]. simpl in Hi. lia.
Qed.

Lemma ex_inv : logs_inv ex_db (ALog ex_first (Some ex_events) ex_events).
Proof.
  split; [split; vm_compute; [done|lia|done]|]. exists ex_entries, [], no_log. split; [vm_compute; reflexivity|].
  split; [split; [apply ex_history|by split; vm_compute]|]. split; [vm_compute; reflexivity|].
  rewrite app_nil_r. split; [apply ex_history|by split; vm_compute].
Qed.

(** The failed write keeps the block: it counts as sealed but is not stored. *)
Lemma log_db_refines_witness :
  (serve ex_db (RSeal 8 (ex_id 6 12) 104)).2 <> Ok tt /\
  exists a', alog_step (ALog ex_first (Some ex_events) ex_events) (RSeal 8 (ex_id 6 12) 104) a' false /\
    logs_inv (serve ex_db (RSeal 8 (ex_id 6 12) 104)).1 a' /\ store_fails (ld_store ex_db) (RSeal 8 (ex_id 6 12) 104).
Proof.
  split; [by vm_compute|].
  destruct (proj1 (proj2 (log_db_refines ex_reliable)) ex_db (ALog ex_first (Some ex_events) ex_events) (RSeal 8 (ex_id 6 12) 104) ex_inv)
    as ((a' & Hstep & Hinv & _) & _ & Hacc); [split_and!; done|].
  exists a'. split; [|split; [exact Hinv|destruct (Hacc eq_refl) as [Ho|Hs]; [vm_compute in Ho; discriminate Ho|exact Hs]]].
  assert (Hf : is_success (serve ex_db (RSeal 8 (ex_id 6 12) 104)).2 = false) by (vm_compute; reflexivity).
  rewrite Hf in Hstep. exact Hstep.
Defined.

(** A store cut in the middle of the first log. *)
Definition ex_cut : EntryDB FaultyFile :=
  {| db_data := {| ff_content := concat (encode <$> take 4 ex_entries); ff_faults := [] |};
     db_lastEntryIdx := 3; db_cleanupFailedWrite := false |}.

Lemma log_recovery_witness :
  match NewFromEntryStore ex_cut 901 true with
  | Ok db => exists dn evs', ex_events = dn ++ evs' /\ logs_inv db (ALog ex_first (Some dn) dn)
  | _ => False
  end.
Proof.
  assert (Hok : st_ok ex_cut) by (split; vm_compute; [done|lia|done]).
  assert (Hv : st_view ex_cut = encode <$> take 4 ex_entries) by (vm_compute; reflexivity).
  assert (Hb : bounded ex_first ex_events) by (by split; vm_compute).
  pose proof (log_recovery ex_reliable ex_cut 901 ex_entries ex_first ex_events 4 Hok Hv ex_history Hb) as H.
  assert (Hs : exists db, NewFromEntryStore ex_cut 901 true = Ok db) by (vm_compute; by eexists).
  destruct Hs as [db Hs]. rewrite Hs in *. destruct H as [[_ Hn]|(dn & evs' & He & Hi & _)]; [lia|].
  by exists dn, evs'.
Defined.

(** Block 11 of the example, with its two logs. *)
Lemma log_queries_correct_witness :
  FindSealedBlock ex_db 11 = Ok {| bs_Hash := 8; bs_Number := 11; bs_Timestamp := 102 |} /\
  logs_OpenBlock ex_db 11 = Ok (opened_block 7 8 11 102 [EvLog 5 (Some ex_msg); EvLog 9 None]).
Proof.
  destruct (log_queries_correct ex_reliable ex_db ex_first ex_events ex_inv) as (Hf & _ & _ & Ho & _). split.
  - apply Hf. exists ex_events, []. by rewrite app_nil_r.
  - apply Ho; [unfold two64; lia|]. exists [], [EvLog 5 (Some ex_msg); EvLog 9 None], 8, 102. split; [|done].
    exists 7, []. split; [done|]. split; [done|]. split; [done|]. by repeat constructor.
Defined.

(** ** Surprises *)

(** After a failed append the same block is refused as conflicting, and the
    next one is accepted and stores both. *)
Lemma retry_refused :
  let db1 := (serve ex_db (RSeal 8 (ex_id 6 12) 104)).1 in
  let db2 := (serve db1 (RSeal 8 (ex_id 6 12) 104)).1 in
  (exists e, (serve ex_db (RSeal 8 (ex_id 6 12) 104)).2 = Err e) /\
  (exists s s', (serve db1 (RSeal 8 (ex_id 6 12) 104)).2 = Err (Wrap s (Wrap s' ErrConflict))) /\
  (serve db2 (RSeal 6 (ex_id 4 13) 106)).2 = Ok tt /\
  (exists seal, FindSealedBlock (serve db2 (RSeal 6 (ex_id 4 13) 106)).1 12 = Ok seal).
Proof. vm_compute. split_and!; [by eexists|by do 2 eexists|done|by eexists]. Qed.

(** An executing message whose log index does not fit stops every later
    write. *)
Lemma oversized_log_stops :
  let big := {| em_Chain := 1; em_BlockNum := 2; em_LogIdx := 2 ^ 24 + 1; em_Timestamp := 4; em_Hash := 6 |} in
  let db1 := (serve ex_db (RLog 5 (ex_id 8 11) 0 (Some big))).1 in
  (exists e, (serve ex_db (RLog 5 (ex_id 8 11) 0 (Some big))).2 = Err e) /\
  (exists e, (serve db1 (RLog 5 (ex_id 8 11) 0 None)).2 = Err e) /\
  (exists e, (serve db1 (RSeal 8 (ex_id 6 12) 104)).2 = Err e).
Proof. vm_compute. split_and!; by eexists. Qed.

(** A log that is refused by an empty database makes it refuse its first
    block. *)
Lemma early_log_blocks_first_seal :
  let db1 := (serve ex_db0 (RLog 5 (ex_id 7 10) 0 None)).1 in
  (exists s s', (serve ex_db0 (RLog 5 (ex_id 7 10) 0 None)).2 = Err (Wrap s (Wrap s' ErrOutOfOrder))) /\
  (serve ex_db0 (RSeal 3 (ex_id 7 10) 100)).2 = Ok tt /\
  (exists s s', (serve db1 (RSeal 3 (ex_id 7 10) 100)).2 = Err (Wrap s (Wrap s' ErrConflict))).
Proof. vm_compute. split_and!; [by do 2 eexists|done|by do 2 eexists]. Qed.
End examples.
End LogExamples.
