(* ===== verification/ChainsDB.v ===== *)
(** * The chains database of the supervisor

    [rhs-supervisor/supervisor/backend/db]: db.go, anchor.go, update.go,
    query.go.  Per chain a log database, a local-safe and a cross-safe
    derivation database and the cross-unsafe head; the finalized L1 block.

    The interfaces [LogStorage] and [DerivationStorage] are instantiated by
    the databases of the source, on stores of type [Sl] and [Sd].  The maps
    and values behind locks are plain fields, and the events handed to the
    emitter are kept in [cd_emitted], in order.  An operation returns the new
    database and its result; handlers only log their errors. *)

From stdpp Require Import base gmap sets list.
From S2P Require Import Prelude EthTypes EntryDB FromDA DepSet CrossGraph CrossCycle HazardSet CrossUpdate LogDB.

Definition ErrUninitialized : error := Msg "uninitialized chain database".
Definition ErrNoRPCSource : error := Msg "no RPC client configured".

(** The [superevents]. *)
Inductive superevent : Type :=
  | ChainProcessEvent (chainID target : Z)
  | UpdateCrossUnsafeRequestEvent (chainID : Z)
  | UpdateCrossSafeRequestEvent (chainID : Z)
  | LocalUnsafeUpdateEvent (chainID : Z) (newLocalUnsafe : BlockRef)
  | LocalSafeUpdateEvent (chainID : Z) (newLocalSafe : SealPair)
  | CrossUnsafeUpdateEvent (chainID : Z) (newCrossUnsafe : BlockSeal)
  | CrossSafeUpdateEvent (chainID : Z) (newCrossSafe : SealPair)
  | FinalizedL1RequestEvent (finalizedL1 : BlockRef)
  | FinalizedL1UpdateEvent (finalizedL1 : BlockRef)
  | FinalizedL2UpdateEvent (chainID : Z) (finalizedL2 : BlockSeal)
  | LocalUnsafeReceivedEvent (chainID : Z) (newLocalUnsafe : BlockRef)
  | LocalDerivedEvent (chainID : Z) (derived : RefPair) (nodeID : Z)
  | LocalDerivedOriginUpdateEvent (chainID : Z) (origin : BlockRef)
  | AnchorEvent (chainID : Z) (anchor : RefPair)
  | InvalidateLocalSafeEvent (chainID : Z) (candidate : RefPair)
  | RewindL1Event (incomingBlock : BlockID)
  | ReplaceBlockEvent (chainID : Z) (replacement : BlockRef) (invalidated : Z)
  | ChainRewoundEvent (chainID : Z)
  | UpdateLocalSafeFailedEvent (chainID : Z) (err : error) (nodeID : Z).

(** [DerivedBlockRefPair.Seals] *)
Definition pair_Seals (refs : RefPair) : SealPair :=
  {| sp_Source := BlockSealFromRef (rp_Source refs); sp_Derived := BlockSealFromRef (rp_Derived refs) |}.

Section ChainsDB.
Context {Sl Sd : Type} {ESl : EntryStore Sl} {ESd : EntryStore Sd}.
Context `{MapOrder} `{Keccak} {DS : DependencySet}.

Record ChainsDB : Type := {
  logDBs : gmap Z (LogsDB Sl);
  cd_initialized : gset Z;
  crossUnsafe : gmap Z BlockSeal;
  localDBs : gmap Z Sd;
  crossDBs : gmap Z Sd;
  finalizedL1 : L1BlockRef;
  cd_emitted : list superevent }.

Definition NewChainsDB : ChainsDB :=
  {| logDBs := ∅; cd_initialized := ∅; crossUnsafe := ∅; localDBs := ∅; crossDBs := ∅;
     finalizedL1 := zeroL1BlockRef; cd_emitted := [] |}.

Definition set_logDB (db : ChainsDB) (chain : Z) (d : LogsDB Sl) : ChainsDB :=
  {| logDBs := <[chain := d]> (logDBs db); cd_initialized := cd_initialized db; crossUnsafe := crossUnsafe db;
     localDBs := localDBs db; crossDBs := crossDBs db; finalizedL1 := finalizedL1 db; cd_emitted := cd_emitted db |}.
Definition set_localDB (db : ChainsDB) (chain : Z) (d : Sd) : ChainsDB :=
  {| logDBs := logDBs db; cd_initialized := cd_initialized db; crossUnsafe := crossUnsafe db;
     localDBs := <[chain := d]> (localDBs db); crossDBs := crossDBs db; finalizedL1 := finalizedL1 db;
     cd_emitted := cd_emitted db |}.
Definition set_crossDB (db : ChainsDB) (chain : Z) (d : Sd) : ChainsDB :=
  {| logDBs := logDBs db; cd_initialized := cd_initialized db; crossUnsafe := crossUnsafe db;
     localDBs := localDBs db; crossDBs := <[chain := d]> (crossDBs db); finalizedL1 := finalizedL1 db;
     cd_emitted := cd_emitted db |}.
Definition set_crossUnsafe (db : ChainsDB) (chain : Z) (v : BlockSeal) : ChainsDB :=
  {| logDBs := logDBs db; cd_initialized := cd_initialized db; crossUnsafe := <[chain := v]> (crossUnsafe db);
     localDBs := localDBs db; crossDBs := crossDBs db; finalizedL1 := finalizedL1 db; cd_emitted := cd_emitted db |}.
Definition set_initialized (db : ChainsDB) (chain : Z) : ChainsDB :=
  {| logDBs := logDBs db; cd_initialized := {[chain]} ∪ cd_initialized db; crossUnsafe := crossUnsafe db;
     localDBs := localDBs db; crossDBs := crossDBs db; finalizedL1 := finalizedL1 db; cd_emitted := cd_emitted db |}.
Definition set_finalizedL1 (db : ChainsDB) (v : L1BlockRef) : ChainsDB :=
  {| logDBs := logDBs db; cd_initialized := cd_initialized db; crossUnsafe := crossUnsafe db;
     localDBs := localDBs db; crossDBs := crossDBs db; finalizedL1 := v; cd_emitted := cd_emitted db |}.
Definition cd_emit (db : ChainsDB) (ev : superevent) : ChainsDB :=
  {| logDBs := logDBs db; cd_initialized := cd_initialized db; crossUnsafe := crossUnsafe db;
     localDBs := localDBs db; crossDBs := crossDBs db; finalizedL1 := finalizedL1 db;
     cd_emitted := cd_emitted db ++ [ev] |}.

Definition AddLogDB : ChainsDB -> Z -> LogsDB Sl -> ChainsDB := set_logDB.
Definition AddLocalDerivationDB : ChainsDB -> Z -> Sd -> ChainsDB := set_localDB.
Definition AddCrossDerivationDB : ChainsDB -> Z -> Sd -> ChainsDB := set_crossDB.
Definition AddCrossUnsafeTracker (db : ChainsDB) (chain : Z) : ChainsDB := set_crossUnsafe db chain zeroSeal.

Definition isInitialized (db : ChainsDB) (id : Z) : bool := bool_decide (id ∈ cd_initialized db).
Definition ForceInitialized (db : ChainsDB) (id : Z) : ChainsDB := set_initialized db id.

(** [m.Get(chain)], or the error. *)
Definition chain_get {A} (m : gmap Z A) (chain : Z) (e : error) : result A :=
  match m !! chain with Some d => Ok d | None => Err e end.

(** ** Queries *)

Definition cdb_FindSealedBlock (db : ChainsDB) (chain number : Z) : result BlockSeal :=
  let* logDB := chain_get (logDBs db) chain ErrUnknownChain in
  FindSealedBlock logDB number.

Definition cdb_FindBlockID (db : ChainsDB) (chain number : Z) : result BlockID :=
  let* sealed := cdb_FindSealedBlock db chain number in Ok (BlockSeal_ID sealed).

Definition cdb_LatestBlockNum (db : ChainsDB) (chain : Z) : option Z :=
  match logDBs db !! chain with
  | None => None
  | Some logDB => match LatestSealedBlock logDB with Some bl => Some (bid_Number bl) | None => None end
  end.

Definition cdb_IsCrossUnsafe (db : ChainsDB) (chainID : Z) (block : BlockID) : result unit :=
  let* xU := chain_get (crossUnsafe db) chainID ErrUnknownChain in
  if bool_decide (xU = zeroSeal) then Err ErrFuture
  else if bs_Number xU <? bid_Number block then Err ErrFuture
  else
    let* lU := chain_get (logDBs db) chainID ErrUnknownChain in
    let* unsafeBlock := map_err (Wrap "failed to find sealed block") (FindSealedBlock lU (bid_Number block)) in
    if negb (id_eqb (BlockSeal_ID unsafeBlock) block) then
      Err (Wrap "found another block but was looking for unsafe block" ErrConflict)
    else Ok tt.

Definition cdb_IsLocalUnsafe (db : ChainsDB) (chainID : Z) (block : BlockID) : result unit :=
  let* logDB := chain_get (logDBs db) chainID ErrUnknownChain in
  let* got := FindSealedBlock logDB (bid_Number block) in
  if negb (id_eqb (BlockSeal_ID got) block) then
    Err (Wrap "found another block but was looking for unsafe block" ErrConflict)
  else Ok tt.

Definition cdb_IsCrossSafe (db : ChainsDB) (chainID : Z) (block : BlockID) : result unit :=
  let* xdb := chain_get (crossDBs db) chainID ErrUnknownChain in
  ContainsDerived xdb block RevisionAny.

(** Every error of [DerivedToRevision] but [ErrFuture] is dropped. *)
Definition findRevision (db : ChainsDB) (chainID : Z) (block : BlockID) : result Z :=
  let* xdb := chain_get (crossDBs db) chainID ErrUnknownChain in
  match DerivedToRevision xdb block with
  | Ok rev => Ok rev
  | Err e =>
      if errors_Is e ErrFuture then
        let* ldb := chain_get (localDBs db) chainID ErrUnknownChain in
        LastRevision ldb
      else Ok 0
  | Panic => Panic
  end.

Definition cdb_IsLocalSafe (db : ChainsDB) (chainID : Z) (block : BlockID) : result unit :=
  let* ldb := chain_get (localDBs db) chainID ErrUnknownChain in
  let* revision := findRevision db chainID block in
  ContainsDerived ldb block revision.

Definition cdb_CrossDerivedToSource (db : ChainsDB) (chain : Z) (derived : BlockID) : result BlockSeal :=
  let* xDB := chain_get (crossDBs db) chain ErrUnknownChain in
  DerivedToFirstSource xDB derived RevisionAny.

Definition cdb_IsFinalized (db : ChainsDB) (chainID : Z) (block : BlockID) : result unit :=
  let finL1 := finalizedL1 db in
  if bool_decide (finL1 = zeroL1BlockRef) then Err ErrUninitialized
  else
    let* source := map_err (Wrap "failed to get cross-safe source") (cdb_CrossDerivedToSource db chainID block) in
    if bs_Number source <=? l1_Number finL1 then Ok tt
    else Err (Wrap "cross-safe source block is not finalized" ErrFuture).

Definition cdb_SafeDerivedAt (db : ChainsDB) (chainID : Z) (source : BlockID) : result BlockSeal :=
  let* lDB := chain_get (localDBs db) chainID ErrUnknownChain in
  map_err (Wrap "failed to find derived block") (SourceToLastDerived lDB source).

Definition cdb_LocalUnsafe (db : ChainsDB) (chainID : Z) : result BlockSeal :=
  let* eventsDB := chain_get (logDBs db) chainID ErrUnknownChain in
  match LatestSealedBlock eventsDB with
  | None => Err ErrFuture
  | Some head => FindSealedBlock eventsDB (bid_Number head)
  end.

Definition cdb_LocalSafe (db : ChainsDB) (chainID : Z) : result SealPair :=
  let* localDB := chain_get (localDBs db) chainID ErrUnknownChain in Last localDB.

Definition cdb_CrossSafe (db : ChainsDB) (chainID : Z) : result SealPair :=
  let* crossDB := chain_get (crossDBs db) chainID ErrUnknownChain in Last crossDB.

Definition cdb_CrossUnsafe (db : ChainsDB) (chainID : Z) : result BlockSeal :=
  let* v := chain_get (crossUnsafe db) chainID ErrUnknownChain in
  if bool_decide (v = zeroSeal) then
    let* crossSafe := map_err (Wrap "no cross-unsafe known for chain, and failed to fall back to cross-safe value")
                        (cdb_CrossSafe db chainID) in
    Ok (sp_Derived crossSafe)
  else Ok v.

Definition cdb_AcceptedBlock (db : ChainsDB) (chainID : Z) (id : BlockID) : result unit :=
  let* localDB := chain_get (localDBs db) chainID ErrUnknownChain in
  let* revision := map_err (Wrap "failed to get revision") (findRevision db chainID id) in
  match ContainsDerived localDB id revision with
  | Ok _ => Ok tt
  | Err e => if errors_Is e ErrFuture then Ok tt
             else Err (Wrap "failed to check older local-safe db entry" e)
  | Panic => Panic
  end.

Definition cdb_CrossSourceToLastDerived (db : ChainsDB) (chainID : Z) (source : BlockID) : result BlockSeal :=
  let* crossDB := chain_get (crossDBs db) chainID ErrUnknownChain in
  SourceToLastDerived crossDB source.

Definition cdb_Finalized (db : ChainsDB) (chainID : Z) : result BlockSeal :=
  let fin := finalizedL1 db in
  if bool_decide (fin = zeroL1BlockRef) then
    Err (Wrap "no finalized L1 signal, cannot determine core finality of chain yet" ErrFuture)
  else
    let* xDB := chain_get (crossDBs db) chainID ErrUnknownChain in
    let* latest := map_err (Wrap "could not get the latest derived pair") (Last xDB) in
    if bs_Number (sp_Source latest) <? l1_Number fin then Ok (sp_Derived latest)
    else map_err (Wrap "could not find what was last derived from the finalized L1 block")
           (cdb_CrossSourceToLastDerived db chainID (L1BlockRef_ID fin)).

Definition cdb_CrossDerivedToSourceRef (db : ChainsDB) (chainID : Z) (derived : BlockID) : result BlockRef :=
  let* xdb := chain_get (crossDBs db) chainID ErrUnknownChain in
  let* res := DerivedToFirstSource xdb derived RevisionAny in
  match previousSource xdb (BlockSeal_ID res) with
  | Ok parent => MustWithParent res (BlockSeal_ID parent)
  | Err e => if errors_Is e ErrPreviousToFirst then Ok (ForceWithParent res zeroBlockID) else Err e
  | Panic => Panic
  end.

Definition cdb_Contains (db : ChainsDB) (chain : Z) (q : ContainsQuery) : result BlockSeal :=
  let* logDB := chain_get (logDBs db) chain ErrUnknownChain in
  logs_Contains logDB q.

Definition cdb_OpenBlock (db : ChainsDB) (chainID blockNum : Z) : result OpenedBlock :=
  let* logDB := chain_get (logDBs db) chainID ErrUnknownChain in
  logs_OpenBlock logDB blockNum.

Definition cdb_LocalDerivedToSource (db : ChainsDB) (chain : Z) (derived : BlockID) : result BlockSeal :=
  let* lDB := chain_get (localDBs db) chain ErrUnknownChain in
  let* revision := findRevision db chain derived in
  DerivedToFirstSource lDB derived revision.

(** The pair is also returned with an error of [Candidate]. *)
Definition cdb_CandidateCrossSafe (db : ChainsDB) (chain : Z) : result RefPair * option RefPair :=
  match crossDBs db !! chain, localDBs db !! chain with
  | Some xDB, Some lDB =>
      match Last xDB with
      | Err e =>
          (if errors_Is e ErrFuture then
             let* first := map_err (Wrap "failed to find first local-safe block") (First lDB) in
             let sourceRef := match WithParent (sp_Source first) zeroBlockID with
                              | Ok r => r
                              | _ => ForceWithParent (sp_Source first) zeroBlockID
                              end in
             let* derivedRef := MustWithParent (sp_Derived first) zeroBlockID in
             Ok {| rp_Source := sourceRef; rp_Derived := derivedRef |}
           else Err e, None)
      | Panic => (Panic, None)
      | Ok crossSafe =>
          match SourceToRevision xDB (BlockSeal_ID (sp_Source crossSafe)) with
          | Err e => (Err e, None)
          | Panic => (Panic, None)
          | Ok revision =>
              match Candidate lDB (BlockSeal_ID (sp_Source crossSafe)) (BlockSeal_ID (sp_Derived crossSafe)) revision with
              | (Ok candidate, _) =>
                  if l1_Number (rp_Source candidate) <? bs_Number (sp_Source crossSafe) then
                    (Err ErrDataCorruption, Some candidate)
                  else (Ok candidate, None)
              | r => r
              end
          end
      end
  | _, _ => (Err ErrUnknownChain, None)
  end.

Definition cdb_PreviousCrossDerived (db : ChainsDB) (chain : Z) (derived : BlockID) : result BlockSeal :=
  let* xDB := chain_get (crossDBs db) chain ErrUnknownChain in
  let* revision := findRevision db chain derived in
  PreviousDerived xDB derived revision.

Definition cdb_PreviousSource (db : ChainsDB) (chain : Z) (source : BlockID) : result BlockSeal :=
  let* lDB := chain_get (localDBs db) chain ErrUnknownChain in
  previousSource lDB source.

Definition cdb_NextSource (db : ChainsDB) (chain : Z) (source : BlockID) : result BlockRef :=
  let* lDB := chain_get (localDBs db) chain ErrUnknownChain in
  let* v := NextSource lDB source in
  MustWithParent v source.

Definition cdb_IteratorStartingAt (db : ChainsDB) (chain sealedNum logIndex : Z) : result logContext :=
  let* logDB := chain_get (logDBs db) chain ErrUnknownChain in
  iter_at logDB sealedNum logIndex.

(** ** Updates *)

Definition cdb_AddLog (db : ChainsDB) (chain logHash : Z) (parentBlock : BlockID) (logIdx : Z)
  (execMsg : option ExecutingMessage) : ChainsDB * result unit :=
  match logDBs db !! chain with
  | None => (db, Err (Wrap "cannot AddLog" ErrUnknownChain))
  | Some logDB =>
      let '(logDB, r) := db_AddLog logDB logHash parentBlock logIdx execMsg in
      (set_logDB db chain logDB, r)
  end.

Definition initializedSealBlock (db : ChainsDB) (chain : Z) (block : BlockRef) : ChainsDB * result unit :=
  match logDBs db !! chain with
  | None => (db, Err (Wrap "cannot SealBlock" ErrUnknownChain))
  | Some logDB =>
      match db_SealBlock logDB (l1_ParentHash block) (L1BlockRef_ID block) (l1_Time block) with
      | (logDB, Ok _) => (cd_emit (set_logDB db chain logDB) (LocalUnsafeUpdateEvent chain block), Ok tt)
      | (logDB, r) => (set_logDB db chain logDB, map_err (Wrap "failed to seal block") r)
      end
  end.

Definition cdb_SealBlock (db : ChainsDB) (chain : Z) (block : BlockRef) : ChainsDB * result unit :=
  if negb (isInitialized db chain) then
    (db, Err (Wrap "cannot SealBlock on uninitialized database" ErrUninitialized))
  else initializedSealBlock db chain block.

Definition cdb_Rewind (db : ChainsDB) (chain : Z) (headBlock : BlockID) : ChainsDB * result unit :=
  match logDBs db !! chain with
  | None => (db, Err (Wrap "cannot Rewind" ErrUnknownChain))
  | Some logDB =>
      match db_Rewind logDB headBlock with
      | (logDB, Ok _) =>
          let db := set_logDB db chain logDB in
          match localDBs db !! chain, crossDBs db !! chain with
          | Some localDB, Some crossDB =>
              match DerivedToRevision crossDB headBlock with
              | Err e => (db, Err (Wrap "cannot determine revision" e))
              | Panic => (db, Panic)
              | Ok revision =>
                  match RewindToFirstDerived localDB headBlock revision with
                  | (localDB, Ok _) =>
                      let db := set_localDB db chain localDB in
                      let '(crossDB, r) := RewindToFirstDerived crossDB headBlock revision in
                      (set_crossDB db chain crossDB, map_err (Wrap "failed to rewind crossDB to block") r)
                  | (localDB, r) => (set_localDB db chain localDB, map_err (Wrap "failed to rewind localDB to block") r)
                  end
              end
          | _, _ => (db, Err (Wrap "cannot Rewind (derivation DB not found)" ErrUnknownChain))
          end
      | (logDB, r) => (set_logDB db chain logDB, map_err (Wrap "failed to rewind to block") r)
      end
  end.

(** Errors are logged, and some are reported as an event. *)
Definition initializedUpdateLocalSafe (db : ChainsDB) (chain : Z) (source lastDerived : BlockRef) (nodeId : Z)
  : ChainsDB * result unit :=
  match localDBs db !! chain with
  | None => (db, Ok tt)
  | Some localDB =>
      match AddDerived localDB source lastDerived RevisionAny with
      | (localDB, Ok _) =>
          (cd_emit (set_localDB db chain localDB)
             (LocalSafeUpdateEvent chain
                {| sp_Source := BlockSealFromRef source; sp_Derived := BlockSealFromRef lastDerived |}), Ok tt)
      | (localDB, Err err) =>
          let db := set_localDB db chain localDB in
          (if errors_Is err ErrIneffective then db
           else if errors_Is err ErrDataCorruption then db
           else cd_emit db (UpdateLocalSafeFailedEvent chain err nodeId), Ok tt)
      | (localDB, Panic) => (set_localDB db chain localDB, Panic)
      end
  end.

Definition cdb_UpdateLocalSafe (db : ChainsDB) (chain : Z) (source lastDerived : BlockRef) (nodeId : Z)
  : ChainsDB * result unit :=
  if negb (isInitialized db chain) then (db, Ok tt)
  else initializedUpdateLocalSafe db chain source lastDerived nodeId.

Definition cdb_UpdateCrossUnsafe (db : ChainsDB) (chain : Z) (seal : BlockSeal) : ChainsDB * result unit :=
  match crossUnsafe db !! chain with
  | None => (db, Err (Wrap "cannot UpdateCrossUnsafe" ErrUnknownChain))
  | Some _ =>
      if negb (isInitialized db chain) then
        (db, Err (Wrap "cannot UpdateCrossUnsafe on uninitialized database" ErrUninitialized))
      else (cd_emit (set_crossUnsafe db chain seal) (CrossUnsafeUpdateEvent chain seal), Ok tt)
  end.

Definition initializedUpdateCrossSafe (db : ChainsDB) (chain : Z) (l1View lastCrossDerived : BlockRef)
  : ChainsDB * result unit :=
  match crossDBs db !! chain, localDBs db !! chain with
  | Some crossDB, Some localDB =>
      match SourceToRevision localDB (L1BlockRef_ID l1View) with
      | Err e => (db, Err (Wrap "failed to lookup revision" e))
      | Panic => (db, Panic)
      | Ok revision =>
          match AddDerived crossDB l1View lastCrossDerived revision with
          | (crossDB, Ok _) =>
              (cd_emit (set_crossDB db chain crossDB)
                 (CrossSafeUpdateEvent chain
                    {| sp_Source := BlockSealFromRef l1View; sp_Derived := BlockSealFromRef lastCrossDerived |}), Ok tt)
          | (crossDB, r) => (set_crossDB db chain crossDB, r)
          end
      end
  | _, _ => (db, Err (Wrap "cannot UpdateCrossSafe" ErrUnknownChain))
  end.

Definition cdb_UpdateCrossSafe (db : ChainsDB) (chain : Z) (l1View lastCrossDerived : BlockRef) : ChainsDB * result unit :=
  if negb (isInitialized db chain) then
    (db, Err (Wrap "cannot UpdateCrossSafe on uninitialized database" ErrUninitialized))
  else initializedUpdateCrossSafe db chain l1View lastCrossDerived.

(** The notification loop of [onFinalizedL1]. *)
Fixpoint notify_finalized (db : ChainsDB) (chains : list Z) : ChainsDB * result unit :=
  match chains with
  | [] => (db, Ok tt)
  | chain :: chains' =>
      match cdb_Finalized db chain with
      | Ok fin => notify_finalized (cd_emit db (FinalizedL2UpdateEvent chain fin)) chains'
      | Err _ => notify_finalized db chains'
      | Panic => (db, Panic)
      end
  end.

Definition onFinalizedL1 (db : ChainsDB) (finalized : BlockRef) : ChainsDB * result unit :=
  let v := finalizedL1 db in
  if negb (bool_decide (v = zeroL1BlockRef)) && (l1_Number finalized <? l1_Number v) then (db, Ok tt)
  else
    let db := cd_emit (set_finalizedL1 db finalized) (FinalizedL1UpdateEvent finalized) in
    notify_finalized db Chains.

Definition ResetCrossUnsafeIfNewerThan (db : ChainsDB) (chainID number : Z) : ChainsDB * result unit :=
  match crossUnsafe db !! chainID with
  | None => (db, Ok tt)
  | Some x =>
      match crossDBs db !! chainID with
      | None => (db, Err (Wrap "cannot find cross-safe DB for invalidation" ErrUnknownChain))
      | Some crossSafeDB =>
          match Last crossSafeDB with
          | Err e => (db, Err (Wrap "cannot get cross-safe" e))
          | Panic => (db, Panic)
          | Ok crossSafe =>
              (if number <=? bs_Number x then set_crossUnsafe db chainID (sp_Derived crossSafe) else db, Ok tt)
          end
      end
  end.

Definition cdb_InvalidateLocalSafe (db : ChainsDB) (chainID : Z) (candidate : RefPair) : ChainsDB * result unit :=
  match logDBs db !! chainID, localDBs db !! chainID with
  | Some eventsDB, Some localSafeDB =>
      match RewindAndInvalidate localSafeDB candidate with
      | (localSafeDB, Ok _) =>
          let db := set_localDB db chainID localSafeDB in
          match ResetCrossUnsafeIfNewerThan db chainID (l1_Number (rp_Derived candidate)) with
          | (db, Ok _) =>
              match db_Rewind eventsDB (L1BlockRef_ParentID (rp_Derived candidate)) with
              | (eventsDB, Ok _) => (cd_emit (set_logDB db chainID eventsDB) (InvalidateLocalSafeEvent chainID candidate), Ok tt)
              | (eventsDB, r) => (set_logDB db chainID eventsDB, map_err (Wrap "failed to rewind unsafe-chain") r)
              end
          | (db, r) => (db, map_err (Wrap "failed to reset cross-unsafe") r)
          end
      | (localSafeDB, r) =>
          (set_localDB db chainID localSafeDB, map_err (Wrap "failed to invalidate entry in local-safe DB") r)
      end
  | _, _ => (db, Err (Wrap "cannot find DB for invalidation" ErrUnknownChain))
  end.

Definition cdb_RewindLocalSafe (db : ChainsDB) (chainID : Z) (scope : BlockID) : ChainsDB * result unit :=
  match localDBs db !! chainID with
  | None => (db, Err (Wrap "cannot find local-safe DB for invalidation" ErrUnknownChain))
  | Some d =>
      let '(d, r) := RewindToScope d scope in
      (set_localDB db chainID d, map_err (Wrap "failed to rewind local-safe") r)
  end.

Definition cdb_RewindCrossSafe (db : ChainsDB) (chainID : Z) (scope : BlockID) : ChainsDB * result unit :=
  match crossDBs db !! chainID with
  | None => (db, Err (Wrap "cannot find cross-safe DB for invalidation" ErrUnknownChain))
  | Some d =>
      let '(d, r) := RewindToScope d scope in
      (set_crossDB db chainID d, map_err (Wrap "failed to rewind cross-safe") r)
  end.

Definition cdb_RewindLogs (db : ChainsDB) (chainID : Z) (newHead : BlockSeal) : ChainsDB * result unit :=
  match logDBs db !! chainID with
  | None => (db, Err (Wrap "cannot find events DB for invalidation" ErrUnknownChain))
  | Some d =>
      let '(d, r) := db_Rewind d (BlockSeal_ID newHead) in
      (set_logDB db chainID d, map_err (Wrap "failed to rewind logs of chain") r)
  end.

Definition onReplaceBlock (db : ChainsDB) (chainID : Z) (replacement : BlockRef) (invalidated : Z) : ChainsDB * result unit :=
  match localDBs db !! chainID with
  | None => (db, Ok tt)
  | Some localSafeDB =>
      match ReplaceInvalidatedBlock localSafeDB replacement invalidated with
      | (d, Ok refs) =>
          (cd_emit (cd_emit (set_localDB db chainID d) (LocalUnsafeReceivedEvent chainID replacement))
             (LocalSafeUpdateEvent chainID (pair_Seals refs)), Ok tt)
      | (d, Err _) => (set_localDB db chainID d, Ok tt)
      | (d, Panic) => (set_localDB db chainID d, Panic)
      end
  end.

(** ** Initialization *)

Definition maybeInitSafeDB (db : ChainsDB) (id : Z) (anchor : RefPair) : ChainsDB * result unit :=
  match localDBs db !! id with
  | None => (db, Err ErrUnknownChain)
  | Some localDB =>
      match First localDB with
      | Err e =>
          if errors_Is e ErrFuture then
            match initializedUpdateCrossSafe db id (rp_Source anchor) (rp_Derived anchor) with
            | (db, Ok _) => initializedUpdateLocalSafe db id (rp_Source anchor) (rp_Derived anchor) (-1)
            | (db, r) => (db, r)
            end
          else (db, Err (Wrap "failed to check if chain database is initialized" e))
      | Panic => (db, Panic)
      | Ok first =>
          (db, if negb (bs_Hash (sp_Derived first) =? l1_Hash (rp_Derived anchor)) ||
                  negb (bs_Hash (sp_Source first) =? l1_Hash (rp_Source anchor))
               then Err (Wrap "local database does not match anchor point" ErrConflict) else Ok tt)
      end
  end.

Definition maybeInitEventsDB (db : ChainsDB) (id : Z) (anchor : RefPair) : ChainsDB * result unit :=
  match cdb_OpenBlock db id 0 with
  | Err e =>
      if errors_Is e ErrFuture then initializedSealBlock db id (rp_Derived anchor)
      else (db, Err (Wrap "failed to check if logDB is initialized" e))
  | Panic => (db, Panic)
  | Ok bl =>
      (db, if negb (l1_Hash (ob_ref bl) =? l1_Hash (rp_Derived anchor))
           then Err (Wrap "events database does not match anchor point" ErrConflict) else Ok tt)
  end.

Definition initFromAnchor (db : ChainsDB) (id : Z) (anchor : RefPair) : ChainsDB * result unit :=
  if isInitialized db id then (db, Ok tt)
  else
    match maybeInitSafeDB db id anchor with
    | (db, Ok _) =>
        match maybeInitEventsDB db id anchor with
        | (db, Ok _) => (set_initialized db id, Ok tt)
        | (db, Err _) => (db, Ok tt)
        | (db, Panic) => (db, Panic)
        end
    | (db, Err _) => (db, Ok tt)
    | (db, Panic) => (db, Panic)
    end.

(** [OnEvent]; [false] for an event that is not handled. *)
Definition cdb_OnEvent (db : ChainsDB) (ev : superevent) : ChainsDB * result bool :=
  let handled (x : ChainsDB * result unit) := (x.1, let* _ := x.2 in Ok true) in
  match ev with
  | AnchorEvent chain anchor => handled (initFromAnchor db chain anchor)
  | LocalDerivedEvent chain derived nodeID =>
      handled (cdb_UpdateLocalSafe db chain (rp_Source derived) (rp_Derived derived) nodeID)
  | FinalizedL1RequestEvent fin => handled (onFinalizedL1 db fin)
  | ReplaceBlockEvent chain replacement invalidated => handled (onReplaceBlock db chain replacement invalidated)
  | _ => (db, Ok false)
  end.

(** [ResumeFromLastSealedBlock] *)
Fixpoint resume_loop (db : ChainsDB) (stores : list (Z * LogsDB Sl)) : ChainsDB * result unit :=
  match stores with
  | [] => (db, Ok tt)
  | (chain, logStore) :: stores' =>
      match LatestSealedBlock logStore with
      | None => resume_loop db stores'
      | Some head =>
          match db_Rewind logStore head with
          | (logStore, Ok _) => resume_loop (set_logDB db chain logStore) stores'
          | (logStore, Err _) => (set_logDB db chain logStore, Err (Msg "failed to rewind chain to sealed block"))
          | (logStore, Panic) => (set_logDB db chain logStore, Panic)
          end
      end
  end.

Definition ResumeFromLastSealedBlock (db : ChainsDB) : ChainsDB * result unit :=
  resume_loop db (range (-4) (logDBs db)).

(** ** The interfaces of the cross-chain checks *)

#[export] Instance ChainsDB_unsafe : CrossUnsafeDeps ChainsDB :=
  {| cu_CrossUnsafe := cdb_CrossUnsafe; cu_Contains := cdb_Contains; cu_IsCrossUnsafe := cdb_IsCrossUnsafe;
     cu_IsLocalUnsafe := cdb_IsLocalUnsafe; cu_FindBlockID := cdb_FindBlockID; cu_OpenBlock := cdb_OpenBlock;
     cu_DependencySet := DS; cu_UpdateCrossUnsafe := cdb_UpdateCrossUnsafe |}.

#[export] Instance ChainsDB_safe : CrossSafeDeps ChainsDB :=
  {| cs_CrossSafe := cdb_CrossSafe; cs_CandidateCrossSafe := cdb_CandidateCrossSafe;
     cs_CrossDerivedToSource := cdb_CrossDerivedToSource; cs_NextSource := cdb_NextSource;
     cs_PreviousCrossDerived := cdb_PreviousCrossDerived; cs_Contains := cdb_Contains; cs_OpenBlock := cdb_OpenBlock;
     cs_DependencySet := DS; cs_UpdateCrossSafe := cdb_UpdateCrossSafe;
     cs_InvalidateLocalSafe := cdb_InvalidateLocalSafe |}.
End ChainsDB.
Arguments ChainsDB : clear implicits.
