(* ===== verification/ChainsLinks.v ===== *)
(** * Updates of the derivation databases, as the chains database makes them

    What the last link is after an update that succeeds, the order that the
    cross-safe database keeps besides, and the answers of the queries that
    the chains database relies on. *)

From stdpp Require Import base gmap sets list.
From S2P Require Import Prelude EthTypes EntryDB FromDA FromDASearch FromDALinks.

Section links.
Context {St : Type} {ES : EntryStore St} {L : EntryStoreLaws St EntrySize}.

Lemma rep_unique db ls ls' : rep db ls -> rep db ls' -> ls = ls'.
Proof.
  intros [_ Hv Hwf] [_ Hv' Hwf']. rewrite Hv in Hv'. clear Hv. revert ls' Hv' Hwf'.
  induction ls as [|l ls IH]; intros [|l' ls'] Hv Hwf'; try done. rewrite !fmap_cons in Hv. apply cons_eq_inj in Hv as [Hl Hv].
  apply Forall_cons_1 in Hwf as [Hw Hwf], Hwf' as [Hw' Hwf']. f_equal; [|by apply IH].
  apply decode_link_bytes in Hw, Hw'. rewrite Hl in Hw. congruence.
Qed.

(** The link is of this pair of blocks. *)
Definition link_at (l : LinkEntry) (source derived : BlockID) : Prop :=
  BlockSeal_ID (le_source l) = source /\ BlockSeal_ID (le_derived l) = derived.

Lemma link_of_at source derived invalidated r :
  link_at (link_of source derived invalidated r) (L1BlockRef_ID source) (L1BlockRef_ID derived).
Proof. done. Qed.

(** The last link after an addition: the pair was there already, or is new. *)
Lemma addLink_last db ls source derived invalidated revision db' ls' :
  holds db ls -> ref_wf source -> ref_wf derived -> call_ok (last ls) source derived invalidated revision ->
  addLink db source derived invalidated revision = (db', Ok tt) -> rep db' ls' ->
  (ls' = ls /\ exists l, last ls = Some l /\ link_at l (L1BlockRef_ID source) (L1BlockRef_ID derived) /\ le_invalidated l = false) \/
  (exists r, ls' = ls ++ [link_of source derived invalidated r]).
Proof.
  intros Hh Hs Hd Hc Hadd Hrep'. pose proof (addLink_holds _ _ _ _ _ _ Hh Hs Hd Hc) as Hk. pose proof Hh as [Hrep Hok].
  revert Hadd. unfold addLink. cbv zeta. rewrite (rep_Size db ls Hrep).
  assert (forall r, link_wf (link_of source derived invalidated r) -> append_link db (link_of source derived invalidated r) = (db', Ok tt) ->
    ls' = ls ++ [link_of source derived invalidated r]) as Happ.
  { intros r Hwf Ha. destruct (append_link_rep db ls _ Hrep Hwf) as [Hr _]. rewrite Ha in Hr. simpl in Hr. by eapply rep_unique. }
  destruct (Z.eqb_spec (Z.of_nat (length ls)) 0) as [Hn|Hn].
  - destruct (le_invalidated _) eqn:Hi; [done|]. intros Ha. right. eexists. apply Happ; [|exact Ha].
    apply link_of_wf; [done..|]. destruct Hd as [Hd _ _]. unfold call_ok in Hc. destruct ls; [|done]. simpl in *. unfold FirstRevision.
    destruct (rev_Any revision) eqn:Hany; [lia|]. destruct (Z.eqb_spec invalidated 0); [destruct Hc; [congruence|done]|].
    destruct Hc as [-> Hc]. rewrite Hc, Z.eqb_refl in Hi. done.
  - destruct (latest_link_rep db ls Hrep) as [(a & -> & Ha)|[e ->]]; cbn [rbind]; [|done]. rewrite Ha in Hc.
    destruct (next_link db a source derived invalidated revision) as [[b|]|e|] eqn:Hb; [| |done|done].
    + destruct (next_link_step _ _ _ _ _ _ _ _ Hh Ha Hs Hd Hc Hb) as (_ & _ & Hwf & _). intros Happ'. right.
      unfold next_link in Hb. destruct (le_invalidated a); [done|]. apply rbind_Ok in Hb as (r & _ & Hb).
      case_match; [done|]. case_match; [done|]. apply rbind_Ok in Hb as (? & _ & Hb). apply rbind_Ok in Hb as (? & _ & Hb).
      apply Ok_inj in Hb. injection Hb as <-. exists r. by apply Happ.
    + intros [= <-]. left. split; [by eapply rep_unique|]. exists a. split; [done|]. unfold next_link in Hb.
      destruct (le_invalidated a) eqn:Hi; [done|]. apply rbind_Ok in Hb as (r & _ & Hb). case_match; [done|].
      destruct (id_eqb _ _ && id_eqb _ _) eqn:Hid.
      * apply andb_true_iff in Hid as [H1 H2]. unfold id_eqb in *. apply bool_decide_eq_true in H1, H2. done.
      * apply rbind_Ok in Hb as (? & _ & Hb). by apply rbind_Ok in Hb as (? & _ & Hb).
Qed.

(** An addition that fails leaves the links as they were. *)
Lemma addLink_err db ls source derived invalidated revision db' e :
  holds db ls -> ref_wf source -> ref_wf derived -> call_ok (last ls) source derived invalidated revision ->
  addLink db source derived invalidated revision = (db', Err e) -> holds db' ls.
Proof.
  intros Hh Hs Hd Hc. pose proof Hh as [Hrep Hok]. unfold addLink. cbv zeta. rewrite (rep_Size db ls Hrep).
  assert (forall l, link_wf l -> append_link db l = (db', Err e) -> holds db' ls) as Happ.
  { intros l Hwf Ha. destruct (append_link_rep db ls _ Hrep Hwf) as [Hr _]. by rewrite Ha in Hr. }
  destruct (Z.eqb_spec (Z.of_nat (length ls)) 0) as [Hn|Hn].
  - destruct (le_invalidated _) eqn:Hi; [by intros [= <- _]|]. apply Happ.
    apply link_of_wf; [done..|]. destruct Hd as [Hd _ _]. unfold call_ok in Hc. destruct ls; [|done]. simpl in *. unfold FirstRevision.
    destruct (rev_Any revision) eqn:Hany; [lia|]. destruct (Z.eqb_spec invalidated 0); [destruct Hc; [congruence|done]|].
    destruct Hc as [-> Hc]. rewrite Hc, Z.eqb_refl in Hi. done.
  - destruct (latest_link_rep db ls Hrep) as [(a & -> & Ha)|[x ->]]; cbn [rbind]; [|by intros [= <- _]]. rewrite Ha in Hc.
    destruct (next_link db a source derived invalidated revision) as [[b|]|x|] eqn:Hb; [|done|by intros [= <- _]|done].
    apply Happ. by destruct (next_link_step _ _ _ _ _ _ _ _ Hh Ha Hs Hd Hc Hb) as (_ & _ & Hwf & _).
Qed.

(** The numbers of derived blocks never decrease. *)
Definition derived_le (a b : LinkEntry) : Prop := der a <= der b.
#[export] Instance derived_le_preorder : PreOrder derived_le.
Proof. split; [intros a | intros a b c]; unfold derived_le; lia. Qed.

(** The cross-safe database has no placeholders and never goes back. *)
Record plain (ls : list LinkEntry) : Prop := {
  pl_valid : Forall (fun l => le_invalidated l = false) ls;
  pl_derived : adjacent derived_le ls }.

Lemma plain_nil : plain [].
Proof. by split. Qed.

Lemma plain_take k ls : plain ls -> plain (take k ls).
Proof.
  intros [H1 H2]. split; [by apply Forall_take|]. rewrite <- (take_drop k ls) in H2. by apply adjacent_app in H2 as [H2 _].
Qed.

(** Without a placeholder to replace, the new block is not before the last. *)
Lemma next_link_after db ls source derived revision a o : holds db ls -> last ls = Some a ->
  next_link db a source derived 0 revision = Ok o ->
  der a <= l1_Number derived /\ (rev_Any revision = true \/ revision = le_revision a \/ rev_Number revision = l1_Number derived).
Proof.
  intros Hh Ha Hb. unfold next_link in Hb. destruct (le_invalidated a) eqn:Hi; [done|]. apply rbind_Ok in Hb as (r & Hr & Hb).
  assert (rev_Any revision = true \/ revision = le_revision a \/ rev_Number revision = l1_Number derived) as Hrev.
  { unfold link_revision in Hr. destruct (rev_Any revision); [by left|right]. simpl in Hr.
    destruct (Z.eqb_spec (le_revision a) revision); [by left|]. destruct (Z.eqb_spec (l1_Number derived) (rev_Number revision)); [by right|done]. }
  split; [|done]. destruct ((_ =? _) && _); [done|]. destruct (id_eqb _ _ && id_eqb _ _) eqn:Hid.
  - apply andb_true_iff in Hid as [H1 _]. unfold id_eqb in H1. apply bool_decide_eq_true in H1. injection H1 as _ H1. lia.
  - apply rbind_Ok in Hb as ([] & Hcd & Hb). apply (check_derived_Ok _ _ _ _ _ Hh Ha) in Hcd. naive_solver lia.
Qed.

(** [AddDerived], with any revision when there are links already. *)
Lemma AddDerived_spec db ls source derived revision : holds db ls -> ref_wf source -> ref_wf derived ->
  (rev_Any revision = true \/ 0 <= revision < two63) ->
  (ls = [] -> rev_Any revision = true \/ revision <= l1_Number derived) ->
  match AddDerived db source derived revision with
  | (db', Ok _) => exists ls', holds db' ls' /\ (ls' = ls \/ exists r, ls' = ls ++ [link_of source derived 0 r]) /\
      exists l, last ls' = Some l /\ link_at l (L1BlockRef_ID source) (L1BlockRef_ID derived) /\ le_invalidated l = false
  | (db', Err _) => holds db' ls
  | (_, Panic) => False
  end.
Proof.
  intros Hh Hs Hd Hr Hempty.
  destruct (decide (rev_Any revision = true \/ 0 <= revision <= l1_Number derived)) as [Hc|Hc].
  - assert (call_ok (last ls) source derived 0 revision) as Hcall by exact Hc. unfold AddDerived.
    destruct (addLink_holds _ _ _ _ _ _ Hh Hs Hd Hcall) as (ls' & Hh' & _ & Hp).
    destruct (addLink db source derived 0 revision) as [db' [[]|e|]] eqn:Hadd; [| |done].
    + exists ls'. split; [done|]. destruct (addLink_last _ _ _ _ _ _ _ _ Hh Hs Hd Hcall Hadd (proj1 Hh')) as [(-> & l & Hl & Hat & Hi)|[r ->]].
      * split; [by left|]. by exists l.
      * split; [right; by exists r|]. exists (link_of source derived 0 r). rewrite last_snoc. split; [done|]. split; [apply link_of_at|done].
    + eapply addLink_err; [exact Hh|exact Hs|exact Hd|exact Hcall|exact Hadd].
  - destruct (last ls) as [a|] eqn:Ha.
    2: { apply last_None in Ha. destruct (Hempty Ha); tauto || (exfalso; apply Hc; right; lia || tauto). }
    destruct (holds_last db ls a Hh Ha) as (Hwf & Hra & _). pose proof (lw_revision _ Hwf) as Hrr. pose proof Hh as [Hrep Hok].
    unfold AddDerived, addLink. cbv zeta. rewrite (rep_Size db ls Hrep).
    destruct (Z.eqb_spec (Z.of_nat (length ls)) 0) as [Hn|Hn]; [by destruct ls|].
    destruct (latest_link_rep db ls Hrep) as [(a' & -> & Ha')|[e ->]]; cbn [rbind]; [|done].
    assert (a' = a) as -> by congruence. pose proof (next_link_no_panic db ls a source derived 0 revision Hh Ha) as Hnp.
    destruct (next_link db a source derived 0 revision) as [o|e|] eqn:Hb; [|done|done].
    exfalso. destruct (next_link_after _ _ _ _ _ _ _ Hh Ha Hb) as (Hle & [?|[->|Hn']]); [tauto|apply Hc; right; lia|].
    destruct Hr as [?|Hr]; [tauto|]. rewrite rev_Number_small in Hn' by done. apply Hc. right. pose proof (rw_number _ Hd). lia.
Qed.

(** A rewind cuts the links, or leaves them. *)
Definition cut (ls : list LinkEntry) (r : St * result unit) : Prop :=
  exists k, holds r.1 (take k ls) /\ r.2 <> Panic.

Lemma cut_same ls db r : holds db ls -> r <> Panic -> cut ls (db, r).
Proof. intros Hh Hr. exists (length ls). by rewrite firstn_all. Qed.

Lemma rewindLocked_cut db ls t including : holds db ls -> cut ls (rewindLocked db t including).
Proof.
  intros Hh. pose proof (rewindLocked_kept db ls t including Hh) as (_ & _ & _ & Hnp). revert Hnp. unfold rewindLocked.
  destruct (rewind_target db t including) as [i|e|] eqn:Ht; [|intros _; by apply cut_same|done].
  unfold rewind_target in Ht. apply rbind_Ok in Ht as ([j l] & Hl & Ht). apply (lookup_found db ls) in Hl; [|done].
  pose proof (found_range _ _ _ _ _ _ Hl) as Hr. case_match; [done|]. case_match; [done|]. apply Ok_inj in Ht.
  pose proof (truncate_holds db ls i Hh) as Htr. specialize (Htr ltac:(destruct including; lia)).
  destruct (st_Truncate db i) as [db' [u|e|]]; [| |done]; intros Hnp.
  - eexists. by split.
  - by apply cut_same.
Qed.

Lemma RewindToScope_cut db ls scope : holds db ls -> cut ls (RewindToScope db scope).
Proof.
  intros Hh. pose proof (RewindToScope_kept db ls scope Hh) as (_ & _ & _ & Hnp). revert Hnp. unfold RewindToScope.
  case_match; intros Hnp; [by apply rewindLocked_cut | by apply cut_same | done].
Qed.

Lemma RewindToFirstDerived_cut db ls v revision : holds db ls -> 0 <= revision < two63 ->
  cut ls (RewindToFirstDerived db v revision).
Proof.
  intros Hh Hr. pose proof (RewindToFirstDerived_kept db ls v revision Hh Hr) as (_ & _ & _ & Hnp). revert Hnp.
  unfold RewindToFirstDerived. case_match; intros Hnp; [by apply rewindLocked_cut | by apply cut_same | done].
Qed.

(** Invalidating leaves the pair as the last link, as a placeholder. *)
Lemma RewindAndInvalidate_Ok db ls pair db' ls' : holds db ls -> ref_wf (rp_Source pair) -> ref_wf (rp_Derived pair) ->
  RewindAndInvalidate db pair = (db', Ok tt) -> rep db' ls' ->
  exists l, last ls' = Some l /\ link_at l (L1BlockRef_ID (rp_Source pair)) (L1BlockRef_ID (rp_Derived pair)) /\
    (l1_Hash (rp_Derived pair) <> 0 -> le_invalidated l = true).
Proof.
  intros Hh Hs Hd. unfold RewindAndInvalidate.
  destruct (invalidate_target db pair) as [i|e|] eqn:Ht; [|done|done]. unfold invalidate_target in Ht.
  apply rbind_Ok in Ht as ([j l] & Hl & Ht). assert (j = i) as -> by (repeat case_match; simplify_eq; done). clear Ht.
  apply (lookupOrAfter_found db ls) in Hl; [|done]. pose proof (found_range _ _ _ _ _ _ Hl) as Hi.
  pose proof (truncate_holds db ls (i - 1) Hh ltac:(lia)) as Htr.
  destruct (st_Truncate db (i - 1)) as [db1 [u|e|]]; [|done|done]. replace (i - 1 + 1) with i in Htr by lia.
  assert (forall a, last (take (Z.to_nat i) ls) = Some a ->
    src a < l1_Number (rp_Source pair) \/ (src a = l1_Number (rp_Source pair) /\ der a < l1_Number (rp_Derived pair))) as Hbefore.
  { intros a Ha. assert (Hpos : 0 < i) by (destruct (decide (i = 0)) as [->|]; [done|lia]).
    rewrite last_lookup, length_take, lookup_take_lt in Ha by lia. destruct Hl as [_ _ _ Hb].
    specialize (Hb _ _ Ha ltac:(cbv iota; lia)). cbv beta in Hb.
    pose proof (cmp_pair_nonneg (src a) (l1_Number (rp_Source pair)) (der a) (l1_Number (rp_Derived pair))) as Hnn.
    change (cmp_pair (src a) (l1_Number (rp_Source pair)) (der a) (l1_Number (rp_Derived pair)) < 0) in Hb. lia. }
  destruct (addLink db1 _ _ _ _) as [db2 [[]|e|]] eqn:Hadd; [|done|done]. intros [= <-] Hrep'.
  assert (call_ok (last (take (Z.to_nat i) ls)) (rp_Source pair) (rp_Derived pair)
    (l1_Hash (rp_Derived pair)) (l1_Number (rp_Derived pair))) as Hc.
  { unfold call_ok. destruct (Z.eqb_spec (l1_Hash (rp_Derived pair)) 0).
    - right. destruct Hd as [Hd _ _]. lia.
    - split; [done|]. destruct (last _) as [a|] eqn:Ha; [|done]. split; [|by left]. specialize (Hbefore a eq_refl). lia. }
  destruct (addLink_last _ _ _ _ _ _ _ _ Htr Hs Hd Hc Hadd Hrep') as [(-> & a & Ha & [Has Had] & _)|[r ->]].
  - exfalso. specialize (Hbefore a Ha). apply (f_equal bid_Number) in Has, Had. simpl in Has, Had. lia.
  - eexists. rewrite last_snoc. split; [done|]. split; [apply link_of_at|]. intros Hnz. simpl. rewrite Z.eqb_refl.
    by destruct (Z.eqb_spec (l1_Hash (rp_Derived pair)) 0).
Qed.

(** Replacing leaves the replacement as the last link. *)
Lemma ReplaceInvalidatedBlock_Ok db ls repl invalidated db' refs ls' : holds db ls -> ref_wf repl ->
  (forall p, last ls = Some p -> l1_Number repl = der p) ->
  ReplaceInvalidatedBlock db repl invalidated = (db', Ok refs) -> rep db' ls' ->
  rp_Derived refs = repl /\ exists l, last ls' = Some l /\ link_at l (L1BlockRef_ID (rp_Source refs)) (L1BlockRef_ID repl).
Proof.
  intros Hh Hr Hn. unfold ReplaceInvalidatedBlock.
  destruct (replace_target db invalidated) as [[p s]|e|] eqn:Ht; [|done|done].
  destruct (replace_target_Ok db ls _ _ _ Hh Ht) as (Hp & Hi & Hhash).
  destruct (placeholder ls p (proj2 Hh) Hp Hi) as (a & Ha & [_ _ Hin _ _] & Hra & Hrp).
  destruct (holds_last db ls p Hh Hp) as ([[Hpn Hpt Hph] _ Hprev] & _ & Hps & _).
  rewrite (rep_Last db ls) by apply Hh. pose proof (truncate_holds db ls (Z.of_nat (length ls) - 1 - 1) Hh) as Htr.
  assert (0 < length ls)%nat as Hlen by (destruct ls; [done|simpl; lia]). specialize (Htr ltac:(lia)).
  destruct (st_Truncate db _) as [db1 [u|e|]]; [|done|done].
  replace (Z.to_nat (Z.of_nat (length ls) - 1 - 1 + 1)) with (length ls - 1)%nat in Htr by lia.
  set (source := ForceWithParent (le_source p) (BlockSeal_ID s)). assert (Hs : ref_wf source) by (by split).
  assert (Hc : call_ok (last (take (length ls - 1) ls)) source repl invalidated (le_revision p)).
  { rewrite Ha. specialize (Hn p Hp). unfold call_ok.
    destruct (invalidated =? 0); [right; lia|]. split; [lia|]. split; [simpl; lia|by right]. }
  destruct (addLink db1 source repl invalidated (le_revision p)) as [db2 [[]|e|]] eqn:Hadd; [|done|done].
  intros [= <- <-] Hrep'. split; [done|].
  destruct (addLink_last _ _ _ _ _ _ _ _ Htr Hs Hr Hc Hadd Hrep') as [(-> & l & Hl & Hat & _)|[r ->]]; [by exists l|].
  eexists. rewrite last_snoc. split; [done|]. apply link_of_at.
Qed.

(** ** Queries *)

Lemma mono_derived_any ls d : plain ls -> monotone true (cmp_derived_last RevisionAny d) ls.
Proof.
  intros [_ Hp] i j a b Hij Ha Hb. unfold cmp_derived_last. simpl. rewrite !cmp_Compare_nonneg.
  pose proof (adjacent_lookup derived_le ls i j a b Hp Ha Hb Hij) as H. unfold derived_le in H. lia.
Qed.

Lemma DerivedToRevision_spec db ls derived : holds db ls -> plain ls ->
  DerivedToRevision db derived <> Panic /\ forall r, DerivedToRevision db derived = Ok r -> 0 <= r < two63.
Proof.
  intros Hh Hp. pose proof (mono_derived_any ls (bid_Number derived) Hp) as Hm. unfold DerivedToRevision. split.
  - apply rbind_run_no_panic; [apply map_err_no_panic, (find_no_panic db ls); [apply Hh|done]|].
    intros [i l] _. by case_match.
  - intros r Hr. apply rbind_Ok in Hr as ([i l] & Hl%map_err_Ok & Hr). apply (find_found db ls) in Hl as [_ Hl _ _]; [|apply Hh|done].
    case_match; [done|]. apply Ok_inj in Hr as <-. by apply lw_revision, (Forall_lookup_1 _ _ _ _ (rep_wf _ _ (proj1 Hh)) Hl).
Qed.

Lemma SourceToRevision_spec db ls source : holds db ls -> SourceToRevision db source <> Panic /\
  forall r, SourceToRevision db source = Ok r -> (ls = [] /\ r = 0) \/ exists l, l ∈ ls /\ le_revision l = r /\ 0 <= r < two63.
Proof.
  intros Hh. pose proof (mono_source_last ls (bid_Number source) (proj2 Hh)) as Hm. unfold SourceToRevision.
  rewrite (rep_Size db ls) by apply Hh. destruct (Z.eqb_spec (Z.of_nat (length ls)) 0) as [Hn|Hn].
  { split; [done|]. intros r [= <-]. left. by destruct ls. }
  split.
  - apply rbind_run_no_panic; [apply (find_no_panic db ls); [apply Hh|done]|]. intros [i l] _. by case_match.
  - intros r Hr. apply rbind_Ok in Hr as ([i l] & Hl & Hr). apply (find_found db ls) in Hl as [_ Hl _ _]; [|apply Hh|done].
    case_match; [done|]. apply Ok_inj in Hr as <-. right. exists l. split; [by eapply list_elem_of_lookup_2|]. split; [done|].
    by apply lw_revision, (Forall_lookup_1 _ _ _ _ (rep_wf _ _ (proj1 Hh)) Hl).
Qed.

Lemma sealOrErr_no_panic l : sealOrErr l <> Panic.
Proof. unfold sealOrErr. by case_match. Qed.

Lemma Last_no_panic db ls : holds db ls -> Last db <> Panic.
Proof.
  intros Hh. apply rbind_run_no_panic; [apply (latest_link_no_panic db ls), Hh|]. intros l _. apply sealOrErr_no_panic.
Qed.

Lemma First_no_panic db ls : holds db ls -> First db <> Panic.
Proof.
  intros Hh. unfold First. rewrite (rep_Last db ls) by apply Hh. case_match; [done|].
  apply rbind_run_no_panic; [apply map_err_no_panic, (readAt_no_panic db ls); [apply Hh|lia]|]. intros l _. apply sealOrErr_no_panic.
Qed.

Lemma SourceToLastDerived_no_panic db ls source : holds db ls -> SourceToLastDerived db source <> Panic.
Proof.
  intros Hh. apply rbind_run_no_panic.
  - apply (find_no_panic db ls); [apply Hh|apply mono_source_last, Hh].
  - intros [i l] _. by repeat case_match.
Qed.
End links.
