(* ===== verification/ChainsInv.v ===== *)
(** * The chains database: its invariant

    Every log database of the chains database holds a history, every
    derivation database a list of links in order, and the cross-safe ones
    besides have no placeholders and never go back.  Every operation keeps
    this, touches no other chain, and announces only what is stored. *)

From stdpp Require Import base gmap sets list.
From S2P Require Import Prelude EthTypes EntryDB FromDA FromDASearch FromDALinks DepSet CrossGraph LogDB LogCodec LogStream LogRead LogSearch LogRefine LogQuery ChainsDB ChainsLinks.

(** What the databases of the chains hold. *)
Record cview : Type := {
  v_logs : gmap Z alog;
  v_local : gmap Z (list LinkEntry);
  v_cross : gmap Z (list LinkEntry) }.

Definition v_set_log (v : cview) (c : Z) (a : alog) : cview :=
  {| v_logs := <[c := a]> (v_logs v); v_local := v_local v; v_cross := v_cross v |}.
Definition v_set_local (v : cview) (c : Z) (ls : list LinkEntry) : cview :=
  {| v_logs := v_logs v; v_local := <[c := ls]> (v_local v); v_cross := v_cross v |}.
Definition v_set_cross (v : cview) (c : Z) (ls : list LinkEntry) : cview :=
  {| v_logs := v_logs v; v_local := v_local v; v_cross := <[c := ls]> (v_cross v) |}.

(** ** What an operation may change *)

(** The chains in [P] may take a step of [R]; the others stay. *)
Definition moves {A} (R : A -> A -> Prop) (P : Z -> Prop) (m m' : gmap Z A) : Prop :=
  map_Forall2 (fun c x y => x = y \/ (P c /\ R x y)) m m'.

Lemma moves_refl {A} (R : A -> A -> Prop) P (m : gmap Z A) : moves R P m m.
Proof. intros c. destruct (m !! c); constructor. by left. Qed.

Lemma moves_insert {A} (R : A -> A -> Prop) (P : Z -> Prop) (m : gmap Z A) c x y :
  m !! c = Some x -> P c -> R x y -> moves R P m (<[c := y]> m).
Proof.
  intros Hx HP HR c'. destruct (decide (c' = c)) as [->|Hne].
  - rewrite lookup_insert_eq, Hx. constructor. auto.
  - rewrite lookup_insert_ne by done. destruct (m !! c'); constructor. by left.
Qed.

Definition alog_next (a a' : alog) : Prop := exists r b, alog_step a r a' b.

Record chains_step (P : Z -> Prop) (v v' : cview) : Prop := {
  cs_logs : moves alog_next P (v_logs v) (v_logs v');
  cs_local : moves extends P (v_local v) (v_local v');
  cs_cross : moves extends P (v_cross v) (v_cross v') }.

Lemma chains_step_refl P v : chains_step P v v.
Proof. split; apply moves_refl. Qed.

(** Each component of the view moves at most once. *)
Ltac parts := split; cbn [v_logs v_local v_cross v_set_log v_set_local v_set_cross].

Section inv.
Context {Sl Sd : Type} {ESl : EntryStore Sl} {ESd : EntryStore Sd}.
Context {LSl : EntryStoreLaws Sl logs_EntrySize} {LSd : EntryStoreLaws Sd EntrySize}.
Context `{MapOrder} `{Keccak} {DS : DependencySet}.

(** The log databases read their stores without errors; writes may fail. *)
Hypothesis Hreliable : forall (s : Sl) i e, st_ok s -> st_view s !! i = Some e -> st_Read s (Z.of_nat i) = Ok e.

Abbreviation CDB := (ChainsDB Sl Sd).

Record chains_inv (db : CDB) (v : cview) : Prop := {
  ci_logs : map_Forall2 (fun _ d a => logs_inv d a) (logDBs db) (v_logs v);
  ci_local : map_Forall2 (fun _ d ls => holds d ls) (localDBs db) (v_local v);
  ci_cross : map_Forall2 (fun _ d ls => holds d ls /\ plain ls) (crossDBs db) (v_cross v) }.

Lemma forall2_lookup {A B} (R : Z -> A -> B -> Prop) (m : gmap Z A) (m' : gmap Z B) c d :
  map_Forall2 R m m' -> m !! c = Some d -> exists a, m' !! c = Some a /\ R c d a.
Proof. intros Hm Hc. specialize (Hm c). rewrite Hc in Hm. inversion Hm; subst. eauto. Qed.

Lemma inv_logDB db v c d : chains_inv db v -> logDBs db !! c = Some d -> exists a, v_logs v !! c = Some a /\ logs_inv d a.
Proof. intros [Hl _ _] Hc. exact (forall2_lookup _ _ _ _ _ Hl Hc). Qed.
Lemma inv_local db v c d : chains_inv db v -> localDBs db !! c = Some d -> exists ls, v_local v !! c = Some ls /\ holds d ls.
Proof. intros [_ Hl _] Hc. exact (forall2_lookup _ _ _ _ _ Hl Hc). Qed.
Lemma inv_cross db v c d : chains_inv db v -> crossDBs db !! c = Some d -> exists ls, v_cross v !! c = Some ls /\ holds d ls /\ plain ls.
Proof. intros [_ _ Hl] Hc. exact (forall2_lookup _ _ _ _ _ Hl Hc). Qed.

Lemma inv_set_log db v c d a : chains_inv db v -> logs_inv d a -> chains_inv (set_logDB db c d) (v_set_log v c a).
Proof. intros [H1 H2 H3] Ha. split; [by apply map_Forall2_insert_2|done|done]. Qed.
Lemma inv_set_local db v c d ls : chains_inv db v -> holds d ls -> chains_inv (set_localDB db c d) (v_set_local v c ls).
Proof. intros [H1 H2 H3] Ha. split; [done|by apply map_Forall2_insert_2|done]. Qed.
Lemma inv_set_cross db v c d ls : chains_inv db v -> holds d ls -> plain ls -> chains_inv (set_crossDB db c d) (v_set_cross v c ls).
Proof. intros [H1 H2 H3] Ha Hp. split; [done|done|by apply map_Forall2_insert_2]. Qed.

(** The other fields do not matter to the invariant. *)
Lemma inv_fields db db' v : logDBs db' = logDBs db -> localDBs db' = localDBs db -> crossDBs db' = crossDBs db ->
  chains_inv db v -> chains_inv db' v.
Proof. intros H1 H2 H3 [? ? ?]. split; rewrite ?H1, ?H2, ?H3; done. Qed.

(** ** Announcements *)

(** What an event that the database emits says of its state. *)
Definition announced (db : CDB) (v : cview) (ev : superevent) : Prop :=
  match ev with
  | LocalUnsafeUpdateEvent c b => exists p1 evs, v_logs v !! c = Some (ALog p1 (Some evs) evs) /\
      advs p1 evs = first_pos (L1BlockRef_ID b) (l1_Time b)
  | LocalSafeUpdateEvent c p => exists ls l, v_local v !! c = Some ls /\ last ls = Some l /\
      link_at l (BlockSeal_ID (sp_Source p)) (BlockSeal_ID (sp_Derived p))
  | CrossSafeUpdateEvent c p => exists ls l, v_cross v !! c = Some ls /\ last ls = Some l /\
      link_at l (BlockSeal_ID (sp_Source p)) (BlockSeal_ID (sp_Derived p))
  | CrossUnsafeUpdateEvent c s => crossUnsafe db !! c = Some s
  | FinalizedL1UpdateEvent f => finalizedL1 db = f
  | FinalizedL2UpdateEvent c b => cdb_Finalized db c = Ok b
  | InvalidateLocalSafeEvent c p => exists ls l a, v_local v !! c = Some ls /\ last ls = Some l /\
      link_at l (L1BlockRef_ID (rp_Source p)) (L1BlockRef_ID (rp_Derived p)) /\
      (l1_Hash (rp_Derived p) <> 0 -> le_invalidated l = true) /\
      v_logs v !! c = Some a /\ exists p1 evs, a = ALog p1 (Some evs) evs /\
        p_num (advs p1 evs) = bid_Number (L1BlockRef_ParentID (rp_Derived p)) /\ p_since (advs p1 evs) = 0 /\
        p_hash (advs p1 evs) = l1_ParentHash (rp_Derived p)
  | LocalUnsafeReceivedEvent c b => exists ls l, v_local v !! c = Some ls /\ last ls = Some l /\
      BlockSeal_ID (le_derived l) = L1BlockRef_ID b
  | UpdateLocalSafeFailedEvent _ _ _ => True
  | _ => False
  end.

(** What an operation leaves behind: the invariant, a view as [Q] says, true
    announcements, of the kind [K], and no panic. *)
Definition served_by {A} (K : superevent -> Prop) (Q : cview -> Prop) (db : CDB) (x : CDB * result A) : Prop :=
  exists v' evs, chains_inv x.1 v' /\ Q v' /\ x.2 <> Panic /\
    cd_emitted x.1 = cd_emitted db ++ evs /\ Forall (fun ev => K ev /\ announced x.1 v' ev) evs.

(** Steps of the chains in [P] only. *)
Definition served {A} (P : Z -> Prop) (db : CDB) (v : cview) (x : CDB * result A) : Prop :=
  exists v' evs, chains_inv x.1 v' /\ chains_step P v v' /\ x.2 <> Panic /\
    cd_emitted x.1 = cd_emitted db ++ evs /\ Forall (announced x.1 v') evs.

Lemma served_of {A} K Q P db v (x : CDB * result A) : (forall v', Q v' -> chains_step P v v') -> served_by K Q db x -> served P db v x.
Proof.
  intros HQ (v' & evs & Hi & Hq & Hp & He & Ha). exists v', evs. split_and!; [done|by apply HQ|done|done|].
  eapply Forall_impl; [exact Ha|]. by intros ev [_ ?].
Qed.

Lemma served_by_same {A} K (Q : cview -> Prop) db v (r : result A) : chains_inv db v -> Q v -> r <> Panic -> served_by K Q db (db, r).
Proof. intros Hi Hq Hr. exists v, []. rewrite app_nil_r. by split_and!. Qed.

Lemma served_same {A} P db v (r : result A) : chains_inv db v -> r <> Panic -> served P db v (db, r).
Proof.
  intros Hi Hr. exists v, []. split; [done|]. split; [apply chains_step_refl|]. rewrite app_nil_r. by split_and!.
Qed.

(** One database of one chain moves. *)
Definition log_moves (c : Z) (v v' : cview) : Prop :=
  v' = v \/ exists a a', v_logs v !! c = Some a /\ alog_next a a' /\ v' = v_set_log v c a'.
Definition local_moves (c : Z) (v v' : cview) : Prop :=
  v' = v \/ exists ls ls', v_local v !! c = Some ls /\ extends ls ls' /\ v' = v_set_local v c ls'.
Definition cross_moves (c : Z) (v v' : cview) : Prop :=
  v' = v \/ exists ls ls', v_cross v !! c = Some ls /\ extends ls ls' /\ v' = v_set_cross v c ls'.

Definition unsafe_event (ev : superevent) : Prop := match ev with LocalUnsafeUpdateEvent _ _ => True | _ => False end.
Definition local_event (ev : superevent) : Prop :=
  match ev with LocalSafeUpdateEvent _ _ | UpdateLocalSafeFailedEvent _ _ _ => True | _ => False end.
Definition cross_event (ev : superevent) : Prop := match ev with CrossSafeUpdateEvent _ _ => True | _ => False end.

(** ** Log databases *)

Lemma log_request db v c d r : chains_inv db v -> logDBs db !! c = Some d ->
  (forall a, v_logs v !! c = Some a -> request_ok a r) ->
  exists a a' b, v_logs v !! c = Some a /\ alog_step a r a' b /\
    chains_inv (set_logDB db c (serve d r).1) (v_set_log v c a') /\
    match (serve d r).2 with Ok _ => b = true | Err _ => b = false | Panic => False end.
Proof.
  intros Hi Hc Hr. destruct (inv_logDB db v c d Hi Hc) as (a & Ha & Hd).
  pose proof (serve_refines Hreliable d a r Hd (Hr a Ha)) as Hs. unfold refines_step in Hs.
  destruct (serve d r) as [d' res]. destruct Hs as (a' & b & Hstep & Hd' & Hb). exists a, a', b. simpl.
  split_and!; [done..|by apply inv_set_log|]. destruct res; [done|by destruct Hb|done].
Qed.

(** A request that fits is refused only when the store fails. *)
Lemma log_refused db v c d a r e : chains_inv db v -> logDBs db !! c = Some d -> v_logs v !! c = Some a -> request_ok a r ->
  accepts a r -> (serve d r).2 = Err e -> store_fails (ld_store d) r.
Proof.
  intros Hi Hc Ha Hr Hacc He. destruct (inv_logDB db v c d Hi Hc) as (a' & Ha' & Hd). assert (a' = a) as -> by congruence.
  pose proof (serve_refines Hreliable d a r Hd Hr) as Hs. unfold refines_step in Hs.
  destruct (serve d r) as [d' res]. simpl in He. subst res. destruct Hs as (? & ? & _ & _ & _ & Hf). by apply Hf.
Qed.

Lemma step_log (v : cview) c a a' : v_logs v !! c = Some a -> alog_next a a' -> chains_step (eq c) v (v_set_log v c a').
Proof. intros Ha Hn. split; [by eapply moves_insert|apply moves_refl..]. Qed.
Lemma step_local (v : cview) c ls ls' : v_local v !! c = Some ls -> extends ls ls' -> chains_step (eq c) v (v_set_local v c ls').
Proof. intros Ha Hn. split; [apply moves_refl|by eapply moves_insert|apply moves_refl]. Qed.
Lemma step_cross (v : cview) c ls ls' : v_cross v !! c = Some ls -> extends ls ls' -> chains_step (eq c) v (v_set_cross v c ls').
Proof. intros Ha Hn. split; [apply moves_refl..|by eapply moves_insert]. Qed.

(** A request to one log database, with no announcement. *)
Lemma log_served {A} db v c d r (res : result A) : chains_inv db v -> logDBs db !! c = Some d ->
  (forall a, v_logs v !! c = Some a -> request_ok a r) -> res <> Panic ->
  served (eq c) db v (set_logDB db c (serve d r).1, res).
Proof.
  intros Hi Hc Hr Hp. destruct (log_request db v c d r Hi Hc Hr) as (a & a' & b & Ha & Hs & Hi' & _).
  exists (v_set_log v c a'), []. split; [done|]. split; [eapply step_log; [done|by exists r, b]|]. split; [done|].
  split; [by rewrite app_nil_r|constructor].
Qed.

Lemma log_no_panic db v c d r : chains_inv db v -> logDBs db !! c = Some d ->
  (forall a, v_logs v !! c = Some a -> request_ok a r) -> (serve d r).2 <> Panic.
Proof.
  intros Hi Hc Hr. destruct (log_request db v c d r Hi Hc Hr) as (_ & _ & b & _ & _ & _ & Hb). by destruct (serve d r).2.
Qed.

Lemma AddLog_served db v c h parent i m : chains_inv db v ->
  (forall a, v_logs v !! c = Some a -> request_ok a (RLog h parent i m)) -> served (eq c) db v (cdb_AddLog db c h parent i m).
Proof.
  intros Hi Hr. unfold cdb_AddLog. destruct (logDBs db !! c) as [d|] eqn:Hc; [|by apply served_same].
  pose proof (log_no_panic db v c d _ Hi Hc Hr) as Hp. pose proof (log_served db v c d _ (serve d (RLog h parent i m)).2 Hi Hc Hr Hp) as Hs.
  change (db_AddLog d h parent i m) with (serve d (RLog h parent i m)). by destruct (serve d (RLog h parent i m)).
Qed.

(** A block that can be sealed. *)
Definition seal_ok (b : L1BlockRef) : Prop :=
  is_hash (l1_Hash b) /\ l1_Hash b <> 0 /\ 0 <= l1_Number b /\ l1_Number b + 1 < two64 /\ is_u64 (l1_Time b).

Lemma initializedSealBlock_by db v c b : chains_inv db v -> seal_ok b -> served_by unsafe_event (log_moves c v) db (initializedSealBlock db c b).
Proof.
  intros Hi Hb. unfold initializedSealBlock. destruct (logDBs db !! c) as [d|] eqn:Hc; [|apply (served_by_same _ _ db v); [done|by left|done]].
  set (r := RSeal (l1_ParentHash b) (L1BlockRef_ID b) (l1_Time b)).
  assert (forall a, v_logs v !! c = Some a -> request_ok a r) as Hr by (by intros).
  destruct (log_request db v c d r Hi Hc Hr) as (a & a' & ok & Ha & Hs & Hi' & Hres).
  change (db_SealBlock d (l1_ParentHash b) (L1BlockRef_ID b) (l1_Time b)) with (serve d r).
  assert (log_moves c v (v_set_log v c a')) as Hst by (right; exists a, a'; split_and!; [done|by exists r, ok|done]).
  destruct (serve d r) as [d' [u|e|]]; simpl in *; [| |done].
  - exists (v_set_log v c a'), [LocalUnsafeUpdateEvent c b]. split; [by eapply inv_fields; [..|exact Hi']|].
    split; [done|]. split; [done|]. split; [done|]. constructor; [|constructor]. split; [done|]. subst ok. simpl. rewrite lookup_insert_eq.
    inversion Hs; subst; simplify_eq/=.
    + by exists (first_pos (L1BlockRef_ID b) (l1_Time b)), [].
    + eexists p1, _. split; [done|]. unfold evs'. by rewrite advs_app.
  - exists (v_set_log v c a'), []. rewrite app_nil_r. by split_and!.
Qed.

Lemma SealBlock_served db v c b : chains_inv db v -> seal_ok b -> served (eq c) db v (cdb_SealBlock db c b).
Proof.
  intros Hi Hb. unfold cdb_SealBlock. case_match; [by apply served_same|]. eapply served_of; [|by apply initializedSealBlock_by].
  intros v' [->|(a & a' & Ha & Hn & ->)]; [apply chains_step_refl|by eapply step_log].
Qed.

Lemma RewindLogs_served db v c s : chains_inv db v -> served (eq c) db v (cdb_RewindLogs db c s).
Proof.
  intros Hi. unfold cdb_RewindLogs. destruct (logDBs db !! c) as [d|] eqn:Hc; [|by apply served_same].
  assert (forall a, v_logs v !! c = Some a -> request_ok a (RRewind (BlockSeal_ID s))) as Hr by (by intros).
  pose proof (log_no_panic db v c d _ Hi Hc Hr) as Hp.
  pose proof (log_served db v c d _ (map_err (Wrap "failed to rewind logs of chain") (serve d (RRewind (BlockSeal_ID s))).2) Hi Hc Hr
    (map_err_no_panic _ _ Hp)) as Hs.
  change (db_Rewind d (BlockSeal_ID s)) with (serve d (RRewind (BlockSeal_ID s))). by destruct (serve d (RRewind (BlockSeal_ID s))).
Qed.

(** ** Derivation databases *)

Lemma AddDerived_extends ls source derived : forall ls',
  (ls' = ls \/ exists r, ls' = ls ++ [link_of source derived 0 r]) -> extends ls ls'.
Proof. intros ls' [->|[r ->]]; [apply extends_refl|apply extends_snoc]. Qed.

Lemma initializedUpdateLocalSafe_by db v c source derived node : chains_inv db v -> ref_wf source -> ref_wf derived ->
  served_by local_event (local_moves c v) db (initializedUpdateLocalSafe db c source derived node).
Proof.
  intros Hi Hs Hd. unfold initializedUpdateLocalSafe. destruct (localDBs db !! c) as [d|] eqn:Hc; [|apply (served_by_same _ _ db v); [done|by left|done]].
  destruct (inv_local db v c d Hi Hc) as (ls & Hls & Hh).
  pose proof (AddDerived_spec d ls source derived RevisionAny Hh Hs Hd (or_introl eq_refl) (fun _ => or_introl eq_refl)) as Ha.
  destruct (AddDerived d source derived RevisionAny) as [d' [u|e|]]; [| |done].
  - destruct Ha as (ls' & Hh' & Hx & l & Hl & Hat & _).
    exists (v_set_local v c ls'), [LocalSafeUpdateEvent c {| sp_Source := BlockSealFromRef source; sp_Derived := BlockSealFromRef derived |}].
    split; [eapply inv_fields; [..|by apply (inv_set_local db v c d' ls')]; done|].
    split; [right; exists ls, ls'; split_and!; [done|by eapply AddDerived_extends|done]|]. split; [done|]. split; [done|].
    constructor; [|constructor]. split; [done|]. exists ls', l. simpl. by rewrite lookup_insert_eq.
  - assert (chains_inv (set_localDB db c d') (v_set_local v c ls)) as Hi' by (by apply inv_set_local).
    assert (local_moves c v (v_set_local v c ls)) as Hst by (right; exists ls, ls; split_and!; [done|apply extends_refl|done]).
    assert (served_by local_event (local_moves c v) db (set_localDB db c d', Ok tt)) as Hq.
    { exists (v_set_local v c ls), []. rewrite app_nil_r. by split_and!. }
    case_match; [done|]. case_match; [done|].
    exists (v_set_local v c ls), [UpdateLocalSafeFailedEvent c e node]. split; [by eapply inv_fields; [..|exact Hi']|].
    split_and!; [done..|]. by constructor.
Qed.

Lemma UpdateLocalSafe_served db v c source derived node : chains_inv db v -> ref_wf source -> ref_wf derived ->
  served (eq c) db v (cdb_UpdateLocalSafe db c source derived node).
Proof.
  intros Hi Hs Hd. unfold cdb_UpdateLocalSafe. case_match; [by apply served_same|]. eapply served_of; [|by apply initializedUpdateLocalSafe_by].
  intros v' [->|(ls & ls' & Hl & Hn & ->)]; [apply chains_step_refl|by eapply step_local].
Qed.

(** A cross-safe database is started with a revision that is not above the
    block. *)
Definition cross_start (v : cview) (c : Z) (derived : L1BlockRef) : Prop :=
  v_cross v !! c = Some [] -> forall ls l, v_local v !! c = Some ls -> l ∈ ls -> le_revision l <= l1_Number derived.

Lemma plain_add ls source derived r : plain ls -> (forall a, last ls = Some a -> der a <= l1_Number derived) ->
  plain (ls ++ [link_of source derived 0 r]).
Proof.
  intros [H1 H2] Hd. split; [apply Forall_app; by repeat constructor|]. apply adjacent_app. split; [done|]. split; [done|].
  intros a b Ha [= <-]. by apply Hd.
Qed.

(** Nothing goes back in the links of one addition. *)
Lemma AddDerived_plain d ls source derived revision d' ls' : holds d ls -> plain ls ->
  AddDerived d source derived revision = (d', Ok tt) ->
  (ls' = ls \/ exists r, ls' = ls ++ [link_of source derived 0 r]) -> plain ls'.
Proof.
  intros Hh Hp Ha [->|[r ->]]; [done|]. apply plain_add; [done|]. intros a Hl. pose proof Hh as [Hrep _].
  unfold AddDerived, addLink in Ha. cbv zeta in Ha. rewrite (rep_Size d ls Hrep) in Ha.
  destruct (Z.eqb_spec (Z.of_nat (length ls)) 0) as [Hn|Hn]; [by destruct ls|].
  destruct (latest_link_rep d ls Hrep) as [(a' & Hla & Hl')|[e Hla]]; rewrite Hla in Ha; cbn [rbind] in Ha; [|done].
  assert (a' = a) as -> by congruence. destruct (next_link d a source derived 0 revision) as [o|e|] eqn:Hb; [|done|done].
  by destruct (next_link_after _ _ _ _ _ _ _ Hh Hl Hb).
Qed.

Lemma initializedUpdateCrossSafe_by db v c source derived : chains_inv db v -> ref_wf source -> ref_wf derived ->
  cross_start v c derived -> served_by cross_event (cross_moves c v) db (initializedUpdateCrossSafe db c source derived).
Proof.
  intros Hi Hs Hd Hstart. unfold initializedUpdateCrossSafe.
  assert (forall r : result unit, r <> Panic -> served_by cross_event (cross_moves c v) db (db, r)) as Hsame.
  { intros r Hp. apply (served_by_same _ _ db v); [done|by left|done]. }
  destruct (crossDBs db !! c) as [x|] eqn:Hx; [|by apply Hsame].
  destruct (localDBs db !! c) as [d|] eqn:Hc; [|by apply Hsame].
  destruct (inv_local db v c d Hi Hc) as (ls & Hls & Hh). destruct (inv_cross db v c x Hi Hx) as (xs & Hxs & Hhx & Hpl).
  destruct (SourceToRevision_spec d ls (L1BlockRef_ID source) Hh) as [Hnp Hrev].
  destruct (SourceToRevision d (L1BlockRef_ID source)) as [r|e|]; [|by apply Hsame|done]. specialize (Hrev r eq_refl).
  assert (0 <= r < two63) as Hr by (destruct Hrev as [[_ ->]|(l & _ & _ & Hr)]; [unfold two63; lia|done]).
  assert (xs = [] -> rev_Any r = true \/ r <= l1_Number derived) as Hempty.
  { intros ->. right. pose proof (rw_number _ Hd). destruct Hrev as [[_ ->]|(l & Hl & <- & _)]; [lia|]. by eapply Hstart. }
  pose proof (AddDerived_spec x xs source derived r Hhx Hs Hd (or_intror Hr) Hempty) as Ha.
  destruct (AddDerived x source derived r) as [x' [[]|e|]] eqn:Hadd; [| |done].
  - destruct Ha as (xs' & Hh' & Hx' & l & Hl & Hat & _). pose proof (AddDerived_plain _ _ _ _ _ _ _ Hhx Hpl Hadd Hx') as Hpl'.
    exists (v_set_cross v c xs'), [CrossSafeUpdateEvent c {| sp_Source := BlockSealFromRef source; sp_Derived := BlockSealFromRef derived |}].
    split; [eapply inv_fields; [..|by apply (inv_set_cross db v c x' xs')]; done|].
    split; [right; exists xs, xs'; split_and!; [done|by eapply AddDerived_extends|done]|]. split; [done|]. split; [done|].
    constructor; [|constructor]. split; [done|]. exists xs', l. simpl. by rewrite lookup_insert_eq.
  - exists (v_set_cross v c xs), []. split; [by apply inv_set_cross|]. split; [right; exists xs, xs; split_and!; [done|apply extends_refl|done]|].
    rewrite app_nil_r. by split_and!.
Qed.

Lemma UpdateCrossSafe_served db v c source derived : chains_inv db v -> ref_wf source -> ref_wf derived ->
  cross_start v c derived -> served (eq c) db v (cdb_UpdateCrossSafe db c source derived).
Proof.
  intros Hi Hs Hd Hstart. unfold cdb_UpdateCrossSafe. case_match; [by apply served_same|]. eapply served_of; [|by apply initializedUpdateCrossSafe_by].
  intros v' [->|(ls & ls' & Hl & Hn & ->)]; [apply chains_step_refl|by eapply step_cross].
Qed.

Lemma UpdateCrossUnsafe_served db v c s : chains_inv db v -> served (eq c) db v (cdb_UpdateCrossUnsafe db c s).
Proof.
  intros Hi. unfold cdb_UpdateCrossUnsafe. case_match; [|by apply served_same]. case_match; [by apply served_same|].
  exists v, [CrossUnsafeUpdateEvent c s]. split; [by eapply inv_fields; [..|exact Hi]|]. split; [apply chains_step_refl|].
  split; [done|]. split; [done|]. constructor; [|constructor]. simpl. by rewrite lookup_insert_eq.
Qed.

Lemma extends_cut ls k : extends ls (take k ls).
Proof. exists k, []. rewrite app_nil_r. split; [done|simpl; lia]. Qed.

Lemma RewindLocalSafe_served db v c scope : chains_inv db v -> served (eq c) db v (cdb_RewindLocalSafe db c scope).
Proof.
  intros Hi. unfold cdb_RewindLocalSafe. destruct (localDBs db !! c) as [d|] eqn:Hc; [|by apply served_same].
  destruct (inv_local db v c d Hi Hc) as (ls & Hls & Hh). destruct (RewindToScope_cut d ls scope Hh) as (k & Hk & Hp).
  destruct (RewindToScope d scope) as [d' r]. simpl in *. exists (v_set_local v c (take k ls)), [].
  split; [by apply inv_set_local|]. split; [eapply step_local; [done|apply extends_cut]|].
  rewrite app_nil_r. split_and!; [by apply map_err_no_panic|done|done].
Qed.

Lemma RewindCrossSafe_served db v c scope : chains_inv db v -> served (eq c) db v (cdb_RewindCrossSafe db c scope).
Proof.
  intros Hi. unfold cdb_RewindCrossSafe. destruct (crossDBs db !! c) as [x|] eqn:Hc; [|by apply served_same].
  destruct (inv_cross db v c x Hi Hc) as (xs & Hxs & Hh & Hpl). destruct (RewindToScope_cut x xs scope Hh) as (k & Hk & Hp).
  destruct (RewindToScope x scope) as [x' r]. simpl in *. exists (v_set_cross v c (take k xs)), [].
  split; [apply inv_set_cross; [done|done|by apply plain_take]|]. split; [eapply step_cross; [done|apply extends_cut]|].
  rewrite app_nil_r. split_and!; [by apply map_err_no_panic|done|done].
Qed.

(** ** Operations on several databases *)

Lemma moves_local v c ls ls' : v_local v !! c = Some ls -> extends ls ls' -> moves extends (eq c) (v_local v) (<[c := ls']> (v_local v)).
Proof. intros. by eapply moves_insert. Qed.
Lemma moves_cross v c ls ls' : v_cross v !! c = Some ls -> extends ls ls' -> moves extends (eq c) (v_cross v) (<[c := ls']> (v_cross v)).
Proof. intros. by eapply moves_insert. Qed.

Lemma Rewind_served db v c head : chains_inv db v -> served (eq c) db v (cdb_Rewind db c head).
Proof.
  intros Hi. unfold cdb_Rewind. destruct (logDBs db !! c) as [d|] eqn:Hc; [|by apply served_same].
  destruct (log_request db v c d (RRewind head) Hi Hc (fun _ _ => I)) as (a & a' & b & Ha & Hs & Hi1 & Hres).
  change (db_Rewind d head) with (serve d (RRewind head)).
  assert (moves alog_next (eq c) (v_logs v) (<[c := a']> (v_logs v))) as Hml.
  { eapply moves_insert; [done..|]. by exists (RRewind head), b. }
  assert (forall db' (r : result unit), db' = set_logDB db c (serve d (RRewind head)).1 -> r <> Panic -> served (eq c) db v (db', r)) as Hlog.
  { intros db' r -> Hp. exists (v_set_log v c a'), []. split; [done|]. split; [split; [done|apply moves_refl..]|].
    rewrite app_nil_r. by split_and!. }
  destruct (serve d (RRewind head)) as [d' [u|e|]]; simpl in Hi1, Hres, Hlog; [| |done].
  2: { by apply Hlog. }
  set (db1 := set_logDB db c d') in *. destruct (localDBs db1 !! c) as [l|] eqn:Hl; [|by apply Hlog].
  destruct (crossDBs db1 !! c) as [x|] eqn:Hx; [|by apply Hlog].
  destruct (inv_local db1 _ c l Hi1 Hl) as (ls & Hls & Hhl). destruct (inv_cross db1 _ c x Hi1 Hx) as (xs & Hxs & Hhx & Hpl).
  destruct (DerivedToRevision_spec x xs head Hhx Hpl) as [Hnp Hrev].
  destruct (DerivedToRevision x head) as [r|e|]; [|by apply Hlog|done]. specialize (Hrev r eq_refl).
  destruct (RewindToFirstDerived_cut l ls head r Hhl Hrev) as (k & Hk & Hp).
  destruct (RewindToFirstDerived_cut x xs head r Hhx Hrev) as (k' & Hk' & Hp').
  pose proof (inv_set_local _ _ c _ _ Hi1 Hk) as Hi2.
  destruct (RewindToFirstDerived l head r) as [l' [u'|e|]]; simpl in *; [| |done].
  - pose proof (inv_set_cross _ _ c _ _ Hi2 Hk' (plain_take k' xs Hpl)) as Hi3.
    destruct (RewindToFirstDerived x head r) as [x' r']. simpl in *.
    exists (v_set_cross (v_set_local (v_set_log v c a') c (take k ls)) c (take k' xs)), []. split; [done|].
    split; [parts; [done|eapply moves_local; [done|apply extends_cut]|eapply moves_cross; [done|apply extends_cut]]|].
    rewrite app_nil_r. split_and!; [by apply map_err_no_panic|done|done].
  - exists (v_set_local (v_set_log v c a') c (take k ls)), []. split; [done|].
    split; [parts; [done|eapply moves_local; [done|apply extends_cut]|apply moves_refl]|].
    rewrite app_nil_r. by split_and!.
Qed.

Lemma ResetCrossUnsafe_spec db v c n : chains_inv db v ->
  let '(db', r) := ResetCrossUnsafeIfNewerThan db c n in
  chains_inv db' v /\ r <> Panic /\ cd_emitted db' = cd_emitted db /\ logDBs db' = logDBs db.
Proof.
  intros Hi. unfold ResetCrossUnsafeIfNewerThan. destruct (crossUnsafe db !! c); [|done].
  destruct (crossDBs db !! c) as [x|] eqn:Hx; [|done]. destruct (inv_cross db v c x Hi Hx) as (xs & _ & Hh & _).
  pose proof (Last_no_panic x xs Hh) as Hp. destruct (Last x) as [s|e|]; [|done|done].
  case_match; [|done]. split; [by eapply inv_fields; [..|exact Hi]|done].
Qed.

Lemma ResetCrossUnsafe_served db v c n : chains_inv db v -> served (eq c) db v (ResetCrossUnsafeIfNewerThan db c n).
Proof.
  intros Hi. pose proof (ResetCrossUnsafe_spec db v c n Hi) as Hr. destruct (ResetCrossUnsafeIfNewerThan db c n) as [db' r].
  destruct Hr as (Hi' & Hp & He & _). exists v, []. rewrite app_nil_r. split_and!; [done|apply chains_step_refl|done..].
Qed.

Lemma InvalidateLocalSafe_served db v c pair : chains_inv db v -> ref_wf (rp_Source pair) -> ref_wf (rp_Derived pair) ->
  served (eq c) db v (cdb_InvalidateLocalSafe db c pair).
Proof.
  intros Hi Hs Hd. unfold cdb_InvalidateLocalSafe. destruct (logDBs db !! c) as [g|] eqn:Hg; [|by apply served_same].
  destruct (localDBs db !! c) as [d|] eqn:Hc; [|by apply served_same]. destruct (inv_local db v c d Hi Hc) as (ls & Hls & Hh).
  destruct (RewindAndInvalidate_kept d ls pair Hh Hs Hd) as (ls' & Hh' & Hext & Hp).
  pose proof (fun d' Heq => RewindAndInvalidate_Ok d ls pair d' ls' Hh Hs Hd Heq) as Hok.
  assert (moves extends (eq c) (v_local v) (<[c := ls']> (v_local v))) as Hm by (by eapply moves_local).
  destruct (RewindAndInvalidate d pair) as [d' [[]|e|]]; simpl in Hh', Hp; [| |done].
  2: { exists (v_set_local v c ls'), []. split; [by apply inv_set_local|]. split; [parts; [apply moves_refl|done|apply moves_refl]|].
       rewrite app_nil_r. by split_and!. }
  destruct (Hok d' eq_refl (proj1 Hh')) as (l & Hl & Hat & Hinv). clear Hok.
  pose proof (inv_set_local db v c d' ls' Hi Hh') as Hi1.
  pose proof (ResetCrossUnsafe_spec _ _ c (l1_Number (rp_Derived pair)) Hi1) as Hr.
  destruct (ResetCrossUnsafeIfNewerThan _ _ _) as [db2 [[]|e|]]; destruct Hr as (Hi2 & Hp2 & He2 & Hl2); [| |done].
  2: { exists (v_set_local v c ls'), []. split; [done|]. split; [parts; [apply moves_refl|done|apply moves_refl]|].
       rewrite app_nil_r. by split_and!. }
  set (parent := L1BlockRef_ParentID (rp_Derived pair)).
  destruct (log_request db2 _ c g (RRewind parent) Hi2) as (a & a' & b & Ha & Hstep & Hi3 & Hres); [by rewrite Hl2|done|].
  change (db_Rewind g parent) with (serve g (RRewind parent)).
  assert (moves alog_next (eq c) (v_logs v) (<[c := a']> (v_logs v))) as Hml.
  { eapply moves_insert; [exact Ha|done|]. by exists (RRewind parent), b. }
  destruct (serve g (RRewind parent)) as [g' [[]|e|]]; simpl in Hi3, Hres; [| |done].
  - subst b. exists (v_set_log (v_set_local v c ls') c a'), [InvalidateLocalSafeEvent c pair].
    split; [by eapply inv_fields; [..|exact Hi3]|]. split; [parts; [done|done|apply moves_refl]|]. split; [done|].
    split; [simpl; by rewrite He2|]. constructor; [|constructor]. exists ls', l, a'. simpl. rewrite !lookup_insert_eq.
    split_and!; [done..|]. inversion Hstep as [| | | | | | | | | |a0 p1 s head evs Hst (evs' & Hs' & Hn & Hz & Hhash)|]; subst.
    by exists p1, evs.
  - exists (v_set_log (v_set_local v c ls') c a'), []. split; [done|]. split; [parts; [done|done|apply moves_refl]|].
    rewrite app_nil_r. by split_and!.
Qed.

Lemma onReplaceBlock_served db v c repl invalidated : chains_inv db v -> ref_wf repl ->
  (forall ls p, v_local v !! c = Some ls -> last ls = Some p -> l1_Number repl = der p) ->
  served (eq c) db v (onReplaceBlock db c repl invalidated).
Proof.
  intros Hi Hr Hn. unfold onReplaceBlock. destruct (localDBs db !! c) as [d|] eqn:Hc; [|by apply served_same].
  destruct (inv_local db v c d Hi Hc) as (ls & Hls & Hh). specialize (Hn ls).
  destruct (ReplaceInvalidatedBlock_kept d ls repl invalidated Hh Hr (fun p => Hn p Hls)) as (ls' & Hh' & Hext & Hp).
  pose proof (fun d' refs Heq => ReplaceInvalidatedBlock_Ok d ls repl invalidated d' refs ls' Hh Hr (fun p => Hn p Hls) Heq) as Hok.
  pose proof (step_local v c ls ls' Hls Hext) as Hst.
  destruct (ReplaceInvalidatedBlock d repl invalidated) as [d' [refs|e|]]; simpl in Hh', Hp; [| |done].
  - destruct (Hok d' refs eq_refl (proj1 Hh')) as (Hrep & l & Hl & Hat). pose proof (inv_set_local db v c d' ls' Hi Hh') as Hi1.
    exists (v_set_local v c ls'), [LocalUnsafeReceivedEvent c repl; LocalSafeUpdateEvent c (pair_Seals refs)].
    split; [by eapply inv_fields; [..|exact Hi1]|]. split; [done|]. split; [done|]. split; [simpl; by rewrite <-app_assoc|].
    repeat constructor; exists ls', l; simpl; rewrite lookup_insert_eq; split_and!; try done; [apply Hat|]. by rewrite Hrep.
  - exists (v_set_local v c ls'), []. split; [by apply inv_set_local|]. rewrite app_nil_r. by split_and!.
Qed.
End inv.
