(* ===== verification/ChainsOps.v ===== *)
(** * The chains database: finality, anchor, resuming, and all operations

    The first block of a log database, the operations that touch several
    databases, and that every operation keeps the invariant of [ChainsInv] and
    the fields it is not about. *)

From stdpp Require Import base gmap sets list.
From S2P Require Import Prelude EthTypes EntryDB FromDA FromDASearch FromDALinks DepSet CrossGraph LogDB LogCodec LogStream LogRead LogSearch LogRefine LogQuery ChainsDB ChainsLinks ChainsInv.

(** ** The first block of a log database *)

Section starting.
Context {St : Type} {ES : EntryStore St} {L : EntryStoreLaws St logs_EntrySize}.
Hypothesis Hreliable : forall (s : St) i e, st_ok s -> st_view s !! i = Some e -> st_Read s (Z.of_nat i) = Ok e.

Lemma head_hash all p1 evs : holds_history all p1 evs -> exists rest,
  all = checkpoint (p_num p1) 0 (p_time p1) :: OCanonicalHash (p_hash p1) :: rest.
Proof.
  intros [Hst Hc Hp Hz (h & H0 & H1) _]. inversion Hst as [| |p evs0 es Hs|p par h' n t evs0 es Hs|p par h' n t evs0 es Hs|p h' m evs0 es Hs]; subst; try done.
  - exists es. unfold repeat_entries. simpl. by rewrite Hz.
  - exfalso. inversion Hc as [|q e l Hev]; subst. destruct Hev as (_ & Hn & _). simpl in H0. injection H0 as H0 _. lia.
  - destruct m; done.
Qed.

Lemma StartingBlock_spec (db : LogsDB St) a : logs_inv db a ->
  match stored_of a with
  | Some (p1, _) => StartingBlock db = Ok (seal_of p1)
  | None => StartingBlock db = Err ErrFuture
  end.
Proof.
  intros [Hok Ha].
  assert (st_view (ld_store db) = [] -> StartingBlock db = Err ErrFuture) as Hempty.
  { intros Hv. unfold StartingBlock, NextBlock, it_fuel. cbn [NextBlock_loop]. unfold it_next at 1.
    rewrite (st_Read_end _ (nextEntryIndex (lc_new 0))); [done|done|by rewrite Hv]. }
  assert (forall es p1 evs, st_view (ld_store db) = encode <$> es -> holds_history es p1 evs -> StartingBlock db = Ok (seal_of p1)) as Hfull.
  { intros es p1 evs Hv Hh. pose proof (reads_view Hreliable _ es Hok Hv) as Hreads.
    destruct (head_hash es p1 evs Hh) as [rest Hes]. destruct Hh as [_ _ (Hhash & Hn & Ht & Hs) Hz _ _].
    unfold StartingBlock, NextBlock. assert (it_fuel (ld_store db) = S (S (S (length rest)))) as ->.
    { unfold it_fuel. rewrite st_Size_spec, Hv, length_fmap, Hes by done. simpl. lia. }
    rewrite (block_stop (ld_store db) es Hreads (S (length rest)) [] rest (lc_new 0) (p_num p1) 0 (p_time p1) (p_hash p1));
      [|done|done|done|by left|done|by unfold is_u32, two32|done|done].
    cbn [rbind]. autorewrite with logs. done. }
  destruct a as [|p1 [s|] evs|p1 [s|]]; simpl in *.
  - apply Hempty, Ha.
  - destruct Ha as (es & pend & c & Hv & [Hh _] & _). by eapply Hfull.
  - destruct Ha as (es & pend & c & Hv & -> & _). by apply Hempty.
  - destruct Ha as (es & Hv & [Hh _] & _). by eapply Hfull.
  - destruct Ha as (es & Hv & -> & _). by apply Hempty.
Qed.
End starting.

Section operations.
Context {Sl Sd : Type} {ESl : EntryStore Sl} {ESd : EntryStore Sd}.
Context {LSl : EntryStoreLaws Sl logs_EntrySize} {LSd : EntryStoreLaws Sd EntrySize}.
Context {MO : MapOrder} {KC : Keccak} {DS : DependencySet}.
Hypothesis Hreliable : forall (s : Sl) i e, st_ok s -> st_view s !! i = Some e -> st_Read s (Z.of_nat i) = Ok e.

Abbreviation CDB := (ChainsDB Sl Sd).

(** ** Finality *)

Lemma Finalized_frame (db db' : CDB) c : finalizedL1 db' = finalizedL1 db -> crossDBs db' = crossDBs db ->
  cdb_Finalized db' c = cdb_Finalized db c.
Proof. intros H1 H2. unfold cdb_Finalized, cdb_CrossSourceToLastDerived. by rewrite H1, H2. Qed.

Lemma Finalized_no_panic (db : CDB) v c : chains_inv db v -> cdb_Finalized db c <> Panic.
Proof.
  intros Hi. unfold cdb_Finalized, cdb_CrossSourceToLastDerived, chain_get. case_match; [done|].
  destruct (crossDBs db !! c) as [x|] eqn:Hx; [|done]. destruct (inv_cross db v c x Hi Hx) as (xs & _ & Hh & _).
  cbn [rbind]. apply rbind_run_no_panic; [by apply map_err_no_panic, (Last_no_panic x xs)|]. intros p _.
  case_match; [done|]. by apply map_err_no_panic, (SourceToLastDerived_no_panic x xs).
Qed.

Lemma notify_spec (db : CDB) v chains : chains_inv db v ->
  let '(db', r) := notify_finalized db chains in
  r <> Panic /\ logDBs db' = logDBs db /\ localDBs db' = localDBs db /\ crossDBs db' = crossDBs db /\ finalizedL1 db' = finalizedL1 db /\
  exists evs, cd_emitted db' = cd_emitted db ++ evs /\
    Forall (fun ev => exists c b, ev = FinalizedL2UpdateEvent c b /\ cdb_Finalized db c = Ok b) evs.
Proof.
  revert db. induction chains as [|c chains IH]; intros db Hi; simpl.
  { split_and!; [done..|]. exists []. by rewrite app_nil_r. }
  pose proof (Finalized_no_panic db v c Hi) as Hp. destruct (cdb_Finalized db c) as [b|e|] eqn:Hf; [| by apply IH|done].
  specialize (IH (cd_emit db (FinalizedL2UpdateEvent c b))). destruct (notify_finalized _ _) as [db' r].
  destruct IH as (H1 & H2 & H3 & H4 & H5 & evs & H6 & H7); [by eapply inv_fields; [..|exact Hi]|]. split_and!; [done..|].
  exists (FinalizedL2UpdateEvent c b :: evs). split; [rewrite H6; simpl; by rewrite <-app_assoc|]. constructor; [by exists c, b|].
  eapply Forall_impl; [exact H7|]. intros ev (c' & b' & -> & Hb). exists c', b'. split; [done|]. by rewrite <-Hb.
Qed.

Lemma onFinalizedL1_served (db : CDB) v f : chains_inv db v -> served (fun _ => False) db v (onFinalizedL1 db f).
Proof.
  intros Hi. unfold onFinalizedL1. case_match; [by apply served_same|].
  set (db1 := cd_emit (set_finalizedL1 db f) (FinalizedL1UpdateEvent f)).
  assert (chains_inv db1 v) as Hi1 by (by eapply inv_fields; [..|exact Hi]).
  pose proof (notify_spec db1 v Chains Hi1) as Hn. destruct (notify_finalized db1 Chains) as [db2 r].
  destruct Hn as (Hp & H1 & H2 & H3 & H4 & evs & H5 & H6). exists v, (FinalizedL1UpdateEvent f :: evs).
  split; [by eapply inv_fields; [..|exact Hi1]|]. split; [apply chains_step_refl|]. split; [done|].
  split; [simpl; rewrite H5; simpl; by rewrite <-app_assoc|]. constructor; [simpl; by rewrite H4|].
  eapply Forall_impl; [exact H6|]. intros ev (c & b & -> & Hb). simpl. rewrite <-Hb. by apply Finalized_frame.
Qed.

(** ** The anchor *)

Lemma maybeInitEventsDB_by (db : CDB) v c anchor : chains_inv db v -> seal_ok (rp_Derived anchor) ->
  served_by unsafe_event (log_moves c v) db (maybeInitEventsDB db c anchor).
Proof.
  intros Hi Hs. assert (forall r : result unit, r <> Panic -> served_by unsafe_event (log_moves c v) db (db, r)) as Hsame.
  { intros r Hp. apply (served_by_same _ _ db v); [done|by left|done]. }
  unfold maybeInitEventsDB, cdb_OpenBlock, chain_get. destruct (logDBs db !! c) as [d|] eqn:Hc; [|by apply Hsame].
  destruct (inv_logDB db v c d Hi Hc) as (a & Ha & Hd). pose proof (StartingBlock_spec Hreliable d a Hd) as Hst.
  cbn [rbind]. unfold logs_OpenBlock. cbn [Z.eqb].
  destruct (stored_of a) as [[p1 s]|]; rewrite Hst; cbn [rbind]; [apply Hsame; by case_match|].
  by apply initializedSealBlock_by.
Qed.

Lemma announced_frame (db db' : CDB) v v' ev : announced db v ev ->
  (local_event ev -> v_local v' = v_local v) -> (cross_event ev -> v_cross v' = v_cross v) ->
  local_event ev \/ cross_event ev -> announced db' v' ev.
Proof.
  intros Ha Hl Hx Hk. destruct ev; try (by destruct Hk); simpl in *.
  - destruct Ha as (ls & l & Hls & ?). exists ls, l. by rewrite Hl.
  - destruct Ha as (ls & l & Hls & ?). exists ls, l. by rewrite Hx.
Qed.

(** The links that the anchor may add, and nothing else. *)
Definition safe_moves (c : Z) (v v' : cview) : Prop :=
  v_logs v' = v_logs v /\ moves extends (eq c) (v_local v) (v_local v') /\ moves extends (eq c) (v_cross v) (v_cross v').

Lemma maybeInitSafeDB_by (db : CDB) v c anchor : chains_inv db v -> ref_wf (rp_Source anchor) -> ref_wf (rp_Derived anchor) ->
  cross_start v c (rp_Derived anchor) ->
  served_by (fun ev => local_event ev \/ cross_event ev) (safe_moves c v) db (maybeInitSafeDB db c anchor).
Proof.
  intros Hi Hs Hd Hstart.
  assert (safe_moves c v v) as Hrefl by (split_and!; [done|apply moves_refl..]).
  unfold maybeInitSafeDB. destruct (localDBs db !! c) as [d|] eqn:Hc; [|by apply (served_by_same _ _ db v)].
  destruct (inv_local db v c d Hi Hc) as (ls & Hls & Hh). pose proof (First_no_panic d ls Hh) as Hp.
  destruct (First d) as [first|e|]; [apply (served_by_same _ _ db v); [done|done|by case_match]| |done].
  case_match; [|by apply (served_by_same _ _ db v)].
  destruct (initializedUpdateCrossSafe_by db v c _ _ Hi Hs Hd Hstart) as (v1 & evs1 & Hi1 & Hq1 & Hp1 & He1 & Ha1).
  assert (v_logs v1 = v_logs v /\ v_local v1 = v_local v /\ moves extends (eq c) (v_cross v) (v_cross v1)) as (Hlogs & Hlocal & Hcross).
  { destruct Hq1 as [->|(xs & xs' & Hx & Hxs & ->)]; [split_and!; [done..|apply moves_refl]|]. split_and!; [done..|]. by eapply moves_cross. }
  destruct (initializedUpdateCrossSafe db c _ _) as [db1 [[]|x|]]; simpl in *; [| |done].
  - destruct (initializedUpdateLocalSafe_by db1 v1 c _ _ (-1) Hi1 Hs Hd) as (v2 & evs2 & Hi2 & Hq2 & Hp2 & He2 & Ha2).
    exists v2, (evs1 ++ evs2). split; [done|].
    assert (v_logs v2 = v_logs v1 /\ v_cross v2 = v_cross v1 /\ moves extends (eq c) (v_local v) (v_local v2)) as (Hl2 & Hx2 & Hm2).
    { rewrite <-Hlocal. destruct Hq2 as [->|(l & l' & Hl & Hxl & ->)]; [split_and!; [done..|apply moves_refl]|]. split_and!; [done..|].
      by eapply moves_local. }
    split; [split_and!; [by rewrite Hl2|done|by rewrite Hx2]|]. split; [done|]. split; [rewrite He2, He1; by rewrite app_assoc|].
    apply Forall_app. split.
    + eapply Forall_impl; [exact Ha1|]. intros ev [Hk Hev]. split; [by right|]. eapply announced_frame; [exact Hev|by destruct ev|done|by right].
    + eapply Forall_impl; [exact Ha2|]. intros ev [Hk Hev]. split; [by left|done].
  - exists v1, evs1. split; [done|]. split; [split_and!; [done|rewrite Hlocal; apply moves_refl|done]|]. split; [done|]. split; [done|].
    eapply Forall_impl; [exact Ha1|]. intros ev [Hk Hev]. split; [by right|done].
Qed.

Lemma initFromAnchor_served (db : CDB) v c anchor : chains_inv db v -> ref_wf (rp_Source anchor) -> ref_wf (rp_Derived anchor) ->
  seal_ok (rp_Derived anchor) -> cross_start v c (rp_Derived anchor) -> served (eq c) db v (initFromAnchor db c anchor).
Proof.
  intros Hi Hs Hd Hseal Hstart. unfold initFromAnchor. case_match; [by apply served_same|].
  destruct (maybeInitSafeDB_by db v c anchor Hi Hs Hd Hstart) as (v1 & evs1 & Hi1 & (Hlogs & Hlocal & Hcross) & Hp1 & He1 & Ha1).
  destruct (maybeInitSafeDB db c anchor) as [db1 [[]|x|]]; simpl in *; [| |done].
  2: { exists v1, evs1. split_and!; [done| |done|done|].
       - split; [rewrite Hlogs; apply moves_refl|done|done].
       - eapply Forall_impl; [exact Ha1|]. by intros ev [_ ?]. }
  destruct (maybeInitEventsDB_by db1 v1 c anchor Hi1 Hseal) as (v2 & evs2 & Hi2 & Hq2 & Hp2 & He2 & Ha2).
  assert (v_local v2 = v_local v1 /\ v_cross v2 = v_cross v1 /\ moves alog_next (eq c) (v_logs v) (v_logs v2)) as (Hl2 & Hx2 & Hm2).
  { rewrite <-Hlogs. destruct Hq2 as [->|(a & a' & Ha & Hn & ->)]; [split_and!; [done..|apply moves_refl]|]. split_and!; [done..|].
    by eapply moves_insert. }
  assert (chains_step (eq c) v v2) as Hst by (split; [done|by rewrite Hl2|by rewrite Hx2]).
  assert (forall db3 : CDB, Forall (announced db3 v2) (evs1 ++ evs2)) as Hann.
  { intros db3. apply Forall_app. split.
    - eapply Forall_impl; [exact Ha1|]. intros ev [Hk Hev]. eapply announced_frame; [exact Hev|done|done|done].
    - eapply Forall_impl; [exact Ha2|]. intros ev [Hk Hev]. by destruct ev. }
  destruct (maybeInitEventsDB db1 c anchor) as [db2 [[]|x|]]; simpl in *; [| |done].
  - exists v2, (evs1 ++ evs2). split; [by eapply inv_fields; [..|exact Hi2]|]. split_and!; [done|done| |apply Hann].
    simpl. by rewrite He2, He1, app_assoc.
  - exists v2, (evs1 ++ evs2). split_and!; [done|done|done| |apply Hann]. simpl. by rewrite He2, He1, app_assoc.
Qed.

(** ** Resuming *)

Lemma moves_then {A} (R : A -> A -> Prop) (P : Z -> Prop) (m m' : gmap Z A) c x y :
  m !! c = Some x -> R x y -> ~ P c -> moves R P (<[c := y]> m) m' -> moves R (fun k => k = c \/ P k) m m'.
Proof.
  intros Hx HR HP Hm k. specialize (Hm k). destruct (decide (k = c)) as [->|Hne].
  - rewrite lookup_insert_eq in Hm. rewrite Hx. inversion Hm as [? z Hz|]; subst. constructor. right. split; [by left|].
    by destruct Hz as [<-|[? _]].
  - rewrite lookup_insert_ne in Hm by done. inversion Hm as [a b Hab|]; subst; constructor. naive_solver.
Qed.

Lemma moves_mono {A} (R : A -> A -> Prop) (P Q : Z -> Prop) (m m' : gmap Z A) :
  (forall c, P c -> Q c) -> moves R P m m' -> moves R Q m m'.
Proof. intros HPQ Hm. eapply map_Forall2_impl; [exact Hm|]. naive_solver. Qed.

Lemma resume_spec stores : forall (db : CDB) v, chains_inv db v -> NoDup stores.*1 ->
  (forall c d, (c, d) ∈ stores -> logDBs db !! c = Some d) ->
  let '(db', r) := resume_loop db stores in
  r <> Panic /\ cd_emitted db' = cd_emitted db /\ exists v', chains_inv db' v' /\ v_local v' = v_local v /\ v_cross v' = v_cross v /\
    moves alog_next (fun c => c ∈ stores.*1) (v_logs v) (v_logs v').
Proof.
  induction stores as [|[c d] stores IH]; intros db v Hi Hnd Hl; simpl.
  { split_and!; [done..|]. exists v. split_and!; [done..|]. apply moves_refl. }
  apply NoDup_cons in Hnd as [Hni Hnd]. destruct (LatestSealedBlock d) as [head|].
  2: { specialize (IH db v Hi Hnd). destruct (resume_loop db stores) as [db' r].
       destruct IH as (Hp & He & v' & Hi' & Hlo & Hcr & Hm); [intros; apply Hl; by right|]. split_and!; [done..|].
       exists v'. split_and!; [done..|]. eapply moves_mono; [|exact Hm]. intros. by right. }
  assert (logDBs db !! c = Some d) as Hc by (apply Hl; by left).
  destruct (log_request Hreliable db v c d (RRewind head) Hi Hc (fun _ _ => I)) as (a & a' & b & Ha & Hs & Hi1 & Hres).
  change (db_Rewind d head) with (serve d (RRewind head)).
  assert (alog_next a a') as Hn by (by exists (RRewind head), b).
  destruct (serve d (RRewind head)) as [d' [u|e|]]; simpl in Hi1, Hres; [| |done].
  - specialize (IH (set_logDB db c d') _ Hi1 Hnd). destruct (resume_loop (set_logDB db c d') stores) as [db' r].
    destruct IH as (Hp & He & v' & Hi' & Hlo & Hcr & Hm).
    { intros c' d'' Hin. simpl. rewrite lookup_insert_ne; [by apply Hl; right|]. intros ->. apply Hni. by apply (list_elem_of_fmap_2 fst) in Hin. }
    split_and!; [done..|]. exists v'. split_and!; [done..|]. eapply moves_mono; [|eapply moves_then; [exact Ha|exact Hn| |exact Hm]; done].
    intros k [->|Hk]; [by left|by right].
  - split_and!; [done..|]. exists (v_set_log v c a'). split_and!; [done..|]. eapply moves_insert; [done|by left|done].
Qed.

Lemma Resume_served (db : CDB) v : chains_inv db v -> served (fun _ => True) db v (ResumeFromLastSealedBlock db).
Proof.
  intros Hi. unfold ResumeFromLastSealedBlock. pose proof (resume_spec (range (-4) (logDBs db)) db v Hi (NoDup_range _ _)) as Hr.
  destruct (resume_loop db _) as [db' r]. destruct Hr as (Hp & He & v' & Hi' & Hlo & Hcr & Hm); [intros c d; apply elem_of_range|].
  exists v', []. rewrite app_nil_r. split_and!; [done| |done|done|done].
  split; [by eapply moves_mono; [|exact Hm]|rewrite Hlo; apply moves_refl|rewrite Hcr; apply moves_refl].
Qed.

(** ** All operations *)

Inductive chains_op : Type :=
  | CAddLog (c logHash : Z) (parent : BlockID) (logIdx : Z) (execMsg : option ExecutingMessage)
  | CSealBlock (c : Z) (block : L1BlockRef)
  | CRewind (c : Z) (headBlock : BlockID)
  | CUpdateCrossUnsafe (c : Z) (seal : BlockSeal)
  | CUpdateCrossSafe (c : Z) (l1View lastCrossDerived : L1BlockRef)
  | CInvalidateLocalSafe (c : Z) (candidate : RefPair)
  | CRewindLocalSafe (c : Z) (scope : BlockID)
  | CRewindCrossSafe (c : Z) (scope : BlockID)
  | CRewindLogs (c : Z) (newHead : BlockSeal)
  | CResetCrossUnsafe (c number : Z)
  | CEvent (ev : superevent)
  | CResume.

Definition chains_run (db : CDB) (o : chains_op) : CDB * result unit :=
  match o with
  | CAddLog c h parent i m => cdb_AddLog db c h parent i m
  | CSealBlock c b => cdb_SealBlock db c b
  | CRewind c head => cdb_Rewind db c head
  | CUpdateCrossUnsafe c s => cdb_UpdateCrossUnsafe db c s
  | CUpdateCrossSafe c s d => cdb_UpdateCrossSafe db c s d
  | CInvalidateLocalSafe c p => cdb_InvalidateLocalSafe db c p
  | CRewindLocalSafe c s => cdb_RewindLocalSafe db c s
  | CRewindCrossSafe c s => cdb_RewindCrossSafe db c s
  | CRewindLogs c s => cdb_RewindLogs db c s
  | CResetCrossUnsafe c n => ResetCrossUnsafeIfNewerThan db c n
  | CEvent ev => let '(db, r) := cdb_OnEvent db ev in (db, let* _ := r in Ok tt)
  | CResume => ResumeFromLastSealedBlock db
  end.

(** The chains an operation is about. *)
Definition op_chains (o : chains_op) (k : Z) : Prop :=
  match o with
  | CAddLog c _ _ _ _ | CSealBlock c _ | CRewind c _ | CUpdateCrossUnsafe c _ | CUpdateCrossSafe c _ _ | CInvalidateLocalSafe c _
  | CRewindLocalSafe c _ | CRewindCrossSafe c _ | CRewindLogs c _ | CResetCrossUnsafe c _
  | CEvent (AnchorEvent c _) | CEvent (LocalDerivedEvent c _ _) | CEvent (ReplaceBlockEvent c _ _) => c = k
  | CEvent _ => False
  | CResume => True
  end.

(** What callers keep to: blocks in range with a hash, no logs before the
    first block, a cross-safe database started at a revision that is not above
    its block, a replacement at the height of the replaced block. *)
Definition chains_op_ok (v : cview) (o : chains_op) : Prop :=
  match o with
  | CAddLog c h parent i m => forall a, v_logs v !! c = Some a -> request_ok a (RLog h parent i m)
  | CSealBlock _ b => seal_ok b
  | CUpdateCrossSafe c s d => ref_wf s /\ ref_wf d /\ cross_start v c d
  | CInvalidateLocalSafe _ p => ref_wf (rp_Source p) /\ ref_wf (rp_Derived p)
  | CEvent (AnchorEvent c p) => ref_wf (rp_Source p) /\ ref_wf (rp_Derived p) /\ seal_ok (rp_Derived p) /\ cross_start v c (rp_Derived p)
  | CEvent (LocalDerivedEvent _ p _) => ref_wf (rp_Source p) /\ ref_wf (rp_Derived p)
  | CEvent (FinalizedL1RequestEvent f) => 0 <= l1_Number f
  | CEvent (ReplaceBlockEvent c r _) => ref_wf r /\ forall ls p, v_local v !! c = Some ls -> last ls = Some p -> l1_Number r = der p
  | _ => True
  end.

Lemma handled_served (db : CDB) v P (x : CDB * result unit) : served P db v x ->
  served P db v (let '(db, r) := (x.1, let* _ := x.2 in Ok true) in (db, let* _ := r in Ok tt)).
Proof.
  destruct x as [db' r]. intros (v' & evs & Hi & Hs & Hp & He & Ha). exists v', evs. simpl in *. split_and!; try done. by destruct r.
Qed.

Lemma run_served (db : CDB) v o : chains_inv db v -> chains_op_ok v o -> served (op_chains o) db v (chains_run db o).
Proof.
  intros Hi Ho. destruct o as [c h p i m|c b|c head|c s|c s d|c p|c s|c s|c s|c n|ev|]; simpl in Ho |- *.
  - by apply AddLog_served.
  - by apply SealBlock_served.
  - by apply Rewind_served.
  - by apply UpdateCrossUnsafe_served.
  - destruct Ho as (? & ? & ?). by apply UpdateCrossSafe_served.
  - destruct Ho as (? & ?). by apply InvalidateLocalSafe_served.
  - by apply RewindLocalSafe_served.
  - by apply RewindCrossSafe_served.
  - by apply RewindLogs_served.
  - by apply ResetCrossUnsafe_served.
  - destruct ev; try (by apply served_same); apply handled_served.
    + by apply onFinalizedL1_served.
    + destruct Ho. by apply UpdateLocalSafe_served.
    + destruct Ho as (? & ? & ? & ?). by apply initFromAnchor_served.
    + destruct Ho. by apply onReplaceBlock_served.
  - by apply Resume_served.
Qed.

(** ** The other fields *)

Definition same_fields (db db' : CDB) : Prop :=
  crossUnsafe db' = crossUnsafe db /\ cd_initialized db' = cd_initialized db /\ finalizedL1 db' = finalizedL1 db.

Ltac same := repeat (case_match; simplify_eq); simpl; split_and!; done.

Lemma SealBlock_same (db : CDB) c b : same_fields db (initializedSealBlock db c b).1.
Proof. unfold initializedSealBlock. same. Qed.
Lemma LocalSafe_same (db : CDB) c s d n : same_fields db (initializedUpdateLocalSafe db c s d n).1.
Proof. unfold initializedUpdateLocalSafe. same. Qed.
Lemma CrossSafe_same (db : CDB) c s d : same_fields db (initializedUpdateCrossSafe db c s d).1.
Proof. unfold initializedUpdateCrossSafe. same. Qed.
Lemma Replace_same (db : CDB) c r i : same_fields db (onReplaceBlock db c r i).1.
Proof. unfold onReplaceBlock. same. Qed.
Lemma Rewind_same (db : CDB) c h : same_fields db (cdb_Rewind db c h).1.
Proof. unfold cdb_Rewind. same. Qed.
Lemma AddLog_same (db : CDB) c h p i m : same_fields db (cdb_AddLog db c h p i m).1.
Proof. unfold cdb_AddLog. same. Qed.

Lemma same_trans (db db' db'' : CDB) : same_fields db db' -> same_fields db' db'' -> same_fields db db''.
Proof. intros (H1 & H2 & H3) (H4 & H5 & H6). split_and!; congruence. Qed.

Lemma SafeDB_same (db : CDB) c a : same_fields db (maybeInitSafeDB db c a).1.
Proof.
  unfold maybeInitSafeDB. destruct (localDBs db !! c); [|done]. destruct (First _) as [?|?|]; [done| |done]. case_match; [|done].
  pose proof (CrossSafe_same db c (rp_Source a) (rp_Derived a)) as H1. destruct (initializedUpdateCrossSafe _ _ _ _) as [db1 [?|?|]]; [|done..].
  eapply same_trans; [exact H1|apply LocalSafe_same].
Qed.

Lemma EventsDB_same (db : CDB) c a : same_fields db (maybeInitEventsDB db c a).1.
Proof.
  unfold maybeInitEventsDB. destruct (cdb_OpenBlock db c 0) as [?|?|]; [done| |done]. case_match; [apply SealBlock_same|done].
Qed.

Lemma resume_same stores : forall (db : CDB), same_fields db (resume_loop db stores).1.
Proof.
  induction stores as [|[c d] stores IH]; intros db; simpl; [done|]. destruct (LatestSealedBlock d); [|apply IH].
  destruct (db_Rewind d _) as [d' [u|e|]]; [|done..]. by eapply same_trans; [|apply IH].
Qed.

(** Chains that an operation is not about keep their cross-unsafe head,
    chains stay initialized, and the finalized L1 block never goes back. *)
Record frames (P : Z -> Prop) (db db' : CDB) : Prop := {
  fr_unsafe : forall k, ~ P k -> crossUnsafe db' !! k = crossUnsafe db !! k;
  fr_initialized : cd_initialized db ⊆ cd_initialized db';
  fr_finalized : l1_Number (finalizedL1 db) <= l1_Number (finalizedL1 db') }.

Lemma frames_same P db db' : same_fields db db' -> frames P db db'.
Proof. intros (H1 & H2 & H3). split; rewrite ?H1, ?H2, ?H3; done. Qed.

Lemma unsafe_frames c db s : frames (eq c) db (set_crossUnsafe db c s).
Proof. split; [|done|done]. intros k Hk. simpl. by rewrite lookup_insert_ne. Qed.

Lemma reset_frames (db : CDB) c n : frames (eq c) db (ResetCrossUnsafeIfNewerThan db c n).1.
Proof.
  unfold ResetCrossUnsafeIfNewerThan. destruct (crossUnsafe db !! c); [|by apply frames_same].
  destruct (crossDBs db !! c); [|by apply frames_same]. destruct (Last _); [|by apply frames_same..].
  simpl. case_match; [apply unsafe_frames|by apply frames_same].
Qed.

Lemma invalidate_frames (db : CDB) c p : frames (eq c) db (cdb_InvalidateLocalSafe db c p).1.
Proof.
  unfold cdb_InvalidateLocalSafe. destruct (logDBs db !! c); [|by apply frames_same]. destruct (localDBs db !! c) as [d|]; [|by apply frames_same].
  destruct (RewindAndInvalidate d p) as [d' [u|e|]]; [|by apply frames_same..].
  assert (frames (eq c) db (ResetCrossUnsafeIfNewerThan (set_localDB db c d') c (l1_Number (rp_Derived p))).1) as Hf.
  { pose proof (reset_frames (set_localDB db c d') c (l1_Number (rp_Derived p))) as [? ? ?]. by split. }
  destruct (ResetCrossUnsafeIfNewerThan _ _ _) as [db1 [u'|e|]]; [|done|done].
  destruct Hf as [? ? ?]. destruct (db_Rewind _ _) as [g [x|e|]]; by split.
Qed.

Lemma notify_same chains : forall (db : CDB), same_fields db (notify_finalized db chains).1.
Proof.
  induction chains as [|c chains IH]; intros db; simpl; [done|]. destruct (cdb_Finalized db c); [|apply IH|done].
  by eapply same_trans; [|apply IH].
Qed.

Lemma finalized_frames P (db : CDB) f : 0 <= l1_Number f -> frames P db (onFinalizedL1 db f).1.
Proof.
  intros Hf. unfold onFinalizedL1. destruct (_ && _) eqn:Hb; [by apply frames_same|].
  pose proof (notify_same Chains (cd_emit (set_finalizedL1 db f) (FinalizedL1UpdateEvent f))) as (H1 & H2 & H3).
  split; [intros k _; by rewrite H1|by rewrite H2|]. rewrite H3. simpl.
  apply andb_false_iff in Hb as [Hb|Hb]; [|lia]. apply negb_false_iff, bool_decide_eq_true in Hb. by rewrite Hb.
Qed.

Lemma anchor_frames P (db : CDB) c a : frames P db (initFromAnchor db c a).1.
Proof.
  unfold initFromAnchor. case_match; [by apply frames_same|]. pose proof (SafeDB_same db c a) as H1.
  destruct (maybeInitSafeDB db c a) as [db1 [u|e|]]; [|by apply frames_same..].
  pose proof (EventsDB_same db1 c a) as H2. destruct (maybeInitEventsDB db1 c a) as [db2 [u'|e|]].
  2-3: by apply frames_same; eapply same_trans.
  destruct (frames_same P db db2 (same_trans _ _ _ H1 H2)) as [F1 F2 F3]. split; [done| |done]. simpl. set_solver.
Qed.

Lemma run_frames (db : CDB) v o : chains_op_ok v o -> frames (op_chains o) db (chains_run db o).1.
Proof.
  intros Ho. destruct o as [c h p i m|c b|c head|c s|c s d|c p|c s|c s|c s|c n|ev|]; simpl.
  - apply frames_same, AddLog_same.
  - unfold cdb_SealBlock. apply frames_same. case_match; [done|apply SealBlock_same].
  - apply frames_same, Rewind_same.
  - unfold cdb_UpdateCrossUnsafe. case_match; [|by apply frames_same]. case_match; [by apply frames_same|].
    destruct (unsafe_frames c db s) as [? ? ?]. by split.
  - unfold cdb_UpdateCrossSafe. apply frames_same. case_match; [done|apply CrossSafe_same].
  - apply invalidate_frames.
  - apply frames_same. unfold cdb_RewindLocalSafe. same.
  - apply frames_same. unfold cdb_RewindCrossSafe. same.
  - apply frames_same. unfold cdb_RewindLogs. same.
  - apply reset_frames.
  - destruct ev; try (by apply frames_same); simpl.
    + by apply finalized_frames.
    + apply frames_same. unfold cdb_UpdateLocalSafe. case_match; [done|apply LocalSafe_same].
    + apply anchor_frames.
    + apply frames_same, Replace_same.
  - apply frames_same, resume_same.
Qed.
End operations.
