(* ===== verification/ChainsTheorems.v ===== *)
(** * The chains database: its theorems

    The invariant under every operation, the announcements, finality, the
    anchor, and a database of two chains on files with faults. *)

From stdpp Require Import base gmap sets list.
From S2P Require Import Prelude EthTypes EntryDB FromDA FromDASearch FromDALinks DepSet CrossGraph LogDB LogCodec LogStream LogRead LogSearch LogWrite LogRefine LogQuery ChainsDB ChainsLinks ChainsInv ChainsOps.

Section theorems.
Context {Sl Sd : Type} {ESl : EntryStore Sl} {ESd : EntryStore Sd}.
Context {LSl : EntryStoreLaws Sl logs_EntrySize} {LSd : EntryStoreLaws Sd EntrySize}.
Context {MO : MapOrder} {KC : Keccak} {DS : DependencySet}.
Hypothesis Hreliable : forall (s : Sl) i e, st_ok s -> st_view s !! i = Some e -> st_Read s (Z.of_nat i) = Ok e.

Abbreviation CDB := (ChainsDB Sl Sd).

(** C21: the chains database keeps its databases in order.  Whatever writes
    and truncations fail, an operation never panics; every log database still
    holds a history, reached by one step of the abstract log, every derivation
    database links in order, cut and extended by at most one, and the
    cross-safe ones have no placeholders and never go back; databases and
    cross-unsafe heads of other chains stay as they are, chains stay
    initialized, and the finalized L1 block never goes back. *)
Theorem chains_invariant (db : CDB) v o : chains_inv db v -> chains_op_ok v o ->
  (chains_run db o).2 <> Panic /\ frames (op_chains o) db (chains_run db o).1 /\
  exists v', chains_inv (chains_run db o).1 v' /\ chains_step (op_chains o) v v'.
Proof.
  intros Hi Ho. destruct (run_served Hreliable db v o Hi Ho) as (v' & evs & Hi' & Hs & Hp & _).
  split; [done|]. split; [by eapply run_frames|]. by exists v'.
Qed.

(** C22: the chains database announces only what it holds.  The events that an
    operation emits are true of the state it leaves: an announced local-unsafe
    block is the last of the history and stored, an announced local-safe or
    cross-safe pair is the last link, an announced finalized block is what the
    database answers, an announced invalidation has its placeholder in place
    and the events of the invalidated block dropped. *)
Theorem chains_announcements (db : CDB) v o : chains_inv db v -> chains_op_ok v o ->
  exists v' evs, chains_inv (chains_run db o).1 v' /\ cd_emitted (chains_run db o).1 = cd_emitted db ++ evs /\
    Forall (announced (chains_run db o).1 v') evs.
Proof.
  intros Hi Ho. destruct (run_served Hreliable db v o Hi Ho) as (v' & evs & Hi' & _ & _ & He & Ha). by exists v', evs.
Qed.

(** ** Finality *)

(** The link that [cdb_Finalized] answers. *)
Definition finalized_link (xs : list LinkEntry) (fin : Z) (i : nat) (l : LinkEntry) : Prop :=
  xs !! i = Some l /\ src l <= fin /\ forall j a, (i < j)%nat -> xs !! j = Some a -> fin < src a.

Lemma Finalized_link (db : CDB) v c b : chains_inv db v -> cdb_Finalized db c = Ok b ->
  exists xs i l, v_cross v !! c = Some xs /\ le_derived l = b /\ finalized_link xs (l1_Number (finalizedL1 db)) i l.
Proof.
  intros Hi Hf. unfold cdb_Finalized, cdb_CrossSourceToLastDerived, chain_get in Hf. case_match; [done|].
  destruct (crossDBs db !! c) as [x|] eqn:Hx; [|done]. destruct (inv_cross db v c x Hi Hx) as (xs & Hxs & Hh & _).
  cbn [rbind] in Hf. apply rbind_Ok in Hf as (p & Hl%map_err_Ok & Hf). exists xs. destruct (Z.ltb_spec (bs_Number (sp_Source p)) (l1_Number (finalizedL1 db))) as [Hlt|Hge].
  - unfold Last in Hl. apply rbind_Ok in Hl as (l & Hll & Hl).
    destruct (latest_link_rep x xs (proj1 Hh)) as [(l' & Hl' & Hla)|[e He]]; [|congruence]. assert (l' = l) as -> by congruence.
    unfold sealOrErr in Hl. case_match; [done|]. apply Ok_inj in Hl as <-. apply Ok_inj in Hf as <-. simpl in *.
    rewrite last_lookup in Hla. exists (pred (length xs)), l. split; [done|]. split; [done|]. split; [done|]. split; [lia|]. intros j a Hj Ha.
    apply lookup_lt_Some in Ha. lia.
  - apply map_err_Ok in Hf. unfold SourceToLastDerived in Hf. apply rbind_Ok in Hf as ([i l] & Hs & Hf).
    destruct (source_last_sound x xs (proj1 Hh) (proj2 Hh) _ _ _ Hs) as (Hi' & Hsrc & Hafter).
    case_match; [done|]. case_match; [done|]. apply Ok_inj in Hf as <-. exists (Z.to_nat i), l. simpl in Hsrc, Hafter.
    split; [done|]. split; [done|]. split; [done|]. split; [lia|]. intros j a Hj Ha. specialize (Hafter j a Hj Ha). lia.
Qed.

(** C23: finality is backed by the cross-safe database and does not go back.
    The finalized block of a chain is the derived block of a link of the
    cross-safe database, the last whose source is not after the finalized L1
    block; and as long as the database only grows and the finalized L1 block
    does not go back, the finalized block does not go back either. *)
Theorem finality_advances (db : CDB) v c b : chains_inv db v -> cdb_Finalized db c = Ok b ->
  (exists xs i l, v_cross v !! c = Some xs /\ le_derived l = b /\ le_invalidated l = false /\
     finalized_link xs (l1_Number (finalizedL1 db)) i l) /\
  forall (db' : CDB) v' xs xs' b', chains_inv db' v' -> v_cross v !! c = Some xs -> v_cross v' !! c = Some xs' ->
    xs `prefix_of` xs' -> l1_Number (finalizedL1 db) <= l1_Number (finalizedL1 db') -> cdb_Finalized db' c = Ok b' ->
    bs_Number b <= bs_Number b'.
Proof.
  intros Hi Hf. destruct (Finalized_link db v c b Hi Hf) as (xs & i & l & Hxs & Hb & Hl).
  assert (forall (db : CDB) v xs, chains_inv db v -> v_cross v !! c = Some xs -> plain xs) as Hplain.
  { intros db0 v0 xs0 [_ _ Hc] H0. specialize (Hc c). rewrite H0 in Hc. by inversion Hc as [? ? []|]. }
  split.
  - exists xs, i, l. split_and!; [done..| |done]. destruct Hl as [Hl _].
    exact (Forall_lookup_1 _ _ _ _ (pl_valid _ (Hplain _ _ _ Hi Hxs)) Hl).
  - intros db' v' xs0 xs' b' Hi' Hxs0 Hxs' [ext ->] Hle Hf'. assert (xs0 = xs) as -> by congruence.
    destruct (Finalized_link db' v' c b' Hi' Hf') as (xs1 & j & l' & Hxs1 & Hb' & Hl' & Hsrc' & Hafter').
    assert (xs1 = xs ++ ext) as -> by congruence. destruct Hl as (Hl & Hsrc & _).
    apply (lookup_app_l_Some _ ext) in Hl. assert (i <= j)%nat as Hij.
    { destruct (decide (i <= j)%nat) as [|Hn]; [done|]. specialize (Hafter' i l ltac:(lia) Hl). lia. }
    pose proof (adjacent_lookup derived_le _ i j l l' (pl_derived _ (Hplain _ _ _ Hi' Hxs')) Hl Hl' Hij) as Hd.
    unfold derived_le in Hd. by rewrite <-Hb, <-Hb'.
Qed.

(** ** The anchor *)

(** Reads of the derivation databases succeed as well. *)
Hypothesis Hreliable_d : forall (s : Sd) i e, st_ok s -> st_view s !! i = Some e -> st_Read s (Z.of_nat i) = Ok e.

Lemma readAt_reliable (d : Sd) ls i l : rep d ls -> ls !! i = Some l -> readAt d (Z.of_nat i) = Ok l.
Proof.
  intros [Hok Hv Hwf] Hl. unfold readAt. rewrite (Hreliable_d d i (link_bytes l)); [|done|by rewrite Hv, list_lookup_fmap, Hl].
  apply decode_link_bytes. by eapply Forall_lookup_1.
Qed.

Lemma First_spec (d : Sd) ls : holds d ls -> First d =
  match head ls with None => Err ErrFuture | Some l => sealOrErr l end.
Proof.
  intros [Hrep _]. unfold First. rewrite (rep_Last d ls Hrep). destruct ls as [|l ls]; [done|].
  destruct (Z.ltb_spec (Z.of_nat (length (l :: ls)) - 1) 0) as [Hn|_]; [simpl in Hn; lia|].
  change (readAt d 0) with (readAt d (Z.of_nat 0)). by rewrite (readAt_reliable d (l :: ls) 0 l Hrep).
Qed.

(** The databases of the chain start at the anchor; a local-safe database
    whose write failed is still empty. *)
Definition starts_at (v : cview) (c : Z) (anchor : RefPair) : Prop :=
  (exists a p1 s, v_logs v !! c = Some a /\ stored_of a = Some (p1, s) /\ p_hash p1 = l1_Hash (rp_Derived anchor)) /\
  (exists ls, v_local v !! c = Some ls /\
     (ls = [] \/ exists l, head ls = Some l /\ bs_Hash (le_source l) = l1_Hash (rp_Source anchor) /\
                   bs_Hash (le_derived l) = l1_Hash (rp_Derived anchor))).

(** No first block is waiting to be stored. *)
Definition no_pending_start (v : cview) (c : Z) : Prop := forall p1 evs, v_logs v !! c <> Some (ALog p1 None evs).

Lemma EventsDB_start (db : CDB) v c anchor db' : chains_inv db v -> seal_ok (rp_Derived anchor) -> no_pending_start v c ->
  maybeInitEventsDB db c anchor = (db', Ok tt) -> exists v', chains_inv db' v' /\ v_local v' = v_local v /\ v_cross v' = v_cross v /\
    exists a p1 s, v_logs v' !! c = Some a /\ stored_of a = Some (p1, s) /\ p_hash p1 = l1_Hash (rp_Derived anchor).
Proof.
  intros Hi Hs Hpend.
  unfold maybeInitEventsDB, cdb_OpenBlock, chain_get. destruct (logDBs db !! c) as [d|] eqn:Hc; [|done].
  destruct (inv_logDB db v c d Hi Hc) as (a & Ha & Hd). pose proof (StartingBlock_spec Hreliable d a Hd) as Hst.
  cbn [rbind]. unfold logs_OpenBlock. cbn [Z.eqb].
  destruct (stored_of a) as [[p1 s]|] eqn:Hsto; rewrite Hst; cbn [rbind ob_ref l1_Hash].
  - intros Heq. destruct (Z.eqb_spec (bs_Hash (seal_of p1)) (l1_Hash (rp_Derived anchor))) as [Hh|]; [|done].
    injection Heq as <-. exists v. split_and!; [done..|]. by exists a, p1, s.
  - change (errors_Is ErrFuture ErrFuture) with true. cbv iota. unfold initializedSealBlock. rewrite Hc.
    set (r := RSeal (l1_ParentHash (rp_Derived anchor)) (L1BlockRef_ID (rp_Derived anchor)) (l1_Time (rp_Derived anchor))).
    change (db_SealBlock d _ _ _) with (serve d r).
    destruct (log_request Hreliable db v c d r Hi Hc (fun _ _ => Hs)) as (a0 & a' & ok & Ha0 & Hstep & Hi' & Hres).
    assert (a0 = a) as -> by congruence.
    destruct (serve d r) as [d' [u|e|]]; simpl in Hi', Hres; [|done|done]. subst ok. intros [= <-].
    exists (v_set_log v c a'). split; [by eapply inv_fields; [..|exact Hi']|]. split; [done|]. split; [done|]. exists a'. simpl. rewrite lookup_insert_eq.
    destruct a as [|p1 [s|] evs|p1 [s|]]; try done; [|by destruct (Hpend p1 evs)|by inversion Hstep].
    inversion Hstep; subst. by eexists _, [].
Qed.

(** An addition to an empty database. *)
Lemma AddDerived_empty (d : Sd) source derived revision : holds d [] -> ref_wf source -> ref_wf derived ->
  (revision = RevisionAny \/ revision = FirstRevision) ->
  match AddDerived d source derived revision with
  | (d', Ok _) => holds d' [link_of source derived 0 FirstRevision]
  | (d', Err _) => holds d' [] /\ (st_Append d [link_bytes (link_of source derived 0 FirstRevision)]).2 <> Ok tt
  | (_, Panic) => False
  end.
Proof.
  intros Hh Hs Hd Hr. assert (link_wf (link_of source derived 0 FirstRevision)) as Hwf.
  { apply link_of_wf; [done..|]. pose proof (rw_number _ Hd). unfold FirstRevision. lia. }
  assert (AddDerived d source derived revision = append_link d (link_of source derived 0 FirstRevision)) as Heq.
  { unfold AddDerived, addLink. rewrite (rep_Size d []) by apply Hh. cbn [length Z.of_nat Z.eqb]. simpl.
    by destruct Hr as [-> | ->]. }
  rewrite Heq. assert (links_ok ([] ++ [link_of source derived 0 FirstRevision])) as Hok.
  { pose proof (rw_number _ Hd). pose proof (rw_number _ Hs). apply links_ok_snoc; [apply links_ok_nil|simpl; unfold FirstRevision; lia|simpl; lia..|done]. }
  destruct (append_link_rep d [] _ (proj1 Hh) Hwf) as [Hrep Hp]. unfold append_link in *. rewrite le_encode_Ok in * by done.
  destruct (st_Append d _) as [d' [[]|e|]]; simpl in *; [by split| |done]. by split.
Qed.

Lemma initializedUpdateLocalSafe_start (db : CDB) v c source derived node : chains_inv db v -> ref_wf source -> ref_wf derived ->
  v_local v !! c = Some [] -> exists v', chains_inv (initializedUpdateLocalSafe db c source derived node).1 v' /\
    v_logs v' = v_logs v /\ v_cross v' = v_cross v /\ exists ls, v_local v' !! c = Some ls /\
    (ls = [link_of source derived 0 FirstRevision] \/
     ls = [] /\ exists d, localDBs db !! c = Some d /\ (st_Append d [link_bytes (link_of source derived 0 FirstRevision)]).2 <> Ok tt).
Proof.
  intros Hi Hs Hd Hls. pose proof (ci_local _ _ Hi c) as Hc. rewrite Hls in Hc. inversion Hc as [d ? Hh Heq|]; subst. symmetry in Heq.
  unfold initializedUpdateLocalSafe. rewrite Heq.
  pose proof (AddDerived_empty d source derived RevisionAny Hh Hs Hd (or_introl eq_refl)) as Ha.
  destruct (AddDerived d source derived RevisionAny) as [d' [u|e|]]; [| |done].
  - exists (v_set_local v c [link_of source derived 0 FirstRevision]).
    split; [eapply inv_fields; [..|by apply (inv_set_local db v c d' _ Hi Ha)]; done|]. split; [done|]. split; [done|].
    eexists. simpl. rewrite lookup_insert_eq. split; [done|by left].
  - destruct Ha as [Ha Hf]. exists (v_set_local v c []). pose proof (inv_set_local db v c d' _ Hi Ha) as Hi'.
    split; [repeat case_match; [done|done|by eapply inv_fields; [..|exact Hi']]|]. split; [done|]. split; [done|]. exists [].
    simpl. rewrite lookup_insert_eq. split; [done|right]. split; [done|]. by exists d.
Qed.

Lemma SafeDB_start (db : CDB) v c anchor db' : chains_inv db v -> ref_wf (rp_Source anchor) -> ref_wf (rp_Derived anchor) ->
  cross_start v c (rp_Derived anchor) -> maybeInitSafeDB db c anchor = (db', Ok tt) ->
  exists v', chains_inv db' v' /\ v_logs v' = v_logs v /\ exists ls, v_local v' !! c = Some ls /\
    (ls = [] \/ exists l, head ls = Some l /\ bs_Hash (le_source l) = l1_Hash (rp_Source anchor) /\
                  bs_Hash (le_derived l) = l1_Hash (rp_Derived anchor)).
Proof.
  intros Hi Hs Hd Hstart. unfold maybeInitSafeDB. destruct (localDBs db !! c) as [d|] eqn:Hc; [|done].
  destruct (inv_local db v c d Hi Hc) as (ls & Hls & Hh). rewrite (First_spec d ls Hh). destruct (head ls) as [l|] eqn:Hl.
  - unfold sealOrErr. destruct (le_invalidated l); [done|]. cbn [sp_Derived sp_Source].
    destruct (Z.eqb_spec (bs_Hash (le_derived l)) (l1_Hash (rp_Derived anchor))); [|done].
    destruct (Z.eqb_spec (bs_Hash (le_source l)) (l1_Hash (rp_Source anchor))); [|done]. intros [= <-].
    exists v. split; [done|]. split; [done|]. exists ls. split; [done|]. right. by exists l.
  - change (errors_Is ErrFuture ErrFuture) with true. cbv iota. assert (ls = []) as -> by (by destruct ls).
    destruct (initializedUpdateCrossSafe_by db v c _ _ Hi Hs Hd Hstart) as (v1 & evs1 & Hi1 & Hq1 & _ & _ & _).
    assert (v_logs v1 = v_logs v /\ v_local v1 = v_local v) as [Hl1 Hlo1] by (by destruct Hq1 as [->|(xs & xs' & _ & _ & ->)]).
    destruct (initializedUpdateCrossSafe db c _ _) as [db1 [[]|x|]]; [|done|done]. cbn [fst] in Hi1.
    destruct (initializedUpdateLocalSafe_start db1 v1 c _ _ (-1) Hi1 Hs Hd) as (v2 & Hi2 & Hl2 & _ & ls2 & Hls2 & Hc2); [by rewrite Hlo1|].
    intros Heq. rewrite Heq in Hi2. exists v2. split; [done|]. split; [congruence|]. exists ls2. split; [done|].
    destruct Hc2 as [->|[-> _]]; [right; by eexists|by left].
Qed.

Lemma initializedUpdateCrossSafe_start (db : CDB) v c source derived : chains_inv db v -> ref_wf source -> ref_wf derived ->
  v_local v !! c = Some [] -> v_cross v !! c = Some [] ->
  (forall x es, crossDBs db !! c = Some x -> (st_Append x es).2 = Ok tt) ->
  (initializedUpdateCrossSafe db c source derived).2 = Ok tt /\
  localDBs (initializedUpdateCrossSafe db c source derived).1 = localDBs db /\
  logDBs (initializedUpdateCrossSafe db c source derived).1 = logDBs db /\
  chains_inv (initializedUpdateCrossSafe db c source derived).1 (v_set_cross v c [link_of source derived 0 FirstRevision]).
Proof.
  intros Hi Hs Hd Hls Hxs Hw. pose proof (ci_local _ _ Hi c) as Hc. rewrite Hls in Hc. inversion Hc as [d ? Hh Heq|]; subst. symmetry in Heq.
  pose proof (ci_cross _ _ Hi c) as Hx. rewrite Hxs in Hx. inversion Hx as [x ? [Hhx _] Heqx|]; subst. symmetry in Heqx.
  unfold initializedUpdateCrossSafe. rewrite Heqx, Heq. unfold SourceToRevision. rewrite (rep_Size d []) by apply Hh.
  change (Z.of_nat (@length LinkEntry []) =? 0) with true. cbv iota.
  pose proof (AddDerived_empty x source derived FirstRevision Hhx Hs Hd (or_intror eq_refl)) as Ha.
  destruct (AddDerived x source derived FirstRevision) as [x' [[]|e|]]; [| |done].
  - split; [done|]. split; [done|]. split; [done|]. eapply inv_fields; [..|apply (inv_set_cross db v c x' _ Hi Ha)]; [done..|]. by repeat constructor.
  - destruct Ha as [_ Ha]. by destruct Ha; apply Hw.
Qed.

Lemma EventsDB_complete (db : CDB) v c anchor : chains_inv db v -> seal_ok (rp_Derived anchor) -> v_logs v !! c = Some AEmpty ->
  (forall d es, logDBs db !! c = Some d -> (st_Append (ld_store d) es).2 = Ok tt) ->
  (maybeInitEventsDB db c anchor).2 = Ok tt /\
  chains_inv (maybeInitEventsDB db c anchor).1
    (v_set_log v c (ALog (first_pos (L1BlockRef_ID (rp_Derived anchor)) (l1_Time (rp_Derived anchor))) (Some []) [])).
Proof.
  intros Hi Hs Ha Hw. pose proof (ci_logs _ _ Hi c) as Hc. rewrite Ha in Hc. inversion Hc as [d ? Hd Heq|]; subst. symmetry in Heq.
  pose proof (StartingBlock_spec Hreliable d AEmpty Hd) as Hst. unfold maybeInitEventsDB, cdb_OpenBlock, chain_get. rewrite Heq.
  cbn [rbind]. unfold logs_OpenBlock. cbn [Z.eqb]. simpl in Hst. rewrite Hst. cbn [rbind]. change (errors_Is ErrFuture ErrFuture) with true. cbv iota.
  unfold initializedSealBlock. rewrite Heq.
  set (r := RSeal (l1_ParentHash (rp_Derived anchor)) (L1BlockRef_ID (rp_Derived anchor)) (l1_Time (rp_Derived anchor))).
  change (db_SealBlock d _ _ _) with (serve d r).
  destruct (log_request Hreliable db v c d r Hi Heq (fun _ _ => Hs)) as (a0 & a' & ok & Ha0 & Hstep & Hi' & Hres).
  assert ((serve d r).2 = Ok tt) as Hok.
  { unfold serve, r, db_SealBlock. destruct Hd as (_ & _ & ->). rewrite SealBlock_first. unfold db_flush. simpl ld_store.
    pose proof (fun es => Hw d es Heq) as Hw'. destruct (st_Append (ld_store d) _) as [s res] eqn:Happ.
    specialize (Hw' (lc_out (lastEntryContext (set_context d (wc 2 (first_pos (L1BlockRef_ID (rp_Derived anchor)) (l1_Time (rp_Derived anchor))) no_log 0
      (encode <$> repeat_entries (first_pos (L1BlockRef_ID (rp_Derived anchor)) (l1_Time (rp_Derived anchor))))))))).
    change (st_Append (ld_store d) _) with (st_Append (ld_store d) (lc_out (lastEntryContext (set_context d (wc 2 (first_pos (L1BlockRef_ID (rp_Derived anchor)) (l1_Time (rp_Derived anchor))) no_log 0
      (encode <$> repeat_entries (first_pos (L1BlockRef_ID (rp_Derived anchor)) (l1_Time (rp_Derived anchor))))))))) in Happ.
    rewrite Happ in Hw'. simpl in Hw'. by rewrite Hw'. }
  destruct (serve d r) as [d' [u|e|]]; simpl in Hi', Hres, Hok; [|done|done]. split; [done|]. subst ok.
  assert (a0 = AEmpty) as -> by congruence. inversion Hstep; subst. by eapply inv_fields; [..|exact Hi'].
Qed.

Lemma anchor_sound (db : CDB) v c anchor : chains_inv db v -> c ∉ cd_initialized db ->
  ref_wf (rp_Source anchor) -> ref_wf (rp_Derived anchor) -> seal_ok (rp_Derived anchor) -> cross_start v c (rp_Derived anchor) ->
  no_pending_start v c -> c ∈ cd_initialized (initFromAnchor db c anchor).1 ->
  exists v', chains_inv (initFromAnchor db c anchor).1 v' /\ starts_at v' c anchor.
Proof.
  intros Hi Hn Hs Hd Hseal Hstart Hpend. unfold initFromAnchor, isInitialized. rewrite bool_decide_false by done.
  pose proof (SafeDB_same db c anchor) as (_ & Hin1 & _).
  destruct (maybeInitSafeDB db c anchor) as [db1 [[]|e|]] eqn:Hsafe; simpl in Hin1 |- *; [|by rewrite Hin1..].
  destruct (SafeDB_start db v c anchor db1 Hi Hs Hd Hstart Hsafe) as (v1 & Hi1 & Hl1 & Hls).
  pose proof (EventsDB_same db1 c anchor) as (_ & Hin2 & _).
  destruct (maybeInitEventsDB db1 c anchor) as [db2 [[]|e|]] eqn:Hev; simpl in Hin2 |- *; [|by rewrite Hin2, Hin1..]. intros _.
  destruct (EventsDB_start db1 v1 c anchor db2 Hi1 Hseal) as (v2 & Hi2 & Hlo2 & _ & Hlogs); [|done|].
  { intros p1 evs. rewrite Hl1. apply Hpend. }
  exists v2. split; [by eapply inv_fields; [..|exact Hi2]|]. split; [done|]. by rewrite Hlo2.
Qed.

(** Writes to the stores of a chain succeed. *)
Definition writable (db : CDB) (c : Z) : Prop :=
  (forall d es, logDBs db !! c = Some d -> (st_Append (ld_store d) es).2 = Ok tt) /\
  (forall d es, localDBs db !! c = Some d -> (st_Append d es).2 = Ok tt) /\
  (forall x es, crossDBs db !! c = Some x -> (st_Append x es).2 = Ok tt).

Lemma anchor_complete (db : CDB) v c anchor : chains_inv db v -> c ∉ cd_initialized db ->
  ref_wf (rp_Source anchor) -> ref_wf (rp_Derived anchor) -> seal_ok (rp_Derived anchor) -> writable db c ->
  v_logs v !! c = Some AEmpty -> v_local v !! c = Some [] -> v_cross v !! c = Some [] ->
  c ∈ cd_initialized (initFromAnchor db c anchor).1 /\ exists v', chains_inv (initFromAnchor db c anchor).1 v' /\
    v_logs v' !! c = Some (ALog (first_pos (L1BlockRef_ID (rp_Derived anchor)) (l1_Time (rp_Derived anchor))) (Some []) []) /\
    v_local v' !! c = Some [link_of (rp_Source anchor) (rp_Derived anchor) 0 FirstRevision] /\
    v_cross v' !! c = Some [link_of (rp_Source anchor) (rp_Derived anchor) 0 FirstRevision].
Proof.
  intros Hi Hn Hs Hd Hseal (Wlog & Wloc & Wcr) Ha Hls Hxs. unfold initFromAnchor, isInitialized. rewrite bool_decide_false by done.
  pose proof (ci_local _ _ Hi c) as Hc. rewrite Hls in Hc. inversion Hc as [d ? Hh Heq|]; subst. symmetry in Heq.
  unfold maybeInitSafeDB. rewrite Heq, (First_spec d [] Hh). cbn [head]. change (errors_Is ErrFuture ErrFuture) with true. cbv iota.
  destruct (initializedUpdateCrossSafe_start db v c _ _ Hi Hs Hd Hls Hxs Wcr) as (Hok & Hloc & Hlog & Hi1).
  destruct (initializedUpdateCrossSafe db c _ _) as [db1 r1]. simpl in Hok, Hloc, Hlog, Hi1. subst r1. cbv iota.
  destruct (initializedUpdateLocalSafe_start db1 _ c _ _ (-1) Hi1 Hs Hd Hls) as (v2 & Hi2 & Hl2 & Hx2 & ls & Hls2 & Hcase).
  pose proof (initializedUpdateLocalSafe_by db1 _ c _ _ (-1) Hi1 Hs Hd) as (_ & _ & _ & _ & Hp & _).
  assert (logDBs (initializedUpdateLocalSafe db1 c (rp_Source anchor) (rp_Derived anchor) (-1)).1 = logDBs db /\
    forall e, (initializedUpdateLocalSafe db1 c (rp_Source anchor) (rp_Derived anchor) (-1)).2 <> Err e) as [Hlog2 Hne].
  { rewrite <-Hlog. unfold initializedUpdateLocalSafe. by repeat (case_match; simplify_eq). }
  destruct (initializedUpdateLocalSafe db1 c _ _ _) as [db2 [[]|e|]]; simpl in Hi2, Hp, Hlog2, Hne; [|by destruct (Hne e)|done].
  assert (ls = [link_of (rp_Source anchor) (rp_Derived anchor) 0 FirstRevision]) as ->.
  { destruct Hcase as [?|(_ & d' & Hd' & Hf)]; [done|]. rewrite Hloc in Hd'. by destruct Hf; apply Wloc. }
  destruct (EventsDB_complete db2 v2 c anchor Hi2 Hseal) as [Hok3 Hi3]; [by rewrite Hl2|by rewrite Hlog2|].
  destruct (maybeInitEventsDB db2 c anchor) as [db3 r3]. simpl in Hok3, Hi3. subst r3. cbv iota. simpl. split; [set_solver|].
  eexists. split; [by eapply inv_fields; [..|exact Hi3]|]. simpl. rewrite lookup_insert_eq. split; [done|]. split; [done|].
  rewrite Hx2. simpl. by rewrite lookup_insert_eq.
Qed.

(** C24: a chain is initialized at its anchor.  A chain that the anchor
    initializes has an events database that starts with the anchor's block
    and a local-safe database that starts with its pair (or is still empty,
    when its write failed, which is not reported); an empty chain whose
    stores can be written is initialized, with the anchor in all three
    databases. *)
Theorem anchor_initializes (db : CDB) v c anchor : chains_inv db v -> c ∉ cd_initialized db ->
  ref_wf (rp_Source anchor) -> ref_wf (rp_Derived anchor) -> seal_ok (rp_Derived anchor) -> cross_start v c (rp_Derived anchor) ->
  no_pending_start v c ->
  let db' := (initFromAnchor db c anchor).1 in
  (c ∈ cd_initialized db' -> exists v', chains_inv db' v' /\ starts_at v' c anchor) /\
  (writable db c -> v_logs v !! c = Some AEmpty -> v_local v !! c = Some [] -> v_cross v !! c = Some [] ->
   c ∈ cd_initialized db' /\ exists v', chains_inv db' v' /\
     v_logs v' !! c = Some (ALog (first_pos (L1BlockRef_ID (rp_Derived anchor)) (l1_Time (rp_Derived anchor))) (Some []) []) /\
     v_local v' !! c = Some [link_of (rp_Source anchor) (rp_Derived anchor) 0 FirstRevision] /\
     v_cross v' !! c = Some [link_of (rp_Source anchor) (rp_Derived anchor) 0 FirstRevision]).
Proof.
  intros Hi Hn Hs Hd Hseal Hstart Hpend db'. split; [by apply (anchor_sound db v c anchor)|]. intros. by apply (anchor_complete db v c anchor).
Qed.
End theorems.

(** ** A database of one chain, on files with faults *)

Module ChainsExamples.
Section examples.

(** The stores of the log databases and of the derivation databases differ in
    the size of their entries. *)
Definition LogStore : Type := EntryDB FaultyFile.
Definition LinkStore : Type := EntryDB FaultyFile.
#[local] Typeclasses Opaque LogStore LinkStore.
#[local] Instance log_store : EntryStore LogStore := EntryDB_store logs_EntrySize.
#[local] Instance log_laws : EntryStoreLaws LogStore logs_EntrySize := EntryDB_laws logs_EntrySize ltac:(unfold logs_EntrySize; lia).
#[local] Instance link_store : EntryStore LinkStore := EntryDB_store EntrySize.
#[local] Instance link_laws : EntryStoreLaws LinkStore EntrySize := EntryDB_laws EntrySize ltac:(unfold EntrySize; lia).
#[local] Instance hash : Keccak := fun b => be_encode 32 (be_decode b).
#[local] Instance order : MapOrder := tree_order.
#[local] Instance one_chain : DependencySet :=
  {| CanExecuteAt _ _ := Ok true; CanInitiateAt _ _ := Ok true; ChainIDFromIndex i := Ok i; ChainIndexFromID i := Ok i;
     Chains := [901]; HasChain c := c =? 901; MessageExpiryWindow := 0 |}.

(** A file reads what it holds. *)
Lemma file_reliable sz (Hsz : (0 < sz)%nat) (s : EntryDB FaultyFile) i e :
  @st_ok _ _ _ (EntryDB_laws sz Hsz) s -> @st_view _ _ _ (EntryDB_laws sz Hsz) s !! i = Some e ->
  @st_Read _ (EntryDB_store sz) s (Z.of_nat i) = Ok e.
Proof.
  intros [Hl Hr _] Hi. assert (i < db_count s)%nat as Hlt.
  { apply lookup_lt_Some in Hi. unfold st_view in Hi. simpl in Hi. by rewrite length_db_view in Hi. }
  unfold st_view in Hi. simpl in Hi. unfold db_view in Hi. rewrite entries_of_lookup in Hi by done. injection Hi as <-.
  unfold st_Read. simpl. unfold db_Read. unfold db_count, db_Size in Hlt, Hr.
  destruct (Z.ltb_spec (db_lastEntryIdx s) (Z.of_nat i)); [lia|]. simpl.
  replace (Z.to_nat (Z.of_nat i * Z.of_nat sz)) with (i * sz)%nat by lia.
  rewrite (proj2 (Nat.ltb_ge _ _)); [done|]. unfold f_content in Hr. simpl in Hr.
  rewrite length_take, length_drop. nia.
Qed.

Lemma log_reliable (s : LogStore) i e : st_ok s -> st_view s !! i = Some e -> st_Read s (Z.of_nat i) = Ok e.
Proof. apply file_reliable. Qed.
Lemma link_reliable (s : LinkStore) i e : st_ok s -> st_view s !! i = Some e -> st_Read s (Z.of_nat i) = Ok e.
Proof. apply file_reliable. Qed.

Definition file (faults : list (option nat)) : EntryDB FaultyFile :=
  {| db_data := {| ff_content := []; ff_faults := faults |}; db_lastEntryIdx := -1; db_cleanupFailedWrite := false |}.

(** Empty databases of chain 901; the writes of the local-safe database fail
    as [faults] says. *)
Definition fresh (faults : list (option nat)) : ChainsDB LogStore LinkStore :=
  AddCrossUnsafeTracker (AddCrossDerivationDB (AddLocalDerivationDB (AddLogDB NewChainsDB 901
    {| ld_store := file []; ld_chainID := 901; lastEntryContext := lc_new 0 |}) 901 (file faults)) 901 (file [])) 901.

Definition fresh_view : cview := {| v_logs := {[901 := AEmpty]}; v_local := {[901 := []]}; v_cross := {[901 := []]} |}.

Lemma file_holds faults : @holds LinkStore _ _ (file faults) [].
Proof. split; [split; [split; vm_compute; [done|lia|done]|done|constructor]|apply links_ok_nil]. Qed.

Lemma fresh_inv faults : chains_inv (fresh faults) fresh_view.
Proof.
  split.
  - apply map_Forall2_insert_2; [|apply map_Forall2_empty]. split; [split; vm_compute; [done|lia|done]|done].
  - apply map_Forall2_insert_2; [|apply map_Forall2_empty]. apply file_holds.
  - apply map_Forall2_insert_2; [|apply map_Forall2_empty]. split; [apply file_holds|apply plain_nil].
Qed.

Definition anchor : RefPair := {| rp_Source := Examples.S5; rp_Derived := Examples.D10 |}.

Lemma anchor_wf : ref_wf (rp_Source anchor) /\ ref_wf (rp_Derived anchor) /\ seal_ok (rp_Derived anchor).
Proof. split_and!; try split; vm_compute; (done || split; congruence || auto). Qed.

Lemma fresh_start : cross_start fresh_view 901 (rp_Derived anchor).
Proof. intros _ ls l Hls Hl. injection Hls as <-. by apply elem_of_nil in Hl. Qed.

Lemma fresh_op : chains_op_ok fresh_view (CEvent (AnchorEvent 901 anchor)).
Proof. destruct anchor_wf as (? & ? & ?). split_and!; [done..|apply fresh_start]. Qed.

Definition anchored : ChainsDB LogStore LinkStore := (chains_run (fresh []) (CEvent (AnchorEvent 901 anchor))).1.

(** The anchor event initializes the chain. *)
Lemma chains_invariant_witness : isInitialized anchored 901 = true /\
  exists v', chains_inv anchored v' /\ chains_step (op_chains (CEvent (AnchorEvent 901 anchor))) fresh_view v'.
Proof.
  split; [vm_compute; reflexivity|].
  destruct (chains_invariant log_reliable (fresh []) fresh_view _ (fresh_inv []) fresh_op) as (_ & _ & v' & Hi & Hs).
  exists v'. split; [exact Hi|exact Hs].
Defined.

(** It announces the anchor as cross-safe, local-safe and local-unsafe. *)
Lemma chains_announcements_witness :
  exists v' evs, chains_inv anchored v' /\ length evs = 3%nat /\ Forall (announced anchored v') evs.
Proof.
  destruct (chains_announcements log_reliable (fresh []) fresh_view _ (fresh_inv []) fresh_op) as (v' & evs & Hi & He & Ha).
  exists v', evs. split; [exact Hi|]. split; [|exact Ha].
  assert (Hl : length (cd_emitted anchored) = 3%nat) by (vm_compute; reflexivity).
  pose proof (f_equal length He) as He'. rewrite length_app in He'. change (length (cd_emitted (fresh []))) with 0%nat in He'.
  fold anchored in He'. rewrite Hl in He'. symmetry. exact He'.
Defined.

Lemma anchored_eq : anchored = (initFromAnchor (fresh []) 901 anchor).1.
Proof. unfold anchored, chains_run, cdb_OnEvent. by destruct (initFromAnchor (fresh []) 901 anchor). Qed.

Lemma anchor_initializes_witness : exists v', chains_inv anchored v' /\ starts_at v' 901 anchor.
Proof.
  destruct anchor_wf as (Hs & Hd & Hseal).
  assert (Hn : 901 ∉ cd_initialized (fresh [])) by (apply not_elem_of_empty).
  assert (Hp : no_pending_start fresh_view 901) by (intros p1 evs; vm_compute; discriminate).
  destruct (anchor_initializes log_reliable link_reliable (fresh []) fresh_view 901 anchor (fresh_inv []) Hn Hs Hd Hseal fresh_start Hp)
    as [Hsound _]. rewrite <-anchored_eq in Hsound. apply Hsound.
  assert (Hb : isInitialized anchored 901 = true) by (vm_compute; reflexivity). exact (proj1 (bool_decide_eq_true _) Hb).
Defined.

(** The writes of the chain can succeed. *)
Lemma fresh_writable : writable (fresh []) 901.
Proof. split_and!; intros d es Hd; injection Hd as <-; reflexivity. Qed.

(** L1 block 6 is finalized: the anchor's block, derived from block 5, is
    final. *)
Definition finalized : ChainsDB LogStore LinkStore := (chains_run anchored (CEvent (FinalizedL1RequestEvent Examples.S6))).1.

Lemma finality_advances_witness : exists v xs i l, chains_inv finalized v /\ v_cross v !! 901 = Some xs /\
  le_derived l = BlockSealFromRef Examples.D10 /\ finalized_link xs 6 i l.
Proof.
  destruct (run_served log_reliable (fresh []) fresh_view _ (fresh_inv []) fresh_op) as (v1 & _ & Hi1 & _).
  destruct (run_served log_reliable anchored v1 (CEvent (FinalizedL1RequestEvent Examples.S6)) Hi1) as (v2 & _ & Hi2 & _).
  { vm_compute. discriminate. }
  assert (Hf : cdb_Finalized finalized 901 = Ok (BlockSealFromRef Examples.D10)) by (vm_compute; reflexivity).
  destruct (finality_advances finalized v2 901 _ Hi2 Hf) as [(xs & i & l & Hxs & Hl & _ & Hlink) _].
  exists v2, xs, i, l. split; [exact Hi2|]. split; [exact Hxs|]. split; [exact Hl|].
  assert (Hn : l1_Number (finalizedL1 finalized) = 6) by (vm_compute; reflexivity). rewrite Hn in Hlink. exact Hlink.
Defined.

(** ** Surprises *)

(** A chain is initialized even when the anchor could not be written to its
    local-safe database, which then accepts any first pair. *)
Lemma initialized_without_local_safe :
  let db := (chains_run (fresh [Some 0%nat]) (CEvent (AnchorEvent 901 anchor))).1 in
  let other := {| rp_Source := Examples.S6; rp_Derived := Examples.D12 |} in
  let db' := (chains_run db (CEvent (LocalDerivedEvent 901 other 7))).1 in
  isInitialized db 901 = true /\ cdb_LocalSafe db 901 = Err ErrFuture /\
  cdb_CrossSafe db 901 = Ok {| sp_Source := BlockSealFromRef Examples.S5; sp_Derived := BlockSealFromRef Examples.D10 |} /\
  cdb_LocalSafe db' 901 = Ok {| sp_Source := BlockSealFromRef Examples.S6; sp_Derived := BlockSealFromRef Examples.D12 |}.
Proof. vm_compute. split_and!; reflexivity. Qed.

(** The revision of a block of which the cross-safe database has another is
    answered as 0 instead of the conflict. *)
Lemma findRevision_hides_conflict :
  let id := {| bid_Hash := 999; bid_Number := 10 |} in
  findRevision anchored 901 id = Ok 0 /\
  exists e, (let* x := chain_get (crossDBs anchored) 901 ErrUnknownChain in DerivedToRevision x id) = Err e /\ errors_Is e ErrConflict = true.
Proof. vm_compute. split; [reflexivity|]. eexists. split; reflexivity. Qed.
End examples.
End ChainsExamples.
