(* ===== verification/Rewinder.v ===== *)
(** * L1 access and rewinding of the supervisor

    [backend/l1access/l1_accessor.go] and [backend/rewinder/rewinder.go].  The
    L1 client is a parameter.  The rewinder works on the chains database and
    emits its events into the same queue; its handlers only log errors. *)

From stdpp Require Import base gmap sets list.
From S2P Require Import Prelude EthTypes Engine EntryDB FromDA DepSet CrossGraph LogDB ChainsDB.

(** ** The L1 accessor *)

Record l1a_Source : Type := {
  l1s_BlockRefByNumber : Z -> result L1BlockRef;
  l1s_BlockRefByLabel : BlockLabel -> result L1BlockRef }.

Record L1Accessor : Type := {
  l1a_client : option l1a_Source;
  l1a_tip : BlockID;
  l1a_confDepth : Z }.

Definition NewL1Accessor (client : option l1a_Source) : L1Accessor :=
  {| l1a_client := client; l1a_tip := zeroBlockID; l1a_confDepth := 2 |}.

Definition l1a_AttachClient (p : L1Accessor) (client : option l1a_Source) : L1Accessor :=
  {| l1a_client := client; l1a_tip := l1a_tip p; l1a_confDepth := l1a_confDepth p |}.

Definition l1a_SetConfDepth (p : L1Accessor) (depth : Z) : L1Accessor :=
  {| l1a_client := l1a_client p; l1a_tip := l1a_tip p; l1a_confDepth := depth |}.

Definition l1a_onFinalized (ref : L1BlockRef) : list superevent := [FinalizedL1RequestEvent ref].

Definition l1a_onLatest (p : L1Accessor) (ref : L1BlockRef) : L1Accessor * list superevent :=
  if l1_Hash ref =? bid_Hash (l1a_tip p) then (p, [])
  else if l1_Number ref <? bid_Number (l1a_tip p) then (p, [])
  else
    ({| l1a_client := l1a_client p; l1a_tip := L1BlockRef_ID ref; l1a_confDepth := l1a_confDepth p |},
     if negb (l1_ParentHash ref =? bid_Hash (l1a_tip p)) then [RewindL1Event (L1BlockRef_ID ref)] else []).

Definition PullFinalized (p : L1Accessor) : result (list superevent) :=
  match l1a_client p with
  | None => Err (Msg "no L1 source configured")
  | Some client =>
      let* ref := map_err (Wrap "failed to pull finalized block ref") (l1s_BlockRefByLabel client LabelFinalized) in
      Ok (l1a_onFinalized ref)
  end.

Definition PullLatest (p : L1Accessor) : L1Accessor * result (list superevent) :=
  match l1a_client p with
  | None => (p, Err (Msg "no L1 source configured"))
  | Some client =>
      match map_err (Wrap "failed to pull latest block ref") (l1s_BlockRefByLabel client LabelUnsafe) with
      | Ok ref => let '(p, evs) := l1a_onLatest p ref in (p, Ok evs)
      | Err e => (p, Err e)
      | Panic => (p, Panic)
      end
  end.

Definition l1a_BlockRefByNumber (p : L1Accessor) (number : Z) : result L1BlockRef :=
  match l1a_client p with
  | None => Err (Msg "no L1 source available")
  | Some client =>
      if bid_Number (l1a_tip p) -u l1a_confDepth p <? number then Err NotFound
      else l1s_BlockRefByNumber client number
  end.

(** ** The rewinder *)

(** How a walk ends: with a block to rewind to, or without a rewind. *)
Inductive walk_end (A : Type) : Type := WalkTo (target : A) | WalkStop | WalkPanic | WalkFuel.
Arguments WalkTo {A} target.
Arguments WalkStop {A}.
Arguments WalkPanic {A}.
Arguments WalkFuel {A}.

Section Rewinder.
Context {Sl Sd : Type} {ESl : EntryStore Sl} {ESd : EntryStore Sd}.
Context `{MapOrder} `{Keccak} {DS : DependencySet}.

(** [l1Node]; an error comes with the zero block. *)
Variable l1Node : Z -> result L1BlockRef.

Abbreviation CDB := (ChainsDB Sl Sd).

(** The loop of [handleLocalDerivedEvent]. *)
Fixpoint unsafe_walk (fuel : nat) (db : CDB) (chain finalized height : Z) (target : BlockSeal) : walk_end BlockSeal :=
  match fuel with
  | O => WalkFuel
  | S fuel =>
      if height <? finalized then WalkTo target
      else
        match cdb_FindSealedBlock db chain (u64 height) with
        | Err _ => WalkStop
        | Panic => WalkPanic
        | Ok target =>
            match cdb_LocalDerivedToSource db chain (BlockSeal_ID target) with
            | Ok _ => WalkTo target
            | Err e =>
                if errors_Is e ErrConflict || errors_Is e ErrFuture
                then unsafe_walk fuel db chain finalized (height - 1) target
                else WalkStop
            | Panic => WalkPanic
            end
        end
  end.

Definition handleLocalDerivedEvent (db : CDB) (chain : Z) (newLocalSafe : SealPair) : CDB * result unit :=
  let newSafeHead := sp_Derived newLocalSafe in
  match cdb_FindSealedBlock db chain (bs_Number newSafeHead) with
  | Err _ => (db, Ok tt)
  | Panic => (db, Panic)
  | Ok unsafeVersion =>
      if bs_Hash unsafeVersion =? bs_Hash newSafeHead then (db, Ok tt)
      else
        let finalized :=
          match cdb_Finalized db chain with
          | Ok b => Ok (Some (bs_Number b))
          | Err e => Ok (if errors_Is e ErrFuture then Some 0 else None)
          | Panic => Panic
          end in
        match finalized with
        | Ok None | Err _ => (db, Ok tt)
        | Panic => (db, Panic)
        | Ok (Some fin) =>
            let height := int_of (bs_Number newSafeHead -u 1) in
            match unsafe_walk (S (Z.to_nat (height - int_of fin + 1))) db chain (int_of fin) height zeroSeal with
            | WalkTo target =>
                match cdb_RewindLogs db chain target with
                | (db, Ok _) => (cd_emit db (ChainRewoundEvent chain), Ok tt)
                | (db, Err _) => (db, Ok tt)
                | (db, Panic) => (db, Panic)
                end
            | WalkStop => (db, Ok tt)
            | WalkPanic | WalkFuel => (db, Panic)
            end
        end
  end.

(** [L1BlockRefByNumber], with a missing block as the zero block. *)
Definition l1_or_zero (number : Z) : result L1BlockRef :=
  match l1Node number with
  | Err e => if errors_Is e NotFound then Ok zeroL1BlockRef else Err e
  | r => r
  end.

(** The loop of [rewindL1ChainIfReorged]: the common ancestor. *)
Fixpoint l1_walk (fuel : nat) (db : CDB) (chainID : Z) (finalizedL1 currentL1 : BlockID) : walk_end (result BlockID) :=
  match fuel with
  | O => WalkFuel
  | S fuel =>
      if bid_Number currentL1 <? bid_Number finalizedL1 then WalkTo (Ok finalizedL1)
      else
        match l1_or_zero (bid_Number currentL1) with
        | Err e => WalkTo (Err (Wrap "failed to get L1 block at height" e))
        | Panic => WalkPanic
        | Ok remoteL1 =>
            if l1_Hash remoteL1 =? bid_Hash currentL1 then WalkTo (Ok currentL1)
            else
              match cdb_PreviousSource db chainID currentL1 with
              | Ok prevSource => l1_walk fuel db chainID finalizedL1 (BlockSeal_ID prevSource)
              | Panic => WalkPanic
              | Err e =>
                  if errors_Is e ErrPreviousToFirst then
                    WalkTo (let* remoteFirst := map_err (Wrap "failed to get first L1 block") (l1Node (bid_Number currentL1)) in
                            Ok (if l1_Hash remoteFirst =? bid_Hash currentL1 then currentL1 else finalizedL1))
                  else WalkTo (Err (Wrap "failed to get previous L1 block" e))
              end
        end
  end.

(** The lower bound of the walk. *)
Definition finalized_source (db : CDB) (chainID : Z) : result L1BlockRef :=
  let* finalized :=
    match cdb_Finalized db chainID with
    | Ok b => Ok b
    | Err e =>
        if errors_Is e ErrFuture then map_err (Wrap "failed to get index 0 block") (cdb_FindSealedBlock db chainID 0)
        else Err (Wrap "failed to get finalized block" e)
    | Panic => Panic
    end in
  map_err (Wrap "failed to get finalized L1 block") (cdb_CrossDerivedToSourceRef db chainID (BlockSeal_ID finalized)).

(** A rewind whose [ErrFuture] is only logged. *)
Definition rewind_unless_future (r : CDB * result unit) (what : string) : CDB * result unit :=
  match r with
  | (db, Err e) => (db, if errors_Is e ErrFuture then Ok tt else Err (Wrap what e))
  | r => r
  end.

Definition rewindL1ChainIfReorged (db : CDB) (chainID : Z) : CDB * result unit :=
  match (let* localSafe := map_err (Wrap "failed to get local safe") (cdb_LocalSafe db chainID) in
         let* canonicalL1 := map_err (Wrap "failed to get canonical L1 block at height") (l1_or_zero (bs_Number (sp_Source localSafe))) in
         Ok (localSafe, canonicalL1)) with
  | Err e => (db, Err e)
  | Panic => (db, Panic)
  | Ok (localSafe, canonicalL1) =>
      let localSafeL1 := sp_Source localSafe in
      if l1_Hash canonicalL1 =? bs_Hash localSafeL1 then (db, Ok tt)
      else
        match finalized_source db chainID with
        | Err e => (db, Err e)
        | Panic => (db, Panic)
        | Ok finalizedL1 =>
            match l1_walk (S (S (Z.to_nat (bs_Number localSafeL1)))) db chainID (L1BlockRef_ID finalizedL1) (BlockSeal_ID localSafeL1) with
            | WalkStop | WalkPanic | WalkFuel | WalkTo Panic => (db, Panic)
            | WalkTo (Err e) => (db, Err e)
            | WalkTo (Ok commonL1Ancestor) =>
                match rewind_unless_future (cdb_RewindLocalSafe db chainID commonL1Ancestor) "failed to rewind local-safe" with
                | (db, Ok _) =>
                    match rewind_unless_future (cdb_RewindCrossSafe db chainID commonL1Ancestor) "failed to rewind cross-safe" with
                    | (db, Ok _) => (cd_emit db (ChainRewoundEvent chainID), Ok tt)
                    | r => r
                    end
                | r => r
                end
            end
        end
  end.

(** The loop of [handleRewindL1Event]; errors are logged. *)
Fixpoint rewind_chains (db : CDB) (chains : list Z) : CDB * result unit :=
  match chains with
  | [] => (db, Ok tt)
  | chainID :: chains' =>
      match rewindL1ChainIfReorged db chainID with
      | (db, Panic) => (db, Panic)
      | (db, _) => rewind_chains db chains'
      end
  end.

Definition handleRewindL1Event (db : CDB) : CDB * result unit := rewind_chains db Chains.

(** [OnEvent]; [false] for an event that is not handled. *)
Definition rewinder_OnEvent (db : CDB) (ev : superevent) : CDB * result bool :=
  match ev with
  | RewindL1Event _ => let '(db, r) := handleRewindL1Event db in (db, let* _ := r in Ok true)
  | LocalSafeUpdateEvent chain p => let '(db, r) := handleLocalDerivedEvent db chain p in (db, let* _ := r in Ok true)
  | _ => (db, Ok false)
  end.
End Rewinder.
