(* ===== verification/RewinderTheorems.v ===== *)
(** * Rewinding: its theorems

    The walk over L1 ends at the latest block that the L1 node confirms, or at
    the source of the finalized block; the databases keep their invariant. *)

From stdpp Require Import base gmap sets list.
From S2P Require Import Prelude EthTypes EntryDB FromDA FromDASearch FromDALinks DepSet CrossGraph LogDB LogCodec LogStream LogRead LogSearch LogWrite LogRefine LogQuery ChainsDB ChainsLinks ChainsInv ChainsOps ChainsTheorems Rewinder.

(** ** Links and their sources *)

Abbreviation src_id l := (BlockSeal_ID (le_source l)).

#[local] Instance source_order : PreOrder source_le.
Proof. split; [intros a | intros a b c]; unfold source_le; lia. Qed.

Lemma same_source_hash ls i j a b : links_ok ls -> ls !! i = Some a -> ls !! j = Some b -> src a = src b -> src_id a = src_id b.
Proof.
  intros Hok Hi Hj Hs. assert (forall i j a b, (i <= j)%nat -> ls !! i = Some a -> ls !! j = Some b -> src a = src b ->
    bs_Hash (le_source a) = bs_Hash (le_source b)) as Hw.
  { clear i j a b Hi Hj Hs. intros i j a b Hij Ha Hb Hs.
    set (R := fun a b => src a <= src b /\ (src a = src b -> bs_Hash (le_source a) = bs_Hash (le_source b))).
    assert (PreOrder R) as HR.
    { split; [by split|]. intros x y z [H1 H2] [H3 H4]. split; [lia|]. intros Hxz. rewrite H2, H4 by lia. done. }
    assert (adjacent R ls) as Hadj.
    { eapply adjacent_impl; [|apply (lo_steps _ Hok)]. intros x y Hst. split; [destruct (ls_source _ _ Hst); lia|].
      intros He. by rewrite (ls_same_source _ _ Hst). }
    by apply (adjacent_lookup R ls i j a b Hadj Ha Hb Hij). }
  unfold BlockSeal_ID. rewrite Hs. f_equal. destruct (decide (i <= j)%nat); [by eapply Hw|]. symmetry. eapply Hw; [|done..|done]. lia.
Qed.

Section links.
Context {St : Type} {ES : EntryStore St} {L : EntryStoreLaws St EntrySize}.

(** The source before the given one, or nothing before block 0. *)
Lemma previousSource_Ok db ls id p : holds db ls -> previousSource db id = Ok p ->
  exists i l, ls !! i = Some l /\ src_id l = id /\ (forall j a, (j < i)%nat -> ls !! j = Some a -> src a < bid_Number id) /\
    ((i = 0%nat /\ bid_Number id = 0 /\ p = zeroSeal) \/
     exists j l', i = S j /\ ls !! j = Some l' /\ p = le_source l' /\ bs_Number p = bid_Number id - 1).
Proof.
  intros Hh Hp. unfold previousSource in Hp. apply rbind_Ok in Hp as ([i l] & Hl%map_err_Ok & Hp).
  destruct (source_first_sound db ls (proj1 Hh) (proj2 Hh) _ _ _ Hl) as (Hi & Hs & Hb).
  destruct (id_eqb (BlockSeal_ID (le_source l)) id) eqn:Hid; [|done]. unfold id_eqb in Hid. apply bool_decide_eq_true in Hid. simpl in Hp.
  exists (Z.to_nat i), l. split; [done|]. split; [done|]. split; [done|].
  destruct (Z.eqb_spec i 0) as [->|Hne].
  - left. destruct (Z.eqb_spec (bs_Number (le_source l)) 0) as [Hz|]; [|done]. apply Ok_inj in Hp as <-. split_and!; [done|lia|done].
  - right. assert (0 <= i) as H0 by (apply (find_found db ls) in Hl as [? _ _ _]; [done|apply Hh|apply mono_source_first, Hh]).
    apply rbind_Ok in Hp as (l' & Hl'%map_err_Ok & Hp). apply Ok_inj in Hp as <-.
    apply (readAt_Ok db ls) in Hl'; [|apply Hh|lia]. exists (Z.to_nat (i - 1)), l'.
    assert (Z.to_nat i = S (Z.to_nat (i - 1))) as HS by lia. split; [done|]. split; [done|]. split; [done|].
    pose proof (Hb (Z.to_nat (i - 1)) l' ltac:(lia) Hl') as Hlt. rewrite HS in Hi.
    pose proof (adjacent_at _ _ _ _ _ (lo_steps _ (proj2 Hh)) Hl' Hi) as Hst. destruct (ls_source _ _ Hst); lia.
Qed.

(** Nothing before the first source. *)
Lemma previousSource_first db ls id e : holds db ls -> reads_ok db ls -> previousSource db id = Err e ->
  errors_Is e ErrPreviousToFirst = true -> exists l, ls !! 0%nat = Some l /\ src_id l = id.
Proof.
  intros Hh Hreads Hp He. unfold previousSource in Hp.
  assert (forall e', sourceNumToFirstDerived db (bid_Number id) = Err e' -> errors_Is e' ErrPreviousToFirst = false) as Hfind.
  { intros e' Hf. destruct (find_scan db ls false false (fun l => cmp_Compare (src l) (bid_Number id)) (proj1 Hh)
      (mono_source_first ls (bid_Number id) (proj2 Hh))) as [Heq|(w & i & x & _ & Hi & Hx)]; [|by apply Hreads in Hx].
    unfold sourceNumToFirstDerived in Hf. rewrite Hf in Heq. unfold find_ref in Heq. cbv zeta in Heq. by repeat case_match; simplify_eq. }
  destruct (sourceNumToFirstDerived db (bid_Number id)) as [[i l]|e'|] eqn:Hl; cbn [map_err rbind] in Hp.
  - destruct (source_first_sound db ls (proj1 Hh) (proj2 Hh) _ _ _ Hl) as (Hi & Hs & _).
    destruct (id_eqb (BlockSeal_ID (le_source l)) id) eqn:Hid; [|by injection Hp as <-]. unfold id_eqb in Hid. apply bool_decide_eq_true in Hid.
    simpl in Hp. destruct (Z.eqb_spec i 0) as [->|Hne]; [by exists l|]. exfalso.
    apply (find_found db ls) in Hl as [Hi0 _ _ _]; [|apply Hh|apply mono_source_first, Hh]. apply lookup_lt_Some in Hi.
    destruct (readAt db (i - 1)) as [x|x|] eqn:Hx; [done| |done]. by apply Hreads in Hx; [|lia].
  - injection Hp as <-. simpl in He. by rewrite (Hfind e' eq_refl) in He.
  - done.
Qed.

(** A rewind to a source keeps everything up to it. *)
Lemma RewindToScope_Ok db ls scope : holds db ls ->
  match RewindToScope db scope with
  | (db', Ok _) => exists k l, holds db' (take k ls) /\ last (take k ls) = Some l /\ src_id l = scope /\
      forall j a, (k <= j)%nat -> ls !! j = Some a -> bid_Number scope < src a
  | (db', Err _) => holds db' ls
  | (_, Panic) => False
  end.
Proof.
  intros Hh. pose proof (RewindToScope_kept db ls scope Hh) as (_ & _ & _ & Hnp). revert Hnp. unfold RewindToScope.
  destruct (let* (_, link) := _ in _) as [t|e|] eqn:Ht; [|done|done]. intros Hnp.
  apply rbind_Ok in Ht as ([i l] & Hl%map_err_Ok & Ht).
  destruct (source_last_sound db ls (proj1 Hh) (proj2 Hh) _ _ _ Hl) as (Hi & Hs & Hafter).
  destruct (id_eqb (BlockSeal_ID (le_source l)) scope) eqn:Hid; [|done]. unfold id_eqb in Hid. apply bool_decide_eq_true in Hid.
  simpl in Ht. apply Ok_inj in Ht as <-. revert Hnp. unfold rewindLocked, rewind_target. cbn [sp_Source sp_Derived].
  destruct (lookup_ db (bs_Number (le_source l)) (bs_Number (le_derived l))) as [[j l']|e|] eqn:Hlk; cbn [rbind]; [|done|done].
  destruct (lookup_sound db ls (proj1 Hh) (proj2 Hh) _ _ _ _ Hlk) as (Hj & Hs' & Hd' & Huniq).
  pose proof (Huniq _ _ Hi eq_refl eq_refl) as Hij. rewrite <-Hij, Hi in Hj. injection Hj as <-.
  rewrite !Z.eqb_refl. cbn [negb]. intros Hnp.
  assert (0 <= j < Z.of_nat (length ls)) as Hr.
  { apply lookup_lt_Some in Hi. apply (lookup_found db ls) in Hlk; [|done]. pose proof (found_range _ _ _ _ _ _ Hlk). lia. }
  pose proof (truncate_holds db ls j Hh ltac:(lia)) as Htr.
  destruct (st_Truncate db j) as [db' [u|e|]]; [|done|done]. exists (Z.to_nat (j + 1)), l.
  split; [done|]. split; [|split; [done|]].
  - rewrite last_lookup, length_take. replace (pred (Z.to_nat (j + 1) `min` length ls)) with (Z.to_nat j) by lia.
    rewrite lookup_take_lt by lia. by rewrite <-Hij.
  - intros k a Hk Ha. apply (Hafter k a); [lia|done].
Qed.

(** The links whose source is not after [n]. *)
Definition kept_up_to (n : Z) (ls : list LinkEntry) : list LinkEntry := filter (fun l => src l <= n) ls.

Lemma filter_every {A} (P : A -> Prop) `{!forall x, Decision (P x)} l : Forall P l -> filter P l = l.
Proof. induction 1 as [|x l Hx _ IH]; [done|]. by rewrite filter_cons_True, IH. Qed.

Lemma filter_never {A} (P : A -> Prop) `{!forall x, Decision (P x)} l : Forall (fun x => ~ P x) l -> filter P l = [].
Proof. induction 1 as [|x l Hx _ IH]; [done|]. by rewrite filter_cons_False. Qed.

Lemma kept_up_to_take n ls k : (forall j a, (j < k)%nat -> ls !! j = Some a -> src a <= n) ->
  (forall j a, (k <= j)%nat -> ls !! j = Some a -> n < src a) -> take k ls = kept_up_to n ls.
Proof.
  intros Hlo Hhi. unfold kept_up_to. rewrite <-(take_drop k ls) at 2. rewrite filter_app, filter_every, filter_never.
  - by rewrite app_nil_r.
  - apply Forall_lookup_2. intros j a Ha. rewrite lookup_drop in Ha. specialize (Hhi (k + j)%nat a ltac:(lia) Ha). lia.
  - apply Forall_lookup_2. intros j a Ha. apply lookup_take_Some in Ha as [Ha Hj]. by apply (Hlo j a).
Qed.

Lemma kept_up_to_all n ls : (forall l, l ∈ ls -> src l <= n) -> kept_up_to n ls = ls.
Proof. intros Hall. apply filter_every, Forall_forall. done. Qed.

(** A search for the last link of a source that says the source is in the
    future. *)
Lemma source_last_future db ls n e : holds db ls -> reads_ok db ls -> sourceNumToLastDerived db n = Err e ->
  errors_Is e ErrFuture = true -> forall l, l ∈ ls -> src l < n.
Proof.
  intros Hh Hreads Hf He l Hl. pose proof (mono_source_last ls n (proj2 Hh)) as Hm.
  destruct (find_scan db ls true false _ (proj1 Hh) Hm) as [Heq|(w & i & x & _ & Hi & Hx)]; [|by apply Hreads in Hx].
  unfold sourceNumToLastDerived in Hf. rewrite Hf in Heq. unfold find_ref in Heq. destruct ls as [|l0 ls]; [by apply elem_of_nil in Hl|].
  pose proof (scan_spec (fun link => cmp_Compare n (bs_Number (le_source link))) 0 (rev (l0 :: ls))) as Hs.
  destruct (scan _ 0 (rev (l0 :: ls))) as [[k x]|]; [|by injection Heq as ->]. cbv zeta in Heq.
  destruct (Z.eqb_spec (cmp_Compare n (bs_Number (le_source x))) 0) as [|Hne]; [done|].
  destruct (Z.eqb_spec k 0) as [->|]; [|by injection Heq as ->]. destruct Hs as (_ & Hx & Hge & _).
  assert (bs_Number (le_source x) < n) as Hlt by (revert Hge Hne; unfold cmp_Compare; repeat case_match; lia).
  simpl Z.to_nat in Hx. rewrite rev_reverse, <-head_lookup, head_reverse, last_lookup in Hx.
  apply list_elem_of_lookup_1 in Hl as [j Hj]. apply lookup_lt_Some in Hj as Hjl.
  pose proof (links_ordered source_le _ j (pred (length (l0 :: ls))) l x step_source_le (proj2 Hh) ltac:(lia) Hj Hx) as Hle.
  unfold source_le in Hle. lia.
Qed.

(** A rewind to a source keeps exactly the links up to it.  An error leaves the
    links; it says that the source is in the future only when all links are
    before it, and comes from the store when a link has the source. *)
Lemma RewindToScope_exact db ls scope : holds db ls -> reads_ok db ls ->
  (forall i e, (st_Truncate db i).2 = Err e -> errors_Is e ErrFuture = false) ->
  match RewindToScope db scope with
  | (db', Ok _) => holds db' (kept_up_to (bid_Number scope) ls) /\ exists l, l ∈ ls /\ src_id l = scope
  | (db', Err e) => holds db' ls /\ (errors_Is e ErrFuture = true -> forall l, l ∈ ls -> src l < bid_Number scope) /\
      ((exists l, l ∈ ls /\ src_id l = scope) -> exists i e', (st_Truncate db i).2 = Err e')
  | (_, Panic) => False
  end.
Proof.
  intros Hh Hreads Hio. pose proof (RewindToScope_Ok db ls scope Hh) as Hr. destruct (RewindToScope db scope) as [db' [u|e|]] eqn:Hrw; [| |done].
  - destruct Hr as (k & l & Hh' & Hl & Hid & Haft). rewrite last_lookup in Hl. apply lookup_take_Some in Hl as [Hl Hk].
    split; [|exists l; split; [by eapply list_elem_of_lookup_2|done]]. 
    assert (take k ls = kept_up_to (bid_Number scope) ls) as <-; [|done]. apply kept_up_to_take; [|done].
    intros j a Hj Ha. rewrite length_take in Hl, Hk. apply lookup_lt_Some in Ha as Hal.
    assert (j <= pred (k `min` length ls))%nat as Hjk by lia.
    pose proof (links_ordered source_le ls j _ a l step_source_le (proj2 Hh) Hjk Ha Hl) as Hle. rewrite <-Hid. exact Hle.
  - split; [done|]. unfold RewindToScope in Hrw.
    assert (forall l, l ∈ ls -> src_id l = scope -> exists i l', sourceNumToLastDerived db (bid_Number scope) = Ok (i, l') /\ src_id l' = scope) as Hfound.
    { intros l Hl Hid. apply list_elem_of_lookup_1 in Hl as [j Hj]. destruct (sources_complete db ls (proj1 Hh) (proj2 Hh) j l Hreads Hj) as [[[i l'] Hs] _].
      assert (src l = bid_Number scope) as Hn by (by rewrite <-Hid). rewrite Hn in Hs. exists i, l'. split; [done|].
      destruct (source_last_sound db ls (proj1 Hh) (proj2 Hh) _ _ _ Hs) as (Hi & Hsrc & _). rewrite <-Hid.
      eapply same_source_hash; [apply Hh|exact Hi|exact Hj|lia]. }
    destruct (sourceNumToLastDerived db (bid_Number scope)) as [[i l]|e'|] eqn:Hs; cbn [map_err rbind] in Hrw; [| |done].
    + unfold id_eqb in Hrw. case_bool_decide as Hid; cbn [negb] in Hrw.
      2: { injection Hrw as <- <-. split; [done|]. intros (l' & Hl' & Hid'). destruct (Hfound l' Hl' Hid') as (i' & l'' & Heq & Hid'').
           injection Heq as <- <-. done. }
      destruct (source_last_sound db ls (proj1 Hh) (proj2 Hh) _ _ _ Hs) as (Hi & _ & _).
      destruct (lookup_complete db ls (proj1 Hh) (proj2 Hh) _ l Hreads Hi) as [[j l'] Hlk].
      unfold rewindLocked, rewind_target in Hrw. cbn [sp_Source sp_Derived] in Hrw. rewrite Hlk in Hrw. cbn [rbind] in Hrw.
      destruct (lookup_sound db ls (proj1 Hh) (proj2 Hh) _ _ _ _ Hlk) as (Hj & _ & _ & Huniq).
      pose proof (Huniq _ _ Hi eq_refl eq_refl) as Hij. rewrite <-Hij, Hi in Hj. injection Hj as <-. rewrite !Z.eqb_refl in Hrw. cbn [negb] in Hrw.
      specialize (Hio j). destruct (st_Truncate db j) as [db2 [u2|e2|]] eqn:Htr; simpl in Hrw; [done| |done]. injection Hrw as <- <-.
      split; [|intros _; exists j, e2; by rewrite Htr]. simpl. rewrite (Hio e2 eq_refl). done.
    + injection Hrw as <- <-. split; [simpl; intros He; by eapply source_last_future|].
      intros (l & Hl & Hid). destruct (Hfound l Hl Hid) as (? & ? & ? & _). done.
Qed.
End links.

(** ** Queries that do not panic *)

Section queries.
Context {Sl Sd : Type} {ESl : EntryStore Sl} {ESd : EntryStore Sd}.
Context {LSl : EntryStoreLaws Sl logs_EntrySize} {LSd : EntryStoreLaws Sd EntrySize}.
Context {MO : MapOrder} {KC : Keccak} {DS : DependencySet}.
Hypothesis Hreliable : forall (s : Sl) i e, st_ok s -> st_view s !! i = Some e -> st_Read s (Z.of_nat i) = Ok e.

Abbreviation CDB := (ChainsDB Sl Sd).

Lemma iter_empty (db : LogsDB Sl) n : st_ok (ld_store db) -> st_view (ld_store db) = [] -> exists e, iter_at db n 0 = Err e.
Proof.
  intros Hok Hv. unfold iter_at, newIteratorAt, db_searchCheckpoint.
  destruct (nextEntryIndex (lastEntryContext db) =? 0); [by eexists|].
  pose proof (st_Last_spec _ Hok) as Hl. rewrite Hv in Hl. simpl in Hl. rewrite Hl.
  change (Z.quot (-1) searchCheckpointFrequency + 1) with 1. cbn [Z.to_nat Pos.to_nat]. simpl searchCheckpoint_loop.
  cbn [rbind]. unfold readSearchCheckpoint. rewrite (st_Read_end _ (0 * searchCheckpointFrequency)); [by eexists|done|]. by rewrite Hv.
Qed.

Lemma FindSealedBlock_no_panic (db : LogsDB Sl) a n : logs_inv db a -> FindSealedBlock db n <> Panic.
Proof.
  intros [Hok Ha].
  assert (st_view (ld_store db) = [] -> FindSealedBlock db n <> Panic) as Hempty.
  { intros Hv. unfold FindSealedBlock. destruct (iter_empty db n Hok Hv) as [e Hie]. rewrite Hie. by destruct (errors_Is e ErrFuture). }
  assert (forall es p1 evs, st_view (ld_store db) = encode <$> es -> holds_history es p1 evs ->
    nextEntryIndex (lastEntryContext db) <> 0 -> FindSealedBlock db n <> Panic) as Hfull.
  { intros es p1 evs Hv Hh Hidx. destruct (FindSealedBlock_cases db es (reads_view Hreliable _ es Hok Hv) p1 evs Hh Hidx n) as
      [(dn & evs' & _ & _ & _ & ->)|[[_ [e ->]]|[_ (e & e' & ->)]]]; done. }
  destruct a as [|p1 [s|] evs|p1 [s|]]; simpl in *.
  - apply Hempty, Ha.
  - destruct Ha as (es & pend & c & Hv & [Hh _] & Hc & Hh' & _). eapply Hfull; [done..|]. rewrite Hc. simpl. pose proof (hist_len _ _ _ Hh'). lia.
  - destruct Ha as (es & pend & c & Hv & -> & _). by apply Hempty.
  - destruct Ha as (es & Hv & [Hh _] & Hst). eapply Hfull; [done..|]. by apply stuck_index.
  - destruct Ha as (es & Hv & -> & _). by apply Hempty.
Qed.

Lemma cdb_FindSealedBlock_no_panic (db : CDB) v c n : chains_inv db v -> cdb_FindSealedBlock db c n <> Panic.
Proof.
  intros Hi. unfold cdb_FindSealedBlock, chain_get. destruct (logDBs db !! c) as [d|] eqn:Hc; [|done].
  destruct (inv_logDB db v c d Hi Hc) as (a & _ & Ha). cbn [rbind]. by eapply FindSealedBlock_no_panic.
Qed.

Lemma mono_derived_first_any ls d : plain ls -> monotone false (cmp_derived_first RevisionAny d) ls.
Proof.
  intros [_ Hp] i j a b Hij Ha Hb. unfold cmp_derived_first. simpl. rewrite !cmp_Compare_nonneg.
  pose proof (adjacent_lookup derived_le ls i j a b Hp Ha Hb Hij) as H. unfold derived_le in H. lia.
Qed.

Lemma CrossDerivedToSourceRef_no_panic (db : CDB) v c id : chains_inv db v -> cdb_CrossDerivedToSourceRef db c id <> Panic.
Proof.
  intros Hi. unfold cdb_CrossDerivedToSourceRef, chain_get. destruct (crossDBs db !! c) as [x|] eqn:Hc; [|done].
  destruct (inv_cross db v c x Hi Hc) as (xs & _ & Hh & Hpl). cbn [rbind]. apply rbind_run_no_panic.
  { apply rbind_run_no_panic; [apply (find_no_panic x xs); [apply Hh|by apply mono_derived_first_any]|].
    intros [i l] _. by case_match. }
  intros s Hs. pose proof (previousSource_no_panic x xs (BlockSeal_ID s) Hh) as Hnp.
  destruct (previousSource x (BlockSeal_ID s)) as [p|e|] eqn:Hp; [|by case_match|done].
  destruct (previousSource_Ok x xs _ p Hh Hp) as (i & l & Hl & Hid & _ & Hcase). unfold MustWithParent, WithParent.
  destruct Hcase as [(_ & Hz & _)|(j & l' & _ & Hj & Hpl' & Hn)].
  - simpl in Hz. rewrite Hz. cbn [Z.eqb negb]. by rewrite andb_false_r.
  - simpl in Hn |- *. assert (0 <= bs_Number s < two63) as Hr.
    { pose proof (proj1 (Forall_lookup_1 _ _ _ _ (lo_small _ (proj2 Hh)) Hl)) as Hsm. simpl in Hsm.
      apply (f_equal bid_Number) in Hid. simpl in Hid.
      pose proof (Forall_lookup_1 _ _ _ _ (rep_wf _ _ (proj1 Hh)) Hl) as [[Hnum _ _] _ _]. unfold is_u64, two63 in *. lia. }
    rewrite Hn. replace (bs_Number s - 1 + 1) with (bs_Number s) by lia. rewrite u64_small by (unfold is_u64, two63, two64 in *; lia).
    by rewrite Z.eqb_refl.
Qed.

Lemma findRevision_spec (db : CDB) v c id : chains_inv db v ->
  findRevision db c id <> Panic /\ forall r, findRevision db c id = Ok r -> 0 <= r < two63.
Proof.
  intros Hi. unfold findRevision, chain_get. destruct (crossDBs db !! c) as [x|] eqn:Hx; [|done].
  destruct (inv_cross db v c x Hi Hx) as (xs & _ & Hh & Hpl). cbn [rbind]. destruct (DerivedToRevision_spec x xs id Hh Hpl) as [Hnp Hr].
  destruct (DerivedToRevision x id) as [r|e|]; [by split; [|intros ? [= <-]; apply Hr]| |done]. case_match.
  2: { split; [done|]. intros r [= <-]. unfold two63. lia. }
  destruct (localDBs db !! c) as [d|] eqn:Hd; [|done]. destruct (inv_local db v c d Hi Hd) as (ls & _ & Hhd). cbn [rbind]. unfold LastRevision.
  destruct (latest_link_rep d ls (proj1 Hhd)) as [(l & -> & Hl)|[e' ->]]; [|done]. split; [done|]. intros r [= <-].
  destruct (holds_last d ls l Hhd Hl) as (Hwf & _). apply Hwf.
Qed.

Lemma LocalDerivedToSource_no_panic (db : CDB) v c id : chains_inv db v -> cdb_LocalDerivedToSource db c id <> Panic.
Proof.
  intros Hi. unfold cdb_LocalDerivedToSource, chain_get. destruct (localDBs db !! c) as [d|] eqn:Hd; [|done].
  destruct (inv_local db v c d Hi Hd) as (ls & _ & Hh). cbn [rbind]. destruct (findRevision_spec db v c id Hi) as [Hnp Hr].
  apply rbind_run_no_panic; [done|]. intros r Hrr. apply rbind_run_no_panic.
  - apply (find_no_panic d ls); [apply Hh|]. apply mono_derived_first; [apply Hh|apply Hh|by apply Hr].
  - intros [i l] _. by case_match.
Qed.
End queries.

(** ** Rewinding on an L1 reorg *)

Section rewinding.
Context {Sl Sd : Type} {ESl : EntryStore Sl} {ESd : EntryStore Sd}.
Context {LSl : EntryStoreLaws Sl logs_EntrySize} {LSd : EntryStoreLaws Sd EntrySize}.
Context {MO : MapOrder} {KC : Keccak} {DS : DependencySet}.
Hypothesis Hreliable : forall (s : Sl) i e, st_ok s -> st_view s !! i = Some e -> st_Read s (Z.of_nat i) = Ok e.
Variable l1Node : Z -> result L1BlockRef.
Hypothesis Hl1 : forall n, l1Node n <> Panic.

Abbreviation CDB := (ChainsDB Sl Sd).

(** The L1 node has the block on its chain. *)
Definition canonical (id : BlockID) : Prop := exists r, l1_or_zero l1Node (bid_Number id) = Ok r /\ l1_Hash r = bid_Hash id.

Lemma l1_or_zero_no_panic n : l1_or_zero l1Node n <> Panic.
Proof. unfold l1_or_zero. specialize (Hl1 n). destruct (l1Node n); [done|by case_match|done]. Qed.

(** What the walk keeps: no link after the current block is canonical, and at
    its height only the block itself may be. *)
Definition walk_inv (ls : list LinkEntry) (cur : BlockID) : Prop :=
  0 <= bid_Number cur /\ forall l, l ∈ ls -> bid_Number cur <= src l -> canonical (src_id l) -> src_id l = cur.

(** The latest common ancestor, or the source of the finalized block. *)
Definition ancestor (ls : list LinkEntry) (fin anc : BlockID) : Prop :=
  (canonical anc \/ anc = fin) /\ forall l, l ∈ ls -> bid_Number anc < src l -> ~ canonical (src_id l).

Lemma source_range (d : Sd) ls l : holds d ls -> l ∈ ls -> 0 <= src l < two63.
Proof.
  intros Hh Hl. apply list_elem_of_lookup_1 in Hl as [i Hi]. pose proof (Forall_lookup_1 _ _ _ _ (lo_small _ (proj2 Hh)) Hi) as [Hs _].
  pose proof (Forall_lookup_1 _ _ _ _ (rep_wf _ _ (proj1 Hh)) Hi) as [[Hn _ _] _ _]. unfold is_u64, two63 in *. lia.
Qed.

Lemma l1_walk_spec (db : CDB) c d ls fin : localDBs db !! c = Some d -> holds d ls -> reads_ok d ls ->
  (forall l, l ∈ ls -> bs_Hash (le_source l) <> 0) ->
  forall fuel cur, walk_inv ls cur -> (Z.to_nat (bid_Number cur) + (if (bid_Hash cur =? 0)%Z then 0 else 1) < fuel)%nat ->
  match l1_walk l1Node fuel db c fin cur with
  | WalkTo (Ok anc) => ancestor ls fin anc
  | WalkTo (Err _) => True
  | _ => False
  end.
Proof.
  intros Hd Hh Hreads Hnz fuel. induction fuel as [|fuel IH]; intros cur [H0 Hinv] Hf; [lia|]. cbn [l1_walk].
  destruct (Z.ltb_spec (bid_Number cur) (bid_Number fin)) as [Hlt|Hge].
  { split; [by right|]. intros l Hl Hs Hcan. specialize (Hinv l Hl ltac:(lia) Hcan). apply (f_equal bid_Number) in Hinv. simpl in Hinv. lia. }
  pose proof (l1_or_zero_no_panic (bid_Number cur)) as Hp.
  destruct (l1_or_zero l1Node (bid_Number cur)) as [remote|e|] eqn:Hrem; [|done|done].
  destruct (Z.eqb_spec (l1_Hash remote) (bid_Hash cur)) as [Heq|Hne].
  { split; [left; by exists remote|]. intros l Hl Hs Hcan. specialize (Hinv l Hl ltac:(lia) Hcan). apply (f_equal bid_Number) in Hinv. simpl in Hinv. lia. }
  assert (forall l, l ∈ ls -> bid_Number cur <= src l -> ~ canonical (src_id l)) as Hnone.
  { intros l Hl Hs Hcan. pose proof (Hinv l Hl Hs Hcan) as He. rewrite He in Hcan. destruct Hcan as (r & Hr & Hh'). rewrite Hrem in Hr.
    apply Ok_inj in Hr as <-. done. }
  unfold cdb_PreviousSource, chain_get. rewrite Hd. cbn [rbind]. pose proof (previousSource_no_panic d ls cur Hh) as Hnp.
  destruct (previousSource d cur) as [p|e|] eqn:Hprev; [| |done].
  - destruct (previousSource_Ok d ls cur p Hh Hprev) as (i & l & Hl & Hid & Hbef & Hcase).
    assert (bid_Hash cur <> 0) as Hch.
    { rewrite <-Hid. simpl. apply Hnz. by eapply list_elem_of_lookup_2. }
    destruct (Z.eqb_spec (bid_Hash cur) 0) as [|_]; [done|].
    destruct Hcase as [(-> & Hz & ->)|(j & l' & -> & Hj & -> & Hn)].
    + apply IH; [|simpl; lia]. split; [done|]. intros a Ha _ Hcan. exfalso. apply (Hnone a Ha); [|done].
      rewrite Hz. by apply (source_range d ls).
    + apply IH.
      * assert (l' ∈ ls) as Hin by (by eapply list_elem_of_lookup_2). pose proof (source_range d ls l' Hh Hin). split; [simpl; lia|].
        intros a Ha Hs Hcan. simpl in Hs. destruct (decide (bid_Number cur <= src a)) as [Hc|Hc]; [by destruct (Hnone a Ha Hc)|].
        apply list_elem_of_lookup_1 in Ha as [k Hk]. apply (same_source_hash ls k j); [apply Hh|done|done|lia].
      * assert (bs_Hash (le_source l') <> 0) as Hnz' by (apply Hnz; by eapply list_elem_of_lookup_2).
        simpl. destruct (Z.eqb_spec (bs_Hash (le_source l')) 0); [done|]. assert (0 <= bs_Number (le_source l')) as Hn0.
        { apply (source_range d ls l' Hh). by eapply list_elem_of_lookup_2. }
        simpl in Hn0. lia.
  - destruct (errors_Is e ErrPreviousToFirst) eqn:He; [|done].
    destruct (previousSource_first d ls cur e Hh Hreads Hprev He) as (l0 & Hl0 & Hid0). pose proof (Hl1 (bid_Number cur)) as Hl1'.
    destruct (l1Node (bid_Number cur)) as [rf|x|] eqn:Hrf; cbn [map_err rbind]; [|done|done].
    assert (remote = rf) as -> by (unfold l1_or_zero in Hrem; rewrite Hrf in Hrem; by apply Ok_inj in Hrem).
    destruct (Z.eqb_spec (l1_Hash rf) (bid_Hash cur)); [done|]. split; [by right|]. intros l Hl _ Hcan. apply (Hnone l Hl); [|done].
    apply list_elem_of_lookup_1 in Hl as [k Hk]. rewrite <-Hid0. simpl.
    pose proof (links_ordered source_le ls 0 k l0 l step_source_le (proj2 Hh) (Nat.le_0_l k) Hl0 Hk) as Hle. exact Hle.
Qed.

(** Reads of the derivation databases succeed as well. *)
Hypothesis Hreliable_d : forall (s : Sd) i e, st_ok s -> st_view s !! i = Some e -> st_Read s (Z.of_nat i) = Ok e.

(** The store's own errors are not [ErrFuture]. *)
Hypothesis Hstore : forall (s : Sd) i e, (st_Truncate s i).2 = Err e -> errors_Is e ErrFuture = false.

Lemma reliable_reads (d : Sd) ls : holds d ls -> reads_ok d ls.
Proof.
  intros [[Hok Hv Hwf] _] i e Hi. destruct (lookup_lt_is_Some_2 ls (Z.to_nat i)) as [l Hl]; [lia|]. unfold readAt.
  rewrite <-(Z2Nat.id i) by lia. rewrite (Hreliable_d d (Z.to_nat i) (link_bytes l)); [|done|by rewrite Hv, list_lookup_fmap, Hl].
  rewrite decode_link_bytes; [done|]. by eapply Forall_lookup_1.
Qed.

(** No L1 block has the zero hash. *)
Definition sources_ok (v : cview) : Prop := forall c ls l, v_local v !! c = Some ls -> l ∈ ls -> bs_Hash (le_source l) <> 0.

Lemma sources_ok_kept v c ls n : sources_ok v -> v_local v !! c = Some ls -> sources_ok (v_set_local v c (kept_up_to n ls)).
Proof.
  intros Hs Hls c' ls' l Hls' Hl. simpl in Hls'. destruct (decide (c' = c)) as [->|Hne].
  - rewrite lookup_insert_eq in Hls'. injection Hls' as <-. apply (Hs c ls); [done|]. by apply list_elem_of_filter in Hl as [_ Hl].
  - rewrite lookup_insert_ne in Hls' by done. by eapply Hs.
Qed.

(** A rewind to [anc] that cannot be made: links are there, none is of [anc],
    and not all are before it; or the store refuses. *)
Definition unrewindable (ls : list LinkEntry) (anc : BlockID) : Prop :=
  ((~ exists l, l ∈ ls /\ src_id l = anc) \/ exists (d : Sd) i e, (st_Truncate d i).2 = Err e).

(** The sources are in order, so what is kept is a first part of the links. *)
Lemma kept_take (d : Sd) ls n : holds d ls -> exists k, take k ls = kept_up_to n ls.
Proof.
  intros Hh. assert (forall i j a b, (i <= j)%nat -> ls !! i = Some a -> ls !! j = Some b -> src a <= src b) as Hord.
  { intros i j a b Hij Ha Hb. exact (links_ordered source_le ls i j a b step_source_le (proj2 Hh) Hij Ha Hb). }
  clear Hh. induction ls as [|x ls IH]; [by exists 0%nat|]. unfold kept_up_to. destruct (decide (src x <= n)) as [Hx|Hx].
  - rewrite filter_cons_True by done. destruct IH as [k Hk]; [|exists (S k); simpl; by rewrite Hk].
    intros i j a b Hij Ha Hb. apply (Hord (S i) (S j) a b); [lia|done|done].
  - exists 0%nat. rewrite filter_cons_False by done. symmetry. apply filter_never, Forall_lookup_2. intros i a Ha.
    pose proof (Hord 0%nat (S i) x a ltac:(lia) eq_refl Ha). lia.
Qed.

Lemma kept_extends (d : Sd) ls n : holds d ls -> extends ls (kept_up_to n ls).
Proof. intros Hh. destruct (kept_take d ls n Hh) as [k <-]. apply extends_cut. Qed.

Lemma rewind_local (db : CDB) v c d ls anc : chains_inv db v -> sources_ok v -> localDBs db !! c = Some d -> v_local v !! c = Some ls ->
  match rewind_unless_future (cdb_RewindLocalSafe db c anc) "failed to rewind local-safe" with
  | (db', Ok _) => chains_inv db' (v_set_local v c (kept_up_to (bid_Number anc) ls)) /\ cd_emitted db' = cd_emitted db
  | (db', Err _) => chains_inv db' v /\ unrewindable ls anc
  | (_, Panic) => False
  end.
Proof.
  intros Hi Hs Hd Hls. unfold cdb_RewindLocalSafe. rewrite Hd. destruct (inv_local db v c d Hi Hd) as (ls0 & Hls0 & Hh).
  assert (ls0 = ls) as -> by congruence.
  pose proof (RewindToScope_exact d ls anc Hh (reliable_reads d ls Hh) (Hstore d)) as Hr.
  assert (forall d', holds d' ls -> chains_inv (set_localDB db c d') v) as Hsame.
  { intros d' Hd'. replace v with (v_set_local v c ls); [by apply inv_set_local|]. destruct v as [vl vs vx]. unfold v_set_local. f_equal. simpl in *.
    by apply insert_id. }
  destruct (RewindToScope d anc) as [d' [u|e|]]; simpl; [| |done].
  - destruct Hr as [Hh' _]. split; [by apply inv_set_local|done].
  - destruct Hr as (Hh' & Hfut & Htr). destruct (errors_Is e ErrFuture).
    + rewrite kept_up_to_all; [|intros l Hl; specialize (Hfut eq_refl l Hl); lia]. split; [by apply inv_set_local|done].
    + split; [by apply Hsame|]. unfold unrewindable. destruct (decide (Exists (fun l => src_id l = anc) ls)) as [He|Hn].
      * right. apply Exists_exists in He. destruct (Htr He) as (i & e' & Ht). by exists d, i, e'.
      * left. intros He. by apply Hn, Exists_exists.
Qed.

Lemma rewind_cross (db : CDB) v c anc : chains_inv db v ->
  match rewind_unless_future (cdb_RewindCrossSafe db c anc) "failed to rewind cross-safe" with
  | (db', Ok _) => exists xs, v_cross v !! c = Some xs /\ chains_inv db' (v_set_cross v c (kept_up_to (bid_Number anc) xs)) /\
      cd_emitted db' = cd_emitted db /\ extends xs (kept_up_to (bid_Number anc) xs)
  | (db', Err _) => chains_inv db' v /\ (v_cross v !! c = None \/ exists xs, v_cross v !! c = Some xs /\ unrewindable xs anc)
  | (_, Panic) => False
  end.
Proof.
  intros Hi. unfold cdb_RewindCrossSafe. destruct (crossDBs db !! c) as [x|] eqn:Hx.
  2: { simpl. split; [done|]. left. pose proof (ci_cross _ _ Hi c) as Hm. rewrite Hx in Hm. destruct (v_cross v !! c); [inversion Hm|done]. }
  destruct (inv_cross db v c x Hi Hx) as (xs & Hxs & Hh & Hpl).
  pose proof (RewindToScope_exact x xs anc Hh (reliable_reads x xs Hh) (Hstore x)) as Hr.
  assert (forall x', holds x' xs -> chains_inv (set_crossDB db c x') v) as Hsame.
  { intros x' Hx'. replace v with (v_set_cross v c xs); [by apply inv_set_cross|]. destruct v as [vl vs vx]. unfold v_set_cross. f_equal. simpl in *.
    by apply insert_id. }
  assert (extends xs (kept_up_to (bid_Number anc) xs)) as Hext by (by eapply kept_extends).
  assert (plain (kept_up_to (bid_Number anc) xs)) as Hpk.
  { destruct (kept_take x xs (bid_Number anc) Hh) as [k <-]. by apply plain_take. }
  destruct (RewindToScope x anc) as [x' [u|e|]]; simpl; [| |done].
  - destruct Hr as [Hh' _]. exists xs. split; [done|]. split; [by apply inv_set_cross|done].
  - destruct Hr as (Hh' & Hfut & Htr). destruct (errors_Is e ErrFuture).
    + exists xs. split; [done|]. split; [|done]. rewrite kept_up_to_all; [|intros l Hl; specialize (Hfut eq_refl l Hl); lia]. by apply inv_set_cross.
    + split; [by apply Hsame|]. right. exists xs. split; [done|]. unfold unrewindable. destruct (decide (Exists (fun l => src_id l = anc) xs)) as [He|Hn].
      * right. apply Exists_exists in He. destruct (Htr He) as (i & e' & Ht). by exists x, i, e'.
      * left. intros He. by apply Hn, Exists_exists.
Qed.

Lemma finalized_source_no_panic (db : CDB) v c : chains_inv db v -> finalized_source db c <> Panic.
Proof.
  intros Hi. unfold finalized_source. pose proof (Finalized_no_panic db v c Hi) as Hf.
  pose proof (cdb_FindSealedBlock_no_panic Hreliable db v c 0 Hi) as Hb. apply rbind_run_no_panic.
  - destruct (cdb_Finalized db c) as [b|e|]; [done| |done]. case_match; [by apply map_err_no_panic|done].
  - intros b _. by apply map_err_no_panic, (CrossDerivedToSourceRef_no_panic db v).
Qed.

(** The walk that [rewindL1ChainIfReorged] makes. *)
Lemma local_walk (db : CDB) v c localSafe fin : chains_inv db v -> sources_ok v -> cdb_LocalSafe db c = Ok localSafe ->
  exists d ls, localDBs db !! c = Some d /\ v_local v !! c = Some ls /\
  match l1_walk l1Node (S (S (Z.to_nat (bs_Number (sp_Source localSafe))))) db c fin (BlockSeal_ID (sp_Source localSafe)) with
  | WalkTo (Ok anc) => ancestor ls fin anc
  | WalkTo (Err _) => True
  | _ => False
  end.
Proof.
  intros Hi Hs Hls. unfold cdb_LocalSafe, chain_get in Hls. destruct (localDBs db !! c) as [d|] eqn:Hd; [|done].
  destruct (inv_local db v c d Hi Hd) as (ls & Hv & Hh). exists d, ls. split; [done|]. split; [done|]. cbn [rbind] in Hls.
  unfold Last in Hls. apply rbind_Ok in Hls as (l & Hl & Hls).
  destruct (latest_link_rep d ls (proj1 Hh)) as [(l' & Hl' & Hlast)|[e He]]; [|congruence]. assert (l' = l) as -> by congruence.
  unfold sealOrErr in Hls. case_match; [done|]. apply Ok_inj in Hls as <-. cbn [sp_Source].
  pose proof Hlast as Hlk. rewrite last_lookup in Hlk.
  apply (l1_walk_spec db c d ls fin Hd Hh (reliable_reads d ls Hh)).
  - intros a Ha. by eapply Hs.
  - split; [apply (source_range d ls l Hh); by eapply list_elem_of_lookup_2|].
    intros a Ha Hge Hcan. simpl in Hge. apply list_elem_of_lookup_1 in Ha as [k Hk]. apply (same_source_hash ls k (pred (length ls))); [apply Hh|done|done|].
    pose proof (links_ordered source_le ls k (pred (length ls)) a l step_source_le (proj2 Hh)) as Hle.
    apply lookup_lt_Some in Hk as Hkl. specialize (Hle ltac:(lia) Hk Hlk). unfold source_le in Hle. lia.
  - simpl. destruct (_ =? 0)%Z; lia.
Qed.

(** The L1 block that the latest local-safe block of a chain is derived from,
    with whether the L1 node has it. *)
Definition local_source (db : CDB) (c : Z) (id : BlockID) : Prop :=
  exists localSafe, cdb_LocalSafe db c = Ok localSafe /\ id = BlockSeal_ID (sp_Source localSafe).

(** What a check of a chain does.  It leaves the chain alone when the L1 node has
    the source of its latest local-safe block.  When the node has not, the
    local-safe and the cross-safe links are cut to those derived from blocks up
    to the latest common ancestor, and the rewind is announced.  It fails when
    there is no local-safe block, the node fails, no lower bound is known, the
    walk fails, or a database has links but none of the ancestor or refuses to
    truncate. *)
Inductive reorg_outcome (db : CDB) (v : cview) (c : Z) : CDB -> cview -> result unit -> Prop :=
  | ro_canonical id : local_source db c id -> canonical id -> reorg_outcome db v c db v (Ok tt)
  | ro_rewound id ls xs fin anc db' :
      local_source db c id -> ~ canonical id -> v_local v !! c = Some ls -> v_cross v !! c = Some xs ->
      finalized_source db c = Ok fin -> ancestor ls (L1BlockRef_ID fin) anc ->
      cd_emitted db' = cd_emitted db ++ [ChainRewoundEvent c] ->
      reorg_outcome db v c db'
        (v_set_cross (v_set_local v c (kept_up_to (bid_Number anc) ls)) c (kept_up_to (bid_Number anc) xs)) (Ok tt)
  | ro_not_checked e :
      (exists e', cdb_LocalSafe db c = Err e') \/ (exists id e', local_source db c id /\ l1_or_zero l1Node (bid_Number id) = Err e') ->
      reorg_outcome db v c db v (Err e)
  | ro_no_ancestor id e :
      local_source db c id -> ~ canonical id ->
      (exists e', finalized_source db c = Err e') \/
      (exists fin e', finalized_source db c = Ok fin /\
         l1_walk l1Node (S (S (Z.to_nat (bid_Number id)))) db c (L1BlockRef_ID fin) id = WalkTo (Err e')) ->
      reorg_outcome db v c db v (Err e)
  | ro_local_refused id ls fin anc db' e :
      local_source db c id -> ~ canonical id -> v_local v !! c = Some ls -> finalized_source db c = Ok fin ->
      ancestor ls (L1BlockRef_ID fin) anc -> unrewindable ls anc -> reorg_outcome db v c db' v (Err e)
  | ro_cross_refused id ls fin anc db' e :
      local_source db c id -> ~ canonical id -> v_local v !! c = Some ls -> finalized_source db c = Ok fin ->
      ancestor ls (L1BlockRef_ID fin) anc ->
      (v_cross v !! c = None \/ exists xs, v_cross v !! c = Some xs /\ unrewindable xs anc) ->
      reorg_outcome db v c db' (v_set_local v c (kept_up_to (bid_Number anc) ls)) (Err e).

Lemma rewindL1_spec (db : CDB) v c : chains_inv db v -> sources_ok v ->
  let '(db', r) := rewindL1ChainIfReorged l1Node db c in
  r <> Panic /\ exists v', chains_inv db' v' /\ chains_step (eq c) v v' /\ sources_ok v' /\ reorg_outcome db v c db' v' r.
Proof.
  intros Hi Hs. unfold rewindL1ChainIfReorged.
  assert (forall r : result unit, r <> Panic -> reorg_outcome db v c db v r -> r <> Panic /\ exists v', chains_inv db v' /\ chains_step (eq c) v v' /\ sources_ok v' /\
    reorg_outcome db v c db v' r) as Hsame.
  { intros r Hp Ho. split; [done|]. exists v. split_and!; [done|apply chains_step_refl|done|done]. }
  assert (cdb_LocalSafe db c <> Panic) as Hlp.
  { unfold cdb_LocalSafe, chain_get. destruct (localDBs db !! c) as [d|] eqn:Hd; [|done].
    destruct (inv_local db v c d Hi Hd) as (ls & _ & Hh). by apply (Last_no_panic d ls). }
  destruct (cdb_LocalSafe db c) as [localSafe|e|] eqn:Hloc; cbn [map_err rbind]; [| |done].
  2: { apply Hsame; [done|]. apply ro_not_checked. left. by exists e. }
  set (id := BlockSeal_ID (sp_Source localSafe)). assert (local_source db c id) as Hsrc by (by exists localSafe).
  pose proof (l1_or_zero_no_panic (bs_Number (sp_Source localSafe))) as Hzp.
  destruct (l1_or_zero l1Node (bs_Number (sp_Source localSafe))) as [can|e|] eqn:Hcan; cbn [map_err rbind]; [| |done].
  2: { apply Hsame; [done|]. apply ro_not_checked. right. by exists id, e. }
  cbv zeta. destruct (Z.eqb_spec (l1_Hash can) (bs_Hash (sp_Source localSafe))) as [Heq|Hne].
  { apply Hsame; [done|]. eapply ro_canonical; [exact Hsrc|]. by exists can. }
  assert (~ canonical id) as Hnc by (intros (r & Hr & Hh'); simpl in Hr; rewrite Hcan in Hr; apply Ok_inj in Hr as <-; done).
  pose proof (finalized_source_no_panic db v c Hi) as Hfp.
  destruct (finalized_source db c) as [fin|e|] eqn:Hfin; [| |done].
  2: { apply Hsame; [done|]. eapply ro_no_ancestor; [done|done|]. left. by exists e. }
  destruct (local_walk db v c localSafe (L1BlockRef_ID fin) Hi Hs Hloc) as (d & ls & Hd & Hls & Hwalk). fold id in Hwalk |- *.
  destruct (l1_walk _ _ _ _ _ _) as [[anc|e|]| | |] eqn:Hw; [| |done..].
  2: { apply Hsame; [done|]. eapply ro_no_ancestor; [done|done|]. right. exists fin, e. split; [done|]. exact Hw. }
  pose proof (rewind_local db v c d ls anc Hi Hs Hd Hls) as Hrl.
  assert (extends ls (kept_up_to (bid_Number anc) ls)) as Hext.
  { destruct (inv_local db v c d Hi Hd) as (ls0 & Hls0 & Hh). eapply kept_extends. by assert (ls0 = ls) as <- by congruence. }
  assert (chains_step (eq c) v (v_set_local v c (kept_up_to (bid_Number anc) ls))) as Hst1 by (by eapply step_local).
  assert (sources_ok (v_set_local v c (kept_up_to (bid_Number anc) ls))) as Hs1 by (by apply sources_ok_kept).
  destruct (rewind_unless_future (cdb_RewindLocalSafe db c anc) _) as [db1 [u|e|]]; [| |done].
  2: { destruct Hrl as [Hi1 Hun]. split; [done|]. exists v. split_and!; [done|apply chains_step_refl|done|by eapply ro_local_refused]. }
  destruct Hrl as [Hi1 Hem1]. pose proof (rewind_cross db1 _ c anc Hi1) as Hrc.
  destruct (rewind_unless_future (cdb_RewindCrossSafe db1 c anc) _) as [db2 [u'|e|]]; [| |done].
  - destruct Hrc as (xs & Hxs & Hi2 & Hem2 & Hextx). split; [done|]. eexists. split; [by eapply inv_fields; [..|exact Hi2]|].
    split; [|split; [|eapply ro_rewound; [done|done|done|exact Hxs|done|done|by rewrite <-Hem1, <-Hem2]]].
    + split; [apply moves_refl|apply (cs_local _ _ _ Hst1)|]. exact (moves_cross v c xs _ Hxs Hextx).
    + intros c' l0 a. apply Hs1.
  - destruct Hrc as [Hi2 Hun]. split; [done|]. eexists. split_and!; [exact Hi2|done|done|]. by eapply ro_cross_refused.
Qed.

Lemma rewind_chains_spec chains : forall (db : CDB) v, chains_inv db v -> sources_ok v ->
  let '(db', r) := rewind_chains l1Node db chains in r <> Panic /\ exists v', chains_inv db' v' /\ sources_ok v'.
Proof.
  induction chains as [|c chains IH]; intros db v Hi Hs; simpl; [split; [done|by exists v]|].
  pose proof (rewindL1_spec db v c Hi Hs) as Hr. destruct (rewindL1ChainIfReorged l1Node db c) as [db1 r].
  destruct Hr as (Hp & v1 & Hi1 & _ & Hs1 & _). destruct r; [by eapply IH..|done].
Qed.

(** ** Rewinding the events to the safe chain *)

Lemma unsafe_walk_spec (db : CDB) v c fin : chains_inv db v -> forall fuel height target,
  (Z.to_nat (height - fin + 1) < fuel)%nat ->
  match unsafe_walk fuel db c fin height target with
  | WalkTo t => (height < fin /\ t = target) \/
      exists h, fin <= h <= height /\ cdb_FindSealedBlock db c (u64 h) = Ok t /\
        ((exists s, cdb_LocalDerivedToSource db c (BlockSeal_ID t) = Ok s) \/ h = fin)
  | WalkStop => True
  | _ => False
  end.
Proof.
  intros Hi fuel. induction fuel as [|fuel IH]; intros height target Hf; [lia|]. cbn [unsafe_walk].
  destruct (Z.ltb_spec height fin) as [Hlt|Hge]; [by left|].
  pose proof (cdb_FindSealedBlock_no_panic Hreliable db v c (u64 height) Hi) as Hp.
  destruct (cdb_FindSealedBlock db c (u64 height)) as [t|e|] eqn:Hfind; [|done|done].
  pose proof (LocalDerivedToSource_no_panic db v c (BlockSeal_ID t) Hi) as Hp'.
  destruct (cdb_LocalDerivedToSource db c (BlockSeal_ID t)) as [s|e|] eqn:Hder; [| |done].
  - right. exists height. split; [lia|]. split; [done|]. left. by exists s.
  - destruct (errors_Is e ErrConflict || errors_Is e ErrFuture); [|done]. specialize (IH (height - 1) t ltac:(lia)).
    destruct (unsafe_walk fuel db c fin (height - 1) t) as [t'| | |]; [|done..]. right. destruct IH as [[Hlt ->]|(h & Hh & Hfh & Hc)].
    + exists height. split; [lia|]. split; [done|]. right. lia.
    + exists h. split; [lia|done].
Qed.

(** After a derived block the events database is left alone, or ends with a
    block that local-safe data confirms, or with the lowest block of the walk. *)
Lemma handleLocalDerived_spec (db : CDB) v c p : chains_inv db v ->
  let '(db', r) := handleLocalDerivedEvent db c p in
  r <> Panic /\ exists v', chains_inv db' v' /\ log_moves c v v' /\
    (db' = db \/ cd_emitted db' = cd_emitted db \/ cd_emitted db' = cd_emitted db ++ [ChainRewoundEvent c] /\
       exists t p1 evs, v_logs v' !! c = Some (ALog p1 (Some evs) evs) /\ p_hash (advs p1 evs) = bs_Hash t /\
         p_num (advs p1 evs) = bs_Number t /\ p_since (advs p1 evs) = 0).
Proof.
  intros Hi. unfold handleLocalDerivedEvent. cbv zeta.
  assert (forall r : result unit, r <> Panic -> r <> Panic /\ exists v', chains_inv db v' /\ log_moves c v v' /\
    (db = db \/ cd_emitted db = cd_emitted db \/ cd_emitted db = cd_emitted db ++ [ChainRewoundEvent c] /\
       exists t p1 evs, v_logs v' !! c = Some (ALog p1 (Some evs) evs) /\ p_hash (advs p1 evs) = bs_Hash t /\
         p_num (advs p1 evs) = bs_Number t /\ p_since (advs p1 evs) = 0)) as Hsame.
  { intros r Hp. split; [done|]. exists v. split; [done|]. split; [by left|by left]. }
  pose proof (cdb_FindSealedBlock_no_panic Hreliable db v c (bs_Number (sp_Derived p)) Hi) as Hfp.
  destruct (cdb_FindSealedBlock db c (bs_Number (sp_Derived p))) as [u|e|]; [|by apply Hsame|done].
  destruct (bs_Hash u =? bs_Hash (sp_Derived p)); [by apply Hsame|]. pose proof (Finalized_no_panic db v c Hi) as Hfin.
  destruct (match cdb_Finalized db c with Ok b => Ok (Some (bs_Number b)) | Err e => Ok (if errors_Is e ErrFuture then Some 0 else None) | Panic => Panic end)
    as [[fin|]|e|] eqn:Hf; [|by apply Hsame..|by destruct (cdb_Finalized db c)].
  set (height := int_of _). pose proof (unsafe_walk_spec db v c (int_of fin) Hi (S (Z.to_nat (height - int_of fin + 1))) height zeroSeal ltac:(lia)) as Hw.
  destruct (unsafe_walk _ _ _ _ _ _) as [t| | |]; [|by apply Hsame|done..]. unfold cdb_RewindLogs.
  destruct (logDBs db !! c) as [d|] eqn:Hd; [|by apply Hsame].
  destruct (log_request Hreliable db v c d (RRewind (BlockSeal_ID t)) Hi Hd (fun _ _ => I)) as (a & a' & b & Ha & Hs & Hi1 & Hres).
  change (db_Rewind d (BlockSeal_ID t)) with (serve d (RRewind (BlockSeal_ID t))).
  assert (log_moves c v (v_set_log v c a')) as Hm by (right; exists a, a'; split_and!; [done|by eexists _, b|done]).
  destruct (serve d (RRewind (BlockSeal_ID t))) as [d' [u'|e|]]; simpl in Hi1, Hres |- *; [| |done].
  - split; [done|]. exists (v_set_log v c a'). split; [by eapply inv_fields; [..|exact Hi1]|]. split; [done|]. right. right. split; [done|].
    subst b. inversion Hs as [| | | | | | | | | |a0 p1 s head evs Hst (evs' & Hs' & Hn & Hz & Hhash)|]; subst.
    exists t, p1, evs. simpl. by rewrite lookup_insert_eq.
  - split; [done|]. exists (v_set_log v c a'). split; [done|]. split; [done|]. right. by left.
Qed.

End rewinding.

(** ** The confirmation depth *)

(** C37: L1 blocks are used only below the confirmation depth.  While the tip
    is at least the depth above zero, the accessor answers a block only when
    it lies the depth below the tip, so every block that the rewinder takes
    for canonical does; the tip never goes back; and a new tip that is not the
    child of the old one is reported. *)
Theorem l1_access_bounded p : is_u64 (bid_Number (l1a_tip p)) -> is_u64 (l1a_confDepth p) -> l1a_confDepth p <= bid_Number (l1a_tip p) ->
  (forall n r, l1a_BlockRefByNumber p n = Ok r -> n + l1a_confDepth p <= bid_Number (l1a_tip p)) /\
  (forall id, bid_Hash id <> 0 -> canonical (l1a_BlockRefByNumber p) id -> bid_Number id + l1a_confDepth p <= bid_Number (l1a_tip p)) /\
  (forall ref, let '(p', evs) := l1a_onLatest p ref in bid_Number (l1a_tip p) <= bid_Number (l1a_tip p') /\
     (p' = p /\ evs = [] \/ l1a_tip p' = L1BlockRef_ID ref /\ (evs = [] <-> l1_ParentHash ref = bid_Hash (l1a_tip p)))).
Proof.
  intros Ht Hd Hle. assert (forall n r, l1a_BlockRefByNumber p n = Ok r -> n + l1a_confDepth p <= bid_Number (l1a_tip p)) as Hby.
  { intros n r Hr. unfold l1a_BlockRefByNumber in Hr. destruct (l1a_client p) as [cl|]; [|done].
    rewrite u64_small in Hr by (unfold is_u64 in *; lia). destruct (Z.ltb_spec (bid_Number (l1a_tip p) - l1a_confDepth p) n); [done|lia]. }
  split; [done|]. split.
  - intros id Hnz (r & Hr & Hh). apply (Hby _ r). unfold l1_or_zero in Hr.
    destruct (l1a_BlockRefByNumber p (bid_Number id)) as [x|e|]; [done| |done]. case_match; [|done]. apply Ok_inj in Hr as <-. by destruct Hnz.
  - intros ref. unfold l1a_onLatest. destruct (l1_Hash ref =? bid_Hash (l1a_tip p)); [split; [done|by left]|].
    destruct (Z.ltb_spec (l1_Number ref) (bid_Number (l1a_tip p))); [split; [done|by left]|]. split; [done|]. right. split; [done|].
    destruct (Z.eqb_spec (l1_ParentHash ref) (bid_Hash (l1a_tip p))); simpl; done.
Qed.

(** ** A reorg of the last L1 block *)

Module RewinderExamples.
Section examples.
Import ChainsExamples.
#[local] Typeclasses Opaque LogStore LinkStore.
#[local] Existing Instances log_store log_laws link_store link_laws hash order one_chain.

Definition reorg_start : ChainsDB LogStore LinkStore :=
  (chains_run (chains_run anchored (CEvent (LocalDerivedEvent 901 {| rp_Source := Examples.S6; rp_Derived := Examples.D10 |} 7))).1
     (CEvent (FinalizedL1RequestEvent Examples.S5))).1.

(** The L1 node has block 5, and another block 6. *)
Definition l1 (n : Z) : result L1BlockRef :=
  if n =? 5 then Ok Examples.S5 else if n =? 6 then Ok (Examples.block 6 906 105) else Err NotFound.

Definition anchor_pos : pos := first_pos (L1BlockRef_ID Examples.D10) (l1_Time Examples.D10).
Definition reorg_links : list LinkEntry := [link_of Examples.S5 Examples.D10 0 0; link_of Examples.S6 Examples.D10 0 0].
Definition reorg_view : cview :=
  {| v_logs := {[901 := ALog anchor_pos (Some []) []]}; v_local := {[901 := reorg_links]};
     v_cross := {[901 := [link_of Examples.S5 Examples.D10 0 0]]} |}.

Lemma reorg_history : holds_history (repeat_entries anchor_pos) anchor_pos [].
Proof.
  split; [apply stream_repeat|constructor|split_and!; vm_compute; (done || split; congruence)|done|by eexists|].
  intros [|i] Hi; [by do 3 eexists|simpl in Hi; lia].
Qed.

Lemma reorg_logs : exists d, logDBs reorg_start = {[901 := d]} /\ logs_inv d (ALog anchor_pos (Some []) []).
Proof.
  eexists. split; [vm_compute; reflexivity|]. split; [split; vm_compute; [done|lia|done]|].
  exists (repeat_entries anchor_pos), [], no_log. split; [vm_compute; reflexivity|].
  split; [split; [apply reorg_history|by split; vm_compute]|]. split; [vm_compute; reflexivity|].
  rewrite app_nil_r. split; [apply reorg_history|by split; vm_compute].
Qed.

Lemma reorg_local : exists d, localDBs reorg_start = {[901 := d]} /\ holds d reorg_links.
Proof.
  eexists. split; [vm_compute; reflexivity|]. split.
  - split; [split; vm_compute; [done | lia | done] | vm_compute; reflexivity |].
    repeat (apply Forall_cons_2; [split; [split|split|]; vm_compute; (done || split; congruence)|]). apply Forall_nil_2.
  - split; [repeat split; simpl; (done || lia || auto with lia)|repeat constructor; vm_compute; congruence|by intros l [= <-]|repeat constructor].
Qed.

Lemma reorg_cross : exists x, crossDBs reorg_start = {[901 := x]} /\ holds x [link_of Examples.S5 Examples.D10 0 0].
Proof.
  eexists. split; [vm_compute; reflexivity|]. split.
  - split; [split; vm_compute; [done | lia | done] | vm_compute; reflexivity |].
    repeat (apply Forall_cons_2; [split; [split|split|]; vm_compute; (done || split; congruence)|]). apply Forall_nil_2.
  - split; [done|repeat constructor; vm_compute; congruence|by intros l [= <-]|repeat constructor].
Qed.

Lemma reorg_inv : chains_inv reorg_start reorg_view.
Proof.
  destruct reorg_logs as (g & Hg & Hgi), reorg_local as (d & Hd & Hdi), reorg_cross as (x & Hx & Hxi).
  split; rewrite ?Hg, ?Hd, ?Hx; apply map_Forall2_singleton; [done|done|]. split; [done|]. split; [by repeat constructor|done].
Qed.

Lemma reorg_sources : sources_ok reorg_view.
Proof.
  intros c ls l Hls Hl. simpl in Hls. apply lookup_singleton_Some in Hls as [_ <-].
  repeat (apply elem_of_cons in Hl as [->|Hl]; [done|]). by apply elem_of_nil in Hl.
Qed.

Definition reorg_end := rewindL1ChainIfReorged l1 reorg_start 901.

Lemma truncate_io (s : LinkStore) i e : (st_Truncate s i).2 = Err e -> errors_Is e ErrFuture = false.
Proof.
  unfold st_Truncate, link_store, EntryDB_store, db_Truncate, f_Truncate, FaultyFile_access.
  destruct (ff_faults (db_data s)) as [|[n|] faults]; cbn; intros He; try discriminate He. by injection He as <-.
Qed.


(** Without a finalized block, and with a first block that is not block 0, the
    same reorg cannot be handled. *)
Lemma rewind_needs_genesis :
  let db := (chains_run anchored (CEvent (LocalDerivedEvent 901 {| rp_Source := Examples.S6; rp_Derived := Examples.D10 |} 7))).1 in
  exists w e, (rewindL1ChainIfReorged l1 db 901).2 = Err (Wrap w e) /\ errors_Is e ErrSkipped = true.
Proof. vm_compute. do 2 eexists. split; reflexivity. Qed.

Lemma l1_access_bounded_witness :
  let src := {| l1s_BlockRefByNumber n := Ok (Examples.block n 1 0); l1s_BlockRefByLabel _ := Err NotFound |} in
  let p := (l1a_onLatest (NewL1Accessor (Some src)) (Examples.block 9 109 108)).1 in
  l1a_BlockRefByNumber p 7 = Ok (Examples.block 7 1 0) /\ 7 + 2 <= 9 /\ forall r, l1a_BlockRefByNumber p 8 <> Ok r.
Proof.
  intros src p. assert (Hr : l1a_BlockRefByNumber p 7 = Ok (Examples.block 7 1 0)) by (vm_compute; reflexivity).
  assert (Hp : is_u64 (bid_Number (l1a_tip p)) /\ is_u64 (l1a_confDepth p) /\ l1a_confDepth p <= bid_Number (l1a_tip p)).
  { vm_compute. split_and!; congruence. }
  destruct Hp as (Ht & Hd & Hle). destruct (l1_access_bounded p Ht Hd Hle) as [Hb _]. split; [exact Hr|]. split; [exact (Hb 7 _ Hr)|].
  intros r Hr8. specialize (Hb 8 r Hr8). vm_compute in Hb. apply Hb. reflexivity.
Defined.

(** Below the confirmation depth the accessor answers blocks of any height. *)
Lemma young_chain_unprotected :
  let src := {| l1s_BlockRefByNumber n := Ok (Examples.block n 1 0); l1s_BlockRefByLabel _ := Err NotFound |} in
  let p := (l1a_onLatest (NewL1Accessor (Some src)) (Examples.block 1 101 0)).1 in
  l1a_BlockRefByNumber p 1000 = Ok (Examples.block 1000 1 0) /\
  l1a_BlockRefByNumber (l1a_onLatest p (Examples.block 3 103 102)).1 2 = Err NotFound.
Proof. vm_compute. split; reflexivity. Qed.
End examples.
End RewinderExamples.
