(* ===== verification/Processors.v ===== *)
(** * Indexing the events of the chains

    [backend/processors]: executing_message.go, log_processor.go,
    chain_processor.go, and the message hashes of [supervisor/types/types.go].
    The clients of the chain processor and the decoder of executing messages,
    which belongs to the execution client's library, are parameters.  The
    parallel fetches read the database before anything is written, and their
    results are taken in order. *)

From stdpp Require Import base gmap sets list.
From S2P Require Import Prelude EthTypes L1Logs EntryDB FromDA DepSet CrossGraph LogDB ChainsDB.

(** ** Messages *)

(** [interoptypes.Message] *)
Record InteropMessage : Type := {
  im_Origin : Z;
  im_BlockNumber : Z;
  im_LogIndex : Z;
  im_Timestamp : Z;
  im_ChainID : Z;
  im_PayloadHash : Z }.

Class InteropLib : Type := {
  InteropCrossL2InboxAddress : Z;
  ExecutingMessageEventTopic : Z;
  DecodeEvent : list Z -> bytes -> result InteropMessage }.

Section messages.
Context {KC : DepSet.Keccak} {DS : DependencySet} {IL : InteropLib}.

Definition PayloadHashToLogHash (payloadHash addr : Z) : Z :=
  be_decode (keccak256 (be_encode 20 addr ++ be_encode 32 payloadHash)).

Definition LogToMessagePayload (l : Log) : bytes :=
  concat (be_encode 32 <$> lg_Topics l) ++ lg_Data l.

Definition logToLogHash (l : Log) : Z :=
  PayloadHashToLogHash (be_decode (keccak256 (LogToMessagePayload l))) (lg_Address l).

Definition DecodeExecutingMessageLog (l : Log) : result (option ExecutingMessage) :=
  if negb (lg_Address l =? InteropCrossL2InboxAddress) then Ok None
  else
    match lg_Topics l with
    | [topic; _] =>
        if negb (topic =? ExecutingMessageEventTopic) then Ok None
        else
          let* msg := map_err (Wrap "invalid executing message") (DecodeEvent (lg_Topics l) (lg_Data l)) in
          let logHash := PayloadHashToLogHash (im_PayloadHash msg) (im_Origin msg) in
          let* index := ChainIndexFromID (im_ChainID msg) in
          Ok (Some {| em_Chain := index; em_BlockNum := im_BlockNumber msg; em_LogIdx := im_LogIndex msg;
                      em_Timestamp := im_Timestamp msg; em_Hash := logHash |})
    | _ => Ok None
    end.
End messages.

(** ** The processors *)

(** [Source] *)
Record Source : Type := {
  BlockRefByNumber : Z -> result L1BlockRef;
  FetchReceipts : Z -> result (list Receipt) }.

Record ChainProcessor : Type := {
  cp_clients : list Source;
  cp_activeClient : option Source;
  cp_clientIndex : Z;
  cp_clientsTried : Z;
  cp_chain : Z;
  cp_maxFetcherThreads : Z }.

Definition NewChainProcessor (chain : Z) : ChainProcessor :=
  {| cp_clients := []; cp_activeClient := None; cp_clientIndex := 0; cp_clientsTried := 0; cp_chain := chain;
     cp_maxFetcherThreads := 10 |}.

Definition AddSource (s : ChainProcessor) (cl : Source) : ChainProcessor :=
  let clients := cp_clients s ++ [cl] in
  {| cp_clients := clients;
     cp_activeClient := match cp_activeClient s with None => head clients | a => a end;
     cp_clientIndex := cp_clientIndex s; cp_clientsTried := cp_clientsTried s; cp_chain := cp_chain s;
     cp_maxFetcherThreads := cp_maxFetcherThreads s |}.

Definition set_clientsTried (s : ChainProcessor) (n : Z) : ChainProcessor :=
  {| cp_clients := cp_clients s; cp_activeClient := cp_activeClient s; cp_clientIndex := cp_clientIndex s;
     cp_clientsTried := n; cp_chain := cp_chain s; cp_maxFetcherThreads := cp_maxFetcherThreads s |}.

Definition nextActiveClient (s : ChainProcessor) : ChainProcessor :=
  if (length (cp_clients s) =? 0)%nat then s
  else
    let clientIndex := (cp_clientIndex s + 1) mod Z.of_nat (length (cp_clients s)) in
    {| cp_clients := cp_clients s; cp_activeClient := cp_clients s !! Z.to_nat clientIndex; cp_clientIndex := clientIndex;
       cp_clientsTried := cp_clientsTried s + 1; cp_chain := cp_chain s; cp_maxFetcherThreads := cp_maxFetcherThreads s |}.

Section processors.
Context {Sl Sd : Type} {ESl : EntryStore Sl} {ESd : EntryStore Sd}.
Context {MO : MapOrder} {KC : DepSet.Keccak} {DS : DependencySet} {IL : InteropLib}.

Abbreviation CDB := (ChainsDB Sl Sd).

(** The body of the loops of [ProcessLogs]. *)
Definition process_log (db : CDB) (chain : Z) (block : L1BlockRef) (l : Log) : CDB * result unit :=
  match map_err (Wrap "invalid log from block") (DecodeExecutingMessageLog l) with
  | Ok execMsg =>
      let '(db, r) := cdb_AddLog db chain (logToLogHash l) (L1BlockRef_ParentID block) (u32 (lg_Index l)) execMsg in
      (db, map_err (Wrap "failed to add log from block") r)
  | Err e => (db, Err e)
  | Panic => (db, Panic)
  end.

Fixpoint process_logs (db : CDB) (chain : Z) (block : L1BlockRef) (logs : list Log) : CDB * result unit :=
  match logs with
  | [] => (db, Ok tt)
  | l :: logs' =>
      match process_log db chain block l with
      | (db, Ok _) => process_logs db chain block logs'
      | r => r
      end
  end.

Fixpoint process_receipts (db : CDB) (chain : Z) (block : L1BlockRef) (rcpts : list Receipt) : CDB * result unit :=
  match rcpts with
  | [] => (db, Ok tt)
  | rcpt :: rcpts' =>
      match process_logs db chain block (rc_Logs rcpt) with
      | (db, Ok _) => process_receipts db chain block rcpts'
      | r => r
      end
  end.

Definition ProcessLogs (db : CDB) (chain : Z) (block : L1BlockRef) (rcpts : list Receipt) : CDB * result unit :=
  match process_receipts db chain block rcpts with
  | (db, Ok _) =>
      let '(db, r) := cdb_SealBlock db chain block in (db, map_err (Wrap "failed to seal block") r)
  | r => r
  end.

Definition process (db : CDB) (chain : Z) (next : L1BlockRef) (receipts : list Receipt) : CDB * result unit :=
  match ProcessLogs db chain next receipts with
  | (db, Err err) =>
      if l1_Number next =? 0 then (db, Ok tt)
      else
        match cdb_Rewind db chain (L1BlockRef_ParentID next) with
        | (db, Panic) => (db, Panic)
        | (db, _) => (db, Err err)
        end
  | r => r
  end.

Definition nextNum (db : CDB) (chain : Z) : Z :=
  match cdb_LatestBlockNum db chain with None => 0 | Some headNum => headNum +u 1 end.

(** The numbers to fetch. *)
Fixpoint fetch_nums (count : nat) (i last : Z) : list Z :=
  match count with
  | O => []
  | S count => if i <=? last then i :: fetch_nums count (i +u 1) last else []
  end.

(** One fetch. *)
Definition fetch (db : CDB) (s : ChainProcessor) (num : Z) : result (L1BlockRef * list Receipt) :=
  match cp_activeClient s with
  | None => Panic
  | Some client =>
      let* next := BlockRefByNumber client num in
      let* _ := cdb_AcceptedBlock db (cp_chain s) (L1BlockRef_ID next) in
      let* receipts := FetchReceipts client (l1_Hash next) in
      Ok (next, receipts)
  end.

(** The results in order; the answer counts the processed blocks. *)
Fixpoint process_results (db : CDB) (chain : Z) (i : Z) (results : list (result (L1BlockRef * list Receipt)))
  : CDB * Z * result unit :=
  match results with
  | [] => (db, i, Ok tt)
  | Err e :: _ => (db, i, Err (Wrap "failed to fetch block" e))
  | Panic :: _ => (db, i, Panic)
  | Ok (next, receipts) :: results' =>
      match process db chain next receipts with
      | (db, Ok _) => process_results db chain (i + 1) results'
      | (db, Err e) => (db, i, Err (Wrap "failed to process block" e))
      | (db, Panic) => (db, i, Panic)
      end
  end.

Definition rangeUpdate (db : CDB) (s : ChainProcessor) (target : Z) : CDB * Z * result unit :=
  if (length (cp_clients s) =? 0)%nat then (db, 0, Err ErrNoRPCSource)
  else
    let nums := fetch_nums (Z.to_nat (Z.max 1 (cp_maxFetcherThreads s))) (nextNum db (cp_chain s)) target in
    if (length nums =? 0)%nat then (db, 0, Ok tt)
    else process_results db (cp_chain s) 0 (fetch db s <$> nums).

Definition onRequest (db : CDB) (s : ChainProcessor) (target : Z) : CDB * ChainProcessor * result unit :=
  match rangeUpdate db s target with
  | (db, processed, Err err) =>
      if processed =? 0 then
        if cp_clientsTried s <? Z.of_nat (length (cp_clients s)) then
          (cd_emit db (ChainProcessEvent (cp_chain s) target), nextActiveClient s, Ok tt)
        else (db, set_clientsTried s 0, Ok tt)
      else (db, s, Ok tt)
  | (db, _, Ok _) =>
      let s := set_clientsTried s 0 in
      if nextNum db (cp_chain s) <=? target then (cd_emit db (ChainProcessEvent (cp_chain s) target), s, Ok tt)
      else (db, s, Ok tt)
  | (db, _, Panic) => (db, s, Panic)
  end.

Definition cp_OnEvent (db : CDB) (s : ChainProcessor) (ev : superevent) : CDB * ChainProcessor * result bool :=
  match ev with
  | ChainProcessEvent chain target =>
      if negb (chain =? cp_chain s) then (db, s, Ok false)
      else let '(db, s, r) := onRequest db s target in (db, s, let* _ := r in Ok true)
  | _ => (db, s, Ok false)
  end.
End processors.
