(* ===== verification/Indexing.v ===== *)
(** * Indexing: what the processors store

    A processed block is in the history with its logs and its seal, in order;
    a range is indexed block by block; requests without progress end. *)

From stdpp Require Import base gmap sets list relations.
From S2P Require Import Prelude EthTypes L1Logs EntryDB FromDA FromDASearch FromDALinks DepSet CrossGraph LogDB LogCodec LogStream LogRead LogSearch LogWrite LogRefine LogQuery ChainsDB ChainsLinks ChainsInv ChainsOps ChainsTheorems RewinderTheorems Processors.

Section events.
Context {KC : DepSet.Keccak} {DS : DependencySet} {IL : InteropLib}.

(** The events that the logs of a block are. *)
Fixpoint log_events (logs : list Log) : result (list event) :=
  match logs with
  | [] => Ok []
  | l :: logs' =>
      let* m := DecodeExecutingMessageLog l in
      let* es := log_events logs' in
      Ok (EvLog (logToLogHash l) m :: es)
  end.

Definition seal_event (b : L1BlockRef) : event := EvSeal (l1_ParentHash b) (l1_Hash b) (l1_Number b) (l1_Time b).

Definition block_events (b : L1BlockRef * list Receipt) : result (list event) :=
  let* es := log_events (concat (rc_Logs <$> b.2)) in Ok (es ++ [seal_event b.1]).

Fixpoint chain_events (bs : list (L1BlockRef * list Receipt)) : result (list event) :=
  match bs with
  | [] => Ok []
  | b :: bs' => let* es := block_events b in let* es' := chain_events bs' in Ok (es ++ es')
  end.

(** Logs as the clients send them: fields in range, and messages that the log
    database can hold. *)
Record log_ok (l : Log) : Prop := {
  lo_hash : is_hash (logToLogHash l);
  lo_index : 0 <= lg_Index l /\ is_u32 (lg_Index l + 1);
  lo_decode : DecodeExecutingMessageLog l <> Panic;
  lo_exec m : DecodeExecutingMessageLog l = Ok (Some m) -> exec_ok m }.

Definition block_ok (b : L1BlockRef * list Receipt) : Prop :=
  seal_ok b.1 /\ Forall log_ok (concat (rc_Logs <$> b.2)).

Lemma log_events_app a b : log_events (a ++ b) = let* x := log_events a in let* y := log_events b in Ok (x ++ y).
Proof.
  induction a as [|l a IH]; simpl; [by destruct (log_events b)|]. destruct (DecodeExecutingMessageLog l); simpl; [|done..].
  rewrite IH. destruct (log_events a); simpl; [|done..]. by destruct (log_events b).
Qed.
End events.

Section indexing.
Context {Sl Sd : Type} {ESl : EntryStore Sl} {ESd : EntryStore Sd}.
Context {LSl : EntryStoreLaws Sl logs_EntrySize} {LSd : EntryStoreLaws Sd EntrySize}.
Context {MO : MapOrder} {KC : DepSet.Keccak} {DS : DependencySet} {IL : InteropLib}.
Hypothesis Hreliable : forall (s : Sl) i e, st_ok s -> st_view s !! i = Some e -> st_Read s (Z.of_nat i) = Ok e.

Abbreviation CDB := (ChainsDB Sl Sd).

Lemma v_set_log_id v c a : v_logs v !! c = Some a -> v_set_log v c a = v.
Proof. intros Ha. destruct v as [l o x]. unfold v_set_log. simpl in *. by rewrite insert_id. Qed.

Lemma v_set_log_twice v c a a' : v_set_log (v_set_log v c a) c a' = v_set_log v c a'.
Proof. unfold v_set_log. simpl. by rewrite insert_insert_eq. Qed.

Lemma alog_next_nonempty a a' : alog_next a a' -> a <> AEmpty -> a' <> AEmpty.
Proof. intros (r & b & Hs) Ha. by inversion Hs; subst. Qed.

(** The events [evs] are stored. *)
Definition kept_in (p1 : pos) (evs : list event) (a : alog) : Prop :=
  match a with
  | ALog q (Some s) e => q = p1 /\ evs `prefix_of` s /\ evs `prefix_of` e
  | AStuck q (Some s) => q = p1 /\ evs `prefix_of` s
  | _ => False
  end.

(** Without a rewind nothing that is stored is lost. *)
Lemma kept_step p1 evs a r a' b : alog_step a r a' b -> match r with RRewind _ => False | _ => True end ->
  kept_in p1 evs a -> kept_in p1 evs a'.
Proof.
  intros Hs Hr Hg. inversion Hs; subst; simpl in *; try done.
  all: repeat match goal with x : option (list event) |- _ => destruct x; [|done] end; destruct Hg as (-> & Hp & Hp');
    split_and!; try done; by apply prefix_app_r.
Qed.

(** The last block of the log is the parent of the block. *)
Definition follows (a : alog) (block : L1BlockRef) : Prop :=
  match a with ALog p1 _ evs => p_hash (advs p1 evs) = bid_Hash (L1BlockRef_ParentID block) | _ => False end.

(** What a failed attempt to store a block leaves: the database is not empty,
    nothing stored is lost, and nothing is new unless the block follows. *)
Definition failed (v : cview) (c : Z) (a : alog) (block : L1BlockRef) (db' : CDB) : Prop :=
  exists a', a' <> AEmpty /\ (forall p1 evs, kept_in p1 evs a -> kept_in p1 evs a') /\ (a' = a \/ follows a block) /\
    chains_inv db' (v_set_log v c a').

Lemma failed_same v c a block db : chains_inv db v -> v_logs v !! c = Some a -> a <> AEmpty -> failed v c a block db.
Proof. intros Hi Ha Hne. exists a. split_and!; [done|done|by left|]. by rewrite v_set_log_id. Qed.

(** A refused event leaves the log alone, or follows the last block. *)
Lemma log_step_follows a h block i m a' b : alog_step a (RLog h (L1BlockRef_ParentID block) i m) a' b ->
  (a' = a /\ b = false) \/ follows a block.
Proof.
  intros Hs. inversion Hs; subst; [..|by left]; try by left.
  all: right; simpl; match goal with H : log_fits _ _ _ = true |- _ => unfold log_fits in H; rewrite !andb_true_iff, !Z.eqb_eq in H end; naive_solver.
Qed.

Lemma seal_step_follows a block t a' b : a <> AEmpty -> alog_step a (RSeal (l1_ParentHash block) (L1BlockRef_ID block) t) a' b ->
  a' = a \/ follows a block.
Proof.
  intros Hne Hs. inversion Hs; subst; try done; try by left.
  all: right; simpl; match goal with H : seal_fits _ _ _ _ = true |- _ => unfold seal_fits in H; rewrite !andb_true_iff, !Z.eqb_eq in H end; naive_solver.
Qed.

Lemma process_log_spec (db : CDB) v c a block l : chains_inv db v -> v_logs v !! c = Some a -> a <> AEmpty -> log_ok l ->
  match process_log db c block l with
  | (db', Ok _) => exists p1 s evs m, a = ALog p1 s evs /\ DecodeExecutingMessageLog l = Ok m /\
      follows a block /\
      let evs' := evs ++ [EvLog (logToLogHash l) m] in chains_inv db' (v_set_log v c (ALog p1 (Some evs') evs'))
  | (db', Err _) => failed v c a block db'
  | (_, Panic) => False
  end.
Proof.
  intros Hi Ha Hne [Hh [Hx0 Hx] Hnp Hm]. unfold process_log.
  destruct (DecodeExecutingMessageLog l) as [m|e|] eqn:Hdec; cbn [map_err]; [| |done].
  2: { by apply failed_same. }
  unfold cdb_AddLog. destruct (logDBs db !! c) as [d|] eqn:Hd.
  2: { simpl. by apply failed_same. }
  assert (u32 (lg_Index l) = lg_Index l) as Hu by (apply Z.mod_small; unfold is_u32 in Hx; lia). rewrite Hu. set (r := RLog (logToLogHash l) (L1BlockRef_ParentID block) (lg_Index l) m).
  destruct (log_request Hreliable db v c d r Hi Hd) as (a0 & a' & b & Ha0 & Hs & Hi' & Hres).
  { intros a0 Ha0. assert (a0 = a) as -> by congruence. split_and!; [done..|]. destruct m as [m|]; [by apply Hm|done]. }
  assert (a0 = a) as -> by congruence. change (db_AddLog d _ _ _ _) with (serve d r).
  destruct (serve d r) as [d' [u|e|]]; simpl in Hi', Hres |- *; [| |done].
  - subst b. destruct (log_step_follows _ _ _ _ _ _ _ Hs) as [[_ ?]|Hfol]; [done|].
    inversion Hs; subst; simplify_eq. by eexists _, _, _, m.
  - exists a'. assert (alog_next a a') as Hn by (by exists r, b).
    split_and!; [by eapply alog_next_nonempty| |by destruct (log_step_follows _ _ _ _ _ _ _ Hs) as [[-> _]|?]; [left|right]|done]. intros p1 evs. by eapply kept_step.
Qed.

(** The logs of a receipt, or of all of them. *)
Lemma process_logs_spec block logs : forall (db : CDB) v c a, chains_inv db v -> v_logs v !! c = Some a -> a <> AEmpty -> Forall log_ok logs ->
  match process_logs db c block logs with
  | (db', Ok _) => exists es, log_events logs = Ok es /\
      ((es = [] /\ db' = db) \/
       exists p1 s evs, a = ALog p1 s evs /\ follows a block /\ chains_inv db' (v_set_log v c (ALog p1 (Some (evs ++ es)) (evs ++ es))))
  | (db', Err _) => failed v c a block db'
  | (_, Panic) => False
  end.
Proof.
  induction logs as [|l logs IH]; intros db v c a Hi Ha Hne Hok; cbn [process_logs].
  { exists []. split; [done|]. by left. }
  apply Forall_cons_1 in Hok as [Hl Hok]. pose proof (process_log_spec db v c a block l Hi Ha Hne Hl) as Hp.
  destruct (process_log db c block l) as [db1 [u|e|]]; [| |done].
  2: { done. }
  destruct Hp as (p1 & s & evs & m & -> & Hdec & Hfol & Hi1). set (evs1 := evs ++ [EvLog (logToLogHash l) m]) in *.
  specialize (IH db1 (v_set_log v c (ALog p1 (Some evs1) evs1)) c (ALog p1 (Some evs1) evs1) Hi1). simpl in IH.
  rewrite lookup_insert_eq in IH. specialize (IH eq_refl ltac:(done) Hok).
  destruct (process_logs db1 c block logs) as [db2 [u'|e|]]; [| |done].
  - destruct IH as (es & Hes & Hcase). exists (EvLog (logToLogHash l) m :: es). simpl. rewrite Hdec, Hes. split; [done|]. right.
    exists p1, s, evs. split; [done|]. split; [done|]. destruct Hcase as [[-> ->]|(p & s' & evs' & [= <- _ <-] & _ & Hi2)]; [done|].
    rewrite v_set_log_twice in Hi2. unfold evs1 in Hi2. by rewrite <-!app_assoc in Hi2.
  - destruct IH as (a' & Hn & Hg & _ & Hi'). exists a'. split; [done|]. rewrite v_set_log_twice in Hi'. split; [|split; [by right|done]].
    intros q es Hq. apply Hg. simpl in Hq |- *. destruct s; [|done]. destruct Hq as (-> & _ & Hpre).
    split_and!; [done|by apply prefix_app_r..].
Qed.

Lemma process_receipts_logs block rcpts : forall (db : CDB) c,
  process_receipts db c block rcpts = process_logs db c block (concat (rc_Logs <$> rcpts)).
Proof.
  assert (forall a b (db : CDB) c, process_logs db c block (a ++ b) =
    match process_logs db c block a with (db, Ok _) => process_logs db c block b | r => r end) as Happ.
  { induction a as [|l a IH]; intros b db c; simpl; [done|]. destruct (process_log db c block l) as [db1 [u|e|]]; [apply IH|done..]. }
  induction rcpts as [|r rcpts IH]; intros db c; [done|]. simpl. rewrite Happ. destruct (process_logs db c block (rc_Logs r)) as [db1 [u|e|]]; [apply IH|done..].
Qed.

Lemma process_logs_same block logs : forall (db : CDB) c, same_fields db (process_logs db c block logs).1.
Proof.
  induction logs as [|l logs IH]; intros db c; simpl; [done|]. assert (same_fields db (process_log db c block l).1) as Hs.
  { unfold process_log. destruct (map_err _ _) as [m|e|]; [|done..]. pose proof (AddLog_same db c (logToLogHash l) (L1BlockRef_ParentID block) (u32 (lg_Index l)) m) as H.
    by destruct (cdb_AddLog _ _ _ _ _ _). }
  destruct (process_log db c block l) as [db1 [u|e|]]; [|done..]. eapply same_trans; [exact Hs|apply IH].
Qed.

(** A block is stored whole. *)
Lemma ProcessLogs_spec (db : CDB) v c a b : chains_inv db v -> v_logs v !! c = Some a -> a <> AEmpty -> block_ok b ->
  match ProcessLogs db c b.1 b.2 with
  | (db', Ok _) => exists p1 s evs es, a = ALog p1 s evs /\ block_events b = Ok es /\
      chains_inv db' (v_set_log v c (ALog p1 (Some (evs ++ es)) (evs ++ es)))
  | (db', Err _) => failed v c a b.1 db'
  | (_, Panic) => False
  end.
Proof.
  intros Hi Ha Hne [Hseal Hlogs]. unfold ProcessLogs. rewrite process_receipts_logs.
  pose proof (process_logs_spec b.1 _ db v c a Hi Ha Hne Hlogs) as Hp.
  destruct (process_logs db c b.1 _) as [db1 [u|e|]]; [|done|done]. destruct Hp as (es & Hes & Hcase).
  assert (exists a1, a1 <> AEmpty /\ chains_inv db1 (v_set_log v c a1) /\ (forall p1 s1 evs1, a1 = ALog p1 s1 evs1 ->
    exists s evs, a = ALog p1 s evs /\ evs1 = evs ++ es) /\ (forall p1 evs, kept_in p1 evs a -> kept_in p1 evs a1) /\
    (a1 = a \/ follows a b.1)) as (a1 & Hne1 & Hi1 & Ha1 & Hg1 & Hfol).
  { destruct Hcase as [[-> ->]|(p1 & s & evs & -> & Hfol & Hi1)].
    - exists a. split; [done|]. rewrite v_set_log_id by done. split; [done|]. split; [|split; [done|by left]]. intros p1 s1 evs1 ->. exists s1, evs1. by rewrite app_nil_r.
    - eexists. split; [|split; [exact Hi1|]]; [done|]. split; [intros p s1 evs1 [= <- _ <-]; by exists s, evs|].
      split; [|by right]. intros q es' Hq. simpl in Hq |- *. destruct s; [|done]. destruct Hq as (-> & _ & Hpre). split_and!; [done|by apply prefix_app_r..]. }
  unfold cdb_SealBlock. destruct (negb (isInitialized db1 c)); [simpl; by exists a1|]. unfold initializedSealBlock.
  destruct (logDBs db1 !! c) as [d|] eqn:Hd; [|simpl; by exists a1].
  set (r := RSeal (l1_ParentHash b.1) (L1BlockRef_ID b.1) (l1_Time b.1)). change (db_SealBlock d _ _ _) with (serve d r).
  destruct (log_request Hreliable db1 _ c d r Hi1 Hd (fun _ _ => Hseal)) as (a0 & a' & ok & Ha0 & Hs & Hi' & Hres).
  simpl in Ha0. rewrite lookup_insert_eq in Ha0. injection Ha0 as <-. rewrite v_set_log_twice in Hi'.
  destruct (serve d r) as [d' [u'|e|]]; simpl in Hi', Hres |- *; [| |done].
  - subst ok. inversion Hs; subst; [done|]. destruct (Ha1 _ _ _ eq_refl) as (s' & evs0 & -> & ->).
    exists p1, s', evs0, (es ++ [seal_event b.1]). split; [done|]. split; [unfold block_events; by rewrite Hes|].
    eapply inv_fields; [..|]; [| | |unfold evs' in Hi'; rewrite <-app_assoc in Hi'; exact Hi']; done.
  - exists a'. split; [eapply alog_next_nonempty; [|exact Hne1]; by exists r, ok|]. split; [|split; [|done]].
    + intros q es' Hq. eapply kept_step; [exact Hs|done|by apply Hg1].
    + destruct Hfol as [->|Hfol]; [by eapply seal_step_follows|by right].
Qed.

(** ** A block *)

(** Chain [c] holds [a]. *)
Definition at_log (db : CDB) (c : Z) (a : alog) : Prop := exists v, chains_inv db v /\ v_logs v !! c = Some a.

Lemma at_log_db db c a : at_log db c a -> exists d, logDBs db !! c = Some d /\ logs_inv d a.
Proof. intros (v & [Hl _ _] & Ha). specialize (Hl c). rewrite Ha in Hl. inversion Hl; subst. eauto. Qed.

Lemma at_log_set (db : CDB) v c a : chains_inv db (v_set_log v c a) -> at_log db c a.
Proof. intros Hi. exists (v_set_log v c a). split; [done|]. simpl. by rewrite lookup_insert_eq. Qed.

Lemma log_pos db c p1 s evs : at_log db c (ALog p1 s evs) ->
  chain p1 evs /\ 0 <= p_num (advs p1 evs) /\ p_num (advs p1 evs) + 1 < two64 /\ nextNum db c = p_num (advs p1 evs) + 1.
Proof.
  intros Ha. destruct (at_log_db _ _ _ Ha) as (d & Hd & _ & es & pend & cl & _ & _ & Hc & Hh & Hb).
  pose proof (hh_chain _ _ _ Hh) as Hch. split; [done|].
  assert (0 <= p_num (advs p1 evs)) as H0.
  { pose proof (hh_pos _ _ _ Hh) as Hp. apply chain_num in Hch. destruct Hp as (_ & [Hp _] & _). lia. }
  destruct Hb as [_ Hb]. split_and!; [done..|]. unfold nextNum, cdb_LatestBlockNum, LatestSealedBlock. rewrite Hd, Hc. simpl.
  pose proof (hist_len _ _ _ Hh). destruct (Z.eqb_spec (Z.of_nat (length (es ++ pend))) 0); [lia|]. simpl. apply u64_small. unfold is_u64. lia.
Qed.

Lemma stored_chain db c a p1 s : at_log db c a -> stored_of a = Some (p1, s) -> chain p1 s.
Proof.
  intros Ha Hs. destruct (at_log_db _ _ _ Ha) as (d & _ & _ & Hd). destruct a as [|q [s'|] evs|q [s'|]]; try done; injection Hs as -> ->.
  - destruct Hd as (es & pend & cl & _ & [Hh _] & _). by eapply hh_chain.
  - destruct Hd as (es & _ & [Hh _] & _). by eapply hh_chain.
Qed.

(** The store of events refuses a truncation. *)
Definition truncation_fails : Prop := exists (s : Sl) i e, (st_Truncate s i).2 = Err e.

(** A rewind to the last block of [evs] keeps [evs], and nothing else when it is
    that block, or there is nothing else. *)
Lemma Rewind_keeps (db : CDB) c a p1 evs head : at_log db c a -> kept_in p1 evs a -> p_since (advs p1 evs) = 0 ->
  bid_Number head = p_num (advs p1 evs) ->
  (cdb_Rewind db c head).2 <> Panic /\ exists a', at_log (cdb_Rewind db c head).1 c a' /\ kept_in p1 evs a' /\
    (a = ALog p1 (Some evs) evs \/ bid_Hash head = p_hash (advs p1 evs) -> a' = ALog p1 (Some evs) evs \/ truncation_fails).
Proof.
  intros Hat Hg H0 Hn. destruct (at_log_db _ _ _ Hat) as (d & Hd & _). destruct Hat as (v & Hi & Ha).
  destruct (Rewind_served Hreliable db v c head Hi) as (v' & _ & Hi' & _ & Hnp & _). split; [done|].
  destruct (log_request Hreliable db v c d (RRewind head) Hi Hd (fun _ _ => I)) as (a0 & a' & b & Ha0 & Hs & Hi1 & Hres).
  assert (a0 = a) as -> by congruence. destruct (inv_logDB _ _ c _ Hi1 (lookup_insert_eq _ _ _)) as (a1 & Ha1 & Hl).
  simpl in Ha1. rewrite lookup_insert_eq in Ha1. injection Ha1 as <-.
  assert (logDBs (cdb_Rewind db c head).1 !! c = Some (serve d (RRewind head)).1) as Hlog.
  { unfold cdb_Rewind. rewrite Hd. change (db_Rewind d head) with (serve d (RRewind head)).
    destruct (serve d (RRewind head)) as [d' [u|e|]]; simpl; [|by rewrite lookup_insert_eq..].
    repeat case_match; simpl; by rewrite lookup_insert_eq. }
  exists a'. split.
  - exists (v_set_log v' c a'). split; [|simpl; by rewrite lookup_insert_eq]. destruct Hi' as [H1 H2 H3]. split; [|done|done].
    simpl. rewrite <-(insert_id _ _ _ Hlog). by apply map_Forall2_insert_2.
  - assert (exists s rest, stored_of a = Some (p1, s) /\ s = evs ++ rest) as (s & rest & Hst & Hpre).
    { destruct a as [|q' [s'|] e'|q' [s'|]]; try done; destruct Hg as [-> Hg]; [destruct Hg as [[rest ->] _]|destruct Hg as [rest ->]]; by eexists _, rest. }
    assert (at_log db c a) as Hat by (by exists v). pose proof (stored_chain _ _ _ _ _ Hat Hst) as Hch.
    inversion Hs as [| | | | | | | | | |x q s2 h evs2 Hst2 Hrw|]; subst; [done| |].
    + destruct Hrw as (rest2 & Heq & Hn2 & H02 & _). rewrite Hst in Hst2. injection Hst2 as <- <-.
      destruct (prefix_unique p1 evs rest evs2 rest2 Hch Heq) as [-> _]; [lia|lia|]. split_and!; [done..|by left].
    + split; [done|]. intros [->|Hhash]; [by left|right].
      assert (accepts a' (RRewind head)) as Hacc by (exists p1, (evs ++ rest), evs; split; [done|by exists rest]).
      destruct (serve d (RRewind head)).2 as [[]|e|] eqn:He; [done| |done].
      destruct (log_refused Hreliable db v c d a' (RRewind head) e Hi Hd Ha I Hacc He) as (i & e' & Hf). by exists (ld_store d), i, e'.
Qed.

(** A block is indexed whole, or only what was stored before it stays. *)
Lemma process_spec (db : CDB) c p1 evs b : at_log db c (ALog p1 (Some evs) evs) -> p_since (advs p1 evs) = 0 -> block_ok b ->
  l1_Number b.1 = p_num (advs p1 evs) + 1 ->
  match process db c b.1 b.2 with
  | (db', Ok _) => exists es, block_events b = Ok es /\ at_log db' c (ALog p1 (Some (evs ++ es)) (evs ++ es))
  | (db', Err _) => exists a', at_log db' c a' /\ kept_in p1 evs a' /\ (a' = ALog p1 (Some evs) evs \/ truncation_fails)
  | (_, Panic) => False
  end.
Proof.
  intros Hat H0 Hb Hn. destruct (log_pos _ _ _ _ _ Hat) as (_ & Hnum & Hmax & _). destruct Hat as (v & Hi & Ha). unfold process.
  pose proof (ProcessLogs_spec db v c _ b Hi Ha ltac:(done) Hb) as Hp. destruct (ProcessLogs db c b.1 b.2) as [db1 [u|e|]]; [| |done].
  - destruct Hp as (q & s & evs' & es & [= <- <- <-] & Hes & Hi'). exists es. split; [done|]. by eapply at_log_set.
  - destruct (Z.eqb_spec (l1_Number b.1) 0); [lia|]. destruct Hp as (a1 & _ & Hg & Hfol & Hi1).
    specialize (Hg p1 evs ltac:(by split_and!)). apply at_log_set in Hi1.
    destruct (Rewind_keeps db1 c a1 p1 evs (L1BlockRef_ParentID b.1) Hi1 Hg H0) as [Hnp (a2 & Hat2 & Hg2 & Hwhole)].
    { unfold L1BlockRef_ParentID. simpl. destruct (Z.ltb_spec 0 (l1_Number b.1)); [|lia]. rewrite Hn, u64_small; [lia|unfold is_u64; lia]. }
    assert (a2 = ALog p1 (Some evs) evs \/ truncation_fails) as Hw by (apply Hwhole; destruct Hfol as [->|Hf]; [by left|by right]).
    destruct (cdb_Rewind db1 c _) as [db2 [u|e'|]]; simpl in Hnp, Hat2; [by exists a2..|done].
Qed.

(** ** A range of blocks *)

(** A node that answers with the block that was asked for. *)
Record client_ok (cl : Source) : Prop := {
  co_no_panic n h : BlockRefByNumber cl n <> Panic /\ FetchReceipts cl h <> Panic;
  co_block n b : BlockRefByNumber cl n = Ok b -> l1_Number b = n /\ seal_ok b;
  co_receipts h rs : FetchReceipts cl h = Ok rs -> Forall log_ok (concat (rc_Logs <$> rs)) }.

Lemma AcceptedBlock_no_panic (db : CDB) v c id : chains_inv db v -> cdb_AcceptedBlock db c id <> Panic.
Proof.
  intros Hi. unfold cdb_AcceptedBlock, chain_get. destruct (localDBs db !! c) as [d|] eqn:Hd; [|done].
  destruct (inv_local db v c d Hi Hd) as (ls & _ & Hh). cbn [rbind]. destruct (findRevision_spec db v c id Hi) as [Hnp Hr].
  destruct (findRevision db c id) as [r|e|]; [|done|done]. cbn [map_err rbind].
  assert (ContainsDerived d id r <> Panic) as Hc; [|by destruct (ContainsDerived d id r) as [u|e|]; [|case_match|]].
  unfold ContainsDerived. apply rbind_run_no_panic.
  - apply (find_no_panic d ls); [apply Hh|]. apply mono_derived_last; [apply Hh|apply Hh|by apply Hr].
  - intros [i l] _. by repeat case_match.
Qed.

Lemma fetch_spec (db : CDB) v s cl n : chains_inv db v -> cp_activeClient s = Some cl -> client_ok cl ->
  fetch db s n <> Panic /\ forall b, fetch db s n = Ok b -> block_ok b /\ l1_Number b.1 = n.
Proof.
  intros Hi Hcl [Hnp Hb Hr]. unfold fetch. rewrite Hcl. destruct (Hnp n 0) as [Hnb _].
  destruct (BlockRefByNumber cl n) as [next|e|] eqn:Hnext; [|done|done]. cbn [rbind].
  pose proof (AcceptedBlock_no_panic db v (cp_chain s) (L1BlockRef_ID next) Hi) as Ha.
  destruct (cdb_AcceptedBlock _ _ _) as [u|e|]; [|done|done]. cbn [rbind]. destruct (Hnp n (l1_Hash next)) as [_ Hnr].
  destruct (FetchReceipts cl (l1_Hash next)) as [rs|e|] eqn:Hrs; [|done|done]. split; [done|]. intros b [= <-]. simpl.
  destruct (Hb n next Hnext) as [Hn Hs]. split; [|done]. split; [done|]. by eapply Hr.
Qed.

Lemma block_events_end b es p : block_events b = Ok es ->
  p_num (advs p es) = l1_Number b.1 /\ p_since (advs p es) = 0.
Proof.
  unfold block_events. destruct (log_events _) as [l|e|]; [|done|done]. intros [= <-]. by rewrite advs_app.
Qed.

(** What was stored: the blocks [bs], after [evs], and nothing else unless the
    block after them failed and the store then refused to drop its logs. *)
Definition stored_blocks (db : CDB) (c : Z) (p1 : pos) (evs : list event) (bs : list (L1BlockRef * list Receipt)) (ok : Prop) : Prop :=
  exists es a', chain_events bs = Ok es /\ at_log db c a' /\ kept_in p1 (evs ++ es) a' /\
    (a' = ALog p1 (Some (evs ++ es)) (evs ++ es) \/ (~ ok /\ truncation_fails)) /\
    p_since (advs p1 (evs ++ es)) = 0 /\ p_num (advs p1 (evs ++ es)) = p_num (advs p1 evs) + Z.of_nat (length bs).

Lemma stored_none db c p1 evs a' (ok : Prop) : at_log db c a' -> kept_in p1 evs a' -> p_since (advs p1 evs) = 0 ->
  a' = ALog p1 (Some evs) evs \/ (~ ok /\ truncation_fails) -> stored_blocks db c p1 evs [] ok.
Proof. intros Hat Hg H0 Hw. exists [], a'. rewrite app_nil_r. split_and!; [done..|simpl; lia]. Qed.

Lemma process_results_spec c p1 results : forall (db : CDB) i evs, at_log db c (ALog p1 (Some evs) evs) -> p_since (advs p1 evs) = 0 ->
  (forall k r, results !! k = Some r -> r <> Panic /\ forall b, r = Ok b -> block_ok b /\ l1_Number b.1 = p_num (advs p1 evs) + 1 + Z.of_nat k) ->
  let '(db', n, r) := process_results db c i results in
  r <> Panic /\ exists bs, n = i + Z.of_nat (length bs) /\ (Ok <$> bs) `prefix_of` results /\
    (r = Ok tt -> Ok <$> bs = results) /\ stored_blocks db' c p1 evs bs (r = Ok tt).
Proof.
  induction results as [|r results IH]; intros db i evs Hat H0 Hres.
  { simpl. split; [done|]. exists []. split_and!; [simpl; lia|done|done|]. by apply stored_none with (a' := ALog p1 (Some evs) evs); [..|left]. }
  assert (forall (db' : CDB) (e : error) a', at_log db' c a' -> kept_in p1 evs a' -> a' = ALog p1 (Some evs) evs \/ truncation_fails ->
    @Err unit e <> Panic /\ exists bs : list (L1BlockRef * list Receipt), i = i + Z.of_nat (length bs) /\ (Ok <$> bs) `prefix_of` r :: results /\
    (@Err unit e = Ok tt -> Ok <$> bs = r :: results) /\ stored_blocks db' c p1 evs bs (@Err unit e = Ok tt)) as Hstop.
  { intros db' e a' Hat' Hg Hw. split; [done|]. exists []. split_and!; [simpl; lia|apply prefix_nil|done|].
    apply stored_none with (a' := a'); [done..|]. destruct Hw; [by left|by right]. }
  destruct (Hres 0%nat r eq_refl) as [Hnp Hb]. cbn [process_results]. destruct r as [[next rs]|e|]; [| |done].
  2: { apply (Hstop _ _ _ Hat); [by split_and!|by left]. }
  destruct (Hb _ eq_refl) as [Hok Hn]. rewrite Z.add_0_r in Hn.
  pose proof (process_spec db c p1 evs (next, rs) Hat H0 Hok Hn) as Hp. simpl in Hp. destruct (process db c next rs) as [db1 [u|e|]]; [| |done].
  2: { destruct Hp as (a' & Hat' & Hg & Hw). by apply (Hstop _ _ _ Hat'). }
  destruct Hp as (es & Hes & Hat1). destruct (block_events_end _ _ (advs p1 evs) Hes) as [Hend H01]. simpl in Hend, Hn.
  specialize (IH db1 (i + 1) (evs ++ es) Hat1). rewrite advs_app, Hend in IH. specialize (IH H01).
  destruct (process_results db1 c (i + 1) results) as [[db2 n] r].
  destruct IH as [Hnp' (bs & -> & Hpre & Hall & es' & a' & Hes' & Hat' & Hg' & Hw & Hz & Hnn)].
  { intros k r' Hk. destruct (Hres (S k) r' Hk) as [? Hb']. split; [done|]. intros b' Hr'. destruct (Hb' b' Hr') as [? ->]. split; [done|lia]. }
  split; [done|]. exists ((next, rs) :: bs). split; [simpl; lia|]. split; [by apply prefix_cons|].
  split; [intros Hr; rewrite fmap_cons; f_equal; by apply Hall|]. exists (es ++ es'), a'. cbn [chain_events]. rewrite Hes, Hes'. cbn [rbind]. split; [done|].
  rewrite app_assoc. split_and!; [done..|]. rewrite Hnn, (advs_app _ evs), Hend, Hn. cbn [length]. lia.
Qed.

Lemma fetch_nums_lookup count : forall i last k n, last + 1 < two64 -> 0 <= i -> fetch_nums count i last !! k = Some n ->
  n = i + Z.of_nat k.
Proof.
  induction count as [|count IH]; intros i last k n Hl Hi; simpl; [done|]. destruct (Z.leb_spec i last); [|done].
  destruct k as [|k]; simpl; [intros [= <-]; lia|]. rewrite u64_small by (unfold is_u64; lia). intros Hk. apply IH in Hk; lia.
Qed.

Lemma fetch_nums_empty count i last : (0 < count)%nat -> length (fetch_nums count i last) = 0%nat -> last < i.
Proof. destruct count; [lia|]. intros _. simpl. by destruct (Z.leb_spec i last). Qed.

Lemma rangeUpdate_spec (db : CDB) s target p1 evs cl : at_log db (cp_chain s) (ALog p1 (Some evs) evs) -> p_since (advs p1 evs) = 0 ->
  cp_activeClient s = Some cl -> client_ok cl -> target + 1 < two64 ->
  let '(db', n, r) := rangeUpdate db s target in
  r <> Panic /\ exists bs, n = Z.of_nat (length bs) /\ stored_blocks db' (cp_chain s) p1 evs bs (r = Ok tt) /\
    (forall k b, bs !! k = Some b -> fetch db s (nextNum db (cp_chain s) + Z.of_nat k) = Ok b) /\
    (r = Ok tt -> bs = [] -> target < nextNum db (cp_chain s)).
Proof.
  intros Hat H0 Hcl Hok Ht. destruct (log_pos _ _ _ _ _ Hat) as (_ & Hn0 & _ & Hnext). unfold rangeUpdate.
  assert (forall (r : result unit), r <> Panic -> (r = Ok tt -> target < nextNum db (cp_chain s)) -> r <> Panic /\
    exists bs : list (L1BlockRef * list Receipt), 0 = Z.of_nat (length bs) /\ stored_blocks db (cp_chain s) p1 evs bs (r = Ok tt) /\
    (forall k b, bs !! k = Some b -> fetch db s (nextNum db (cp_chain s) + Z.of_nat k) = Ok b) /\
    (r = Ok tt -> bs = [] -> target < nextNum db (cp_chain s))) as Hnone.
  { intros r Hr Hr'. split; [done|]. exists []. split; [done|]. split; [|split; [done|auto]].
    by apply stored_none with (a' := ALog p1 (Some evs) evs); [..|left]. }
  destruct (length (cp_clients s) =? 0)%nat; [by apply Hnone|].
  set (nums := fetch_nums _ _ _). destruct (Nat.eqb_spec (length nums) 0) as [Hlen|Hlen].
  { apply Hnone; [done|]. intros _. eapply fetch_nums_empty; [|exact Hlen]. lia. }
  assert (forall k n, nums !! k = Some n -> n = nextNum db (cp_chain s) + Z.of_nat k) as Hnums.
  { intros k n Hk. eapply fetch_nums_lookup; [exact Ht| |exact Hk]. lia. }
  destruct Hat as (v & Hi & Ha). pose proof (process_results_spec (cp_chain s) p1 (fetch db s <$> nums) db 0 evs (ex_intro _ v (conj Hi Ha)) H0) as Hp.
  destruct (process_results _ _ _ _) as [[db' n] r]. destruct Hp as [Hnp (bs & -> & Hpre & Hall & Hst)].
  { intros k r' Hk. apply list_lookup_fmap_Some in Hk as (num & -> & Hk). apply Hnums in Hk as ->.
    destruct (fetch_spec db v s cl (nextNum db (cp_chain s) + Z.of_nat k) Hi Hcl Hok) as [? Hb]. split; [done|].
    intros b Hb'. destruct (Hb b Hb') as [? ->]. split; [done|]. by rewrite Hnext. }
  split; [done|]. exists bs. split; [lia|]. split; [done|]. split.
  - intros k b Hk. assert ((fetch db s <$> nums) !! k = Some (Ok b)) as Hf.
    { destruct Hpre as [rest ->]. apply lookup_app_l_Some. by rewrite list_lookup_fmap, Hk. }
    apply list_lookup_fmap_Some in Hf as (num & -> & Hnum). by apply Hnums in Hnum as ->.
  - intros Hr ->. specialize (Hall Hr). destruct nums; [done|done].
Qed.

(** The clients take turns. *)
Definition next_client (s s' : ChainProcessor) : Prop :=
  let next := (cp_clientIndex s + 1) mod Z.of_nat (length (cp_clients s)) in
  cp_clients s' = cp_clients s /\ cp_clientIndex s' = next /\ cp_activeClient s' = cp_clients s !! Z.to_nat next /\
  is_Some (cp_activeClient s') /\ cp_clientsTried s' = cp_clientsTried s + 1.

Lemma nextActiveClient_switches s : cp_clients s <> [] -> next_client s (nextActiveClient s).
Proof.
  intros Hc. unfold nextActiveClient. destruct (Nat.eqb_spec (length (cp_clients s)) 0) as [He|Hne]; [by apply nil_length_inv in He|].
  split_and!; [done..| |done]. simpl. apply lookup_lt_is_Some.
  pose proof (Z.mod_pos_bound (cp_clientIndex s + 1) (Z.of_nat (length (cp_clients s))) ltac:(lia)). lia.
Qed.

Lemma stored_emit db c p1 evs bs ok ev : stored_blocks db c p1 evs bs ok -> stored_blocks (cd_emit db ev) c p1 evs bs ok.
Proof.
  intros (es & a' & He & (v & Hi & Ha) & Hrest). exists es, a'. split; [done|]. split; [|done].
  exists v. split; [by eapply inv_fields; [..|exact Hi]|done].
Qed.


End indexing.

(** ** One block with a message *)

Module IndexingExamples.
Section examples.
Import ChainsExamples RewinderExamples.
#[local] Typeclasses Opaque LogStore LinkStore.
#[local] Existing Instances log_store log_laws link_store link_laws hash order one_chain.

#[local] Instance inbox : InteropLib :=
  {| InteropCrossL2InboxAddress := 34; ExecutingMessageEventTopic := 5;
     DecodeEvent _ data := Ok {| im_Origin := 7; im_BlockNumber := 10; im_LogIndex := 0; im_Timestamp := 3; im_ChainID := 901;
                                 im_PayloadHash := be_decode data |} |}.

Definition message : Log := {| lg_Address := 34; lg_Topics := [5; 8]; lg_Data := be_encode 8 10; lg_BlockHash := 211; lg_Index := 0 |}.
Definition B11 : L1BlockRef := Examples.block 11 211 (l1_Hash Examples.D10).
Definition client : Source :=
  {| BlockRefByNumber n := if n =? 11 then Ok B11 else Err NotFound;
     FetchReceipts _ := Ok [{| rc_Status := 1; rc_Logs := [message] |}] |}.
Definition processor : ChainProcessor := AddSource (NewChainProcessor 901) client.

Lemma client_answers : client_ok client.
Proof.
  split.
  - intros n h. simpl. split; [by case_match|done].
  - intros n b. simpl. destruct (Z.eqb_spec n 11) as [->|]; [|done]. intros [= <-]. split; [done|]. split_and!; vm_compute; (done || congruence || auto).
  - intros h rs [= <-]. constructor; [|constructor]. split; [split; vm_compute; congruence|split; vm_compute; (done || split; congruence)|done|].
    intros m [= <-]. split_and!; vm_compute; (done || congruence || auto).
Qed.


(** A genesis block that is not stored counts as processed. *)
Lemma genesis_failure_hidden : process (fresh []) 901 (Examples.block 0 200 0) [] = (fresh [], Ok tt) /\
  nextNum (fresh []) 901 = 0.
Proof. vm_compute. split; reflexivity. Qed.
End examples.
End IndexingExamples.
