(* ===== verification/Supervisor.v ===== *)
(** * The supervisor backend

    [rhs-supervisor/supervisor/backend/backend.go]: the events it answers, the
    nodes it attaches, and its queries, which it answers from the chains
    database: access lists, safety labels and super roots.

    The databases are opened by parameters, a node is its answers, and the
    controller of the nodes is a parameter.  [ctx] gives the error of the
    context, if any, at each round of a loop. *)

From stdpp Require Import base gmap sets list sorting.
From S2P Require Import Prelude EthTypes EntryDB FromDA DepSet CrossGraph CrossCycle HazardSet CrossUpdate LogDB ChainsDB Processors SupervisorTypes.

(** [types.SafetyLevel], a string. *)
Inductive SafetyLevel : Type :=
  | LevelFinalized
  | LevelCrossSafe
  | LevelLocalSafe
  | LevelCrossUnsafe
  | LevelLocalUnsafe
  | LevelInvalid
  | LevelOther (text : string).

(** The part of [syncnode.SyncSource] that the backend asks. *)
Record SyncSource : Type := {
  OutputV0AtTimestamp : Z -> result OutputV0;
  PendingOutputV0AtTimestamp : Z -> result OutputV0;
  L2BlockRefByTimestamp : Z -> result L2BlockRef }.

Record SyncNode : Type := {
  sn_ChainID : result Z;
  sn_AnchorPoint : result RefPair;
  sn_processorSource : Source;
  sn_syncSource : SyncSource }.

Section Supervisor.
Context {Sl Sd : Type} {ESl : EntryStore Sl} {ESd : EntryStore Sd}.
Context {MO : MapOrder} {KC : Keccak} {DS : DependencySet}.

Record SupervisorBackend : Type := {
  su_started : bool;
  su_chainDBs : ChainsDB Sl Sd;
  su_chainProcessors : gmap Z ChainProcessor;
  su_syncSources : gmap Z (option SyncSource);
  su_emitted : list superevent }.

Definition su_emit (su : SupervisorBackend) (ev : superevent) : SupervisorBackend :=
  {| su_started := su_started su; su_chainDBs := su_chainDBs su; su_chainProcessors := su_chainProcessors su;
     su_syncSources := su_syncSources su; su_emitted := su_emitted su ++ [ev] |}.
Definition su_set_dbs (su : SupervisorBackend) (db : ChainsDB Sl Sd) : SupervisorBackend :=
  {| su_started := su_started su; su_chainDBs := db; su_chainProcessors := su_chainProcessors su;
     su_syncSources := su_syncSources su; su_emitted := su_emitted su |}.
Definition su_set_started (su : SupervisorBackend) (b : bool) : SupervisorBackend :=
  {| su_started := b; su_chainDBs := su_chainDBs su; su_chainProcessors := su_chainProcessors su;
     su_syncSources := su_syncSources su; su_emitted := su_emitted su |}.
Definition su_set_processors (su : SupervisorBackend) (ps : gmap Z ChainProcessor) : SupervisorBackend :=
  {| su_started := su_started su; su_chainDBs := su_chainDBs su; su_chainProcessors := ps;
     su_syncSources := su_syncSources su; su_emitted := su_emitted su |}.
Definition su_set_sources (su : SupervisorBackend) (ss : gmap Z (option SyncSource)) : SupervisorBackend :=
  {| su_started := su_started su; su_chainDBs := su_chainDBs su; su_chainProcessors := su_chainProcessors su;
     su_syncSources := ss; su_emitted := su_emitted su |}.

Definition su_OnEvent (su : SupervisorBackend) (ev : superevent) : SupervisorBackend * bool :=
  match ev with
  | LocalUnsafeReceivedEvent chainID newLocalUnsafe => (su_emit su (ChainProcessEvent chainID (l1_Number newLocalUnsafe)), true)
  | LocalUnsafeUpdateEvent chainID _ => (su_emit su (UpdateCrossUnsafeRequestEvent chainID), true)
  | CrossUnsafeUpdateEvent chainID _ => (su_emit su (UpdateCrossUnsafeRequestEvent chainID), true)
  | LocalSafeUpdateEvent chainID _ => (su_emit su (UpdateCrossSafeRequestEvent chainID), true)
  | CrossSafeUpdateEvent chainID _ => (su_emit su (UpdateCrossSafeRequestEvent chainID), true)
  | _ => (su, false)
  end.

(** ** Resources *)

Section resources.
Variable OpenLogDB : Z -> result (LogsDB Sl).
Variables OpenLocalDerivationDB OpenCrossDerivationDB : Z -> result Sd.

Definition openChainDBs (su : SupervisorBackend) (chainID : Z) : SupervisorBackend * result unit :=
  match map_err (Wrap "failed to open logDB of chain") (OpenLogDB chainID) with
  | Ok logDB =>
      let su := su_set_dbs su (AddLogDB (su_chainDBs su) chainID logDB) in
      match map_err (Wrap "failed to open local derived-from DB of chain") (OpenLocalDerivationDB chainID) with
      | Ok localDB =>
          let su := su_set_dbs su (AddLocalDerivationDB (su_chainDBs su) chainID localDB) in
          match map_err (Wrap "failed to open cross derived-from DB of chain") (OpenCrossDerivationDB chainID) with
          | Ok crossDB =>
              let su := su_set_dbs su (AddCrossDerivationDB (su_chainDBs su) chainID crossDB) in
              (su_set_dbs su (AddCrossUnsafeTracker (su_chainDBs su) chainID), Ok tt)
          | Err e => (su, Err e)
          | Panic => (su, Panic)
          end
      | Err e => (su, Err e)
      | Panic => (su, Panic)
      end
  | Err e => (su, Err e)
  | Panic => (su, Panic)
  end.

Fixpoint open_chains (su : SupervisorBackend) (chains : list Z) : SupervisorBackend * result unit :=
  match chains with
  | [] => (su, Ok tt)
  | chainID :: chains =>
      match openChainDBs su chainID with
      | (su, Ok _) => open_chains su chains
      | (su, Err e) => (su, Err (Wrap "failed to open chain" e))
      | (su, Panic) => (su, Panic)
      end
  end.

(** The databases, the processors and the empty sources of the chains. *)
Definition initResources (su : SupervisorBackend) : SupervisorBackend * result unit :=
  match open_chains su Chains with
  | (su, Ok _) =>
      let su := su_set_processors su (foldl (fun ps c => <[c := NewChainProcessor c]> ps) (su_chainProcessors su) Chains) in
      (su_set_sources su (foldl (fun ss c => <[c := None]> ss) (su_syncSources su) Chains), Ok tt)
  | r => r
  end.
End resources.

Definition QueryAnchorpoint (su : SupervisorBackend) (chainID : Z) (src : SyncNode) : SupervisorBackend * result unit :=
  match map_err (Wrap "failed to get anchor point") (sn_AnchorPoint src) with
  | Ok anchor => (su_emit su (AnchorEvent chainID anchor), Ok tt)
  | Err e => (su, Err e)
  | Panic => (su, Panic)
  end.

Definition AttachProcessorSource (su : SupervisorBackend) (chainID : Z) (src : Source) : SupervisorBackend * result unit :=
  match su_chainProcessors su !! chainID with
  | None => (su, Err (Msg "unknown chain, cannot attach RPC to processor"))
  | Some proc => (su_set_processors su (<[chainID := AddSource proc src]> (su_chainProcessors su)), Ok tt)
  end.

Definition AttachSyncSource (su : SupervisorBackend) (chainID : Z) (src : SyncSource) : SupervisorBackend * result unit :=
  match su_syncSources su !! chainID with
  | None => (su, Err (Msg "unknown chain, cannot attach RPC to sync source"))
  | Some _ => (su_set_sources su (<[chainID := Some src]> (su_syncSources su)), Ok tt)
  end.

Definition AttachSyncNode (AttachNodeController : Z -> SyncNode -> result unit) (su : SupervisorBackend) (src : SyncNode)
  : SupervisorBackend * result unit :=
  match map_err (Wrap "failed to identify chain ID of sync source") (sn_ChainID src) with
  | Err e => (su, Err e)
  | Panic => (su, Panic)
  | Ok chainID =>
      if negb (HasChain chainID) then (su, Err (Wrap "chain is not part of the interop dependency set" ErrUnknownChain))
      else
        match QueryAnchorpoint su chainID src with
        | (su, Err e) => (su, Err (Wrap "failed to query anchor point" e))
        | (su, Panic) => (su, Panic)
        | (su, Ok _) =>
            match AttachProcessorSource su chainID (sn_processorSource src) with
            | (su, Err e) => (su, Err (Wrap "failed to attach sync source to processor" e))
            | (su, Panic) => (su, Panic)
            | (su, Ok _) =>
                match AttachSyncSource su chainID (sn_syncSource src) with
                | (su, Err e) => (su, Err (Wrap "failed to attach sync source to node" e))
                | (su, Panic) => (su, Panic)
                | (su, Ok _) => (su, AttachNodeController chainID src)
                end
            end
        end
  end.

Definition su_Start (su : SupervisorBackend) : SupervisorBackend * result unit :=
  if su_started su then (su, Err (Msg "already started"))
  else
    let su := su_set_started su true in
    let (db, r) := ResumeFromLastSealedBlock (su_chainDBs su) in
    (su_set_dbs su db, map_err (Wrap "failed to resume chains db") r).

Definition errAlreadyStopped : error := Msg "already stopped".

(** The databases close with [close]. *)
Definition su_Stop (close : result unit) (su : SupervisorBackend) : SupervisorBackend * result unit :=
  if negb (su_started su) then (su, Err errAlreadyStopped)
  else (su_set_processors (su_set_started su false) ∅, close).

(** ** Access lists *)

Definition access_query (acc : Access) : ContainsQuery :=
  {| cq_Timestamp := acc_Timestamp acc; cq_BlockNum := acc_BlockNumber acc; cq_LogIdx := acc_LogIndex acc;
     cq_Checksum := acc_Checksum acc |}.

Definition checkAccess (su : SupervisorBackend) (acc : Access) (execAt : ExecutingDescriptor) : result BlockID :=
  let* _ := AccessCheck execAt MessageExpiryWindow (acc_Timestamp acc) in
  let* bl := cdb_Contains (su_chainDBs su) (acc_ChainID acc) (access_query acc) in
  Ok (BlockSeal_ID bl).

Definition checkSafety (su : SupervisorBackend) (chainID : Z) (blockID : BlockID) (safetyLevel : SafetyLevel) : result unit :=
  match safetyLevel with
  | LevelLocalUnsafe => Ok tt
  | LevelCrossUnsafe => cdb_IsCrossUnsafe (su_chainDBs su) chainID blockID
  | LevelLocalSafe => cdb_IsLocalSafe (su_chainDBs su) chainID blockID
  | LevelCrossSafe => cdb_IsCrossSafe (su_chainDBs su) chainID blockID
  | LevelFinalized => cdb_IsFinalized (su_chainDBs su) chainID blockID
  | LevelInvalid | LevelOther _ => Err ErrConflict
  end.

Definition known_level (lvl : SafetyLevel) : bool :=
  match lvl with LevelInvalid | LevelOther _ => false | _ => true end.

(** Every round takes entries off the list, so that as many rounds as entries
    are enough. *)
Fixpoint access_loop (fuel : nat) (ctx : nat -> option error) (su : SupervisorBackend) (entries : list bytes)
    (minSafety : SafetyLevel) (execAt : ExecutingDescriptor) : result unit :=
  match entries, fuel with
  | [], _ => Ok tt
  | _, O => Panic
  | _, S fuel =>
      match ctx fuel with
      | Some e => Err (Wrap "stopped acces-list check early" e)
      | None =>
          let* (remaining, acc) := map_err (Wrap "failed to read data") (ParseAccess entries) in
          let* msgBlock := map_err (fun _ => ErrConflict) (checkAccess su acc execAt) in
          let* _ := map_err (fun _ => ErrConflict) (checkSafety su (acc_ChainID acc) msgBlock minSafety) in
          access_loop fuel ctx su remaining minSafety execAt
      end
  end.

Definition CheckAccessList (ctx : nat -> option error) (su : SupervisorBackend) (inboxEntries : list bytes)
    (minSafety : SafetyLevel) (executingDescriptor : ExecutingDescriptor) : result unit :=
  if negb (known_level minSafety) then Err (Msg "unexpected min-safety level")
  else access_loop (length inboxEntries) ctx su inboxEntries minSafety executingDescriptor.

(** ** Labels *)

Definition ids_of (p : SealPair) : BlockID * BlockID := (BlockSeal_ID (sp_Source p), BlockSeal_ID (sp_Derived p)).

Definition su_CrossSafe (su : SupervisorBackend) (chainID : Z) : result (BlockID * BlockID) :=
  let* p := cdb_CrossSafe (su_chainDBs su) chainID in Ok (ids_of p).
Definition su_LocalSafe (su : SupervisorBackend) (chainID : Z) : result (BlockID * BlockID) :=
  let* p := cdb_LocalSafe (su_chainDBs su) chainID in Ok (ids_of p).
Definition su_LocalUnsafe (su : SupervisorBackend) (chainID : Z) : result BlockID :=
  let* v := cdb_LocalUnsafe (su_chainDBs su) chainID in Ok (BlockSeal_ID v).
Definition su_CrossUnsafe (su : SupervisorBackend) (chainID : Z) : result BlockID :=
  let* v := cdb_CrossUnsafe (su_chainDBs su) chainID in Ok (BlockSeal_ID v).
Definition su_SafeDerivedAt (su : SupervisorBackend) (chainID : Z) (source : BlockID) : result BlockID :=
  let* v := cdb_SafeDerivedAt (su_chainDBs su) chainID source in Ok (BlockSeal_ID v).
Definition su_FindSealedBlock (su : SupervisorBackend) (chainID number : Z) : result BlockID :=
  let* v := cdb_FindSealedBlock (su_chainDBs su) chainID number in Ok (BlockSeal_ID v).
Definition su_Finalized (su : SupervisorBackend) (chainID : Z) : result BlockID :=
  let* v := cdb_Finalized (su_chainDBs su) chainID in Ok (BlockSeal_ID v).
Definition su_FinalizedL1 (su : SupervisorBackend) : result L1BlockRef :=
  let v := finalizedL1 (su_chainDBs su) in
  if bool_decide (v = zeroL1BlockRef) then Err (Msg "finality of L1 is not initialized") else Ok v.

Fixpoint all_derived (su : SupervisorBackend) (source : BlockID) (chains : list Z) (ret : gmap Z BlockID) : result (gmap Z BlockID) :=
  match chains with
  | [] => Ok ret
  | chainID :: chains =>
      let* derived := map_err (Wrap "failed to get last derived block for chain") (su_SafeDerivedAt su chainID source) in
      all_derived su source chains (<[chainID := derived]> ret)
  end.

Definition AllSafeDerivedAt (su : SupervisorBackend) (source : BlockID) : result (gmap Z BlockID) :=
  all_derived su source Chains ∅.

(** ** Super roots *)

(** One chain of the loop: its information and the latest source so far.  A
    source that was never attached is a nil interface. *)
Definition chain_root (su : SupervisorBackend) (timestamp : Z) (crossSafeSource : BlockID) (chainID : Z) : result (ChainRootInfo * BlockID) :=
  match su_syncSources su !! chainID with
  | None => Err (Msg "unknown chain, cannot get sync source")
  | Some None => Panic
  | Some (Some src) =>
      let* output := OutputV0AtTimestamp src timestamp in
      let* pending := PendingOutputV0AtTimestamp src timestamp in
      let info := {| cri_ChainID := chainID; cri_Canonical := OutputRoot output; cri_Pending := OutputV0_Marshal pending |} in
      let* ref := L2BlockRefByTimestamp src timestamp in
      let* source := cdb_CrossDerivedToSource (su_chainDBs su) chainID (L2BlockRef_ID ref) in
      Ok (info, if (bid_Number crossSafeSource =? 0) || (bid_Number crossSafeSource <? bs_Number source)
                then BlockSeal_ID source else crossSafeSource)
  end.

Fixpoint chain_roots (su : SupervisorBackend) (timestamp : Z) (crossSafeSource : BlockID) (chains : list Z)
  : result (list ChainRootInfo * BlockID) :=
  match chains with
  | [] => Ok ([], crossSafeSource)
  | chainID :: chains =>
      let* (info, crossSafeSource) := chain_root su timestamp crossSafeSource chainID in
      let* (infos, crossSafeSource) := chain_roots su timestamp crossSafeSource chains in
      Ok (info :: infos, crossSafeSource)
  end.

Definition SuperRootAtTimestamp (su : SupervisorBackend) (timestamp : Z) : result SuperRootResponse :=
  let* (chainInfos, crossSafeSource) := chain_roots su timestamp zeroBlockID (merge_sort Z.le Chains) in
  let super := {| sv_Timestamp := timestamp; sv_Chains := info_output <$> chainInfos |} in
  Ok {| sr_CrossSafeDerivedFrom := crossSafeSource; sr_Timestamp := timestamp; sr_SuperRoot := SuperRoot super;
        sr_Version := SuperRootVersionV1; sr_Chains := chainInfos |}.
End Supervisor.

#[global] Arguments SupervisorBackend Sl Sd : clear implicits.
