(* ===== verification/SupervisorTheorems.v ===== *)
(** * The supervisor backend: its theorems

    An access list is accepted only when the chains database holds its messages
    at the required safety, and a super root is backed by the cross-safe
    databases. *)

From stdpp Require Import base gmap sets list sorting.
From S2P Require Import Prelude EthTypes EntryDB FromDA FromDASearch FromDALinks DepSet CrossGraph LogDB LogCodec LogStream LogRead LogSearch LogWrite LogRefine LogQuery LogTheorems ChainsDB ChainsLinks ChainsInv ChainsOps ChainsTheorems RewinderTheorems L1Logs Processors Indexing SupervisorTypes Supervisor.

(** ** What the databases say about a message *)

(** The message of an access is a log of a sealed block of its chain. *)
Definition logged `{Keccak} (v : cview) (acc : Access) (b : BlockSeal) : Prop :=
  exists p1 evs dn logs lh m, v_logs v !! acc_ChainID acc = Some (ALog p1 (Some evs) evs) /\
    block_in p1 evs (acc_BlockNumber acc) dn logs (bs_Hash b) (acc_Timestamp acc) /\
    logs !! Z.to_nat (acc_LogIndex acc) = Some (EvLog lh m) /\
    acc_Checksum acc = Checksum {| ca_BlockNumber := acc_BlockNumber acc; ca_LogIndex := acc_LogIndex acc;
                                   ca_Timestamp := acc_Timestamp acc; ca_ChainID := acc_ChainID acc; ca_LogHash := lh |} /\
    bs_Number b = acc_BlockNumber acc /\ bs_Timestamp b = acc_Timestamp acc.

(** A link of the list has the block as its derived block. *)
Definition derived_in (ls : list LinkEntry) (id : BlockID) (l : LinkEntry) : Prop :=
  l ∈ ls /\ le_invalidated l = false /\ BlockSeal_ID (le_derived l) = id.

Definition safe_at {Sl Sd} (db : ChainsDB Sl Sd) (v : cview) (c : Z) (id : BlockID) (lvl : SafetyLevel) : Prop :=
  match lvl with
  | LevelLocalUnsafe => True
  | LevelCrossUnsafe => exists head, crossUnsafe db !! c = Some head /\ head <> zeroSeal /\ bid_Number id <= bs_Number head
  | LevelLocalSafe => exists ls l, v_local v !! c = Some ls /\ derived_in ls id l
  | LevelCrossSafe => exists xs l, v_cross v !! c = Some xs /\ derived_in xs id l
  | LevelFinalized => finalizedL1 db <> zeroL1BlockRef /\
      exists xs l, v_cross v !! c = Some xs /\ derived_in xs id l /\ src l <= l1_Number (finalizedL1 db)
  | LevelInvalid | LevelOther _ => False
  end.

(** No write is pending, and every log database is the one of its chain. *)
Record settled {Sl Sd} (db : ChainsDB Sl Sd) (v : cview) : Prop := {
  st_stored c a : v_logs v !! c = Some a -> exists p1 evs, a = ALog p1 (Some evs) evs;
  st_named c d : logDBs db !! c = Some d -> ld_chainID d = c }.

(** ** Entries *)

Definition entry_ok (e : bytes) : Prop := length e = 32%nat /\ is_bytes e.

Lemma slice_value_bound lo hi e : entry_ok e -> (lo <= hi <= 32)%nat -> 0 <= be_decode (slice lo hi e) < 256 ^ Z.of_nat (hi - lo).
Proof.
  intros [Hl Hb] Hr. assert (length (slice lo hi e) = hi - lo)%nat as <- by (unfold slice; rewrite length_take, length_drop; lia).
  by apply be_decode_bound, is_bytes_take, is_bytes_drop.
Qed.

Lemma ParseAccess_bounds entries rest acc : Forall entry_ok entries -> ParseAccess entries = Ok (rest, acc) ->
  Forall entry_ok rest /\ is_u64 (acc_BlockNumber acc) /\ is_u64 (acc_Timestamp acc) /\ is_u32 (acc_LogIndex acc).
Proof.
  intros He. unfold ParseAccess. destruct entries as [|e es]; [done|]. cbn [next_entry rbind].
  apply Forall_cons in He as [He Hes].
  assert (is_u64 (be_decode (slice 12 20 e))) as H1 by (apply (slice_value_bound 12 20 e He); lia).
  assert (is_u64 (be_decode (slice 20 28 e))) as H2 by (apply (slice_value_bound 20 28 e He); lia).
  assert (is_u32 (be_decode (slice 28 32 e))) as H3 by (apply (slice_value_bound 28 32 e He); lia).
  rewrite Forall_forall in Hes. destruct es as [|e' [|e'' l]]; cbn [next_entry rbind];
    repeat (first [done|case_match|progress cbn [next_entry rbind]]);
    intros [= <- <-]; cbn [acc_BlockNumber acc_Timestamp acc_LogIndex]; split_and!; try done; apply Forall_forall; set_solver.
Qed.

Section theorems.
Context {Sl Sd : Type} {ESl : EntryStore Sl} {ESd : EntryStore Sd}.
Context {LSl : EntryStoreLaws Sl logs_EntrySize} {LSd : EntryStoreLaws Sd EntrySize}.
Context {MO : MapOrder} {KC : Keccak} {DS : DependencySet}.
Hypothesis Hreliable : forall (s : Sl) i e, st_ok s -> st_view s !! i = Some e -> st_Read s (Z.of_nat i) = Ok e.

Abbreviation CDB := (ChainsDB Sl Sd).

(** ** Inclusion *)

Lemma cdb_Contains_logged (db : CDB) v acc b : chains_inv db v -> settled db v ->
  is_u64 (acc_BlockNumber acc) -> is_u32 (acc_LogIndex acc) ->
  cdb_Contains db (acc_ChainID acc) (access_query acc) = Ok b <-> logged v acc b.
Proof.
  intros Hi [Hst Hnm] Hb Hl. unfold cdb_Contains, chain_get, logged. destruct (logDBs db !! acc_ChainID acc) as [d|] eqn:Hd; cbn [rbind].
  - destruct (inv_logDB db v _ d Hi Hd) as (a & Ha & Hinv). destruct (Hst _ _ Ha) as (p1 & evs & ->).
    rewrite (logs_Contains_spec Hreliable d p1 evs (access_query acc) b Hinv Hb (proj1 Hl)). cbn [access_query cq_BlockNum cq_LogIdx cq_Timestamp cq_Checksum].
    rewrite (Hnm _ _ Hd). split.
    + intros (dn & logs & h & t & lh & m & Hin & Hlog & -> & Hsum & ->). exists p1, evs, dn, logs, lh, m. by split_and!.
    + intros (p1' & evs' & dn & logs & lh & m & Hv & Hin & Hlog & Hsum & Hn & Ht). rewrite Ha in Hv. injection Hv as <- <-.
      exists dn, logs, (bs_Hash b), (acc_Timestamp acc), lh, m. split_and!; [done..|]. destruct b. simpl in *. by subst.
  - split; [done|]. intros (p1 & evs & dn & logs & lh & m & Hv & _).
    pose proof (ci_logs _ _ Hi (acc_ChainID acc)) as Hm. rewrite Hd, Hv in Hm. inversion Hm.
Qed.

Lemma cdb_Contains_no_panic (db : CDB) v acc : chains_inv db v -> settled db v ->
  is_u64 (acc_BlockNumber acc) -> is_u32 (acc_LogIndex acc) -> cdb_Contains db (acc_ChainID acc) (access_query acc) <> Panic.
Proof.
  intros Hi [Hst Hnm] Hb Hl. unfold cdb_Contains, chain_get. destruct (logDBs db !! acc_ChainID acc) as [d|] eqn:Hd; cbn [rbind]; [|done].
  destruct (inv_logDB db v _ d Hi Hd) as (a & Ha & Hinv). destruct (Hst _ _ Ha) as (p1 & evs & ->).
  destruct Hinv as (Hok & es & pend & c & Hv & [Hh Hbd] & Hc & Hh' & _).
  pose proof (reads_view Hreliable _ es Hok Hv) as Hreads.
  assert (nextEntryIndex (lastEntryContext d) <> 0) as Hidx by (rewrite Hc; simpl; pose proof (hist_len _ _ _ Hh'); lia).
  assert (hasCompleteBlock (lastEntryContext d) = true /\ lc_blockNum (lastEntryContext d) = p_num (advs p1 evs)) as Hlast by (by rewrite Hc).
  destruct (Contains_cases d es Hreads p1 evs Hh Hidx Hlast (access_query acc) Hb (proj1 Hl)) as [(lh & h & t & _ & ->)|[_ [e ->]]]; [|done].
  unfold check_log. by repeat case_match.
Qed.

(** ** Safety *)

Lemma mono_derived_any_first ls d : plain ls -> monotone false (cmp_derived_first RevisionAny d) ls.
Proof.
  intros [_ Hp] i j a b Hij Ha Hb. unfold cmp_derived_first. simpl. rewrite !cmp_Compare_nonneg.
  pose proof (adjacent_lookup derived_le ls i j a b Hp Ha Hb Hij) as H. unfold derived_le in H. lia.
Qed.

(** Both databases answer whether they hold a derived block, without a panic. *)
Lemma ContainsDerived_spec (d : Sd) ls id r : holds d ls -> monotone true (cmp_derived_last r (bid_Number id)) ls ->
  ContainsDerived d id r <> Panic /\ (ContainsDerived d id r = Ok tt -> exists l, derived_in ls id l).
Proof.
  intros Hh Hm. unfold ContainsDerived. split.
  - apply rbind_run_no_panic; [apply (find_no_panic d ls); [apply Hh|done]|]. intros [i l] _. by repeat case_match.
  - intros Hc. apply rbind_Ok in Hc as ([i l] & Hl & Hc). apply (find_found d ls) in Hl as [_ Hl _ _]; [|apply Hh|done].
    unfold id_eqb in Hc. case_bool_decide as Heq; [|done]. cbn [negb] in Hc. destruct (le_invalidated l) eqn:Hinv; [done|].
    exists l. split_and!; [by eapply list_elem_of_lookup_2|done|done].
Qed.

Lemma CrossDerivedToSource_spec (db : CDB) v c id : chains_inv db v ->
  cdb_CrossDerivedToSource db c id <> Panic /\ forall s, cdb_CrossDerivedToSource db c id = Ok s ->
    exists xs l, v_cross v !! c = Some xs /\ derived_in xs id l /\ le_source l = s.
Proof.
  intros Hi. unfold cdb_CrossDerivedToSource, chain_get. destruct (crossDBs db !! c) as [x|] eqn:Hx; [|done].
  destruct (inv_cross db v c x Hi Hx) as (xs & Hxs & Hh & Hp). cbn [rbind]. unfold DerivedToFirstSource.
  pose proof (mono_derived_any_first xs (bid_Number id) Hp) as Hm. split.
  - apply rbind_run_no_panic; [apply (find_no_panic x xs); [apply Hh|done]|]. intros [i l] _. by case_match.
  - intros s Hs. apply rbind_Ok in Hs as ([i l] & Hl & Hs). apply (find_found x xs) in Hl as [_ Hl _ _]; [|apply Hh|done].
    unfold id_eqb in Hs. case_bool_decide as Heq; [|done]. apply Ok_inj in Hs. exists xs, l. split; [done|]. split; [|done].
    apply list_elem_of_lookup_2 in Hl. split_and!; [done| |done]. destruct Hp as [Hval _]. by apply (proj1 (Forall_forall _ _) Hval).
Qed.

Lemma checkSafety_spec (su : SupervisorBackend Sl Sd) v c id lvl : chains_inv (su_chainDBs su) v ->
  checkSafety su c id lvl <> Panic /\ (checkSafety su c id lvl = Ok tt -> safe_at (su_chainDBs su) v c id lvl).
Proof.
  intros Hi. destruct lvl; cbn [checkSafety safe_at]; [| | | |done|done|done].
  - unfold cdb_IsFinalized. case_bool_decide as Hz; [done|]. destruct (CrossDerivedToSource_spec _ v c id Hi) as [Hnp Hs].
    destruct (cdb_CrossDerivedToSource _ c id) as [s|e|]; [|done|done]. cbn [map_err rbind].
    destruct (Hs s eq_refl) as (xs & l & Hxs & Hl & <-). destruct (Z.leb_spec (bs_Number (le_source l)) (l1_Number (finalizedL1 (su_chainDBs su)))); [|done].
    split; [done|]. intros _. split; [done|]. by exists xs, l.
  - unfold cdb_IsCrossSafe, chain_get. destruct (crossDBs _ !! c) as [x|] eqn:Hx; [|done].
    destruct (inv_cross _ v c x Hi Hx) as (xs & Hxs & Hh & Hp). cbn [rbind].
    destruct (ContainsDerived_spec x xs id RevisionAny Hh (mono_derived_any _ _ Hp)) as [Hnp Hl]. split; [done|].
    intros Hc. destruct (Hl Hc) as [l Hl']. by exists xs, l.
  - unfold cdb_IsLocalSafe, chain_get. destruct (localDBs _ !! c) as [d|] eqn:Hd; [|done].
    destruct (inv_local _ v c d Hi Hd) as (ls & Hls & Hh). cbn [rbind]. destruct (findRevision_spec _ v c id Hi) as [Hnp Hr].
    destruct (findRevision _ c id) as [r|e|]; [|done|done]. cbn [rbind].
    destruct (ContainsDerived_spec d ls id r Hh) as [Hn Hl]; [apply mono_derived_last; [apply Hh|apply Hh|by apply Hr]|]. split; [done|].
    intros Hc. destruct (Hl Hc) as [l Hl']. by exists ls, l.
  - unfold cdb_IsCrossUnsafe, chain_get. destruct (crossUnsafe _ !! c) as [xU|] eqn:Hx; [|done]. cbn [rbind]. case_bool_decide as Hz; [done|].
    destruct (Z.ltb_spec (bs_Number xU) (bid_Number id)); [done|]. destruct (logDBs _ !! c) as [d|] eqn:Hd; [|done]. cbn [rbind].
    destruct (inv_logDB _ v c d Hi Hd) as (a & _ & Hinv). pose proof (FindSealedBlock_no_panic Hreliable d a (bid_Number id) Hinv) as Hnp.
    destruct (FindSealedBlock d _) as [s|e|]; [|done|done]. cbn [map_err rbind]. split; [by case_match|]. intros _. by exists xU.
Qed.

(** ** Access lists *)

Section access.
Variables (su : SupervisorBackend Sl Sd) (v : cview) (lvl : SafetyLevel) (ed : ExecutingDescriptor).
Hypothesis Hinv : chains_inv (su_chainDBs su) v.
Hypothesis Hsettled : settled (su_chainDBs su) v.
Hypothesis Htime : is_u64 (ed_Timestamp ed) /\ is_u64 (ed_Timeout ed) /\ is_u64 MessageExpiryWindow.

(** The message of an access is there and may execute at [ed]. *)
Definition executable (acc : Access) (b : BlockSeal) : Prop :=
  timely ed MessageExpiryWindow (acc_Timestamp acc) /\ logged v acc b.

Lemma AccessCheck_no_panic w t : AccessCheck ed w t <> Panic.
Proof. unfold AccessCheck. by repeat case_match. Qed.

Lemma checkAccess_spec acc : is_u64 (acc_BlockNumber acc) -> is_u64 (acc_Timestamp acc) -> is_u32 (acc_LogIndex acc) ->
  checkAccess su acc ed <> Panic /\
  forall id, checkAccess su acc ed = Ok id <-> exists b, executable acc b /\ id = BlockSeal_ID b.
Proof.
  intros Hb Ht Hl. destruct Htime as (H1 & H2 & H3). unfold checkAccess, executable.
  pose proof (AccessCheck_timely ed MessageExpiryWindow (acc_Timestamp acc) H1 H2 H3 Ht) as Hck.
  pose proof (AccessCheck_no_panic MessageExpiryWindow (acc_Timestamp acc)) as Hnp.
  pose proof (fun b => cdb_Contains_logged _ v acc b Hinv Hsettled Hb Hl) as Hc.
  pose proof (cdb_Contains_no_panic _ v acc Hinv Hsettled Hb Hl) as Hcp.
  destruct (AccessCheck _ _ _) as [[]|e|]; cbn [rbind]; [| |done].
  - destruct (cdb_Contains _ _ _) as [b|e|]; cbn [rbind]; [| |done]; (split; [done|]); intros id; split; try done.
    + intros [= <-]. exists b. split; [|done]. split; [by apply Hck|by apply Hc].
    + intros (b' & [_ Hb'] & ->). apply Hc in Hb'. by injection Hb' as <-.
    + intros (b' & [_ Hb'] & _). by apply Hc in Hb'.
  - split; [done|]. intros id. split; [done|]. by intros (b & [Htm%Hck _] & _).
Qed.

Lemma access_loop_spec ctx fuel : forall entries, Forall entry_ok entries -> (length entries <= fuel)%nat ->
  access_loop fuel ctx su entries lvl ed <> Panic /\
  (access_loop fuel ctx su entries lvl ed = Ok tt -> exists accs, parses entries accs /\
     Forall (fun acc => exists b, executable acc b /\ checkSafety su (acc_ChainID acc) (BlockSeal_ID b) lvl = Ok tt) accs) /\
  ((forall i, ctx i = None) -> forall accs, parses entries accs ->
     Forall (fun acc => exists b, executable acc b /\ checkSafety su (acc_ChainID acc) (BlockSeal_ID b) lvl = Ok tt) accs ->
     access_loop fuel ctx su entries lvl ed = Ok tt).
Proof.
  induction fuel as [|fuel IH]; intros entries He Hf.
  { destruct entries; [|simpl in Hf; lia]. split; [done|]. split; [|done]. intros _. exists []. split; constructor. }
  destruct entries as [|e es] eqn:Hes; [split; [done|]; split; [|done]; intros _; exists []; split; constructor|].
  rewrite <-Hes in *. assert (entries <> []) as Hne by (by rewrite Hes). unfold access_loop. rewrite Hes. fold access_loop. rewrite <-Hes.
  destruct (ctx fuel) as [ce|] eqn:Hctx; [split; [done|]; split; [done|]; intros Hn; by rewrite Hn in Hctx|].
  pose proof (ParseAccess_no_panic entries) as Hpp. destruct (ParseAccess entries) as [[rest acc]|pe|] eqn:Hp; cbn [map_err rbind].
  2: { split; [done|]. split; [done|]. intros _ accs Hps _. inversion Hps; subst; congruence. }
  2: done.
  destruct (ParseAccess_bounds _ _ _ He Hp) as (Hrest & Hb & Ht & Hl). apply ParseAccess_shorter in Hp as Hsh.
  destruct (checkAccess_spec acc Hb Ht Hl) as [Hanp Hacc]. destruct (IH rest Hrest ltac:(lia)) as (Hnp & Hsnd & Hcmp).
  assert (forall accs, parses entries accs -> exists accs', accs = acc :: accs' /\ parses rest accs') as Hcons.
  { intros accs Hps. inversion Hps as [|? rest' acc' accs' _ Hp' Hps']; subst; [done|]. rewrite Hp in Hp'. injection Hp' as <- <-. by exists accs'. }
  destruct (checkAccess su acc ed) as [id|ae|] eqn:Hca; cbn [map_err rbind]; [| |done].
  2: { split; [done|]. split; [done|]. intros _ accs (accs' & -> & _)%Hcons [(b & Hx & _) _]%Forall_cons.
       assert (Err ae = Ok (BlockSeal_ID b)) as Hbad by (apply Hacc; by exists b). done. }
  destruct (proj1 (Hacc id) eq_refl) as (b & Hx & ->).
  assert (forall b', executable acc b' -> BlockSeal_ID b' = BlockSeal_ID b) as Huniq.
  { intros b' Hx'. assert (Ok (BlockSeal_ID b) = Ok (BlockSeal_ID b')) as Heq by (apply Hacc; by exists b'). by apply Ok_inj in Heq. }
  destruct (checkSafety_spec su v (acc_ChainID acc) (BlockSeal_ID b) lvl Hinv) as [Hsnp _].
  destruct (checkSafety su (acc_ChainID acc) (BlockSeal_ID b) lvl) as [[]|se|] eqn:Hs; cbn [map_err rbind]; [| |done].
  - split; [done|]. split.
    + intros Hok. destruct (Hsnd Hok) as (accs & Hps & Hall). exists (acc :: accs). split; [by econstructor|]. constructor; [by exists b|done].
    + intros Hn accs (accs' & -> & Hps)%Hcons [_ Hall]%Forall_cons. by eapply Hcmp.
  - split; [done|]. split; [done|]. intros _ accs (accs' & -> & _)%Hcons [(b' & Hx' & Hs') _]%Forall_cons.
    rewrite (Huniq b' Hx') in Hs'. congruence.
Qed.
End access.

(** C30: an access list is accepted only for messages that are there.  When the
    check accepts, the list is the entries of messages, each of which was
    initiated strictly before the executing time, does not expire before the
    end of the executing span, is a log of a sealed block of its chain with
    that index, time and checksum, and has its block at the required safety:
    up to the cross-unsafe head, or derived by a link of the local-safe or of
    the cross-safe database, for finality from an L1 block that is final.  A
    list of such messages is accepted when local-unsafe is enough; and the
    check never panics. *)
Theorem access_list_checked (su : SupervisorBackend Sl Sd) v ctx entries lvl ed :
  chains_inv (su_chainDBs su) v -> settled (su_chainDBs su) v -> Forall entry_ok entries ->
  is_u64 (ed_Timestamp ed) -> is_u64 (ed_Timeout ed) -> is_u64 MessageExpiryWindow ->
  CheckAccessList ctx su entries lvl ed <> Panic /\
  (CheckAccessList ctx su entries lvl ed = Ok tt -> exists accs, parses entries accs /\
     Forall (fun acc => exists b, executable v ed acc b /\ safe_at (su_chainDBs su) v (acc_ChainID acc) (BlockSeal_ID b) lvl) accs) /\
  ((forall i, ctx i = None) -> forall accs, parses entries accs -> Forall (fun acc => exists b, executable v ed acc b) accs ->
     CheckAccessList ctx su entries LevelLocalUnsafe ed = Ok tt).
Proof.
  intros Hi Hs He Ht Ho Hw. unfold CheckAccessList.
  pose proof (fun l => access_loop_spec su v l ed Hi Hs (conj Ht (conj Ho Hw)) ctx (length entries) entries He (le_n _)) as Hloop.
  destruct (Hloop lvl) as (Hnp & Hsnd & _). destruct (Hloop LevelLocalUnsafe) as (_ & _ & Hcmp). split_and!.
  - by destruct (known_level lvl).
  - destruct (known_level lvl); [|done]. intros Hok. destruct (Hsnd Hok) as (accs & Hps & Hall). exists accs. split; [done|].
    eapply Forall_impl; [exact Hall|]. intros acc (b & Hx & Hc). exists b. split; [done|].
    by apply (checkSafety_spec su v (acc_ChainID acc) (BlockSeal_ID b) lvl Hi).
  - intros Hn accs Hps Hall. cbn [known_level negb]. eapply (Hcmp Hn accs Hps). eapply Forall_impl; [exact Hall|].
    intros acc (b & Hx). by exists b.
Qed.

(** ** Super roots *)

(** What backs the entry of a chain: the output its node has at that time, and a
    link of the cross-safe database to the node's block. *)
Definition root_backed (su : SupervisorBackend Sl Sd) (v : cview) (t : Z) (info : ChainRootInfo) (l : LinkEntry) : Prop :=
  exists node output ref xs, su_syncSources su !! cri_ChainID info = Some (Some node) /\
    OutputV0AtTimestamp node t = Ok output /\ cri_Canonical info = OutputRoot output /\
    L2BlockRefByTimestamp node t = Ok ref /\ v_cross v !! cri_ChainID info = Some xs /\ derived_in xs (L2BlockRef_ID ref) l.

Lemma chain_root_spec (su : SupervisorBackend Sl Sd) v t s0 c info s : chains_inv (su_chainDBs su) v ->
  chain_root su t s0 c = Ok (info, s) -> cri_ChainID info = c /\
  exists l, root_backed su v t info l /\ 0 <= src l <= bid_Number s /\ bid_Number s0 <= bid_Number s /\
    (s = BlockSeal_ID (le_source l) \/ (s = s0 /\ bid_Number s0 <> 0)).
Proof.
  intros Hi. unfold chain_root. destruct (su_syncSources su !! c) as [[node|]|] eqn:Hn; [|done|done]. intros Hr.
  apply rbind_Ok in Hr as (output & Ho & Hr). apply rbind_Ok in Hr as (pending & _ & Hr). apply rbind_Ok in Hr as (ref & Href & Hr).
  apply rbind_Ok in Hr as (source & Hsrc & Hr). injection Hr as <- <-. cbn [cri_ChainID]. split; [done|].
  destruct (CrossDerivedToSource_spec _ v c (L2BlockRef_ID ref) Hi) as [_ Hs]. destruct (Hs _ Hsrc) as (xs & l & Hxs & Hl & <-).
  exists l. split; [by exists node, output, ref, xs|].
  assert (0 <= bs_Number (le_source l)) as Hpos.
  { assert (exists x, crossDBs (su_chainDBs su) !! c = Some x) as [x Hx].
    { pose proof (ci_cross _ _ Hi c) as Hm. rewrite Hxs in Hm. inversion Hm. by eexists. }
    destruct (inv_cross _ v c x Hi Hx) as (xs' & Hxs' & [Hrep _] & _). rewrite Hxs in Hxs'. injection Hxs' as <-.
    destruct Hl as (Hl & _). pose proof (proj1 (Forall_forall _ _) (rep_wf _ _ Hrep) _ Hl) as [[Hnum _ _] _ _]. apply Hnum. }
  destruct (Z.eqb_spec (bid_Number s0) 0) as [Hz|Hz]; cbn [orb]; [simpl; split_and!; [lia..|by left]|].
  destruct (Z.ltb_spec (bid_Number s0) (bs_Number (le_source l))); simpl; split_and!; try lia; auto.
Qed.

Lemma chain_roots_spec (su : SupervisorBackend Sl Sd) v t chains : chains_inv (su_chainDBs su) v -> forall s0 infos s,
  chain_roots su t s0 chains = Ok (infos, s) -> cri_ChainID <$> infos = chains /\ bid_Number s0 <= bid_Number s /\
  (forall info, info ∈ infos -> exists l, root_backed su v t info l /\ src l <= bid_Number s) /\
  (s = s0 \/ exists info l, info ∈ infos /\ root_backed su v t info l /\ BlockSeal_ID (le_source l) = s) /\
  (infos <> [] -> bid_Number s0 = 0 -> exists info l, info ∈ infos /\ root_backed su v t info l /\ BlockSeal_ID (le_source l) = s).
Proof.
  intros Hi. induction chains as [|c chains IH]; intros s0 infos s; cbn [chain_roots].
  { intros [= <- <-]. split_and!; [done|lia| |by left|done]. intros info Hinfo. by apply elem_of_nil in Hinfo. }
  intros Hr. apply rbind_Ok in Hr as ([info s1] & Hc & Hr). apply rbind_Ok in Hr as ([infos' s2] & Hcs & Hr). injection Hr as <- <-.
  destruct (chain_root_spec su v t s0 c info s1 Hi Hc) as (Hid & l & Hb & Hle & Hmono & Hs1).
  destruct (IH _ _ _ Hcs) as (Hids & Hmono' & Hall & Hlast & _).
  assert (s1 = BlockSeal_ID (le_source l) -> exists info' l', info' ∈ info :: infos' /\ root_backed su v t info' l' /\ BlockSeal_ID (le_source l') = s2) as Hpick.
  { intros Heq. destruct Hlast as [->|(info' & l' & Hin & Hb' & Hl')]; [exists info, l; split_and!; [left|done|done]|].
    exists info', l'. split_and!; [by right|done|done]. }
  split_and!; [by rewrite fmap_cons, Hid, Hids|lia| | |].
  - intros info' [->|Hin]%elem_of_cons; [exists l; split; [done|lia]|by apply Hall].
  - destruct Hs1 as [Heq|[-> _]]; [right; by apply Hpick|]. destruct Hlast as [->|(info' & l' & Hin & Hb' & Hl')]; [by left|right].
    exists info', l'. split_and!; [by right|done|done].
  - intros _ Hz. destruct Hs1 as [Heq|[_ Hnz]]; [by apply Hpick|done].
Qed.

Lemma sorted_lt (l : list Z) : NoDup l -> StronglySorted Z.lt (merge_sort Z.le l).
Proof.
  intros Hnd. assert (StronglySorted Z.le (merge_sort Z.le l)) as Hs by (apply StronglySorted_merge_sort; [intros ? ? ?; lia|intros ? ?; lia]).
  rewrite <-(merge_sort_Permutation Z.le l) in Hnd. induction Hs as [|a m Hs IH Hf]; [constructor|].
  apply NoDup_cons in Hnd as [Ha Hnd]. constructor; [by apply IH|]. apply Forall_forall. intros x Hx.
  pose proof (proj1 (Forall_forall _ _) Hf x Hx). assert (x <> a) by (by intros ->). lia.
Qed.

(** The node of a chain answers at a time, and the cross-safe database has the
    source of its block. *)
Definition chain_answers (su : SupervisorBackend Sl Sd) (t c : Z) : Prop :=
  exists node output pending ref source, su_syncSources su !! c = Some (Some node) /\ OutputV0AtTimestamp node t = Ok output /\
    PendingOutputV0AtTimestamp node t = Ok pending /\ L2BlockRefByTimestamp node t = Ok ref /\
    cdb_CrossDerivedToSource (su_chainDBs su) c (L2BlockRef_ID ref) = Ok source.

Lemma chain_roots_answer (su : SupervisorBackend Sl Sd) t chains : Forall (chain_answers su t) chains ->
  forall s0, exists r, chain_roots su t s0 chains = Ok r.
Proof.
  induction 1 as [|c chains (node & output & pending & ref & source & Hn & Ho & Hp & Hr & Hs) _ IH]; intros s0; [by eexists|].
  cbn [chain_roots]. unfold chain_root. rewrite Hn, Ho, Hp. cbn [rbind]. rewrite Hr. cbn [rbind]. rewrite Hs. cbn [rbind].
  match goal with |- context [chain_roots su t ?s chains] => destruct (IH s) as [[infos s1] ->] end. by eexists.
Qed.

(** C31: a super root is backed by the nodes and the cross-safe databases.  There
    is a response when the node of every chain answers and its block is in the
    cross-safe database.  A response has one entry for every chain of the
    dependency set, and the super root it stands for hashes to the root it
    carries.  Each entry is the hash of the output of the chain's node at the
    time, whose block is derived by a link of the cross-safe database from an L1
    block not after the one that the response names, and the response names the
    source of such a link. *)
Theorem super_root_backed (su : SupervisorBackend Sl Sd) v t :
  chains_inv (su_chainDBs su) v -> NoDup Chains ->
  (Forall (chain_answers su t) Chains -> exists r, SuperRootAtTimestamp su t = Ok r) /\
  forall r, SuperRootAtTimestamp su t = Ok r ->
  cri_ChainID <$> sr_Chains r ≡ₚ Chains /\
  (exists s, ToSuper r = Ok s /\ SuperRoot s = sr_SuperRoot r) /\
  (forall info, info ∈ sr_Chains r -> exists l, root_backed su v t info l /\ src l <= bid_Number (sr_CrossSafeDerivedFrom r)) /\
  (Chains <> [] -> exists info l, info ∈ sr_Chains r /\ root_backed su v t info l /\ BlockSeal_ID (le_source l) = sr_CrossSafeDerivedFrom r).
Proof.
  intros Hi Hnd. split.
  { intros Ha. unfold SuperRootAtTimestamp. rewrite <-(merge_sort_Permutation Z.le) in Ha.
    destruct (chain_roots_answer su t _ Ha zeroBlockID) as [[infos s] ->]. by eexists. }
  intros r Hr. unfold SuperRootAtTimestamp in Hr. apply rbind_Ok in Hr as ([infos s] & Hcs & Hr). injection Hr as <-.
  cbn [sr_Chains sr_SuperRoot sr_CrossSafeDerivedFrom].
  destruct (chain_roots_spec su v t _ Hi _ _ _ Hcs) as (Hids & _ & Hall & _ & Hne). split_and!.
  - rewrite Hids. apply merge_sort_Permutation.
  - eexists. split; [apply ToSuper_sorted; [done|]; cbn [sr_Chains]; rewrite Hids; by apply sorted_lt|done].
  - done.
  - intros Hc. apply Hne; [|done]. intros ->. simpl in Hids. apply Hc, Permutation_nil_r. by rewrite <-(merge_sort_Permutation Z.le), <-Hids.
Qed.

(** A chain whose node was never attached makes the query panic. *)
Lemma unattached_panics (su : SupervisorBackend Sl Sd) c t s0 chains : su_syncSources su !! c = Some None -> chain_roots su t s0 (c :: chains) = Panic.
Proof. intros Hn. cbn [chain_roots]. unfold chain_root. by rewrite Hn. Qed.
End theorems.

(** ** A message, its access list and a super root *)

Module SupervisorExamples.
Section examples.
Import ChainsExamples RewinderExamples IndexingExamples.
#[local] Typeclasses Opaque LogStore LinkStore.
#[local] Existing Instances log_store log_laws link_store link_laws hash order inbox.

(** Messages expire after an hour. *)
#[local] Instance hourly : DependencySet :=
  {| CanExecuteAt _ _ := Ok true; CanInitiateAt _ _ := Ok true; ChainIDFromIndex i := Ok i; ChainIndexFromID i := Ok i;
     Chains := [901]; HasChain c := c =? 901; MessageExpiryWindow := 3600 |}.

Definition receipts : list Receipt := [{| rc_Status := 1; rc_Logs := [message] |}].

(** The chains database with block 11 and its log. *)
Definition indexed : ChainsDB LogStore LinkStore := (process (DS := one_chain) reorg_start 901 B11 receipts).1.

Definition backend (db : ChainsDB LogStore LinkStore) (sources : gmap Z (option SyncSource)) : SupervisorBackend LogStore LinkStore :=
  {| su_started := true; su_chainDBs := db; su_chainProcessors := ∅; su_syncSources := sources; su_emitted := [] |}.

Lemma indexed_log : exists d, logDBs indexed = {[901 := d]} /\ ld_chainID d = 901.
Proof. eexists. split; [vm_compute; reflexivity|reflexivity]. Qed.

Lemma indexed_settled : exists v, chains_inv indexed v /\ settled indexed v.
Proof.
  assert (at_log reorg_start 901 (ALog anchor_pos (Some []) [])) as Hat by (exists reorg_view; split; [apply reorg_inv|reflexivity]).
  assert (block_ok (DS := one_chain) (B11, receipts)) as Hb.
  { destruct client_answers as [_ Hblock Hrec]. split; [by apply (Hblock 11)|by apply (Hrec 0)]. }
  pose proof (process_spec (DS := one_chain) log_reliable reorg_start 901 anchor_pos [] (B11, receipts) Hat eq_refl Hb eq_refl) as Hp.
  assert (Hok : (process (DS := one_chain) reorg_start 901 B11 receipts).2 = Ok tt) by (vm_compute; reflexivity).
  assert (Hone : forall c d, logDBs indexed !! c = Some d -> c = 901 /\ ld_chainID d = 901).
  { destruct indexed_log as (d0 & -> & Hc0). intros c d Hd. apply lookup_singleton_Some in Hd as [<- <-]. by split. }
  cbn [fst snd] in Hp. revert Hone. unfold indexed. destruct (process (DS := one_chain) reorg_start 901 B11 receipts) as [db r].
  cbn [fst snd] in *. subst r. intros Hone. destruct Hp as (es & _ & v & Hi & Hv). exists v. split; [done|]. split; [|by intros c d [-> ?]%Hone].
  intros c a Ha. pose proof (ci_logs _ _ Hi c) as Hm. rewrite Ha in Hm. destruct (logDBs db !! c) as [d|] eqn:Hd; [|inversion Hm].
  destruct (Hone _ _ Hd) as [-> _]. rewrite Hv in Ha. injection Ha as <-. by eexists _, _.
Qed.

(** The access of that log. *)
Definition indexed_logHash : Z := Eval vm_compute in match block_events (DS := one_chain) (B11, receipts) with Ok (EvLog h _ :: _) => h | _ => 0 end.
Definition access : Access :=
  {| acc_BlockNumber := 11; acc_Timestamp := l1_Time B11; acc_LogIndex := 0; acc_ChainID := 901;
     acc_Checksum := Checksum {| ca_BlockNumber := 11; ca_LogIndex := 0; ca_Timestamp := l1_Time B11; ca_ChainID := 901;
                                 ca_LogHash := indexed_logHash |} |}.
Definition entries : list bytes := Eval vm_compute in match EncodeAccessList [access] with Ok es => es | _ => [] end.
Definition soon : ExecutingDescriptor := {| ed_Timestamp := l1_Time B11 + 12; ed_Timeout := 60 |}.

Lemma access_list_roundtrip_witness : exists es, EncodeAccessList [access] = Ok es /\ forall accs, parses es accs <-> accs = [access].
Proof. apply (access_list_roundtrip [access]). repeat constructor; vm_compute; (reflexivity || discriminate). Defined.

(** The list is accepted, and so the message is there. *)
Lemma access_list_checked_witness : exists v accs, chains_inv indexed v /\ parses entries accs /\ accs <> [] /\
  Forall (fun acc => exists b, executable v soon acc b) accs.
Proof.
  destruct indexed_settled as (v & Hi & Hs). exists v.
  assert (He : Forall entry_ok entries).
  { unfold entries. repeat (apply List.Forall_cons; [split; [reflexivity|apply is_bytes_check; vm_compute; reflexivity]|]). apply List.Forall_nil. }
  assert (H1 : is_u64 (ed_Timestamp soon)) by (split; vm_compute; (reflexivity || discriminate)).
  assert (H2 : is_u64 (ed_Timeout soon)) by (split; vm_compute; (reflexivity || discriminate)).
  assert (H3 : is_u64 MessageExpiryWindow) by (split; vm_compute; (reflexivity || discriminate)).
  destruct (access_list_checked log_reliable (backend indexed ∅) v (fun _ => None) entries LevelLocalUnsafe soon Hi Hs He H1 H2 H3) as (_ & Hsnd & _).
  assert (Hok : CheckAccessList (fun _ => None) (backend indexed ∅) entries LevelLocalUnsafe soon = Ok tt) by (vm_compute; reflexivity).
  destruct (Hsnd Hok) as (accs & Hp & Hall). exists accs. split; [exact Hi|]. split; [exact Hp|]. split.
  - intros Hn. rewrite Hn in Hp. inversion Hp.
  - eapply Forall_impl; [exact Hall|]. intros acc (b & Hx & _). exists b. exact Hx.
Defined.

(** The message's block is not cross-safe yet, and it cannot execute at its own
    time. *)
Lemma access_list_refused :
  CheckAccessList (fun _ => None) (backend indexed ∅) entries LevelCrossSafe soon = Err ErrConflict /\
  CheckAccessList (fun _ => None) (backend indexed ∅) entries LevelLocalUnsafe {| ed_Timestamp := l1_Time B11; ed_Timeout := 0 |} = Err ErrConflict /\
  CheckAccessList (fun _ => None) (backend indexed ∅) entries LevelInvalid soon = Err (Msg "unexpected min-safety level").
Proof. vm_compute. split_and!; reflexivity. Qed.

(** A node whose block at every time is the anchor's. *)
Definition node_output : OutputV0 := {| ov_StateRoot := replicate 32 1; ov_MessagePasserStorageRoot := replicate 32 2; ov_BlockHash := hash_bytes (l1_Hash Examples.D10) |}.
Definition anchor_node : SyncSource :=
  {| OutputV0AtTimestamp _ := Ok node_output; PendingOutputV0AtTimestamp _ := Ok node_output;
     L2BlockRefByTimestamp _ := Ok {| l2_Hash := l1_Hash Examples.D10; l2_Number := 10; l2_ParentHash := l1_ParentHash Examples.D10;
                                      l2_Time := l1_Time Examples.D10; l2_L1Origin := zeroBlockID; l2_SequenceNumber := 0 |} |}.

Lemma super_root_backed_witness : exists r, SuperRootAtTimestamp (backend reorg_start {[901 := Some anchor_node]}) 50 = Ok r /\
  sr_CrossSafeDerivedFrom r = L1BlockRef_ID Examples.S5 /\ exists s, ToSuper r = Ok s /\ SuperRoot s = sr_SuperRoot r.
Proof.
  assert (Hnd : NoDup Chains) by apply NoDup_singleton.
  destruct (super_root_backed (backend reorg_start {[901 := Some anchor_node]}) reorg_view 50 reorg_inv Hnd) as [Ha Hb].
  destruct Ha as [r Hr].
  { apply Forall_singleton. eexists anchor_node, _, _, _, _. split_and!; vm_compute; reflexivity. }
  exists r. split; [exact Hr|]. split; [|exact (proj1 (proj2 (Hb r Hr)))].
  assert (Hf : exists r0, SuperRootAtTimestamp (backend reorg_start {[901 := Some anchor_node]}) 50 = Ok r0 /\ sr_CrossSafeDerivedFrom r0 = L1BlockRef_ID Examples.S5).
  { eexists. split; vm_compute; reflexivity. }
  destruct Hf as (r0 & Hr0 & Hf). rewrite Hr in Hr0. apply Ok_inj in Hr0. rewrite Hr0. exact Hf.
Defined.

Lemma super_root_roundtrip_witness : UnmarshalSuperRoot (SuperV1_Marshal {| sv_Timestamp := 50; sv_Chains := [{| co_ChainID := 901; co_Output := replicate 32 7 |}] |}) [9] =
  Ok {| sv_Timestamp := 50; sv_Chains := [{| co_ChainID := 901; co_Output := replicate 32 7 |}] |}.
Proof.
  apply (super_root_roundtrip {| sv_Timestamp := 50; sv_Chains := [{| co_ChainID := 901; co_Output := replicate 32 7 |}] |} [9]).
  split; [split; vm_compute; (reflexivity || discriminate)|]. split; [discriminate|].
  constructor; [split; [split; vm_compute; (reflexivity || discriminate)|reflexivity]|constructor].
Defined.

(** ** Surprises *)

(** A backend that has opened its databases answers a query for a super root
    with a panic until a node is attached. *)
Definition opened : SupervisorBackend LogStore LinkStore * result unit :=
  initResources (Sl := LogStore) (Sd := LinkStore)
    (fun c => Ok {| ld_store := file []; ld_chainID := c; lastEntryContext := lc_new 0 |})
    (fun _ => Ok (file [])) (fun _ => Ok (file [])) (backend NewChainsDB ∅).

Lemma super_root_before_attach : opened.2 = Ok tt /\ SuperRootAtTimestamp opened.1 50 = Panic.
Proof. vm_compute. split; reflexivity. Qed.

(** A backend that was not started does not stop: the resources of one whose
    construction failed stay open. *)
Lemma stop_before_start close db : su_Stop close (su_set_started (backend db ∅) false) = (su_set_started (backend db ∅) false, Err errAlreadyStopped).
Proof. reflexivity. Qed.

(** An extension entry of zeros is accepted: a message has more than one
    access list. *)
Lemma access_list_not_canonical :
  exists es es', EncodeAccessList [access] = Ok es /\ es <> es' /\ ParseAccess es = ParseAccess es'.
Proof.
  exists entries, (match entries with [a; b] => [a; PrefixChainIDExtension :: replicate 31 0; b] | es => es end).
  vm_compute. split_and!; [reflexivity|discriminate|reflexivity].
Qed.
End examples.
End SupervisorExamples.
