(* ===== verification/P2PBase.v ===== *)
(** * What the peer-to-peer code takes from libraries

    The LRU caches of [hashicorp/golang-lru], the two formats of
    [golang/snappy] and the signatures of go-ethereum are parameters, with the
    documented behaviour that the theorems rely on as laws.  The bounded list
    at the end is one implementation of the cache. *)

From stdpp Require Import base gmap list.
From S2P Require Import Prelude EthTypes.

(** ** Least-recently-used caches *)

(** The operations return the entries that were evicted, in the order in
    which the eviction callback gets them.  [lru_Remove] calls it too. *)
Class Lru (C K V : Type) : Type := {
  lru_new : C;
  lru_Get : K -> C -> option V * C;
  lru_Contains : K -> C -> bool;
  lru_Add : K -> V -> C -> list (K * V) * C;
  lru_Remove : K -> C -> list (K * V) * C }.

(** A cache of [cap] entries: adding a key that is new to a full cache drops
    one entry, and nothing else is ever dropped. *)
Class LruLaws (C K V : Type) `{Countable K} `{!Lru C K V} (cap : nat) : Type := {
  lru_view : C -> gmap K V;
  lru_new_view : lru_view lru_new = ∅;
  lru_Get_view k c : (lru_Get k c).1 = lru_view c !! k /\ lru_view (lru_Get k c).2 = lru_view c;
  lru_Contains_view k c : lru_Contains k c = bool_decide (is_Some (lru_view c !! k));
  lru_Add_view k v c :
    (lru_Add k v c).1 = [] /\ lru_view (lru_Add k v c).2 = <[k:=v]> (lru_view c)
      /\ (lru_view c !! k = None -> (size (lru_view c) < cap)%nat)
    \/ exists k' v', (lru_Add k v c).1 = [(k', v')] /\ lru_view c !! k' = Some v'
         /\ lru_view c !! k = None /\ (cap <= size (lru_view c))%nat
         /\ lru_view (lru_Add k v c).2 = <[k:=v]> (delete k' (lru_view c));
  lru_Remove_view k c :
    lru_view (lru_Remove k c).2 = delete k (lru_view c)
    /\ (lru_Remove k c).1 = match lru_view c !! k with Some v => [(k, v)] | None => [] end }.
Arguments lru_view {C K V} {_ _ _ cap _} c : rename.

(** What a cache shows after an addition. *)
Lemma lru_Add_lookup {C K V} `{Countable K} `{!Lru C K V} {cap} `{!LruLaws C K V cap} k v (c : C) :
  lru_view (lru_Add k v c).2 !! k = Some v.
Proof.
  destruct (lru_Add_view k v c) as [(_ & -> & _)|(k' & v' & _ & _ & _ & _ & ->)]; by rewrite lookup_insert_eq.
Qed.

Lemma lru_Add_sub {C K V} `{Countable K} `{!Lru C K V} {cap} `{!LruLaws C K V cap} k v (c : C) j w :
  lru_view (lru_Add k v c).2 !! j = Some w -> j <> k -> lru_view c !! j = Some w.
Proof.
  intros Hj Hn. destruct (lru_Add_view k v c) as [(_ & E & _)|(k' & v' & _ & _ & _ & _ & E)];
    rewrite E, lookup_insert_ne in Hj by done; [done|]. by apply lookup_delete_Some in Hj as [_ Hj].
Qed.

(** ** Compression *)

(** The block format, whose encoder panics when its input is too large, and
    the framing format of the streams, of which a reader takes up to [n] bytes
    of contents.  A decoder that fails gives [None]; what
    the error says is only logged. *)
Class Snappy : Type := {
  snappy_DecodedLen : bytes -> option Z;
  snappy_Decode : bytes -> option bytes;
  snappy_Encode : bytes -> result bytes;
  snappy_frame : bytes -> bytes;
  snappy_ReadAll : Z -> bytes -> result bytes }.

(** Inputs of up to 2 GiB are encoded; the length of the contents leads the
    encoding, and the decoder fails when it does not find as many bytes. *)
Class SnappyLaws `{Snappy} : Prop := {
  snappy_Encode_Decode d : len d <= 2 ^ 31 -> exists out, snappy_Encode d = Ok out
    /\ snappy_DecodedLen out = Some (len d) /\ snappy_Decode out = Some d;
  snappy_Decode_len m d : snappy_Decode m = Some d -> snappy_DecodedLen m = Some (len d);
  snappy_ReadAll_frame n d : len d <= n -> snappy_ReadAll n (snappy_frame d) = Ok d }.

(** ** Signatures *)

Class BlockCrypto : Type := {
  PrivateKey : Type;
  crypto_Keccak256 : bytes -> bytes;
  crypto_Sign : bytes -> PrivateKey -> result bytes;
  crypto_SigToAddress : bytes -> bytes -> result Z;
  crypto_Address : PrivateKey -> Z }.

(** [crypto_SigToAddress] is [crypto.SigToPub] and then
    [crypto.PubkeyToAddress].  A signature of a hash recovers to the address of its key. *)
Class BlockCryptoLaws `{BlockCrypto} : Prop := {
  Keccak256_length b : length (crypto_Keccak256 b) = 32%nat;
  Sign_length h k sig : crypto_Sign h k = Ok sig -> length sig = 65%nat;
  Sign_recovers h k sig : crypto_Sign h k = Ok sig -> crypto_SigToAddress h sig = Ok (crypto_Address k);
  SigToAddress_no_panic h sig : crypto_SigToAddress h sig <> Panic }.

(** ** A cache as a list, the most recent entry first *)

Section list_cache.
Context {K V : Type} `{Countable K} (cap : nat).

Definition items_ok (l : list (K * V)) : bool :=
  bool_decide (NoDup l.*1 /\ (length l <= cap)%nat).

Record LruList : Type := { ll_items : list (K * V); ll_ok : Is_true (items_ok ll_items) }.

Definition ll_find (k : K) (l : list (K * V)) : option V := (list_to_map l : gmap K V) !! k.

Definition ll_without (k : K) (l : list (K * V)) : list (K * V) :=
  filter (fun kv => kv.1 <> k) l.

Lemma items_ok_spec l : Is_true (items_ok l) <-> NoDup l.*1 /\ (length l <= cap)%nat.
Proof. unfold items_ok. apply bool_decide_spec. Qed.

Lemma elem_of_without k j l : j ∈ (ll_without k l).*1 <-> j ∈ l.*1 /\ j <> k.
Proof.
  unfold ll_without. rewrite !list_elem_of_fmap. split.
  - intros (p & -> & Hp). apply list_elem_of_filter in Hp as [Hn Hp]. eauto.
  - intros [(p & -> & Hp) Hn]. exists p. split; [done|]. by apply list_elem_of_filter.
Qed.

Lemma without_nodup k l : NoDup l.*1 -> NoDup (ll_without k l).*1.
Proof.
  unfold ll_without. induction l as [|p l IH]; simpl; [done|]. intros Hd.
  apply NoDup_cons in Hd as [Hn Hd]. rewrite filter_cons. case_decide; simpl; [|by apply IH].
  apply NoDup_cons. split; [|by apply IH]. intros Hin. apply Hn. by apply (elem_of_without k) in Hin as [? _].
Qed.

Lemma without_length k l : (length (ll_without k l) <= length l)%nat.
Proof. apply length_filter. Qed.

Lemma without_shorter k l : k ∈ l.*1 -> (length (ll_without k l) < length l)%nat.
Proof.
  unfold ll_without. induction l as [|p l IH]; simpl; [by intros ?%elem_of_nil|].
  intros [->|Hk]%elem_of_cons; rewrite filter_cons.
  - rewrite decide_False by (intros Hn; done). pose proof (length_filter (fun kv => kv.1 <> p.1) l). lia.
  - specialize (IH Hk). case_decide; simpl; lia.
Qed.

Lemma find_without k j l : ll_find j (ll_without k l) = if decide (j = k) then None else ll_find j l.
Proof.
  unfold ll_find, ll_without. induction l as [|p l IH]; [by case_decide|]. rewrite filter_cons.
  destruct (decide (p.1 <> k)) as [Hp|Hp]; simpl.
  - destruct (decide (j = p.1)) as [->|Hj]; [by rewrite decide_False, !lookup_insert_eq|].
    by rewrite !lookup_insert_ne, IH by done.
  - apply dec_stable in Hp as <-. rewrite IH. case_decide; [done|]. by rewrite lookup_insert_ne.
Qed.

Lemma find_None k l : ll_find k l = None <-> k ∉ l.*1.
Proof. unfold ll_find. symmetry. apply not_elem_of_list_to_map. Qed.

(** The entries after an addition, and the one that does not fit. *)
Definition add_items (k : K) (v : V) (l : list (K * V)) : list (K * V) :=
  take cap ((k, v) :: ll_without k l).

Lemma add_ok k v l : Is_true (items_ok l) -> Is_true (items_ok (add_items k v l)).
Proof.
  rewrite !items_ok_spec. intros [Hd Hl]. unfold add_items. split; [|rewrite length_take; lia].
  rewrite fmap_take. eapply sublist_NoDup, sublist_take. simpl. apply NoDup_cons. split; [|by apply without_nodup].
  rewrite elem_of_without. by intros [_ ?].
Qed.

Lemma without_ok k l : Is_true (items_ok l) -> Is_true (items_ok (ll_without k l)).
Proof.
  rewrite !items_ok_spec. intros [Hd Hl]. split; [by apply without_nodup|].
  pose proof (without_length k l). lia.
Qed.

Lemma touch_ok k v l : Is_true (items_ok l) -> ll_find k l = Some v ->
  Is_true (items_ok ((k, v) :: ll_without k l)).
Proof.
  rewrite !items_ok_spec. intros [Hd Hl] Hk. split.
  - simpl. apply NoDup_cons. split; [|by apply without_nodup]. rewrite elem_of_without. by intros [_ ?].
  - assert (k ∈ l.*1) as Hin.
    { apply dec_stable. rewrite <- find_None. by rewrite Hk. }
    apply without_shorter in Hin. simpl. lia.
Qed.

Definition ll_new : LruList := {| ll_items := []; ll_ok := proj2 (items_ok_spec []) (conj (NoDup_nil_2) (Nat.le_0_l cap)) |}.

Definition ll_add (k : K) (v : V) (c : LruList) : list (K * V) * LruList :=
  (drop cap ((k, v) :: ll_without k (ll_items c)),
   {| ll_items := add_items k v (ll_items c); ll_ok := add_ok k v _ (ll_ok c) |}).

Definition ll_remove (k : K) (c : LruList) : list (K * V) * LruList :=
  (match ll_find k (ll_items c) with Some v => [(k, v)] | None => [] end,
   {| ll_items := ll_without k (ll_items c); ll_ok := without_ok k _ (ll_ok c) |}).

Definition ll_get (k : K) (c : LruList) : option V * LruList :=
  match ll_find k (ll_items c) as o return ll_find k (ll_items c) = o -> option V * LruList with
  | Some v => fun E => (Some v, {| ll_items := (k, v) :: ll_without k (ll_items c);
                                   ll_ok := touch_ok k v _ (ll_ok c) E |})
  | None => fun _ => (None, c)
  end eq_refl.

#[export] Instance list_lru : Lru LruList K V := {|
  lru_new := ll_new;
  lru_Get := ll_get;
  lru_Contains k c := bool_decide (is_Some (ll_find k (ll_items c)));
  lru_Add := ll_add;
  lru_Remove := ll_remove |}.
End list_cache.

Section list_laws.
Context {K V : Type} `{Countable K} (cap : nat) (Hcap : (0 < cap)%nat).

Definition ll_view (c : LruList (K := K) (V := V) cap) : gmap K V := list_to_map (ll_items cap c).

Lemma ll_items_ok (c : LruList (K := K) (V := V) cap) :
  NoDup (ll_items cap c).*1 /\ (length (ll_items cap c) <= cap)%nat.
Proof. apply items_ok_spec, ll_ok. Qed.

Lemma size_view (l : list (K * V)) : NoDup l.*1 -> size (list_to_map l : gmap K V) = length l.
Proof.
  induction l as [|[k v] l IH]; intros Hd; [done|]. simpl in *. apply NoDup_cons in Hd as [Hn Hd].
  rewrite map_size_insert_None by by apply not_elem_of_list_to_map. by rewrite IH.
Qed.

Lemma without_absent k (l : list (K * V)) : k ∉ l.*1 -> ll_without k l = l.
Proof.
  unfold ll_without. induction l as [|p l IH]; [done|]. simpl. rewrite not_elem_of_cons. intros [Hp Hl].
  rewrite filter_cons, decide_True, IH by done. done.
Qed.

Lemma view_without k (l : list (K * V)) :
  (list_to_map (ll_without k l) : gmap K V) = delete k (list_to_map l).
Proof.
  apply map_eq. intros j. pose proof (find_without k j l) as E. unfold ll_find in E. rewrite E.
  case_decide as Hj; [subst; by rewrite lookup_delete_eq|by rewrite lookup_delete_ne].
Qed.

Lemma ll_get_view k c : (ll_get cap k c).1 = ll_view c !! k /\ ll_view (ll_get cap k c).2 = ll_view c.
Proof.
  unfold ll_get, ll_view. change (list_to_map (ll_items cap c) !! k) with (ll_find k (ll_items cap c)).
  generalize (touch_ok (V := V) cap k). intros T.
  assert (forall o (E : ll_find k (ll_items cap c) = o) (p : option V * LruList cap),
    p = match o as o' return ll_find k (ll_items cap c) = o' -> option V * LruList cap with
        | Some v => fun E => (Some v, {| ll_items := (k, v) :: ll_without k (ll_items cap c);
                                         ll_ok := T v _ (ll_ok cap c) E |})
        | None => fun _ => (None, c) end E ->
    p.1 = o /\ (list_to_map (ll_items cap p.2) : gmap K V) = list_to_map (ll_items cap c)) as Hx.
  { intros [v|] E p ->; [|done]. simpl. split; [done|]. rewrite view_without.
    rewrite insert_delete_id by done. done. }
  destruct (Hx _ eq_refl _ eq_refl) as [Ha Hb]. split; [exact Ha|exact Hb].
Qed.

Lemma ll_add_view k v c :
  (ll_add cap k v c).1 = [] /\ ll_view (ll_add cap k v c).2 = <[k:=v]> (ll_view c)
    /\ (ll_view c !! k = None -> (size (ll_view c) < cap)%nat)
  \/ exists k' v', (ll_add cap k v c).1 = [(k', v')] /\ ll_view c !! k' = Some v'
       /\ ll_view c !! k = None /\ (cap <= size (ll_view c))%nat
       /\ ll_view (ll_add cap k v c).2 = <[k:=v]> (delete k' (ll_view c)).
Proof.
  destruct (ll_items_ok c) as [Hd Hl]. unfold ll_view, ll_add, add_items. simpl.
  set (l := ll_items cap c) in *. rewrite size_view by done.
  destruct (decide (k ∈ l.*1)) as [Hk|Hk].
  - left. pose proof (without_shorter k l Hk). rewrite drop_ge, take_ge by (simpl; lia).
    split_and!; [done| |by intros Hn%not_elem_of_list_to_map]. simpl.
    by rewrite view_without, insert_delete_eq.
  - rewrite without_absent by done. pose proof (proj1 (not_elem_of_list_to_map (M := gmap K) l k) Hk) as Hn.
    destruct (decide (length l < cap)%nat) as [Hs|Hs].
    + left. rewrite drop_ge, take_ge by (simpl; lia). by split_and!.
    + right. assert (length l = cap) as Hc by lia.
      destruct (List.exists_last (l := l)) as (l' & [k' v'] & E); [by intros E; rewrite E in Hc; simpl in Hc; lia|].
      exists k', v'. rewrite E in Hd, Hc |- *. rewrite length_app in Hc. simpl in Hc.
      rewrite fmap_app in Hd. apply NoDup_app in Hd as (Hd & Hx & _).
      assert (k' ∉ l'.*1) as Hk' by (intros Hin; apply (Hx _ Hin); simpl; by apply list_elem_of_singleton).
      change ((k, v) :: l' ++ [(k', v')]) with (((k, v) :: l') ++ [(k', v')]).
      rewrite drop_app_length', take_app_length' by (simpl; lia).
      rewrite E in Hn. split_and!; [done| |done|rewrite length_app; simpl; lia|].
      * rewrite list_to_map_app, lookup_union_r; [simpl; apply lookup_insert_eq|].
        by apply not_elem_of_list_to_map.
      * simpl. f_equal. apply map_eq. intros j. destruct (decide (j = k')) as [->|Hj].
        -- rewrite lookup_delete_eq. by apply not_elem_of_list_to_map.
        -- rewrite lookup_delete_ne, list_to_map_app by done. simpl.
           destruct ((list_to_map l' : gmap K V) !! j) eqn:Ej; symmetry.
           ++ by apply lookup_union_Some_l.
           ++ rewrite lookup_union_r by done. by rewrite lookup_insert_ne, lookup_empty.
Qed.

#[export] Instance list_lru_laws : LruLaws (LruList cap) K V cap.
Proof.
  refine {| lru_view := ll_view |}.
  - done.
  - apply ll_get_view.
  - done.
  - apply ll_add_view.
  - intros k c. split; [apply view_without|done].
Defined.
End list_laws.
