(* ===== verification/Signer.v ===== *)
(** * Block signing

    Models [rhs-service/signer]: the message that a sequencer signs for a
    block, the arguments of the remote signing service, the two signers, and
    the verification of a signed block.  Hashes, domains and signatures are
    their bytes; a chain id is an integer of 256 bits. *)

From stdpp Require Import base list.
From S2P Require Import Prelude EthTypes Ssz SszCodec P2PBase.

Definition zeros (n : nat) : bytes := replicate n 0.

(** [uint256.MustFromBig]: a nil pointer or a value of more than 256 bits
    panics; a negative value wraps around. *)
Definition ChainIDFromBig (chainID : option Z) : result Z :=
  match chainID with
  | None => Panic
  | Some id => if 2 ^ 256 <=? Z.abs id then Panic else Ok (id mod 2 ^ 256)
  end.

(** ** The signed message *)

Section signing.
Context `{BlockCrypto}.

Definition SigningDomainBlocksV1 : bytes := zeros 32.

Record BlockSigningMessage : Type := {
  bsm_Domain : bytes;
  bsm_ChainID : Z;
  bsm_PayloadHash : bytes }.

Definition signing_input (msg : BlockSigningMessage) : bytes :=
  take 32 (bsm_Domain msg) ++ be_encode 32 (bsm_ChainID msg) ++ take 32 (bsm_PayloadHash msg).

Definition ToSigningHash (msg : BlockSigningMessage) : bytes := crypto_Keccak256 (signing_input msg).

Definition PayloadHash (payload : bytes) : bytes := crypto_Keccak256 payload.

(** ** Arguments of the signing service *)

Record BlockPayloadArgs : Type := {
  bpa_Domain : bytes;
  bpa_ChainID : option Z;
  bpa_PayloadHash : bytes;
  bpa_SenderAddress : option Z }.

Definition NewBlockPayloadArgs (domain : bytes) (chainId : option Z) (payloadBytes : bytes)
    (senderAddress : option Z) : BlockPayloadArgs :=
  {| bpa_Domain := domain; bpa_ChainID := chainId; bpa_PayloadHash := PayloadHash payloadBytes;
     bpa_SenderAddress := senderAddress |}.

Definition BlockPayloadArgs_Check (args : BlockPayloadArgs) : result unit :=
  match bpa_ChainID args with
  | None => Err (Msg "chainId not specified")
  | Some id =>
      if 2 ^ 256 <=? Z.abs id then Err (Msg "chain_id is too large")
      else if (length (bpa_PayloadHash args) =? 0)%nat then Err (Msg "payloadHash not specified")
      else if negb (length (bpa_PayloadHash args) =? 32)%nat then
        Err (Msg "payloadHash has unexpected length")
      else Ok ()
  end.

Definition BlockPayloadArgs_Message (args : BlockPayloadArgs) : result BlockSigningMessage :=
  let* _ := BlockPayloadArgs_Check args in
  let* id := ChainIDFromBig (bpa_ChainID args) in
  Ok {| bsm_Domain := bpa_Domain args; bsm_ChainID := id; bsm_PayloadHash := bpa_PayloadHash args |}.

Record BlockPayloadArgsV2 : Type := {
  bpa2_Domain : bytes;
  bpa2_ChainID : Z;
  bpa2_PayloadHash : bytes;
  bpa2_SenderAddress : option Z }.

Definition BlockPayloadArgsV2_Message (args : BlockPayloadArgsV2) : result BlockSigningMessage :=
  if bpa2_ChainID args =? 0 then Err (Msg "chainId not specified")
  else if bool_decide (bpa2_PayloadHash args = zeros 32) then Err (Msg "payloadHash not specified")
  else Ok {| bsm_Domain := bpa2_Domain args; bsm_ChainID := bpa2_ChainID args;
             bsm_PayloadHash := bpa2_PayloadHash args |}.

(** ** Verification *)

Record OPStackP2PBlockAuthV1 : Type := { Allowed : Z; auth_Chain : Z }.

Definition auth_Check (a : OPStackP2PBlockAuthV1) (signer : Z) : result unit :=
  if Allowed a =? 0 then Err (Msg "missing signer address configuration")
  else if Allowed a =? signer then Ok ()
  else Err (Msg "unrecognized signer").

Definition VerifyP2PBlockSignature (a : OPStackP2PBlockAuthV1) (payloadHash signature : bytes) : result unit :=
  let msg := {| bsm_Domain := SigningDomainBlocksV1; bsm_ChainID := auth_Chain a;
                bsm_PayloadHash := payloadHash |} in
  let signingHash := ToSigningHash msg in
  let* addr := map_err (Wrap "failed to recover pubkey from signing hash and pubkey")
                 (crypto_SigToAddress signingHash signature) in
  auth_Check a addr.

(** Any type is an [Authenticator]; one implements the block authentication. *)
Inductive Authenticator : Type :=
  | P2PBlockAuth (a : OPStackP2PBlockAuthV1)
  | OtherAuth.

Record SignedP2PBlock : Type := { Raw : bytes; spb_Signature : bytes }.

Definition SignedP2PBlock_VerifySignature (s : SignedP2PBlock) (auth : Authenticator) : result unit :=
  match auth with
  | OtherAuth => Err (Msg "expected P2P auth context")
  | P2PBlockAuth a => VerifyP2PBlockSignature a (PayloadHash (Raw s)) (spb_Signature s)
  end.

Record SignedExecutionPayloadEnvelope : Type := {
  spe_Envelope : DecodedEnvelope;
  spe_Signature : bytes }.

Definition SignedEnvelope_VerifySignature (pool : bytes) (s : SignedExecutionPayloadEnvelope)
    (auth : Authenticator) : result unit :=
  let* raw := map_err (Wrap "failed to encode execution envelope")
                (Envelope_MarshalSSZ pool (spe_Envelope s)) in
  SignedP2PBlock_VerifySignature {| Raw := raw; spb_Signature := spe_Signature s |} auth.

(** ** Signers *)

Record LocalSigner : Type := { ls_priv : option PrivateKey }.

Definition LocalSigner_SignBlockV1 (s : LocalSigner) (chainID : Z) (payloadHash : bytes) : result bytes :=
  match ls_priv s with
  | None => Err (Msg "signer is closed")
  | Some priv =>
      let msg := {| bsm_Domain := SigningDomainBlocksV1; bsm_ChainID := chainID;
                    bsm_PayloadHash := payloadHash |} in
      crypto_Sign (ToSigningHash msg) priv
  end.

Definition LocalSigner_Close (s : LocalSigner) : LocalSigner := {| ls_priv := None |}.

(** The service answers a call with the bytes of its result. *)
Definition SignerClient : Type := BlockPayloadArgs -> result bytes.

Definition SignBlockPayload (call : SignerClient) (args : BlockPayloadArgs) : result bytes :=
  let* result := map_err (Wrap "opsigner_signBlockPayload failed") (call args) in
  if negb (length result =? 65)%nat then Err (Msg "invalid signature") else Ok result.

Record RemoteSigner : Type := { rs_client : option SignerClient; rs_sender : option Z }.

Definition RemoteSigner_SignBlockV1 (s : RemoteSigner) (chainID : Z) (payloadHash : bytes) : result bytes :=
  match rs_client s with
  | None => Err (Msg "signer is closed")
  | Some client =>
      SignBlockPayload client
        {| bpa_Domain := SigningDomainBlocksV1; bpa_ChainID := Some chainID;
           bpa_PayloadHash := payloadHash; bpa_SenderAddress := rs_sender s |}
  end.

Definition RemoteSigner_Close (s : RemoteSigner) : RemoteSigner :=
  {| rs_client := None; rs_sender := rs_sender s |}.

(** [BlockSigner]: what the publisher uses of a signer. *)
Definition BlockSigner : Type := Z -> bytes -> result bytes.
End signing.

(** ** What the signatures cover *)

Section theorems.
Context `{BlockCrypto} `{!BlockCryptoLaws}.

Record message_ok (msg : BlockSigningMessage) : Prop := {
  mo_Domain : length (bsm_Domain msg) = 32%nat;
  mo_ChainID : 0 <= bsm_ChainID msg < 2 ^ 256;
  mo_PayloadHash : length (bsm_PayloadHash msg) = 32%nat }.

(** Different messages are hashed from different inputs. *)
Lemma signing_input_inj m1 m2 : message_ok m1 -> message_ok m2 ->
  signing_input m1 = signing_input m2 -> m1 = m2.
Proof.
  intros [D1 C1 P1] [D2 C2 P2]. unfold signing_input. rewrite !take_ge by lia. intros E.
  apply app_inj_1 in E as [Ed E]; [|lia]. apply app_inj_1 in E as [Ec Ep]; [|by rewrite !length_be_encode].
  apply (f_equal be_decode) in Ec. rewrite !be_fixed in Ec by done.
  destruct m1, m2; simpl in *. by subst.
Qed.

(** A block is verified exactly when its signature recovers to the address
    that is configured, which is not zero. *)
Lemma verify_iff a raw sig :
  SignedP2PBlock_VerifySignature {| Raw := raw; spb_Signature := sig |} (P2PBlockAuth a) = Ok ()
  <-> Allowed a <> 0 /\ crypto_SigToAddress (ToSigningHash
        {| bsm_Domain := SigningDomainBlocksV1; bsm_ChainID := auth_Chain a;
           bsm_PayloadHash := PayloadHash raw |}) sig = Ok (Allowed a).
Proof.
  unfold SignedP2PBlock_VerifySignature, VerifyP2PBlockSignature, auth_Check. simpl.
  destruct (crypto_SigToAddress _ sig) as [addr|e|]; simpl; [|naive_solver..].
  destruct (Z.eqb_spec (Allowed a) 0); [naive_solver|]. destruct (Z.eqb_spec (Allowed a) addr); naive_solver.
Qed.

Lemma verify_no_panic a raw sig :
  SignedP2PBlock_VerifySignature {| Raw := raw; spb_Signature := sig |} (P2PBlockAuth a) <> Panic.
Proof.
  unfold SignedP2PBlock_VerifySignature, VerifyP2PBlockSignature, auth_Check. simpl.
  pose proof (SigToAddress_no_panic (ToSigningHash
    {| bsm_Domain := SigningDomainBlocksV1; bsm_ChainID := auth_Chain a;
       bsm_PayloadHash := PayloadHash raw |}) sig).
  destruct (crypto_SigToAddress _ sig); simpl; repeat case_match; done.
Qed.

(** What a local signer signs is verified by the nodes of its chain that know
    its address. *)
Lemma sign_verify k chain raw sig : crypto_Address k <> 0 ->
  LocalSigner_SignBlockV1 {| ls_priv := Some k |} chain (PayloadHash raw) = Ok sig ->
  SignedP2PBlock_VerifySignature {| Raw := raw; spb_Signature := sig |}
    (P2PBlockAuth {| Allowed := crypto_Address k; auth_Chain := chain |}) = Ok ().
Proof. intros Hk Hs. apply verify_iff. split; [done|]. by apply Sign_recovers. Qed.

(** A service that signs the message of its arguments gives the signatures of
    a local signer with its key. *)
Lemma remote_local k sender chain payload : 0 <= chain < 2 ^ 256 ->
  RemoteSigner_SignBlockV1
    {| rs_client := Some (fun args => let* m := BlockPayloadArgs_Message args in crypto_Sign (ToSigningHash m) k);
       rs_sender := sender |} chain (PayloadHash payload)
  = map_err (Wrap "opsigner_signBlockPayload failed")
      (LocalSigner_SignBlockV1 {| ls_priv := Some k |} chain (PayloadHash payload)).
Proof.
  intros Hc. unfold RemoteSigner_SignBlockV1, SignBlockPayload, BlockPayloadArgs_Message,
    BlockPayloadArgs_Check, ChainIDFromBig, LocalSigner_SignBlockV1, PayloadHash. cbn.
  rewrite Keccak256_length, !(proj2 (Z.leb_gt _ _)) by lia. cbn. rewrite Z.mod_small by lia.
  destruct (crypto_Sign _ k) as [sig|e|] eqn:Es; cbn; [|done..]. apply Sign_length in Es. by rewrite Es.
Qed.

(** A signed envelope without a beacon root is never verified, although the
    publisher sends such envelopes. *)
Lemma signed_envelope_needs_root pool payload sig auth :
  SignedEnvelope_VerifySignature pool
    {| spe_Envelope := {| de_ParentBeaconBlockRoot := None; de_ExecutionPayload := Some payload |};
       spe_Signature := sig |} auth
  = Err (Wrap "failed to encode execution envelope" ErrMissingData).
Proof. done. Qed.
End theorems.
