(* ===== verification/Gossip.v ===== *)
(** * Block gossip

    Models [rhs-node/p2p/gossip.go]: the ids of messages, the validator of the
    blocks topics with the cache of blocks seen at each height, the publisher,
    and the subscriber that hands accepted payloads to the node.  The topics,
    compression, signatures and the clock are parameters. *)

From stdpp Require Import base gmap list strings pretty.
From S2P Require Import Prelude EthTypes RollupConfig Ssz SszCodec P2PBase Signer.

Definition maxGossipSize : Z := 10 * Z.shiftl 1 20.
Definition minGossipSize : Z := 66.

(** ** Topics and message ids *)

Definition chain_string (chainID : option Z) : string :=
  match chainID with None => "<nil>" | Some id => pretty id end.

Definition blocksTopic (cfg : Config) (version : BlockVersion) : string :=
  "/optimism/" +:+ chain_string (L2ChainID cfg)
  +:+ match version with
      | BlockV1 => "/0/blocks"
      | BlockV2 => "/1/blocks"
      | BlockV3 => "/2/blocks"
      | BlockV4 => "/3/blocks"
      end.

Definition BuildSubscriptionFilter (cfg : Config) : list string :=
  blocksTopic cfg <$> [BlockV1; BlockV2; BlockV3; BlockV4].

Definition MessageDomainInvalidSnappy : bytes := [0; 0; 0; 0].
Definition MessageDomainValidSnappy : bytes := [1; 0; 0; 0].

Section ids.
Context `{Snappy} (sha256 : bytes -> bytes).

(** Whether a message is compressed well, and what it holds. *)
Definition msg_contents (data : bytes) : bool * bytes :=
  match snappy_DecodedLen data with
  | Some dLen =>
      if dLen <=? maxGossipSize then
        match snappy_Decode data with Some d => (true, d) | None => (false, data) end
      else (false, data)
  | None => (false, data)
  end.

Definition msg_id_input (topic data : bytes) : bytes :=
  let '(valid, data) := msg_contents data in
  (if valid then MessageDomainValidSnappy else MessageDomainInvalidSnappy)
  ++ le_encode 8 (len topic) ++ topic ++ data.

Definition BuildMsgIdFn (topic data : bytes) : bytes := take 20 (sha256 (msg_id_input topic data)).
End ids.

(** ** The validator *)

Inductive ValidationResult : Type := ValidationAccept | ValidationReject | ValidationIgnore.

#[global] Instance ValidationResult_eq_dec : EqDecision ValidationResult.
Proof. solve_decision. Defined.

(** The hashes seen at one height. *)
Definition seenBlocks : Type := list Hash.

Definition hasSeen (sb : seenBlocks) (h : Hash) : Z * bool :=
  (Z.of_nat (length sb), bool_decide (h ∈ sb)).

Definition markSeen (sb : seenBlocks) (h : Hash) : seenBlocks := sb ++ [h].

Section validator.
Context `{Snappy} `{BlockCrypto} {C : Type} `{!Lru C Z nat}.

(** The decompressed message; [None] is rejected. *)
Definition decompress (message : bytes) : option bytes :=
  match snappy_DecodedLen message with
  | None => None
  | Some outLen =>
      if maxGossipSize <? outLen then None
      else if outLen <? minGossipSize then None
      else snappy_Decode message
  end.

Definition verifyBlockSignature (cfg : Config) (P2PSequencerAddress : Z) (signature payloadBytes : bytes)
    : result ValidationResult :=
  let* chain := ChainIDFromBig (L2ChainID cfg) in
  let authCtx := {| Allowed := P2PSequencerAddress; auth_Chain := chain |} in
  if Allowed authCtx =? 0 then Ok ValidationIgnore
  else match SignedP2PBlock_VerifySignature {| Raw := payloadBytes; spb_Signature := signature |}
               (P2PBlockAuth authCtx) with
       | Ok _ => Ok ValidationAccept
       | Err _ => Ok ValidationReject
       | Panic => Panic
       end.

(** What is checked before the cache of seen blocks: a verdict, or the payload
    whose height and hash are looked up there. *)
Definition check_message (cfg : Config) (P2PSequencerAddress : Z) (blockVersion : BlockVersion) (now : Z)
    (message : bytes) : result (ValidationResult + ExecutionPayload) :=
  match decompress message with
  | None => Ok (inl ValidationReject)
  | Some data =>
      if len data <? 65 then Panic
      else
        let payloadBytes := drop 65 data in
        let* res := verifyBlockSignature cfg P2PSequencerAddress (take 65 data) payloadBytes in
        if negb (bool_decide (res = ValidationAccept)) then Ok (inl res)
        else match UnmarshalSSZ blockVersion (u32 (len payloadBytes)) payloadBytes with
             | Panic => Panic
             | Err _ => Ok (inl ValidationReject)
             | Ok (payload, _) =>
                 if ep_Timestamp payload <? now -u 86400 then Ok (inl ValidationReject)
                 else if now +u 5 <? ep_Timestamp payload then Ok (inl ValidationReject)
                 else Ok (inr payload)
             end
  end.

(** The cache holds pointers to the lists of hashes. *)
Record GossipState : Type := { blockHeightLRU : C; seen_heap : list seenBlocks }.

Definition deref (p : nat) (st : GossipState) : seenBlocks := default [] (seen_heap st !! p).

(** [seen = new(seenBlocks); blockHeightLRU.Add(number, seen)], with the
    height that makes place for it. *)
Definition add_height (number : Z) (st : GossipState) : nat * list Z * GossipState :=
  let p := length (seen_heap st) in
  let '(evicted, lru) := lru_Add number p (blockHeightLRU st) in
  (p, evicted.*1, {| blockHeightLRU := lru; seen_heap := seen_heap st ++ [[]] |}).

Definition get_height (number : Z) (st : GossipState) : option nat * GossipState :=
  let '(o, lru) := lru_Get number (blockHeightLRU st) in
  (o, {| blockHeightLRU := lru; seen_heap := seen_heap st |}).

Definition mark_seen (p : nat) (h : Hash) (st : GossipState) : GossipState :=
  {| blockHeightLRU := blockHeightLRU st; seen_heap := <[p := markSeen (deref p st) h]> (seen_heap st) |}.

(** The verdict of the cache. *)
Definition seen_verdict (p : nat) (h : Hash) (st : GossipState) : ValidationResult :=
  let '(count, has) := hasSeen (deref p st) h in
  if 5 <? count then ValidationReject
  else if has then ValidationIgnore
  else ValidationAccept.

Definition validate_payload (payload : ExecutionPayload) (st : GossipState)
    : ValidationResult * option DecodedEnvelope * GossipState :=
  let '(o, st) := get_height (ep_BlockNumber payload) st in
  let '(p, st) :=
    match o with
    | Some p => (p, st)
    | None => let '(p, _, st) := add_height (ep_BlockNumber payload) st in (p, st)
    end in
  match seen_verdict p (ep_BlockHash payload) st with
  | ValidationAccept =>
      (ValidationAccept,
       Some {| de_ParentBeaconBlockRoot := None; de_ExecutionPayload := Some payload |},
       mark_seen p (ep_BlockHash payload) st)
  | v => (v, None, st)
  end.

(** The verdict with the [ValidatorData] of the message. *)
Definition BuildBlocksValidator (cfg : Config) (P2PSequencerAddress : Z) (blockVersion : BlockVersion)
    (now : Z) (message : bytes) (st : GossipState)
    : result (ValidationResult * option DecodedEnvelope) * GossipState :=
  match check_message cfg P2PSequencerAddress blockVersion now message with
  | Panic => (Panic, st)
  | Err e => (Err e, st)
  | Ok (inl v) => (Ok (v, None), st)
  | Ok (inr payload) => let '(v, d, st) := validate_payload payload st in (Ok (v, d), st)
  end.

Definition guardGossipValidator (r : result (ValidationResult * option DecodedEnvelope))
    : ValidationResult * option DecodedEnvelope :=
  match r with
  | Ok v => v
  | _ => (ValidationReject, None)
  end.

(** The validator of a topic, as it is registered. *)
Definition blocksValidator (cfg : Config) (addr : Z) (version : BlockVersion) (now : Z) (message : bytes)
    (st : GossipState) : ValidationResult * option DecodedEnvelope * GossipState :=
  let '(r, st) := BuildBlocksValidator cfg addr version now message st in
  (guardGossipValidator r, st).
End validator.
Arguments GossipState C : clear implicits.

(** ** The subscriber *)

(** The messages that pass the validator arrive with their [ValidatorData];
    what [OnUnsafeL2Payload] returns is logged.  Its calls. *)
Definition MakeSubscriber {P : Type} (messages : list (P * option DecodedEnvelope))
    : list (P * DecodedEnvelope) :=
  omap (fun '(from, data) => match data with None => None | Some payload => Some (from, payload) end) messages.

(** ** The publisher *)

Fixpoint combine_new {P : Type} `{EqDecision P} (seen res : list P) (peers : list P) : list P * list P :=
  match peers with
  | [] => (seen, res)
  | p :: peers =>
      if bool_decide (p ∈ seen) then combine_new seen res peers
      else combine_new (p :: seen) (res ++ [p]) peers
  end.

Definition combinePeers {P : Type} `{EqDecision P} (allPeers : list (list P)) : list P :=
  (foldl (fun s peers => combine_new s.1 s.2 peers) ([], []) allPeers).2.

Definition AllBlockTopicsPeers {P : Type} `{EqDecision P} (ListPeers : BlockVersion -> list P) : list P :=
  combinePeers (ListPeers <$> [BlockV1; BlockV2; BlockV3; BlockV4]).

Section publisher.
Context `{Snappy} `{BlockCrypto}.

(** The topic of a payload. *)
Definition topic_version (cfg : Config) (timestamp : Z) : BlockVersion :=
  if IsIsthmus cfg timestamp then BlockV4
  else if IsEcotone cfg timestamp then BlockV3
  else if IsCanyon cfg timestamp then BlockV2
  else BlockV1.

Definition publishRawSignedPayload (publish : BlockVersion -> bytes -> result unit) (cfg : Config)
    (timestamp : Z) (data : bytes) : result unit :=
  let* out := snappy_Encode data in
  publish (topic_version cfg timestamp) out.

Definition encode_envelope (pool : bytes) (envelope : DecodedEnvelope) : result bytes :=
  match de_ParentBeaconBlockRoot envelope with
  | Some _ => map_err (Wrap "failed to encoded execution payload envelope to publish")
                (Envelope_MarshalSSZ pool envelope)
  | None =>
      match de_ExecutionPayload envelope with
      | None => Panic
      | Some payload => map_err (Wrap "failed to encoded execution payload to publish")
                          (MarshalSSZ pool payload)
      end
  end.

Definition envelope_timestamp (envelope : DecodedEnvelope) : result Z :=
  match de_ExecutionPayload envelope with None => Panic | Some p => Ok (ep_Timestamp p) end.

Definition PublishSignedL2Payload (publish : BlockVersion -> bytes -> result unit) (cfg : Config)
    (pool : bytes) (signedEnvelope : SignedExecutionPayloadEnvelope) : result unit :=
  let* enc := encode_envelope pool (spe_Envelope signedEnvelope) in
  let data := spe_Signature signedEnvelope ++ enc in
  let* timestamp := envelope_timestamp (spe_Envelope signedEnvelope) in
  publishRawSignedPayload publish cfg timestamp data.

Definition SignAndPublishL2Payload (publish : BlockVersion -> bytes -> result unit) (cfg : Config)
    (pool : bytes) (envelope : DecodedEnvelope) (signer : BlockSigner) : result unit :=
  let* enc := encode_envelope pool envelope in
  let data := zeros 65 ++ enc in
  let payloadData := drop 65 data in
  let payloadHash := PayloadHash payloadData in
  let* chainID := ChainIDFromBig (L2ChainID cfg) in
  let* sig := map_err (Wrap "failed to sign execution payload with signer") (signer chainID payloadHash) in
  let data := take 65 sig ++ drop (length (take 65 sig)) data in
  let* timestamp := envelope_timestamp envelope in
  publishRawSignedPayload publish cfg timestamp data.
End publisher.

(** The topics that are closed, with the errors of closing them. *)
Definition publisher_Close (close : BlockVersion -> option error) : list BlockVersion * list error :=
  let topics := [BlockV1; BlockV2] in (topics, omap close topics).

(** ** Validators that run concurrently *)

(** The registration of the validator lets up to 4 of them run at once; they
    share the cache and its lists, and each access is one step: the lookup of
    the height, its addition, the check of the hash, its addition. *)
Inductive worker : Type :=
  | WGet (payload : ExecutionPayload)
  | WAdd (payload : ExecutionPayload)
  | WCheck (payload : ExecutionPayload) (p : nat)
  | WMark (payload : ExecutionPayload) (p : nat).

Definition validatorConcurrency : nat := 4.

Section concurrent.
Context {C : Type} `{!Lru C Z nat}.

Record Validators : Type := {
  vs_state : GossipState C;
  vs_workers : list worker;
  vs_accepted : list ExecutionPayload;
  vs_evicted : list Z }.

Inductive action : Type :=
  | Start (payload : ExecutionPayload)
  | Run (i : nat).

Definition worker_step (w : worker) (i : nat) (s : Validators) : Validators :=
  match w with
  | WGet payload =>
      let '(o, st) := get_height (ep_BlockNumber payload) (vs_state s) in
      let w := match o with Some p => WCheck payload p | None => WAdd payload end in
      {| vs_state := st; vs_workers := <[i := w]> (vs_workers s);
         vs_accepted := vs_accepted s; vs_evicted := vs_evicted s |}
  | WAdd payload =>
      let '(p, evicted, st) := add_height (ep_BlockNumber payload) (vs_state s) in
      {| vs_state := st; vs_workers := <[i := WCheck payload p]> (vs_workers s);
         vs_accepted := vs_accepted s; vs_evicted := evicted ++ vs_evicted s |}
  | WCheck payload p =>
      let ws := match seen_verdict p (ep_BlockHash payload) (vs_state s) with
                | ValidationAccept => <[i := WMark payload p]> (vs_workers s)
                | _ => delete i (vs_workers s)
                end in
      {| vs_state := vs_state s; vs_workers := ws;
         vs_accepted := vs_accepted s; vs_evicted := vs_evicted s |}
  | WMark payload p =>
      {| vs_state := mark_seen p (ep_BlockHash payload) (vs_state s);
         vs_workers := delete i (vs_workers s);
         vs_accepted := payload :: vs_accepted s; vs_evicted := vs_evicted s |}
  end.

(** A message that passed [check_message] starts a worker when one is free. *)
Definition validators_step (limit : nat) (s : Validators) (a : action) : Validators :=
  match a with
  | Start payload =>
      if (length (vs_workers s) <? limit)%nat then
        {| vs_state := vs_state s; vs_workers := vs_workers s ++ [WGet payload];
           vs_accepted := vs_accepted s; vs_evicted := vs_evicted s |}
      else s
  | Run i => match vs_workers s !! i with Some w => worker_step w i s | None => s end
  end.

Definition run_validators (limit : nat) (actions : list action) (s : Validators) : Validators :=
  foldl (validators_step limit) s actions.

Definition validators_start (st : GossipState C) : Validators :=
  {| vs_state := st; vs_workers := []; vs_accepted := []; vs_evicted := [] |}.
End concurrent.
Arguments Validators C : clear implicits.
