(* ===== verification/PayloadSync.v ===== *)
(** * Block sync by request and response

    Models [rhs-node/p2p/sync.go]: the client that fetches the blocks below a
    trusted one from its peers and forwards those that the parent hashes
    verify, the protocol of one request, and the server.  Goroutines, the
    handlers of the main loop and the peers are steps on one state; the
    streams, the rate limiters, the clock and the receiver of the payloads are
    parameters. *)

From stdpp Require Import base gmap list strings.
From S2P Require Import Prelude EthTypes RollupConfig Ssz SszCodec P2PBase Gossip.

(** ** Blocks and their hash *)

(** The fields of the header that [CheckBlockHash] fills in. *)
Record PayloadHeader : Type := {
  ph_ParentHash : Hash;
  ph_Coinbase : Z;
  ph_Root : Hash;
  ph_TxHash : Hash;
  ph_ReceiptHash : Hash;
  ph_Bloom : bytes;
  ph_Number : Z;
  ph_GasLimit : Z;
  ph_GasUsed : Z;
  ph_Time : Z;
  ph_Extra : bytes;
  ph_MixDigest : bytes;
  ph_BaseFee : Z }.

(** [types.DeriveSha] of the transactions and [Header.Hash] are parameters. *)
Class HeaderHash : Type := {
  derive_sha : list bytes -> Hash;
  header_hash : PayloadHeader -> Hash }.

(** [int64(x)] *)
Definition to_int64 (x : Z) : Z := if x <? 2 ^ 63 then x else x - 2 ^ 64.

Definition payload_header `{HeaderHash} (payload : ExecutionPayload) : PayloadHeader :=
  {| ph_ParentHash := ep_ParentHash payload; ph_Coinbase := ep_FeeRecipient payload;
     ph_Root := ep_StateRoot payload; ph_TxHash := derive_sha (ep_Transactions payload);
     ph_ReceiptHash := ep_ReceiptsRoot payload; ph_Bloom := ep_LogsBloom payload;
     ph_Number := to_int64 (ep_BlockNumber payload); ph_GasLimit := ep_GasLimit payload;
     ph_GasUsed := ep_GasUsed payload; ph_Time := ep_Timestamp payload;
     ph_Extra := ep_ExtraData payload; ph_MixDigest := ep_PrevRandao payload;
     ph_BaseFee := ep_BaseFeePerGas payload |}.

Definition CheckBlockHash `{HeaderHash} (envelope : DecodedEnvelope) : result (Hash * bool) :=
  match de_ExecutionPayload envelope with
  | None => Panic
  | Some payload =>
      let blockHash := header_hash (payload_header payload) in
      Ok (blockHash, blockHash =? ep_BlockHash payload)
  end.

(** ** The protocol *)

Definition ResultCodeSuccess : Z := 0.
Definition ResultCodeNotFoundErr : Z := 1.
Definition ResultCodeInvalidErr : Z := 2.
Definition ResultCodeUnknownErr : Z := 3.

Definition PayloadByNumberProtocolID (l2ChainID : option Z) : string :=
  "/opstack/req/payload_by_number/" +:+ chain_string l2ChainID +:+ "/0".

Definition PeerID : Type := string.

Definition readExecutionPayload (version : Z) (data : bytes) (isCanyon isIsthmus : bool)
    : result DecodedEnvelope :=
  if version =? 0 then
    let blockVersion := if isCanyon then BlockV2 else BlockV1 in
    let* (res, _) := map_err (Wrap "failed to decode response") (UnmarshalSSZ blockVersion (u32 (len data)) data) in
    Ok {| de_ParentBeaconBlockRoot := None; de_ExecutionPayload := Some res |}
  else if version =? 1 then
    let blockVersion := if isIsthmus then BlockV4 else BlockV3 in
    let* (envelope, _) := map_err (Wrap "failed to decode execution payload envelope response")
                            (Envelope_UnmarshalSSZ blockVersion (u32 (len data)) data) in
    Ok envelope
  else Err (Msg "unrecognized version").

Definition verifyBlock `{HeaderHash} (envelope : DecodedEnvelope) (expectedNum : Z) : result unit :=
  match de_ExecutionPayload envelope with
  | None => Panic
  | Some payload =>
      if negb (expectedNum =? ep_BlockNumber payload) then
        Err (Msg "received execution payload for another block than expected")
      else
        let* (actual, ok) := CheckBlockHash envelope in
        if negb ok then Err (Msg "received execution payload with bad block hash") else Ok ()
  end.

(** What a request ends with: the code of the server, or another error. *)
Inductive requestErr : Type :=
  | requestResultErr (code : Z)
  | OtherRequestErr (e : error).

Inductive requestResult : Type :=
  | RequestOk (envelope : DecodedEnvelope)
  | RequestErr (e : requestErr)
  | RequestPanic.

(** One stream: what opening it, writing and closing the two sides give, and
    the bytes that the server sends. *)
Record Stream : Type := {
  str_open : option error;
  str_write : option error;
  str_closeWrite : option error;
  str_response : bytes;
  str_closeRead : option error }.

Section request.
Context `{Snappy} `{HeaderHash}.

Definition LimitReader (n : Z) (r : bytes) : bytes := if len r <=? n then r else take (Z.to_nat n) r.

(** The response up to the check of the block. *)
Definition read_response (cfg : Config) (expectedBlockNum : Z) (response : bytes) : result (Z + DecodedEnvelope) :=
  let r := LimitReader maxGossipSize response in
  let* (result, r) := map_err (Wrap "failed to read result part of response") (ReadFull 1 r) in
  let res := le_decode result in
  if negb (res =? 0) then Ok (inl res)
  else
    let* (versionData, r) := map_err (Wrap "failed to read version part of response") (ReadFull 4 r) in
    let* data := map_err (Wrap "failed to read response") (snappy_ReadAll maxGossipSize r) in
    let version := le_decode versionData in
    let isCanyon := IsCanyon cfg (TimestampForBlock cfg expectedBlockNum) in
    let isIsthmus := IsIsthmus cfg (TimestampForBlock cfg expectedBlockNum) in
    let* envelope := readExecutionPayload version data isCanyon isIsthmus in
    Ok (inr envelope).

Definition request_failed (o : option error) (s : string) (k : requestResult) : requestResult :=
  match o with Some e => RequestErr (OtherRequestErr (Wrap s e)) | None => k end.

(** [doRequest] until it hands the result to the main loop. *)
Definition doRequest (cfg : Config) (str : Stream) (expectedBlockNum : Z) : requestResult :=
  request_failed (str_open str) "failed to open stream"
  (request_failed (str_write str) "failed to write request"
  (request_failed (str_closeWrite str) "failed to close writer side while making request"
  match read_response cfg expectedBlockNum (str_response str) with
  | Panic => RequestPanic
  | Err e => RequestErr (OtherRequestErr e)
  | Ok (inl code) => RequestErr (requestResultErr code)
  | Ok (inr envelope) =>
      match str_closeRead str with
      | Some _ => RequestErr (OtherRequestErr (Msg "failed to close reading side"))
      | None =>
          match verifyBlock envelope expectedBlockNum with
          | Panic => RequestPanic
          | Err e => RequestErr (OtherRequestErr (Wrap "received execution payload is invalid" e))
          | Ok _ => RequestOk envelope
          end
      end
  end)).

Definition panicGuard (r : requestResult) : DecodedEnvelope + requestErr :=
  match r with
  | RequestOk envelope => inl envelope
  | RequestErr e => inr e
  | RequestPanic => inr (OtherRequestErr (Msg "recovered from a panic"))
  end.
End request.

(** ** The server *)

Definition errInvalidRequest : error := Msg "invalid request".

(** What the libraries and the chain answer to one request: the waits for the
    two rate limiters, the request's bytes, the payload, and the writes of the
    response. *)
Record ServerEnv : Type := {
  se_globalWait : option error;
  se_peerWait : option error;
  se_request : bytes;
  se_closeRead : option error;
  se_now : Z;
  se_PayloadByNumber : Z -> result DecodedEnvelope;
  se_writeHeader : option error;
  se_writerClose : option error;
  se_pool : bytes }.

Section server.
Context `{Snappy} {CP : Type} `{!Lru CP PeerID unit} (cfg : Config).

(** The cache of the rate limits of peers, the mutex around it, and the bytes
    that were written to the stream. *)
Record ReqRespServer : Type := {
  peerRateLimits : CP;
  srv_locked : bool;
  srv_out : bytes }.

Definition set_srv_out (s : ReqRespServer) (out : bytes) : ReqRespServer :=
  {| peerRateLimits := peerRateLimits s; srv_locked := srv_locked s; srv_out := srv_out s ++ out |}.

(** [binary.Read] of the eight bytes of the request. *)
Definition read_request (b : bytes) : result Z :=
  let* (d, _) := ReadFull 8 b in Ok (le_decode d).

Definition check_request (now req : Z) : result unit :=
  if req <? bid_Number (L2 (cfg_Genesis cfg)) then
    Err (Wrap "cannot serve request for core block before genesis" errInvalidRequest)
  else match TargetBlockNumber cfg now with
       | Panic => Panic
       | Err _ => Err (Wrap "cannot determine max target block number to verify request" errInvalidRequest)
       | Ok max =>
           if max <? req then
             Err (Wrap "cannot serve request for core block after max expected block" errInvalidRequest)
           else Ok ()
       end.

Definition wrap_payload_err (e : error) : error :=
  if errors_Is e NotFound then Wrap "peer requested unknown block by number" e
  else Wrap "failed to retrieve payload to serve to peer" e.

(** The header is on the stream before the payload is encoded; the encoder's
    output reaches it in frames when the writer is closed. *)
Definition write_response (env : ServerEnv) (envelope : DecodedEnvelope) : bytes * result unit :=
  match de_ExecutionPayload envelope with
  | None => ([], Panic)
  | Some payload =>
      let '(header, enc) :=
        if IsEcotone cfg (ep_Timestamp payload) then ([0; 1; 0; 0; 0], Envelope_MarshalSSZ (se_pool env) envelope)
        else ([0; 0; 0; 0; 0], MarshalSSZ (se_pool env) payload) in
      match se_writeHeader env with
      | Some e => ([], Err (Wrap "failed to write response header data" e))
      | None =>
          match enc with
          | Panic => (header, Panic)
          | Err e => (header, Err (Wrap "failed to write payload to sync response" e))
          | Ok data =>
              match se_writerClose env with
              | Some e => (header, Err (Wrap "failed to finishing writing payload to sync response" e))
              | None => (header ++ snappy_frame data, Ok ())
              end
          end
      end
  end.

(** [None]: the goroutine waits for the mutex.  A new peer gets a limiter, and
    does not wait. *)
Definition peer_limit (env : ServerEnv) (peerId : PeerID) (s : ReqRespServer) : option (ReqRespServer * result unit) :=
  if srv_locked s then None
  else
    let '(ps, lru) := lru_Get peerId (peerRateLimits s) in
    match ps with
    | None => Some ({| peerRateLimits := (lru_Add peerId () lru).2; srv_locked := false; srv_out := srv_out s |}, Ok ())
    | Some _ =>
        match se_peerWait env with
        | Some e => Some ({| peerRateLimits := lru; srv_locked := true; srv_out := srv_out s |},
                          Err (Wrap "timed out waiting for global sync rate limit" e))
        | None => Some ({| peerRateLimits := lru; srv_locked := false; srv_out := srv_out s |}, Ok ())
        end
    end.

Definition serve_request (env : ServerEnv) (s : ReqRespServer) : ReqRespServer * (Z * result unit) :=
  match map_err (Wrap "failed to read requested block number") (read_request (se_request env)) with
  | Panic => (s, (0, Panic))
  | Err e => (s, (0, Err e))
  | Ok req =>
      match se_closeRead env with
      | Some e => (s, (req, Err (Wrap "failed to close reading-side of a P2P sync request call" e)))
      | None =>
          match check_request (se_now env) req with
          | Panic => (s, (req, Panic))
          | Err e => (s, (req, Err e))
          | Ok _ =>
              match se_PayloadByNumber env req with
              | Panic => (s, (req, Panic))
              | Err e => (s, (req, Err (wrap_payload_err e)))
              | Ok envelope =>
                  let '(out, r) := write_response env envelope in
                  (set_srv_out s out, (req, r))
              end
          end
      end
  end.

Definition handleSyncRequest (env : ServerEnv) (peerId : PeerID) (s : ReqRespServer)
    : option (ReqRespServer * (Z * result unit)) :=
  match se_globalWait env with
  | Some e => Some (s, (0, Err (Wrap "timed out waiting for global sync rate limit" e)))
  | None =>
      match peer_limit env peerId s with
      | None => None
      | Some (s, Panic) => Some (s, (0, Panic))
      | Some (s, Err e) => Some (s, (0, Err e))
      | Some (s, Ok _) => Some (serve_request env s)
      end
  end.

Definition result_code (e : error) : Z :=
  if errors_Is e NotFound then ResultCodeNotFoundErr
  else if errors_Is e errInvalidRequest then ResultCodeInvalidErr
  else ResultCodeUnknownErr.

(** The server after the request, with the code of the metrics; a panic is
    recovered by the stream handler and writes nothing. *)
Definition HandleSyncRequest (env : ServerEnv) (peerId : PeerID) (s : ReqRespServer)
    : option (ReqRespServer * option Z) :=
  match handleSyncRequest env peerId s with
  | None => None
  | Some (s, (_, Ok _)) => Some (s, Some ResultCodeSuccess)
  | Some (s, (_, Err e)) => Some (set_srv_out s [result_code e], Some (result_code e))
  | Some (s, (_, Panic)) => Some (s, None)
  end.
End server.
Arguments ReqRespServer CP : clear implicits.

(** ** The client *)

Record rangeRequest : Type := { rr_start : Z; rr_end : L2BlockRef; rr_id : Z }.
Record syncResult : Type := { sr_payload : ExecutionPayloadEnvelope; sr_peer : PeerID }.
Record peerRequest : Type := { pr_num : Z; pr_rangeReqId : Z }.

Definition sr_block (res : syncResult) : ExecutionPayload := env_ExecutionPayload (sr_payload res).

(** The capacity of the two buffered channels. *)
Definition channelSize : nat := 128.

(** The sizes of the two caches. *)
Definition trustedSize : nat := Z.to_nat 10000.
Definition quarantineSize : nat := 100.

(** Calls of [SyncPeerScorer]. *)
Inductive score : Type :=
  | onValidResponse (id : PeerID)
  | onResponseError (id : PeerID)
  | onRejectedPayload (id : PeerID).

(** [sc_forwarded] and [sc_scores] are the calls of the receiver that
    succeeded and of the scorer, the latest first. *)
Record SyncClient (CT CQ : Type) : Type := {
  trusted : CT;
  quarantine : CQ;
  quarantineByNum : gmap Z Hash;
  inFlight : gmap Z bool;
  activeRangeRequests : gmap Z bool;
  rangeReqId : Z;
  peerRequests : list peerRequest;
  results : list syncResult;
  sc_forwarded : list syncResult;
  sc_scores : list score }.
Arguments trusted {CT CQ} s : rename.
Arguments quarantine {CT CQ} s : rename.
Arguments quarantineByNum {CT CQ} s : rename.
Arguments inFlight {CT CQ} s : rename.
Arguments activeRangeRequests {CT CQ} s : rename.
Arguments rangeReqId {CT CQ} s : rename.
Arguments peerRequests {CT CQ} s : rename.
Arguments results {CT CQ} s : rename.
Arguments sc_forwarded {CT CQ} s : rename.
Arguments sc_scores {CT CQ} s : rename.

Section client.
Context {CT CQ : Type} `{!Lru CT Hash unit} `{!Lru CQ Hash syncResult}.

Abbreviation Client := (SyncClient CT CQ).

Definition set_trusted (v : CT) (s : Client) : Client :=
    {| trusted := v; quarantine := quarantine s; quarantineByNum := quarantineByNum s; inFlight := inFlight
     s; activeRangeRequests := activeRangeRequests s; rangeReqId := rangeReqId s; peerRequests :=
     peerRequests s; results := results s; sc_forwarded := sc_forwarded s; sc_scores := sc_scores s |}.

Definition set_quarantine (v : CQ) (s : Client) : Client :=
    {| trusted := trusted s; quarantine := v; quarantineByNum := quarantineByNum s; inFlight := inFlight s;
     activeRangeRequests := activeRangeRequests s; rangeReqId := rangeReqId s; peerRequests := peerRequests
     s; results := results s; sc_forwarded := sc_forwarded s; sc_scores := sc_scores s |}.

Definition set_quarantineByNum (v : gmap Z Hash) (s : Client) : Client :=
    {| trusted := trusted s; quarantine := quarantine s; quarantineByNum := v; inFlight := inFlight s;
     activeRangeRequests := activeRangeRequests s; rangeReqId := rangeReqId s; peerRequests := peerRequests
     s; results := results s; sc_forwarded := sc_forwarded s; sc_scores := sc_scores s |}.

Definition set_inFlight (v : gmap Z bool) (s : Client) : Client :=
    {| trusted := trusted s; quarantine := quarantine s; quarantineByNum := quarantineByNum s; inFlight :=
     v; activeRangeRequests := activeRangeRequests s; rangeReqId := rangeReqId s; peerRequests :=
     peerRequests s; results := results s; sc_forwarded := sc_forwarded s; sc_scores := sc_scores s |}.

Definition set_activeRangeRequests (v : gmap Z bool) (s : Client) : Client :=
    {| trusted := trusted s; quarantine := quarantine s; quarantineByNum := quarantineByNum s; inFlight :=
     inFlight s; activeRangeRequests := v; rangeReqId := rangeReqId s; peerRequests := peerRequests s;
     results := results s; sc_forwarded := sc_forwarded s; sc_scores := sc_scores s |}.

Definition set_rangeReqId (v : Z) (s : Client) : Client :=
    {| trusted := trusted s; quarantine := quarantine s; quarantineByNum := quarantineByNum s; inFlight :=
     inFlight s; activeRangeRequests := activeRangeRequests s; rangeReqId := v; peerRequests := peerRequests
     s; results := results s; sc_forwarded := sc_forwarded s; sc_scores := sc_scores s |}.

Definition set_peerRequests (v : list peerRequest) (s : Client) : Client :=
    {| trusted := trusted s; quarantine := quarantine s; quarantineByNum := quarantineByNum s; inFlight :=
     inFlight s; activeRangeRequests := activeRangeRequests s; rangeReqId := rangeReqId s; peerRequests :=
     v; results := results s; sc_forwarded := sc_forwarded s; sc_scores := sc_scores s |}.

Definition set_results (v : list syncResult) (s : Client) : Client :=
    {| trusted := trusted s; quarantine := quarantine s; quarantineByNum := quarantineByNum s; inFlight :=
     inFlight s; activeRangeRequests := activeRangeRequests s; rangeReqId := rangeReqId s; peerRequests :=
     peerRequests s; results := v; sc_forwarded := sc_forwarded s; sc_scores := sc_scores s |}.

Definition set_sc_forwarded (v : list syncResult) (s : Client) : Client :=
    {| trusted := trusted s; quarantine := quarantine s; quarantineByNum := quarantineByNum s; inFlight :=
     inFlight s; activeRangeRequests := activeRangeRequests s; rangeReqId := rangeReqId s; peerRequests :=
     peerRequests s; results := results s; sc_forwarded := v; sc_scores := sc_scores s |}.

Definition set_sc_scores (v : list score) (s : Client) : Client :=
    {| trusted := trusted s; quarantine := quarantine s; quarantineByNum := quarantineByNum s; inFlight :=
     inFlight s; activeRangeRequests := activeRangeRequests s; rangeReqId := rangeReqId s; peerRequests :=
     peerRequests s; results := results s; sc_forwarded := sc_forwarded s; sc_scores := v |}.

(** [requestIdMap.get]: an absent key is [false]. *)
Definition requestIdMap_get (key : Z) (m : gmap Z bool) : bool := default false (m !! key).

Definition add_score (x : score) (s : Client) : Client := set_sc_scores (x :: sc_scores s) s.

Definition onQuarantineEvict (s : Client) (kv : Hash * syncResult) : Client :=
  let '(key, value) := kv in
  let s := set_quarantineByNum (delete (ep_BlockNumber (sr_block value)) (quarantineByNum s)) s in
  if negb (lru_Contains key (trusted s)) then add_score (onRejectedPayload (sr_peer value)) s else s.

(** The operations of the quarantine, with the callback on what they evict. *)
Definition quarantine_Add (h : Hash) (res : syncResult) (s : Client) : Client :=
  let '(evicted, q) := lru_Add h res (quarantine s) in
  foldl onQuarantineEvict (set_quarantine q s) evicted.

Definition quarantine_Remove (h : Hash) (s : Client) : Client :=
  let '(evicted, q) := lru_Remove h (quarantine s) in
  foldl onQuarantineEvict (set_quarantine q s) evicted.

Definition trusted_Add (h : Hash) (s : Client) : Client :=
  set_trusted (lru_Add h () (trusted s)).2 s.

Definition tryPromote (h : Hash) (s : Client) : Client :=
  let '(parentRes, q) := lru_Get h (quarantine s) in
  let s := set_quarantine q s in
  match parentRes with
  | Some res =>
      if (length (results s) <? channelSize)%nat then set_results (results s ++ [res]) s else s
  | None => s
  end.

(** [rcv] is what the receiver returns. *)
Definition promote (rcv : option error) (res : syncResult) (s : Client) : Client :=
  match rcv with
  | Some _ => s
  | None =>
      let payload := sr_block res in
      let s := set_sc_forwarded (res :: sc_forwarded s) s in
      let s := trusted_Add (ep_BlockHash payload) s in
      let s := quarantine_Remove (ep_BlockHash payload) s in
      let s := trusted_Add (ep_ParentHash payload) s in
      let s := tryPromote (ep_ParentHash payload) s in
      match quarantineByNum s !! (ep_BlockNumber payload -u 1) with
      | Some h => quarantine_Remove h s
      | None => s
      end
  end.

Definition onResult (rcv : option error) (res : syncResult) (s : Client) : Client :=
  let payload := sr_block res in
  let s := set_inFlight (delete (ep_BlockNumber payload) (inFlight s)) s in
  let s := quarantine_Add (ep_BlockHash payload) res s in
  let s := set_quarantineByNum (<[ep_BlockNumber payload := ep_BlockHash payload]> (quarantineByNum s)) s in
  if lru_Contains (ep_BlockHash payload) (trusted s) then promote rcv res s else s.

(** *** Range requests *)

(** What the main loop is doing. *)
Inductive mainPhase : Type :=
  | MainIdle
  | Scheduling (req : rangeRequest) (num : Z)
  | MarkInFlight (req : rangeRequest) (num : Z)
  | MainStopped.

Definition range_start (req : rangeRequest) (s : Client) : mainPhase * Client :=
  let s := trusted_Add (l2_Hash (rr_end req)) s in
  let s := trusted_Add (l2_ParentHash (rr_end req)) s in
  (Scheduling req (l2_Number (rr_end req) -u 1), s).

(** One iteration, up to the send on the channel; [done] says that the select
    takes the branch of the cancelled context. *)
Definition range_iter (done : bool) (req : rangeRequest) (num : Z) (s : Client) : mainPhase * Client :=
  if num <=? rr_start req then (MainIdle, s)
  else match quarantineByNum s !! num with
       | Some h => (Scheduling req (num -u 1), if lru_Contains h (trusted s) then tryPromote h s else s)
       | None =>
           if requestIdMap_get num (inFlight s) then (Scheduling req (num -u 1), s)
           else if done then (MainIdle, s)
           else if (length (peerRequests s) <? channelSize)%nat then
             (MarkInFlight req num,
              set_peerRequests (peerRequests s ++ [{| pr_num := num; pr_rangeReqId := rr_id req |}]) s)
           else (MainIdle, s)
       end.

(** [s.inFlight.set(num, true)] after the send. *)
Definition range_mark (req : rangeRequest) (num : Z) (s : Client) : mainPhase * Client :=
  (Scheduling req (num -u 1), set_inFlight (<[num := true]> (inFlight s)) s).

Definition main_step (done : bool) (p : mainPhase) (s : Client) : mainPhase * Client :=
  match p with
  | Scheduling req num => range_iter done req num s
  | MarkInFlight req num => range_mark req num s
  | _ => (p, s)
  end.

(** The handler without other goroutines in between; [None]: out of fuel. *)
Fixpoint range_loop (fuel : nat) (done : Z -> bool) (req : rangeRequest) (num : Z) (s : Client) : option Client :=
  match fuel with
  | O => None
  | S fuel =>
      match range_iter (done num) req num s with
      | (Scheduling _ num', s) => range_loop fuel done req num' s
      | (MarkInFlight _ _, s) => range_loop fuel done req (num -u 1) (range_mark req num s).2
      | (_, s) => Some s
      end
  end.

Definition onRangeRequest (fuel : nat) (done : Z -> bool) (req : rangeRequest) (s : Client) : option Client :=
  range_loop fuel done req (l2_Number (rr_end req) -u 1) (range_start req s).2.
End client.

(** *** The goroutines *)

(** The loop of one peer: it waits, has taken a request, drops it because the
    range was cancelled, asks the peer, hands the result over, or failed. *)
Inductive peerPhase : Type :=
  | PeerIdle
  | PeerHas (pr : peerRequest)
  | PeerDrop (pr : peerRequest)
  | PeerAsk (pr : peerRequest)
  | PeerSend (pr : peerRequest) (envelope : ExecutionPayloadEnvelope)
  | PeerFail (pr : peerRequest) (e : requestErr)
  | PeerScore (pr : peerRequest) (e : requestErr)
  | PeerExited.

Record peerLoop : Type := { pl_id : PeerID; pl_cancelled : bool; pl_phase : peerPhase }.

Definition set_phase (p : peerPhase) (l : peerLoop) : peerLoop :=
  {| pl_id := pl_id l; pl_cancelled := pl_cancelled l; pl_phase := p |}.

Definition cancel (l : peerLoop) : peerLoop :=
  {| pl_id := pl_id l; pl_cancelled := true; pl_phase := pl_phase l |}.

(** [ss_peers] maps a registered peer to the loop that its cancel function
    stops; [ss_pending] are the range requests whose sender waits for the main
    loop; [ss_accepted] are those it has taken, the latest first. *)
Record SyncSystem (CT CQ : Type) : Type := {
  ss_client : SyncClient CT CQ;
  ss_main : mainPhase;
  ss_pending : list rangeRequest;
  ss_accepted : list rangeRequest;
  ss_peers : gmap PeerID nat;
  ss_loops : list peerLoop;
  closingPeers : bool }.
Arguments ss_client {CT CQ} s : rename.
Arguments ss_main {CT CQ} s : rename.
Arguments ss_pending {CT CQ} s : rename.
Arguments ss_accepted {CT CQ} s : rename.
Arguments ss_peers {CT CQ} s : rename.
Arguments ss_loops {CT CQ} s : rename.
Arguments closingPeers {CT CQ} s : rename.

Definition not_nil_payload (envelope : DecodedEnvelope) : option ExecutionPayloadEnvelope :=
  match de_ExecutionPayload envelope with
  | None => None
  | Some payload => Some {| ParentBeaconBlockRoot := de_ParentBeaconBlockRoot envelope;
                            env_ExecutionPayload := payload |}
  end.

Inductive sync_action : Type :=
  | ARequestL2Range (start end_ : L2BlockRef)
  | AGiveUp (i : nat)
  | AAccept (i : nat)
  | AMain (done : bool)
  | AResult (rcv : option error)
  | AAddPeer (id : PeerID)
  | ARemovePeer (id : PeerID)
  | AClose
  | AStop
  | ALoop (i : nat) (answer : Stream)
  | ALoopCancelSend (i : nat)
  | ALoopExit (i : nat).

Section system.
Context {CT CQ : Type} `{!Lru CT Hash unit} `{!Lru CQ Hash syncResult}.
Context `{Snappy} `{HeaderHash} (cfg : Config) (may_request : PeerID -> bool).

Abbreviation SyncSys := (SyncSystem CT CQ).

Definition with_client (c : SyncClient CT CQ) (s : SyncSys) : SyncSys :=
  {| ss_client := c; ss_main := ss_main s; ss_pending := ss_pending s; ss_accepted := ss_accepted s;
     ss_peers := ss_peers s; ss_loops := ss_loops s; closingPeers := closingPeers s |}.

Definition with_main (r : mainPhase * SyncClient CT CQ) (s : SyncSys) : SyncSys :=
  {| ss_client := r.2; ss_main := r.1; ss_pending := ss_pending s; ss_accepted := ss_accepted s;
     ss_peers := ss_peers s; ss_loops := ss_loops s; closingPeers := closingPeers s |}.

Definition with_ranges (pending accepted : list rangeRequest) (s : SyncSys) : SyncSys :=
  {| ss_client := ss_client s; ss_main := ss_main s; ss_pending := pending; ss_accepted := accepted;
     ss_peers := ss_peers s; ss_loops := ss_loops s; closingPeers := closingPeers s |}.

Definition with_peers (peers : gmap PeerID nat) (loops : list peerLoop) (s : SyncSys) : SyncSys :=
  {| ss_client := ss_client s; ss_main := ss_main s; ss_pending := ss_pending s; ss_accepted := ss_accepted s;
     ss_peers := peers; ss_loops := loops; closingPeers := closingPeers s |}.

Definition zero_L2BlockRef : L2BlockRef :=
  {| l2_Hash := 0; l2_Number := 0; l2_ParentHash := 0; l2_Time := 0;
     l2_L1Origin := {| bid_Hash := 0; bid_Number := 0 |}; l2_SequenceNumber := 0 |}.

(** [RequestL2Range] until it waits for the main loop. *)
Definition RequestL2Range (start end_ : L2BlockRef) (s : SyncSys) : SyncSys :=
  if bool_decide (end_ = zero_L2BlockRef) then s
  else
    let c := ss_client s in
    let id := rangeReqId c +u 1 in
    let c := set_rangeReqId id c in
    let c := set_activeRangeRequests (<[id := true]> (activeRangeRequests c)) c in
    with_ranges (ss_pending s ++ [{| rr_start := l2_Number start; rr_end := end_; rr_id := id |}]) (ss_accepted s)
      (with_client c s).

(** Its context ends before the main loop is free. *)
Definition abandon_range (i : nat) (s : SyncSys) : SyncSys :=
  match ss_pending s !! i with
  | None => s
  | Some req =>
      let c := ss_client s in
      with_ranges (delete i (ss_pending s)) (ss_accepted s)
        (with_client (set_activeRangeRequests (delete (rr_id req) (activeRangeRequests c)) c) s)
  end.

Definition accept_range (i : nat) (s : SyncSys) : SyncSys :=
  match ss_main s, ss_pending s !! i with
  | MainIdle, Some req =>
      with_ranges (delete i (ss_pending s)) (req :: ss_accepted s) (with_main (range_start req (ss_client s)) s)
  | _, _ => s
  end.

Definition take_result (rcv : option error) (s : SyncSys) : SyncSys :=
  match ss_main s, results (ss_client s) with
  | MainIdle, res :: rest => with_client (onResult rcv res (set_results rest (ss_client s))) s
  | _, _ => s
  end.

Definition AddPeer (id : PeerID) (s : SyncSys) : SyncSys :=
  if closingPeers s then s
  else match ss_peers s !! id with
       | Some _ => s
       | None => with_peers (<[id := length (ss_loops s)]> (ss_peers s))
                   (ss_loops s ++ [{| pl_id := id; pl_cancelled := false; pl_phase := PeerIdle |}]) s
       end.

Definition RemovePeer (id : PeerID) (s : SyncSys) : SyncSys :=
  if closingPeers s then s
  else match ss_peers s !! id with
       | None => s
       | Some i => with_peers (delete id (ss_peers s)) (alter cancel i (ss_loops s)) s
       end.

(** [Close] cancels every loop; it then waits for them. *)
Definition SyncClient_Close (s : SyncSys) : SyncSys :=
  {| ss_client := ss_client s; ss_main := ss_main s; ss_pending := ss_pending s; ss_accepted := ss_accepted s;
     ss_peers := ss_peers s; ss_loops := cancel <$> ss_loops s; closingPeers := true |}.

Definition stop_main (s : SyncSys) : SyncSys :=
  match ss_main s with
  | MainIdle => if closingPeers s then with_main (MainStopped, ss_client s) s else s
  | _ => s
  end.

(** The next step of a peer's loop; [answer] is the stream that a request
    opens. *)
Definition peer_step (answer : Stream) (l : peerLoop) (c : SyncClient CT CQ) : peerPhase * SyncClient CT CQ :=
  match pl_phase l with
  | PeerIdle =>
      match peerRequests c with
      | pr :: rest => if may_request (pl_id l) then (PeerHas pr, set_peerRequests rest c) else (PeerIdle, c)
      | [] => (PeerIdle, c)
      end
  | PeerHas pr =>
      (if requestIdMap_get (pr_rangeReqId pr) (activeRangeRequests c) then PeerAsk pr else PeerDrop pr, c)
  | PeerDrop pr => (PeerIdle, set_inFlight (delete (pr_num pr) (inFlight c)) c)
  | PeerAsk pr =>
      match panicGuard (doRequest cfg answer (pr_num pr)) with
      | inl envelope =>
          match not_nil_payload envelope with
          | Some envelope => (PeerSend pr envelope, c)
          | None => (PeerAsk pr, c)
          end
      | inr e => (PeerFail pr e, c)
      end
  | PeerSend pr envelope =>
      if (length (results c) <? channelSize)%nat then
        (PeerIdle, add_score (onValidResponse (pl_id l))
           (set_results (results c ++ [{| sr_payload := envelope; sr_peer := pl_id l |}]) c))
      else (PeerSend pr envelope, c)
  | PeerFail pr e => (PeerScore pr e, set_inFlight (delete (pr_num pr) (inFlight c)) c)
  | PeerScore pr e =>
      (PeerIdle,
       match e with
       | requestResultErr code =>
           if code =? ResultCodeNotFoundErr then
             set_activeRangeRequests (delete (pr_rangeReqId pr) (activeRangeRequests c)) c
           else add_score (onResponseError (pl_id l)) c
       | OtherRequestErr _ => add_score (onResponseError (pl_id l)) c
       end)
  | PeerExited => (PeerExited, c)
  end.

Definition loop_step (i : nat) (answer : Stream) (s : SyncSys) : SyncSys :=
  match ss_loops s !! i with
  | None => s
  | Some l =>
      let '(p, c) := peer_step answer l (ss_client s) in
      with_peers (ss_peers s) (<[i := set_phase p l]> (ss_loops s)) (with_client c s)
  end.

(** The loop is cancelled while it waits to hand over a result. *)
Definition loop_cancel_send (i : nat) (s : SyncSys) : SyncSys :=
  match ss_loops s !! i with
  | Some l =>
      match pl_phase l with
      | PeerSend pr _ =>
          if pl_cancelled l then
            with_peers (ss_peers s)
              (<[i := set_phase (PeerFail pr (OtherRequestErr
                        (Msg "failed to process response, sync client is too busy"))) l]> (ss_loops s)) s
          else s
      | _ => s
      end
  | None => s
  end.

(** The loop ends and cleans up the registration of its peer. *)
Definition loop_exit (i : nat) (s : SyncSys) : SyncSys :=
  match ss_loops s !! i with
  | Some l =>
      match pl_phase l with
      | PeerIdle =>
          if pl_cancelled l then
            with_peers (delete (pl_id l) (ss_peers s)) (<[i := set_phase PeerExited l]> (ss_loops s)) s
          else s
      | _ => s
      end
  | None => s
  end.

Definition sync_step (s : SyncSys) (a : sync_action) : SyncSys :=
  match a with
  | ARequestL2Range start end_ => RequestL2Range start end_ s
  | AGiveUp i => abandon_range i s
  | AAccept i => accept_range i s
  | AMain done => with_main (main_step done (ss_main s) (ss_client s)) s
  | AResult rcv => take_result rcv s
  | AAddPeer id => AddPeer id s
  | ARemovePeer id => RemovePeer id s
  | AClose => SyncClient_Close s
  | AStop => stop_main s
  | ALoop i answer => loop_step i answer s
  | ALoopCancelSend i => loop_cancel_send i s
  | ALoopExit i => loop_exit i s
  end.

Definition sync_run (actions : list sync_action) (s : SyncSys) : SyncSys := foldl sync_step s actions.

Definition NewSyncClient : SyncSys :=
  {| ss_client := {| trusted := lru_new; quarantine := lru_new; quarantineByNum := ∅; inFlight := ∅;
                     activeRangeRequests := ∅; rangeReqId := 0; peerRequests := []; results := [];
                     sc_forwarded := []; sc_scores := [] |};
     ss_main := MainIdle; ss_pending := []; ss_accepted := []; ss_peers := ∅; ss_loops := [];
     closingPeers := false |}.

Definition isInFlight (num : Z) (s : SyncSys) : bool := requestIdMap_get num (inFlight (ss_client s)).
End system.
