(* ===== verification/GossipTheorems.v ===== *)
(** * What block gossip accepts

    The verdict of the validator on every message, the round trip from the
    publisher to the subscriber of another node, the fate of messages with a
    beacon root, and how many blocks a height can get when validators run
    concurrently. *)

From stdpp Require Import base gmap list strings pretty.
From S2P Require Import Prelude EthTypes RollupConfig Ssz SszCodec P2PBase Signer Gossip PayloadSync.

Lemma maxGossipSize_value : maxGossipSize = 10485760.
Proof. reflexivity. Qed.

(** ** Message ids *)

Lemma blocksTopic_inj cfg v1 v2 : blocksTopic cfg v1 = blocksTopic cfg v2 -> v1 = v2.
Proof.
  unfold blocksTopic. intros E. apply (inj (String.append _)) in E. apply (inj (String.append _)) in E.
  by destruct v1, v2.
Qed.

Section ids.
Context `{Snappy}.

(** Messages have the same input of their id only when they are both well or
    both badly compressed, of the same topic and with the same contents. *)
Lemma msg_id_input_inj t1 t2 m1 m2 : is_u64 (len t1) -> is_u64 (len t2) ->
  msg_id_input t1 m1 = msg_id_input t2 m2 <-> t1 = t2 /\ msg_contents m1 = msg_contents m2.
Proof.
  intros H1 H2. unfold msg_id_input. destruct (msg_contents m1) as [v1 d1], (msg_contents m2) as [v2 d2].
  split; [|by intros [-> [= -> ->]]]. intros E.
  apply app_inj_1 in E as [Ev E]; [|by destruct v1, v2].
  apply app_inj_1 in E as [El E]; [|by rewrite !length_le_encode].
  apply (f_equal le_decode) in El. rewrite !le8 in El by done.
  apply app_inj_1 in E as [-> ->]; [|unfold len in El; lia].
  split; [done|]. by destruct v1, v2.
Qed.
End ids.

(** ** The cache of seen blocks *)

Section cache.
Context {C : Type} `{!Lru C Z nat} {cap : nat} `{!LruLaws C Z nat cap}.

Definition height_ptr (st : GossipState C) (n : Z) : option nat := lru_view (blockHeightLRU st) !! n.

(** The hashes that the cache remembers of a height. *)
Definition seen_at (st : GossipState C) (n : Z) : seenBlocks :=
  match height_ptr st n with Some p => deref p st | None => [] end.

(** Every height has a list of its own. *)
Record state_wf (st : GossipState C) : Prop := {
  sw_range n p : height_ptr st n = Some p -> (p < length (seen_heap st))%nat;
  sw_inj n m p : height_ptr st n = Some p -> height_ptr st m = Some p -> n = m }.

Definition empty_state : GossipState C := {| blockHeightLRU := lru_new; seen_heap := [] |}.

Lemma empty_wf : state_wf empty_state.
Proof. split; unfold height_ptr; simpl; rewrite lru_new_view; intros *; by rewrite lookup_empty. Qed.

Lemma get_height_spec n st : exists st', get_height n st = (height_ptr st n, st')
  /\ seen_heap st' = seen_heap st /\ forall m, height_ptr st' m = height_ptr st m.
Proof.
  unfold get_height, height_ptr. destruct (lru_Get_view n (blockHeightLRU st)) as [Hg Hv].
  destruct (lru_Get n (blockHeightLRU st)) as [o lru]. simpl in *. subst o.
  eexists; split; [done|]. simpl. by rewrite Hv.
Qed.

Lemma add_height_spec n st : exists ev st', add_height n st = (length (seen_heap st), ev, st')
  /\ seen_heap st' = seen_heap st ++ [[]] /\ height_ptr st' n = Some (length (seen_heap st))
  /\ (forall m p, m <> n -> height_ptr st' m = Some p -> height_ptr st m = Some p)
  /\ (forall m, m <> n -> m ∉ ev -> height_ptr st' m = height_ptr st m)
  /\ (height_ptr st n <> None -> ev = []).
Proof.
  unfold add_height, height_ptr. set (p := length (seen_heap st)).
  pose proof (lru_Add_lookup n p (blockHeightLRU st)) as Hl.
  pose proof (lru_Add_sub n p (blockHeightLRU st)) as Hs.
  pose proof (lru_Add_view n p (blockHeightLRU st)) as Hv.
  destruct (lru_Add n p (blockHeightLRU st)) as [ev lru]. simpl in *.
  exists ev.*1. eexists. split; [done|]. simpl. split_and!; [done|done|intros; by eapply Hs| |].
  - intros m Hm Hev. destruct Hv as [(_ & -> & _)|(k & v & -> & _ & _ & _ & ->)].
    + by rewrite lookup_insert_ne.
    + rewrite lookup_insert_ne, lookup_delete_ne; [done| |done]. simpl in Hev. set_solver.
  - intros Hn. destruct Hv as [(-> & _)|(k & v & _ & _ & Hc & _)]; [done|congruence].
Qed.

(** A payload that reaches the cache: the height is entered, and the payload
    is accepted when fewer than seven are seen there and it is new. *)
Lemma validate_payload_spec payload st : state_wf st ->
  let n := ep_BlockNumber payload in let h := ep_BlockHash payload in let sb := seen_at st n in
  exists st', validate_payload payload st
    = (if (5 <? Z.of_nat (length sb)) then (ValidationReject, None, st')
       else if bool_decide (h ∈ sb) then (ValidationIgnore, None, st')
       else (ValidationAccept,
             Some {| de_ParentBeaconBlockRoot := None; de_ExecutionPayload := Some payload |}, st'))
    /\ state_wf st'
    /\ seen_at st' n = (if (5 <? Z.of_nat (length sb)) || bool_decide (h ∈ sb) then sb else sb ++ [h])
    /\ forall m, m <> n -> seen_at st' m = seen_at st m \/ seen_at st' m = [].
Proof.
  intros Hwf n h sb. unfold validate_payload. fold n. fold h.
  destruct (get_height_spec n st) as (s1 & -> & Hh1 & Hp1).
  assert (state_wf s1) as Hwf1.
  { split; intros *; rewrite !Hp1, ?Hh1; apply Hwf. }
  assert (forall m, seen_at s1 m = seen_at st m) as Hs1.
  { intros m. unfold seen_at, deref. by rewrite Hp1, Hh1. }
  assert (exists p s2, (match height_ptr st n with
      | Some p => (p, s1) | None => let '(p, _, st) := add_height n s1 in (p, st) end) = (p, s2)
    /\ state_wf s2 /\ height_ptr s2 n = Some p /\ deref p s2 = sb
    /\ forall m, m <> n -> seen_at s2 m = seen_at st m \/ seen_at s2 m = []) as (p & s2 & -> & Hwf2 & Hpn & Hd & Ho).
  { destruct (height_ptr st n) as [p|] eqn:Ep.
    - exists p, s1. rewrite Hp1. split_and!; [done..| |].
      + unfold sb, seen_at, deref. by rewrite Ep, Hh1.
      + intros m _. left. apply Hs1.
    - destruct (add_height_spec n s1) as (ev & s2 & -> & Hh2 & Hn2 & Hsub & _ & _).
      eexists _, s2. split_and!; [done| |done| |].
      + split.
        * intros m q Hq. rewrite Hh2, length_app. simpl. destruct (decide (m = n)) as [->|Hm].
          -- rewrite Hn2 in Hq. simplify_eq. lia.
          -- apply Hsub, Hwf1 in Hq; [lia|done].
        * intros m1 m2 q Hq1 Hq2. destruct (decide (m1 = n)) as [->|H1], (decide (m2 = n)) as [->|H2]; [done|..].
          -- rewrite Hn2 in Hq1. simplify_eq. apply Hsub, Hwf1 in Hq2; [lia|done].
          -- rewrite Hn2 in Hq2. simplify_eq. apply Hsub, Hwf1 in Hq1; [lia|done].
          -- eapply (sw_inj s1); eauto.
      + unfold deref, sb, seen_at. rewrite Hh2, Ep, lookup_app_r, Nat.sub_diag by done. done.
      + intros m Hm. unfold seen_at at 1 3. destruct (height_ptr s2 m) as [q|] eqn:Eq; [|by right].
        left. apply Hsub in Eq; [|done]. rewrite <- Hs1. unfold seen_at, deref.
        rewrite Eq, Hh2, lookup_app_l; [done|]. by eapply (sw_range s1). }
  unfold seen_verdict, hasSeen. rewrite Hd.
  assert (seen_at s2 n = sb) as Hsn by (unfold seen_at; by rewrite Hpn).
  destruct (5 <? Z.of_nat (length sb)) eqn:Ec; cbn [orb]; [exists s2; by split_and!|].
  destruct (bool_decide (h ∈ sb)) eqn:Eh; [exists s2; by split_and!|].
  eexists. split; [done|]. unfold mark_seen, markSeen. rewrite Hd.
  assert ((p < length (seen_heap s2))%nat) as Hlt by by eapply sw_range.
  split; [split; unfold height_ptr in *; simpl; [intros m q Hq; rewrite length_insert; by eapply sw_range|apply Hwf2]|].
  split.
  - unfold seen_at, deref, height_ptr in *. simpl. rewrite Hpn, list_lookup_insert_eq by done. done.
  - intros m Hm. unfold seen_at, deref, height_ptr in *. simpl.
    destruct (lru_view (blockHeightLRU s2) !! m) as [q|] eqn:Eq; [|by right].
    rewrite list_lookup_insert_ne; [by specialize (Ho m Hm); rewrite Eq in Ho|].
    intros ->. apply Hm. by eapply (sw_inj s2 Hwf2); unfold height_ptr.
Qed.
End cache.

(** ** The verdict *)

(** The block hash of a payload is the hash that [CheckBlockHash] computes. *)
Definition hash_valid `{HeaderHash} (payload : ExecutionPayload) : Prop :=
  exists actual, CheckBlockHash {| de_ParentBeaconBlockRoot := None; de_ExecutionPayload := Some payload |} = Ok (actual, true).

Section verdict.
Context `{Snappy} `{!SnappyLaws} `{BlockCrypto} `{!BlockCryptoLaws}.

(** A message of [payload] that the holder of the address [addr] has signed
    for the chain. *)
Definition authentic (cfg : Config) (addr : Z) (version : BlockVersion) (message : bytes)
    (payload : ExecutionPayload) : Prop :=
  exists chain sig raw, length sig = 65%nat /\ snappy_Decode message = Some (sig ++ raw)
    /\ minGossipSize <= len (sig ++ raw) <= maxGossipSize
    /\ ChainIDFromBig (L2ChainID cfg) = Ok chain /\ addr <> 0
    /\ crypto_SigToAddress (ToSigningHash
         {| bsm_Domain := SigningDomainBlocksV1; bsm_ChainID := chain; bsm_PayloadHash := PayloadHash raw |}) sig
       = Ok addr
    /\ UnmarshalSSZ version (len raw) raw = Ok (payload, []).

(** Not more than a day old, and not more than 5 seconds ahead. *)
Definition in_time (now : Z) (payload : ExecutionPayload) : Prop :=
  now -u 86400 <= ep_Timestamp payload <= now +u 5.

Lemma UnmarshalSSZ_all version raw payload rest :
  UnmarshalSSZ version (len raw) raw = Ok (payload, rest) -> rest = [].
Proof.
  unfold UnmarshalSSZ. destruct (len raw <? _); [done|].
  assert (ReadFull (Z.to_nat (len raw)) raw = Ok (raw, [])) as ->.
  { rewrite <- (app_nil_r raw) at 2. rewrite ReadFull_app by (unfold len; lia). done. }
  cbn [map_err rbind]. unfold cut. cbv beta iota zeta. intros E.
  destruct (_ && _) in E; [done|]. revert E.
  match goal with |- rbind ?r _ = _ -> _ => destruct r as [[wo b]|e|] end; cbn [rbind]; [|done..].
  destruct (if HasBlobProperties version then _ else _) as [blobs b'].
  destruct (_ || _); [done|]. destruct (_ <? _); [done|].
  destruct (map_err _ (unmarshalTransactions _)); cbn [rbind]; [|done..].
  match goal with |- rbind ?r _ = _ -> _ => destruct r as [ws|e|] end; cbn [rbind]; [|done..].
  by intros [= _ <-].
Qed.

Lemma check_message_iff cfg addr version now message payload :
  check_message cfg addr version now message = Ok (inr payload)
  <-> authentic cfg addr version message payload /\ in_time now payload.
Proof.
  unfold check_message, decompress, authentic, in_time. split.
  - destruct (snappy_DecodedLen message) as [n|] eqn:En; [|done].
    destruct (Z.ltb_spec maxGossipSize n); [done|]. destruct (Z.ltb_spec n minGossipSize); [done|].
    destruct (snappy_Decode message) as [data|] eqn:Ed; [|done].
    pose proof (snappy_Decode_len _ _ Ed) as El. rewrite En in El. injection El as ->.
    destruct (Z.ltb_spec (len data) 65); [done|]. unfold verifyBlockSignature.
    destruct (ChainIDFromBig (L2ChainID cfg)) as [chain|e|] eqn:Ec; cbn [rbind]; [|done..]. cbn [Allowed].
    destruct (Z.eqb_spec addr 0) as [|Ha]; [done|].
    destruct (SignedP2PBlock_VerifySignature _ _) as [[]|e|] eqn:Ev; cbn [rbind]; [|done..].
    apply verify_iff in Ev as [_ Ev]. cbn [Allowed auth_Chain] in Ev.
    rewrite bool_decide_true by done. cbn [negb].
    assert (len data = 65 + len (drop 65 data)) as Hl by (unfold len in *; rewrite length_drop; lia).
    pose proof (len_nonneg (drop 65 data)).
    rewrite u32_small by (rewrite maxGossipSize_value in *; unfold two32; lia).
    destruct (UnmarshalSSZ version _ _) as [[p rest]|e|] eqn:Eu; [|done..].
    destruct (Z.ltb_spec (ep_Timestamp p) (now -u 86400)); [done|].
    destruct (Z.ltb_spec (now +u 5) (ep_Timestamp p)); [done|]. intros [= <-]. split; [|lia].
    pose proof (UnmarshalSSZ_all _ _ _ _ Eu) as ->.
    exists chain, (take 65 data), (drop 65 data). rewrite take_drop.
    split_and!; [rewrite length_take; unfold len in *; lia|done..].
  - intros [(chain & sig & raw & Hs & Hd & Hb & Hc & Ha & Hr & Hu) Ht].
    pose proof (snappy_Decode_len _ _ Hd) as ->. rewrite Hd.
    rewrite (proj2 (Z.ltb_ge _ _)), (proj2 (Z.ltb_ge _ _)) by lia.
    rewrite (proj2 (Z.ltb_ge (len (sig ++ raw)) 65)) by (unfold minGossipSize in Hb; lia).
    rewrite take_app_length', drop_app_length' by done. unfold verifyBlockSignature. rewrite Hc. cbn [rbind Allowed].
    rewrite (proj2 (Z.eqb_neq _ _)) by done.
    rewrite (proj2 (verify_iff {| Allowed := addr; auth_Chain := chain |} raw sig)) by done. cbn [rbind].
    rewrite bool_decide_true by done. cbn [negb]. rewrite len_app in Hb. pose proof (len_nonneg sig).
    rewrite u32_small by (rewrite maxGossipSize_value in *; pose proof (len_nonneg raw); unfold two32; lia). rewrite Hu.
    rewrite (proj2 (Z.ltb_ge _ _)), (proj2 (Z.ltb_ge _ _)) by lia. done.
Qed.

Section validator.
Context {C : Type} `{!Lru C Z nat} {cap : nat} `{!LruLaws C Z nat cap} {HH : HeaderHash}.

(** What the validator checks of a message that carries [payload]. *)
Record acceptable (cfg : Config) (addr : Z) (version : BlockVersion) (now : Z) (message : bytes) (st : GossipState C)
    (payload : ExecutionPayload) : Prop := {
  ac_authentic : authentic cfg addr version message payload;
  ac_in_time : in_time now payload;
  ac_height : (length (seen_at st (ep_BlockNumber payload)) <= 5)%nat;
  ac_new : ep_BlockHash payload ∉ seen_at st (ep_BlockNumber payload) }.

(** A verdict other than acceptance before the cache is reached. *)
Lemma blocksValidator_early cfg addr version now message (st : GossipState C) v d st' :
  (forall payload, check_message cfg addr version now message <> Ok (inr payload)) ->
  blocksValidator cfg addr version now message st = (v, d, st') -> v <> ValidationAccept /\ d = None /\ st' = st.
Proof.
  unfold blocksValidator, BuildBlocksValidator. intros Hn.
  destruct (check_message cfg addr version now message) as [[w|p]|e|] eqn:E; simpl.
  2: by destruct (Hn p). 2,3: by intros [= <- <- <-].
  intros [= -> <- <-]. split; [|done]. intros ->. revert E. unfold check_message.
  destruct (decompress message) as [data|]; [|done]. destruct (_ <? _); [done|].
  destruct (verifyBlockSignature _ _ _ _) as [res|e|]; cbn [rbind]; [|done..].
  destruct (bool_decide (res = ValidationAccept)) eqn:Er; cbn [negb].
  - destruct (UnmarshalSSZ _ _ _) as [[p r]|e|]; [|done..]. repeat (destruct (_ <? _); [done|]). done.
  - intros [= ->]. by apply bool_decide_eq_false in Er.
Qed.

(** C12: the validator of a blocks topic accepts only a message that
    decompresses within the bounds to a payload with a signature that recovers
    to the configured sequencer (which is not the zero address) over the hash
    of these very bytes for this chain, that decodes in the version of the
    topic, whose time is at most a day old and 5 seconds ahead, when at most 5
    blocks are remembered at its height and it is not one of them; then it is
    handed on and remembered.  Such a message whose block hash is valid is
    accepted (the check of the block hash is commented out in the code, so that
    nothing is said about others).  No other message is handed on, and a message
    that no sequencer signed leaves the cache as it was, so that it cannot use
    up a height. *)
Theorem blocksValidator_spec cfg addr version now message (st : GossipState C) v d st' : state_wf st ->
  blocksValidator cfg addr version now message st = (v, d, st') ->
  (v = ValidationAccept -> exists payload, acceptable cfg addr version now message st payload)
  /\ (forall payload, acceptable cfg addr version now message st payload -> hash_valid payload -> v = ValidationAccept)
  /\ (forall payload, authentic cfg addr version message payload -> v = ValidationAccept ->
     d = Some {| de_ParentBeaconBlockRoot := None; de_ExecutionPayload := Some payload |}
     /\ seen_at st' (ep_BlockNumber payload)
        = seen_at st (ep_BlockNumber payload) ++ [ep_BlockHash payload])
  /\ (v <> ValidationAccept -> d = None)
  /\ (st' <> st -> exists payload, authentic cfg addr version message payload /\ in_time now payload)
  /\ state_wf st'.
Proof.
  intros Hwf Hv. destruct (check_message cfg addr version now message) as [[w|p]|e|] eqn:E.
  2: {
    pose proof (proj1 (check_message_iff _ _ _ _ _ _) E) as [Ha Ht]. unfold blocksValidator, BuildBlocksValidator in Hv.
    rewrite E in Hv. destruct (validate_payload_spec p st Hwf) as (s' & Ep & Hwf' & Hs & _). rewrite Ep in Hv.
    assert (forall q, authentic cfg addr version message q -> q = p) as Huniq.
    { intros q Hq. destruct Hq as (c1 & g1 & r1 & L1 & D1 & _ & _ & _ & _ & U1), Ha as (c2 & g2 & r2 & L2 & D2 & _ & _ & _ & _ & U2).
      rewrite D1 in D2. injection D2 as D2. apply app_inj_1 in D2 as [_ ->]; [|lia]. congruence. }
    assert (v = ValidationAccept <-> (5 <? Z.of_nat (length (seen_at st (ep_BlockNumber p)))) = false
      /\ bool_decide (ep_BlockHash p ∈ seen_at st (ep_BlockNumber p)) = false) as Hacc.
    { destruct (5 <? _), (bool_decide _); simpl in Hv; injection Hv as <- <- <-; naive_solver. }
    split; [|split; [|split; [|split; [|split]]]].
    - rewrite Hacc, Z.ltb_ge, bool_decide_eq_false. intros [? ?]. exists p. split; [done|done|lia|done].
    - intros q [Hq _ Hl Hn] _. apply Huniq in Hq as ->. by rewrite Hacc, Z.ltb_ge, bool_decide_eq_false; split; [lia|].
    - intros q Hq Hva. apply Huniq in Hq as ->. apply Hacc in Hva as [H5 Hin]. rewrite H5, Hin in Hv, Hs. simpl in Hv, Hs.
      by injection Hv as <- <- <-.
    - intros Hna. destruct (5 <? _), (bool_decide _); simpl in Hv; by injection Hv as <- <- <-.
    - by exists p.
    - destruct (5 <? _), (bool_decide _); simpl in Hv; by injection Hv as <- <- <-. }
  all: apply blocksValidator_early in Hv as (Hva & -> & ->); [|by intros q; rewrite E].
  all: assert (forall q, ~ (authentic cfg addr version message q /\ in_time now q)) as Hno
    by (intros q Hq; apply check_message_iff in Hq; congruence).
  all: split; [done|]; split; [intros q [Ha Ht _ _] _; by destruct (Hno q)|].
  all: split; [done|]; split; [done|]; split; done.
Qed.
End validator.
End verdict.

(** ** From the publisher to the subscriber *)

Section roundtrip.
Context `{Snappy} `{!SnappyLaws} `{BlockCrypto} `{!BlockCryptoLaws}.

Lemma SignAndPublish_eq publish cfg pool envelope enc chain signer sig timestamp :
  encode_envelope pool envelope = Ok enc -> ChainIDFromBig (L2ChainID cfg) = Ok chain ->
  signer chain (PayloadHash enc) = Ok sig -> length sig = 65%nat -> envelope_timestamp envelope = Ok timestamp ->
  SignAndPublishL2Payload publish cfg pool envelope signer
  = publishRawSignedPayload publish cfg timestamp (sig ++ enc).
Proof.
  intros He Hc Hs Hl Ht. unfold SignAndPublishL2Payload. rewrite He. cbn [rbind].
  rewrite drop_app_length' by done. rewrite Hc. cbn [rbind]. rewrite Hs. cbn [map_err rbind].
  rewrite take_ge by lia. rewrite Ht. cbn [rbind]. rewrite drop_app_length' by (rewrite Hl; done). done.
Qed.

Lemma ChainIDFromBig_ok id : 0 <= id < 2 ^ 256 -> ChainIDFromBig (Some id) = Ok id.
Proof.
  intros Hi. unfold ChainIDFromBig. rewrite (proj2 (Z.leb_gt _ _)) by lia. by rewrite Z.mod_small.
Qed.

Section node.
Context {C : Type} `{!Lru C Z nat} {cap : nat} `{!LruLaws C Z nat cap} {HH : HeaderHash}.

(** C11: a payload without a parent beacon block root, as before Ecotone, that
    the sequencer signs and publishes reaches the other nodes: if its block hash
    is valid, its version is the one of the topic of its time and it fits a
    message, the publisher hands one message to that topic, and a node of the
    same chain that trusts the sequencer's address, receives it in time, has not
    seen the block and at most 5 at its height, accepts it and calls its handler
    with the very same payload; sent again, the message is ignored, as long as
    the height is not full. *)
Theorem gossip_roundtrip publish cfg pool payload k sig id now (st : GossipState C) {P : Type} (from : P) :
  let envelope := {| de_ParentBeaconBlockRoot := None; de_ExecutionPayload := Some payload |} in
  let version := inferVersion payload in
  let n := ep_BlockNumber payload in
  payload_ok payload -> hash_valid payload -> 65 + full_size payload <= maxGossipSize ->
  L2ChainID cfg = Some id -> 0 <= id < 2 ^ 256 -> crypto_Address k <> 0 ->
  (forall raw, MarshalSSZ pool payload = Ok raw ->
     LocalSigner_SignBlockV1 {| ls_priv := Some k |} id (PayloadHash raw) = Ok sig) ->
  topic_version cfg (ep_Timestamp payload) = version -> in_time now payload ->
  state_wf st -> (length (seen_at st n) <= 5)%nat -> ep_BlockHash payload ∉ seen_at st n ->
  exists out st',
    SignAndPublishL2Payload publish cfg pool envelope (LocalSigner_SignBlockV1 {| ls_priv := Some k |})
      = publish version out
    /\ blocksValidator cfg (crypto_Address k) version now out st = (ValidationAccept, Some envelope, st')
    /\ MakeSubscriber [(from, Some envelope)] = [(from, envelope)]
    /\ ((length (seen_at st n) < 5)%nat -> exists st'',
          blocksValidator cfg (crypto_Address k) version now out st' = (ValidationIgnore, None, st'')).
Proof.
  intros envelope version n Hok _ Hfit Hid Hrange Hk Hsig Htopic Ht Hwf Hcount Hnew.
  pose proof (MarshalSSZ_spec payload Hok pool) as Hm. specialize (Hsig _ Hm).
  assert (length sig = 65%nat) as Hl by exact (Sign_length _ _ _ Hsig).
  pose proof (len_encoding payload Hok) as Hle. pose proof (len_nonneg (encoding payload)).
  assert (len (sig ++ encoding payload) = 65 + full_size payload) as Hlen by (rewrite len_app; unfold len in *; lia).
  assert (508 <= full_size payload) as Hmin.
  { unfold full_size. pose proof (len_nonneg (ep_ExtraData payload)).
    pose proof (len_nonneg (tx_list (ep_Transactions payload))). unfold wd_count.
    assert (508 <= executionPayloadFixedPart (inferVersion payload)) by by destruct (inferVersion payload). lia. }
  destruct (snappy_Encode_Decode (sig ++ encoding payload)) as (out & He & _ & Hd).
  { rewrite maxGossipSize_value in Hfit. lia. }
  assert (authentic cfg (crypto_Address k) version out payload) as Ha.
  { exists id, sig, (encoding payload). rewrite Hid. split_and!; [done|done|unfold minGossipSize; lia|lia|..].
    - by apply ChainIDFromBig_ok.
    - done.
    - by apply Sign_recovers.
    - rewrite Hle. rewrite <- (app_nil_r (encoding payload)) at 1. by apply UnmarshalSSZ_spec. }
  assert (forall s, blocksValidator cfg (crypto_Address k) version now out s
    = (fun '(v, d, s) => ((v, d), s)) (validate_payload payload s)) as Hbv.
  { intros s. unfold blocksValidator, BuildBlocksValidator.
    rewrite (proj2 (check_message_iff _ _ _ _ _ _) (conj Ha Ht)). by destruct (validate_payload payload s) as [[v d] s2]. }
  destruct (validate_payload_spec payload st Hwf) as (st' & Ev & Hwf' & Hs' & _). fold n in Ev, Hs'.
  rewrite (proj2 (Z.ltb_ge _ _)) in Ev, Hs' by lia. rewrite bool_decide_false in Ev, Hs' by done. cbn [orb] in Hs'.
  exists out, st'. split; [|split; [|split; [done|]]].
  - erewrite SignAndPublish_eq; [| |rewrite Hid; by apply ChainIDFromBig_ok|done|done|done].
    + unfold publishRawSignedPayload. rewrite He. cbn [rbind]. by rewrite Htopic.
    + unfold encode_envelope. cbn. by rewrite Hm.
  - by rewrite Hbv, Ev.
  - intros Hlt. destruct (validate_payload_spec payload st' Hwf') as (st'' & Ev' & _). fold n in Ev'.
    exists st''. rewrite Hbv, Ev', Hs', length_app. simpl. rewrite (proj2 (Z.ltb_ge _ _)) by lia.
    rewrite bool_decide_true by set_solver. done.
Qed.

(** ** Messages with a beacon root *)

(** The bytes 4 to 7 of a block hash, the least significant first. *)
Definition hash_word (h : Hash) : Z := le_decode (slice 4 8 (hash_bytes h)).

Lemma slice_shift (a b : nat) (P l : bytes) : length P = a -> slice (a + b) (a + b + 4) (P ++ l) = slice b (b + 4) l.
Proof.
  intros <-. unfold slice. rewrite drop_app_add. f_equal. lia.
Qed.

Lemma slice_within (b : nat) (l Q : bytes) : (b + 4 <= length l)%nat -> slice b (b + 4) (l ++ Q) = slice b (b + 4) l.
Proof. intros Hb. unfold slice. rewrite drop_app_le, take_app_le; [done|rewrite length_drop; lia|lia]. Qed.

Lemma encoding_hash_word payload : payload_ok payload ->
  le_decode (slice 476 480 (encoding payload)) = hash_word (ep_BlockHash payload).
Proof.
  intros Hok. unfold encoding, fixed_bytes. rewrite written_app, head_bytes, <- !app_assoc by done.
  unfold hash_word. f_equal.
  match goal with |- slice _ _ (?a1 ++ ?a2 ++ ?a3 ++ ?a4 ++ ?a5 ++ ?a6 ++ ?a7 ++ ?a8 ++ ?a9 ++ ?a10 ++ ?a11 ++ ?a12 ++ ?h ++ ?Q) = _ =>
    replace (a1 ++ a2 ++ a3 ++ a4 ++ a5 ++ a6 ++ a7 ++ a8 ++ a9 ++ a10 ++ a11 ++ a12 ++ h ++ Q)
      with ((a1 ++ a2 ++ a3 ++ a4 ++ a5 ++ a6 ++ a7 ++ a8 ++ a9 ++ a10 ++ a11 ++ a12) ++ h ++ Q) by by rewrite <- !app_assoc
  end.
  rewrite (slice_shift 472 4).
  - apply (slice_within 4). unfold hash_bytes. rewrite length_be_encode. lia.
  - rewrite !length_app, !length_le_encode, length_marshalBytes32LE, (po_LogsBloom _ Hok), (po_PrevRandao _ Hok).
    unfold hash_bytes. rewrite !length_be_encode. done.
Qed.

(** Read without its beacon root first, a message has the second word of the
    block hash where the offset of the withdrawals should be. *)
Lemma UnmarshalSSZ_shifted version root payload : payload_ok payload -> HasWithdrawals version = true ->
  32 + full_size payload < hash_word (ep_BlockHash payload) ->
  exists e, UnmarshalSSZ version (32 + full_size payload) (hash_bytes root ++ encoding payload) = Err e.
Proof.
  intros Hok Hv Hw. pose proof (len_encoding payload Hok) as Hl. pose proof (len_nonneg (encoding payload)).
  unfold UnmarshalSSZ. destruct (_ <? executionPayloadFixedPart version); [by eexists|].
  set (buf := hash_bytes root ++ encoding payload).
  assert (ReadFull (Z.to_nat (32 + full_size payload)) buf = Ok (buf, [])) as ->.
  { rewrite <- (app_nil_r buf) at 1. apply ReadFull_app. unfold buf, hash_bytes.
    rewrite length_app, length_be_encode. unfold len in Hl. lia. }
  cbn [map_err rbind]. unfold cut. cbv beta iota zeta.
  destruct (_ && _) eqn:Eb; [by destruct version|]. rewrite Hv.
  match goal with |- context [32 + full_size payload <? le_decode (take 4 ?X)] =>
    replace (take 4 X) with (slice 508 512 buf) by (unfold slice; by rewrite !drop_drop) end.
  assert (le_decode (slice 508 512 buf) = hash_word (ep_BlockHash payload)) as ->.
  { rewrite <- encoding_hash_word by done. apply (f_equal le_decode). unfold buf. apply (slice_shift 32 476).
    apply length_be_encode. }
  destruct (_ <? le_decode _); [by eexists|]. rewrite (proj2 (Z.ltb_lt _ _)) by done. by eexists.
Qed.

(** A payload with a beacon root does not survive gossip: the publisher
    puts the root before the payload, but the validator decodes the payload
    from the first byte.  Every message whose block hash has a second word
    above the size of the message (all but one in 400, for hashes that look
    random) is rejected by the nodes that trust the sequencer, which holds it
    against the peer that relayed it. *)
Theorem beacon_root_rejected publish cfg pool payload root k sig id now (st : GossipState C) :
  let envelope := {| de_ParentBeaconBlockRoot := Some root; de_ExecutionPayload := Some payload |} in
  let version := topic_version cfg (ep_Timestamp payload) in
  payload_ok payload -> 97 + full_size payload <= maxGossipSize ->
  L2ChainID cfg = Some id -> 0 <= id < 2 ^ 256 -> crypto_Address k <> 0 ->
  (forall raw, Envelope_MarshalSSZ pool envelope = Ok raw ->
     LocalSigner_SignBlockV1 {| ls_priv := Some k |} id (PayloadHash raw) = Ok sig) ->
  HasParentBeaconBlockRoot version = true -> 32 + full_size payload < hash_word (ep_BlockHash payload) ->
  exists out,
    SignAndPublishL2Payload publish cfg pool envelope (LocalSigner_SignBlockV1 {| ls_priv := Some k |})
      = publish version out
    /\ blocksValidator cfg (crypto_Address k) version now out st = (ValidationReject, None, st).
Proof.
  intros envelope version Hok Hfit Hid Hrange Hk Hsig Hver Hw.
  set (raw := hash_bytes root ++ encoding payload).
  assert (Envelope_MarshalSSZ pool envelope = Ok raw) as Hm.
  { unfold Envelope_MarshalSSZ. cbn. by rewrite MarshalSSZ_spec. }
  specialize (Hsig _ Hm). assert (length sig = 65%nat) as Hl by exact (Sign_length _ _ _ Hsig).
  pose proof (len_encoding payload Hok) as Hle. pose proof (len_nonneg (encoding payload)).
  assert (len raw = 32 + full_size payload) as Hraw.
  { unfold raw. rewrite len_app, len_hash_bytes. lia. }
  assert (len (sig ++ raw) = 97 + full_size payload) as Hlen by (rewrite len_app; unfold len in *; lia).
  destruct (snappy_Encode_Decode (sig ++ raw)) as (out & He & Hdl & Hd).
  { rewrite maxGossipSize_value in Hfit. lia. }
  exists out. split.
  - erewrite SignAndPublish_eq; [| |rewrite Hid; by apply ChainIDFromBig_ok|done|done|done].
    + unfold publishRawSignedPayload. rewrite He. cbn [rbind]. done.
    + unfold encode_envelope. cbn [de_ParentBeaconBlockRoot envelope]. by rewrite Hm.
  - unfold blocksValidator, BuildBlocksValidator, check_message, decompress. rewrite Hdl, Hd, Hlen.
    rewrite (proj2 (Z.ltb_ge _ _)), (proj2 (Z.ltb_ge _ _)), (proj2 (Z.ltb_ge _ _)) by (unfold minGossipSize; lia).
    rewrite take_app_length', drop_app_length' by done. unfold verifyBlockSignature.
    rewrite Hid, ChainIDFromBig_ok by done. cbn [rbind Allowed]. rewrite (proj2 (Z.eqb_neq _ _)) by done.
    rewrite (sign_verify k id raw sig Hk Hsig). cbn [rbind]. rewrite bool_decide_true by done. cbn [negb].
    rewrite Hraw, u32_small by (rewrite maxGossipSize_value in *; unfold two32; lia).
    destruct (UnmarshalSSZ_shifted version root payload Hok) as [e Hu]; [by destruct version|done|].
    fold raw in Hu. by rewrite Hu.
Qed.
End node.
End roundtrip.

(** ** Witnesses *)

Module GossipExamples.
#[local] Instance plain_snappy : Snappy := {|
  snappy_DecodedLen m := Some (len m); snappy_Decode m := Some m; snappy_Encode d := Ok d;
  snappy_frame d := d; snappy_ReadAll n m := Ok (if len m <=? n then m else take (Z.to_nat n) m) |}.

#[local] Instance plain_snappy_laws : SnappyLaws.
Proof. split; [intros d _; by exists d|by intros m d [= ->]|].
  intros n d Hn. unfold snappy_ReadAll, snappy_frame, plain_snappy. by rewrite (proj2 (Z.leb_le _ _)).
Qed.

(** A hash that sums the bytes up, and signatures that name the key. *)
#[local] Instance toy_crypto : BlockCrypto := {|
  PrivateKey := Z;
  crypto_Keccak256 b := be_encode 32 (foldr Z.add 0 b);
  crypto_Sign h k := Ok (take 32 (h ++ replicate 32 0) ++ be_encode 33 k);
  crypto_SigToAddress h sig :=
    if bool_decide (take 32 sig = take 32 (h ++ replicate 32 0)) then Ok (be_decode (drop 32 sig))
    else Err (Msg "recovery failed");
  crypto_Address k := k mod 256 ^ 33 |}.

#[local] Instance toy_crypto_laws : BlockCryptoLaws.
Proof.
  assert (forall h : bytes, length (take 32 (h ++ replicate 32 0)) = 32%nat) as Hl.
  { intros h. rewrite length_take, length_app, length_replicate. lia. }
  split.
  - intros b. apply (length_be_encode 32).
  - intros h k sig Hs. apply Ok_inj in Hs as <-. rewrite length_app, (Hl h), (length_be_encode 33). done.
  - intros h k sig Hs. apply Ok_inj in Hs as <-. unfold crypto_SigToAddress, toy_crypto.
    rewrite take_app_length', drop_app_length' by (by rewrite Hl). rewrite bool_decide_true by done.
    by rewrite be_decode_encode.
  - intros h sig. unfold crypto_SigToAddress, toy_crypto. by destruct (bool_decide _).
Qed.

Definition cache : Type := LruList (K := Z) (V := nat) 1000.
#[local] Instance cache_laws : LruLaws cache Z nat 1000 := list_lru_laws (K := Z) (V := nat) 1000 ltac:(lia).

Definition config : Config :=
  {| cfg_Genesis := {| L2 := {| bid_Hash := 2; bid_Number := 0 |}; L2Time := 1000;
                       gen_SystemConfig := gen_SystemConfig (cfg_Genesis example_config) |};
     BlockTime := 2; cfg_MaxSequencerDrift := 600; SeqWindowSize := 100; ChannelTimeoutBedrock := 100;
     L2ChainID := Some 10; RegolithTime := Some 0; CanyonTime := Some 0; DeltaTime := Some 0; EcotoneTime := Some 0;
     FjordTime := Some 0; GraniteTime := None; HoloceneTime := None; IsthmusTime := None; JovianTime := None;
     InteropTime := None; PectraBlobScheduleTime := None |}.

Definition key : @PrivateKey toy_crypto := 77.

Definition signature (raw : bytes) : bytes :=
  match LocalSigner_SignBlockV1 {| ls_priv := Some key |} 10 (PayloadHash raw) with Ok sig => sig | _ => [] end.

(** A payload of the Canyon fork, and the same chain without the later forks. *)
Definition early_payload : ExecutionPayload :=
  {| ep_ParentHash := 1; ep_FeeRecipient := 2; ep_StateRoot := 3; ep_ReceiptsRoot := 4;
     ep_LogsBloom := replicate 256 0; ep_PrevRandao := replicate 32 7; ep_BlockNumber := 8;
     ep_GasLimit := 30000000; ep_GasUsed := 21000; ep_Timestamp := 1700000000;
     ep_ExtraData := [9; 9]; ep_BaseFeePerGas := 2 ^ 200; ep_BlockHash := 10;
     ep_Transactions := [[1; 2; 3]; []; [4]];
     ep_Withdrawals := Some [];
     ep_BlobGasUsed := None; ep_ExcessBlobGas := None; ep_WithdrawalsRoot := None |}.

Lemma early_payload_ok : payload_ok early_payload.
Proof.
  constructor; try (apply range_check; vm_compute; reflexivity); try reflexivity;
    try (apply Zle_bool_imp_le; vm_compute; reflexivity).
  - split; [constructor|apply Zle_bool_imp_le; vm_compute; reflexivity].
  - split_and!; try (eexists; reflexivity).
Qed.

Definition canyon_config : Config :=
  {| cfg_Genesis := cfg_Genesis config; BlockTime := 2; cfg_MaxSequencerDrift := 600; SeqWindowSize := 100;
     ChannelTimeoutBedrock := 100; L2ChainID := Some 10; RegolithTime := Some 0; CanyonTime := Some 0; DeltaTime := None;
     EcotoneTime := None; FjordTime := None; GraniteTime := None; HoloceneTime := None; IsthmusTime := None; JovianTime := None;
     InteropTime := None; PectraBlobScheduleTime := None |}.

(** A header hash that the payloads have. *)
#[local] Instance toy_hash : HeaderHash := {| derive_sha _ := 0; header_hash h := ph_Number h + 2 |}.

Lemma early_hash_valid : hash_valid early_payload.
Proof. eexists. vm_compute. reflexivity. Qed.

Definition message : bytes := signature (encoding early_payload) ++ encoding early_payload.

Lemma sign_encoding pool raw : MarshalSSZ pool early_payload = Ok raw ->
  LocalSigner_SignBlockV1 {| ls_priv := Some key |} 10 (PayloadHash raw) = Ok (signature (encoding early_payload)).
Proof. rewrite (MarshalSSZ_spec _ early_payload_ok). intros E. apply Ok_inj in E as <-. reflexivity. Qed.

Lemma gossip_roundtrip_witness : exists out st',
  SignAndPublishL2Payload (fun _ _ => Ok ()) canyon_config []
    {| de_ParentBeaconBlockRoot := None; de_ExecutionPayload := Some early_payload |}
    (LocalSigner_SignBlockV1 {| ls_priv := Some key |}) = Ok ()
  /\ blocksValidator canyon_config (crypto_Address key) BlockV2 1700000001 out (empty_state (C := cache))
     = (ValidationAccept, Some {| de_ParentBeaconBlockRoot := None; de_ExecutionPayload := Some early_payload |}, st').
Proof.
  destruct (gossip_roundtrip (cap := 1000) (fun _ _ => Ok ()) canyon_config [] early_payload key (signature (encoding early_payload)) 10
    1700000001 (empty_state (C := cache)) 0) as (out & st' & H1 & H2 & _).
  - exact early_payload_ok.
  - exact early_hash_valid.
  - vm_compute. discriminate.
  - reflexivity.
  - split; [apply Zle_bool_imp_le; reflexivity|reflexivity].
  - discriminate.
  - apply sign_encoding.
  - vm_compute. reflexivity.
  - split; vm_compute; discriminate.
  - apply empty_wf.
  - vm_compute. lia.
  - vm_compute. apply not_elem_of_nil.
  - exists out, st'. split; [exact H1|exact H2].
Defined.

Lemma blocksValidator_spec_witness : exists st',
  seen_at (C := cache) st' 8 = [10]
  /\ (blocksValidator canyon_config (crypto_Address key) BlockV2 1700000001 message (empty_state (C := cache))).1.1 = ValidationAccept.
Proof.
  destruct (blocksValidator canyon_config (crypto_Address key) BlockV2 1700000001 message (empty_state (C := cache)))
    as [[v d] st'] eqn:E.
  assert (check_message canyon_config (crypto_Address key) BlockV2 1700000001 message = Ok (inr early_payload)) as Hc
    by (vm_compute; reflexivity).
  apply check_message_iff in Hc as [Ha Ht].
  destruct (blocksValidator_spec (cap := 1000) canyon_config (crypto_Address key) BlockV2 1700000001 message (empty_state (C := cache))
    v d st' empty_wf E) as (_ & Hcmp & Hacc & _).
  assert (v = ValidationAccept) as Hv.
  { apply (Hcmp early_payload); [|exact early_hash_valid]. split; [exact Ha|exact Ht|vm_compute; lia|].
    vm_compute. apply not_elem_of_nil. }
  exists st'. split; [|exact Hv]. exact (proj2 (Hacc early_payload Ha Hv)).
Defined.

(** A block hash of ones. *)
Definition late_payload : ExecutionPayload :=
  {| ep_ParentHash := 1; ep_FeeRecipient := 2; ep_StateRoot := 3; ep_ReceiptsRoot := 4;
     ep_LogsBloom := replicate 256 0; ep_PrevRandao := replicate 32 7; ep_BlockNumber := 8;
     ep_GasLimit := 30000000; ep_GasUsed := 21000; ep_Timestamp := 1700000000;
     ep_ExtraData := [9; 9]; ep_BaseFeePerGas := 2 ^ 200; ep_BlockHash := 2 ^ 256 - 1;
     ep_Transactions := [[1; 2; 3]; []; [4]];
     ep_Withdrawals := Some [];
     ep_BlobGasUsed := Some 5; ep_ExcessBlobGas := Some 6; ep_WithdrawalsRoot := None |}.

Lemma late_payload_ok : payload_ok late_payload.
Proof.
  constructor; try (apply range_check; vm_compute; reflexivity); try reflexivity;
    try (apply Zle_bool_imp_le; vm_compute; reflexivity).
  - split; [constructor|apply Zle_bool_imp_le; vm_compute; reflexivity].
  - split_and!; try (eexists; reflexivity).
Qed.

Lemma beacon_root_rejected_witness : exists out,
  SignAndPublishL2Payload (fun _ _ => Ok ()) config []
    {| de_ParentBeaconBlockRoot := Some 9; de_ExecutionPayload := Some late_payload |}
    (LocalSigner_SignBlockV1 {| ls_priv := Some key |}) = Ok ()
  /\ blocksValidator config (crypto_Address key) BlockV3 1700000001 out (empty_state (C := cache))
     = (ValidationReject, None, empty_state).
Proof.
  destruct (beacon_root_rejected (fun _ _ => Ok ()) config [] late_payload 9 key
    (signature (hash_bytes 9 ++ encoding late_payload)) 10 1700000001 (empty_state (C := cache))) as (out & H1 & H2).
  - exact late_payload_ok.
  - vm_compute. discriminate.
  - reflexivity.
  - split; [apply Zle_bool_imp_le; reflexivity|reflexivity].
  - discriminate.
  - intros raw. unfold Envelope_MarshalSSZ. cbn [de_ExecutionPayload de_ParentBeaconBlockRoot].
    rewrite (MarshalSSZ_spec _ late_payload_ok). intros E. apply Ok_inj in E as <-. reflexivity.
  - vm_compute. reflexivity.
  - vm_compute. reflexivity.
  - exists out. split; [exact H1|exact H2].
Defined.
End GossipExamples.
