(* ===== verification/GossipConcurrency.v ===== *)
(** * Concurrent validators of block gossip

    A worker that runs alone does what the validator does; together, the
    workers of a topic accept a bounded number of blocks at each height that
    stays in the cache. *)

From stdpp Require Import base gmap list.
From S2P Require Import Prelude EthTypes RollupConfig Ssz SszCodec P2PBase Signer Gossip GossipTheorems.

(** ** Counting *)

Definition tally {A} (f : A -> bool) (l : list A) : nat := sum_list_with (fun x => Nat.b2n (f x)) l.

Lemma tally_app {A} (f : A -> bool) l1 l2 : tally f (l1 ++ l2) = (tally f l1 + tally f l2)%nat.
Proof. apply sum_list_with_app. Qed.

Lemma tally_le {A} (f : A -> bool) l : (tally f l <= length l)%nat.
Proof. induction l as [|x l IH]; [done|]. unfold tally in *. simpl. destruct (f x); simpl; lia. Qed.

Lemma tally_insert {A} (f : A -> bool) l i x y : l !! i = Some x ->
  (tally f (<[i:=y]> l) + Nat.b2n (f x) = tally f l + Nat.b2n (f y))%nat.
Proof.
  revert i. unfold tally. induction l as [|z l IH]; intros [|i] Hi; simplify_eq/=; [lia|].
  specialize (IH _ Hi). lia.
Qed.

Lemma tally_delete {A} (f : A -> bool) l i x : l !! i = Some x ->
  (tally f (delete i l) + Nat.b2n (f x) = tally f l)%nat.
Proof.
  revert i. unfold tally. induction l as [|z l IH]; intros [|i] Hi; simplify_eq/=; [lia|].
  specialize (IH _ Hi). unfold delete in *. lia.
Qed.

Lemma tally_two {A} (f g : A -> bool) l : (forall x, f x = true -> g x = false) ->
  (tally f l + tally g l <= length l)%nat.
Proof.
  intros Hfg. unfold tally. induction l as [|x l IH]; [done|]. simpl. specialize (Hfg x).
  destruct (f x), (g x); simpl; naive_solver lia.
Qed.

(** The lengths of the lists of a height. *)
Definition total (n : Z) (owner : list Z) (heap : list seenBlocks) : nat :=
  sum_list_with (fun '(o, sb) => if decide (o = n) then length sb else 0%nat) (zip owner heap).

Lemma total_app n owner heap : length owner = length heap -> forall o sb,
  total n (owner ++ [o]) (heap ++ [sb]) = (total n owner heap + if decide (o = n) then length sb else 0)%nat.
Proof.
  intros Hl o sb. unfold total. rewrite zip_with_app by done. rewrite sum_list_with_app. simpl. lia.
Qed.

Lemma total_mark n owner heap p o sb h : owner !! p = Some o -> heap !! p = Some sb ->
  total n owner (<[p := sb ++ [h]]> heap) = (total n owner heap + if decide (o = n) then 1 else 0)%nat.
Proof.
  revert heap p. unfold total. induction owner as [|x owner IH]; intros [|y heap] [|p] Ho Hh; simplify_eq/=.
  - case_decide; rewrite ?length_app; simpl; lia.
  - specialize (IH _ _ Ho Hh). unfold insert in *. simpl in *. lia.
Qed.

Lemma total_bound n owner heap b : (forall p sb, heap !! p = Some sb -> (length sb <= b)%nat) ->
  (total n owner heap <= tally (fun o => bool_decide (o = n)) owner * b)%nat.
Proof.
  unfold total, tally. revert heap. induction owner as [|o owner IH]; intros [|sb heap] Hb; simpl; [lia..|].
  specialize (IH heap (fun p => Hb (S p))). specialize (Hb 0%nat sb eq_refl).
  destruct (decide (o = n)); [rewrite bool_decide_true by done|rewrite bool_decide_false by done]; simpl; lia.
Qed.

(** ** The invariant of the workers *)

Definition w_payload (w : worker) : ExecutionPayload :=
  match w with WGet p | WAdd p | WCheck p _ | WMark p _ => p end.

Definition w_ptr (w : worker) : option nat :=
  match w with WCheck _ p | WMark _ p => Some p | _ => None end.

Definition at_add (n : Z) (w : worker) : bool :=
  match w with WAdd payload => ep_BlockNumber payload =? n | _ => false end.

Definition at_mark (q : nat) (w : worker) : bool :=
  match w with WMark _ p => (p =? q)%nat | _ => false end.

Definition at_height (n : Z) (payload : ExecutionPayload) : bool := ep_BlockNumber payload =? n.

Section invariant.
Context {C : Type} `{!Lru C Z nat} {cap : nat} `{!LruLaws C Z nat cap} (limit : nat).

(** [owner] tells the height that each list was made for.  A list has room for
    what the workers at its mark add; a height that was never evicted has no
    more lists than workers missed it at once. *)
Record inv (owner : list Z) (s : Validators C) : Prop := {
  iv_len : length owner = length (seen_heap (vs_state s));
  iv_ptr m q : height_ptr (vs_state s) m = Some q -> owner !! q = Some m;
  iv_worker i w q : vs_workers s !! i = Some w -> w_ptr w = Some q ->
    owner !! q = Some (ep_BlockNumber (w_payload w));
  iv_room q sb : seen_heap (vs_state s) !! q = Some sb ->
    (length sb + tally (at_mark q) (vs_workers s) <= 5 + limit)%nat;
  iv_acc n : tally (at_height n) (vs_accepted s) = total n owner (seen_heap (vs_state s));
  iv_new n : n ∉ vs_evicted s -> height_ptr (vs_state s) n = None ->
    tally (fun o => bool_decide (o = n)) owner = 0%nat;
  iv_miss n : n ∉ vs_evicted s ->
    (tally (fun o => bool_decide (o = n)) owner + tally (at_add n) (vs_workers s) <= limit)%nat;
  iv_limit : (length (vs_workers s) <= limit)%nat }.

Lemma lookup_delete_inv {A} (l : list A) i j x : delete i l !! j = Some x -> exists j', l !! j' = Some x.
Proof. rewrite list_lookup_delete. case_decide; eauto. Qed.

Lemma get_step owner s i payload : inv owner s -> vs_workers s !! i = Some (WGet payload) ->
  inv owner (worker_step (WGet payload) i s).
Proof.
  intros [Hl Hp Hw Hr Ha Hn Hm Hlim] Hi. simpl. set (n := ep_BlockNumber payload).
  destruct (get_height_spec n (vs_state s)) as (st & -> & Hh & Hptr).
  set (w := match height_ptr (vs_state s) n with Some p => WCheck payload p | None => WAdd payload end).
  assert (forall q, at_mark q w = false) as Hwm by (intros q; unfold w; by destruct (height_ptr _ n)).
  split; simpl; rewrite ?Hh; [done| | | |done| | |by rewrite length_insert].
  - intros m q. rewrite Hptr. apply Hp.
  - intros j w' q Hj Hq. apply list_lookup_insert_Some in Hj as [(-> & <- & _)|[_ Hj]]; [|by eapply Hw].
    unfold w in *. destruct (height_ptr (vs_state s) n) as [p|] eqn:E; simplify_eq/=. by apply Hp.
  - intros q sb Hq. pose proof (tally_insert (at_mark q) _ _ _ w Hi) as Hc. rewrite Hwm in Hc. simpl in Hc.
    specialize (Hr _ _ Hq). lia.
  - intros m Hev. rewrite Hptr. by apply Hn.
  - intros m Hev. specialize (Hm _ Hev). specialize (Hn m Hev).
    pose proof (tally_insert (at_add m) _ _ _ w Hi) as Hc. simpl in Hc.
    destruct (at_add m w) eqn:E; simpl in Hc; [|lia].
    assert (height_ptr (vs_state s) m = None) as Hnone.
    { unfold w in E. destruct (height_ptr (vs_state s) n) eqn:En; [done|]. simpl in E.
      apply Z.eqb_eq in E. fold n in E. by subst m. }
    rewrite (Hn Hnone). pose proof (tally_le (at_add m) (<[i:=w]> (vs_workers s))) as Hle.
    rewrite length_insert in Hle. lia.
Qed.

Lemma add_step owner s i payload : inv owner s -> vs_workers s !! i = Some (WAdd payload) ->
  inv (owner ++ [ep_BlockNumber payload]) (worker_step (WAdd payload) i s).
Proof.
  intros [Hl Hp Hw Hr Ha Hn Hm Hlim] Hi. simpl. set (n := ep_BlockNumber payload).
  destruct (add_height_spec n (vs_state s)) as (ev & st & -> & Hh & Hptr & Hsub & Hsame & Hev).
  rewrite <- Hl in *.
  assert ((owner ++ [n]) !! length owner = Some n) as Hown by (rewrite lookup_app_r, Nat.sub_diag by done; done).
  assert (forall q o, owner !! q = Some o -> (owner ++ [n]) !! q = Some o) as Hold
    by (intros q o Hq; by apply lookup_app_l_Some).
  split; simpl; rewrite ?Hh.
  - rewrite !length_app. simpl. lia.
  - intros m q Hq. destruct (decide (m = n)) as [->|Hmn]; [rewrite Hptr in Hq; by simplify_eq|].
    apply Hold, Hp. by apply Hsub.
  - intros j w q Hj Hq. apply list_lookup_insert_Some in Hj as [(-> & <- & _)|[_ Hj]]; [by simplify_eq/=|].
    apply Hold. by eapply Hw.
  - intros q sb Hq. pose proof (tally_insert (at_mark q) _ _ _ (WCheck payload (length owner)) Hi) as Hc. simpl in Hc.
    apply lookup_app_Some in Hq as [Hq|[Hge Hq]]; [specialize (Hr _ _ Hq); lia|].
    apply list_lookup_singleton_Some in Hq as [_ <-]. simpl.
    pose proof (tally_le (at_mark q) (<[i:=WCheck payload (length owner)]> (vs_workers s))) as Hle.
    rewrite length_insert in Hle. lia.
  - intros m. rewrite total_app, Ha by done. simpl. case_decide; lia.
  - intros m [He Hev']%not_elem_of_app Hnone. destruct (decide (m = n)) as [->|Hmn]; [congruence|].
    rewrite tally_app. rewrite Hsame in Hnone by done. rewrite (Hn m Hev' Hnone). unfold tally. simpl.
    rewrite bool_decide_false by done. done.
  - intros m [He Hev']%not_elem_of_app. rewrite tally_app. specialize (Hm m Hev').
    pose proof (tally_insert (at_add m) _ _ _ (WCheck payload (length owner)) Hi) as Hc. simpl in Hc. fold n in Hc.
    unfold tally at 2. simpl. destruct (Z.eqb_spec n m) as [->|Hmn].
    + rewrite bool_decide_true by done. simpl in *. lia.
    + rewrite bool_decide_false by done. simpl in *. lia.
  - by rewrite length_insert.
Qed.

(** A worker that leaves keeps the bounds of the others. *)
Lemma check_step owner s i payload p : inv owner s -> vs_workers s !! i = Some (WCheck payload p) ->
  inv owner (worker_step (WCheck payload p) i s).
Proof.
  intros [Hl Hp Hw Hr Ha Hn Hm Hlim] Hi. unfold worker_step.
  set (h := ep_BlockHash payload). set (v := seen_verdict p h (vs_state s)).
  assert (v = ValidationAccept -> (length (deref p (vs_state s)) <= 5)%nat) as Hv.
  { unfold v, seen_verdict, hasSeen. destruct (Z.ltb_spec 5 (Z.of_nat (length (deref p (vs_state s))))); [done|lia]. }
  assert (forall ws, (ws = delete i (vs_workers s) \/ v = ValidationAccept /\ ws = <[i:=WMark payload p]> (vs_workers s)) ->
    inv owner {| vs_state := vs_state s; vs_workers := ws; vs_accepted := vs_accepted s; vs_evicted := vs_evicted s |}) as Hws.
  2: { destruct v eqn:Ev; apply Hws; [right|left..]; done. }
  intros ws [->|[Hva ->]]; split; simpl; try done.
  - intros j w q Hj Hq. apply lookup_delete_inv in Hj as [j' Hj]. by eapply Hw.
  - intros q sb Hq. pose proof (tally_delete (at_mark q) _ _ _ Hi). specialize (Hr _ _ Hq). lia.
  - intros m Hev. pose proof (tally_delete (at_add m) _ _ _ Hi). specialize (Hm _ Hev). lia.
  - rewrite length_delete by by eexists. lia.
  - intros j w q Hj Hq. apply list_lookup_insert_Some in Hj as [(-> & <- & _)|[_ Hj]]; [|by eapply Hw].
    simplify_eq/=. by apply (Hw _ _ _ Hi).
  - intros q sb Hq. pose proof (tally_insert (at_mark q) _ _ _ (WMark payload p) Hi) as Hc. simpl in Hc.
    specialize (Hr _ _ Hq). destruct (Nat.eqb_spec p q) as [->|Hpq]; simpl in Hc; [|lia].
    specialize (Hv Hva). unfold deref in Hv. rewrite Hq in Hv. simpl in Hv.
    pose proof (tally_le (at_mark q) (<[i:=WMark payload q]> (vs_workers s))) as Hle. rewrite length_insert in Hle. lia.
  - intros m Hev. pose proof (tally_insert (at_add m) _ _ _ (WMark payload p) Hi) as Hc. simpl in Hc.
    specialize (Hm _ Hev). lia.
  - by rewrite length_insert.
Qed.

Lemma mark_step owner s i payload p : inv owner s -> vs_workers s !! i = Some (WMark payload p) ->
  inv owner (worker_step (WMark payload p) i s).
Proof.
  intros [Hl Hp Hw Hr Ha Hn Hm Hlim] Hi. pose proof (Hw _ _ _ Hi eq_refl) as Ho. simpl in Ho.
  assert (exists sb, seen_heap (vs_state s) !! p = Some sb) as [sb Hsb].
  { apply lookup_lt_is_Some. rewrite <- Hl. by eapply lookup_lt_Some. }
  assert (deref p (vs_state s) = sb) as Hd by exact (f_equal (default []) Hsb).
  unfold worker_step, mark_seen, markSeen. rewrite Hd.
  split; unfold height_ptr in *; simpl; [by rewrite length_insert|done| | | |done| |].
  - intros j w q Hj Hq. apply lookup_delete_inv in Hj as [j' Hj]. by eapply Hw.
  - intros q sb' Hq. pose proof (tally_delete (at_mark q) _ _ _ Hi) as Hc. simpl in Hc.
    apply list_lookup_insert_Some in Hq as [(-> & <- & _)|[Hne Hq]].
    + rewrite Nat.eqb_refl in Hc. simpl in Hc. specialize (Hr _ _ Hsb). rewrite length_app. simpl. lia.
    + specialize (Hr _ _ Hq). lia.
  - intros n. rewrite (total_mark _ _ _ _ _ _ _ Ho Hsb), <- Ha. unfold tally. simpl. unfold at_height.
    destruct (Z.eqb_spec (ep_BlockNumber payload) n); case_decide; simpl; lia.
  - intros m Hev. pose proof (tally_delete (at_add m) _ _ _ Hi). specialize (Hm _ Hev). lia.
  - rewrite length_delete by by eexists. lia.
Qed.

Lemma start_step owner s payload : inv owner s -> (length (vs_workers s) < limit)%nat ->
  inv owner {| vs_state := vs_state s; vs_workers := vs_workers s ++ [WGet payload];
               vs_accepted := vs_accepted s; vs_evicted := vs_evicted s |}.
Proof.
  intros [Hl Hp Hw Hr Ha Hn Hm Hlim] Hlt. split; simpl; try done.
  - intros j w q Hj Hq. apply lookup_app_Some in Hj as [Hj|[_ Hj]]; [by eapply Hw|].
    apply list_lookup_singleton_Some in Hj as [_ <-]. done.
  - intros q sb Hq. rewrite tally_app. unfold tally at 2. simpl. specialize (Hr _ _ Hq). lia.
  - intros m Hev. rewrite tally_app. unfold tally at 3. simpl. specialize (Hm _ Hev). lia.
  - rewrite length_app. simpl. lia.
Qed.

Lemma validators_inv actions s owner : inv owner s -> exists owner', inv owner' (run_validators limit actions s).
Proof.
  revert s owner. induction actions as [|a actions IH]; intros s owner Hinv; [by exists owner|].
  simpl. destruct a as [payload|i]; simpl.
  - destruct (Nat.ltb_spec (length (vs_workers s)) limit); [|by eapply IH]. by eapply IH, start_step.
  - destruct (vs_workers s !! i) as [[]|] eqn:Ei; [..|by eapply IH].
    + by eapply IH, get_step.
    + by eapply IH, add_step.
    + by eapply IH, check_step.
    + by eapply IH, mark_step.
Qed.

Lemma validators_start_inv : inv [] (validators_start empty_state).
Proof.
  split; simpl; try done.
  - intros m q. unfold height_ptr. simpl. by rewrite lru_new_view, lookup_empty.
  - lia.
  - lia.
Qed.

(** C35: however the validators of a topic interleave, a height that is never
    evicted from the cache gets at most [limit * (5 + limit)] accepted blocks,
    where [limit] validators run at once: 36 with the 4 of the code (every
    validator that finds the height missing makes a list of its own, and each
    list takes up to 9), and 6 when they run one after the other. *)
Theorem accepted_bounded actions n :
  let s := run_validators limit actions (validators_start empty_state) in
  n ∉ vs_evicted s -> (tally (at_height n) (vs_accepted s) <= limit * (5 + limit))%nat.
Proof.
  intros s Hev. destruct (validators_inv actions _ _ validators_start_inv) as [owner Hinv]. fold s in Hinv.
  rewrite (iv_acc _ _ Hinv). etrans; [apply (total_bound n owner _ (5 + limit))|].
  - intros p sb Hp. pose proof (iv_room _ _ Hinv _ _ Hp). lia.
  - apply Nat.mul_le_mono_r. pose proof (iv_miss _ _ Hinv n Hev). lia.
Qed.
End invariant.

(** A worker that runs alone to its end does what the validator does. *)
Lemma run_alone {C : Type} `{!Lru C Z nat} limit payload (st : GossipState C) : (0 < limit)%nat ->
  let '(v, _, st') := validate_payload payload st in
  let s := run_validators limit [Start payload; Run 0; Run 0; Run 0; Run 0] (validators_start st) in
  vs_state s = st' /\ vs_workers s = []
  /\ vs_accepted s = (if bool_decide (v = ValidationAccept) then [payload] else []).
Proof.
  intros Hl. unfold run_validators. cbn [foldl validators_step vs_workers validators_start length].
  rewrite (proj2 (Nat.ltb_lt _ _)) by done. cbn [app lookup list_lookup vs_workers worker_step vs_state validators_start].
  unfold validate_payload. destruct (get_height (ep_BlockNumber payload) st) as [[p|] s1].
  - cbn -[seen_verdict mark_seen]. destruct (seen_verdict p (ep_BlockHash payload) s1) eqn:Ev;
      cbn -[mark_seen]; rewrite ?bool_decide_true, ?bool_decide_false by done; done.
  - cbn -[seen_verdict mark_seen add_height]. destruct (add_height (ep_BlockNumber payload) s1) as [[p ev] s2].
    cbn -[seen_verdict mark_seen add_height]. destruct (seen_verdict p (ep_BlockHash payload) s2) eqn:Ev;
      cbn -[mark_seen]; rewrite ?bool_decide_true, ?bool_decide_false by done; done.
Qed.

(** ** A schedule *)

Module ConcurrencyExamples.
Definition block (h : Hash) : ExecutionPayload :=
  {| ep_ParentHash := 1; ep_FeeRecipient := 2; ep_StateRoot := 3; ep_ReceiptsRoot := 4;
     ep_LogsBloom := []; ep_PrevRandao := []; ep_BlockNumber := 8;
     ep_GasLimit := 30000000; ep_GasUsed := 21000; ep_Timestamp := 1700000000;
     ep_ExtraData := []; ep_BaseFeePerGas := 7; ep_BlockHash := h; ep_Transactions := [];
     ep_Withdrawals := None; ep_BlobGasUsed := None; ep_ExcessBlobGas := None; ep_WithdrawalsRoot := None |}.

Definition cache : Type := LruList (K := Z) (V := nat) 1000.

(** A block that is validated at once by worker [i]. *)
Definition one (i : nat) (h : Hash) : list action := [Start (block h); Run i; Run i; Run i].

(** [k] more blocks that are all checked before the first is marked. *)
Definition together (i k : nat) (h : Hash) : list action :=
  mjoin ((fun j => [Start (block (h + Z.of_nat j)); Run (i + j); Run (i + j)]) <$> seq 0 k) ++ replicate k (Run i).

(** Four validators miss the height; each adds it when the list of the one
    before is full. *)
Definition schedule : list action :=
  [Start (block 1); Start (block 2); Start (block 3); Start (block 4); Run 0; Run 1; Run 2; Run 3]
  ++ [Run 0; Run 0; Run 0] ++ mjoin (one 3 <$> [11; 12; 13; 14; 15])
  ++ [Run 0; Run 0; Run 0] ++ mjoin (one 2 <$> [21; 22; 23; 24]) ++ together 2 2 25
  ++ [Run 0; Run 0; Run 0] ++ mjoin (one 1 <$> [31; 32; 33; 34]) ++ together 1 3 35
  ++ [Run 0; Run 0; Run 0] ++ mjoin (one 0 <$> [41; 42; 43; 44]) ++ together 0 4 45.

Definition outcome (limit : nat) (actions : list action) : nat * list Z :=
  let s := run_validators limit actions (validators_start (empty_state (C := cache))) in
  (tally (at_height 8) (vs_accepted s), vs_evicted s).

(** 30 blocks are accepted at one height. *)
Example schedule_accepts_30 : outcome validatorConcurrency schedule = (30%nat, []).
Proof. vm_compute. reflexivity. Qed.

(** The same message, validated twice at once, is accepted twice. *)
Example accepted_twice : outcome validatorConcurrency ([Start (block 1); Start (block 1)]
  ++ [Run 0; Run 0; Run 1; Run 0; Run 1; Run 0; Run 0]) = (2%nat, []).
Proof. vm_compute. reflexivity. Qed.

Lemma accepted_bounded_witness :
  (tally (at_height 8) (vs_accepted (run_validators validatorConcurrency schedule
    (validators_start (empty_state (C := cache))))) <= 36)%nat.
Proof.
  apply (accepted_bounded (cap := 1000) (LruLaws0 := list_lru_laws (K := Z) (V := nat) 1000 ltac:(lia)) validatorConcurrency schedule 8).
  match goal with |- _ ∉ ?l => assert (l = []) as -> by (vm_compute; reflexivity) end.
  apply not_elem_of_nil.
Defined.
End ConcurrencyExamples.
