(* ===== verification/PayloadSyncTheorems.v ===== *)
(** * What block sync forwards

    Every block that the client forwards has the hash that its header says and
    is, by parent hashes of blocks forwarded before it, an ancestor of a block
    that was asked for; a quarantined chain is forwarded from the top once its
    head is trusted; a served block arrives as it was; and how the goroutines
    of the client and of the server can go wrong. *)

From stdpp Require Import base gmap list strings.
From S2P Require Import Prelude EthTypes RollupConfig Ssz SszCodec P2PBase Signer Gossip GossipTheorems PayloadSync.

Section safety.
Context {CT CQ : Type} `{!Lru CT Hash unit} `{!Lru CQ Hash syncResult}.
Context {capT capQ : nat} {LT : LruLaws CT Hash unit capT} {LQ : LruLaws CQ Hash syncResult capQ}.
Context `{Snappy} `{HeaderHash} (cfg : Config) (may_request : PeerID -> bool).

Abbreviation Client := (SyncClient CT CQ).
Abbreviation SyncSys := (SyncSystem CT CQ).

Definition verified_block (payload : ExecutionPayload) : Prop :=
  header_hash (payload_header payload) = ep_BlockHash payload.

(** The hashes that a range request vouches for, through the parent hashes of
    blocks that were forwarded. *)
Inductive canonical (ranges : list rangeRequest) (fwd : list syncResult) : Hash -> Prop :=
  | canonical_end req : req ∈ ranges -> canonical ranges fwd (l2_Hash (rr_end req))
  | canonical_end_parent req : req ∈ ranges -> canonical ranges fwd (l2_ParentHash (rr_end req))
  | canonical_parent f : f ∈ fwd -> canonical ranges fwd (ep_BlockHash (sr_block f)) ->
      canonical ranges fwd (ep_ParentHash (sr_block f)).

Lemma canonical_mono ranges ranges' fwd fwd' h : ranges ⊆ ranges' -> fwd ⊆ fwd' ->
  canonical ranges fwd h -> canonical ranges' fwd' h.
Proof. intros Hr Hf. induction 1; [apply canonical_end|apply canonical_end_parent|apply canonical_parent]; auto. Qed.

(** Each block is vouched for by those that were forwarded before it. *)
Fixpoint fwd_ok (ranges : list rangeRequest) (fwd : list syncResult) : Prop :=
  match fwd with
  | [] => True
  | f :: older => verified_block (sr_block f) /\ canonical ranges older (ep_BlockHash (sr_block f))
                  /\ fwd_ok ranges older
  end.

Lemma fwd_ok_mono ranges ranges' fwd : ranges ⊆ ranges' -> fwd_ok ranges fwd -> fwd_ok ranges' fwd.
Proof.
  intros Hr. induction fwd as [|f fwd IH]; [done|]. intros (Hv & Hc & Ho). split; [done|]. split; [|by apply IH].
  by eapply canonical_mono.
Qed.

Record client_ok (ranges : list rangeRequest) (c : Client) : Prop := {
  co_trusted h : is_Some (lru_view (trusted c) !! h) -> canonical ranges (sc_forwarded c) h;
  co_quarantine h res : lru_view (quarantine c) !! h = Some res -> verified_block (sr_block res);
  co_results : Forall (fun res => verified_block (sr_block res)) (results c);
  co_forwarded : fwd_ok ranges (sc_forwarded c) }.

(** What the eviction callback leaves alone. *)
Lemma evict_fields evicted (c : Client) :
  let c' := foldl onQuarantineEvict c evicted in
  trusted c' = trusted c /\ quarantine c' = quarantine c /\ inFlight c' = inFlight c
  /\ results c' = results c /\ sc_forwarded c' = sc_forwarded c
  /\ peerRequests c' = peerRequests c /\ activeRangeRequests c' = activeRangeRequests c.
Proof.
  cbv zeta. revert c. induction evicted as [|[k v] evicted IH]; intros c; [done|]. cbn [foldl].
  destruct (IH (onQuarantineEvict c (k, v))) as (-> & -> & -> & -> & -> & -> & ->).
  unfold onQuarantineEvict. by destruct (negb _).
Qed.

Lemma quarantine_Add_ok ranges h res c : verified_block (sr_block res) -> client_ok ranges c ->
  client_ok ranges (quarantine_Add h res c).
Proof.
  intros Hv [Ht Hq Hr Hf]. unfold quarantine_Add.
  pose proof (lru_Add_lookup h res (quarantine c)) as Hl. pose proof (lru_Add_sub h res (quarantine c)) as Hs.
  destruct (lru_Add h res (quarantine c)) as [ev q]. simpl in *.
  destruct (evict_fields ev (set_quarantine q c)) as (E1 & E2 & _ & E4 & E5 & _).
  split; rewrite ?E1, ?E2, ?E4, ?E5; simpl; [done| |done|done].
  intros k r Hk. destruct (decide (k = h)) as [->|Hn]; [congruence|]. eapply Hq, Hs; done.
Qed.

Lemma quarantine_Remove_ok ranges h c : client_ok ranges c -> client_ok ranges (quarantine_Remove h c).
Proof.
  intros [Ht Hq Hr Hf]. unfold quarantine_Remove.
  destruct (lru_Remove_view h (quarantine c)) as [Hv _]. destruct (lru_Remove h (quarantine c)) as [ev q]. simpl in *.
  destruct (evict_fields ev (set_quarantine q c)) as (E1 & E2 & _ & E4 & E5 & _).
  split; rewrite ?E1, ?E2, ?E4, ?E5; simpl; [done| |done|done].
  intros k r Hk. rewrite Hv in Hk. apply lookup_delete_Some in Hk as [_ Hk]. by eapply Hq.
Qed.

Lemma trusted_Add_ok ranges h c : canonical ranges (sc_forwarded c) h -> client_ok ranges c ->
  client_ok ranges (trusted_Add h c).
Proof.
  intros Hc [Ht Hq Hr Hf]. split; simpl; [|done..]. intros k [u Hk].
  destruct (decide (k = h)) as [->|Hn]; [done|]. apply Ht. exists u. by eapply (lru_Add_sub h ()).
Qed.

Lemma tryPromote_ok ranges h c : client_ok ranges c -> client_ok ranges (tryPromote h c).
Proof.
  intros [Ht Hq Hr Hf]. unfold tryPromote. destruct (lru_Get_view h (quarantine c)) as [Hg Hv].
  destruct (lru_Get h (quarantine c)) as [o q]. simpl in *. subst o.
  destruct (lru_view (quarantine c) !! h) as [res|] eqn:E; [|split; simpl; by rewrite ?Hv].
  destruct (_ <? _)%nat; split; simpl; rewrite ?Hv; try done.
  apply Forall_app. split; [done|]. constructor; [by eapply Hq|done].
Qed.

Lemma promote_ok ranges rcv res c : verified_block (sr_block res) ->
  canonical ranges (sc_forwarded c) (ep_BlockHash (sr_block res)) -> client_ok ranges c ->
  client_ok ranges (promote rcv res c).
Proof.
  intros Hv Hc Hok. unfold promote. destruct rcv; [done|].
  set (c1 := set_sc_forwarded (res :: sc_forwarded c) c).
  assert (client_ok ranges c1) as H1.
  { destruct Hok as [Ht Hq Hr Hf]. split; simpl; [|done..].
    intros h Hh. eapply canonical_mono; [done| |by apply Ht]. apply list_subseteq_cons, reflexivity. }
  assert (canonical ranges (sc_forwarded c1) (ep_BlockHash (sr_block res))) as Hc1.
  { eapply canonical_mono; [done| |exact Hc]. apply list_subseteq_cons, reflexivity. }
  assert (canonical ranges (sc_forwarded c1) (ep_ParentHash (sr_block res))) as Hp1.
  { apply canonical_parent; [apply elem_of_cons; by left|done]. }
  set (c2 := trusted_Add (ep_BlockHash (sr_block res)) c1).
  assert (client_ok ranges c2) as H2 by by apply trusted_Add_ok.
  set (c3 := quarantine_Remove (ep_BlockHash (sr_block res)) c2).
  assert (client_ok ranges c3) as H3 by by apply quarantine_Remove_ok.
  assert (sc_forwarded c3 = sc_forwarded c1) as Hf3.
  { unfold c3, quarantine_Remove. destruct (lru_Remove _ _) as [ev q].
    by destruct (evict_fields ev (set_quarantine q c2)) as (_ & _ & _ & _ & -> & _). }
  set (c4 := trusted_Add (ep_ParentHash (sr_block res)) c3).
  assert (client_ok ranges c4) as H4 by (apply trusted_Add_ok; [by rewrite Hf3|done]).
  assert (client_ok ranges (tryPromote (ep_ParentHash (sr_block res)) c4)) as H5 by by apply tryPromote_ok.
  destruct (quarantineByNum _ !! _); [by apply quarantine_Remove_ok|done].
Qed.

Lemma onResult_ok ranges rcv res c : verified_block (sr_block res) -> client_ok ranges c ->
  client_ok ranges (onResult rcv res c).
Proof.
  intros Hv Hok. unfold onResult. set (h := ep_BlockHash (sr_block res)).
  set (c1 := set_inFlight _ c). assert (client_ok ranges c1) as H1 by (destruct Hok; by split).
  set (c2 := quarantine_Add h res c1). assert (client_ok ranges c2) as H2 by by apply quarantine_Add_ok.
  set (c3 := set_quarantineByNum _ c2). assert (client_ok ranges c3) as H3 by (destruct H2; by split).
  rewrite lru_Contains_view. destruct (bool_decide _) eqn:E; [|done].
  apply bool_decide_eq_true in E. apply promote_ok; [done| |done]. by apply (co_trusted _ _ H3).
Qed.

(** ** The system *)

Lemma doRequest_verified str num envelope : doRequest cfg str num = RequestOk envelope ->
  exists payload, de_ExecutionPayload envelope = Some payload /\ ep_BlockNumber payload = num
    /\ verified_block payload.
Proof.
  unfold doRequest, request_failed. destruct (str_open str), (str_write str), (str_closeWrite str); try done.
  destruct (read_response cfg num (str_response str)) as [[code|env]|e|]; try done.
  destruct (str_closeRead str); try done. unfold verifyBlock, CheckBlockHash.
  destruct (de_ExecutionPayload env) as [payload|] eqn:Ep; [|done].
  destruct (Z.eqb_spec num (ep_BlockNumber payload)) as [->|]; simpl; [|done].
  destruct (Z.eqb_spec (header_hash (payload_header payload)) (ep_BlockHash payload)); simpl; [|done].
  intros [= <-]. by exists payload.
Qed.

Definition loop_ok (l : peerLoop) : Prop :=
  match pl_phase l with
  | PeerSend _ envelope => verified_block (env_ExecutionPayload envelope)
  | _ => True
  end.

Record sys_ok (s : SyncSys) : Prop := {
  so_client : client_ok (ss_accepted s) (ss_client s);
  so_loops : Forall loop_ok (ss_loops s) }.

(** Steps that touch neither the blocks nor what is trusted. *)
Lemma client_ok_same ranges c c' : trusted c' = trusted c -> quarantine c' = quarantine c -> results c' = results c ->
  sc_forwarded c' = sc_forwarded c -> client_ok ranges c -> client_ok ranges c'.
Proof. intros E1 E2 E3 E4 []. split; by rewrite ?E1, ?E2, ?E3, ?E4. Qed.

Ltac same_client :=
  match goal with Hok : client_ok _ ?c |- client_ok _ ?c' => refine (client_ok_same _ c c' _ _ _ _ Hok); reflexivity end.

Lemma client_ok_ranges ranges ranges' c : ranges ⊆ ranges' -> client_ok ranges c -> client_ok ranges' c.
Proof.
  intros Hr [Ht Hq Hre Hf]. split; [|done..|by eapply fwd_ok_mono].
  intros h Hh. by eapply canonical_mono; [| |apply Ht].
Qed.

Lemma main_step_ok ranges done p c : client_ok ranges c -> client_ok ranges (main_step done p c).2.
Proof.
  intros Hok. destruct p as [|req num|req num|]; simpl; [done| |same_client|done].
  unfold range_iter. destruct (_ <=? _); [done|]. destruct (quarantineByNum c !! num) as [h|].
  - simpl. destruct (lru_Contains _ _); [by apply tryPromote_ok|done].
  - destruct (requestIdMap_get _ _); [done|]. destruct done; [done|].
    destruct (_ <? _)%nat; simpl; [same_client|done].
Qed.

Lemma peer_step_ok ranges answer l c p c' : client_ok ranges c -> loop_ok l ->
  peer_step cfg may_request answer l c = (p, c') -> client_ok ranges c' /\ loop_ok (set_phase p l).
Proof.
  intros Hok Hl. unfold peer_step, loop_ok in *. destruct (pl_phase l) as [|pr|pr|pr|pr env|pr e|pr e|].
  - destruct (peerRequests c); [by intros [= <- <-]|]. destruct (may_request _); intros [= <- <-]; [|done].
    split; [same_client|done].
  - destruct (requestIdMap_get _ _); by intros [= <- <-].
  - intros [= <- <-]. split; [same_client|done].
  - destruct (doRequest cfg answer (pr_num pr)) as [env|e|] eqn:E; simpl; [|by intros [= <- <-]..].
    destruct (doRequest_verified _ _ _ E) as (payload & Hp & _ & Hv). unfold not_nil_payload. rewrite Hp.
    by intros [= <- <-].
  - destruct (_ <? _)%nat; intros [= <- <-]; [|done]. split; [|done].
    destruct Hok as [Ht Hq Hr Hf]. split; simpl; [done..| |done]. apply Forall_app. split; [done|]. by constructor.
  - intros [= <- <-]. split; [same_client|done].
  - intros [= <- <-]. split; [|done]. destruct e as [code|e]; [destruct (code =? _)|]; same_client.
  - by intros [= <- <-].
Qed.

Lemma sync_step_ok s a : sys_ok s -> sys_ok (sync_step cfg may_request s a).
Proof.
  intros [Hc Hl]. destruct a as [start end_|i|i|done|rcv|id|id| | |i answer|i|i]; simpl.
  - unfold RequestL2Range. destruct (bool_decide _); [done|]. split; [same_client|done].
  - unfold abandon_range. destruct (ss_pending s !! i); [|done]. split; [same_client|done].
  - unfold accept_range. destruct (ss_main s); try done. destruct (ss_pending s !! i) as [req|]; [|done]. split; [|done]. simpl.
    assert (req ∈ req :: ss_accepted s) as Hin by (apply elem_of_cons; by left).
    assert (client_ok (req :: ss_accepted s) (ss_client s)) as H1.
    { eapply client_ok_ranges, Hc. apply list_subseteq_cons, reflexivity. }
    apply trusted_Add_ok; [by apply canonical_end_parent|]. apply trusted_Add_ok; [by apply canonical_end|done].
  - split; [by apply main_step_ok|done].
  - unfold take_result. destruct (ss_main s); try done. destruct (results (ss_client s)) as [|res rest] eqn:E; [done|].
    pose proof (co_results _ _ Hc) as Hr. rewrite E in Hr. apply Forall_cons in Hr as [Hres Hrest].
    split; [|done]. simpl. apply onResult_ok; [done|]. destruct Hc as [Ht Hq _ Hf]. by split.
  - unfold AddPeer. destruct (closingPeers s); [done|]. destruct (ss_peers s !! id); [done|].
    split; [done|]. simpl. apply Forall_app. split; [done|]. by constructor.
  - unfold RemovePeer. destruct (closingPeers s); [done|]. destruct (ss_peers s !! id) as [i|]; [|done].
    split; [done|]. simpl. apply Forall_alter; [done|]. by intros l _ Hlo.
  - split; [done|]. simpl. apply Forall_fmap. eapply Forall_impl; [exact Hl|done].
  - unfold stop_main. destruct (ss_main s); try done. by destruct (closingPeers s).
  - unfold loop_step. destruct (ss_loops s !! i) as [l|] eqn:El; [|done].
    assert (loop_ok l) as Hlo by by eapply (Forall_lookup_1 _ _ _ _ Hl El).
    destruct (peer_step cfg may_request answer l (ss_client s)) as [p c] eqn:E.
    destruct (peer_step_ok _ _ _ _ _ _ Hc Hlo E) as [Hc' Hl']. split; [done|]. simpl. by apply Forall_insert.
  - unfold loop_cancel_send. destruct (ss_loops s !! i) as [l|]; [|done]. destruct (pl_phase l); try done.
    destruct (pl_cancelled l); [|done]. split; [done|]. simpl. by apply Forall_insert.
  - unfold loop_exit. destruct (ss_loops s !! i) as [l|]; [|done]. destruct (pl_phase l); try done.
    destruct (pl_cancelled l); [|done]. split; [done|]. simpl. by apply Forall_insert.
Qed.

Lemma sync_run_ok actions s : sys_ok s -> sys_ok (sync_run cfg may_request actions s).
Proof. revert s. induction actions as [|a actions IH]; intros s Hs; [done|]. by apply IH, sync_step_ok. Qed.

Lemma new_client_ok : sys_ok NewSyncClient.
Proof.
  split; [|constructor]. split; simpl; [|..|constructor|done]; intros h; rewrite lru_new_view, lookup_empty; [|done].
  by intros [u Hu].
Qed.

(** C10: whatever peers answer and however the goroutines interleave, every
    block that the client forwards has the hash of its header, and that hash is
    the sync target of a range request, its parent, or the parent hash of a
    block that was forwarded earlier for the same reason: no peer can slip in a
    block that the target does not vouch for. *)
Theorem sync_forwards_ancestors actions newer f older :
  let s := sync_run cfg may_request actions NewSyncClient in
  sc_forwarded (ss_client s) = newer ++ f :: older ->
  verified_block (sr_block f) /\ canonical (ss_accepted s) older (ep_BlockHash (sr_block f)).
Proof.
  intros s Hs. pose proof (co_forwarded _ _ (so_client _ (sync_run_ok actions _ new_client_ok))) as Hf.
  fold s in Hf. rewrite Hs in Hf. clear Hs. induction newer as [|g newer IH]; simpl in Hf; [by destruct Hf as (? & ? & _)|].
  apply IH, Hf.
Qed.

(** ** A quarantined chain is forwarded *)

Definition sr_hash (res : syncResult) : Hash := ep_BlockHash (sr_block res).
Definition sr_num (res : syncResult) : Z := ep_BlockNumber (sr_block res).

(** Blocks from the highest down, each the parent of the one before. *)
Fixpoint linked (chain : list syncResult) : Prop :=
  match chain with
  | b :: (b' :: _) as rest => ep_ParentHash (sr_block b) = sr_hash b' /\ sr_num b -u 1 = sr_num b' /\ linked rest
  | _ => True
  end.

(** The head of the chain is a pending result and trusted; the rest of it is in
    quarantine, which has place for one more block. *)
Record chain_ready (chain : list syncResult) (c : Client) : Prop := {
  cr_results : results c = take 1 chain;
  cr_trusted b : head chain = Some b -> is_Some (lru_view (trusted c) !! sr_hash b);
  cr_quarantine b : b ∈ tail chain -> lru_view (quarantine c) !! sr_hash b = Some b;
  cr_index n b : b ∈ chain -> quarantineByNum c !! n = Some (sr_hash b) -> n = sr_num b;
  cr_size : (size (lru_view (quarantine c)) < capQ)%nat }.

Lemma evict_index evicted (c : Client) : quarantineByNum (foldl onQuarantineEvict c evicted) ⊆ quarantineByNum c.
Proof.
  revert c. induction evicted as [|[k v] evicted IH]; intros c; [done|]. cbn [foldl].
  etrans; [apply IH|]. unfold onQuarantineEvict. destruct (negb _); simpl; apply delete_subseteq.
Qed.

Lemma quarantine_Remove_spec h (c : Client) :
  let c' := quarantine_Remove h c in
  lru_view (quarantine c') = delete h (lru_view (quarantine c)) /\ trusted c' = trusted c
  /\ results c' = results c /\ sc_forwarded c' = sc_forwarded c
  /\ quarantineByNum c' ⊆ quarantineByNum c.
Proof.
  cbv zeta. unfold quarantine_Remove. destruct (lru_Remove_view h (quarantine c)) as [Hv _].
  destruct (lru_Remove h (quarantine c)) as [ev q]. simpl in Hv.
  destruct (evict_fields ev (set_quarantine q c)) as (-> & -> & _ & -> & -> & _).
  split_and!; [exact Hv|done|done|done|apply (evict_index ev (set_quarantine q c))].
Qed.

Lemma quarantine_Add_spec h res (c : Client) : (size (lru_view (quarantine c)) < capQ)%nat ->
  let c' := quarantine_Add h res c in
  lru_view (quarantine c') = <[h:=res]> (lru_view (quarantine c)) /\ trusted c' = trusted c
  /\ results c' = results c /\ sc_forwarded c' = sc_forwarded c /\ quarantineByNum c' = quarantineByNum c.
Proof.
  intros Hs. cbv zeta. unfold quarantine_Add.
  destruct (lru_Add_view h res (quarantine c)) as [(He & Hv & _)|(k & v & _ & _ & _ & Hc & _)]; [|lia].
  destruct (lru_Add h res (quarantine c)) as [ev q]. simpl in *. subst ev. simpl. by split_and!.
Qed.

Lemma tryPromote_spec h (c : Client) : results c = [] ->
  let c' := tryPromote h c in
  lru_view (quarantine c') = lru_view (quarantine c) /\ trusted c' = trusted c
  /\ sc_forwarded c' = sc_forwarded c /\ quarantineByNum c' = quarantineByNum c
  /\ results c' = option_list (lru_view (quarantine c) !! h).
Proof.
  intros Hr. cbv zeta. unfold tryPromote. destruct (lru_Get_view h (quarantine c)) as [Hg Hv].
  destruct (lru_Get h (quarantine c)) as [o q]. simpl in *. subst o.
  destruct (lru_view (quarantine c) !! h); simpl; rewrite ?Hr; simpl; by split_and!.
Qed.

(** One result of the chain: the block is forwarded and the next is up. *)
Lemma onResult_chain b rest c : chain_ready (b :: rest) c -> linked (b :: rest) ->
  NoDup (sr_hash <$> b :: rest) -> NoDup (sr_num <$> b :: rest) ->
  let c' := onResult None b (set_results [] c) in
  sc_forwarded c' = b :: sc_forwarded c /\ (rest <> [] -> chain_ready rest c').
Proof.
  intros [Hr Ht Hq Hi Hs] Hlink Hnd Hnn. cbv zeta. simpl in Hr, Hq.
  unfold onResult. fold (sr_hash b) (sr_num b).
  set (c1 := set_inFlight _ _).
  destruct (quarantine_Add_spec (sr_hash b) b c1 Hs) as (Q2 & T2 & R2 & F2 & I2).
  set (c2 := quarantine_Add (sr_hash b) b c1) in *.
  set (c3 := set_quarantineByNum _ c2).
  assert (lru_Contains (sr_hash b) (trusted c3) = true) as ->.
  { rewrite lru_Contains_view. apply bool_decide_eq_true. change (trusted c3) with (trusted c2). rewrite T2. by apply Ht. }
  unfold promote. fold (sr_hash b) (sr_num b).
  set (c4 := trusted_Add _ (set_sc_forwarded _ c3)).
  destruct (quarantine_Remove_spec (sr_hash b) c4) as (Q5 & T5 & R5 & F5 & I5).
  set (c5 := quarantine_Remove (sr_hash b) c4) in *. set (p := ep_ParentHash (sr_block b)).
  destruct (tryPromote_spec p (trusted_Add p c5)) as (Q6 & T6 & F6 & I6 & R6).
  { simpl. rewrite R5. simpl. by rewrite R2. }
  set (c6 := tryPromote p (trusted_Add p c5)) in *. simpl in Q6, I6, F6, R6.
  assert (lru_view (quarantine c6) = delete (sr_hash b) (lru_view (quarantine c))) as Hq6.
  { rewrite Q6, Q5. simpl. rewrite Q2. simpl. by rewrite delete_insert_eq. }
  assert (exists c7, (match quarantineByNum c6 !! (sr_num b -u 1) with Some h => quarantine_Remove h c6 | None => c6 end) = c7
    /\ trusted c7 = trusted c6 /\ results c7 = results c6 /\ sc_forwarded c7 = sc_forwarded c6
    /\ quarantineByNum c7 ⊆ quarantineByNum c6 /\ lru_view (quarantine c7) ⊆ lru_view (quarantine c6)
    /\ (forall h r, lru_view (quarantine c6) !! h = Some r -> quarantineByNum c6 !! (sr_num b -u 1) <> Some h ->
         lru_view (quarantine c7) !! h = Some r)) as (c7 & -> & T7 & R7 & F7 & I7 & Q7 & Q7').
  { destruct (quarantineByNum c6 !! (sr_num b -u 1)) as [h|]; [|by exists c6].
    destruct (quarantine_Remove_spec h c6) as (Q & T & R & F & I). exists (quarantine_Remove h c6).
    split_and!; [done..|rewrite Q; apply delete_subseteq|].
    intros k r Hk Hn. rewrite Q. rewrite lookup_delete_ne; [done|]. congruence. }
  assert (quarantineByNum c7 ⊆ <[sr_num b:=sr_hash b]> (quarantineByNum c)) as Hidx.
  { etrans; [exact I7|]. rewrite I6. etrans; [exact I5|]. simpl. rewrite I2. done. }
  split.
  { rewrite F7, F6, F5. simpl. by rewrite F2. }
  intros Hne. destruct rest as [|b' rest]; [done|]. simpl in Hlink, Hnd, Hnn.
  destruct Hlink as (Hp & Hn & _). apply NoDup_cons in Hnd as [Hnd1 Hnd2], Hnn as [Hnn1 Hnn2].
  assert (forall x, x ∈ b' :: rest -> sr_hash x <> sr_hash b) as Hdiff.
  { intros x Hx E. apply Hnd1. rewrite <- E. apply (list_elem_of_fmap_2 sr_hash (b' :: rest)), Hx. }
  split.
  - rewrite R7, R6, <- Q6, Hq6. unfold p. rewrite Hp, lookup_delete_ne by (intros E; by eapply Hdiff; [left|]).
    by rewrite Hq by left.
  - intros x [= <-]. rewrite T7, T6. simpl. unfold p. rewrite Hp. eexists. apply lru_Add_lookup.
  - intros x Hx. simpl in Hx. apply Q7'.
    + rewrite Hq6, lookup_delete_ne; [|intros E; eapply Hdiff; [by right|done]]. apply Hq. by right.
    + intros E. assert (quarantineByNum c !! (sr_num b -u 1) = Some (sr_hash x)) as Hb.
      { assert (quarantineByNum c6 ⊆ <[sr_num b:=sr_hash b]> (quarantineByNum c)) as H6.
        { rewrite I6. etrans; [exact I5|]. simpl. rewrite I2. done. }
        eapply lookup_weaken in E; [|exact H6]. apply lookup_insert_Some in E as [[_ E]|[_ E]]; [|done].
        exfalso. eapply Hdiff; [by right|done]. }
      apply Hi in Hb; [|by right; right]. rewrite Hn in Hb. apply NoDup_cons in Hnn2 as [Hx2 _].
      apply Hx2. rewrite Hb. by apply list_elem_of_fmap_2.
  - intros n x Hx Hnx. eapply lookup_weaken in Hnx; [|exact Hidx].
    apply lookup_insert_Some in Hnx as [[_ E]|[_ E]]; [by destruct (Hdiff x Hx)|]. apply Hi; [by right|done].
  - eapply Nat.le_lt_trans, Hs. etrans; [by apply map_subseteq_size|]. rewrite Hq6. apply map_subseteq_size, delete_subseteq.
Qed.

(** C36: a chain of quarantined blocks is forwarded.  When its head is trusted and
    is the only result that waits, the quarantine is below its limit, the
    receiver takes every block and no other results come in between, processing
    one result per block forwards the whole chain, from the head down and each
    block once: each forwarded block brings its parent out of quarantine. *)
Theorem quarantined_chain_forwarded chain (s : SyncSys) : ss_main s = MainIdle ->
  chain_ready chain (ss_client s) -> linked chain ->
  NoDup (sr_hash <$> chain) -> NoDup (sr_num <$> chain) ->
  sc_forwarded (ss_client (sync_run cfg may_request (replicate (length chain) (AResult None)) s))
  = reverse chain ++ sc_forwarded (ss_client s).
Proof.
  revert s. induction chain as [|b rest IH]; intros s Hm Hr Hl Hh Hn; [done|].
  destruct (onResult_chain b rest _ Hr Hl Hh Hn) as [Hf Hready].
  cbn [length replicate]. unfold sync_run. cbn [foldl]. fold (sync_run cfg may_request (replicate (length rest) (AResult None))).
  assert (sync_step cfg may_request s (AResult None) = with_client (onResult None b (set_results [] (ss_client s))) s) as ->.
  { simpl. unfold take_result. rewrite Hm. pose proof (cr_results _ _ Hr) as E. simpl in E. by rewrite E. }
  rewrite reverse_cons, <- app_assoc. simpl. rewrite <- Hf.
  destruct rest as [|b' rest]; [done|]. apply (IH (with_client _ s)); [done|by apply Hready| | |].
  - by destruct Hl as (_ & _ & Hl).
  - by apply NoDup_cons in Hh as [_ Hh].
  - by apply NoDup_cons in Hn as [_ Hn].
Qed.

(** ** Scheduling a range *)

(** [k] numbers from [num] down. *)
Fixpoint down (k : nat) (num : Z) : list Z :=
  match k with O => [] | S k => num :: down k (num - 1) end.

Lemma elem_of_down k num m : m ∈ down k num <-> num - Z.of_nat k < m <= num.
Proof.
  revert num. induction k as [|k IH]; intros num; simpl.
  - split; [by intros ?%elem_of_nil|lia].
  - rewrite elem_of_cons, IH. lia.
Qed.

(** A block that the client neither has nor waits for. *)
Definition missing (c : Client) (num : Z) : bool :=
  bool_decide (quarantineByNum c !! num = None) && negb (requestIdMap_get num (inFlight c)).

Lemma tryPromote_index h (c : Client) : let c' := tryPromote h c in
  quarantineByNum c' = quarantineByNum c /\ inFlight c' = inFlight c /\ peerRequests c' = peerRequests c
  /\ trusted c' = trusted c.
Proof.
  cbv zeta. unfold tryPromote. destruct (lru_Get h (quarantine c)) as [[res|] q]; [|done]. by destruct (_ <? _)%nat.
Qed.

Definition mk_request (req : rangeRequest) (num : Z) : peerRequest := {| pr_num := num; pr_rangeReqId := rr_id req |}.

Lemma range_loop_spec req k num c : 0 <= rr_start req -> is_u64 num -> k = Z.to_nat (num - rr_start req) ->
  (length (peerRequests c) + k <= channelSize)%nat ->
  exists c', range_loop (S k) (fun _ => false) req num c = Some c'
    /\ peerRequests c' = peerRequests c ++ (mk_request req <$> List.filter (missing c) (down k num))
    /\ quarantineByNum c' = quarantineByNum c /\ trusted c' = trusted c
    /\ forall m, requestIdMap_get m (inFlight c')
                 = requestIdMap_get m (inFlight c) || (bool_decide (m ∈ down k num) && missing c m).
Proof.
  intros Hs. revert num c. induction k as [|k IH]; intros num c Hn Hk Hroom.
  - cbn [range_loop]. unfold range_iter. rewrite (proj2 (Z.leb_le _ _)) by lia. exists c.
    split_and!; [done|by rewrite app_nil_r|done|done|].
    intros m. rewrite (bool_decide_false (m ∈ down 0 num)) by apply not_elem_of_nil. by rewrite orb_false_r.
  - assert (num -u 1 = num - 1) as Hdec by (apply u64_small; unfold is_u64 in *; lia).
    assert (is_u64 (num - 1)) as Hn' by (unfold is_u64 in *; lia).
    assert (k = Z.to_nat (num - 1 - rr_start req)) as Hk' by lia.
    assert (forall c2, quarantineByNum c2 = quarantineByNum c ->
      (forall m, m < num -> requestIdMap_get m (inFlight c2) = requestIdMap_get m (inFlight c)) ->
      List.filter (missing c2) (down k (num - 1)) = List.filter (missing c) (down k (num - 1))
      /\ forall m, bool_decide (m ∈ down k (num - 1)) && missing c2 m
                   = bool_decide (m ∈ down k (num - 1)) && missing c m) as Hsame.
    { intros c2 E1 E2. assert (forall m, m ∈ down k (num - 1) -> missing c2 m = missing c m) as Hm.
      { intros m Hm%elem_of_down. unfold missing. rewrite E1, E2 by lia. done. }
      split.
      - apply List.filter_ext_in. intros m Hin. apply Hm. by apply list_elem_of_In.
      - intros m. destruct (bool_decide (m ∈ down k (num - 1))) eqn:E; [|done]. simpl. apply Hm.
        by apply bool_decide_eq_true in E. }
    assert (forall m, bool_decide (m ∈ num :: down k (num - 1)) = (m =? num) || bool_decide (m ∈ down k (num - 1))) as Hd.
    { intros m. rewrite (bool_decide_ext _ _ (elem_of_cons (down k (num - 1)) m num)).
      destruct (Z.eqb_spec m num) as [->|Hne]; [by rewrite bool_decide_true by by left|]. simpl.
      apply bool_decide_ext. naive_solver. }
    cbn [range_loop]. unfold range_iter. rewrite (proj2 (Z.leb_gt _ _)) by lia. rewrite Hdec.
    destruct (quarantineByNum c !! num) as [h|] eqn:Eq.
    + set (c2 := if lru_Contains h (trusted c) then tryPromote h c else c).
      assert (quarantineByNum c2 = quarantineByNum c /\ inFlight c2 = inFlight c /\ peerRequests c2 = peerRequests c
        /\ trusted c2 = trusted c) as (E1 & E2 & E3 & E4) by (unfold c2; destruct (lru_Contains _ _); [apply tryPromote_index|done]).
      destruct (IH (num - 1) c2 Hn' Hk') as (c' & Hl & P & B & T & F); [rewrite E3; lia|].
      destruct (Hsame c2 E1) as [Hf Hb]; [by rewrite E2|].
      assert (missing c num = false) as Hmn by (unfold missing; by rewrite Eq).
      exists c'. split; [exact Hl|]. simpl. rewrite Hmn, P, E3, Hf, B, E1, T, E4. split_and!; [done..|].
      intros m. rewrite F, E2, Hb, (Hd m). destruct (Z.eqb_spec m num) as [->|]; [|done].
      rewrite Hmn. by rewrite !andb_false_r.
    + destruct (requestIdMap_get num (inFlight c)) eqn:Ef.
      * destruct (IH (num - 1) c Hn' Hk') as (c' & Hl & P & B & T & F); [lia|].
        assert (missing c num = false) as Hmn by (unfold missing; by rewrite Ef, andb_false_r).
        exists c'. split; [exact Hl|]. simpl. rewrite Hmn, P, B, T. split_and!; [done..|].
        intros m. rewrite F, (Hd m). destruct (Z.eqb_spec m num) as [->|]; [|done].
        rewrite Hmn. by rewrite !andb_false_r.
      * rewrite (proj2 (Nat.ltb_lt _ _)) by lia.
        set (c2 := (range_mark req num _).2).
        assert (missing c num = true) as Hmn by (unfold missing; by rewrite Eq, Ef).
        destruct (IH (num - 1) c2 Hn' Hk') as (c' & Hl & P & B & T & F); [simpl; rewrite length_app; simpl; lia|].
        destruct (Hsame c2 eq_refl) as [Hf Hb].
        { intros m Hm. unfold requestIdMap_get. simpl. rewrite lookup_insert_ne by lia. done. }
        exists c'. split; [exact Hl|]. simpl. rewrite Hmn, P, Hf, B, T. split_and!; [by simpl; rewrite <- app_assoc|done|done|].
        intros m. rewrite F, Hb, (Hd m). unfold requestIdMap_get at 1. simpl.
        destruct (Z.eqb_spec m num) as [->|Hne]; [rewrite lookup_insert_eq, Hmn; by rewrite orb_true_r|].
        rewrite lookup_insert_ne by done. done.
Qed.

(** A range request terminates, and with room in the channel it asks for
    exactly the blocks strictly between its start and its end that are neither
    in quarantine nor in flight, from the highest down, and marks these as in
    flight; the parent of the end is then trusted. *)
Theorem range_request_schedules req (c : Client) : 0 <= rr_start req ->
  is_u64 (l2_Number (rr_end req)) -> 0 < l2_Number (rr_end req) ->
  let k := Z.to_nat (l2_Number (rr_end req) - 1 - rr_start req) in
  (length (peerRequests c) + k <= channelSize)%nat ->
  exists c', onRangeRequest (S k) (fun _ => false) req c = Some c'
    /\ peerRequests c' = peerRequests c
         ++ (mk_request req <$> List.filter (missing c) (down k (l2_Number (rr_end req) - 1)))
    /\ (forall num, rr_start req < num < l2_Number (rr_end req) ->
          is_Some (quarantineByNum c' !! num) \/ requestIdMap_get num (inFlight c') = true)
    /\ is_Some (lru_view (trusted c') !! l2_ParentHash (rr_end req)).
Proof.
  intros Hs Hn Hpos k Hroom. unfold onRangeRequest. set (c1 := (range_start req c).2).
  assert (l2_Number (rr_end req) -u 1 = l2_Number (rr_end req) - 1) as -> by (apply u64_small; unfold is_u64 in *; lia).
  destruct (range_loop_spec req k (l2_Number (rr_end req) - 1) c1 Hs) as (c' & Hl & P & B & T & F);
    [unfold is_u64 in *; lia|done|done|].
  exists c'. split; [exact Hl|]. split; [exact P|]. split; [|rewrite T; eexists; apply lru_Add_lookup].
  intros num Hnum. rewrite B, F.
  destruct (quarantineByNum c1 !! num) as [h|] eqn:Eq; [by left|]. right.
  destruct (requestIdMap_get num (inFlight c1)) eqn:Ef; [done|]. simpl.
  rewrite bool_decide_true by (apply elem_of_down; unfold k; lia). unfold missing. by rewrite Eq, Ef.
Qed.
End safety.

(** ** One request *)

Section protocol.
Context `{Snappy} `{!SnappyLaws} `{HeaderHash} {CP : Type} `{!Lru CP PeerID unit} (cfg : Config).

Definition envelope_of (root : option Hash) (payload : ExecutionPayload) : DecodedEnvelope :=
  {| de_ParentBeaconBlockRoot := root; de_ExecutionPayload := Some payload |}.

(** The stream of a request on which nothing fails. *)
Definition good_stream (response : bytes) : Stream :=
  {| str_open := None; str_write := None; str_closeWrite := None; str_response := response; str_closeRead := None |}.

(** The fields of a payload are those of its time: a beacon root from Ecotone
    on, and the version that the client expects. *)
Definition fits_fork (root : option Hash) (payload : ExecutionPayload) : Prop :=
  let t := ep_Timestamp payload in
  if IsEcotone cfg t then
    (exists r, root = Some r /\ 0 <= r < 2 ^ 256)
    /\ inferVersion payload = (if IsIsthmus cfg t then BlockV4 else BlockV3)
  else root = None /\ inferVersion payload = (if IsCanyon cfg t then BlockV2 else BlockV1).

(** The bytes before compression, with the version of the response. *)
Definition response_data (root : option Hash) (payload : ExecutionPayload) : bytes :=
  match root with Some r => hash_bytes r | None => [] end ++ encoding payload.

Definition response_version (root : option Hash) : Z := match root with Some _ => 1 | None => 0 end.

Definition response (root : option Hash) (payload : ExecutionPayload) : bytes :=
  [0; response_version root; 0; 0; 0] ++ snappy_frame (response_data root payload).

Lemma write_response_spec env root payload : payload_ok payload -> fits_fork root payload ->
  se_writeHeader env = None -> se_writerClose env = None ->
  write_response cfg env (envelope_of root payload) = (response root payload, Ok ()).
Proof.
  intros Hok Hfit Hh Hc. unfold fits_fork in Hfit. unfold write_response, response, response_data.
  rewrite Hh, Hc. cbn [envelope_of de_ExecutionPayload].
  destruct (IsEcotone cfg (ep_Timestamp payload)).
  - destruct Hfit as [(r & -> & _) _]. unfold Envelope_MarshalSSZ. cbn. by rewrite MarshalSSZ_spec.
  - destruct Hfit as [-> _]. by rewrite MarshalSSZ_spec.
Qed.

Lemma readExecutionPayload_spec root payload : payload_ok payload -> fits_fork root payload ->
  full_size payload + 32 <= maxGossipSize ->
  readExecutionPayload (response_version root) (response_data root payload)
    (IsCanyon cfg (ep_Timestamp payload)) (IsIsthmus cfg (ep_Timestamp payload)) = Ok (envelope_of root payload).
Proof.
  intros Hok Hfit Hsize. pose proof (len_encoding payload Hok) as Hl. pose proof (len_nonneg (encoding payload)).
  rewrite maxGossipSize_value in Hsize. unfold fits_fork in Hfit. unfold readExecutionPayload, response_data, envelope_of.
  destruct (IsEcotone cfg (ep_Timestamp payload)).
  - destruct Hfit as [(r & -> & Hr) Hv]. cbn [response_version Z.eqb Pos.eqb].
    assert (len (hash_bytes r ++ encoding payload) = full_size payload + 32) as Hlen
      by (rewrite len_app, len_hash_bytes; lia).
    rewrite Hlen, u32_small by (unfold two32; lia). rewrite <- Hv. unfold Envelope_UnmarshalSSZ.
    rewrite (proj2 (Z.ltb_ge _ _)) by lia. rewrite cut_app by apply length_be_encode.
    destruct (hash_bytes r ++ encoding payload) eqn:E; [exfalso; unfold len in Hlen; simpl in Hlen; lia|].
    unfold hash_bytes. rewrite length_be_encode. cbn [negb Nat.eqb].
    rewrite u32_small by (unfold two32; lia). replace (full_size payload + 32 - 32) with (full_size payload) by lia.
    rewrite <- (app_nil_r (encoding payload)), UnmarshalSSZ_spec by done. cbn [map_err rbind].
    by rewrite be_fixed by exact Hr.
  - destruct Hfit as [-> Hv]. cbn [response_version Z.eqb app]. rewrite Hl, u32_small by (unfold two32; lia).
    rewrite <- Hv, <- (app_nil_r (encoding payload)), UnmarshalSSZ_spec by done. done.
Qed.

Lemma doRequest_response root payload num : payload_ok payload -> fits_fork root payload ->
  full_size payload + 32 <= maxGossipSize -> len (response root payload) <= maxGossipSize ->
  num = ep_BlockNumber payload -> TimestampForBlock cfg num = ep_Timestamp payload -> verified_block payload ->
  doRequest cfg (good_stream (response root payload)) num = RequestOk (envelope_of root payload).
Proof.
  intros Hok Hfit Hsize Hresp Hnum Hts Hv. unfold doRequest. cbn [good_stream str_open str_write str_closeWrite str_closeRead str_response request_failed].
  assert (read_response cfg num (response root payload) = Ok (inr (envelope_of root payload))) as ->.
  { unfold read_response, LimitReader. rewrite (proj2 (Z.leb_le _ _)) by done. unfold response.
    change ([0; response_version root; 0; 0; 0] ++ snappy_frame (response_data root payload))
      with ([0] ++ ([response_version root; 0; 0; 0] ++ snappy_frame (response_data root payload))).
    rewrite ReadFull_app by done. cbn [map_err rbind].
    assert (le_decode [0] = 0) as -> by reflexivity. cbn [Z.eqb negb].
    rewrite ReadFull_app by done. cbn [map_err rbind].
    assert (len (response_data root payload) <= maxGossipSize) as Hd.
    { unfold response_data. rewrite len_app, (len_encoding payload Hok). destruct root; [rewrite len_hash_bytes|change (len []) with 0]; lia. }
    rewrite snappy_ReadAll_frame by done. cbn [map_err rbind].
    assert (le_decode [response_version root; 0; 0; 0] = response_version root) as -> by by destruct root.
    rewrite Hts, readExecutionPayload_spec by done. done. }
  unfold verifyBlock, CheckBlockHash, envelope_of. cbn [de_ExecutionPayload]. rewrite Hnum, Z.eqb_refl. cbn [negb rbind].
  rewrite (proj2 (Z.eqb_eq _ _)) by exact Hv. done.
Qed.

(** C13: a block that the server has is served and arrives as it was: for a
    request between genesis and the latest block that can exist, when no rate
    limit, wait or stream fails, the lock of the server is free, the payload is
    well-formed, of the fork and at the time of its number, within the message
    size, and has the hash that the client computes of its header (which leaves
    out the withdrawals, the blob gas and the beacon root), the server writes the
    response and reports success, and the client that asked for the number gets
    the same payload, with its beacon root where the chain has one. *)
Theorem sync_request_roundtrip env peer (s : ReqRespServer CP) root payload :
  let num := ep_BlockNumber payload in
  payload_ok payload -> fits_fork root payload -> verified_block payload ->
  full_size payload + 32 <= maxGossipSize -> len (response root payload) <= maxGossipSize ->
  TimestampForBlock cfg num = ep_Timestamp payload ->
  srv_locked s = false -> se_globalWait env = None -> se_peerWait env = None ->
  se_request env = le_encode 8 num -> se_closeRead env = None ->
  se_writeHeader env = None -> se_writerClose env = None ->
  check_request cfg (se_now env) num = Ok () -> se_PayloadByNumber env num = Ok (envelope_of root payload) ->
  exists s', HandleSyncRequest cfg env peer s = Some (s', Some ResultCodeSuccess)
    /\ srv_out s' = srv_out s ++ response root payload /\ srv_locked s' = false
    /\ panicGuard (doRequest cfg (good_stream (response root payload)) num) = inl (envelope_of root payload).
Proof.
  intros num Hok Hfit Hv Hsize Hresp Hts Hlock Hg Hw Hreq Hcr Hwh Hwc Hcheck Hpay.
  assert (exists s1, peer_limit env peer s = Some (s1, Ok ()) /\ srv_locked s1 = false /\ srv_out s1 = srv_out s)
    as (s1 & Hp & Hl1 & Ho1).
  { unfold peer_limit. rewrite Hlock, Hw. destruct (lru_Get peer (peerRateLimits s)) as [[u|] lru]; by eexists. }
  assert (serve_request cfg env s1 = (set_srv_out s1 (response root payload), (num, Ok ()))) as Hs.
  { unfold serve_request, read_request. rewrite Hreq. rewrite <- (app_nil_r (le_encode 8 num)).
    rewrite ReadFull_app by apply length_le_encode. cbn [rbind map_err]. rewrite le8 by apply Hok.
    rewrite Hcr. unfold num in *. rewrite Hcheck, Hpay, write_response_spec by done. done. }
  unfold HandleSyncRequest, handleSyncRequest. rewrite Hg, Hp, Hs. eexists. split; [done|].
  cbn [set_srv_out srv_out srv_locked].
  split_and!; [by rewrite Ho1|done|]. by rewrite doRequest_response.
Qed.

(** The server stops serving after one peer is throttled for too long:
    when the wait for the limiter of a known peer fails, the request ends with
    the mutex still held, and every later request blocks on it. *)
Theorem sync_server_deadlock env peer (s : ReqRespServer CP) u lru e :
  srv_locked s = false -> lru_Get peer (peerRateLimits s) = (Some u, lru) ->
  se_globalWait env = None -> se_peerWait env = Some e ->
  exists s', HandleSyncRequest cfg env peer s
      = Some (s', Some (result_code (Wrap "timed out waiting for global sync rate limit" e)))
    /\ forall env' peer', se_globalWait env' = None -> HandleSyncRequest cfg env' peer' s' = None.
Proof.
  intros Hlock Hget Hg Hw. unfold HandleSyncRequest, handleSyncRequest, peer_limit. rewrite Hg, Hlock, Hget, Hw.
  eexists. split; [done|]. intros env' peer' Hg'. rewrite Hg'. done.
Qed.

(** From Ecotone on, an envelope without a beacon root cannot be served, and
    its error code comes after the header of a successful response. *)
Lemma missing_root_response env payload : IsEcotone cfg (ep_Timestamp payload) = true ->
  se_writeHeader env = None ->
  write_response cfg env (envelope_of None payload)
  = ([0; 1; 0; 0; 0], Err (Wrap "failed to write payload to sync response" ErrMissingData)).
Proof. intros He Hh. unfold write_response. cbn [envelope_of de_ExecutionPayload]. by rewrite He, Hh. Qed.

(** The hash check says nothing about the withdrawals, the blob gas, the root
    of the withdrawals and the beacon root. *)
Lemma CheckBlockHash_ignores root root' payload ws used excess wroot :
  CheckBlockHash (envelope_of root payload)
  = CheckBlockHash (envelope_of root'
      {| ep_ParentHash := ep_ParentHash payload; ep_FeeRecipient := ep_FeeRecipient payload;
         ep_StateRoot := ep_StateRoot payload; ep_ReceiptsRoot := ep_ReceiptsRoot payload;
         ep_LogsBloom := ep_LogsBloom payload; ep_PrevRandao := ep_PrevRandao payload;
         ep_BlockNumber := ep_BlockNumber payload; ep_GasLimit := ep_GasLimit payload;
         ep_GasUsed := ep_GasUsed payload; ep_Timestamp := ep_Timestamp payload;
         ep_ExtraData := ep_ExtraData payload; ep_BaseFeePerGas := ep_BaseFeePerGas payload;
         ep_BlockHash := ep_BlockHash payload; ep_Transactions := ep_Transactions payload;
         ep_Withdrawals := ws; ep_BlobGasUsed := used; ep_ExcessBlobGas := excess;
         ep_WithdrawalsRoot := wroot |}).
Proof. reflexivity. Qed.
End protocol.

(** ** Witnesses and schedules *)

Module SyncExamples.
#[local] Existing Instance GossipExamples.plain_snappy.
#[local] Existing Instance GossipExamples.plain_snappy_laws.

(** A hash that depends on the parent, the number and the time. *)
#[local] Instance toy_hash : HeaderHash := {|
  derive_sha txs := Z.of_nat (length txs);
  header_hash h := 1000 + ph_Number h |}.

Definition tcache : Type := LruList (K := Hash) (V := unit) trustedSize.
Definition qcache : Type := LruList (K := Hash) (V := syncResult) quarantineSize.

Lemma trustedSize_pos : (0 < trustedSize)%nat.
Proof. unfold trustedSize. lia. Qed.

Lemma quarantineSize_pos : (0 < quarantineSize)%nat.
Proof. unfold quarantineSize. lia. Qed.

#[local] Instance tcache_laws : LruLaws tcache Hash unit trustedSize := list_lru_laws trustedSize trustedSize_pos.
#[local] Instance qcache_laws : LruLaws qcache Hash syncResult quarantineSize :=
  list_lru_laws quarantineSize quarantineSize_pos.

(** Block [n] has the hash [1000 + n]. *)
Definition block (n : Z) : ExecutionPayload :=
  {| ep_ParentHash := 1000 + n - 1; ep_FeeRecipient := 2; ep_StateRoot := 3; ep_ReceiptsRoot := 4;
     ep_LogsBloom := replicate 256 0; ep_PrevRandao := replicate 32 7; ep_BlockNumber := n;
     ep_GasLimit := 30000000; ep_GasUsed := 21000; ep_Timestamp := 1000 + 2 * n;
     ep_ExtraData := [9; 9]; ep_BaseFeePerGas := 7; ep_BlockHash := 1000 + n;
     ep_Transactions := [[1; 2; 3]]; ep_Withdrawals := Some [];
     ep_BlobGasUsed := Some 5; ep_ExcessBlobGas := Some 6; ep_WithdrawalsRoot := None |}.

Definition ref (n : Z) : L2BlockRef :=
  {| l2_Hash := 1000 + n; l2_Number := n; l2_ParentHash := 1000 + n - 1; l2_Time := 1000 + 2 * n;
     l2_L1Origin := {| bid_Hash := 1; bid_Number := 1 |}; l2_SequenceNumber := 0 |}.

Definition cfg : Config := GossipExamples.config.
Definition any_peer (id : PeerID) : bool := true.

(** What an honest peer answers, and what a peer without the block does. *)
Definition answer (n : Z) : Stream := good_stream (response (Some 9) (block n)).
Definition not_found : Stream := good_stream [ResultCodeNotFoundErr].

Abbreviation run actions := (sync_run cfg any_peer actions (NewSyncClient (CT := tcache) (CQ := qcache))).

(** Two peers fetch the blocks below block 10 down to block 7; the lower ones
    arrive first. *)
Definition fetch_actions : list sync_action :=
  [AAddPeer "a"; AAddPeer "b"; ARequestL2Range (ref 6) (ref 10); AAccept 0]
  ++ replicate 7 (AMain false)
  ++ [ALoop 0 not_found; ALoop 1 not_found; ALoop 0 not_found; ALoop 1 not_found;
      ALoop 1 (answer 8); ALoop 1 not_found; AResult None; ALoop 1 not_found; ALoop 1 not_found;
      ALoop 1 (answer 7); ALoop 1 not_found; AResult None;
      ALoop 0 (answer 9); ALoop 0 not_found; AResult None; AResult None; AResult None].

Definition res (id : PeerID) (n : Z) : syncResult :=
  {| sr_payload := {| ParentBeaconBlockRoot := Some 9; env_ExecutionPayload := block n |}; sr_peer := id |}.

Lemma fetch_forwards : sc_forwarded (ss_client (run fetch_actions)) = [res "b" 7] ++ res "b" 8 :: [res "a" 9].
Proof. vm_compute. reflexivity. Qed.

Lemma sync_forwards_ancestors_witness :
  verified_block (sr_block (res "b" 8))
  /\ canonical (ss_accepted (run fetch_actions)) [res "a" 9] (ep_BlockHash (sr_block (res "b" 8))).
Proof.
  exact (sync_forwards_ancestors (capT := trustedSize) (capQ := quarantineSize) cfg any_peer fetch_actions _ _ _ fetch_forwards).
Defined.

(** The state in which block 9 arrives; 8 and 7 are in quarantine. *)
Definition before_9 : list sync_action := take (length fetch_actions - 3) fetch_actions.
Definition chain : list syncResult := [res "a" 9; res "b" 8; res "b" 7].

Lemma before_9_main : ss_main (run before_9) = MainIdle.
Proof. vm_compute. reflexivity. Qed.

Lemma before_9_index : quarantineByNum (ss_client (run before_9)) = {[7 := 1007; 8 := 1008]}.
Proof. vm_compute. reflexivity. Qed.

Lemma before_9_ready : chain_ready (capT := trustedSize) (capQ := quarantineSize) chain (ss_client (run before_9)).
Proof.
  split.
  - vm_compute. reflexivity.
  - intros b Hb. injection Hb as <-. vm_compute. by eexists.
  - intros b Hb. simpl in Hb. rewrite !elem_of_cons in Hb.
    destruct Hb as [->|[->|Hb]]; [vm_compute; reflexivity..|by apply not_elem_of_nil in Hb].
  - intros n b Hb Hn. rewrite before_9_index in Hn. apply lookup_insert_Some in Hn as [[<- E]|[_ Hn]].
    + unfold chain in Hb. rewrite !elem_of_cons in Hb.
      destruct Hb as [->|[->|[->|Hb]]]; [discriminate E|discriminate E|reflexivity|by apply not_elem_of_nil in Hb].
    + apply lookup_singleton_Some in Hn as [<- E]. unfold chain in Hb. rewrite !elem_of_cons in Hb.
      destruct Hb as [->|[->|[->|Hb]]]; [discriminate E|reflexivity|discriminate E|by apply not_elem_of_nil in Hb].
  - vm_compute. lia.
Qed.

Lemma quarantined_chain_forwarded_witness :
  sc_forwarded (ss_client (sync_run cfg any_peer (replicate 3 (AResult None)) (run before_9)))
  = reverse chain ++ sc_forwarded (ss_client (run before_9)).
Proof.
  apply (quarantined_chain_forwarded (capT := trustedSize) (capQ := quarantineSize) cfg any_peer chain (run before_9)).
  - exact before_9_main.
  - exact before_9_ready.
  - split; [reflexivity|]. split; [reflexivity|]. split; [reflexivity|]. split; [reflexivity|exact I].
  - apply (bool_decide_unpack _). vm_compute. exact I.
  - apply (bool_decide_unpack _). vm_compute. exact I.
Defined.

Definition a_range : rangeRequest := {| rr_start := 6; rr_end := ref 10; rr_id := 1 |}.

Lemma range_request_schedules_witness : exists c',
  onRangeRequest 4 (fun _ => false) a_range (ss_client (run [])) = Some c'
  /\ is_Some (lru_view (cap := trustedSize) (trusted c') !! 1009).
Proof.
  destruct (range_request_schedules (capT := trustedSize) a_range (ss_client (run []))) as (c' & H1 & _ & _ & H4).
  - discriminate.
  - split; [discriminate|reflexivity].
  - reflexivity.
  - vm_compute. lia.
  - exists c'. split; [exact H1|exact H4].
Defined.

(** A peer that fails at once clears the mark before the main loop sets it:
    the block stays in flight with nobody fetching it, and the next range
    request does not ask for it. *)
Definition race : list sync_action :=
  [AAddPeer "a"; ARequestL2Range (ref 6) (ref 8); AAccept 0; AMain false;
   ALoop 0 not_found; ALoop 0 not_found; ALoop 0 not_found; ALoop 0 not_found; ALoop 0 not_found;
   AMain false; AMain false].

Definition asks_again : list sync_action :=
  [ARequestL2Range (ref 6) (ref 8); AAccept 0; AMain false; AMain false].

Example stuck_in_flight :
  let s := run (race ++ asks_again) in
  isInFlight 7 s = true /\ peerRequests (ss_client s) = [] /\ results (ss_client s) = []
  /\ ss_main s = MainIdle /\ ss_loops s = [{| pl_id := "a"; pl_cancelled := false; pl_phase := PeerIdle |}].
Proof. vm_compute. by split_and!. Qed.

(** A peer that leaves while its loop is busy and comes back loses its
    registration when the old loop ends; the new loop can then not be removed. *)
Definition comes_back : list sync_action :=
  [AAddPeer "a"; ARequestL2Range (ref 6) (ref 8); AAccept 0; AMain false; AMain false; AMain false;
   ALoop 0 not_found; ARemovePeer "a"; AAddPeer "a";
   ALoop 0 not_found; ALoop 0 not_found; ALoop 0 not_found; ALoop 0 not_found; ALoopExit 0].

Example lost_registration :
  let s := run (comes_back ++ [ARemovePeer "a"]) in
  ss_peers s !! "a" = None
  /\ ss_loops s = [{| pl_id := "a"; pl_cancelled := true; pl_phase := PeerExited |};
                   {| pl_id := "a"; pl_cancelled := false; pl_phase := PeerIdle |}].
Proof. vm_compute. by split_and!. Qed.

(** *** The server *)

Definition pcache : Type := LruList (K := PeerID) (V := unit) 1000.

Definition server : ReqRespServer pcache := {| peerRateLimits := lru_new; srv_locked := false; srv_out := [] |}.

Definition served (n : Z) : ServerEnv :=
  {| se_globalWait := None; se_peerWait := None; se_request := le_encode 8 n; se_closeRead := None;
     se_now := 1700000000; se_PayloadByNumber := fun n => Ok (envelope_of (Some 9) (block n));
     se_writeHeader := None; se_writerClose := None; se_pool := [] |}.

Lemma block_ok : payload_ok (block 8).
Proof.
  constructor; try (apply range_check; vm_compute; reflexivity); try reflexivity;
    try (apply Zle_bool_imp_le; vm_compute; reflexivity).
  - split; [constructor|apply Zle_bool_imp_le; vm_compute; reflexivity].
  - split_and!; try (eexists; reflexivity).
Qed.

Lemma block_fits : fits_fork cfg (Some 9) (block 8).
Proof.
  split; [|vm_compute; reflexivity]. exists 9. split; [reflexivity|]. split; [discriminate|reflexivity].
Qed.

Lemma sync_request_roundtrip_witness : exists s',
  HandleSyncRequest cfg (served 8) "a" server = Some (s', Some ResultCodeSuccess)
  /\ panicGuard (doRequest cfg (good_stream (response (Some 9) (block 8))) (ep_BlockNumber (block 8)))
     = inl (envelope_of (Some 9) (block 8)).
Proof.
  destruct (sync_request_roundtrip cfg (served 8) "a" server (Some 9) (block 8)) as (s' & H1 & _ & _ & H4).
  - exact block_ok.
  - exact block_fits.
  - vm_compute. reflexivity.
  - vm_compute. discriminate.
  - vm_compute. discriminate.
  - reflexivity.
  - reflexivity.
  - reflexivity.
  - reflexivity.
  - reflexivity.
  - reflexivity.
  - reflexivity.
  - reflexivity.
  - vm_compute. reflexivity.
  - reflexivity.
  - exists s'. split; [exact H1|exact H4].
Defined.

(** A peer that is known and whose wait fails. *)
Definition throttled : ServerEnv :=
  {| se_globalWait := None; se_peerWait := Some (Msg "would exceed context deadline"); se_request := le_encode 8 8;
     se_closeRead := None; se_now := 1700000000;
     se_PayloadByNumber := fun n => Ok (envelope_of (Some 9) (block n));
     se_writeHeader := None; se_writerClose := None; se_pool := [] |}.

Definition known : ReqRespServer pcache :=
  {| peerRateLimits := (lru_Add "a" () lru_new).2; srv_locked := false; srv_out := [] |}.

Lemma sync_server_deadlock_witness : exists s',
  HandleSyncRequest cfg throttled "a" known = Some (s', Some ResultCodeUnknownErr)
  /\ HandleSyncRequest cfg (served 8) "b" s' = None.
Proof.
  destruct (sync_server_deadlock cfg throttled "a" known () (lru_Get "a" (peerRateLimits known)).2
    (Msg "would exceed context deadline")) as (s' & H1 & H2).
  - reflexivity.
  - vm_compute. reflexivity.
  - reflexivity.
  - reflexivity.
  - exists s'. split; [exact H1|exact (H2 (served 8) "b" eq_refl)].
Defined.
End SyncExamples.
